(* ===== verification/_CoqProject ===== *)
-Q . S2P
Prelude.v
Words.v
Wp.v
Trap.v
Gpr.v
Decode.v
Extensions.v
Csr.v
SyscallEntry.v
SystemBus.v
BusLaws.v
Mmu.v
BlockCache.v
BlockCacheProps.v
Context.v
Float.v
SyscallTrace.v
Execute.v
CsrProps.v
ExecuteFp.v
Interp.v
DecodeProps.v
BlockDecode.v
BlockExec.v
Run.v
ValueProps.v
Invariant.v
BlockInvariant.v
RunProps.v
RamLaws.v
MmuProps.v
FastPath.v
Equiv.v
Io.v
CowRam.v
CowRamProps.v
Layout.v
Clint.v
Plic.v
Uart.v
Virtio.v
VirtioProps.v
VirtioConsole.v
VirtioBlk.v
VirtioNet.v
VirtioInvariant.v
MachineBus.v
MachineRam.v
MachineLaws.v
MachineRun.v
Snapshot.v
Dtb.v
Boot.v
HostNet.v
Frames.v
Tcp.v
TcpProps.v
Dns.v
Slirp.v
SlirpInvariant.v
HostFs.v
Trace.v
VirtioFs.v
FsInvariant.v
Text.v
Secrets.v
Http.v
Processes.v
Identity.v
Syscalls.v
SyscallsLaws.v
SyscallsProps.v
KernelView.v
Gateway.v
Machine.v
Translate.v
Dispatch.v
Repl.v
Session.v
