(* ===== verification/Prelude.v ===== *)
(** A verification of vpod: the RISC-V machine, its translator and its sandboxes.

    vpod runs Linux guests in an RV64GC emulator written in Rust.  This library
    models the processor ([src/crates/riscv-core/src]), the machine around it
    ([src/crates/machine/src]), the ahead-of-time translator
    ([src/crates/vpod-translate/src]) and the sandboxes a host program drives
    ([src/crates/wasi-component/src]: the shell driver and the sessions), in
    their default build (release profile, 64-bit [usize]; of the optional
    features only [aot], in [Dispatch]), and proves what makes them correct.

    ** The program

    A hart ([hart.rs]) owns the registers, the CSRs, the MMU, a small fetch
    cache and a cache of decoded blocks, and is given a bus by the machine.  Its
    run loop ([execute.rs], [run_impl]) takes interrupts, translates the pc, and
    executes straight-line blocks: it looks the physical address up in the block
    cache, decodes the block if it is not there ([block.rs], [decode_block]), and
    runs it ([exec_block]); what the decoder does not understand goes through the
    one-instruction interpreter ([exec_raw]), which also serves [step].  Loads
    and stores of blocks have fast paths through host pages handed out by the
    bus; stores tell the block cache which page they touched, so that code that
    is overwritten is evicted.  User-mode system calls are decoded for the
    tracer ([syscall_trace.rs]) and reported to the bus.

    The bus ([machine_bus.rs]) decodes addresses to copy-on-write RAM
    ([cow_ram.rs]), low memory, four serial ports ([uart.rs]), the timer
    ([clint.rs]), the interrupt controller ([plic.rs]) and virtio devices
    ([virtio/]: registers and queues in [mod.rs], a console, a disk, a network
    card and shared directories).  Behind the network card is a user-mode network
    ([virtio/slirp]) with its own TCP, DNS and DHCP; its HTTPS connections go
    through a gateway ([https_gateway.rs], [tls_proxy], [upstream.rs]) that puts
    secrets in the place of placeholders ([secrets.rs]) and shows the requests to
    the tracer ([trace/http.rs]).  The tracer ([trace/]) follows system calls and
    processes and writes events into a bounded buffer.

    A machine is booted with a kernel and a device tree ([dtb.rs]) or restored
    from a snapshot ([snapshot.rs]).  The translator turns the blocks of a
    snapshot into Rust functions and a dispatcher that the run loop calls.  A
    sandbox ([api/session.rs], [api/executor.rs]) is a machine restored from a
    snapshot whose shell, or Python runner, is given commands over its serial
    ports ([repl.rs]), in slices the host drives.

    ** The files

    State is a record per Rust struct; a method is a function of the same name in
    the state-and-panic monad [ST], whose [None] is a Rust panic; Rust's [Result]
    and [Option] are [Result] and [option].  Integers are [Z] with the wrap-around
    of each operation written out.  A raw host pointer is an allocation and an
    offset.

    - Generic: [Prelude] (records with setters, fixed arrays, [ST], tactics),
      [Words] (machine words and their bits), [Wp] (weakest preconditions for
      [ST]), [Io] (byte streams with errors), [Text] (strings as UTF-8 bytes).
    - The core: [Trap], [Gpr], [Decode], [Extensions], [Csr], [Mmu] (the source
      files of these names), [SystemBus] (the trait as a class, [FlatMemory] as an
      instance), [BlockCache], [BlockDecode] and [BlockExec] ([block.rs]),
      [Context], [Execute], [ExecuteFp] and [Interp] ([execute.rs]: the context,
      one definition per instruction group, [exec_raw]), [Float] (the [f32]/[f64]
      operations, on the Standard Library's binary floats), [SyscallEntry] and
      [SyscallTrace] ([syscall_trace.rs]), [Run] ([run_impl], [step], [hart.rs]).
      Their proofs: [BusLaws], [RamLaws] (the contract of a bus), [CsrProps],
      [BlockCacheProps], [ValueProps], [DecodeProps], [Invariant],
      [BlockInvariant], [RunProps], [MmuProps], [FastPath], [Equiv].
    - The machine: [Layout] ([lib.rs]), [CowRam], [Clint], [Plic], [Uart],
      [Virtio] ([virtio/mod.rs]), [VirtioConsole], [VirtioBlk], [VirtioNet],
      [VirtioFs] ([virtio/fs.rs], over [HostFs]), [MachineBus], [Boot], [Machine]
      ([machine_bus.rs]: the bus, [boot], the machine with its parts attached),
      [Snapshot], [Dtb].  Their proofs are in the same files or in
      [CowRamProps], [VirtioProps], [VirtioInvariant], [FsInvariant],
      [MachineRam], [MachineLaws] (the machine's bus keeps the contract of the
      core, so that every theorem about the core holds of the machine) and
      [MachineRun] (every sequence of a front end's calls).
    - The network: [HostNet] (what is asked of the host), [Frames], [Tcp], [Dns]
      ([slirp/]'s files of these names), [Slirp] (the rest of [slirp/]), [Secrets],
      [Gateway].  Proofs: [TcpProps], [SlirpInvariant], and in the files.
    - The tracer: [Trace] ([trace/mod.rs]), [Http], [Processes], [Identity],
      [Syscalls] (the files of [trace/]).  Proofs: [SyscallsLaws],
      [SyscallsProps], [KernelView], and in the files.
    - The translator: [Translate] (what is written for a block, as statements with
      their text and their effect), [Dispatch] (the dispatcher, page hashes, the
      selection of blocks, the generator of test programs).
    - The sandboxes: [Repl] ([repl.rs]), [Session] ([api/session.rs],
      [api/executor.rs], and the loading of snapshots in [vm.rs]).

    ** What is shown

    - Execution ([Equiv], [Invariant], [BlockInvariant], [RunProps],
      [BlockDecode]).  A decoded block runs in lockstep with the interpreter on
      the encodings it was decoded from, host pages and fast paths included, up to
      which true entries the MMU has cached; those encodings are the ones in
      memory.  Every instruction, block, step and run keeps one invariant
      ([ctx_wf]) and, on a bus that does not panic, returns.
    - Memory ([MmuProps], [FastPath], [CowRamProps], [MachineRam]).  Every address
      the MMU answers from its caches is the one a walk of the page tables gives;
      a load returns the bytes of memory at that address and a store changes
      exactly those bytes, on the fast path or off it; copy-on-write RAM is an
      array of bytes.
    - Self-modifying code ([BlockCacheProps], [FastPath]).  A store evicts exactly
      the cached blocks of its page; a store through the fast path never misses a
      page with cached code.
    - Privilege, arithmetic and decoding ([CsrProps], [Extensions],
      [DecodeProps], [ValueProps]).
    - The machine ([Machine], [MachineLaws], [MachineRun]).  Every state a front
      end's calls reach, in any order, is well formed, with the network, the
      shared directories and the tracer attached.  Timer waits take as long as
      announced unless a 64-bit product wraps ([Clint]); an interrupt source is
      served once until it is completed ([Plic]); serial bytes arrive in order
      ([Uart]).
    - Starting and stopping ([Boot], [Dtb], [Snapshot]).  A booted machine holds
      its images unharmed and a device tree that reads back; a snapshot, full or
      as a delta, restores the machine that was saved, and a stream that is not a
      snapshot changes nothing.
    - Shared directories ([FsInvariant]).  A read-only mount is never written; with
      plain names every path stays below the shared directory.
    - Network ([Frames], [Dns], [TcpProps], [SlirpInvariant]).  Frames and DNS
      replies read back with their checksums; the guest's stream reaches the host
      whole and in order; what is sent to the guest is cut, numbered and bounded
      by its window; the gateway answers pings, and nothing else.
    - Secrets and requests ([Secrets], [Http], [Gateway]).  A secret reaches only
      the hosts it is meant for; how the bytes were cut does not matter, except
      for heads too long to be kept, and then in the way stated.
    - Tracing ([Trace], [SyscallsProps], [KernelView]).  Every event is accounted
      for; the tables stay bounded; what the tracer knows of paths is what a kernel
      keeps, for calls that do not interleave.
    - Translated code ([Translate], [Dispatch]).  What is written for a block does
      what the block executor does, and the dispatcher goes from block to block as
      the run loop would, for the blocks the theorems describe: a fallback that
      makes the executor stop in the middle of a block does not stop the
      translated function, which is shown too.
    - Sandboxes ([Repl], [Session]).  A prompt is never shown; requests touch one
      session; environment values reach the shell; a suspended session reads back.

    ** Bounds

    The run loop is a fixpoint on fuel; [run_fuel] gives it three iterations per
    budgeted instruction and two more, and [run_terminates] shows that this is
    enough: an iteration retires an instruction, accepts an interrupt (both use
    budget) or clears a spurious interrupt line, of which there are at most two
    before one of the others happens.  Loops over descriptor chains and loops a
    peer drives follow data that others control and need not end; they are
    fixpoints on a bound that is a parameter ([LoopBound]), running out of it
    is a panic of the model, and the theorems hold for every bound.  Other loops
    are bounded by the source (64 operations per block, three page-table levels,
    the tracer's limits) or by the length of the data.

    ** Interfaces

    Code outside the repository is a class, an argument of the definitions that
    use it: the host's sockets and resolver ([HostNet]), files ([HostFs],
    [Files]), clocks and randomness ([WallClock], [HostEpoch], [SystemHost]), the
    two ends of a TLS connection ([TlsServer], [TlsClient]), JSON, base64 and LZ4
    ([Json], [Base64], [Lz4Decoder]).  Components meet at classes too: the bus
    ([SystemBus], [HostMemory]), the devices behind it ([NetworkBackend],
    [FsDevice], [TracesSyscalls], [HttpsGateway]), the code a translated function
    calls ([Target]), and the machine of a session ([Guest], [Sandbox]).  What one
    component may assume of another is a class of laws ([BusLaws], [RamLaws],
    [NetworkLaws], [FsLaws], [TracerLaws], [HostLaws], [GatewayLaws],
    [GuestKeeps], [SandboxKeeps]), proved of the implementation where it is in the
    repository.

    ** What is not modelled

    The command-line front ends; the certificates minted for the guest; the
    events the network stack writes of its flows and the timing log; the reading
    of arguments and trace files by the translator; the draining of a session's
    trace; performance counters, log messages, [debug_assert!]s and warnings on
    standard error.  The payload bits of NaN results, which Rust leaves open, are a
    parameter ([FloatEnv]). *)
From stdpp Require Export base gmap list numbers.
From Stdlib Require Export ZArith Lia Bool.

Declare Scope rust_scope.
Delimit Scope rust_scope with rust.
#[global] Open Scope Z_scope.

(** * Record update

    [c <| field := v |>] is the functional form of the assignment
    [c.field = v].  A record type declares its eta expansion once ([Eta]);
    setters are then found by instance search. *)

Class Eta (R : Type) := eta : R -> R.

Class Setter {R T : Type} (proj : R -> T) := set : (T -> T) -> R -> R.
Arguments set {R T} proj {_} _ _ /.

Ltac head_of e :=
  lazymatch e with
  | ?f _ => head_of f
  | ?f => f
  end.

Ltac solve_setter :=
  lazymatch goal with
  | |- @Setter ?R ?T ?proj =>
      let upd := fresh "upd" in
      let r := fresh "r" in
      intros upd r;
      let e := constr:(_ : Eta R) in
      let h := head_of e in
      let body := eval cbv beta delta [h] in (e r) in
      let pat := eval pattern (proj r) in body in
      lazymatch pat with
      | ?g _ => let res := eval cbv beta in (g (upd (proj r))) in exact res
      end
  end.

#[export] Hint Extern 1 (Setter _) => solve_setter : typeclass_instances.

Notation "r <| proj := v |>" := (set proj (fun _ => v) r)
  (at level 1, left associativity, format "r <| proj  :=  v |>") : rust_scope.
#[global] Open Scope rust_scope.

(** * Results

    Rust's [Result<T, E>]; [Option<T>] is [option]. *)

Inductive Result (T E : Type) : Type :=
| Ok (value : T)
| Err (error : E).
Arguments Ok {T E} value.
Arguments Err {T E} error.

Definition map_err {T E F : Type} (f : E -> F) (r : Result T E) : Result T F :=
  match r with Ok v => Ok v | Err e => Err (f e) end.

Definition result_ok {T E : Type} (r : Result T E) : option T :=
  match r with Ok v => Some v | Err _ => None end.

(** * Fixed-size arrays

    [[T; N]] tables that are filled once and then updated at masked indices:
    the fill value and the entries that were written since. *)

Record arr (A : Type) := Arr { arr_fill : A; arr_cells : gmap Z A }.
Arguments Arr {A} arr_fill arr_cells.
Arguments arr_fill {A}.
Arguments arr_cells {A}.

Definition arr_new {A} (x : A) : arr A := Arr x ∅.
Definition arr_get {A} (a : arr A) (i : Z) : A := default (arr_fill a) (arr_cells a !! i).
Definition arr_set {A} (a : arr A) (i : Z) (x : A) : arr A :=
  Arr (arr_fill a) (<[i := x]> (arr_cells a)).
Definition arr_map {A} (f : A -> A) (a : arr A) : arr A :=
  Arr (f (arr_fill a)) (f <$> arr_cells a).

Lemma arr_get_new {A} (x : A) i : arr_get (arr_new x) i = x.
Proof. reflexivity. Qed.

Lemma arr_get_set_eq {A} (a : arr A) i x : arr_get (arr_set a i x) i = x.
Proof. unfold arr_get, arr_set; cbn. by rewrite lookup_insert_eq. Qed.

Lemma arr_get_set_ne {A} (a : arr A) i j x :
  i ≠ j → arr_get (arr_set a i x) j = arr_get a j.
Proof. intros H. unfold arr_get, arr_set; cbn. by rewrite lookup_insert_ne. Qed.

Lemma arr_get_set {A} (a : arr A) i j x :
  arr_get (arr_set a i x) j = if decide (i = j) then x else arr_get a j.
Proof. case_decide; subst; auto using arr_get_set_eq, arr_get_set_ne. Qed.

Lemma arr_get_map {A} (f : A -> A) (a : arr A) i : arr_get (arr_map f a) i = f (arr_get a i).
Proof.
  unfold arr_get, arr_map; cbn. rewrite lookup_fmap. by destruct (arr_cells a !! i).
Qed.

(** * State with panics

    [ST S A] is code that updates a state [S], returns an [A], or panics
    ([None]).  stdpp's monadic notation [x ← m; k] sequences it; [zoom] runs
    code that works on a part of the state. *)

Definition ST (S A : Type) : Type := S -> option (A * S).

#[export] Instance ST_ret (S : Type) : MRet (ST S) := fun A a s => Some (a, s).
#[export] Instance ST_bind (S : Type) : MBind (ST S) :=
  fun A B f m s => match m s with Some (a, s') => f a s' | None => None end.

Definition st_get {S} : ST S S := fun s => Some (s, s).
Definition gets {S A} (f : S -> A) : ST S A := fun s => Some (f s, s).
Definition modify {S} (f : S -> S) : ST S unit := fun s => Some (tt, f s).
Definition panic {S A} : ST S A := fun _ => None.

Definition zoom {S T A} (get : S -> T) (put : T -> S -> S) (m : ST T A) : ST S A :=
  fun s => match m (get s) with Some (a, t) => Some (a, put t s) | None => None end.

Section ST_laws.
Context {S : Type}.

Lemma bind_ret_l {A B} (a : A) (f : A -> ST S B) s : (mret a ≫= f) s = f a s.
Proof. reflexivity. Qed.

Lemma bind_ret_r {A} (m : ST S A) s : (m ≫= mret) s = m s.
Proof. unfold mbind, ST_bind. by destruct (m s) as [[? ?]|]. Qed.

Lemma bind_assoc {A B C} (m : ST S A) (f : A -> ST S B) (g : B -> ST S C) s :
  ((m ≫= f) ≫= g) s = (m ≫= (fun a => f a ≫= g)) s.
Proof. unfold mbind, ST_bind. by destruct (m s) as [[? ?]|]. Qed.

Lemma st_bind_Some {A B} (m : ST S A) (f : A -> ST S B) s b s' :
  (m ≫= f) s = Some (b, s') ↔ ∃ a s1, m s = Some (a, s1) ∧ f a s1 = Some (b, s').
Proof. unfold mbind, ST_bind. destruct (m s) as [[a s1]|]; split.
  - intros H. by exists a, s1.
  - intros (a' & s2 & [= <- <-] & H). done.
  - done.
  - by intros (? & ? & ? & _).
Qed.
End ST_laws.

(** [run_st] unfolds one layer of the monad at a known state. *)
Ltac run_st :=
  unfold mbind, mret, ST_bind, ST_ret, st_get, gets, modify, panic, zoom.

(** * Decidability helpers and automation *)

Create HintDb vpod.

(** Turn boolean comparisons into propositions, everywhere. *)
Ltac bools :=
  repeat match goal with
  | H : (_ && _)%bool = true |- _ => apply andb_true_iff in H as [? ?]
  | H : (_ || _)%bool = false |- _ => apply orb_false_iff in H as [? ?]
  | H : negb _ = true |- _ => apply negb_true_iff in H
  | H : negb _ = false |- _ => apply negb_false_iff in H
  | H : (_ =? _) = true |- _ => apply Z.eqb_eq in H
  | H : (_ =? _) = false |- _ => apply Z.eqb_neq in H
  | H : (_ <? _) = true |- _ => apply Z.ltb_lt in H
  | H : (_ <? _) = false |- _ => apply Z.ltb_ge in H
  | H : (_ <=? _) = true |- _ => apply Z.leb_le in H
  | H : (_ <=? _) = false |- _ => apply Z.leb_gt in H
  end.

(** Split the outermost conditional of the goal. *)
Ltac case_if :=
  match goal with
  | |- context [if ?b then _ else _] =>
      let E := fresh "E" in destruct b eqn:E
  end.
