(* ===== verification/Words.v ===== *)
(** Machine integers.

    A [uN] is a [Z] in [0, 2^N) and an [iN] a [Z] in [-2^(N-1), 2^(N-1)).
    [wrap] is the truncating cast to an unsigned width, [signed] the
    reinterpretation at a signed width; the wrapping arithmetic of the source is
    the integer operation followed by the cast.  The bit-counting, rotation and
    byte-order methods of Rust's integer types are defined here too. *)
From S2P Require Import Prelude.

Definition wrap (w z : Z) : Z := z mod 2 ^ w.
Definition signed (w z : Z) : Z :=
  let m := wrap w z in if m <? 2 ^ (w - 1) then m else m - 2 ^ w.

Definition as_u8 : Z -> Z := wrap 8.
Definition as_u16 : Z -> Z := wrap 16.
Definition as_u32 : Z -> Z := wrap 32.
Definition as_u64 : Z -> Z := wrap 64.
Definition as_u128 : Z -> Z := wrap 128.
Definition as_i8 : Z -> Z := signed 8.
Definition as_i16 : Z -> Z := signed 16.
Definition as_i32 : Z -> Z := signed 32.
Definition as_i64 : Z -> Z := signed 64.
Definition as_i128 : Z -> Z := signed 128.

Definition U64_MAX : Z := 2 ^ 64 - 1.
Definition I64_MIN : Z := - 2 ^ 63.
Definition I32_MIN : Z := - 2 ^ 31.

Definition is_word (w z : Z) : Prop := 0 <= z < 2 ^ w.
Abbreviation is_u8 := (is_word 8).
Abbreviation is_u16 := (is_word 16).
Abbreviation is_u32 := (is_word 32).
Abbreviation is_u64 := (is_word 64).

Definition wrapping_add64 (a b : Z) : Z := as_u64 (a + b).
Definition wrapping_sub64 (a b : Z) : Z := as_u64 (a - b).
Definition wrapping_mul64 (a b : Z) : Z := as_u64 (a * b).
Definition wrapping_add32 (a b : Z) : Z := as_u32 (a + b).
Definition wrapping_sub32 (a b : Z) : Z := as_u32 (a - b).
Definition wrapping_mul32 (a b : Z) : Z := as_u32 (a * b).
Definition shl64 (a n : Z) : Z := as_u64 (Z.shiftl a n).
Definition shl32 (a n : Z) : Z := as_u32 (Z.shiftl a n).
Definition not64 (a : Z) : Z := as_u64 (Z.lnot a).
Definition not32 (a : Z) : Z := as_u32 (Z.lnot a).
Definition b2u (b : bool) : Z := if b then 1 else 0.

(** ** Bit counting, rotation, byte order *)

Definition leading_zeros (w x : Z) : Z := if x =? 0 then w else w - 1 - Z.log2 x.

Fixpoint pos_ctz (p : positive) : Z :=
  match p with xO q => 1 + pos_ctz q | _ => 0 end.
Definition trailing_zeros (w x : Z) : Z :=
  match x with Zpos p => pos_ctz p | _ => w end.

Fixpoint pos_ones (p : positive) : Z :=
  match p with xO q => pos_ones q | xI q => 1 + pos_ones q | xH => 1 end.
Definition count_ones (x : Z) : Z :=
  match x with Zpos p => pos_ones p | _ => 0 end.

Definition rotate_left (w x n : Z) : Z :=
  wrap w (Z.lor (Z.shiftl x n) (Z.shiftr x (w - n))).
Definition rotate_right (w x n : Z) : Z :=
  wrap w (Z.lor (Z.shiftr x n) (Z.shiftl x (w - n))).

Fixpoint to_le_bytes (n : nat) (x : Z) : list Z :=
  match n with
  | O => []
  | S n => as_u8 x :: to_le_bytes n (Z.shiftr x 8)
  end.

Fixpoint from_le_bytes (l : list Z) : Z :=
  match l with
  | [] => 0
  | b :: l => b + Z.shiftl (from_le_bytes l) 8
  end.

(** [to_be_bytes] and [from_be_bytes] *)
Definition to_be_bytes (n : nat) (x : Z) : list Z := rev (to_le_bytes n x).
Definition from_be_bytes (l : list Z) : Z := from_le_bytes (rev l).

Definition swap_bytes (x : Z) : Z := from_le_bytes (rev (to_le_bytes 8 x)).

(** ** Ranges *)

Lemma wrap_range w z : 0 <= w → is_word w (wrap w z).
Proof. intros. apply Z.mod_pos_bound. lia. Qed.

Lemma wrap_id w z : is_word w z → wrap w z = z.
Proof. apply Z.mod_small. Qed.

Lemma wrap_wrap w z : wrap w (wrap w z) = wrap w z.
Proof. unfold wrap. by rewrite Zmod_mod. Qed.

Lemma wrap_wrap_le v w z : 0 <= v <= w → wrap v (wrap w z) = wrap v z.
Proof.
  intros. unfold wrap. apply Z.mod_mod_divide.
  exists (2 ^ (w - v)). rewrite <- Z.pow_add_r by lia. f_equal. lia.
Qed.

Lemma wrap_add_l w a b : wrap w (wrap w a + b) = wrap w (a + b).
Proof. unfold wrap. by rewrite Zplus_mod_idemp_l. Qed.

Lemma wrap_add_r w a b : wrap w (a + wrap w b) = wrap w (a + b).
Proof. unfold wrap. by rewrite Zplus_mod_idemp_r. Qed.

Lemma wrap_sub w a b : wrap w (wrap w a - wrap w b) = wrap w (a - b).
Proof. unfold wrap. by rewrite <- Zminus_mod. Qed.

Lemma wrap_mul w a b : wrap w (wrap w a * wrap w b) = wrap w (a * b).
Proof. unfold wrap. by rewrite <- Zmult_mod. Qed.

Lemma pow2_half w : 0 < w → 2 ^ w = 2 * 2 ^ (w - 1).
Proof. intros. rewrite <- Z.pow_succ_r by lia. f_equal. lia. Qed.

Lemma signed_range w z : 0 < w → - 2 ^ (w - 1) <= signed w z < 2 ^ (w - 1).
Proof.
  intros Hw. pose proof (wrap_range w z ltac:(lia)) as R. unfold is_word in R.
  pose proof (pow2_half w Hw). unfold signed. case_if; bools; lia.
Qed.

Lemma wrap_signed w z : 0 <= w → wrap w (signed w z) = wrap w z.
Proof.
  intros. unfold signed. case_if; [apply wrap_wrap|].
  unfold wrap. rewrite <- (Z_mod_plus_full _ 1 (2 ^ w)). rewrite Z.mul_1_l, Z.sub_add.
  by rewrite Zmod_mod.
Qed.

Lemma signed_wrap w z : signed w (wrap w z) = signed w z.
Proof. unfold signed. by rewrite wrap_wrap. Qed.

Lemma signed_id w z : 0 < w → - 2 ^ (w - 1) <= z < 2 ^ (w - 1) → signed w z = z.
Proof.
  intros Hw Hz. pose proof (pow2_half w Hw). unfold signed.
  destruct (Z.neg_nonneg_cases z) as [Hneg|Hpos].
  - assert (wrap w z = z + 2 ^ w) as ->.
    { unfold wrap. rewrite <- (Z_mod_plus_full z 1). rewrite Z.mul_1_l.
      apply Z.mod_small. lia. }
    case_if; bools; lia.
  - rewrite wrap_id by (unfold is_word; lia). case_if; bools; lia.
Qed.

Lemma is_word_mono v w z : 0 <= v <= w → is_word v z → is_word w z.
Proof. unfold is_word. intros. pose proof (Z.pow_le_mono_r 2 v w). lia. Qed.

(** ** Bitwise operations stay in range *)

Lemma testbit_high w z i : is_word w z → 0 <= w <= i → Z.testbit z i = false.
Proof.
  intros Hz Hi. rewrite <- (wrap_id w z Hz). unfold wrap. by apply Z.mod_pow2_bits_high.
Qed.

Lemma is_word_bits w z :
  0 <= w → 0 <= z → (∀ i, w <= i → Z.testbit z i = false) → is_word w z.
Proof.
  intros Hw Hz Hb. split; [done|].
  destruct (decide (z = 0)) as [->|]; [lia|].
  apply Z.log2_lt_pow2; [lia|].
  destruct (Z.lt_ge_cases (Z.log2 z) w) as [|Hge]; [done|].
  specialize (Hb _ Hge). rewrite Z.bit_log2 in Hb by lia. done.
Qed.

Lemma land_word w a b : 0 <= w → is_word w a → is_word w b → is_word w (Z.land a b).
Proof.
  intros Hw Ha Hb. apply is_word_bits; [done| |].
  - apply Z.land_nonneg. left. apply Ha.
  - intros i Hi. rewrite Z.land_spec, (testbit_high w a) by (done || lia). done.
Qed.

Lemma land_word_l w a b : 0 <= w → 0 <= b → is_word w a → is_word w (Z.land a b).
Proof.
  intros Hw Hb Ha. apply is_word_bits; [done| |].
  - apply Z.land_nonneg. left. apply Ha.
  - intros i Hi. rewrite Z.land_spec, (testbit_high w a) by (done || lia). done.
Qed.

Lemma land_word_r w a b : 0 <= w → is_word w b → is_word w (Z.land a b).
Proof.
  intros Hw Hb. apply is_word_bits; [done| |].
  - apply Z.land_nonneg. right. apply Hb.
  - intros i Hi. rewrite Z.land_spec, (testbit_high w b) by (done || lia).
    apply andb_false_r.
Qed.

Lemma lor_word w a b : 0 <= w → is_word w a → is_word w b → is_word w (Z.lor a b).
Proof.
  intros Hw Ha Hb. apply is_word_bits; [done| |].
  - apply Z.lor_nonneg. split; [apply Ha | apply Hb].
  - intros i Hi. rewrite Z.lor_spec, (testbit_high w a), (testbit_high w b) by (done || lia).
    done.
Qed.

Lemma lxor_word w a b : 0 <= w → is_word w a → is_word w b → is_word w (Z.lxor a b).
Proof.
  intros Hw Ha Hb. apply is_word_bits; [done| |].
  - apply Z.lxor_nonneg. unfold is_word in *. lia.
  - intros i Hi. rewrite Z.lxor_spec, (testbit_high w a), (testbit_high w b) by (done || lia).
    done.
Qed.

Lemma shiftr_word w a n : 0 <= n → is_word w a → is_word w (Z.shiftr a n).
Proof.
  intros Hn [Ha Hb]. split.
  - by apply Z.shiftr_nonneg.
  - rewrite Z.shiftr_div_pow2 by done. apply Z.le_lt_trans with a; [|done].
    apply Z.div_le_upper_bound; [lia|]. nia.
Qed.

Lemma shiftr_word_sub w a n :
  0 <= n <= w → is_word w a → is_word (w - n) (Z.shiftr a n).
Proof.
  intros Hn [Ha Hb]. split; [by apply Z.shiftr_nonneg|].
  rewrite Z.shiftr_div_pow2 by lia. apply Z.div_lt_upper_bound; [lia|].
  rewrite <- Z.pow_add_r by lia. by replace (n + (w - n)) with w by lia.
Qed.

Lemma not64_word a : is_u64 (not64 a).
Proof. apply wrap_range. lia. Qed.

Lemma b2u_word b : is_u64 (b2u b).
Proof. by destruct b. Qed.

#[export] Hint Resolve not64_word b2u_word land_word lor_word lxor_word shiftr_word : vpod.
#[export] Hint Extern 1 (is_word _ (wrap _ _)) => apply wrap_range; lia : vpod.
#[export] Hint Extern 1 (is_word _ (as_u64 _)) => apply wrap_range; lia : vpod.
#[export] Hint Extern 5 (0 <= _) => lia : vpod.

(** ** Testing bits of casts *)


Lemma wrap_testbit w z i :
  0 <= w → 0 <= i → Z.testbit (wrap w z) i = (i <? w) && Z.testbit z i.
Proof.
  intros Hw Hi. unfold wrap. destruct (Z.ltb_spec i w).
  - by rewrite Z.mod_pow2_bits_low by done.
  - by rewrite Z.mod_pow2_bits_high by lia.
Qed.

Lemma not64_testbit a i : 0 <= i < 64 → Z.testbit (not64 a) i = negb (Z.testbit a i).
Proof.
  intros Hi. unfold not64, as_u64. rewrite wrap_testbit, Z.lnot_spec by lia.
  by replace (i <? 64) with true by (symmetry; apply Z.ltb_lt; lia).
Qed.

(** ** Little-endian bytes *)

Lemma length_to_le_bytes n x : length (to_le_bytes n x) = n.
Proof. revert x. induction n; cbn; auto. Qed.

Lemma to_le_bytes_bytes n x : Forall is_u8 (to_le_bytes n x).
Proof.
  revert x. induction n; cbn; constructor; auto. apply wrap_range. lia.
Qed.

Lemma from_to_le_bytes n x : from_le_bytes (to_le_bytes n x) = wrap (8 * Z.of_nat n) x.
Proof.
  revert x. induction n as [|n IH]; intros x; cbn [to_le_bytes from_le_bytes].
  - unfold wrap. by rewrite Z.mod_1_r.
  - rewrite IH, Z.shiftl_mul_pow2 by lia. unfold as_u8, wrap.
    rewrite Z.shiftr_div_pow2 by lia.
    replace (8 * Z.of_nat (S n)) with (8 + 8 * Z.of_nat n) by lia.
    rewrite Z.pow_add_r by lia.
    rewrite (Z.mul_comm (_ mod _)). symmetry. apply Z.rem_mul_r; lia.
Qed.

Lemma length_be n x : length (to_be_bytes n x) = n.
Proof. unfold to_be_bytes. by rewrite length_rev, length_to_le_bytes. Qed.

Lemma be_u8 n x : Forall is_u8 (to_be_bytes n x).
Proof. unfold to_be_bytes. apply List.Forall_rev, to_le_bytes_bytes. Qed.

Lemma from_to_be_bytes n x : from_be_bytes (to_be_bytes n x) = wrap (8 * Z.of_nat n) x.
Proof. unfold from_be_bytes, to_be_bytes. by rewrite rev_involutive, from_to_le_bytes. Qed.

Lemma from_le_bytes_range l :
  Forall is_u8 l → is_word (8 * Z.of_nat (length l)) (from_le_bytes l).
Proof.
  induction 1 as [|b l Hb Hl IH]; cbn [from_le_bytes length]; [done|].
  rewrite Z.shiftl_mul_pow2 by lia.
  replace (8 * Z.of_nat (S (length l))) with (8 + 8 * Z.of_nat (length l)) by lia.
  unfold is_word in *. rewrite Z.pow_add_r by lia. nia.
Qed.

Lemma to_from_le_bytes l :
  Forall is_u8 l → to_le_bytes (length l) (from_le_bytes l) = l.
Proof.
  induction 1 as [|b l Hb Hl IH]; cbn [from_le_bytes length to_le_bytes]; [done|].
  rewrite Z.shiftl_mul_pow2 by lia. f_equal.
  - unfold as_u8, wrap. rewrite Z_mod_plus_full. by apply Z.mod_small.
  - rewrite Z.shiftr_div_pow2, Z.div_add by lia. by rewrite Z.div_small.
Qed.

Lemma from_le_bytes_zeros bs n : from_le_bytes (bs ++ replicate n 0) = from_le_bytes bs.
Proof.
  induction bs as [|b bs IH]; cbn [app from_le_bytes].
  - induction n as [|n IH]; cbn; [done|]. by rewrite IH.
  - by rewrite IH.
Qed.

(** ** Bits of masks *)

Lemma not64_bits a i : 0 <= i → Z.testbit (not64 a) i = (i <? 64) && negb (Z.testbit a i).
Proof.
  intros Hi. destruct (Z.ltb_spec i 64); cbn [andb].
  - apply not64_testbit. lia.
  - apply (testbit_high 64); [apply not64_word | lia].
Qed.

Lemma not32_word a : is_u32 (not32 a).
Proof. apply wrap_range. lia. Qed.

Lemma not32_bits a i : 0 <= i → Z.testbit (not32 a) i = (i <? 32) && negb (Z.testbit a i).
Proof. intros Hi. unfold not32, as_u32. by rewrite wrap_testbit, Z.lnot_spec by lia. Qed.

Lemma testbit_one n i : 0 <= n → Z.testbit (Z.shiftl 1 n) i = (i =? n).
Proof.
  intros Hn. rewrite Z.shiftl_1_l, Z.eqb_sym. apply Z.pow2_bits_eqb. lia.
Qed.

(** A two-bit field. *)
Lemma testbit_three n i : 0 <= n → Z.testbit (Z.shiftl 3 n) i = (i =? n) || (i =? n + 1).
Proof.
  intros Hn. change 3 with (Z.lor 1 (Z.shiftl 1 1)).
  rewrite Z.shiftl_lor, Z.shiftl_shiftl, Z.lor_spec, !testbit_one by lia.
  by replace (1 + n) with (n + 1) by lia.
Qed.

Lemma shl64_bits a n i :
  0 <= n → 0 <= i → Z.testbit (shl64 a n) i = (i <? 64) && Z.testbit a (i - n).
Proof.
  intros Hn Hi. unfold shl64, as_u64. rewrite wrap_testbit by lia.
  by rewrite Z.shiftl_spec by lia.
Qed.

Lemma land_bit_test v n : 0 <= n → negb (Z.land v (Z.shiftl 1 n) =? 0) = Z.testbit v n.
Proof.
  intros Hn. destruct (Z.eqb_spec (Z.land v (Z.shiftl 1 n)) 0) as [E|E]; cbn [negb]; symmetry.
  - assert (H := f_equal (fun z => Z.testbit z n) E). cbn beta in H.
    rewrite Z.land_spec, testbit_one, Z.eqb_refl, andb_true_r, Z.bits_0 in H by lia. done.
  - destruct (Z.testbit v n) eqn:T; [done|]. destruct E.
    apply Z.bits_inj'. intros i Hi. rewrite Z.land_spec, testbit_one, Z.bits_0 by lia.
    destruct (Z.eqb_spec i n) as [->|]; [by rewrite T | apply andb_false_r].
Qed.

(** Updating the bits of [mask] in [old]. *)
Lemma masked_bits old v mask i :
  0 <= i < 64 →
  Z.testbit (Z.lor (Z.land old (not64 mask)) (Z.land v mask)) i
  = if Z.testbit mask i then Z.testbit v i else Z.testbit old i.
Proof.
  intros Hi. rewrite Z.lor_spec, !Z.land_spec, not64_testbit by done.
  by destruct (Z.testbit mask i), (Z.testbit v i), (Z.testbit old i).
Qed.

(** Two words that agree on all 64 bits are equal. *)
Lemma word_bits_inj w a b :
  0 <= w → is_word w a → is_word w b →
  (∀ i, 0 <= i < w → Z.testbit a i = Z.testbit b i) → a = b.
Proof.
  intros Hw Ha Hb H. apply Z.bits_inj'. intros i Hi. destruct (Z.lt_ge_cases i w).
  - apply H. lia.
  - by rewrite (testbit_high w a), (testbit_high w b) by (done || lia).
Qed.

Create Rewrite HintDb bits.
#[export] Hint Rewrite Z.lor_spec Z.land_spec Z.lxor_spec : bits.
#[export] Hint Rewrite not64_testbit testbit_one testbit_three shl64_bits using lia : bits.

(** ** Evenness, of instruction addresses and jump offsets *)

Definition even (z : Z) : Prop := Z.testbit z 0 = false.

Lemma even_mod z : even z ↔ z mod 2 = 0.
Proof. unfold even. rewrite Z.bit0_odd, Zmod_odd. by destruct (Z.odd z). Qed.

Lemma even_clear v : even (Z.land v (not64 1)).
Proof. unfold even. rewrite Z.land_spec, not64_testbit by lia. apply andb_false_r. Qed.

Lemma even_wrap w z : 0 < w → even (wrap w z) ↔ even z.
Proof.
  intros Hw. unfold even. rewrite wrap_testbit by lia.
  by replace (0 <? w) with true by (symmetry; lia).
Qed.

Lemma even_add a b : even a → even b → even (a + b).
Proof. rewrite !even_mod. intros Ha Hb. by rewrite Zplus_mod, Ha, Hb. Qed.

Lemma wrapping_add64_even a b : even a → even b → even (wrapping_add64 a b).
Proof. intros. apply even_wrap; [lia|]. by apply even_add. Qed.

Lemma wrapping_add64_word a b : is_u64 (wrapping_add64 a b).
Proof. apply wrap_range. lia. Qed.

#[export] Hint Resolve even_clear wrapping_add64_even wrapping_add64_word : vpod.

(** Being bytes, by evaluation. *)
Lemma const_bytes l : forallb (fun x => (0 <=? x) && (x <? 256)) l = true → Forall is_u8 l.
Proof.
  intros Hl. apply list.Forall_forall. intros x Hx. apply list_elem_of_In in Hx. rewrite forallb_forall in Hl.
  specialize (Hl x Hx). bools. unfold is_word. lia.
Qed.
