(* ===== verification/Wp.v ===== *)
(** Weakest preconditions for the state-and-panic monad.

    [wp D m Q s]: running [m] from [s] ends in a result and state that satisfy
    [Q], or it panics and [D] holds.  With [D := False] this is total
    correctness (no panic), with [D := True] partial correctness; the invariants
    of the core are proved once for any [D]. *)
From S2P Require Import Prelude.

Definition wp {S A : Type} (D : Prop) (m : ST S A) (Q : A -> S -> Prop) (s : S) : Prop :=
  match m s with Some (a, s') => Q a s' | None => D end.

Section Wp.
Context {S : Type} {D : Prop}.

Lemma wp_bind {A C} (m : ST S A) (k : A -> ST S C) Q s :
  wp D m (fun a s' => wp D (k a) Q s') s → wp D (m ≫= k) Q s.
Proof. unfold wp, mbind, ST_bind. by destruct (m s) as [[a s']|]. Qed.

Lemma wp_ret {A} (a : A) (Q : A -> S -> Prop) s : Q a s → wp D (mret a) Q s.
Proof. done. Qed.

Lemma wp_get (Q : S -> S -> Prop) s : Q s s → wp D st_get Q s.
Proof. done. Qed.

Lemma wp_gets {A} (g : S -> A) (Q : A -> S -> Prop) s : Q (g s) s → wp D (gets g) Q s.
Proof. done. Qed.

Lemma wp_modify (g : S -> S) (Q : unit -> S -> Prop) s : Q tt (g s) → wp D (modify g) Q s.
Proof. done. Qed.

Lemma wp_mono {A} (m : ST S A) (P Q : A -> S -> Prop) s :
  (∀ a s', P a s' → Q a s') → wp D m P s → wp D m Q s.
Proof. unfold wp. destruct (m s) as [[a s']|]; auto. Qed.

Lemma wp_zoom {T A} (get : S -> T) (put : T -> S -> S) (m : ST T A) (Q : A -> S -> Prop) s :
  wp D m (fun a t => Q a (put t s)) (get s) → wp D (zoom get put m) Q s.
Proof. unfold wp, zoom. by destruct (m (get s)) as [[a t]|]. Qed.

(** Reading a [wp] off at a known run. *)
Lemma wp_elim {A} (m : ST S A) Q s a s' : wp D m Q s → m s = Some (a, s') → Q a s'.
Proof. unfold wp. intros H E. by rewrite E in H. Qed.

Lemma wp_intro {A} (m : ST S A) (Q : A -> S -> Prop) s :
  D → (∀ a s', m s = Some (a, s') → Q a s') → wp D m Q s.
Proof. unfold wp. intros HD H. destruct (m s) as [[a s']|]; auto. Qed.
End Wp.

(** Without panics a [wp] is a run. *)
Lemma wp_total {S A} (m : ST S A) Q s : wp False m Q s → ∃ a s', m s = Some (a, s') ∧ Q a s'.
Proof. unfold wp. destruct (m s) as [[a s']|]; [eauto | done]. Qed.

(** [wp_step] performs one structural step; [wp_go] as many as it can without
    knowing about the calls. *)
Ltac wp_step :=
  lazymatch goal with
  | |- wp _ (mbind _ _) _ _ => apply wp_bind
  | |- wp _ (mret _) _ _ => apply wp_ret
  | |- wp _ st_get _ _ => apply wp_get
  | |- wp _ (gets _) _ _ => apply wp_gets
  | |- wp _ (modify _) _ _ => apply wp_modify
  | |- wp _ (zoom _ _ _) _ _ => apply wp_zoom
  end.
Ltac wp_go := repeat (wp_step; cbv beta).
