(* ===== verification/Trap.v ===== *)
(** Trap causes and the result of a step ([riscv-core/src/trap.rs]). *)
From S2P Require Import Prelude.

Inductive TrapCause : Type :=
| InstructionAddressMisaligned
| IllegalInstruction (encoding : Z)
| Breakpoint
| LoadAddressMisaligned
| StoreAddressMisaligned
| EcallFromUMode
| EcallFromSMode
| EcallFromMMode.

Definition mcause_code (c : TrapCause) : Z :=
  match c with
  | InstructionAddressMisaligned => 0
  | IllegalInstruction _ => 2
  | Breakpoint => 3
  | LoadAddressMisaligned => 4
  | StoreAddressMisaligned => 6
  | EcallFromUMode => 8
  | EcallFromSMode => 9
  | EcallFromMMode => 11
  end.

Inductive StepResult : Type :=
| StepOk
| StepTrap (cause : TrapCause)
| StepHalt.

#[export] Instance TrapCause_eq_dec : EqDecision TrapCause.
Proof. solve_decision. Defined.
#[export] Instance StepResult_eq_dec : EqDecision StepResult.
Proof. solve_decision. Defined.
