(* ===== verification/Gpr.v ===== *)
(** The register file ([riscv-core/src/gpr.rs]).

    [x] and [f] are the 32-element arrays of the source; a register number is a
    five-bit field (or a constant below 32), so indexing never panics.  [wf] is
    the invariant: 32 registers of 64 bits and [x0] equal to zero.  The
    interpreter uses [gpr_read]/[gpr_write], the block executor the branch-free
    [read_masked]/[write_masked]; under [wf] the two agree. *)
From S2P Require Import Prelude Words.

Record Gpr := mkGpr { x : list Z; pc : Z; f : list Z }.
#[export] Instance Gpr_eta : Eta Gpr := fun g => mkGpr (x g) (pc g) (f g).

Definition gpr_new (entry : Z) : Gpr :=
  {| x := replicate 32 0; pc := entry; f := replicate 32 0xFFFFFFFFFFFFFFFF |}.

Definition gpr_read (reg : Z) (g : Gpr) : Z :=
  if reg =? 0 then 0 else x g !!! Z.to_nat reg.

Definition read_masked (reg : Z) (g : Gpr) : Z :=
  x g !!! Z.to_nat (Z.land reg 31).

Definition write_masked (reg val : Z) (g : Gpr) : Gpr :=
  let g1 := g <| x := <[Z.to_nat (Z.land reg 31) := val]> (x g) |> in
  g1 <| x := <[0%nat := 0]> (x g1) |>.

Definition read_f (reg : Z) (g : Gpr) : Z := f g !!! Z.to_nat reg.

Definition gpr_write (reg val : Z) (g : Gpr) : Gpr :=
  if negb (reg =? 0) then g <| x := <[Z.to_nat reg := val]> (x g) |> else g.

Definition write_f (reg val : Z) (g : Gpr) : Gpr :=
  g <| f := <[Z.to_nat reg := val]> (f g) |>.

Definition write_f32 (reg val : Z) (g : Gpr) : Gpr :=
  g <| f := <[Z.to_nat reg := Z.lor 0xFFFFFFFF00000000 val]> (f g) |>.

Definition read_f32 (reg : Z) (g : Gpr) : Z :=
  let bits := f g !!! Z.to_nat reg in
  if Z.land bits 0xFFFFFFFF00000000 =? 0xFFFFFFFF00000000
  then as_u32 bits
  else 0x7FC00000.

(** ** The invariant *)

Record gpr_wf (g : Gpr) : Prop := {
  wf_x_length : length (x g) = 32%nat;
  wf_f_length : length (f g) = 32%nat;
  wf_x_words : Forall is_u64 (x g);
  wf_f_words : Forall is_u64 (f g);
  wf_x0 : x g !! 0%nat = Some 0;
  wf_pc : is_u64 (pc g)
}.

Lemma lookup_total_word (l : list Z) (i : nat) : Forall is_u64 l → is_u64 (l !!! i).
Proof.
  intros Hl. rewrite list_lookup_total_alt. destruct (l !! i) as [v|] eqn:E; cbn; [|done].
  eapply Forall_lookup_1; eauto.
Qed.

Lemma gpr_new_wf entry : is_u64 entry → gpr_wf (gpr_new entry).
Proof.
  intros. split; cbn -[replicate]; rewrite ?length_replicate; auto.
  - by apply Forall_replicate.
  - by apply Forall_replicate.
Qed.

Lemma gpr_read_word r g : gpr_wf g → is_u64 (gpr_read r g).
Proof.
  intros H. unfold gpr_read. case_if; [done|]. apply lookup_total_word, H.
Qed.

Lemma read_f_word r g : gpr_wf g → is_u64 (read_f r g).
Proof. intros H. apply lookup_total_word, H. Qed.

Lemma gpr_write_wf r v g : 0 <= r < 32 → is_u64 v → gpr_wf g → gpr_wf (gpr_write r v g).
Proof.
  intros Hr Hv H. unfold gpr_write. case_if; [|done]. bools.
  destruct H. split; cbn; auto.
  - by rewrite length_insert.
  - by apply Forall_insert.
  - rewrite list_lookup_insert_ne by lia. done.
Qed.

Lemma write_f_wf r v g : is_u64 v → gpr_wf g → gpr_wf (write_f r v g).
Proof.
  intros Hv H. destruct H. split; cbn; auto.
  - by rewrite length_insert.
  - by apply Forall_insert.
Qed.

Lemma write_f32_write_f r v g : write_f32 r v g = write_f r (Z.lor 0xFFFFFFFF00000000 v) g.
Proof. reflexivity. Qed.

Lemma set_pc_wf v g : is_u64 v → gpr_wf g → gpr_wf (g <| pc := v |>).
Proof. intros Hv H. destruct H. by split. Qed.

#[export] Hint Resolve gpr_read_word read_f_word gpr_write_wf write_f_wf set_pc_wf : vpod.

(** ** The masked accessors *)

Lemma land31_small r : 0 <= r < 32 → Z.land r 31 = r.
Proof. intros. change 31 with (Z.ones 5). rewrite Z.land_ones by lia. apply Z.mod_small; lia. Qed.

Lemma read_masked_read r g : 0 <= r < 32 → gpr_wf g → read_masked r g = gpr_read r g.
Proof.
  intros Hr H. unfold read_masked, gpr_read. rewrite land31_small by done.
  case_if; [|done]. bools; subst. rewrite list_lookup_total_alt. change (Z.to_nat 0) with 0%nat.
  by rewrite (wf_x0 _ H).
Qed.

Lemma write_masked_x0 r v g :
  0 <= r < 32 → x g !! 0%nat = Some 0 → write_masked r v g = gpr_write r v g.
Proof.
  intros Hr H. unfold write_masked, gpr_write. rewrite land31_small by done. cbn.
  destruct g as [gx gpc gf]; cbn in *. case_if; bools; f_equal.
  - apply list_insert_id. by rewrite list_lookup_insert_ne by lia.
  - subst. cbn. rewrite list_insert_insert_eq. by apply list_insert_id.
Qed.

Lemma write_masked_write r v g :
  0 <= r < 32 → gpr_wf g → write_masked r v g = gpr_write r v g.
Proof. intros Hr H. apply write_masked_x0; [done | apply (wf_x0 _ H)]. Qed.

(** Reads after writes, for distinct and equal registers. *)
Lemma gpr_read_write r s v g :
  0 <= r < 32 → 0 <= s < 32 → gpr_wf g →
  gpr_read s (gpr_write r v g) = if (s =? r) && negb (r =? 0) then v else gpr_read s g.
Proof.
  intros Hr Hs H. unfold gpr_read, gpr_write.
  destruct (Z.eqb_spec r 0) as [->|Hr0]; cbn [negb]; [by rewrite andb_false_r|].
  rewrite andb_true_r. cbn. destruct (Z.eqb_spec s 0) as [->|Hs0].
  - by destruct (Z.eqb_spec 0 r); [lia|].
  - destruct (Z.eqb_spec s r) as [->|Hsr].
    + rewrite list_lookup_total_insert_eq; [done|]. rewrite (wf_x_length _ H). lia.
    + rewrite list_lookup_total_insert_ne by lia. done.
Qed.
