(* ===== verification/Decode.v ===== *)
(** Instruction fields ([riscv-core/src/decode.rs]).

    An [Instruction] wraps a [u32] and a [CompressedInstruction] a [u16]; the
    accessors are functions of the raw encoding.  Immediates are [i64]. *)
From S2P Require Import Prelude Words.

Definition opcode (raw : Z) : Z := Z.land raw 0x7F.
Definition rd (raw : Z) : Z := Z.land (Z.shiftr raw 7) 0x1F.
Definition rs1 (raw : Z) : Z := Z.land (Z.shiftr raw 15) 0x1F.
Definition rs2 (raw : Z) : Z := Z.land (Z.shiftr raw 20) 0x1F.
Definition funct3 (raw : Z) : Z := Z.land (Z.shiftr raw 12) 0x7.
Definition funct7 (raw : Z) : Z := Z.shiftr raw 25.

Definition sign_extend (val bits : Z) : Z :=
  let shift := 64 - bits in
  Z.shiftr (as_i64 (Z.shiftl val shift)) shift.

Definition imm_i (raw : Z) : Z := Z.shiftr (as_i32 raw) 20.

Definition imm_s (raw : Z) : Z :=
  let hi := Z.shiftr (as_i32 raw) 25 in
  let lo := Z.land (Z.shiftr raw 7) 0x1F in
  Z.lor (as_i32 (Z.shiftl hi 5)) lo.

Definition imm_b (raw : Z) : Z :=
  let bit12 := Z.land (Z.shiftr raw 31) 1 in
  let bit11 := Z.land (Z.shiftr raw 7) 1 in
  let bits10_5 := Z.land (Z.shiftr raw 25) 0x3F in
  let bits4_1 := Z.land (Z.shiftr raw 8) 0xF in
  let val := Z.lor (Z.lor (Z.lor (Z.shiftl bit12 12) (Z.shiftl bit11 11))
                          (Z.shiftl bits10_5 5)) (Z.shiftl bits4_1 1) in
  sign_extend val 13.

Definition imm_u (raw : Z) : Z := as_i32 (Z.land raw 0xFFFFF000).

Definition imm_j (raw : Z) : Z :=
  let bit20 := Z.land (Z.shiftr raw 31) 1 in
  let bits10_1 := Z.land (Z.shiftr raw 21) 0x3FF in
  let bit11 := Z.land (Z.shiftr raw 20) 1 in
  let bits19_12 := Z.land (Z.shiftr raw 12) 0xFF in
  let val := Z.lor (Z.lor (Z.lor (Z.shiftl bit20 20) (Z.shiftl bits19_12 12))
                          (Z.shiftl bit11 11)) (Z.shiftl bits10_1 1) in
  sign_extend val 21.

Definition csr_addr (raw : Z) : Z := Z.shiftr raw 20.
Definition funct5 (raw : Z) : Z := Z.shiftr raw 27.
Definition aq (raw : Z) : bool := negb (Z.land (Z.shiftr raw 26) 1 =? 0).
Definition rl (raw : Z) : bool := negb (Z.land (Z.shiftr raw 25) 1 =? 0).

(** 16-bit encodings. *)
Definition quadrant (raw : Z) : Z := Z.land raw 0x3.
Definition c_funct3 (raw : Z) : Z := Z.land (Z.shiftr raw 13) 0x7.
Definition rs2_prime (raw : Z) : Z := Z.land (Z.shiftr raw 2) 0x7 + 8.
Definition rs1_prime (raw : Z) : Z := Z.land (Z.shiftr raw 7) 0x7 + 8.
Definition c_rd (raw : Z) : Z := Z.land (Z.shiftr raw 7) 0x1F.
Definition c_rs2 (raw : Z) : Z := Z.land (Z.shiftr raw 2) 0x1F.

(** ** Ranges *)

Lemma land_ones_range a n : 0 <= n → 0 <= Z.land a (Z.ones n) < 2 ^ n.
Proof. intros. rewrite Z.land_ones by done. apply Z.mod_pos_bound. lia. Qed.

Lemma land_1F_range a : 0 <= Z.land a 0x1F < 32.
Proof. apply (land_ones_range a 5). lia. Qed.

Lemma land_7_range a : 0 <= Z.land a 0x7 < 8.
Proof. apply (land_ones_range a 3). lia. Qed.

Lemma rd_range raw : 0 <= rd raw < 32.
Proof. apply land_1F_range. Qed.
Lemma rs1_range raw : 0 <= rs1 raw < 32.
Proof. apply land_1F_range. Qed.
Lemma rs2_range raw : 0 <= rs2 raw < 32.
Proof. apply land_1F_range. Qed.
Lemma c_rd_range raw : 0 <= c_rd raw < 32.
Proof. apply land_1F_range. Qed.
Lemma c_rs2_range raw : 0 <= c_rs2 raw < 32.
Proof. apply land_1F_range. Qed.
Lemma rs1_prime_range raw : 0 <= rs1_prime raw < 32.
Proof. unfold rs1_prime. pose proof (land_7_range (Z.shiftr raw 7)). lia. Qed.
Lemma rs2_prime_range raw : 0 <= rs2_prime raw < 32.
Proof. unfold rs2_prime. pose proof (land_7_range (Z.shiftr raw 2)). lia. Qed.

#[export] Hint Resolve rd_range rs1_range rs2_range c_rd_range c_rs2_range
  rs1_prime_range rs2_prime_range : vpod.

Lemma sign_extend_signed val bits :
  0 < bits <= 64 → sign_extend val bits = signed bits val.
Proof.
  intros Hb. unfold sign_extend, as_i64, signed.
  assert (wrap 64 (Z.shiftl val (64 - bits)) = wrap bits val * 2 ^ (64 - bits)) as ->.
  { unfold wrap. rewrite Z.shiftl_mul_pow2 by lia.
    replace (2 ^ 64) with (2 ^ bits * 2 ^ (64 - bits))
      by (rewrite <- Z.pow_add_r by lia; f_equal; lia).
    apply Z.mul_mod_distr_r; lia. }
  assert (Hp : 0 < 2 ^ (64 - bits)) by lia.
  rewrite Z.shiftr_div_pow2 by lia.
  replace (2 ^ (64 - 1)) with (2 ^ (bits - 1) * 2 ^ (64 - bits))
    by (rewrite <- Z.pow_add_r by lia; f_equal; lia).
  replace (2 ^ 64) with (2 ^ bits * 2 ^ (64 - bits))
    by (rewrite <- Z.pow_add_r by lia; f_equal; lia).
  destruct (Z.ltb_spec (wrap bits val) (2 ^ (bits - 1)));
    destruct (Z.ltb_spec (wrap bits val * 2 ^ (64 - bits)) (2 ^ (bits - 1) * 2 ^ (64 - bits)));
    try nia.
  - by rewrite Z.div_mul by lia.
  - rewrite <- Z.mul_sub_distr_r. by rewrite Z.div_mul by lia.
Qed.
