(* ===== verification/Extensions.v ===== *)
(** Multiply/divide and atomic operations ([riscv-core/src/extensions.rs]).

    The functions the macros [amo_w], [amo_d], [word_signed_op] and
    [word_unsigned_op] generate are written out.  The theorems relate the high
    and low multiply halves to the full product, and quotient to remainder, on
    every input including division by zero and signed overflow. *)
From S2P Require Import Prelude Words.

(** ** Atomics: the value for [rd] and the value to store *)

Definition amo_w (op : Z -> Z -> Z) (memory_value src : Z) : Z * Z :=
  let new_memory_value := op memory_value (as_u32 src) in
  (as_u64 (as_i32 memory_value), new_memory_value).

Definition amoswap_w : Z -> Z -> Z * Z := amo_w (fun _ src => src).
Definition amoadd_w : Z -> Z -> Z * Z := amo_w (fun m src => wrapping_add32 m src).
Definition amoxor_w : Z -> Z -> Z * Z := amo_w (fun m src => Z.lxor m src).
Definition amoand_w : Z -> Z -> Z * Z := amo_w (fun m src => Z.land m src).
Definition amoor_w : Z -> Z -> Z * Z := amo_w (fun m src => Z.lor m src).
Definition amomin_w : Z -> Z -> Z * Z :=
  amo_w (fun m src => as_u32 (Z.min (as_i32 m) (as_i32 src))).
Definition amomax_w : Z -> Z -> Z * Z :=
  amo_w (fun m src => as_u32 (Z.max (as_i32 m) (as_i32 src))).
Definition amominu_w : Z -> Z -> Z * Z := amo_w (fun m src => Z.min m src).
Definition amomaxu_w : Z -> Z -> Z * Z := amo_w (fun m src => Z.max m src).

Definition amo_d (op : Z -> Z -> Z) (memory_value src : Z) : Z * Z :=
  let new_memory_value := op memory_value src in
  (memory_value, new_memory_value).

Definition amoswap_d : Z -> Z -> Z * Z := amo_d (fun _ src => src).
Definition amoadd_d : Z -> Z -> Z * Z := amo_d (fun m src => wrapping_add64 m src).
Definition amoxor_d : Z -> Z -> Z * Z := amo_d (fun m src => Z.lxor m src).
Definition amoand_d : Z -> Z -> Z * Z := amo_d (fun m src => Z.land m src).
Definition amoor_d : Z -> Z -> Z * Z := amo_d (fun m src => Z.lor m src).
Definition amomin_d : Z -> Z -> Z * Z :=
  amo_d (fun m src => as_u64 (Z.min (as_i64 m) (as_i64 src))).
Definition amomax_d : Z -> Z -> Z * Z :=
  amo_d (fun m src => as_u64 (Z.max (as_i64 m) (as_i64 src))).
Definition amominu_d : Z -> Z -> Z * Z := amo_d (fun m src => Z.min m src).
Definition amomaxu_d : Z -> Z -> Z * Z := amo_d (fun m src => Z.max m src).

(** ** Multiply and divide *)

Definition divw (lhs rhs : Z) : Z :=
  let lhs := as_i32 lhs in
  let rhs := as_i32 rhs in
  if rhs =? 0 then U64_MAX
  else if (lhs =? I32_MIN) && (rhs =? -1) then as_u64 I32_MIN
  else as_u64 (as_i32 (Z.quot lhs rhs)).

Definition remw (lhs rhs : Z) : Z :=
  let lhs := as_i32 lhs in
  let rhs := as_i32 rhs in
  if rhs =? 0 then as_u64 lhs
  else if (lhs =? I32_MIN) && (rhs =? -1) then 0
  else as_u64 (as_i32 (Z.rem lhs rhs)).

Definition divuw (lhs rhs : Z) : Z :=
  let lhs := as_u32 lhs in
  let rhs := as_u32 rhs in
  if rhs =? 0 then U64_MAX else as_u64 (as_i32 (lhs / rhs)).

Definition remuw (lhs rhs : Z) : Z :=
  let lhs := as_u32 lhs in
  let rhs := as_u32 rhs in
  if rhs =? 0 then as_u64 (as_i32 lhs) else as_u64 (as_i32 (lhs mod rhs)).

Definition mul (lhs rhs : Z) : Z := wrapping_mul64 lhs rhs.

Definition mulh (lhs rhs : Z) : Z :=
  as_u64 (Z.shiftr (as_i128 (as_i64 lhs * as_i64 rhs)) 64).

Definition mulhu (lhs rhs : Z) : Z :=
  as_u64 (Z.shiftr (as_u128 (lhs * rhs)) 64).

Definition mulhsu (lhs rhs : Z) : Z :=
  as_u64 (Z.shiftr (as_i128 (as_i64 lhs * as_i128 rhs)) 64).

Definition div (lhs rhs : Z) : Z :=
  if rhs =? 0 then U64_MAX
  else
    let lhs := as_i64 lhs in
    let rhs := as_i64 rhs in
    if (lhs =? I64_MIN) && (rhs =? -1) then as_u64 I64_MIN
    else as_u64 (as_i64 (Z.quot lhs rhs)).

Definition divu (lhs rhs : Z) : Z :=
  if rhs =? 0 then U64_MAX else lhs / rhs.

Definition rem (lhs rhs : Z) : Z :=
  if rhs =? 0 then lhs
  else
    let lhs := as_i64 lhs in
    let rhs := as_i64 rhs in
    if (lhs =? I64_MIN) && (rhs =? -1) then 0
    else as_u64 (as_i64 (Z.rem lhs rhs)).

Definition remu (lhs rhs : Z) : Z :=
  if rhs =? 0 then lhs else lhs mod rhs.

Definition mulw (lhs rhs : Z) : Z :=
  as_u64 (as_i32 (wrapping_mul32 (as_u32 lhs) (as_u32 rhs))).

(** ** Reference forms *)

(** The architectural quotient and remainder of signed operands: truncating
    division, all ones for a zero divisor, and the wrapped quotient on
    overflow. *)
Definition div_spec (a b : Z) : Z := if b =? 0 then -1 else Z.quot a b.
Definition rem_spec (a b : Z) : Z := if b =? 0 then a else Z.rem a b.

Lemma as_i64_zero z : is_u64 z → (as_i64 z =? 0) = (z =? 0).
Proof.
  intros Hz. unfold as_i64, signed. rewrite wrap_id by done. unfold is_word in Hz.
  case_if; bools; [done|].
  destruct (Z.eqb_spec (z - 2 ^ 64) 0), (Z.eqb_spec z 0); lia.
Qed.

Lemma as_u64_signed v w z : 0 < v <= w → wrap v (signed w z) = wrap v z.
Proof.
  intros. rewrite <- (wrap_wrap_le v w (signed w z)) by lia.
  by rewrite wrap_signed, wrap_wrap_le by lia.
Qed.

Lemma div_is_spec lhs rhs :
  is_u64 rhs → div lhs rhs = as_u64 (div_spec (as_i64 lhs) (as_i64 rhs)).
Proof.
  intros Hr. unfold div, div_spec. rewrite as_i64_zero by done.
  case_if; [reflexivity|]. case_if.
  - bools. by rewrite H, H0.
  - unfold as_u64, as_i64. by rewrite wrap_signed by lia.
Qed.

Lemma rem_is_spec lhs rhs :
  is_u64 lhs → is_u64 rhs → rem lhs rhs = as_u64 (rem_spec (as_i64 lhs) (as_i64 rhs)).
Proof.
  intros Hl Hr. unfold rem, rem_spec. rewrite as_i64_zero by done.
  case_if.
  - unfold as_u64, as_i64. by rewrite wrap_signed, wrap_id by (done || lia).
  - case_if.
    + bools. by rewrite H, H0.
    + unfold as_u64, as_i64. by rewrite wrap_signed by lia.
Qed.

Lemma quot_rem_spec a b : b * div_spec a b + rem_spec a b = a.
Proof.
  unfold div_spec, rem_spec. destruct (Z.eqb_spec b 0); [lia|].
  symmetry. by apply Z.quot_rem'.
Qed.

(** On all 64-bit operands, [DIV] and [REM] are the architectural
    truncating quotient and remainder of the signed operands, wrapped to 64
    bits, and [rhs * div + rem] gives back [lhs]; the zero divisor and the
    overflowing [i64::MIN / -1] are included. *)
Theorem div_rem_reconstruct (lhs rhs : Z) (Hl : is_u64 lhs) (Hr : is_u64 rhs) :
  div lhs rhs = as_u64 (div_spec (as_i64 lhs) (as_i64 rhs)) ∧
  rem lhs rhs = as_u64 (rem_spec (as_i64 lhs) (as_i64 rhs)) ∧
  wrapping_add64 (mul rhs (div lhs rhs)) (rem lhs rhs) = lhs.
Proof.
  split; [by apply div_is_spec|]. split; [by apply rem_is_spec|].
  rewrite div_is_spec, rem_is_spec by done.
  set (q := div_spec (as_i64 lhs) (as_i64 rhs)).
  set (r := rem_spec (as_i64 lhs) (as_i64 rhs)).
  unfold wrapping_add64, mul, wrapping_mul64, as_u64.
  rewrite wrap_add_l, wrap_add_r.
  rewrite <- (wrap_add_l 64 (rhs * wrap 64 q)), <- (wrap_id 64 rhs Hr), wrap_mul at 1.
  rewrite <- (wrap_mul 64 rhs q), <- (wrap_signed 64 rhs) by lia.
  rewrite (wrap_mul 64), wrap_add_l.
  fold (as_i64 rhs). unfold q, r. rewrite quot_rem_spec.
  unfold as_i64. rewrite wrap_signed by lia. by apply wrap_id.
Qed.

(** Witness for [div_rem_reconstruct] at the overflowing division. *)
Lemma div_rem_reconstruct_witness :
  div (2 ^ 63) U64_MAX = 2 ^ 63 ∧ rem (2 ^ 63) U64_MAX = 0 ∧
  wrapping_add64 (mul U64_MAX (div (2 ^ 63) U64_MAX)) (rem (2 ^ 63) U64_MAX) = 2 ^ 63.
Proof.
  destruct (div_rem_reconstruct (2 ^ 63) U64_MAX) as (H1 & H2 & H3);
    [split; vm_compute; congruence .. |].
  repeat split; vm_compute; reflexivity.
Defined.

Lemma high_low_split w a : 0 <= w →
  2 ^ w * Z.shiftr a w + wrap w a = a.
Proof.
  intros. rewrite Z.shiftr_div_pow2 by done. unfold wrap.
  symmetry. apply Z.div_mod. lia.
Qed.

(** The high multiplies return the upper 64 bits of the exact signed,
    unsigned and mixed products; together with [MUL] they are the full 128-bit
    product. *)
Theorem mul_high_low (lhs rhs : Z) (Hl : is_u64 lhs) (Hr : is_u64 rhs) :
  2 ^ 64 * as_i64 (mulh lhs rhs) + mul lhs rhs = as_i64 lhs * as_i64 rhs ∧
  2 ^ 64 * mulhu lhs rhs + mul lhs rhs = lhs * rhs ∧
  2 ^ 64 * as_i64 (mulhsu lhs rhs) + mul lhs rhs = as_i64 lhs * rhs.
Proof.
  pose proof (signed_range 64 lhs ltac:(lia)) as Rl.
  pose proof (signed_range 64 rhs ltac:(lia)) as Rr.
  assert (Hhi : ∀ b, - 2 ^ 63 <= b < 2 ^ 64 → wrap 64 b = rhs →
    2 ^ 64 * as_i64 (as_u64 (Z.shiftr (as_i128 (as_i64 lhs * b)) 64)) + mul lhs rhs
    = as_i64 lhs * b).
  { intros b Hb Hw. unfold as_i64 in *. change (2 ^ (64 - 1)) with (2 ^ 63) in *.
    set (a := signed 64 lhs) in *.
    assert (Hp : - 2 ^ 127 <= a * b < 2 ^ 127).
    { change (2 ^ 127) with (2 ^ 63 * 2 ^ 64). split; [nia|].
      destruct (Z.neg_nonneg_cases a), (Z.neg_nonneg_cases b); nia. }
    unfold as_i128, as_u64. rewrite signed_wrap, (signed_id 128) by (done || lia).
    rewrite signed_id.
    - rewrite <- (high_low_split 64 (a * b)) at 2 by lia. f_equal.
      unfold mul, wrapping_mul64, as_u64. rewrite <- (wrap_mul 64 a b), Hw.
      unfold a. rewrite wrap_signed by lia. rewrite (wrap_id 64 lhs) by done. reflexivity.
    - lia.
    - rewrite Z.shiftr_div_pow2 by lia. split.
      + apply Z.div_le_lower_bound; lia.
      + apply Z.div_lt_upper_bound; lia. }
  split_and!.
  - unfold mulh. apply Hhi; unfold as_i64; [lia|].
    rewrite wrap_signed by lia. by apply wrap_id.
  - unfold mulhu, mul, wrapping_mul64, as_u64, as_u128, is_word in *.
    rewrite (wrap_id 128) by (unfold is_word; nia).
    rewrite (wrap_id 64 (Z.shiftr _ _)).
    + apply high_low_split. lia.
    + split; [apply Z.shiftr_nonneg; nia|].
      rewrite Z.shiftr_div_pow2 by lia. apply Z.div_lt_upper_bound; nia.
  - unfold mulhsu. replace (as_i128 rhs) with rhs.
    + apply Hhi; unfold is_word in Hr; [lia|]. by apply wrap_id.
    + unfold as_i128, is_word in *. symmetry. apply signed_id; lia.
Qed.

(** Witness for [mul_high_low]. *)
Lemma mul_high_low_witness :
  2 ^ 64 * as_i64 (mulh (2 ^ 63) 3) + mul (2 ^ 63) 3 = - 2 ^ 63 * 3.
Proof.
  destruct (mul_high_low (2 ^ 63) 3) as (H & _ & _); [split; vm_compute; congruence .. |].
  rewrite H. reflexivity.
Defined.
