(* ===== verification/Csr.v ===== *)
(** Control and status registers ([riscv-core/src/csr.rs]). *)
From S2P Require Import Prelude Words.

(** ** Addresses and field masks *)

Definition MSTATUS : Z := 0x300.
Definition MISA : Z := 0x301.
Definition MEDELEG : Z := 0x302.
Definition MIDELEG : Z := 0x303.
Definition MIE : Z := 0x304.
Definition MTVEC : Z := 0x305.
Definition MCOUNTEREN : Z := 0x306.
Definition MCOUNTINHIBIT : Z := 0x320.
Definition MSCRATCH : Z := 0x340.
Definition MEPC : Z := 0x341.
Definition MCAUSE : Z := 0x342.
Definition MTVAL : Z := 0x343.
Definition MIP : Z := 0x344.
Definition MENVCFG : Z := 0x30A.
Definition MCONFIGPTR : Z := 0xF15.
Definition SSTATUS : Z := 0x100.
Definition SIE : Z := 0x104.
Definition STVEC : Z := 0x105.
Definition SCOUNTEREN : Z := 0x106.
Definition SENVCFG : Z := 0x10A.
Definition SSCRATCH : Z := 0x140.
Definition SEPC : Z := 0x141.
Definition SCAUSE : Z := 0x142.
Definition STVAL : Z := 0x143.
Definition SIP : Z := 0x144.
Definition SATP : Z := 0x180.
Definition CYCLE : Z := 0xC00.
Definition TIME : Z := 0xC01.
Definition INSTRET : Z := 0xC02.
Definition MCYCLE : Z := 0xB00.
Definition MINSTRET : Z := 0xB02.
Definition MVENDORID : Z := 0xF11.
Definition MARCHID : Z := 0xF12.
Definition MIMPID : Z := 0xF13.
Definition MHARTID : Z := 0xF14.

Definition MSTATUS_SIE : Z := Z.shiftl 1 1.
Definition MSTATUS_MIE : Z := Z.shiftl 1 3.
Definition MSTATUS_SPIE : Z := Z.shiftl 1 5.
Definition MSTATUS_UBE : Z := Z.shiftl 1 6.
Definition MSTATUS_MPIE : Z := Z.shiftl 1 7.
Definition MSTATUS_SPP : Z := Z.shiftl 1 8.
Definition MSTATUS_VS : Z := Z.shiftl 3 9.
Definition MSTATUS_MPP : Z := Z.shiftl 3 11.
Definition MSTATUS_FS : Z := Z.shiftl 3 13.
Definition MSTATUS_XS : Z := Z.shiftl 3 15.
Definition MSTATUS_MPRV : Z := Z.shiftl 1 17.
Definition MSTATUS_SUM : Z := Z.shiftl 1 18.
Definition MSTATUS_MXR : Z := Z.shiftl 1 19.
Definition MSTATUS_TVM : Z := Z.shiftl 1 20.
Definition MSTATUS_TW : Z := Z.shiftl 1 21.
Definition MSTATUS_TSR : Z := Z.shiftl 1 22.
Definition MSTATUS_UXL : Z := Z.shiftl 3 32.
Definition MSTATUS_SXL : Z := Z.shiftl 3 34.
Definition MSTATUS_SBE : Z := Z.shiftl 1 36.
Definition MSTATUS_MBE : Z := Z.shiftl 1 37.
Definition MSTATUS_SD : Z := Z.shiftl 1 63.

Definition MIP_SSIP : Z := Z.shiftl 1 1.
Definition MIP_MSIP : Z := Z.shiftl 1 3.
Definition MIP_STIP : Z := Z.shiftl 1 5.
Definition MIP_MTIP : Z := Z.shiftl 1 7.
Definition MIP_SEIP : Z := Z.shiftl 1 9.
Definition MIP_MEIP : Z := Z.shiftl 1 11.

Inductive PrivMode : Type := PrivU | PrivS | PrivM.

#[export] Instance PrivMode_eq_dec : EqDecision PrivMode.
Proof. solve_decision. Defined.

(** [priv as u64], and the equality test of [derive(PartialEq)]. *)
Definition priv_bits (p : PrivMode) : Z :=
  match p with PrivU => 0 | PrivS => 1 | PrivM => 3 end.
Definition priv_eqb (p q : PrivMode) : bool := bool_decide (p = q).

Definition from_bits (bits : Z) : PrivMode :=
  let b := Z.land bits 3 in
  if b =? 0 then PrivU else if b =? 1 then PrivS else PrivM.

Definition lor_all (l : list Z) : Z := foldr Z.lor 0 l.

Definition MSTATUS_WRITE_MASK : Z :=
  lor_all [MSTATUS_SIE; MSTATUS_MIE; MSTATUS_SPIE; MSTATUS_UBE; MSTATUS_MPIE;
           MSTATUS_SPP; MSTATUS_VS; MSTATUS_MPP; MSTATUS_FS; MSTATUS_XS;
           MSTATUS_MPRV; MSTATUS_SUM; MSTATUS_MXR; MSTATUS_TVM; MSTATUS_TW;
           MSTATUS_TSR].

Definition SSTATUS_MASK : Z :=
  lor_all [MSTATUS_SIE; MSTATUS_SPIE; MSTATUS_UBE; MSTATUS_SPP; MSTATUS_VS;
           MSTATUS_FS; MSTATUS_XS; MSTATUS_SUM; MSTATUS_MXR].

Definition SIP_WRITABLE : Z := MIP_SSIP.

(** ** The register file *)

Record Csr := mkCsr {
  mstatus : Z;
  misa : Z;
  medeleg : Z;
  mideleg : Z;
  mie : Z;
  mtvec : Z;
  mcounteren : Z;
  mcountinhibit : Z;
  mscratch : Z;
  mepc : Z;
  mcause : Z;
  mtval : Z;
  mip : Z;
  menvcfg : Z;
  stvec : Z;
  scounteren : Z;
  senvcfg : Z;
  sscratch : Z;
  sepc : Z;
  scause : Z;
  stval : Z;
  satp : Z;
  hart_id : Z;
  pmpcfg : list Z;
  pmpaddr : list Z;
  cycle : Z;
  instret : Z;
  time : Z;
  fcsr : Z;
  mhpmevent : list Z
}.
#[export] Instance Csr_eta : Eta Csr := fun c =>
  mkCsr (mstatus c) (misa c) (medeleg c) (mideleg c) (mie c) (mtvec c) (mcounteren c)
    (mcountinhibit c) (mscratch c) (mepc c) (mcause c) (mtval c) (mip c)
    (menvcfg c) (stvec c) (scounteren c) (senvcfg c) (sscratch c) (sepc c)
    (scause c) (stval c) (satp c) (hart_id c) (pmpcfg c) (pmpaddr c) (cycle c)
    (instret c) (time c) (fcsr c) (mhpmevent c).

Definition csr_new : Csr := {|
  misa := lor_all [Z.shiftl 2 62; Z.shiftl 1 0; Z.shiftl 1 2; Z.shiftl 1 3; Z.shiftl 1 5;
                   Z.shiftl 1 8; Z.shiftl 1 12; Z.shiftl 1 18; Z.shiftl 1 20];
  mstatus := Z.lor (Z.shiftl 2 32) (Z.shiftl 2 34);
  medeleg := 0; mideleg := 0; mie := 0; mtvec := 0; mcounteren := 0;
  mcountinhibit := 0; mscratch := 0; mepc := 0; mcause := 0; mtval := 0;
  mip := 0; menvcfg := 0; stvec := 0; scounteren := 0; senvcfg := 0;
  sscratch := 0; sepc := 0; scause := 0; stval := 0; satp := 0;
  hart_id := 0; pmpcfg := replicate 16 0; pmpaddr := replicate 64 0; cycle := 0; instret := 0;
  time := 0; fcsr := 0; mhpmevent := replicate 29 0
|}.

Definition in_range (lo hi a : Z) : bool := (lo <=? a) && (a <=? hi).

Definition read_mstatus (c : Csr) : Z :=
  let value := mstatus c in
  let fs := Z.land (Z.shiftr value 13) 3 in
  let xs := Z.land (Z.shiftr value 15) 3 in
  let vs := Z.land (Z.shiftr value 9) 3 in
  if (fs =? 3) || (xs =? 3) || (vs =? 3)
  then Z.lor value MSTATUS_SD
  else Z.land value (not64 MSTATUS_SD).

Definition write_mstatus (value : Z) (c : Csr) : Csr :=
  let preserved := Z.lor MSTATUS_UXL MSTATUS_SXL in
  c <| mstatus := Z.lor (Z.land (mstatus c) preserved) (Z.land value MSTATUS_WRITE_MASK) |>.

(** [self.mstatus & TVM != 0] in S mode makes [satp] inaccessible. *)
Definition tvm_blocks (c : Csr) (priv_mode : PrivMode) : bool :=
  priv_eqb priv_mode PrivS && negb (Z.land (mstatus c) MSTATUS_TVM =? 0).

Definition read_register (address : Z) (priv_mode : PrivMode) (c : Csr) : option Z :=
  let a := Z.eqb address in
  let r lo hi := in_range lo hi address in
  if a MSTATUS then Some (read_mstatus c)
  else if a MISA then Some (misa c)
  else if a MEDELEG then Some (medeleg c)
  else if a MIDELEG then Some (mideleg c)
  else if a MIE then Some (mie c)
  else if a MTVEC then Some (mtvec c)
  else if a MCOUNTEREN then Some (mcounteren c)
  else if a MCOUNTINHIBIT then Some (mcountinhibit c)
  else if a MENVCFG then Some (menvcfg c)
  else if a MSCRATCH then Some (mscratch c)
  else if a MEPC then Some (mepc c)
  else if a MCAUSE then Some (mcause c)
  else if a MTVAL then Some (mtval c)
  else if a MIP then Some (mip c)
  else if a SSTATUS then Some (Z.land (read_mstatus c) SSTATUS_MASK)
  else if a SIE then Some (Z.land (mie c) (mideleg c))
  else if a STVEC then Some (stvec c)
  else if a SCOUNTEREN then Some (scounteren c)
  else if a SENVCFG then Some (senvcfg c)
  else if a SSCRATCH then Some (sscratch c)
  else if a SEPC then Some (sepc c)
  else if a SCAUSE then Some (scause c)
  else if a STVAL then Some (stval c)
  else if a SIP then Some (Z.land (mip c) (mideleg c))
  else if a SATP then (if tvm_blocks c priv_mode then None else Some (satp c))
  else if a MVENDORID || a MARCHID || a MIMPID then Some 0
  else if a MHARTID then Some (hart_id c)
  else if a MCONFIGPTR then Some 0
  else if r 0x3A0 0x3AF then Some (pmpcfg c !!! Z.to_nat (address - 0x3A0))
  else if r 0x3B0 0x3EF then Some (pmpaddr c !!! Z.to_nat (address - 0x3B0))
  else if a CYCLE || a MCYCLE then Some (cycle c)
  else if a TIME then Some (time c)
  else if a INSTRET || a MINSTRET then Some (instret c)
  else if r 0xB03 0xB1F then Some 0
  else if r 0xB83 0xB9F then Some 0
  else if r 0xC03 0xC1F then Some 0
  else if r 0xC83 0xC9F then Some 0
  else if r 0xC80 0xC82 then Some 0
  else if a 0x001 then Some (Z.land (fcsr c) 0x1F)
  else if a 0x002 then Some (Z.land (Z.shiftr (fcsr c) 5) 0x7)
  else if a 0x003 then Some (Z.land (fcsr c) 0xFF)
  else if r 0x323 0x33F then Some (mhpmevent c !!! Z.to_nat (address - 0x323))
  else if a 0xDA0 then Some 0
  else if a 0x747 then Some 0
  else if a 0x7A0 then Some 0
  else if a 0x7A1 then Some 0
  else if a 0x7A2 then Some 0
  else if a 0x7A3 then Some 0
  else None.

(** [(old & !mask) | (value & mask)] *)
Definition masked_update (old value mask : Z) : Z :=
  Z.lor (Z.land old (not64 mask)) (Z.land value mask).

(** The result is the new registers and whether the write was accepted. *)
Definition write_register (address value : Z) (priv_mode : PrivMode) (c : Csr) : Csr * bool :=
  let a := Z.eqb address in
  let r lo hi := in_range lo hi address in
  if a MSTATUS then (write_mstatus value c, true)
  else if a MISA then (c, true)
  else if a MEDELEG then (c <| medeleg := value |>, true)
  else if a MIDELEG then (c <| mideleg := value |>, true)
  else if a MIE then (c <| mie := value |>, true)
  else if a MTVEC then (c <| mtvec := value |>, true)
  else if a MCOUNTEREN then (c <| mcounteren := Z.land value 0xFFFFFFFF |>, true)
  else if a MCOUNTINHIBIT then (c <| mcountinhibit := Z.land value 0xFFFFFFFF |>, true)
  else if a MENVCFG then (c <| menvcfg := value |>, true)
  else if a MSCRATCH then (c <| mscratch := value |>, true)
  else if a MEPC then (c <| mepc := Z.land value (not64 1) |>, true)
  else if a MCAUSE then (c <| mcause := value |>, true)
  else if a MTVAL then (c <| mtval := value |>, true)
  else if a MIP then
    let writable := lor_all [MIP_MSIP; MIP_SSIP; MIP_STIP] in
    (c <| mip := masked_update (mip c) value writable |>, true)
  else if a SSTATUS then
    let mask := Z.land SSTATUS_MASK MSTATUS_WRITE_MASK in
    (c <| mstatus := masked_update (mstatus c) value mask |>, true)
  else if a SIE then (c <| mie := masked_update (mie c) value (mideleg c) |>, true)
  else if a STVEC then (c <| stvec := value |>, true)
  else if a SCOUNTEREN then (c <| scounteren := Z.land value 0xFFFFFFFF |>, true)
  else if a SENVCFG then (c <| senvcfg := value |>, true)
  else if a SSCRATCH then (c <| sscratch := value |>, true)
  else if a SEPC then (c <| sepc := Z.land value (not64 1) |>, true)
  else if a SCAUSE then (c <| scause := value |>, true)
  else if a STVAL then (c <| stval := value |>, true)
  else if a SIP then
    let mask := Z.land (mideleg c) SIP_WRITABLE in
    (c <| mip := masked_update (mip c) value mask |>, true)
  else if a SATP then
    (if tvm_blocks c priv_mode then (c, false) else (c <| satp := value |>, true))
  else if r 0x3A0 0x3AF then
    (c <| pmpcfg := <[Z.to_nat (address - 0x3A0) := value]> (pmpcfg c) |>, true)
  else if r 0x3B0 0x3EF then
    (c <| pmpaddr := <[Z.to_nat (address - 0x3B0) := value]> (pmpaddr c) |>, true)
  else if a MCYCLE then (c <| cycle := value |>, true)
  else if a MINSTRET then (c <| instret := value |>, true)
  else if a 0x001 then (c <| fcsr := masked_update (fcsr c) value 0x1F |>, true)
  else if a 0x002 then
    (c <| fcsr := Z.lor (Z.land (fcsr c) (not64 0xE0)) (shl64 (Z.land value 0x7) 5) |>, true)
  else if a 0x003 then (c <| fcsr := Z.land value 0xFF |>, true)
  else if r 0x323 0x33F then
    (c <| mhpmevent := <[Z.to_nat (address - 0x323) := value]> (mhpmevent c) |>, true)
  else if r 0xB03 0xB1F || r 0xB83 0xB9F then (c, true)
  else if a CYCLE || a INSTRET || a TIME then (c, true)
  else if r 0xC03 0xC1F || r 0xC83 0xC9F || r 0xC80 0xC82 then (c, true)
  else if a MVENDORID || a MARCHID || a MIMPID || a MHARTID || a MCONFIGPTR then (c, true)
  else if a 0xDA0 || a 0x747 || r 0x7A0 0x7A3 then (c, true)
  else (c, false).

(** ** Interrupt selection *)

Fixpoint first_set_bit (order : list Z) (value : Z) : option Z :=
  match order with
  | [] => None
  | bit :: rest =>
      if negb (Z.land value (Z.shiftl 1 bit) =? 0) then Some bit
      else first_set_bit rest value
  end.

Definition highest_priority_interrupt_bit (value : Z) : Z :=
  match first_set_bit [11; 3; 7; 9; 1; 5] value with
  | Some bit => bit
  | None => 63 - leading_zeros 64 value
  end.

Definition pending_interrupt_slow (priv_mode : PrivMode) (pending : Z) (c : Csr) : option Z :=
  let mie_bit := negb (Z.land (mstatus c) MSTATUS_MIE =? 0) in
  let sie_bit := negb (Z.land (mstatus c) MSTATUS_SIE =? 0) in
  let m_pending := Z.land pending (not64 (mideleg c)) in
  if negb (m_pending =? 0) && (negb (priv_eqb priv_mode PrivM) || mie_bit)
  then Some (highest_priority_interrupt_bit m_pending)
  else
    let s_pending := Z.land pending (mideleg c) in
    if negb (s_pending =? 0)
       && (priv_eqb priv_mode PrivU || (priv_eqb priv_mode PrivS && sie_bit))
    then Some (highest_priority_interrupt_bit s_pending)
    else None.

Definition pending_interrupt (priv_mode : PrivMode) (c : Csr) : option Z :=
  let pending := Z.land (mip c) (mie c) in
  if pending =? 0 then None else pending_interrupt_slow priv_mode pending c.
