(* ===== verification/SyscallEntry.v ===== *)
(** The decoded system calls the CPU reports to its bus: the data types of
    [riscv-core/src/syscall_trace.rs].  A Rust [String] is its UTF-8 bytes. *)
From S2P Require Import Prelude.

Inductive GuestString : Type :=
| GuestValue (s : list Z)
| GuestTruncated (s : list Z)
| GuestUnreadable.

Inductive SocketAddr : Type :=
| SocketV4 (octets : list Z) (port : Z)
| SocketV6 (octets : list Z) (port : Z).

Inductive SyscallKind : Type :=
| SkExec (directory_fd : Z) (path : GuestString) (argv : list (list Z)) (argv_truncated : bool)
| SkExit (code : Z)
| SkClone (thread : bool)
| SkIdentity (group : bool)
| SkRingUse
| SkOpen (directory_fd : Z) (path : GuestString)
    (write read_write create truncate close_on_exec : bool)
| SkRename (from_directory_fd : Z) (from : GuestString) (to_directory_fd : Z) (to : GuestString)
| SkUnlink (directory_fd : Z) (path : GuestString) (directory : bool)
| SkMkdir (directory_fd : Z) (path : GuestString)
| SkTruncate (path : GuestString) (size : Z)
| SkTruncateDescriptor (fd size : Z)
| SkChangeDirectory (path : GuestString)
| SkChangeDirectoryDescriptor (fd : Z)
| SkDuplicate (fd : Z) (close_on_exec : bool)
| SkDuplicateTo (from_fd to_fd : Z) (close_on_exec : bool)
| SkClose (fd : Z)
| SkCloseRange (first last : Z)
| SkSocket (domain socket_type : Z)
| SkConnect (fd : Z) (address : option SocketAddr)
| SkBind (fd : Z) (address : option SocketAddr)
| SkListen (fd : Z).

Record SyscallEntry := mkSyscallEntry {
  entry_task : Z;
  entry_number : Z;
  entry_pc : Z;
  entry_kind : SyscallKind
}.
