(* ===== verification/SystemBus.v ===== *)
(** The bus between the hart and the rest of the machine
    ([riscv-core/src/system_bus.rs]).

    [SystemBus] is the trait: every operation a core performs on memory and
    devices, with the panics of an implementation as [None].  [HostMemory] is
    the memory behind the raw page pointers [ram_load_page]/[ram_store_page]
    hand out and that the fast paths dereference.  [FlatMemory] is the in-crate
    implementation.  What the core relies on about a bus is stated in [BusLaws]
    (no panics, values in range) and [RamLaws] (memory behaves like bytes). *)
From S2P Require Import Prelude Words SyscallEntry.

(** A raw host pointer: the allocation it points into and the byte offset.
    Allocation 0 is never handed out, [host_null] is [std::ptr::null()]. *)
Record HostPtr := mkHostPtr { host_alloc : Z; host_offset : Z }.
Definition host_null : HostPtr := mkHostPtr 0 0.
Definition host_add (p : HostPtr) (n : Z) : HostPtr :=
  mkHostPtr (host_alloc p) (host_offset p + n).

#[export] Instance HostPtr_eq_dec : EqDecision HostPtr.
Proof. solve_decision. Defined.

Class SystemBus (B : Type) := {
  read_byte : Z -> ST B Z;
  read_halfword : Z -> ST B Z;
  read_word : Z -> ST B Z;
  read_doubleword : Z -> ST B Z;

  write_byte : Z -> Z -> ST B unit;
  write_halfword : Z -> Z -> ST B unit;
  write_word : Z -> Z -> ST B unit;
  write_doubleword : Z -> Z -> ST B unit;

  ram_load_page : Z -> ST B (option HostPtr);
  ram_store_page : Z -> ST B (option HostPtr);
  ram_epoch : B -> Z;

  (** The pages passed to the visitor, in order, and the result. *)
  drain_device_written_pages : ST B (list Z * bool);

  timer_interrupt_pending : B -> option bool;
  external_interrupt_pending : ST B (option bool);

  syscall_trace_enabled : B -> bool;
  on_syscall_entry : SyscallEntry -> Z -> ST B unit;
  on_syscall_return : Z -> Z -> Z -> Z -> ST B unit
}.

(** Dereferencing host pointers: little-endian unaligned accesses. *)
Class HostMemory (B : Type) := {
  host_read : HostPtr -> nat -> B -> option Z;
  host_write : HostPtr -> nat -> Z -> ST B unit
}.

(** ** FlatMemory *)

Record FlatMemory := mkFlat { data : list Z; mask : Z; epoch : Z }.
#[export] Instance FlatMemory_eta : Eta FlatMemory :=
  fun m => mkFlat (data m) (mask m) (epoch m).

Definition is_power_of_two (n : Z) : bool := (0 <? n) && (Z.land n (n - 1) =? 0).

(** [epoch_source] is the value of the static counter [FLAT_EPOCH_SOURCE]. *)
Definition flat_new (size_bytes : Z) : ST Z FlatMemory :=
  fun epoch_source =>
    if is_power_of_two size_bytes then
      Some ({| data := replicate (Z.to_nat size_bytes) 0;
               mask := size_bytes - 1;
               epoch := epoch_source |}, as_u64 (epoch_source + 1))
    else None.

(** [data[i..i + n]], a panic out of range. *)
Definition slice_get (l : list Z) (i : Z) (n : nat) : option (list Z) :=
  if (0 <=? i) && (i + Z.of_nat n <=? Z.of_nat (length l))
  then Some (take n (drop (Z.to_nat i) l)) else None.

(** [data[i..i + bytes.len()].copy_from_slice(bytes)] *)
Definition slice_put (l : list Z) (i : Z) (bytes : list Z) : option (list Z) :=
  if (0 <=? i) && (i + Z.of_nat (length bytes) <=? Z.of_nat (length l))
  then Some (take (Z.to_nat i) l ++ bytes ++ drop (Z.to_nat i + length bytes) l) else None.

Definition flat_load_at (offset : Z) (bytes : list Z) : ST FlatMemory unit :=
  fun m => match slice_put (data m) offset bytes with
           | Some d => Some (tt, m <| data := d |>)
           | None => None
           end.

Definition flat_idx (m : FlatMemory) (address : Z) : Z := Z.land address (mask m).

Definition flat_read (n : nat) (address : Z) : ST FlatMemory Z :=
  fun m => match slice_get (data m) (flat_idx m address) n with
           | Some bytes => Some (from_le_bytes bytes, m)
           | None => None
           end.

Definition flat_write (n : nat) (address val : Z) : ST FlatMemory unit :=
  fun m => match slice_put (data m) (flat_idx m address) (to_le_bytes n val) with
           | Some d => Some (tt, m <| data := d |>)
           | None => None
           end.

Definition flat_page (address : Z) : ST FlatMemory (option HostPtr) :=
  fun m =>
    if Z.of_nat (length (data m)) <? 0x1000 then Some (None, m)
    else
      let page_index := Z.land (flat_idx m address) (not64 0xfff) in
      if page_index <=? Z.of_nat (length (data m))
      then Some (Some (mkHostPtr 1 page_index), m) else None.

#[export] Instance FlatMemory_bus : SystemBus FlatMemory := {|
  read_byte := flat_read 1;
  read_halfword := flat_read 2;
  read_word := flat_read 4;
  read_doubleword := flat_read 8;
  write_byte := flat_write 1;
  write_halfword := flat_write 2;
  write_word := flat_write 4;
  write_doubleword := flat_write 8;
  ram_load_page := flat_page;
  ram_store_page := flat_page;
  ram_epoch := epoch;
  drain_device_written_pages := mret ([], false);
  timer_interrupt_pending := fun _ => None;
  external_interrupt_pending := mret None;
  syscall_trace_enabled := fun _ => false;
  on_syscall_entry := fun _ _ => mret tt;
  on_syscall_return := fun _ _ _ _ => mret tt
|}.

#[export] Instance FlatMemory_host : HostMemory FlatMemory := {|
  host_read := fun p n m =>
    if host_alloc p =? 1 then from_le_bytes <$> slice_get (data m) (host_offset p) n else None;
  host_write := fun p n val m =>
    if host_alloc p =? 1 then
      match slice_put (data m) (host_offset p) (to_le_bytes n val) with
      | Some d => Some (tt, m <| data := d |>)
      | None => None
      end
    else None
|}.
