(* ===== verification/BusLaws.v ===== *)
(** What the core relies on about a bus.

    [BusLaws D] is the contract of [SystemBus] the core's invariants are proved
    against: values have the width of the access, reads keep the RAM epoch, a
    host page is usable as long as the epoch it was handed out at is current.
    [D] says what a panic of the bus may mean: [BusLaws True] allows panics (the
    invariants then hold of every run that does not panic), [BusLaws False]
    excludes them.  [FlatMemory] satisfies the first (it panics on accesses
    across its end), [SparseRam] below the second. *)
From S2P Require Import Prelude Words SyscallEntry SystemBus Wp.

Class BusLaws (B : Type) {SB : SystemBus B} {HM : HostMemory B} (D : Prop) := {
  bus_ok : B -> Prop;
  (** The page was handed out at this epoch. *)
  page_ok : Z -> HostPtr -> Prop;

  bl_read_byte a b : bus_ok b → is_u64 a →
    wp D (read_byte a) (fun v b' => is_u8 v ∧ bus_ok b' ∧ ram_epoch b' = ram_epoch b) b;
  bl_read_halfword a b : bus_ok b → is_u64 a →
    wp D (read_halfword a) (fun v b' => is_u16 v ∧ bus_ok b' ∧ ram_epoch b' = ram_epoch b) b;
  bl_read_word a b : bus_ok b → is_u64 a →
    wp D (read_word a) (fun v b' => is_u32 v ∧ bus_ok b' ∧ ram_epoch b' = ram_epoch b) b;
  bl_read_doubleword a b : bus_ok b → is_u64 a →
    wp D (read_doubleword a) (fun v b' => is_u64 v ∧ bus_ok b' ∧ ram_epoch b' = ram_epoch b) b;

  bl_write_byte a v b : bus_ok b → is_u64 a → is_u8 v →
    wp D (write_byte a v) (fun _ b' => bus_ok b') b;
  bl_write_halfword a v b : bus_ok b → is_u64 a → is_u16 v →
    wp D (write_halfword a v) (fun _ b' => bus_ok b') b;
  bl_write_word a v b : bus_ok b → is_u64 a → is_u32 v →
    wp D (write_word a v) (fun _ b' => bus_ok b') b;
  bl_write_doubleword a v b : bus_ok b → is_u64 a → is_u64 v →
    wp D (write_doubleword a v) (fun _ b' => bus_ok b') b;

  bl_load_page a b : bus_ok b → is_u64 a →
    wp D (ram_load_page a) (fun p b' => b' = b ∧ ∀ q, p = Some q → page_ok (ram_epoch b) q) b;
  bl_store_page a b : bus_ok b → is_u64 a →
    wp D (ram_store_page a)
      (fun p b' => bus_ok b' ∧ ∀ q, p = Some q → page_ok (ram_epoch b') q) b;

  bl_host_read p off n b : bus_ok b → page_ok (ram_epoch b) p →
    0 <= off → off + Z.of_nat n <= 0x1000 →
    match host_read (host_add p off) n b with
    | Some v => is_word (8 * Z.of_nat n) v
    | None => D
    end;
  bl_host_write p off n v b : bus_ok b → page_ok (ram_epoch b) p →
    0 <= off → off + Z.of_nat n <= 0x1000 → is_word (8 * Z.of_nat n) v →
    wp D (host_write (host_add p off) n v) (fun _ b' => bus_ok b') b;

  bl_drain b : bus_ok b →
    wp D drain_device_written_pages (fun d b' => bus_ok b' ∧ Forall (fun p => 0 <= p) d.1) b;
  bl_external b : bus_ok b → wp D external_interrupt_pending (fun _ b' => bus_ok b') b;
  bl_entry e satp b : bus_ok b → wp D (on_syscall_entry e satp) (fun _ b' => bus_ok b') b;
  bl_return task pc v satp b : bus_ok b →
    wp D (on_syscall_return task pc v satp) (fun _ b' => bus_ok b') b
}.

(** ** FlatMemory *)

Definition flat_ok (m : FlatMemory) : Prop := Forall is_u8 (data m).

Lemma slice_get_bytes l i n bytes :
  Forall is_u8 l → slice_get l i n = Some bytes → Forall is_u8 bytes ∧ length bytes = n.
Proof.
  intros Hl. unfold slice_get. case_if; [|done]. intros [= <-]. bools. split.
  - by apply Forall_take, Forall_drop.
  - rewrite length_take, length_drop. lia.
Qed.

Lemma slice_put_bytes l i bytes l' :
  Forall is_u8 l → Forall is_u8 bytes → slice_put l i bytes = Some l' → Forall is_u8 l'.
Proof.
  intros Hl Hb. unfold slice_put. case_if; [|done]. intros [= <-].
  apply Forall_app_2; [by apply Forall_take|]. apply Forall_app_2; [done | by apply Forall_drop].
Qed.

Lemma flat_read_ok n a m :
  flat_ok m →
  wp True (flat_read n a)
    (fun v m' => is_word (8 * Z.of_nat n) v ∧ flat_ok m' ∧ epoch m' = epoch m) m.
Proof.
  intros H. unfold wp, flat_read. destruct (slice_get _ _ _) as [bytes|] eqn:E; [|done].
  apply slice_get_bytes in E as [Hb Hn]; [|done]. split; [|done]. rewrite <- Hn.
  by apply from_le_bytes_range.
Qed.

Lemma flat_write_ok n a v m :
  flat_ok m → wp True (flat_write n a v) (fun _ m' => flat_ok m') m.
Proof.
  intros H. unfold wp, flat_write. destruct (slice_put _ _ _) as [l|] eqn:E; [|done].
  exact (slice_put_bytes _ _ _ _ H (to_le_bytes_bytes _ _) E).
Qed.

Lemma flat_page_ok (P : Z -> HostPtr -> Prop) a m :
  (∀ e q, P e q) →
  wp True (flat_page a) (fun p m' => m' = m ∧ ∀ q, p = Some q → P (epoch m) q) m.
Proof. intros H. unfold wp, flat_page. repeat case_if; done || (split; [done|]; by intros ? _). Qed.

#[export] Instance FlatMemory_laws : BusLaws FlatMemory True.
Proof.
  refine {| bus_ok := flat_ok; page_ok := fun _ _ => True |}; intros.
  1-4: by apply flat_read_ok.
  1-4: by apply flat_write_ok.
  - by apply (flat_page_ok (fun _ _ => True)).
  - eapply wp_mono; [|by apply (flat_page_ok (fun _ _ => True))]. cbn. intros p b' [-> Hq]. auto.
  - cbn. case_if; [|done]. destruct (slice_get _ _ _) as [bytes|] eqn:G; [|done]. cbn.
    apply slice_get_bytes in G as [Hb <-]; [|done]. by apply from_le_bytes_range.
  - unfold wp. cbn. case_if; [|done]. destruct (slice_put _ _ _) as [l|] eqn:P; [|done].
    exact (slice_put_bytes _ _ _ _ H (to_le_bytes_bytes _ _) P).
  - split; [done | constructor].
  - done.
  - done.
  - done.
Defined.

(** ** A bus that never panics *)

Module SparseRam.
Definition ram : Type := gmap Z Z.
Definition empty : ram := ∅.
Definition cell (m : ram) (a : Z) : Z := as_u8 (default 0 (m !! as_u64 a)).
Definition load (n : nat) (a : Z) : ST ram Z :=
  fun m => Some (from_le_bytes (map (fun k => cell m (a + Z.of_nat k)) (seq 0 n)), m).
Definition store (n : nat) (a v : Z) : ST ram unit :=
  fun m => Some (tt, foldr (fun kb m => <[as_u64 (a + kb.1) := kb.2]> m) m
                       (zip (Z.of_nat <$> seq 0 n) (to_le_bytes n v))).

#[global] Instance bus : SystemBus ram := {|
  read_byte := load 1; read_halfword := load 2; read_word := load 4; read_doubleword := load 8;
  write_byte := store 1; write_halfword := store 2; write_word := store 4;
  write_doubleword := store 8;
  ram_load_page := fun _ => mret None;
  ram_store_page := fun _ => mret None;
  ram_epoch := fun _ => 0;
  drain_device_written_pages := mret ([], true);
  timer_interrupt_pending := fun _ => Some false;
  external_interrupt_pending := mret (Some false);
  syscall_trace_enabled := fun _ => true;
  on_syscall_entry := fun _ _ => mret tt;
  on_syscall_return := fun _ _ _ _ => mret tt
|}.
#[global] Instance host : HostMemory ram := {|
  host_read := fun _ _ _ => None; host_write := fun _ _ _ => panic
|}.

Lemma load_ok n a m : wp False (load n a) (fun v m' => is_word (8 * Z.of_nat n) v ∧ True ∧ 0 = 0) m.
Proof.
  split; [|done]. assert (H : Forall is_u8 (map (fun k => cell m (a + Z.of_nat k)) (seq 0 n))).
  { apply Forall_map, Forall_true. intros k. apply wrap_range. lia. }
  apply from_le_bytes_range in H. by rewrite length_map, length_seq in H.
Qed.

#[global] Instance laws : BusLaws ram False.
Proof.
  refine {| bus_ok := fun _ => True; page_ok := fun _ _ => False |}; intros; try done.
  all: apply load_ok.
Defined.
End SparseRam.
