(* ===== verification/Mmu.v ===== *)
(** Sv39 address translation and its caches ([riscv-core/src/mmu.rs]).

    The MMU keeps a direct-mapped TLB stamped with an epoch, one-entry memos of
    the last load and store translation, and two tables of host page pointers
    for the fast paths.  [walk_inner] is the page-table walk everything else is
    measured against. *)
From S2P Require Import Prelude Words SystemBus.

Definition PTE_V : Z := Z.shiftl 1 0.
Definition PTE_R : Z := Z.shiftl 1 1.
Definition PTE_W : Z := Z.shiftl 1 2.
Definition PTE_X : Z := Z.shiftl 1 3.
Definition PTE_D : Z := Z.shiftl 1 7.

Definition TLB_SIZE : Z := 512.
Definition TLB_MASK : Z := TLB_SIZE - 1.

Record TlbEntry := mkTlbEntry {
  tlb_virt_page_num : Z; tlb_phys_page_num : Z; tlb_flags : Z; tlb_epoch : Z
}.
Definition TlbEntry_EMPTY : TlbEntry := mkTlbEntry U64_MAX 0 0 0.

Record LoadFastEntry := mkLoadFast {
  lf_virt_page_num : Z; lf_satp : Z; lf_ram_epoch : Z; lf_epoch : Z; lf_host_page : HostPtr
}.
Definition LoadFastEntry_EMPTY : LoadFastEntry := mkLoadFast U64_MAX 0 0 0 host_null.

Record StoreFastEntry := mkStoreFast {
  sf_virt_page_num : Z; sf_satp : Z; sf_ram_epoch : Z; sf_code_generation : Z;
  sf_epoch : Z; sf_host_page : HostPtr
}.
Definition StoreFastEntry_EMPTY : StoreFastEntry := mkStoreFast U64_MAX 0 0 0 0 host_null.

Record Mmu := mkMmu {
  tlb : arr TlbEntry;
  load_fast : arr LoadFastEntry;
  store_fast : arr StoreFastEntry;
  mmu_epoch : Z;
  load_vpage : Z;
  load_ppage : Z;
  load_satp : Z;
  store_vpage : Z;
  store_ppage : Z;
  store_satp : Z
}.
#[export] Instance Mmu_eta : Eta Mmu := fun m =>
  mkMmu (tlb m) (load_fast m) (store_fast m) (mmu_epoch m) (load_vpage m) (load_ppage m)
    (load_satp m) (store_vpage m) (store_ppage m) (store_satp m).

Inductive MmuFault : Type :=
| LoadPageFault (address : Z)
| StorePageFault (address : Z)
| InstructionPageFault (address : Z)
| LoadAccessFault (address : Z)
| StoreAccessFault (address : Z)
| InstructionAccessFault (address : Z).

Definition fault_mcause (fault : MmuFault) : Z :=
  match fault with
  | InstructionAccessFault _ => 1
  | LoadAccessFault _ => 5
  | StoreAccessFault _ => 7
  | InstructionPageFault _ => 12
  | LoadPageFault _ => 13
  | StorePageFault _ => 15
  end.

Definition fault_tval (fault : MmuFault) : Z :=
  match fault with
  | LoadPageFault address | StorePageFault address | InstructionPageFault address
  | LoadAccessFault address | StoreAccessFault address | InstructionAccessFault address => address
  end.

Definition mmu_new : Mmu := {|
  tlb := arr_new TlbEntry_EMPTY;
  load_fast := arr_new LoadFastEntry_EMPTY;
  store_fast := arr_new StoreFastEntry_EMPTY;
  mmu_epoch := 1;
  load_vpage := U64_MAX;
  load_ppage := 0;
  load_satp := U64_MAX;
  store_vpage := U64_MAX;
  store_ppage := 0;
  store_satp := U64_MAX
|}.

Definition mmu_flush (m : Mmu) : Mmu :=
  let m := m <| mmu_epoch := as_u32 (mmu_epoch m + 1) |> in
  let m := if mmu_epoch m =? 0 then m <| mmu_epoch := 1 |> else m in
  m <| load_vpage := U64_MAX |> <| store_vpage := U64_MAX |>.

(** The slot of a page in the three direct-mapped tables. *)
Definition tlb_slot (virt_page_num : Z) : Z := Z.land virt_page_num TLB_MASK.

Definition mmu_lookup (virt_page_num : Z) (m : Mmu) : option (Z * Z) :=
  let entry := arr_get (tlb m) (tlb_slot virt_page_num) in
  if (tlb_epoch entry =? mmu_epoch m) && (tlb_virt_page_num entry =? virt_page_num)
  then Some (tlb_phys_page_num entry, tlb_flags entry)
  else None.

Definition load_fast_lookup (virtual_address satp ram_epoch : Z) (m : Mmu) : option HostPtr :=
  let virt_page_num := Z.shiftr virtual_address 12 in
  let entry := arr_get (load_fast m) (tlb_slot virt_page_num) in
  if (lf_virt_page_num entry =? virt_page_num) && (lf_satp entry =? satp)
     && (lf_epoch entry =? mmu_epoch m) && (lf_ram_epoch entry =? ram_epoch)
  then Some (lf_host_page entry)
  else None.

Definition store_fast_lookup (virtual_address satp ram_epoch code_generation : Z) (m : Mmu)
    : option HostPtr :=
  let virt_page_num := Z.shiftr virtual_address 12 in
  let entry := arr_get (store_fast m) (tlb_slot virt_page_num) in
  if (sf_virt_page_num entry =? virt_page_num) && (sf_satp entry =? satp)
     && (sf_epoch entry =? mmu_epoch m) && (sf_ram_epoch entry =? ram_epoch)
     && (sf_code_generation entry =? code_generation)
  then Some (sf_host_page entry)
  else None.

Definition mmu_insert (virt_page_num phys_page_num flags : Z) (m : Mmu) : Mmu :=
  m <| tlb := arr_set (tlb m) (tlb_slot virt_page_num)
                (mkTlbEntry virt_page_num phys_page_num flags (mmu_epoch m)) |>.

Section Translate.
Context {B : Type} {SB : SystemBus B}.

(** Code that uses the MMU and the bus works on the pair. *)
Definition mb_bus {A} (m : ST B A) : ST (Mmu * B) A := zoom snd (fun b s => (s.1, b)) m.
Definition mb_mmu (f : Mmu -> Mmu) : ST (Mmu * B) unit := modify (fun s => (f s.1, s.2)).

Definition store_fast_fill (virt_page_num satp physical_address code_generation : Z)
    : ST (Mmu * B) unit :=
  page ← mb_bus (ram_store_page physical_address);
  match page with
  | Some host_page =>
      ram_epoch ← gets (fun s => ram_epoch s.2);
      mb_mmu (fun m =>
        m <| store_fast := arr_set (store_fast m) (tlb_slot virt_page_num)
               (mkStoreFast virt_page_num satp ram_epoch code_generation (mmu_epoch m) host_page) |>)
  | None => mret tt
  end.

Definition load_fast_fill (virt_page_num satp physical_address : Z) : ST (Mmu * B) unit :=
  page ← mb_bus (ram_load_page physical_address);
  match page with
  | Some host_page =>
      ram_epoch ← gets (fun s => ram_epoch s.2);
      mb_mmu (fun m =>
        m <| load_fast := arr_set (load_fast m) (tlb_slot virt_page_num)
               (mkLoadFast virt_page_num satp ram_epoch (mmu_epoch m) host_page) |>)
  | None => mret tt
  end.

(** The levels of the walk, from [level] down to 0; [Some (pte, level)] is the
    leaf that ended it, [None] an invalid entry or no leaf at all. *)
Fixpoint walk_levels (virt_page_nums : list Z) (levels : nat) (phys_page_num : Z)
    : ST B (option (Z * Z)) :=
  match levels with
  | O => mret None
  | S n =>
      let level := Z.of_nat n in
      let pte_addr := Z.lor (shl64 phys_page_num 12)
                            (shl64 (virt_page_nums !!! Z.to_nat (2 - level)) 3) in
      pte ← read_doubleword pte_addr;
      if Z.land pte PTE_V =? 0 then mret None
      else if negb (Z.land pte (Z.lor PTE_R PTE_X) =? 0) then mret (Some (pte, level))
      else walk_levels virt_page_nums n (Z.land (Z.shiftr pte 10) 0x0fffffffffff)
  end.

(** The checks after the walk: permissions, superpage alignment, and the
    physical address. *)
Definition walk_leaf (virtual_address : Z) (write exec : bool) (pte level : Z)
    : option (Z * Z * Z) :=
  if exec && (Z.land pte PTE_X =? 0) then None
  else if negb exec && negb write && (Z.land pte PTE_R =? 0) then None
  else if write && (Z.land pte PTE_W =? 0) then None
  else
    let leaf_ppn := Z.land (Z.shiftr pte 10) 0x0fffffffffff in
    let align_mask := shl64 1 (9 * level) - 1 in
    if (0 <? level) && negb (Z.land leaf_ppn align_mask =? 0) then None
    else
      let page_offset_bits := 12 + 9 * level in
      let page_offset_mask := shl64 1 page_offset_bits - 1 in
      let physical_address :=
        Z.lor (shl64 leaf_ppn 12) (Z.land virtual_address page_offset_mask) in
      let vpn := Z.shiftr virtual_address 12 in
      Some (physical_address, vpn, pte).

Definition walk_inner (virtual_address satp : Z) (write exec : bool)
    : ST B (option (Z * Z * Z)) :=
  let root_ppn := Z.land satp 0x0fffffffffff in
  let virt_page_nums :=
    [Z.land (Z.shiftr virtual_address 30) 0x1ff;
     Z.land (Z.shiftr virtual_address 21) 0x1ff;
     Z.land (Z.shiftr virtual_address 12) 0x1ff] in
  leaf ← walk_levels virt_page_nums 3 root_ppn;
  match leaf with
  | None => mret None
  | Some (pte, level) => mret (walk_leaf virtual_address write exec pte level)
  end.

Definition walk (virtual_address satp : Z) (write exec : bool) : ST (Mmu * B) (option Z) :=
  result ← mb_bus (walk_inner virtual_address satp write exec);
  match result with
  | None => mret None
  | Some (physical_address, vpn, pte) =>
      mb_mmu (mmu_insert vpn (Z.shiftr physical_address 12) pte);;
      mret (Some physical_address)
  end.

(** [(ppn << 12) | (va & 0xfff)] *)
Definition join_page (ppn virtual_address : Z) : Z :=
  Z.lor (shl64 ppn 12) (Z.land virtual_address 0xfff).

Definition translate_fetch (virtual_address satp : Z) : ST (Mmu * B) (Result Z MmuFault) :=
  if Z.shiftr satp 60 =? 0 then mret (Ok virtual_address)
  else
    let vpn := Z.shiftr virtual_address 12 in
    let slow :=
      pa ← walk virtual_address satp false true;
      mret (match pa with
            | Some pa => Ok pa
            | None => Err (InstructionPageFault virtual_address)
            end) in
    m ← gets fst;
    match mmu_lookup vpn m with
    | Some (ppn, flags) =>
        if negb (Z.land flags PTE_X =? 0) then mret (Ok (join_page ppn virtual_address)) else slow
    | None => slow
    end.

Definition translate_readable (virtual_address satp : Z) : ST B (option Z) :=
  if Z.shiftr satp 60 =? 0 then mret (Some virtual_address)
  else
    r ← walk_inner virtual_address satp false false;
    mret (match r with Some (physical_address, _, _) => Some physical_address | None => None end).

Definition translate_load (virtual_address satp : Z) : ST (Mmu * B) (Result Z MmuFault) :=
  let vpn := Z.shiftr virtual_address 12 in
  if Z.shiftr satp 60 =? 0 then
    load_fast_fill vpn satp virtual_address;;
    mret (Ok virtual_address)
  else
    m ← gets fst;
    if (vpn =? load_vpage m) && (satp =? load_satp m) then
      let pa := join_page (load_ppage m) virtual_address in
      load_fast_fill vpn satp pa;;
      mret (Ok pa)
    else
      let slow :=
        r ← walk virtual_address satp false false;
        match r with
        | None => mret (Err (LoadPageFault virtual_address))
        | Some pa =>
            mb_mmu (fun m => m <| load_vpage := vpn |> <| load_ppage := Z.shiftr pa 12 |>
                               <| load_satp := satp |>);;
            load_fast_fill vpn satp pa;;
            mret (Ok pa)
        end in
      match mmu_lookup vpn m with
      | Some (ppn, flags) =>
          if negb (Z.land flags PTE_R =? 0) then
            mb_mmu (fun m => m <| load_vpage := vpn |> <| load_ppage := ppn |>
                               <| load_satp := satp |>);;
            let pa := join_page ppn virtual_address in
            load_fast_fill vpn satp pa;;
            mret (Ok pa)
          else slow
      | None => slow
      end.

Definition translate_store (virtual_address satp : Z) : ST (Mmu * B) (Result Z MmuFault) :=
  if Z.shiftr satp 60 =? 0 then mret (Ok virtual_address)
  else
    let vpn := Z.shiftr virtual_address 12 in
    m ← gets fst;
    if (vpn =? store_vpage m) && (satp =? store_satp m) then
      mret (Ok (join_page (store_ppage m) virtual_address))
    else
      let slow :=
        r ← walk virtual_address satp true false;
        match r with
        | None => mret (Err (StorePageFault virtual_address))
        | Some pa =>
            mb_mmu (fun m => m <| store_vpage := vpn |> <| store_ppage := Z.shiftr pa 12 |>
                               <| store_satp := satp |>);;
            mret (Ok pa)
        end in
      match mmu_lookup vpn m with
      | Some (ppn, flags) =>
          if Z.land flags (Z.lor PTE_W PTE_D) =? Z.lor PTE_W PTE_D then
            mb_mmu (fun m => m <| store_vpage := vpn |> <| store_ppage := ppn |>
                               <| store_satp := satp |>);;
            mret (Ok (join_page ppn virtual_address))
          else slow
      | None => slow
      end.
End Translate.
