(* ===== verification/BlockCache.v ===== *)
(** Decoded blocks and the block cache ([riscv-core/src/block.rs], the data
    types and [BlockCache]).

    The cache is direct mapped by physical address.  [page_bitmap] marks the
    pages that hold decoded code: a store to a marked page evicts that page's
    blocks ([notify_store]), and [code_generation] changes whenever a page gets
    marked.  The invariant [cache_wf] ties the slots to the bitmap. *)
From S2P Require Import Prelude Words.

Definition MAX_BLOCK_OPS : nat := 64.
Definition CACHE_SLOTS : Z := 16384.

Inductive AluKind : Type :=
| AkAdd | AkSub | AkSll | AkSlt | AkSltu | AkXor | AkSrl | AkSra | AkOr | AkAnd
| AkAddw | AkSubw | AkSllw | AkSrlw | AkSraw
| AkMul | AkMulh | AkMulhsu | AkMulhu | AkDiv | AkDivu | AkRem | AkRemu
| AkMulw | AkDivw | AkDivuw | AkRemw | AkRemuw
| AkAndn | AkOrn | AkXnor | AkRol | AkRor | AkRolw | AkRorw
| AkMin | AkMax | AkMinu | AkMaxu
| AkClz | AkCtz | AkCpop | AkClzw | AkCtzw | AkCpopw
| AkSextB | AkSextH | AkZextH | AkRev8 | AkOrcB
| AkSh1add | AkSh2add | AkSh3add | AkAddUw | AkSh1addUw | AkSh2addUw | AkSh3addUw
| AkSlliUw.

Inductive LoadKind : Type := Lb | Lbu | Lh | Lhu | Lw | Lwu | Ld.
Inductive StoreKind : Type := Sb | Sh | Sw | Sd.
Inductive BranchKind : Type := Beq | Bne | Blt | Bge | Bltu | Bgeu.

Inductive Op : Type :=
| OpLui (rd imm : Z)
| OpAuipc (rd imm : Z)
| OpAluImm (kind : AluKind) (rd rs1 imm : Z)
| OpAluReg (kind : AluKind) (rd rs1 rs2 : Z)
| OpLoad (kind : LoadKind) (rd rs1 imm : Z)
| OpStore (kind : StoreKind) (rs1 rs2 imm : Z)
| OpBranch (kind : BranchKind) (rs1 rs2 offset : Z)
| OpJal (rd offset : Z)
| OpJalr (rd rs1 imm : Z)
| OpFallback (raw : Z).

Record DecodedInsn := mkInsn { op : Op; pc_off : Z; ilen : Z }.
Record Block := mkBlock { ops : list DecodedInsn; byte_len : Z }.

Record Slot := mkSlot { slot_tag : Z; slot_block : option Block }.
Definition Slot_EMPTY : Slot := mkSlot U64_MAX None.

Record BlockCache := mkBlockCache {
  slots : arr Slot;
  page_bitmap : list Z;
  code_generation : Z;
  aot_hashes : gmap Z Z;
  aot_page_table : list Z;
  aot_evict_generation : Z;
  aot_hash_probes : Z;
  aot_hash_matches : Z
}.
#[export] Instance BlockCache_eta : Eta BlockCache := fun b =>
  mkBlockCache (slots b) (page_bitmap b) (code_generation b) (aot_hashes b)
    (aot_page_table b) (aot_evict_generation b) (aot_hash_probes b) (aot_hash_matches b).

Inductive AotResolve : Type := AotHit (orig : Z) | AotMissing | AotUndetermined.

Definition AOT_UNKNOWN : Z := U64_MAX.
Definition AOT_MISS : Z := U64_MAX - 1.
Definition AOT_TABLE_MAX_PAGES : Z := Z.shiftl 1 20.

Definition cache_new : BlockCache := {|
  slots := arr_new Slot_EMPTY;
  page_bitmap := [];
  code_generation := 1;
  aot_hashes := ∅;
  aot_page_table := [];
  aot_evict_generation := 0;
  aot_hash_probes := 0;
  aot_hash_matches := 0
|}.

Definition aot_init (hashes : list (Z * Z)) (b : BlockCache) : BlockCache :=
  b <| aot_hashes := foldl (fun m kv => <[kv.1 := kv.2]> m) ∅ hashes |>
    <| aot_page_table := [] |>
    <| aot_evict_generation := as_u64 (aot_evict_generation b + 1) |>
    <| aot_hash_probes := 0 |>
    <| aot_hash_matches := 0 |>.

Definition aot_match_stats (b : BlockCache) : Z * Z := (aot_hash_probes b, aot_hash_matches b).

Definition aot_enabled (b : BlockCache) : bool := negb (bool_decide (aot_hashes b = ∅)).

Definition aot_resolve (page : Z) (b : BlockCache) : AotResolve :=
  match aot_page_table b !! Z.to_nat page with
  | Some e =>
      if e =? AOT_UNKNOWN then AotUndetermined
      else if e =? AOT_MISS then AotMissing
      else AotHit e
  | None =>
      if bool_decide (aot_hashes b = ∅) || (AOT_TABLE_MAX_PAGES <=? page)
      then AotMissing else AotUndetermined
  end.

(** [Vec::resize] to a length at least the current one. *)
Definition resize_up (l : list Z) (n : nat) (v : Z) : list Z :=
  l ++ replicate (n - length l) v.

Definition bitmap_word (page : Z) : nat := Z.to_nat (page / 64).
Definition bitmap_bit (page : Z) : Z := Z.shiftl 1 (page mod 64).

Definition mark_page (page : Z) (b : BlockCache) : BlockCache :=
  let word := bitmap_word page in
  let bitmap := if decide (length (page_bitmap b) <= word)%nat
                then resize_up (page_bitmap b) (S word) 0 else page_bitmap b in
  b <| page_bitmap := <[word := Z.lor (bitmap !!! word) (bitmap_bit page)]> bitmap |>
    <| code_generation := as_u64 (code_generation b + 1) |>.

Definition aot_record_hash (page hash : Z) (b : BlockCache) : option Z * BlockCache :=
  let orig := aot_hashes b !! hash in
  let b := b <| aot_hash_probes := as_u64 (aot_hash_probes b + 1) |> in
  let b := match orig with
           | Some _ => b <| aot_hash_matches := as_u64 (aot_hash_matches b + 1) |>
           | None => b
           end in
  let b :=
    if page <? AOT_TABLE_MAX_PAGES then
      let table := if decide (length (aot_page_table b) <= Z.to_nat page)%nat
                   then resize_up (aot_page_table b) (S (Z.to_nat page)) AOT_UNKNOWN
                   else aot_page_table b in
      b <| aot_page_table := <[Z.to_nat page := default AOT_MISS orig]> table |>
    else b in
  (orig, mark_page page b).

Definition slot_index (physical_address : Z) : Z :=
  Z.land (Z.shiftr physical_address 1) (CACHE_SLOTS - 1).

Definition cache_lookup (physical_address : Z) (b : BlockCache) : option Block :=
  let slot := arr_get (slots b) (slot_index physical_address) in
  if slot_tag slot =? physical_address then slot_block slot else None.

Definition cache_insert (physical_address : Z) (block : Block) (b : BlockCache) : BlockCache :=
  let b := mark_page (Z.shiftr physical_address 12) b in
  b <| slots := arr_set (slots b) (slot_index physical_address)
                  (mkSlot physical_address (Some block)) |>.

Definition page_has_code (page : Z) (b : BlockCache) : bool :=
  match page_bitmap b !! bitmap_word page with
  | Some w => negb (Z.land w (bitmap_bit page) =? 0)
  | None => false
  end.

Definition evict_page (page : Z) (b : BlockCache) : BlockCache :=
  let b := b <| aot_evict_generation := as_u64 (aot_evict_generation b + 1) |> in
  let b := b <| aot_page_table := <[Z.to_nat page := AOT_UNKNOWN]> (aot_page_table b) |> in
  let b := b <| slots := arr_map (fun slot =>
                 if negb (slot_tag slot =? U64_MAX) && (Z.shiftr (slot_tag slot) 12 =? page)
                 then Slot_EMPTY else slot) (slots b) |> in
  b <| page_bitmap := alter (fun w => Z.land w (not64 (bitmap_bit page)))
                        (bitmap_word page) (page_bitmap b) |>.

(** [notify_store]'s test is [page_has_code]'s; the source writes it twice. *)
Definition notify_store (physical_address : Z) (b : BlockCache) : BlockCache :=
  let page := Z.shiftr physical_address 12 in
  if page_has_code page b then evict_page page b else b.

Definition flush_all (b : BlockCache) : BlockCache :=
  b <| slots := arr_new Slot_EMPTY |>
    <| page_bitmap := [] |>
    <| aot_page_table := [] |>
    <| aot_evict_generation := as_u64 (aot_evict_generation b + 1) |>.
