(* ===== verification/BlockCacheProps.v ===== *)
(** Properties of the block cache.

    [cache_wf] ties the three views together: a slot that holds a block is
    tagged with the address it was decoded from, sits at that address's index,
    and its page is marked; a page whose translation was resolved is marked.
    Stores to a marked page therefore drop every block and every resolution of
    that page, and nothing else. *)
From S2P Require Import Prelude Words BlockCache.

(** ** Decoded instructions *)

Definition reg_ok (r : Z) : Prop := 0 <= r < 32.

(** Register fields name registers, jump offsets are even, and what is left to
    the interpreter is a 32-bit encoding. *)
Definition op_wf (o : Op) : Prop :=
  match o with
  | OpLui rd _ | OpAuipc rd _ => reg_ok rd
  | OpAluImm _ rd rs1 _ | OpLoad _ rd rs1 _ | OpJalr rd rs1 _ => reg_ok rd ∧ reg_ok rs1
  | OpAluReg _ rd rs1 rs2 => reg_ok rd ∧ reg_ok rs1 ∧ reg_ok rs2
  | OpStore _ rs1 rs2 _ => reg_ok rs1 ∧ reg_ok rs2
  | OpBranch _ rs1 rs2 offset => reg_ok rs1 ∧ reg_ok rs2 ∧ even offset
  | OpJal rd offset => reg_ok rd ∧ even offset
  | OpFallback raw => is_u32 raw ∧ Z.land raw 0x3 = 0x3
  end.

Definition insn_wf (i : DecodedInsn) : Prop :=
  op_wf (op i) ∧ even (pc_off i) ∧ even (ilen i).

Record block_ok (blk : Block) : Prop := {
  bo_nonempty : ops blk ≠ [];
  bo_max : (length (ops blk) <= MAX_BLOCK_OPS)%nat;
  bo_insns : Forall insn_wf (ops blk);
  bo_len : even (byte_len blk)
}.

Record slot_holds (b : BlockCache) (i : Z) (s : Slot) (blk : Block) : Prop := {
  sh_block : slot_block s = Some blk;
  sh_word : is_u64 (slot_tag s);
  sh_tag : slot_tag s ≠ U64_MAX;
  sh_index : slot_index (slot_tag s) = i;
  sh_marked : page_has_code (Z.shiftr (slot_tag s) 12) b = true;
  sh_block_ok : block_ok blk
}.

Record cache_wf (b : BlockCache) : Prop := {
  cw_slots : ∀ i, arr_get (slots b) i = Slot_EMPTY
                  ∨ ∃ blk, slot_holds b i (arr_get (slots b) i) blk;
  cw_aot : ∀ n e, aot_page_table b !! n = Some e → e ≠ AOT_UNKNOWN →
           page_has_code (Z.of_nat n) b = true
}.

(** ** The bitmap *)

Lemma page_has_code_alt p b :
  0 <= p →
  page_has_code p b = match page_bitmap b !! bitmap_word p with
                      | Some w => Z.testbit w (p mod 64)
                      | None => false
                      end.
Proof.
  intros Hp. unfold page_has_code. destruct (_ !! _); [|done].
  unfold bitmap_bit. apply land_bit_test. apply Z.mod_pos_bound. lia.
Qed.

Lemma page_word_bit p q : 0 <= p → 0 <= q →
  bitmap_word p = bitmap_word q → p mod 64 = q mod 64 → p = q.
Proof.
  unfold bitmap_word. intros Hp Hq H1 H2.
  assert (p / 64 = q / 64) by (apply Z2Nat.inj in H1; [done | apply Z.div_pos; lia..]).
  rewrite (Z.div_mod p 64), (Z.div_mod q 64) by lia. congruence.
Qed.

Lemma resize_up_lookup l n v i :
  resize_up l n v !! i = if decide (i < length l)%nat then l !! i
                         else if decide (i < n)%nat then Some v else None.
Proof.
  unfold resize_up. case_decide; [by rewrite lookup_app_l|].
  rewrite lookup_app_r by lia. case_decide.
  - apply lookup_replicate_2. lia.
  - apply lookup_replicate_None. lia.
Qed.

(** Growing the bitmap with zero words marks nothing. *)
Lemma grown_bit l n i k :
  match resize_up l n 0 !! i with Some w => Z.testbit w k | None => false end
  = match l !! i with Some w => Z.testbit w k | None => false end.
Proof.
  rewrite resize_up_lookup. case_decide; [done|]. rewrite (lookup_ge_None_2 l) by lia.
  case_decide; [apply Z.bits_0 | done].
Qed.

Lemma mark_page_bitmap p q b :
  0 <= p → 0 <= q →
  page_has_code p (mark_page q b) = (p =? q) || page_has_code p b.
Proof.
  intros Hp Hq. rewrite !page_has_code_alt by done. unfold mark_page. cbn.
  set (l := if decide _ then _ else _).
  assert (Hl : (bitmap_word q < length l)%nat).
  { subst l. case_decide; [|lia]. unfold resize_up. rewrite length_app, length_replicate. lia. }
  assert (Hold : ∀ i k, match l !! i with Some w => Z.testbit w k | None => false end
                 = match page_bitmap b !! i with Some w => Z.testbit w k | None => false end).
  { subst l. case_decide; [apply grown_bit | done]. }
  rewrite list_lookup_insert. case_decide as Hc.
  - destruct Hc as [Hw _]. rewrite <- Hold, <- Hw. rewrite list_lookup_total_alt.
    destruct (lookup_lt_is_Some_2 l _ Hl) as [w ->]. cbn. rewrite Z.lor_spec. unfold bitmap_bit.
    rewrite testbit_one by (apply Z.mod_pos_bound; lia). rewrite orb_comm. f_equal.
    destruct (Z.eqb_spec p q) as [->|Hne]; [apply Z.eqb_refl|]. apply Z.eqb_neq.
    intros ?. eauto using page_word_bit.
  - rewrite Hold. destruct (Z.eqb_spec p q) as [->|]; [tauto | done].
Qed.

Lemma evict_page_bitmap p q b :
  0 <= p → 0 <= q →
  page_has_code p (evict_page q b) = negb (p =? q) && page_has_code p b.
Proof.
  intros Hp Hq. rewrite !page_has_code_alt by done. unfold evict_page. cbn.
  pose proof (Z.mod_pos_bound p 64 ltac:(lia)). pose proof (Z.mod_pos_bound q 64 ltac:(lia)).
  rewrite list_lookup_alter. case_decide as Hw.
  - rewrite <- Hw. destruct (page_bitmap b !! _) as [w|]; cbn; [|by rewrite andb_false_r].
    rewrite Z.land_spec, not64_testbit by lia. unfold bitmap_bit. rewrite testbit_one by lia.
    rewrite andb_comm. f_equal. f_equal.
    destruct (Z.eqb_spec p q) as [->|Hne]; [apply Z.eqb_refl|]. apply Z.eqb_neq.
    intros ?. eauto using page_word_bit.
  - destruct (Z.eqb_spec p q) as [->|]; [tauto | done].
Qed.

(** Only the bitmap matters. *)
Lemma page_has_code_ext p b b' : page_bitmap b = page_bitmap b' → page_has_code p b = page_has_code p b'.
Proof. unfold page_has_code. by intros ->. Qed.

(** ** The invariant is kept *)

Lemma cache_new_wf : cache_wf cache_new.
Proof. split; cbn; [by left | done]. Qed.

Lemma shiftr_page_nonneg a : is_u64 a → 0 <= Z.shiftr a 12.
Proof. intros [? _]. by apply Z.shiftr_nonneg. Qed.
#[local] Hint Resolve shiftr_page_nonneg Nat2Z.is_nonneg : core.

(** A slot keeps what it holds when marks are only added. *)
Lemma slot_holds_marks b b' i s blk :
  (∀ p, 0 <= p → page_has_code p b = true → page_has_code p b' = true) →
  slot_holds b i s blk → slot_holds b' i s blk.
Proof. intros H [? ? ? ? ? ?]. split; auto. Qed.

Lemma mark_page_wf q b : 0 <= q → cache_wf b → cache_wf (mark_page q b).
Proof.
  intros Hq [Hs Ha].
  assert (M : ∀ p, 0 <= p → page_has_code p b = true → page_has_code p (mark_page q b) = true).
  { intros p Hp E. rewrite mark_page_bitmap, E by done. apply orb_true_r. }
  split; cbn.
  - intros i. destruct (Hs i) as [?|[blk ?]]; [by left|]. right. exists blk.
    by apply (slot_holds_marks b).
  - intros n e He Hne. apply M; [lia|]. eauto.
Qed.

Lemma cache_insert_wf pa blk b :
  is_u64 pa → pa ≠ U64_MAX → block_ok blk → cache_wf b → cache_wf (cache_insert pa blk b).
Proof.
  intros Hpa Hne Hops H. apply (mark_page_wf (Z.shiftr pa 12)) in H; [|auto].
  destruct H as [Hs Ha]. split; [|exact Ha].
  intros i. unfold cache_insert. cbn. rewrite arr_get_set. case_decide as Hi.
  - right. exists blk. split; cbn; auto.
    rewrite (page_has_code_ext _ _ (mark_page (Z.shiftr pa 12) b)), mark_page_bitmap by auto.
    by rewrite Z.eqb_refl.
  - destruct (Hs i) as [?|[blk' [? ? ? ? ? ?]]]; [by left|]. right. exists blk'. by split.
Qed.

Lemma evict_page_wf q b : 0 <= q → cache_wf b → cache_wf (evict_page q b).
Proof.
  intros Hq [Hs Ha]. split.
  - intros i. cbn. rewrite arr_get_map. destruct (Hs i) as [->|[blk [Hb Hw Ht Hi Hm Ho]]]; [by left|].
    rewrite (proj2 (Z.eqb_neq _ _) Ht). cbn [negb andb].
    destruct (Z.eqb_spec (Z.shiftr (slot_tag (arr_get (slots b) i)) 12) q) as [E|E]; [by left|].
    right. exists blk. split; auto. rewrite evict_page_bitmap, Hm by auto.
    by rewrite (proj2 (Z.eqb_neq _ _) E).
  - intros n e. cbn. rewrite list_lookup_insert. rewrite evict_page_bitmap by lia.
    case_decide as Hn; [by intros [= <-]|]. intros He Hne. rewrite (Ha n e He Hne), andb_true_r.
    apply negb_true_iff, Z.eqb_neq. intros E. apply lookup_lt_Some in He. lia.
Qed.

Lemma notify_store_wf pa b : is_u64 pa → cache_wf b → cache_wf (notify_store pa b).
Proof. intros. unfold notify_store. case_if; auto using evict_page_wf. Qed.

Lemma flush_all_wf b : cache_wf (flush_all b).
Proof. split; cbn; [by left | done]. Qed.

Lemma aot_init_wf hs b : cache_wf b → cache_wf (aot_init hs b).
Proof.
  intros [Hs Ha]. split; [|done]. intros i. destruct (Hs i) as [?|[blk [? ? ? ? ? ?]]]; [by left|].
  right. exists blk. by split.
Qed.

(** Recording a page adds only that page's resolution to the table. *)
Lemma aot_table_entries (t : list Z) k v n e :
  <[k := v]> (if decide (length t <= k)%nat then resize_up t (S k) AOT_UNKNOWN else t) !! n = Some e →
  e ≠ AOT_UNKNOWN → n = k ∨ t !! n = Some e.
Proof.
  destruct (decide (n = k)) as [|Hnk]; [auto|]. rewrite list_lookup_insert_ne by done.
  case_decide; [|auto]. rewrite resize_up_lookup. case_decide; [auto|].
  case_decide; [by intros [= <-] | done].
Qed.

Lemma aot_record_hash_wf q h b : 0 <= q → cache_wf b → cache_wf (aot_record_hash q h b).2.
Proof.
  intros Hq [Hs Ha].
  assert (K : ∀ b', slots b' = slots b → page_bitmap b' = page_bitmap b →
    (∀ n e, aot_page_table b' !! n = Some e → e ≠ AOT_UNKNOWN →
       n = Z.to_nat q ∨ aot_page_table b !! n = Some e) →
    cache_wf (mark_page q b')).
  { intros b' E1 E2 E3.
    assert (P : ∀ p, page_has_code p b' = page_has_code p b)
      by (intros p; unfold page_has_code; by rewrite E2).
    split; cbn.
    - intros i. rewrite E1. destruct (Hs i) as [?|[blk Hb]]; [by left|]. right. exists blk.
      apply (slot_holds_marks b); [|done]. intros p Hp Hc.
      rewrite mark_page_bitmap, P, Hc by done. apply orb_true_r.
    - intros n e He Hne. rewrite mark_page_bitmap, P by lia.
      destruct (E3 n e He Hne) as [->|?].
      + rewrite Z2Nat.id by done. by rewrite Z.eqb_refl.
      + erewrite Ha by done. apply orb_true_r. }
  unfold aot_record_hash. cbn [snd]. destruct (aot_hashes b !! h) as [o|]; (case_if; apply K; cbn;
    [done | done | |done | done | auto]).
  all: apply aot_table_entries.
Qed.

(** ** Everything that changes the cache *)

Inductive cache_step : BlockCache -> BlockCache -> Prop :=
| cs_insert pa blk b :
    is_u64 pa → pa ≠ U64_MAX → block_ok blk → cache_step b (cache_insert pa blk b)
| cs_store pa b : is_u64 pa → cache_step b (notify_store pa b)
| cs_flush b : cache_step b (flush_all b)
| cs_aot_init hs b : cache_step b (aot_init hs b)
| cs_aot_record q h b : 0 <= q → cache_step b (aot_record_hash q h b).2.

(** From an empty cache, through any sequence of insertions,
    store notifications, flushes and translation lookups, every cached block is
    well formed and non-empty, tagged with the address it was decoded from, at that address's
    slot, and its page is marked; so is every page with a resolved
    translation. *)
Theorem cache_reachable_wf b : rtc cache_step cache_new b → cache_wf b.
Proof.
  intros H. assert (G : cache_wf cache_new → cache_wf b); [|exact (G cache_new_wf)].
  induction H as [b|b1 b2 b3 S R IH]; [done|]. intros Hw. apply IH.
  destruct S; auto using cache_insert_wf, notify_store_wf, flush_all_wf, aot_init_wf,
    aot_record_hash_wf.
Qed.

(** A block that jumps to itself, for the examples. *)
Definition spin_block : Block := mkBlock [mkInsn (OpJal 0 0) 0 4] 4.

Lemma spin_block_ok : block_ok spin_block.
Proof. split; [done|cbn; unfold MAX_BLOCK_OPS; lia| |done]. repeat constructor; done || lia. Qed.

Lemma cache_reachable_wf_witness :
  cache_wf (notify_store 0x80001008 (cache_insert 0x80000000 spin_block cache_new)).
Proof.
  apply cache_reachable_wf. eapply rtc_l; [|apply rtc_once].
  - apply (cs_insert 0x80000000 spin_block); [done | done | apply spin_block_ok].
  - by apply cs_store.
Defined.

(** ** What lookups see *)

Lemma cache_lookup_Some b a blk :
  cache_wf b → cache_lookup a b = Some blk →
  slot_holds b (slot_index a) (arr_get (slots b) (slot_index a)) blk
  ∧ slot_tag (arr_get (slots b) (slot_index a)) = a.
Proof.
  intros H. unfold cache_lookup. case_if; [|done]. bools. intros Hb.
  destruct (cw_slots _ H (slot_index a)) as [E'|[blk' Hh]]; [by rewrite E' in Hb|].
  split; [|done]. by rewrite (sh_block _ _ _ _ Hh) in Hb; simplify_eq.
Qed.

Lemma lookup_marked b a blk :
  cache_wf b → cache_lookup a b = Some blk → page_has_code (Z.shiftr a 12) b = true.
Proof.
  intros H [Hh Ht]%cache_lookup_Some; [|done]. rewrite <- Ht at 1. apply Hh.
Qed.

Lemma if_same {A} (c : bool) (v : A) : (if c then v else v) = v.
Proof. by destruct c. Qed.

Lemma evict_lookup b a q :
  cache_wf b →
  cache_lookup a (evict_page q b) = if Z.shiftr a 12 =? q then None else cache_lookup a b.
Proof.
  intros H. unfold cache_lookup. cbn. rewrite arr_get_map.
  destruct (cw_slots _ H (slot_index a)) as [->|[blk Hh]].
  - rewrite (if_same _ Slot_EMPTY). cbn [Slot_EMPTY slot_tag slot_block].
    by destruct (U64_MAX =? a), (Z.shiftr a 12 =? q).
  - rewrite (proj2 (Z.eqb_neq _ _) (sh_tag _ _ _ _ Hh)). cbn [negb andb].
    destruct (Z.eqb_spec (Z.shiftr (slot_tag (arr_get (slots b) (slot_index a))) 12) q) as [E|E].
    + cbn [Slot_EMPTY slot_tag slot_block]. rewrite (if_same _ None).
      destruct (Z.eqb_spec (slot_tag (arr_get (slots b) (slot_index a))) a) as [<-|].
      * by rewrite (proj2 (Z.eqb_eq _ _) E).
      * by rewrite (if_same _ None).
    + destruct (Z.eqb_spec (slot_tag (arr_get (slots b) (slot_index a))) a) as [<-|]; [|by case_if].
      by rewrite (proj2 (Z.eqb_neq _ _) E).
Qed.

(** C26: a store to physical address [pa] removes exactly the cached blocks
    that start in its page: afterwards no address of that page hits, and every
    other lookup gives what it gave before.  Self-modifying code can never run
    a stale block. *)
Theorem store_evicts_exactly_its_page b pa a :
  cache_wf b → is_u64 pa →
  cache_lookup a (notify_store pa b)
  = if Z.shiftr a 12 =? Z.shiftr pa 12 then None else cache_lookup a b.
Proof.
  intros H Hpa. unfold notify_store. case_if; [by apply evict_lookup|].
  destruct (Z.eqb_spec (Z.shiftr a 12) (Z.shiftr pa 12)) as [Ep|]; [|done].
  destruct (cache_lookup a b) as [blk|] eqn:L; [|done].
  apply lookup_marked in L; [congruence | done].
Qed.

Lemma store_evicts_exactly_its_page_witness :
  let b := cache_insert 0x80000000 spin_block cache_new in
  cache_lookup 0x80000000 (notify_store 0x80000ff8 b) = None.
Proof.
  intros b. rewrite (store_evicts_exactly_its_page b 0x80000ff8 0x80000000); [reflexivity| |done].
  apply cache_insert_wf; [done | done | apply spin_block_ok | apply cache_new_wf].
Defined.

(** A direct-mapped cache as a map from addresses: insertion binds the address
    and drops whatever shared its slot. *)
Definition insert_spec (pa : Z) (blk : Block) (m : Z -> option Block) (a : Z) : option Block :=
  if a =? pa then Some blk else if slot_index a =? slot_index pa then None else m a.

(** C-old: [insert] refines insertion into a direct-mapped map: the block is found
    at its own address right afterwards, it displaces exactly the addresses that
    share its slot, every other lookup is unchanged. *)
Theorem insert_lookup b pa blk a :
  cache_lookup a (cache_insert pa blk b) = insert_spec pa blk (fun a => cache_lookup a b) a.
Proof.
  unfold insert_spec.
  unfold cache_lookup, cache_insert. cbn. rewrite arr_get_set.
  destruct (Z.eqb_spec a pa) as [->|Hne].
  - rewrite decide_True by done. cbn. by rewrite Z.eqb_refl.
  - case_decide as Hi; cbn.
    + rewrite Hi, Z.eqb_refl. destruct (Z.eqb_spec pa a); [congruence | done].
    + by rewrite (proj2 (Z.eqb_neq (slot_index a) (slot_index pa))) by congruence.
Qed.

(** ** Translated pages *)

Lemma evict_resolve b p q :
  0 <= p → 0 <= q →
  aot_resolve p (evict_page q b)
  = match aot_page_table b !! Z.to_nat p with
    | Some _ => if p =? q then AotUndetermined else aot_resolve p b
    | None => aot_resolve p b
    end.
Proof.
  intros Hp Hq. unfold aot_resolve. cbn. destruct (aot_page_table b !! Z.to_nat p) as [e|] eqn:E.
  - destruct (Z.eqb_spec p q) as [->|Hne].
    + rewrite list_lookup_insert_eq by (by apply lookup_lt_Some in E). done.
    + rewrite list_lookup_insert_ne, E by lia. done.
  - by rewrite list_lookup_insert, decide_False, E by (apply lookup_ge_None_1 in E; lia).
Qed.

(** A store makes the translation of its page undetermined, so that the
    page is hashed again before translated code runs for it; no other page's
    resolution changes. *)
Theorem store_forgets_translation b pa p :
  cache_wf b → is_u64 pa → 0 <= p →
  aot_resolve p (notify_store pa b)
  = match aot_page_table b !! Z.to_nat p with
    | Some _ => if p =? Z.shiftr pa 12 then AotUndetermined else aot_resolve p b
    | None => aot_resolve p b
    end.
Proof.
  intros H Hpa Hp. unfold notify_store. case_if; [by apply evict_resolve; auto|].
  destruct (aot_page_table b !! Z.to_nat p) as [e|] eqn:L; [|done].
  destruct (Z.eqb_spec p (Z.shiftr pa 12)) as [->|]; [|done].
  unfold aot_resolve. rewrite L. destruct (Z.eqb_spec e AOT_UNKNOWN) as [|Hne]; [done|].
  apply (cw_aot _ H) in L; [|done]. rewrite Z2Nat.id in L by auto. congruence.
Qed.

Lemma store_forgets_translation_witness :
  let b := (aot_record_hash 2 77 (aot_init [(77, 5)] cache_new)).2 in
  aot_resolve 2 b = AotHit 5 ∧ aot_resolve 2 (notify_store 0x2010 b) = AotUndetermined.
Proof.
  intros b. split; [reflexivity|]. rewrite (store_forgets_translation b 0x2010 2); [reflexivity| |done|lia].
  apply aot_record_hash_wf; [lia|]. apply aot_init_wf, cache_new_wf.
Defined.
