(* ===== verification/Context.v ===== *)
(** The execution context ([riscv-core/src/execute.rs], [ExecContext] and
    [FetchTlb]).

    [ExecContext] borrows every part of a hart together with the bus; code that
    runs on it is [ST (ExecContext B) A].  The accessors below lift the register
    file, the CSRs, the MMU, the block cache and the bus into it. *)
From S2P Require Import Prelude Words Trap Gpr Csr SystemBus Mmu BlockCache.

Definition ICACHE_SIZE : Z := 4096.
Definition ICACHE_TAG_SHIFT : Z := 1 + trailing_zeros 64 ICACHE_SIZE.
Definition FETCH_TLB_SIZE : Z := 256.

Record FetchTlbEntry := mkFetchTlb { ft_vpage : Z; ft_ppage : Z; ft_satp : Z }.

Definition fetch_tlb_new : arr FetchTlbEntry := arr_new (mkFetchTlb U64_MAX 0 U64_MAX).

Definition fetch_slot (vpage : Z) : Z := Z.land vpage (FETCH_TLB_SIZE - 1).

Definition fetch_tlb_lookup (vpage satp : Z) (t : arr FetchTlbEntry) : option Z :=
  let entry := arr_get t (fetch_slot vpage) in
  if (ft_vpage entry =? vpage) && (ft_satp entry =? satp) then Some (ft_ppage entry) else None.

Definition fetch_tlb_insert (vpage ppage satp : Z) (t : arr FetchTlbEntry) : arr FetchTlbEntry :=
  arr_set t (fetch_slot vpage) (mkFetchTlb vpage ppage satp).

Definition fetch_tlb_flush (t : arr FetchTlbEntry) : arr FetchTlbEntry :=
  arr_map (fun e => mkFetchTlb U64_MAX (ft_ppage e) (ft_satp e)) t.

Record ExecContext (B : Type) := mkCtx {
  regs : Gpr;
  csr : Csr;
  mmu : Mmu;
  bus : B;
  priv_mode : PrivMode;
  lr_addr : option Z;
  fetch_tlb : arr FetchTlbEntry;
  icache_tags : arr Z;
  icache_data : arr Z;
  is_waiting : bool;
  shutdown_requested : bool;
  blocks : BlockCache
}.
Arguments mkCtx {B}.
Arguments regs {B}.
Arguments csr {B}.
Arguments mmu {B}.
Arguments bus {B}.
Arguments priv_mode {B}.
Arguments lr_addr {B}.
Arguments fetch_tlb {B}.
Arguments icache_tags {B}.
Arguments icache_data {B}.
Arguments is_waiting {B}.
Arguments shutdown_requested {B}.
Arguments blocks {B}.

#[export] Instance ExecContext_eta (B : Type) : Eta (ExecContext B) := fun c =>
  mkCtx (regs c) (csr c) (mmu c) (bus c) (priv_mode c) (lr_addr c) (fetch_tlb c)
    (icache_tags c) (icache_data c) (is_waiting c) (shutdown_requested c) (blocks c).

Section Lifts.
Context {B : Type}.
Abbreviation X := (ST (ExecContext B)).

Definition read_reg (r : Z) : X Z := gets (fun c => gpr_read r (regs c)).
Definition write_reg (r v : Z) : X unit :=
  modify (fun c => c <| regs := gpr_write r v (regs c) |>).
Definition get_pc : X Z := gets (fun c => pc (regs c)).
Definition set_pc (v : Z) : X unit :=
  modify (fun c => c <| regs := (regs c) <| pc := v |> |>).
Definition get_csr {A} (proj : Csr -> A) : X A := gets (fun c => proj (csr c)).
Definition mod_csr (h : Csr -> Csr) : X unit := modify (fun c => c <| csr := h (csr c) |>).
Definition mod_blocks (h : BlockCache -> BlockCache) : X unit :=
  modify (fun c => c <| blocks := h (blocks c) |>).
Definition on_bus {A} (m : ST B A) : X A := zoom bus (fun b c => c <| bus := b |>) m.
Definition on_mmu {A} (m : ST (Mmu * B) A) : X A :=
  zoom (fun c => (mmu c, bus c)) (fun s c => c <| mmu := s.1 |> <| bus := s.2 |>) m.

(** [ctx.csr.instret = ctx.csr.instret.wrapping_add(n)] *)
Definition add_instret (n : Z) : X unit :=
  mod_csr (fun c => c <| instret := wrapping_add64 (instret c) n |>).
End Lifts.

Definition effective_satp (priv_mode : PrivMode) (satp : Z) : Z :=
  if priv_eqb priv_mode PrivM then 0 else satp.

Definition ctx_satp {B} (c : ExecContext B) : Z := effective_satp (priv_mode c) (satp (csr c)).
