(* ===== verification/Float.v ===== *)
(** IEEE-754 binary32 and binary64 as the Rust [f32]/[f64] operations the
    interpreter uses, on bit patterns.

    Finite arithmetic is the Standard Library's executable [SpecFloat]
    (round-to-nearest-even, which is what Rust's operators do).  What Rust
    leaves to the platform is a [FloatEnv]: the bits of a NaN that an operation
    produces, and which zero [min]/[max] return for zeros of opposite signs. *)
From Stdlib Require Import SpecFloat.
From S2P Require Import Prelude Words.

(** A format: significand width and exponent width in bits. *)
Record FloatFormat := mkFormat { mant_bits : Z; exp_bits : Z }.
Definition binary32 : FloatFormat := mkFormat 23 8.
Definition binary64 : FloatFormat := mkFormat 52 11.

Class FloatEnv := {
  nan_bits : FloatFormat -> list Z -> Z;
  min_keeps_first : bool;
  max_keeps_first : bool
}.

Section Format.
Context {FE : FloatEnv} (fmt : FloatFormat).

Definition fl_prec : Z := mant_bits fmt + 1.
Definition fl_emax : Z := 2 ^ (exp_bits fmt - 1).
Definition fl_emin : Z := 3 - fl_emax - fl_prec.
Definition fl_sign_bit : Z := Z.shiftl 1 (mant_bits fmt + exp_bits fmt).
Definition fl_exp_ones : Z := 2 ^ exp_bits fmt - 1.

Definition fl_sign (bits : Z) : bool := Z.testbit bits (mant_bits fmt + exp_bits fmt).
Definition fl_exp (bits : Z) : Z := Z.land (Z.shiftr bits (mant_bits fmt)) fl_exp_ones.
Definition fl_mant (bits : Z) : Z := Z.land bits (2 ^ mant_bits fmt - 1).

Definition from_fbits (bits : Z) : spec_float :=
  let s := fl_sign bits in
  let e := fl_exp bits in
  let m := fl_mant bits in
  if e =? 0 then
    match m with Zpos p => S754_finite s p fl_emin | _ => S754_zero s end
  else if e =? fl_exp_ones then
    if m =? 0 then S754_infinity s else S754_nan
  else
    match m + 2 ^ mant_bits fmt with
    | Zpos p => S754_finite s p (e + fl_emin - 1)
    | _ => S754_zero s
    end.

Definition fl_signed (s : bool) (magnitude : Z) : Z :=
  if s then Z.lor fl_sign_bit magnitude else magnitude.

(** The encoding, at the format's width. *)
Definition to_fbits (nan : Z) (v : spec_float) : Z :=
  wrap (mant_bits fmt + exp_bits fmt + 1)
  match v with
  | S754_zero s => fl_signed s 0
  | S754_infinity s => fl_signed s (Z.shiftl fl_exp_ones (mant_bits fmt))
  | S754_nan => nan
  | S754_finite s m e =>
      if Zpos m <? 2 ^ mant_bits fmt then fl_signed s (Zpos m)
      else fl_signed s (Z.shiftl (e - fl_emin + 1) (mant_bits fmt)
                        + (Zpos m - 2 ^ mant_bits fmt))
  end.

Definition f_is_nan (bits : Z) : bool :=
  match from_fbits bits with S754_nan => true | _ => false end.

Definition f_neg (a : Z) : Z := Z.lxor a fl_sign_bit.

Definition f_binop (f : spec_float -> spec_float -> spec_float) (a b : Z) : Z :=
  to_fbits (nan_bits fmt [a; b]) (f (from_fbits a) (from_fbits b)).

Definition f_add : Z -> Z -> Z := f_binop (SFadd fl_prec fl_emax).
Definition f_sub : Z -> Z -> Z := f_binop (SFsub fl_prec fl_emax).
Definition f_mul : Z -> Z -> Z := f_binop (SFmul fl_prec fl_emax).
Definition f_div : Z -> Z -> Z := f_binop (SFdiv fl_prec fl_emax).
Definition f_sqrt (a : Z) : Z :=
  to_fbits (nan_bits fmt [a]) (SFsqrt fl_prec fl_emax (from_fbits a)).

Definition f_eq (a b : Z) : bool := SFeqb (from_fbits a) (from_fbits b).
Definition f_lt (a b : Z) : bool := SFltb (from_fbits a) (from_fbits b).
Definition f_le (a b : Z) : bool := SFleb (from_fbits a) (from_fbits b).

Definition f_min (a b : Z) : Z :=
  if f_is_nan a then (if f_is_nan b then to_fbits (nan_bits fmt [a; b]) S754_nan else b)
  else if f_is_nan b then a
  else if f_lt a b then a
  else if f_lt b a then b
  else if min_keeps_first then a else b.

Definition f_max (a b : Z) : Z :=
  if f_is_nan a then (if f_is_nan b then to_fbits (nan_bits fmt [a; b]) S754_nan else b)
  else if f_is_nan b then a
  else if f_lt b a then a
  else if f_lt a b then b
  else if max_keeps_first then a else b.

(** [mul_add]: the product and the sum are exact, one rounding at the end. *)
Definition sf_fma (a b c : spec_float) : spec_float :=
  let normal m e := binary_normalize fl_prec fl_emax m e false in
  match a, b with
  | S754_nan, _ | _, S754_nan => S754_nan
  | S754_infinity _, S754_zero _ | S754_zero _, S754_infinity _ => S754_nan
  | S754_infinity sa, (S754_infinity sb | S754_finite sb _ _)
  | S754_finite sa _ _, S754_infinity sb =>
      match c with
      | S754_nan => S754_nan
      | S754_infinity sc => if Bool.eqb (xorb sa sb) sc then c else S754_nan
      | _ => S754_infinity (xorb sa sb)
      end
  | S754_zero sa, (S754_zero sb | S754_finite sb _ _)
  | S754_finite sa _ _, S754_zero sb =>
      match c with
      | S754_zero sc => if Bool.eqb (xorb sa sb) sc then c else S754_zero false
      | _ => c
      end
  | S754_finite sa ma ea, S754_finite sb mb eb =>
      let mp := cond_Zopp (xorb sa sb) (Zpos (ma * mb)) in
      let ep := ea + eb in
      match c with
      | S754_nan => S754_nan
      | S754_infinity _ => c
      | S754_zero _ => normal mp ep
      | S754_finite sc mc ec =>
          let e := Z.min ep ec in
          normal (Z.shiftl mp (ep - e) + Z.shiftl (cond_Zopp sc (Zpos mc)) (ec - e)) e
      end
  end.

Definition f_mul_add (a b c : Z) : Z :=
  to_fbits (nan_bits fmt [a; b; c]) (sf_fma (from_fbits a) (from_fbits b) (from_fbits c)).

(** ** Rounding to an integral value *)

(** The integer part of [m * 2^e] for [e < 0], rounded by [up], which is told
    the truncated magnitude, twice the remainder and the divisor. *)
Definition sf_round (up : bool -> Z -> Z -> Z -> bool) (v : spec_float) : spec_float :=
  match v with
  | S754_finite s m e =>
      if 0 <=? e then v
      else
        let d := Z.shiftl 1 (- e) in
        let q := Zpos m / d in
        let r := Zpos m mod d in
        let n := if up s q (2 * r) d then q + 1 else q in
        binary_normalize fl_prec fl_emax (cond_Zopp s n) 0 s
  | _ => v
  end.

Definition round_up_ties_even (s : bool) (q r2 d : Z) : bool :=
  (d <? r2) || ((d =? r2) && Z.odd q).

Definition f_round_with (up : bool -> Z -> Z -> Z -> bool) (a : Z) : Z :=
  to_fbits (nan_bits fmt [a]) (sf_round up (from_fbits a)).

Definition f_round_ties_even : Z -> Z := f_round_with round_up_ties_even.
Definition f_trunc : Z -> Z := f_round_with (fun _ _ _ _ => false).
Definition f_floor : Z -> Z := f_round_with (fun s _ r2 _ => s && negb (r2 =? 0)).
Definition f_ceil : Z -> Z := f_round_with (fun s _ r2 _ => negb s && negb (r2 =? 0)).

(** ** Casts *)

(** [as iN]/[as uN]: truncation, saturating at the bounds, 0 for NaN. *)
Definition f_to_int (lo hi a : Z) : Z :=
  match from_fbits a with
  | S754_nan | S754_zero _ => 0
  | S754_infinity s => if s then lo else hi
  | S754_finite s m e =>
      let magnitude := if 0 <=? e then Z.shiftl (Zpos m) e else Zpos m / Z.shiftl 1 (- e) in
      Z.max lo (Z.min hi (cond_Zopp s magnitude))
  end.

(** [n as f32]/[n as f64] for an integer [n]. *)
Definition f_of_int (n : Z) : Z :=
  to_fbits 0 (binary_normalize fl_prec fl_emax n 0 false).
End Format.

(** [a as f32] for an [f64] and [a as f64] for an [f32]. *)
Definition f_convert {FE : FloatEnv} (src dst : FloatFormat) (a : Z) : Z :=
  to_fbits dst (nan_bits dst [a])
    (match from_fbits src a with
     | S754_finite s m e =>
         binary_normalize (fl_prec dst) (fl_emax dst) (cond_Zopp s (Zpos m)) e s
     | v => v
     end).

(** ** Sanity of the encoding on known values *)

Definition env_zero : FloatEnv :=
  {| nan_bits := fun f _ => if mant_bits f =? 23 then 0x7FC00000 else 0x7FF8000000000000;
     min_keeps_first := true; max_keeps_first := true |}.

(** 1.5 + 2.25 = 3.75, 1/3, sqrt 2, fma(2, 3, 0.5) = 6.5, casts. *)
Example f_known_values :
  let E := env_zero in
  (f_add binary32 0x3FC00000 0x40100000, f_div binary64 0x3FF0000000000000 0x4008000000000000,
   f_sqrt binary64 0x4000000000000000, f_mul_add binary32 0x40000000 0x40400000 0x3F000000,
   f_of_int binary32 16777217, f_to_int binary64 (-2^31) (2^31 - 1) 0xC1F0000000000000,
   f_convert binary64 binary32 0x3FD5555555555555, f_round_ties_even binary64 0x4004000000000000,
   f_floor binary64 0xBFE0000000000000)
  = (0x40700000, 0x3FD5555555555555, 0x3FF6A09E667F3BCD, 0x40D00000,
     0x4B800000, -2^31, 0x3EAAAAAB, 0x4000000000000000, 0xBFF0000000000000).
Proof. vm_compute. reflexivity. Qed.
