(* ===== verification/SyscallTrace.v ===== *)
(** Decoding a system call from the trapping context
    ([riscv-core/src/syscall_trace.rs]).

    [GuestMemory] reads guest virtual memory through host page pointers only, so
    that decoding never touches a device; it remembers the last page it
    translated. *)
From S2P Require Import Prelude Words Gpr Csr SystemBus SyscallEntry Mmu BlockCache Context.

Definition SYS_DUP : Z := 23.
Definition SYS_DUP3 : Z := 24.
Definition SYS_FCNTL : Z := 25.
Definition SYS_MKDIRAT : Z := 34.
Definition SYS_UNLINKAT : Z := 35.
Definition SYS_TRUNCATE : Z := 45.
Definition SYS_FTRUNCATE : Z := 46.
Definition SYS_CHDIR : Z := 49.
Definition SYS_FCHDIR : Z := 50.
Definition SYS_OPENAT : Z := 56.
Definition SYS_CLOSE : Z := 57.
Definition SYS_EXIT_GROUP : Z := 94.
Definition SYS_SET_TID_ADDRESS : Z := 96.
Definition SYS_GETPID : Z := 172.
Definition SYS_GETTID : Z := 178.
Definition SYS_SOCKET : Z := 198.
Definition SYS_BIND : Z := 200.
Definition SYS_LISTEN : Z := 201.
Definition SYS_CONNECT : Z := 203.
Definition SYS_CLONE : Z := 220.
Definition SYS_EXECVE : Z := 221.
Definition SYS_RENAMEAT2 : Z := 276.
Definition SYS_EXECVEAT : Z := 281.
Definition SYS_IO_URING_SETUP : Z := 425.
Definition SYS_IO_URING_ENTER : Z := 426.
Definition SYS_CLONE3 : Z := 435.
Definition SYS_CLOSE_RANGE : Z := 436.
Definition SYS_OPENAT2 : Z := 437.

Definition CLONE_THREAD : Z := 0x00010000.
Definition AT_REMOVEDIR : Z := 0x200.
Definition AT_EMPTY_PATH : Z := 0x1000.
Definition AF_INET : Z := 2.
Definition AF_INET6 : Z := 10.

Definition O_ACCMODE : Z := 3.
Definition O_WRONLY : Z := 1.
Definition O_RDWR : Z := 2.
Definition O_CREAT : Z := 64.
Definition O_TRUNC : Z := 512.
Definition O_CLOEXEC : Z := 524288.

Definition F_DUPFD : Z := 0.
Definition F_DUPFD_CLOEXEC : Z := 1030.

Definition MAX_PATH_BYTES : nat := Z.to_nat 4096.
Definition MAX_ARGV_BYTES : nat := Z.to_nat 32768.
Definition MAX_ARGV_ENTRIES : nat := Z.to_nat 1024.

Definition AT_FDCWD : Z := -100.

(** ** [String::from_utf8_lossy] *)

Definition utf8_cont (b : Z) : bool := (0x80 <=? b) && (b <=? 0xBF).
Definition byte_in (lo hi b : Z) : bool := (lo <=? b) && (b <=? hi).

(** Is the second byte of a three- or four-byte sequence acceptable? *)
Definition utf8_second3 (b0 b1 : Z) : bool :=
  ((b0 =? 0xE0) && byte_in 0xA0 0xBF b1) || (byte_in 0xE1 0xEC b0 && utf8_cont b1)
  || ((b0 =? 0xED) && byte_in 0x80 0x9F b1) || (byte_in 0xEE 0xEF b0 && utf8_cont b1).
Definition utf8_second4 (b0 b1 : Z) : bool :=
  ((b0 =? 0xF0) && byte_in 0x90 0xBF b1) || (byte_in 0xF1 0xF3 b0 && utf8_cont b1)
  || ((b0 =? 0xF4) && byte_in 0x80 0x8F b1).

(** The next chunk of a byte string: whether it is a character, and how many
    bytes it covers (for an invalid chunk, the bytes one U+FFFD replaces). *)
Definition utf8_chunk (l : list Z) : bool * nat :=
  let at_ n := nth n l 0 in
  let b0 := at_ 0%nat in
  if b0 <? 0x80 then (true, 1%nat)
  else if byte_in 0xC2 0xDF b0 then
    if utf8_cont (at_ 1%nat) then (true, 2%nat) else (false, 1%nat)
  else if byte_in 0xE0 0xEF b0 then
    if negb (utf8_second3 b0 (at_ 1%nat)) then (false, 1%nat)
    else if utf8_cont (at_ 2%nat) then (true, 3%nat) else (false, 2%nat)
  else if byte_in 0xF0 0xF4 b0 then
    if negb (utf8_second4 b0 (at_ 1%nat)) then (false, 1%nat)
    else if negb (utf8_cont (at_ 2%nat)) then (false, 2%nat)
    else if utf8_cont (at_ 3%nat) then (true, 4%nat) else (false, 3%nat)
  else (false, 1%nat).

Fixpoint lossy_loop (fuel : nat) (l : list Z) : list Z :=
  match fuel, l with
  | S fuel, _ :: _ =>
      let '(ok, n) := utf8_chunk l in
      (if ok then take n l else [0xEF; 0xBF; 0xBD]) ++ lossy_loop fuel (drop n l)
  | _, _ => []
  end.

Definition lossy (bytes : list Z) : list Z := lossy_loop (length bytes) bytes.

(** ** Guest memory *)

Record GuestMemory := mkGuestMemory {
  gm_satp : Z; gm_virtual_page : Z; gm_host_page : HostPtr
}.
#[export] Instance GuestMemory_eta : Eta GuestMemory := fun g =>
  mkGuestMemory (gm_satp g) (gm_virtual_page g) (gm_host_page g).

Definition guest_memory_new (satp : Z) : GuestMemory := mkGuestMemory satp U64_MAX host_null.

Section Guest.
Context {B : Type} {SB : SystemBus B} {HM : HostMemory B}.
Abbreviation G := (ST (GuestMemory * B)).

Definition gm_bus {A} (m : ST B A) : ST (GuestMemory * B) A := zoom snd (fun b s => (s.1, b)) m.

Definition gm_deref (p : HostPtr) : ST (GuestMemory * B) Z :=
  fun s => match host_read p 1 s.2 with Some v => Some (v, s) | None => None end.

Definition gm_byte (virtual_address : Z) : ST (GuestMemory * B) (option Z) :=
  let virtual_page := Z.shiftr virtual_address 12 in
  let offset := Z.land virtual_address 0xfff in
  g ← gets fst;
  if negb (virtual_page =? gm_virtual_page g) then
    pa ← gm_bus (translate_readable virtual_address (gm_satp g));
    match pa with
    | None => mret None
    | Some physical_address =>
        page ← gm_bus (ram_load_page physical_address);
        match page with
        | None => mret None
        | Some host_page =>
            modify (fun s => (s.1 <| gm_host_page := host_page |>
                                  <| gm_virtual_page := virtual_page |>, s.2));;
            v ← gm_deref (host_add host_page offset);
            mret (Some v)
        end
    end
  else
    v ← gm_deref (host_add (gm_host_page g) offset);
    mret (Some v).

Fixpoint gm_array (n : nat) (virtual_address : Z) (offset : Z)
    : ST (GuestMemory * B) (option (list Z)) :=
  match n with
  | O => mret (Some [])
  | S n =>
      b ← gm_byte (wrapping_add64 virtual_address offset);
      match b with
      | None => mret None
      | Some byte =>
          rest ← gm_array n virtual_address (offset + 1);
          mret (match rest with Some bs => Some (byte :: bs) | None => None end)
      end
  end.

Definition gm_u32 (virtual_address : Z) : ST (GuestMemory * B) (option Z) :=
  bytes ← gm_array 4 virtual_address 0;
  mret (from_le_bytes <$> bytes).

Definition gm_u64 (virtual_address : Z) : ST (GuestMemory * B) (option Z) :=
  bytes ← gm_array 8 virtual_address 0;
  mret (from_le_bytes <$> bytes).

(** [bytes] is the vector built so far, reversed; at most [max_bytes] bytes are
    pushed, so [S max_bytes] iterations always suffice. *)
Fixpoint cstring_loop (fuel : nat) (virtual_address : Z) (max_bytes : nat) (bytes : list Z)
    : ST (GuestMemory * B) GuestString :=
  match fuel with
  | O => panic
  | S fuel =>
      let next := wrapping_add64 virtual_address (Z.of_nat (length bytes)) in
      b ← gm_byte next;
      match b with
      | None =>
          mret (match bytes with
                | [] => GuestUnreadable
                | _ => GuestTruncated (lossy (rev bytes))
                end)
      | Some byte =>
          if byte =? 0 then mret (GuestValue (lossy (rev bytes)))
          else if Nat.eqb (length bytes) max_bytes then mret (GuestTruncated (lossy (rev bytes)))
          else cstring_loop fuel virtual_address max_bytes (byte :: bytes)
      end
  end.

Definition gm_cstring (virtual_address : Z) (max_bytes : nat) : ST (GuestMemory * B) GuestString :=
  if virtual_address =? 0 then mret GuestUnreadable
  else cstring_loop (S max_bytes) virtual_address max_bytes [].

(** [argv] is reversed; [index] counts up from 0 while [entries] counts down. *)
Fixpoint argv_loop (entries : nat) (index : Z) (virtual_address : Z) (budget : nat)
    (argv : list (list Z)) : ST (GuestMemory * B) (list (list Z) * bool) :=
  match entries with
  | O => mret (rev argv, true)
  | S entries =>
      pointer ← gm_u64 (wrapping_add64 virtual_address (index * 8));
      match pointer with
      | None => mret (rev argv, true)
      | Some pointer =>
          if pointer =? 0 then mret (rev argv, false)
          else if Nat.eqb budget 0 then mret (rev argv, true)
          else
            s ← gm_cstring pointer budget;
            match s with
            | GuestValue argument =>
                argv_loop entries (index + 1) virtual_address
                  (budget - length argument) (argument :: argv)
            | GuestTruncated argument => mret (rev (argument :: argv), true)
            | GuestUnreadable => mret (rev argv, true)
            end
      end
  end.

Definition gm_argv (virtual_address : Z) : ST (GuestMemory * B) (list (list Z) * bool) :=
  if virtual_address =? 0 then mret ([], false)
  else argv_loop MAX_ARGV_ENTRIES 0 virtual_address MAX_ARGV_BYTES [].

Definition gm_socket_address (virtual_address : Z) : ST (GuestMemory * B) (option SocketAddr) :=
  if virtual_address =? 0 then mret None
  else
    family ← gm_array 2 virtual_address 0;
    match family with
    | None => mret None
    | Some family_bytes =>
        port ← gm_array 2 (as_u64 (virtual_address + 2)) 0;
        match port with
        | None => mret None
        | Some port_bytes =>
            let family := from_le_bytes family_bytes in
            let port := from_le_bytes (rev port_bytes) in
            if family =? AF_INET then
              octets ← gm_array 4 (as_u64 (virtual_address + 4)) 0;
              mret (match octets with Some o => Some (SocketV4 o port) | None => None end)
            else if family =? AF_INET6 then
              octets ← gm_array 16 (as_u64 (virtual_address + 8)) 0;
              mret (match octets with Some o => Some (SocketV6 o port) | None => None end)
            else mret None
        end
    end.

(** ** Decoding the arguments of one call *)

Definition flag_set (flags bit : Z) : bool := negb (Z.land flags bit =? 0).

Definition decode_exec (number : Z) (a : list Z) : ST (GuestMemory * B) SyscallKind :=
  let arg n := a !!! n in
  let '(directory_fd, path_address, argv_address) :=
    if number =? SYS_EXECVEAT then (as_i32 (arg 0%nat), arg 1%nat, arg 2%nat)
    else (AT_FDCWD, arg 0%nat, arg 1%nat) in
  path ← (if (number =? SYS_EXECVEAT) && flag_set (arg 4%nat) AT_EMPTY_PATH
          then mret (GuestValue [])
          else gm_cstring path_address MAX_PATH_BYTES);
  argv ← gm_argv argv_address;
  mret (SkExec directory_fd path argv.1 argv.2).

Definition decode_open (number : Z) (a : list Z) : ST (GuestMemory * B) SyscallKind :=
  let arg n := a !!! n in
  flags ← (if number =? SYS_OPENAT2 then
             v ← gm_u64 (arg 2%nat);
             mret (as_u32 (default 0 v))
           else mret (as_u32 (arg 2%nat)));
  path ← gm_cstring (arg 1%nat) MAX_PATH_BYTES;
  mret (SkOpen (as_i32 (arg 0%nat)) path
          (Z.land flags O_ACCMODE =? O_WRONLY)
          (Z.land flags O_ACCMODE =? O_RDWR)
          (flag_set flags O_CREAT)
          (flag_set flags O_TRUNC)
          (flag_set flags O_CLOEXEC)).

Definition decode_kind (number : Z) (a : list Z) : ST (GuestMemory * B) (option SyscallKind) :=
  let n := Z.eqb number in
  let arg i := a !!! i in
  let fd i := as_i32 (a !!! i) in
  let cstring i := gm_cstring (a !!! i) MAX_PATH_BYTES in
  let some k := mret (Some k) in
  if n SYS_EXECVE || n SYS_EXECVEAT then k ← decode_exec number a; some k
  else if n SYS_EXIT_GROUP then some (SkExit (fd 0%nat))
  else if n SYS_CLONE then some (SkClone (flag_set (arg 0%nat) CLONE_THREAD))
  else if n SYS_CLONE3 then
    v ← gm_u64 (arg 0%nat);
    some (SkClone (flag_set (default 0 v) CLONE_THREAD))
  else if n SYS_IO_URING_SETUP || n SYS_IO_URING_ENTER then some SkRingUse
  else if n SYS_SET_TID_ADDRESS || n SYS_GETTID then some (SkIdentity false)
  else if n SYS_GETPID then some (SkIdentity true)
  else if n SYS_OPENAT || n SYS_OPENAT2 then k ← decode_open number a; some k
  else if n SYS_RENAMEAT2 then
    from ← cstring 1%nat;
    to ← cstring 3%nat;
    some (SkRename (fd 0%nat) from (fd 2%nat) to)
  else if n SYS_UNLINKAT then
    path ← cstring 1%nat;
    some (SkUnlink (fd 0%nat) path (flag_set (arg 2%nat) AT_REMOVEDIR))
  else if n SYS_MKDIRAT then
    path ← cstring 1%nat;
    some (SkMkdir (fd 0%nat) path)
  else if n SYS_TRUNCATE then
    path ← cstring 0%nat;
    some (SkTruncate path (arg 1%nat))
  else if n SYS_FTRUNCATE then some (SkTruncateDescriptor (fd 0%nat) (arg 1%nat))
  else if n SYS_CHDIR then
    path ← cstring 0%nat;
    some (SkChangeDirectory path)
  else if n SYS_FCHDIR then some (SkChangeDirectoryDescriptor (fd 0%nat))
  else if n SYS_DUP then some (SkDuplicate (fd 0%nat) false)
  else if n SYS_FCNTL && ((arg 1%nat =? F_DUPFD) || (arg 1%nat =? F_DUPFD_CLOEXEC)) then
    some (SkDuplicate (fd 0%nat) (arg 1%nat =? F_DUPFD_CLOEXEC))
  else if n SYS_DUP3 then
    some (SkDuplicateTo (fd 0%nat) (fd 1%nat) (flag_set (as_u32 (arg 2%nat)) O_CLOEXEC))
  else if n SYS_CLOSE then some (SkClose (fd 0%nat))
  else if n SYS_CLOSE_RANGE then some (SkCloseRange (as_u32 (arg 0%nat)) (as_u32 (arg 1%nat)))
  else if n SYS_SOCKET then some (SkSocket (as_u32 (arg 0%nat)) (as_u32 (arg 1%nat)))
  else if n SYS_CONNECT then
    address ← gm_socket_address (arg 1%nat);
    some (SkConnect (fd 0%nat) address)
  else if n SYS_BIND then
    address ← gm_socket_address (arg 1%nat);
    some (SkBind (fd 0%nat) address)
  else if n SYS_LISTEN then some (SkListen (fd 0%nat))
  else mret None.

(** [decode_entry]: the call number is [a7], the arguments are [a0..a5]. *)
Definition decode_entry (entry_pc entry_satp : Z) : ST (ExecContext B) (option SyscallEntry) :=
  task ← get_csr sscratch;
  number ← read_reg 17;
  args ← gets (fun c => map (fun n => gpr_read (10 + n) (regs c)) [0; 1; 2; 3; 4; 5]);
  kind ← zoom (fun c => (guest_memory_new entry_satp, bus c))
              (fun s c => c <| bus := s.2 |>)
              (decode_kind number args);
  mret (match kind with
        | Some k => Some (mkSyscallEntry task number entry_pc k)
        | None => None
        end).
End Guest.
