(* ===== verification/Execute.v ===== *)
(** The instruction interpreter ([riscv-core/src/execute.rs]): traps, CSR and
    privileged instructions, integer, atomic and compressed instructions, and
    [exec_raw], which executes one encoding.  Floating point is in
    [ExecuteFp]. *)
From S2P Require Import Prelude Words Trap Gpr Decode Extensions Csr SystemBus Mmu BlockCache.
From S2P Require Import Context SyscallTrace.

Definition OP_LUI : Z := 0x37.
Definition OP_AUIPC : Z := 0x17.
Definition OP_JAL : Z := 0x6f.
Definition OP_JALR : Z := 0x67.
Definition OP_BRANCH : Z := 0x63.
Definition OP_LOAD : Z := 0x03.
Definition OP_STORE : Z := 0x23.
Definition OP_IMM : Z := 0x13.
Definition OP_IMM32 : Z := 0x1b.
Definition OP_REG : Z := 0x33.
Definition OP_REG32 : Z := 0x3b.
Definition OP_SYSTEM : Z := 0x73.
Definition OP_FENCE : Z := 0x0f.
Definition OP_AMO : Z := 0x2f.
Definition OP_LOAD_FP : Z := 0x07.
Definition OP_STORE_FP : Z := 0x27.
Definition OP_OP_FP : Z := 0x53.
Definition OP_FMADD : Z := 0x43.
Definition OP_FMSUB : Z := 0x47.
Definition OP_FNMSUB : Z := 0x4B.
Definition OP_FNMADD : Z := 0x4F.

Definition FUNCT3_BEQ : Z := 0x0.
Definition FUNCT3_BNE : Z := 0x1.
Definition FUNCT3_BLT : Z := 0x4.
Definition FUNCT3_BGE : Z := 0x5.
Definition FUNCT3_BLTU : Z := 0x6.
Definition FUNCT3_BGEU : Z := 0x7.

Definition FUNCT3_LB : Z := 0x0.
Definition FUNCT3_LH : Z := 0x1.
Definition FUNCT3_LW : Z := 0x2.
Definition FUNCT3_LD : Z := 0x3.
Definition FUNCT3_LBU : Z := 0x4.
Definition FUNCT3_LHU : Z := 0x5.
Definition FUNCT3_LWU : Z := 0x6.

Definition FUNCT3_SB : Z := 0x0.
Definition FUNCT3_SH : Z := 0x1.
Definition FUNCT3_SW : Z := 0x2.
Definition FUNCT3_SD : Z := 0x3.

Definition IRQ_SEI : Z := 9.
Definition IRQ_MEI : Z := 11.
Definition SBI_EXT_LEGACY_SHUTDOWN : Z := 0x08.
Definition SBI_EXT_SRST : Z := 0x53525354.
Definition SBI_FID_SYSTEM_RESET : Z := 0.

Definition is_shutdown_ecall (extension_id function_id : Z) : bool :=
  (extension_id =? SBI_EXT_LEGACY_SHUTDOWN)
  || ((extension_id =? SBI_EXT_SRST) && (function_id =? SBI_FID_SYSTEM_RESET)).

(** ** Traps as functions of the CSRs

    The two branches [take_interrupt] and [take_exception] share: saving the
    cause, the pc and the interrupt-enable stack, and the new pc. *)

Definition trap_csrs_s (cause tval pc : Z) (priv : PrivMode) (c : Csr) : Csr :=
  let c := c <| scause := cause |> <| sepc := pc |> <| stval := tval |> in
  let spie := Z.shiftr (Z.land (mstatus c) MSTATUS_SIE) 1 in
  let c := c <| mstatus := Z.land (mstatus c) (not64 MSTATUS_SPIE) |> in
  let c := c <| mstatus := Z.lor (mstatus c) (shl64 spie 5) |> in
  let c := c <| mstatus := Z.land (mstatus c) (not64 MSTATUS_SIE) |> in
  let spp := priv_bits priv in
  c <| mstatus := Z.lor (Z.land (mstatus c) (not64 MSTATUS_SPP)) (shl64 spp 8) |>.

Definition trap_csrs_m (cause tval pc : Z) (priv : PrivMode) (c : Csr) : Csr :=
  let c := c <| mcause := cause |> <| mepc := pc |> <| mtval := tval |> in
  let mpie := Z.shiftr (Z.land (mstatus c) MSTATUS_MIE) 3 in
  let c := c <| mstatus := Z.land (mstatus c) (not64 MSTATUS_MPIE) |> in
  let c := c <| mstatus := Z.lor (mstatus c) (shl64 mpie 7) |> in
  let c := c <| mstatus := Z.land (mstatus c) (not64 MSTATUS_MIE) |> in
  let mpp := priv_bits priv in
  c <| mstatus := Z.lor (Z.land (mstatus c) (not64 MSTATUS_MPP)) (shl64 mpp 11) |>.

(** [SRET] and [MRET] on the CSRs, with the privilege mode they return to. *)
Definition sret_csrs (c : Csr) : Csr * PrivMode :=
  let spp := Z.land (Z.shiftr (mstatus c) 8) 1 in
  let spie := Z.land (Z.shiftr (mstatus c) 5) 1 in
  let c := c <| mstatus := Z.land (mstatus c) (not64 MSTATUS_SPP) |> in
  let c := if negb (spie =? 0)
           then c <| mstatus := Z.lor (mstatus c) MSTATUS_SIE |>
           else c <| mstatus := Z.land (mstatus c) (not64 MSTATUS_SIE) |> in
  (c <| mstatus := Z.lor (mstatus c) MSTATUS_SPIE |>, from_bits spp).

Definition mret_csrs (c : Csr) : Csr * PrivMode :=
  let mpp := Z.land (Z.shiftr (mstatus c) 11) 3 in
  let mpie := Z.land (Z.shiftr (mstatus c) 7) 1 in
  let c := c <| mstatus := Z.land (mstatus c) (not64 MSTATUS_MPP) |> in
  let c := if negb (mpie =? 0)
           then c <| mstatus := Z.lor (mstatus c) MSTATUS_MIE |>
           else c <| mstatus := Z.land (mstatus c) (not64 MSTATUS_MIE) |> in
  (c <| mstatus := Z.lor (mstatus c) MSTATUS_MPIE |>, from_bits mpp).

(** ** Values computed by the integer instructions *)

Definition orc_b (x : Z) : Z :=
  foldl (fun result i =>
    let byte := Z.land (Z.shiftr x (i * 8)) 0xFF in
    let out := if negb (byte =? 0) then 0xFF else 0x00 in
    Z.lor result (shl64 out (i * 8))) 0 [0; 1; 2; 3; 4; 5; 6; 7].

Definition branch_cond (f3 a b : Z) : option bool :=
  if f3 =? FUNCT3_BEQ then Some (a =? b)
  else if f3 =? FUNCT3_BNE then Some (negb (a =? b))
  else if f3 =? FUNCT3_BLT then Some (as_i64 a <? as_i64 b)
  else if f3 =? FUNCT3_BGE then Some (as_i64 b <=? as_i64 a)
  else if f3 =? FUNCT3_BLTU then Some (a <? b)
  else if f3 =? FUNCT3_BGEU then Some (b <=? a)
  else None.

(** [None] is the illegal-instruction return of the source. *)
Definition op_imm_value (f3 f7 a imm : Z) : option Z :=
  let shamt := Z.land imm 0x3f in
  let f6 := Z.shiftr f7 1 in
  if f3 =? 0x0 then Some (wrapping_add64 a (as_u64 imm))
  else if f3 =? 0x1 then
    if f6 =? 0x00 then Some (shl64 a shamt)
    else if f6 =? 0x18 then
      if shamt =? 0 then Some (leading_zeros 64 a)
      else if shamt =? 1 then Some (trailing_zeros 64 a)
      else if shamt =? 2 then Some (count_ones a)
      else None
    else if f6 =? 0x1a then
      if shamt =? 2 then Some (as_u64 (as_i8 a))
      else if shamt =? 4 then Some (as_u64 (as_i16 a))
      else None
    else None
  else if f3 =? 0x2 then Some (b2u (as_i64 a <? imm))
  else if f3 =? 0x3 then Some (b2u (a <? as_u64 imm))
  else if f3 =? 0x4 then Some (Z.lxor a (as_u64 imm))
  else if f3 =? 0x5 then
    if f6 =? 0x00 then Some (Z.shiftr a shamt)
    else if f6 =? 0x10 then Some (as_u64 (Z.shiftr (as_i64 a) shamt))
    else if (f6 =? 0x14) && (shamt =? 7) then Some (orc_b a)
    else if (f6 =? 0x35) && (shamt =? 24) then Some (swap_bytes a)
    else if (f6 =? 0x35) && (shamt =? 8) then Some (swap_bytes a)
    else if f6 =? 0x18 then Some (rotate_right 64 a shamt)
    else None
  else if f3 =? 0x6 then Some (Z.lor a (as_u64 imm))
  else Some (Z.land a (as_u64 imm)).

Definition op_imm32_value (f3 f7 a imm : Z) : option Z :=
  let w := as_u32 a in
  let shamt := Z.land imm 0x1f in
  if (f3 =? 0x1) && ((f7 =? 0x04) || (f7 =? 0x05)) then Some (shl64 w (Z.land imm 0x3f))
  else
    let word : option Z :=
      if f3 =? 0x0 then Some (as_i32 (wrapping_add32 w (as_u32 imm)))
      else if f3 =? 0x1 then
        if f7 =? 0x00 then Some (as_i32 (shl32 w shamt))
        else if f7 =? 0x30 then
          if shamt =? 0 then Some (as_i32 (leading_zeros 32 w))
          else if shamt =? 1 then Some (as_i32 (trailing_zeros 32 w))
          else if shamt =? 2 then Some (as_i32 (count_ones w))
          else None
        else None
      else if f3 =? 0x5 then
        if f7 =? 0x00 then Some (as_i32 (Z.shiftr w shamt))
        else if f7 =? 0x20 then Some (Z.shiftr (as_i32 w) shamt)
        else if f7 =? 0x30 then Some (as_i32 (rotate_right 32 w shamt))
        else None
      else None in
    match word with Some v => Some (as_u64 v) | None => None end.

Definition op_reg_value (f3 f7 a b : Z) : option Z :=
  let k i j := (f3 =? i) && (f7 =? j) in
  let shamt := Z.land b 0x3f in
  if k 0x0 0x00 then Some (wrapping_add64 a b)
  else if k 0x0 0x20 then Some (wrapping_sub64 a b)
  else if k 0x1 0x00 then Some (shl64 a shamt)
  else if k 0x2 0x00 then Some (b2u (as_i64 a <? as_i64 b))
  else if k 0x3 0x00 then Some (b2u (a <? b))
  else if k 0x4 0x00 then Some (Z.lxor a b)
  else if k 0x5 0x00 then Some (Z.shiftr a shamt)
  else if k 0x5 0x20 then Some (as_u64 (Z.shiftr (as_i64 a) shamt))
  else if k 0x6 0x00 then Some (Z.lor a b)
  else if k 0x7 0x00 then Some (Z.land a b)
  else if k 0x0 0x01 then Some (mul a b)
  else if k 0x1 0x01 then Some (mulh a b)
  else if k 0x2 0x01 then Some (mulhsu a b)
  else if k 0x3 0x01 then Some (mulhu a b)
  else if k 0x4 0x01 then Some (div a b)
  else if k 0x5 0x01 then Some (divu a b)
  else if k 0x6 0x01 then Some (rem a b)
  else if k 0x7 0x01 then Some (remu a b)
  else if k 0x4 0x20 then Some (Z.lxor a (not64 b))
  else if k 0x6 0x20 then Some (Z.lor a (not64 b))
  else if k 0x7 0x20 then Some (Z.land a (not64 b))
  else if k 0x1 0x30 then Some (rotate_left 64 a shamt)
  else if k 0x5 0x30 then Some (rotate_right 64 a shamt)
  else if k 0x4 0x05 then Some (if as_i64 a <? as_i64 b then a else b)
  else if k 0x5 0x05 then Some (if as_i64 b <? as_i64 a then a else b)
  else if k 0x6 0x05 then Some (Z.min a b)
  else if k 0x7 0x05 then Some (Z.max a b)
  else if k 0x2 0x10 then Some (wrapping_add64 (shl64 a 1) b)
  else if k 0x4 0x10 then Some (wrapping_add64 (shl64 a 2) b)
  else if k 0x6 0x10 then Some (wrapping_add64 (shl64 a 3) b)
  else None.

Definition op_reg32_value (f3 f7 rs2_field a b : Z) : option Z :=
  let k i j := (f3 =? i) && (f7 =? j) in
  let shamt := Z.land b 0x1f in
  if k 0x0 0x00 then Some (as_u64 (as_i32 (wrapping_add32 (as_u32 a) (as_u32 b))))
  else if k 0x0 0x20 then Some (as_u64 (as_i32 (wrapping_sub32 (as_u32 a) (as_u32 b))))
  else if k 0x1 0x00 then Some (as_u64 (as_i32 (shl32 (as_u32 a) shamt)))
  else if k 0x5 0x00 then Some (as_u64 (as_i32 (Z.shiftr (as_u32 a) shamt)))
  else if k 0x5 0x20 then Some (as_u64 (Z.shiftr (as_i32 a) shamt))
  else if k 0x0 0x01 then Some (mulw a b)
  else if k 0x4 0x01 then Some (divw a b)
  else if k 0x5 0x01 then Some (divuw a b)
  else if k 0x6 0x01 then Some (remw a b)
  else if k 0x7 0x01 then Some (remuw a b)
  else if k 0x1 0x30 then Some (as_u64 (as_i32 (rotate_left 32 (as_u32 a) shamt)))
  else if k 0x5 0x30 then Some (as_u64 (as_i32 (rotate_right 32 (as_u32 a) shamt)))
  else if k 0x4 0x04 && (rs2_field =? 0) then Some (as_u16 a)
  else if k 0x0 0x04 then Some (wrapping_add64 (as_u32 a) b)
  else if k 0x2 0x10 then Some (wrapping_add64 (shl64 (as_u32 a) 1) b)
  else if k 0x4 0x10 then Some (wrapping_add64 (shl64 (as_u32 a) 2) b)
  else if k 0x6 0x10 then Some (wrapping_add64 (shl64 (as_u32 a) 3) b)
  else None.

(** Size and extension of a load by [funct3]; [None] is unreachable. *)
Definition load_size (f3 : Z) : option Z :=
  if (f3 =? FUNCT3_LB) || (f3 =? FUNCT3_LBU) then Some 1
  else if (f3 =? FUNCT3_LH) || (f3 =? FUNCT3_LHU) then Some 2
  else if (f3 =? FUNCT3_LW) || (f3 =? FUNCT3_LWU) then Some 4
  else if f3 =? FUNCT3_LD then Some 8
  else None.

Definition store_size (f3 : Z) : option Z :=
  if f3 =? FUNCT3_SB then Some 1
  else if f3 =? FUNCT3_SH then Some 2
  else if f3 =? FUNCT3_SW then Some 4
  else if f3 =? FUNCT3_SD then Some 8
  else None.

(** The value of a page-crossing load from the bytes that were read. *)
Definition load_buffer_value (f3 : Z) (buffer : list Z) : option Z :=
  if f3 =? FUNCT3_LH then Some (as_u64 (as_i16 (from_le_bytes (take 2 buffer))))
  else if f3 =? FUNCT3_LW then Some (as_u64 (as_i32 (from_le_bytes (take 4 buffer))))
  else if f3 =? FUNCT3_LD then Some (from_le_bytes (take 8 buffer))
  else if f3 =? FUNCT3_LHU then Some (from_le_bytes (take 2 buffer))
  else if f3 =? FUNCT3_LWU then Some (from_le_bytes (take 4 buffer))
  else None.

Definition amo_w_op (f5 mem src : Z) : option (Z * Z) :=
  if f5 =? 0x01 then Some (amoswap_w mem src)
  else if f5 =? 0x00 then Some (amoadd_w mem src)
  else if f5 =? 0x04 then Some (amoxor_w mem src)
  else if f5 =? 0x0c then Some (amoand_w mem src)
  else if f5 =? 0x08 then Some (amoor_w mem src)
  else if f5 =? 0x10 then Some (amomin_w mem src)
  else if f5 =? 0x14 then Some (amomax_w mem src)
  else if f5 =? 0x18 then Some (amominu_w mem src)
  else if f5 =? 0x1c then Some (amomaxu_w mem src)
  else None.

Definition amo_d_op (f5 mem src : Z) : option (Z * Z) :=
  if f5 =? 0x01 then Some (amoswap_d mem src)
  else if f5 =? 0x00 then Some (amoadd_d mem src)
  else if f5 =? 0x04 then Some (amoxor_d mem src)
  else if f5 =? 0x0c then Some (amoand_d mem src)
  else if f5 =? 0x08 then Some (amoor_d mem src)
  else if f5 =? 0x10 then Some (amomin_d mem src)
  else if f5 =? 0x14 then Some (amomax_d mem src)
  else if f5 =? 0x18 then Some (amominu_d mem src)
  else if f5 =? 0x1c then Some (amomaxu_d mem src)
  else None.

(** The new value and whether it is written, for a CSR instruction. *)
Definition csr_new_value (f3 old rs1_val uimm : Z) : option Z :=
  if f3 =? 0x1 then Some rs1_val
  else if f3 =? 0x2 then Some (Z.lor old rs1_val)
  else if f3 =? 0x3 then Some (Z.land old (not64 rs1_val))
  else if f3 =? 0x5 then Some uimm
  else if f3 =? 0x6 then Some (Z.lor old uimm)
  else if f3 =? 0x7 then Some (Z.land old (not64 uimm))
  else None.

Definition csr_do_write (f3 rs1_field : Z) : bool :=
  if (f3 =? 0x1) || (f3 =? 0x5) then true else negb (rs1_field =? 0).

(** ** Execution *)

Section Exec.
Context {B : Type} {SB : SystemBus B} {HM : HostMemory B}.
Abbreviation X := (ST (ExecContext B)).

Definition illegal (raw : Z) : ST (ExecContext B) StepResult :=
  mret (StepTrap (IllegalInstruction raw)).

(** The common end of [exec_full] and [exec_compressed]. *)
Definition retire : ST (ExecContext B) StepResult := add_instret 1;; mret StepOk.

Definition invalidate_fetch_cache : ST (ExecContext B) unit :=
  modify (fun c => c <| fetch_tlb := fetch_tlb_flush (fetch_tlb c) |>
                     <| icache_tags := arr_new U64_MAX |>).

Definition take_interrupt (irq_bit : Z) : ST (ExecContext B) StepResult :=
  c ← st_get;
  let cause := Z.lor (Z.shiftl 1 63) irq_bit in
  let deleg := Z.land (mideleg (csr c)) (shl64 1 irq_bit) in
  (if negb (deleg =? 0) && negb (priv_eqb (priv_mode c) PrivM) then
     modify (fun c => c <| csr := trap_csrs_s cause 0 (pc (regs c)) (priv_mode c) (csr c) |>);;
     modify (fun c => c <| priv_mode := PrivS |>);;
     v ← get_csr stvec;
     set_pc (Z.land v (not64 3))
   else
     modify (fun c => c <| csr := trap_csrs_m cause 0 (pc (regs c)) (priv_mode c) (csr c) |>);;
     modify (fun c => c <| priv_mode := PrivM |>);;
     v ← get_csr mtvec;
     set_pc (Z.land v (not64 3)));;
  mret StepOk.

Definition take_exception (cause tval : Z) : ST (ExecContext B) unit :=
  c ← st_get;
  let deleg := Z.land (medeleg (csr c)) (shl64 1 (Z.land cause 63)) in
  if negb (deleg =? 0) && negb (priv_eqb (priv_mode c) PrivM) then
    modify (fun c => c <| csr := trap_csrs_s cause tval (pc (regs c)) (priv_mode c) (csr c) |>);;
    modify (fun c => c <| priv_mode := PrivS |>);;
    v ← get_csr stvec;
    set_pc (Z.land v (not64 3))
  else
    modify (fun c => c <| csr := trap_csrs_m cause tval (pc (regs c)) (priv_mode c) (csr c) |>);;
    modify (fun c => c <| priv_mode := PrivM |>);;
    v ← get_csr mtvec;
    set_pc (Z.land v (not64 3)).

Definition trap_from_mmu (fault : MmuFault) : ST (ExecContext B) StepResult :=
  take_exception (fault_mcause fault) (fault_tval fault);; mret StepOk.

(** Translate and read [n] consecutive bytes one at a time, from offset [i] on:
    the loop of every page-crossing load. *)
Fixpoint load_bytes (n : nat) (i va satp : Z) : ST (Mmu * B) (Result (list Z) MmuFault) :=
  match n with
  | O => mret (Ok [])
  | S n =>
      r ← translate_load (wrapping_add64 va i) satp;
      match r with
      | Err fault => mret (Err fault)
      | Ok pa =>
          b ← mb_bus (read_byte pa);
          rest ← load_bytes n (i + 1) va satp;
          mret (match rest with Ok bs => Ok (b :: bs) | Err fault => Err fault end)
      end
  end.

(** Code of the store paths works on the MMU, the bus and the block cache. *)
Definition on_store {A} (m : ST (Mmu * B * BlockCache) A) : ST (ExecContext B) A :=
  zoom (fun c => (mmu c, bus c, blocks c))
       (fun s c => c <| mmu := s.1.1 |> <| bus := s.1.2 |> <| blocks := s.2 |>) m.
Definition st_mmu {A} (m : ST (Mmu * B) A) : ST (Mmu * B * BlockCache) A :=
  zoom fst (fun s t => (s, t.2)) m.
Definition st_bus {A} (m : ST B A) : ST (Mmu * B * BlockCache) A := st_mmu (mb_bus m).
Definition st_notify (pa : Z) : ST (Mmu * B * BlockCache) unit :=
  modify (fun t => (t.1, notify_store pa t.2)).

(** The loop of every page-crossing store. *)
Fixpoint store_bytes (bytes : list Z) (i va satp : Z)
    : ST (Mmu * B * BlockCache) (Result unit MmuFault) :=
  match bytes with
  | [] => mret (Ok tt)
  | b :: bytes =>
      r ← st_mmu (translate_store (wrapping_add64 va i) satp);
      match r with
      | Err fault => mret (Err fault)
      | Ok pa =>
          st_notify pa;;
          st_bus (write_byte pa b);;
          store_bytes bytes (i + 1) va satp
      end
  end.

Definition cross_page_load_dw_result (va satp : Z) : ST (ExecContext B) (Result Z MmuFault) :=
  if Z.land va 0xFFF <=? 0xFF8 then
    r ← on_mmu (translate_load va satp);
    match r with
    | Err fault => mret (Err fault)
    | Ok pa => v ← on_bus (read_doubleword pa); mret (Ok v)
    end
  else
    r ← on_mmu (load_bytes 8 0 va satp);
    mret (match r with Ok bs => Ok (from_le_bytes bs) | Err fault => Err fault end).

(** [DwResult]: a fault has already been turned into a trap. *)
Definition cross_page_load_dw (va satp : Z) : ST (ExecContext B) (Result Z StepResult) :=
  r ← cross_page_load_dw_result va satp;
  match r with
  | Ok v => mret (Ok v)
  | Err fault => t ← trap_from_mmu fault; mret (Err t)
  end.

Definition cross_page_store_dw_result (va val satp : Z) : ST (ExecContext B) (Result unit MmuFault) :=
  on_store (
    if Z.land va 0xFFF <=? 0xFF8 then
      r ← st_mmu (translate_store va satp);
      match r with
      | Err fault => mret (Err fault)
      | Ok pa =>
          st_notify pa;;
          st_bus (write_doubleword pa val);;
          mret (Ok tt)
      end
    else store_bytes (to_le_bytes 8 val) 0 va satp).

Definition cross_page_store_dw (va val satp : Z) : ST (ExecContext B) (Result unit StepResult) :=
  r ← cross_page_store_dw_result va val satp;
  match r with
  | Ok u => mret (Ok u)
  | Err fault => t ← trap_from_mmu fault; mret (Err t)
  end.

(** *** [exec_full], one arm per definition *)

Definition exec_lui (raw pc : Z) : ST (ExecContext B) StepResult :=
  write_reg (rd raw) (as_u64 (imm_u raw));;
  set_pc (wrapping_add64 pc 4);;
  retire.

Definition exec_auipc (raw pc : Z) : ST (ExecContext B) StepResult :=
  write_reg (rd raw) (wrapping_add64 pc (as_u64 (imm_u raw)));;
  set_pc (wrapping_add64 pc 4);;
  retire.

Definition exec_jal (raw pc : Z) : ST (ExecContext B) StepResult :=
  let target := wrapping_add64 pc (as_u64 (imm_j raw)) in
  if negb (Z.land target 1 =? 0) then mret (StepTrap InstructionAddressMisaligned)
  else
    write_reg (rd raw) (wrapping_add64 pc 4);;
    set_pc target;;
    retire.

Definition exec_jalr (raw pc : Z) : ST (ExecContext B) StepResult :=
  base ← read_reg (rs1 raw);
  let target := Z.land (wrapping_add64 base (as_u64 (imm_i raw))) (not64 1) in
  if negb (Z.land target 1 =? 0) then mret (StepTrap InstructionAddressMisaligned)
  else
    write_reg (rd raw) (wrapping_add64 pc 4);;
    set_pc target;;
    retire.

Definition exec_branch (raw pc : Z) : ST (ExecContext B) StepResult :=
  rs1_value ← read_reg (rs1 raw);
  rs2_value ← read_reg (rs2 raw);
  match branch_cond (funct3 raw) rs1_value rs2_value with
  | None => illegal raw
  | Some true =>
      let branch_target := wrapping_add64 pc (as_u64 (imm_b raw)) in
      if negb (Z.land branch_target 1 =? 0) then mret (StepTrap InstructionAddressMisaligned)
      else set_pc branch_target;; retire
  | Some false => set_pc (wrapping_add64 pc 4);; retire
  end.

Definition load_direct (f3 pa : Z) : ST (ExecContext B) Z :=
  if f3 =? FUNCT3_LB then v ← on_bus (read_byte pa); mret (as_u64 (as_i8 v))
  else if f3 =? FUNCT3_LH then v ← on_bus (read_halfword pa); mret (as_u64 (as_i16 v))
  else if f3 =? FUNCT3_LW then v ← on_bus (read_word pa); mret (as_u64 (as_i32 v))
  else if f3 =? FUNCT3_LD then on_bus (read_doubleword pa)
  else if f3 =? FUNCT3_LBU then on_bus (read_byte pa)
  else if f3 =? FUNCT3_LHU then on_bus (read_halfword pa)
  else if f3 =? FUNCT3_LWU then on_bus (read_word pa)
  else panic.

Definition exec_load (raw pc satp : Z) : ST (ExecContext B) StepResult :=
  base_address ← read_reg (rs1 raw);
  let virtual_address := wrapping_add64 base_address (as_u64 (imm_i raw)) in
  match load_size (funct3 raw) with
  | None => illegal raw
  | Some access_size =>
      let page_offset := Z.land virtual_address 0xFFF in
      let finish v := write_reg (rd raw) v;; set_pc (wrapping_add64 pc 4);; retire in
      if 0x1000 <? page_offset + access_size then
        r ← on_mmu (load_bytes (Z.to_nat access_size) 0 virtual_address satp);
        match r with
        | Err fault => trap_from_mmu fault
        | Ok buffer =>
            match load_buffer_value (funct3 raw) buffer with
            | Some v => finish v
            | None => panic
            end
        end
      else
        r ← on_mmu (translate_load virtual_address satp);
        match r with
        | Err fault => trap_from_mmu fault
        | Ok pa => v ← load_direct (funct3 raw) pa; finish v
        end
  end.

Definition store_direct (f3 pa val : Z) : ST B unit :=
  if f3 =? FUNCT3_SB then write_byte pa (as_u8 val)
  else if f3 =? FUNCT3_SH then write_halfword pa (as_u16 val)
  else if f3 =? FUNCT3_SW then write_word pa (as_u32 val)
  else if f3 =? FUNCT3_SD then write_doubleword pa val
  else panic.

Definition exec_store (raw pc satp : Z) : ST (ExecContext B) StepResult :=
  base_address ← read_reg (rs1 raw);
  source_value ← read_reg (rs2 raw);
  let virtual_address := wrapping_add64 base_address (as_u64 (imm_s raw)) in
  match store_size (funct3 raw) with
  | None => illegal raw
  | Some size =>
      let page_offset := Z.land virtual_address 0xFFF in
      r ← on_store (
        if 0x1000 <? page_offset + size then
          store_bytes (take (Z.to_nat size) (to_le_bytes 8 source_value)) 0 virtual_address satp
        else
          r ← st_mmu (translate_store virtual_address satp);
          match r with
          | Err fault => mret (Err fault)
          | Ok pa =>
              st_notify pa;;
              st_bus (store_direct (funct3 raw) pa source_value);;
              mret (Ok tt)
          end);
      match r with
      | Err fault => trap_from_mmu fault
      | Ok _ => set_pc (wrapping_add64 pc 4);; retire
      end
  end.

(** Arms that compute a value and write [rd]. *)
Definition exec_value (raw pc : Z) (value : option Z) : ST (ExecContext B) StepResult :=
  match value with
  | None => illegal raw
  | Some v => write_reg (rd raw) v;; set_pc (wrapping_add64 pc 4);; retire
  end.

Definition exec_op_imm (raw pc : Z) : ST (ExecContext B) StepResult :=
  a ← read_reg (rs1 raw);
  exec_value raw pc (op_imm_value (funct3 raw) (funct7 raw) a (imm_i raw)).

Definition exec_op_imm32 (raw pc : Z) : ST (ExecContext B) StepResult :=
  a ← read_reg (rs1 raw);
  exec_value raw pc (op_imm32_value (funct3 raw) (funct7 raw) a (imm_i raw)).

Definition exec_op_reg (raw pc : Z) : ST (ExecContext B) StepResult :=
  a ← read_reg (rs1 raw);
  b ← read_reg (rs2 raw);
  exec_value raw pc (op_reg_value (funct3 raw) (funct7 raw) a b).

Definition exec_op_reg32 (raw pc : Z) : ST (ExecContext B) StepResult :=
  a ← read_reg (rs1 raw);
  b ← read_reg (rs2 raw);
  exec_value raw pc (op_reg32_value (funct3 raw) (funct7 raw) (rs2 raw) a b).

Definition exec_fence (raw pc : Z) : ST (ExecContext B) StepResult :=
  (if funct3 raw =? 0x1 then
     d ← on_bus drain_device_written_pages;
     mod_blocks (fun b => foldl (fun b page => notify_store (shl64 page 12) b) b d.1);;
     (if negb d.2 then mod_blocks flush_all else mret tt);;
     invalidate_fetch_cache
   else mret tt);;
  set_pc (wrapping_add64 pc 4);;
  retire.

(** *** Atomics *)

Definition exec_lr (raw pc pa : Z) : ST (ExecContext B) StepResult :=
  val ← (if funct3 raw =? 2 then
           v ← on_bus (read_word pa); mret (as_u64 (as_i32 v))
         else on_bus (read_doubleword pa));
  write_reg (rd raw) val;;
  modify (fun c => c <| lr_addr := Some pa |>);;
  set_pc (wrapping_add64 pc 4);;
  mret StepOk.

Definition exec_sc (raw pc pa src : Z) : ST (ExecContext B) StepResult :=
  reserved ← gets lr_addr;
  (if bool_decide (reserved = Some pa) then
     (if funct3 raw =? 2 then on_bus (write_word pa (as_u32 src))
      else on_bus (write_doubleword pa src));;
     write_reg (rd raw) 0
   else write_reg (rd raw) 1);;
  modify (fun c => c <| lr_addr := None |>);;
  set_pc (wrapping_add64 pc 4);;
  mret StepOk.

Definition exec_amo_rmw (raw pa src : Z) : ST (ExecContext B) StepResult :=
  let f5 := Z.shiftr (funct7 raw) 2 in
  let finish := 
    pc ← get_pc;
    set_pc (wrapping_add64 pc 4);;
    mret StepOk in
  if funct3 raw =? 2 then
    mem ← on_bus (read_word pa);
    match amo_w_op f5 mem src with
    | None => illegal raw
    | Some (rd_val, new_val) =>
        on_bus (write_word pa new_val);;
        write_reg (rd raw) rd_val;;
        finish
    end
  else
    mem ← on_bus (read_doubleword pa);
    match amo_d_op f5 mem src with
    | None => illegal raw
    | Some (rd_val, new_val) =>
        on_bus (write_doubleword pa new_val);;
        write_reg (rd raw) rd_val;;
        finish
    end.

Definition exec_amo (raw : Z) : ST (ExecContext B) StepResult :=
  satp ← gets ctx_satp;
  let f5 := Z.shiftr (funct7 raw) 2 in
  va ← read_reg (rs1 raw);
  src ← read_reg (rs2 raw);
  pc ← get_pc;
  r ← on_mmu (translate_store va satp);
  match r with
  | Err fault => trap_from_mmu fault
  | Ok pa =>
      mod_blocks (notify_store pa);;
      if f5 =? 0x02 then exec_lr raw pc pa
      else if f5 =? 0x03 then exec_sc raw pc pa src
      else exec_amo_rmw raw pa src
  end.

(** *** System instructions *)

Definition trace_syscall_entry (pc : Z) : ST (ExecContext B) unit :=
  satp ← gets ctx_satp;
  e ← decode_entry pc satp;
  match e with
  | Some entry => on_bus (on_syscall_entry entry satp)
  | None => mret tt
  end.

Definition trace_syscall_return : ST (ExecContext B) unit :=
  value ← read_reg 10;
  satp ← gets ctx_satp;
  task ← get_csr sscratch;
  epc ← get_csr sepc;
  on_bus (on_syscall_return task epc (as_i64 value) satp).

Definition ecall_cause (p : PrivMode) : TrapCause :=
  match p with PrivU => EcallFromUMode | PrivS => EcallFromSMode | PrivM => EcallFromMMode end.

Definition exec_ecall (pc : Z) : ST (ExecContext B) StepResult :=
  mode ← gets priv_mode;
  a7 ← read_reg 17;
  a6 ← read_reg 16;
  (if priv_eqb mode PrivS && is_shutdown_ecall a7 a6
   then modify (fun c => c <| shutdown_requested := true |>) else mret tt);;
  traced ← gets (fun c => syscall_trace_enabled (bus c));
  (if priv_eqb mode PrivU && traced then trace_syscall_entry pc else mret tt);;
  take_exception (mcause_code (ecall_cause mode)) 0;;
  mret StepOk.

Definition exec_sret : ST (ExecContext B) StepResult :=
  c ← st_get;
  let spp := Z.land (Z.shiftr (mstatus (csr c)) 8) 1 in
  modify (fun c => c <| csr := (sret_csrs (csr c)).1 |>
                     <| priv_mode := (sret_csrs (csr c)).2 |>);;
  traced ← gets (fun c => syscall_trace_enabled (bus c));
  (if (spp =? 0) && traced then trace_syscall_return else mret tt);;
  epc ← get_csr sepc;
  set_pc epc;;
  mret StepOk.

Definition exec_mret : ST (ExecContext B) StepResult :=
  modify (fun c => c <| csr := (mret_csrs (csr c)).1 |>
                     <| priv_mode := (mret_csrs (csr c)).2 |>);;
  epc ← get_csr mepc;
  set_pc epc;;
  mret StepOk.

Definition exec_csr (raw pc : Z) : ST (ExecContext B) StepResult :=
  let addr := Z.shiftr raw 20 in
  let f3 := funct3 raw in
  mode ← gets priv_mode;
  old ← get_csr (read_register addr mode);
  match old with
  | None => illegal raw
  | Some old =>
      rs1_val ← read_reg (rs1 raw);
      let uimm := rs1 raw in
      match csr_new_value f3 old rs1_val uimm with
      | None => illegal raw
      | Some new_val =>
          let finish :=
            write_reg (rd raw) old;;
            set_pc (wrapping_add64 pc 4);;
            mret StepOk in
          if csr_do_write f3 (rs1 raw) then
            c ← get_csr (write_register addr new_val mode);
            mod_csr (fun _ => c.1);;
            if negb c.2 then illegal raw
            else
              (if addr =? SATP then
                 modify (fun c => c <| mmu := mmu_flush (mmu c) |>);;
                 invalidate_fetch_cache
               else mret tt);;
              finish
          else finish
      end
  end.

Definition exec_system (raw : Z) : ST (ExecContext B) StepResult :=
  pc ← get_pc;
  if funct3 raw =? 0x0 then
    let f12 := Z.shiftr raw 20 in
    if f12 =? 0x000 then exec_ecall pc
    else if f12 =? 0x001 then
      take_exception (mcause_code Breakpoint) pc;;
      mret StepOk
    else if f12 =? 0x102 then exec_sret
    else if f12 =? 0x302 then exec_mret
    else if f12 =? 0x105 then
      modify (fun c => c <| is_waiting := true |>);;
      set_pc (wrapping_add64 pc 4);;
      mret StepOk
    else if Z.shiftr f12 5 =? 0x09 then
      modify (fun c => c <| mmu := mmu_flush (mmu c) |>);;
      invalidate_fetch_cache;;
      set_pc (wrapping_add64 pc 4);;
      mret StepOk
    else illegal raw
  else exec_csr raw pc.
End Exec.
