(* ===== verification/CsrProps.v ===== *)
(** Properties of the CSR file and of trap entry and return.

    The invariant [csr_wf] is kept by every write; writes through supervisor
    addresses stay within the supervisor's view; the interrupt that is selected
    is enabled, and the first in priority order; a trap followed by the matching
    return restores the interrupted context. *)
From S2P Require Import Prelude Words Decode Csr Execute.

(** ** The invariant *)

(** [UXL] and [SXL] are 2 and every other bit that software cannot write is 0. *)
Definition mstatus_ok (m : Z) : Prop :=
  is_u64 m ∧ Z.land m (not64 MSTATUS_WRITE_MASK) = Z.lor (Z.shiftl 2 32) (Z.shiftl 2 34).

Record csr_wf (c : Csr) : Prop := {
  wf_mstatus : mstatus_ok (mstatus c);
  wf_scalars : Forall is_u64
    [misa c; medeleg c; mideleg c; mie c; mtvec c; mcounteren c; mcountinhibit c; mscratch c;
     mepc c; mcause c; mtval c; mip c; menvcfg c; stvec c; scounteren c; senvcfg c; sscratch c;
     sepc c; scause c; stval c; satp c; hart_id c; cycle c; instret c; time c];
  wf_fcsr : is_u8 (fcsr c);
  wf_mepc : even (mepc c);
  wf_sepc : even (sepc c);
  wf_pmpcfg : length (pmpcfg c) = 16%nat ∧ Forall is_u64 (pmpcfg c);
  wf_pmpaddr : length (pmpaddr c) = 64%nat ∧ Forall is_u64 (pmpaddr c);
  wf_mhpmevent : length (mhpmevent c) = 29%nat ∧ Forall is_u64 (mhpmevent c)
}.

Lemma land_mask_disjoint k m : is_u64 k → Z.land k (not64 m) = 0 → Z.land (not64 k) (not64 m) = not64 m.
Proof.
  intros Hk H. apply (word_bits_inj 64); auto with vpod. intros i Hi.
  assert (B := f_equal (fun z => Z.testbit z i) H). cbn beta in B.
  rewrite Z.bits_0 in B. autorewrite with bits in *.
  by destruct (Z.testbit k i), (Z.testbit m i).
Qed.

(** Clearing and setting writable bits keeps the rest. *)
Lemma mstatus_clear k m :
  is_u64 k → Z.land k (not64 MSTATUS_WRITE_MASK) = 0 → mstatus_ok m → mstatus_ok (Z.land m (not64 k)).
Proof.
  intros Hk H [Hm E]. split; [auto with vpod|].
  by rewrite <- Z.land_assoc, land_mask_disjoint.
Qed.

Lemma mstatus_set v m :
  is_u64 v → Z.land v (not64 MSTATUS_WRITE_MASK) = 0 → mstatus_ok m → mstatus_ok (Z.lor m v).
Proof.
  intros Hv H [Hm E]. split; [auto with vpod|].
  by rewrite Z.land_lor_distr_l, H, Z.lor_0_r.
Qed.

Lemma land_submask v k m : Z.land k m = 0 → Z.land (Z.land v k) m = 0.
Proof. intros H. by rewrite <- Z.land_assoc, H, Z.land_0_r. Qed.

Lemma write_mstatus_ok v c : is_u64 v → mstatus_ok (mstatus c) → mstatus_ok (mstatus (write_mstatus v c)).
Proof.
  intros Hv [Hm E]. cbn. assert (W : is_u64 MSTATUS_WRITE_MASK) by done.
  split; [apply lor_word; [lia| |]; apply land_word; done || lia|].
  rewrite Z.land_lor_distr_l, (land_submask v) by reflexivity. rewrite Z.lor_0_r.
  assert (Z.lor MSTATUS_UXL MSTATUS_SXL
          = Z.land (not64 MSTATUS_WRITE_MASK) (Z.lor MSTATUS_UXL MSTATUS_SXL)) as -> by reflexivity.
  rewrite Z.land_assoc, E. reflexivity.
Qed.

Lemma csr_new_wf : csr_wf csr_new.
Proof.
  split; cbn -[replicate]; try done; try (split; [done | by apply Forall_replicate]).
  repeat constructor; done.
Qed.

Lemma masked_update_word v old mask :
  is_u64 v → is_u64 old → is_u64 (masked_update old v mask).
Proof. intros. unfold masked_update. apply lor_word; [lia| |].
  - auto with vpod.
  - apply is_word_bits; [lia | apply Z.land_nonneg; left; apply H |].
    intros i Hi. rewrite Z.land_spec, (testbit_high 64 v) by (done || lia). done.
Qed.

Lemma land_lt_mask v k w : 0 <= w → is_word w k → is_word w (Z.land v k).
Proof. intros. by apply land_word_r. Qed.

Lemma mstatus_masked v m k :
  is_u64 v → is_u64 k → Z.land k (not64 MSTATUS_WRITE_MASK) = 0 →
  mstatus_ok m → mstatus_ok (masked_update m v k).
Proof.
  intros. unfold masked_update. apply mstatus_set; auto using land_submask.
  - by apply land_word; [lia| |].
  - by apply mstatus_clear.
Qed.

Lemma fcsr_field_word c v m k :
  is_u8 c → is_u64 v → 0 <= m → is_u8 k → is_u8 (Z.lor (Z.land c (not64 m)) k).
Proof. intros. apply lor_word; [lia| |done]. apply land_word_l; [lia| |done]. apply not64_word. Qed.

#[export] Hint Resolve masked_update_word : vpod.

(** Split the invariant into facts about the fields. *)
Ltac split_scalars H :=
  repeat match type of H with
  | Forall _ (_ :: _) =>
      let W := fresh "W" in
      pose proof (Forall_inv H) as W; apply Forall_inv_tail in H
  end.

Ltac destruct_csr_wf H :=
  let Hs := fresh "Hs" in
  destruct H as [? Hs ? ? ? [? ?] [? ?] [? ?]]; split_scalars Hs.

(** Close [csr_wf] of an updated file from the facts of the old one. *)
Ltac solve_csr_wf :=
  split; cbn -[masked_update write_mstatus SSTATUS_MASK MSTATUS_WRITE_MASK];
  first [done | split; [by rewrite ?length_insert | by first [done | apply Forall_insert]]
        | repeat (apply Forall_cons_2; [solve [assumption | auto with vpod]|]); apply Forall_nil_2
        | auto with vpod].

Lemma csr_wf_if (b : bool) (r r' : Csr * bool) :
  csr_wf r.1 → csr_wf r'.1 → csr_wf (if b then r else r').1.
Proof. by destruct b. Qed.

Lemma write_register_wf a v p c : is_u64 v → csr_wf c → csr_wf (write_register a v p c).1.
Proof.
  intros Hv H. destruct_csr_wf H.
  assert (is_u64 (Z.land v 0xFFFFFFFF)) by (apply land_word; done || lia).
  assert (is_u64 (Z.land v (not64 1))) by auto with vpod.
  assert (mstatus_ok (mstatus (write_mstatus v c))) by by apply write_mstatus_ok.
  assert (mstatus_ok (masked_update (mstatus c) v (Z.land SSTATUS_MASK MSTATUS_WRITE_MASK)))
    by by apply mstatus_masked.
  assert (is_u8 (masked_update (fcsr c) v 0x1F)).
  { apply fcsr_field_word with v; try done. by apply land_word_r. }
  assert (is_u8 (Z.lor (Z.land (fcsr c) (not64 0xE0)) (shl64 (Z.land v 0x7) 5))).
  { apply fcsr_field_word with v; try done. unfold shl64, as_u64.
    pose proof (land_ones_range v 3 ltac:(lia)) as R. change (Z.ones 3) with 7 in R.
    rewrite Z.shiftl_mul_pow2, wrap_id by (unfold is_word; lia). unfold is_word. lia. }
  assert (is_u8 (Z.land v 0xFF)) by by apply land_word_r.
  unfold write_register. cbv zeta. repeat apply csr_wf_if; solve_csr_wf.
Qed.

(** ** Traps and returns keep the invariant *)

Lemma priv_bits_word p n : 0 <= n <= 11 → is_u64 (shl64 (priv_bits p) n).
Proof. intros. apply wrap_range. lia. Qed.

Lemma mstatus_bits_set m i j :
  is_u64 m → 0 <= i → 0 <= j < 64 →
  Z.land (shl64 (Z.shiftr (Z.land m (Z.shiftl 1 i)) i) j) (not64 (Z.shiftl 1 j)) = 0.
Proof.
  intros Hm Hi Hj. apply Z.bits_inj'. intros k Hk. rewrite Z.land_spec, Z.bits_0, not64_bits by lia.
  rewrite shl64_bits by lia. destruct (Z.ltb_spec k 64); cbn [andb]; [|done].
  rewrite testbit_one by lia. destruct (Z.eqb_spec k j) as [->|Hne]; [apply andb_false_r|].
  destruct (Z.lt_ge_cases k j).
  - rewrite Z.testbit_neg_r by lia. done.
  - rewrite Z.shiftr_spec, Z.land_spec, testbit_one by lia.
    destruct (Z.eqb_spec (k - j + i) i); [lia|]. by rewrite andb_false_r.
Qed.

Lemma land_zero_mono v k m : Z.land v (not64 k) = 0 → is_u64 v → Z.land k (not64 m) = 0 → Z.land v (not64 m) = 0.
Proof.
  intros H Hv Hk. apply (word_bits_inj 64); [lia| |done|].
  { apply land_word; auto with vpod. }
  intros i Hi. assert (B := f_equal (fun z => Z.testbit z i) H).
  assert (C := f_equal (fun z => Z.testbit z i) Hk). cbn beta in *.
  rewrite Z.bits_0 in *. autorewrite with bits in *.
  by destruct (Z.testbit v i), (Z.testbit k i), (Z.testbit m i).
Qed.

Lemma trap_csrs_s_wf cause tval pc p c :
  is_u64 cause → is_u64 tval → is_u64 pc → even pc → p ≠ PrivM →
  csr_wf c → csr_wf (trap_csrs_s cause tval pc p c).
Proof.
  intros Hc Ht Hp He Hp' H. destruct_csr_wf H.
  assert (mstatus_ok (mstatus (trap_csrs_s cause tval pc p c))).
  { destruct wf_mstatus0 as [Hm E] eqn:?. cbn -[shl64].
    assert (Hs' : Z.land (shl64 (Z.shiftr (Z.land (mstatus c) MSTATUS_SIE) 1) 5)
                    (not64 MSTATUS_SPIE) = 0) by (apply mstatus_bits_set; done || lia).
    apply mstatus_set; [apply wrap_range; lia | by destruct p |].
    apply mstatus_clear; [done..|]. apply mstatus_clear; [done..|].
    apply mstatus_set; [apply wrap_range; lia | |by apply mstatus_clear].
    eapply land_zero_mono; [exact Hs' | apply wrap_range; lia | done]. }
  solve_csr_wf.
Qed.

Lemma trap_csrs_m_wf cause tval pc p c :
  is_u64 cause → is_u64 tval → is_u64 pc → even pc →
  csr_wf c → csr_wf (trap_csrs_m cause tval pc p c).
Proof.
  intros Hc Ht Hp He H. destruct_csr_wf H.
  assert (mstatus_ok (mstatus (trap_csrs_m cause tval pc p c))).
  { destruct wf_mstatus0 as [Hm E] eqn:?. cbn -[shl64].
    assert (Hs' : Z.land (shl64 (Z.shiftr (Z.land (mstatus c) MSTATUS_MIE) 3) 7)
                    (not64 MSTATUS_MPIE) = 0) by (apply mstatus_bits_set; done || lia).
    apply mstatus_set; [apply wrap_range; lia | by destruct p |].
    apply mstatus_clear; [done..|]. apply mstatus_clear; [done..|].
    apply mstatus_set; [apply wrap_range; lia | |by apply mstatus_clear].
    eapply land_zero_mono; [exact Hs' | apply wrap_range; lia | done]. }
  solve_csr_wf.
Qed.

Lemma mstatus_wf_update m c : mstatus_ok m → csr_wf c → csr_wf (c <| mstatus := m |>).
Proof. intros Hm H. destruct_csr_wf H. solve_csr_wf. Qed.

Lemma sret_csrs_wf c : csr_wf c → csr_wf (sret_csrs c).1.
Proof.
  intros H. assert (M := wf_mstatus _ H).
  assert (mstatus_ok (mstatus (sret_csrs c).1)).
  { cbn -[Z.shiftr]. case_if; cbn; apply mstatus_set; try done;
      first [apply mstatus_set | apply mstatus_clear]; try done; by apply mstatus_clear. }
  unfold sret_csrs in *. cbn -[Z.shiftr] in *. case_if; by apply (mstatus_wf_update _ c).
Qed.

Lemma mret_csrs_wf c : csr_wf c → csr_wf (mret_csrs c).1.
Proof.
  intros H. assert (M := wf_mstatus _ H).
  assert (mstatus_ok (mstatus (mret_csrs c).1)).
  { cbn -[Z.shiftr]. case_if; cbn; apply mstatus_set; try done;
      first [apply mstatus_set | apply mstatus_clear]; try done; by apply mstatus_clear. }
  unfold mret_csrs in *. cbn -[Z.shiftr] in *. case_if; by apply (mstatus_wf_update _ c).
Qed.

(** ** Everything that changes the register file *)

Inductive csr_step : Csr -> Csr -> Prop :=
| step_write a v p c : is_u64 v → csr_step c (write_register a v p c).1
| step_trap_s cause tval pc p c :
    is_u64 cause → is_u64 tval → is_u64 pc → even pc → p ≠ PrivM →
    csr_step c (trap_csrs_s cause tval pc p c)
| step_trap_m cause tval pc p c :
    is_u64 cause → is_u64 tval → is_u64 pc → even pc →
    csr_step c (trap_csrs_m cause tval pc p c)
| step_sret c : csr_step c (sret_csrs c).1
| step_mret c : csr_step c (mret_csrs c).1
| step_retire n c : csr_step c (c <| instret := wrapping_add64 (instret c) n |>).

Lemma instret_wf v c : is_u64 v → csr_wf c → csr_wf (c <| instret := v |>).
Proof. intros Hv H. destruct_csr_wf H. solve_csr_wf. Qed.

Lemma csr_step_wf c c' : csr_step c c' → csr_wf c → csr_wf c'.
Proof.
  destruct 1; intros.
  - by apply write_register_wf.
  - by apply trap_csrs_s_wf.
  - by apply trap_csrs_m_wf.
  - by apply sret_csrs_wf.
  - by apply mret_csrs_wf.
  - apply instret_wf; [apply wrap_range; lia | done].
Qed.

(** From reset, through any sequence of CSR writes (at any address,
    value and privilege), traps taken at even program counters, [SRET], [MRET]
    and retirements, every register stays within its width, [UXL] and [SXL] read
    64-bit, no reserved [mstatus] bit is set, [mepc] and [sepc] are even and
    [fcsr] has eight bits. *)
Theorem csr_reachable_wf c : rtc csr_step csr_new c → csr_wf c.
Proof.
  intros H. assert (G : csr_wf csr_new → csr_wf c); [|exact (G csr_new_wf)].
  induction H as [c|c1 c2 c3 S R IH]; [done|]. intros Hw. apply IH. eauto using csr_step_wf.
Qed.

Lemma csr_reachable_wf_witness :
  csr_wf (trap_csrs_m 2 0 0x80000000 PrivS (write_register MSTATUS U64_MAX PrivM csr_new).1).
Proof.
  apply csr_reachable_wf. eapply rtc_l; [by apply (step_write MSTATUS U64_MAX PrivM)|].
  apply rtc_once. by apply step_trap_m.
Defined.

(** ** A trap followed by the matching return *)

Lemma spp_bits p i : p ≠ PrivM → 0 <= i < 64 → Z.testbit (shl64 (priv_bits p) 8) i
  = (i =? 8) && priv_eqb p PrivS.
Proof.
  intros Hp Hi. destruct p; [| |done].
  - rewrite andb_false_r. apply Z.bits_0.
  - rewrite andb_true_r. apply (testbit_one 8 i). lia.
Qed.

(** A saved enable bit moved from position [i] to [j]. *)
Lemma moved_bit m i j k :
  0 <= i → 0 <= j < 64 → 0 <= k < 64 →
  Z.testbit (shl64 (Z.shiftr (Z.land m (Z.shiftl 1 i)) i) j) k = (k =? j) && Z.testbit m i.
Proof.
  intros Hi Hj Hk. rewrite shl64_bits by lia.
  replace (k <? 64) with true by (symmetry; apply Z.ltb_lt; lia). cbn [andb].
  destruct (Z.lt_ge_cases k j).
  - rewrite Z.testbit_neg_r by lia. destruct (Z.eqb_spec k j); [lia | done].
  - rewrite Z.shiftr_spec, Z.land_spec, testbit_one by lia.
    destruct (Z.eqb_spec k j) as [->|Hne].
    + replace (j - j + i) with i by lia. by rewrite Z.eqb_refl, andb_true_r.
    + destruct (Z.eqb_spec (k - j + i) i); [lia|]. by rewrite andb_false_r.
Qed.

Lemma field1 m i : 0 <= i → Z.land (Z.shiftr m i) 1 = b2u (Z.testbit m i).
Proof.
  intros Hi. apply Z.bits_inj'. intros k Hk.
  rewrite Z.land_spec, Z.shiftr_spec by lia.
  change (Z.testbit 1 k) with (Z.testbit (Z.shiftl 1 0) k). rewrite testbit_one by lia.
  destruct (Z.eqb_spec k 0) as [->|].
  - rewrite andb_true_r, Z.add_0_l. by destruct (Z.testbit m i).
  - rewrite andb_false_r. destruct (Z.testbit m i); cbn [b2u]; [|by rewrite Z.bits_0].
    symmetry. change 1 with (Z.shiftl 1 0). rewrite testbit_one by lia. by apply Z.eqb_neq.
Qed.

Lemma bit_const b k : 0 <= k → Z.testbit (b2u b) k = (k =? 0) && b.
Proof.
  intros Hk. destruct b; cbn [b2u].
  - rewrite andb_true_r. apply (testbit_one 0 k). lia.
  - by rewrite andb_false_r, Z.bits_0.
Qed.

(** The bits of [mstatus] after entering a trap. *)
Lemma trap_s_mstatus_bits cause tval pc p c k :
  p ≠ PrivM → 0 <= k < 64 →
  Z.testbit (mstatus (trap_csrs_s cause tval pc p c)) k
  = if k =? 1 then false else if k =? 5 then Z.testbit (mstatus c) 1
    else if k =? 8 then priv_eqb p PrivS else Z.testbit (mstatus c) k.
Proof.
  intros Hp Hk. cbn -[shl64]. rewrite !Z.lor_spec, spp_bits, !Z.land_spec by done.
  rewrite !not64_testbit, !Z.lor_spec by lia. unfold MSTATUS_SIE, MSTATUS_SPIE, MSTATUS_SPP.
  rewrite moved_bit, Z.land_spec, not64_testbit by lia. rewrite !testbit_one by lia.
  destruct (Z.eqb_spec k 1), (Z.eqb_spec k 5), (Z.eqb_spec k 8); subst; try lia; cbn;
    by rewrite ?andb_false_r, ?andb_true_r, ?orb_false_r.
Qed.

Lemma trap_m_mstatus_bits cause tval pc p c k :
  0 <= k < 64 →
  Z.testbit (mstatus (trap_csrs_m cause tval pc p c)) k
  = if k =? 3 then false else if k =? 7 then Z.testbit (mstatus c) 3
    else if (k =? 11) || (k =? 12) then Z.testbit (priv_bits p) (k - 11)
    else Z.testbit (mstatus c) k.
Proof.
  intros Hk. cbn -[shl64]. rewrite !Z.lor_spec, !Z.land_spec.
  rewrite !not64_testbit, !Z.lor_spec by lia. unfold MSTATUS_MIE, MSTATUS_MPIE, MSTATUS_MPP.
  rewrite moved_bit, Z.land_spec, not64_testbit by lia.
  rewrite (shl64_bits (priv_bits p)) by lia. replace (k <? 64) with true by (symmetry; lia).
  rewrite !testbit_one, testbit_three by lia.
  change (11 + 1) with 12.
  destruct (Z.eqb_spec k 3), (Z.eqb_spec k 7), (Z.eqb_spec k 11), (Z.eqb_spec k 12);
    subst; try lia; cbn [andb orb negb]; rewrite ?andb_false_r, ?andb_true_r, ?orb_false_r;
    try (by destruct p); try done.
  - destruct (Z.lt_ge_cases k 11); [by rewrite (Z.testbit_neg_r _ (k - 11)), orb_false_r by lia|].
    rewrite (testbit_high 2 (priv_bits p)) by first [lia | by destruct p]. by rewrite orb_false_r.
Qed.

(** The bits of [mstatus] after a return. *)
Lemma sret_mstatus_bits c k :
  0 <= k < 64 →
  Z.testbit (mstatus (sret_csrs c).1) k
  = if k =? 5 then true else if k =? 8 then false
    else if k =? 1 then Z.testbit (mstatus c) 5 else Z.testbit (mstatus c) k.
Proof.
  intros Hk. cbn -[Z.shiftr Z.testbit]. rewrite field1 by lia.
  unfold MSTATUS_SIE, MSTATUS_SPIE, MSTATUS_SPP.
  destruct (Z.testbit (mstatus c) 5); cbn -[Z.testbit Z.shiftl];
    autorewrite with bits;
    destruct (Z.eqb_spec k 1), (Z.eqb_spec k 5), (Z.eqb_spec k 8); subst; try lia;
    cbn [andb orb negb]; by rewrite ?andb_false_r, ?andb_true_r, ?orb_false_r, ?orb_true_r.
Qed.

Lemma mret_mstatus_bits c k :
  0 <= k < 64 →
  Z.testbit (mstatus (mret_csrs c).1) k
  = if k =? 7 then true else if (k =? 11) || (k =? 12) then false
    else if k =? 3 then Z.testbit (mstatus c) 7 else Z.testbit (mstatus c) k.
Proof.
  intros Hk. cbn -[Z.shiftr Z.testbit]. rewrite field1 by lia.
  unfold MSTATUS_MIE, MSTATUS_MPIE, MSTATUS_MPP.
  destruct (Z.testbit (mstatus c) 7); cbn -[Z.testbit Z.shiftl];
    autorewrite with bits; change (11 + 1) with 12;
    destruct (Z.eqb_spec k 3), (Z.eqb_spec k 7), (Z.eqb_spec k 11), (Z.eqb_spec k 12);
    subst; try lia; cbn [andb orb negb];
    by rewrite ?andb_false_r, ?andb_true_r, ?orb_false_r, ?orb_true_r.
Qed.

(** The returned-to mode is the one saved in the previous-privilege field. *)
Lemma from_bits_spp p : p ≠ PrivM → from_bits (b2u (priv_eqb p PrivS)) = p.
Proof. by destruct p. Qed.

Lemma field2 m i v :
  0 <= i → 0 <= v < 4 → (∀ k, 0 <= k < 2 → Z.testbit m (k + i) = Z.testbit v k) →
  Z.land (Z.shiftr m i) 3 = v.
Proof.
  intros Hi Hv H. apply (word_bits_inj 2); [lia| | |].
  - apply land_word_r; [lia | done].
  - unfold is_word. lia.
  - intros k Hk. rewrite Z.land_spec, Z.shiftr_spec, H by lia.
    change 3 with (Z.ones 2). rewrite Z.ones_spec_low by lia. apply andb_true_r.
Qed.

(** Bit [k] of [mstatus] when the interrupted program runs again, by the
    privileged architecture: as before, but [SPIE] set and [SPP] user, or [MPIE]
    set and [MPP] user. *)
Definition resumed_s_bit (before k : Z) : bool :=
  if k =? 5 then true else if k =? 8 then false else Z.testbit before k.
Definition resumed_m_bit (before k : Z) : bool :=
  if k =? 7 then true else if (k =? 11) || (k =? 12) then false else Z.testbit before k.

(** Taking a trap to supervisor mode and executing [SRET] returns to
    the mode that was interrupted, with [sepc] the interrupted pc, and restores
    every [mstatus] bit except the previous-state fields themselves, which are
    left as the architecture requires ([SPIE] set, [SPP] user). *)
Theorem sret_undoes_trap cause tval pc p c :
  p ≠ PrivM →
  let t := trap_csrs_s cause tval pc p c in
  (sret_csrs t).2 = p ∧ sepc (sret_csrs t).1 = pc ∧
  ∀ k, 0 <= k < 64 →
    Z.testbit (mstatus (sret_csrs t).1) k = resumed_s_bit (mstatus c) k.
Proof.
  intros Hp t. repeat split.
  - subst t. unfold sret_csrs. cbn [snd]. rewrite field1, trap_s_mstatus_bits by (done || lia).
    cbn [Z.eqb]. by apply from_bits_spp.
  - unfold sret_csrs. cbn -[Z.shiftr]. by case_if.
  - intros k Hk. rewrite sret_mstatus_bits by done. subst t. unfold resumed_s_bit.
    rewrite !trap_s_mstatus_bits by (done || lia).
    destruct (Z.eqb_spec k 5), (Z.eqb_spec k 8), (Z.eqb_spec k 1); subst; done || lia.
Qed.

Lemma sret_undoes_trap_witness :
  let t := trap_csrs_s 8 0 0x1000 PrivU csr_new in (sret_csrs t).2 = PrivU ∧ sepc (sret_csrs t).1 = 0x1000.
Proof.
  intros t. destruct (sret_undoes_trap 8 0 0x1000 PrivU csr_new ltac:(done)) as (H & H' & _).
  exact (conj H H').
Defined.

(** The same for a trap to machine mode and [MRET], from any mode. *)
Theorem mret_undoes_trap cause tval pc p c :
  let t := trap_csrs_m cause tval pc p c in
  (mret_csrs t).2 = p ∧ mepc (mret_csrs t).1 = pc ∧
  ∀ k, 0 <= k < 64 →
    Z.testbit (mstatus (mret_csrs t).1) k = resumed_m_bit (mstatus c) k.
Proof.
  intros t. repeat split.
  - subst t. unfold mret_csrs. cbn [snd].
    rewrite (field2 _ 11 (priv_bits p)); [by destruct p | lia | by destruct p |].
    intros k Hk. rewrite trap_m_mstatus_bits by lia.
    assert (k = 0 ∨ k = 1) as [-> | ->] by lia; done.
  - unfold mret_csrs. cbn -[Z.shiftr]. by case_if.
  - intros k Hk. rewrite mret_mstatus_bits by done. subst t. unfold resumed_m_bit. rewrite !trap_m_mstatus_bits by lia.
    destruct (Z.eqb_spec k 7), (Z.eqb_spec k 11), (Z.eqb_spec k 12), (Z.eqb_spec k 3);
      subst; done || lia.
Qed.

(** ** Supervisor addresses *)

(** [c'] differs from [c] only within the supervisor's view. *)
Record supervisor_only (c c' : Csr) : Prop := {
  so_machine : (misa c', medeleg c', mideleg c', mtvec c', mcounteren c', mcountinhibit c',
                mscratch c', mepc c', mcause c', mtval c', menvcfg c', pmpcfg c', pmpaddr c',
                hart_id c')
             = (misa c, medeleg c, mideleg c, mtvec c, mcounteren c, mcountinhibit c,
                mscratch c, mepc c, mcause c, mtval c, menvcfg c, pmpcfg c, pmpaddr c,
                hart_id c);
  so_mstatus : ∀ k, 0 <= k < 64 → Z.testbit SSTATUS_MASK k = false →
               Z.testbit (mstatus c') k = Z.testbit (mstatus c) k;
  so_mie : ∀ k, 0 <= k < 64 → Z.testbit (mideleg c) k = false →
           Z.testbit (mie c') k = Z.testbit (mie c) k;
  so_mip : ∀ k, 0 <= k < 64 → Z.testbit (mideleg c) k && (k =? 1) = false →
           Z.testbit (mip c') k = Z.testbit (mip c) k
}.

Lemma if_both {A} (P : A -> Prop) (b : bool) (t e : A) :
  (b = true → P t) → (b = false → P e) → P (if b then t else e).
Proof. destruct b; auto. Qed.

Lemma eqb_out a k : a ≠ k → (a =? k) = false.
Proof. apply Z.eqb_neq. Qed.

Lemma in_range_out lo hi a : a < lo ∨ hi < a → in_range lo hi a = false.
Proof. unfold in_range. intros. apply andb_false_iff. rewrite !Z.leb_gt. lia. Qed.

(** What is left of [write_register] in the supervisor's range. *)
(** Rule out one address of the chain. *)
Ltac out a k := rewrite (eqb_out a k) by (unfold k; lia).

Lemma supervisor_write_cases a v p c :
  0x100 <= a < 0x200 →
  write_register a v p c =
  if a =? SSTATUS then
    (c <| mstatus := masked_update (mstatus c) v (Z.land SSTATUS_MASK MSTATUS_WRITE_MASK) |>, true)
  else if a =? SIE then (c <| mie := masked_update (mie c) v (mideleg c) |>, true)
  else if a =? STVEC then (c <| stvec := v |>, true)
  else if a =? SCOUNTEREN then (c <| scounteren := Z.land v 0xFFFFFFFF |>, true)
  else if a =? SENVCFG then (c <| senvcfg := v |>, true)
  else if a =? SSCRATCH then (c <| sscratch := v |>, true)
  else if a =? SEPC then (c <| sepc := Z.land v (not64 1) |>, true)
  else if a =? SCAUSE then (c <| scause := v |>, true)
  else if a =? STVAL then (c <| stval := v |>, true)
  else if a =? SIP then
    (c <| mip := masked_update (mip c) v (Z.land (mideleg c) SIP_WRITABLE) |>, true)
  else if a =? SATP then
    (if tvm_blocks c p then (c, false) else (c <| satp := v |>, true))
  else (c, false).
Proof.
  intros Ha. unfold write_register. cbv zeta.
  out a MSTATUS. out a MISA. out a MEDELEG. out a MIDELEG. out a MIE. out a MTVEC.
  out a MCOUNTEREN. out a MCOUNTINHIBIT. out a MENVCFG. out a MSCRATCH. out a MEPC.
  out a MCAUSE. out a MTVAL. out a MIP. out a MCYCLE. out a MINSTRET. out a CYCLE.
  out a INSTRET. out a TIME. out a MVENDORID. out a MARCHID. out a MIMPID. out a MHARTID.
  out a MCONFIGPTR. rewrite !in_range_out by lia.
  rewrite (eqb_out a 0x001), (eqb_out a 0x002), (eqb_out a 0x003), (eqb_out a 0xDA0),
    (eqb_out a 0x747) by lia. reflexivity.
Qed.

(** A write at a supervisor CSR address changes no machine-level
    register, no [mstatus] bit outside [sstatus], no [mie] bit that is not
    delegated and no [mip] bit but a delegated software interrupt. *)
Theorem supervisor_writes_confined a v p c :
  0x100 <= a < 0x200 → supervisor_only c (write_register a v p c).1.
Proof.
  intros Ha. rewrite supervisor_write_cases by done.
  repeat match goal with
  | |- supervisor_only _ (if _ then _ else _).1 =>
      apply (if_both (fun r => supervisor_only c r.1)); intros _
  end; split; try done; intros k Hk Hb; cbn -[Z.testbit masked_update Z.land SSTATUS_MASK];
  unfold masked_update; rewrite masked_bits by done.
  - by rewrite Z.land_spec, Hb.
  - by rewrite Hb.
  - unfold SIP_WRITABLE, MIP_SSIP. rewrite Z.land_spec, testbit_one by lia. by rewrite Hb.
Qed.

Lemma supervisor_writes_confined_witness :
  supervisor_only csr_new (write_register SSTATUS U64_MAX PrivS csr_new).1.
Proof. apply supervisor_writes_confined. vm_compute. split; discriminate || reflexivity. Defined.

(** ** Reading back *)

(** The writable bits of the registers that hold what was written. *)
Definition warl_mask (a : Z) : option Z :=
  if bool_decide (a ∈ [MEDELEG; MIDELEG; MIE; MTVEC; MENVCFG; MSCRATCH; MCAUSE; MTVAL; STVEC;
                       SENVCFG; SSCRATCH; SCAUSE; STVAL; MCYCLE; MINSTRET]) then Some U64_MAX
  else if bool_decide (a ∈ [MCOUNTEREN; MCOUNTINHIBIT; SCOUNTEREN]) then Some 0xFFFFFFFF
  else if bool_decide (a ∈ [MEPC; SEPC]) then Some (not64 1)
  else if a =? 0x003 then Some 0xFF
  else if a =? 0x001 then Some 0x1F
  else if a =? 0x002 then Some 0x7
  else None.

Lemma word_land_max v : is_u64 v → Z.land v U64_MAX = v.
Proof.
  intros H. change U64_MAX with (Z.ones 64). rewrite Z.land_ones by lia. by apply wrap_id.
Qed.

Lemma fcsr_low_field c v : Z.land (masked_update c v 0x1F) 0x1F = Z.land v 0x1F.
Proof.
  apply (word_bits_inj 64); [lia | apply land_word_r; done || lia..|].
  intros i Hi. rewrite !Z.land_spec. unfold masked_update. rewrite masked_bits by lia.
  by destruct (Z.testbit 0x1F i); rewrite ?andb_false_r.
Qed.

Lemma fcsr_rm_field c v :
  Z.land (Z.shiftr (Z.lor (Z.land c (not64 0xE0)) (shl64 (Z.land v 0x7) 5)) 5) 0x7 = Z.land v 0x7.
Proof.
  apply (word_bits_inj 3); [lia | apply land_word_r; done || lia..|].
  intros i Hi. rewrite !Z.land_spec, Z.shiftr_spec by lia. autorewrite with bits.
  replace (i + 5 <? 64) with true by (symmetry; lia). replace (i + 5 - 5) with i by lia.
  assert (Z.testbit 0xE0 (i + 5) = true ∧ Z.testbit 0x7 i = true) as [-> ->]
    by (assert (i = 0 ∨ i = 1 ∨ i = 2) as [-> | [-> | ->]] by lia; done).
  by rewrite !andb_false_r, !andb_true_r.
Qed.

(** For the registers that keep what software writes, reading after an
    accepted write gives the written value restricted to the implemented bits,
    whatever the state was. *)
Theorem csr_write_read a v p c mask :
  is_u64 v → warl_mask a = Some mask →
  read_register a p (write_register a v p c).1 = Some (Z.land v mask).
Proof.
  intros Hv. unfold warl_mask.
  repeat case_bool_decide; [| | |destruct (Z.eqb_spec a 3) as [->|]; [|
    destruct (Z.eqb_spec a 1) as [->|]; [|destruct (Z.eqb_spec a 2) as [->|]; [|done]]]];
  intros [= <-].
  - rewrite word_land_max by done. decompose_list_elem_of; subst; reflexivity.
  - decompose_list_elem_of; subst; reflexivity.
  - decompose_list_elem_of; subst; reflexivity.
  - change (Some (Z.land (Z.land v 0xFF) 0xFF) = Some (Z.land v 0xFF)).
    by rewrite <- Z.land_assoc, Z.land_diag.
  - change (Some (Z.land (masked_update (fcsr c) v 0x1F) 0x1F) = Some (Z.land v 0x1F)).
    by rewrite fcsr_low_field.
  - change (Some (Z.land (Z.shiftr (Z.lor (Z.land (fcsr c) (not64 0xE0))
      (shl64 (Z.land v 0x7) 5)) 5) 0x7) = Some (Z.land v 0x7)). by rewrite fcsr_rm_field.
Qed.

Lemma csr_write_read_witness :
  read_register MEPC PrivM (write_register MEPC 0x80000003 PrivM csr_new).1
  = Some (Z.land 0x80000003 (not64 1)).
Proof. apply csr_write_read; [by vm_compute | reflexivity]. Defined.

(** ** Interrupt selection *)

(** Interrupt [i] is pending, enabled, and not masked in the current mode. *)
Definition interrupt_enabled (p : PrivMode) (c : Csr) (i : Z) : bool :=
  Z.testbit (mip c) i && Z.testbit (mie c) i &&
  (if Z.testbit (mideleg c) i
   then priv_eqb p PrivU || priv_eqb p PrivS && Z.testbit (mstatus c) 1
   else negb (priv_eqb p PrivM) || Z.testbit (mstatus c) 3).

(** The architectural order: MEI, MSI, MTI, SEI, SSI, STI, then the rest from
    the highest number down. *)
Definition irq_rank (i : Z) : Z :=
  if i =? 11 then 0 else if i =? 3 then 1 else if i =? 7 then 2 else if i =? 9 then 3
  else if i =? 1 then 4 else if i =? 5 then 5 else 6 + (63 - i).

Lemma word_zero_bits v : is_u64 v → (∀ i, 0 <= i < 64 → Z.testbit v i = false) → v = 0.
Proof.
  intros Hv H. apply (word_bits_inj 64); [lia | done | done|]. intros i Hi.
  by rewrite H, Z.bits_0.
Qed.

Lemma highest_bit v : is_u64 v → v ≠ 0 →
  0 <= 63 - leading_zeros 64 v < 64 ∧ Z.testbit v (63 - leading_zeros 64 v) = true ∧
  ∀ j, 0 <= j < 64 → Z.testbit v j = true → j <= 63 - leading_zeros 64 v.
Proof.
  intros Hv Hz. unfold leading_zeros. rewrite (proj2 (Z.eqb_neq v 0) Hz).
  replace (63 - (64 - 1 - Z.log2 v)) with (Z.log2 v) by lia. unfold is_word in Hv.
  assert (Hp : 0 < v) by lia. repeat split.
  - apply Z.log2_nonneg.
  - apply Z.log2_lt_pow2; lia.
  - by apply Z.bit_log2.
  - intros j Hj Hb. destruct (Z.le_gt_cases j (Z.log2 v)) as [|Hgt]; [done|].
    rewrite Z.bits_above_log2 in Hb by lia. done.
Qed.

Lemma highest_priority_spec v : is_u64 v → v ≠ 0 →
  let i := highest_priority_interrupt_bit v in
  0 <= i < 64 ∧ Z.testbit v i = true ∧
  ∀ j, 0 <= j < 64 → Z.testbit v j = true → irq_rank i <= irq_rank j.
Proof.
  intros Hv Hz. unfold highest_priority_interrupt_bit, first_set_bit.
  rewrite !land_bit_test by lia.
  destruct (Z.testbit v 11) eqn:B11; [|destruct (Z.testbit v 3) eqn:B3; [|
  destruct (Z.testbit v 7) eqn:B7; [|destruct (Z.testbit v 9) eqn:B9; [|
  destruct (Z.testbit v 1) eqn:B1; [|destruct (Z.testbit v 5) eqn:B5]]]]]; cbn zeta.
  7: { destruct (highest_bit v Hv Hz) as (Hr & Hb & Hmax). split; [done|]. split; [done|].
       intros j Hj Hbj. specialize (Hmax j Hj Hbj). unfold irq_rank.
       repeat (case_if; bools; subst; try congruence). lia. }
  all: split; [lia|]; split; [done|]; intros j Hj Hbj; unfold irq_rank; cbn [Z.eqb Pos.eqb];
    repeat (case_if; bools; subst; try congruence); lia.
Qed.

Lemma pending_bits c i : 0 <= i → Z.testbit (Z.land (mip c) (mie c)) i = Z.testbit (mip c) i && Z.testbit (mie c) i.
Proof. intros. apply Z.land_spec. Qed.

(** The two enable tests of [pending_interrupt_slow]. *)
Definition m_enabled (p : PrivMode) (c : Csr) : bool := negb (priv_eqb p PrivM) || Z.testbit (mstatus c) 3.
Definition s_enabled (p : PrivMode) (c : Csr) : bool :=
  priv_eqb p PrivU || priv_eqb p PrivS && Z.testbit (mstatus c) 1.

Lemma pending_interrupt_cases p c :
  let m := Z.land (Z.land (mip c) (mie c)) (not64 (mideleg c)) in
  let s := Z.land (Z.land (mip c) (mie c)) (mideleg c) in
  pending_interrupt p c
  = if negb (m =? 0) && m_enabled p c then Some (highest_priority_interrupt_bit m)
    else if negb (s =? 0) && s_enabled p c then Some (highest_priority_interrupt_bit s)
    else None.
Proof.
  intros m s. subst m s. unfold pending_interrupt, pending_interrupt_slow, m_enabled, s_enabled.
  unfold MSTATUS_MIE, MSTATUS_SIE. rewrite !land_bit_test by lia.
  destruct (Z.eqb_spec (Z.land (mip c) (mie c)) 0) as [->|]; [|done].
  by rewrite !Z.land_0_l.
Qed.

Lemma enabled_bit p c i :
  0 <= i < 64 →
  interrupt_enabled p c i
  = if Z.testbit (mideleg c) i
    then Z.testbit (Z.land (Z.land (mip c) (mie c)) (mideleg c)) i && s_enabled p c
    else Z.testbit (Z.land (Z.land (mip c) (mie c)) (not64 (mideleg c))) i && m_enabled p c.
Proof.
  intros Hi. unfold interrupt_enabled, s_enabled, m_enabled. rewrite !Z.land_spec, not64_testbit by done.
  by destruct (Z.testbit (mideleg c) i); cbn [negb]; rewrite andb_true_r.
Qed.

(** C28: [pending_interrupt] returns an interrupt exactly when one is pending,
    enabled and unmasked; the one it returns goes to machine mode if any does,
    and among those of its level it is the first in the architectural order. *)
Theorem pending_interrupt_correct p c :
  csr_wf c →
  match pending_interrupt p c with
  | Some i =>
      0 <= i < 64 ∧ interrupt_enabled p c i = true ∧
      ∀ j, 0 <= j < 64 → interrupt_enabled p c j = true →
        (Z.testbit (mideleg c) i = true → Z.testbit (mideleg c) j = true) ∧
        (Z.testbit (mideleg c) i = Z.testbit (mideleg c) j → irq_rank i <= irq_rank j)
  | None => ∀ j, 0 <= j < 64 → interrupt_enabled p c j = false
  end.
Proof.
  intros H. destruct_csr_wf H. rewrite pending_interrupt_cases. cbv zeta.
  set (m := Z.land (Z.land (mip c) (mie c)) (not64 (mideleg c))).
  set (s := Z.land (Z.land (mip c) (mie c)) (mideleg c)).
  assert (Wm : is_u64 m) by (subst m; auto with vpod).
  assert (Ws : is_u64 s) by (subst s; auto with vpod).
  assert (Hm : ∀ j, 0 <= j < 64 → Z.testbit m j = true → Z.testbit (mideleg c) j = false).
  { intros j Hj. subst m. rewrite Z.land_spec, not64_testbit by done.
    intros [_ ?]%andb_true_iff. by apply negb_true_iff. }
  assert (Hs' : ∀ j, 0 <= j < 64 → Z.testbit s j = true → Z.testbit (mideleg c) j = true).
  { intros j Hj. subst s. rewrite Z.land_spec. by intros [_ ?]%andb_true_iff. }
  destruct (negb (m =? 0) && m_enabled p c) eqn:Em; [|destruct (negb (s =? 0) && s_enabled p c) eqn:Es].
  - bools. destruct (highest_priority_spec m Wm ltac:(done)) as (Hr & Hb & Hmin).
    split; [done|]. rewrite enabled_bit, (Hm _ Hr Hb) by done. fold m s. split; [by apply andb_true_iff|].
    intros j Hj. rewrite enabled_bit by done. fold m s. intros Hen. split; [done|].
    intros Hd. rewrite <- Hd in Hen. apply andb_true_iff in Hen as [? _]. by apply Hmin.
  - bools. destruct (highest_priority_spec s Ws ltac:(done)) as (Hr & Hb & Hmin).
    split; [done|]. rewrite enabled_bit, (Hs' _ Hr Hb) by done. fold m s. split; [by apply andb_true_iff|].
    intros j Hj. rewrite enabled_bit by done. fold m s. destruct (Z.testbit (mideleg c) j) eqn:Dj.
    + intros [? _]%andb_true_iff. auto.
    + intros [Hbj Hme]%andb_true_iff. exfalso. rewrite Hme, andb_true_r in Em. bools.
      rewrite Em, Z.bits_0 in Hbj. done.
  - intros j Hj. rewrite enabled_bit by done. fold m s.
    destruct (Z.testbit (mideleg c) j).
    + destruct (Z.eqb_spec s 0) as [->|]; [by rewrite Z.bits_0|]. cbn [negb andb] in Es.
      by rewrite Es, andb_false_r.
    + destruct (Z.eqb_spec m 0) as [->|]; [by rewrite Z.bits_0|]. cbn [negb andb] in Em.
      by rewrite Em, andb_false_r.
Qed.

Lemma pending_interrupt_correct_witness :
  let c := csr_new <| mip := 0x880 |> <| mie := 0xFFF |> in
  pending_interrupt PrivU c = Some 11 ∧ interrupt_enabled PrivU c 11 = true.
Proof.
  intros c.
  assert (W : csr_wf c) by
    (apply (csr_step_wf (csr_new <| mip := 0x880 |>)
              (write_register MIE 0xFFF PrivM (csr_new <| mip := 0x880 |>)).1);
     [by apply step_write | assert (H := csr_new_wf); destruct_csr_wf H; solve_csr_wf]).
  pose proof (pending_interrupt_correct PrivU c W) as H.
  assert (E : pending_interrupt PrivU c = Some 11) by reflexivity.
  rewrite E in H. exact (conj E (proj1 (proj2 H))).
Defined.

(** ** Values read are words *)

Definition opt_word (o : option Z) : Prop := ∀ v, o = Some v → is_u64 v.

Lemma opt_word_if (b : bool) (o o' : option Z) : opt_word o → opt_word o' → opt_word (if b then o else o').
Proof. by destruct b. Qed.
Lemma opt_word_some v : is_u64 v → opt_word (Some v).
Proof. by intros ? ? [= <-]. Qed.
Lemma opt_word_none : opt_word None.
Proof. done. Qed.

Lemma list_word (l : list Z) i : Forall is_u64 l → is_u64 (l !!! i).
Proof.
  intros H. rewrite list_lookup_total_alt. destruct (l !! i) eqn:E; [|done].
  exact (Forall_lookup_1 _ _ _ _ H E).
Qed.

Lemma read_mstatus_word c : is_u64 (mstatus c) → is_u64 (read_mstatus c).
Proof. intros H. unfold read_mstatus. cbv zeta. case_if; auto with vpod. by apply lor_word. Qed.

Lemma read_register_word a p c : csr_wf c → opt_word (read_register a p c).
Proof.
  intros H. destruct_csr_wf H. assert (M := proj1 wf_mstatus0).
  assert (is_u64 (read_mstatus c)) by by apply read_mstatus_word.
  assert (F : is_u64 (fcsr c)) by (by apply (is_word_mono 8); [lia|]).
  assert (is_u64 (Z.land (read_mstatus c) SSTATUS_MASK)) by (apply land_word; done || lia).
  assert (is_u64 (Z.land (fcsr c) 0x1F)) by (apply land_word; done || lia).
  assert (is_u64 (Z.land (fcsr c) 0xFF)) by (apply land_word; done || lia).
  assert (is_u64 (Z.land (Z.shiftr (fcsr c) 5) 0x7)) by (apply land_word_r; done || lia).
  unfold read_register. cbv zeta.
  repeat apply opt_word_if; try apply opt_word_none; apply opt_word_some; auto using list_word with vpod;
    done.
Qed.
