(* ===== verification/ExecuteFp.v ===== *)
(** Floating-point instructions ([riscv-core/src/execute.rs]: [load_fp],
    [store_fp], [op_fp], [fma] and their helpers). *)
From S2P Require Import Prelude Words Trap Gpr Decode Csr SystemBus Mmu BlockCache Context Float.
From S2P Require Import Execute.

Definition resolve_rm (inst_rm fcsr : Z) : Z :=
  if inst_rm =? 7 then as_u32 (Z.land (Z.shiftr fcsr 5) 0x7) else inst_rm.

Section RoundToInt.
Context {FE : FloatEnv}.

(** [round_f32_to_int] and [round_f64_to_int] have the same body. *)
Definition round_to_int (fmt : FloatFormat) (float rm : Z) : Z :=
  if (rm =? 0) || (rm =? 4) then f_round_ties_even fmt float
  else if rm =? 1 then f_trunc fmt float
  else if rm =? 2 then f_floor fmt float
  else if rm =? 3 then f_ceil fmt float
  else f_round_ties_even fmt float.

Definition round_f64_to_int : Z -> Z -> Z := round_to_int binary64.
Definition round_f32_to_int : Z -> Z -> Z := round_to_int binary32.

(** The integer a conversion writes to [rd], by the [rs2] field. *)
Definition fcvt_to_int (fmt : FloatFormat) (rs2_field rounded : Z) : option Z :=
  if rs2_field =? 0 then Some (as_u64 (f_to_int fmt (- 2 ^ 31) (2 ^ 31 - 1) rounded))
  else if rs2_field =? 1 then Some (f_to_int fmt 0 (2 ^ 32 - 1) rounded)
  else if rs2_field =? 2 then Some (as_u64 (f_to_int fmt (- 2 ^ 63) (2 ^ 63 - 1) rounded))
  else if rs2_field =? 3 then Some (f_to_int fmt 0 (2 ^ 64 - 1) rounded)
  else None.

Definition fcvt_from_int (fmt : FloatFormat) (rs2_field val : Z) : option Z :=
  if rs2_field =? 0 then Some (f_of_int fmt (as_i32 val))
  else if rs2_field =? 1 then Some (f_of_int fmt (as_u32 val))
  else if rs2_field =? 2 then Some (f_of_int fmt (as_i64 val))
  else if rs2_field =? 3 then Some (f_of_int fmt val)
  else None.

Definition fminmax (fmt : FloatFormat) (f3 a b : Z) : option Z :=
  if f3 =? 0x0 then Some (f_min fmt a b)
  else if f3 =? 0x1 then Some (f_max fmt a b)
  else None.
End RoundToInt.

Definition fcompare (fmt : FloatFormat) (f3 a b : Z) : option Z :=
  if f3 =? 0x2 then Some (b2u (f_eq fmt a b))
  else if f3 =? 0x1 then Some (b2u (f_lt fmt a b))
  else if f3 =? 0x0 then Some (b2u (f_le fmt a b))
  else None.

Definition fclass_s (bits : Z) : Z :=
  let sign := Z.land (Z.shiftr bits 31) 1 in
  let exp := Z.land (Z.shiftr bits 23) 0xFF in
  let frac := Z.land bits 0x7FFFFF in
  if (exp =? 0) && (frac =? 0) then (if sign =? 1 then Z.shiftl 1 3 else Z.shiftl 1 4)
  else if exp =? 0 then (if sign =? 1 then Z.shiftl 1 2 else Z.shiftl 1 5)
  else if (exp =? 0xFF) && (frac =? 0) then (if sign =? 1 then Z.shiftl 1 0 else Z.shiftl 1 7)
  else if (exp =? 0xFF) && negb (Z.land frac (Z.shiftl 1 22) =? 0) then Z.shiftl 1 9
  else if exp =? 0xFF then Z.shiftl 1 8
  else (if sign =? 1 then Z.shiftl 1 1 else Z.shiftl 1 6).

Definition fclass_d (bits : Z) : Z :=
  let sign := Z.land (Z.shiftr bits 63) 1 in
  let exp := Z.land (Z.shiftr bits 52) 0x7FF in
  let frac := Z.land bits 0x000FFFFFFFFFFFFF in
  if (exp =? 0) && (frac =? 0) then (if sign =? 1 then Z.shiftl 1 3 else Z.shiftl 1 4)
  else if exp =? 0 then (if sign =? 1 then Z.shiftl 1 2 else Z.shiftl 1 5)
  else if (exp =? 0x7FF) && (frac =? 0) then (if sign =? 1 then Z.shiftl 1 0 else Z.shiftl 1 7)
  else if (exp =? 0x7FF) && negb (Z.land frac (Z.shiftl 1 51) =? 0) then Z.shiftl 1 9
  else if exp =? 0x7FF then Z.shiftl 1 8
  else (if sign =? 1 then Z.shiftl 1 1 else Z.shiftl 1 6).

Definition fsgnj_s (f3 a b : Z) : option Z :=
  if f3 =? 0x0 then Some (Z.lor (Z.land a 0x7FFFFFFF) (Z.land b 0x80000000))
  else if f3 =? 0x1 then
    Some (Z.lor (Z.land a 0x7FFFFFFF) (Z.land (Z.lxor b 0x80000000) 0x80000000))
  else if f3 =? 0x2 then Some (Z.lxor a (Z.land b 0x80000000))
  else None.

Definition fsgnj_d (f3 a b : Z) : option Z :=
  let sign_mask := Z.shiftl 1 63 in
  if f3 =? 0x0 then Some (Z.lor (Z.land a (not64 sign_mask)) (Z.land b sign_mask))
  else if f3 =? 0x1 then
    Some (Z.lor (Z.land a (not64 sign_mask)) (Z.land (Z.lxor b sign_mask) sign_mask))
  else if f3 =? 0x2 then Some (Z.lxor a (Z.land b sign_mask))
  else None.

Section ExecFp.
Context {B : Type} {SB : SystemBus B} {FE : FloatEnv}.

Definition check_fs (raw : Z) (c : ExecContext B) : option StepResult :=
  let fs := Z.land (Z.shiftr (mstatus (csr c)) 13) 3 in
  if fs =? 0 then Some (StepTrap (IllegalInstruction raw)) else None.

(** Run the rest only if [check_fs] lets it. *)
Definition guard_fs (raw : Z) (m : ST (ExecContext B) StepResult) : ST (ExecContext B) StepResult :=
  t ← gets (check_fs raw);
  match t with Some t => mret t | None => m end.

Definition mark_fs_dirty : ST (ExecContext B) unit :=
  mod_csr (fun c => c <| mstatus := Z.lor (mstatus c) MSTATUS_FS |>).

Definition read_freg (r : Z) : ST (ExecContext B) Z := gets (fun c => read_f r (regs c)).
Definition read_freg32 (r : Z) : ST (ExecContext B) Z := gets (fun c => read_f32 r (regs c)).
Definition write_freg (r v : Z) : ST (ExecContext B) unit :=
  modify (fun c => c <| regs := write_f r v (regs c) |>).
Definition write_freg32 (r v : Z) : ST (ExecContext B) unit :=
  modify (fun c => c <| regs := write_f32 r v (regs c) |>).

(** The common end of the four functions. *)
Definition fp_retire (pc : Z) : ST (ExecContext B) StepResult :=
  set_pc (wrapping_add64 pc 4);; add_instret 1;; mret StepOk.

Definition load_fp (raw pc : Z) : ST (ExecContext B) StepResult :=
  guard_fs raw (
    base ← read_reg (rs1 raw);
    let va := wrapping_add64 base (as_u64 (imm_i raw)) in
    satp ← gets ctx_satp;
    if funct3 raw =? 0x2 then
      r ← on_mmu (translate_load va satp);
      match r with
      | Err fault => take_exception (fault_mcause fault) (fault_tval fault);; mret StepOk
      | Ok pa =>
          val ← on_bus (read_word pa);
          write_freg32 (rd raw) val;;
          mark_fs_dirty;;
          fp_retire pc
      end
    else if funct3 raw =? 0x3 then
      r ← cross_page_load_dw_result va satp;
      match r with
      | Err fault => take_exception (fault_mcause fault) (fault_tval fault);; mret StepOk
      | Ok v =>
          write_freg (rd raw) v;;
          mark_fs_dirty;;
          fp_retire pc
      end
    else illegal raw).

Definition store_fp (raw pc : Z) : ST (ExecContext B) StepResult :=
  guard_fs raw (
    base ← read_reg (rs1 raw);
    let va := wrapping_add64 base (as_u64 (imm_s raw)) in
    satp ← gets ctx_satp;
    if funct3 raw =? 0x2 then
      r ← on_mmu (translate_store va satp);
      match r with
      | Err fault => take_exception (fault_mcause fault) (fault_tval fault);; mret StepOk
      | Ok pa =>
          val ← read_freg32 (rs2 raw);
          mod_blocks (notify_store pa);;
          on_bus (write_word pa val);;
          fp_retire pc
      end
    else if funct3 raw =? 0x3 then
      val ← read_freg (rs2 raw);
      r ← cross_page_store_dw_result va val satp;
      match r with
      | Err fault => take_exception (fault_mcause fault) (fault_tval fault);; mret StepOk
      | Ok _ => fp_retire pc
      end
    else illegal raw).

(** *** [op_fp], by shape of the arm *)

(** An arm that writes a single, a double, or an integer register. *)
Definition arm_s (raw pc : Z) (v : option Z) : ST (ExecContext B) StepResult :=
  match v with
  | None => illegal raw
  | Some v => write_freg32 (rd raw) v;; mark_fs_dirty;; fp_retire pc
  end.
Definition arm_d (raw pc : Z) (v : option Z) : ST (ExecContext B) StepResult :=
  match v with
  | None => illegal raw
  | Some v => write_freg (rd raw) v;; mark_fs_dirty;; fp_retire pc
  end.
Definition arm_x (raw pc : Z) (v : option Z) : ST (ExecContext B) StepResult :=
  match v with
  | None => illegal raw
  | Some v => write_reg (rd raw) v;; fp_retire pc
  end.

Definition bin_s (raw pc : Z) (f : Z -> Z -> option Z) : ST (ExecContext B) StepResult :=
  a ← read_freg32 (rs1 raw); b ← read_freg32 (rs2 raw); arm_s raw pc (f a b).
Definition bin_d (raw pc : Z) (f : Z -> Z -> option Z) : ST (ExecContext B) StepResult :=
  a ← read_freg (rs1 raw); b ← read_freg (rs2 raw); arm_d raw pc (f a b).
Definition cmp_s (raw pc : Z) : ST (ExecContext B) StepResult :=
  a ← read_freg32 (rs1 raw); b ← read_freg32 (rs2 raw);
  arm_x raw pc (fcompare binary32 (funct3 raw) a b).
Definition cmp_d (raw pc : Z) : ST (ExecContext B) StepResult :=
  a ← read_freg (rs1 raw); b ← read_freg (rs2 raw);
  arm_x raw pc (fcompare binary64 (funct3 raw) a b).

(** FMV.X.W / FCLASS.S and FMV.X.D / FCLASS.D *)
Definition fmv_x_w (raw pc : Z) : ST (ExecContext B) StepResult :=
  bits ← read_freg32 (rs1 raw);
  arm_x raw pc (if funct3 raw =? 0x0 then Some (as_u64 (as_i32 bits))
                else if funct3 raw =? 0x1 then Some (fclass_s bits) else None).
Definition fmv_x_d (raw pc : Z) : ST (ExecContext B) StepResult :=
  bits ← read_freg (rs1 raw);
  arm_x raw pc (if funct3 raw =? 0x0 then Some bits
                else if funct3 raw =? 0x1 then Some (fclass_d bits) else None).

Definition fcvt_x_s (raw pc : Z) : ST (ExecContext B) StepResult :=
  a ← read_freg32 (rs1 raw);
  fcsr ← get_csr fcsr;
  arm_x raw pc (fcvt_to_int binary32 (rs2 raw) (round_f32_to_int a (resolve_rm (funct3 raw) fcsr))).
Definition fcvt_x_d (raw pc : Z) : ST (ExecContext B) StepResult :=
  a ← read_freg (rs1 raw);
  fcsr ← get_csr fcsr;
  arm_x raw pc (fcvt_to_int binary64 (rs2 raw) (round_f64_to_int a (resolve_rm (funct3 raw) fcsr))).

Definition op_fp (raw pc : Z) : ST (ExecContext B) StepResult :=
  guard_fs raw (
    let f7 := Z.eqb (funct7 raw) in
    let f3 := funct3 raw in
    if f7 0x78 then v ← read_reg (rs1 raw); arm_s raw pc (Some (as_u32 v))
    else if f7 0x70 then fmv_x_w raw pc
    else if f7 0x79 then v ← read_reg (rs1 raw); arm_d raw pc (Some v)
    else if f7 0x71 then fmv_x_d raw pc
    else if f7 0x00 then bin_s raw pc (fun a b => Some (f_add binary32 a b))
    else if f7 0x04 then bin_s raw pc (fun a b => Some (f_sub binary32 a b))
    else if f7 0x08 then bin_s raw pc (fun a b => Some (f_mul binary32 a b))
    else if f7 0x0C then bin_s raw pc (fun a b => Some (f_div binary32 a b))
    else if f7 0x01 then bin_d raw pc (fun a b => Some (f_add binary64 a b))
    else if f7 0x05 then bin_d raw pc (fun a b => Some (f_sub binary64 a b))
    else if f7 0x09 then bin_d raw pc (fun a b => Some (f_mul binary64 a b))
    else if f7 0x0D then bin_d raw pc (fun a b => Some (f_div binary64 a b))
    else if f7 0x2C then a ← read_freg32 (rs1 raw); arm_s raw pc (Some (f_sqrt binary32 a))
    else if f7 0x2D then a ← read_freg (rs1 raw); arm_d raw pc (Some (f_sqrt binary64 a))
    else if f7 0x10 then bin_s raw pc (fsgnj_s f3)
    else if f7 0x11 then bin_d raw pc (fsgnj_d f3)
    else if f7 0x14 then bin_s raw pc (fminmax binary32 f3)
    else if f7 0x15 then bin_d raw pc (fminmax binary64 f3)
    else if f7 0x50 then cmp_s raw pc
    else if f7 0x51 then cmp_d raw pc
    else if f7 0x60 then fcvt_x_s raw pc
    else if f7 0x68 then
      v ← read_reg (rs1 raw); arm_s raw pc (fcvt_from_int binary32 (rs2 raw) v)
    else if f7 0x61 then fcvt_x_d raw pc
    else if f7 0x69 then
      v ← read_reg (rs1 raw); arm_d raw pc (fcvt_from_int binary64 (rs2 raw) v)
    else if f7 0x20 then
      a ← read_freg (rs1 raw); arm_s raw pc (Some (f_convert binary64 binary32 a))
    else if f7 0x21 then
      a ← read_freg32 (rs1 raw); arm_d raw pc (Some (f_convert binary32 binary64 a))
    else illegal raw).

(** The fused result by opcode; the last is FNMADD. *)
Definition fma_value (fmt : FloatFormat) (op a b c : Z) : option Z :=
  if op =? OP_FMADD then Some (f_mul_add fmt a b c)
  else if op =? OP_FMSUB then Some (f_mul_add fmt a b (f_neg fmt c))
  else if op =? OP_FNMSUB then Some (f_mul_add fmt (f_neg fmt a) b c)
  else if op =? OP_FNMADD then Some (f_mul_add fmt (f_neg fmt a) b (f_neg fmt c))
  else None.

Definition fma (raw pc : Z) : ST (ExecContext B) StepResult :=
  guard_fs raw (
    let rs3 := Z.shiftr raw 27 in
    let fmt := Z.land (Z.shiftr raw 25) 3 in
    if fmt =? 0 then
      a ← read_freg32 (rs1 raw);
      b ← read_freg32 (rs2 raw);
      c ← read_freg32 rs3;
      match fma_value binary32 (opcode raw) a b c with
      | Some v => write_freg32 (rd raw) v;; mark_fs_dirty;; fp_retire pc
      | None => panic
      end
    else if fmt =? 1 then
      a ← read_freg (rs1 raw);
      b ← read_freg (rs2 raw);
      c ← read_freg rs3;
      match fma_value binary64 (opcode raw) a b c with
      | Some v => write_freg (rd raw) v;; mark_fs_dirty;; fp_retire pc
      | None => panic
      end
    else illegal raw).
End ExecFp.
