(* ===== verification/Interp.v ===== *)
(** One instruction from its encoding ([riscv-core/src/execute.rs]:
    [exec_compressed], [exec_full] and [exec_raw]). *)
From S2P Require Import Prelude Words Trap Gpr Decode Csr SystemBus Mmu BlockCache Context Float.
From S2P Require Import SyscallTrace Execute ExecuteFp.

(** ** Immediates of the compressed formats *)

Definition bits_at (raw shift mask dst : Z) : Z := Z.shiftl (Z.land (Z.shiftr raw shift) mask) dst.

Definition c_addi4spn_imm (raw : Z) : Z :=
  Z.lor (Z.lor (Z.lor (bits_at raw 6 1 2) (bits_at raw 5 1 3)) (bits_at raw 11 0x3 4))
        (bits_at raw 7 0xf 6).
Definition c_lw_imm (raw : Z) : Z :=
  Z.lor (Z.lor (bits_at raw 6 1 2) (bits_at raw 10 0x7 3)) (bits_at raw 5 1 6).
Definition c_ld_imm (raw : Z) : Z := Z.lor (bits_at raw 10 0x7 3) (bits_at raw 5 0x3 6).
Definition c_uimm6 (raw : Z) : Z := Z.lor (bits_at raw 12 1 5) (Z.land (Z.shiftr raw 2) 0x1f).
Definition c_imm6 (raw : Z) : Z := sign_extend (c_uimm6 raw) 6.
Definition c_addi16sp_imm (raw : Z) : Z :=
  sign_extend (Z.lor (Z.lor (Z.lor (Z.lor (bits_at raw 12 1 9) (bits_at raw 6 1 4))
                                   (bits_at raw 5 1 6)) (bits_at raw 3 3 7)) (bits_at raw 2 1 5)) 10.
Definition c_lui_imm (raw : Z) : Z :=
  sign_extend (Z.lor (bits_at raw 12 1 17) (bits_at raw 2 0x1f 12)) 18.
Definition c_lwsp_imm (raw : Z) : Z :=
  Z.lor (Z.lor (bits_at raw 12 1 5) (bits_at raw 4 0x7 2)) (bits_at raw 2 0x3 6).
Definition c_ldsp_imm (raw : Z) : Z :=
  Z.lor (Z.lor (bits_at raw 12 1 5) (bits_at raw 5 0x3 3)) (bits_at raw 2 0x7 6).
Definition c_swsp_imm (raw : Z) : Z := Z.lor (bits_at raw 9 0xf 2) (bits_at raw 7 0x3 6).
Definition c_sdsp_imm (raw : Z) : Z := Z.lor (bits_at raw 10 0x7 3) (bits_at raw 7 0x7 6).

Definition c_j_imm (raw : Z) : Z :=
  sign_extend
    (Z.lor (Z.lor (Z.lor (Z.lor (Z.lor (Z.lor (Z.lor
       (bits_at raw 12 1 11) (bits_at raw 11 1 4)) (bits_at raw 9 3 8)) (bits_at raw 8 1 10))
       (bits_at raw 7 1 6)) (bits_at raw 6 1 7)) (bits_at raw 3 7 1)) (bits_at raw 2 1 5)) 12.

Definition c_b_imm (raw : Z) : Z :=
  sign_extend
    (Z.lor (Z.lor (Z.lor (Z.lor
       (bits_at raw 12 1 8) (bits_at raw 10 3 3)) (bits_at raw 5 3 6)) (bits_at raw 3 3 1))
       (bits_at raw 2 1 5)) 9.

Section Interp.
Context {B : Type} {SB : SystemBus B} {HM : HostMemory B} {FE : FloatEnv}.

(** ** [exec_compressed] *)

(** Arms that write a register (integer or floating) and step over. *)
Definition c_write (r v pc : Z) : ST (ExecContext B) StepResult :=
  write_reg r v;; set_pc (wrapping_add64 pc 2);; retire.

Definition c_load_word (r va pc satp : Z) : ST (ExecContext B) StepResult :=
  t ← on_mmu (translate_load va satp);
  match t with
  | Err fault => trap_from_mmu fault
  | Ok pa => v ← on_bus (read_word pa); c_write r (as_u64 (as_i32 v)) pc
  end.

Definition c_load_dw (r va pc satp : Z) : ST (ExecContext B) StepResult :=
  t ← cross_page_load_dw va satp;
  match t with
  | Err t => mret t
  | Ok v => c_write r v pc
  end.

Definition c_load_fdw (r va pc satp : Z) : ST (ExecContext B) StepResult :=
  t ← cross_page_load_dw va satp;
  match t with
  | Err t => mret t
  | Ok v => write_freg r v;; set_pc (wrapping_add64 pc 2);; retire
  end.

Definition c_store_word (va val pc satp : Z) : ST (ExecContext B) StepResult :=
  t ← on_mmu (translate_store va satp);
  match t with
  | Err fault => trap_from_mmu fault
  | Ok pa =>
      mod_blocks (notify_store pa);;
      on_bus (write_word pa (as_u32 val));;
      set_pc (wrapping_add64 pc 2);;
      retire
  end.

Definition c_store_dw (va val pc satp : Z) : ST (ExecContext B) StepResult :=
  t ← cross_page_store_dw va val satp;
  match t with
  | Err t => mret t
  | Ok _ => set_pc (wrapping_add64 pc 2);; retire
  end.

(** Quadrant 0. *)
Definition exec_c0 (raw funct pc satp : Z) : ST (ExecContext B) StepResult :=
  let rs1' := rs1_prime raw in
  let rs2' := rs2_prime raw in
  base ← read_reg rs1';
  if funct =? 0x0 then
    let nzuimm := c_addi4spn_imm raw in
    if nzuimm =? 0 then illegal raw
    else sp ← read_reg 2; c_write rs2' (wrapping_add64 sp nzuimm) pc
  else if funct =? 0x2 then c_load_word rs2' (wrapping_add64 base (c_lw_imm raw)) pc satp
  else if funct =? 0x3 then c_load_dw rs2' (wrapping_add64 base (c_ld_imm raw)) pc satp
  else if funct =? 0x6 then
    v ← read_reg rs2';
    c_store_word (wrapping_add64 base (c_lw_imm raw)) v pc satp
  else if funct =? 0x7 then
    v ← read_reg rs2';
    c_store_dw (wrapping_add64 base (c_ld_imm raw)) v pc satp
  else if funct =? 0x1 then c_load_fdw rs2' (wrapping_add64 base (c_ld_imm raw)) pc satp
  else if funct =? 0x5 then
    v ← read_freg rs2';
    c_store_dw (wrapping_add64 base (c_ld_imm raw)) v pc satp
  else illegal raw.

(** The value of the quadrant-1 [funct = 4] group. *)
Definition c_alu_value (raw a b : Z) : option Z :=
  let sel := Z.land (Z.shiftr raw 10) 0x3 in
  let hi := Z.land (Z.shiftr raw 12) 1 in
  let lo := Z.land (Z.shiftr raw 5) 0x3 in
  let k i j := (hi =? i) && (lo =? j) in
  if sel =? 0x0 then Some (Z.shiftr a (c_uimm6 raw))
  else if sel =? 0x1 then Some (as_u64 (Z.shiftr (as_i64 a) (c_uimm6 raw)))
  else if sel =? 0x2 then Some (Z.land a (as_u64 (c_imm6 raw)))
  else if k 0 0x0 then Some (wrapping_sub64 a b)
  else if k 0 0x1 then Some (Z.lxor a b)
  else if k 0 0x2 then Some (Z.lor a b)
  else if k 0 0x3 then Some (Z.land a b)
  else if k 1 0x0 then Some (as_u64 (as_i32 (wrapping_sub32 (as_u32 a) (as_u32 b))))
  else if k 1 0x1 then Some (as_u64 (as_i32 (wrapping_add32 (as_u32 a) (as_u32 b))))
  else None.

(** Quadrant 1. *)
Definition exec_c1 (raw funct pc : Z) : ST (ExecContext B) StepResult :=
  let rd := c_rd raw in
  if funct =? 0x0 then
    a ← read_reg rd; c_write rd (wrapping_add64 a (as_u64 (c_imm6 raw))) pc
  else if funct =? 0x1 then
    a ← read_reg rd;
    c_write rd (as_u64 (as_i32 (wrapping_add64 a (as_u64 (c_imm6 raw))))) pc
  else if funct =? 0x2 then c_write rd (as_u64 (c_imm6 raw)) pc
  else if funct =? 0x3 then
    if rd =? 2 then
      sp ← read_reg 2; c_write 2 (wrapping_add64 sp (as_u64 (c_addi16sp_imm raw))) pc
    else c_write rd (as_u64 (c_lui_imm raw)) pc
  else if funct =? 0x4 then
    a ← read_reg (rs1_prime raw);
    b ← read_reg (rs2_prime raw);
    match c_alu_value raw a b with
    | Some v => c_write (rs1_prime raw) v pc
    | None => illegal raw
    end
  else if funct =? 0x5 then
    set_pc (wrapping_add64 pc (as_u64 (c_j_imm raw)));; retire
  else
    a ← read_reg (rs1_prime raw);
    let taken := if funct =? 0x6 then a =? 0 else negb (a =? 0) in
    (if taken then set_pc (wrapping_add64 pc (as_u64 (c_b_imm raw)))
     else set_pc (wrapping_add64 pc 2));;
    retire.

(** C.JR, C.MV, C.EBREAK, C.JALR and C.ADD. *)
Definition exec_c_jr_mv_add (raw pc : Z) : ST (ExecContext B) StepResult :=
  let rd := c_rd raw in
  let rs2 := c_rs2 raw in
  a ← read_reg rd;
  b ← read_reg rs2;
  if Z.land (Z.shiftr raw 12) 1 =? 0 then
    if rs2 =? 0 then set_pc (Z.land a (not64 1));; retire
    else c_write rd b pc
  else if (rd =? 0) && (rs2 =? 0) then
    set_pc (wrapping_add64 pc 2);;
    mret (StepTrap Breakpoint)
  else if rs2 =? 0 then
    write_reg 1 (wrapping_add64 pc 2);;
    set_pc (Z.land a (not64 1));;
    retire
  else c_write rd (wrapping_add64 a b) pc.

(** Quadrant 2. *)
Definition exec_c2 (raw funct pc satp : Z) : ST (ExecContext B) StepResult :=
  let rd := c_rd raw in
  let rs2 := c_rs2 raw in
  sp ← read_reg 2;
  if funct =? 0x0 then a ← read_reg rd; c_write rd (shl64 a (c_uimm6 raw)) pc
  else if funct =? 0x2 then c_load_word rd (wrapping_add64 sp (c_lwsp_imm raw)) pc satp
  else if funct =? 0x3 then c_load_dw rd (wrapping_add64 sp (c_ldsp_imm raw)) pc satp
  else if funct =? 0x4 then exec_c_jr_mv_add raw pc
  else if funct =? 0x6 then
    v ← read_reg rs2; c_store_word (wrapping_add64 sp (c_swsp_imm raw)) v pc satp
  else if funct =? 0x7 then
    v ← read_reg rs2; c_store_dw (wrapping_add64 sp (c_sdsp_imm raw)) v pc satp
  else if funct =? 0x1 then c_load_fdw rd (wrapping_add64 sp (c_ldsp_imm raw)) pc satp
  else
    v ← read_freg rs2; c_store_dw (wrapping_add64 sp (c_sdsp_imm raw)) v pc satp.

Definition exec_compressed (raw : Z) : ST (ExecContext B) StepResult :=
  satp ← gets ctx_satp;
  pc ← get_pc;
  let quad := Z.land raw 0x3 in
  let funct := Z.shiftr raw 13 in
  if quad =? 0 then exec_c0 raw funct pc satp
  else if quad =? 1 then exec_c1 raw funct pc
  else if quad =? 2 then exec_c2 raw funct pc satp
  else illegal raw.

(** ** [exec_full] and [exec_raw] *)

Definition exec_full (raw pc : Z) : ST (ExecContext B) StepResult :=
  satp ← gets ctx_satp;
  let op := Z.eqb (opcode raw) in
  if op OP_LUI then exec_lui raw pc
  else if op OP_AUIPC then exec_auipc raw pc
  else if op OP_JAL then exec_jal raw pc
  else if op OP_JALR then exec_jalr raw pc
  else if op OP_BRANCH then exec_branch raw pc
  else if op OP_LOAD then exec_load raw pc satp
  else if op OP_STORE then exec_store raw pc satp
  else if op OP_IMM then exec_op_imm raw pc
  else if op OP_IMM32 then exec_op_imm32 raw pc
  else if op OP_REG then exec_op_reg raw pc
  else if op OP_REG32 then exec_op_reg32 raw pc
  else if op OP_AMO then exec_amo raw
  else if op OP_FENCE then exec_fence raw pc
  else if op OP_SYSTEM then exec_system raw
  else if op OP_LOAD_FP then load_fp raw pc
  else if op OP_STORE_FP then store_fp raw pc
  else if op OP_OP_FP then op_fp raw pc
  else if op OP_FMADD || op OP_FMSUB || op OP_FNMSUB || op OP_FNMADD then fma raw pc
  else illegal raw.

(** The exception a trap result turns into: cause and trap value, or [None] for
    the causes [exec_raw] hands back. *)
Definition raw_exception (cause : TrapCause) (pc : Z) : option (Z * Z) :=
  match cause with
  | IllegalInstruction encoding => Some (2, encoding)
  | InstructionAddressMisaligned => Some (0, pc)
  | LoadAddressMisaligned => Some (4, 0)
  | StoreAddressMisaligned => Some (6, 0)
  | Breakpoint => Some (3, pc)
  | _ => None
  end.

Definition exec_raw (instruction_encoding pc : Z) : ST (ExecContext B) StepResult :=
  result ← (if negb (Z.land instruction_encoding 0x3 =? 0x3)
            then exec_compressed (as_u16 instruction_encoding)
            else exec_full instruction_encoding pc);
  match result with
  | StepTrap cause =>
      match raw_exception cause pc with
      | Some (mcause_code, tval) => take_exception mcause_code tval;; mret StepOk
      | None => mret result
      end
  | other => mret other
  end.
End Interp.
