(* ===== verification/DecodeProps.v ===== *)
(** Immediates against the instruction formats.

    The formats of the architecture manual say, for each bit of an immediate,
    which bit of the encoding holds it.  A [layout] is that table, from bit 0 up
    ([None] is a bit that is always zero); the theorems read the immediates of
    [decode.rs] and of the compressed instructions off those tables. *)
From S2P Require Import Prelude Words Decode SystemBus Mmu BlockCache Context Float SyscallTrace.
From S2P Require Import Execute ExecuteFp Interp.

Abbreviation layout := (list (option Z)).

Definition layout_bit (l : layout) (raw k : Z) : bool :=
  match l !! Z.to_nat k with Some (Some source) => Z.testbit raw source | _ => false end.

(** The immediate sign-extends the last bit of the table, or is zero beyond it. *)
Definition signed_layout (l : layout) (raw imm : Z) : Prop :=
  ∀ k, 0 <= k → Z.testbit imm k = layout_bit l raw (Z.min k (Z.of_nat (length l) - 1)).
Definition unsigned_layout (l : layout) (raw imm : Z) : Prop :=
  ∀ k, 0 <= k → Z.testbit imm k = layout_bit l raw k.

Definition zeros (n : nat) : layout := replicate n None.
Definition bits (lo n : Z) : layout := Some <$> seqZ lo n.

(** I, S, B, U and J. *)
Definition layout_i : layout := bits 20 12.
Definition layout_s : layout := bits 7 5 ++ bits 25 7.
Definition layout_b : layout := zeros 1 ++ bits 8 4 ++ bits 25 6 ++ bits 7 1 ++ bits 31 1.
Definition layout_u : layout := zeros 12 ++ bits 12 20.
Definition layout_j : layout := zeros 1 ++ bits 21 10 ++ bits 20 1 ++ bits 12 8 ++ bits 31 1.

(** The compressed formats. *)
Definition layout_ci : layout := bits 2 5 ++ bits 12 1.
Definition layout_addi16sp : layout :=
  zeros 4 ++ bits 6 1 ++ bits 2 1 ++ bits 5 1 ++ bits 3 2 ++ bits 12 1.
Definition layout_lui : layout := zeros 12 ++ bits 2 5 ++ bits 12 1.
Definition layout_cj : layout :=
  zeros 1 ++ bits 3 3 ++ bits 11 1 ++ bits 2 1 ++ bits 7 1 ++ bits 6 1 ++ bits 9 2 ++ bits 8 1 ++ bits 12 1.
Definition layout_cb : layout := zeros 1 ++ bits 3 2 ++ bits 10 2 ++ bits 2 1 ++ bits 5 2 ++ bits 12 1.
Definition layout_addi4spn : layout := zeros 2 ++ bits 6 1 ++ bits 5 1 ++ bits 11 2 ++ bits 7 4.
Definition layout_lw : layout := zeros 2 ++ bits 6 1 ++ bits 10 3 ++ bits 5 1.
Definition layout_ld : layout := zeros 3 ++ bits 10 3 ++ bits 5 2.
Definition layout_lwsp : layout := zeros 2 ++ bits 4 3 ++ bits 12 1 ++ bits 2 2.
Definition layout_ldsp : layout := zeros 3 ++ bits 5 2 ++ bits 12 1 ++ bits 2 3.
Definition layout_swsp : layout := zeros 2 ++ bits 9 4 ++ bits 7 2.
Definition layout_sdsp : layout := zeros 3 ++ bits 10 3 ++ bits 7 3.

(** ** Bits of the ways the code assembles an immediate *)

Lemma testbit_signed n v k : 0 < n → 0 <= k → Z.testbit (signed n v) k = Z.testbit v (Z.min k (n - 1)).
Proof.
  intros Hn Hk. assert (Hlow : ∀ i, 0 <= i < n → Z.testbit (signed n v) i = Z.testbit v i).
  { intros i Hi. rewrite <- (Z.mod_pow2_bits_low (signed n v) n i), <- (Z.mod_pow2_bits_low v n i) by lia.
    f_equal. apply wrap_signed. lia. }
  rewrite <- Hlow by lia. pose proof (signed_range n v Hn) as Hr.
  destruct (Z.le_gt_cases k (n - 1)); [by rewrite Z.min_l by lia|]. rewrite Z.min_r by lia.
  assert (Hs : Z.shiftr (signed n v) (n - 1) = 0 ∨ Z.shiftr (signed n v) (n - 1) = -1).
  { rewrite Z.shiftr_div_pow2 by lia. destruct (Z.lt_ge_cases (signed n v) 0).
    - right. symmetry. apply (Z.div_unique _ _ _ (signed n v + 2 ^ (n - 1))); lia.
    - left. apply Z.div_small. lia. }
  assert (T : ∀ i, 0 <= i → Z.testbit (signed n v) (i + (n - 1)) = Z.testbit (Z.shiftr (signed n v) (n - 1)) i)
    by (intros; by rewrite Z.shiftr_spec).
  pose proof (T (k - (n - 1)) ltac:(lia)) as Tk. pose proof (T 0 ltac:(lia)) as T0.
  replace (k - (n - 1) + (n - 1)) with k in Tk by lia. rewrite Z.add_0_l in T0. rewrite Tk, T0.
  destruct Hs as [-> | ->]; [by rewrite !Z.bits_0 | by rewrite !Z.bits_m1 by lia].
Qed.

(** A field of the encoding moved into place. *)
Lemma field_bit raw source mask d k :
  mask = Z.ones (Z.log2 (mask + 1)) → 0 <= Z.log2 (mask + 1) → 0 <= source → 0 <= d → 0 <= k →
  Z.testbit (Z.shiftl (Z.land (Z.shiftr raw source) mask) d) k
  = (d <=? k) && (k <? d + Z.log2 (mask + 1)) && Z.testbit raw (k - d + source).
Proof.
  intros Hm Hw Hs Hd Hk. set (w := Z.log2 (mask + 1)) in *. rewrite Z.shiftl_spec by done.
  destruct (Z.leb_spec d k); cbn; [|by rewrite Z.testbit_neg_r by lia].
  rewrite Z.land_spec, Z.shiftr_spec, Hm by lia. destruct (Z.ltb_spec k (d + w)); cbn.
  - rewrite Z.ones_spec_low by lia. apply andb_true_r.
  - rewrite Z.ones_spec_high by lia. apply andb_false_r.
Qed.

(** Check the first [n] bits one by one. *)
Lemma below n (P : Z -> Prop) k : Forall P (seqZ 0 n) → 0 <= k < n → P k.
Proof. intros H Hk. rewrite Forall_forall in H. apply H, list_elem_of_In, elem_of_seqZ. lia. Qed.

Lemma signed_layout_intro l raw val n :
  0 < n → Z.of_nat (length l) = n →
  Forall (fun k => Z.testbit val k = layout_bit l raw k) (seqZ 0 n) → signed_layout l raw (signed n val).
Proof.
  intros Hn Hl H k Hk. rewrite testbit_signed, Hl by done.
  apply (below n (fun k => Z.testbit val k = layout_bit l raw k)); [done | lia].
Qed.

Lemma unsigned_layout_intro l raw val n :
  0 <= n → Z.of_nat (length l) = n → is_word n val →
  Forall (fun k => Z.testbit val k = layout_bit l raw k) (seqZ 0 n) → unsigned_layout l raw val.
Proof.
  intros Hn Hl Hw H k Hk. destruct (Z.lt_ge_cases k n).
  - by apply (below n (fun k => Z.testbit val k = layout_bit l raw k)).
  - rewrite (testbit_high n) by (done || lia). unfold layout_bit.
    destruct (l !! Z.to_nat k) eqn:E; [|done]. apply lookup_lt_Some in E. lia.
Qed.

(** The same for an immediate that is sign-extended by other means. *)
Lemma signed_layout_bits l raw imm n :
  0 < n → Z.of_nat (length l) = n → (∀ k, n - 1 <= k → Z.testbit imm k = Z.testbit imm (n - 1)) →
  Forall (fun k => Z.testbit imm k = layout_bit l raw k) (seqZ 0 n) → signed_layout l raw imm.
Proof.
  intros Hn Hl Hs H k Hk. rewrite Hl. transitivity (Z.testbit imm (Z.min k (n - 1))).
  - destruct (Z.le_gt_cases (n - 1) k); [rewrite Z.min_r by lia; by apply Hs | by rewrite Z.min_l by lia].
  - apply (below n (fun k => Z.testbit imm k = layout_bit l raw k)); [done | lia].
Qed.

(** Evaluate the bits at each concrete position. *)
Ltac each_bit :=
  match goal with |- Forall _ ?l => let l' := eval vm_compute in l in change l with l' end;
  repeat apply Forall_cons_2; [..|apply Forall_nil_2].
Ltac field_bits :=
  unfold bits_at; rewrite ?Z.lor_spec, ?field_bit by (reflexivity || lia || done);
  reflexivity || (cbn; rewrite ?orb_false_r; reflexivity).
Ltac signed_fields := rewrite sign_extend_signed by lia; apply signed_layout_intro; [lia | done|]; each_bit; field_bits.

Lemma imm_i_bits raw k : 0 <= k → Z.testbit (imm_i raw) k = Z.testbit raw (Z.min (k + 20) 31).
Proof. intros Hk. unfold imm_i, as_i32. by rewrite Z.shiftr_spec, testbit_signed by lia. Qed.

Lemma imm_i_layout raw : signed_layout layout_i raw (imm_i raw).
Proof.
  apply (signed_layout_bits _ _ _ 12); [lia | done | |].
  - intros k Hk. rewrite !imm_i_bits by lia. f_equal. lia.
  - each_bit; by rewrite imm_i_bits.
Qed.

Lemma imm_s_bits raw k :
  0 <= k →
  Z.testbit (imm_s raw) k
  = (5 <=? k) && Z.testbit raw (Z.min (k + 20) 31) || (k <? 5) && Z.testbit raw (k + 7).
Proof.
  intros Hk. unfold imm_s, as_i32. rewrite Z.lor_spec, testbit_signed by lia. f_equal.
  - rewrite Z.shiftl_spec by lia. destruct (Z.leb_spec 5 k).
    + rewrite Z.shiftr_spec, testbit_signed by lia. cbn. f_equal. lia.
    + by rewrite Z.testbit_neg_r by lia.
  - rewrite Z.land_spec, Z.shiftr_spec by lia. change 0x1F with (Z.ones 5). destruct (Z.ltb_spec k 5).
    + rewrite Z.ones_spec_low by lia. apply andb_true_r.
    + rewrite Z.ones_spec_high by lia. apply andb_false_r.
Qed.

Lemma imm_s_layout raw : signed_layout layout_s raw (imm_s raw).
Proof.
  apply (signed_layout_bits _ _ _ 12); [lia | done | |].
  - intros k Hk. rewrite !imm_s_bits by lia. rewrite !Z.min_r by lia.
    replace (5 <=? k) with true by (symmetry; lia). replace (k <? 5) with false by (symmetry; lia). done.
  - each_bit; rewrite imm_s_bits by lia; cbn; by rewrite ?orb_false_r.
Qed.

Lemma imm_b_layout raw : signed_layout layout_b raw (imm_b raw).
Proof. unfold imm_b. signed_fields. Qed.

Lemma imm_j_layout raw : signed_layout layout_j raw (imm_j raw).
Proof. unfold imm_j. signed_fields. Qed.

Lemma imm_u_layout raw : signed_layout layout_u raw (imm_u raw).
Proof.
  unfold imm_u, as_i32. apply signed_layout_intro; [lia | done|].
  each_bit; rewrite Z.land_spec; apply andb_true_r || apply andb_false_r.
Qed.

(** *** Compressed *)

Lemma c_uimm6_bits raw k :
  0 <= k → Z.testbit (c_uimm6 raw) k = (k =? 5) && Z.testbit raw 12 || (k <? 5) && Z.testbit raw (k + 2).
Proof.
  intros Hk. unfold c_uimm6, bits_at. rewrite Z.lor_spec, field_bit by (reflexivity || lia || done). f_equal.
  - change (Z.log2 (1 + 1)) with 1. destruct (Z.eqb_spec k 5) as [->|]; [done|].
    destruct (Z.leb_spec 5 k); [|done]. destruct (Z.ltb_spec k (5 + 1)); [lia | done].
  - rewrite Z.land_spec, Z.shiftr_spec by lia. change 0x1f with (Z.ones 5). destruct (Z.ltb_spec k 5).
    + rewrite Z.ones_spec_low by lia. apply andb_true_r.
    + rewrite Z.ones_spec_high by lia. apply andb_false_r.
Qed.

Lemma ci_layout raw : signed_layout layout_ci raw (c_imm6 raw).
Proof.
  unfold c_imm6. rewrite sign_extend_signed by lia. apply signed_layout_intro; [lia | done|].
  each_bit; rewrite c_uimm6_bits by lia; cbn; by rewrite ?orb_false_r.
Qed.

Lemma signed_compressed_layouts raw :
  signed_layout layout_addi16sp raw (c_addi16sp_imm raw) ∧ signed_layout layout_lui raw (c_lui_imm raw) ∧
  signed_layout layout_cj raw (c_j_imm raw) ∧ signed_layout layout_cb raw (c_b_imm raw).
Proof.
  unfold c_addi16sp_imm, c_lui_imm, c_j_imm, c_b_imm. refine (conj _ (conj _ (conj _ _))); signed_fields.
Qed.

(** The unsigned ones: nothing beyond the table. *)
Lemma field_word raw source mask d n :
  mask = Z.ones (Z.log2 (mask + 1)) → 0 <= Z.log2 (mask + 1) → 0 <= d → d + Z.log2 (mask + 1) <= n →
  is_word n (Z.shiftl (Z.land (Z.shiftr raw source) mask) d).
Proof.
  intros Hm Hw Hd Hn. set (w := Z.log2 (mask + 1)) in *. rewrite Z.shiftl_mul_pow2 by lia. rewrite Hm.
  pose proof (land_ones_range (Z.shiftr raw source) w Hw) as [H0 H1]. unfold is_word.
  assert (2 ^ w * 2 ^ d <= 2 ^ n) by (rewrite <- Z.pow_add_r by lia; apply Z.pow_le_mono_r; lia).
  split; [apply Z.mul_nonneg_nonneg; lia|]. apply Z.lt_le_trans with (2 ^ w * 2 ^ d); [|done].
  apply Z.mul_lt_mono_pos_r; lia.
Qed.

Ltac unsigned_fields n :=
  apply (unsigned_layout_intro _ _ _ n); [lia | done | |each_bit; field_bits];
  unfold bits_at; repeat apply lor_word; try lia; apply field_word; (reflexivity || done || (cbn; lia)).

Lemma unsigned_compressed_layouts raw :
  unsigned_layout layout_addi4spn raw (c_addi4spn_imm raw) ∧ unsigned_layout layout_lw raw (c_lw_imm raw) ∧
  unsigned_layout layout_ld raw (c_ld_imm raw) ∧ unsigned_layout layout_lwsp raw (c_lwsp_imm raw) ∧
  unsigned_layout layout_ldsp raw (c_ldsp_imm raw) ∧ unsigned_layout layout_swsp raw (c_swsp_imm raw) ∧
  unsigned_layout layout_sdsp raw (c_sdsp_imm raw).
Proof.
  unfold c_addi4spn_imm, c_lw_imm, c_ld_imm, c_lwsp_imm, c_ldsp_imm, c_swsp_imm, c_sdsp_imm.
  refine (conj _ (conj _ (conj _ (conj _ (conj _ (conj _ _)))))).
  - unsigned_fields 10.
  - unsigned_fields 7.
  - unsigned_fields 8.
  - unsigned_fields 8.
  - unsigned_fields 9.
  - unsigned_fields 8.
  - unsigned_fields 9.
Qed.

(** ** Claims *)

(** The I-, S-, B-, U- and J-immediates are the ones of the base formats:
    every bit, sign extension included, is the bit of the encoding that the
    format puts there. *)
Theorem immediates_follow_formats raw :
  signed_layout layout_i raw (imm_i raw) ∧ signed_layout layout_s raw (imm_s raw) ∧
  signed_layout layout_b raw (imm_b raw) ∧ signed_layout layout_u raw (imm_u raw) ∧
  signed_layout layout_j raw (imm_j raw).
Proof. auto using imm_i_layout, imm_s_layout, imm_b_layout, imm_u_layout, imm_j_layout. Qed.

(** So are the immediates of the compressed formats, the signed ones
    (CI, C.ADDI16SP, C.LUI, CJ, CB) sign-extended, the unsigned ones (C.ADDI4SPN
    and the loads and stores) zero-extended. *)
Theorem compressed_immediates_follow_formats raw :
  signed_layout layout_ci raw (c_imm6 raw) ∧
  (signed_layout layout_addi16sp raw (c_addi16sp_imm raw) ∧ signed_layout layout_lui raw (c_lui_imm raw) ∧
   signed_layout layout_cj raw (c_j_imm raw) ∧ signed_layout layout_cb raw (c_b_imm raw)) ∧
  unsigned_layout layout_addi4spn raw (c_addi4spn_imm raw) ∧ unsigned_layout layout_lw raw (c_lw_imm raw) ∧
  unsigned_layout layout_ld raw (c_ld_imm raw) ∧ unsigned_layout layout_lwsp raw (c_lwsp_imm raw) ∧
  unsigned_layout layout_ldsp raw (c_ldsp_imm raw) ∧ unsigned_layout layout_swsp raw (c_swsp_imm raw) ∧
  unsigned_layout layout_sdsp raw (c_sdsp_imm raw).
Proof.
  exact (conj (ci_layout raw) (conj (signed_compressed_layouts raw) (unsigned_compressed_layouts raw))).
Qed.
