(* ===== verification/BlockDecode.v ===== *)
(** Decoding of blocks ([riscv-core/src/block.rs]: [decode_full],
    [decode_compressed], [fallback_stops_block], [decode_block]).

    A block is the run of instructions from a physical address to the first
    unconditional jump, the end of the page, 64 instructions, or an instruction
    that has to run alone.  What the block executor does not handle itself
    becomes [OpFallback].  The immediates of the compressed formats are the ones
    of [Interp]: the source writes the same expressions a second time. *)
From S2P Require Import Prelude Words Decode SystemBus BlockCache Execute Interp.

Definition fallback_stops_block (raw : Z) : bool :=
  ((Z.land raw 0x7f =? 0x73) && (Z.land (Z.shiftr raw 12) 0x7 =? 0))
  || (Z.land raw 0x707f =? 0x100f).

(** ** 32-bit encodings, one definition per opcode arm of [decode_full] *)

Definition decode_branch_kind (f3 : Z) : option BranchKind :=
  if f3 =? 0x0 then Some Beq
  else if f3 =? 0x1 then Some Bne
  else if f3 =? 0x4 then Some Blt
  else if f3 =? 0x5 then Some Bge
  else if f3 =? 0x6 then Some Bltu
  else if f3 =? 0x7 then Some Bgeu
  else None.

Definition decode_load_kind (f3 : Z) : option LoadKind :=
  if f3 =? 0x0 then Some Lb
  else if f3 =? 0x1 then Some Lh
  else if f3 =? 0x2 then Some Lw
  else if f3 =? 0x3 then Some Ld
  else if f3 =? 0x4 then Some Lbu
  else if f3 =? 0x5 then Some Lhu
  else if f3 =? 0x6 then Some Lwu
  else None.

Definition decode_store_kind (f3 : Z) : option StoreKind :=
  if f3 =? 0x0 then Some Sb
  else if f3 =? 0x1 then Some Sh
  else if f3 =? 0x2 then Some Sw
  else if f3 =? 0x3 then Some Sd
  else None.

Definition decode_op_imm (f3 f7 imm : Z) : option (AluKind * Z) :=
  let shamt := Z.land imm 0x3f in
  let f6 := Z.shiftr f7 1 in
  if f3 =? 0x0 then Some (AkAdd, imm)
  else if f3 =? 0x1 then
    if f6 =? 0x00 then Some (AkSll, shamt)
    else if f6 =? 0x18 then
      if shamt =? 0 then Some (AkClz, 0)
      else if shamt =? 1 then Some (AkCtz, 0)
      else if shamt =? 2 then Some (AkCpop, 0)
      else None
    else if f6 =? 0x1a then
      if shamt =? 2 then Some (AkSextB, 0)
      else if shamt =? 4 then Some (AkSextH, 0)
      else None
    else None
  else if f3 =? 0x2 then Some (AkSlt, imm)
  else if f3 =? 0x3 then Some (AkSltu, imm)
  else if f3 =? 0x4 then Some (AkXor, imm)
  else if f3 =? 0x5 then
    if f6 =? 0x00 then Some (AkSrl, shamt)
    else if f6 =? 0x10 then Some (AkSra, shamt)
    else if (f6 =? 0x14) && (shamt =? 7) then Some (AkOrcB, 0)
    else if (f6 =? 0x35) && ((shamt =? 24) || (shamt =? 8)) then Some (AkRev8, 0)
    else if f6 =? 0x18 then Some (AkRor, shamt)
    else None
  else if f3 =? 0x6 then Some (AkOr, imm)
  else if f3 =? 0x7 then Some (AkAnd, imm)
  else None.

Definition decode_op_imm32 (f3 f7 imm : Z) : option (AluKind * Z) :=
  let shamt := Z.land imm 0x1f in
  if f3 =? 0x0 then Some (AkAddw, imm)
  else if (f3 =? 0x1) && ((f7 =? 0x04) || (f7 =? 0x05)) then Some (AkSlliUw, Z.land imm 0x3f)
  else if f3 =? 0x1 then
    if f7 =? 0x00 then Some (AkSllw, shamt)
    else if f7 =? 0x30 then
      if shamt =? 0 then Some (AkClzw, 0)
      else if shamt =? 1 then Some (AkCtzw, 0)
      else if shamt =? 2 then Some (AkCpopw, 0)
      else None
    else None
  else if f3 =? 0x5 then
    if f7 =? 0x00 then Some (AkSrlw, shamt)
    else if f7 =? 0x20 then Some (AkSraw, shamt)
    else if f7 =? 0x30 then Some (AkRorw, shamt)
    else None
  else None.

Definition decode_op_reg (f3 f7 : Z) : option AluKind :=
  let k i j := (f3 =? i) && (f7 =? j) in
  if k 0x0 0x00 then Some AkAdd
  else if k 0x0 0x20 then Some AkSub
  else if k 0x1 0x00 then Some AkSll
  else if k 0x2 0x00 then Some AkSlt
  else if k 0x3 0x00 then Some AkSltu
  else if k 0x4 0x00 then Some AkXor
  else if k 0x5 0x00 then Some AkSrl
  else if k 0x5 0x20 then Some AkSra
  else if k 0x6 0x00 then Some AkOr
  else if k 0x7 0x00 then Some AkAnd
  else if k 0x0 0x01 then Some AkMul
  else if k 0x1 0x01 then Some AkMulh
  else if k 0x2 0x01 then Some AkMulhsu
  else if k 0x3 0x01 then Some AkMulhu
  else if k 0x4 0x01 then Some AkDiv
  else if k 0x5 0x01 then Some AkDivu
  else if k 0x6 0x01 then Some AkRem
  else if k 0x7 0x01 then Some AkRemu
  else if k 0x4 0x20 then Some AkXnor
  else if k 0x6 0x20 then Some AkOrn
  else if k 0x7 0x20 then Some AkAndn
  else if k 0x1 0x30 then Some AkRol
  else if k 0x5 0x30 then Some AkRor
  else if k 0x4 0x05 then Some AkMin
  else if k 0x5 0x05 then Some AkMax
  else if k 0x6 0x05 then Some AkMinu
  else if k 0x7 0x05 then Some AkMaxu
  else if k 0x2 0x10 then Some AkSh1add
  else if k 0x4 0x10 then Some AkSh2add
  else if k 0x6 0x10 then Some AkSh3add
  else None.

Definition decode_op_reg32 (f3 f7 rs2_field : Z) : option AluKind :=
  let k i j := (f3 =? i) && (f7 =? j) in
  if k 0x0 0x00 then Some AkAddw
  else if k 0x0 0x20 then Some AkSubw
  else if k 0x1 0x00 then Some AkSllw
  else if k 0x5 0x00 then Some AkSrlw
  else if k 0x5 0x20 then Some AkSraw
  else if k 0x0 0x01 then Some AkMulw
  else if k 0x4 0x01 then Some AkDivw
  else if k 0x5 0x01 then Some AkDivuw
  else if k 0x6 0x01 then Some AkRemw
  else if k 0x7 0x01 then Some AkRemuw
  else if k 0x1 0x30 then Some AkRolw
  else if k 0x5 0x30 then Some AkRorw
  else if k 0x4 0x04 && (rs2_field =? 0) then Some AkZextH
  else if k 0x0 0x04 then Some AkAddUw
  else if k 0x2 0x10 then Some AkSh1addUw
  else if k 0x4 0x10 then Some AkSh2addUw
  else if k 0x6 0x10 then Some AkSh3addUw
  else None.

(** Opcodes are the constants of [Execute]; the source declares them again. *)
Definition decode_full (raw : Z) : option Op :=
  let op := Z.eqb (opcode raw) in
  if op OP_LUI then Some (OpLui (rd raw) (imm_u raw))
  else if op OP_AUIPC then Some (OpAuipc (rd raw) (imm_u raw))
  else if op OP_JAL then Some (OpJal (rd raw) (imm_j raw))
  else if op OP_JALR && (funct3 raw =? 0) then Some (OpJalr (rd raw) (rs1 raw) (imm_i raw))
  else if op OP_BRANCH then
    kind ← decode_branch_kind (funct3 raw);
    Some (OpBranch kind (rs1 raw) (rs2 raw) (imm_b raw))
  else if op OP_LOAD then
    kind ← decode_load_kind (funct3 raw);
    Some (OpLoad kind (rd raw) (rs1 raw) (imm_i raw))
  else if op OP_STORE then
    kind ← decode_store_kind (funct3 raw);
    Some (OpStore kind (rs1 raw) (rs2 raw) (imm_s raw))
  else if op OP_IMM then
    ki ← decode_op_imm (funct3 raw) (funct7 raw) (imm_i raw);
    Some (OpAluImm ki.1 (rd raw) (rs1 raw) ki.2)
  else if op OP_IMM32 then
    ki ← decode_op_imm32 (funct3 raw) (funct7 raw) (imm_i raw);
    Some (OpAluImm ki.1 (rd raw) (rs1 raw) ki.2)
  else if op OP_REG then
    kind ← decode_op_reg (funct3 raw) (funct7 raw);
    Some (OpAluReg kind (rd raw) (rs1 raw) (rs2 raw))
  else if op OP_REG32 then
    kind ← decode_op_reg32 (funct3 raw) (funct7 raw) (rs2 raw);
    Some (OpAluReg kind (rd raw) (rs1 raw) (rs2 raw))
  else None.

(** ** 16-bit encodings *)

Definition decode_c0 (raw funct : Z) : option Op :=
  let rs1' := rs1_prime raw in
  let rs2' := rs2_prime raw in
  if funct =? 0x0 then
    let nzuimm := c_addi4spn_imm raw in
    if nzuimm =? 0 then None else Some (OpAluImm AkAdd rs2' 2 nzuimm)
  else if funct =? 0x2 then Some (OpLoad Lw rs2' rs1' (c_lw_imm raw))
  else if funct =? 0x3 then Some (OpLoad Ld rs2' rs1' (c_ld_imm raw))
  else if funct =? 0x6 then Some (OpStore Sw rs1' rs2' (c_lw_imm raw))
  else if funct =? 0x7 then Some (OpStore Sd rs1' rs2' (c_ld_imm raw))
  else None.

Definition decode_c_alu (raw : Z) : option Op :=
  let rd := rs1_prime raw in
  let rs2 := rs2_prime raw in
  let sel := Z.land (Z.shiftr raw 10) 0x3 in
  let hi := Z.land (Z.shiftr raw 12) 1 in
  let lo := Z.land (Z.shiftr raw 5) 0x3 in
  let k i j := (hi =? i) && (lo =? j) in
  if sel =? 0x0 then Some (OpAluImm AkSrl rd rd (c_uimm6 raw))
  else if sel =? 0x1 then Some (OpAluImm AkSra rd rd (c_uimm6 raw))
  else if sel =? 0x2 then Some (OpAluImm AkAnd rd rd (c_imm6 raw))
  else if k 0 0x0 then Some (OpAluReg AkSub rd rd rs2)
  else if k 0 0x1 then Some (OpAluReg AkXor rd rd rs2)
  else if k 0 0x2 then Some (OpAluReg AkOr rd rd rs2)
  else if k 0 0x3 then Some (OpAluReg AkAnd rd rd rs2)
  else if k 1 0x0 then Some (OpAluReg AkSubw rd rd rs2)
  else if k 1 0x1 then Some (OpAluReg AkAddw rd rd rs2)
  else None.

Definition decode_c1 (raw funct : Z) : option Op :=
  let rd := c_rd raw in
  if funct =? 0x0 then Some (OpAluImm AkAdd rd rd (c_imm6 raw))
  else if funct =? 0x1 then Some (OpAluImm AkAddw rd rd (c_imm6 raw))
  else if funct =? 0x2 then Some (OpAluImm AkAdd rd 0 (c_imm6 raw))
  else if funct =? 0x3 then
    if rd =? 2 then Some (OpAluImm AkAdd 2 2 (c_addi16sp_imm raw))
    else Some (OpLui rd (c_lui_imm raw))
  else if funct =? 0x4 then decode_c_alu raw
  else if funct =? 0x5 then Some (OpJal 0 (c_j_imm raw))
  else Some (OpBranch (if funct =? 0x6 then Beq else Bne) (rs1_prime raw) 0 (c_b_imm raw)).

Definition decode_c_jr_mv_add (raw : Z) : option Op :=
  let rd := c_rd raw in
  let rs2 := c_rs2 raw in
  if Z.land (Z.shiftr raw 12) 1 =? 0 then
    if rs2 =? 0 then Some (OpJalr 0 rd 0) else Some (OpAluReg AkAdd rd 0 rs2)
  else if (rd =? 0) && (rs2 =? 0) then None
  else if rs2 =? 0 then Some (OpJalr 1 rd 0)
  else Some (OpAluReg AkAdd rd rd rs2).

Definition decode_c2 (raw funct : Z) : option Op :=
  let rd := c_rd raw in
  let rs2 := c_rs2 raw in
  if funct =? 0x0 then Some (OpAluImm AkSll rd rd (c_uimm6 raw))
  else if funct =? 0x2 then Some (OpLoad Lw rd 2 (c_lwsp_imm raw))
  else if funct =? 0x3 then Some (OpLoad Ld rd 2 (c_ldsp_imm raw))
  else if funct =? 0x4 then decode_c_jr_mv_add raw
  else if funct =? 0x6 then Some (OpStore Sw 2 rs2 (c_swsp_imm raw))
  else if funct =? 0x7 then Some (OpStore Sd 2 rs2 (c_sdsp_imm raw))
  else None.

Definition decode_compressed (raw : Z) : option Op :=
  let quad := quadrant raw in
  let funct := c_funct3 raw in
  if quad =? 0 then decode_c0 raw funct
  else if quad =? 1 then decode_c1 raw funct
  else if quad =? 2 then decode_c2 raw funct
  else None.

(** ** Blocks *)

Definition is_terminator (o : Op) : bool :=
  match o with OpJal _ _ | OpJalr _ _ _ => true | _ => false end.

Section DecodeBlock.
Context {B : Type} {SB : SystemBus B}.

(** The operation and length of the instruction at [offset_in_block]; [None]
    leaves the loop before the instruction. *)
Definition decode_at (physical_address offset_in_block page_end : Z) : ST B (option (Op * Z)) :=
  low_halfword ← read_halfword (wrapping_add64 physical_address offset_in_block);
  if negb (Z.land low_halfword 0x3 =? 0x3) then
    mret (match decode_compressed (as_u16 low_halfword) with
          | Some o => Some (o, 2)
          | None => None
          end)
  else if page_end <? offset_in_block + 4 then mret None
  else
    high_halfword ← read_halfword
      (wrapping_add64 (wrapping_add64 physical_address offset_in_block) 2);
    let raw := Z.lor low_halfword (shl32 high_halfword 16) in
    mret (match decode_full raw with
          | Some o => Some (o, 4)
          | None => if fallback_stops_block raw then None else Some (OpFallback raw, 4)
          end).

(** The loop; [n] is [MAX_BLOCK_OPS - op_count]. *)
Fixpoint decode_loop (n : nat) (physical_address offset_in_block page_end : Z)
    : ST B (list DecodedInsn * Z) :=
  match n with
  | O => mret ([], offset_in_block)
  | S n =>
      if offset_in_block + 2 <=? page_end then
        d ← decode_at physical_address offset_in_block page_end;
        match d with
        | None => mret ([], offset_in_block)
        | Some (o, len) =>
            let insn := mkInsn o (as_u16 offset_in_block) len in
            if is_terminator o then mret ([insn], offset_in_block + len)
            else
              rest ← decode_loop n physical_address (offset_in_block + len) page_end;
              mret (insn :: rest.1, rest.2)
        end
      else mret ([], offset_in_block)
  end.

Definition decode_block (physical_address : Z) : ST B (option Block) :=
  let page_end := 0x1000 - Z.land physical_address 0xfff in
  r ← decode_loop MAX_BLOCK_OPS physical_address 0 page_end;
  mret (match r.1 with
        | [] => None
        | ops => Some (mkBlock ops (as_u32 r.2))
        end).
End DecodeBlock.
