(* ===== verification/BlockExec.v ===== *)
(** Execution of decoded blocks ([riscv-core/src/block.rs]: [alu],
    [exec_block], [do_load], [do_store] and the raw accesses under them).

    Loads and stores first try the host-page tables of the MMU and otherwise go
    through [raw_load]/[raw_store].  The shadow checks the source compiles under
    [debug_assertions] are not part of the modelled build; what they assert is
    proved in [FastPath]. *)
From S2P Require Import Prelude Words Trap Gpr Decode Extensions Csr SystemBus Mmu BlockCache.
From S2P Require Import Context Float SyscallTrace Execute ExecuteFp Interp.

Definition alu (kind : AluKind) (lhs rhs : Z) : Z :=
  match kind with
  | AkAdd => wrapping_add64 lhs rhs
  | AkSub => wrapping_sub64 lhs rhs
  | AkSll => shl64 lhs (Z.land rhs 0x3f)
  | AkSlt => b2u (as_i64 lhs <? as_i64 rhs)
  | AkSltu => b2u (lhs <? rhs)
  | AkXor => Z.lxor lhs rhs
  | AkSrl => Z.shiftr lhs (Z.land rhs 0x3f)
  | AkSra => as_u64 (Z.shiftr (as_i64 lhs) (Z.land rhs 0x3f))
  | AkOr => Z.lor lhs rhs
  | AkAnd => Z.land lhs rhs
  | AkAddw => as_u64 (as_i32 (wrapping_add32 (as_u32 lhs) (as_u32 rhs)))
  | AkSubw => as_u64 (as_i32 (wrapping_sub32 (as_u32 lhs) (as_u32 rhs)))
  | AkSllw => as_u64 (as_i32 (shl32 (as_u32 lhs) (Z.land rhs 0x1f)))
  | AkSrlw => as_u64 (as_i32 (Z.shiftr (as_u32 lhs) (Z.land rhs 0x1f)))
  | AkSraw => as_u64 (Z.shiftr (as_i32 lhs) (Z.land rhs 0x1f))
  | AkMul => mul lhs rhs
  | AkMulh => mulh lhs rhs
  | AkMulhsu => mulhsu lhs rhs
  | AkMulhu => mulhu lhs rhs
  | AkDiv => div lhs rhs
  | AkDivu => divu lhs rhs
  | AkRem => rem lhs rhs
  | AkRemu => remu lhs rhs
  | AkMulw => mulw lhs rhs
  | AkDivw => divw lhs rhs
  | AkDivuw => divuw lhs rhs
  | AkRemw => remw lhs rhs
  | AkRemuw => remuw lhs rhs
  | AkAndn => Z.land lhs (not64 rhs)
  | AkOrn => Z.lor lhs (not64 rhs)
  | AkXnor => Z.lxor lhs (not64 rhs)
  | AkRol => rotate_left 64 lhs (Z.land rhs 0x3f)
  | AkRor => rotate_right 64 lhs (Z.land rhs 0x3f)
  | AkRolw => as_u64 (as_i32 (rotate_left 32 (as_u32 lhs) (Z.land rhs 0x1f)))
  | AkRorw => as_u64 (as_i32 (rotate_right 32 (as_u32 lhs) (Z.land rhs 0x1f)))
  | AkMin => if as_i64 lhs <? as_i64 rhs then lhs else rhs
  | AkMax => if as_i64 rhs <? as_i64 lhs then lhs else rhs
  | AkMinu => Z.min lhs rhs
  | AkMaxu => Z.max lhs rhs
  | AkClz => leading_zeros 64 lhs
  | AkCtz => trailing_zeros 64 lhs
  | AkCpop => count_ones lhs
  | AkClzw => leading_zeros 32 (as_u32 lhs)
  | AkCtzw => trailing_zeros 32 (as_u32 lhs)
  | AkCpopw => count_ones (as_u32 lhs)
  | AkSextB => as_u64 (as_i8 lhs)
  | AkSextH => as_u64 (as_i16 lhs)
  | AkZextH => as_u16 lhs
  | AkRev8 => swap_bytes lhs
  | AkSh1add => wrapping_add64 (shl64 lhs 1) rhs
  | AkSh2add => wrapping_add64 (shl64 lhs 2) rhs
  | AkSh3add => wrapping_add64 (shl64 lhs 3) rhs
  | AkAddUw => wrapping_add64 (as_u32 lhs) rhs
  | AkSh1addUw => wrapping_add64 (shl64 (as_u32 lhs) 1) rhs
  | AkSh2addUw => wrapping_add64 (shl64 (as_u32 lhs) 2) rhs
  | AkSh3addUw => wrapping_add64 (shl64 (as_u32 lhs) 3) rhs
  | AkSlliUw => shl64 (as_u32 lhs) (Z.land rhs 0x3f)
  | AkOrcB =>
      foldl (fun result i =>
        let byte := Z.land (Z.shiftr lhs (i * 8)) 0xFF in
        let out := if negb (byte =? 0) then 0xFF else 0x00 in
        Z.lor result (shl64 out (i * 8))) 0 [0; 1; 2; 3; 4; 5; 6; 7]
  end.

Definition load_kind_size (kind : LoadKind) : nat :=
  match kind with Lb | Lbu => 1 | Lh | Lhu => 2 | Lw | Lwu => 4 | Ld => 8 end.

Definition store_kind_size (kind : StoreKind) : nat :=
  match kind with Sb => 1 | Sh => 2 | Sw => 4 | Sd => 8 end.

Definition extend_load (kind : LoadKind) (raw : Z) : Z :=
  match kind with
  | Lb => as_u64 (as_i8 (as_u8 raw))
  | Lbu => as_u8 raw
  | Lh => as_u64 (as_i16 (as_u16 raw))
  | Lhu => as_u16 raw
  | Lw => as_u64 (as_i32 (as_u32 raw))
  | Lwu => as_u32 raw
  | Ld => raw
  end.

Definition branch_taken (kind : BranchKind) (a b : Z) : bool :=
  match kind with
  | Beq => a =? b
  | Bne => negb (a =? b)
  | Blt => as_i64 a <? as_i64 b
  | Bge => as_i64 b <=? as_i64 a
  | Bltu => a <? b
  | Bgeu => b <=? a
  end.

Section BlockExec.
Context {B : Type} {SB : SystemBus B} {HM : HostMemory B} {FE : FloatEnv}.

(** [match size { 1 => read_byte, 2 => .., 4 => .., _ => read_doubleword }] *)
Definition read_size (size : nat) (physical_address : Z) : ST B Z :=
  match size with
  | 1%nat => read_byte physical_address
  | 2%nat => read_halfword physical_address
  | 4%nat => read_word physical_address
  | _ => read_doubleword physical_address
  end.

Definition write_size (size : nat) (physical_address val : Z) : ST B unit :=
  match size with
  | 1%nat => write_byte physical_address (as_u8 val)
  | 2%nat => write_halfword physical_address (as_u16 val)
  | 4%nat => write_word physical_address (as_u32 val)
  | _ => write_doubleword physical_address val
  end.

(** The unsafe accesses through a host page. *)
Definition host_load (page : HostPtr) (offset_in_page : Z) (size : nat) : ST B Z :=
  fun b => match host_read (host_add page offset_in_page) size b with
           | Some raw => Some (raw, b)
           | None => None
           end.

Definition host_store (page : HostPtr) (offset_in_page : Z) (size : nat) (val : Z) : ST B unit :=
  host_write (host_add page offset_in_page) size (wrap (8 * Z.of_nat size) val).

(** The crossing case fills the first [size] bytes of an eight-byte buffer of
    zeros. *)
Definition raw_load (satp virtual_address : Z) (size : nat) : ST (Mmu * B) (Result Z MmuFault) :=
  let offset_in_page := Z.land virtual_address 0xFFF in
  if 0x1000 <? offset_in_page + Z.of_nat size then
    r ← load_bytes size 0 virtual_address satp;
    mret (match r with
          | Ok bytes => Ok (from_le_bytes (bytes ++ replicate (8 - size) 0))
          | Err fault => Err fault
          end)
  else
    r ← translate_load virtual_address satp;
    match r with
    | Err fault => mret (Err fault)
    | Ok physical_address => v ← mb_bus (read_size size physical_address); mret (Ok v)
    end.

Definition raw_store (satp virtual_address val : Z) (size : nat)
    : ST (Mmu * B * BlockCache) (Result unit MmuFault) :=
  if 0x1000 <? Z.land virtual_address 0xFFF + Z.of_nat size then
    store_bytes (take size (to_le_bytes 8 val)) 0 virtual_address satp
  else
    r ← st_mmu (translate_store virtual_address satp);
    match r with
    | Err fault => mret (Err fault)
    | Ok physical_address =>
        st_notify physical_address;;
        st_bus (write_size size physical_address val);;
        generation ← gets (fun t => code_generation t.2);
        st_mmu (store_fast_fill (Z.shiftr virtual_address 12) satp physical_address generation);;
        mret (Ok tt)
    end.

(** A fault inside a block: [ctx.regs.pc = pc; take_exception(..)]. *)
Definition block_fault (fault : MmuFault) (pc : Z) : ST (ExecContext B) unit :=
  set_pc pc;; take_exception (fault_mcause fault) (fault_tval fault).

Definition do_load_slow (satp : Z) (kind : LoadKind) (virtual_address : Z) (size : nat) (pc : Z)
    : ST (ExecContext B) (Result Z unit) :=
  r ← on_mmu (raw_load satp virtual_address size);
  match r with
  | Ok raw => mret (Ok (extend_load kind raw))
  | Err fault => block_fault fault pc;; mret (Err tt)
  end.

Definition do_load (satp : Z) (kind : LoadKind) (virtual_address pc : Z)
    : ST (ExecContext B) (Result Z unit) :=
  let size := load_kind_size kind in
  let offset_in_page := Z.land virtual_address 0xFFF in
  c ← st_get;
  let hit :=
    if offset_in_page + Z.of_nat size <=? 0x1000
    then load_fast_lookup virtual_address satp (ram_epoch (bus c)) (mmu c) else None in
  match hit with
  | Some host_page =>
      raw ← on_bus (host_load host_page offset_in_page size);
      mret (Ok (extend_load kind raw))
  | None => do_load_slow satp kind virtual_address size pc
  end.

Definition do_store_slow (satp virtual_address val : Z) (size : nat) (pc : Z)
    : ST (ExecContext B) (Result unit unit) :=
  r ← on_store (raw_store satp virtual_address val size);
  match r with
  | Ok u => mret (Ok u)
  | Err fault => block_fault fault pc;; mret (Err tt)
  end.

Definition do_store (satp : Z) (kind : StoreKind) (virtual_address val pc : Z)
    : ST (ExecContext B) (Result unit unit) :=
  let size := store_kind_size kind in
  let offset_in_page := Z.land virtual_address 0xFFF in
  c ← st_get;
  let hit :=
    if offset_in_page + Z.of_nat size <=? 0x1000
    then store_fast_lookup virtual_address satp (ram_epoch (bus c))
           (code_generation (blocks c)) (mmu c) else None in
  match hit with
  | Some host_page =>
      on_bus (host_store host_page offset_in_page size val);;
      mret (Ok tt)
  | None => do_store_slow satp virtual_address val size pc
  end.

(** ** Accesses of translated code whose addresses share a page *)

Definition load_span_page (satp span_lo span_hi : Z) : ST (ExecContext B) (option HostPtr) :=
  if negb (Z.shiftr span_lo 12 =? Z.shiftr span_hi 12) then mret None
  else gets (fun c => load_fast_lookup span_lo satp (ram_epoch (bus c)) (mmu c)).

Definition store_span_page (satp span_lo span_hi : Z) : ST (ExecContext B) (option HostPtr) :=
  if negb (Z.shiftr span_lo 12 =? Z.shiftr span_hi 12) then mret None
  else gets (fun c => store_fast_lookup span_lo satp (ram_epoch (bus c))
                        (code_generation (blocks c)) (mmu c)).

Definition span_load (host_page : HostPtr) (kind : LoadKind) (virtual_address : Z)
    : ST (ExecContext B) Z :=
  raw ← on_bus (host_load host_page (Z.land virtual_address 0xFFF) (load_kind_size kind));
  mret (extend_load kind raw).

Definition span_store (host_page : HostPtr) (kind : StoreKind) (virtual_address val : Z)
    : ST (ExecContext B) unit :=
  on_bus (host_store host_page (Z.land virtual_address 0xFFF) (store_kind_size kind) val).

(** ** [exec_block] *)

Definition read_m (r : Z) : ST (ExecContext B) Z := gets (fun c => read_masked r (regs c)).
Definition write_m (r v : Z) : ST (ExecContext B) unit :=
  modify (fun c => c <| regs := write_masked r v (regs c) |>).

(** What the match on the operation does to the loop: fall through to the next
    instruction (retiring this one), [continue] after a fallback with the new
    [satp], or return. *)
Inductive OpFlow : Type :=
| FlowNext
| FlowContinue (satp : Z)
| FlowReturn (retired : Z) (result : StepResult).

(** One iteration; [retired] and [pending] are the two counters. *)
Definition exec_op (i : DecodedInsn) (pc retired pending satp : Z) : ST (ExecContext B) OpFlow :=
  match op i with
  | OpLui rd imm => write_m rd (as_u64 imm);; mret FlowNext
  | OpAuipc rd imm => write_m rd (wrapping_add64 pc (as_u64 imm));; mret FlowNext
  | OpAluImm kind rd rs1 imm =>
      a ← read_m rs1;
      write_m rd (alu kind a (as_u64 imm));;
      mret FlowNext
  | OpAluReg kind rd rs1 rs2 =>
      a ← read_m rs1;
      b ← read_m rs2;
      write_m rd (alu kind a b);;
      mret FlowNext
  | OpLoad kind rd rs1 imm =>
      base ← read_m rs1;
      r ← do_load satp kind (wrapping_add64 base (as_u64 imm)) pc;
      match r with
      | Ok v => write_m rd v;; mret FlowNext
      | Err _ => add_instret pending;; mret (FlowReturn (retired + 1) StepOk)
      end
  | OpStore kind rs1 rs2 imm =>
      base ← read_m rs1;
      val ← read_m rs2;
      r ← do_store satp kind (wrapping_add64 base (as_u64 imm)) val pc;
      match r with
      | Ok _ => mret FlowNext
      | Err _ => add_instret pending;; mret (FlowReturn (retired + 1) StepOk)
      end
  | OpBranch kind rs1 rs2 offset =>
      a ← read_m rs1;
      b ← read_m rs2;
      if branch_taken kind a b then
        set_pc (wrapping_add64 pc (as_u64 offset));;
        add_instret (pending + 1);;
        mret (FlowReturn (retired + 1) StepOk)
      else mret FlowNext
  | OpJal rd offset =>
      write_m rd (wrapping_add64 pc (ilen i));;
      set_pc (wrapping_add64 pc (as_u64 offset));;
      add_instret (pending + 1);;
      mret (FlowReturn (retired + 1) StepOk)
  | OpJalr rd rs1 imm =>
      base ← read_m rs1;
      let target := Z.land (wrapping_add64 base (as_u64 imm)) (not64 1) in
      write_m rd (wrapping_add64 pc (ilen i));;
      set_pc target;;
      add_instret (pending + 1);;
      mret (FlowReturn (retired + 1) StepOk)
  | OpFallback raw =>
      set_pc pc;;
      add_instret pending;;
      result ← exec_raw raw pc;
      c ← st_get;
      let next_pc := wrapping_add64 pc (ilen i) in
      if negb (bool_decide (result = StepOk)) || negb (Gpr.pc (regs c) =? next_pc)
         || is_waiting c
      then mret (FlowReturn (retired + 1) result)
      else
        let new_satp := ctx_satp c in
        if negb (new_satp =? satp) then mret (FlowReturn (retired + 1) result)
        else mret (FlowContinue new_satp)
  end.

Fixpoint exec_ops (l : list DecodedInsn) (entry_pc byte_len retired pending satp : Z)
    : ST (ExecContext B) (Z * StepResult) :=
  match l with
  | [] =>
      set_pc (wrapping_add64 entry_pc byte_len);;
      add_instret pending;;
      mret (retired, StepOk)
  | i :: rest =>
      let pc := wrapping_add64 entry_pc (pc_off i) in
      flow ← exec_op i pc retired pending satp;
      match flow with
      | FlowNext => exec_ops rest entry_pc byte_len (retired + 1) (pending + 1) satp
      | FlowContinue satp => exec_ops rest entry_pc byte_len (retired + 1) 0 satp
      | FlowReturn retired result => mret (retired, result)
      end
  end.

Definition exec_block (block : Block) (entry_pc satp : Z) : ST (ExecContext B) (Z * StepResult) :=
  exec_ops (ops block) entry_pc (byte_len block) 0 0 satp.
End BlockExec.
