(* ===== verification/Run.v ===== *)
(** The run loop and the hart ([riscv-core/src/execute.rs]: [step], [run_impl],
    [run], [run_until_wait], [aot_page_key]; [riscv-core/src/hart.rs]).

    [run_impl] is a loop with an instruction budget; an iteration that drops a
    spurious interrupt does not consume budget.  The loop below carries fuel and
    reports its exhaustion as a value of its own ([None] in the result), so that
    it cannot be mistaken for a return or a panic; [run_fuel] is the amount
    [run_impl] gives it. *)
From S2P Require Import Prelude Words Trap Gpr Decode Csr SystemBus Mmu BlockCache Context Float.
From S2P Require Import SyscallTrace Execute ExecuteFp Interp BlockDecode BlockExec.

Definition clear_mip (bits : Z) (c : Csr) : Csr := c <| mip := Z.land (mip c) (not64 bits) |>.

Section Run.
Context {B : Type} {SB : SystemBus B} {HM : HostMemory B} {FE : FloatEnv}.

(** The check of a pending interrupt against the devices: [true] when the
    interrupt line is no longer raised and its [mip] bits were cleared. *)
Definition spurious_interrupt (irq : Z) : ST (ExecContext B) bool :=
  timer ← gets (fun c => timer_interrupt_pending (bus c));
  if (irq =? 7) && bool_decide (timer = Some false) then
    mod_csr (clear_mip MIP_MTIP);; mret true
  else if (irq =? IRQ_MEI) || (irq =? IRQ_SEI) then
    external ← on_bus external_interrupt_pending;
    if bool_decide (external = Some false) then
      mod_csr (clear_mip (Z.lor MIP_MEIP MIP_SEIP));; mret true
    else mret false
  else mret false.

(** [ctx.fetch_tlb.flush(); *ctx.is_waiting = false; take_interrupt(ctx, irq)] *)
Definition accept_interrupt (irq : Z) : ST (ExecContext B) StepResult :=
  modify (fun c => c <| fetch_tlb := fetch_tlb_flush (fetch_tlb c) |> <| is_waiting := false |>);;
  take_interrupt irq.

(** The physical address of [pc] through the fetch TLB. *)
Definition fetch_address (pc satp : Z) : ST (ExecContext B) (Result Z MmuFault) :=
  let virtual_page := Z.shiftr pc 12 in
  c ← st_get;
  match fetch_tlb_lookup virtual_page satp (fetch_tlb c) with
  | Some ppage => mret (Ok (join_page ppage pc))
  | None =>
      r ← on_mmu (translate_fetch pc satp);
      match r with
      | Ok pa =>
          modify (fun c => c <| fetch_tlb :=
                    fetch_tlb_insert virtual_page (Z.shiftr pa 12) satp (fetch_tlb c) |>);;
          mret (Ok pa)
      | Err fault => mret (Err fault)
      end
  end.

(** The encoding at a translated address: two halfword reads when the
    instruction may cross the page, otherwise the instruction cache. *)
Definition fetch_encoding (pc satp pa : Z) : ST (ExecContext B) (Result Z MmuFault) :=
  if Z.land pa 0xfff =? 0xffe then
    lo ← on_bus (read_halfword pa);
    if negb (Z.land lo 0x3 =? 0x3) then mret (Ok lo)
    else
      let next_pc := wrapping_add64 pc 2 in
      r ← on_mmu (translate_fetch next_pc satp);
      match r with
      | Err fault => mret (Err fault)
      | Ok next_pa =>
          modify (fun c => c <| fetch_tlb :=
                    fetch_tlb_insert (Z.shiftr next_pc 12) (Z.shiftr next_pa 12) satp
                      (fetch_tlb c) |>);;
          hi ← on_bus (read_halfword next_pa);
          mret (Ok (Z.lor lo (shl32 hi 16)))
      end
  else
    let idx := Z.land (Z.shiftr pa 1) (ICACHE_SIZE - 1) in
    let tag := Z.shiftr pa ICACHE_TAG_SHIFT in
    c ← st_get;
    if arr_get (icache_tags c) idx =? tag then mret (Ok (arr_get (icache_data c) idx))
    else
      w ← on_bus (read_word pa);
      modify (fun c => c <| icache_tags := arr_set (icache_tags c) idx tag |>
                         <| icache_data := arr_set (icache_data c) idx w |>);;
      mret (Ok w).

(** [step] after the interrupt check. *)
Definition step_instruction : ST (ExecContext B) StepResult :=
  pc ← get_pc;
  satp ← gets ctx_satp;
  r ← fetch_address pc satp;
  match r with
  | Err fault => trap_from_mmu fault
  | Ok pa =>
      e ← fetch_encoding pc satp pa;
      match e with
      | Err fault => trap_from_mmu fault
      | Ok encoding => exec_raw encoding pc
      end
  end.

Definition step : ST (ExecContext B) StepResult :=
  halted ← gets shutdown_requested;
  if (halted : bool) then mret StepHalt
  else
    pending ← gets (fun c => pending_interrupt (priv_mode c) (csr c));
    match pending with
    | Some irq =>
        spurious ← spurious_interrupt irq;
        if (spurious : bool) then step_instruction else accept_interrupt irq
    | None => step_instruction
    end.

(** How one iteration of the loop ends: [continue] after consuming [used]
    instructions of budget, or [return]. *)
Inductive LoopFlow : Type :=
| LoopContinue (used : Z)
| LoopReturn (result : StepResult).

(** Run a block and account for it. *)
Definition run_block (stop_on_wfi : bool) (block : Block) (pc satp : Z)
    : ST (ExecContext B) LoopFlow :=
  r ← exec_block block pc satp;
  match r.2 with
  | StepOk =>
      waiting ← gets is_waiting;
      mret (if stop_on_wfi && waiting then LoopReturn StepOk else LoopContinue r.1)
  | other => mret (LoopReturn other)
  end.

(** The part of an iteration after the interrupt check. *)
Definition run_fetched (stop_on_wfi : bool) : ST (ExecContext B) LoopFlow :=
  pc ← get_pc;
  satp ← gets ctx_satp;
  f ← fetch_address pc satp;
  match f with
  | Err fault =>
      r ← trap_from_mmu fault;
      mret (match r with StepOk => LoopContinue 1 | other => LoopReturn other end)
  | Ok fetch_pa =>
      cached ← gets (fun c => cache_lookup fetch_pa (blocks c));
      match cached with
      | Some block => run_block stop_on_wfi block pc satp
      | None =>
          decoded ← on_bus (decode_block fetch_pa);
          match decoded with
          | Some block =>
              mod_blocks (cache_insert fetch_pa block);;
              run_block stop_on_wfi block pc satp
          | None =>
              r ← step;
              match r with
              | StepOk =>
                  waiting ← gets is_waiting;
                  mret (if stop_on_wfi && waiting then LoopReturn StepOk else LoopContinue 1)
              | other => mret (LoopReturn other)
              end
          end
      end
  end.

Definition run_iteration (stop_on_wfi : bool) : ST (ExecContext B) LoopFlow :=
  pending ← gets (fun c => pending_interrupt (priv_mode c) (csr c));
  match pending with
  | Some irq =>
      spurious ← spurious_interrupt irq;
      if (spurious : bool) then mret (LoopContinue 0)
      else
        r ← accept_interrupt irq;
        mret (match r with StepOk => LoopContinue 1 | other => LoopReturn other end)
  | None => run_fetched stop_on_wfi
  end.

Fixpoint run_loop (fuel : nat) (stop_on_wfi : bool) (remaining : Z)
    : ST (ExecContext B) (option StepResult) :=
  if 0 <? remaining then
    match fuel with
    | O => mret None
    | S fuel =>
        flow ← run_iteration stop_on_wfi;
        match flow with
        | LoopReturn result => mret (Some result)
        | LoopContinue used => run_loop fuel stop_on_wfi (as_i64 (remaining - used))
        end
    end
  else mret (Some StepOk).

(** At most two iterations in a row drop a spurious interrupt: the timer's, and
    the external lines'. *)
Definition run_fuel (remaining : Z) : nat := Z.to_nat (3 * remaining + 2).

Definition run_impl (stop_on_wfi : bool) (max_steps : Z) : ST (ExecContext B) (option StepResult) :=
  halted ← gets shutdown_requested;
  if (halted : bool) then mret (Some StepHalt)
  else
    let remaining := as_i64 max_steps in
    run_loop (run_fuel remaining) stop_on_wfi remaining.

Definition run (max_steps : Z) : ST (ExecContext B) (option StepResult) := run_impl false max_steps.
Definition run_until_wait (max_steps : Z) : ST (ExecContext B) (option StepResult) :=
  run_impl true max_steps.

(** ** The content hash of a page, for translated code *)

Fixpoint page_hash (n : nat) (base i hash : Z) : ST B Z :=
  match n with
  | O => mret hash
  | S n =>
      w ← read_doubleword (wrapping_add64 base (i * 8));
      page_hash n base (i + 1) (wrapping_mul64 (Z.lxor hash w) 0x00000100000001b3)
  end.

Definition aot_page_key_hash (fetch_pa page : Z) : ST (ExecContext B) (option Z) :=
  hash ← on_bus (page_hash 512 (shl64 page 12) 0 0xcbf29ce484222325);
  c ← st_get;
  let r := aot_record_hash page hash (blocks c) in
  mod_blocks (fun _ => r.2);;
  mret (option_map (fun orig => join_page orig fetch_pa) r.1).

Definition aot_page_key (fetch_pa : Z) : ST (ExecContext B) (option Z) :=
  let page := Z.shiftr fetch_pa 12 in
  c ← st_get;
  match aot_resolve page (blocks c) with
  | AotHit orig => mret (Some (join_page orig fetch_pa))
  | AotMissing => mret None
  | AotUndetermined => aot_page_key_hash fetch_pa page
  end.
End Run.

(** ** [Hart] *)

Record Hart := mkHart {
  hart_regs : Gpr;
  hart_csr : Csr;
  hart_mmu : Mmu;
  hart_priv_mode : PrivMode;
  hart_lr_addr : option Z;
  hart_fetch_tlb : arr FetchTlbEntry;
  hart_icache_tags : arr Z;
  hart_icache_data : arr Z;
  hart_is_waiting : bool;
  hart_shutdown_requested : bool;
  hart_blocks : BlockCache
}.
#[export] Instance Hart_eta : Eta Hart := fun h =>
  mkHart (hart_regs h) (hart_csr h) (hart_mmu h) (hart_priv_mode h) (hart_lr_addr h)
    (hart_fetch_tlb h) (hart_icache_tags h) (hart_icache_data h) (hart_is_waiting h)
    (hart_shutdown_requested h) (hart_blocks h).

Definition hart_new (entry : Z) : Hart := {|
  hart_regs := gpr_new entry;
  hart_csr := csr_new;
  hart_mmu := mmu_new;
  hart_priv_mode := PrivM;
  hart_lr_addr := None;
  hart_fetch_tlb := fetch_tlb_new;
  hart_icache_tags := arr_new U64_MAX;
  hart_icache_data := arr_new 0;
  hart_is_waiting := false;
  hart_shutdown_requested := false;
  hart_blocks := cache_new
|}.

Definition invalidate_icache (h : Hart) : Hart :=
  h <| hart_icache_tags := arr_new U64_MAX |> <| hart_blocks := flush_all (hart_blocks h) |>.

(** The borrow of a hart's parts and the bus, and what it leaves behind. *)
Definition hart_ctx {B} (h : Hart) (b : B) : ExecContext B :=
  mkCtx (hart_regs h) (hart_csr h) (hart_mmu h) b (hart_priv_mode h) (hart_lr_addr h)
    (hart_fetch_tlb h) (hart_icache_tags h) (hart_icache_data h) (hart_is_waiting h)
    (hart_shutdown_requested h) (hart_blocks h).
Definition ctx_hart {B} (c : ExecContext B) : Hart :=
  mkHart (regs c) (csr c) (mmu c) (priv_mode c) (lr_addr c) (fetch_tlb c) (icache_tags c)
    (icache_data c) (is_waiting c) (shutdown_requested c) (blocks c).

Definition with_hart {B A} (m : ST (ExecContext B) A) : ST (Hart * B) A :=
  zoom (fun s => hart_ctx s.1 s.2) (fun c _ => (ctx_hart c, bus c)) m.

Section HartOps.
Context {B : Type} {SB : SystemBus B} {HM : HostMemory B} {FE : FloatEnv}.

Definition hart_step : ST (Hart * B) StepResult := with_hart step.
Definition hart_run (max_steps : Z) : ST (Hart * B) (option StepResult) :=
  with_hart (run max_steps).
Definition hart_run_until_wait (max_steps : Z) : ST (Hart * B) (option StepResult) :=
  with_hart (run_until_wait max_steps).
End HartOps.
