(* ===== verification/ValueProps.v ===== *)
(** Ranges of the values instructions compute, and the agreement of the block
    executor's [alu] with the interpreter's arithmetic. *)
From S2P Require Import Prelude Words Trap Gpr Decode Extensions Csr SystemBus Mmu BlockCache.
From S2P Require Import BlockCacheProps Context Float SyscallTrace Execute ExecuteFp Interp.
From S2P Require Import BlockDecode BlockExec.

(** ** Offsets are even *)

Lemma even_signed w z : 0 < w → even (signed w z) ↔ even z.
Proof.
  intros Hw. unfold signed. case_if; [by apply even_wrap|].
  rewrite <- (even_wrap w z) by done. rewrite !even_mod.
  replace (wrap w z - 2 ^ w) with (wrap w z + (- 2 ^ (w - 1)) * 2)
    by (rewrite (pow2_half w Hw); lia).
  by rewrite Z_mod_plus_full.
Qed.

Lemma even_sign_extend v n : 0 < n <= 64 → even v → even (sign_extend v n).
Proof. intros Hn Hv. rewrite sign_extend_signed by done. apply even_signed; [lia | done]. Qed.

Lemma even_shiftl v n : 0 < n → even (Z.shiftl v n).
Proof. intros. apply Z.shiftl_spec_low. lia. Qed.

Lemma even_lor a b : even a → even b → even (Z.lor a b).
Proof. unfold even. intros Ha Hb. by rewrite Z.lor_spec, Ha, Hb. Qed.

Create HintDb even.
#[local] Hint Resolve even_sign_extend even_lor even_shiftl : even.
#[local] Hint Extern 1 (_ < _) => lia : even.
#[local] Hint Extern 1 (_ < _ <= _) => lia : even.

Lemma imm_b_even raw : even (imm_b raw).
Proof. unfold imm_b. auto 10 with even. Qed.
Lemma imm_j_even raw : even (imm_j raw).
Proof. unfold imm_j. auto 10 with even. Qed.
Lemma c_j_imm_even raw : even (c_j_imm raw).
Proof. unfold c_j_imm, bits_at. auto 20 with even. Qed.
Lemma c_b_imm_even raw : even (c_b_imm raw).
Proof. unfold c_b_imm, bits_at. auto 20 with even. Qed.

#[export] Hint Resolve imm_b_even imm_j_even c_j_imm_even c_b_imm_even : vpod.

(** ** Results are 64-bit words *)

Lemma as_u64_word z : is_u64 (as_u64 z).
Proof. apply wrap_range. lia. Qed.
Lemma shl64_word a n : is_u64 (shl64 a n).
Proof. apply wrap_range. lia. Qed.
Lemma narrow_word w a : 0 <= w <= 64 → is_u64 (wrap w a).
Proof. intros. apply (is_word_mono w); [lia|]. apply wrap_range. lia. Qed.
Lemma as_u16_word64 a : is_u64 (as_u16 a).
Proof. apply narrow_word. lia. Qed.
Lemma as_u32_word64 a : is_u64 (as_u32 a).
Proof. apply narrow_word. lia. Qed.
Lemma as_u8_word64 a : is_u64 (as_u8 a).
Proof. apply narrow_word. lia. Qed.

Lemma leading_zeros_word w a : 0 <= w <= 64 → is_word w a → is_u64 (leading_zeros w a).
Proof.
  intros Hw [Ha Hb]. unfold leading_zeros, is_word. case_if; [lia|]. bools.
  pose proof (Z.log2_nonneg a). assert (Z.log2 a < w) by (apply Z.log2_lt_pow2; lia). lia.
Qed.

Lemma pos_ctz_bound p : 0 <= pos_ctz p <= Z.log2 (Zpos p).
Proof.
  induction p as [p IH|p IH|]; cbn [pos_ctz]; [pose proof (Z.log2_nonneg (Zpos p~1)); lia| |done].
  rewrite Pos2Z.inj_xO, Z.log2_double by lia. lia.
Qed.

Lemma trailing_zeros_word w a : 0 <= w <= 64 → is_word w a → is_u64 (trailing_zeros w a).
Proof.
  intros Hw [Ha Hb]. unfold trailing_zeros, is_word. destruct a as [|p|p]; [lia| |lia].
  pose proof (pos_ctz_bound p). assert (Z.log2 (Zpos p) < w) by (apply Z.log2_lt_pow2; lia). lia.
Qed.

Lemma pos_ones_bound p : 0 <= pos_ones p <= Z.log2 (Zpos p) + 1.
Proof.
  induction p as [p IH|p IH|]; cbn [pos_ones]; [| |done].
  - rewrite Pos2Z.inj_xI, Z.log2_succ_double by lia. lia.
  - rewrite Pos2Z.inj_xO, Z.log2_double by lia. lia.
Qed.

Lemma count_ones_bound w a : 0 <= w → is_word w a → 0 <= count_ones a <= w.
Proof.
  intros Hw [Ha Hb]. unfold count_ones. destruct a as [|p|p]; [lia| |lia].
  pose proof (pos_ones_bound p). assert (Z.log2 (Zpos p) < w) by (apply Z.log2_lt_pow2; lia). lia.
Qed.

Lemma swap_bytes_word a : is_u64 (swap_bytes a).
Proof.
  unfold swap_bytes.
  assert (H : Forall is_u8 (rev (to_le_bytes 8 a))) by apply Forall_rev, to_le_bytes_bytes.
  apply from_le_bytes_range in H. by rewrite length_rev, length_to_le_bytes in H.
Qed.

Lemma orc_b_word a : is_u64 (orc_b a).
Proof. unfold orc_b. cbn [foldl]. repeat (apply lor_word; [lia| |apply shl64_word]). done. Qed.

#[export] Hint Resolve as_u64_word shl64_word as_u16_word64 as_u32_word64 as_u8_word64
  swap_bytes_word orc_b_word : vpod.

Lemma count_ones_word w a : 0 <= w <= 64 → is_word w a → is_u64 (count_ones a).
Proof. intros Hw Ha. pose proof (count_ones_bound w a ltac:(lia) Ha). unfold is_word. lia. Qed.

Lemma max_word : is_u64 U64_MAX.
Proof. done. Qed.

Lemma div_words :
  ∀ a b, is_u64 (div a b) ∧ is_u64 (divw a b) ∧ is_u64 (divuw a b) ∧ is_u64 (remw a b)
         ∧ is_u64 (remuw a b) ∧ is_u64 (mulh a b) ∧ is_u64 (mulhu a b) ∧ is_u64 (mulhsu a b)
         ∧ is_u64 (mul a b) ∧ is_u64 (mulw a b).
Proof.
  intros a b. unfold div, divw, divuw, remw, remuw, mulh, mulhu, mulhsu, mul, mulw, wrapping_mul64.
  cbv zeta. split_and!; repeat case_if; auto using max_word with vpod; done.
Qed.

Lemma divu_word a b : is_u64 a → is_u64 b → is_u64 (divu a b).
Proof.
  intros [Ha Ha'] [Hb Hb']. unfold divu. case_if; [done|]. bools. split.
  - apply Z.div_pos; lia.
  - apply Z.le_lt_trans with a; [|done]. apply Z.div_le_upper_bound; nia.
Qed.

Lemma remu_word a b : is_u64 a → is_u64 b → is_u64 (remu a b).
Proof.
  intros Ha [Hb Hb']. unfold remu. case_if; [done|]. bools. unfold is_word.
  pose proof (Z.mod_pos_bound a b ltac:(lia)). lia.
Qed.

Lemma rem_word a b : is_u64 a → is_u64 (rem a b).
Proof. intros Ha. unfold rem. repeat case_if; auto with vpod. done. Qed.

Lemma min_max_word a b : is_u64 a → is_u64 b → is_u64 (Z.min a b) ∧ is_u64 (Z.max a b).
Proof. unfold is_word. lia. Qed.

Lemma rotate_words w a n : 0 <= w <= 64 → is_u64 (rotate_left w a n) ∧ is_u64 (rotate_right w a n).
Proof. intros. split; by apply narrow_word. Qed.

Lemma land_3f_nonneg a : 0 <= Z.land a 0x3f.
Proof. apply Z.land_nonneg. by right. Qed.

Lemma alu_word k a b : is_u64 a → is_u64 b → is_u64 (alu k a b).
Proof.
  intros Ha Hb. destruct (div_words a b) as (?&?&?&?&?&?&?&?&?&?).
  destruct (min_max_word a b Ha Hb) as [? ?]. destruct (rotate_words 64 a (Z.land b 0x3f)) as [? ?]; [lia|].
  assert (is_u32 (as_u32 a)) by (apply wrap_range; lia).
  destruct k; cbn [alu]; auto with vpod; try (unfold wrapping_sub64; auto with vpod; fail).
  - apply shiftr_word; [apply land_3f_nonneg | done].
  - by apply divu_word.
  - by apply rem_word.
  - by apply remu_word.
  - by case_if.
  - by case_if.
  - apply leading_zeros_word; [lia | done].
  - apply trailing_zeros_word; [lia | done].
  - apply (count_ones_word 64); [lia | done].
  - apply leading_zeros_word; [lia | done].
  - apply trailing_zeros_word; [lia | done].
  - apply (count_ones_word 32); [lia | done].
  - apply (orc_b_word a).
Qed.

(** ** [alu] on decoded operands is the interpreter's arithmetic *)

Lemma land_mask_range a n : 0 <= n → 0 <= Z.land a (Z.ones n) < 2 ^ n.
Proof. apply land_ones_range. Qed.

Lemma land_mask_idem a m : Z.land (Z.land a m) m = Z.land a m.
Proof. by rewrite <- Z.land_assoc, Z.land_diag. Qed.

Lemma shamt_word a m : is_u8 m → as_u64 (Z.land a m) = Z.land a m.
Proof.
  intros Hm. apply wrap_id, (is_word_mono 8); [lia|]. apply land_word_r; [lia | done].
Qed.

Lemma shamt6 a : Z.land (as_u64 (Z.land a 0x3f)) 0x3f = Z.land a 0x3f.
Proof. by rewrite shamt_word, land_mask_idem. Qed.

Lemma shamt5 a : Z.land (as_u64 (Z.land a 0x1f)) 0x1f = Z.land a 0x1f.
Proof. by rewrite shamt_word, land_mask_idem. Qed.

Definition is_i64 (z : Z) : Prop := - 2 ^ 63 <= z < 2 ^ 63.

Lemma i64_roundtrip z : is_i64 z → as_i64 (as_u64 z) = z.
Proof. intros H. unfold as_i64, as_u64. rewrite signed_wrap. by apply signed_id. Qed.

Lemma as_u32_as_u64 z : as_u32 (as_u64 z) = as_u32 z.
Proof. apply wrap_wrap_le. lia. Qed.

Lemma small_word_value n : 0 <= n < 2 ^ 31 → as_u64 (as_i32 n) = n.
Proof.
  intros Hn. unfold as_i32, as_u64. rewrite signed_id by lia. apply wrap_id. unfold is_word. lia.
Qed.

Lemma word_counts a :
  let w := as_u32 a in
  as_u64 (as_i32 (leading_zeros 32 w)) = leading_zeros 32 w ∧
  as_u64 (as_i32 (trailing_zeros 32 w)) = trailing_zeros 32 w ∧
  as_u64 (as_i32 (count_ones w)) = count_ones w.
Proof.
  intros w. assert (Hw : is_u32 w) by (apply wrap_range; lia). destruct Hw as [Hw Hw'].
  split_and!; apply small_word_value.
  - unfold leading_zeros. case_if; [lia|]. bools. pose proof (Z.log2_nonneg w).
    assert (Z.log2 w < 32) by (apply Z.log2_lt_pow2; lia). lia.
  - unfold trailing_zeros. destruct w as [|p|p]; [lia| |lia].
    pose proof (pos_ctz_bound p). assert (Z.log2 (Zpos p) < 32) by (apply Z.log2_lt_pow2; lia). lia.
  - pose proof (count_ones_bound 32 w ltac:(lia) (conj Hw Hw')). lia.
Qed.

Lemma decode_op_imm_alu f3 f7 imm k i a :
  is_i64 imm → decode_op_imm f3 f7 imm = Some (k, i) →
  op_imm_value f3 f7 a imm = Some (alu k a (as_u64 i)).
Proof.
  intros Hi. unfold decode_op_imm, op_imm_value. cbv zeta.
  destruct (f3 =? 0x0); [by intros [= <- <-]|].
  destruct (f3 =? 0x1).
  { repeat (case_if; try done); intros [= <- <-]; cbn [alu]; by rewrite ?shamt6. }
  destruct (f3 =? 0x2); [intros [= <- <-]; cbn [alu]; by rewrite i64_roundtrip|].
  destruct (f3 =? 0x3); [by intros [= <- <-]|].
  destruct (f3 =? 0x4); [by intros [= <- <-]|].
  destruct (f3 =? 0x5).
  { destruct (Z.shiftr f7 1 =? 0x00); [intros [= <- <-]; cbn [alu]; by rewrite shamt6|].
    destruct (Z.shiftr f7 1 =? 0x10); [intros [= <- <-]; cbn [alu]; by rewrite shamt6|].
    destruct (_ && (Z.land imm 0x3f =? 7)); [by intros [= <- <-]|].
    destruct (Z.shiftr f7 1 =? 0x35), (Z.land imm 0x3f =? 24), (Z.land imm 0x3f =? 8); cbn [andb orb];
      try (by intros [= <- <-]);
      (destruct (Z.shiftr f7 1 =? 0x18); [|done]); intros [= <- <-]; cbn [alu]; by rewrite shamt6. }
  destruct (f3 =? 0x6); [by intros [= <- <-]|].
  destruct (f3 =? 0x7); [by intros [= <- <-] | done].
Qed.

Lemma decode_op_imm32_alu f3 f7 imm k i a :
  decode_op_imm32 f3 f7 imm = Some (k, i) →
  op_imm32_value f3 f7 a imm = Some (alu k a (as_u64 i)).
Proof.
  destruct (word_counts a) as (Hc & Ht & Hp). cbv zeta in *.
  unfold decode_op_imm32, op_imm32_value. cbv zeta.
  destruct (Z.eqb_spec f3 0) as [->|].
  { intros [= <- <-]. cbn [Z.eqb andb alu]. by rewrite as_u32_as_u64. }
  destruct ((f3 =? 0x1) && _); [intros [= <- <-]; cbn [alu]; by rewrite shamt6|].
  destruct (f3 =? 0x1).
  { repeat (case_if; try done); intros [= <- <-]; cbn [alu]; by rewrite ?shamt5, ?Hc, ?Ht, ?Hp. }
  repeat (case_if; try done); intros [= <- <-]; cbn [alu]; rewrite ?shamt5; try done.
  by unfold as_i32, as_u32; rewrite signed_wrap.
Qed.

Lemma decode_op_reg_alu f3 f7 k a b :
  decode_op_reg f3 f7 = Some k → op_reg_value f3 f7 a b = Some (alu k a b).
Proof.
  unfold decode_op_reg, op_reg_value. cbv zeta.
  repeat (case_if; [by intros [= <-]|]). done.
Qed.

Lemma decode_op_reg32_alu f3 f7 r k a b :
  decode_op_reg32 f3 f7 r = Some k → op_reg32_value f3 f7 r a b = Some (alu k a b).
Proof.
  unfold decode_op_reg32, op_reg32_value. cbv zeta.
  repeat (case_if; [by intros [= <-]|]). done.
Qed.

Lemma decode_branch_taken f3 k a b :
  decode_branch_kind f3 = Some k → branch_cond f3 a b = Some (branch_taken k a b).
Proof.
  unfold decode_branch_kind, branch_cond, FUNCT3_BEQ, FUNCT3_BNE, FUNCT3_BLT, FUNCT3_BGE,
    FUNCT3_BLTU, FUNCT3_BGEU.
  repeat (case_if; [by intros [= <-]|]). done.
Qed.

(** ** The interpreter's values are words *)

Lemma land_nonneg_r a m : 0 <= m → 0 <= Z.land a m.
Proof. intros. apply Z.land_nonneg. by right. Qed.

Lemma op_imm_value_word f3 f7 a imm v :
  is_u64 a → op_imm_value f3 f7 a imm = Some v → is_u64 v.
Proof.
  intros Ha. assert (0 <= Z.land imm 0x3f) by (apply land_nonneg_r; lia).
  unfold op_imm_value. cbv zeta.
  repeat (case_if; try done); intros [= <-]; auto with vpod.
  - apply leading_zeros_word; [lia | done].
  - apply trailing_zeros_word; [lia | done].
  - apply (count_ones_word 64); [lia | done].
  - apply rotate_words. lia.
Qed.

Lemma op_imm32_value_word f3 f7 a imm v : op_imm32_value f3 f7 a imm = Some v → is_u64 v.
Proof.
  unfold op_imm32_value. cbv zeta. case_if; [intros [= <-]; auto with vpod|].
  destruct (if f3 =? 0 then _ else _); [intros [= <-]; auto with vpod | done].
Qed.

Lemma op_reg_value_word f3 f7 a b v :
  is_u64 a → is_u64 b → op_reg_value f3 f7 a b = Some v → is_u64 v.
Proof.
  intros Ha Hb. destruct (decode_op_reg f3 f7) as [k|] eqn:Ek.
  - rewrite (decode_op_reg_alu _ _ _ _ _ Ek). intros [= <-]. by apply alu_word.
  - revert Ek. unfold decode_op_reg, op_reg_value. cbv zeta. repeat (case_if; [done|]). done.
Qed.

Lemma op_reg32_value_word f3 f7 r a b v :
  is_u64 a → is_u64 b → op_reg32_value f3 f7 r a b = Some v → is_u64 v.
Proof.
  intros Ha Hb. destruct (decode_op_reg32 f3 f7 r) as [k|] eqn:Ek.
  - rewrite (decode_op_reg32_alu _ _ _ _ _ _ Ek). intros [= <-]. by apply alu_word.
  - revert Ek. unfold decode_op_reg32, op_reg32_value. cbv zeta. repeat (case_if; [done|]). done.
Qed.

Lemma amo_d_op_words f5 m s r n :
  is_u64 m → is_u64 s → amo_d_op f5 m s = Some (r, n) → is_u64 r ∧ is_u64 n.
Proof.
  intros Hm Hs. destruct (min_max_word m s Hm Hs).
  unfold amo_d_op. repeat (case_if; [intros [= <- <-]; split; auto with vpod|]). done.
Qed.

Lemma word32_ops m s :
  is_u32 m → is_u32 s →
  is_u32 (Z.lxor m s) ∧ is_u32 (Z.land m s) ∧ is_u32 (Z.lor m s) ∧ is_u32 (Z.min m s)
  ∧ is_u32 (Z.max m s) ∧ is_u32 (wrapping_add32 m s).
Proof.
  intros Hm Hs. split_and!; auto with vpod; unfold is_word in *; try lia.
  apply Z.mod_pos_bound. lia.
Qed.

Lemma amo_w_op_words f5 m s r n :
  is_u32 m → amo_w_op f5 m s = Some (r, n) → is_u64 r ∧ is_u32 n.
Proof.
  intros Hm. assert (Hs : is_u32 (as_u32 s)) by (apply wrap_range; lia).
  destruct (word32_ops m (as_u32 s) Hm Hs) as (?&?&?&?&?&?).
  assert (∀ z, is_u32 (as_u32 z)) by (intros; apply wrap_range; lia).
  unfold amo_w_op. repeat (case_if; [intros [= <- <-]; split; auto with vpod|]). done.
Qed.
