(* ===== verification/Invariant.v ===== *)
(** The invariant of the execution context, and that instructions keep it.

    [ctx_wf] collects the invariants of the parts: the register file with [x0]
    zero, an even pc, the CSR file, host pages tied to their epoch, the bus, the
    block cache and the instruction cache.  [keeps I m R] says that [m], started
    in a state satisfying [I], ends in one, with a result in [R], and panics only
    where [D] allows it; it composes along the monad, so that the proof for an
    instruction follows its definition. *)
From S2P Require Import Prelude Words Wp Trap Gpr Decode Extensions Csr SyscallEntry SystemBus.
From S2P Require Import BusLaws Mmu BlockCache BlockCacheProps Context Float SyscallTrace Execute.
From S2P Require Import CsrProps ExecuteFp Interp BlockDecode BlockExec ValueProps.

(** ** Keeping an invariant *)

Definition keeps {S A : Type} (D : Prop) (I : S -> Prop) (m : ST S A) (R : A -> Prop) : Prop :=
  ∀ s, I s → wp D m (fun a s' => R a ∧ I s') s.

Create HintDb keeps discriminated.
#[export] Hint Constants Opaque : keeps.

Section Keeps.
Context {S : Type} {D : Prop} {I : S -> Prop}.

Lemma keeps_bind {A C} (m : ST S A) (k : A -> ST S C) (R : A -> Prop) (R' : C -> Prop) :
  keeps D I m R → (∀ a, R a → keeps D I (k a) R') → keeps D I (m ≫= k) R'.
Proof.
  intros Hm Hk s Hs. apply wp_bind. eapply wp_mono; [|by apply Hm].
  intros a s' [Ha Hs']. by apply Hk.
Qed.

Lemma keeps_ret {A} (a : A) (R : A -> Prop) : R a → keeps D I (mret a) R.
Proof. intros Ha s Hs. by split. Qed.

Lemma keeps_gets {A} (g : S -> A) (R : A -> Prop) : (∀ s, I s → R (g s)) → keeps D I (gets g) R.
Proof. intros H s Hs. split; auto. Qed.

Lemma keeps_get (R : S -> Prop) : (∀ s, I s → R s) → keeps D I st_get R.
Proof. intros H s Hs. split; auto. Qed.

Lemma keeps_modify (g : S -> S) : (∀ s, I s → I (g s)) → keeps D I (modify g) (fun _ => True).
Proof. intros H s Hs. split; auto. Qed.

Lemma keeps_mono {A} (m : ST S A) (R R' : A -> Prop) :
  (∀ a, R a → R' a) → keeps D I m R → keeps D I m R'.
Proof.
  intros H Hm s Hs. eapply wp_mono; [|by apply Hm]. intros a s' [? ?]. auto.
Qed.

Lemma keeps_zoom {T A} (J : T -> Prop) (get : S -> T) (put : T -> S -> S) (m : ST T A) R :
  keeps D J m R → (∀ s, I s → J (get s)) → (∀ s t, I s → J t → I (put t s)) →
  keeps D I (zoom get put m) R.
Proof.
  intros Hm Hg Hp s Hs. apply wp_zoom. eapply wp_mono; [|by apply Hm, Hg].
  intros a t [? ?]. auto.
Qed.
End Keeps.

#[export] Hint Resolve keeps_ret : keeps.

(** Follow the code: split binds, conditionals and matches; a call is closed by
    its lemma.  [keeps_go] leaves what it cannot close. *)
Ltac keeps_call := solve [eauto 4 with keeps vpod nocore | eauto 6 with keeps vpod].
Ltac keeps_step :=
  lazymatch goal with
  | |- keeps _ _ (mbind _ _) _ =>
      first [ eapply keeps_bind; [keeps_call|]
            | apply (keeps_bind _ _ (fun _ => True)) ];
      [.. | intros ?a ?Ha; cbv beta in *; destruct_and?]
  | |- keeps _ _ (if ?b then _ else _) _ => let E := fresh "E" in destruct b eqn:E
  | |- keeps _ _ (match ?x with _ => _ end) _ => let E := fresh "E" in destruct x eqn:E
  | |- keeps _ _ (let '(_, _) := ?x in _) _ => destruct x
  | |- keeps _ _ _ _ => keeps_call
  end.
Ltac keeps_go := repeat keeps_step.

(** ** The layers of the state *)

Section Layers.
Context {B : Type} {SB : SystemBus B} {HM : HostMemory B} {FE : FloatEnv} {D : Prop}
  {BL : BusLaws B D}.

(** Entries of the fast tables are empty or hold a page of their epoch. *)
Record mmu_wf (m : Mmu) : Prop := {
  mw_load : ∀ i, lf_virt_page_num (arr_get (load_fast m) i) = U64_MAX
    ∨ page_ok (lf_ram_epoch (arr_get (load_fast m) i)) (lf_host_page (arr_get (load_fast m) i));
  mw_store : ∀ i, sf_virt_page_num (arr_get (store_fast m) i) = U64_MAX
    ∨ page_ok (sf_ram_epoch (arr_get (store_fast m) i)) (sf_host_page (arr_get (store_fast m) i))
}.

Record ctx_wf (c : ExecContext B) : Prop := {
  cx_regs : gpr_wf (regs c);
  cx_pc : even (pc (regs c));
  cx_csr : csr_wf (csr c);
  cx_mmu : mmu_wf (mmu c);
  cx_bus : bus_ok (bus c);
  cx_blocks : cache_wf (blocks c);
  cx_icache : ∀ i, is_u32 (arr_get (icache_data c) i)
}.

Definition mb_wf (s : Mmu * B) : Prop := mmu_wf s.1 ∧ bus_ok s.2.
Definition st_wf (s : Mmu * B * BlockCache) : Prop := mb_wf s.1 ∧ cache_wf s.2.
(** The bus, at a fixed RAM epoch. *)
Definition bus_at (e : Z) (b : B) : Prop := bus_ok b ∧ ram_epoch b = e.

Lemma mmu_new_wf : mmu_wf mmu_new.
Proof. split; intros i; by left. Qed.

Lemma mmu_wf_tables m m' :
  load_fast m' = load_fast m → store_fast m' = store_fast m → mmu_wf m → mmu_wf m'.
Proof. intros E1 E2 [H1 H2]. split; [by rewrite E1 | by rewrite E2]. Qed.

Lemma mmu_flush_wf m : mmu_wf m → mmu_wf (mmu_flush m).
Proof. intros H. unfold mmu_flush. cbn zeta. case_if; by apply (mmu_wf_tables m). Qed.

(** ** Buses *)

Lemma bus_read_at {A} (m : ST B A) (R : A -> Prop) e :
  (∀ b, bus_ok b → wp D m (fun a b' => R a ∧ bus_ok b' ∧ ram_epoch b' = ram_epoch b) b) →
  keeps D (bus_at e) m R.
Proof.
  intros H b [Hb He]. eapply wp_mono; [|by apply H]. intros a b' (? & ? & ?).
  unfold bus_at. rewrite <- He. auto.
Qed.

Lemma read_byte_at a e : is_u64 a → keeps D (bus_at e) (read_byte a) is_u8.
Proof. intros. apply bus_read_at. intros. by apply bl_read_byte. Qed.
Lemma read_halfword_at a e : is_u64 a → keeps D (bus_at e) (read_halfword a) is_u16.
Proof. intros. apply bus_read_at. intros. by apply bl_read_halfword. Qed.
Lemma read_word_at a e : is_u64 a → keeps D (bus_at e) (read_word a) is_u32.
Proof. intros. apply bus_read_at. intros. by apply bl_read_word. Qed.
Lemma read_doubleword_at a e : is_u64 a → keeps D (bus_at e) (read_doubleword a) is_u64.
Proof. intros. apply bus_read_at. intros. by apply bl_read_doubleword. Qed.

(** What holds at every epoch holds. *)
Lemma keeps_bus_at {A} (m : ST B A) R : (∀ e, keeps D (bus_at e) m R) → keeps D bus_ok m R.
Proof.
  intros H b Hb. eapply wp_mono; [|by apply (H (ram_epoch b))]. by intros a b' [? [? _]].
Qed.

Lemma read_byte_keeps a : is_u64 a → keeps D bus_ok (read_byte a) is_u8.
Proof. intros. apply keeps_bus_at. auto using read_byte_at. Qed.
Lemma read_halfword_keeps a : is_u64 a → keeps D bus_ok (read_halfword a) is_u16.
Proof. intros. apply keeps_bus_at. auto using read_halfword_at. Qed.
Lemma read_word_keeps a : is_u64 a → keeps D bus_ok (read_word a) is_u32.
Proof. intros. apply keeps_bus_at. auto using read_word_at. Qed.
Lemma read_doubleword_keeps a : is_u64 a → keeps D bus_ok (read_doubleword a) is_u64.
Proof. intros. apply keeps_bus_at. auto using read_doubleword_at. Qed.

Lemma write_keeps {A} (m : ST B A) :
  (∀ b, bus_ok b → wp D m (fun _ b' => bus_ok b') b) → keeps D bus_ok m (fun _ => True).
Proof. intros H b Hb. eapply wp_mono; [|by apply H]. auto. Qed.

Lemma write_byte_keeps a v : is_u64 a → is_u8 v → keeps D bus_ok (write_byte a v) (fun _ => True).
Proof. intros. apply write_keeps. intros. by apply bl_write_byte. Qed.
Lemma write_halfword_keeps a v : is_u64 a → is_u16 v → keeps D bus_ok (write_halfword a v) (fun _ => True).
Proof. intros. apply write_keeps. intros. by apply bl_write_halfword. Qed.
Lemma write_word_keeps a v : is_u64 a → is_u32 v → keeps D bus_ok (write_word a v) (fun _ => True).
Proof. intros. apply write_keeps. intros. by apply bl_write_word. Qed.
Lemma write_doubleword_keeps a v : is_u64 a → is_u64 v → keeps D bus_ok (write_doubleword a v) (fun _ => True).
Proof. intros. apply write_keeps. intros. by apply bl_write_doubleword. Qed.
Lemma external_keeps : keeps D bus_ok external_interrupt_pending (fun _ => True).
Proof. apply write_keeps. apply bl_external. Qed.
Lemma entry_keeps e satp : keeps D bus_ok (on_syscall_entry e satp) (fun _ => True).
Proof. apply write_keeps. apply bl_entry. Qed.
Lemma return_keeps task pc v satp : keeps D bus_ok (on_syscall_return task pc v satp) (fun _ => True).
Proof. apply write_keeps. apply bl_return. Qed.
Lemma drain_keeps : keeps D bus_ok drain_device_written_pages (fun d => Forall (fun p => 0 <= p) d.1).
Proof. intros b Hb. eapply wp_mono; [|by apply bl_drain]. cbn. tauto. Qed.

#[local] Hint Resolve read_byte_at read_halfword_at read_word_at read_doubleword_at
  read_byte_keeps read_halfword_keeps read_word_keeps read_doubleword_keeps
  write_byte_keeps write_halfword_keeps write_word_keeps write_doubleword_keeps
  external_keeps entry_keeps return_keeps drain_keeps : keeps.

(** ** Address translation *)

Definition leaf_result (n : nat) (r : option (Z * Z)) : Prop :=
  ∀ pte level, r = Some (pte, level) → is_u64 pte ∧ 0 <= level < Z.of_nat n.

Lemma walk_levels_at vpns n ppn e :
  keeps D (bus_at e) (walk_levels vpns n ppn) (leaf_result n).
Proof.
  revert ppn. induction n as [|n IH]; intros ppn; cbn [walk_levels]; [by apply keeps_ret|].
  eapply keeps_bind; [apply read_doubleword_at; apply lor_word; auto with vpod; lia|].
  intros pte Hpte. case_if; [by apply keeps_ret|]. case_if.
  - apply keeps_ret. intros pte' l [= <- <-]. split; [done | lia].
  - eapply keeps_mono; [|apply IH]. intros r Hr pte' l El. apply Hr in El as [? ?]. split; [done | lia].
Qed.

(** The address keeps its offset in the page. *)
Definition walk_result (va : Z) (r : option (Z * Z * Z)) : Prop :=
  ∀ pa vpn pte, r = Some (pa, vpn, pte) → is_u64 pa ∧ Z.land pa 0xfff = Z.land va 0xfff.

Lemma shl64_low a n i : 0 <= i < n → Z.testbit (shl64 a n) i = false.
Proof.
  intros Hi. rewrite shl64_bits by lia. rewrite Z.testbit_neg_r by lia. apply andb_false_r.
Qed.

Lemma testbit_fff i : 0 <= i → Z.testbit 0xfff i = (i <? 12).
Proof.
  intros Hi. change 0xfff with (Z.ones 12). destruct (Z.ltb_spec i 12).
  - apply Z.ones_spec_low. lia.
  - apply Z.ones_spec_high. lia.
Qed.

(** Joining a page number and an offset. *)
Lemma join_offset ppn va off :
  is_u64 off → (∀ i, 0 <= i < 12 → Z.testbit off i = Z.testbit va i) →
  is_u64 (Z.lor (shl64 ppn 12) off) ∧
  Z.land (Z.lor (shl64 ppn 12) off) 0xfff = Z.land va 0xfff.
Proof.
  intros Hoff H. split; [auto with vpod|]. apply Z.bits_inj'. intros i Hi.
  rewrite !Z.land_spec, Z.lor_spec, testbit_fff by done. destruct (Z.ltb_spec i 12).
  - rewrite shl64_low, H by lia. done.
  - by rewrite !andb_false_r.
Qed.

Lemma join_page_offset ppn va :
  is_u64 va → is_u64 (join_page ppn va) ∧ Z.land (join_page ppn va) 0xfff = Z.land va 0xfff.
Proof.
  intros Hva. apply join_offset.
  - apply land_word; done || lia.
  - intros i Hi. rewrite Z.land_spec, testbit_fff by lia.
    replace (i <? 12) with true by (symmetry; lia). apply andb_true_r.
Qed.

Lemma offset_mask_bits n i : 12 <= n < 64 → 0 <= i < 12 → Z.testbit (shl64 1 n - 1) i = true.
Proof.
  intros Hn Hi. unfold shl64, as_u64.
  rewrite wrap_id by (rewrite Z.shiftl_1_l; unfold is_word; split; [lia|]; apply Z.pow_lt_mono_r; lia).
  rewrite Z.shiftl_1_l. replace (2 ^ n - 1) with (Z.ones n) by (rewrite Z.ones_equiv; lia).
  apply Z.ones_spec_low. lia.
Qed.

Lemma walk_leaf_result va w x pte level :
  is_u64 va → 0 <= level <= 2 → walk_result va (walk_leaf va w x pte level).
Proof.
  intros Hva Hl pa vpn pte' . unfold walk_leaf. repeat (case_if; [done|]).
  intros [= <- _ _]. apply join_offset.
  - apply land_word_l; [lia| |done]. pose proof (shl64_word 1 (12 + 9 * level)) as [Hs _].
    assert (shl64 1 (12 + 9 * level) ≠ 0); [|lia].
    intros Ez. assert (Z.testbit (shl64 1 (12 + 9 * level)) (12 + 9 * level) = true) as T.
    { rewrite shl64_bits by lia. rewrite Z.sub_diag. replace (_ <? 64) with true by (symmetry; lia). done. }
    by rewrite Ez, Z.bits_0 in T.
  - intros i Hi. rewrite Z.land_spec, offset_mask_bits by lia. apply andb_true_r.
Qed.

Lemma walk_inner_at va satp w x e :
  is_u64 va → keeps D (bus_at e) (walk_inner va satp w x) (walk_result va).
Proof.
  intros Hva. unfold walk_inner. eapply keeps_bind; [apply walk_levels_at|].
  intros [[pte level]|] Hr; [|by apply keeps_ret].
  destruct (Hr pte level eq_refl) as [? ?]. apply keeps_ret, walk_leaf_result; [done | lia].
Qed.

(** Code on the bus alone keeps the MMU. *)
Lemma mb_bus_keeps {A} (m : ST B A) R : keeps D bus_ok m R → keeps D mb_wf (mb_bus m) R.
Proof.
  intros H. apply (keeps_zoom bus_ok); [done | by intros s [_ ?] |]. intros s t [? _] ?. by split.
Qed.

Lemma mb_mmu_keeps f : (∀ m, mmu_wf m → mmu_wf (f m)) → keeps D mb_wf (mb_mmu f) (fun _ => True).
Proof. intros H. apply keeps_modify. intros s [? ?]. split; cbn; auto. Qed.

Definition ok_result (va : Z) (r : Result Z MmuFault) : Prop :=
  match r with
  | Ok pa => is_u64 pa ∧ Z.land pa 0xfff = Z.land va 0xfff
  | Err fault => is_u64 (fault_tval fault)
  end.

Lemma walk_keeps va satp w x :
  is_u64 va →
  keeps D mb_wf (walk va satp w x)
    (fun r => ∀ pa, r = Some pa → is_u64 pa ∧ Z.land pa 0xfff = Z.land va 0xfff).
Proof.
  intros Hva. unfold walk.
  eapply keeps_bind; [apply mb_bus_keeps, keeps_bus_at; intros; by apply walk_inner_at|].
  intros [[[pa vpn] pte]|] Hr; [|by apply keeps_ret].
  eapply keeps_bind; [apply mb_mmu_keeps; intros; by apply (mmu_wf_tables m)|].
  intros _ _. apply keeps_ret. intros pa' [= <-]. by apply (Hr pa vpn pte).
Qed.

Lemma vpn_small va : is_u64 va → Z.shiftr va 12 ≠ U64_MAX.
Proof.
  intros H. pose proof (shiftr_word_sub 64 va 12 ltac:(lia) H) as [_ Hb].
  unfold U64_MAX. lia.
Qed.

Lemma load_fast_fill_keeps vpn satp pa :
  is_u64 pa → keeps D mb_wf (load_fast_fill vpn satp pa) (fun _ => True).
Proof.
  intros Hpa s [Hm Hb]. unfold load_fast_fill. apply wp_bind, wp_zoom.
  eapply wp_mono; [|by apply bl_load_page]. cbn. intros [q|] b' [-> Hq]; [|by apply wp_ret; repeat split; try apply Hm].
  split; [done|]. split; [|done]. split; cbn.
  - intros i. rewrite arr_get_set. case_decide; [right; cbn; auto | apply Hm].
  - apply Hm.
Qed.

Lemma store_fast_fill_keeps vpn satp pa gen :
  is_u64 pa → keeps D mb_wf (store_fast_fill vpn satp pa gen) (fun _ => True).
Proof.
  intros Hpa s [Hm Hb]. unfold store_fast_fill. apply wp_bind, wp_zoom.
  eapply wp_mono; [|by apply bl_store_page]. cbn. intros [q|] b' [Hb' Hq]; [|by apply wp_ret; repeat split; try apply Hm].
  split; [done|]. split; [|done]. split; cbn.
  - apply Hm.
  - intros i. rewrite arr_get_set. case_decide; [right; cbn; auto | apply Hm].
Qed.

#[local] Hint Resolve load_fast_fill_keeps store_fast_fill_keeps : keeps.

Lemma join_ok ppn va : is_u64 va → ok_result va (Ok (join_page ppn va)).
Proof. apply join_page_offset. Qed.

Lemma translate_fetch_keeps va satp :
  is_u64 va → keeps D mb_wf (translate_fetch va satp) (ok_result va).
Proof.
  intros Hva. unfold translate_fetch. case_if; [by apply keeps_ret|].
  assert (keeps D mb_wf
    (pa ← walk va satp false true;
     mret (match pa with Some pa => Ok pa | None => Err (InstructionPageFault va) end))
    (ok_result va)) as Hslow.
  { eapply keeps_bind; [by apply walk_keeps|]. intros [pa|] Hr; apply keeps_ret; [by apply Hr | done]. }
  apply (keeps_bind _ _ (fun _ => True)); [by apply keeps_gets|]. intros m _.
  destruct (mmu_lookup _ m) as [[ppn flags]|]; [|done].
  case_if; [by apply keeps_ret, join_ok | done].
Qed.

Lemma translate_load_keeps va satp :
  is_u64 va → keeps D mb_wf (translate_load va satp) (ok_result va).
Proof.
  intros Hva. unfold translate_load.
  assert (F : ∀ vpn pa, is_u64 pa → Z.land pa 0xfff = Z.land va 0xfff →
     keeps D mb_wf (load_fast_fill vpn satp pa;; mret (Ok pa)) (ok_result va)).
  { intros vpn pa ? ?. eapply keeps_bind; [by apply load_fast_fill_keeps|].
    intros _ _. by apply keeps_ret. }
  assert (M : ∀ f pa, (∀ m, mmu_wf m → mmu_wf (f m)) → is_u64 pa → Z.land pa 0xfff = Z.land va 0xfff →
     keeps D mb_wf (mb_mmu f;; load_fast_fill (Z.shiftr va 12) satp pa;; mret (Ok pa)) (ok_result va)).
  { intros f pa Hf ? ?. eapply keeps_bind; [by apply mb_mmu_keeps|]. intros _ _. by apply F. }
  case_if; [by apply F|].
  apply (keeps_bind _ _ (fun _ => True)); [by apply keeps_gets|]. intros m _.
  destruct (join_page_offset (load_ppage m) va Hva).
  case_if; [by apply F|].
  assert (keeps D mb_wf
    (r ← walk va satp false false;
     match r with
     | None => mret (Err (LoadPageFault va))
     | Some pa =>
         mb_mmu (fun m => m <| load_vpage := Z.shiftr va 12 |> <| load_ppage := Z.shiftr pa 12 |>
                            <| load_satp := satp |>);;
         load_fast_fill (Z.shiftr va 12) satp pa;;
         mret (Ok pa)
     end) (ok_result va)) as Hslow.
  { eapply keeps_bind; [by apply walk_keeps|]. intros [pa|] Hr; [|by apply keeps_ret].
    destruct (Hr pa eq_refl). apply M; [|done..]. intros m'. by apply mmu_wf_tables. }
  destruct (mmu_lookup _ m) as [[ppn flags]|]; [|done]. case_if; [|done].
  destruct (join_page_offset ppn va Hva). apply M; [|done..]. intros m'. by apply mmu_wf_tables.
Qed.

Lemma translate_store_keeps va satp :
  is_u64 va → keeps D mb_wf (translate_store va satp) (ok_result va).
Proof.
  intros Hva. unfold translate_store. case_if; [by apply keeps_ret|].
  assert (M : ∀ f pa, (∀ m, mmu_wf m → mmu_wf (f m)) → ok_result va (Ok pa) →
     keeps D mb_wf (mb_mmu f;; mret (Ok pa)) (ok_result va)).
  { intros f pa Hf ?. eapply keeps_bind; [by apply mb_mmu_keeps|]. intros _ _. by apply keeps_ret. }
  apply (keeps_bind _ _ (fun _ => True)); [by apply keeps_gets|]. intros m _.
  case_if; [by apply keeps_ret, join_ok|].
  assert (keeps D mb_wf
    (r ← walk va satp true false;
     match r with
     | None => mret (Err (StorePageFault va))
     | Some pa =>
         mb_mmu (fun m => m <| store_vpage := Z.shiftr va 12 |> <| store_ppage := Z.shiftr pa 12 |>
                            <| store_satp := satp |>);;
         mret (Ok pa)
     end) (ok_result va)) as Hslow.
  { eapply keeps_bind; [by apply walk_keeps|]. intros [pa|] Hr; [|by apply keeps_ret].
    apply M; [|by apply Hr]. intros m'. by apply mmu_wf_tables. }
  destruct (mmu_lookup _ m) as [[ppn flags]|]; [|done]. case_if; [|done].
  apply M; [|by apply join_ok]. intros m'. by apply mmu_wf_tables.
Qed.

#[local] Hint Resolve translate_fetch_keeps translate_load_keeps translate_store_keeps
  mb_bus_keeps : keeps.

Lemma load_bytes_keeps n i va satp :
  keeps D mb_wf (load_bytes n i va satp)
    (fun r => match r with
              | Ok bs => Forall is_u8 bs ∧ length bs = n
              | Err fault => is_u64 (fault_tval fault)
              end).
Proof.
  revert i. induction n as [|n IH]; intros i; cbn [load_bytes]; [by apply keeps_ret|].
  eapply keeps_bind; [auto with keeps vpod|]. intros [pa|fault] Hr; [|by apply keeps_ret].
  destruct Hr as [Hpa _]. eapply keeps_bind; [auto with keeps|]. intros b Hb.
  eapply keeps_bind; [apply IH|]. intros [bs|fault] Hbs; apply keeps_ret; [|done].
  destruct Hbs as [? <-]. split; [by constructor | done].
Qed.

Definition fault_ok {A} (r : Result A MmuFault) : Prop :=
  match r with Ok _ => True | Err fault => is_u64 (fault_tval fault) end.

Lemma st_mmu_keeps {A} (m : ST (Mmu * B) A) R : keeps D mb_wf m R → keeps D st_wf (st_mmu m) R.
Proof.
  intros H. apply (keeps_zoom mb_wf); [done | by intros s [? _] |]. intros s t [_ ?] ?. by split.
Qed.

Lemma st_bus_keeps {A} (m : ST B A) R : keeps D bus_ok m R → keeps D st_wf (st_bus m) R.
Proof. intros. by apply st_mmu_keeps, mb_bus_keeps. Qed.

Lemma st_notify_keeps pa : is_u64 pa → keeps D st_wf (st_notify pa) (fun _ => True).
Proof. intros. apply keeps_modify. intros s [? ?]. split; [done|]. by apply notify_store_wf. Qed.

#[local] Hint Resolve st_mmu_keeps st_bus_keeps st_notify_keeps : keeps.

Lemma store_bytes_keeps bytes i va satp :
  Forall is_u8 bytes → keeps D st_wf (store_bytes bytes i va satp) fault_ok.
Proof.
  intros H. revert i. induction H as [|b bytes Hb Hbs IH]; intros i; cbn [store_bytes]; [by apply keeps_ret|].
  eapply keeps_bind; [auto with keeps vpod|]. intros [pa|fault] Hr; [|by apply keeps_ret].
  destruct Hr as [Hpa _]. eapply keeps_bind; [auto with keeps|]. intros _ _.
  eapply keeps_bind; [auto with keeps|]. intros _ _. apply IH.
Qed.

(** ** Parts of the context *)

Lemma with_regs c g : ctx_wf c → gpr_wf g → even (pc g) → ctx_wf (c <| regs := g |>).
Proof. intros [] ? ?. by split. Qed.
Lemma with_csr c r : ctx_wf c → csr_wf r → ctx_wf (c <| csr := r |>).
Proof. intros [] ?. by split. Qed.
Lemma with_priv c p : ctx_wf c → ctx_wf (c <| priv_mode := p |>).
Proof. intros []. by split. Qed.

Lemma read_reg_keeps r : keeps D ctx_wf (read_reg r) is_u64.
Proof. apply keeps_gets. intros c []. by apply gpr_read_word. Qed.
Lemma write_reg_keeps r v :
  0 <= r < 32 → is_u64 v → keeps D ctx_wf (write_reg r v) (fun _ => True).
Proof.
  intros Hr Hv. apply keeps_modify. intros c H. pose proof (cx_regs _ H). pose proof (cx_pc _ H).
  apply with_regs; [done | by apply gpr_write_wf |]. unfold gpr_write. by case_if.
Qed.
Lemma get_pc_keeps : keeps D ctx_wf get_pc (fun v => is_u64 v ∧ even v).
Proof. apply keeps_gets. intros c []. split; [apply cx_regs0 | done]. Qed.
Lemma set_pc_keeps v : is_u64 v → even v → keeps D ctx_wf (set_pc v) (fun _ => True).
Proof.
  intros Hv He. apply keeps_modify. intros c H. pose proof (cx_regs _ H).
  apply with_regs; [done | by apply set_pc_wf | done].
Qed.
Lemma mod_csr_keeps f :
  (∀ r, csr_wf r → csr_wf (f r)) → keeps D ctx_wf (mod_csr f) (fun _ => True).
Proof. intros H. apply keeps_modify. intros c Hc. apply with_csr; [done|]. apply H, Hc. Qed.
Lemma get_csr_keeps {A} (proj : Csr -> A) (R : A -> Prop) :
  (∀ r, csr_wf r → R (proj r)) → keeps D ctx_wf (get_csr proj) R.
Proof. intros H. apply keeps_gets. intros c Hc. apply H, Hc. Qed.
Lemma add_instret_keeps n : keeps D ctx_wf (add_instret n) (fun _ => True).
Proof. apply mod_csr_keeps. intros r Hr. apply instret_wf; [apply wrap_range; lia | done]. Qed.
Lemma ctx_satp_keeps : keeps D ctx_wf (gets ctx_satp) is_u64.
Proof.
  apply keeps_gets. intros c []. unfold ctx_satp, effective_satp. case_if; [done|].
  by destruct_csr_wf cx_csr0.
Qed.
Lemma on_bus_keeps {A} (m : ST B A) R : keeps D bus_ok m R → keeps D ctx_wf (on_bus m) R.
Proof. intros. apply (keeps_zoom bus_ok); [done | by intros s [] |]. intros s t [] ?. by split. Qed.
Lemma on_mmu_keeps {A} (m : ST (Mmu * B) A) R : keeps D mb_wf m R → keeps D ctx_wf (on_mmu m) R.
Proof.
  intros. apply (keeps_zoom mb_wf); [done | by intros s []; split |]. intros s t [] []. by split.
Qed.
Lemma on_store_keeps {A} (m : ST (Mmu * B * BlockCache) A) R :
  keeps D st_wf m R → keeps D ctx_wf (on_store m) R.
Proof.
  intros. apply (keeps_zoom st_wf); [done | by intros s []; split; [split|] |].
  intros s t [] [[] ]. by split.
Qed.
Lemma mod_blocks_keeps f :
  (∀ b, cache_wf b → cache_wf (f b)) → keeps D ctx_wf (mod_blocks f) (fun _ => True).
Proof. intros H. apply keeps_modify. intros c []. split; cbn; auto. Qed.
Lemma notify_keeps pa : is_u64 pa → keeps D ctx_wf (mod_blocks (notify_store pa)) (fun _ => True).
Proof. intros. apply mod_blocks_keeps. intros. by apply notify_store_wf. Qed.
(** Updates of fields the invariant does not mention. *)
Lemma keeps_frame f :
  (∀ c : ExecContext B, regs (f c) = regs c ∧ csr (f c) = csr c ∧ mmu (f c) = mmu c ∧ bus (f c) = bus c
        ∧ blocks (f c) = blocks c ∧ icache_data (f c) = icache_data c) →
  keeps D ctx_wf (modify f) (fun _ => True).
Proof.
  intros H. apply keeps_modify. intros c Hc. destruct (H c) as (E1&E2&E3&E4&E5&E6).
  destruct Hc. split; by rewrite ?E1, ?E2, ?E3, ?E4, ?E5, ?E6.
Qed.
Lemma flush_mmu_keeps :
  keeps D ctx_wf (modify (fun c => c <| mmu := mmu_flush (mmu c) |>)) (fun _ => True).
Proof. apply keeps_modify. intros c []. split; cbn; auto using mmu_flush_wf. Qed.

Lemma invalidate_keeps : keeps D ctx_wf invalidate_fetch_cache (fun _ => True).
Proof. by apply keeps_frame. Qed.

#[local] Hint Resolve read_reg_keeps write_reg_keeps get_pc_keeps set_pc_keeps add_instret_keeps
  ctx_satp_keeps on_bus_keeps on_mmu_keeps on_store_keeps notify_keeps flush_mmu_keeps
  invalidate_keeps load_bytes_keeps store_bytes_keeps : keeps.

(** ** Traps *)

Lemma trap_vector_even v : even (Z.land v (not64 3)).
Proof. unfold even. rewrite Z.land_spec, not64_testbit by lia. apply andb_false_r. Qed.
#[local] Hint Resolve trap_vector_even : vpod.

Lemma csr_field_word (proj : Csr -> Z) c :
  csr_wf c → proj c ∈ [misa c; medeleg c; mideleg c; mie c; mtvec c; mcounteren c; mcountinhibit c;
    mscratch c; mepc c; mcause c; mtval c; mip c; menvcfg c; stvec c; scounteren c; senvcfg c;
    sscratch c; sepc c; scause c; stval c; satp c; hart_id c; cycle c; instret c; time c] →
  is_u64 (proj c).
Proof.
  intros H Hin%list_elem_of_In. exact (proj1 (Forall_forall _ _) (wf_scalars _ H) _ Hin).
Qed.

(** The two ways into a trap: save the state and jump to the vector. *)
Lemma enter_s cause tval c :
  ctx_wf c → is_u64 cause → is_u64 tval → priv_mode c ≠ PrivM →
  ctx_wf (c <| csr := trap_csrs_s cause tval (pc (regs c)) (priv_mode c) (csr c) |>).
Proof.
  intros H ? ? ?. apply with_csr; [done|].
  apply trap_csrs_s_wf; try done; [apply H | apply (cx_pc _ H) | apply H].
Qed.

Lemma enter_m cause tval c :
  ctx_wf c → is_u64 cause → is_u64 tval →
  ctx_wf (c <| csr := trap_csrs_m cause tval (pc (regs c)) (priv_mode c) (csr c) |>).
Proof.
  intros H ? ?. apply with_csr; [done|].
  apply trap_csrs_m_wf; try done; [apply H | apply (cx_pc _ H) | apply H].
Qed.

Lemma vector_word (proj : Csr -> Z) c :
  csr_wf c → proj c ∈ [mtvec c; stvec c] → is_u64 (proj c).
Proof.
  intros H Hin. apply csr_field_word; [done|]. revert Hin. rewrite !elem_of_cons. tauto.
Qed.

Lemma jump_to_vector (proj : Csr -> Z) p (c : ExecContext B) :
  (∀ r, proj r ∈ [mtvec r; stvec r]) → ctx_wf c →
  wp D (modify (fun c => c <| priv_mode := p |>);; v ← get_csr proj; set_pc (Z.land v (not64 3)))
    (fun _ c' => ctx_wf c') c.
Proof.
  intros Hp Hc. wp_go. apply with_regs; cbn.
  - by apply with_priv.
  - apply set_pc_wf; [|apply Hc]. apply land_word; [lia| |apply not64_word].
    apply vector_word; [apply Hc | apply Hp].
  - apply trap_vector_even.
Qed.

Lemma priv_not_m p : negb (priv_eqb p PrivM) = true → p ≠ PrivM.
Proof. by destruct p. Qed.

Lemma mtvec_vector r : mtvec r ∈ [mtvec r; stvec r].
Proof. rewrite !elem_of_cons. tauto. Qed.
Lemma stvec_vector r : stvec r ∈ [mtvec r; stvec r].
Proof. rewrite !elem_of_cons. tauto. Qed.

Lemma take_exception_keeps cause tval :
  is_u64 cause → is_u64 tval → keeps D ctx_wf (take_exception cause tval) (fun _ => True).
Proof.
  intros Hc Ht c H. unfold take_exception. wp_step. wp_step.
  destruct (_ && _) eqn:E; (do 2 wp_step; eapply wp_mono; [|eapply jump_to_vector]).
  - by intros [] c' ?.
  - apply stvec_vector.
  - bools. apply enter_s; auto using priv_not_m. apply priv_not_m. by rewrite H1.
  - by intros [] c' ?.
  - apply mtvec_vector.
  - by apply enter_m.
Qed.

Lemma take_interrupt_keeps irq : 0 <= irq < 64 → keeps D ctx_wf (take_interrupt irq) (fun r => r = StepOk).
Proof.
  intros Hi c H. unfold take_interrupt. wp_step. wp_step.
  assert (is_u64 (Z.lor (Z.shiftl 1 63) irq)) by (apply lor_word; unfold is_word; done || lia).
  wp_step. destruct (_ && _) eqn:E; (do 2 wp_step; eapply wp_mono; [|eapply jump_to_vector]).
  - intros [] c' ?. by apply wp_ret.
  - apply stvec_vector.
  - bools. apply enter_s; auto using priv_not_m; try done. apply priv_not_m. by rewrite H2.
  - intros [] c' ?. by apply wp_ret.
  - apply mtvec_vector.
  - by apply enter_m.
Qed.

#[local] Hint Resolve take_exception_keeps take_interrupt_keeps : keeps.

(** ** Instructions *)

(** The encoding an illegal-instruction trap reports is a word. *)
Definition step_ok (r : StepResult) : Prop :=
  match r with StepTrap (IllegalInstruction e) => is_u64 e | _ => True end.

Lemma u32_u64 z : is_u32 z → is_u64 z.
Proof. apply is_word_mono. lia. Qed.
Lemma u16_u64 z : is_u16 z → is_u64 z.
Proof. apply is_word_mono. lia. Qed.
Lemma u8_u64 z : is_u8 z → is_u64 z.
Proof. apply is_word_mono. lia. Qed.
Lemma even_2 : even 2.
Proof. done. Qed.
Lemma even_4 : even 4.
Proof. done. Qed.
Lemma even_as_u64 z : even z → even (as_u64 z).
Proof. apply even_wrap. lia. Qed.
Lemma as_u8_word a : is_u8 (as_u8 a).
Proof. apply wrap_range. lia. Qed.
Lemma as_u16_word a : is_u16 (as_u16 a).
Proof. apply wrap_range. lia. Qed.
Lemma as_u32_word a : is_u32 (as_u32 a).
Proof. apply wrap_range. lia. Qed.
Lemma fault_mcause_word f : is_u64 (fault_mcause f).
Proof. by destruct f. Qed.
Lemma reg_const : (0 <= 1 < 32) ∧ (0 <= 2 < 32).
Proof. lia. Qed.
#[local] Hint Resolve u32_u64 u16_u64 u8_u64 even_2 even_4 even_as_u64 as_u8_word as_u16_word
  as_u32_word fault_mcause_word : vpod.

Lemma illegal_keeps raw : is_u64 raw → keeps D ctx_wf (illegal raw) step_ok.
Proof. intros. by apply keeps_ret. Qed.
Lemma retire_keeps : keeps D ctx_wf retire step_ok.
Proof. unfold retire. eapply keeps_bind; [auto with keeps|]. intros _ _. by apply keeps_ret. Qed.
Lemma step_ok_ret : keeps D ctx_wf (mret StepOk) step_ok.
Proof. by apply keeps_ret. Qed.
Lemma misaligned_ret : keeps D ctx_wf (mret (StepTrap InstructionAddressMisaligned)) step_ok.
Proof. by apply keeps_ret. Qed.
Lemma trap_from_mmu_keeps f : is_u64 (fault_tval f) → keeps D ctx_wf (trap_from_mmu f) step_ok.
Proof.
  intros. unfold trap_from_mmu. eapply keeps_bind; [auto with keeps vpod|]. intros _ _.
  by apply keeps_ret.
Qed.
#[local] Hint Resolve illegal_keeps retire_keeps step_ok_ret misaligned_ret trap_from_mmu_keeps : keeps.

(** The common end: write a register, step over the instruction. *)
Lemma write_step_keeps r v pc len :
  0 <= r < 32 → is_u64 v → even pc → even len →
  keeps D ctx_wf (write_reg r v;; set_pc (wrapping_add64 pc len);; retire) step_ok.
Proof. intros. keeps_go. Qed.
#[local] Hint Resolve write_step_keeps : keeps.

Lemma exec_value_keeps raw pc v :
  is_u64 raw → even pc → (∀ x, v = Some x → is_u64 x) →
  keeps D ctx_wf (exec_value raw pc v) step_ok.
Proof. intros ? ? Hv. destruct v; cbn; auto with keeps vpod. Qed.

Lemma exec_lui_keeps raw pc : even pc → keeps D ctx_wf (exec_lui raw pc) step_ok.
Proof. intros. unfold exec_lui. auto with keeps vpod. Qed.
Lemma exec_auipc_keeps raw pc : even pc → keeps D ctx_wf (exec_auipc raw pc) step_ok.
Proof. intros. unfold exec_auipc. auto with keeps vpod. Qed.
Lemma exec_jal_keeps raw pc : even pc → keeps D ctx_wf (exec_jal raw pc) step_ok.
Proof. intros. unfold exec_jal. keeps_go. Qed.
Lemma exec_jalr_keeps raw pc : even pc → keeps D ctx_wf (exec_jalr raw pc) step_ok.
Proof. intros. unfold exec_jalr. keeps_go. Qed.
Lemma exec_branch_keeps raw pc : is_u64 raw → even pc → keeps D ctx_wf (exec_branch raw pc) step_ok.
Proof. intros. unfold exec_branch. keeps_go. Qed.

(** The arms that compute a value from registers. *)
Lemma exec_arith_keeps raw pc :
  is_u64 raw → even pc →
  keeps D ctx_wf (exec_op_imm raw pc) step_ok ∧ keeps D ctx_wf (exec_op_imm32 raw pc) step_ok ∧
  keeps D ctx_wf (exec_op_reg raw pc) step_ok ∧ keeps D ctx_wf (exec_op_reg32 raw pc) step_ok.
Proof.
  intros Hraw Hpc. refine (conj _ (conj _ (conj _ _)));
    (eapply keeps_bind; [apply read_reg_keeps|intros a Ha]).
  3-4: eapply keeps_bind; [apply read_reg_keeps|intros b Hb].
  all: apply exec_value_keeps; [exact Hraw | exact Hpc | intros x].
  - exact (op_imm_value_word _ _ _ _ _ Ha).
  - exact (op_imm32_value_word _ _ _ _ _).
  - exact (op_reg_value_word _ _ _ _ _ Ha Hb).
  - exact (op_reg32_value_word _ _ _ _ _ _ Ha Hb).
Qed.

Lemma f3_range raw : 0 <= funct3 raw < 8.
Proof. apply land_7_range. Qed.

(** *** Loads and stores *)

Lemma load_direct_keeps f3 pa :
  load_size f3 ≠ None → is_u64 pa → keeps D ctx_wf (load_direct f3 pa) is_u64.
Proof.
  intros Hf Hpa. unfold load_direct.
  destruct (f3 =? FUNCT3_LB) eqn:E0; [keeps_go|].
  destruct (f3 =? FUNCT3_LH) eqn:E1; [keeps_go|].
  destruct (f3 =? FUNCT3_LW) eqn:E2; [keeps_go|].
  destruct (f3 =? FUNCT3_LD) eqn:E3; [keeps_go|].
  destruct (f3 =? FUNCT3_LBU) eqn:E4; [eapply keeps_mono; [apply u8_u64|]; keeps_go|].
  destruct (f3 =? FUNCT3_LHU) eqn:E5; [eapply keeps_mono; [apply u16_u64|]; keeps_go|].
  destruct (f3 =? FUNCT3_LWU) eqn:E6; [eapply keeps_mono; [apply u32_u64|]; keeps_go|].
  unfold load_size in Hf. by rewrite E0, E1, E2, E3, E4, E5, E6 in Hf.
Qed.

Lemma from_bytes_word bs n : Forall is_u8 bs → (length bs <= n)%nat → (n <= 8)%nat → is_u64 (from_le_bytes bs).
Proof.
  intros Hb Hl Hn. apply (is_word_mono (8 * Z.of_nat (length bs))); [lia|]. by apply from_le_bytes_range.
Qed.

Lemma load_buffer_value_word f3 bs v : Forall is_u8 bs → load_buffer_value f3 bs = Some v → is_u64 v.
Proof.
  intros Hb. unfold load_buffer_value.
  assert (T : ∀ n, (n <= 8)%nat → is_u64 (from_le_bytes (take n bs))).
  { intros n Hn. apply (from_bytes_word _ n); [by apply Forall_take | rewrite length_take; lia | done]. }
  repeat (case_if; [intros [= <-]; first [by auto with vpod | apply T; lia]|]). done.
Qed.

(** A crossing access is wider than a byte, so a value is always found. *)
Lemma crossing_load_value f3 size va bs :
  load_size f3 = Some size → 0x1000 < Z.land va 0xFFF + size →
  ∃ v, load_buffer_value f3 bs = Some v.
Proof.
  intros Hs Hc. pose proof (land_ones_range va 12 ltac:(lia)) as Hr. change (Z.ones 12) with 0xFFF in Hr.
  assert (2 <= size) by lia. revert Hs. unfold load_size, load_buffer_value.
  destruct (f3 =? FUNCT3_LB), (f3 =? FUNCT3_LBU); cbn [orb]; try (intros [= <-]; lia).
  destruct (f3 =? FUNCT3_LH), (f3 =? FUNCT3_LHU), (f3 =? FUNCT3_LW), (f3 =? FUNCT3_LWU),
    (f3 =? FUNCT3_LD); cbn [orb]; intros Hs; first [done | by eexists].
Qed.

Lemma exec_load_keeps raw pc satp :
  is_u64 raw → even pc → keeps D ctx_wf (exec_load raw pc satp) step_ok.
Proof.
  intros Hraw Hpc. unfold exec_load. eapply keeps_bind; [apply read_reg_keeps|]. intros base Hb.
  cbv zeta. destruct (load_size (funct3 raw)) as [size|] eqn:Es; [|auto with keeps].
  case_if.
  - eapply keeps_bind; [auto with keeps|]. intros [bs|fault] Hr; [|auto with keeps].
    destruct Hr as [Hbs _]. bools.
    destruct (crossing_load_value (funct3 raw) size _ bs Es ltac:(eassumption)) as [v Hv].
    rewrite Hv. eauto using load_buffer_value_word with keeps vpod.
  - eapply keeps_bind; [auto with keeps vpod|]. intros [pa|fault] Hr; [|auto with keeps].
    destruct Hr as [Hpa _]. eapply keeps_bind; [apply load_direct_keeps; [by rewrite Es | done]|].
    intros v Hv. auto with keeps vpod.
Qed.

Lemma store_direct_keeps f3 pa v :
  store_size f3 ≠ None → is_u64 pa → is_u64 v →
  keeps D bus_ok (store_direct f3 pa v) (fun _ => True).
Proof.
  intros Hf Hpa Hv. unfold store_direct.
  destruct (f3 =? FUNCT3_SB) eqn:E0; [auto with keeps vpod|].
  destruct (f3 =? FUNCT3_SH) eqn:E1; [auto with keeps vpod|].
  destruct (f3 =? FUNCT3_SW) eqn:E2; [auto with keeps vpod|].
  destruct (f3 =? FUNCT3_SD) eqn:E3; [auto with keeps vpod|].
  unfold store_size in Hf. by rewrite E0, E1, E2, E3 in Hf.
Qed.

(** Translate, notify, write. *)
Lemma store_at_keeps va satp (w : Z -> ST B unit) :
  is_u64 va → (∀ pa, is_u64 pa → keeps D bus_ok (w pa) (fun _ => True)) →
  keeps D st_wf
    (r ← st_mmu (translate_store va satp);
     match r with
     | Err fault => mret (Err fault)
     | Ok pa => st_notify pa;; st_bus (w pa);; mret (Ok tt)
     end) fault_ok.
Proof.
  intros Hva Hw. eapply keeps_bind; [auto with keeps|]. intros [pa|fault] Hr; [|by apply keeps_ret].
  destruct Hr as [Hpa _]. eapply keeps_bind; [auto with keeps|]. intros _ _.
  eapply keeps_bind; [auto with keeps|]. intros _ _. by apply keeps_ret.
Qed.

Lemma exec_store_keeps raw pc satp :
  is_u64 raw → even pc → keeps D ctx_wf (exec_store raw pc satp) step_ok.
Proof.
  intros Hraw Hpc. unfold exec_store. do 2 (eapply keeps_bind; [apply read_reg_keeps|intros ? ?]).
  cbv zeta. destruct (store_size (funct3 raw)) as [size|] eqn:Es; [|auto with keeps].
  apply (keeps_bind _ _ fault_ok).
  - apply on_store_keeps. case_if.
    + apply store_bytes_keeps, Forall_take, to_le_bytes_bytes.
    + apply store_at_keeps; [auto with vpod|]. intros pa Hpa.
      apply store_direct_keeps; [by rewrite Es | done..].
  - intros [u|fault] Hr; [|auto with keeps]. keeps_go.
Qed.

Lemma exec_fence_keeps raw pc : even pc → keeps D ctx_wf (exec_fence raw pc) step_ok.
Proof.
  intros Hpc. unfold exec_fence. apply (keeps_bind _ _ (fun _ => True)); [|intros _ _; keeps_go].
  case_if; [|by apply keeps_ret]. eapply keeps_bind; [auto with keeps|]. intros d _.
  apply (keeps_bind _ _ (fun _ => True)).
  { apply mod_blocks_keeps. generalize d.1. intros l. induction l as [|p l IH]; intros b Hb; [done|].
    apply IH. apply notify_store_wf; [apply wrap_range; lia | done]. }
  intros _ _. apply (keeps_bind _ _ (fun _ => True)); [|intros _ _; auto with keeps].
  case_if; [|by apply keeps_ret]. apply mod_blocks_keeps. intros. apply flush_all_wf.
Qed.

(** *** Atomics *)

Lemma lr_addr_keeps v : keeps D ctx_wf (modify (fun c => c <| lr_addr := v |>)) (fun _ => True).
Proof. by apply keeps_frame. Qed.
#[local] Hint Resolve lr_addr_keeps : keeps.

Lemma amo_width_keeps f3 pa :
  is_u64 pa →
  keeps D ctx_wf (if f3 =? 2 then v ← on_bus (read_word pa); mret (as_u64 (as_i32 v))
                  else on_bus (read_doubleword pa)) is_u64.
Proof. intros Hpa. case_if; keeps_go. Qed.

Lemma exec_lr_keeps raw pc pa : even pc → is_u64 pa → keeps D ctx_wf (exec_lr raw pc pa) step_ok.
Proof.
  intros Hpc Hpa. unfold exec_lr. eapply keeps_bind; [by apply amo_width_keeps|]. intros v Hv. keeps_go.
Qed.

Lemma exec_sc_keeps raw pc pa src :
  even pc → is_u64 pa → is_u64 src → keeps D ctx_wf (exec_sc raw pc pa src) step_ok.
Proof.
  intros Hpc Hpa Hs. unfold exec_sc.
  assert (is_u64 0 ∧ is_u64 1) as [? ?] by done.
  apply (keeps_bind _ _ (fun _ => True)); [by apply keeps_gets|]. intros r _. keeps_go.
Qed.

Lemma exec_amo_rmw_keeps raw pa src :
  is_u64 raw → is_u64 pa → is_u64 src → keeps D ctx_wf (exec_amo_rmw raw pa src) step_ok.
Proof.
  intros Hraw Hpa Hs. unfold exec_amo_rmw. cbv zeta. case_if.
  - eapply keeps_bind; [auto with keeps|]. intros m Hm.
    destruct (amo_w_op _ m src) as [[r n]|] eqn:Ea; [|auto with keeps].
    destruct (amo_w_op_words _ _ _ _ _ Hm Ea). keeps_go.
  - eapply keeps_bind; [auto with keeps|]. intros m Hm.
    destruct (amo_d_op _ m src) as [[r n]|] eqn:Ea; [|auto with keeps].
    destruct (amo_d_op_words _ _ _ _ _ Hm Hs Ea). keeps_go.
Qed.

Lemma exec_amo_keeps raw : is_u64 raw → keeps D ctx_wf (exec_amo raw) step_ok.
Proof.
  intros Hraw. unfold exec_amo. eapply keeps_bind; [auto with keeps|]. intros satp _. cbv zeta.
  do 2 (eapply keeps_bind; [apply read_reg_keeps|intros ? ?]).
  eapply keeps_bind; [auto with keeps|]. intros pc [_ Hpc].
  eapply keeps_bind; [auto with keeps|]. intros [pa|fault] Hr; [|auto with keeps].
  destruct Hr as [Hpa _]. eapply keeps_bind; [auto with keeps|]. intros _ _.
  repeat case_if; auto using exec_lr_keeps, exec_sc_keeps, exec_amo_rmw_keeps.
Qed.

(** *** Reading guest memory for the system-call trace *)

Definition gm_wf (s : GuestMemory * B) : Prop :=
  bus_ok s.2 ∧ (gm_virtual_page s.1 = U64_MAX ∨ page_ok (ram_epoch s.2) (gm_host_page s.1)).

Lemma translate_readable_at va satp e :
  is_u64 va →
  keeps D (bus_at e) (translate_readable va satp) (fun r => ∀ pa, r = Some pa → is_u64 pa).
Proof.
  intros Hva. unfold translate_readable. case_if; [apply keeps_ret; by intros pa [= <-]|].
  eapply keeps_bind; [by apply walk_inner_at|]. intros r Hr. apply keeps_ret.
  intros pa Hpa. destruct r as [[[pa' vpn] pte]|]; [|done]. injection Hpa as ->.
  by destruct (Hr pa vpn pte eq_refl).
Qed.

Lemma offset_in_page va : 0 <= Z.land va 0xfff ∧ Z.land va 0xfff + 1 <= 0x1000.
Proof.
  pose proof (land_ones_range va 12 ltac:(lia)) as H. change (Z.ones 12) with 0xfff in H. lia.
Qed.

Lemma gm_deref_wp p va (s : GuestMemory * B) (Q : Z -> GuestMemory * B -> Prop) :
  bus_ok s.2 → page_ok (ram_epoch s.2) p → (∀ v, is_u8 v → Q v s) →
  wp D (gm_deref (host_add p (Z.land va 0xfff))) Q s.
Proof.
  intros Hb Hp HQ. unfold wp, gm_deref. destruct (offset_in_page va) as [H1 H2].
  pose proof (bl_host_read p _ 1 s.2 Hb Hp H1 H2) as H.
  destruct (host_read _ 1 s.2); [by apply HQ | done].
Qed.

Lemma gm_byte_keeps va :
  is_u64 va → keeps D gm_wf (gm_byte va) (fun r => ∀ v, r = Some v → is_u8 v).
Proof.
  intros Hva [g b] [Hb Hp]. cbn in Hb, Hp. unfold gm_byte. cbv zeta. wp_step. wp_step. cbn beta.
  case_if.
  - wp_step. apply wp_zoom. eapply wp_mono; [|apply (translate_readable_at va (gm_satp g) (ram_epoch b)); done].
    cbn. intros [pa|] b1 [Hpa [Hb1 He1]].
    2: { apply wp_ret. split; [done|]. split; cbn; [done | by rewrite He1]. }
    wp_step. apply wp_zoom. eapply wp_mono; [|apply bl_load_page; auto]. cbn.
    intros [q|] b2 [-> Hq].
    2: { apply wp_ret. split; [done|]. split; cbn; [done | by rewrite He1]. }
    wp_step. wp_step. wp_step. apply gm_deref_wp; cbn; auto.
    intros v Hv. split; [by intros ? [= <-]|]. split; cbn; auto.
  - bools. cbn in E. destruct Hp as [Hp|Hp]; [by destruct (vpn_small va Hva); congruence|].
    wp_step. apply gm_deref_wp; cbn; auto. intros v Hv.
    split; [by intros ? [= <-]|]. split; cbn; auto.
Qed.

Lemma gm_array_keeps n va off :
  keeps D gm_wf (gm_array n va off) (fun r => ∀ bs, r = Some bs → Forall is_u8 bs ∧ length bs = n).
Proof.
  revert off. induction n as [|n IH]; intros off; cbn [gm_array].
  { apply keeps_ret. by intros bs [= <-]. }
  eapply keeps_bind; [apply gm_byte_keeps; auto with vpod|]. intros [v|] Hv; [|by apply keeps_ret].
  eapply keeps_bind; [apply IH|]. intros [bs|] Hbs; apply keeps_ret; [|done].
  intros l [= <-]. destruct (Hbs bs eq_refl) as [? <-]. split; [constructor; auto | done].
Qed.

Lemma gm_u64_keeps va : keeps D gm_wf (gm_u64 va) (fun r => ∀ v, r = Some v → is_u64 v).
Proof.
  unfold gm_u64. eapply keeps_bind; [apply gm_array_keeps|]. intros [bs|] Hbs; apply keeps_ret; [|done].
  intros v [= <-]. destruct (Hbs bs eq_refl) as [Hb Hl]. apply (from_bytes_word _ 8); [done | lia..].
Qed.

(** The string is bounded, so the loop never runs out of iterations. *)
Lemma cstring_loop_keeps fuel va max bytes :
  (length bytes <= max < fuel + length bytes)%nat →
  keeps D gm_wf (cstring_loop fuel va max bytes) (fun _ => True).
Proof.
  revert bytes. induction fuel as [|fuel IH]; intros bytes Hf; [lia|]. cbn [cstring_loop].
  eapply keeps_bind; [apply gm_byte_keeps; auto with vpod|]. intros [v|] Hv; [|by apply keeps_ret].
  case_if; [by apply keeps_ret|]. destruct (Nat.eqb_spec (length bytes) max); [by apply keeps_ret|].
  apply IH. cbn. lia.
Qed.

Lemma gm_cstring_keeps va max : keeps D gm_wf (gm_cstring va max) (fun _ => True).
Proof. unfold gm_cstring. case_if; [by apply keeps_ret|]. apply cstring_loop_keeps. cbn. lia. Qed.

Lemma argv_loop_keeps n i va budget argv : keeps D gm_wf (argv_loop n i va budget argv) (fun _ => True).
Proof.
  revert i budget argv. induction n as [|n IH]; intros; cbn [argv_loop]; [by apply keeps_ret|].
  eapply keeps_bind; [apply gm_u64_keeps|]. intros [p|] Hp; [|by apply keeps_ret].
  case_if; [by apply keeps_ret|]. case_if; [by apply keeps_ret|].
  eapply keeps_bind; [apply gm_cstring_keeps|]. intros [] _; auto using keeps_ret.
Qed.

Lemma gm_argv_keeps va : keeps D gm_wf (gm_argv va) (fun _ => True).
Proof. unfold gm_argv. case_if; [by apply keeps_ret|]. apply argv_loop_keeps. Qed.

Lemma gm_socket_keeps va : keeps D gm_wf (gm_socket_address va) (fun _ => True).
Proof.
  unfold gm_socket_address. case_if; [by apply keeps_ret|].
  do 2 (eapply keeps_bind; [apply gm_array_keeps|intros [?|] _; [|by apply keeps_ret]]).
  cbv zeta. repeat case_if; try (by apply keeps_ret);
    (eapply keeps_bind; [apply gm_array_keeps|intros ? _; by apply keeps_ret]).
Qed.

#[local] Hint Resolve gm_u64_keeps gm_cstring_keeps gm_argv_keeps gm_socket_keeps : keeps.

Lemma decode_exec_keeps n a : keeps D gm_wf (decode_exec n a) (fun _ => True).
Proof.
  unfold decode_exec. cbv zeta. destruct (if n =? SYS_EXECVEAT then _ else _) as [[fd pa] aa].
  apply (keeps_bind _ _ (fun _ => True)); [case_if; auto with keeps|]. intros path _. keeps_go.
Qed.

Lemma decode_open_keeps n a : keeps D gm_wf (decode_open n a) (fun _ => True).
Proof.
  unfold decode_open. cbv zeta. apply (keeps_bind _ _ (fun _ => True)); [|intros flags _; keeps_go].
  case_if; [|by apply keeps_ret]. eapply keeps_bind; [auto with keeps|]. intros v _. by apply keeps_ret.
Qed.
#[local] Hint Resolve decode_exec_keeps decode_open_keeps : keeps.

Lemma decode_kind_keeps n a : keeps D gm_wf (decode_kind n a) (fun _ => True).
Proof. unfold decode_kind. cbv zeta. keeps_go. Qed.

Lemma decode_entry_keeps pc satp : keeps D ctx_wf (decode_entry pc satp) (fun _ => True).
Proof.
  unfold decode_entry. apply (keeps_bind _ _ (fun _ => True)); [by apply get_csr_keeps|]. intros t _.
  eapply keeps_bind; [auto with keeps|]. intros n _.
  apply (keeps_bind _ _ (fun _ => True)); [by apply keeps_gets|]. intros args _.
  eapply keeps_bind; [|intros k _; by apply keeps_ret].
  apply (keeps_zoom gm_wf); [apply decode_kind_keeps | |].
  - intros c []. split; [done | by left].
  - intros c s [] []. by split.
Qed.

(** *** System instructions *)

Lemma trace_entry_keeps pc : keeps D ctx_wf (trace_syscall_entry pc) (fun _ => True).
Proof.
  unfold trace_syscall_entry. eapply keeps_bind; [auto with keeps|]. intros satp _.
  eapply keeps_bind; [apply decode_entry_keeps|]. intros [e|] _; auto with keeps.
Qed.

Lemma trace_return_keeps : keeps D ctx_wf trace_syscall_return (fun _ => True).
Proof.
  unfold trace_syscall_return. do 2 (eapply keeps_bind; [auto with keeps|intros ? _]).
  do 2 (apply (keeps_bind _ _ (fun _ => True)); [by apply get_csr_keeps|intros ? _]).
  auto with keeps.
Qed.

Lemma ecall_cause_word m : is_u64 (mcause_code (ecall_cause m)).
Proof. by destruct m. Qed.

Lemma exec_ecall_keeps pc : keeps D ctx_wf (exec_ecall pc) step_ok.
Proof.
  unfold exec_ecall. apply (keeps_bind _ _ (fun _ => True)); [by apply keeps_gets|]. intros mode _.
  do 2 (eapply keeps_bind; [auto with keeps|intros ? _]).
  apply (keeps_bind _ _ (fun _ => True)); [case_if; [by apply keeps_frame | by apply keeps_ret]|].
  intros _ _. apply (keeps_bind _ _ (fun _ => True)); [by apply keeps_gets|]. intros tr _.
  apply (keeps_bind _ _ (fun _ => True)); [case_if; [apply trace_entry_keeps | by apply keeps_ret]|].
  intros _ _. eapply keeps_bind; [apply take_exception_keeps; [apply ecall_cause_word | done]|].
  intros _ _. auto with keeps.
Qed.

Lemma epc_keeps (proj : Csr -> Z) :
  (∀ r, csr_wf r → is_u64 (proj r) ∧ even (proj r)) →
  keeps D ctx_wf (epc ← get_csr proj; set_pc epc;; mret StepOk) step_ok.
Proof.
  intros H. eapply keeps_bind; [by apply (get_csr_keeps proj (fun v => is_u64 v ∧ even v))|].
  intros v [Hv He]. keeps_go.
Qed.

Lemma sepc_ok r : csr_wf r → is_u64 (sepc r) ∧ even (sepc r).
Proof. intros H. destruct_csr_wf H. by split. Qed.
Lemma mepc_ok r : csr_wf r → is_u64 (mepc r) ∧ even (mepc r).
Proof. intros H. destruct_csr_wf H. by split. Qed.

Lemma exec_sret_keeps : keeps D ctx_wf exec_sret step_ok.
Proof.
  unfold exec_sret. apply (keeps_bind _ _ (fun _ => True)); [by apply keeps_get|]. intros c _.
  apply (keeps_bind _ _ (fun _ => True)).
  { apply keeps_modify. intros c' Hc. apply with_priv, with_csr; [done|]. apply sret_csrs_wf, Hc. }
  intros _ _. apply (keeps_bind _ _ (fun _ => True)); [by apply keeps_gets|]. intros tr _.
  apply (keeps_bind _ _ (fun _ => True)); [case_if; [apply trace_return_keeps | by apply keeps_ret]|].
  intros _ _. apply epc_keeps, sepc_ok.
Qed.

Lemma exec_mret_keeps : keeps D ctx_wf exec_mret step_ok.
Proof.
  unfold exec_mret. apply (keeps_bind _ _ (fun _ => True)); [|intros _ _; apply epc_keeps, mepc_ok].
  apply keeps_modify. intros c' Hc. apply with_priv, with_csr; [done|]. apply mret_csrs_wf, Hc.
Qed.

Lemma csr_new_value_word f3 old v u n :
  is_u64 old → is_u64 v → is_u64 u → csr_new_value f3 old v u = Some n → is_u64 n.
Proof.
  intros ? ? ?. unfold csr_new_value.
  repeat (case_if; [intros [= <-]; auto with vpod|]). done.
Qed.

Lemma reg_field_word raw : is_u64 (rs1 raw).
Proof. pose proof (rs1_range raw). unfold is_word. lia. Qed.

Lemma exec_csr_keeps raw pc : is_u64 raw → even pc → keeps D ctx_wf (exec_csr raw pc) step_ok.
Proof.
  intros Hraw Hpc. unfold exec_csr. cbv zeta.
  apply (keeps_bind _ _ (fun _ => True)); [by apply keeps_gets|]. intros mode _.
  eapply keeps_bind; [apply (get_csr_keeps _ opt_word); intros; by apply read_register_word|].
  intros [old|] Hold; [|auto with keeps].
  eapply keeps_bind; [auto with keeps|]. intros v Hv. pose proof (Hold old eq_refl).
  destruct (csr_new_value _ old v (rs1 raw)) as [n|] eqn:En; [|auto with keeps].
  apply csr_new_value_word in En; [|done..|apply reg_field_word].
  case_if; [|keeps_go].
  eapply keeps_bind;
    [apply (get_csr_keeps _ (fun c => csr_wf c.1)); intros; by apply write_register_wf|].
  intros c Hc. eapply keeps_bind; [by apply mod_csr_keeps|]. intros _ _. case_if; [auto with keeps|].
  apply (keeps_bind _ _ (fun _ => True)); [case_if; [keeps_go | by apply keeps_ret]|].
  intros _ _. keeps_go.
Qed.

Lemma exec_system_keeps raw : is_u64 raw → keeps D ctx_wf (exec_system raw) step_ok.
Proof.
  intros Hraw. unfold exec_system. eapply keeps_bind; [auto with keeps|]. intros pc [Hpc He].
  case_if; [|by apply exec_csr_keeps]. cbv zeta.
  case_if; [apply exec_ecall_keeps|].
  case_if; [eapply keeps_bind; [by apply take_exception_keeps|intros _ _; auto with keeps]|].
  case_if; [apply exec_sret_keeps|]. case_if; [apply exec_mret_keeps|].
  case_if.
  { apply (keeps_bind _ _ (fun _ => True)); [by apply keeps_frame|]. intros _ _. keeps_go. }
  case_if; keeps_go.
Qed.

(** *** Double-word accesses of either width of instruction *)

Definition dw_ok {A} (P : A -> Prop) (r : Result A MmuFault) : Prop :=
  match r with Ok v => P v | Err fault => is_u64 (fault_tval fault) end.

Lemma dw_load_result_keeps va satp :
  is_u64 va → keeps D ctx_wf (cross_page_load_dw_result va satp) (dw_ok is_u64).
Proof.
  intros Hva. unfold cross_page_load_dw_result. case_if.
  - eapply keeps_bind; [auto with keeps|]. intros [pa|f] Hr; [|by apply keeps_ret].
    destruct Hr as [Hpa _]. eapply keeps_bind; [auto with keeps|]. intros v Hv. by apply keeps_ret.
  - eapply keeps_bind; [auto with keeps|]. intros [bs|f] Hr; apply keeps_ret; [|done].
    destruct Hr as [Hb Hl]. apply (from_bytes_word _ 8); [done | lia..].
Qed.

Lemma dw_load_keeps va satp :
  is_u64 va →
  keeps D ctx_wf (cross_page_load_dw va satp)
    (fun r => match r with Ok v => is_u64 v | Err t => step_ok t end).
Proof.
  intros Hva. unfold cross_page_load_dw. eapply keeps_bind; [by apply dw_load_result_keeps|].
  intros [v|f] Hr; [by apply keeps_ret|]. eapply keeps_bind; [auto with keeps|].
  intros t Ht. by apply keeps_ret.
Qed.

Lemma dw_store_result_keeps va v satp :
  is_u64 va → is_u64 v →
  keeps D ctx_wf (cross_page_store_dw_result va v satp) fault_ok.
Proof.
  intros Hva Hv. unfold cross_page_store_dw_result. apply on_store_keeps. case_if.
  - apply store_at_keeps; [done|]. auto with keeps.
  - apply store_bytes_keeps, to_le_bytes_bytes.
Qed.

Lemma dw_store_keeps va v satp :
  is_u64 va → is_u64 v →
  keeps D ctx_wf (cross_page_store_dw va v satp)
    (fun r => match r with Ok _ => True | Err t => step_ok t end).
Proof.
  intros Hva Hv. unfold cross_page_store_dw. eapply keeps_bind; [by apply dw_store_result_keeps|].
  intros [u|f] Hr; [by apply keeps_ret|]. eapply keeps_bind; [auto with keeps|].
  intros t Ht. by apply keeps_ret.
Qed.

(** *** Floating point *)

Definition fl_width (fmt : FloatFormat) : Z := mant_bits fmt + exp_bits fmt + 1.
Definition fl_word (fmt : FloatFormat) (z : Z) : Prop := is_word (fl_width fmt) z.

Lemma to_fbits_word fmt nan v : 0 <= fl_width fmt → fl_word fmt (to_fbits fmt nan v).
Proof. intros. by apply wrap_range. Qed.

Lemma f_values fmt :
  0 <= fl_width fmt →
  (∀ a b, fl_word fmt (f_add fmt a b) ∧ fl_word fmt (f_sub fmt a b) ∧ fl_word fmt (f_mul fmt a b)
          ∧ fl_word fmt (f_div fmt a b) ∧ fl_word fmt (f_sqrt fmt a) ∧ fl_word fmt (f_of_int fmt a)) ∧
  (∀ a b c, fl_word fmt (f_mul_add fmt a b c)) ∧ (∀ src a, fl_word fmt (f_convert src fmt a)).
Proof. intros H. split_and!; intros; split_and?; by apply to_fbits_word. Qed.

Lemma f_minmax_word fmt a b v f3 :
  0 <= fl_width fmt → fl_word fmt a → fl_word fmt b → fminmax fmt f3 a b = Some v → fl_word fmt v.
Proof.
  intros Hw Ha Hb. unfold fminmax, f_min, f_max.
  repeat (case_if; try done); intros [= <-]; try done; by apply to_fbits_word.
Qed.

Lemma f_neg_word32 a : is_u32 a → is_u32 (f_neg binary32 a).
Proof. intros. by apply lxor_word. Qed.
Lemma f_neg_word64 a : is_u64 a → is_u64 (f_neg binary64 a).
Proof. intros. by apply lxor_word. Qed.

Lemma read_f32_word r g : gpr_wf g → is_u32 (read_f32 r g).
Proof. intros. unfold read_f32. cbv zeta. case_if; [apply wrap_range; lia | done]. Qed.

Lemma read_freg_keeps r : keeps D ctx_wf (read_freg r) is_u64.
Proof. apply keeps_gets. intros c []. by apply read_f_word. Qed.
Lemma read_freg32_keeps r : keeps D ctx_wf (read_freg32 r) is_u32.
Proof. apply keeps_gets. intros c []. by apply read_f32_word. Qed.
Lemma write_freg_keeps r v : is_u64 v → keeps D ctx_wf (write_freg r v) (fun _ => True).
Proof.
  intros. apply keeps_modify. intros c H'. apply with_regs; [done | | apply (cx_pc _ H')].
  apply write_f_wf; [done | apply H'].
Qed.
Lemma write_freg32_keeps r v : is_u32 v → keeps D ctx_wf (write_freg32 r v) (fun _ => True).
Proof.
  intros. apply keeps_modify. intros c H'. apply with_regs; [done | | apply (cx_pc _ H')].
  rewrite write_f32_write_f. apply write_f_wf; [|apply H']. apply lor_word; [lia | done|].
  by apply u32_u64.
Qed.
Lemma mark_fs_dirty_keeps : keeps D ctx_wf mark_fs_dirty (fun _ => True).
Proof.
  apply mod_csr_keeps. intros r Hr. apply mstatus_wf_update; [|done].
  apply mstatus_set; [done | done | apply Hr].
Qed.
Lemma fp_retire_keeps pc : even pc → keeps D ctx_wf (fp_retire pc) step_ok.
Proof. intros. unfold fp_retire. keeps_go. Qed.
#[local] Hint Resolve read_freg_keeps read_freg32_keeps write_freg_keeps write_freg32_keeps
  mark_fs_dirty_keeps fp_retire_keeps : keeps.

Lemma guard_fs_keeps raw m : is_u64 raw → keeps D ctx_wf m step_ok → keeps D ctx_wf (guard_fs raw m) step_ok.
Proof.
  intros Hraw Hm. unfold guard_fs.
  eapply keeps_bind; [apply (keeps_gets _ (fun t => ∀ r, t = Some r → step_ok r))|].
  - intros c _ r. unfold check_fs. case_if; [by intros [= <-] | done].
  - intros [t|] Ht; [apply keeps_ret; auto | done].
Qed.

Lemma fault_step_keeps f :
  is_u64 (fault_tval f) →
  keeps D ctx_wf (take_exception (fault_mcause f) (fault_tval f);; mret StepOk) step_ok.
Proof. intros. keeps_go. Qed.
#[local] Hint Resolve fault_step_keeps : keeps.

Lemma load_fp_keeps raw pc : is_u64 raw → even pc → keeps D ctx_wf (load_fp raw pc) step_ok.
Proof.
  intros Hraw Hpc. apply guard_fs_keeps; [done|]. eapply keeps_bind; [auto with keeps|]. intros base Hb.
  cbv zeta. eapply keeps_bind; [auto with keeps|]. intros satp _. case_if; [|case_if; [|auto with keeps]].
  - eapply keeps_bind; [auto with keeps vpod|]. intros [pa|f] Hr; [|auto with keeps].
    destruct Hr as [Hpa _]. keeps_go.
  - eapply keeps_bind; [apply dw_load_result_keeps; auto with vpod|]. intros [v|f] Hr; [|auto with keeps].
    cbn in Hr. keeps_go.
Qed.

Lemma store_fp_keeps raw pc : is_u64 raw → even pc → keeps D ctx_wf (store_fp raw pc) step_ok.
Proof.
  intros Hraw Hpc. apply guard_fs_keeps; [done|]. eapply keeps_bind; [auto with keeps|]. intros base Hb.
  cbv zeta. eapply keeps_bind; [auto with keeps|]. intros satp _. case_if; [|case_if; [|auto with keeps]].
  - eapply keeps_bind; [auto with keeps vpod|]. intros [pa|f] Hr; [|auto with keeps].
    destruct Hr as [Hpa _]. keeps_go.
  - eapply keeps_bind; [auto with keeps|]. intros v Hv.
    eapply keeps_bind; [apply dw_store_result_keeps; auto with vpod|]. intros [u|f] Hr; auto with keeps.
Qed.

Lemma arm_s_keeps raw pc v :
  is_u64 raw → even pc → (∀ x, v = Some x → is_u32 x) → keeps D ctx_wf (arm_s raw pc v) step_ok.
Proof. intros ? ? Hv. destruct v; cbn; [specialize (Hv _ eq_refl)|]; keeps_go. Qed.
Lemma arm_d_keeps raw pc v :
  is_u64 raw → even pc → (∀ x, v = Some x → is_u64 x) → keeps D ctx_wf (arm_d raw pc v) step_ok.
Proof. intros ? ? Hv. destruct v; cbn; [specialize (Hv _ eq_refl)|]; keeps_go. Qed.
Lemma arm_x_keeps raw pc v :
  is_u64 raw → even pc → (∀ x, v = Some x → is_u64 x) → keeps D ctx_wf (arm_x raw pc v) step_ok.
Proof. intros ? ? Hv. destruct v; cbn; [specialize (Hv _ eq_refl)|]; keeps_go. Qed.

Lemma bin_s_keeps raw pc f :
  is_u64 raw → even pc → (∀ a b x, is_u32 a → is_u32 b → f a b = Some x → is_u32 x) →
  keeps D ctx_wf (bin_s raw pc f) step_ok.
Proof.
  intros. unfold bin_s. do 2 (eapply keeps_bind; [auto with keeps|intros ? ?]).
  apply arm_s_keeps; eauto.
Qed.
Lemma bin_d_keeps raw pc f :
  is_u64 raw → even pc → (∀ a b x, is_u64 a → is_u64 b → f a b = Some x → is_u64 x) →
  keeps D ctx_wf (bin_d raw pc f) step_ok.
Proof.
  intros. unfold bin_d. do 2 (eapply keeps_bind; [auto with keeps|intros ? ?]).
  apply arm_d_keeps; eauto.
Qed.

Lemma fsgnj_s_word f3 a b x : is_u32 a → is_u32 b → fsgnj_s f3 a b = Some x → is_u32 x.
Proof.
  intros Ha Hb. unfold fsgnj_s.
  assert (L : ∀ z m, is_u32 m → is_u32 (Z.land z m)) by (intros; apply land_word_r; done || lia).
  repeat (case_if; [intros [= <-]; first [apply lor_word | apply lxor_word]; first [lia | done | by apply L]|]).
  done.
Qed.
Lemma fsgnj_d_word f3 a b x : is_u64 a → is_u64 b → fsgnj_d f3 a b = Some x → is_u64 x.
Proof.
  intros Ha Hb. unfold fsgnj_d. cbv zeta.
  assert (L : ∀ z m, is_u64 m → is_u64 (Z.land z m)) by (intros; apply land_word_r; done || lia).
  repeat (case_if; [intros [= <-]; first [apply lor_word | apply lxor_word];
    first [lia | done | by apply L | apply L, not64_word]|]). done.
Qed.
Lemma fcompare_word fmt f3 a b x : fcompare fmt f3 a b = Some x → is_u64 x.
Proof. unfold fcompare. repeat (case_if; [intros [= <-]; auto with vpod|]). done. Qed.
Lemma fclass_word b : is_u64 (fclass_s b) ∧ is_u64 (fclass_d b).
Proof. unfold fclass_s, fclass_d. cbv zeta. split; repeat case_if; done. Qed.

Lemma f_to_int_range fmt lo hi a : lo <= 0 <= hi → lo <= f_to_int fmt lo hi a <= hi.
Proof. intros H. unfold f_to_int. destruct (from_fbits fmt a) as [[]|[]| |]; cbv zeta; lia. Qed.

Lemma fcvt_to_int_word fmt r x v : fcvt_to_int fmt r x = Some v → is_u64 v.
Proof.
  unfold fcvt_to_int. pose proof (f_to_int_range fmt 0 (2 ^ 32 - 1) x ltac:(lia)).
  pose proof (f_to_int_range fmt 0 (2 ^ 64 - 1) x ltac:(lia)).
  repeat (case_if; [intros [= <-]; first [by auto with vpod | unfold is_word; lia]|]). done.
Qed.
Lemma fcvt_from_int_word fmt r x v : 0 <= fl_width fmt → fcvt_from_int fmt r x = Some v → fl_word fmt v.
Proof.
  intros Hw. unfold fcvt_from_int. repeat (case_if; [intros [= <-]; by apply to_fbits_word|]). done.
Qed.

(** One read of a register, then an arm. *)
Lemma un_keeps {A} (m : ST (ExecContext B) A) (R : A -> Prop) k :
  keeps D ctx_wf m R → (∀ a, R a → keeps D ctx_wf (k a) step_ok) → keeps D ctx_wf (m ≫= k) step_ok.
Proof. apply keeps_bind. Qed.

Lemma some_word w (v : Z) : is_word w v → ∀ x, Some v = Some x → is_word w x.
Proof. by intros ? ? [= <-]. Qed.

Lemma fp_moves_keeps raw pc :
  is_u64 raw → even pc →
  keeps D ctx_wf (fmv_x_w raw pc) step_ok ∧ keeps D ctx_wf (fmv_x_d raw pc) step_ok ∧
  keeps D ctx_wf (cmp_s raw pc) step_ok ∧ keeps D ctx_wf (cmp_d raw pc) step_ok ∧
  keeps D ctx_wf (fcvt_x_s raw pc) step_ok ∧ keeps D ctx_wf (fcvt_x_d raw pc) step_ok.
Proof.
  intros Hraw Hpc. unfold fmv_x_w, fmv_x_d, cmp_s, cmp_d, fcvt_x_s, fcvt_x_d.
  refine (conj _ (conj _ (conj _ (conj _ (conj _ _)))));
    (eapply keeps_bind; [auto with keeps|intros a Ha]).
  - apply arm_x_keeps; [done | done |]. intros x. case_if; [intros [= <-]; auto with vpod|].
    case_if; [intros [= <-]; exact (proj1 (fclass_word a)) | done].
  - apply arm_x_keeps; [done | done |]. intros x. case_if; [by intros [= <-]|].
    case_if; [intros [= <-]; exact (proj2 (fclass_word a)) | done].
  - eapply keeps_bind; [auto with keeps|intros b Hb]. apply arm_x_keeps; eauto using fcompare_word.
  - eapply keeps_bind; [auto with keeps|intros b Hb]. apply arm_x_keeps; eauto using fcompare_word.
  - eapply keeps_bind; [by apply (get_csr_keeps _ (fun _ => True))|intros b Hb].
    apply arm_x_keeps; eauto using fcvt_to_int_word.
  - eapply keeps_bind; [by apply (get_csr_keeps _ (fun _ => True))|intros b Hb].
    apply arm_x_keeps; eauto using fcvt_to_int_word.
Qed.

Lemma f_width32 : 0 <= fl_width binary32.
Proof. done. Qed.
Lemma f_width64 : 0 <= fl_width binary64.
Proof. done. Qed.

Lemma f_words32 a b :
  is_u32 (f_add binary32 a b) ∧ is_u32 (f_sub binary32 a b) ∧ is_u32 (f_mul binary32 a b)
  ∧ is_u32 (f_div binary32 a b) ∧ is_u32 (f_sqrt binary32 a).
Proof. destruct (f_values binary32 f_width32) as [H _]. destruct (H a b) as (?&?&?&?&?&?). done. Qed.
Lemma f_words64 a b :
  is_u64 (f_add binary64 a b) ∧ is_u64 (f_sub binary64 a b) ∧ is_u64 (f_mul binary64 a b)
  ∧ is_u64 (f_div binary64 a b) ∧ is_u64 (f_sqrt binary64 a).
Proof. destruct (f_values binary64 f_width64) as [H _]. destruct (H a b) as (?&?&?&?&?&?). done. Qed.



Lemma op_fp_keeps raw pc : is_u64 raw → even pc → keeps D ctx_wf (op_fp raw pc) step_ok.
Proof.
  intros Hraw Hpc. apply guard_fs_keeps; [done|]. cbv zeta.
  destruct (fp_moves_keeps raw pc Hraw Hpc) as (?&?&?&?&?&?).
  case_if; [eapply keeps_bind; [auto with keeps|intros a Ha; apply arm_s_keeps; [done..|apply some_word, as_u32_word]]|].
  case_if; [done|].
  case_if; [eapply keeps_bind; [auto with keeps|intros a Ha; apply arm_d_keeps; [done..|by apply some_word]]|].
  case_if; [done|].
  do 4 (case_if; [apply bin_s_keeps; [done | done | intros a b x _ _; apply some_word;
    destruct (f_words32 a b) as (?&?&?&?&?); assumption]|]).
  do 4 (case_if; [apply bin_d_keeps; [done | done | intros a b x _ _; apply some_word;
    destruct (f_words64 a b) as (?&?&?&?&?); assumption]|]).
  case_if; [eapply keeps_bind; [auto with keeps|intros a Ha; apply arm_s_keeps; [done..|apply some_word; destruct (f_words32 a 0) as (?&?&?&?&?); assumption]]|].
  case_if; [eapply keeps_bind; [auto with keeps|intros a Ha; apply arm_d_keeps; [done..|apply some_word; destruct (f_words64 a 0) as (?&?&?&?&?); assumption]]|].
  case_if; [apply bin_s_keeps; [done | done | apply fsgnj_s_word]|].
  case_if; [apply bin_d_keeps; [done | done | apply fsgnj_d_word]|].
  case_if; [apply bin_s_keeps; [done | done | intros a b x; apply (f_minmax_word binary32 a b x), f_width32]|].
  case_if; [apply bin_d_keeps; [done | done | intros a b x; apply (f_minmax_word binary64 a b x), f_width64]|].
  do 3 (case_if; [done|]).
  case_if; [eapply keeps_bind; [auto with keeps|intros a Ha; apply arm_s_keeps; [done..|
    intros x; apply (fcvt_from_int_word binary32), f_width32]]|].
  case_if; [done|].
  case_if; [eapply keeps_bind; [auto with keeps|intros a Ha; apply arm_d_keeps; [done..|
    intros x; apply (fcvt_from_int_word binary64), f_width64]]|].
  case_if; [eapply keeps_bind; [auto with keeps|intros a Ha; apply arm_s_keeps; [done..|
    apply some_word, (to_fbits_word binary32), f_width32]]|].
  case_if; [eapply keeps_bind; [auto with keeps|intros a Ha; apply arm_d_keeps; [done..|
    apply some_word, (to_fbits_word binary64), f_width64]]|].
  auto with keeps.
Qed.

Lemma fma_keeps raw pc :
  is_u64 raw → even pc →
  (opcode raw = OP_FMADD ∨ opcode raw = OP_FMSUB ∨ opcode raw = OP_FNMSUB ∨ opcode raw = OP_FNMADD) →
  keeps D ctx_wf (fma raw pc) step_ok.
Proof.
  intros Hraw Hpc Hop. apply guard_fs_keeps; [done|]. cbv zeta.
  assert (V : ∀ fmt a b c, 0 <= fl_width fmt → ∃ v, fma_value fmt (opcode raw) a b c = Some v ∧ fl_word fmt v).
  { intros fmt a b c Hw. unfold fma_value.
    destruct Hop as [-> | [-> | [-> | ->]]]; cbn [Z.eqb Pos.eqb OP_FMADD OP_FMSUB OP_FNMSUB OP_FNMADD];
      eexists; (split; [reflexivity|]); by apply to_fbits_word. }
  case_if; [|case_if; [|auto with keeps]];
    do 3 (eapply keeps_bind; [auto with keeps|intros ? ?]).
  - destruct (V binary32 a a0 a1 f_width32) as (v & -> & Hv). keeps_go.
  - destruct (V binary64 a a0 a1 f_width64) as (v & -> & Hv). keeps_go.
Qed.

(** *** Compressed instructions *)

Lemma c_uimm6_nonneg raw : 0 <= c_uimm6 raw.
Proof.
  unfold c_uimm6, bits_at. apply Z.lor_nonneg. split.
  - apply Z.shiftl_nonneg, land_nonneg_r. lia.
  - apply land_nonneg_r. lia.
Qed.

Lemma c_write_keeps r v pc :
  0 <= r < 32 → is_u64 v → even pc → keeps D ctx_wf (c_write r v pc) step_ok.
Proof. intros. unfold c_write. auto with keeps vpod. Qed.
#[local] Hint Resolve c_write_keeps : keeps.

Lemma c_load_word_keeps r va pc satp :
  0 <= r < 32 → is_u64 va → even pc → keeps D ctx_wf (c_load_word r va pc satp) step_ok.
Proof.
  intros. unfold c_load_word. eapply keeps_bind; [auto with keeps|]. intros [pa|f] Hr; [|auto with keeps].
  destruct Hr as [Hpa _]. keeps_go.
Qed.
Lemma c_load_dw_keeps r va pc satp :
  0 <= r < 32 → is_u64 va → even pc → keeps D ctx_wf (c_load_dw r va pc satp) step_ok.
Proof.
  intros. unfold c_load_dw. eapply keeps_bind; [by apply dw_load_keeps|].
  intros [v|t] Hr; [auto with keeps | by apply keeps_ret].
Qed.
Lemma c_load_fdw_keeps r va pc satp :
  is_u64 va → even pc → keeps D ctx_wf (c_load_fdw r va pc satp) step_ok.
Proof.
  intros. unfold c_load_fdw. eapply keeps_bind; [by apply dw_load_keeps|].
  intros [v|t] Hr; [keeps_go | by apply keeps_ret].
Qed.
Lemma c_store_word_keeps va v pc satp :
  is_u64 va → even pc → keeps D ctx_wf (c_store_word va v pc satp) step_ok.
Proof.
  intros. unfold c_store_word. eapply keeps_bind; [auto with keeps|]. intros [pa|f] Hr; [|auto with keeps].
  destruct Hr as [Hpa _]. keeps_go.
Qed.
Lemma c_store_dw_keeps va v pc satp :
  is_u64 va → is_u64 v → even pc → keeps D ctx_wf (c_store_dw va v pc satp) step_ok.
Proof.
  intros. unfold c_store_dw. eapply keeps_bind; [by apply dw_store_keeps|].
  intros [u|t] Hr; [keeps_go | by apply keeps_ret].
Qed.
Lemma reg_2 : 0 <= 2 < 32.
Proof. lia. Qed.
Lemma reg_1 : 0 <= 1 < 32.
Proof. lia. Qed.
#[local] Hint Resolve c_load_word_keeps c_load_dw_keeps c_load_fdw_keeps c_store_word_keeps
  c_store_dw_keeps : keeps.
#[local] Hint Resolve reg_1 reg_2 : vpod.

Lemma exec_c0_keeps raw funct pc satp :
  is_u64 raw → even pc → keeps D ctx_wf (exec_c0 raw funct pc satp) step_ok.
Proof. intros Hraw Hpc. unfold exec_c0. cbv zeta. keeps_go. Qed.

Lemma c_alu_value_word raw a b v : is_u64 a → is_u64 b → c_alu_value raw a b = Some v → is_u64 v.
Proof.
  intros Ha Hb. pose proof (c_uimm6_nonneg raw). unfold c_alu_value, wrapping_sub64. cbv zeta.
  repeat (case_if; [intros [= <-]; auto with vpod|]). done.
Qed.

Lemma exec_c1_keeps raw funct pc :
  is_u64 raw → even pc → keeps D ctx_wf (exec_c1 raw funct pc) step_ok.
Proof.
  intros Hraw Hpc. unfold exec_c1. cbv zeta. do 4 (case_if; [keeps_go|]).
  case_if.
  { do 2 (eapply keeps_bind; [auto with keeps|intros ? ?]).
    destruct (c_alu_value raw a a0) as [v|] eqn:Ev; [|auto with keeps].
    apply c_alu_value_word in Ev; [|done..]. auto with keeps vpod. }
  case_if; [keeps_go|]. eapply keeps_bind; [auto with keeps|]. intros a Ha.
  apply (keeps_bind _ _ (fun _ => True)); [|intros _ _; auto with keeps].
  destruct (if funct =? 6 then _ else _); auto with keeps vpod.
Qed.

Lemma breakpoint_keeps : keeps D ctx_wf (mret (StepTrap Breakpoint)) step_ok.
Proof. by apply keeps_ret. Qed.
#[local] Hint Resolve breakpoint_keeps : keeps.

Lemma exec_c_jr_keeps raw pc : even pc → keeps D ctx_wf (exec_c_jr_mv_add raw pc) step_ok.
Proof. intros Hpc. unfold exec_c_jr_mv_add. cbv zeta. keeps_go. Qed.
#[local] Hint Resolve exec_c_jr_keeps : keeps.

Lemma exec_c2_keeps raw funct pc satp :
  even pc → keeps D ctx_wf (exec_c2 raw funct pc satp) step_ok.
Proof. intros Hpc. unfold exec_c2. cbv zeta. keeps_go. Qed.

Lemma exec_compressed_keeps raw : is_u64 raw → keeps D ctx_wf (exec_compressed raw) step_ok.
Proof.
  intros Hraw. unfold exec_compressed. eapply keeps_bind; [auto with keeps|]. intros satp _.
  eapply keeps_bind; [auto with keeps|]. intros pc [_ Hpc]. cbv zeta.
  repeat case_if; auto using exec_c0_keeps, exec_c1_keeps, exec_c2_keeps, illegal_keeps.
Qed.

(** ** Any instruction *)

Lemma exec_full_keeps raw pc : is_u64 raw → even pc → keeps D ctx_wf (exec_full raw pc) step_ok.
Proof.
  intros Hraw Hpc. destruct (exec_arith_keeps raw pc Hraw Hpc) as (?&?&?&?).
  unfold exec_full. eapply keeps_bind; [auto with keeps|]. intros satp _. cbv zeta.
  case_if; [by apply exec_lui_keeps|]. case_if; [by apply exec_auipc_keeps|].
  case_if; [by apply exec_jal_keeps|]. case_if; [by apply exec_jalr_keeps|].
  case_if; [by apply exec_branch_keeps|]. case_if; [by apply exec_load_keeps|].
  case_if; [by apply exec_store_keeps|]. do 4 (case_if; [assumption|]).
  case_if; [by apply exec_amo_keeps|]. case_if; [by apply exec_fence_keeps|].
  case_if; [by apply exec_system_keeps|]. case_if; [by apply load_fp_keeps|].
  case_if; [by apply store_fp_keeps|]. case_if; [by apply op_fp_keeps|].
  match goal with |- keeps _ _ (if ?b then _ else _) _ => destruct b eqn:Ef end; [|auto with keeps].
  apply fma_keeps; [done | done |].
  rewrite !orb_true_iff, !Z.eqb_eq in Ef. tauto.
Qed.

Lemma exec_raw_keeps raw pc :
  is_u32 raw → is_u64 pc → even pc → keeps D ctx_wf (exec_raw raw pc) step_ok.
Proof.
  intros Hraw Hpc He. unfold exec_raw. eapply keeps_bind.
  { case_if; [apply exec_compressed_keeps; auto with vpod | apply exec_full_keeps; auto with vpod]. }
  intros r Hr. destruct r as [|cause|]; [auto with keeps| |by apply keeps_ret].
  assert (∀ mc tv, raw_exception cause pc = Some (mc, tv) → is_u64 mc ∧ is_u64 tv) as Hx.
  { intros mc tv. destruct cause; try done; cbn in *; intros [= <- <-]; split; done. }
  destruct (raw_exception cause pc) as [[mc tv]|]; [|by apply keeps_ret].
  destruct (Hx mc tv eq_refl). keeps_go.
Qed.
End Layers.

#[export] Hint Resolve read_byte_at read_halfword_at read_word_at read_doubleword_at
  read_byte_keeps read_halfword_keeps read_word_keeps read_doubleword_keeps
  write_byte_keeps write_halfword_keeps write_word_keeps write_doubleword_keeps
  external_keeps entry_keeps return_keeps drain_keeps
  load_fast_fill_keeps store_fast_fill_keeps
  translate_fetch_keeps translate_load_keeps translate_store_keeps
  mb_bus_keeps st_mmu_keeps st_bus_keeps st_notify_keeps
  read_reg_keeps write_reg_keeps get_pc_keeps set_pc_keeps add_instret_keeps
  ctx_satp_keeps on_bus_keeps on_mmu_keeps on_store_keeps notify_keeps flush_mmu_keeps
  invalidate_keeps load_bytes_keeps store_bytes_keeps
  take_exception_keeps take_interrupt_keeps trap_from_mmu_keeps step_ok_ret : keeps.
#[export] Hint Resolve u32_u64 u16_u64 u8_u64 even_2 even_4 even_as_u64 as_u8_word as_u16_word
  as_u32_word fault_mcause_word : vpod.

(** ** The initial context *)

Lemma ctx_wf_init {B} {SB : SystemBus B} {HM : HostMemory B} {D} {BL : BusLaws B D} (c : ExecContext B) e :
  is_u64 e → even e → bus_ok (bus c) →
  regs c = gpr_new e → csr c = csr_new → mmu c = mmu_new → blocks c = cache_new →
  icache_data c = arr_new 0 → ctx_wf c.
Proof.
  intros He Hev Hb E1 E2 E3 E4 E5. split; rewrite ?E1, ?E2, ?E3, ?E4, ?E5; try done.
  - by apply gpr_new_wf.
  - apply csr_new_wf.
  - apply mmu_new_wf.
  - apply cache_new_wf.
Qed.

(** C27: on a bus that does not panic, executing any 32-bit encoding from a
    well-formed context returns: no [unreachable!], no out-of-range index and no
    unwrap of the interpreter (integer, atomic, floating-point, CSR and system
    instructions, and the system-call tracer they call) is ever reached; and the
    resulting context is well formed: [x0] is zero, registers and CSRs are in
    range, pc is even. *)
Theorem instruction_total {B} {SB : SystemBus B} {HM : HostMemory B} {FE : FloatEnv}
    {BL : BusLaws B False} (raw : Z) (c : ExecContext B) :
  ctx_wf c → is_u32 raw →
  ∃ r c', exec_raw raw (pc (regs c)) c = Some (r, c') ∧ ctx_wf c'.
Proof.
  intros Hc Hraw.
  destruct (wp_total _ _ _ (exec_raw_keeps raw (pc (regs c)) Hraw
    (wf_pc _ (cx_regs _ Hc)) (cx_pc _ Hc) c Hc)) as (r & c' & E & _ & Hc').
  eauto.
Qed.

(** A context over the sparse RAM: [ECALL] from reset. *)
Definition reset_ctx {B : Type} (b : B) : ExecContext B :=
  mkCtx (gpr_new 0x80000000) csr_new mmu_new b PrivM None fetch_tlb_new (arr_new U64_MAX)
    (arr_new 0) false false cache_new.

Lemma instruction_total_witness :
  let FE := env_zero in
  let c := reset_ctx SparseRam.empty in
  ∃ r c', exec_raw 0x73 (pc (regs c)) c = Some (r, c') ∧ ctx_wf (BL := SparseRam.laws) c'.
Proof.
  intros FE c. apply (instruction_total (BL := SparseRam.laws)); [|done].
  by apply (ctx_wf_init (BL := SparseRam.laws) _ 0x80000000).
Defined.
