(* ===== verification/BlockInvariant.v ===== *)
(** Blocks: what decoding produces, and that executing a block keeps the
    invariant of the context. *)
From S2P Require Import Prelude Words Wp Trap Gpr Decode Extensions Csr SyscallEntry SystemBus.
From S2P Require Import BusLaws Mmu BlockCache BlockCacheProps Context Float SyscallTrace Execute.
From S2P Require Import CsrProps ExecuteFp Interp BlockDecode BlockExec ValueProps Invariant.

(** ** Decoded operations are well formed *)

Lemma reg_0 : reg_ok 0.
Proof. unfold reg_ok. lia. Qed.
Lemma reg_1' : reg_ok 1.
Proof. unfold reg_ok. lia. Qed.
Lemma reg_2' : reg_ok 2.
Proof. unfold reg_ok. lia. Qed.
Lemma rd_ok raw : reg_ok (rd raw).
Proof. apply rd_range. Qed.
Lemma rs1_ok raw : reg_ok (rs1 raw).
Proof. apply rs1_range. Qed.
Lemma rs2_ok raw : reg_ok (rs2 raw).
Proof. apply rs2_range. Qed.
Lemma c_rd_ok raw : reg_ok (c_rd raw).
Proof. apply c_rd_range. Qed.
Lemma c_rs2_ok raw : reg_ok (c_rs2 raw).
Proof. apply c_rs2_range. Qed.
Lemma rs1_prime_ok raw : reg_ok (rs1_prime raw).
Proof. apply rs1_prime_range. Qed.
Lemma rs2_prime_ok raw : reg_ok (rs2_prime raw).
Proof. apply rs2_prime_range. Qed.
#[export] Hint Resolve reg_0 reg_1' reg_2' rd_ok rs1_ok rs2_ok c_rd_ok c_rs2_ok rs1_prime_ok
  rs2_prime_ok : vpod.

Lemma decode_full_wf raw o : decode_full raw = Some o → op_wf o.
Proof.
  unfold decode_full. cbv zeta.
  repeat match goal with
  | |- (if _ then _ else _) = Some _ → _ => case_if
  | |- (_ ≫= _) = Some _ → _ =>
      intros (k & _ & Hk)%bind_Some; injection Hk as <-; cbn; auto with vpod
  | |- Some _ = Some _ → _ => intros [= <-]; cbn; auto with vpod
  | |- None = Some _ → _ => done
  end.
Qed.

Lemma decode_compressed_wf raw o : decode_compressed raw = Some o → op_wf o.
Proof.
  unfold decode_compressed, decode_c0, decode_c1, decode_c2, decode_c_alu, decode_c_jr_mv_add. cbv zeta.
  repeat match goal with
  | |- (if _ then _ else _) = Some _ → _ => case_if
  | |- Some _ = Some _ → _ => intros [= <-]; cbn; auto 6 with vpod
  | |- None = Some _ → _ => done
  end.
Qed.

Lemma join_halves lo hi :
  is_u16 lo → is_u16 hi → Z.land lo 3 = 3 →
  is_u32 (Z.lor lo (shl32 hi 16)) ∧ Z.land (Z.lor lo (shl32 hi 16)) 3 = 3.
Proof.
  intros Hlo Hhi H3. split.
  - apply lor_word; [lia | by apply (is_word_mono 16); [lia|] | apply wrap_range; lia].
  - rewrite Z.land_lor_distr_l, H3. replace (Z.land (shl32 hi 16) 3) with 0; [done|].
    apply Z.bits_inj'. intros i Hi. rewrite Z.land_spec, Z.bits_0. unfold shl32, as_u32.
    rewrite wrap_testbit, Z.shiftl_spec by lia. destruct (Z.lt_ge_cases i 16).
    + by rewrite Z.testbit_neg_r, andb_false_r by lia.
    + rewrite (testbit_high 2 3 i) by (done || lia). by rewrite andb_false_r.
Qed.

Section Blocks.
Context {B : Type} {SB : SystemBus B} {HM : HostMemory B} {FE : FloatEnv} {D : Prop}
  {BL : BusLaws B D}.

(** What [decode_at] yields. *)
Definition decoded_ok (d : option (Op * Z)) : Prop :=
  ∀ o len, d = Some (o, len) → op_wf o ∧ (len = 2 ∨ len = 4).

Lemma decode_at_keeps pa off page_end :
  keeps D bus_ok (decode_at pa off page_end) decoded_ok.
Proof.
  unfold decode_at. eapply keeps_bind; [auto with keeps vpod|]. intros lo Hlo. case_if.
  - apply keeps_ret. intros o len. destruct (decode_compressed _) eqn:E'; [|done].
    intros [= <- <-]. apply decode_compressed_wf in E'. auto.
  - bools. case_if; [by apply keeps_ret|]. eapply keeps_bind; [auto with keeps vpod|]. intros hi Hhi.
    apply keeps_ret. intros o len. destruct (join_halves lo hi Hlo Hhi ltac:(done)) as [? ?].
    destruct (decode_full _) eqn:E'.
    + intros [= <- <-]. apply decode_full_wf in E'. auto.
    + case_if; [done|]. intros [= <- <-]. split; [by split | by right].
Qed.

Definition ops_ok (n : nat) (r : list DecodedInsn * Z) : Prop :=
  Forall insn_wf r.1 ∧ even r.2 ∧ (length r.1 <= n)%nat.

Lemma decode_loop_keeps n pa off page_end :
  even off → keeps D bus_ok (decode_loop n pa off page_end) (ops_ok n).
Proof.
  revert off. induction n as [|n IH]; intros off He; cbn [decode_loop].
  { apply keeps_ret. by split. }
  assert (keeps D bus_ok (mret ([], off)) (ops_ok (S n))).
  { apply keeps_ret. split; [done|]. split; [done | cbn; lia]. }
  case_if; [|done]. eapply keeps_bind; [apply decode_at_keeps|].
  intros [[o len]|] Hd; [|done].
  destruct (Hd o len eq_refl) as [Ho Hlen].
  assert (even len) by (destruct Hlen as [-> | ->]; done).
  assert (insn_wf (mkInsn o (as_u16 off) len)).
  { split; [done|]. split; [|done]. apply even_wrap; [lia | done]. }
  assert (even (off + len)) by by apply even_add.
  cbv zeta. case_if.
  - apply keeps_ret. split; [by constructor|]. split; [done | cbn; lia].
  - eapply keeps_bind; [by apply IH|]. intros rest (Hr & He' & Hn). apply keeps_ret.
    split; [by constructor|]. split; [done | cbn; lia].
Qed.

Lemma decode_block_keeps pa :
  keeps D bus_ok (decode_block pa) (fun r => ∀ blk, r = Some blk → block_ok blk).
Proof.
  unfold decode_block. cbv zeta. eapply keeps_bind; [by apply decode_loop_keeps|].
  intros [l len] (Hl & He & Hn). apply keeps_ret. intros blk. cbn in *. destruct l as [|i l]; [done|].
  intros [= <-]. split; cbn; [done | done | done|]. apply even_wrap; [lia | done].
Qed.

(** ** Memory accesses of blocks *)

Lemma read_size_keeps n pa : is_u64 pa → keeps D bus_ok (read_size n pa) is_u64.
Proof.
  intros Hpa. destruct n as [|[|[|[|[|n]]]]]; cbn [read_size]; auto with keeps;
    eapply keeps_mono; [apply u8_u64|auto with keeps|apply u16_u64|auto with keeps|apply u32_u64|auto with keeps].
Qed.

Lemma write_size_keeps n pa v : is_u64 pa → is_u64 v → keeps D bus_ok (write_size n pa v) (fun _ => True).
Proof.
  intros Hpa Hv. destruct n as [|[|[|[|[|n]]]]]; cbn [write_size]; auto with keeps vpod.
Qed.

Lemma raw_load_keeps satp va n :
  is_u64 va → (n <= 8)%nat → keeps D mb_wf (raw_load satp va n) (dw_ok is_u64).
Proof.
  intros Hva Hn. unfold raw_load. cbv zeta. case_if.
  - eapply keeps_bind; [auto with keeps|]. intros [bs|f] Hr; apply keeps_ret; [|done].
    destruct Hr as [Hb Hl]. apply (from_bytes_word _ 8); [|rewrite length_app, length_replicate; lia|lia].
    apply Forall_app_2; [done|]. by apply Forall_replicate.
  - eapply keeps_bind; [auto with keeps|]. intros [pa|f] Hr; [|by apply keeps_ret].
    destruct Hr as [Hpa _]. eapply keeps_bind; [apply mb_bus_keeps, read_size_keeps; done|].
    intros v Hv. by apply keeps_ret.
Qed.

Lemma raw_store_keeps satp va v n :
  is_u64 va → is_u64 v → keeps D st_wf (raw_store satp va v n) fault_ok.
Proof.
  intros Hva Hv. unfold raw_store. case_if; [apply store_bytes_keeps, Forall_take, to_le_bytes_bytes|].
  eapply keeps_bind; [auto with keeps|]. intros [pa|f] Hr; [|by apply keeps_ret].
  destruct Hr as [Hpa _]. eapply keeps_bind; [auto with keeps|]. intros _ _.
  eapply keeps_bind; [apply st_bus_keeps, write_size_keeps; done|]. intros _ _.
  apply (keeps_bind _ _ (fun _ => True)); [by apply keeps_gets|]. intros gen _.
  eapply keeps_bind; [auto with keeps|]. intros _ _. by apply keeps_ret.
Qed.

Lemma block_fault_keeps f pc :
  is_u64 pc → even pc → is_u64 (fault_tval f) → keeps D ctx_wf (block_fault f pc) (fun _ => True).
Proof. intros. unfold block_fault. keeps_go. Qed.

Lemma extend_load_word k v : is_u64 v → is_u64 (extend_load k v).
Proof. intros. destruct k; cbn [extend_load]; auto with vpod. Qed.

Lemma load_size_bound k : (1 <= load_kind_size k <= 8)%nat.
Proof. destruct k; cbn; lia. Qed.
Lemma store_size_bound k : (1 <= store_kind_size k <= 8)%nat.
Proof. destruct k; cbn; lia. Qed.

Definition load_ok (r : Result Z unit) : Prop := match r with Ok v => is_u64 v | Err _ => True end.

Lemma do_load_slow_keeps satp k va n pc :
  is_u64 va → (n <= 8)%nat → is_u64 pc → even pc →
  keeps D ctx_wf (do_load_slow satp k va n pc) load_ok.
Proof.
  intros. unfold do_load_slow. eapply keeps_bind; [apply on_mmu_keeps, raw_load_keeps; done|].
  intros [v|f] Hr; [apply keeps_ret, extend_load_word, Hr|].
  eapply keeps_bind; [apply block_fault_keeps; done|]. intros _ _. by apply keeps_ret.
Qed.

(** A hit in a fast table is a page of the current epoch. *)
Lemma load_hit_page m va satp e p :
  mmu_wf m → is_u64 va → load_fast_lookup va satp e m = Some p → page_ok e p.
Proof.
  intros [Hl _] Hva. unfold load_fast_lookup. cbv zeta. case_if; [|done]. bools. intros [= <-].
  destruct (Hl (tlb_slot (Z.shiftr va 12))) as [E'|Hp]; [|congruence].
  destruct (vpn_small va Hva). congruence.
Qed.

Lemma store_hit_page m va satp e g p :
  mmu_wf m → is_u64 va → store_fast_lookup va satp e g m = Some p → page_ok e p.
Proof.
  intros [_ Hl] Hva. unfold store_fast_lookup. cbv zeta. case_if; [|done]. bools. intros [= <-].
  destruct (Hl (tlb_slot (Z.shiftr va 12))) as [E'|Hp]; [|congruence].
  destruct (vpn_small va Hva). congruence.
Qed.

Lemma host_load_wp (p : HostPtr) off n (c : ExecContext B) (Q : Z -> ExecContext B -> Prop) :
  ctx_wf c → page_ok (ram_epoch (bus c)) p → 0 <= off → off + Z.of_nat n <= 0x1000 →
  (∀ v, is_word (8 * Z.of_nat n) v → Q v c) →
  wp D (on_bus (host_load p off n)) Q c.
Proof.
  intros Hc Hp H1 H2 HQ. apply wp_zoom. unfold wp, host_load.
  pose proof (bl_host_read p off n (bus c) (cx_bus _ Hc) Hp H1 H2) as H.
  destruct (host_read _ n (bus c)); [|done]. destruct c; cbn. by apply HQ.
Qed.

Lemma host_store_keeps (p : HostPtr) off n v (c : ExecContext B) :
  ctx_wf c → page_ok (ram_epoch (bus c)) p → 0 <= off → off + Z.of_nat n <= 0x1000 →
  wp D (on_bus (host_store p off n v)) (fun _ c' => ctx_wf c') c.
Proof.
  intros Hc Hp H1 H2. apply wp_zoom. eapply wp_mono; [|apply bl_host_write; try done; [apply Hc|]].
  - cbn. intros _ b' Hb'. destruct Hc. by split.
  - apply wrap_range. lia.
Qed.

Lemma do_load_keeps satp k va pc :
  is_u64 va → is_u64 pc → even pc → keeps D ctx_wf (do_load satp k va pc) load_ok.
Proof.
  intros Hva Hpc He c Hc. unfold do_load. wp_step. wp_step. cbv zeta.
  pose proof (load_size_bound k). destruct (offset_in_page va) as [Hoff _].
  assert (S : wp D (do_load_slow satp k va (load_kind_size k) pc) (fun a s' => load_ok a ∧ ctx_wf s') c).
  { apply do_load_slow_keeps; done || lia. }
  case_if; [|done]. bools. destruct (load_fast_lookup _ _ _ _) as [p|] eqn:L; [|done].
  apply load_hit_page in L; [|apply Hc | done]. wp_step. apply host_load_wp; [done..|].
  intros v Hv. apply wp_ret. split; [|done]. apply extend_load_word, (is_word_mono (8 * Z.of_nat (load_kind_size k))); [lia | done].
Qed.

Lemma do_store_slow_keeps satp va v n pc :
  is_u64 va → is_u64 v → is_u64 pc → even pc →
  keeps D ctx_wf (do_store_slow satp va v n pc) (fun _ => True).
Proof.
  intros. unfold do_store_slow. eapply keeps_bind; [apply on_store_keeps, raw_store_keeps; done|].
  intros [u|f] Hr; [by apply keeps_ret|].
  eapply keeps_bind; [apply block_fault_keeps; done|]. intros _ _. by apply keeps_ret.
Qed.

Lemma do_store_keeps satp k va v pc :
  is_u64 va → is_u64 v → is_u64 pc → even pc →
  keeps D ctx_wf (do_store satp k va v pc) (fun _ => True).
Proof.
  intros Hva Hv Hpc He c Hc. unfold do_store. wp_step. wp_step. cbv zeta.
  pose proof (store_size_bound k). destruct (offset_in_page va) as [Hoff _].
  assert (S : wp D (do_store_slow satp va v (store_kind_size k) pc) (fun _ s' => True ∧ ctx_wf s') c)
    by by apply do_store_slow_keeps.
  case_if; [|done]. bools. destruct (store_fast_lookup _ _ _ _ _) as [p|] eqn:L; [|done].
  apply store_hit_page in L; [|apply Hc | done]. wp_step.
  eapply wp_mono; [|by apply host_store_keeps]. intros u c' Hc'. apply wp_ret. by split.
Qed.

(** ** [exec_block] *)

Lemma read_m_keeps r : keeps D ctx_wf (read_m r) is_u64.
Proof. apply keeps_gets. intros c H. apply lookup_total_word, (cx_regs _ H). Qed.

Lemma write_m_keeps r v : reg_ok r → is_u64 v → keeps D ctx_wf (write_m r v) (fun _ => True).
Proof.
  intros Hr Hv. apply keeps_modify. intros c H. pose proof (cx_regs _ H). pose proof (cx_pc _ H).
  rewrite write_masked_write by done. apply with_regs; [done | by apply gpr_write_wf |].
  unfold gpr_write. by case_if.
Qed.
#[local] Hint Resolve read_m_keeps write_m_keeps do_load_keeps do_store_keeps : keeps.
#[local] Hint Resolve alu_word : vpod.

(** One retired instruction per returned-from operation. *)
Definition flow_ok (retired : Z) (f : OpFlow) : Prop :=
  match f with FlowReturn n r => n = retired + 1 ∧ step_ok r | _ => True end.

Lemma flow_next_ret n : keeps D ctx_wf (mret FlowNext) (flow_ok n).
Proof. by apply keeps_ret. Qed.
Lemma flow_return_ret n r : step_ok r → keeps D ctx_wf (mret (FlowReturn (n + 1) r)) (flow_ok n).
Proof. intros. by apply keeps_ret. Qed.
#[local] Hint Resolve flow_next_ret flow_return_ret : keeps.

Lemma finish_keeps target pending retired :
  is_u64 target → even target →
  keeps D ctx_wf (set_pc target;; add_instret (pending + 1);; mret (FlowReturn (retired + 1) StepOk))
    (flow_ok retired).
Proof. intros. keeps_go. by apply flow_return_ret. Qed.

Lemma exec_op_keeps i pc retired pending satp :
  insn_wf i → is_u64 pc → even pc →
  keeps D ctx_wf (exec_op i pc retired pending satp) (flow_ok retired).
Proof.
  intros (Ho & _ & Hlen) Hpc He. unfold exec_op.
  destruct (op i) as [rd imm|rd imm|k rd rs1 imm|k rd rs1 rs2|k rd rs1 imm|k rs1 rs2 imm|k rs1 rs2 off
    |rd off|rd rs1 imm|raw]; cbn in Ho; destruct_and?.
  - keeps_go.
  - keeps_go.
  - keeps_go.
  - keeps_go.
  - eapply keeps_bind; [auto with keeps|]. intros base Hb.
    eapply keeps_bind; [auto with keeps vpod|]. intros [v|u] Hv; cbn in Hv; [keeps_go|].
    eapply keeps_bind; [auto with keeps|]. intros _ _. by apply flow_return_ret.
  - do 2 (eapply keeps_bind; [auto with keeps|intros ? ?]).
    eapply keeps_bind; [auto with keeps vpod|]. intros [v|u] Hv; [keeps_go|].
    eapply keeps_bind; [auto with keeps|]. intros _ _. by apply flow_return_ret.
  - do 2 (eapply keeps_bind; [auto with keeps|intros ? ?]). case_if; [|keeps_go].
    apply finish_keeps; auto with vpod.
  - eapply keeps_bind; [auto with keeps vpod|]. intros _ _. apply finish_keeps; auto with vpod.
  - eapply keeps_bind; [auto with keeps|]. intros base Hb. cbv zeta.
    eapply keeps_bind; [auto with keeps vpod|]. intros _ _. apply finish_keeps; auto with vpod.
  - eapply keeps_bind; [auto with keeps|]. intros _ _. eapply keeps_bind; [auto with keeps|]. intros _ _.
    eapply keeps_bind; [by apply exec_raw_keeps|]. intros r Hr.
    apply (keeps_bind _ _ (fun _ => True)); [by apply keeps_get|]. intros c _. cbv zeta.
    case_if; [by apply flow_return_ret|]. case_if; [by apply flow_return_ret | by apply keeps_ret].
Qed.

(** A block retires at least one instruction, and at most one per operation. *)
Lemma exec_ops_keeps l entry len retired pending satp :
  Forall insn_wf l → even entry → even len →
  keeps D ctx_wf (exec_ops l entry len retired pending satp)
    (fun r => retired <= r.1 <= retired + Z.of_nat (length l) ∧ (l ≠ [] → retired < r.1) ∧ step_ok r.2).
Proof.
  intros Hl He Hlen. revert retired pending satp.
  induction Hl as [|i l Hi Hl IH]; intros retired pending satp; cbn [exec_ops length].
  - do 2 (eapply keeps_bind; [auto with keeps vpod|intros _ _]). apply keeps_ret. cbn. split; [lia | done].
  - cbv zeta. destruct Hi as (Ho & Hoff & Hilen).
    eapply keeps_bind; [apply exec_op_keeps; [by split | auto with vpod..]|].
    intros [|satp'|n r] Hf.
    + eapply keeps_mono; [|apply IH]. cbn. intros [n r] (? & _ & ?). cbn in *. split; [lia|]. split; [lia | done].
    + eapply keeps_mono; [|apply IH]. cbn. intros [n r] (? & _ & ?). cbn in *. split; [lia|]. split; [lia | done].
    + destruct Hf as [-> Hr]. apply keeps_ret. cbn. split; [lia|]. split; [lia | done].
Qed.

Lemma exec_block_keeps blk entry satp :
  block_ok blk → even entry →
  keeps D ctx_wf (exec_block blk entry satp)
    (fun r => 1 <= r.1 <= 64 ∧ step_ok r.2).
Proof.
  intros [Hn Hmax Hl He] Hent. eapply keeps_mono; [|by apply exec_ops_keeps].
  intros r (? & Hlt & ?). specialize (Hlt Hn). unfold MAX_BLOCK_OPS in Hmax. split; [lia | done].
Qed.
End Blocks.
