(* ===== verification/RunProps.v ===== *)
(** The run loop: it keeps the invariant of the context and it terminates.

    An iteration consumes between 1 and 64 instructions of budget, or clears an
    interrupt-pending bit the devices no longer raise; [irq_lines] counts those
    bits. *)
From S2P Require Import Prelude Words Wp Trap Gpr Decode Csr SystemBus BusLaws Mmu BlockCache.
From S2P Require Import BlockCacheProps Context Float SyscallTrace Execute CsrProps ExecuteFp.
From S2P Require Import Interp BlockDecode BlockExec Run ValueProps Invariant BlockInvariant.

(** The interrupt lines [spurious_interrupt] can clear. *)
Definition irq_lines (m : Z) : Z := b2u (Z.testbit m 7) + b2u (Z.testbit m 9 || Z.testbit m 11).

Lemma irq_lines_bound m : 0 <= irq_lines m <= 2.
Proof. unfold irq_lines. destruct (Z.testbit m 7), (_ || _); cbn; lia. Qed.

Lemma pending_irq p c i :
  csr_wf c → pending_interrupt p c = Some i → 0 <= i < 64 ∧ Z.testbit (mip c) i = true.
Proof.
  intros H. destruct_csr_wf H. rewrite pending_interrupt_cases. cbv zeta.
  assert (P : ∀ v, is_u64 v → v ≠ 0 → (∀ j, Z.testbit v j = true → Z.testbit (mip c) j = true) →
    0 <= highest_priority_interrupt_bit v < 64
    ∧ Z.testbit (mip c) (highest_priority_interrupt_bit v) = true).
  { intros v Hv Hz Hb. destruct (highest_priority_spec v Hv Hz) as (? & ? & _). auto. }
  case_if; [|case_if; [|done]]; bools; intros [= <-]; apply P; auto with vpod;
    intros j; rewrite !Z.land_spec; intros [[? _]%andb_true_iff _]%andb_true_iff; done.
Qed.

Lemma clear_mip_bits bits c j :
  0 <= j < 64 → Z.testbit (mip (clear_mip bits c)) j = Z.testbit (mip c) j && negb (Z.testbit bits j).
Proof. intros Hj. cbn. by rewrite Z.land_spec, not64_testbit. Qed.

Lemma clear_mip_wf bits c : csr_wf c → csr_wf (clear_mip bits c).
Proof. intros H. destruct_csr_wf H. solve_csr_wf. Qed.

Section Run.
Context {B : Type} {SB : SystemBus B} {HM : HostMemory B} {FE : FloatEnv} {D : Prop}
  {BL : BusLaws B D}.

(** ** Fetching *)

Lemma fetch_tlb_keeps f :
  keeps D ctx_wf (modify (fun c : ExecContext B => c <| fetch_tlb := f c |>)) (fun _ => True).
Proof. by apply keeps_frame. Qed.

Lemma fetch_address_keeps pc satp :
  is_u64 pc → keeps D ctx_wf (fetch_address pc satp) (ok_result pc).
Proof.
  intros Hpc. unfold fetch_address. cbv zeta.
  apply (keeps_bind _ _ (fun _ => True)); [by apply keeps_get|]. intros c _.
  destruct (fetch_tlb_lookup _ _ _); [by apply keeps_ret, join_ok|].
  eapply keeps_bind; [auto with keeps|]. intros [pa|f] Hr; [|by apply keeps_ret].
  eapply keeps_bind; [apply fetch_tlb_keeps|]. intros _ _. by apply keeps_ret.
Qed.

Definition encoding_ok (r : Result Z MmuFault) : Prop :=
  match r with Ok e => is_u32 e | Err f => is_u64 (fault_tval f) end.

Lemma u16_u32 z : is_u16 z → is_u32 z.
Proof. apply is_word_mono. lia. Qed.

Lemma fetch_encoding_keeps pc satp pa :
  is_u64 pa → keeps D ctx_wf (fetch_encoding pc satp pa) encoding_ok.
Proof.
  intros Hpa. unfold fetch_encoding. case_if.
  - eapply keeps_bind; [auto with keeps|]. intros lo Hlo. case_if; [apply keeps_ret; exact (u16_u32 lo Hlo)|].
    cbv zeta. eapply keeps_bind; [auto with keeps vpod|]. intros [pa'|f] Hr; [|by apply keeps_ret].
    destruct Hr as [Hpa' _]. eapply keeps_bind; [apply fetch_tlb_keeps|]. intros _ _.
    eapply keeps_bind; [auto with keeps|]. intros hi Hhi. apply keeps_ret. bools.
    exact (proj1 (join_halves lo hi Hlo Hhi ltac:(assumption))).
  - cbv zeta. eapply keeps_bind; [apply (keeps_get (fun c => ∀ i, is_u32 (arr_get (icache_data c) i))); by intros c []|].
    intros c Hc. case_if; [apply keeps_ret; exact (Hc _)|]. eapply keeps_bind; [auto with keeps|]. intros w Hw.
    eapply keeps_bind; [|intros _ _; by apply keeps_ret]. apply keeps_modify. intros c' [].
    split; cbn; auto. intros i. rewrite arr_get_set. case_decide; auto.
Qed.

Lemma step_instruction_keeps : keeps D ctx_wf step_instruction step_ok.
Proof.
  unfold step_instruction. eapply keeps_bind; [auto with keeps|]. intros pc [Hpc He].
  eapply keeps_bind; [auto with keeps|]. intros satp _.
  eapply keeps_bind; [by apply fetch_address_keeps|]. intros [pa|f] Hr; [|auto with keeps].
  destruct Hr as [Hpa _]. eapply keeps_bind; [by apply fetch_encoding_keeps|].
  intros [e|f] He'; [by apply exec_raw_keeps | auto with keeps].
Qed.

(** ** Interrupts *)

Lemma accept_interrupt_keeps irq : 0 <= irq < 64 → keeps D ctx_wf (accept_interrupt irq) (fun r => r = StepOk).
Proof.
  intros. unfold accept_interrupt. apply (keeps_bind _ _ (fun _ => True)); [by apply keeps_frame|].
  intros _ _. auto with keeps.
Qed.

(** Dropping a spurious interrupt clears one of the lines. *)
Lemma spurious_spec irq c :
  ctx_wf c → pending_interrupt (priv_mode c) (csr c) = Some irq →
  wp D (spurious_interrupt irq)
    (fun s c' => ctx_wf c' ∧ (s = true → irq_lines (mip (csr c')) < irq_lines (mip (csr c)))) c.
Proof.
  intros Hc Hp. destruct (pending_irq _ _ _ (cx_csr _ Hc) Hp) as [Hi Hb].
  unfold spurious_interrupt. wp_step. wp_step. destruct ((irq =? 7) && _) eqn:E7.
  - bools. subst irq. wp_go. split; [apply with_csr; [done | apply clear_mip_wf, Hc]|]. intros _.
    change (irq_lines (mip (clear_mip MIP_MTIP (csr c))) < irq_lines (mip (csr c))).
    unfold irq_lines. rewrite !clear_mip_bits by lia. rewrite Hb.
    change (Z.testbit MIP_MTIP 7) with true. change (Z.testbit MIP_MTIP 9) with false.
    change (Z.testbit MIP_MTIP 11) with false. cbn [negb]. rewrite !andb_true_r. cbn. lia.
  - destruct ((irq =? IRQ_MEI) || (irq =? IRQ_SEI)) eqn:E9; [|by apply wp_ret].
    wp_step. apply wp_zoom. eapply wp_mono; [|apply (external_keeps (BL := BL)), Hc].
    intros e b' [_ Hb']. assert (Hc' : ctx_wf (c <| bus := b' |>)) by (destruct Hc; by split).
    case_if; [|by apply wp_ret]. wp_go.
    split; [apply with_csr; [done | apply clear_mip_wf, Hc']|]. intros _.
    change (irq_lines (mip (clear_mip (Z.lor MIP_MEIP MIP_SEIP) (csr c))) < irq_lines (mip (csr c))).
    unfold irq_lines. rewrite !clear_mip_bits by lia.
    change (Z.testbit (Z.lor MIP_MEIP MIP_SEIP) 7) with false.
    change (Z.testbit (Z.lor MIP_MEIP MIP_SEIP) 9) with true.
    change (Z.testbit (Z.lor MIP_MEIP MIP_SEIP) 11) with true.
    cbn [negb]. rewrite !andb_true_r, !andb_false_r.
    assert (Z.testbit (mip (csr c)) 9 || Z.testbit (mip (csr c)) 11 = true) as ->.
    { apply orb_true_iff in E9 as [->%Z.eqb_eq | ->%Z.eqb_eq]; unfold IRQ_MEI, IRQ_SEI in Hb; rewrite Hb; [apply orb_true_r | done]. }
    cbn. lia.
Qed.

Lemma step_keeps : keeps D ctx_wf step step_ok.
Proof.
  intros c Hc. unfold step. wp_step. wp_step. case_if; [by apply wp_ret|].
  wp_step. wp_step. destruct (pending_interrupt _ _) as [irq|] eqn:Ep; [|by apply step_instruction_keeps].
  wp_step. eapply wp_mono; [|by apply spurious_spec]. intros s c' [Hc' _].
  destruct (pending_irq _ _ _ (cx_csr _ Hc) Ep) as [Hi _].
  destruct s; [by apply step_instruction_keeps|].
  eapply wp_mono; [|by apply (accept_interrupt_keeps irq)]. by intros r c2 [-> ?].
Qed.

(** ** One iteration *)

Definition flow_progress (c : ExecContext B) (f : LoopFlow) (c' : ExecContext B) : Prop :=
  match f with
  | LoopContinue used =>
      1 <= used <= 64 ∨ used = 0 ∧ irq_lines (mip (csr c')) < irq_lines (mip (csr c))
  | LoopReturn _ => True
  end.

Definition flow_used (f : LoopFlow) : Prop :=
  match f with LoopContinue used => 1 <= used <= 64 | LoopReturn _ => True end.

Lemma run_block_keeps stop blk pc satp :
  block_ok blk → even pc → keeps D ctx_wf (run_block stop blk pc satp) flow_used.
Proof.
  intros Hb Hpc. unfold run_block. eapply keeps_bind; [by apply exec_block_keeps|].
  intros [n r] [Hn _]. cbn in *. destruct r; try (by apply keeps_ret).
  apply (keeps_bind _ _ (fun _ => True)); [by apply keeps_gets|]. intros w _. apply keeps_ret. by case_if.
Qed.

Lemma even_fetch pa pc : Z.land pa 0xfff = Z.land pc 0xfff → even pc → even pa.
Proof.
  unfold even. intros H He. assert (B0 := f_equal (fun z => Z.testbit z 0) H). cbn beta in B0.
  rewrite !Z.land_spec, He in B0. change (Z.testbit 0xfff 0) with true in B0.
  by rewrite andb_true_r in B0.
Qed.

Lemma even_not_max pa : even pa → pa ≠ U64_MAX.
Proof. by intros H ->. Qed.

Lemma run_fetched_keeps stop : keeps D ctx_wf (run_fetched stop) flow_used.
Proof.
  unfold run_fetched. eapply keeps_bind; [auto with keeps|]. intros pc [Hpc He].
  eapply keeps_bind; [auto with keeps|]. intros satp _.
  eapply keeps_bind; [by apply fetch_address_keeps|]. intros [pa|f] Hr.
  2: { eapply keeps_bind; [auto with keeps|]. intros r _. apply keeps_ret. destruct r; cbn; done || lia. }
  destruct Hr as [Hpa Hoff]. pose proof (even_fetch pa pc Hoff He) as Hep.
  eapply keeps_bind; [apply (keeps_gets _ (fun o => ∀ blk, o = Some blk → block_ok blk))|].
  { intros c [] blk L. by apply cache_lookup_Some in L as [[] _]. }
  intros [blk|] Hblk; [by apply run_block_keeps; [apply Hblk|]|].
  eapply keeps_bind; [apply on_bus_keeps, decode_block_keeps|]. intros [blk|] Hblk'.
  - specialize (Hblk' blk eq_refl). eapply keeps_bind.
    { apply mod_blocks_keeps. intros. apply cache_insert_wf; auto using even_not_max. }
    intros _ _. by apply run_block_keeps.
  - eapply keeps_bind; [apply step_keeps|]. intros r _. destruct r; try (by apply keeps_ret).
    apply (keeps_bind _ _ (fun _ => True)); [by apply keeps_gets|]. intros w _. apply keeps_ret.
    case_if; cbn; done || lia.
Qed.

Lemma run_iteration_spec stop c :
  ctx_wf c → wp D (run_iteration stop) (fun f c' => ctx_wf c' ∧ flow_progress c f c') c.
Proof.
  intros Hc. unfold run_iteration. wp_step. wp_step.
  destruct (pending_interrupt _ _) as [irq|] eqn:Ep.
  - wp_step. eapply wp_mono; [|by apply spurious_spec]. intros s c1 [Hc1 Hs].
    destruct (pending_irq _ _ _ (cx_csr _ Hc) Ep) as [Hi _]. destruct s.
    + apply wp_ret. split; [done|]. right. auto.
    + wp_step. eapply wp_mono; [|by apply accept_interrupt_keeps]. intros r c2 [-> Hc2].
      apply wp_ret. split; [done|]. left. lia.
  - eapply wp_mono; [|by apply run_fetched_keeps]. intros [used|r] c' [Hu Hc']; (split; [done|]); [by left | done].
Qed.

(** ** The loop *)

Lemma run_loop_spec stop fuel remaining c :
  ctx_wf c → remaining < 2 ^ 63 →
  (0 < remaining → 3 * remaining + irq_lines (mip (csr c)) <= Z.of_nat fuel) →
  wp D (run_loop fuel stop remaining) (fun r c' => (∃ res, r = Some res) ∧ ctx_wf c') c.
Proof.
  revert remaining c. induction fuel as [|fuel IH]; intros remaining c Hc Hr Hf; cbn [run_loop];
    pose proof (irq_lines_bound (mip (csr c))); case_if; try (apply wp_ret; eauto; fail); bools; [lia|].
  wp_step. eapply wp_mono; [|by apply run_iteration_spec]. intros [used|res] c' [Hc' Hp]; [|apply wp_ret; eauto].
  pose proof (irq_lines_bound (mip (csr c'))). cbn in Hp.
  assert (as_i64 (remaining - used) = remaining - used) as -> by (apply signed_id; lia).
  apply IH; [done | lia..].
Qed.

Lemma run_impl_spec stop max_steps c :
  ctx_wf c → is_u64 max_steps →
  wp D (run_impl stop max_steps) (fun r c' => (∃ res, r = Some res) ∧ ctx_wf c') c.
Proof.
  intros Hc Hm. unfold run_impl. wp_step. wp_step. case_if; [apply wp_ret; eauto|]. cbv zeta.
  pose proof (signed_range 64 max_steps ltac:(lia)). pose proof (irq_lines_bound (mip (csr c))).
  apply run_loop_spec; [done | unfold as_i64; lia|]. unfold run_fuel, as_i64. lia.
Qed.
End Run.

(** ** The hart *)

Section HartRun.
Context {B : Type} {SB : SystemBus B} {HM : HostMemory B} {FE : FloatEnv}.

Definition hart_wf {D : Prop} {BL : BusLaws B D} (s : Hart * B) : Prop := ctx_wf (hart_ctx s.1 s.2).

Lemma hart_new_wf {D : Prop} {BL : BusLaws B D} entry (b : B) :
  is_u64 entry → even entry → bus_ok b → hart_wf (hart_new entry, b).
Proof. intros. by apply (ctx_wf_init _ entry). Qed.

Lemma hart_ctx_roundtrip (c : ExecContext B) : hart_ctx (ctx_hart c) (bus c) = c.
Proof. by destruct c. Qed.

Lemma with_hart_wp {D : Prop} {BL : BusLaws B D} {A} (m : ST (ExecContext B) A) (R : A -> Prop) s :
  wp D m (fun a c => R a ∧ ctx_wf c) (hart_ctx s.1 s.2) →
  wp D (with_hart m) (fun a s' => R a ∧ hart_wf s') s.
Proof.
  intros H. apply wp_zoom. eapply wp_mono; [|exact H]. intros a c [? ?]. split; [done|].
  unfold hart_wf. cbn. by rewrite hart_ctx_roundtrip.
Qed.

(** C2: [Hart::run] and [Hart::run_until_wait] always return.  On any
    bus that does not panic, from a well-formed hart and for every step budget,
    the loop ends with a result within its fuel (three iterations per budgeted
    instruction and two more), however interrupts, faults and self-modifying
    code interleave; and the hart is well formed again. *)
Theorem run_terminates {BL : BusLaws B False} (stop_on_wfi : bool) max_steps (s : Hart * B) :
  hart_wf s → is_u64 max_steps →
  ∃ res s', with_hart (run_impl stop_on_wfi max_steps) s = Some (Some res, s') ∧ hart_wf s'.
Proof.
  intros Hs Hm.
  destruct (wp_total _ _ _ (with_hart_wp _ (fun r => ∃ res, r = Some res) s
    (run_impl_spec stop_on_wfi max_steps _ Hs Hm))) as (r & s' & E & [res ->] & Hs').
  eauto.
Qed.

(** On a bus that may panic, such as the flat memory, every run that
    returns ends with a result and a well-formed hart: registers and CSRs in
    range, [x0] zero, pc even, every cached block marked in the page bitmap. *)
Theorem run_keeps_invariant {BL : BusLaws B True} (stop_on_wfi : bool) max_steps (s s' : Hart * B) r :
  hart_wf s → is_u64 max_steps → with_hart (run_impl stop_on_wfi max_steps) s = Some (r, s') →
  r ≠ None ∧ hart_wf s'.
Proof.
  intros Hs Hm E.
  destruct (wp_elim _ _ _ _ _ (with_hart_wp _ (fun r => ∃ res, r = Some res) s
    (run_impl_spec stop_on_wfi max_steps _ Hs Hm)) E) as [[res ->] Hs'].
  by split.
Qed.

(** C-old: [Hart::step] keeps the invariant and, on a bus that does not panic,
    always returns. *)
Theorem step_total {BL : BusLaws B False} (s : Hart * B) :
  hart_wf s → ∃ r s', hart_step s = Some (r, s') ∧ hart_wf s'.
Proof.
  intros Hs. destruct (wp_total _ _ _ (with_hart_wp _ step_ok s (step_keeps _ Hs))) as (r & s' & E & _ & ?).
  eauto.
Qed.
End HartRun.

(** The program of the crate's own test: two additions and a jump to itself. *)
Definition spin_program : list Z :=
  to_le_bytes 4 0x00500013 ++ to_le_bytes 4 0x00700293 ++ to_le_bytes 4 0x0000006f.
Definition test_memory : FlatMemory :=
  mkFlat (spin_program ++ replicate (Z.to_nat 8180) 0) 0x1fff 1.

Lemma test_memory_ok : flat_ok test_memory.
Proof.
  unfold flat_ok, test_memory, spin_program. cbn [data]. rewrite !Forall_app.
  split_and!; [apply to_le_bytes_bytes..|]. by apply Forall_replicate.
Qed.

Lemma run_terminates_witness :
  let FE := env_zero in
  ∃ res s', with_hart (run_impl true 100) (hart_new 0x80000000, SparseRam.empty) = Some (Some res, s')
            ∧ hart_wf (BL := SparseRam.laws) s'.
Proof.
  intros FE. apply (run_terminates (BL := SparseRam.laws)); [|done].
  by apply (hart_new_wf (BL := SparseRam.laws)).
Defined.

Lemma run_keeps_invariant_witness :
  let FE := env_zero in
  ∃ r s', with_hart (run_impl false 8) (hart_new 0, test_memory) = Some (r, s')
          ∧ r ≠ None ∧ hart_wf (BL := FlatMemory_laws) s'.
Proof.
  intros FE. destruct (with_hart (run_impl false 8) (hart_new 0, test_memory)) as [[r s']|] eqn:E.
  - exists r, s'. split; [done|]. revert E. apply (run_keeps_invariant (BL := FlatMemory_laws)); [|done].
    apply (hart_new_wf (BL := FlatMemory_laws)); [done | done | apply test_memory_ok].
  - exfalso. vm_compute in E. discriminate E.
Defined.

Lemma step_total_witness :
  let FE := env_zero in
  ∃ r s', hart_step (hart_new 0x80000000, SparseRam.empty) = Some (r, s')
          ∧ hart_wf (BL := SparseRam.laws) s'.
Proof.
  intros FE. apply (step_total (BL := SparseRam.laws)).
  by apply (hart_new_wf (BL := SparseRam.laws)).
Defined.
