(* ===== verification/RamLaws.v ===== *)
(** Memory as the fast paths see it.

    [RamLaws] is the part of the bus contract that concerns RAM: accesses within
    a page of RAM succeed and reads do not disturb anything; a host page handed
    out for a physical address aliases that page as long as the RAM epoch is the
    one it was handed out at, so that reading or writing through the pointer is
    reading or writing through the bus.  A store page is only asked for after a
    store to the page, which has made the page [private].  The flat memory (of at
    least a page) satisfies it with pages, the sparse RAM without; the machine's
    bus does in [MachineRam]. *)
From S2P Require Import Prelude Words Wp SystemBus BusLaws Mmu BlockExec.
From S2P Require Import Decode ValueProps Invariant.

(** The sizes the core accesses memory with. *)
Definition access_size (n : nat) : Prop := n = 1%nat ∨ n = 2%nat ∨ n = 4%nat ∨ n = 8%nat.

Definition fits_page (a : Z) (n : nat) : Prop := Z.land a 0xfff + Z.of_nat n <= 0x1000.

(** The byte at an address. *)
Definition byte_at {B} {SB : SystemBus B} (b : B) (a : Z) : Z :=
  match read_byte a b with Some (v, _) => v | None => 0 end.

Class RamLaws (B : Type) {SB : SystemBus B} {HM : HostMemory B} := {
  ram_ok : B -> Prop;
  (** The address is one of ordinary memory. *)
  in_ram : B -> Z -> Prop;
  (** [load_page b pa q], [store_page b pa q]: [q] was handed out for loads from
      (stores to) the page of [pa]. *)
  load_page : B -> Z -> HostPtr -> Prop;
  store_page : B -> Z -> HostPtr -> Prop;
  (** A store page can be handed out without changing anything. *)
  private : B -> Z -> Prop;

  rl_bytes n a b : ram_ok b → access_size n → is_u64 a → fits_page a n → in_ram b a →
    read_size n a b = Some (from_le_bytes (map (fun i => byte_at b (a + Z.of_nat i)) (seq 0 n)), b);
  rl_byte a b : ram_ok b → is_u64 a → in_ram b a → is_u8 (byte_at b a);
  rl_write n a v b : ram_ok b → access_size n → is_u64 a → fits_page a n → in_ram b a → is_u64 v →
    ∃ b', write_size n a v b = Some (tt, b') ∧ ram_ok b' ∧ private b' a ∧ ram_epoch b <= ram_epoch b' ∧
          (∀ pa, in_ram b' pa ↔ in_ram b pa) ∧
          (ram_epoch b' = ram_epoch b →
           ∀ pa q, (load_page b pa q → load_page b' pa q) ∧ (store_page b pa q → store_page b' pa q));
  rl_load_page a b : ram_ok b → is_u64 a →
    ∃ p, ram_load_page a b = Some (p, b) ∧ ∀ q, p = Some q → load_page b a q;
  rl_store_page a b : ram_ok b → is_u64 a → private b a →
    ∃ p, ram_store_page a b = Some (p, b) ∧ ∀ q, p = Some q → store_page b a q;
  rl_same_page a a' q b : is_u64 a → is_u64 a' → Z.shiftr a 12 = Z.shiftr a' 12 →
    (load_page b a q → load_page b a' q) ∧ (store_page b a q → store_page b a' q);
  rl_in_ram a a' b : ram_ok b → is_u64 a → is_u64 a' → Z.shiftr a 12 = Z.shiftr a' 12 → in_ram b a → in_ram b a';
  rl_host_load n a q b : ram_ok b → access_size n → is_u64 a → fits_page a n → in_ram b a → load_page b a q →
    host_load q (Z.land a 0xfff) n b = read_size n a b;
  rl_host_store n a q v b : ram_ok b → access_size n → is_u64 a → fits_page a n → in_ram b a → store_page b a q →
    is_u64 v → host_store q (Z.land a 0xfff) n v b = write_size n a v b
}.

(** ** Consequences *)

Section Laws.
Context {B : Type} {SB : SystemBus B} {HM : HostMemory B} {RL : RamLaws B}.

(** Within a page, the next address is the next address of the same page. *)
Lemma page_next a n i :
  is_u64 a → fits_page a n → 0 <= i < Z.of_nat n →
  is_u64 (a + i) ∧ Z.shiftr (a + i) 12 = Z.shiftr a 12 ∧ Z.land (a + i) 0xfff = Z.land a 0xfff + i.
Proof.
  intros Hva Hf Hi. unfold fits_page in Hf. change 0xfff with (Z.ones 12) in *.
  rewrite !Z.land_ones in * by lia. pose proof (Z.mod_pos_bound a (2 ^ 12) ltac:(lia)).
  pose proof (Z.div_mod a (2 ^ 12) ltac:(lia)) as Hd. unfold is_word in *.
  assert (a / 2 ^ 12 < 2 ^ 52) by (apply Z.div_lt_upper_bound; lia).
  split; [lia|]. split.
  - rewrite !Z.shiftr_div_pow2 by lia. symmetry. apply (Z.div_unique _ _ _ (a mod 2 ^ 12 + i)); lia.
  - symmetry. apply (Z.mod_unique _ _ (a / 2 ^ 12)); lia.
Qed.

(** A read is a word of its width. *)
Lemma rl_read n a b :
  ram_ok b → access_size n → is_u64 a → fits_page a n → in_ram b a →
  ∃ v, read_size n a b = Some (v, b) ∧ is_word (8 * Z.of_nat n) v.
Proof.
  intros Hb Hn Ha Hf Hr. eexists. split; [by apply rl_bytes|].
  assert (H : Forall is_u8 (map (fun i => byte_at b (a + Z.of_nat i)) (seq 0 n))).
  { apply Forall_map, Forall_seq. intros i Hi. cbn.
    destruct (page_next a n (Z.of_nat i) Ha Hf ltac:(lia)) as (Hw & Hp & _).
    apply rl_byte; [done | done|]. by apply (rl_in_ram a). }
  apply from_le_bytes_range in H. by rewrite length_map, length_seq in H.
Qed.
End Laws.

(** ** FlatMemory *)

Module FlatRam.
Definition ok (m : FlatMemory) : Prop :=
  Forall is_u8 (data m) ∧
  ∃ k, 12 <= k < 64 ∧ mask m = Z.ones k ∧ Z.of_nat (length (data m)) = 2 ^ k.

Definition page (m : FlatMemory) (a : Z) (q : HostPtr) : Prop :=
  q = mkHostPtr 1 (Z.land (flat_idx m a) (not64 0xfff)).

(** The index of an address is its page's index plus the offset. *)
Lemma split_page a : is_u64 a → Z.land a (not64 0xfff) + Z.land a 0xfff = a.
Proof.
  intros Ha. rewrite <- Z.add_lor_land.
  assert (Z.land (Z.land a (not64 0xfff)) (Z.land a 0xfff) = 0) as ->.
  { apply Z.bits_inj'. intros i Hi. rewrite !Z.land_spec, Z.bits_0, not64_bits by done.
    destruct (Z.testbit a i), (Z.testbit 0xfff i), (i <? 64); done. }
  rewrite Z.add_0_r. apply Z.bits_inj'. intros i Hi. rewrite Z.lor_spec, !Z.land_spec, not64_bits by done.
  destruct (Z.ltb_spec i 64).
  - destruct (Z.testbit a i), (Z.testbit 0xfff i); done.
  - rewrite (testbit_high 64 a i) by (done || lia). done.
Qed.

Lemma idx_offset m a : ok m → Z.land (flat_idx m a) 0xfff = Z.land a 0xfff.
Proof.
  intros (_ & k & Hk & Hm & _). unfold flat_idx. rewrite <- Z.land_assoc. f_equal. rewrite Hm.
  apply Z.bits_inj'. intros i Hi. rewrite Z.land_spec, testbit_fff by done.
  destruct (Z.ltb_spec i 12); [|apply andb_false_r]. by rewrite Z.ones_spec_low by lia.
Qed.

Lemma idx_range m a n : ok m → fits_page a n →
  0 <= flat_idx m a ∧ flat_idx m a + Z.of_nat n <= Z.of_nat (length (data m)).
Proof.
  intros Hm Hf. pose proof (idx_offset m a Hm) as Ho. destruct Hm as (_ & k & Hk & Hm & ->).
  assert (Hi : is_word k (flat_idx m a)).
  { unfold flat_idx. rewrite Hm. apply land_ones_range. lia. }
  assert (Hd : flat_idx m a / 4096 < 2 ^ (k - 12)).
  { apply Z.div_lt_upper_bound; [lia|]. change 4096 with (2 ^ 12). rewrite <- Z.pow_add_r by lia.
    replace (12 + (k - 12)) with k by lia. apply Hi. }
  split; [apply Hi|]. pose proof (Z.div_mod (flat_idx m a) 4096 ltac:(lia)) as Hdm.
  change 0xfff with (Z.ones 12) in Ho. rewrite (Z.land_ones (flat_idx m a)) in Ho by lia.
  change (2 ^ 12) with 4096 in Ho. unfold fits_page in Hf. change 0xfff with (Z.ones 12) in Hf.
  replace (2 ^ k) with (4096 * 2 ^ (k - 12)); [lia|]. change 4096 with (2 ^ 12).
  rewrite <- Z.pow_add_r by lia. f_equal. lia.
Qed.

Lemma host_index m a : ok m → Z.land (flat_idx m a) (not64 0xfff) + Z.land a 0xfff = flat_idx m a.
Proof.
  intros Hm. rewrite <- (idx_offset m a) by done. apply split_page.
  destruct Hm as (_ & k & Hk & Hm & _). unfold flat_idx. rewrite Hm.
  apply (is_word_mono k); [lia|]. apply land_ones_range. lia.
Qed.

Lemma page_index m a a' :
  Z.shiftr a 12 = Z.shiftr a' 12 → Z.land (flat_idx m a) (not64 0xfff) = Z.land (flat_idx m a') (not64 0xfff).
Proof.
  intros E. apply Z.bits_inj'. intros i Hi. unfold flat_idx. rewrite !Z.land_spec, not64_bits, testbit_fff by done.
  destruct (Z.ltb_spec i 12); [by rewrite !andb_false_r|].
  replace i with ((i - 12) + 12) by lia. rewrite <- !(Z.shiftr_spec _ 12) by lia. by rewrite E.
Qed.

(** Consecutive addresses of a page are consecutive cells. *)
Lemma idx_next m a n i : ok m → is_u64 a → fits_page a n → (i < n)%nat →
  flat_idx m (a + Z.of_nat i) = flat_idx m a + Z.of_nat i.
Proof.
  intros Hm Ha Hf Hi. unfold fits_page in Hf. change 0xfff with (Z.ones 12) in Hf.
  rewrite Z.land_ones in Hf by lia. pose proof (Z.mod_pos_bound a (2 ^ 12) ltac:(lia)).
  pose proof (Z.div_mod a (2 ^ 12) ltac:(lia)) as Hd.
  assert (Ed : Z.shiftr a 12 = Z.shiftr (a + Z.of_nat i) 12).
  { rewrite !Z.shiftr_div_pow2 by lia. apply (Z.div_unique _ _ _ (a mod 2 ^ 12 + Z.of_nat i)); lia. }
  rewrite <- (host_index m (a + Z.of_nat i)), <- (host_index m a) by done.
  rewrite (page_index m a (a + Z.of_nat i) Ed).
  change 0xfff with (Z.ones 12). rewrite !Z.land_ones by lia.
  replace ((a + Z.of_nat i) mod 2 ^ 12) with (a mod 2 ^ 12 + Z.of_nat i); [lia|].
  apply (Z.mod_unique _ _ (a / 2 ^ 12)); lia.
Qed.

Lemma cell m i x : data m !! i = Some x → 0 <= Z.of_nat i →
  slice_get (data m) (Z.of_nat i) 1 = Some [x].
Proof.
  intros Hx Hi. pose proof (lookup_lt_Some _ _ _ Hx). unfold slice_get.
  replace (_ && _) with true by (symmetry; apply andb_true_intro; split; apply Z.leb_le; lia).
  by rewrite Nat2Z.id, (drop_S _ x i) by done.
Qed.

Lemma read_bytes m n a : ok m → is_u64 a → fits_page a n →
  flat_read n a m = Some (from_le_bytes (map (fun i => byte_at m (a + Z.of_nat i)) (seq 0 n)), m).
Proof.
  intros Hm Ha Hf. destruct (idx_range m a n Hm Hf) as [H0 H1]. unfold flat_read, slice_get.
  replace (_ && _) with true by (symmetry; apply andb_true_intro; split; apply Z.leb_le; lia).
  do 3 f_equal. apply list_eq. intros i. destruct (decide (i < n)%nat) as [Hi|Hi].
  - rewrite lookup_take_lt, lookup_drop, list_lookup_fmap, lookup_seq_lt by lia. cbn.
    destruct (lookup_lt_is_Some_2 (data m) (Z.to_nat (flat_idx m a) + i)) as [x Hx]; [lia|].
    rewrite Hx. f_equal. unfold byte_at. cbn. unfold flat_read.
    rewrite (idx_next m a n i) by done.
    replace (flat_idx m a + Z.of_nat i) with (Z.of_nat (Z.to_nat (flat_idx m a) + i)) by lia.
    rewrite (cell m _ x) by (done || lia). destruct Hm as [Hb _].
    cbn. rewrite Z.shiftl_0_l. lia.
  - rewrite lookup_take_ge by lia. symmetry. apply lookup_ge_None_2. rewrite length_map, length_seq. lia.
Qed.

Lemma length_slice_put l i bytes l' : slice_put l i bytes = Some l' → length l' = length l.
Proof.
  unfold slice_put. case_if; [|done]. bools. intros [= <-]. rewrite !length_app, length_take, length_drop. lia.
Qed.

Lemma write_at m n a v : ok m → fits_page a n →
  ∃ m', flat_write n a v m = Some (tt, m') ∧ ok m' ∧ epoch m' = epoch m ∧ mask m' = mask m.
Proof.
  intros Hm Hf. destruct (idx_range m a n Hm Hf) as [H0 H1]. unfold flat_write.
  destruct (slice_put _ _ _) as [d|] eqn:P.
  - eexists. split; [done|]. split; [|done]. destruct Hm as (Hb & k & Hk & Hm & Hl). split; cbn.
    + exact (slice_put_bytes _ _ _ _ Hb (to_le_bytes_bytes _ _) P).
    + exists k. rewrite (length_slice_put _ _ _ _ P). done.
  - exfalso. revert P. unfold slice_put. rewrite length_to_le_bytes. case_if; [done|]. bools. lia.
Qed.

Lemma page_at m a : ok m → ∃ p, flat_page a m = Some (p, m) ∧ ∀ q, p = Some q → page m a q.
Proof.
  intros Hm. unfold flat_page. case_if; [by eexists|].
  assert (H : Z.land (flat_idx m a) (not64 0xfff) <= Z.of_nat (length (data m))).
  { pose proof (host_index m a Hm). destruct (idx_range m a 0 Hm).
    - unfold fits_page. pose proof (offset_in_page a). lia.
    - pose proof (offset_in_page a). lia. }
  replace (_ <=? _) with true by (symmetry; lia). eexists. split; [done|]. by intros q [= <-].
Qed.
End FlatRam.

(** The flat memory's reads and writes by size. *)
Lemma flat_read_size n : access_size n → read_size (B := FlatMemory) n = flat_read n.
Proof. by intros [->|[->|[->| ->]]]. Qed.

Lemma to_le_bytes_wrap n w v : 8 * Z.of_nat n <= w → to_le_bytes n (wrap w v) = to_le_bytes n v.
Proof.
  revert w v. induction n as [|n IH]; intros w v Hw; [done|]. cbn [to_le_bytes]. f_equal.
  - unfold as_u8. apply wrap_wrap_le. lia.
  - rewrite <- (IH (w - 8) (Z.shiftr v 8)) by lia. f_equal. apply Z.bits_inj'. intros i Hi.
    rewrite Z.shiftr_spec, !wrap_testbit, Z.shiftr_spec by lia.
    destruct (Z.ltb_spec (i + 8) w), (Z.ltb_spec i (w - 8)); try lia; done.
Qed.

Lemma flat_write_size n a v m :
  access_size n → write_size (B := FlatMemory) n a v m = flat_write n a v m.
Proof.
  intros [->|[->|[->| ->]]]; cbn [write_size]; [..|done];
    unfold write_byte, write_halfword, write_word, FlatMemory_bus, flat_write, as_u8, as_u16, as_u32;
    by rewrite to_le_bytes_wrap by lia.
Qed.

#[export] Instance FlatMemory_ram : RamLaws FlatMemory.
Proof.
  refine {| ram_ok := FlatRam.ok; in_ram := fun _ _ => True; private := fun _ _ => True;
            load_page := FlatRam.page; store_page := FlatRam.page |}; try done.
  - intros. rewrite flat_read_size by done. by apply FlatRam.read_bytes.
  - intros a b Hb Ha _. unfold byte_at. cbn. unfold flat_read.
    destruct (slice_get _ _ _) as [bytes|] eqn:G; [|done].
    apply slice_get_bytes in G as [Hbs Hl]; [|apply Hb]. apply from_le_bytes_range in Hbs. by rewrite Hl in Hbs.
  - intros n a v b Hb Hn Ha Hf _ Hv. rewrite flat_write_size by done.
    destruct (FlatRam.write_at b n a v Hb Hf) as (m' & E & Hm' & He & Hmask).
    exists m'. split; [done|]. split; [done|]. split; [done|].
    change (ram_epoch m') with (epoch m'). change (ram_epoch b) with (epoch b). rewrite He. split; [lia|].
    split; [done|]. intros _ pa q. unfold FlatRam.page, flat_idx. by rewrite Hmask.
  - intros. by apply FlatRam.page_at.
  - intros. by apply FlatRam.page_at.
  - intros a a' q b _ _ Hp. unfold FlatRam.page. by rewrite (FlatRam.page_index b a' a).
  - intros n a q b Hb Hn Ha Hf _ Hq. rewrite flat_read_size by done. unfold host_load, flat_read. rewrite Hq. cbn.
    rewrite FlatRam.host_index by done. by destruct (slice_get _ _ _).
  - intros n a q v b Hb Hn Ha Hf _ Hq Hv. rewrite flat_write_size by done. unfold host_store, flat_write. rewrite Hq. cbn.
    rewrite FlatRam.host_index by done. by rewrite to_le_bytes_wrap.
Defined.

#[export] Instance SparseRam_ram : RamLaws SparseRam.ram.
Proof.
  refine {| ram_ok := fun _ => True; in_ram := fun _ _ => True; private := fun _ _ => True;
            load_page := fun _ _ _ => False; store_page := fun _ _ _ => False |}; try done.
  - intros n a b _ Hn _ _ _. assert (E : read_size n a = SparseRam.load n a) by (destruct Hn as [->|[->|[->| ->]]]; done).
    rewrite E. unfold SparseRam.load. do 3 f_equal. apply map_ext. intros i. unfold byte_at.
    cbn. rewrite Z.shiftl_0_l, !Z.add_0_r. done.
  - intros a b _ _ _. unfold byte_at. cbn. rewrite Z.shiftl_0_l, !Z.add_0_r. apply wrap_range. lia.
  - intros n a v b _ Hn _ _ _ _. destruct Hn as [->|[->|[->| ->]]]; eexists; (split; [reflexivity|done]).
  - intros. by exists None.
  - intros. by exists None.
Defined.

(** ** Reading back *)

Lemma slice_get_put l i bytes l' :
  slice_put l i bytes = Some l' → slice_get l' i (length bytes) = Some bytes.
Proof.
  intros P. pose proof (FlatRam.length_slice_put _ _ _ _ P) as Hl. revert P. unfold slice_put, slice_get.
  rewrite Hl. case_if; [|done]. bools. intros [= <-]. f_equal.
  rewrite drop_app_length' by (rewrite length_take; lia). by rewrite take_app_length.
Qed.

Lemma slice_put_lookup l i bytes l' (j : nat) :
  slice_put l i bytes = Some l' → (Z.of_nat j < i ∨ i + Z.of_nat (length bytes) <= Z.of_nat j) → l' !! j = l !! j.
Proof.
  unfold slice_put. case_if; [|done]. bools. intros [= <-] [Hj|Hj].
  - rewrite lookup_app_l by (rewrite length_take; lia). by rewrite lookup_take_lt by lia.
  - rewrite lookup_app_r, lookup_app_r, lookup_drop by (rewrite ?length_take; lia).
    f_equal. rewrite length_take. lia.
Qed.

Lemma slice_get_lookup l i : 0 <= i → slice_get l i 1 = (fun x => [x]) <$> (l !! Z.to_nat i).
Proof.
  intros Hi. unfold slice_get. destruct (l !! Z.to_nat i) as [x|] eqn:E.
  - pose proof (lookup_lt_Some _ _ _ E). replace (_ && _) with true by (symmetry; apply andb_true_intro; split; apply Z.leb_le; lia).
    by rewrite (drop_S _ x _ E).
  - apply lookup_ge_None in E. replace (_ && _) with false; [done|]. symmetry. apply andb_false_intro2, Z.leb_gt. lia.
Qed.

(** The flat memory is a memory.  A write of any size inside the array
    succeeds, is read back at its width, and changes no other byte; a write past
    the end panics and so does the read. *)
Theorem flat_write_read n a v (m : FlatMemory) :
  0 <= mask m →
  if flat_idx m a + Z.of_nat n <=? Z.of_nat (length (data m)) then
    ∃ m', flat_write n a v m = Some (tt, m') ∧ mask m' = mask m ∧ epoch m' = epoch m ∧
          flat_read n a m' = Some (wrap (8 * Z.of_nat n) v, m') ∧
          ∀ x, (flat_idx m x < flat_idx m a ∨ flat_idx m a + Z.of_nat n <= flat_idx m x) →
               byte_at m' x = byte_at m x
  else flat_write n a v m = None ∧ flat_read n a m = None.
Proof.
  intros Hmask. assert (Hi : ∀ x, 0 <= flat_idx m x) by (intros; apply Z.land_nonneg; auto).
  specialize (Hi a) as Ha. case_if; bools.
  - unfold flat_write. destruct (slice_put (data m) (flat_idx m a) (to_le_bytes n v)) as [d|] eqn:P.
    + eexists. split; [done|]. split; [done|]. split; [done|]. split.
      * unfold flat_read, flat_idx. cbn. fold (flat_idx m a). apply slice_get_put in P.
        rewrite length_to_le_bytes in P. by rewrite P, from_to_le_bytes.
      * intros x Hx. unfold byte_at. cbn. unfold flat_read, flat_idx. cbn. fold (flat_idx m x).
        rewrite !slice_get_lookup by done.
        rewrite (slice_put_lookup _ _ _ _ (Z.to_nat (flat_idx m x)) P); [by destruct (data m !! _)|].
        rewrite length_to_le_bytes, Z2Nat.id by done. done.
    + exfalso. revert P. unfold slice_put. rewrite length_to_le_bytes. case_if; [done|].
      apply andb_false_iff in E0 as [?|?]; bools; lia.
  - unfold flat_write, flat_read, slice_put, slice_get. rewrite length_to_le_bytes.
    replace (_ && _) with false; [done|]. symmetry. apply andb_false_intro2, Z.leb_gt. lia.
Qed.

Lemma flat_write_read_witness :
  ∃ m', flat_write 2 3 0x1234 (mkFlat (replicate 8 0) 7 1) = Some (tt, m') ∧ flat_read 2 3 m' = Some (0x1234, m').
Proof.
  destruct (flat_write_read 2 3 0x1234 (mkFlat (replicate 8 0) 7 1) ltac:(done)) as (m' & E & _ & _ & R & _).
  by exists m'.
Defined.
