(* ===== verification/MmuProps.v ===== *)
(** The translation caches agree with the page tables.

    [pt_translate] is what the page tables in memory say, with no cache at all.
    [coherent satp m b] says that everything the MMU [m] remembers (the TLB, the
    last-page memos and the load table of host pages) is what the tables in [b]
    say.  In a coherent state the cached translations return what [pt_translate]
    returns, and stay coherent; a flush makes the MMU coherent with any tables. *)
From S2P Require Import Prelude Words Wp Decode SystemBus BusLaws Mmu BlockExec.
From S2P Require Import ValueProps Invariant RamLaws.

(** ** The tables *)

(** The three table indices of a page number. *)
Definition vpn_fields (vpn : Z) : list Z :=
  [Z.land (Z.shiftr vpn 18) 0x1ff; Z.land (Z.shiftr vpn 9) 0x1ff; Z.land vpn 0x1ff].

(** May a leaf with these flags be accessed this way? *)
Definition permitted (pte : Z) (write exec : bool) : bool :=
  if exec then Z.testbit pte 3 && (negb write || Z.testbit pte 2)
  else if write then Z.testbit pte 2 else Z.testbit pte 1.

Definition leaf_ppn (pte : Z) : Z := Z.land (Z.shiftr pte 10) 0x0fffffffffff.

(** A leaf at [level] maps [2 ^ (9 * level)] pages, its own number aligned. *)
Definition aligned (pte level : Z) : bool := leaf_ppn pte mod 2 ^ (9 * level) =? 0.
Definition leaf_page (vpn pte level : Z) : Z := leaf_ppn pte + vpn mod 2 ^ (9 * level).

Section Tables.
Context {B : Type} {SB : SystemBus B} {HM : HostMemory B} {RL : RamLaws B}.

Definition page_leaf (b : B) (satp vpn : Z) : option (Z * Z) :=
  match walk_levels (vpn_fields vpn) 3 (Z.land satp 0x0fffffffffff) b with
  | Some (leaf, _) => leaf
  | None => None
  end.

(** The physical page of a virtual page. *)
Definition page_translate (b : B) (satp vpn : Z) (write exec : bool) : option Z :=
  match page_leaf b satp vpn with
  | Some (pte, level) =>
      if permitted pte write exec && aligned pte level then Some (leaf_page vpn pte level) else None
  | None => None
  end.

Definition pt_translate (b : B) (satp va : Z) (write exec : bool) : option Z :=
  if Z.shiftr satp 60 =? 0 then Some va
  else (fun ppn => ppn * 0x1000 + Z.land va 0xfff) <$> page_translate b satp (Z.shiftr va 12) write exec.

(** *** The walk computes it *)

Lemma vpn_fields_va va :
  [Z.land (Z.shiftr va 30) 0x1ff; Z.land (Z.shiftr va 21) 0x1ff; Z.land (Z.shiftr va 12) 0x1ff]
  = vpn_fields (Z.shiftr va 12).
Proof. unfold vpn_fields. by rewrite !Z.shiftr_shiftr by lia. Qed.

Lemma vpn_fields_range vpn i : 0 <= vpn_fields vpn !!! i < 512.
Proof.
  assert (H : ∀ z, 0 <= Z.land z 0x1ff < 512) by (intros; apply (land_ones_range z 9); lia).
  destruct i as [|[|[|i]]]; [apply H..|]. by vm_compute.
Qed.

Lemma pte_addr_fits ppn v : 0 <= v < 512 →
  is_u64 (Z.lor (shl64 ppn 12) (shl64 v 3)) ∧ fits_page (Z.lor (shl64 ppn 12) (shl64 v 3)) 8.
Proof.
  intros Hv. assert (E : shl64 v 3 = v * 8).
  { unfold shl64, as_u64. rewrite Z.shiftl_mul_pow2 by lia. apply wrap_id. unfold is_word. lia. }
  destruct (join_offset ppn (shl64 v 3) (shl64 v 3)) as [Hw Ho]; [apply shl64_word | done|].
  split; [done|]. unfold fits_page. rewrite Ho, E. change 0xfff with (Z.ones 12). rewrite Z.land_ones by lia.
  rewrite Z.mod_small by lia. lia.
Qed.

(** The tables a walk reads are in memory, not in a device. *)
Fixpoint walk_in_ram (b : B) (fields : list Z) (n : nat) (ppn : Z) : Prop :=
  match n with
  | O => True
  | S n =>
      let pte_addr := Z.lor (shl64 ppn 12) (shl64 (fields !!! Z.to_nat (2 - Z.of_nat n)) 3) in
      in_ram b pte_addr ∧
      ∀ pte, read_doubleword pte_addr b = Some (pte, b) → Z.land pte PTE_V ≠ 0 →
             Z.land pte (Z.lor PTE_R PTE_X) = 0 →
             walk_in_ram b fields n (Z.land (Z.shiftr pte 10) 0x0fffffffffff)
  end.

Definition tables_in_ram (satp : Z) (b : B) : Prop :=
  Z.shiftr satp 60 ≠ 0 → ∀ vpn, walk_in_ram b (vpn_fields vpn) 3 (Z.land satp 0x0fffffffffff).

Lemma walk_levels_pure b vpn n ppn : ram_ok b → walk_in_ram b (vpn_fields vpn) n ppn →
  ∃ r, walk_levels (vpn_fields vpn) n ppn b = Some (r, b).
Proof.
  intros Hb. revert ppn. induction n as [|n IH]; intros ppn; cbn [walk_levels walk_in_ram]; [by exists None|].
  intros [Hin Hnext].
  destruct (pte_addr_fits ppn (vpn_fields vpn !!! Z.to_nat (2 - Z.of_nat n)) (vpn_fields_range _ _)) as [Ha Hf].
  destruct (rl_read 8 _ b Hb ltac:(unfold access_size; auto) Ha Hf Hin) as (pte & E & Hpte). cbn [read_size] in E.
  run_st. rewrite E. case_if; [by exists None|]. case_if; [by eexists|]. bools.
  by apply IH, Hnext.
Qed.

(** A leaf is at one of the levels walked. *)
Lemma walk_levels_level b fields n ppn pte level b' :
  walk_levels fields n ppn b = Some (Some (pte, level), b') → 0 <= level < Z.of_nat n.
Proof.
  revert b ppn. induction n as [|n IH]; intros b ppn; cbn [walk_levels]; [done|]. run_st.
  destruct (read_doubleword _ b) as [[v b1]|]; [|done]. case_if; [done|]. case_if; [intros [= <- <- <-]; lia|].
  intros H%IH. lia.
Qed.

Lemma page_leaf_level b satp vpn pte level : page_leaf b satp vpn = Some (pte, level) → 0 <= level <= 2.
Proof.
  unfold page_leaf. destruct (walk_levels _ _ _ _) as [[leaf b']|] eqn:E; [|done]. intros ->.
  apply walk_levels_level in E. lia.
Qed.

Lemma leaf_ppn_range pte : is_word 44 (leaf_ppn pte).
Proof. apply (land_ones_range _ 44). lia. Qed.

Lemma low_mask n v : 0 <= n < 64 → Z.land v (shl64 1 n - 1) = v mod 2 ^ n.
Proof.
  intros Hn. unfold shl64, as_u64. rewrite Z.shiftl_1_l, wrap_id.
  - replace (2 ^ n - 1) with (Z.ones n) by (rewrite Z.ones_equiv; lia). apply Z.land_ones. lia.
  - unfold is_word. split; [lia|]. apply Z.pow_lt_mono_r; lia.
Qed.

Lemma lor_add n a b : 0 <= n → a mod 2 ^ n = 0 → 0 <= b < 2 ^ n → Z.lor a b = a + b.
Proof.
  intros Hn Ha Hb. rewrite <- Z.add_lor_land. replace (Z.land a b) with 0; [lia|].
  symmetry. apply Z.bits_inj'. intros i Hi. rewrite Z.land_spec, Z.bits_0.
  destruct (Z.lt_ge_cases i n).
  - rewrite <- (Z.mod_pow2_bits_low a n i), Ha, Z.bits_0 by lia. done.
  - rewrite (testbit_high n b i) by (done || lia). apply andb_false_r.
Qed.

(** The offset of a superpage splits into a page part and an offset. *)
Lemma mod_split va l : 0 <= l → va mod 2 ^ (12 + l) = Z.shiftr va 12 mod 2 ^ l * 0x1000 + Z.land va 0xfff.
Proof.
  intros Hl. change 0xfff with (Z.ones 12). rewrite Z.land_ones, Z.shiftr_div_pow2, Z.pow_add_r by lia.
  rewrite Z.rem_mul_r by lia. change 0x1000 with (2 ^ 12). lia.
Qed.

(** The address of a leaf: page number and offset do not overlap. *)
Lemma leaf_address va pte level :
  0 <= level <= 2 → aligned pte level = true →
  Z.lor (shl64 (leaf_ppn pte) 12) (Z.land va (shl64 1 (12 + 9 * level) - 1))
  = leaf_page (Z.shiftr va 12) pte level * 0x1000 + Z.land va 0xfff.
Proof.
  intros Hl Ha. unfold aligned in Ha. bools. pose proof (leaf_ppn_range pte) as Hp. unfold is_word in Hp.
  assert (E : shl64 (leaf_ppn pte) 12 = leaf_ppn pte * 2 ^ 12).
  { unfold shl64, as_u64. rewrite Z.shiftl_mul_pow2 by lia. apply wrap_id. unfold is_word. lia. }
  rewrite low_mask, E by lia. rewrite (lor_add (12 + 9 * level)); [|lia| |apply Z.mod_pos_bound; lia].
  - rewrite mod_split by lia. unfold leaf_page. lia.
  - rewrite (Z.add_comm 12), Z.pow_add_r, Z.mul_mod_distr_r, Ha by lia. lia.
Qed.

Lemma walk_leaf_spec va w x pte level :
  0 <= level <= 2 →
  walk_leaf va w x pte level
  = if permitted pte w x && aligned pte level
    then Some (leaf_page (Z.shiftr va 12) pte level * 0x1000 + Z.land va 0xfff, Z.shiftr va 12, pte) else None.
Proof.
  intros Hl. unfold walk_leaf. fold (leaf_ppn pte).
  assert (HX : (Z.land pte PTE_X =? 0) = negb (Z.testbit pte 3))
    by (rewrite <- (land_bit_test pte 3), negb_involutive by lia; done).
  assert (HR : (Z.land pte PTE_R =? 0) = negb (Z.testbit pte 1))
    by (rewrite <- (land_bit_test pte 1), negb_involutive by lia; done).
  assert (HW : (Z.land pte PTE_W =? 0) = negb (Z.testbit pte 2))
    by (rewrite <- (land_bit_test pte 2), negb_involutive by lia; done).
  assert (HA : (0 <? level) && negb (Z.land (leaf_ppn pte) (shl64 1 (9 * level) - 1) =? 0)
               = negb (aligned pte level)).
  { rewrite low_mask by lia. unfold aligned. destruct (Z.ltb_spec 0 level); [done|].
    replace level with 0 by lia. by rewrite Z.mod_1_r. }
  rewrite HX, HR, HW, HA. pose proof (leaf_address va pte level Hl) as E. unfold permitted.
  destruct x, w, (Z.testbit pte 3), (Z.testbit pte 2), (Z.testbit pte 1), (aligned pte level); cbn;
    try done; by rewrite E.
Qed.

Lemma walk_inner_run b va satp w x :
  ram_ok b → tables_in_ram satp b → Z.shiftr satp 60 ≠ 0 →
  walk_inner va satp w x b
  = Some (match page_leaf b satp (Z.shiftr va 12) with
          | Some (pte, level) =>
              if permitted pte w x && aligned pte level
              then Some (leaf_page (Z.shiftr va 12) pte level * 0x1000 + Z.land va 0xfff, Z.shiftr va 12, pte)
              else None
          | None => None
          end, b).
Proof.
  intros Hb Ht Hs. unfold walk_inner. rewrite vpn_fields_va. run_st.
  destruct (walk_levels_pure b (Z.shiftr va 12) 3 (Z.land satp 0x0fffffffffff) Hb (Ht Hs _)) as (r & E).
  rewrite E. assert (El : page_leaf b satp (Z.shiftr va 12) = r) by (unfold page_leaf; by rewrite E). rewrite El.
  destruct r as [[pte level]|]; [|done]. apply page_leaf_level in El. by rewrite walk_leaf_spec by lia.
Qed.

Lemma page_translate_range b satp vpn w x ppn :
  page_translate b satp vpn w x = Some ppn → is_word 52 ppn.
Proof.
  unfold page_translate. destruct (page_leaf b satp vpn) as [[pte level]|] eqn:El; [|done].
  apply page_leaf_level in El.
  case_if; [|done]. intros [= <-]. unfold leaf_page. pose proof (leaf_ppn_range pte) as Hp. unfold is_word in *.
  assert (2 ^ (9 * level) <= 2 ^ 18) by (apply Z.pow_le_mono_r; lia).
  pose proof (Z.mod_pos_bound vpn (2 ^ (9 * level)) ltac:(lia)). lia.
Qed.

Lemma join_page_add ppn va : is_word 52 ppn → join_page ppn va = ppn * 0x1000 + Z.land va 0xfff.
Proof.
  intros Hp. unfold join_page. unfold is_word in Hp.
  assert (E : shl64 ppn 12 = ppn * 2 ^ 12).
  { unfold shl64, as_u64. rewrite Z.shiftl_mul_pow2 by lia. apply wrap_id. unfold is_word. lia. }
  rewrite E, (lor_add 12); [done | lia | apply Z.mod_mul; lia |].
  change 0xfff with (Z.ones 12). rewrite Z.land_ones by lia. apply Z.mod_pos_bound. lia.
Qed.

Lemma page_of_address ppn va : Z.shiftr (ppn * 0x1000 + Z.land va 0xfff) 12 = ppn.
Proof.
  change 0xfff with (Z.ones 12). rewrite Z.land_ones, Z.shiftr_div_pow2 by lia.
  pose proof (Z.mod_pos_bound va (2 ^ 12) ltac:(lia)). change 0x1000 with (2 ^ 12).
  rewrite Z.div_add_l, Z.div_small by lia. lia.
Qed.

Lemma pt_translate_u64 b satp va w x pa :
  is_u64 va → pt_translate b satp va w x = Some pa →
  is_u64 pa ∧ Z.land pa 0xfff = Z.land va 0xfff.
Proof.
  intros Hva. unfold pt_translate. case_if; [by intros [= <-]|].
  destruct (page_translate _ _ _ _ _) as [ppn|] eqn:E'; [|done]. intros [= <-].
  rewrite <- join_page_add by (by eapply page_translate_range). by apply join_page_offset.
Qed.

(** Addresses of one page go to one page. *)
Lemma pt_translate_same_page b satp va va' w x pa :
  Z.shiftr va 12 = Z.shiftr va' 12 → pt_translate b satp va w x = Some pa →
  ∃ pa', pt_translate b satp va' w x = Some pa' ∧ Z.shiftr pa 12 = Z.shiftr pa' 12.
Proof.
  intros Hp. unfold pt_translate. case_if; [intros [= <-]; eauto|]. rewrite <- Hp.
  destruct (page_translate _ _ _ _ _) as [ppn|]; [|done]. intros [= <-].
  eexists. split; [done|]. by rewrite !page_of_address.
Qed.

(** ** Coherence *)

Record coherent (satp : Z) (m : Mmu) (b : B) : Prop := {
  co_tlb vpn ppn flags w x :
    mmu_lookup vpn m = Some (ppn, flags) → is_word 52 vpn → permitted flags w x = true →
    page_translate b satp vpn w x = Some ppn;
  co_load :
    load_satp m = satp → load_vpage m ≠ U64_MAX →
    page_translate b satp (load_vpage m) false false = Some (load_ppage m);
  co_store :
    store_satp m = satp → store_vpage m ≠ U64_MAX →
    page_translate b satp (store_vpage m) true false = Some (store_ppage m);
  co_fast va q :
    load_fast_lookup va satp (ram_epoch b) m = Some q → is_u64 va →
    ∃ pa, pt_translate b satp va false false = Some pa ∧ load_page b pa q;
  (** Live entries are not from the future: a new RAM epoch ends them all. *)
  co_epochs i :
    lf_epoch (arr_get (load_fast m) i) = mmu_epoch m → lf_ram_epoch (arr_get (load_fast m) i) <= ram_epoch b;
  co_tables : tables_in_ram satp b
}.

(** What translations leave alone. *)
Definition same_stores (m m' : Mmu) : Prop := store_fast m' = store_fast m ∧ mmu_epoch m' = mmu_epoch m.

Lemma insert_coherent satp m b vpn pte level :
  coherent satp m b → page_leaf b satp vpn = Some (pte, level) → aligned pte level = true →
  coherent satp (mmu_insert vpn (leaf_page vpn pte level) pte m) b.
Proof.
  intros [Ht Hl Hs Hf He Hr] Hleaf Ha. split; [|done..]. intros vpn' ppn flags w x.
  unfold mmu_lookup, mmu_insert. cbn. rewrite arr_get_set. case_decide as Hslot; cbn.
  - rewrite Z.eqb_refl. cbn. destruct (Z.eqb_spec vpn vpn') as [<-|]; [|done]. intros [= <- <-] _ Hp.
    unfold page_translate. by rewrite Hleaf, Hp, Ha.
  - intros Hlk. by apply Ht.
Qed.

Lemma memo_load_coherent satp m b vpn ppn :
  coherent satp m b → page_translate b satp vpn false false = Some ppn →
  coherent satp (m <| load_vpage := vpn |> <| load_ppage := ppn |> <| load_satp := satp |>) b.
Proof. intros [Ht Hl Hs Hf He Hr] Hp. split; done. Qed.

Lemma memo_store_coherent satp m b vpn ppn :
  coherent satp m b → page_translate b satp vpn true false = Some ppn →
  coherent satp (m <| store_vpage := vpn |> <| store_ppage := ppn |> <| store_satp := satp |>) b.
Proof. intros [Ht Hl Hs Hf He Hr] Hp. split; done. Qed.

Lemma fill_coherent satp m b va pa :
  coherent satp m b → ram_ok b → is_u64 va → pt_translate b satp va false false = Some pa →
  ∃ m', load_fast_fill (Z.shiftr va 12) satp pa (m, b) = Some (tt, (m', b)) ∧
        coherent satp m' b ∧ same_stores m m'.
Proof.
  intros Hc Hb Hva Hpa. destruct (pt_translate_u64 _ _ _ _ _ _ Hva Hpa) as [Hw _].
  destruct (rl_load_page pa b Hb Hw) as (p & E & Hp). unfold load_fast_fill, mb_bus. run_st. cbn. rewrite E.
  destruct p as [q|]; [|by exists m]. eexists. split; [done|]. split; [|done].
  specialize (Hp q eq_refl). destruct Hc as [Ht Hl Hs Hf He Hr]. split; [done..| | |done].
  - intros va' q'.
    unfold load_fast_lookup. cbn. rewrite arr_get_set. case_decide as Hslot; cbn; [|apply Hf].
    destruct (Z.eqb_spec (Z.shiftr va 12) (Z.shiftr va' 12)) as [Hpg|]; cbn; [|done].
    rewrite !Z.eqb_refl. cbn. intros [= <-] Hva'.
    destruct (pt_translate_same_page _ _ _ _ _ _ _ Hpg Hpa) as (pa' & Hpa' & Hsame).
    exists pa'. split; [done|]. apply (rl_same_page pa); try done. by apply (pt_translate_u64 _ _ _ _ _ _ Hva' Hpa').
  - intros i. cbn. rewrite arr_get_set. case_decide; cbn; [lia | apply He].
Qed.

(** ** Translations in a coherent state *)

Definition translated (fault : Z -> MmuFault) (va : Z) (pa : option Z) : Result Z MmuFault :=
  match pa with Some pa => Ok pa | None => Err (fault va) end.

(** The walk, with the entry it leaves in the TLB. *)
Lemma walk_coherent satp m b va w x :
  coherent satp m b → ram_ok b → Z.shiftr satp 60 ≠ 0 →
  ∃ m', walk va satp w x (m, b) = Some (pt_translate b satp va w x, (m', b)) ∧
        coherent satp m' b ∧ same_stores m m'.
Proof.
  intros Hc Hb Hs. unfold walk, mb_bus, zoom, pt_translate, page_translate. run_st. cbn [fst snd].
  rewrite walk_inner_run by (done || apply Hc). apply Z.eqb_neq in Hs. rewrite Hs.
  destruct (page_leaf b satp (Z.shiftr va 12)) as [[pte level]|] eqn:Hleaf; [|by exists m].
  case_if; [|by exists m]. cbn. rewrite page_of_address. eexists. split; [done|]. bools.
  split; [by apply insert_coherent | done].
Qed.

Lemma pt_translate_page b satp va w x :
  Z.shiftr satp 60 ≠ 0 → ram_ok b →
  pt_translate b satp va w x
  = (fun ppn => join_page ppn va) <$> page_translate b satp (Z.shiftr va 12) w x.
Proof.
  intros Hs Hb. unfold pt_translate. apply Z.eqb_neq in Hs. rewrite Hs.
  destruct (page_translate _ _ _ _ _) as [ppn|] eqn:E; [|done]. cbn.
  by rewrite join_page_add by (by eapply page_translate_range).
Qed.

Lemma gets_bind {S A C} (g : S -> A) (k : A -> ST S C) (s : S) : (gets g ≫= k) s = k (g s) s.
Proof. done. Qed.

Lemma mb_mmu_bind {C} f (k : unit -> ST (Mmu * B) C) m b : (mb_mmu f ≫= k) (m, b) = k tt (f m, b).
Proof. done. Qed.

Lemma vpn_word va : is_u64 va → is_word 52 (Z.shiftr va 12).
Proof. intros H. by apply (shiftr_word_sub 64 va 12); [lia|]. Qed.

(** The three flag tests of the TLB. *)
Lemma flag_permits flags :
  (negb (Z.land flags PTE_X =? 0) = true → permitted flags false true = true) ∧
  (negb (Z.land flags PTE_R =? 0) = true → permitted flags false false = true) ∧
  ((Z.land flags (Z.lor PTE_W PTE_D) =? Z.lor PTE_W PTE_D) = true → permitted flags true false = true).
Proof.
  unfold permitted, PTE_X, PTE_R. rewrite !land_bit_test by lia. rewrite andb_true_r.
  split; [done|]. split; [done|]. intros H. bools.
  assert (Z.testbit (Z.land flags (Z.lor PTE_W PTE_D)) 2 = true) as T by by rewrite H.
  rewrite Z.land_spec in T. by apply andb_true_iff in T as [? _].
Qed.

Lemma translate_fetch_coherent satp m b va :
  coherent satp m b → ram_ok b → is_u64 va →
  ∃ m', translate_fetch va satp (m, b)
        = Some (translated InstructionPageFault va (pt_translate b satp va false true), (m', b)) ∧
        coherent satp m' b ∧ same_stores m m'.
Proof.
  intros Hc Hb Hva. unfold translate_fetch. destruct (Z.eqb_spec (Z.shiftr satp 60) 0) as [Hs|Hs].
  { exists m. unfold pt_translate. by rewrite Hs. }
  cbv zeta. destruct (walk_coherent satp m b va false true Hc Hb Hs) as (m' & E & Hc' & Hss).
  rewrite gets_bind. cbn [fst].
  destruct (mmu_lookup (Z.shiftr va 12) m) as [[ppn flags]|] eqn:L; [case_if|].
  2,3: exists m'; (split; [by run_st; rewrite E | done]).
  exists m. split; [|done]. rewrite pt_translate_page by done.
  rewrite (co_tlb _ _ _ Hc _ _ _ false true L); [done | by apply vpn_word | by apply flag_permits].
Qed.

Lemma translate_load_coherent satp m b va :
  coherent satp m b → ram_ok b → is_u64 va →
  ∃ m', translate_load va satp (m, b)
        = Some (translated LoadPageFault va (pt_translate b satp va false false), (m', b)) ∧
        coherent satp m' b ∧ same_stores m m'.
Proof.
  intros Hc Hb Hva. unfold translate_load. cbv zeta.
  (* every success ends in the same way *)
  assert (Hfill : ∀ m1 pa, coherent satp m1 b → pt_translate b satp va false false = Some pa → same_stores m m1 →
    ∃ m', (load_fast_fill (Z.shiftr va 12) satp pa;; mret (Ok pa)) (m1, b)
          = Some (translated LoadPageFault va (pt_translate b satp va false false), (m', b)) ∧
          coherent satp m' b ∧ same_stores m m').
  { intros m1 pa Hc1 Hpa [Hs1 Hs2]. destruct (fill_coherent satp m1 b va pa Hc1 Hb Hva Hpa) as (m' & E & Hc' & [Hs3 Hs4]).
    exists m'. split; [by run_st; rewrite E, Hpa|]. split; [done|]. split; congruence. }
  destruct (Z.eqb_spec (Z.shiftr satp 60) 0) as [Hs|Hs].
  { apply Hfill; [done | unfold pt_translate; by rewrite Hs | done]. }
  rewrite gets_bind. cbn [fst]. pose proof (pt_translate_page b satp va false false Hs Hb) as Epage.
  destruct (_ && _) eqn:Ememo.
  { bools. subst satp. apply Hfill; [done| |done].
    rewrite Epage, H, (co_load _ _ _ Hc); [done..|]. rewrite <- H. by apply vpn_small. }
  clear Ememo. destruct (walk_coherent satp m b va false false Hc Hb Hs) as (m1 & E & Hc1 & Hs1).
  assert (Hslow : ∃ m', (r ← walk va satp false false;
       match r with
       | None => mret (Err (LoadPageFault va))
       | Some pa =>
           mb_mmu (fun m => m <| load_vpage := Z.shiftr va 12 |> <| load_ppage := Z.shiftr pa 12 |>
                              <| load_satp := satp |>);;
           load_fast_fill (Z.shiftr va 12) satp pa;;
           mret (Ok pa)
       end) (m, b)
    = Some (translated LoadPageFault va (pt_translate b satp va false false), (m', b)) ∧
      coherent satp m' b ∧ same_stores m m').
  { unfold mbind at 1, ST_bind at 1. rewrite E. destruct (page_translate _ _ _ _ _) as [ppn|] eqn:Ep;
      rewrite Epage in Hfill |- *; cbn [fmap option_fmap option_map] in *; [|by exists m1].
    rewrite mb_mmu_bind. apply Hfill; [|done|done].
    rewrite join_page_add, page_of_address by (by eapply page_translate_range). by apply memo_load_coherent. }
  destruct (mmu_lookup (Z.shiftr va 12) m) as [[ppn flags]|] eqn:L; [case_if; [|done] | done].
  assert (Ep : page_translate b satp (Z.shiftr va 12) false false = Some ppn).
  { apply (co_tlb _ _ _ Hc _ _ _ _ _ L); [by apply vpn_word | by apply flag_permits]. }
  rewrite mb_mmu_bind. apply Hfill; [by apply memo_load_coherent | by rewrite Epage, Ep | done].
Qed.

Lemma translate_store_coherent satp m b va :
  coherent satp m b → ram_ok b → is_u64 va →
  ∃ m', translate_store va satp (m, b)
        = Some (translated StorePageFault va (pt_translate b satp va true false), (m', b)) ∧
        coherent satp m' b ∧ same_stores m m'.
Proof.
  intros Hc Hb Hva. unfold translate_store. destruct (Z.eqb_spec (Z.shiftr satp 60) 0) as [Hs|Hs].
  { exists m. unfold pt_translate. by rewrite Hs. }
  cbv zeta. rewrite gets_bind. cbn [fst]. pose proof (pt_translate_page b satp va true false Hs Hb) as Epage.
  destruct (_ && _) eqn:Ememo.
  { bools. subst satp. exists m. split; [|done].
    rewrite Epage, H, (co_store _ _ _ Hc); [done..|]. rewrite <- H. by apply vpn_small. }
  clear Ememo. destruct (walk_coherent satp m b va true false Hc Hb Hs) as (m1 & E & Hc1 & Hs1).
  assert (Hslow : ∃ m', (r ← walk va satp true false;
       match r with
       | None => mret (Err (StorePageFault va))
       | Some pa =>
           mb_mmu (fun m => m <| store_vpage := Z.shiftr va 12 |> <| store_ppage := Z.shiftr pa 12 |>
                              <| store_satp := satp |>);;
           mret (Ok pa)
       end) (m, b)
    = Some (translated StorePageFault va (pt_translate b satp va true false), (m', b)) ∧
      coherent satp m' b ∧ same_stores m m').
  { unfold mbind at 1, ST_bind at 1. rewrite E. destruct (page_translate _ _ _ _ _) as [ppn|] eqn:Ep;
      rewrite Epage; cbn [fmap option_fmap option_map]; [|by exists m1].
    rewrite mb_mmu_bind. eexists. split; [done|]. split; [|done].
    rewrite join_page_add, page_of_address by (by eapply page_translate_range). by apply memo_store_coherent. }
  destruct (mmu_lookup (Z.shiftr va 12) m) as [[ppn flags]|] eqn:L; [case_if; [|done] | done].
  assert (Ep : page_translate b satp (Z.shiftr va 12) true false = Some ppn).
  { apply (co_tlb _ _ _ Hc _ _ _ _ _ L); [by apply vpn_word | by apply flag_permits]. }
  rewrite mb_mmu_bind. eexists. split; [by rewrite Epage, Ep|]. split; [by apply memo_store_coherent | done].
Qed.
End Tables.

(** ** Flushing *)

(** Entries are stamped with the epoch they were made in; the current epoch is
    [e]. *)
Record stamped (e : Z) (m : Mmu) : Prop := {
  st_epoch : mmu_epoch m = e;
  st_tlb i : tlb_epoch (arr_get (tlb m) i) <= e;
  st_load i : lf_epoch (arr_get (load_fast m) i) <= e;
  st_store i : sf_epoch (arr_get (store_fast m) i) <= e
}.

Lemma stamped_new : stamped 1 mmu_new.
Proof. split; [done | intros i; unfold mmu_new; cbn [tlb load_fast store_fast]; rewrite arr_get_new; cbn; lia..]. Qed.

Lemma flush_epoch m e : mmu_epoch m = e → 0 <= e < 2 ^ 32 - 1 → mmu_epoch (mmu_flush m) = e + 1.
Proof.
  intros <- He. unfold mmu_flush, as_u32. cbn. rewrite wrap_id by (unfold is_word; lia).
  replace (_ =? 0) with false by (symmetry; lia). done.
Qed.

Lemma flush_tables m :
  tlb (mmu_flush m) = tlb m ∧ load_fast (mmu_flush m) = load_fast m ∧ store_fast (mmu_flush m) = store_fast m.
Proof. unfold mmu_flush. cbn. by destruct (as_u32 (mmu_epoch m + 1) =? 0). Qed.

Lemma flush_memos m : load_vpage (mmu_flush m) = U64_MAX ∧ store_vpage (mmu_flush m) = U64_MAX.
Proof. unfold mmu_flush. cbn. by destruct (as_u32 (mmu_epoch m + 1) =? 0). Qed.

Lemma stamped_flush e m : stamped e m → 0 <= e < 2 ^ 32 - 1 → stamped (e + 1) (mmu_flush m).
Proof.
  intros [H1 H2 H3 H4] He. destruct (flush_tables m) as (E1 & E2 & E3).
  split; [by apply flush_epoch | intros i..]; rewrite ?E1, ?E2, ?E3; [specialize (H2 i) | specialize (H3 i) | specialize (H4 i)]; lia.
Qed.

(** Nothing that was remembered is used after a flush. *)
Lemma flush_forgets e m :
  stamped e m → 0 <= e < 2 ^ 32 - 1 →
  (∀ vpn, mmu_lookup vpn (mmu_flush m) = None) ∧
  (∀ va satp re, load_fast_lookup va satp re (mmu_flush m) = None) ∧
  (∀ va satp re gen, store_fast_lookup va satp re gen (mmu_flush m) = None).
Proof.
  intros [H1 H2 H3 H4] He. unfold mmu_lookup, load_fast_lookup, store_fast_lookup.
  destruct (flush_tables m) as (-> & -> & ->). rewrite (flush_epoch m e) by done.
  split; [|split]; intros; cbv zeta.
  - specialize (H2 (tlb_slot vpn)). replace (_ =? e + 1) with false by (symmetry; lia). done.
  - specialize (H3 (tlb_slot (Z.shiftr va 12))). replace (lf_epoch _ =? e + 1) with false by (symmetry; lia).
    by rewrite andb_false_r.
  - specialize (H4 (tlb_slot (Z.shiftr va 12))). replace (sf_epoch _ =? e + 1) with false by (symmetry; lia).
    by rewrite andb_false_r.
Qed.

Section Steps.
Context {B : Type} {SB : SystemBus B}.

(** Whatever the bus does, a translation stamps with the current epoch. *)
Definition stamped_mb (e : Z) (s : Mmu * B) : Prop := stamped e s.1.

Lemma mb_bus_stamped {A} e (m : ST B A) : keeps True (stamped_mb e) (mb_bus m) (fun _ => True).
Proof. intros [m0 b0] Hs. apply wp_zoom. apply wp_intro; [done|]. by intros. Qed.

Lemma mb_mmu_stamped e f :
  (∀ m, stamped e m → stamped e (f m)) → keeps True (stamped_mb e) (mb_mmu f) (fun _ => True).
Proof. intros H. apply keeps_modify. intros [m b] Hs. by apply H. Qed.

Lemma insert_stamped e vpn ppn flags m : stamped e m → stamped e (mmu_insert vpn ppn flags m).
Proof.
  intros [H1 H2 H3 H4]. split; [done| |done..]. intros i. cbn. rewrite arr_get_set. case_decide; [cbn; lia | done].
Qed.

Lemma walk_stamped e va satp w x : keeps True (stamped_mb e) (walk va satp w x) (fun _ => True).
Proof.
  unfold walk. eapply keeps_bind; [apply mb_bus_stamped|]. intros [[[pa vpn] pte]|] _; [|by apply keeps_ret].
  eapply keeps_bind; [apply mb_mmu_stamped; intros; by apply insert_stamped|]. intros _ _. by apply keeps_ret.
Qed.

Lemma load_fill_stamped e vpn satp pa : keeps True (stamped_mb e) (load_fast_fill vpn satp pa) (fun _ => True).
Proof.
  unfold load_fast_fill. eapply keeps_bind; [apply mb_bus_stamped|]. intros [q|] _; [|by apply keeps_ret].
  apply (keeps_bind _ _ (fun _ => True)); [by apply keeps_gets|]. intros re _.
  apply mb_mmu_stamped. intros m [H1 H2 H3 H4]. split; [done..| |done]. intros i. cbn.
  rewrite arr_get_set. case_decide; [cbn; lia | done].
Qed.

Lemma store_fill_stamped e vpn satp pa gen :
  keeps True (stamped_mb e) (store_fast_fill vpn satp pa gen) (fun _ => True).
Proof.
  unfold store_fast_fill. eapply keeps_bind; [apply mb_bus_stamped|]. intros [q|] _; [|by apply keeps_ret].
  apply (keeps_bind _ _ (fun _ => True)); [by apply keeps_gets|]. intros re _.
  apply mb_mmu_stamped. intros m [H1 H2 H3 H4]. split; [done..|]. intros i. cbn.
  rewrite arr_get_set. case_decide; [cbn; lia | done].
Qed.

Lemma memo_stamped e f :
  (∀ m, mmu_epoch (f m) = mmu_epoch m ∧ tlb (f m) = tlb m ∧ load_fast (f m) = load_fast m
        ∧ store_fast (f m) = store_fast m) →
  keeps True (stamped_mb e) (mb_mmu f) (fun _ => True).
Proof.
  intros Hf. apply mb_mmu_stamped. intros m [H1 H2 H3 H4]. destruct (Hf m) as (E1 & E2 & E3 & E4).
  split; by rewrite ?E1, ?E2, ?E3, ?E4.
Qed.

Lemma stamped_ret {A} e (a : A) : keeps True (stamped_mb e) (mret a) (fun _ => True).
Proof. by apply keeps_ret. Qed.
Lemma stamped_gets {A} e (g : Mmu * B -> A) : keeps True (stamped_mb e) (gets g) (fun _ => True).
Proof. by apply keeps_gets. Qed.
Lemma stamped_bind {A C} e (m : ST (Mmu * B) A) (k : A -> ST (Mmu * B) C) :
  keeps True (stamped_mb e) m (fun _ => True) → (∀ a, keeps True (stamped_mb e) (k a) (fun _ => True)) →
  keeps True (stamped_mb e) (m ≫= k) (fun _ => True).
Proof. intros H1 H2. eapply keeps_bind; [exact H1 | auto]. Qed.

Ltac stamped_go :=
  repeat (cbv zeta; first
    [ apply walk_stamped | apply load_fill_stamped | apply stamped_ret | apply stamped_gets
    | apply memo_stamped; done
    | apply stamped_bind; [|intros ?]
    | match goal with |- keeps _ _ (if ?c then _ else _) _ => destruct c end
    | match goal with |- keeps _ _ (match ?c with _ => _ end) _ => destruct c end ]).

Lemma translate_stamped e va satp :
  keeps True (stamped_mb e) (translate_fetch va satp) (fun _ => True) ∧
  keeps True (stamped_mb e) (translate_load va satp) (fun _ => True) ∧
  keeps True (stamped_mb e) (translate_store va satp) (fun _ => True).
Proof.
  refine (conj _ (conj _ _)); unfold translate_fetch, translate_load, translate_store; stamped_go.
Qed.
End Steps.

(** Everything that has happened to an MMU since it was created: translations
    over any bus in any state, fills of the store table, and [k] flushes. *)
Inductive mmu_history {B : Type} {SB : SystemBus B} : Z -> Mmu -> Prop :=
| mh_new : mmu_history 0 mmu_new
| mh_fetch k m va satp b r m' b' :
    mmu_history k m → translate_fetch va satp (m, b) = Some (r, (m', b')) → mmu_history k m'
| mh_load k m va satp b r m' b' :
    mmu_history k m → translate_load va satp (m, b) = Some (r, (m', b')) → mmu_history k m'
| mh_store k m va satp b r m' b' :
    mmu_history k m → translate_store va satp (m, b) = Some (r, (m', b')) → mmu_history k m'
| mh_fill k m vpn satp pa gen b m' b' :
    mmu_history k m → store_fast_fill vpn satp pa gen (m, b) = Some (tt, (m', b')) → mmu_history k m'
| mh_flush k m : mmu_history k m → mmu_history (k + 1) (mmu_flush m).

Lemma history_stamped {B} {SB : SystemBus B} k m :
  mmu_history k m → 0 <= k ∧ (k < 2 ^ 32 - 1 → stamped (k + 1) m).
Proof.
  assert (Hk : ∀ {A} e (t : ST (Mmu * B) A) m b r m' b',
    keeps True (stamped_mb e) t (fun _ => True) → stamped e m → t (m, b) = Some (r, (m', b')) → stamped e m').
  { intros A e t m0 b r m' b' Ht Hs E. by destruct (wp_elim _ _ _ _ _ (Ht (m0, b) Hs) E). }
  induction 1 as [|k m va satp b r m' b' _ [H0 IH] E|k m va satp b r m' b' _ [H0 IH] E
    |k m va satp b r m' b' _ [H0 IH] E|k m vpn satp pa gen b m' b' _ [H0 IH] E|k m _ [H0 IH]].
  - split; [lia|]. intros _. apply stamped_new.
  - split; [done|]. intros Hlt. exact (Hk _ _ _ _ _ _ _ _ (proj1 (translate_stamped _ va satp)) (IH Hlt) E).
  - split; [done|]. intros Hlt. exact (Hk _ _ _ _ _ _ _ _ (proj1 (proj2 (translate_stamped _ va satp))) (IH Hlt) E).
  - split; [done|]. intros Hlt. exact (Hk _ _ _ _ _ _ _ _ (proj2 (proj2 (translate_stamped _ va satp))) (IH Hlt) E).
  - split; [done|]. intros Hlt. eapply Hk; [apply store_fill_stamped | by apply IH | exact E].
  - split; [lia|]. intros Hlt. apply stamped_flush; [apply IH|]; lia.
Qed.

(** ** Claims *)

Section Claims.
Context {B : Type} {SB : SystemBus B} {HM : HostMemory B} {RL : RamLaws B}.

(** C24: the cached translations are the page tables.  In a coherent
    state, [translate_fetch], [translate_load] and [translate_store] return
    exactly what a walk of the page tables in memory gives for that kind of
    access (the physical address, or the page fault of that kind at that
    address), leave memory alone, and the MMU coherent. *)
Theorem translations_are_the_tables satp m (b : B) va :
  coherent satp m b → ram_ok b → is_u64 va →
  (∃ m', translate_fetch va satp (m, b)
         = Some (translated InstructionPageFault va (pt_translate b satp va false true), (m', b))
         ∧ coherent satp m' b) ∧
  (∃ m', translate_load va satp (m, b)
         = Some (translated LoadPageFault va (pt_translate b satp va false false), (m', b))
         ∧ coherent satp m' b) ∧
  (∃ m', translate_store va satp (m, b)
         = Some (translated StorePageFault va (pt_translate b satp va true false), (m', b))
         ∧ coherent satp m' b).
Proof.
  intros Hc Hb Hva.
  destruct (translate_fetch_coherent satp m b va Hc Hb Hva) as (m1 & E1 & H1 & _).
  destruct (translate_load_coherent satp m b va Hc Hb Hva) as (m2 & E2 & H2 & _).
  destruct (translate_store_coherent satp m b va Hc Hb Hva) as (m3 & E3 & H3 & _).
  refine (conj _ (conj _ _)); eauto.
Qed.

(** C-old: [flush] (SFENCE.VMA, a write to satp) makes the MMU coherent with
    whatever page tables in memory are in use from then on, and forgets every host page,
    after any history of translations and fewer than 2^32 - 2 earlier flushes. *)
Theorem flush_restores_coherence k m satp (b : B) :
  mmu_history (SB := SB) k m → k < 2 ^ 32 - 2 → tables_in_ram satp b →
  coherent satp (mmu_flush m) b ∧
  ∀ va re gen, load_fast_lookup va satp re (mmu_flush m) = None
               ∧ store_fast_lookup va satp re gen (mmu_flush m) = None.
Proof.
  intros Hh Hk Htab. destruct (history_stamped _ _ Hh) as [H0 Hs].
  destruct (flush_forgets (k + 1) m) as (Ht & Hl & Hst); [apply Hs; lia | lia|].
  destruct (flush_memos m) as [Ev Es]. split; [|split; auto]. split.
  - intros vpn ppn flags w x. by rewrite Ht.
  - by rewrite Ev.
  - by rewrite Es.
  - intros va q. by rewrite Hl.
  - intros i He. specialize (Hs ltac:(lia)). destruct (flush_tables m) as (_ & Ef & _). rewrite Ef in *.
    rewrite (flush_epoch m (k + 1)) in He by (apply Hs || lia). pose proof (st_load _ _ Hs i). lia.
  - done.
Qed.
End Claims.

(** The bound is real: the flush after 2^32 - 1 epochs returns to epoch 1, and an
    entry made in the first epoch is used again. *)
Example flush_epoch_wraps :
  let old := mmu_insert 5 7 0xcf mmu_new in
  mmu_lookup 5 (mmu_flush (old <| mmu_epoch := 2 ^ 32 - 1 |>)) = Some (7, 0xcf).
Proof. vm_compute. reflexivity. Qed.

(** One gigapage, read-write-execute, mapping address 0 to 0x40000000. *)
Definition demo_tables : SparseRam.ram :=
  default SparseRam.empty (snd <$> SparseRam.store 8 0x80000000 (0x40000 * 1024 + 0xcf) SparseRam.empty).
Definition demo_satp : Z := 8 * 2 ^ 60 + 0x80000.

Lemma mmu_new_coherent {B} {SB : SystemBus B} {HM : HostMemory B} {RL : RamLaws B} satp (b : B) :
  tables_in_ram satp b → coherent satp mmu_new b.
Proof.
  intros Htab. split; [|done..| | |done].
  - intros vpn ppn flags w x. unfold mmu_lookup, mmu_new. cbn [tlb]. by rewrite arr_get_new.
  - intros va q. unfold load_fast_lookup, mmu_new. cbn [load_fast]. rewrite arr_get_new. cbn.
    destruct (_ =? _) eqn:E; [|done]. bools. intros _ Hva. by destruct (vpn_small va Hva).
  - intros i. unfold mmu_new. cbn [load_fast mmu_epoch]. by rewrite arr_get_new.
Qed.

(** Where everything is memory, the tables are. *)
Lemma all_in_ram {B} {SB : SystemBus B} {HM : HostMemory B} {RL : RamLaws B} satp (b : B) :
  (∀ a, in_ram b a) → tables_in_ram satp b.
Proof.
  intros H Hs vpn. generalize 3%nat. intros n. generalize (Z.land satp 0x0fffffffffff). induction n as [|n IH]; intros ppn; cbn; auto.
Qed.

Lemma translations_are_the_tables_witness :
  ∃ m', translate_load 0x1234 demo_satp (mmu_new, demo_tables) = Some (Ok 0x40001234, (m', demo_tables)).
Proof.
  destruct (translations_are_the_tables demo_satp mmu_new demo_tables 0x1234) as (_ & (m' & E & _) & _);
    [by apply mmu_new_coherent, all_in_ram | done | done|].
  exists m'. rewrite E. vm_compute. reflexivity.
Defined.

Lemma flush_restores_coherence_witness : coherent demo_satp (mmu_flush mmu_new) demo_tables.
Proof.
  refine (proj1 (flush_restores_coherence 0 mmu_new demo_satp demo_tables mh_new ltac:(lia) _)).
  by apply all_in_ram.
Defined.
