(* ===== verification/FastPath.v ===== *)
(** The fast paths agree with the slow ones.

    Loads and stores of a block first look for a host page that was handed out
    for the address, and go through the pointer if there is one.  This file shows
    that nothing is observable of that: a load returns the bytes the page tables
    and memory say, and a store leaves the memory and the block cache as the slow
    path would have left them, including the eviction of code on the page.  At the
    end are runs that depart from the architecture. *)
From S2P Require Import Prelude Words Wp Trap Gpr Decode Csr SystemBus BusLaws Mmu BlockCache BlockCacheProps.
From S2P Require Import Context Float SyscallTrace Execute ExecuteFp Interp BlockExec ValueProps Invariant.
From S2P Require Import BlockInvariant RamLaws MmuProps.

Section Fast.
Context {B : Type} {SB : SystemBus B} {HM : HostMemory B} {RL : RamLaws B}.

(** ** Loads *)

(** The specification: each byte at its own translation, or the page fault of the
    first byte that has none. *)
Fixpoint bytes_spec (b : B) (satp va : Z) (n : nat) (i : Z) : Result (list Z) MmuFault :=
  match n with
  | O => Ok []
  | S n =>
      match pt_translate b satp (wrapping_add64 va i) false false with
      | None => Err (LoadPageFault (wrapping_add64 va i))
      | Some pa =>
          match bytes_spec b satp va n (i + 1) with
          | Ok bytes => Ok (byte_at b pa :: bytes)
          | Err fault => Err fault
          end
      end
  end.

Lemma bind_run {S A C} (m : ST S A) (k : A -> ST S C) s a s' : m s = Some (a, s') → (m ≫= k) s = k a s'.
Proof. intros E. unfold mbind, ST_bind. by rewrite E. Qed.

Lemma read_byte_at_pure a b : ram_ok b → is_u64 a → in_ram b a → read_byte a b = Some (byte_at b a, b).
Proof.
  intros Hb Ha Hin. destruct (rl_read 1 a b Hb) as (v & E & _); [by left | done| |done|].
  - unfold fits_page. pose proof (offset_in_page a). lia.
  - cbn in E. unfold byte_at. by rewrite E.
Qed.

(** The bytes of an access, where they have a translation, are in memory. *)
Definition reads_ram (b : B) (satp va : Z) (n : nat) : Prop :=
  ∀ i pa, 0 <= i < Z.of_nat n → pt_translate b satp (wrapping_add64 va i) false false = Some pa → in_ram b pa.

Lemma same_stores_trans m1 m2 m3 : same_stores m1 m2 → same_stores m2 m3 → same_stores m1 m3.
Proof. intros [? ?] [? ?]. split; congruence. Qed.

Lemma load_bytes_coherent satp va b k n i m :
  coherent satp m b → ram_ok b → reads_ram b satp va k → 0 <= i → i + Z.of_nat n <= Z.of_nat k →
  ∃ m', load_bytes n i va satp (m, b) = Some (bytes_spec b satp va n i, (m', b)) ∧
        coherent satp m' b ∧ same_stores m m'.
Proof.
  intros Hc Hb Hram. revert i m Hc. induction n as [|n IH]; intros i m Hc Hi Hk; cbn [load_bytes bytes_spec]; [by exists m|].
  destruct (translate_load_coherent satp m b (wrapping_add64 va i) Hc Hb (wrapping_add64_word _ _))
    as (m1 & E & Hc1 & Hs1).
  unfold mbind at 1, ST_bind at 1. rewrite E.
  destruct (pt_translate b satp _ false false) as [pa|] eqn:Ep; cbn [translated]; [|by exists m1].
  destruct (pt_translate_u64 _ _ _ _ _ _ (wrapping_add64_word va i) Ep) as [Hpa _].
  unfold mbind at 1, ST_bind at 1, mb_bus, zoom. cbn [fst snd].
  rewrite read_byte_at_pure by first [done | apply (Hram i); [lia | done]].
  destruct (IH (i + 1) m1 Hc1 ltac:(lia) ltac:(lia)) as (m2 & E2 & Hc2 & Hs2).
  exists m2. split; [|split; [done | by eapply same_stores_trans]].
  unfold mbind at 1, ST_bind at 1. cbn [fst snd]. rewrite E2. by destruct (bytes_spec b satp va n (i + 1)).
Qed.

(** Within a page, the next address is the next address of the same page. *)
Lemma next_in_page va n i :
  is_u64 va → fits_page va n → 0 <= i < Z.of_nat n →
  wrapping_add64 va i = va + i ∧ Z.shiftr (va + i) 12 = Z.shiftr va 12
  ∧ Z.land (va + i) 0xfff = Z.land va 0xfff + i.
Proof.
  intros Hva Hf Hi. destruct (page_next va n i Hva Hf Hi) as (Hw & Hp & Ho). split; [|done]. by apply wrap_id.
Qed.

Lemma pt_translate_next b satp va n i w x pa :
  is_u64 va → fits_page va n → 0 <= i < Z.of_nat n →
  pt_translate b satp va w x = Some pa → pt_translate b satp (wrapping_add64 va i) w x = Some (pa + i).
Proof.
  intros Hva Hf Hi. destruct (next_in_page va n i Hva Hf Hi) as (-> & Hp & Ho). unfold pt_translate.
  case_if; [by intros [= ->]|]. rewrite Hp, Ho. destruct (page_translate _ _ _ _ _) as [ppn|]; [|done].
  intros [= <-]. cbn. f_equal. lia.
Qed.

Lemma bytes_spec_page b satp va n k i pa :
  is_u64 va → fits_page va n → (i + k <= n)%nat → pt_translate b satp va false false = Some pa →
  bytes_spec b satp va k (Z.of_nat i) = Ok (map (fun j => byte_at b (pa + Z.of_nat j)) (seq i k)).
Proof.
  intros Hva Hf Hi Hpa. revert i Hi. induction k as [|k IH]; intros i Hi; cbn [bytes_spec seq map]; [done|].
  rewrite (pt_translate_next b satp va n (Z.of_nat i) _ _ pa) by (done || lia).
  replace (Z.of_nat i + 1) with (Z.of_nat (S i)) by lia. by rewrite IH by lia.
Qed.

Lemma bytes_spec_whole b satp va n pa :
  is_u64 va → fits_page va n → pt_translate b satp va false false = Some pa →
  bytes_spec b satp va n 0 = Ok (map (fun j => byte_at b (pa + Z.of_nat j)) (seq 0 n)).
Proof. intros. by apply (bytes_spec_page b satp va n n 0). Qed.

Lemma wrapping_add64_0 va : is_u64 va → wrapping_add64 va 0 = va.
Proof. intros H. unfold wrapping_add64. rewrite Z.add_0_r. by apply wrap_id. Qed.

Lemma first_byte b satp va n pa :
  is_u64 va → access_size n → reads_ram b satp va n → pt_translate b satp va false false = Some pa → in_ram b pa.
Proof.
  intros Hva Hn Hram Hpa. apply (Hram 0); [|by rewrite wrapping_add64_0].
  destruct Hn as [->|[->|[->| ->]]]; lia.
Qed.

Definition load_value (r : Result (list Z) MmuFault) : Result Z MmuFault :=
  match r with Ok bytes => Ok (from_le_bytes bytes) | Err fault => Err fault end.

Lemma raw_load_coherent satp va b n m :
  coherent satp m b → ram_ok b → reads_ram b satp va n → is_u64 va → access_size n →
  ∃ m', raw_load satp va n (m, b) = Some (load_value (bytes_spec b satp va n 0), (m', b)) ∧
        coherent satp m' b ∧ same_stores m m'.
Proof.
  intros Hc Hb Hram Hva Hn. unfold raw_load. cbv zeta. case_if; bools.
  - destruct (load_bytes_coherent satp va b n n 0 m Hc Hb Hram ltac:(lia) ltac:(lia)) as (m' & E' & Hc' & Hs').
    exists m'. split; [|done]. unfold mbind at 1, ST_bind at 1. rewrite E'.
    destruct (bytes_spec b satp va n 0) as [bs|f]; [|done]. cbn. by rewrite from_le_bytes_zeros.
  - destruct (translate_load_coherent satp m b va Hc Hb Hva) as (m' & E' & Hc' & Hs').
    exists m'. split; [|done]. unfold mbind at 1, ST_bind at 1. rewrite E'.
    destruct (pt_translate b satp va false false) as [pa|] eqn:Ep; cbn [translated].
    + destruct (pt_translate_u64 _ _ _ _ _ _ Hva Ep) as [Hpa Ho].
      assert (Hf : fits_page pa n) by (unfold fits_page; rewrite Ho; lia).
      assert (Hin : in_ram b pa) by (by apply (first_byte b satp va n)).
      unfold mbind at 1, ST_bind at 1, mb_bus, zoom. cbn [fst snd]. rewrite rl_bytes by done.
      by rewrite (bytes_spec_whole b satp va n pa).
    + destruct n as [|n]; [by destruct Hn as [|[|[|]]]|]. cbn [bytes_spec].
      rewrite wrapping_add64_0 by done. by rewrite Ep.
Qed.

Lemma load_kind_access k : access_size (load_kind_size k).
Proof. unfold access_size. destruct k; cbn; auto. Qed.
Lemma store_kind_access k : access_size (store_kind_size k).
Proof. unfold access_size. destruct k; cbn; auto. Qed.

(** What a load does to the context: only the MMU's tables. *)
Definition with_mmu (m : Mmu) (c : ExecContext B) : ExecContext B := c <| mmu := m |>.

Lemma put_mmu_bus m (c : ExecContext B) : c <| mmu := m |> <| bus := bus c |> = with_mmu m c.
Proof. by destruct c. Qed.

Lemma do_load_spec satp k va pc c :
  coherent satp (mmu c) (bus c) → ram_ok (bus c) → reads_ram (bus c) satp va (load_kind_size k) → is_u64 va →
  ∃ m', coherent satp m' (bus c) ∧ same_stores (mmu c) m' ∧
    do_load satp k va pc c
    = match load_value (bytes_spec (bus c) satp va (load_kind_size k) 0) with
      | Ok v => Some (Ok (extend_load k v), with_mmu m' c)
      | Err fault => (block_fault fault pc;; mret (Err tt)) (with_mmu m' c)
      end.
Proof.
  intros Hc Hb Hram Hva. pose proof (load_kind_access k) as Hn.
  destruct (raw_load_coherent satp va (bus c) (load_kind_size k) (mmu c) Hc Hb Hram Hva Hn) as (m1 & E1 & Hc1 & Hs1).
  assert (Hslow : do_load_slow satp k va (load_kind_size k) pc c
    = match load_value (bytes_spec (bus c) satp va (load_kind_size k) 0) with
      | Ok v => Some (Ok (extend_load k v), with_mmu m1 c)
      | Err fault => (block_fault fault pc;; mret (Err tt)) (with_mmu m1 c)
      end).
  { unfold do_load_slow. unfold mbind at 1, ST_bind at 1, on_mmu, zoom. rewrite E1. cbn [fst snd].
    rewrite put_mmu_bus. by destruct (load_value _). }
  unfold do_load. unfold mbind at 1, ST_bind at 1, st_get. cbv zeta.
  destruct (Z.leb_spec (Z.land va 0xfff + Z.of_nat (load_kind_size k)) 0x1000) as [Hf|Hf]; [|by exists m1].
  destruct (load_fast_lookup va satp (ram_epoch (bus c)) (mmu c)) as [q|] eqn:L; [|by exists m1].
  destruct (co_fast _ _ _ Hc _ _ L Hva) as (pa & Hpa & Hq).
  destruct (pt_translate_u64 _ _ _ _ _ _ Hva Hpa) as [Hw Ho].
  assert (Hfp : fits_page pa (load_kind_size k)) by (unfold fits_page; by rewrite Ho).
  assert (Hin : in_ram (bus c) pa) by (by apply (first_byte (bus c) satp va (load_kind_size k))).
  exists (mmu c). split; [done|]. split; [done|].
  rewrite (bytes_spec_whole (bus c) satp va (load_kind_size k) pa) by done.
  unfold mbind at 1, ST_bind at 1, on_bus, zoom. rewrite <- Ho, rl_host_load, rl_bytes by done. by destruct c.
Qed.

(** ** Stores *)

(** Live entries of the store table (those of the current code generation) lead
    to a page of the tables on which no code is cached. *)
Record store_coherent (satp : Z) (m : Mmu) (b : B) (k : BlockCache) : Prop := {
  sc_gen i : sf_code_generation (arr_get (store_fast m) i) <= code_generation k;
  sc_hit va q :
    store_fast_lookup va satp (ram_epoch b) (code_generation k) m = Some q → is_u64 va →
    ∃ pa, pt_translate b satp va true false = Some pa ∧ store_page b pa q ∧ page_has_code (Z.shiftr pa 12) k = false;
  sc_epochs i :
    sf_epoch (arr_get (store_fast m) i) = mmu_epoch m → sf_ram_epoch (arr_get (store_fast m) i) <= ram_epoch b
}.

(** The page tables of [satp] are unchanged. *)
Definition same_tables (satp : Z) (b b' : B) : Prop :=
  (∀ vpn w x, page_translate b' satp vpn w x = page_translate b satp vpn w x) ∧ tables_in_ram satp b'.

Lemma same_tables_translate satp b b' va w x :
  same_tables satp b b' → pt_translate b' satp va w x = pt_translate b satp va w x.
Proof. intros [H _]. unfold pt_translate. by rewrite H. Qed.

(** What a write does to the pages that were handed out: nothing, or it ends the
    epoch. *)
Definition pages_step (b b' : B) : Prop :=
  ram_epoch b <= ram_epoch b' ∧
  (ram_epoch b' = ram_epoch b →
   ∀ pa q, (load_page b pa q → load_page b' pa q) ∧ (store_page b pa q → store_page b' pa q)).

Lemma coherent_bus satp m b b' :
  coherent satp m b → same_tables satp b b' → pages_step b b' → coherent satp m b'.
Proof.
  intros [Ht Hl Hs Hf He Hr] Hsame [Hle Hpg]. pose proof (same_tables_translate satp b b') as Hpt.
  destruct Hsame as [Hsame Htab]. split; [..|done].
  - intros vpn ppn flags w x ? ? ?. rewrite Hsame. by eapply Ht.
  - rewrite Hsame. done.
  - rewrite Hsame. done.
  - intros va q L Hva. destruct (decide (ram_epoch b' = ram_epoch b)) as [Ee|Ne].
    + rewrite Ee in L. destruct (Hf va q L Hva) as (pa & Hpa & Hq). exists pa. rewrite Hpt by done.
      split; [done|]. by apply Hpg.
    + exfalso. revert L. unfold load_fast_lookup. cbv zeta. case_if; [|done]. bools.
      specialize (He (tlb_slot (Z.shiftr va 12))). lia.
  - intros i Hi. specialize (He i Hi). lia.
Qed.

Lemma coherent_store_table satp m b t : coherent satp m b → coherent satp (m <| store_fast := t |>) b.
Proof. intros [Ht Hl Hs Hf He Hr]. by split. Qed.

Lemma store_coherent_stores satp m m' b k :
  same_stores m m' → store_coherent satp m b k → store_coherent satp m' b k.
Proof.
  intros [E1 E2] [Hg Hh He]. split; [by rewrite E1| |by rewrite E1, E2].
  intros va q. unfold store_fast_lookup. rewrite E1, E2. apply Hh.
Qed.

Lemma store_coherent_bus satp m b b' k :
  store_coherent satp m b k → same_tables satp b b' → pages_step b b' → store_coherent satp m b' k.
Proof.
  intros [Hg Hh He] Hsame [Hle Hpg]. split; [done| |].
  - intros va q L Hva. destruct (decide (ram_epoch b' = ram_epoch b)) as [Ee|Ne].
    + rewrite Ee in L. destruct (Hh va q L Hva) as (pa & Hpa & Hq & Hcode). exists pa.
      rewrite (same_tables_translate satp b b') by done. split; [done|]. split; [|done]. by apply Hpg.
    + exfalso. revert L. unfold store_fast_lookup. cbv zeta. case_if; [|done]. bools.
      specialize (He (tlb_slot (Z.shiftr va 12))). lia.
  - intros i Hi. specialize (He i Hi). lia.
Qed.

(** Notifying a store only removes code, and none is left on its page. *)
Lemma notify_generation pa k : code_generation (notify_store pa k) = code_generation k.
Proof. unfold notify_store. by destruct (page_has_code _ k). Qed.

Lemma notify_no_code pa k p :
  is_u64 pa → 0 <= p → page_has_code p k = false ∨ p = Z.shiftr pa 12 →
  page_has_code p (notify_store pa k) = false.
Proof.
  intros Hpa Hp0 Hp. pose proof (shiftr_page_nonneg pa Hpa). unfold notify_store. case_if.
  - rewrite evict_page_bitmap by done. destruct Hp as [->| ->]; [apply andb_false_r | by rewrite Z.eqb_refl].
  - by destruct Hp as [| ->].
Qed.

Lemma notify_store_none pa k : page_has_code (Z.shiftr pa 12) k = false → notify_store pa k = k.
Proof. unfold notify_store. by intros ->. Qed.

Lemma store_coherent_notify satp m b k pa :
  ram_ok b → store_coherent satp m b k → is_u64 pa → store_coherent satp m b (notify_store pa k).
Proof.
  intros Hb [Hg Hh He] Hpa. split; [by rewrite notify_generation| |done]. intros va q. rewrite notify_generation.
  intros L Hva. destruct (Hh va q L Hva) as (pa' & Hpa' & Hq & Hcode). exists pa'. split; [done|]. split; [done|].
  destruct (pt_translate_u64 _ _ _ _ _ _ Hva Hpa'). apply notify_no_code; auto using shiftr_page_nonneg.
Qed.

(** The fill after a store; it is coherent unless the store changed the tables. *)
Lemma store_fill_coherent satp m b k va pa :
  ram_ok b → is_u64 pa → private b pa →
  ∃ m', store_fast_fill (Z.shiftr va 12) satp pa (code_generation k) (m, b) = Some (tt, (m', b)) ∧
    (coherent satp m b → store_coherent satp m b k → is_u64 va →
     pt_translate b satp va true false = Some pa → page_has_code (Z.shiftr pa 12) k = false →
     coherent satp m' b ∧ store_coherent satp m' b k).
Proof.
  intros Hb Hw Hpriv. destruct (rl_store_page pa b Hb Hw Hpriv) as (p & E & Hp).
  unfold store_fast_fill, mb_bus, zoom. run_st. cbn [fst snd].
  rewrite E. destruct p as [q|]; [|by exists m]. eexists. split; [done|]. intros Hc [Hg Hh He] Hva Hpa Hcode.
  split; [by apply coherent_store_table|]. split; cbn.
  - intros i. rewrite arr_get_set. case_decide; [cbn; lia | done].
  - intros va' q'. unfold store_fast_lookup. cbn. rewrite arr_get_set. case_decide; cbn; [|apply Hh].
    destruct (Z.eqb_spec (Z.shiftr va 12) (Z.shiftr va' 12)) as [Hpg|]; cbn; [|done].
    rewrite !Z.eqb_refl. cbn. intros [= <-] Hva'.
    destruct (pt_translate_same_page _ _ _ _ _ _ _ Hpg Hpa) as (pa' & Hpa' & Hsame).
    exists pa'. rewrite <- Hsame. split; [done|]. split; [|done].
    destruct (pt_translate_u64 _ _ _ _ _ _ Hva' Hpa'). apply (rl_same_page pa); auto.
  - intros i. rewrite arr_get_set. case_decide; [cbn; lia | apply He].
Qed.

(** The page a store goes to, if it has a translation, is in memory. *)
Definition writes_ram (b : B) (satp va : Z) : Prop :=
  ∀ pa, pt_translate b satp va true false = Some pa → in_ram b pa.

Definition stored (m : Mmu) (b : B) (k : BlockCache) (c : ExecContext B) : ExecContext B :=
  c <| mmu := m |> <| bus := b |> <| blocks := k |>.

(** Everything a store is supposed to do to a context. *)
Definition store_done (satp : Z) (n : nat) (pa v : Z) (c c' : ExecContext B) : Prop :=
  ∃ m' b', write_size n pa v (bus c) = Some (tt, b') ∧ c' = stored m' b' (notify_store pa (blocks c)) c ∧
    (same_tables satp (bus c) b' →
     coherent satp m' b' ∧ store_coherent satp m' b' (notify_store pa (blocks c))).

Lemma store_through_page satp n va v q pa c :
  coherent satp (mmu c) (bus c) → store_coherent satp (mmu c) (bus c) (blocks c) → ram_ok (bus c) →
  access_size n → is_u64 va → fits_page va n → is_u64 v → in_ram (bus c) pa →
  pt_translate (bus c) satp va true false = Some pa → store_page (bus c) pa q →
  page_has_code (Z.shiftr pa 12) (blocks c) = false →
  ∃ c', on_bus (host_store q (Z.land va 0xfff) n v) c = Some (tt, c') ∧ store_done satp n pa v c c'.
Proof.
  intros Hc Hs Hb Hn Hva Hf Hv Hin Hpa Hq Hcode. destruct (pt_translate_u64 _ _ _ _ _ _ Hva Hpa) as [Hw Ho].
  assert (Hfp : fits_page pa n) by (unfold fits_page; by rewrite Ho).
  destruct (rl_write n pa v (bus c) Hb Hn Hw Hfp Hin Hv) as (b' & E & Hb' & _ & He & _ & Hpg).
  unfold on_bus, zoom. rewrite <- Ho, (rl_host_store n pa q v), E by done. eexists. split; [done|].
  exists (mmu c), b'. split; [done|]. rewrite notify_store_none by done. split; [by destruct c|].
  intros Hsame. split; [by apply (coherent_bus _ _ (bus c)) | by apply (store_coherent_bus _ _ (bus c))].
Qed.

Lemma raw_store_coherent satp va v n c :
  coherent satp (mmu c) (bus c) → store_coherent satp (mmu c) (bus c) (blocks c) → ram_ok (bus c) →
  access_size n → is_u64 va → fits_page va n → is_u64 v → writes_ram (bus c) satp va →
  match pt_translate (bus c) satp va true false with
  | Some pa => ∃ c', on_store (raw_store satp va v n) c = Some (Ok tt, c') ∧ store_done satp n pa v c c'
  | None => ∃ m', on_store (raw_store satp va v n) c = Some (Err (StorePageFault va), with_mmu m' c) ∧
                  coherent satp m' (bus c) ∧ same_stores (mmu c) m'
  end.
Proof.
  intros Hc Hs Hb Hn Hva Hf Hv Hram. unfold on_store, zoom, raw_store. unfold fits_page in Hf.
  replace (_ <? _) with false by (symmetry; lia).
  destruct (translate_store_coherent satp (mmu c) (bus c) va Hc Hb Hva) as (m1 & E & Hc1 & Hs1).
  destruct (pt_translate (bus c) satp va true false) as [pa|] eqn:Hpa; cbn [translated] in E;
    unfold mbind at 1, ST_bind at 1, st_mmu at 1, zoom; cbn [fst snd]; rewrite E.
  2: { exists m1. split; [by destruct c | done]. }
  destruct (pt_translate_u64 _ _ _ _ _ _ Hva Hpa) as [Hw Ho].
  assert (Hfp : fits_page pa n) by (unfold fits_page; by rewrite Ho).
  destruct (rl_write n pa v (bus c) Hb Hn Hw Hfp (Hram pa Hpa) Hv) as (b' & Ew & Hb' & Hpriv & He & _ & Hpg).
  destruct (store_fill_coherent satp m1 b' (notify_store pa (blocks c)) va pa Hb' Hw Hpriv) as (m2 & Ef & Hfill).
  unfold st_notify, st_bus, st_mmu, mb_bus, zoom, modify, gets. run_st. cbn [fst snd]. rewrite Ew. cbn [fst snd].
  rewrite Ef. eexists. split; [done|]. exists m2, b'. split; [done|]. split; [done|]. intros Hsame.
  apply Hfill; [by apply (coherent_bus _ _ (bus c))| |done| |].
  - apply store_coherent_notify; [done| |done]. apply (store_coherent_bus _ _ (bus c)); [|done..].
    by apply (store_coherent_stores _ (mmu c)).
  - by rewrite (same_tables_translate satp (bus c) b').
  - apply notify_no_code; auto using shiftr_page_nonneg.
Qed.

Lemma do_store_spec satp k va v pc (c : ExecContext B) :
  coherent satp (mmu c) (bus c) → store_coherent satp (mmu c) (bus c) (blocks c) → ram_ok (bus c) →
  is_u64 va → fits_page va (store_kind_size k) → is_u64 v → writes_ram (bus c) satp va →
  match pt_translate (bus c) satp va true false with
  | Some pa =>
      ∃ c', do_store satp k va v pc c = Some (Ok tt, c') ∧ store_done satp (store_kind_size k) pa v c c'
  | None =>
      ∃ m', do_store satp k va v pc c = (block_fault (StorePageFault va) pc;; mret (Err tt)) (with_mmu m' c)
            ∧ coherent satp m' (bus c)
  end.
Proof.
  intros Hc Hs Hb Hva Hf Hv Hram. pose proof (store_kind_access k) as Hn.
  pose proof (raw_store_coherent satp va v (store_kind_size k) c Hc Hs Hb Hn Hva Hf Hv Hram) as Hraw.
  assert (Hdo : do_store satp k va v pc c
    = match store_fast_lookup va satp (ram_epoch (bus c)) (code_generation (blocks c)) (mmu c) with
      | Some q => (on_bus (host_store q (Z.land va 0xfff) (store_kind_size k) v);; mret (Ok tt)) c
      | None => do_store_slow satp va v (store_kind_size k) pc c
      end).
  { unfold do_store. unfold mbind at 1, ST_bind at 1, st_get. cbv zeta. unfold fits_page in Hf.
    replace (_ <=? _) with true by (symmetry; lia). by destruct (store_fast_lookup _ _ _ _ _). }
  rewrite Hdo.
  destruct (store_fast_lookup va satp (ram_epoch (bus c)) (code_generation (blocks c)) (mmu c)) as [q|] eqn:L.
  - destruct (sc_hit _ _ _ _ Hs va q L Hva) as (pa & Hpa & Hq & Hcode). rewrite Hpa.
    destruct (store_through_page satp (store_kind_size k) va v q pa c Hc Hs Hb Hn Hva Hf Hv (Hram pa Hpa) Hpa Hq Hcode)
      as (c' & E & Hd).
    exists c'. split; [|done]. by rewrite (bind_run _ _ _ _ _ E).
  - unfold do_store_slow. destruct (pt_translate (bus c) satp va true false) as [pa|].
    + destruct Hraw as (c' & E & Hd). exists c'. split; [|done]. by rewrite (bind_run _ _ _ _ _ E).
    + destruct Hraw as (m' & E & Hc' & _). exists m'. split; [|done]. by rewrite (bind_run _ _ _ _ _ E).
Qed.

(** *** Code appearing and disappearing *)

Lemma mark_page_generation p k : code_generation (mark_page p k) = as_u64 (code_generation k + 1).
Proof. done. Qed.

(** New code gets a new generation: every entry of the store table is dead. *)
Lemma new_generation_coherent satp m b k k' :
  store_coherent satp m b k → code_generation k < code_generation k' → store_coherent satp m b k'.
Proof.
  intros [Hg _ He] Hlt. split; [intros i; specialize (Hg i); lia| |done]. intros va q. unfold store_fast_lookup. cbv zeta.
  specialize (Hg (tlb_slot (Z.shiftr va 12))).
  replace (sf_code_generation _ =? code_generation k') with false by (symmetry; lia). by rewrite andb_false_r.
Qed.

Lemma less_code_coherent satp m b k k' :
  ram_ok b → store_coherent satp m b k → code_generation k' = code_generation k →
  (∀ p, 0 <= p → page_has_code p k = false → page_has_code p k' = false) → store_coherent satp m b k'.
Proof.
  intros Hb [Hg Hh He] E Hp. split; [by rewrite E| |done]. intros va q. rewrite E. intros L Hva.
  destruct (Hh va q L Hva) as (pa & Hpa & Hq & Hcode). exists pa. split; [done|]. split; [done|].
  destruct (pt_translate_u64 _ _ _ _ _ _ Hva Hpa). apply Hp; auto using shiftr_page_nonneg.
Qed.

Lemma aot_record_generation p h k :
  code_generation (aot_record_hash p h k).2 = as_u64 (code_generation k + 1).
Proof. unfold aot_record_hash. destruct (aot_hashes k !! h), (p <? AOT_TABLE_MAX_PAGES); reflexivity. Qed.
End Fast.

(** ** Claims *)

Section Claims.
Context {B : Type} {SB : SystemBus B} {HM : HostMemory B} {RL : RamLaws B}.

(** C22: a block's load returns what the page tables and memory say.  In a
    coherent context, [do_load] of any kind at any address that leads to memory, whether it hits the
    table of host pages, goes through the TLB, walks the tables, or crosses a
    page, reads each byte at its own translation in little-endian order, extends
    the value, and changes nothing but the MMU, which stays coherent; if a byte
    has no translation it takes the page fault of the first such byte. *)
Theorem load_reads_memory satp k va pc (c : ExecContext B) :
  coherent satp (mmu c) (bus c) → ram_ok (bus c) → reads_ram (bus c) satp va (load_kind_size k) → is_u64 va →
  ∃ m', coherent satp m' (bus c) ∧
    do_load satp k va pc c
    = match load_value (bytes_spec (bus c) satp va (load_kind_size k) 0) with
      | Ok v => Some (Ok (extend_load k v), with_mmu m' c)
      | Err fault => (block_fault fault pc;; mret (Err tt)) (with_mmu m' c)
      end.
Proof.
  intros Hc Hb Hram Hva. destruct (do_load_spec satp k va pc c Hc Hb Hram Hva) as (m' & Hc' & _ & E). by exists m'.
Qed.

(** C21: a block's store within a page of memory writes it and evicts code.  In a
    coherent context, [do_store] through the fast path or the slow path leaves
    the memory the bus's write at the translated address gives, and the block
    cache [notify_store] gives (so a fast store never skips an eviction); the
    caches stay coherent unless the store changed the page tables.  Without a
    translation it takes the store page fault at the address. *)
Theorem store_writes_memory satp k va v pc (c : ExecContext B) :
  coherent satp (mmu c) (bus c) → store_coherent satp (mmu c) (bus c) (blocks c) → ram_ok (bus c) →
  is_u64 va → fits_page va (store_kind_size k) → is_u64 v → writes_ram (bus c) satp va →
  match pt_translate (bus c) satp va true false with
  | Some pa =>
      ∃ c', do_store satp k va v pc c = Some (Ok tt, c') ∧ store_done satp (store_kind_size k) pa v c c'
  | None =>
      ∃ m', do_store satp k va v pc c = (block_fault (StorePageFault va) pc;; mret (Err tt)) (with_mmu m' c)
            ∧ coherent satp m' (bus c)
  end.
Proof. apply do_store_spec. Qed.

(** The store table never outlives the absence of code.  Whatever
    happens to the block cache (a block decoded on any page, a translation
    recorded, a store notified, a flush), the live entries of the store table
    still lead to pages without cached code, as long as the 64-bit code
    generation has not run out. *)
Theorem store_table_follows_code satp m (b : B) k k' :
  ram_ok b → store_coherent satp m b k → cache_step k k' → 0 <= code_generation k < U64_MAX →
  store_coherent satp m b k'.
Proof.
  intros Hb Hs Hstep Hgen.
  assert (Hnew : as_u64 (code_generation k + 1) = code_generation k + 1).
  { apply wrap_id. unfold is_word, U64_MAX in *. lia. }
  destruct Hstep as [pa blk k _ _ _|pa k Hpa|k|hs k|p h k _].
  - apply (new_generation_coherent _ _ _ k); [done|]. cbn. rewrite Hnew. lia.
  - by apply store_coherent_notify.
  - by apply (less_code_coherent _ _ _ k).
  - by apply (less_code_coherent _ _ _ k).
  - apply (new_generation_coherent _ _ _ k); [done|]. rewrite aot_record_generation, Hnew. lia.
Qed.
End Claims.

(** ** Witnesses: a page of flat memory *)

Definition one_page : FlatMemory := mkFlat (replicate 4096 0) 0xfff 1.

Lemma one_page_ok : ram_ok one_page.
Proof.
  split; [by apply Forall_replicate|]. exists 12. split; [lia|]. split; [done|].
  cbn [data one_page]. rewrite length_replicate. done.
Qed.

Lemma store_coherent_new {B} {SB : SystemBus B} {HM : HostMemory B} {RL : RamLaws B} satp (b : B) :
  store_coherent satp mmu_new b cache_new.
Proof.
  split.
  - intros i. unfold mmu_new. cbn [store_fast]. rewrite arr_get_new. cbn. lia.
  - intros va q. unfold store_fast_lookup, mmu_new. cbn [store_fast]. rewrite arr_get_new. cbn.
    destruct (_ =? _) eqn:E; [|done]. bools. intros _ Hva. by destruct (vpn_small va Hva).
  - intros i. unfold mmu_new. cbn [store_fast mmu_epoch]. by rewrite arr_get_new.
Qed.

Lemma load_reads_memory_witness :
  ∃ m', do_load 0 Lw 0x10 0x80000000 (reset_ctx one_page) = Some (Ok 0, with_mmu m' (reset_ctx one_page)).
Proof.
  destruct (load_reads_memory 0 Lw 0x10 0x80000000 (reset_ctx one_page)) as (m' & _ & E);
    [by apply mmu_new_coherent, all_in_ram | apply one_page_ok | done | done|].
  exists m'. rewrite E. vm_compute. reflexivity.
Defined.

Lemma store_writes_memory_witness :
  ∃ c', do_store 0 Sw 0x10 7 0x80000000 (reset_ctx one_page) = Some (Ok tt, c')
        ∧ store_done 0 4 0x10 7 (reset_ctx one_page) c'.
Proof.
  refine (store_writes_memory 0 Sw 0x10 7 0x80000000 (reset_ctx one_page) (mmu_new_coherent _ _ _)
    (store_coherent_new _ _) one_page_ok _ _ _ _); [by apply all_in_ram | done..].
Defined.

Lemma store_table_follows_code_witness :
  store_coherent 0 mmu_new one_page (cache_insert 0x10 spin_block cache_new).
Proof.
  refine (store_table_follows_code 0 mmu_new one_page cache_new _ one_page_ok (store_coherent_new _ _) _ _).
  - apply cs_insert; [done | done | apply spin_block_ok].
  - done.
Defined.

(** * Where the model departs from the architecture

    Closed runs of the interpreter that show behaviour the privileged or the
    unprivileged specification does not allow.  Each is a computation of the
    definitions the theorems are about. *)

#[local] Existing Instance env_zero.

(** The context after one instruction at the current pc, if it does not trap out
    of the interpreter. *)
Definition after (raw : Z) (c : ExecContext SparseRam.ram) : ExecContext SparseRam.ram :=
  match exec_raw raw (pc (regs c)) c with Some (_, c') => c' | None => c end.

(** A user-mode context at 0x80000000 with [x5 = v] and the floating-point unit on. *)
Definition user_ctx (v : Z) : ExecContext SparseRam.ram :=
  let c := reset_ctx SparseRam.empty in
  c <| priv_mode := PrivU |>
    <| regs := gpr_write 5 v (regs c) |>
    <| csr := (csr c) <| mstatus := Z.lor (mstatus (csr c)) (Z.shiftl 1 13) |> |>.

(** [csrrw x0, satp, x5] is accepted in user mode: the guest's page tables are
    not protected from its own user programs. *)
Example user_mode_writes_satp :
  let c := after 0x18029073 (user_ctx 0x8000000000080000) in
  satp (csr c) = 0x8000000000080000 ∧ priv_mode c = PrivU ∧ pc (regs c) = 0x80000004.
Proof. vm_compute. auto. Qed.

(** [mret] in user mode enters the mode in [MPP]: machine mode after
    [csrrw x0, mstatus, x5]. *)
Example user_mode_becomes_machine :
  let c := after 0x30200073 (after 0x30029073 (user_ctx 0x1800)) in priv_mode c = PrivM.
Proof. vm_compute. reflexivity. Qed.

(** A user-mode load from a page whose entry does not allow user access. *)
Example user_mode_reads_supervisor_page :
  let c := user_ctx 0x1000 in
  let c := c <| bus := demo_tables |> <| csr := (csr c) <| satp := demo_satp |> |> in
  let c' := after 0x0002a303 c in
  Z.testbit (0x40000 * 1024 + 0xcf) 4 = false ∧ pc (regs c') = 0x80000004 ∧ mcause (csr c') = 0.
Proof. vm_compute. auto. Qed.

(** [c.ebreak] reports the address after it, [ebreak] its own. *)
Example c_ebreak_epc :
  mepc (csr (after 0x9002 (user_ctx 0))) = 0x80000002 ∧ mepc (csr (after 0x00100073 (user_ctx 0))) = 0x80000000.
Proof. vm_compute. auto. Qed.

(** [fcvt.wu.s x5, f0, rtz] of 2^31 zero-extends; 32-bit results sign-extend. *)
Example fcvt_wu_zero_extends :
  let c := user_ctx 0 in
  let c := c <| regs := write_f32 0 0x4f000000 (regs c) |> in gpr_read 5 (regs (after 0xc01012d3 c)) = 0x80000000.
Proof. vm_compute. reflexivity. Qed.

(** [fcvt.w.s x5, f0, rtz] of a NaN is 0, not the largest integer. *)
Example fcvt_w_nan_is_zero :
  let c := user_ctx 7 in
  let c := c <| regs := write_f32 0 0x7fc00000 (regs c) |> in gpr_read 5 (regs (after 0xc00012d3 c)) = 0.
Proof. vm_compute. reflexivity. Qed.

(** [fcvt.w.s x5, f0, rmm] of 2.5 is 2: ties go to even, not away from zero. *)
Example fcvt_rmm_ties_to_even :
  let c := user_ctx 0 in
  let c := c <| regs := write_f32 0 0x40200000 (regs c) |> in gpr_read 5 (regs (after 0xc00042d3 c)) = 2.
Proof. vm_compute. reflexivity. Qed.

(** A CSR instruction retires without being counted; an addition is. *)
Example csr_instruction_not_counted :
  instret (csr (after 0x300022f3 (user_ctx 0))) = 0 ∧ instret (csr (after 0x00128293 (user_ctx 0))) = 1.
Proof. vm_compute. auto. Qed.

(** [c.fld f8, 0(x8)] runs with the floating-point unit off; [fld f0, 0(x0)] is
    an illegal instruction then. *)
Example c_fld_ignores_fs :
  let c := reset_ctx SparseRam.empty in
  mcause (csr (after 0x2000 c)) = 0 ∧ pc (regs (after 0x2000 c)) = 0x80000002 ∧ mcause (csr (after 0x00003007 c)) = 2.
Proof. vm_compute. auto. Qed.
