(* ===== verification/Equiv.v ===== *)
(** Blocks execute like the interpreter.

    The block executor defers the program counter and the retired-instruction
    count and runs decoded operations instead of encodings.  [sync pc n c] is the
    context the interpreter would be in where the block executor is in [c]: the
    pc is [pc] and [n] more instructions have retired.  The simulation below
    relates one decoded operation to one [exec_raw], and a block to the sequence
    of its encodings.  The two run
    in [lockstep]: the same context after every instruction, except that the MMUs
    may have cached different true translations, since the fast paths through host
    pages bypass the TLB.  [caches_true] is what makes the difference
    unobservable, [steady] what is required of a run so that it stays so. *)
From S2P Require Import Prelude Words Wp Trap Gpr Decode Extensions Csr SyscallEntry SystemBus.
From S2P Require Import BusLaws Mmu BlockCache BlockCacheProps Context Float SyscallTrace Execute.
From S2P Require Import CsrProps ExecuteFp Interp BlockDecode BlockExec ValueProps Invariant.
From S2P Require Import BlockInvariant RamLaws MmuProps FastPath.

(** ** What a block is a decoding of *)

Definition decodes (raw : Z) (i : DecodedInsn) : Prop :=
  (ilen i = 2 ∧ is_u16 raw ∧ Z.land raw 3 ≠ 3 ∧ decode_compressed raw = Some (op i))
  ∨ (ilen i = 4 ∧ is_u32 raw ∧ Z.land raw 3 = 3 ∧
     (decode_full raw = Some (op i) ∨ op i = OpFallback raw)).

(** Consecutive encodings from offset [off] to [len]. *)
Inductive encodes : Z -> list Z -> list DecodedInsn -> Z -> Prop :=
| enc_nil off : encodes off [] [] off
| enc_cons off raw raws i l len :
    decodes raw i → pc_off i = off → encodes (off + ilen i) raws l len →
    encodes off (raw :: raws) (i :: l) len.

(** A compressed word access that crosses a page: the block executor splits it
    into bytes, the interpreter reads or writes the word at the translation of
    its first byte. *)
Definition c_word_crosses {B} (i : DecodedInsn) (c : ExecContext B) : bool :=
  match op i with
  | OpLoad Lw _ rs1 imm | OpStore Sw rs1 _ imm =>
      (ilen i =? 2)
      && (0x1000 <? Z.land (wrapping_add64 (gpr_read rs1 (regs c)) (as_u64 imm)) 0xFFF + 4)
  | _ => false
  end.

(** ** Arithmetic the two sides do differently *)

Lemma add_imm a imm : wrapping_add64 a (as_u64 imm) = wrapping_add64 a imm.
Proof. apply wrap_add_r. Qed.

Lemma add_zero a : is_u64 a → wrapping_add64 a 0 = a.
Proof. intros. unfold wrapping_add64. rewrite Z.add_0_r. by apply wrap_id. Qed.

Lemma zero_add a : is_u64 a → wrapping_add64 0 a = a.
Proof. intros. by apply wrap_id. Qed.

Lemma addw_eq a imm :
  as_u64 (as_i32 (wrapping_add64 a (as_u64 imm)))
  = as_u64 (as_i32 (wrapping_add32 (as_u32 a) (as_u32 (as_u64 imm)))).
Proof.
  assert (E : wrap 32 (a + wrap 64 imm) = wrap 32 (a + imm)).
  { rewrite <- wrap_add_r, (wrap_wrap_le 32 64) by lia. apply wrap_add_r. }
  f_equal. unfold as_i32, wrapping_add32, wrapping_add64, as_u32, as_u64.
  rewrite <- (signed_wrap 32 (wrap 64 _)), (wrap_wrap_le 32 64), E by lia.
  rewrite wrap_add_l, wrap_add_r, E. by rewrite !signed_wrap.
Qed.

Lemma c_uimm6_range raw : 0 <= c_uimm6 raw < 64.
Proof.
  split; [apply c_uimm6_nonneg|]. unfold c_uimm6, bits_at.
  apply (lor_word 6); [lia| |].
  - pose proof (land_ones_range (Z.shiftr raw 12) 1 ltac:(lia)) as H. change (Z.ones 1) with 1 in H.
    rewrite Z.shiftl_mul_pow2 by lia. unfold is_word. lia.
  - apply (is_word_mono 5); [lia|]. apply land_word_r; [lia | done].
Qed.

Lemma c_shamt raw : Z.land (as_u64 (c_uimm6 raw)) 0x3f = c_uimm6 raw.
Proof.
  pose proof (c_uimm6_range raw). unfold as_u64. rewrite wrap_id by (unfold is_word; lia).
  change 0x3f with (Z.ones 6). rewrite Z.land_ones by lia. apply Z.mod_small. lia.
Qed.

Lemma add_pending x n : wrapping_add64 (wrapping_add64 x n) 1 = wrapping_add64 x (n + 1).
Proof. unfold wrapping_add64, as_u64. rewrite wrap_add_l. f_equal. lia. Qed.

(** ** The simulation *)

Section Sim.
Context {B : Type} {SB : SystemBus B} {HM : HostMemory B} {FE : FloatEnv} {D : Prop}
  {BL : BusLaws B D}.
Context {RL : RamLaws B}.

Definition sync (p n : Z) (c : ExecContext B) : ExecContext B :=
  c <| regs := (regs c) <| pc := p |> |>
    <| csr := (csr c) <| instret := wrapping_add64 (instret (csr c)) n |> |>.

(** The MMU's caches tell the truth: what they answer for [satp] is what the page
    tables say, and the host pages they hold are pages of memory, those for
    stores without cached code. *)
Definition caches_true (satp : Z) (c : ExecContext B) : Prop :=
  coherent satp (mmu c) (bus c) ∧ store_coherent satp (mmu c) (bus c) (blocks c) ∧ ram_ok (bus c).

(** No host page is ever handed out for the address (a device's registers). *)
Definition never_paged (pa : Z) : Prop :=
  ∀ b : B, (∀ q, ¬ load_page b pa q ∧ ¬ store_page b pa q) ∧ ram_store_page pa b = Some (None, b).
Definition plain_target (b : B) (pa : Z) : Prop := in_ram b pa ∨ never_paged pa.

(** The address of a load or store leads to memory or to a device. *)
Definition targets_ok (satp : Z) (i : DecodedInsn) (c : ExecContext B) : Prop :=
  match op i with
  | OpLoad _ _ rs1 imm =>
      ∀ pa, pt_translate (bus c) satp (wrapping_add64 (gpr_read rs1 (regs c)) (as_u64 imm)) false false = Some pa →
            plain_target (bus c) pa
  | OpStore _ rs1 _ imm =>
      ∀ pa, pt_translate (bus c) satp (wrapping_add64 (gpr_read rs1 (regs c)) (as_u64 imm)) true false = Some pa →
            plain_target (bus c) pa
  | _ => True
  end.

(** The interpreter's context [ci] after an instruction executed from [c0] and the
    executor's [c']: the same in everything but what the MMU has cached, and the
    interpreter's MMU is the executor's or one that tells the truth as well. *)
Definition same_but_caches (satp : Z) (c0 ci c' : ExecContext B) : Prop :=
  ci = with_mmu (mmu ci) c' ∧
  (mmu ci = mmu c' ∨
   coherent satp (mmu ci) (bus c0) ∧
   (same_tables satp (bus c0) (bus c') → coherent satp (mmu ci) (bus c'))).

Lemma sbc_refl satp c0 c : same_but_caches satp c0 c c.
Proof. split; [by destruct c | by left]. Qed.

(** How one operation of the block relates to the interpreter at the same
    instruction. *)
Definition op_simulated (raw len p pending satp : Z) (c : ExecContext B) (flow : OpFlow)
    (c' : ExecContext B) : Prop :=
  ∃ r ci, exec_raw raw p (sync p pending c) = Some (r, ci) ∧
  match flow with
  | FlowNext => r = StepOk ∧ same_but_caches satp c ci (sync (wrapping_add64 p len) (pending + 1) c') ∧ ctx_satp c' = satp
  | FlowContinue s =>
      r = StepOk ∧ ci = c' ∧ pc (regs c') = wrapping_add64 p len ∧ s = satp ∧ ctx_satp c' = satp
  | FlowReturn _ res => r = res ∧ same_but_caches satp c ci c'
  end.

(** Traps do not look at the retired count. *)
Lemma take_exception_sync cause tval p n c :
  take_exception cause tval (sync p n c)
  = (set_pc p;; take_exception cause tval;; add_instret n) c.
Proof.
  destruct c as [[gx gpc gf] [] m b pm lr ft it id w sh bl]. unfold take_exception, sync, set_pc, add_instret,
    mod_csr, get_csr. run_st. cbn. by case_if.
Qed.

(** *** From [exec_raw] to the arms *)

Lemma exec_raw_full raw p s c' :
  Z.land raw 3 = 3 → exec_full raw p s = Some (StepOk, c') → exec_raw raw p s = Some (StepOk, c').
Proof. intros H E. unfold exec_raw. rewrite H. run_st. cbn. by rewrite E. Qed.

Lemma exec_raw_compressed raw p s c' :
  Z.land raw 3 ≠ 3 → is_u16 raw → exec_compressed raw s = Some (StepOk, c') →
  exec_raw raw p s = Some (StepOk, c').
Proof.
  intros H Hw E. unfold exec_raw. rewrite (proj2 (Z.eqb_neq _ _) H). cbn [negb].
  unfold as_u16. rewrite wrap_id by done. run_st. by rewrite E.
Qed.

(** The arms that write a register and step over the instruction. *)
Definition step_write (r v q : Z) : ST (ExecContext B) StepResult := write_reg r v;; set_pc q;; retire.

Lemma step_write_sync r v q p n c :
  step_write r v q (sync p n c)
  = Some (StepOk, sync q (n + 1) (c <| regs := gpr_write r v (regs c) |>)).
Proof.
  destruct c as [[gx gpc gf] [] m b pm lr ft it id w sh bl]. unfold step_write, retire, write_reg, set_pc,
    add_instret, mod_csr, sync, gpr_write. run_st. cbn. rewrite add_pending. by case_if.
Qed.

Lemma write_m_run r v (c : ExecContext B) :
  reg_ok r → gpr_wf (regs c) → write_m r v c = Some (tt, c <| regs := gpr_write r v (regs c) |>).
Proof. intros. unfold write_m, modify. by rewrite write_masked_write. Qed.

Lemma read_m_run r (c : ExecContext B) : reg_ok r → gpr_wf (regs c) → read_m r c = Some (gpr_read r (regs c), c).
Proof. intros. unfold read_m, gets. by rewrite read_masked_read. Qed.

Lemma read_reg_sync r p n c : read_reg r (sync p n c) = Some (gpr_read r (regs c), sync p n c).
Proof. by destruct c. Qed.

Lemma ctx_satp_regs g (c : ExecContext B) : ctx_satp (c <| regs := g |>) = ctx_satp c.
Proof. by destruct c. Qed.

Lemma ctx_satp_sync p n c : ctx_satp (sync p n c) = ctx_satp c.
Proof. by destruct c. Qed.

(** Operations that write a value. *)
Lemma sim_value raw len p n satp c r v :
  exec_raw raw p (sync p n c) = step_write r v (wrapping_add64 p len) (sync p n c) →
  satp = ctx_satp c →
  op_simulated raw len p n satp c FlowNext (c <| regs := gpr_write r v (regs c) |>).
Proof.
  intros E ->. eexists _, _. split; [by rewrite E, step_write_sync|]. rewrite ctx_satp_regs. auto using sbc_refl.
Qed.

(** Taken jumps: write the link register, set the pc, retire. *)
Lemma sim_jump raw len p n m satp c r v q :
  exec_raw raw p (sync p n c) = step_write r v q (sync p n c) →
  op_simulated raw len p n satp c (FlowReturn m StepOk)
    (sync q (n + 1) (c <| regs := gpr_write r v (regs c) |>)).
Proof. intros E. eexists _, _. split; [by rewrite E, step_write_sync | auto using sbc_refl]. Qed.

(** Writing [x0] does nothing. *)
Lemma write_x0 v g : gpr_write 0 v g = g.
Proof. done. Qed.

Lemma step_only q p n c :
  (set_pc q;; retire) (sync p n c) = step_write 0 0 q (sync p n c).
Proof. by destruct c as [[] ? ? ? ? ? ? ? ? ? ? ?]. Qed.

Lemma jump_end q n m (c : ExecContext B) :
  (set_pc q;; add_instret (n + 1);; mret (FlowReturn m StepOk)) c
  = Some (FlowReturn m StepOk, sync q (n + 1) c).
Proof. by destruct c. Qed.

Lemma full_write raw p n c r v q :
  Z.land raw 3 = 3 → exec_full raw p (sync p n c) = step_write r v q (sync p n c) →
  exec_raw raw p (sync p n c) = step_write r v q (sync p n c).
Proof. intros H E. rewrite step_write_sync in *. by apply exec_raw_full. Qed.

Lemma compressed_write raw p n c r v q :
  Z.land raw 3 ≠ 3 → is_u16 raw →
  exec_compressed raw (sync p n c) = step_write r v q (sync p n c) →
  exec_raw raw p (sync p n c) = step_write r v q (sync p n c).
Proof. intros H Hw E. rewrite step_write_sync in *. by apply exec_raw_compressed. Qed.

(** *** 32-bit encodings *)

(** Dispatch on the opcode. *)
Ltac dispatch Hop :=
  unfold exec_full; run_st; rewrite Hop; reflexivity.

Lemma full_lui raw p s : opcode raw = OP_LUI → exec_full raw p s = exec_lui raw p s.
Proof. intros H. dispatch H. Qed.
Lemma full_auipc raw p s : opcode raw = OP_AUIPC → exec_full raw p s = exec_auipc raw p s.
Proof. intros H. dispatch H. Qed.
Lemma full_jal raw p s : opcode raw = OP_JAL → exec_full raw p s = exec_jal raw p s.
Proof. intros H. dispatch H. Qed.
Lemma full_jalr raw p s : opcode raw = OP_JALR → exec_full raw p s = exec_jalr raw p s.
Proof. intros H. dispatch H. Qed.
Lemma full_branch raw p s : opcode raw = OP_BRANCH → exec_full raw p s = exec_branch raw p s.
Proof. intros H. dispatch H. Qed.
Lemma full_load raw p s : opcode raw = OP_LOAD → exec_full raw p s = exec_load raw p (ctx_satp s) s.
Proof. intros H. dispatch H. Qed.
Lemma full_store raw p s : opcode raw = OP_STORE → exec_full raw p s = exec_store raw p (ctx_satp s) s.
Proof. intros H. dispatch H. Qed.
Lemma full_imm raw p s : opcode raw = OP_IMM → exec_full raw p s = exec_op_imm raw p s.
Proof. intros H. dispatch H. Qed.
Lemma full_imm32 raw p s : opcode raw = OP_IMM32 → exec_full raw p s = exec_op_imm32 raw p s.
Proof. intros H. dispatch H. Qed.
Lemma full_reg raw p s : opcode raw = OP_REG → exec_full raw p s = exec_op_reg raw p s.
Proof. intros H. dispatch H. Qed.
Lemma full_reg32 raw p s : opcode raw = OP_REG32 → exec_full raw p s = exec_op_reg32 raw p s.
Proof. intros H. dispatch H. Qed.

Lemma imm_i_range raw : is_i64 (imm_i raw).
Proof.
  unfold imm_i, is_i64. pose proof (signed_range 32 raw ltac:(lia)) as H. fold (as_i32 raw) in H.
  rewrite Z.shiftr_div_pow2 by lia. change (32 - 1) with 31 in H.
  split; [apply Z.div_le_lower_bound; lia | apply Z.div_lt_upper_bound; lia].
Qed.

Lemma even_land1 t : even t → (Z.land t 1 =? 0) = true.
Proof.
  intros H. apply Z.eqb_eq. change 1 with (Z.ones 1). rewrite Z.land_ones by lia.
  by apply even_mod in H.
Qed.

(** The state of the block after a value operation. *)
Lemma value_op r v flow (c c' : ExecContext B) :
  reg_ok r → gpr_wf (regs c) →
  (write_m r v;; mret FlowNext) c = Some (flow, c') →
  flow = FlowNext ∧ c' = c <| regs := gpr_write r v (regs c) |>.
Proof. intros Hr Hg. run_st. rewrite write_m_run by done. by intros [= <- <-]. Qed.

Lemma regs_eta (c : ExecContext B) : c <| regs := regs c |> = c.
Proof. by destruct c. Qed.

Lemma sim_skip raw len p n satp c :
  exec_raw raw p (sync p n c) = step_write 0 0 (wrapping_add64 p len) (sync p n c) →
  satp = ctx_satp c → op_simulated raw len p n satp c FlowNext c.
Proof.
  intros E Hs. pose proof (sim_value raw len p n satp c 0 0 E Hs) as H. by rewrite write_x0, regs_eta in H.
Qed.

Lemma sim_goto raw len p n m satp c q :
  exec_raw raw p (sync p n c) = step_write 0 0 q (sync p n c) →
  op_simulated raw len p n satp c (FlowReturn m StepOk) (sync q (n + 1) c).
Proof.
  intros E. pose proof (sim_jump raw len p n m satp c 0 0 q E) as H. by rewrite write_x0, regs_eta in H.
Qed.

Lemma link_op r v q n m flow (c c' : ExecContext B) :
  reg_ok r → gpr_wf (regs c) →
  (write_m r v;; set_pc q;; add_instret (n + 1);; mret (FlowReturn m StepOk)) c = Some (flow, c') →
  flow = FlowReturn m StepOk ∧ c' = sync q (n + 1) (c <| regs := gpr_write r v (regs c) |>).
Proof.
  intros Hr Hg. unfold mbind at 1, ST_bind at 1. rewrite write_m_run, jump_end by done. by intros [= <- <-].
Qed.

Lemma goto_op q n m flow (c c' : ExecContext B) :
  (set_pc q;; add_instret (n + 1);; mret (FlowReturn m StepOk)) c = Some (flow, c') →
  flow = FlowReturn m StepOk ∧ c' = sync q (n + 1) c.
Proof. rewrite jump_end. by intros [= <- <-]. Qed.

(** A conditional branch of either width, given what the interpreter does. *)
Lemma sim_branch raw len p n m satp c (taken : bool) off flow c' :
  exec_raw raw p (sync p n c)
  = step_write 0 0 (if taken then wrapping_add64 p (as_u64 off) else wrapping_add64 p len) (sync p n c) →
  satp = ctx_satp c →
  (if taken then set_pc (wrapping_add64 p (as_u64 off));; add_instret (n + 1);; mret (FlowReturn m StepOk)
   else mret FlowNext) c = Some (flow, c') →
  op_simulated raw len p n satp c flow c'.
Proof.
  intros E Hs. destruct taken.
  - intros [-> ->]%goto_op. by apply sim_goto.
  - intros [= <- <-]. by apply sim_skip.
Qed.

(** *** Loads *)

(** A load of either width, as the interpreter performs it. *)
Definition load_arm (satp : Z) (k : LoadKind) (r va q : Z) : ST (ExecContext B) StepResult :=
  v ← on_mmu (raw_load satp va (load_kind_size k));
  match v with
  | Err fault => trap_from_mmu fault
  | Ok v => step_write r (extend_load k v) q
  end.

Definition put_mb (s : Mmu * B) (c : ExecContext B) : ExecContext B :=
  c <| mmu := s.1 |> <| bus := s.2 |>.

Lemma on_mmu_sync {A} (m : ST (Mmu * B) A) p n c :
  on_mmu m (sync p n c)
  = match m (mmu c, bus c) with Some (a, s) => Some (a, sync p n (put_mb s c)) | None => None end.
Proof. destruct c. unfold on_mmu, zoom. cbn. by destruct (m _) as [[a s]|]. Qed.

Lemma on_mmu_run {A} (m : ST (Mmu * B) A) c :
  on_mmu m c = match m (mmu c, bus c) with Some (a, s) => Some (a, put_mb s c) | None => None end.
Proof. done. Qed.

Lemma put_mb_satp s c : ctx_satp (put_mb s c) = ctx_satp c.
Proof. by destruct c. Qed.

(** A load that finds a host page reads the memory the tables lead to. *)
Lemma load_hit c satp k va p q :
  caches_true satp c → is_u64 va →
  (∀ pa, pt_translate (bus c) satp va false false = Some pa → plain_target (bus c) pa) →
  Z.land va 0xfff + Z.of_nat (load_kind_size k) <= 0x1000 →
  load_fast_lookup va satp (ram_epoch (bus c)) (mmu c) = Some q →
  ∃ v m, do_load satp k va p c = Some (Ok (extend_load k v), c) ∧
         raw_load satp va (load_kind_size k) (mmu c, bus c) = Some (Ok v, (m, bus c)) ∧ coherent satp m (bus c).
Proof.
  intros (Hco & _ & Hb) Hva Ht Hf L. pose proof (load_kind_access k) as Hn.
  destruct (co_fast _ _ _ Hco _ _ L Hva) as (pa & Hpa & Hq).
  destruct (pt_translate_u64 _ _ _ _ _ _ Hva Hpa) as [Hw Ho].
  assert (Hin : in_ram (bus c) pa) by (destruct (Ht pa Hpa) as [|Hnv]; [done|]; by destruct (proj1 (Hnv (bus c)) q)).
  assert (Hfp : fits_page pa (load_kind_size k)) by (unfold fits_page; by rewrite Ho).
  destruct (rl_read (load_kind_size k) pa (bus c) Hb Hn Hw Hfp Hin) as (v & E & _).
  destruct (translate_load_coherent satp (mmu c) (bus c) va Hco Hb Hva) as (m & Et & Hm & _). rewrite Hpa in Et.
  exists v, m. split; [|split; [|done]].
  - unfold do_load. unfold mbind at 1, ST_bind at 1, st_get. cbv zeta. rewrite (proj2 (Z.leb_le _ _) Hf), L.
    unfold mbind at 1, ST_bind at 1, on_bus, zoom. rewrite <- Ho, rl_host_load, E by done. by destruct c.
  - unfold raw_load. cbv zeta. rewrite (proj2 (Z.ltb_ge _ _) Hf). run_st. rewrite Et. cbn.
    unfold mb_bus, zoom. cbn. by rewrite E.
Qed.

Lemma load_cases c satp k va p :
  caches_true satp c → is_u64 va →
  (∀ pa, pt_translate (bus c) satp va false false = Some pa → plain_target (bus c) pa) →
  do_load satp k va p c = do_load_slow satp k va (load_kind_size k) p c ∨
  ∃ v m, do_load satp k va p c = Some (Ok (extend_load k v), c) ∧
         raw_load satp va (load_kind_size k) (mmu c, bus c) = Some (Ok v, (m, bus c)) ∧ coherent satp m (bus c).
Proof.
  intros Hc Hva Ht. pose proof (load_hit c satp k va p) as Hh. unfold do_load at 1.
  unfold mbind at 1, ST_bind at 1, st_get. cbv zeta.
  destruct (Z.leb_spec (Z.land va 0xfff + Z.of_nat (load_kind_size k)) 0x1000); [|by left].
  destruct (load_fast_lookup va satp _ _) as [q|] eqn:L; [right; by apply (Hh q) | by left].
Qed.

Definition retired (n : Z) (c : ExecContext B) : ExecContext B :=
  c <| csr := (csr c) <| instret := wrapping_add64 (instret (csr c)) n |> |>.

(** Faults: the block records the pc, traps, and adds what retired before. *)
Lemma fault_sync fault p n c :
  ∃ cb, block_fault fault p c = Some (tt, cb) ∧
        trap_from_mmu fault (sync p n c) = Some (StepOk, retired n cb).
Proof.
  unfold trap_from_mmu, block_fault.
  destruct c as [[gx gpc gf] [] mm b pm lr ft it id w sh bl]. unfold take_exception, sync, set_pc,
    add_instret, mod_csr, get_csr. run_st. cbn. case_if; eexists; split; reflexivity.
Qed.

Lemma sim_load raw len p n m satp c k r va flow c' :
  (∀ ci, load_arm satp k r va (wrapping_add64 p len) (sync p n c) = Some (StepOk, ci) →
         exec_raw raw p (sync p n c) = Some (StepOk, ci)) →
  ctx_wf c → is_u64 va → reg_ok r → satp = ctx_satp c → caches_true satp c →
  (∀ pa, pt_translate (bus c) satp va false false = Some pa → plain_target (bus c) pa) →
  (v ← do_load satp k va p;
   match v with
   | Ok v => write_m r v;; mret FlowNext
   | Err _ => add_instret n;; mret (FlowReturn m StepOk)
   end) c = Some (flow, c') →
  op_simulated raw len p n satp c flow c'.
Proof.
  intros Hraw Hc Hva Hr Hs Hct Ht. unfold mbind at 1, ST_bind at 1.
  unfold load_arm, mbind at 1, ST_bind at 1 in Hraw. rewrite on_mmu_sync in Hraw.
  destruct (load_cases c satp k va p Hct Hva Ht) as [->|(v & m1 & -> & E & Hm)].
  - unfold do_load_slow, mbind at 1, ST_bind at 1. rewrite on_mmu_run.
    destruct (raw_load satp va (load_kind_size k) (mmu c, bus c)) as [[[v|f] s]|] eqn:E; [| |done].
    + rewrite step_write_sync in Hraw. specialize (Hraw _ eq_refl).
      intros [-> ->]%value_op; [|done|apply Hc]. eexists _, _. split; [exact Hraw|].
      rewrite ctx_satp_regs, put_mb_satp. auto using sbc_refl.
    + destruct (fault_sync f p n (put_mb s c)) as (cb & Eb & Et). rewrite Et in Hraw.
      specialize (Hraw _ eq_refl). unfold mbind at 1, ST_bind at 1. rewrite Eb. intros [= <- <-].
      eexists _, _. split; [done|]. auto using sbc_refl.
  - rewrite E, step_write_sync in Hraw. specialize (Hraw _ eq_refl).
    intros [-> ->]%value_op; [|done|apply Hc]. eexists _, _. split; [exact Hraw|].
    rewrite ctx_satp_regs. split; [done|]. split; [|done]. split; [by destruct c|]. right. by destruct c.
Qed.

(** The interpreter's loads are [load_arm]. *)
Lemma decode_load_size f3 k :
  decode_load_kind f3 = Some k → load_size f3 = Some (Z.of_nat (load_kind_size k)).
Proof.
  unfold decode_load_kind, load_size, FUNCT3_LB, FUNCT3_LH, FUNCT3_LW, FUNCT3_LD, FUNCT3_LBU, FUNCT3_LHU,
    FUNCT3_LWU.
  destruct (Z.eqb_spec f3 0) as [->|]; [by intros [= <-]|].
  destruct (Z.eqb_spec f3 1) as [->|]; [by intros [= <-]|].
  destruct (Z.eqb_spec f3 2) as [->|]; [by intros [= <-]|].
  destruct (Z.eqb_spec f3 3) as [->|]; [by intros [= <-]|].
  destruct (Z.eqb_spec f3 4) as [->|]; [by intros [= <-]|].
  destruct (Z.eqb_spec f3 5) as [->|]; [by intros [= <-]|].
  destruct (Z.eqb_spec f3 6) as [->|]; [by intros [= <-] | done].
Qed.

Lemma bytes_narrow bs w : Forall is_u8 bs → 8 * Z.of_nat (length bs) = w → wrap w (from_le_bytes bs) = from_le_bytes bs.
Proof. intros Hb <-. apply wrap_id. by apply from_le_bytes_range. Qed.

Lemma buffer_extend f3 k bs :
  decode_load_kind f3 = Some k → Forall is_u8 bs → length bs = load_kind_size k → (1 < load_kind_size k)%nat →
  load_buffer_value f3 bs = Some (extend_load k (from_le_bytes (bs ++ replicate (8 - load_kind_size k) 0))).
Proof.
  intros Hk Hb Hl H1. rewrite from_le_bytes_zeros. revert Hk.
  unfold decode_load_kind, load_buffer_value, FUNCT3_LH, FUNCT3_LW, FUNCT3_LD, FUNCT3_LHU, FUNCT3_LWU.
  destruct (Z.eqb_spec f3 0) as [->|]; [intros [= <-]; cbn in H1; lia|].
  destruct (Z.eqb_spec f3 1) as [->|];
    [intros [= <-]; cbn in *; rewrite take_ge by lia; unfold as_i16, as_u16; by rewrite signed_wrap|].
  destruct (Z.eqb_spec f3 2) as [->|];
    [intros [= <-]; cbn in *; rewrite take_ge by lia; unfold as_i32, as_u32; by rewrite signed_wrap|].
  destruct (Z.eqb_spec f3 3) as [->|]; [intros [= <-]; cbn in *; by rewrite take_ge by lia|].
  destruct (Z.eqb_spec f3 4) as [->|]; [intros [= <-]; cbn in H1; lia|].
  destruct (Z.eqb_spec f3 5) as [->|];
    [intros [= <-]; cbn in *; rewrite take_ge by lia; unfold as_u16; by rewrite bytes_narrow by (done || lia)|].
  destruct (Z.eqb_spec f3 6) as [->|]; [|done].
  intros [= <-]; cbn in *; rewrite take_ge by lia; unfold as_u32; by rewrite bytes_narrow by (done || lia).
Qed.

(** Reading at a translated address. *)
Lemma load_direct_size f3 k pa p n c :
  decode_load_kind f3 = Some k → is_u64 pa → bus_ok (bus c) →
  load_direct f3 pa (sync p n c)
  = match read_size (load_kind_size k) pa (bus c) with
    | Some (v, b) => Some (extend_load k v, sync p n (put_mb (mmu c, b) c))
    | None => None
    end.
Proof.
  intros Hk Hpa Hb. revert Hk.
  pose proof (bl_read_byte pa (bus c) Hb Hpa) as R1. pose proof (bl_read_halfword pa (bus c) Hb Hpa) as R2.
  pose proof (bl_read_word pa (bus c) Hb Hpa) as R4. unfold wp in R1, R2, R4.
  unfold decode_load_kind, load_direct, FUNCT3_LB, FUNCT3_LH, FUNCT3_LW, FUNCT3_LD, FUNCT3_LBU, FUNCT3_LHU,
    FUNCT3_LWU.
  destruct (Z.eqb_spec f3 0) as [->|]; [intros [= <-]; run_st; unfold on_bus, zoom; cbn [read_size load_kind_size];
    destruct c; cbn in *; destruct (read_byte pa _) as [[v b]|]; [|done];
    cbn; unfold as_i8, as_u8; by rewrite signed_wrap|].
  destruct (Z.eqb_spec f3 1) as [->|]; [intros [= <-]; run_st; unfold on_bus, zoom; cbn [read_size load_kind_size];
    destruct c; cbn in *; destruct (read_halfword pa _) as [[v b]|]; [|done];
    cbn; unfold as_i16, as_u16; by rewrite signed_wrap|].
  destruct (Z.eqb_spec f3 2) as [->|]; [intros [= <-]; run_st; unfold on_bus, zoom; cbn [read_size load_kind_size];
    destruct c; cbn in *; destruct (read_word pa _) as [[v b]|]; [|done];
    cbn; unfold as_i32, as_u32; by rewrite signed_wrap|].
  destruct (Z.eqb_spec f3 3) as [->|]; [intros [= <-]; run_st; unfold on_bus, zoom; cbn [read_size load_kind_size];
    destruct c; cbn in *; by destruct (read_doubleword pa _) as [[v b]|]|].
  destruct (Z.eqb_spec f3 4) as [->|]; [intros [= <-]; unfold on_bus, zoom; cbn [read_size load_kind_size];
    destruct c; cbn in *; destruct (read_byte pa _) as [[v b]|]; [|done];
    cbn; unfold as_u8; rewrite wrap_id by tauto; done|].
  destruct (Z.eqb_spec f3 5) as [->|]; [intros [= <-]; unfold on_bus, zoom; cbn [read_size load_kind_size];
    destruct c; cbn in *; destruct (read_halfword pa _) as [[v b]|]; [|done];
    cbn; unfold as_u16; rewrite wrap_id by tauto; done|].
  destruct (Z.eqb_spec f3 6) as [->|]; [|done].
  intros [= <-]; unfold on_bus, zoom; cbn [read_size load_kind_size];
    destruct c; cbn in *; destruct (read_word pa _) as [[v b]|]; [|done];
    cbn; unfold as_u32; rewrite wrap_id by tauto; done.
Qed.

Lemma mb_wf_ctx (c : ExecContext B) : ctx_wf c → mb_wf (mmu c, bus c).
Proof. intros []. by split. Qed.

Lemma exec_load_arm raw k p n satp c :
  decode_load_kind (funct3 raw) = Some k → ctx_wf c →
  exec_load raw p satp (sync p n c)
  = load_arm satp k (rd raw) (wrapping_add64 (gpr_read (rs1 raw) (regs c)) (as_u64 (imm_i raw)))
      (wrapping_add64 p 4) (sync p n c).
Proof.
  intros Hk Hc. unfold exec_load. unfold mbind at 1, ST_bind at 1. rewrite read_reg_sync. cbv zeta.
  set (va := wrapping_add64 _ _). assert (Hva : is_u64 va) by apply wrapping_add64_word.
  rewrite (decode_load_size _ _ Hk). unfold load_arm, raw_load. cbv zeta. case_if.
  - bools. rewrite Nat2Z.id. run_st. rewrite !on_mmu_sync.
    pose proof (load_bytes_keeps (load_kind_size k) 0 va satp _ (mb_wf_ctx c Hc)) as W. unfold wp in W.
    destruct (load_bytes _ _ _ _ _) as [[[bs|f] s]|]; [|done..].
    destruct W as [[Hb Hl] _].
    rewrite (buffer_extend _ k bs Hk Hb Hl); [done|].
    pose proof (offset_in_page va). destruct k; cbn in *; lia.
  - run_st. rewrite !on_mmu_sync.
    pose proof (translate_load_keeps va satp Hva _ (mb_wf_ctx c Hc)) as W. unfold wp in W.
    destruct (translate_load va satp _) as [[[pa|f] [m' b']]|]; [|done..].
    destruct W as [[Hpa _] [_ Hb']].
    rewrite (load_direct_size _ k) by done. unfold mb_bus, zoom. cbn.
    by destruct (read_size _ pa b') as [[v b'']|].
Qed.

(** *** Stores *)

Definition put_st (s : Mmu * B * BlockCache) (c : ExecContext B) : ExecContext B :=
  c <| mmu := s.1.1 |> <| bus := s.1.2 |> <| blocks := s.2 |>.

Lemma on_store_sync {A} (m : ST (Mmu * B * BlockCache) A) p n c :
  on_store m (sync p n c)
  = match m (mmu c, bus c, blocks c) with
    | Some (a, s) => Some (a, sync p n (put_st s c))
    | None => None
    end.
Proof. destruct c. unfold on_store, zoom. cbn. by destruct (m _) as [[a s]|]. Qed.

Lemma on_store_run {A} (m : ST (Mmu * B * BlockCache) A) (c : ExecContext B) :
  on_store m c
  = match m (mmu c, bus c, blocks c) with Some (a, s) => Some (a, put_st s c) | None => None end.
Proof. done. Qed.

Lemma put_st_satp s c : ctx_satp (put_st s c) = ctx_satp c.
Proof. by destruct c. Qed.

(** A store at a translated address, with the interpreter's or the block's write. *)
Definition store_at (satp va : Z) (w : Z -> ST B unit) : ST (Mmu * B * BlockCache) (Result unit MmuFault) :=
  r ← st_mmu (translate_store va satp);
  match r with
  | Err fault => mret (Err fault)
  | Ok pa => st_notify pa;; st_bus (w pa);; mret (Ok tt)
  end.

(** The interpreter's store: the block's without the table of host pages. *)
Definition plain_store (satp va v : Z) (n : nat) : ST (Mmu * B * BlockCache) (Result unit MmuFault) :=
  if 0x1000 <? Z.land va 0xFFF + Z.of_nat n
  then store_bytes (take n (to_le_bytes 8 v)) 0 va satp
  else store_at satp va (fun pa => write_size n pa v).

Definition store_arm (satp : Z) (k : StoreKind) (va v q : Z) : ST (ExecContext B) StepResult :=
  r ← on_store (plain_store satp va v (store_kind_size k));
  match r with
  | Err fault => trap_from_mmu fault
  | Ok _ => step_write 0 0 q
  end.

(** What a store of the block is to the interpreter's. *)
Definition stores_alike (satp : Z) (c : ExecContext B) (s : Mmu * B * BlockCache) (c1 : ExecContext B) : Prop :=
  c1 = put_st (mmu c1, s.1.2, s.2) c ∧
  (mmu c1 = s.1.1 ∨
   coherent satp s.1.1 (bus c) ∧ (same_tables satp (bus c) s.1.2 → coherent satp s.1.1 s.1.2)).

Lemma stores_alike_refl satp c s : stores_alike satp c s (put_st s c).
Proof. split; [by destruct c, s as [[]] | left; by destruct c]. Qed.

Lemma stores_alike_sync satp c s c1 p n :
  stores_alike satp c s c1 → same_but_caches satp c (sync p n (put_st s c)) (sync p n c1).
Proof. intros [-> H]. destruct c, s as [[m b] k]. split; [done|]. cbn in *. destruct H as [->|H]; auto. Qed.

(** After a store inside a page of memory, the fill of the store table leaves the
    MMU the interpreter has coherent. *)
Lemma fill_alike satp c k va pa v m :
  coherent satp m (bus c) → ram_ok (bus c) → is_u64 pa → fits_page pa (store_kind_size k) → is_u64 v →
  plain_target (bus c) pa →
  match write_size (store_kind_size k) pa v (bus c) with
  | Some (_, b') =>
      ∃ m', store_fast_fill (Z.shiftr va 12) satp pa (code_generation (notify_store pa (blocks c))) (m, b')
            = Some (tt, (m', b')) ∧
            stores_alike satp c (m, b', notify_store pa (blocks c)) (put_st (m', b', notify_store pa (blocks c)) c)
  | None => True
  end.
Proof.
  intros Hm Hb Hw Hf Hv Ht. destruct (write_size _ pa v (bus c)) as [[[] b']|] eqn:E; [|done].
  destruct Ht as [Hin|Hnv].
  - destruct (rl_write _ pa v (bus c) Hb (store_kind_access k) Hw Hf Hin Hv) as (b1 & E1 & Hb' & Hpriv & He & _ & Hpg).
    rewrite E in E1. injection E1 as <-.
    destruct (store_fill_coherent satp m b' (notify_store pa (blocks c)) va pa Hb' Hw Hpriv) as (m' & Ef & _).
    exists m'. split; [done|]. split; [by destruct c|]. right. split; [done|]. cbn. intros Hs.
    by apply (coherent_bus _ _ (bus c)).
  - exists m. split; [|by apply stores_alike_refl]. unfold store_fast_fill, mb_bus, zoom. run_st. cbn.
    by rewrite (proj2 (Hnv b')).
Qed.

Lemma slow_store_run c satp va v n p :
  do_store_slow satp va v n p c
  = match raw_store satp va v n (mmu c, bus c, blocks c) with
    | Some (Ok u, s) => Some (Ok u, put_st s c)
    | Some (Err f, s) => (block_fault f p;; mret (Err tt)) (put_st s c)
    | None => None
    end.
Proof.
  unfold do_store_slow. unfold mbind at 1, ST_bind at 1. rewrite on_store_run.
  by destruct (raw_store _ _ _ _ _) as [[[u|f] s]|].
Qed.

Lemma store_slow_alike c satp k va v p :
  caches_true satp c → is_u64 va → is_u64 v →
  (∀ pa, pt_translate (bus c) satp va true false = Some pa → plain_target (bus c) pa) →
  match plain_store satp va v (store_kind_size k) (mmu c, bus c, blocks c) with
  | Some (Ok _, s) =>
      ∃ c1, do_store_slow satp va v (store_kind_size k) p c = Some (Ok tt, c1) ∧ stores_alike satp c s c1
  | Some (Err f, s) =>
      do_store_slow satp va v (store_kind_size k) p c = (block_fault f p;; mret (Err tt)) (put_st s c)
  | None => do_store_slow satp va v (store_kind_size k) p c = None
  end.
Proof.
  intros (Hco & _ & Hb) Hva Hv Ht. rewrite slow_store_run. unfold plain_store, raw_store.
  destruct (Z.ltb_spec 0x1000 (Z.land va 0xFFF + Z.of_nat (store_kind_size k))) as [|Hf].
  { destruct (store_bytes _ _ _ _ _) as [[[[]|f] s]|]; [|done..]. eexists. split; [done | apply stores_alike_refl]. }
  unfold store_at, st_bus, st_mmu. run_st. cbn [fst snd].
  destruct (translate_store_coherent satp (mmu c) (bus c) va Hco Hb Hva) as (m & Et & Hm & _). rewrite Et.
  destruct (pt_translate (bus c) satp va true false) as [pa|] eqn:Ep; cbn [translated]; [|done].
  destruct (pt_translate_u64 _ _ _ _ _ _ Hva Ep) as [Hw Ho].
  assert (Hfp : fits_page pa (store_kind_size k)) by (unfold fits_page; rewrite Ho; lia).
  pose proof (fill_alike satp c k va pa v m Hm Hb Hw Hfp Hv (Ht pa eq_refl)) as H.
  unfold st_notify, modify, mb_bus, zoom. cbn [fst snd].
  destruct (write_size _ pa v (bus c)) as [[[] b']|]; [|done]. cbn [fst snd]. destruct H as (m' & Ef & H).
  rewrite Ef. cbn. eauto.
Qed.

Lemma store_hit c satp k va v q :
  caches_true satp c → is_u64 va → is_u64 v →
  (∀ pa, pt_translate (bus c) satp va true false = Some pa → plain_target (bus c) pa) →
  Z.land va 0xfff + Z.of_nat (store_kind_size k) <= 0x1000 →
  store_fast_lookup va satp (ram_epoch (bus c)) (code_generation (blocks c)) (mmu c) = Some q →
  ∃ s c1, plain_store satp va v (store_kind_size k) (mmu c, bus c, blocks c) = Some (Ok tt, s) ∧
    on_bus (host_store q (Z.land va 0xfff) (store_kind_size k) v) c = Some (tt, c1) ∧ stores_alike satp c s c1.
Proof.
  intros (Hco & Hsc & Hb) Hva Hv Ht Hf L. pose proof (store_kind_access k) as Hn.
  destruct (sc_hit _ _ _ _ Hsc va q L Hva) as (pa & Hpa & Hq & Hcode).
  destruct (pt_translate_u64 _ _ _ _ _ _ Hva Hpa) as [Hw Ho].
  assert (Hin : in_ram (bus c) pa) by (destruct (Ht pa Hpa) as [|Hnv]; [done|]; by destruct (proj1 (Hnv (bus c)) q)).
  assert (Hfp : fits_page pa (store_kind_size k)) by (unfold fits_page; by rewrite Ho).
  destruct (rl_write _ pa v (bus c) Hb Hn Hw Hfp Hin Hv) as (b' & E & Hb' & _ & He & _ & Hpg).
  destruct (translate_store_coherent satp (mmu c) (bus c) va Hco Hb Hva) as (m & Et & Hm & _). rewrite Hpa in Et.
  exists (m, b', blocks c), (put_st (mmu c, b', blocks c) c). split; [|split].
  - unfold plain_store. rewrite (proj2 (Z.ltb_ge _ _) Hf). unfold store_at, st_bus, st_mmu, st_notify, modify.
    run_st. cbn [fst snd]. rewrite Et. cbn. unfold mb_bus, zoom. cbn. by rewrite E, notify_store_none.
  - unfold on_bus, zoom. rewrite <- Ho, (rl_host_store _ pa q v), E by done. by destruct c.
  - split; [by destruct c|]. right. split; [done|]. cbn. intros Hs. by apply (coherent_bus _ _ (bus c)).
Qed.

Lemma store_cases c satp k va v p :
  caches_true satp c → is_u64 va → is_u64 v →
  (∀ pa, pt_translate (bus c) satp va true false = Some pa → plain_target (bus c) pa) →
  match plain_store satp va v (store_kind_size k) (mmu c, bus c, blocks c) with
  | Some (Ok _, s) => ∃ c1, do_store satp k va v p c = Some (Ok tt, c1) ∧ stores_alike satp c s c1
  | Some (Err f, s) => do_store satp k va v p c = (block_fault f p;; mret (Err tt)) (put_st s c)
  | None => do_store satp k va v p c = None
  end.
Proof.
  intros Hc Hva Hv Ht. pose proof (store_slow_alike c satp k va v p Hc Hva Hv Ht) as Hslow.
  assert (E : do_store satp k va v p c
    = match (if Z.land va 0xfff + Z.of_nat (store_kind_size k) <=? 0x1000
             then store_fast_lookup va satp (ram_epoch (bus c)) (code_generation (blocks c)) (mmu c) else None) with
      | Some q => (on_bus (host_store q (Z.land va 0xfff) (store_kind_size k) v);; mret (Ok tt)) c
      | None => do_store_slow satp va v (store_kind_size k) p c
      end).
  { unfold do_store. unfold mbind at 1, ST_bind at 1, st_get. cbv zeta. by destruct (if _ <=? _ then _ else _). }
  rewrite E. clear E.
  destruct (Z.leb_spec (Z.land va 0xfff + Z.of_nat (store_kind_size k)) 0x1000) as [Hf|]; [|exact Hslow].
  destruct (store_fast_lookup va satp _ _ _) as [q|] eqn:L; [|exact Hslow].
  destruct (store_hit c satp k va v q Hc Hva Hv Ht Hf L) as (s & c1 & -> & E & H). exists c1.
  by rewrite (bind_run _ _ _ _ _ E).
Qed.

Lemma sim_store raw len p n m satp c k va v flow c' :
  (∀ ci, store_arm satp k va v (wrapping_add64 p len) (sync p n c) = Some (StepOk, ci) →
         exec_raw raw p (sync p n c) = Some (StepOk, ci)) →
  ctx_wf c → is_u64 va → is_u64 v → satp = ctx_satp c → caches_true satp c →
  (∀ pa, pt_translate (bus c) satp va true false = Some pa → plain_target (bus c) pa) →
  (r ← do_store satp k va v p;
   match r with
   | Ok _ => mret FlowNext
   | Err _ => add_instret n;; mret (FlowReturn m StepOk)
   end) c = Some (flow, c') →
  op_simulated raw len p n satp c flow c'.
Proof.
  intros Hraw Hc Hva Hv Hs Hct Ht. pose proof (store_cases c satp k va v p Hct Hva Hv Ht) as H.
  unfold mbind at 1, ST_bind at 1. unfold store_arm, mbind at 1, ST_bind at 1 in Hraw. rewrite on_store_sync in Hraw.
  destruct (plain_store satp va v (store_kind_size k) _) as [[[u|f] s]|] eqn:E; [| |by rewrite H].
  - destruct H as (c1 & -> & H). rewrite step_write_sync, write_x0, regs_eta in Hraw. specialize (Hraw _ eq_refl).
    intros [= <- <-]. eexists _, _. split; [exact Hraw|]. split; [done|]. split; [by apply stores_alike_sync|].
    destruct H as [-> _]. by rewrite put_st_satp.
  - rewrite H. destruct (fault_sync f p n (put_st s c)) as (cb & Eb & Et). rewrite Et in Hraw.
    specialize (Hraw _ eq_refl). unfold mbind at 1, ST_bind at 1. rewrite Eb. intros [= <- <-].
    eexists _, _. split; [done|]. auto using sbc_refl.
Qed.

Lemma decode_store_direct f3 k pa v :
  decode_store_kind f3 = Some k →
  store_size f3 = Some (Z.of_nat (store_kind_size k)) ∧ store_direct f3 pa v = write_size (store_kind_size k) pa v.
Proof.
  unfold decode_store_kind, store_size, store_direct, FUNCT3_SB, FUNCT3_SH, FUNCT3_SW, FUNCT3_SD.
  destruct (Z.eqb_spec f3 0) as [->|]; [by intros [= <-]|].
  destruct (Z.eqb_spec f3 1) as [->|]; [by intros [= <-]|].
  destruct (Z.eqb_spec f3 2) as [->|]; [by intros [= <-]|].
  destruct (Z.eqb_spec f3 3) as [->|]; [by intros [= <-] | done].
Qed.

Lemma exec_store_arm raw k p n satp c :
  decode_store_kind (funct3 raw) = Some k →
  exec_store raw p satp (sync p n c)
  = store_arm satp k (wrapping_add64 (gpr_read (rs1 raw) (regs c)) (as_u64 (imm_s raw)))
      (gpr_read (rs2 raw) (regs c)) (wrapping_add64 p 4) (sync p n c).
Proof.
  intros Hk. unfold exec_store. unfold mbind at 1, ST_bind at 1. rewrite read_reg_sync.
  unfold mbind at 1, ST_bind at 1. rewrite read_reg_sync. cbv zeta.
  set (v := gpr_read (rs2 raw) _).
  rewrite (proj1 (decode_store_direct _ k 0 0 Hk)). unfold store_arm. run_st.
  rewrite !on_store_sync. unfold plain_store. rewrite Nat2Z.id.
  case_if; [destruct (store_bytes _ _ _ _ _) as [[[u|f] s]|]; [apply step_only | done..]|].
  unfold store_at, st_bus, st_mmu. run_st. cbn [fst snd].
  set (vaddr := wrapping_add64 (gpr_read (rs1 raw) _) _).
  destruct (translate_store vaddr satp _) as [[[pa|f] t]|]; [|done..].
  rewrite (proj2 (decode_store_direct _ k pa v Hk)).
  match goal with |- context [st_notify pa ?z] => destruct (st_notify pa z) as [[[] z']|]; [|done] end.
  cbn [fst snd]. destruct (mb_bus _ _) as [[u t']|]; [apply step_only | done].
Qed.

(** *** Every 32-bit operation *)

(** The shapes [decode_full] produces, with the opcode each comes from. *)
Inductive full_decoding (raw : Z) : Op -> Prop :=
| fd_lui : opcode raw = OP_LUI → full_decoding raw (OpLui (rd raw) (imm_u raw))
| fd_auipc : opcode raw = OP_AUIPC → full_decoding raw (OpAuipc (rd raw) (imm_u raw))
| fd_jal : opcode raw = OP_JAL → full_decoding raw (OpJal (rd raw) (imm_j raw))
| fd_jalr : opcode raw = OP_JALR → full_decoding raw (OpJalr (rd raw) (rs1 raw) (imm_i raw))
| fd_branch k :
    opcode raw = OP_BRANCH → decode_branch_kind (funct3 raw) = Some k →
    full_decoding raw (OpBranch k (rs1 raw) (rs2 raw) (imm_b raw))
| fd_load k :
    opcode raw = OP_LOAD → decode_load_kind (funct3 raw) = Some k →
    full_decoding raw (OpLoad k (rd raw) (rs1 raw) (imm_i raw))
| fd_store k :
    opcode raw = OP_STORE → decode_store_kind (funct3 raw) = Some k →
    full_decoding raw (OpStore k (rs1 raw) (rs2 raw) (imm_s raw))
| fd_imm k imm :
    opcode raw = OP_IMM → decode_op_imm (funct3 raw) (funct7 raw) (imm_i raw) = Some (k, imm) →
    full_decoding raw (OpAluImm k (rd raw) (rs1 raw) imm)
| fd_imm32 k imm :
    opcode raw = OP_IMM32 → decode_op_imm32 (funct3 raw) (funct7 raw) (imm_i raw) = Some (k, imm) →
    full_decoding raw (OpAluImm k (rd raw) (rs1 raw) imm)
| fd_reg k :
    opcode raw = OP_REG → decode_op_reg (funct3 raw) (funct7 raw) = Some k →
    full_decoding raw (OpAluReg k (rd raw) (rs1 raw) (rs2 raw))
| fd_reg32 k :
    opcode raw = OP_REG32 → decode_op_reg32 (funct3 raw) (funct7 raw) (rs2 raw) = Some k →
    full_decoding raw (OpAluReg k (rd raw) (rs1 raw) (rs2 raw)).

Lemma decode_full_inv raw o : decode_full raw = Some o → full_decoding raw o.
Proof.
  unfold decode_full. cbv zeta.
  destruct (Z.eqb_spec (opcode raw) OP_LUI); [intros [= <-]; by constructor|].
  destruct (Z.eqb_spec (opcode raw) OP_AUIPC); [intros [= <-]; by constructor|].
  destruct (Z.eqb_spec (opcode raw) OP_JAL); [intros [= <-]; by constructor|].
  destruct (Z.eqb_spec (opcode raw) OP_JALR) as [Hop|_]; cbn [andb].
  { case_if; [intros [= <-]; by constructor | by rewrite Hop]. }
  destruct (Z.eqb_spec (opcode raw) OP_BRANCH); [intros (k & ? & [= <-])%bind_Some; by constructor|].
  destruct (Z.eqb_spec (opcode raw) OP_LOAD); [intros (k & ? & [= <-])%bind_Some; by constructor|].
  destruct (Z.eqb_spec (opcode raw) OP_STORE); [intros (k & ? & [= <-])%bind_Some; by constructor|].
  destruct (Z.eqb_spec (opcode raw) OP_IMM); [intros ([k imm] & ? & [= <-])%bind_Some; by constructor|].
  destruct (Z.eqb_spec (opcode raw) OP_IMM32); [intros ([k imm] & ? & [= <-])%bind_Some; by constructor|].
  destruct (Z.eqb_spec (opcode raw) OP_REG); [intros (k & ? & [= <-])%bind_Some; by constructor|].
  destruct (Z.eqb_spec (opcode raw) OP_REG32); [intros (k & ? & [= <-])%bind_Some; by constructor | done].
Qed.

(** Consume a register read of the block, and one of the interpreter. *)
Ltac block_read := unfold mbind at 1, ST_bind at 1; rewrite read_m_run by (done || tauto).
Ltac interp_read := unfold mbind at 1, ST_bind at 1; rewrite read_reg_sync.

Lemma full_sim raw o off p ret n satp c flow c' :
  Z.land raw 3 = 3 → decode_full raw = Some o → even p → ctx_wf c → satp = ctx_satp c →
  caches_true satp c → targets_ok satp (mkInsn o off 4) c →
  exec_op (mkInsn o off 4) p ret n satp c = Some (flow, c') → op_simulated raw 4 p n satp c flow c'.
Proof.
  intros H3 Hd He Hc Hs Hct Ht. pose proof (decode_full_wf _ _ Hd) as Hw.
  assert (Hg : gpr_wf (regs c)) by apply Hc. unfold exec_op. cbn [op ilen].
  destruct (decode_full_inv _ _ Hd) as [Hop|Hop|Hop|Hop|k Hop Hk|k Hop Hk|k Hop Hk|k imm Hop Hk|k imm Hop Hk
    |k Hop Hk|k Hop Hk]; cbn in Hw.
  - intros [-> ->]%value_op; [|done..]. apply sim_value; [|done]. apply full_write; [done|]. by rewrite full_lui.
  - intros [-> ->]%value_op; [|done..]. apply sim_value; [|done]. apply full_write; [done|]. by rewrite full_auipc.
  - intros [-> ->]%link_op; [|tauto..]. apply sim_jump. apply full_write; [done|].
    rewrite full_jal by done. unfold exec_jal. by rewrite even_land1 by auto using even_as_u64 with vpod.
  - block_read. cbv zeta. intros [-> ->]%link_op; [|tauto..]. apply sim_jump. apply full_write; [done|].
    rewrite full_jalr by done. unfold exec_jalr. interp_read. cbv zeta. by rewrite even_land1 by auto with vpod.
  - block_read. block_read. apply sim_branch; [|done]. apply full_write; [done|]. rewrite full_branch by done.
    unfold exec_branch. interp_read. interp_read.
    rewrite (decode_branch_taken _ _ _ _ Hk). destruct (branch_taken _ _ _); [|apply step_only].
    cbv zeta. rewrite even_land1 by auto using even_as_u64 with vpod. apply step_only.
  - block_read. apply sim_load; try tauto; [|apply wrapping_add64_word]. intros ci Ea. apply exec_raw_full; [done|].
    rewrite full_load, ctx_satp_sync, <- Hs by done. by rewrite (exec_load_arm _ k).
  - block_read. block_read. apply sim_store; try tauto; [|apply wrapping_add64_word | apply gpr_read_word, Hc]. intros ci Ea.
    apply exec_raw_full; [done|]. rewrite full_store, ctx_satp_sync, <- Hs by done. by rewrite (exec_store_arm _ k).
  - block_read. intros [-> ->]%value_op; [|tauto..]. apply sim_value; [|done]. apply full_write; [done|].
    rewrite full_imm by done. unfold exec_op_imm. interp_read.
    by rewrite (decode_op_imm_alu _ _ _ _ _ _ (imm_i_range raw) Hk).
  - block_read. intros [-> ->]%value_op; [|tauto..]. apply sim_value; [|done]. apply full_write; [done|].
    rewrite full_imm32 by done. unfold exec_op_imm32. interp_read. by rewrite (decode_op_imm32_alu _ _ _ _ _ _ Hk).
  - block_read. block_read. intros [-> ->]%value_op; [|tauto..]. apply sim_value; [|done].
    apply full_write; [done|]. rewrite full_reg by done. unfold exec_op_reg. interp_read. interp_read.
    by rewrite (decode_op_reg_alu _ _ _ _ _ Hk).
  - block_read. block_read. intros [-> ->]%value_op; [|tauto..]. apply sim_value; [|done].
    apply full_write; [done|]. rewrite full_reg32 by done. unfold exec_op_reg32. interp_read. interp_read.
    by rewrite (decode_op_reg32_alu _ _ _ _ _ _ Hk).
Qed.

(** *** Compressed encodings *)

Lemma funct_shift raw : is_u16 raw → Z.shiftr raw 13 = c_funct3 raw.
Proof.
  intros Hw. unfold c_funct3. change 7 with (Z.ones 3). rewrite Z.land_ones by lia.
  symmetry. apply Z.mod_small. rewrite Z.shiftr_div_pow2 by lia. unfold is_word in Hw.
  split; [apply Z.div_pos; lia | apply Z.div_lt_upper_bound; lia].
Qed.


(** Entry into a quadrant. *)
Lemma compressed_quad raw p n c :
  is_u16 raw →
  exec_compressed raw (sync p n c)
  = (if quadrant raw =? 0 then exec_c0 raw (c_funct3 raw) p (ctx_satp c)
     else if quadrant raw =? 1 then exec_c1 raw (c_funct3 raw) p
     else if quadrant raw =? 2 then exec_c2 raw (c_funct3 raw) p (ctx_satp c)
     else illegal raw) (sync p n c).
Proof.
  intros Hw. unfold exec_compressed. rewrite funct_shift by done. unfold mbind at 1 2, ST_bind at 1 2, gets, get_pc.
  cbn. by rewrite ctx_satp_sync.
Qed.

Lemma c_load_word_arm r va p n satp c :
  (0x1000 <? Z.land va 0xFFF + 4) = false →
  c_load_word r va p satp (sync p n c) = load_arm satp Lw r va (wrapping_add64 p 2) (sync p n c).
Proof.
  intros Hx. unfold c_load_word, load_arm, raw_load. cbv zeta.
  change (Z.of_nat (load_kind_size Lw)) with 4. rewrite Hx. run_st. rewrite !on_mmu_sync.
  destruct (translate_load va satp _) as [[[pa|f] [m' b']]|]; [|done..].
  unfold mb_bus, on_bus, zoom. cbn [read_size load_kind_size put_mb fst snd].
  destruct c; cbn. destruct (read_word pa b') as [[v b'']|]; [|done]. cbn.
  unfold as_i32, as_u32. by rewrite signed_wrap.
Qed.

Lemma c_load_dw_arm r va p n satp c :
  c_load_dw r va p satp (sync p n c) = load_arm satp Ld r va (wrapping_add64 p 2) (sync p n c).
Proof.
  unfold c_load_dw, load_arm, raw_load, cross_page_load_dw, cross_page_load_dw_result. cbv zeta.
  change (Z.of_nat (load_kind_size Ld)) with 8.
  destruct (Z.leb_spec (Z.land va 0xFFF) 0xFF8), (Z.ltb_spec 0x1000 (Z.land va 0xFFF + 8)); try lia.
  - run_st. rewrite !on_mmu_sync.
    destruct (translate_load va satp _) as [[[pa|f] [m' b']]|]; [|by destruct (trap_from_mmu _ _) as [[]|] | done].
    unfold mb_bus, on_bus, zoom. cbn [read_size load_kind_size put_mb fst snd].
    destruct c; cbn. by destruct (read_doubleword pa b') as [[v b'']|].
  - run_st. rewrite !on_mmu_sync. cbn [load_kind_size].
    destruct (load_bytes _ _ _ _ _) as [[[bs|f] s]|]; [|by destruct (trap_from_mmu _ _) as [[]|] | done].
    cbn. by rewrite app_nil_r.
Qed.

Lemma c_store_word_arm va v p n satp c :
  (0x1000 <? Z.land va 0xFFF + 4) = false →
  c_store_word va v p satp (sync p n c) = store_arm satp Sw va v (wrapping_add64 p 2) (sync p n c).
Proof.
  intros Hx. unfold c_store_word, store_arm. run_st. rewrite on_mmu_sync, on_store_sync. unfold plain_store.
  change (Z.of_nat (store_kind_size Sw)) with 4. rewrite Hx.
  unfold store_at, st_mmu, st_bus, st_notify, mod_blocks, modify. run_st. cbn [fst snd].
  destruct (translate_store va satp _) as [[[pa|f] [m' b']]|]; [|done..].
  unfold mb_bus, on_bus, zoom. cbn [write_size store_kind_size fst snd]. destruct c; cbn.
  unfold st_mmu, zoom. cbn. destruct (write_word pa _ b') as [[u b'']|]; [reflexivity | done].
Qed.

Lemma c_store_dw_arm va v p n satp c :
  c_store_dw va v p satp (sync p n c) = store_arm satp Sd va v (wrapping_add64 p 2) (sync p n c).
Proof.
  unfold c_store_dw, store_arm, cross_page_store_dw, cross_page_store_dw_result. run_st.
  rewrite !on_store_sync. unfold plain_store. change (Z.of_nat (store_kind_size Sd)) with 8.
  destruct (Z.leb_spec (Z.land va 0xFFF) 0xFF8), (Z.ltb_spec 0x1000 (Z.land va 0xFFF + 8)); try lia.
  - unfold store_at, st_bus, st_mmu. run_st. cbn [fst snd write_size store_kind_size].
    destruct (translate_store va satp _) as [[[pa|f] t]|]; [|by destruct (trap_from_mmu _ _) as [[]|] | done].
    match goal with |- context [st_notify pa ?z] => destruct (st_notify pa z) as [[[] z']|]; [|done] end.
    cbn [fst snd]. destruct (mb_bus _ _) as [[u t']|]; [apply step_only | done].
  - cbn [store_kind_size]. rewrite take_ge by (by rewrite length_to_le_bytes).
    destruct (store_bytes _ _ _ _ _) as [[[u|f] s]|];
      [apply step_only | by destruct (trap_from_mmu _ _) as [[]|] | done].
Qed.

Section Compressed.
Context (raw off p ret n satp : Z) (c : ExecContext B).
Hypothesis (Hraw : is_u16 raw) (H3 : Z.land raw 3 ≠ 3) (Hc : ctx_wf c) (Hs : satp = ctx_satp c)
  (Hct : caches_true satp c).

Let sim o := ∀ flow c',
  op_wf o → c_word_crosses (mkInsn o off 2) c = false → targets_ok satp (mkInsn o off 2) c →
  exec_op (mkInsn o off 2) p ret n satp c = Some (flow, c') → op_simulated raw 2 p n satp c flow c'.
Let run := exec_compressed raw (sync p n c).
Let reg r := gpr_read r (regs c).

Lemma reg_word r : is_u64 (reg r).
Proof. apply gpr_read_word, Hc. Qed.

Lemma c_sim_lui r imm : run = c_write r (as_u64 imm) p (sync p n c) → sim (OpLui r imm).
Proof.
  intros E flow c' Hw _ _. intros [-> ->]%value_op; [|done|apply Hc]. apply sim_value; [|done].
  by apply compressed_write.
Qed.

Lemma c_sim_imm k r r1 imm : run = c_write r (alu k (reg r1) (as_u64 imm)) p (sync p n c) → sim (OpAluImm k r r1 imm).
Proof.
  intros E flow c' [Hr H1] _ _. unfold exec_op. cbn [op]. unfold mbind at 1, ST_bind at 1.
  rewrite read_m_run by (done || apply Hc). intros [-> ->]%value_op; [|done|apply Hc].
  apply sim_value; [|done]. by apply compressed_write.
Qed.

Lemma c_sim_reg k r r1 r2 : run = c_write r (alu k (reg r1) (reg r2)) p (sync p n c) → sim (OpAluReg k r r1 r2).
Proof.
  intros E flow c' (Hr & H1 & H2) _ _. unfold exec_op. cbn [op].
  unfold mbind at 1, ST_bind at 1. rewrite read_m_run by (done || apply Hc).
  unfold mbind at 1, ST_bind at 1. rewrite read_m_run by (done || apply Hc).
  intros [-> ->]%value_op; [|done|apply Hc]. apply sim_value; [|done]. by apply compressed_write.
Qed.

Lemma c_sim_load k r r1 imm :
  (c_word_crosses (mkInsn (OpLoad k r r1 imm) off 2) c = false →
   run = load_arm satp k r (wrapping_add64 (reg r1) (as_u64 imm)) (wrapping_add64 p 2) (sync p n c)) →
  sim (OpLoad k r r1 imm).
Proof.
  intros E flow c' [Hr H1] Hx Ht. specialize (E Hx). unfold exec_op. cbn [op].
  unfold mbind at 1, ST_bind at 1. rewrite read_m_run by (done || apply Hc).
  apply sim_load; try done; [|apply wrapping_add64_word]. intros ci Ea. apply exec_raw_compressed; [done..|].
  rewrite <- Ea. apply E.
Qed.

Lemma c_sim_store k r1 r2 imm :
  (c_word_crosses (mkInsn (OpStore k r1 r2 imm) off 2) c = false →
   run = store_arm satp k (wrapping_add64 (reg r1) (as_u64 imm)) (reg r2) (wrapping_add64 p 2) (sync p n c)) →
  sim (OpStore k r1 r2 imm).
Proof.
  intros E flow c' [H1 H2] Hx Ht. specialize (E Hx). unfold exec_op. cbn [op].
  unfold mbind at 1, ST_bind at 1. rewrite read_m_run by (done || apply Hc).
  unfold mbind at 1, ST_bind at 1. rewrite read_m_run by (done || apply Hc).
  apply sim_store; try done; [|apply wrapping_add64_word | apply reg_word]. intros ci Ea. apply exec_raw_compressed; [done..|].
  rewrite <- Ea. apply E.
Qed.

Lemma c_sim_jal imm : run = step_write 0 0 (wrapping_add64 p (as_u64 imm)) (sync p n c) → sim (OpJal 0 imm).
Proof.
  intros E flow c' _ _ _. unfold exec_op. cbn [op ilen]. intros [-> ->]%link_op; [|done|apply Hc].
  rewrite write_x0, regs_eta. apply sim_goto. by apply compressed_write.
Qed.

Lemma c_sim_jalr r r1 :
  run = step_write r (wrapping_add64 p 2) (Z.land (reg r1) (not64 1)) (sync p n c) → sim (OpJalr r r1 0).
Proof.
  intros E flow c' [Hr H1] _ _. unfold exec_op. cbn [op ilen].
  unfold mbind at 1, ST_bind at 1. rewrite read_m_run by (done || apply Hc). cbv zeta.
  change (as_u64 0) with 0. rewrite add_zero by apply reg_word.
  intros [-> ->]%link_op; [|done|apply Hc]. apply sim_jump. by apply compressed_write.
Qed.

Lemma c_sim_branch k r1 imm :
  run = step_write 0 0 (if branch_taken k (reg r1) 0 then wrapping_add64 p (as_u64 imm)
                        else wrapping_add64 p 2) (sync p n c) → sim (OpBranch k r1 0 imm).
Proof.
  intros E flow c' (H1 & _ & _) _ _. unfold exec_op. cbn [op].
  unfold mbind at 1, ST_bind at 1. rewrite read_m_run by (done || apply Hc).
  unfold mbind at 1, ST_bind at 1. rewrite read_m_run by (done || apply Hc).
  apply sim_branch; [|done]. by apply compressed_write.
Qed.

(** The interpreter's reads inside a quadrant, and one case of the chains on
    the function code: the block's chain is in the goal, the interpreter's in [E]. *)
Ltac read_in E := unfold mbind at 1, ST_bind at 1 in E; rewrite read_reg_sync in E.
Ltac funct_case v E := destruct (Z.eqb_spec (c_funct3 raw) v).

Lemma c0_sim o : quadrant raw = 0 → decode_c0 raw (c_funct3 raw) = Some o → sim o.
Proof.
  intros Hq. assert (E : run = exec_c0 raw (c_funct3 raw) p (ctx_satp c) (sync p n c)).
  { unfold run. rewrite compressed_quad by done. by rewrite Hq. }
  unfold exec_c0 in E. read_in E. rewrite <- Hs in E. unfold decode_c0. cbv zeta.
  funct_case 0 E.
  { destruct (c_addi4spn_imm raw =? 0); [done|]. intros [= <-]. apply c_sim_imm. rewrite E.
    interp_read. cbn [alu]. by rewrite add_imm. }
  funct_case 2 E.
  { intros [= <-]. apply c_sim_load. cbn. intros Hx. rewrite E. rewrite add_imm in *. by apply c_load_word_arm. }
  funct_case 3 E.
  { intros [= <-]. apply c_sim_load. intros _. rewrite E, add_imm. by apply c_load_dw_arm. }
  funct_case 6 E.
  { intros [= <-]. apply c_sim_store. cbn. intros Hx. rewrite E. interp_read. rewrite add_imm in *.
    by apply c_store_word_arm. }
  funct_case 7 E; [|done].
  intros [= <-]. apply c_sim_store. intros _. rewrite E. interp_read. rewrite add_imm. by apply c_store_dw_arm.
Qed.

Lemma c_alu_sim o :
  run = (a ← read_reg (rs1_prime raw);
         b ← read_reg (rs2_prime raw);
         match c_alu_value raw a b with
         | Some v => c_write (rs1_prime raw) v p
         | None => illegal raw
         end) (sync p n c) →
  decode_c_alu raw = Some o → sim o.
Proof.
  intros E. read_in E. read_in E. fold (reg (rs1_prime raw)) (reg (rs2_prime raw)) in E. revert E.
  unfold decode_c_alu, c_alu_value. cbv zeta.
  case_if; [intros ER [= <-]; apply c_sim_imm; cbn [alu]; by rewrite c_shamt|].
  case_if; [intros ER [= <-]; apply c_sim_imm; cbn [alu]; by rewrite c_shamt|].
  case_if; [intros ER [= <-]; by apply c_sim_imm|].
  repeat (case_if; [intros ER [= <-]; by apply c_sim_reg|]). done.
Qed.

Lemma c1_sim o : quadrant raw = 1 → decode_c1 raw (c_funct3 raw) = Some o → sim o.
Proof.
  intros Hq. assert (E : run = exec_c1 raw (c_funct3 raw) p (sync p n c)).
  { unfold run. rewrite compressed_quad by done. by rewrite Hq. }
  unfold exec_c1 in E. unfold decode_c1. cbv zeta in *.
  funct_case 0 E; [intros [= <-]; read_in E; by apply c_sim_imm|].
  funct_case 1 E; [intros [= <-]; read_in E; rewrite addw_eq in E; by apply c_sim_imm|].
  funct_case 2 E.
  { intros [= <-]. apply c_sim_imm. rewrite E. cbn [alu]. unfold reg.
    change (gpr_read 0 (regs c)) with 0. by rewrite (zero_add (as_u64 _)) by apply as_u64_word. }
  funct_case 3 E.
  { destruct (Z.eqb_spec (c_rd raw) 2); intros [= <-]; [read_in E; by apply c_sim_imm | by apply c_sim_lui]. }
  funct_case 4 E; [by apply c_alu_sim|].
  funct_case 5 E; [intros [= <-]; apply c_sim_jal; rewrite E; apply step_only|].
  intros [= <-]. read_in E. apply c_sim_branch. rewrite E. cbv zeta. fold (reg (rs1_prime raw)).
  funct_case 6 E; cbn [branch_taken]; case_if; apply step_only.
Qed.

Lemma c_jr_mv_add_sim o :
  run = exec_c_jr_mv_add raw p (sync p n c) → decode_c_jr_mv_add raw = Some o → sim o.
Proof.
  intros E. unfold exec_c_jr_mv_add in E. cbv zeta in E. read_in E. read_in E.
  fold (reg (c_rd raw)) (reg (c_rs2 raw)) in E. revert E. unfold decode_c_jr_mv_add. cbv zeta.
  case_if.
  - case_if; intros ER [= <-].
    + apply c_sim_jalr. rewrite ER. apply step_only.
    + apply c_sim_reg. rewrite ER. cbn [alu]. change (reg 0) with 0. by rewrite zero_add by apply reg_word.
  - case_if; [done|]. case_if; intros ER [= <-]; [by apply c_sim_jalr | by apply c_sim_reg].
Qed.

Lemma c2_sim o : quadrant raw = 2 → decode_c2 raw (c_funct3 raw) = Some o → sim o.
Proof.
  intros Hq. assert (E : run = exec_c2 raw (c_funct3 raw) p (ctx_satp c) (sync p n c)).
  { unfold run. rewrite compressed_quad by done. by rewrite Hq. }
  unfold exec_c2 in E. read_in E. rewrite <- Hs in E. unfold decode_c2. cbv zeta in *.
  funct_case 0 E; [intros [= <-]; read_in E; apply c_sim_imm; cbn [alu]; by rewrite c_shamt|].
  funct_case 2 E.
  { intros [= <-]. apply c_sim_load. cbn. intros Hx. rewrite E. rewrite add_imm in *. by apply c_load_word_arm. }
  funct_case 3 E.
  { intros [= <-]. apply c_sim_load. intros _. rewrite E, add_imm. by apply c_load_dw_arm. }
  funct_case 4 E; [by apply c_jr_mv_add_sim|].
  funct_case 6 E.
  { intros [= <-]. apply c_sim_store. cbn. intros Hx. rewrite E. interp_read. rewrite add_imm in *.
    by apply c_store_word_arm. }
  funct_case 7 E; [|done].
  intros [= <-]. apply c_sim_store. intros _. rewrite E. interp_read. rewrite add_imm. by apply c_store_dw_arm.
Qed.

Lemma compressed_sim o : decode_compressed raw = Some o → sim o.
Proof.
  unfold decode_compressed. cbv zeta.
  destruct (Z.eqb_spec (quadrant raw) 0); [by apply c0_sim|].
  destruct (Z.eqb_spec (quadrant raw) 1); [by apply c1_sim|].
  destruct (Z.eqb_spec (quadrant raw) 2); [by apply c2_sim | done].
Qed.

End Compressed.

(** *** Any operation of a block *)

Lemma sync_first {A} (k : ST (ExecContext B) A) p n c : (set_pc p;; add_instret n;; k) c = k (sync p n c).
Proof. by destruct c. Qed.

Lemma fallback_sim raw off len p ret n satp c flow c' :
  satp = ctx_satp c →
  exec_op (mkInsn (OpFallback raw) off len) p ret n satp c = Some (flow, c') →
  op_simulated raw len p n satp c flow c'.
Proof.
  intros Hs. unfold exec_op. cbn [op ilen]. rewrite sync_first. run_st.
  destruct (exec_raw raw p (sync p n c)) as [[r ci]|] eqn:E; [|done]. cbn.
  destruct (bool_decide_reflect (r = StepOk)) as [->|Hr]; cbn; [|intros [= <- <-]; exists r, ci; auto using sbc_refl].
  destruct (Z.eqb_spec (pc (regs ci)) (wrapping_add64 p len)) as [Hp|]; cbn;
    [|intros [= <- <-]; exists StepOk, ci; auto using sbc_refl].
  destruct (is_waiting ci); [intros [= <- <-]; exists StepOk, ci; auto using sbc_refl|].
  destruct (Z.eqb_spec (ctx_satp ci) satp) as [Hsat|]; cbn; intros [= <- <-]; [|exists StepOk, ci; auto using sbc_refl].
  exists StepOk, ci. split; [done|]. by rewrite Hsat.
Qed.

Lemma op_sim raw i p ret n satp c flow c' :
  decodes raw i → op_wf (op i) → even p → ctx_wf c → satp = ctx_satp c → c_word_crosses i c = false →
  caches_true satp c → targets_ok satp i c →
  exec_op i p ret n satp c = Some (flow, c') → op_simulated raw (ilen i) p n satp c flow c'.
Proof.
  destruct i as [o off len]. intros [(Hl & Hw & H3 & Hd)|(Hl & Hw & H3 & [Hd|Hd])]; cbn in *; subst.
  - intros ? ? ? ? ? ? ?. by apply compressed_sim.
  - intros ? ? ? ? ? ? ?. by apply full_sim.
  - intros ? ? ? ? ? ? ?. by apply fallback_sim.
Qed.

(** *** Whole blocks *)

(** The (address, encoding) pairs of a block entered at [entry]. *)
Definition sites (entry : Z) (raws : list Z) (l : list DecodedInsn) : list (Z * Z) :=
  zip (map (fun i => wrapping_add64 entry (pc_off i)) l) raws.

Lemma c_word_crosses_sync i p n c : c_word_crosses i (sync p n c) = c_word_crosses i c.
Proof. by destruct c. Qed.

Lemma sync_at p c : ctx_wf c → pc (regs c) = p → sync p 0 c = c.
Proof.
  intros Hc <-. pose proof (cx_csr _ Hc) as Hcsr. destruct c as [[] [] ? ? ? ? ? ? ? ? ? ?]. unfold sync. cbn in *.
  rewrite add_zero; [done|]. destruct_csr_wf Hcsr. done.
Qed.

(** The interpreter on a sequence of (address, encoding) pairs, each executed where
    the program counter points to it; between two instructions its MMU may be
    exchanged for the executor's ([same_but_caches]). *)
Inductive lockstep (satp : Z) : list (Z * Z) -> ExecContext B -> StepResult -> ExecContext B -> Prop :=
| lock_nil c : lockstep satp [] c StepOk c
| lock_last a raw c r ci c' :
    pc (regs c) = a → exec_raw raw a c = Some (r, ci) → same_but_caches satp c ci c' → lockstep satp [(a, raw)] c r c'
| lock_cons a raw l c ci c1 r c' :
    pc (regs c) = a → exec_raw raw a c = Some (StepOk, ci) → same_but_caches satp c ci c1 →
    lockstep satp l c1 r c' → lockstep satp ((a, raw) :: l) c r c'.

(** After these operations caches that told the truth still do. *)
Definition undisturbed (satp : Z) (i : DecodedInsn) (c c' : ExecContext B) : Prop :=
  match op i with
  | OpLoad k _ rs1 imm =>
      reads_ram (bus c) satp (wrapping_add64 (gpr_read rs1 (regs c)) (as_u64 imm)) (load_kind_size k)
  | OpStore k rs1 _ imm =>
      let va := wrapping_add64 (gpr_read rs1 (regs c)) (as_u64 imm) in
      writes_ram (bus c) satp va ∧ fits_page va (store_kind_size k) ∧ same_tables satp (bus c) (bus c')
  | OpFallback _ => False
  | _ => True
  end.

(** What the rest of a block's run must satisfy: its accesses lead to memory or
    devices, and an operation that disturbs the caches (it accesses a device,
    writes the page tables, or is left to the interpreter) leaves them true. *)
Fixpoint steady (l : list DecodedInsn) (entry ret n satp : Z) (c : ExecContext B) : Prop :=
  match l with
  | [] => True
  | i :: rest =>
      targets_ok satp i c ∧
      match exec_op i (wrapping_add64 entry (pc_off i)) ret n satp c with
      | Some (FlowNext, c') =>
          (undisturbed satp i c c' ∨ caches_true satp c') ∧ steady rest entry (ret + 1) (n + 1) satp c'
      | Some (FlowContinue s, c') => caches_true s c' ∧ steady rest entry (ret + 1) 0 s c'
      | _ => True
      end
  end.

Lemma caches_true_same satp c c' :
  mmu c' = mmu c → bus c' = bus c → blocks c' = blocks c → caches_true satp c → caches_true satp c'.
Proof. intros E1 E2 E3. unfold caches_true. by rewrite E1, E2, E3. Qed.

Lemma value_next r v flow (c c' : ExecContext B) :
  (write_m r v;; mret FlowNext) c = Some (flow, c') → mmu c' = mmu c ∧ bus c' = bus c ∧ blocks c' = blocks c.
Proof. unfold write_m, modify. run_st. intros [= <- <-]. by destruct c. Qed.

Lemma load_next satp k r va p n m flow (c c' : ExecContext B) :
  caches_true satp c → reads_ram (bus c) satp va (load_kind_size k) → is_u64 va →
  (v ← do_load satp k va p;
   match v with
   | Ok v => write_m r v;; mret FlowNext
   | Err _ => add_instret n;; mret (FlowReturn m StepOk)
   end) c = Some (flow, c') → flow = FlowNext → caches_true satp c'.
Proof.
  intros (Hco & Hsc & Hb) Hram Hva. destruct (do_load_spec satp k va p c Hco Hb Hram Hva) as (m' & Hco' & Hs' & E).
  unfold mbind at 1, ST_bind at 1. rewrite E. destruct (load_value _) as [v|f].
  - intros H _. apply value_next in H as (E1 & E2 & E3).
    apply (caches_true_same _ (with_mmu m' c)); [done..|]. split; [done|]. split; [|done].
    by apply (store_coherent_stores _ (mmu c)).
  - unfold mbind at 1, ST_bind at 1. destruct (block_fault f p _) as [[[] c1]|]; [|done]. cbn.
    unfold mbind at 1, ST_bind at 1. destruct (add_instret n c1) as [[[] c2]|]; [|done]. by intros [= <- _].
Qed.

Lemma store_next satp k va v p n m flow (c c' : ExecContext B) :
  caches_true satp c → writes_ram (bus c) satp va → fits_page va (store_kind_size k) →
  same_tables satp (bus c) (bus c') → is_u64 va → is_u64 v →
  (r ← do_store satp k va v p;
   match r with
   | Ok _ => mret FlowNext
   | Err _ => add_instret n;; mret (FlowReturn m StepOk)
   end) c = Some (flow, c') → flow = FlowNext → caches_true satp c'.
Proof.
  intros (Hco & Hsc & Hb) Hram Hf Hsame Hva Hv. pose proof (do_store_spec satp k va v p c Hco Hsc Hb Hva Hf Hv Hram) as H.
  unfold mbind at 1, ST_bind at 1. destruct (pt_translate (bus c) satp va true false) as [pa|] eqn:Ep.
  - destruct H as (c1 & -> & m1 & b1 & Ew & -> & Hd). intros [= _ <-] _.
    destruct (pt_translate_u64 _ _ _ _ _ _ Hva Ep) as [Hw Ho].
    assert (Hfp : fits_page pa (store_kind_size k)) by (unfold fits_page; by rewrite Ho).
    destruct (rl_write _ pa v (bus c) Hb (store_kind_access k) Hw Hfp (Hram pa Ep) Hv) as (b2 & E2 & Hb2 & _).
    rewrite Ew in E2. injection E2 as <-. by destruct (Hd Hsame).
  - destruct H as (m' & -> & _). unfold mbind at 1, ST_bind at 1.
    destruct (block_fault _ p _) as [[[] c1]|]; [|done]. cbn.
    unfold mbind at 1, ST_bind at 1. destruct (add_instret n c1) as [[[] c2]|]; [|done]. by intros [= <- _].
Qed.

Lemma undisturbed_true i p ret n satp (c c' : ExecContext B) :
  op_wf (op i) → ctx_wf c → caches_true satp c → exec_op i p ret n satp c = Some (FlowNext, c') →
  undisturbed satp i c c' → caches_true satp c'.
Proof.
  intros Hw Hc Hct. assert (Hg : gpr_wf (regs c)) by apply Hc. unfold exec_op, undisturbed.
  destruct (op i); cbn in Hw |- *; try done.
  - intros (? & ? & ?)%value_next _. by eapply caches_true_same.
  - intros (? & ? & ?)%value_next _. by eapply caches_true_same.
  - block_read. intros (? & ? & ?)%value_next _. by eapply caches_true_same.
  - block_read. block_read. intros (? & ? & ?)%value_next _. by eapply caches_true_same.
  - block_read. intros E Hr. eapply load_next; eauto. apply wrapping_add64_word.
  - block_read. block_read. intros E (Hr & Hf & Hs). eapply store_next; eauto; [apply wrapping_add64_word|].
    by apply gpr_read_word.
  - block_read. block_read. case_if; [by intros [? _]%goto_op|]. by intros [= <-].
Qed.

(** The interpreter reaches, in the same order, the end of the block's run or an
    access on which the two are known to differ. *)
Definition block_simulated (satp entry : Z) (raws : list Z) (l : list DecodedInsn) (ret m : Z)
    (c : ExecContext B) (res : StepResult) (c' : ExecContext B) : Prop :=
  (∃ k, m = ret + Z.of_nat k ∧ (k <= length l)%nat ∧ lockstep satp (take k (sites entry raws l)) c res c')
  ∨ ∃ k i ci, l !! k = Some i ∧ lockstep satp (take k (sites entry raws l)) c StepOk ci
              ∧ c_word_crosses i ci = true.

Lemma sbc_sync satp p n c ci c' : same_but_caches satp c ci c' → same_but_caches satp (sync p n c) ci c'.
Proof. by destruct c. Qed.

Lemma block_simulated_cons satp entry raws l raw i ret m c ci c1 res c' :
  pc (regs c) = wrapping_add64 entry (pc_off i) →
  exec_raw raw (wrapping_add64 entry (pc_off i)) c = Some (StepOk, ci) → same_but_caches satp c ci c1 →
  block_simulated satp entry raws l (ret + 1) m c1 res c' →
  block_simulated satp entry (raw :: raws) (i :: l) ret m c res c'.
Proof.
  intros Hp E Ha [(k & -> & Hk & H)|(k & j & cj & Hl & H & Hx)].
  - left. exists (S k). split; [lia|]. split; [cbn; lia|]. by apply (lock_cons _ _ _ _ _ ci c1).
  - right. exists (S k), j, cj. split; [done|]. split; [|done]. by apply (lock_cons _ _ _ _ _ ci c1).
Qed.

Lemma exec_ops_sim entry raws off l len satp :
  encodes off raws l len → Forall insn_wf l → is_u64 entry → even entry →
  ∀ ret n c m res c',
    ctx_wf c → satp = ctx_satp c → caches_true satp c → steady l entry ret n satp c →
    exec_ops l entry len ret n satp c = Some ((m, res), c') →
    block_simulated satp entry raws l ret m (sync (wrapping_add64 entry off) n c) res c'.
Proof.
  intros Henc Hwf Hent Heven. induction Henc as [off|off raw raws i l len Hd <- Henc IH];
    intros ret n c m res c' Hc Hs Hct Hst; cbn [exec_ops].
  { rewrite sync_first. intros [= <- <- <-]. left. exists 0%nat. split; [lia|]. split; [done | apply lock_nil]. }
  apply Forall_cons_1 in Hwf as [Hi Hwf]. specialize (IH Hwf). cbv zeta. destruct Hst as [Ht Hst].
  set (p := wrapping_add64 entry (pc_off i)) in *.
  assert (Hp : even p) by (apply even_wrap; [lia|]; by apply even_add; [|apply Hi]).
  assert (Hpc : pc (regs (sync p n c)) = p) by by destruct c as [[] ? ? ? ? ? ? ? ? ? ? ?].
  destruct (c_word_crosses i c) eqn:Hx.
  { intros _. right. exists 0%nat, i, (sync p n c). split; [done|]. split; [apply lock_nil|].
    by rewrite c_word_crosses_sync. }
  unfold mbind at 1, ST_bind at 1. destruct (exec_op i p ret n satp c) as [[flow c1]|] eqn:E; [|done].
  pose proof (op_sim _ _ _ _ _ _ _ _ _ Hd (proj1 Hi) Hp Hc Hs Hx Hct Ht E) as (r & ci & Er & Hf).
  pose proof (wp_elim _ _ _ _ _ (exec_op_keeps i p ret n satp Hi (wrapping_add64_word _ _) Hp c Hc) E) as [Hfl Hc1].
  assert (Hnext : wrapping_add64 p (ilen i) = wrapping_add64 entry (pc_off i + ilen i)).
  { unfold p, wrapping_add64, as_u64. rewrite wrap_add_l. f_equal. lia. }
  destruct flow as [|s|m' r'].
  - destruct Hf as (-> & Ha & Hs'), Hst as [Hk Hst]. intros Hr.
    apply (block_simulated_cons _ _ _ _ _ _ _ _ _ _ _ _ _ Hpc Er (sbc_sync _ _ _ _ _ _ Ha)).
    rewrite Hnext. apply (IH _ _ c1); [done..| |done|done].
    destruct Hk; [|done]. by apply (undisturbed_true i p ret n satp c c1 (proj1 Hi)).
  - destruct Hf as (-> & -> & Hp1 & -> & Hs'), Hst as [Hk Hst]. intros Hr.
    apply (block_simulated_cons _ _ _ _ _ _ _ _ _ _ _ _ _ Hpc Er (sbc_refl _ _ _)).
    rewrite <- (sync_at (wrapping_add64 p (ilen i)) c1) by done. rewrite Hnext. by apply (IH _ _ c1).
  - destruct Hf as [-> Ha], Hfl as [-> _]. intros [= <- <- <-]. left. exists 1%nat.
    split; [done|]. split; [cbn; lia|]. eapply lock_last; [done..|]. by apply sbc_sync.
Qed.
End Sim.

(** ** What the decoder reads *)

Section DecodeSim.
Context {B : Type} {SB : SystemBus B} {HM : HostMemory B} {D : Prop} {BL : BusLaws B D}.

(** The encodings of the instructions in memory from [pa + off] on, by the reads
    of the interpreter's fetch: one halfword, or two when its low bits are 11. *)
Inductive code_at (pa : Z) : Z -> list Z -> B -> B -> Prop :=
| code_nil off b : code_at pa off [] b b
| code_short off lo raws b b1 b2 :
    read_halfword (wrapping_add64 pa off) b = Some (lo, b1) → Z.land lo 3 ≠ 3 →
    code_at pa (off + 2) raws b1 b2 → code_at pa off (lo :: raws) b b2
| code_full off lo hi raws b b1 b2 b3 :
    read_halfword (wrapping_add64 pa off) b = Some (lo, b1) → Z.land lo 3 = 3 →
    read_halfword (wrapping_add64 (wrapping_add64 pa off) 2) b1 = Some (hi, b2) →
    code_at pa (off + 4) raws b2 b3 → code_at pa off (Z.lor lo (shl32 hi 16) :: raws) b b3.

Lemma decode_at_sim pa off page_end b o len b' :
  bus_ok b → decode_at pa off page_end b = Some (Some (o, len), b') →
  bus_ok b' ∧ ∃ raw, decodes raw (mkInsn o off len) ∧
    ∀ raws b2, code_at pa (off + len) raws b' b2 → code_at pa off (raw :: raws) b b2.
Proof.
  intros Hb. unfold decode_at. run_st.
  pose proof (bl_read_halfword _ b Hb (wrapping_add64_word pa off)) as W. unfold wp in W.
  destruct (read_halfword (wrapping_add64 pa off) b) as [[lo b1]|] eqn:Elo; [|done].
  destruct W as (Hlo & Hb1 & _). unfold as_u16. rewrite wrap_id by done.
  destruct (Z.eqb_spec (Z.land lo 3) 3) as [H3|H3]; cbn [negb].
  - case_if; [done|].
    pose proof (bl_read_halfword _ b1 Hb1 (wrapping_add64_word (wrapping_add64 pa off) 2)) as W. unfold wp in W.
    destruct (read_halfword (wrapping_add64 _ 2) b1) as [[hi b2]|] eqn:Ehi; [|done].
    destruct W as (Hhi & Hb2 & _). destruct (join_halves lo hi Hlo Hhi H3) as [Hw H3'].
    set (raw := Z.lor lo (shl32 hi 16)) in *.
    assert (Hcode : ∀ raws b3, code_at pa (off + 4) raws b2 b3 → code_at pa off (raw :: raws) b b3)
      by (intros; by eapply code_full).
    destruct (decode_full raw) as [o'|] eqn:Ed.
    + intros [= <- <- <-]. split; [done|]. exists raw. split; [right; by auto | done].
    + case_if; [done|]. intros [= <- <- <-]. split; [done|]. exists raw. split; [right; by auto | done].
  - destruct (decode_compressed lo) as [o'|] eqn:Ed; [|done]. intros [= <- <- <-]. split; [done|].
    exists lo. split; [by left|]. intros. by eapply code_short.
Qed.

Lemma decode_loop_sim n pa off page_end b l len b' :
  bus_ok b → 0 <= off → page_end <= 0x1000 →
  decode_loop n pa off page_end b = Some ((l, len), b') →
  ∃ raws b1, encodes off raws l len ∧ code_at pa off raws b b1.
Proof.
  revert off b l len. induction n as [|n IH]; intros off b l len Hb Hoff Hend; cbn [decode_loop].
  { intros [= <- <- <-]. exists [], b. split; constructor. }
  case_if; [|intros [= <- <- <-]; exists [], b; split; constructor]. bools.
  unfold mbind at 1, ST_bind at 1.
  destruct (decode_at pa off page_end b) as [[[[o il]|] b1]|] eqn:Ed;
    [|intros [= <- <- <-]; exists [], b; split; constructor | done].
  apply decode_at_sim in Ed as (Hb1 & raw & Hd & Hcode); [|done].
  assert (Hi : 0 <= il) by (destruct Hd as [(Hl & _)|(Hl & _)]; cbn in Hl; lia).
  assert (Eoff : as_u16 off = off) by (apply wrap_id; unfold is_word; lia). rewrite Eoff. cbv zeta.
  case_if.
  - intros [= <- <- <-]. exists [raw], b1. split; [econstructor; [done..|constructor]|].
    apply Hcode. constructor.
  - unfold mbind at 1, ST_bind at 1.
    destruct (decode_loop n _ _ _ _) as [[[l' len'] b2]|] eqn:El; [|done]. intros [= <- <- <-].
    apply IH in El as (raws & b3 & Henc & Hc3); [|done|lia|done].
    exists (raw :: raws), b3. split; [by econstructor | by apply Hcode].
Qed.

Lemma encodes_len off raws l len : encodes off raws l len → off <= len <= off + 4 * Z.of_nat (length l).
Proof.
  induction 1 as [off|off raw raws i l len Hd _ _ IH]; cbn [length]; [lia|].
  destruct Hd as [(Hl & _)|(Hl & _)]; lia.
Qed.

Lemma decode_block_sim pa b blk b' :
  bus_ok b → decode_block pa b = Some (Some blk, b') →
  ∃ raws b1, encodes 0 raws (ops blk) (byte_len blk) ∧ code_at pa 0 raws b b1.
Proof.
  intros Hb. unfold decode_block. cbv zeta. unfold mbind at 1, ST_bind at 1.
  destruct (decode_loop _ _ _ _ _) as [[[l len] b2]|] eqn:El; [|done].
  pose proof (wp_elim _ _ _ _ _ (decode_loop_keeps _ _ 0 _ eq_refl b Hb) El) as [(_ & _ & Hn) _].
  pose proof (offset_in_page pa).
  apply decode_loop_sim in El as (raws & b1 & Henc & Hc); [|done|lia|lia].
  pose proof (encodes_len _ _ _ _ Henc). cbn in Hn. unfold MAX_BLOCK_OPS in Hn.
  assert (E : as_u32 len = len) by (apply wrap_id; unfold is_word; lia).
  cbn. destruct l as [|i l]; [done|]. intros [= <- <-]. exists raws, b1. cbn [ops byte_len]. by rewrite E.
Qed.
End DecodeSim.

(** ** Claims *)

(** C25: the decoder is faithful to memory.  On a bus that does not panic
    [decode_block] returns, and when it yields a block its operations are, one
    after the other and without gaps, decodings of the encodings stored from the
    physical address on (read as the interpreter reads them, 2 or 4 bytes each),
    at the offsets recorded in the block, up to [byte_len]; there are between 1
    and 64 of them. *)
Theorem decode_block_faithful {B} {SB : SystemBus B} {HM : HostMemory B} {BL : BusLaws B False}
    (pa : Z) (b : B) :
  bus_ok b →
  ∃ r b', decode_block pa b = Some (r, b') ∧
  ∀ blk, r = Some blk →
    (1 <= length (ops blk) <= 64)%nat ∧
    ∃ raws b1, encodes 0 raws (ops blk) (byte_len blk) ∧ code_at pa 0 raws b b1.
Proof.
  intros Hb. destruct (wp_total _ _ _ (decode_block_keeps pa b Hb)) as (r & b' & E & Hok & _).
  exists r, b'. split; [done|]. intros blk ->. destruct (Hok blk eq_refl) as [Hn Hmax _ _]. split.
  - unfold MAX_BLOCK_OPS in Hmax. split; [|done]. destruct (ops blk); [done | cbn; lia].
  - by apply decode_block_sim in E.
Qed.

(** C1: a block runs like the interpreter.  For any bus whose memory may
    hand out host pages, from a well-formed context about to enter the block
    whose MMU caches tell the truth, [exec_block] returns after 1 to 64 retired
    instructions (or the bus panics), and the interpreter, executing that many of
    the block's encodings one by one, goes through the same contexts and ends
    with the same result: same registers, pc, instret, CSRs, memory, devices,
    block cache and trap after every instruction, and an MMU that is the same or
    has other true entries cached (the fast paths bypass the TLB).  Required of the run ([steady]):
    loads and stores lead to memory or to device registers no host page covers,
    and an instruction that accesses a device, writes the page tables in use,
    stores across a page, or is left to the interpreter, leaves the caches true.
    The only exception is a compressed word access that crosses a page, which the
    interpreter reaches in lockstep. *)
Theorem block_runs_like_interpreter {B} {SB : SystemBus B} {HM : HostMemory B} {FE : FloatEnv} {D : Prop}
    {BL : BusLaws B D} {RL : RamLaws B} (blk : Block) (raws : list Z) (c : ExecContext B) :
  block_ok blk → encodes 0 raws (ops blk) (byte_len blk) → ctx_wf c →
  caches_true (ctx_satp c) c → steady (ops blk) (pc (regs c)) 0 0 (ctx_satp c) c →
  match exec_block blk (pc (regs c)) (ctx_satp c) c with
  | Some ((m, res), c') =>
      1 <= m <= 64 ∧ ctx_wf c' ∧ block_simulated (ctx_satp c) (pc (regs c)) raws (ops blk) 0 m c res c'
  | None => D
  end.
Proof.
  intros Hblk Henc Hc Hct Hst. pose proof (wf_pc _ (cx_regs _ Hc)) as Hpc. pose proof (cx_pc _ Hc) as Hev.
  pose proof (exec_block_keeps blk (pc (regs c)) (ctx_satp c) Hblk Hev c Hc) as W. unfold wp in W.
  destruct (exec_block _ _ _ c) as [[[m res] c']|] eqn:E; [|done]. destruct W as [[Hm _] Hc'].
  split; [done|]. split; [done|].
  apply (exec_ops_sim _ raws 0) in E; [|done|by destruct Hblk|done..].
  by rewrite add_zero, sync_at in E by done.
Qed.

(** A small program: [addi x5, x0, 7; c.addi x5, 1; c.sdsp x5, 0(sp); jal x0, 0]. *)
Definition demo_raws : list Z := [0x00700293; 0x0285; 0xe016; 0x0000006f].
Definition demo_block : Block :=
  mkBlock [mkInsn (OpAluImm AkAdd 5 0 7) 0 4; mkInsn (OpAluImm AkAdd 5 5 1) 4 2;
           mkInsn (OpStore Sd 2 5 0) 6 2; mkInsn (OpJal 0 0) 8 4] 12.
Definition demo_ram : SparseRam.ram :=
  default SparseRam.empty
    (snd <$> (SparseRam.store 4 0x80000000 0x00700293;; SparseRam.store 2 0x80000004 0x0285;;
              SparseRam.store 2 0x80000006 0xe016;; SparseRam.store 4 0x80000008 0x6f) SparseRam.empty).

Lemma demo_encodes : encodes 0 demo_raws (ops demo_block) (byte_len demo_block).
Proof.
  assert (H4 : ∀ raw o off, is_u32 raw → Z.land raw 3 = 3 → decode_full raw = Some o →
                            decodes raw (mkInsn o off 4)) by (right; auto).
  assert (H2 : ∀ raw o off, is_u16 raw → Z.land raw 3 ≠ 3 → decode_compressed raw = Some o →
                            decodes raw (mkInsn o off 2)) by (left; auto).
  apply enc_cons; [by apply H4 | done|]. apply enc_cons; [by apply H2 | done|].
  apply enc_cons; [by apply H2 | done|]. apply enc_cons; [by apply H4 | done | apply enc_nil].
Qed.

Lemma demo_block_ok : block_ok demo_block.
Proof.
  split; [done | | | done]; cbn [ops demo_block length]; [unfold MAX_BLOCK_OPS; lia|].
  assert (∀ i l, insn_wf i → Forall insn_wf l → Forall insn_wf (i :: l)) as H by by constructor.
  repeat (apply H; [repeat split; cbn; unfold reg_ok; done|]). constructor.
Qed.

Lemma decode_block_faithful_witness :
  ∃ r b', decode_block 0x80000000 demo_ram = Some (r, b') ∧ r = Some demo_block ∧
  ∃ raws b1, encodes 0 raws (ops demo_block) (byte_len demo_block) ∧ code_at 0x80000000 0 raws demo_ram b1.
Proof.
  destruct (decode_block_faithful (BL := SparseRam.laws) 0x80000000 demo_ram I) as (r & b' & E & H).
  exists r, b'. split; [done|]. assert (Er : r = Some demo_block).
  { vm_compute in E. injection E as <- _. reflexivity. }
  split; [done|]. exact (proj2 (H demo_block Er)).
Defined.

(** The same on memory with host pages: two stores and two loads of one page, the
    second of each through the pointer the first was given. *)
Definition paged_raws : list Z := [0x00533023; 0x00533423; 0x00033383; 0x00833383; 0x0285; 0x0000006f].
Definition paged_block : Block :=
  mkBlock [mkInsn (OpStore Sd 6 5 0) 0 4; mkInsn (OpStore Sd 6 5 8) 4 4; mkInsn (OpLoad Ld 7 6 0) 8 4;
           mkInsn (OpLoad Ld 7 6 8) 12 4; mkInsn (OpAluImm AkAdd 5 5 1) 16 2; mkInsn (OpJal 0 0) 18 4] 22.
Definition two_pages : FlatMemory := mkFlat (replicate (2 * 4096) 0) 0x1fff 1.
Definition paged_ctx : ExecContext FlatMemory :=
  let c := reset_ctx two_pages in c <| regs := gpr_write 6 0x80001000 (gpr_write 5 7 (regs c)) |>.

(** All entries of a root page table at address 0 are invalid. *)
Definition empty_root (b : FlatMemory) : bool :=
  forallb (fun i => match read_doubleword (Z.lor (shl64 0 12) (shl64 (Z.of_nat i) 3)) b with Some (v, _) => v =? 0 | None => false end) (seq 0 512).

(** [steady] for loads, stores and values without translation. *)
Fixpoint quiet {FE : FloatEnv} (l : list DecodedInsn) (entry ret n : Z) (c : ExecContext FlatMemory) : bool :=
  match l with
  | [] => true
  | i :: rest =>
      match exec_op i (wrapping_add64 entry (pc_off i)) ret n 0 c with
      | Some (FlowNext, c') =>
          match op i with
          | OpFallback _ => false
          | OpStore k rs1 _ imm =>
              (Z.land (wrapping_add64 (gpr_read rs1 (regs c)) (as_u64 imm)) 0xfff
               + Z.of_nat (store_kind_size k) <=? 0x1000)
              && empty_root (bus c) && empty_root (bus c')
          | _ => true
          end && quiet rest entry (ret + 1) (n + 1) c'
      | Some (FlowContinue _, _) => false
      | _ => true
      end
  end.

Lemma empty_root_none b vpn w x : empty_root b = true → page_translate b 0 vpn w x = None.
Proof.
  intros H. pose proof (vpn_fields_range vpn 0%nat) as Hr. unfold empty_root in H. rewrite forallb_forall in H.
  specialize (H (Z.to_nat (vpn_fields vpn !!! 0%nat)) ltac:(apply in_seq; lia)). rewrite Z2Nat.id in H by lia.
  unfold page_translate, page_leaf. change (Z.land 0 0x0fffffffffff) with 0. remember 2%nat as two eqn:E2.
  cbn [walk_levels]. rewrite E2. cbv zeta. change (Z.to_nat (2 - Z.of_nat 2)) with 0%nat. unfold mbind at 1, ST_bind at 1.
  destruct (read_doubleword _ b) as [[v b']|]; [|done]. apply Z.eqb_eq in H as ->. done.
Qed.

Lemma quiet_steady {FE : FloatEnv} l entry : ∀ ret n (c : ExecContext FlatMemory),
  quiet l entry ret n c = true → steady l entry ret n 0 c.
Proof.
  induction l as [|i l IH]; intros ret n c; cbn [quiet steady]; [done|]. intros H.
  split; [unfold targets_ok; destruct (op i); try done; by left|].
  destruct (exec_op i _ ret n 0 c) as [[[] c']|]; [|done..]. bools. split; [left | by apply IH].
  unfold undisturbed. destruct (op i); try done. bools. split; [done|]. split; [unfold fits_page; lia|].
  split; [|by apply all_in_ram]. intros vpn w x. by rewrite !empty_root_none.
Qed.

Lemma paged_ctx_true : caches_true 0 paged_ctx.
Proof.
  split; [by apply mmu_new_coherent, all_in_ram|]. split; [apply store_coherent_new|].
  split; [by apply Forall_replicate|]. exists 13. split; [lia|]. split; [done|].
  change (data (bus paged_ctx)) with (replicate (2 * 4096) 0). rewrite length_replicate. done.
Qed.

Lemma paged_encodes : encodes 0 paged_raws (ops paged_block) (byte_len paged_block).
Proof.
  assert (H4 : ∀ raw o off, is_u32 raw → Z.land raw 3 = 3 → decode_full raw = Some o →
                            decodes raw (mkInsn o off 4)) by (right; auto).
  assert (H2 : ∀ raw o off, is_u16 raw → Z.land raw 3 ≠ 3 → decode_compressed raw = Some o →
                            decodes raw (mkInsn o off 2)) by (left; auto).
  do 4 (apply enc_cons; [by apply H4 | done|]). apply enc_cons; [by apply H2 | done|].
  apply enc_cons; [by apply H4 | done | apply enc_nil].
Qed.

Lemma paged_block_ok : block_ok paged_block.
Proof.
  split; [done | | | done]; cbn [ops paged_block length]; [unfold MAX_BLOCK_OPS; lia|].
  assert (∀ i l, insn_wf i → Forall insn_wf l → Forall insn_wf (i :: l)) as H by by constructor.
  repeat (apply H; [repeat split; cbn; unfold reg_ok; done|]). constructor.
Qed.

Lemma paged_ctx_wf : ctx_wf paged_ctx.
Proof.
  assert (H : ctx_wf (reset_ctx two_pages)).
  { apply (ctx_wf_init (BL := FlatMemory_laws) _ 0x80000000); try done. by apply Forall_replicate. }
  assert (Hr : gpr_wf (gpr_write 6 0x80001000 (gpr_write 5 7 (regs (reset_ctx two_pages))))).
  { apply gpr_write_wf; [lia | done|]. apply gpr_write_wf; [lia | done | apply H]. }
  by destruct H.
Qed.

Lemma block_runs_like_interpreter_witness :
  let FE := env_zero in
  (∃ m res c', exec_block paged_block 0x80000000 0 paged_ctx = Some ((m, res), c') ∧ m = 6 ∧ pc (regs c') = 0x80000012) ∧
  match exec_block paged_block 0x80000000 0 paged_ctx with
  | Some ((m, res), c') =>
      1 <= m <= 64 ∧ ctx_wf c' ∧ block_simulated 0 0x80000000 paged_raws (ops paged_block) 0 m paged_ctx res c'
  | None => True
  end.
Proof.
  intros FE. split.
  - eexists _, _, _. split; [vm_compute; reflexivity | done].
  - apply (block_runs_like_interpreter (BL := FlatMemory_laws) paged_block paged_raws paged_ctx).
    + apply paged_block_ok.
    + apply paged_encodes.
    + apply paged_ctx_wf.
    + apply paged_ctx_true.
    + apply quiet_steady. vm_compute. reflexivity.
Defined.
