(* ===== verification/Io.v ===== *)
(** Reading and writing byte streams.

    [std::io::Write] into a buffer is a list of bytes.  A [Read] is the bytes that
    are left; [read_exact] fails with [UnexpectedEof], having consumed them, when
    there are too few.  A [deserialize] method updates its object as it reads: it
    is code over the object and the stream that returns a [Result], and what it
    updated before an error stays updated. *)
From S2P Require Import Prelude Words.

Inductive IoError : Type := UnexpectedEof | InvalidData.

(** The [?] operator: stop at an error. *)
Definition try_bind {S A C : Type} (m : ST S (Result A IoError)) (k : A -> ST S (Result C IoError))
    : ST S (Result C IoError) :=
  r ← m;
  match r with
  | Ok a => k a
  | Err e => mret (Err e)
  end.

Notation "x ←? m ; k" := (try_bind m (fun x => k))
  (at level 20, m at level 100, k at level 200, right associativity) : rust_scope.
Notation "m ;;? k" := (try_bind m (fun _ => k))
  (at level 100, k at level 200, right associativity) : rust_scope.

(** Code that reads a stream while updating an object. *)
Definition Decoder (S A : Type) : Type := ST (S * list Z) (Result A IoError).

Section Decoder.
Context {S : Type}.

Definition read_exact (n : nat) : Decoder S (list Z) := fun s =>
  let (obj, input) := s in
  if (n <=? length input)%nat then Some (Ok (take n input), (obj, drop n input))
  else Some (Err UnexpectedEof, (obj, [])).

Definition read_le (n : nat) : Decoder S Z :=
  bytes ←? read_exact n; mret (Ok (from_le_bytes bytes)).

(** Assigning a field of the object. *)
Definition assign (f : S -> S) : Decoder S unit := fun s => Some (Ok tt, (f s.1, s.2)).

Definition failure {A} (e : IoError) : Decoder S A := mret (Err e).
End Decoder.

(** A decoder of a part of a larger object. *)
Definition zoom_decoder {S T A} (get : S -> T) (put : T -> S -> S) (m : Decoder T A) : Decoder S A := fun s =>
  match m (get s.1, s.2) with
  | Some (r, (t, input)) => Some (r, (put t s.1, input))
  | None => None
  end.

(** ** Decoding what was encoded

    [decodes m s bytes a s']: from object [s], on [bytes] followed by anything,
    [m] returns [a], leaves the object [s'] and exactly what followed. *)
Definition decodes {S A} (m : Decoder S A) (s : S) (bytes : list Z) (a : A) (s' : S) : Prop :=
  ∀ rest, m (s, bytes ++ rest) = Some (Ok a, (s', rest)).

Section Decodes.
Context {S : Type}.
Implicit Types s : S.

Lemma decodes_bind {A C} (m : Decoder S A) (k : A -> Decoder S C) s b1 b2 a s1 c s2 :
  decodes m s b1 a s1 → decodes (k a) s1 b2 c s2 → decodes (try_bind m k) s (b1 ++ b2) c s2.
Proof.
  intros H1 H2 rest. unfold try_bind. run_st. rewrite <- app_assoc, H1. apply H2.
Qed.

Lemma decodes_to {A} (m : Decoder S A) s bytes a s1 s2 : decodes m s bytes a s1 → s1 = s2 → decodes m s bytes a s2.
Proof. by intros H <-. Qed.

Lemma decodes_ret {A} (a : A) s : decodes (A := A) (mret (Ok a)) s [] a s.
Proof. by intros rest. Qed.

Lemma decodes_assign f s : decodes (assign f) s [] tt (f s).
Proof. by intros rest. Qed.

Lemma decodes_assigned {C} f (k : Decoder S C) s bytes c s' :
  decodes k (f s) bytes c s' → decodes (assign f;;? k) s bytes c s'.
Proof. intros H. rewrite <- (app_nil_l bytes). eapply decodes_bind; [apply decodes_assign | done]. Qed.

Lemma decodes_exact bytes s : decodes (read_exact (length bytes)) s bytes bytes s.
Proof.
  intros rest. unfold read_exact. rewrite length_app.
  replace (_ <=? _)%nat with true by (symmetry; apply Nat.leb_le; lia).
  by rewrite take_app_length, drop_app_length.
Qed.

Lemma decodes_le n v s : is_word (8 * Z.of_nat n) v → decodes (read_le n) s (to_le_bytes n v) v s.
Proof.
  intros Hv. unfold read_le. rewrite <- (app_nil_r (to_le_bytes n v)). eapply decodes_bind.
  - rewrite <- (length_to_le_bytes n v) at 1. apply decodes_exact.
  - rewrite from_to_le_bytes, wrap_id by done. apply decodes_ret.
Qed.

(** The two steps every field takes: read it, assign it. *)
Lemma decodes_field {C} n v (f : Z -> S -> S) (k : Decoder S C) s bytes c s' :
  is_word (8 * Z.of_nat n) v → decodes k (f v s) bytes c s' →
  decodes (x ←? read_le n; assign (f x);;? k) s (to_le_bytes n v ++ bytes) c s'.
Proof.
  intros Hv Hk. eapply decodes_bind; [by apply decodes_le|]. rewrite <- (app_nil_l bytes).
  eapply decodes_bind; [apply decodes_assign | done].
Qed.

Lemma decodes_last_field n v (f : Z -> S -> S) s :
  is_word (8 * Z.of_nat n) v → decodes (x ←? read_le n; assign (f x)) s (to_le_bytes n v) tt (f v s).
Proof.
  intros Hv. rewrite <- (app_nil_r (to_le_bytes n v)). eapply decodes_bind; [by apply decodes_le | apply decodes_assign].
Qed.
End Decodes.

Lemma decodes_zoom {S T A} (get : S -> T) (put : T -> S -> S) (m : Decoder T A) (s : S) bytes a t :
  decodes m (get s) bytes a t → decodes (zoom_decoder get put m) s bytes a (put t s).
Proof. intros H rest. unfold zoom_decoder. cbn. by rewrite H. Qed.
