(* ===== verification/CowRam.v ===== *)
(** Copy-on-write guest RAM ([machine/src/cow_ram.rs]).

    A [CowRam] is a base image shared between machines and a table of private
    pages, filled on first write.  The base is behind an [Arc] and never written,
    so it is a plain list here.  [EPOCH_SOURCE], the process-wide counter that
    stamps every change of the page table, is threaded next to the RAM: an
    operation that may take a new epoch works on [CowRam * Z].  Indices and
    lengths are 64-bit [usize]s. *)
From S2P Require Import Prelude Words SystemBus.

Definition PAGE_SIZE : Z := 4096.

Definition next_epoch : ST Z Z := fun source => Some (source, as_u64 (source + 1)).

Record CowRam := mkCow {
  cow_base : list Z;
  cow_pages : list (option (list Z));
  cow_len : Z;
  cow_mask : Z;
  cow_epoch : Z;
  device_written_pages : list Z;
  device_written_seen : list Z
}.
#[export] Instance CowRam_eta : Eta CowRam := fun r =>
  mkCow (cow_base r) (cow_pages r) (cow_len r) (cow_mask r) (cow_epoch r)
    (device_written_pages r) (device_written_seen r).

(** ** Construction *)

Definition div_ceil (a b : Z) : Z := (a + (b - 1)) / b.

Definition padded_len (logical_len : Z) : Z := as_u64 (div_ceil logical_len PAGE_SIZE * PAGE_SIZE).

Definition from_padded (padded : list Z) (logical_len ram_size : Z) : ST Z CowRam :=
  let num_pages := Z.of_nat (length padded) / PAGE_SIZE in
  epoch ← next_epoch;
  mret {| cow_base := padded;
          cow_pages := replicate (Z.to_nat num_pages) None;
          cow_len := logical_len;
          cow_mask := wrapping_sub64 ram_size 1;
          cow_epoch := epoch;
          device_written_pages := [];
          device_written_seen := [] |}.

Definition cow_new (ram_size : Z) : ST Z CowRam :=
  let logical_len := wrapping_add64 ram_size 8 in
  from_padded (replicate (Z.to_nat (padded_len logical_len)) 0) logical_len ram_size.

Definition pending_restore (ram_size : Z) : ST Z CowRam :=
  epoch ← next_epoch;
  mret {| cow_base := [];
          cow_pages := [];
          cow_len := wrapping_add64 ram_size 8;
          cow_mask := wrapping_sub64 ram_size 1;
          cow_epoch := epoch;
          device_written_pages := [];
          device_written_seen := [] |}.

(** [Vec::resize] with zeros. *)
Definition resize_zero (l : list Z) (n : Z) : list Z :=
  take (Z.to_nat n) l ++ replicate (Z.to_nat n - length l) 0.

Definition from_base (bytes : list Z) (ram_size : Z) : ST Z CowRam :=
  let len := Z.of_nat (length bytes) in
  let num_pages := div_ceil len PAGE_SIZE in
  let base := resize_zero bytes (num_pages * PAGE_SIZE) in
  epoch ← next_epoch;
  mret {| cow_base := base;
          cow_pages := replicate (Z.to_nat num_pages) None;
          cow_len := len;
          cow_mask := wrapping_sub64 ram_size 1;
          cow_epoch := epoch;
          device_written_pages := [];
          device_written_seen := [] |}.

Definition clone_shared (r : CowRam) : ST Z CowRam :=
  epoch ← next_epoch;
  mret {| cow_base := cow_base r;
          cow_pages := replicate (length (cow_pages r)) None;
          cow_len := cow_len r;
          cow_mask := cow_mask r;
          cow_epoch := epoch;
          device_written_pages := [];
          device_written_seen := [] |}.

Definition cow_ram_size (r : CowRam) : Z := wrapping_add64 (cow_mask r) 1.
Definition num_pages (r : CowRam) : Z := Z.of_nat (length (cow_pages r)).

(** ** Pages written by devices *)

(** [device_written_seen.resize(n, 0)] where the vector only grows. *)
Definition grow_seen (seen : list Z) (n : nat) : list Z := seen ++ replicate (n - length seen) 0.

Definition note_page (page : Z) (r : CowRam) : CowRam :=
  let word := Z.to_nat (page / 64) in
  let bit := shl64 1 (page mod 64) in
  let seen := if (length (device_written_seen r) <=? word)%nat
              then grow_seen (device_written_seen r) (S word) else device_written_seen r in
  if Z.land (seen !!! word) bit =? 0 then
    r <| device_written_seen := <[word := Z.lor (seen !!! word) bit]> seen |>
      <| device_written_pages := device_written_pages r ++ [as_u32 page] |>
  else r <| device_written_seen := seen |>.

Definition note_device_write (index len : Z) (r : CowRam) : CowRam :=
  if len =? 0 then r
  else
    let first_page := index / PAGE_SIZE in
    let last_page := wrapping_sub64 (index + len) 1 / PAGE_SIZE in
    foldl (fun r k => note_page (first_page + Z.of_nat k) r) r
      (seq 0 (Z.to_nat (last_page - first_page + 1))).

(** The pages in the order they are visited; a bit outside the table panics. *)
Fixpoint clear_seen (pages seen : list Z) : option (list Z) :=
  match pages with
  | [] => Some seen
  | page :: pages =>
      let word := Z.to_nat (page / 64) in
      match seen !! word with
      | Some bits => clear_seen pages (<[word := Z.land bits (not64 (shl64 1 (page mod 64)))]> seen)
      | None => None
      end
  end.

Definition cow_drain_device_written_pages : ST CowRam (list Z) := fun r =>
  match clear_seen (device_written_pages r) (device_written_seen r) with
  | Some seen =>
      Some (device_written_pages r, r <| device_written_pages := [] |> <| device_written_seen := seen |>)
  | None => None
  end.

(** ** Pages *)

Definition page_ref (page : Z) (r : CowRam) : option (list Z) :=
  match cow_pages r !! Z.to_nat page with
  | Some (Some p) => Some p
  | Some None => slice_get (cow_base r) (page * PAGE_SIZE) (Z.to_nat PAGE_SIZE)
  | None => None
  end.

(** [page_mut] gives access to the private copy of a page, making it first if the
    page is still shared; [update_page] writes through the reference it returns. *)
Definition page_mut (page : Z) : ST (CowRam * Z) (list Z) := fun s =>
  let (r, source) := s in
  match cow_pages r !! Z.to_nat page with
  | Some (Some p) => Some (p, (r, source))
  | Some None =>
      match slice_get (cow_base r) (page * PAGE_SIZE) (Z.to_nat PAGE_SIZE) with
      | Some owned =>
          Some (owned, (r <| cow_pages := <[Z.to_nat page := Some owned]> (cow_pages r) |>
                          <| cow_epoch := source |>, as_u64 (source + 1)))
      | None => None
      end
  | None => None
  end.

Definition update_page (page offset : Z) (bytes : list Z) : ST (CowRam * Z) unit :=
  p ← page_mut page;
  match slice_put p offset bytes with
  | Some p' => modify (fun s => (s.1 <| cow_pages := <[Z.to_nat page := Some p']> (cow_pages s.1) |>, s.2))
  | None => panic
  end.

Definition idx_page (idx : Z) : Z := Z.shiftr idx 12.
Definition idx_off (idx : Z) : Z := Z.land idx (PAGE_SIZE - 1).

(** ** Reads and writes *)

Definition cow_read_u8 (idx : Z) (r : CowRam) : option Z :=
  match page_ref (idx_page idx) r with
  | Some p => p !! Z.to_nat (idx_off idx)
  | None => None
  end.

Definition cow_write_u8 (idx val : Z) : ST (CowRam * Z) unit :=
  update_page (idx_page idx) (idx_off idx) [val].

(** The loop of [read_into], from [idx] for the [len] bytes that are left. *)
Fixpoint read_into_loop (fuel : nat) (idx len : Z) (r : CowRam) : option (list Z) :=
  if 0 <? len then
    match fuel with
    | O => None
    | S fuel =>
        let off := idx_off idx in
        let n := Z.min (PAGE_SIZE - off) len in
        match page_ref (idx_page idx) r with
        | Some p =>
            match slice_get p off (Z.to_nat n) with
            | Some bytes =>
                match read_into_loop fuel (idx + n) (len - n) r with
                | Some rest => Some (bytes ++ rest)
                | None => None
                end
            | None => None
            end
        | None => None
        end
    end
  else Some [].

(** Every iteration copies a byte at least. *)
Definition read_into (idx len : Z) (r : CowRam) : option (list Z) :=
  read_into_loop (Z.to_nat len) idx len r.

Fixpoint write_from_loop (fuel : nat) (idx : Z) (buf : list Z) : ST (CowRam * Z) unit :=
  match buf with
  | [] => mret tt
  | _ =>
      match fuel with
      | O => panic
      | S fuel =>
          let off := idx_off idx in
          let n := Z.min (PAGE_SIZE - off) (Z.of_nat (length buf)) in
          update_page (idx_page idx) off (take (Z.to_nat n) buf);;
          write_from_loop fuel (idx + n) (drop (Z.to_nat n) buf)
      end
  end.

Definition write_from (idx : Z) (buf : list Z) : ST (CowRam * Z) unit :=
  write_from_loop (length buf) idx buf.

(** [read_u32] and [read_u64]: one slice, or the loop across a page boundary. *)
Definition cow_read_wide (n : nat) (idx : Z) (r : CowRam) : option Z :=
  let off := idx_off idx in
  if off + Z.of_nat n <=? PAGE_SIZE then
    match page_ref (idx_page idx) r with
    | Some p => from_le_bytes <$> slice_get p off n
    | None => None
    end
  else from_le_bytes <$> read_into idx (Z.of_nat n) r.

Definition cow_read_u16 (idx : Z) (r : CowRam) : option Z :=
  let off := idx_off idx in
  if off + 2 <=? PAGE_SIZE then
    match page_ref (idx_page idx) r with
    | Some p => from_le_bytes <$> slice_get p off 2
    | None => None
    end
  else
    match cow_read_u8 idx r, cow_read_u8 (idx + 1) r with
    | Some b0, Some b1 => Some (from_le_bytes [b0; b1])
    | _, _ => None
    end.

Definition cow_read_u32 : Z -> CowRam -> option Z := cow_read_wide 4.
Definition cow_read_u64 : Z -> CowRam -> option Z := cow_read_wide 8.

(** [write_u16], [write_u32] and [write_u64]. *)
Definition cow_write_wide (n : nat) (idx val : Z) : ST (CowRam * Z) unit :=
  let off := idx_off idx in
  if off + Z.of_nat n <=? PAGE_SIZE
  then update_page (idx_page idx) off (to_le_bytes n val)
  else write_from idx (to_le_bytes n val).

Definition cow_write_u16 : Z -> Z -> ST (CowRam * Z) unit := cow_write_wide 2.
Definition cow_write_u32 : Z -> Z -> ST (CowRam * Z) unit := cow_write_wide 4.
Definition cow_write_u64 : Z -> Z -> ST (CowRam * Z) unit := cow_write_wide 8.

(** ** Snapshots *)

Definition dirty_pages (r : CowRam) : list Z :=
  map (fun ip => as_u32 (Z.of_nat ip.1))
    (filter (fun ip : nat * option (list Z) => is_Some ip.2)
       (zip (seq 0 (length (cow_pages r))) (cow_pages r))).

Definition page_bytes : Z -> CowRam -> option (list Z) := page_ref.

Definition apply_page (page : Z) (bytes : list Z) : ST (CowRam * Z) unit :=
  update_page page 0 bytes.

(** [write_all_to]: the pages in order, the last one cut at [len]. *)
Fixpoint write_all_loop (fuel : nat) (page remaining : Z) (r : CowRam) : option (list Z) :=
  if 0 <? remaining then
    match fuel with
    | O => None
    | S fuel =>
        let n := Z.min remaining PAGE_SIZE in
        match page_ref page r with
        | Some p =>
            match slice_get p 0 (Z.to_nat n), write_all_loop fuel (page + 1) (remaining - n) r with
            | Some bytes, Some rest => Some (bytes ++ rest)
            | _, _ => None
            end
        | None => None
        end
    end
  else Some [].

Definition write_all_to (r : CowRam) : option (list Z) :=
  write_all_loop (Z.to_nat (div_ceil (cow_len r) PAGE_SIZE)) 0 (cow_len r) r.

Definition set_base (padded : list Z) : ST (CowRam * Z) unit := fun s =>
  let (r, source) := s in
  let num_pages := Z.of_nat (length padded) / PAGE_SIZE in
  Some (tt, (r <| cow_base := padded |> <| cow_pages := replicate (Z.to_nat num_pages) None |>
               <| cow_epoch := source |>, as_u64 (source + 1))).

(** ** Host pointers

    [page_ptr] and [page_mut_ptr]: the base image is allocation 1, the private
    copy of page [k] allocation [k + 2]. *)
Definition page_ptr (page : Z) (r : CowRam) : option HostPtr :=
  match cow_pages r !! Z.to_nat page with
  | Some (Some _) => Some (mkHostPtr (page + 2) 0)
  | Some None =>
      if (page + 1) * PAGE_SIZE <=? Z.of_nat (length (cow_base r))
      then Some (mkHostPtr 1 (page * PAGE_SIZE)) else None
  | None => None
  end.

Definition page_mut_ptr (page : Z) : ST (CowRam * Z) HostPtr :=
  page_mut page;;
  mret (mkHostPtr (page + 2) 0).

(** Reading and writing [n] bytes through such a pointer.  The base is shared:
    nothing may be written through a pointer to it. *)
Definition cow_host_read (p : HostPtr) (n : nat) (r : CowRam) : option Z :=
  if host_alloc p =? 1 then from_le_bytes <$> slice_get (cow_base r) (host_offset p) n
  else
    match cow_pages r !! Z.to_nat (host_alloc p - 2) with
    | Some (Some page) => from_le_bytes <$> slice_get page (host_offset p) n
    | _ => None
    end.

Definition cow_host_write (p : HostPtr) (n : nat) (val : Z) : ST CowRam unit := fun r =>
  let k := Z.to_nat (host_alloc p - 2) in
  if host_alloc p <? 2 then None
  else
    match cow_pages r !! k with
    | Some (Some page) =>
        match slice_put page (host_offset p) (to_le_bytes n val) with
        | Some page => Some (tt, r <| cow_pages := <[k := Some page]> (cow_pages r) |>)
        | None => None
        end
    | _ => None
    end.
