(* ===== verification/CowRamProps.v ===== *)
(** The copy-on-write RAM is a flat array of bytes.

    [cow_flat r] is the memory a [CowRam] stands for: private pages where there
    are any, the base elsewhere.  Every read of the code is a slice of it, every
    write a slice update, panics included; copying a page on first write changes
    nothing but the epoch. *)
From S2P Require Import Prelude Words Wp SystemBus BusLaws Invariant RamLaws CowRam.

(** ** Lists cut into pages of one size *)

Section Paged.
Context (w : nat).
Implicit Types (ls : list (list Z)) (p bytes : list Z).

Definition paged ls : Prop := Forall (fun p => length p = w) ls.

Lemma paged_length ls : paged ls → length (mjoin ls) = (w * length ls)%nat.
Proof.
  induction 1 as [|p ls Hp _ IH]; [cbn; lia|]. change (mjoin (p :: ls)) with (p ++ mjoin ls).
  rewrite length_app, IH, Hp. cbn [length]. lia.
Qed.

(** The page in the middle of its list. *)
Lemma paged_split ls k p :
  paged ls → ls !! k = Some p →
  mjoin ls = mjoin (take k ls) ++ p ++ mjoin (drop (S k) ls) ∧ length (mjoin (take k ls)) = (w * k)%nat.
Proof.
  intros Hls Hk. split.
  - rewrite <- (take_drop_middle ls k p Hk) at 1. by rewrite join_app.
  - rewrite paged_length by (by apply Forall_take). rewrite length_take.
    apply lookup_lt_Some in Hk. lia.
Qed.

Lemma paged_insert ls k p p' :
  paged ls → ls !! k = Some p →
  mjoin (<[k := p']> ls) = mjoin (take k ls) ++ p' ++ mjoin (drop (S k) ls).
Proof.
  intros Hls Hk. apply lookup_lt_Some in Hk. rewrite insert_take_drop by done. by rewrite join_app.
Qed.

Lemma slice_app_middle (a p c : list Z) (off n : nat) :
  (off + n <= length p)%nat →
  take n (drop (length a + off) (a ++ p ++ c)) = take n (drop off p).
Proof.
  intros H. rewrite <- drop_drop, drop_app_length, drop_app_le, take_app_le by (rewrite ?length_drop; lia).
  done.
Qed.

Lemma paged_slice ls k p off n :
  paged ls → ls !! k = Some p → 0 <= off → off + Z.of_nat n <= Z.of_nat w →
  slice_get (mjoin ls) (Z.of_nat k * Z.of_nat w + off) n = slice_get p off n.
Proof.
  intros Hls Hk H0 Hn. destruct (paged_split ls k p Hls Hk) as [E Hl].
  pose proof (Forall_lookup_1 _ _ _ _ Hls Hk) as Hp. cbn in Hp.
  unfold slice_get. rewrite E, !length_app, Hl, Hp.
  replace (_ && _) with true by (symmetry; apply andb_true_intro; split; apply Z.leb_le; nia).
  replace (_ && _) with true by (symmetry; apply andb_true_intro; split; apply Z.leb_le; lia).
  f_equal. replace (Z.to_nat (Z.of_nat k * Z.of_nat w + off)) with (length (mjoin (take k ls)) + Z.to_nat off)%nat by nia.
  apply slice_app_middle. lia.
Qed.

Lemma paged_slice_out ls (k : nat) off n :
  paged ls → ls !! k = None → 0 <= off → (0 < n)%nat →
  slice_get (mjoin ls) (Z.of_nat k * Z.of_nat w + off) n = None.
Proof.
  intros Hls Hk H0 Hn. apply lookup_ge_None in Hk. unfold slice_get. rewrite paged_length by done.
  replace (_ && _) with false; [done|]. symmetry. apply andb_false_intro2, Z.leb_gt. nia.
Qed.

Lemma paged_put ls k p p' off bytes :
  paged ls → ls !! k = Some p → 0 <= off → off + Z.of_nat (length bytes) <= Z.of_nat w →
  slice_put p off bytes = Some p' →
  slice_put (mjoin ls) (Z.of_nat k * Z.of_nat w + off) bytes = Some (mjoin (<[k := p']> ls)).
Proof.
  intros Hls Hk H0 Hn. destruct (paged_split ls k p Hls Hk) as [E Hl].
  pose proof (Forall_lookup_1 _ _ _ _ Hls Hk) as Hp. cbn in Hp. rewrite (paged_insert ls k p p') by done.
  unfold slice_put. rewrite E, !length_app, Hl, Hp.
  replace (_ && _) with true by (symmetry; apply andb_true_intro; split; apply Z.leb_le; lia).
  replace (_ && _) with true by (symmetry; apply andb_true_intro; split; apply Z.leb_le; nia).
  intros [= <-]. f_equal.
  replace (Z.to_nat (Z.of_nat k * Z.of_nat w + off)) with (length (mjoin (take k ls)) + Z.to_nat off)%nat by nia.
  rewrite take_app_add. rewrite take_app_le by lia.
  rewrite <- Nat.add_assoc, drop_app_add, drop_app_le by lia.
  by rewrite <- !app_assoc.
Qed.
End Paged.

(** A longer slice in two steps. *)
Lemma slice_get_app l i m n :
  slice_get l i (m + n)
  = match slice_get l i m, slice_get l (i + Z.of_nat m) n with
    | Some a, Some c => Some (a ++ c)
    | _, _ => None
    end.
Proof.
  unfold slice_get.
  destruct (Z.leb_spec 0 i); cbn [andb]; [|by rewrite ?andb_false_l].
  replace (0 <=? i + Z.of_nat m) with true by (symmetry; apply Z.leb_le; lia). cbn [andb].
  destruct (Z.leb_spec (i + Z.of_nat (m + n)) (Z.of_nat (length l))).
  - replace (i + Z.of_nat m <=? _) with true by (symmetry; apply Z.leb_le; lia).
    replace (i + Z.of_nat m + Z.of_nat n <=? _) with true by (symmetry; apply Z.leb_le; lia).
    f_equal. rewrite <- (take_take_drop (drop (Z.to_nat i) l) m n), drop_drop. do 3 f_equal. lia.
  - replace (i + Z.of_nat m + Z.of_nat n <=? _) with false by (symmetry; apply Z.leb_gt; lia).
    by destruct (_ <=? _).
Qed.

Lemma slice_of_slice l i m p off n :
  slice_get l i m = Some p → 0 <= off → off + Z.of_nat n <= Z.of_nat m → slice_get l (i + off) n = slice_get p off n.
Proof.
  unfold slice_get. case_if; [|done]. intros [= <-] H0 Hn. bools. rewrite length_take, length_drop.
  replace (_ && _) with true by (symmetry; apply andb_true_intro; split; apply Z.leb_le; lia).
  replace (_ && _) with true by (symmetry; apply andb_true_intro; split; apply Z.leb_le; lia).
  f_equal. rewrite skipn_firstn_comm, take_take, drop_drop. f_equal; [lia|]. f_equal. lia.
Qed.

Lemma slice_put_app l i a c :
  slice_put l i (a ++ c)
  = match slice_put l i a with
    | Some l' => slice_put l' (i + Z.of_nat (length a)) c
    | None => None
    end.
Proof.
  unfold slice_put. rewrite !length_app.
  destruct (Z.leb_spec 0 i); cbn [andb]; [|done].
  destruct (Z.leb_spec (i + Z.of_nat (length a)) (Z.of_nat (length l))); cbn [andb].
  - rewrite !length_app, length_take, length_drop.
    replace (0 <=? i + Z.of_nat (length a)) with true by (symmetry; apply Z.leb_le; lia). cbn [andb].
    destruct (Z.leb_spec (i + Z.of_nat (length a + length c)) (Z.of_nat (length l))).
    + replace (_ <=? _) with true by (symmetry; apply Z.leb_le; lia). f_equal.
      replace (Z.to_nat (i + Z.of_nat (length a))) with (length (take (Z.to_nat i) l ++ a)).
      2: { rewrite length_app, length_take. lia. }
      rewrite (app_assoc (take (Z.to_nat i) l) a), take_app_length, drop_app_add, drop_drop.
      rewrite <- !app_assoc. do 4 f_equal. lia.
    + replace (_ <=? _) with false by (symmetry; apply Z.leb_gt; lia). done.
  - replace (_ <=? _) with false by (symmetry; apply Z.leb_gt; lia). done.
Qed.

(** ** The memory a CowRam stands for *)

Definition page_nat : nat := Z.to_nat PAGE_SIZE.
Definition shared_page (base : list Z) (k : nat) : list Z := take page_nat (drop (page_nat * k) base).
Definition cow_view (r : CowRam) : list (list Z) :=
  imap (fun k o => default (shared_page (cow_base r) k) o) (cow_pages r).
Definition cow_flat (r : CowRam) : list Z := mjoin (cow_view r).

Lemma page_nat_Z : Z.of_nat page_nat = PAGE_SIZE.
Proof. done. Qed.
Lemma page_nat_pos : (0 < page_nat)%nat.
Proof. unfold page_nat, PAGE_SIZE. lia. Qed.
#[global] Opaque page_nat.

Record cow_wf (r : CowRam) : Prop := {
  wf_base : length (cow_base r) = (page_nat * length (cow_pages r))%nat;
  wf_base_bytes : Forall is_u8 (cow_base r);
  wf_page k p : cow_pages r !! k = Some (Some p) → length p = page_nat ∧ Forall is_u8 p
}.

Lemma shared_page_length r k :
  cow_wf r → (k < length (cow_pages r))%nat → length (shared_page (cow_base r) k) = page_nat.
Proof.
  intros Hr Hk. unfold shared_page. rewrite length_take, length_drop, wf_base by done. nia.
Qed.

Lemma view_lookup r k :
  cow_view r !! k = (fun o => default (shared_page (cow_base r) k) o) <$> (cow_pages r !! k).
Proof. unfold cow_view. by rewrite list_lookup_imap. Qed.

Lemma view_paged r : cow_wf r → paged page_nat (cow_view r).
Proof.
  intros Hr. apply Forall_lookup_2. intros k p. rewrite view_lookup.
  destruct (cow_pages r !! k) as [[q|]|] eqn:E; cbn; intros [= <-].
  - by eapply wf_page.
  - apply shared_page_length; [done|]. by eapply lookup_lt_Some.
Qed.

Lemma page_ref_view page r : cow_wf r → 0 <= page → page_ref page r = cow_view r !! Z.to_nat page.
Proof.
  intros Hr Hp. unfold page_ref. rewrite view_lookup.
  destruct (cow_pages r !! Z.to_nat page) as [[q|]|] eqn:E; [done| |done]. cbn.
  apply lookup_lt_Some in E. pose proof (wf_base r Hr). pose proof page_nat_Z.
  unfold slice_get. replace (_ && _) with true; [|symmetry; apply andb_true_intro; split; apply Z.leb_le].
  2: unfold PAGE_SIZE; lia.
  2: change (Z.to_nat PAGE_SIZE) with page_nat; nia.
  f_equal. unfold shared_page. change (Z.to_nat PAGE_SIZE) with page_nat. do 2 f_equal. nia.
Qed.

Lemma flat_length r : cow_wf r → length (cow_flat r) = (page_nat * length (cow_pages r))%nat.
Proof.
  intros Hr. unfold cow_flat. rewrite (paged_length page_nat) by (by apply view_paged).
  unfold cow_view. by rewrite length_imap.
Qed.

Lemma view_bytes r k p : cow_wf r → cow_view r !! k = Some p → Forall is_u8 p.
Proof.
  intros Hr. rewrite view_lookup. destruct (cow_pages r !! k) as [[q|]|] eqn:E; cbn; intros [= <-].
  - by eapply wf_page.
  - apply Forall_take, Forall_drop, Hr.
Qed.

Lemma flat_bytes r : cow_wf r → Forall is_u8 (cow_flat r).
Proof.
  intros Hr. unfold cow_flat. apply Forall_join. apply Forall_lookup_2. intros k p Hk.
  by apply (view_bytes r k).
Qed.

(** An index is a page and an offset. *)
Lemma idx_split idx :
  0 <= idx → 0 <= idx_page idx ∧ 0 <= idx_off idx < PAGE_SIZE ∧ idx = idx_page idx * PAGE_SIZE + idx_off idx.
Proof.
  intros Hi. unfold idx_page, idx_off, PAGE_SIZE. change (4096 - 1) with (Z.ones 12).
  rewrite Z.shiftr_div_pow2, Z.land_ones by lia. change (2 ^ 12) with 4096.
  pose proof (Z.div_mod idx 4096 ltac:(lia)). pose proof (Z.mod_pos_bound idx 4096 ltac:(lia)).
  pose proof (Z.div_pos idx 4096 Hi ltac:(lia)). lia.
Qed.

Lemma page_base_nat page : 0 <= page → Z.of_nat (Z.to_nat page) * Z.of_nat page_nat = page * PAGE_SIZE.
Proof. intros. by rewrite page_nat_Z, Z2Nat.id. Qed.

(** *** Making a page private *)

(** What changes when a page becomes private: the epoch, nothing else. *)
Record privatised (r r' : CowRam) (source source' : Z) : Prop := {
  pv_base : cow_base r' = cow_base r;
  pv_len : cow_len r' = cow_len r;
  pv_mask : cow_mask r' = cow_mask r;
  pv_devs : device_written_pages r' = device_written_pages r;
  pv_seen : device_written_seen r' = device_written_seen r;
  pv_count : length (cow_pages r') = length (cow_pages r);
  pv_owned k p : cow_pages r !! k = Some (Some p) → is_Some (cow_pages r' !! k ≫= id);
  pv_epoch : (cow_epoch r' = cow_epoch r ∧ source' = source ∧ r' = r)
             ∨ (cow_epoch r' = source ∧ source' = as_u64 (source + 1) ∧
                ∃ k p, cow_pages r !! k = Some None ∧ cow_pages r' = <[k := Some p]> (cow_pages r))
}.

Lemma page_mut_spec page r source :
  cow_wf r → 0 <= page →
  match page_ref page r with
  | Some p =>
      ∃ r' source', page_mut page (r, source) = Some (p, (r', source')) ∧ cow_wf r' ∧
        cow_view r' = cow_view r ∧ cow_pages r' !! Z.to_nat page = Some (Some p) ∧
        privatised r r' source source'
  | None => page_mut page (r, source) = None
  end.
Proof.
  intros Hr Hp. pose proof (page_ref_view page r Hr Hp) as Hv. revert Hv. unfold page_ref, page_mut.
  rewrite view_lookup. destruct (cow_pages r !! Z.to_nat page) as [[q|]|] eqn:E; [|cbn; intros ->|done].
  { intros _. exists r, source. split; [done|]. split; [done|]. split; [done|]. split; [done|].
    split; try done; [|by left]. intros k p ->. done. }
  pose proof (lookup_lt_Some _ _ _ E) as Hk. eexists _, _. split; [done|].
  assert (Hlen : length (shared_page (cow_base r) (Z.to_nat page)) = page_nat) by (by apply shared_page_length).
  split; [|split; [|split]].
  - split; cbn.
    + rewrite length_insert. apply Hr.
    + apply Hr.
    + intros k p. rewrite list_lookup_insert. case_decide as Hc; [|apply Hr]. intros [= <-].
      split; [done|]. apply Forall_take, Forall_drop, Hr.
  - apply list_eq. intros k. rewrite !view_lookup. cbn. rewrite list_lookup_insert. case_decide as Hc; [|done].
    destruct Hc as [<- _]. by rewrite E.
  - cbn. by rewrite list_lookup_insert_eq.
  - split; cbn; try done; [by rewrite length_insert| |right; eauto 10].
    intros k p Hkp. rewrite list_lookup_insert. case_decide; [done|]. by rewrite Hkp.
Qed.

(** *** Writing in a page *)

Lemma slice_put_in p off bytes :
  0 <= off → off + Z.of_nat (length bytes) <= Z.of_nat (length p) →
  ∃ p', slice_put p off bytes = Some p' ∧ length p' = length p.
Proof.
  intros H0 H. unfold slice_put.
  replace (_ && _) with true by (symmetry; apply andb_true_intro; split; apply Z.leb_le; lia).
  eexists. split; [done|]. rewrite !length_app, length_take, length_drop. lia.
Qed.

Lemma set_page_wf r k p p' :
  cow_wf r → cow_pages r !! k = Some (Some p) → length p' = page_nat → Forall is_u8 p' →
  cow_wf (r <| cow_pages := <[k := Some p']> (cow_pages r) |>) ∧
  cow_view (r <| cow_pages := <[k := Some p']> (cow_pages r) |>) = <[k := p']> (cow_view r).
Proof.
  intros Hr Hk Hl Hb. pose proof (lookup_lt_Some _ _ _ Hk) as Hlt. split.
  - split; cbn; [rewrite length_insert; apply Hr | apply Hr|].
    intros j q. rewrite list_lookup_insert. case_decide; [|apply Hr]. by intros [= <-].
  - apply list_eq. intros j. rewrite view_lookup. cbn. rewrite !list_lookup_insert.
    replace (length (cow_view r)) with (length (cow_pages r)) by (unfold cow_view; by rewrite length_imap).
    case_decide; [done|]. by rewrite view_lookup.
Qed.

Lemma privatised_trans r1 r2 r3 s1 s2 k p :
  privatised r1 r2 s1 s2 → cow_pages r2 !! k = Some (Some p) →
  ∀ q, r3 = r2 <| cow_pages := <[k := Some q]> (cow_pages r2) |> →
  cow_base r3 = cow_base r1 ∧ cow_len r3 = cow_len r1 ∧ cow_mask r3 = cow_mask r1 ∧
  device_written_pages r3 = device_written_pages r1 ∧ device_written_seen r3 = device_written_seen r1 ∧
  length (cow_pages r3) = length (cow_pages r1).
Proof.
  intros [] Hk q ->. cbn. rewrite length_insert. auto 10.
Qed.

(** The pages that are still shared: each can become private once. *)
Fixpoint shared_count (pages : list (option (list Z))) : nat :=
  match pages with
  | [] => 0
  | Some _ :: pages => shared_count pages
  | None :: pages => S (shared_count pages)
  end.

Lemma shared_count_le pages : (shared_count pages <= length pages)%nat.
Proof. induction pages as [|[p|] pages IH]; cbn; lia. Qed.

Lemma shared_count_insert pages k o p :
  pages !! k = Some o →
  shared_count pages = (shared_count (<[k := Some p]> pages) + match o with Some _ => 0 | None => 1 end)%nat.
Proof.
  revert k. induction pages as [|x pages IH]; intros [|k]; try done.
  - intros [= ->]. destruct o; cbn; lia.
  - intros Hk. specialize (IH k Hk). change (<[S k := Some p]> (x :: pages)) with (x :: <[k := Some p]> pages).
    destruct x; cbn [shared_count]; lia.
Qed.

(** What a write leaves alone, and the epoch it leaves behind: the old one if
    every page it touched was already private. *)
Record written (r r' : CowRam) (source source' : Z) : Prop := {
  wr_base : cow_base r' = cow_base r;
  wr_len : cow_len r' = cow_len r;
  wr_mask : cow_mask r' = cow_mask r;
  wr_devs : device_written_pages r' = device_written_pages r;
  wr_seen : device_written_seen r' = device_written_seen r;
  wr_count : length (cow_pages r') = length (cow_pages r);
  wr_owned k p : cow_pages r !! k = Some (Some p) → ∃ p', cow_pages r' !! k = Some (Some p');
  wr_epoch :
    (cow_epoch r' = cow_epoch r ∧ source' = source ∧ shared_count (cow_pages r') = shared_count (cow_pages r) ∧
     ∀ k, cow_pages r !! k = Some None → cow_pages r' !! k = Some None)
    ∨ (∃ j : nat, source' = as_u64 (source + Z.of_nat (S j)) ∧ cow_epoch r' = as_u64 (source + Z.of_nat j) ∧
                  (shared_count (cow_pages r') + S j)%nat = shared_count (cow_pages r))
}.

Lemma written_refl r source : written r r source source.
Proof. split; try done; [eauto|]. by left. Qed.

Lemma written_trans r1 r2 r3 s1 s2 s3 : written r1 r2 s1 s2 → written r2 r3 s2 s3 → written r1 r3 s1 s3.
Proof.
  intros [B1 L1 M1 D1 S1 C1 O1 E1] [B2 L2 M2 D2 S2 C2 O2 E2]. split; try congruence.
  - intros k p Hk. destruct (O1 k p Hk) as [p' Hp']. eauto.
  - destruct E1 as [(E1 & -> & Q1 & N1)|(j & -> & E1 & Q1)], E2 as [(E2 & -> & Q2 & N2)|(j' & -> & E2 & Q2)].
    + left. split; [congruence|]. split; [done|]. split; [congruence | auto].
    + right. exists j'. split; [done|]. split; [done | congruence].
    + right. exists j. split; [done|]. split; congruence.
    + right. exists (S j + j')%nat. rewrite E2. unfold as_u64. rewrite !wrap_add_l.
      split; [f_equal; lia|]. split; [f_equal; lia | lia].
Qed.

Lemma update_page_spec page off bytes r source :
  cow_wf r → 0 <= page → 0 <= off → off + Z.of_nat (length bytes) <= PAGE_SIZE → is_u64 source →
  Forall is_u8 bytes →
  match page_ref page r with
  | Some p =>
      ∃ r' source', update_page page off bytes (r, source) = Some (tt, (r', source')) ∧ cow_wf r' ∧
        slice_put (cow_flat r) (page * PAGE_SIZE + off) bytes = Some (cow_flat r') ∧ written r r' source source'
  | None => update_page page off bytes (r, source) = None
  end.
Proof.
  intros Hr Hp H0 Hoff Hs Hb. pose proof (page_mut_spec page r source Hr Hp) as Hm.
  pose proof (page_ref_view page r Hr Hp) as Hv. unfold update_page. run_st.
  destruct (page_ref page r) as [p|]; [|by rewrite Hm].
  destruct Hm as (r1 & s1 & -> & Hr1 & Hv1 & Hk & Hpv).
  assert (Hlen : length p = page_nat ∧ Forall is_u8 p) by (by apply (wf_page r1 Hr1 (Z.to_nat page))).
  destruct (slice_put_in p off bytes H0) as (p' & Hput & Hl'); [destruct Hlen as [-> _]; by rewrite page_nat_Z|].
  rewrite Hput. destruct (set_page_wf r1 (Z.to_nat page) p p' Hr1 Hk) as [Hwf Hview].
  { rewrite Hl'. apply Hlen. }
  { by eapply slice_put_bytes; [apply Hlen| |]. }
  eexists _, _. split; [done|]. split; [done|]. split.
  - unfold cow_flat. cbn [fst]. rewrite Hview, Hv1.
    rewrite <- page_base_nat by done.
    apply (paged_put page_nat _ _ p); [by apply view_paged | done | done | by rewrite page_nat_Z | done].
  - destruct (privatised_trans _ _ _ _ _ _ _ Hpv Hk p' eq_refl) as (? & ? & ? & ? & ? & ?).
    split; try done.
    + intros k q Hq. cbn. rewrite list_lookup_insert. case_decide; [eauto|].
      destruct (pv_owned _ _ _ _ Hpv k q Hq) as [x Hx]. destruct (cow_pages r1 !! k) as [[y|]|] eqn:Ek; cbn in Hx; try done.
      eauto.
    + pose proof (shared_count_insert _ _ _ p' Hk) as Hcount.
      destruct (pv_epoch _ _ _ _ Hpv) as [(E1 & E2 & ->)|(E1 & E2 & k0 & p0 & Hk0 & Ep0)].
      * left. split; [done|]. split; [done|]. split; [cbn; lia|]. intros k Hn. cbn. rewrite list_lookup_insert.
        case_decide as Hc; [|done]. destruct Hc as [<- _]. congruence.
      * right. exists 0%nat. rewrite E2. split; [done|]. split.
        { cbn. rewrite E1, Z.add_0_r. symmetry. by apply wrap_id. }
        cbn. pose proof (shared_count_insert _ _ _ p0 Hk0) as Hcount0. rewrite <- Ep0 in Hcount0. cbn in *. lia.
Qed.

(** Epochs only grow, as long as the counter has one left for every page. *)
Lemma written_epochs r r' source source' :
  written r r' source source' → 0 <= cow_epoch r < source → source + Z.of_nat (shared_count (cow_pages r)) < 2 ^ 64 →
  0 <= cow_epoch r' < source' ∧ source' + Z.of_nat (shared_count (cow_pages r')) < 2 ^ 64 ∧
  (cow_epoch r' = cow_epoch r ∧ (∀ k, cow_pages r !! k = Some None → cow_pages r' !! k = Some None)
   ∨ cow_epoch r < cow_epoch r').
Proof.
  intros [_ _ _ _ _ _ _ [(-> & -> & -> & N)|(j & -> & -> & Hc)]] He Hs; [auto|].
  unfold as_u64. rewrite !wrap_id by (unfold is_word; lia). split; [lia|]. split; [lia|]. right. lia.
Qed.

(** *** Reads are slices *)

Lemma page_read idx n r :
  cow_wf r → 0 <= idx → (0 < n)%nat → idx_off idx + Z.of_nat n <= PAGE_SIZE →
  match page_ref (idx_page idx) r with
  | Some p => slice_get p (idx_off idx) n
  | None => None
  end = slice_get (cow_flat r) idx n.
Proof.
  intros Hr Hi Hn Hoff. destruct (idx_split idx Hi) as (Hp & Ho & E). rewrite (page_ref_view _ r Hr Hp).
  replace (slice_get (cow_flat r) idx n) with (slice_get (cow_flat r) (idx_page idx * PAGE_SIZE + idx_off idx) n)
    by (by rewrite <- E).
  unfold cow_flat. rewrite <- page_base_nat by done.
  destruct (cow_view r !! Z.to_nat (idx_page idx)) as [p|] eqn:Ev.
  - rewrite (paged_slice page_nat _ _ p); [done | by apply view_paged | done | lia | by rewrite page_nat_Z].
  - rewrite (paged_slice_out page_nat); [done | by apply view_paged | done | lia | done].
Qed.

Lemma read_into_flat fuel idx n r :
  cow_wf r → 0 <= idx → (n <= fuel)%nat → (0 < n)%nat →
  read_into_loop fuel idx (Z.of_nat n) r = slice_get (cow_flat r) idx n.
Proof.
  intros Hr. revert idx n. induction fuel as [|fuel IH]; intros idx n Hi Hf Hn; [lia|]. cbn [read_into_loop].
  replace (0 <? Z.of_nat n) with true by (symmetry; lia).
  destruct (idx_split idx Hi) as (Hp & Ho & E). set (m := Z.to_nat (Z.min (PAGE_SIZE - idx_off idx) (Z.of_nat n))).
  assert (Hm : Z.min (PAGE_SIZE - idx_off idx) (Z.of_nat n) = Z.of_nat m) by (unfold m; lia). rewrite Hm.
  pose proof (page_read idx m r Hr Hi ltac:(lia) ltac:(lia)) as Hread.
  replace (slice_get (cow_flat r) idx n) with (slice_get (cow_flat r) idx (m + (n - m))) by (f_equal; lia).
  clearbody m. rewrite slice_get_app.
  replace (Z.of_nat n - Z.of_nat m) with (Z.of_nat (n - m)) by lia.
  destruct (decide (n = m)) as [<-|Hne].
  - rewrite Nat.sub_diag. rewrite <- Hread. destruct (page_ref _ _) as [p|]; [|done].
    destruct (slice_get p (idx_off idx) n) as [bytes|] eqn:G; [|done].
    destruct fuel; cbn [read_into_loop Z.of_nat]; rewrite Z.ltb_irrefl;
      unfold slice_get; replace (_ && _) with true; try done; symmetry; symmetry in Hread; apply andb_true_intro;
      revert Hread; unfold slice_get; (destruct (_ && _) eqn:Eb; [|done]); bools; split; apply Z.leb_le; lia.
  - rewrite (IH (idx + Z.of_nat m) (n - m)%nat) by lia. rewrite <- Hread.
    destruct (page_ref _ _) as [p|]; [|done]. done.
Qed.

Lemma read_into_is_slice idx n r :
  cow_wf r → 0 <= idx → (0 < n)%nat → read_into idx (Z.of_nat n) r = slice_get (cow_flat r) idx n.
Proof. intros. unfold read_into. rewrite Nat2Z.id. by apply read_into_flat. Qed.

Lemma cow_read_wide_is_slice n idx r :
  cow_wf r → 0 <= idx → (0 < n)%nat →
  cow_read_wide n idx r = from_le_bytes <$> slice_get (cow_flat r) idx n.
Proof.
  intros Hr Hi Hn. unfold cow_read_wide. cbv zeta. case_if; bools; [|by rewrite read_into_is_slice].
  rewrite <- (page_read idx n r) by done. by destruct (page_ref _ _).
Qed.

Lemma cow_read_u8_is_slice idx r :
  cow_wf r → 0 <= idx → cow_read_u8 idx r = from_le_bytes <$> slice_get (cow_flat r) idx 1.
Proof.
  intros Hr Hi. destruct (idx_split idx Hi) as (Hp & Ho & E). rewrite <- (page_read idx 1 r) by (done || lia).
  unfold cow_read_u8. destruct (page_ref _ _) as [p|]; [|done]. rewrite slice_get_lookup by lia.
  destruct (p !! _); [|done]. cbn. by rewrite Z.shiftl_0_l, Z.add_0_r.
Qed.

Lemma cow_read_u16_is_slice idx r :
  cow_wf r → 0 <= idx → cow_read_u16 idx r = from_le_bytes <$> slice_get (cow_flat r) idx 2.
Proof.
  intros Hr Hi. unfold cow_read_u16. cbv zeta. case_if; bools.
  - rewrite <- (page_read idx 2 r) by (done || lia). by destruct (page_ref _ _).
  - rewrite !cow_read_u8_is_slice by (done || lia). rewrite (slice_get_app _ _ 1 1).
    rewrite !slice_get_lookup by lia. change (Z.of_nat 1) with 1.
    destruct (_ !! Z.to_nat idx), (_ !! Z.to_nat (idx + 1)); cbn; try done.
    by rewrite !Z.shiftl_0_l, !Z.add_0_r.
Qed.

(** *** Writes are slice updates *)

Definition writes (op : ST (CowRam * Z) unit) (idx : Z) (bytes : list Z) : Prop :=
  ∀ r source, cow_wf r → is_u64 source →
  match slice_put (cow_flat r) idx bytes with
  | Some l => ∃ r' source', op (r, source) = Some (tt, (r', source')) ∧ cow_wf r' ∧ cow_flat r' = l ∧
                            written r r' source source'
  | None => op (r, source) = None
  end.

Lemma written_source r r' source source' : is_u64 source → written r r' source source' → is_u64 source'.
Proof. intros Hs [_ _ _ _ _ _ _ [(_ & -> & _)|(j & -> & _)]]; [done|]. apply wrap_range. lia. Qed.

Lemma slice_put_out r page off bytes :
  cow_wf r → 0 <= page → 0 <= off → bytes ≠ [] → page_ref page r = None →
  slice_put (cow_flat r) (page * PAGE_SIZE + off) bytes = None.
Proof.
  intros Hr Hp H0 Hne Hn. rewrite page_ref_view, view_lookup in Hn by done.
  destruct (cow_pages r !! Z.to_nat page) as [o|] eqn:E; [done|]. apply lookup_ge_None in E.
  unfold slice_put. rewrite flat_length by done. replace (_ && _) with false; [done|].
  symmetry. apply andb_false_intro2, Z.leb_gt. pose proof page_nat_Z as Hz.
  destruct bytes; [done|]. cbn [length]. nia.
Qed.

Lemma update_page_writes idx bytes :
  0 <= idx → bytes ≠ [] → Forall is_u8 bytes → idx_off idx + Z.of_nat (length bytes) <= PAGE_SIZE →
  writes (update_page (idx_page idx) (idx_off idx) bytes) idx bytes.
Proof.
  intros Hi Hne Hb Hoff r source Hr Hs. destruct (idx_split idx Hi) as (Hp & Ho & E).
  pose proof (update_page_spec (idx_page idx) (idx_off idx) bytes r source Hr Hp ltac:(lia) Hoff Hs Hb) as Hu.
  destruct (page_ref (idx_page idx) r) as [p|] eqn:Epr.
  - destruct Hu as (r' & s' & Eu & Hr' & Hput & Hw). rewrite <- E in Hput. rewrite Hput. eauto 10.
  - pose proof (slice_put_out r (idx_page idx) (idx_off idx) bytes Hr Hp ltac:(lia) Hne Epr) as Hout.
    rewrite <- E in Hout. by rewrite Hout.
Qed.

Lemma write_from_writes fuel idx bytes :
  0 <= idx → (length bytes <= fuel)%nat → bytes ≠ [] → Forall is_u8 bytes →
  writes (write_from_loop fuel idx bytes) idx bytes.
Proof.
  revert idx bytes. induction fuel as [|fuel IH]; intros idx bytes Hi Hf Hne Hb r source Hr Hs.
  { destruct bytes; [done | cbn in Hf; lia]. }
  destruct (idx_split idx Hi) as (Hp & Ho & E).
  assert (Eloop : write_from_loop (S fuel) idx bytes
    = let n := Z.min (PAGE_SIZE - idx_off idx) (Z.of_nat (length bytes)) in
      update_page (idx_page idx) (idx_off idx) (take (Z.to_nat n) bytes);;
      write_from_loop fuel (idx + n) (drop (Z.to_nat n) bytes)) by (by destruct bytes).
  rewrite Eloop. cbv zeta. clear Eloop. set (m := Z.to_nat (Z.min (PAGE_SIZE - idx_off idx) (Z.of_nat (length bytes)))).
  assert (Hlen : (0 < length bytes)%nat) by (destruct bytes; [done | cbn; lia]).
  assert (Hm : Z.min (PAGE_SIZE - idx_off idx) (Z.of_nat (length bytes)) = Z.of_nat m) by (unfold m; lia).
  rewrite Hm. assert (Hm0 : (0 < m <= length bytes)%nat) by lia. assert (Hmp : idx_off idx + Z.of_nat m <= PAGE_SIZE) by lia.
  clearbody m. assert (Htl : length (take m bytes) = m) by (rewrite length_take; lia).
  assert (Hupd : writes (update_page (idx_page idx) (idx_off idx) (take m bytes)) idx (take m bytes)).
  { apply update_page_writes; [done| |by apply Forall_take | by rewrite Htl].
    intros Hz. rewrite Hz in Htl. cbn in Htl. lia. }
  specialize (Hupd r source Hr Hs). destruct (decide (m = length bytes)) as [Hall|Hpart].
  { assert (Et : take m bytes = bytes) by (apply take_ge; lia). assert (Ed : drop m bytes = []) by (apply drop_ge; lia).
    rewrite Et in *. rewrite Ed. destruct (slice_put (cow_flat r) idx bytes) as [l|]; [|by run_st; rewrite Hupd].
    destruct Hupd as (r1 & s1 & Eu & Hup). exists r1, s1. split; [|done]. run_st. rewrite Eu. by destruct fuel. }
  replace (slice_put (cow_flat r) idx bytes) with (slice_put (cow_flat r) idx (take m bytes ++ drop m bytes))
    by (by rewrite take_drop).
  rewrite slice_put_app, Htl. unfold mbind, ST_bind.
  destruct (slice_put (cow_flat r) idx (take m bytes)) as [l|]; [|by rewrite Hupd].
  destruct Hupd as (r1 & s1 & -> & Hr1 & <- & Hw1). pose proof (written_source _ _ _ _ Hs Hw1) as Hs1.
  specialize (IH (idx + Z.of_nat m) (drop m bytes) ltac:(lia) ltac:(rewrite length_drop; lia)).
  specialize (IH ltac:(intros Ed; apply (f_equal length) in Ed; rewrite length_drop in Ed; cbn in Ed; lia)).
  specialize (IH ltac:(by apply Forall_drop) r1 s1 Hr1 Hs1).
  destruct (slice_put (cow_flat r1) (idx + Z.of_nat m) (drop m bytes)) as [l|]; [|done].
  destruct IH as (r2 & s2 & E2 & Hr2 & Hf2 & Hw2). exists r2, s2. split; [done|]. split; [done|]. split; [done|].
  by eapply written_trans.
Qed.

Lemma cow_write_u8_writes idx val : 0 <= idx → is_u8 val → writes (cow_write_u8 idx val) idx [val].
Proof.
  intros Hi Hv. destruct (idx_split idx Hi) as (Hp & Ho & E). unfold cow_write_u8.
  refine (update_page_writes idx [val] Hi _ _ _); [done | by constructor | cbn [length]; lia].
Qed.

Lemma cow_write_wide_writes n idx val :
  0 <= idx → (0 < n)%nat → writes (cow_write_wide n idx val) idx (to_le_bytes n val).
Proof.
  intros Hi Hn. unfold cow_write_wide. cbv zeta.
  assert (Hne : to_le_bytes n val ≠ []) by (by destruct n; [lia|]). case_if; bools.
  - apply update_page_writes; [done | done | apply to_le_bytes_bytes | by rewrite length_to_le_bytes].
  - unfold write_from. apply write_from_writes; [done | done | done | apply to_le_bytes_bytes].
Qed.

(** ** Construction *)

Lemma flat_replicate base n :
  length base = (page_nat * n)%nat →
  mjoin (imap (fun k o => default (shared_page base k) o) (replicate n None)) = base.
Proof.
  revert base. induction n as [|n IH]; intros base Hl; cbn [replicate].
  - rewrite Nat.mul_0_r in Hl. by apply nil_length_inv in Hl as ->.
  - rewrite imap_cons. change (mjoin (?p :: ?ls)) with (p ++ mjoin ls). cbn [default].
    transitivity (take page_nat base ++ drop page_nat base); [f_equal | apply take_drop].
    transitivity (mjoin (imap (fun k o => default (shared_page (drop page_nat base) k) o) (replicate n None)));
      [|apply IH; rewrite length_drop; nia].
    f_equal. apply imap_ext.
    intros k o _. destruct o; [done|]. cbn. unfold shared_page. rewrite drop_drop. do 2 f_equal. lia.
Qed.

(** A RAM whose pages are all shared is its base. *)
Lemma shared_ram_flat r n :
  cow_pages r = replicate n None → length (cow_base r) = (page_nat * n)%nat → Forall is_u8 (cow_base r) →
  cow_wf r ∧ cow_flat r = cow_base r.
Proof.
  intros Hp Hl Hb. split.
  - split; [by rewrite Hp, length_replicate | done|]. intros k p. rewrite Hp. intros [[=] _]%lookup_replicate.
  - unfold cow_flat, cow_view. rewrite Hp. by apply flat_replicate.
Qed.

Lemma padded_pages (padded : list Z) :
  (length padded mod page_nat = 0)%nat →
  length padded = (page_nat * Z.to_nat (Z.of_nat (length padded) / PAGE_SIZE))%nat.
Proof.
  intros Hm. rewrite <- page_nat_Z, <- Nat2Z.inj_div, Nat2Z.id.
  pose proof (Nat.div_mod_eq (length padded) page_nat). lia.
Qed.

Lemma from_padded_flat padded logical_len ram_size source :
  (length padded mod page_nat = 0)%nat → Forall is_u8 padded →
  ∃ r, from_padded padded logical_len ram_size source = Some (r, as_u64 (source + 1)) ∧
       cow_wf r ∧ cow_flat r = padded ∧ cow_len r = logical_len ∧ cow_mask r = wrapping_sub64 ram_size 1 ∧
       cow_epoch r = source.
Proof.
  intros Hm Hb. eexists. split; [done|].
  match goal with |- cow_wf ?r ∧ _ => destruct (shared_ram_flat r _ eq_refl (padded_pages padded Hm) Hb) as [Hw Hf] end.
  done.
Qed.

Lemma set_base_flat padded r source :
  (length padded mod page_nat = 0)%nat → Forall is_u8 padded →
  ∃ r', set_base padded (r, source) = Some (tt, (r', as_u64 (source + 1))) ∧
        cow_wf r' ∧ cow_flat r' = padded ∧ cow_len r' = cow_len r ∧ cow_mask r' = cow_mask r.
Proof.
  intros Hm Hb. eexists. split; [done|].
  match goal with |- cow_wf ?r ∧ _ => destruct (shared_ram_flat r _ eq_refl (padded_pages padded Hm) Hb) as [Hw Hf] end.
  done.
Qed.

Lemma padded_len_mod n : 0 <= n < 2 ^ 63 → (Z.to_nat (padded_len n) mod page_nat = 0)%nat ∧ n <= padded_len n < n + PAGE_SIZE.
Proof.
  intros Hn. unfold padded_len, div_ceil, as_u64. rewrite wrap_id.
  2: { unfold is_word, PAGE_SIZE. Z.div_mod_to_equations. lia. }
  split.
  - rewrite <- (Nat2Z.id page_nat), page_nat_Z. rewrite <- Z2Nat.inj_mod.
    + by rewrite Z.mod_mul.
    + unfold PAGE_SIZE. Z.div_mod_to_equations. lia.
    + done.
  - unfold PAGE_SIZE. Z.div_mod_to_equations. lia.
Qed.

(** A new RAM is zero, eight bytes longer than asked for and padded to a page. *)
Lemma cow_new_flat ram_size source :
  0 <= ram_size < 2 ^ 62 →
  ∃ r, cow_new ram_size source = Some (r, as_u64 (source + 1)) ∧ cow_wf r ∧
       cow_flat r = replicate (Z.to_nat (padded_len (ram_size + 8))) 0 ∧ cow_len r = ram_size + 8.
Proof.
  intros Hs. unfold cow_new. cbv zeta. assert (E : wrapping_add64 ram_size 8 = ram_size + 8).
  { apply wrap_id. unfold is_word. lia. }
  rewrite E. destruct (padded_len_mod (ram_size + 8) ltac:(lia)) as [Hm _].
  destruct (from_padded_flat (replicate (Z.to_nat (padded_len (ram_size + 8))) 0) (ram_size + 8) ram_size source)
    as (r & Er & Hr & Hf & Hl & _); [by rewrite length_replicate | by apply Forall_replicate|]. eauto 10.
Qed.

(** A clone sees the base: none of the private pages of the original. *)
Lemma clone_shared_flat r source :
  cow_wf r →
  ∃ r', clone_shared r source = Some (r', as_u64 (source + 1)) ∧ cow_wf r' ∧ cow_flat r' = cow_base r ∧
        cow_len r' = cow_len r ∧ cow_mask r' = cow_mask r ∧ length (cow_pages r') = length (cow_pages r).
Proof.
  intros Hr. eexists. split; [done|].
  match goal with |- cow_wf ?r' ∧ _ => destruct (shared_ram_flat r' _ eq_refl (wf_base r Hr) (wf_base_bytes r Hr)) as [Hw Hf] end.
  split; [done|]. split; [done|]. cbn. by rewrite length_replicate.
Qed.

(** *** Saving the whole memory *)

Lemma write_all_loop_slice fuel page remaining r :
  cow_wf r → 0 <= page → 0 < remaining <= Z.of_nat fuel * PAGE_SIZE →
  write_all_loop fuel page remaining r = slice_get (cow_flat r) (page * PAGE_SIZE) (Z.to_nat remaining).
Proof.
  intros Hr. revert page remaining. induction fuel as [|fuel IH]; intros page remaining Hp Hrem; [lia|].
  cbn [write_all_loop]. replace (0 <? remaining) with true by (symmetry; lia). cbv zeta.
  assert (HP : PAGE_SIZE = 4096) by done. set (n := Z.min remaining PAGE_SIZE).
  pose proof (page_read (page * PAGE_SIZE) (Z.to_nat n) r Hr ltac:(lia) ltac:(lia)) as Hread.
  assert (Ep : idx_page (page * PAGE_SIZE) = page).
  { unfold idx_page. rewrite Z.shiftr_div_pow2, HP by lia. by rewrite Z.div_mul. }
  assert (Eo : idx_off (page * PAGE_SIZE) = 0).
  { unfold idx_off. rewrite HP. change (4096 - 1) with (Z.ones 12). rewrite Z.land_ones by lia. by apply Z.mod_mul. }
  rewrite Ep, Eo in Hread. specialize (Hread ltac:(lia)).
  replace (Z.to_nat remaining) with (Z.to_nat n + Z.to_nat (remaining - n))%nat by lia.
  rewrite slice_get_app, Z2Nat.id by lia. rewrite <- Hread.
  destruct (page_ref page r) as [p|]; [|done]. destruct (slice_get p 0 (Z.to_nat n)) as [bytes|] eqn:G; [|done].
  destruct (decide (remaining - n = 0)) as [Hz|Hnz].
  - rewrite Hz. assert (write_all_loop fuel (page + 1) 0 r = Some []) as -> by (by destruct fuel).
    unfold slice_get. replace (_ && _) with true; [done|]. symmetry. symmetry in Hread. revert Hread. unfold slice_get.
    destruct (_ && _) eqn:Eb; [|done]. bools. intros _. apply andb_true_intro. split; apply Z.leb_le; lia.
  - rewrite IH by lia. replace ((page + 1) * PAGE_SIZE) with (page * PAGE_SIZE + n) by lia. done.
Qed.

Lemma write_all_to_slice r :
  cow_wf r → 0 < cow_len r → write_all_to r = slice_get (cow_flat r) 0 (Z.to_nat (cow_len r)).
Proof.
  intros Hr Hl. unfold write_all_to. rewrite write_all_loop_slice; [done|done|done|].
  unfold div_ceil, PAGE_SIZE. Z.div_mod_to_equations. lia.
Qed.

(** ** Pages written by devices *)

Definition seen_bit (seen : list Z) (page : Z) : bool :=
  Z.testbit (default 0 (seen !! Z.to_nat (page / 64))) (page mod 64).

(** The table of seen bits is the list of pages, without repetition. *)
Record devs_wf (pages seen : list Z) : Prop := {
  dw_nodup : NoDup pages;
  dw_range p : p ∈ pages → is_u32 p;
  dw_words : Forall is_u64 seen;
  dw_bits p : 0 <= p → seen_bit seen p = true ↔ p ∈ pages
}.

Lemma page_word_eq p q : 0 <= p → 0 <= q → Z.to_nat (p / 64) = Z.to_nat (q / 64) → p mod 64 = q mod 64 → p = q.
Proof.
  intros Hp Hq H1 H2. pose proof (Z.div_mod p 64 ltac:(lia)). pose proof (Z.div_mod q 64 ltac:(lia)).
  pose proof (Z.div_pos p 64). pose proof (Z.div_pos q 64). lia.
Qed.

Lemma testbit_shl1 p i : 0 <= p → 0 <= i < 64 → Z.testbit (shl64 1 (p mod 64)) i = bool_decide (i = p mod 64).
Proof.
  intros Hp Hi. pose proof (Z.mod_pos_bound p 64 ltac:(lia)). rewrite shl64_bits by lia.
  replace (i <? 64) with true by (symmetry; lia). cbn. case_bool_decide as E.
  - by rewrite E, Z.sub_diag.
  - destruct (Z.lt_ge_cases i (p mod 64)); [by rewrite Z.testbit_neg_r by lia|].
    replace 1 with (2 ^ 0) by done. by rewrite Z.pow2_bits_false by lia.
Qed.

(** Updating one word of the table. *)
Lemma seen_bit_insert seen p q v :
  0 <= p → 0 <= q → (Z.to_nat (p / 64) < length seen)%nat →
  seen_bit (<[Z.to_nat (p / 64) := v]> seen) q
  = if bool_decide (Z.to_nat (p / 64) = Z.to_nat (q / 64)) then Z.testbit v (q mod 64) else seen_bit seen q.
Proof.
  intros Hp Hq Hl. unfold seen_bit. rewrite list_lookup_insert. case_bool_decide as E; rewrite ?E.
  - rewrite decide_True by (rewrite <- E; done). done.
  - rewrite decide_False by tauto. done.
Qed.

Lemma seen_bit_grow seen n p : seen_bit (grow_seen seen n) p = seen_bit seen p.
Proof.
  unfold seen_bit, grow_seen. destruct (decide (Z.to_nat (p / 64) < length seen)%nat) as [H|H].
  - by rewrite lookup_app_l.
  - rewrite lookup_app_r by lia. rewrite (lookup_ge_None_2 seen) by lia.
    destruct (replicate _ 0 !! _) as [x|] eqn:E; [|done]. by apply lookup_replicate in E as [-> _].
Qed.

Lemma seen_word (seen : list Z) p : (Z.to_nat (p / 64) < length seen)%nat →
  seen !! Z.to_nat (p / 64) = Some (seen !!! Z.to_nat (p / 64)).
Proof. intros H. by apply list_lookup_lookup_total_lt. Qed.

Lemma note_page_wf page r :
  is_u32 page → devs_wf (device_written_pages r) (device_written_seen r) →
  devs_wf (device_written_pages (note_page page r)) (device_written_seen (note_page page r)) ∧
  ∀ q, q ∈ device_written_pages (note_page page r) ↔ q = page ∨ q ∈ device_written_pages r.
Proof.
  intros Hpage [Hnd Hrg Hwd Hb]. unfold note_page. cbv zeta. unfold is_word in Hpage.
  set (seen := if (length (device_written_seen r) <=? Z.to_nat (page / 64))%nat
               then grow_seen (device_written_seen r) (S (Z.to_nat (page / 64))) else device_written_seen r).
  assert (Hbits : ∀ q, seen_bit seen q = seen_bit (device_written_seen r) q)
    by (intros q; unfold seen; case_if; [apply seen_bit_grow | done]).
  assert (Hwords : Forall is_u64 seen).
  { unfold seen. case_if; [|done]. apply Forall_app_2; [done|]. by apply Forall_replicate. }
  assert (Hlen : (Z.to_nat (page / 64) < length seen)%nat).
  { unfold seen. case_if; [|apply Nat.leb_gt in E; lia]. apply Nat.leb_le in E.
    unfold grow_seen. rewrite length_app, length_replicate. lia. }
  clearbody seen. pose proof (seen_word seen page Hlen) as Hw. set (bits := seen !!! _) in *.
  assert (Hbit : (Z.land bits (shl64 1 (page mod 64)) =? 0) = negb (seen_bit seen page)).
  { unfold seen_bit. rewrite Hw. change (default 0 (Some bits)) with bits. pose proof (Z.mod_pos_bound page 64 ltac:(lia)).
    rewrite <- (land_bit_test bits (page mod 64)), negb_involutive by lia. do 2 f_equal.
    apply wrap_id. rewrite Z.shiftl_1_l. unfold is_word. split; [lia|]. apply Z.pow_lt_mono_r; lia. }
  rewrite Hbit. destruct (seen_bit seen page) eqn:Es; cbn [negb].
  - assert (Hin : page ∈ device_written_pages r) by (apply Hb; [lia|]; by rewrite <- Hbits).
    split.
    + split; cbn; try done. intros p Hp. rewrite Hbits. by apply Hb.
    + cbn. intros q. split; [auto|]. by intros [->|].
  - assert (Hnin : page ∉ device_written_pages r) by (rewrite <- Hb by lia; by rewrite <- Hbits, Es).
    cbn. unfold as_u32. rewrite (wrap_id 32 page) by done.
    assert (Hmem : ∀ q, q ∈ device_written_pages r ++ [page] ↔ q = page ∨ q ∈ device_written_pages r).
    { intros q. rewrite elem_of_app, list_elem_of_singleton. tauto. }
    split; [|done]. split.
    + apply list.NoDup_app. split; [done|]. split; [|apply NoDup_singleton]. intros q Hq. rewrite list_elem_of_singleton. congruence.
    + intros q [->|Hq]%Hmem; [done | by apply Hrg].
    + apply Forall_insert; [done|]. apply lor_word; [lia| |apply wrap_range; lia].
      by apply (Forall_lookup_1 _ _ _ _ Hwords Hw).
    + intros q Hq. rewrite Hmem, seen_bit_insert by (done || lia). case_bool_decide as Eq.
      * rewrite Z.lor_spec, testbit_shl1 by (lia || apply Z.mod_pos_bound; lia).
        rewrite orb_true_iff, bool_decide_eq_true.
        rewrite <- Hb by done. rewrite <- Hbits. unfold seen_bit at 1. rewrite <- Eq, Hw. change (default 0 (Some bits)) with bits.
        split; [intros [?|?]; [auto | left; apply page_word_eq; auto; lia] | intros [->|?]; auto].
      * rewrite Hbits, Hb by done. split; [auto|]. by intros [->|].
Qed.

Definition devs_ok (r : CowRam) : Prop := devs_wf (device_written_pages r) (device_written_seen r).

Lemma note_pages_wf ks first r :
  devs_ok r → Forall (fun k => is_u32 (first + Z.of_nat k)) ks →
  let r' := foldl (fun r k => note_page (first + Z.of_nat k) r) r ks in
  devs_ok r' ∧ ∀ q, q ∈ device_written_pages r' ↔ (∃ k, k ∈ ks ∧ q = first + Z.of_nat k) ∨ q ∈ device_written_pages r.
Proof.
  revert r. induction ks as [|k ks IH]; intros r Hr Hks; cbn [foldl].
  { split; [done|]. intros q. split; [auto|]. by intros [(k & Hk & _)|]; [inversion Hk|]. }
  inversion Hks as [|? ? Hk Hks']; subst. destruct (note_page_wf _ r Hk Hr) as [Hr1 Hm1].
  destruct (IH _ Hr1 Hks') as [Hr2 Hm2]. split; [done|]. intros q. rewrite Hm2, Hm1. split.
  - intros [(j & Hj & ->)|[->|?]]; [left; exists j; split; [by constructor|done] | left; exists k; split; [constructor|done] | auto].
  - intros [(j & [->|Hj]%elem_of_cons & ->)|?]; eauto.
Qed.

Lemma note_page_memory page r :
  cow_base (note_page page r) = cow_base r ∧ cow_pages (note_page page r) = cow_pages r ∧
  cow_len (note_page page r) = cow_len r ∧ cow_mask (note_page page r) = cow_mask r ∧
  cow_epoch (note_page page r) = cow_epoch r.
Proof. unfold note_page. cbv zeta. case_if; done. Qed.

(** Noting a write does not touch the memory. *)
Definition same_memory (r r' : CowRam) : Prop :=
  cow_base r' = cow_base r ∧ cow_pages r' = cow_pages r ∧ cow_len r' = cow_len r ∧
  cow_mask r' = cow_mask r ∧ cow_epoch r' = cow_epoch r.

Lemma note_device_write_memory index len r : same_memory r (note_device_write index len r).
Proof.
  unfold note_device_write. case_if; [done|]. cbv zeta. generalize (seq 0 (Z.to_nat
    (wrapping_sub64 (index + len) 1 / PAGE_SIZE - index / PAGE_SIZE + 1))). intros ks. revert r.
  induction ks as [|k ks IH]; intros r; cbn [foldl]; [done|].
  destruct (note_page_memory (index / PAGE_SIZE + Z.of_nat k) r) as (A & B & C & D & F).
  destruct (IH (note_page (index / PAGE_SIZE + Z.of_nat k) r)) as (A' & B' & C' & D' & F').
  unfold same_memory. rewrite A', B', C', D', F'. done.
Qed.

Lemma same_memory_flat r r' : same_memory r r' → (cow_wf r → cow_wf r') ∧ cow_flat r' = cow_flat r.
Proof.
  intros (Hb & Hp & _). split.
  - intros [H1 H2 H3]. split; [by rewrite Hb, Hp | by rewrite Hb | by rewrite Hp].
  - unfold cow_flat, cow_view. by rewrite Hb, Hp.
Qed.

(** Clearing the bits of the listed pages. *)
Lemma clear_seen_spec pages seen :
  (∀ p, p ∈ pages → 0 <= p ∧ (Z.to_nat (p / 64) < length seen)%nat) → Forall is_u64 seen →
  ∃ seen', clear_seen pages seen = Some seen' ∧ Forall is_u64 seen' ∧
    ∀ q, 0 <= q → seen_bit seen' q = true ↔ seen_bit seen q = true ∧ q ∉ pages.
Proof.
  revert seen. induction pages as [|p pages IH]; intros seen Hp Hw; cbn [clear_seen].
  { exists seen. split; [done|]. split; [done|]. intros q _. split; [|tauto]. intros ?. split; [done | apply not_elem_of_nil]. }
  destruct (Hp p) as [Hp0 Hlt]; [constructor|]. rewrite (seen_word seen p Hlt). set (bits := seen !!! _).
  destruct (IH (<[Z.to_nat (p / 64) := Z.land bits (not64 (shl64 1 (p mod 64)))]> seen)) as (seen' & E & Hw' & Hb').
  { intros q Hq. rewrite length_insert. apply Hp. by constructor. }
  { apply Forall_insert; [done|]. apply land_word_r; [lia | apply not64_word]. }
  exists seen'. split; [done|]. split; [done|]. intros q Hq. rewrite Hb', seen_bit_insert, not_elem_of_cons by done.
  case_bool_decide as Eq; [|split; [|tauto]; intros [? ?]; split; [done|]; split; [by intros ->|done]].
  pose proof (Z.mod_pos_bound q 64 ltac:(lia)).
  rewrite Z.land_spec, not64_testbit, testbit_shl1 by lia. unfold seen_bit. rewrite <- Eq, seen_word by done.
  change (default 0 (Some (seen !!! Z.to_nat (p / 64)))) with bits.
  rewrite andb_true_iff, negb_true_iff, bool_decide_eq_false. split.
  - intros [[H1 H2] H3]. split; [done|]. split; [by intros ->|done].
  - intros [H1 [H2 H3]]. split; [|done]. split; [done|]. intros Hm. apply H2. by apply page_word_eq.
Qed.

Lemma seen_bit_length seen p : seen_bit seen p = true → (Z.to_nat (p / 64) < length seen)%nat.
Proof.
  unfold seen_bit. intros H. destruct (seen !! Z.to_nat (p / 64)) as [x|] eqn:E; [by eapply lookup_lt_Some|].
  cbn in H. by rewrite Z.testbit_0_l in H.
Qed.

Lemma drain_spec r :
  devs_ok r →
  ∃ r', cow_drain_device_written_pages r = Some (device_written_pages r, r') ∧
        same_memory r r' ∧ device_written_pages r' = [] ∧ devs_ok r'.
Proof.
  intros [Hnd Hrg Hwd Hb]. unfold cow_drain_device_written_pages.
  destruct (clear_seen_spec (device_written_pages r) (device_written_seen r)) as (seen & E & Hw & Hbits).
  { intros p Hp. split; [apply (Hrg p Hp)|]. apply seen_bit_length. apply Hb; [apply (Hrg p Hp) | done]. }
  { done. }
  rewrite E. eexists. split; [done|]. split; [done|]. split; [done|]. split; cbn; [constructor | intros p Hp; inversion Hp | done|].
  intros p Hp. rewrite Hbits, Hb by done. split; [tauto|]. intros Hin. inversion Hin.
Qed.

(** ** Claims *)

(** C18: copy-on-write RAM refines a flat array of bytes.  Every read of a
    well-formed RAM, at its width, is the corresponding slice of [cow_flat], and
    panics exactly when the slice is out of range; every write is the slice
    update (again panicking exactly out of range), keeps the RAM well formed, and
    changes the rest of the structure only by making pages private and taking a
    new epoch for it.  The loops across pages always finish. *)
Theorem cow_ram_is_flat_memory r source idx n val :
  cow_wf r → is_u64 source → 0 <= idx → (0 < n)%nat → is_u8 val →
  (cow_read_u8 idx r = from_le_bytes <$> slice_get (cow_flat r) idx 1 ∧
   cow_read_u16 idx r = from_le_bytes <$> slice_get (cow_flat r) idx 2 ∧
   cow_read_u32 idx r = from_le_bytes <$> slice_get (cow_flat r) idx 4 ∧
   cow_read_u64 idx r = from_le_bytes <$> slice_get (cow_flat r) idx 8 ∧
   read_into idx (Z.of_nat n) r = slice_get (cow_flat r) idx n) ∧
  (writes (cow_write_u8 idx val) idx [val] ∧
   ∀ v, writes (cow_write_u16 idx v) idx (to_le_bytes 2 v) ∧
        writes (cow_write_u32 idx v) idx (to_le_bytes 4 v) ∧
        writes (cow_write_u64 idx v) idx (to_le_bytes 8 v)) ∧
  ∀ bytes, Forall is_u8 bytes → bytes ≠ [] → writes (write_from idx bytes) idx bytes.
Proof.
  intros Hr Hs Hi Hn Hv. split; [|split].
  - rewrite cow_read_u8_is_slice, cow_read_u16_is_slice, read_into_is_slice by done.
    unfold cow_read_u32, cow_read_u64. by rewrite !cow_read_wide_is_slice by (done || lia).
  - split; [by apply cow_write_u8_writes|]. intros v.
    split; [|split]; apply cow_write_wide_writes; (done || lia).
  - intros bytes Hb Hne. by apply write_from_writes.
Qed.

(** Device writes are reported once.  After a device wrote [len] bytes at
    [index], draining yields the pages of that range and the pages that were
    pending before, each once; nothing is pending afterwards, and neither noting
    nor draining touches memory. *)
Theorem device_writes_reported index len r :
  devs_ok r → 0 <= index → 0 < len → index + len <= 2 ^ 44 →
  ∃ pages r', cow_drain_device_written_pages (note_device_write index len r) = Some (pages, r') ∧
    NoDup pages ∧
    (∀ q, q ∈ pages ↔ index / PAGE_SIZE <= q <= (index + len - 1) / PAGE_SIZE ∨ q ∈ device_written_pages r) ∧
    device_written_pages r' = [] ∧ devs_ok r' ∧ cow_flat r' = cow_flat r ∧ cow_epoch r' = cow_epoch r.
Proof.
  intros Hr Hi Hl Hb. pose proof (note_device_write_memory index len r) as Hm1.
  assert (Hpages : devs_ok (note_device_write index len r) ∧
    ∀ q, q ∈ device_written_pages (note_device_write index len r)
         ↔ index / PAGE_SIZE <= q <= (index + len - 1) / PAGE_SIZE ∨ q ∈ device_written_pages r).
  { unfold note_device_write. replace (len =? 0) with false by (symmetry; lia). cbv zeta.
    assert (Ew : wrapping_sub64 (index + len) 1 = index + len - 1) by (apply wrap_id; unfold is_word; lia). rewrite Ew.
    assert (Hrng : 0 <= index / PAGE_SIZE ∧ index / PAGE_SIZE <= (index + len - 1) / PAGE_SIZE ∧ (index + len - 1) / PAGE_SIZE < 2 ^ 32)
      by (unfold PAGE_SIZE; split; [apply Z.div_pos; lia|]; split;
          [apply Z.div_le_mono; lia | apply Z.div_lt_upper_bound; lia]).
    destruct (note_pages_wf (seq 0 (Z.to_nat ((index + len - 1) / PAGE_SIZE - index / PAGE_SIZE + 1))) (index / PAGE_SIZE) r Hr)
      as [Hok Hmem].
    { apply Forall_seq. intros j Hj. unfold is_word. lia. }
    split; [done|]. intros q. rewrite Hmem. split; (intros [H|H]; [left | by right]).
    - destruct H as (k & Hk & ->). apply elem_of_seq in Hk. lia.
    - exists (Z.to_nat (q - index / PAGE_SIZE)). rewrite elem_of_seq. lia. }
  destruct Hpages as [Hok Hmem]. destruct (drain_spec _ Hok) as (r' & E & Hm2 & Hnil & Hok').
  eexists _, r'. split; [exact E|]. split; [apply Hok|]. split; [done|]. split; [done|]. split; [done|].
  destruct (same_memory_flat _ _ Hm1) as [_ F1]. destruct (same_memory_flat _ _ Hm2) as [_ F2].
  destruct Hm1 as (_ & _ & _ & _ & E1), Hm2 as (_ & _ & _ & _ & E2). split; congruence.
Qed.

(** *** Witnesses *)

Definition demo_ram : CowRam := mkCow (replicate (Z.to_nat 8192) 7) [None; None] 4104 4095 1 [] [].

Lemma demo_ram_wf : cow_wf demo_ram.
Proof.
  apply (shared_ram_flat demo_ram 2); [done | |by apply Forall_replicate].
  cbn [cow_base demo_ram]. rewrite length_replicate. vm_compute. reflexivity.
Qed.

Lemma cow_ram_is_flat_memory_witness :
  cow_read_u32 4094 demo_ram = Some 0x07070707 ∧ writes (cow_write_u32 4094 5) 4094 (to_le_bytes 4 5).
Proof.
  destruct (cow_ram_is_flat_memory demo_ram 2 4094 1 0) as [(_ & _ & R & _) [[_ W] _]];
    [apply demo_ram_wf | done | done | lia | done|].
  split; [|exact (proj1 (proj2 (W 5)))]. rewrite R. vm_compute. reflexivity.
Defined.

Lemma devs_ok_fresh r : device_written_pages r = [] → device_written_seen r = [] → devs_ok r.
Proof.
  unfold devs_ok. intros -> ->. split; [constructor | intros p Hp; inversion Hp | constructor|].
  intros p _. split; [|intros Hp; inversion Hp]. unfold seen_bit. cbn. by rewrite Z.testbit_0_l.
Qed.

Lemma device_writes_reported_witness :
  ∃ pages r', cow_drain_device_written_pages (note_device_write 4094 4 demo_ram) = Some (pages, r') ∧ NoDup pages.
Proof.
  destruct (device_writes_reported 4094 4 demo_ram) as (pages & r' & E & Hnd & _); [by apply devs_ok_fresh | lia | lia | lia|].
  by exists pages, r'.
Defined.
