(* ===== verification/Layout.v ===== *)
(** The machine's address map and interrupt numbers ([machine/src/lib.rs]). *)
From S2P Require Import Prelude.

Definition RAM_BASE : Z := 0x80000000.
Definition UART_BASE : Z := 0x10000000.
Definition UART_SIZE : Z := 0x100.
Definition UART_IRQ : Z := 1.
Definition UART_STDERR_BASE : Z := 0x10000100.
Definition UART_STDERR_SIZE : Z := 0x100.
Definition UART_STDERR_IRQ : Z := 5.
Definition UART_CTRL_BASE : Z := 0x10000200.
Definition UART_CTRL_SIZE : Z := 0x100.
Definition UART_CTRL_IRQ : Z := 6.
Definition UART_DATA_BASE : Z := 0x10000300.
Definition UART_DATA_SIZE : Z := 0x100.
Definition UART_DATA_IRQ : Z := 7.
Definition VIRTIO_BASE : Z := 0x10001000.
Definition VIRTIO_SIZE : Z := 0x200.
Definition VIRTIO_BLK_IRQ : Z := 2.
Definition VIRTIO_CONSOLE_IRQ : Z := 3.
Definition VIRTIO_NET_IRQ : Z := 4.
Definition VIRTIO_FS_BASE_IRQ : Z := 8.
Definition VIRTIO_MAX_FS : Z := 8.
Definition GUEST_MAC : list Z := [0x52; 0x54; 0x00; 0x12; 0x34; 0x56].
Definition KERNEL_OFFSET : Z := 0x200000.
Definition LOW_RAM_BASE : Z := 0x00000000.
Definition LOW_RAM_SIZE : Z := 0x00010000.
