(* ===== verification/Clint.v ===== *)
(** The core-local interruptor: timer and software interrupt
    ([machine/src/clint.rs]).

    Time is a tick counter that advances with retired instructions or with host
    time; additions wrap (release build). *)
From S2P Require Import Prelude Words Io.

Definition CLINT_BASE : Z := 0x02000000.
Definition CLINT_SIZE : Z := 0x000c0000.
Definition TIMER_FREQUENCY : Z := 10000000.
Definition INSTRUCTIONS_PER_TICK : Z := 10.
Definition NANOS_PER_TICK : Z := 1000000000 / TIMER_FREQUENCY.

Record Clint := mkClint { mtimecmp : Z; msip : Z; mtime : Z; instruction_counter : Z }.
#[export] Instance Clint_eta : Eta Clint := fun c =>
  mkClint (mtimecmp c) (msip c) (mtime c) (instruction_counter c).

Definition clint_new : Clint := mkClint U64_MAX 0 0 0.

Definition advance_by_instructions (instructions : Z) (c : Clint) : Clint :=
  let c := c <| instruction_counter := wrapping_add64 (instruction_counter c) instructions |> in
  let c := c <| mtime := wrapping_add64 (mtime c) (instruction_counter c / INSTRUCTIONS_PER_TICK) |> in
  c <| instruction_counter := instruction_counter c mod INSTRUCTIONS_PER_TICK |>.

Definition advance_by_nanos (nanos : Z) (c : Clint) : Clint :=
  c <| mtime := wrapping_add64 (mtime c) (nanos / NANOS_PER_TICK) |>.

Definition nanos_until_timer (c : Clint) : option Z :=
  if (mtimecmp c =? U64_MAX) || (mtimecmp c <=? mtime c) then None
  else Some (wrapping_mul64 (mtimecmp c - mtime c) NANOS_PER_TICK).

Definition fast_forward_to_timer (c : Clint) : bool * Clint :=
  if negb (mtimecmp c =? U64_MAX) && (mtime c <? mtimecmp c)
  then (true, c <| mtime := mtimecmp c |>)
  else (false, c).

(** Timer and software interrupt pending. *)
Definition get_interrupt_status (c : Clint) : bool * bool :=
  (mtimecmp c <=? mtime c, negb (Z.land (msip c) 1 =? 0)).

Definition clint_read_register (offset : Z) (c : Clint) : Z :=
  if offset =? 0x0000 then msip c
  else if offset =? 0xbff8 then as_u32 (mtime c)
  else if offset =? 0xbffc then as_u32 (Z.shiftr (mtime c) 32)
  else if offset =? 0x4000 then as_u32 (mtimecmp c)
  else if offset =? 0x4004 then as_u32 (Z.shiftr (mtimecmp c) 32)
  else 0.

Definition clint_write_register (offset val : Z) (c : Clint) : Clint :=
  if offset =? 0x0000 then c <| msip := Z.land val 1 |>
  else if offset =? 0x4000 then c <| mtimecmp := Z.lor (Z.land (mtimecmp c) 0xffffffff00000000) val |>
  else if offset =? 0x4004 then c <| mtimecmp := Z.lor (Z.land (mtimecmp c) 0x00000000ffffffff) (shl64 val 32) |>
  else c.

Definition clint_serialize (c : Clint) : list Z :=
  to_le_bytes 8 (mtimecmp c) ++ to_le_bytes 8 (msip c) ++ to_le_bytes 8 (mtime c)
  ++ to_le_bytes 8 (instruction_counter c).

Definition clint_deserialize : Decoder Clint unit :=
  v ←? read_le 8; assign (fun c => c <| mtimecmp := v |>);;?
  v ←? read_le 8; assign (fun c => c <| msip := as_u32 v |>);;?
  v ←? read_le 8; assign (fun c => c <| mtime := v |>);;?
  v ←? read_le 8; assign (fun c => c <| instruction_counter := v |>).

(** ** Invariant *)

Record clint_wf (c : Clint) : Prop := {
  cw_cmp : is_u64 (mtimecmp c);
  cw_msip : is_word 1 (msip c);
  cw_time : is_u64 (mtime c);
  cw_count : 0 <= instruction_counter c < INSTRUCTIONS_PER_TICK
}.

Lemma clint_new_wf : clint_wf clint_new.
Proof. by split. Qed.

Lemma advance_instructions_wf n c : clint_wf c → clint_wf (advance_by_instructions n c).
Proof.
  intros [H1 H2 H3 H4]. split; cbn; [done | done | apply wrap_range; lia | apply Z.mod_pos_bound; done].
Qed.

Lemma advance_nanos_wf n c : clint_wf c → clint_wf (advance_by_nanos n c).
Proof. intros [H1 H2 H3 H4]. split; cbn; [done | done | apply wrap_range; lia | done]. Qed.

Lemma fast_forward_wf c : clint_wf c → clint_wf (fast_forward_to_timer c).2.
Proof. intros [H1 H2 H3 H4]. unfold fast_forward_to_timer. case_if; by split. Qed.

Lemma clint_write_wf offset val c : is_u32 val → clint_wf c → clint_wf (clint_write_register offset val c).
Proof.
  intros Hv [H1 H2 H3 H4]. unfold clint_write_register.
  repeat case_if; split; cbn; try done.
  - apply land_word_r; [lia | done].
  - apply lor_word; [lia | apply land_word_l; [lia | lia | done] | by apply (is_word_mono 32)].
  - apply lor_word; [lia | apply land_word_l; [lia | lia | done] | apply wrap_range; lia].
Qed.

Lemma clint_read_word offset c : clint_wf c → is_u32 (clint_read_register offset c).
Proof.
  intros [H1 H2 H3 H4]. unfold clint_read_register.
  repeat case_if; try done; try (apply wrap_range; lia). by apply (is_word_mono 1).
Qed.

(** ** Time *)

(** The instructions that have been accounted for, since reset. *)
Definition instructions_seen (c : Clint) : Z := mtime c * INSTRUCTIONS_PER_TICK + instruction_counter c.

Lemma advance_instructions_exact n c :
  clint_wf c → 0 <= n → instructions_seen c + n < 2 ^ 64 →
  instructions_seen (advance_by_instructions n c) = instructions_seen c + n.
Proof.
  intros [H1 H2 H3 H4] Hn Hb. unfold instructions_seen, advance_by_instructions, INSTRUCTIONS_PER_TICK in *. cbn.
  unfold is_word in *. assert (E : wrapping_add64 (instruction_counter c) n = instruction_counter c + n).
  { apply wrap_id. unfold is_word. lia. }
  rewrite E. unfold wrapping_add64, as_u64. rewrite wrap_id.
  - pose proof (Z.div_mod (instruction_counter c + n) 10 ltac:(lia)). lia.
  - unfold is_word. pose proof (Z.div_mod (instruction_counter c + n) 10 ltac:(lia)).
    pose proof (Z.mod_pos_bound (instruction_counter c + n) 10 ltac:(lia)).
    pose proof (Z.div_pos (instruction_counter c + n) 10). lia.
Qed.

(** Writing the two halves of [mtimecmp] sets it. *)
Lemma mtimecmp_halves v c :
  is_u64 v →
  mtimecmp (clint_write_register 0x4004 (as_u32 (Z.shiftr v 32)) (clint_write_register 0x4000 (as_u32 v) c)) = v.
Proof.
  intros Hv. cbn. change 0xffffffff00000000 with (Z.shiftl (Z.ones 32) 32). change 0xffffffff with (Z.ones 32).
  apply Z.bits_inj'. intros i Hi.
  rewrite Z.lor_spec, Z.land_spec, Z.lor_spec, Z.land_spec, shl64_bits, Z.shiftl_spec by lia.
  unfold as_u32. rewrite (wrap_testbit 32 v) by lia.
  destruct (Z.ltb_spec i 32) as [H32|H32].
  - rewrite (Z.ones_spec_low 32 i), !(Z.testbit_neg_r _ (i - 32)) by lia.
    by rewrite !andb_false_r, andb_true_r, orb_false_r.
  - rewrite (Z.ones_spec_high 32 i), wrap_testbit, Z.shiftr_spec by lia.
    rewrite !andb_false_r, orb_false_l. replace (i - 32 + 32) with i by lia. destruct (Z.ltb_spec i 64).
    + by replace (i - 32 <? 32) with true by (symmetry; lia).
    + by rewrite (testbit_high 64 v i) by (done || lia).
Qed.

(** ** Snapshots *)

Lemma clint_round_trip c c0 : clint_wf c → decodes clint_deserialize c0 (clint_serialize c) tt c.
Proof.
  intros [H1 H2 H3 H4]. unfold clint_deserialize, clint_serialize.
  assert (Hm : is_u64 (msip c)) by (by apply (is_word_mono 1)).
  eapply (decodes_field 8 (mtimecmp c) (fun v c => c <| mtimecmp := v |>)); [done|].
  eapply (decodes_field 8 (msip c) (fun v c => c <| msip := as_u32 v |>)); [done|].
  eapply (decodes_field 8 (mtime c) (fun v c => c <| mtime := v |>)); [done|].
  assert (E : c = (fun v c => c <| instruction_counter := v |>) (instruction_counter c)
    (c0 <| mtimecmp := mtimecmp c |> <| msip := as_u32 (msip c) |> <| mtime := mtime c |>)).
  { cbn. unfold as_u32. rewrite wrap_id by (by apply (is_word_mono 1)). by destruct c. }
  rewrite E at 2. apply (decodes_last_field 8 _ (fun v c => c <| instruction_counter := v |>)).
  unfold INSTRUCTIONS_PER_TICK in H4. unfold is_word. lia.
Qed.

(** ** Claims *)

(** C31: waiting for the timer is exact.  When the timer is armed and not due,
    it becomes due [distance] nanoseconds from now and no nanosecond earlier (as long
    as the clock itself does not wrap); [nanos_until_timer] names [distance] in 64
    bits, so waiting that long makes the timer due exactly if [distance] is less than
    2^64; [fast_forward_to_timer] makes it due at once.
    When it names none, nothing needs to be waited for: the timer is due or
    disarmed, and fast-forwarding changes nothing. *)
Theorem timer_wait_is_exact c :
  clint_wf c →
  let distance := (mtimecmp c - mtime c) * NANOS_PER_TICK in
  match nanos_until_timer c with
  | Some nanos =>
      (get_interrupt_status c).1 = false ∧
      (∀ waited, 0 <= waited → mtime c + waited / NANOS_PER_TICK < 2 ^ 64 →
                 (get_interrupt_status (advance_by_nanos waited c)).1 = (distance <=? waited)) ∧
      nanos = wrap 64 distance ∧
      (get_interrupt_status (advance_by_nanos nanos c)).1 = (distance <? 2 ^ 64) ∧
      (fast_forward_to_timer c).1 = true ∧ (get_interrupt_status (fast_forward_to_timer c).2).1 = true
  | None =>
      ((get_interrupt_status c).1 = true ∨ mtimecmp c = U64_MAX) ∧ fast_forward_to_timer c = (false, c)
  end.
Proof.
  intros [H1 H2 H3 H4]. cbv zeta. change NANOS_PER_TICK with 100 in *. unfold is_word in *.
  unfold nanos_until_timer. change NANOS_PER_TICK with 100. unfold fast_forward_to_timer.
  destruct (Z.eqb_spec (mtimecmp c) U64_MAX) as [Hmax|Hmax]; cbn [orb negb andb].
  { split; [by right | done]. }
  destruct (Z.leb_spec (mtimecmp c) (mtime c)) as [Hle|Hgt].
  { replace (_ <? _) with false by (symmetry; lia). split; [left; cbn; lia | done]. }
  set (distance := (mtimecmp c - mtime c) * 100).
  assert (Hadv : ∀ n, 0 <= n → mtime c + n / 100 < 2 ^ 64 →
    (get_interrupt_status (advance_by_nanos n c)).1 = (distance <=? n)).
  { intros n Hn Hw. change (get_interrupt_status (advance_by_nanos n c)).1 with (mtimecmp c <=? wrapping_add64 (mtime c) (n / 100)).
    unfold wrapping_add64, as_u64. pose proof (Z.div_pos n 100 Hn ltac:(lia)). rewrite wrap_id by (unfold is_word; lia).
    pose proof (Z.div_mod n 100 ltac:(lia)). pose proof (Z.mod_pos_bound n 100 ltac:(lia)). unfold distance.
    destruct (Z.leb_spec (mtimecmp c) (mtime c + n / 100)), (Z.leb_spec ((mtimecmp c - mtime c) * 100) n); lia. }
  replace (mtime c <? mtimecmp c) with true by (symmetry; lia). cbn [fst snd].
  split; [cbn; lia|]. split; [exact Hadv|]. split; [done|]. split; [|split; [done|cbn; lia]].
  unfold wrapping_mul64, as_u64. fold distance. pose proof (wrap_range 64 distance ltac:(lia)) as Hr.
  assert (Hle : wrap 64 distance <= distance) by (unfold wrap; apply Z.mod_le; unfold distance; lia).
  assert (Hq : wrap 64 distance / 100 <= mtimecmp c - mtime c) by (apply Z.div_le_upper_bound; unfold distance in *; lia).
  unfold is_word in Hr. rewrite Hadv by lia. destruct (Z.ltb_spec distance (2 ^ 64)).
  - rewrite wrap_id by (unfold is_word, distance in *; lia). lia.
  - lia.
Qed.

Lemma timer_wait_is_exact_witness :
  nanos_until_timer (mkClint 30 0 10 0) = Some 2000 ∧
  (get_interrupt_status (advance_by_nanos 1999 (mkClint 30 0 10 0))).1 = false ∧
  (get_interrupt_status (advance_by_nanos 2000 (mkClint 30 0 10 0))).1 = true.
Proof.
  pose proof (timer_wait_is_exact (mkClint 30 0 10 0) ltac:(by split)) as H. cbn in H.
  split; [reflexivity|]. destruct H as (_ & H & _). split; by apply H.
Defined.

(** A guest that sets its timer 2^62 ticks ahead is waited for no time at all. *)
Lemma far_timer_wraps : nanos_until_timer (mkClint (2 ^ 62) 0 0 0) = Some 0.
Proof. by vm_compute. Qed.
