(* ===== verification/Plic.v ===== *)
(** The platform-level interrupt controller ([machine/src/plic.rs]).

    One hart, 31 sources without priorities: a source is pending while its line
    is up, and served from the moment the guest claims it until the guest
    completes it. *)
From S2P Require Import Prelude Words Io.

Definition PLIC_BASE : Z := 0x40100000.
Definition PLIC_SIZE : Z := 0x00400000.
Definition PLIC_HART_BASE : Z := 0x00200000.
Definition PLIC_PRIORITY_THRESHOLD_OFFSET : Z := PLIC_HART_BASE.
Definition PLIC_CLAIM_COMPLETE_OFFSET : Z := PLIC_HART_BASE + 4.
Definition MIN_IRQ : Z := 1.
Definition MAX_IRQ : Z := 31.

Record Plic := mkPlic { pending : Z; served : Z }.
#[export] Instance Plic_eta : Eta Plic := fun p => mkPlic (pending p) (served p).

Definition plic_new : Plic := mkPlic 0 0.

Definition save_state (p : Plic) : list Z := to_le_bytes 8 (pending p) ++ to_le_bytes 8 (served p).

Definition restore_state : Decoder Plic unit :=
  v ←? read_le 8; assign (fun p => p <| pending := as_u32 v |>);;?
  v ←? read_le 8; assign (fun p => p <| served := as_u32 v |>).

Definition valid_irq (irq : Z) : bool := (MIN_IRQ <=? irq) && (irq <=? MAX_IRQ).

Definition set_irq (irq_number : Z) (level : bool) : ST Plic unit := fun p =>
  if valid_irq irq_number then
    Some (tt, if level then p <| pending := Z.lor (pending p) (Z.shiftl 1 irq_number) |>
              else p <| pending := Z.land (pending p) (not32 (Z.shiftl 1 irq_number)) |>)
  else None.

Definition unserviced (p : Plic) : Z := Z.land (pending p) (not32 (served p)).

Definition irq_pending (p : Plic) : bool := negb (unserviced p =? 0).

Definition plic_read_register (offset : Z) (p : Plic) : Z * Plic :=
  if offset =? PLIC_PRIORITY_THRESHOLD_OFFSET then (0, p)
  else if offset =? PLIC_CLAIM_COMPLETE_OFFSET then
    if negb (unserviced p =? 0) then
      let irq_number := trailing_zeros 32 (unserviced p) in
      (irq_number, p <| served := Z.lor (served p) (Z.shiftl 1 irq_number) |>)
    else (0, p)
  else (0, p).

Definition plic_write_register (offset value : Z) (p : Plic) : Plic :=
  if offset =? PLIC_PRIORITY_THRESHOLD_OFFSET then p
  else if (offset =? PLIC_CLAIM_COMPLETE_OFFSET) && valid_irq value
  then p <| served := Z.land (served p) (not32 (Z.shiftl 1 value)) |>
  else p.

(** ** Invariant: 32-bit sets of sources, source 0 never pending *)

Record plic_wf (p : Plic) : Prop := {
  pw_pending : is_u32 (pending p);
  pw_served : is_u32 (served p);
  pw_zero : Z.testbit (pending p) 0 = false
}.

Lemma plic_new_wf : plic_wf plic_new.
Proof. by split. Qed.

Lemma one_word irq : 0 <= irq < 32 → is_u32 (Z.shiftl 1 irq).
Proof. intros H. rewrite Z.shiftl_1_l. unfold is_word. split; [lia|]. apply Z.pow_lt_mono_r; lia. Qed.

Lemma valid_irq_range irq : valid_irq irq = true ↔ 1 <= irq <= 31.
Proof. unfold valid_irq, MIN_IRQ, MAX_IRQ. rewrite andb_true_iff. lia. Qed.

Lemma unserviced_bits p i : 0 <= i < 32 → Z.testbit (unserviced p) i = Z.testbit (pending p) i && negb (Z.testbit (served p) i).
Proof.
  intros Hi. unfold unserviced. rewrite Z.land_spec, not32_bits by lia.
  by replace (i <? 32) with true by (symmetry; lia).
Qed.

Lemma unserviced_word p : plic_wf p → is_u32 (unserviced p).
Proof. intros [H1 H2 H3]. apply land_word; [lia | done | apply not32_word]. Qed.

(** The lowest set bit. *)
Lemma pos_ctz_spec q : Z.testbit (Zpos q) (pos_ctz q) = true ∧ 0 <= pos_ctz q ∧ ∀ j, 0 <= j < pos_ctz q → Z.testbit (Zpos q) j = false.
Proof.
  induction q as [q IH|q IH|]; cbn [pos_ctz]; [split; [done|]; split; lia| |split; [done|]; split; lia].
  destruct IH as (H1 & H2 & H3). split; [|split; [lia|]].
  - replace (1 + pos_ctz q) with (Z.succ (pos_ctz q)) by lia. change (Zpos q~0) with (2 * Zpos q). by rewrite Z.double_bits_succ.
  - intros j Hj. change (Zpos q~0) with (2 * Zpos q). destruct (decide (j = 0)) as [->|]; [apply Z.testbit_even_0|].
    replace j with (Z.succ (j - 1)) by lia. rewrite Z.double_bits_succ. apply H3. lia.
Qed.

Lemma trailing_zeros_spec x : is_u32 x → x ≠ 0 →
  Z.testbit x (trailing_zeros 32 x) = true ∧ 0 <= trailing_zeros 32 x < 32 ∧
  ∀ j, 0 <= j < trailing_zeros 32 x → Z.testbit x j = false.
Proof.
  intros Hx H0. unfold is_word in Hx. destruct x as [|q|]; [done| |lia]. unfold trailing_zeros.
  destruct (pos_ctz_spec q) as (H1 & H2 & H3). split; [done|]. split; [|done].
  destruct (Z.lt_ge_cases (pos_ctz q) 32); [done|]. rewrite (testbit_high 32) in H1; [done|done|lia].
Qed.

(** ** Claiming and completing *)

(** The source a claim returns, if any. *)
Definition claim (p : Plic) : Z * Plic := plic_read_register PLIC_CLAIM_COMPLETE_OFFSET p.
Definition complete (irq : Z) (p : Plic) : Plic := plic_write_register PLIC_CLAIM_COMPLETE_OFFSET irq p.

Lemma complete_eq irq p :
  complete irq p
  = if valid_irq irq then p <| served := Z.land (served p) (not32 (Z.shiftl 1 irq)) |> else p.
Proof. reflexivity. Qed.

Lemma claim_spec p :
  plic_wf p →
  match claim p with
  | (irq, p') =>
      if irq_pending p then
        1 <= irq <= 31 ∧ Z.testbit (pending p) irq = true ∧ Z.testbit (served p) irq = false ∧
        (∀ j, 1 <= j < irq → Z.testbit (pending p) j = true → Z.testbit (served p) j = true) ∧
        p' = p <| served := Z.lor (served p) (Z.shiftl 1 irq) |>
      else irq = 0 ∧ p' = p
  end.
Proof.
  intros Hp. unfold claim, plic_read_register, irq_pending. cbn.
  destruct (Z.eqb_spec (unserviced p) 0) as [|Hne]; [done|]. cbn.
  destruct (trailing_zeros_spec _ (unserviced_word p Hp) Hne) as (H1 & H2 & H3).
  set (irq := trailing_zeros 32 (unserviced p)) in *. rewrite unserviced_bits in H1 by done.
  apply andb_true_iff in H1 as [Hpend Hserv]. apply negb_true_iff in Hserv.
  assert (irq ≠ 0) by (intros E; rewrite E, (pw_zero p Hp) in Hpend; done).
  split; [lia|]. split; [done|]. split; [done|]. split; [|done].
  intros j Hj Hpj. specialize (H3 j ltac:(lia)). rewrite unserviced_bits, Hpj in H3 by lia. by apply negb_false_iff in H3.
Qed.

Lemma claim_wf p : plic_wf p → plic_wf (claim p).2.
Proof.
  intros Hp. pose proof (claim_spec p Hp) as Hc. destruct (claim p) as [irq p']. destruct (irq_pending p); [|by destruct Hc as [_ ->]].
  destruct Hc as (Hr & _ & _ & _ & ->). destruct Hp as [H1 H2 H3]. split; [done| |done]. cbn.
  apply lor_word; [lia | done | apply one_word; lia].
Qed.

Lemma plic_read_wf offset p :
  plic_wf p → is_u32 (plic_read_register offset p).1 ∧ plic_wf (plic_read_register offset p).2.
Proof.
  intros Hp. pose proof (claim_spec p Hp) as Hs. pose proof (claim_wf p Hp) as Hw. unfold claim in *.
  destruct (Z.eqb_spec offset PLIC_CLAIM_COMPLETE_OFFSET) as [->|Hne].
  - split; [|done]. destruct (plic_read_register _ p) as [irq p']. destruct (irq_pending p); [|by destruct Hs as [-> _]].
    destruct Hs as [Hr _]. unfold is_word. cbn. lia.
  - apply Z.eqb_neq in Hne. unfold plic_read_register. rewrite Hne. by case_if.
Qed.

Lemma complete_wf irq p : plic_wf p → plic_wf (complete irq p).
Proof.
  intros [H1 H2 H3]. rewrite complete_eq. case_if; split; cbn; try done.
  apply land_word; [lia | done | apply not32_word].
Qed.

Lemma plic_write_wf offset value p : plic_wf p → plic_wf (plic_write_register offset value p).
Proof.
  intros Hp. pose proof (complete_wf value p Hp) as Hw. unfold complete in Hw.
  destruct (Z.eqb_spec offset PLIC_CLAIM_COMPLETE_OFFSET) as [->|Hne]; [done|].
  apply Z.eqb_neq in Hne. unfold plic_write_register. rewrite Hne. by case_if.
Qed.

Lemma set_irq_wf irq level p : plic_wf p → valid_irq irq = true → ∃ p', set_irq irq level p = Some (tt, p') ∧ plic_wf p' ∧ served p' = served p.
Proof.
  intros [H1 H2 H3] Hv. unfold set_irq. rewrite Hv. eexists. split; [done|].
  apply valid_irq_range in Hv. destruct level; (split; [|done]); split; cbn -[Z.testbit]; try done.
  - apply lor_word; [lia | done | apply one_word; lia].
  - rewrite Z.lor_spec, H3, testbit_one by lia. lia.
  - apply land_word; [lia | done | apply not32_word].
  - by rewrite Z.land_spec, H3.
Qed.

Lemma complete_served irq p i :
  0 <= i < 32 → Z.testbit (served (complete irq p)) i = Z.testbit (served p) i && negb (valid_irq irq && (i =? irq)).
Proof.
  intros Hi. rewrite complete_eq. destruct (valid_irq irq) eqn:Hv; cbn [andb negb]; [|by rewrite andb_true_r].
  apply valid_irq_range in Hv. cbn -[Z.testbit Z.land not32 Z.shiftl Z.eqb].
  rewrite Z.land_spec, not32_bits, testbit_one by lia.
  by replace (i <? 32) with true by (symmetry; lia).
Qed.

(** Snapshots. *)
Lemma plic_round_trip p p0 : plic_wf p → decodes restore_state p0 (save_state p) tt p.
Proof.
  intros [H1 H2 H3]. unfold restore_state, save_state.
  assert (H1' : is_u64 (pending p)) by (by apply (is_word_mono 32)).
  assert (H2' : is_u64 (served p)) by (by apply (is_word_mono 32)).
  eapply (decodes_field 8 (pending p) (fun v c => c <| pending := as_u32 v |>)); [done|].
  assert (E : p = (fun v c => c <| served := as_u32 v |>) (served p) (p0 <| pending := as_u32 (pending p) |>)).
  { cbn. unfold as_u32. rewrite !wrap_id by done. by destruct p. }
  rewrite E at 2. by apply (decodes_last_field 8 _ (fun v c => c <| served := as_u32 v |>)).
Qed.

(** ** A guest and its devices

    The steps that can happen to the controller, and the sources claimed. *)
Inductive PlicOp : Type :=
| Line (irq : Z) (level : bool)
| Claim
| Complete (irq : Z).

Definition plic_op (op : PlicOp) (p : Plic) : option (list Z * Plic) :=
  match op with
  | Line irq level => match set_irq irq level p with Some (_, p') => Some ([], p') | None => None end
  | Claim => let (irq, p') := claim p in Some ([irq], p')
  | Complete irq => Some ([], complete irq p)
  end.

Fixpoint plic_run (ops : list PlicOp) (p : Plic) : option (list Z * Plic) :=
  match ops with
  | [] => Some ([], p)
  | op :: ops =>
      match plic_op op p with
      | Some (out, p) =>
          match plic_run ops p with
          | Some (outs, p) => Some (out ++ outs, p)
          | None => None
          end
      | None => None
      end
  end.

(** One step: what may be claimed, and that only a completion ends service. *)
Lemma plic_op_served op p out p' irq :
  plic_wf p → plic_op op p = Some (out, p') → 1 <= irq <= 31 →
  Z.testbit (served p) irq = true → op ≠ Complete irq →
  plic_wf p' ∧ Z.testbit (served p') irq = true ∧ irq ∉ out.
Proof.
  intros Hp E Hirq Hs Hop. destruct op as [i level| |i]; cbn in E.
  - destruct (set_irq i level p) as [[[] p1]|] eqn:Es; [|done]. injection E as <- <-.
    assert (Hv : valid_irq i = true) by (unfold set_irq in Es; by destruct (valid_irq i)).
    destruct (set_irq_wf i level p Hp Hv) as (p2 & E2 & Hp2 & Hsrv). rewrite E2 in Es. injection Es as <-.
    split; [done|]. rewrite Hsrv. split; [done | apply not_elem_of_nil].
  - pose proof (claim_spec p Hp) as Hc. pose proof (claim_wf p Hp) as Hw. destruct (claim p) as [i p1].
    injection E as <- <-. split; [done|]. destruct (irq_pending p).
    + destruct Hc as (Hr & _ & Hn & _ & ->). cbn. rewrite Z.lor_spec, Hs. split; [done|].
      rewrite list_elem_of_singleton. intros ->. congruence.
    + destruct Hc as [-> ->]. split; [done|]. rewrite list_elem_of_singleton. lia.
  - injection E as <- <-. split; [by apply complete_wf|]. split; [|apply not_elem_of_nil].
    rewrite complete_served, Hs by lia. cbn [andb]. destruct (Z.eqb_spec irq i) as [->|]; [done|]. by rewrite andb_false_r.
Qed.

(** C30: interrupts are claimed one at a time.  A claim returns the lowest
    source that is pending and not in service (0 if there is none) and puts it in
    service; from then on, whatever the devices do to the lines and however often
    the guest claims, that source is not handed out again until it is completed. *)
Theorem claimed_until_completed p ops outs p' :
  plic_wf p → irq_pending p = true → Complete (claim p).1 ∉ ops →
  plic_run ops (claim p).2 = Some (outs, p') →
  (1 <= ((claim p).1) <= 31 ∧ Z.testbit (pending p) (claim p).1 = true ∧ Z.testbit (served p) (claim p).1 = false ∧
   ∀ j, 1 <= j < ((claim p).1) → Z.testbit (pending p) j = true → Z.testbit (served p) j = true) ∧
  (fst (claim p) ∉ outs) ∧ Z.testbit (served p') (claim p).1 = true.
Proof.
  intros Hp Hpend Hops Hrun. pose proof (claim_spec p Hp) as Hc. pose proof (claim_wf p Hp) as Hw.
  destruct (claim p) as [irq p1]. rewrite Hpend in Hc. destruct Hc as (Hr & H1 & H2 & H3 & E). cbn [fst snd] in *.
  split; [done|]. assert (Hs : Z.testbit (served p1) irq = true).
  { rewrite E. cbn. rewrite Z.lor_spec, testbit_one, Z.eqb_refl by lia. apply orb_true_r. }
  clear E H1 H2 H3 Hp Hpend. revert p1 outs Hw Hs Hrun.
  induction ops as [|op ops IH]; intros p1 outs Hw Hs Hrun; cbn [plic_run] in Hrun.
  { injection Hrun as <- <-. split; [apply not_elem_of_nil | done]. }
  apply not_elem_of_cons in Hops as [Hop Hops]. destruct (plic_op op p1) as [[out p2]|] eqn:Eo; [|done].
  destruct (plic_op_served op p1 out p2 irq Hw Eo Hr Hs) as (Hw2 & Hs2 & Ho); [by intros ->|].
  destruct (plic_run ops p2) as [[outs' p3]|] eqn:Er; [|done]. injection Hrun as <- <-.
  destruct (IH Hops p2 outs' Hw2 Hs2 Er) as [Hni Hsv]. split; [|done]. rewrite not_elem_of_app. done.
Qed.

Lemma claimed_until_completed_witness :
  ∃ outs p', plic_run [Line 3 true; Claim; Claim; Complete 5; Claim] (claim (mkPlic 0x28 0x20)).2 = Some (outs, p') ∧
             3 ∉ outs.
Proof.
  eexists _, _. split; [vm_compute; reflexivity|].
  refine (proj1 (proj2 (claimed_until_completed (mkPlic 0x28 0x20) [Line 3 true; Claim; Claim; Complete 5; Claim] _ _ _ _ _ _)));
    [by split | done | | vm_compute; reflexivity].
  vm_compute. intros H. repeat (apply elem_of_cons in H as [H|H]; [done|]). inversion H.
Defined.
