(* ===== verification/Uart.v ===== *)
(** The 16550-style serial ports ([machine/src/uart.rs]).

    The registers are in [Cell]s, so even a read takes the port to a new state.
    [uart_stdout] holds what the port has sent to the host's standard output,
    where bytes go unless [capture_tx] diverts them to the transmit buffer. *)
From S2P Require Import Prelude Words Io.

Definition RBR_THR : Z := 0.
Definition INTERRUPT_ENABLE_REGISTER : Z := 1.
Definition INTERRUPT_ID_FIFO_CONTROL_REGISTER : Z := 2.
Definition LINE_CONTROL_REGISTER : Z := 3.
Definition MODEM_CONTROL_REGISTER : Z := 4.
Definition LINE_STATUS_REGISTER : Z := 5.
Definition SCRATCH_REGISTER : Z := 7.

Definition LSR_DATA_READY : Z := Z.shiftl 1 0.
Definition LSR_TX_EMPTY : Z := Z.shiftl 1 5.
Definition LSR_TX_IDLE : Z := Z.shiftl 1 6.
Definition IER_RX_READY : Z := Z.shiftl 1 0.
Definition IER_TX_EMPTY : Z := Z.shiftl 1 1.
Definition IIR_NO_INT : Z := 0x01.
Definition IIR_RX_READY : Z := 0x04.
Definition IIR_TX_EMPTY : Z := 0x02.

Record Uart := mkUart {
  interrupt_enable_register : Z;
  line_control_register : Z;
  modem_control_register : Z;
  scratch_register : Z;
  divisor_latch_low : Z;
  divisor_latch_high : Z;
  receive_buffer : list Z;
  uart_irq_pending : bool;
  capture_tx : bool;
  transmit_buffer : list Z;
  uart_stdout : list Z
}.
#[export] Instance Uart_eta : Eta Uart := fun u =>
  mkUart (interrupt_enable_register u) (line_control_register u) (modem_control_register u)
    (scratch_register u) (divisor_latch_low u) (divisor_latch_high u) (receive_buffer u)
    (uart_irq_pending u) (capture_tx u) (transmit_buffer u) (uart_stdout u).

Definition uart_new : Uart := mkUart 0 0 0 0 0 0 [] false false [] [].

Definition rx_pending (u : Uart) : bool := negb (bool_decide (receive_buffer u = [])).

Definition is_divisor_latch_mode (u : Uart) : bool := negb (Z.land (line_control_register u) 0x80 =? 0).

Definition get_line_status (u : Uart) : Z :=
  let lsr := Z.lor LSR_TX_EMPTY LSR_TX_IDLE in
  if rx_pending u then Z.lor lsr LSR_DATA_READY else lsr.

Definition get_interrupt_id (u : Uart) : Z :=
  if negb (Z.land (interrupt_enable_register u) IER_RX_READY =? 0) && rx_pending u then IIR_RX_READY
  else if negb (Z.land (interrupt_enable_register u) IER_TX_EMPTY =? 0) then IIR_TX_EMPTY
  else IIR_NO_INT.

Definition update_irq (u : Uart) : Uart :=
  u <| uart_irq_pending := negb (get_interrupt_id u =? IIR_NO_INT) |>.

Definition drain_tx (u : Uart) : list Z * Uart := (transmit_buffer u, u <| transmit_buffer := [] |>).

Definition tx_is_empty (u : Uart) : bool := bool_decide (transmit_buffer u = []).

Definition drain_rx (u : Uart) : Uart := u <| receive_buffer := [] |>.

Definition push_rx (byte : Z) (u : Uart) : Uart :=
  update_irq (u <| receive_buffer := receive_buffer u ++ [byte] |>).

Definition uart_read_register (offset : Z) (u : Uart) : Z * Uart :=
  if offset =? RBR_THR then
    if is_divisor_latch_mode u then (divisor_latch_low u, u)
    else
      match receive_buffer u with
      | value :: rest => (value, update_irq (u <| receive_buffer := rest |>))
      | [] => (0, update_irq u)
      end
  else if offset =? INTERRUPT_ENABLE_REGISTER then
    if is_divisor_latch_mode u then (divisor_latch_high u, u) else (interrupt_enable_register u, u)
  else if offset =? INTERRUPT_ID_FIFO_CONTROL_REGISTER then (get_interrupt_id u, u)
  else if offset =? LINE_CONTROL_REGISTER then (line_control_register u, u)
  else if offset =? MODEM_CONTROL_REGISTER then (modem_control_register u, u)
  else if offset =? LINE_STATUS_REGISTER then (get_line_status u, u)
  else if offset =? SCRATCH_REGISTER then (scratch_register u, u)
  else (0, u).

Definition uart_write_register (offset value : Z) (u : Uart) : Uart :=
  if offset =? RBR_THR then
    if is_divisor_latch_mode u then u <| divisor_latch_low := value |>
    else
      update_irq
        (if capture_tx u then u <| transmit_buffer := transmit_buffer u ++ [value] |>
         else u <| uart_stdout := uart_stdout u ++ [value] |>)
  else if offset =? INTERRUPT_ENABLE_REGISTER then
    if is_divisor_latch_mode u then u <| divisor_latch_high := value |>
    else update_irq (u <| interrupt_enable_register := value |>)
  else if offset =? LINE_CONTROL_REGISTER then u <| line_control_register := value |>
  else if offset =? MODEM_CONTROL_REGISTER then u <| modem_control_register := value |>
  else if offset =? SCRATCH_REGISTER then u <| scratch_register := value |>
  else u.

Definition uart_serialize (u : Uart) : list Z :=
  [interrupt_enable_register u; line_control_register u; modem_control_register u;
   scratch_register u; divisor_latch_low u; divisor_latch_high u]
  ++ to_le_bytes 8 (Z.of_nat (length (receive_buffer u)))
  ++ receive_buffer u.

(** [VecDeque::with_capacity] panics beyond [isize::MAX] bytes.  The bytes are
    read one by one; too few of them consume the stream. *)
Definition uart_deserialize : Decoder Uart unit :=
  regs ←? read_exact 6;
  assign (fun u => u <| interrupt_enable_register := regs !!! 0%nat |>
                     <| line_control_register := regs !!! 1%nat |>
                     <| modem_control_register := regs !!! 2%nat |>
                     <| scratch_register := regs !!! 3%nat |>
                     <| divisor_latch_low := regs !!! 4%nat |>
                     <| divisor_latch_high := regs !!! 5%nat |>);;?
  len ←? read_le 8;
  if 2 ^ 63 <=? len then panic
  else
    buffer ←? read_exact (Z.to_nat len);
    assign (fun u => update_irq (u <| receive_buffer := buffer |>)).

(** ** Invariant *)

Record uart_wf (u : Uart) : Prop := {
  uw_ier : is_u8 (interrupt_enable_register u);
  uw_lcr : is_u8 (line_control_register u);
  uw_mcr : is_u8 (modem_control_register u);
  uw_scr : is_u8 (scratch_register u);
  uw_dll : is_u8 (divisor_latch_low u);
  uw_dlh : is_u8 (divisor_latch_high u);
  uw_rx : Forall is_u8 (receive_buffer u);
  (** No interrupt is lost: one the registers call for is signalled. *)
  uw_irq : get_interrupt_id u ≠ IIR_NO_INT → uart_irq_pending u = true
}.

Lemma uart_new_wf : uart_wf uart_new.
Proof. by split. Qed.

Lemma update_irq_signals u : get_interrupt_id (update_irq u) ≠ IIR_NO_INT ↔ uart_irq_pending (update_irq u) = true.
Proof.
  change (get_interrupt_id (update_irq u)) with (get_interrupt_id u). unfold update_irq. cbn.
  rewrite negb_true_iff, Z.eqb_neq. done.
Qed.

Lemma update_irq_wf u :
  is_u8 (interrupt_enable_register u) → is_u8 (line_control_register u) → is_u8 (modem_control_register u) →
  is_u8 (scratch_register u) → is_u8 (divisor_latch_low u) → is_u8 (divisor_latch_high u) →
  Forall is_u8 (receive_buffer u) → uart_wf (update_irq u).
Proof. intros. split; try done. apply update_irq_signals. Qed.

Lemma push_rx_wf byte u : is_u8 byte → uart_wf u → uart_wf (push_rx byte u).
Proof.
  intros Hb []. apply update_irq_wf; try done. cbn. apply Forall_app_2; [done | by constructor].
Qed.

Lemma drain_rx_wf u : uart_wf u → uart_wf (drain_rx u).
Proof.
  intros []. split; try done. intros Hid. apply uw_irq0. revert Hid.
  unfold get_interrupt_id, rx_pending. cbn. rewrite andb_false_r. by destruct (_ && _).
Qed.

Lemma uart_write_wf offset value u : is_u8 value → uart_wf u → uart_wf (uart_write_register offset value u).
Proof.
  intros Hv Hu. destruct Hu. unfold uart_write_register.
  repeat case_if; try (by split); try (by apply update_irq_wf).
Qed.

Lemma uart_read_wf offset u : uart_wf u → is_u8 (uart_read_register offset u).1 ∧ uart_wf (uart_read_register offset u).2.
Proof.
  intros Hu. pose proof Hu as []. unfold uart_read_register, get_interrupt_id, get_line_status.
  repeat case_if; cbn; try done.
  destruct (receive_buffer u) as [|x rest] eqn:Eq; cbn.
  - split; [done|]. apply update_irq_wf; try done. by rewrite Eq.
  - inversion uw_rx0; subst. split; [done|]. by apply update_irq_wf.
Qed.

(** ** The receive queue *)

(** Reading the data register [n] times. *)
Fixpoint read_data (n : nat) (u : Uart) : list Z * Uart :=
  match n with
  | O => ([], u)
  | S n => let (b, u) := uart_read_register RBR_THR u in
           let (bs, u) := read_data n u in (b :: bs, u)
  end.

Lemma latch_update_irq u : is_divisor_latch_mode (update_irq u) = is_divisor_latch_mode u.
Proof. done. Qed.

Lemma push_all bytes u :
  receive_buffer (foldl (fun u b => push_rx b u) u bytes) = receive_buffer u ++ bytes ∧
  is_divisor_latch_mode (foldl (fun u b => push_rx b u) u bytes) = is_divisor_latch_mode u.
Proof.
  revert u. induction bytes as [|b bytes IH]; intros u; cbn [foldl]; [by rewrite app_nil_r|].
  destruct (IH (push_rx b u)) as [E1 E2]. rewrite E1, E2. split; [|done]. cbn. by rewrite <- app_assoc.
Qed.

Lemma read_queue u :
  is_divisor_latch_mode u = false →
  (read_data (length (receive_buffer u)) u).1 = receive_buffer u ∧
  receive_buffer (read_data (length (receive_buffer u)) u).2 = [].
Proof.
  remember (receive_buffer u) as q eqn:Eq. revert u Eq.
  induction q as [|b q IH]; intros u Eq Hl; cbn [length read_data]; [by rewrite Eq|].
  assert (Er : uart_read_register RBR_THR u = (b, update_irq (u <| receive_buffer := q |>)))
    by (unfold uart_read_register; by rewrite Z.eqb_refl, Hl, <- Eq).
  rewrite Er.
  assert (IHu := IH (update_irq (u <| receive_buffer := q |>))). destruct (IHu eq_refl Hl) as [H1 H2].
  destruct (read_data (length q) (update_irq (u <| receive_buffer := q |>))) as [bs u']. cbn in *. by rewrite H1.
Qed.

(** What a snapshot does not hold (the transmit side) is the port's it is restored
    into; the interrupt is signalled again. *)
Definition uart_restored (u u0 : Uart) : Uart :=
  update_irq (u0 <| interrupt_enable_register := interrupt_enable_register u |>
                 <| line_control_register := line_control_register u |>
                 <| modem_control_register := modem_control_register u |>
                 <| scratch_register := scratch_register u |>
                 <| divisor_latch_low := divisor_latch_low u |> <| divisor_latch_high := divisor_latch_high u |>
                 <| receive_buffer := receive_buffer u |>).

Lemma uart_round_trip u u0 :
  Z.of_nat (length (receive_buffer u)) < 2 ^ 63 →
  decodes uart_deserialize u0 (uart_serialize u) tt (uart_restored u u0).
Proof.
  intros Hlen. unfold uart_deserialize, uart_serialize. eapply decodes_bind.
  { apply (decodes_exact [interrupt_enable_register u; line_control_register u; modem_control_register u;
      scratch_register u; divisor_latch_low u; divisor_latch_high u]). }
  apply decodes_assigned. eapply decodes_bind; [apply decodes_le; unfold is_word; lia|].
  replace (2 ^ 63 <=? _) with false by (symmetry; lia). rewrite Nat2Z.id.
  rewrite <- (app_nil_r (receive_buffer u)) at 2. eapply decodes_bind; [apply decodes_exact|].
  eapply decodes_to; [apply decodes_assign | reflexivity].
Qed.

Lemma uart_restored_saves u u0 : uart_serialize (uart_restored u u0) = uart_serialize u.
Proof. done. Qed.

(** ** Claims *)

(** The serial port is a queue that never loses an interrupt.  Whatever
    bytes the host pushes are read back from the data register in order, after
    the ones already waiting, and then the queue is empty; the interrupt line is
    up whenever the enabled conditions hold, and exactly then after a push. *)
Theorem uart_receives_in_order u bytes :
  uart_wf u → is_divisor_latch_mode u = false → Forall is_u8 bytes → bytes ≠ [] →
  let u' := foldl (fun u b => push_rx b u) u bytes in
  let read := read_data (length (receive_buffer u) + length bytes) u' in
  uart_wf u' ∧ read.1 = receive_buffer u ++ bytes ∧ receive_buffer read.2 = [] ∧
  (uart_irq_pending u' = true ↔ get_interrupt_id u' ≠ IIR_NO_INT) ∧
  get_line_status u' = 0x61.
Proof.
  intros Hu Hl Hb Hne u' read. destruct (push_all bytes u) as [Eq El].
  assert (Hlen : (length (receive_buffer u) + length bytes)%nat = length (receive_buffer u'))
    by (unfold u'; rewrite Eq, length_app; done).
  assert (El' : is_divisor_latch_mode u' = false) by (unfold u'; congruence).
  destruct (read_queue u' El') as [H1 H2]. split; [|split; [|split; [|split]]].
  - unfold u'. clear -Hu Hb. revert u Hu. induction Hb as [|b bytes Hbyte _ IH]; intros u Hu; cbn [foldl]; [done|].
    apply IH. by apply push_rx_wf.
  - unfold read. rewrite Hlen, H1. unfold u'. apply Eq.
  - unfold read. by rewrite Hlen.
  - unfold u'. destruct bytes as [|b bytes] using rev_ind; [done|]. rewrite foldl_snoc. cbn [push_rx].
    symmetry. apply update_irq_signals.
  - unfold get_line_status, rx_pending. unfold u'. rewrite Eq. destruct (receive_buffer u), bytes; done.
Qed.

Lemma uart_receives_in_order_witness :
  (read_data 2 (foldl (fun u b => push_rx b u) uart_new [0x41; 0x42])).1 = [0x41; 0x42].
Proof.
  apply (uart_receives_in_order uart_new [0x41; 0x42] uart_new_wf); [done | by repeat constructor | done].
Defined.
