(* ===== verification/Virtio.v ===== *)
(** Virtio over MMIO: guest memory as devices see it, queues, and the device
    registers ([machine/src/virtio/mod.rs]).

    [RamView] is the window through which a device accesses RAM: addresses are
    reduced modulo the RAM size, writes are noted for the block cache, and a
    staging buffer can stand in for a range of addresses.  It carries the
    copy-on-write RAM; the epoch counter is threaded next to it. *)
From S2P Require Import Prelude Words SystemBus Io CowRam Layout.

Definition MMIO_MAGIC : Z := 0x000.
Definition MMIO_VERSION : Z := 0x004.
Definition MMIO_DEVICE_ID : Z := 0x008.
Definition MMIO_VENDOR_ID : Z := 0x00c.
Definition MMIO_DEVICE_FEATURES : Z := 0x010.
Definition MMIO_DEVICE_FEATURES_SEL : Z := 0x014.
Definition MMIO_DRIVER_FEATURES : Z := 0x020.
Definition MMIO_DRIVER_FEATURES_SEL : Z := 0x024.
Definition MMIO_QUEUE_SEL : Z := 0x030.
Definition MMIO_QUEUE_NUM_MAX : Z := 0x034.
Definition MMIO_QUEUE_NUM : Z := 0x038.
Definition MMIO_QUEUE_READY : Z := 0x044.
Definition MMIO_QUEUE_NOTIFY : Z := 0x050.
Definition MMIO_INTERRUPT_STATUS : Z := 0x060.
Definition MMIO_INTERRUPT_ACK : Z := 0x064.
Definition MMIO_STATUS : Z := 0x070.
Definition MMIO_QUEUE_DESC_LOW : Z := 0x080.
Definition MMIO_QUEUE_DESC_HIGH : Z := 0x084.
Definition MMIO_QUEUE_AVAIL_LOW : Z := 0x090.
Definition MMIO_QUEUE_AVAIL_HIGH : Z := 0x094.
Definition MMIO_QUEUE_USED_LOW : Z := 0x0a0.
Definition MMIO_QUEUE_USED_HIGH : Z := 0x0a4.
Definition MMIO_CONFIG_GENERATION : Z := 0x0fc.
Definition MMIO_CONFIG : Z := 0x100.

Definition MMIO_MAGIC_VALUE : Z := 0x74726976.
Definition MMIO_VERSION_VALUE : Z := 2.
Definition QUEUE_NUM_MAX : Z := 256.
Definition MAX_QUEUES : Z := 4.
Definition VRING_DESC_F_NEXT : Z := 1.
Definition VRING_DESC_F_WRITE : Z := 2.

(** ** RamView *)

Record Staging := mkStaging { staging_base : Z; staging_buffer : list Z }.
#[export] Instance Staging_eta : Eta Staging := fun s => mkStaging (staging_base s) (staging_buffer s).

Record RamView := mkView { rv_ram : CowRam; rv_mask : Z; rv_staging : option Staging }.
#[export] Instance RamView_eta : Eta RamView := fun v => mkView (rv_ram v) (rv_mask v) (rv_staging v).

Definition view_new (ram : CowRam) (mask : Z) : RamView := mkView ram mask None.

Definition begin_staging (base len : Z) (v : RamView) : RamView :=
  v <| rv_staging := Some (mkStaging base (replicate (Z.to_nat len) 0)) |>.

Definition take_staging (v : RamView) : option (list Z) * RamView :=
  (staging_buffer <$> rv_staging v, v <| rv_staging := None |>).

Definition staged (physical_address len : Z) (v : RamView) : option Z :=
  match rv_staging v with
  | None => None
  | Some staging =>
      if physical_address <? staging_base staging then None
      else
        let offset := physical_address - staging_base staging in
        if as_u64 (offset + len) <=? Z.of_nat (length (staging_buffer staging)) then Some offset else None
  end.

Definition view_idx (physical_address : Z) (v : RamView) : Z :=
  Z.land (wrapping_sub64 physical_address RAM_BASE) (rv_mask v).

Definition view_read_bytes (physical_address len : Z) (v : RamView) : option (list Z) :=
  match staged physical_address len v, rv_staging v with
  | Some offset, Some staging => slice_get (staging_buffer staging) offset (Z.to_nat len)
  | _, _ => read_into (view_idx physical_address v) len (rv_ram v)
  end.

(** Code on the RAM behind a view, and the epoch counter. *)
Definition on_ram {A} (m : ST (CowRam * Z) A) : ST (RamView * Z) A :=
  zoom (fun s => (rv_ram s.1, s.2)) (fun r s => (s.1 <| rv_ram := r.1 |>, r.2)) m.

Definition note_write (index len : Z) : ST (RamView * Z) unit :=
  modify (fun s => (s.1 <| rv_ram := note_device_write index len (rv_ram s.1) |>, s.2)).

Definition view_write_bytes (physical_address : Z) (buf : list Z) : ST (RamView * Z) unit :=
  s ← st_get;
  match staged physical_address (Z.of_nat (length buf)) s.1, rv_staging s.1 with
  | Some offset, Some staging =>
      match slice_put (staging_buffer staging) offset buf with
      | Some buffer => modify (fun s => (s.1 <| rv_staging := Some (staging <| staging_buffer := buffer |>) |>, s.2))
      | None => panic
      end
  | _, _ =>
      let idx := view_idx physical_address s.1 in
      on_ram (write_from idx buf);;
      note_write idx (Z.of_nat (length buf))
  end.

(** [read_u8] to [read_u64]: through the buffer if there is one. *)
Definition view_read (n : nat) (ram_read : Z -> CowRam -> option Z) (physical_address : Z) (v : RamView) : option Z :=
  match rv_staging v with
  | Some _ => from_le_bytes <$> view_read_bytes physical_address (Z.of_nat n) v
  | None => ram_read (view_idx physical_address v) (rv_ram v)
  end.

Definition view_read_u8 : Z -> RamView -> option Z := view_read 1 cow_read_u8.
Definition view_read_u16 : Z -> RamView -> option Z := view_read 2 cow_read_u16.
Definition view_read_u32 : Z -> RamView -> option Z := view_read 4 cow_read_u32.
Definition view_read_u64 : Z -> RamView -> option Z := view_read 8 cow_read_u64.

Definition view_write (n : nat) (ram_write : Z -> Z -> ST (CowRam * Z) unit) (physical_address val : Z)
    : ST (RamView * Z) unit :=
  s ← st_get;
  match rv_staging s.1 with
  | Some _ => view_write_bytes physical_address (to_le_bytes n val)
  | None =>
      let idx := view_idx physical_address s.1 in
      on_ram (ram_write idx val);;
      note_write idx (Z.of_nat n)
  end.

Definition view_write_u8 : Z -> Z -> ST (RamView * Z) unit := view_write 1 cow_write_u8.
Definition view_write_u16 : Z -> Z -> ST (RamView * Z) unit := view_write 2 cow_write_u16.
Definition view_write_u32 : Z -> Z -> ST (RamView * Z) unit := view_write 4 cow_write_u32.
Definition view_write_u64 : Z -> Z -> ST (RamView * Z) unit := view_write 8 cow_write_u64.

(** ** Queues *)

Record VirtQueue := mkQueue {
  ready : bool; num : Z; last_avail_idx : Z; desc_addr : Z; avail_addr : Z; used_addr : Z
}.
#[export] Instance VirtQueue_eta : Eta VirtQueue := fun q =>
  mkQueue (ready q) (num q) (last_avail_idx q) (desc_addr q) (avail_addr q) (used_addr q).
Definition queue_default : VirtQueue := mkQueue false 0 0 0 0 0.
#[export] Instance VirtQueue_inhabited : Inhabited VirtQueue := populate queue_default.

Record VirtDesc := mkDesc { d_addr : Z; d_len : Z; d_flags : Z; d_next : Z }.

Definition read_desc (q : VirtQueue) (idx : Z) (v : RamView) : option VirtDesc :=
  let base := wrapping_add64 (desc_addr q) (idx * 16) in
  addr ← view_read_u64 base v;
  len ← view_read_u32 (wrapping_add64 base 8) v;
  flags ← view_read_u16 (wrapping_add64 base 12) v;
  next ← view_read_u16 (wrapping_add64 base 14) v;
  Some (mkDesc addr len flags next).

(** [last & (num as u16 - 1)] *)
Definition ring_slot (q : VirtQueue) (idx : Z) : Z := Z.land idx (as_u16 (as_u16 (num q) - 1)).

(** The head of the next available chain, and the queue after taking it. *)
Definition pop_avail (q : VirtQueue) (v : RamView) : option (option Z * VirtQueue) :=
  if negb (ready q) then Some (None, q)
  else
    avail_idx ← view_read_u16 (wrapping_add64 (avail_addr q) 2) v;
    if last_avail_idx q =? avail_idx then Some (None, q)
    else
      desc_idx ← view_read_u16 (wrapping_add64 (wrapping_add64 (avail_addr q) 4) (ring_slot q (last_avail_idx q) * 2)) v;
      Some (Some desc_idx, q <| last_avail_idx := as_u16 (last_avail_idx q + 1) |>).

(** A read through the view, inside code that also writes. *)
Definition peek {A} (f : RamView -> option A) : ST (RamView * Z) A := fun s =>
  match f s.1 with Some a => Some (a, s) | None => None end.

Definition push_used (q : VirtQueue) (desc_idx len : Z) : ST (RamView * Z) unit :=
  used_idx ← peek (view_read_u16 (wrapping_add64 (used_addr q) 2));
  let entry_addr := wrapping_add64 (wrapping_add64 (used_addr q) 4) (ring_slot q used_idx * 8) in
  view_write_u32 entry_addr desc_idx;;
  view_write_u32 (wrapping_add64 entry_addr 4) len;;
  view_write_u16 (wrapping_add64 (used_addr q) 2) (as_u16 (used_idx + 1)).

(** ** Registers *)

Record VirtioMmio := mkMmio {
  device_id : Z;
  device_features : Z;
  driver_features : Z;
  device_features_sel : Z;
  driver_features_sel : Z;
  status : Z;
  int_status : Z;
  queue_sel : Z;
  queues : list VirtQueue;
  config : list Z;
  config_gen : Z;
  num_queues : Z
}.
#[export] Instance VirtioMmio_eta : Eta VirtioMmio := fun m =>
  mkMmio (device_id m) (device_features m) (driver_features m) (device_features_sel m)
    (driver_features_sel m) (status m) (int_status m) (queue_sel m) (queues m) (config m)
    (config_gen m) (num_queues m).

Definition mmio_new (device_id device_features num_queues : Z) : VirtioMmio :=
  mkMmio device_id device_features 0 0 0 0 0 0 (replicate (Z.to_nat MAX_QUEUES) queue_default)
    (replicate 64 0) 0 num_queues.

(** [self.queue_sel.min(self.num_queues - 1)] *)
Definition selected (m : VirtioMmio) : nat := Z.to_nat (Z.min (queue_sel m) (wrapping_sub64 (num_queues m) 1)).

Definition lo (field : Z) : Z := as_u32 field.
Definition hi (field : Z) : Z := as_u32 (Z.shiftr field 32).
Definition set_lo (field val : Z) : Z := Z.lor (Z.land field (not64 0xffffffff)) val.
Definition set_hi (field val : Z) : Z := Z.lor (Z.land field 0xffffffff) (shl64 val 32).

Definition mmio_read (offset : Z) (m : VirtioMmio) : option Z :=
  if MMIO_CONFIG <=? offset then
    let i := offset - MMIO_CONFIG in
    if i + 3 <? Z.of_nat (length (config m)) then from_le_bytes <$> slice_get (config m) i 4 else Some 0
  else
    q ← queues m !! selected m;
    Some (
      if offset =? MMIO_MAGIC then MMIO_MAGIC_VALUE
      else if offset =? MMIO_VERSION then MMIO_VERSION_VALUE
      else if offset =? MMIO_DEVICE_ID then device_id m
      else if offset =? MMIO_VENDOR_ID then 0xffffffff
      else if offset =? MMIO_DEVICE_FEATURES then
        if device_features_sel m =? 0 then as_u32 (device_features m)
        else as_u32 (Z.shiftr (device_features m) 32)
      else if offset =? MMIO_QUEUE_NUM_MAX then QUEUE_NUM_MAX
      else if offset =? MMIO_QUEUE_READY then b2u (ready q)
      else if offset =? MMIO_INTERRUPT_STATUS then int_status m
      else if offset =? MMIO_STATUS then status m
      else if offset =? MMIO_QUEUE_DESC_LOW then lo (desc_addr q)
      else if offset =? MMIO_QUEUE_DESC_HIGH then hi (desc_addr q)
      else if offset =? MMIO_QUEUE_AVAIL_LOW then lo (avail_addr q)
      else if offset =? MMIO_QUEUE_AVAIL_HIGH then hi (avail_addr q)
      else if offset =? MMIO_QUEUE_USED_LOW then lo (used_addr q)
      else if offset =? MMIO_QUEUE_USED_HIGH then hi (used_addr q)
      else if offset =? MMIO_CONFIG_GENERATION then config_gen m
      else 0).

Definition mmio_reset (m : VirtioMmio) : VirtioMmio :=
  m <| driver_features := 0 |> <| int_status := 0 |> <| queue_sel := 0 |>
    <| queues := map (fun _ => queue_default) (queues m) |>.

(** Updating the selected queue; an index outside the array panics. *)
Definition on_queue (f : VirtQueue -> VirtQueue) (m : VirtioMmio) : option (option Z * VirtioMmio) :=
  q ← queues m !! selected m;
  Some (None, m <| queues := <[selected m := f q]> (queues m) |>).

(** [%] panics on zero. *)
Definition checked_rem (a b : Z) : option Z := if b =? 0 then None else Some (a mod b).

(** The new state, and the queue to notify. *)
Definition mmio_write (offset val : Z) (m : VirtioMmio) : option (option Z * VirtioMmio) :=
  if MMIO_CONFIG <=? offset then
    let i := offset - MMIO_CONFIG in
    if i + 3 <? Z.of_nat (length (config m)) then
      c ← slice_put (config m) i (to_le_bytes 4 val);
      Some (None, m <| config := c |>)
    else Some (None, m)
  else if offset =? MMIO_DEVICE_FEATURES_SEL then Some (None, m <| device_features_sel := val |>)
  else if offset =? MMIO_DRIVER_FEATURES then
    Some (None, if driver_features_sel m =? 0
                then m <| driver_features := set_lo (driver_features m) val |>
                else m <| driver_features := set_hi (driver_features m) val |>)
  else if offset =? MMIO_DRIVER_FEATURES_SEL then Some (None, m <| driver_features_sel := val |>)
  else if offset =? MMIO_QUEUE_SEL then
    sel ← checked_rem val (num_queues m);
    Some (None, m <| queue_sel := sel |>)
  else if offset =? MMIO_QUEUE_NUM then on_queue (fun q => q <| num := val |>) m
  else if offset =? MMIO_QUEUE_READY then on_queue (fun q => q <| ready := negb (val =? 0) |>) m
  else if offset =? MMIO_QUEUE_NOTIFY then
    index ← checked_rem val (num_queues m);
    Some (Some index, m)
  else if offset =? MMIO_INTERRUPT_ACK then Some (None, m <| int_status := Z.land (int_status m) (not32 val) |>)
  else if offset =? MMIO_STATUS then
    let m := m <| status := val |> in
    Some (None, if val =? 0 then mmio_reset m else m)
  else if offset =? MMIO_QUEUE_DESC_LOW then on_queue (fun q => q <| desc_addr := set_lo (desc_addr q) val |>) m
  else if offset =? MMIO_QUEUE_DESC_HIGH then on_queue (fun q => q <| desc_addr := set_hi (desc_addr q) val |>) m
  else if offset =? MMIO_QUEUE_AVAIL_LOW then on_queue (fun q => q <| avail_addr := set_lo (avail_addr q) val |>) m
  else if offset =? MMIO_QUEUE_AVAIL_HIGH then on_queue (fun q => q <| avail_addr := set_hi (avail_addr q) val |>) m
  else if offset =? MMIO_QUEUE_USED_LOW then on_queue (fun q => q <| used_addr := set_lo (used_addr q) val |>) m
  else if offset =? MMIO_QUEUE_USED_HIGH then on_queue (fun q => q <| used_addr := set_hi (used_addr q) val |>) m
  else Some (None, m).

(** Snapshots *)

Definition queue_serialize (q : VirtQueue) : list Z :=
  [b2u (ready q)] ++ to_le_bytes 4 (num q) ++ to_le_bytes 2 (last_avail_idx q)
  ++ to_le_bytes 8 (desc_addr q) ++ to_le_bytes 8 (avail_addr q) ++ to_le_bytes 8 (used_addr q).

Definition mmio_serialize (m : VirtioMmio) : list Z :=
  to_le_bytes 8 (driver_features m) ++ to_le_bytes 4 (status m) ++ to_le_bytes 4 (int_status m)
  ++ to_le_bytes 4 (queue_sel m) ++ to_le_bytes 4 (num_queues m)
  ++ mjoin (map queue_serialize (take (Z.to_nat (num_queues m)) (queues m)))
  ++ config m.

Definition queue_deserialize : Decoder VirtQueue unit :=
  b ←? read_le 1; assign (fun q => q <| ready := negb (b =? 0) |>);;?
  v ←? read_le 4; assign (fun q => q <| num := v |>);;?
  v ←? read_le 2; assign (fun q => q <| last_avail_idx := v |>);;?
  v ←? read_le 8; assign (fun q => q <| desc_addr := v |>);;?
  v ←? read_le 8; assign (fun q => q <| avail_addr := v |>);;?
  v ←? read_le 8; assign (fun q => q <| used_addr := v |>).

Fixpoint queues_deserialize (n k : nat) : Decoder VirtioMmio unit :=
  match n with
  | O => mret (Ok tt)
  | S n =>
      zoom_decoder (fun m => queues m !!! k) (fun q m => m <| queues := <[k := q]> (queues m) |>) queue_deserialize;;?
      queues_deserialize n (S k)
  end.

(** [&mut self.queues[..num_queues]] panics when the array is shorter. *)
Definition mmio_deserialize : Decoder VirtioMmio unit :=
  v ←? read_le 8; assign (fun m => m <| driver_features := v |>);;?
  v ←? read_le 4; assign (fun m => m <| status := v |>);;?
  v ←? read_le 4; assign (fun m => m <| int_status := v |>);;?
  v ←? read_le 4; assign (fun m => m <| queue_sel := v |>);;?
  n ←? read_le 4;
  (fun s => if Z.of_nat (length (queues s.1)) <? n then None else queues_deserialize (Z.to_nat n) 0 s);;?
  c ←? read_exact 64; assign (fun m => m <| config := c |>).
