(* ===== verification/VirtioProps.v ===== *)
(** Virtio registers: their ranges, the driver's set-up, and snapshots. *)
From S2P Require Import Prelude Words SystemBus BusLaws RamLaws Io CowRam Layout Virtio.

(** ** Ranges *)

Record queue_wf (q : VirtQueue) : Prop := {
  qw_num : is_u32 (num q);
  qw_last : is_u16 (last_avail_idx q);
  qw_desc : is_u64 (desc_addr q);
  qw_avail : is_u64 (avail_addr q);
  qw_used : is_u64 (used_addr q)
}.

Record mmio_wf (m : VirtioMmio) : Prop := {
  vw_id : is_u32 (device_id m);
  vw_device : is_u64 (device_features m);
  vw_driver : is_u64 (driver_features m);
  vw_status : is_u32 (status m);
  vw_int : is_u32 (int_status m);
  vw_sel : is_u32 (queue_sel m);
  vw_count : length (queues m) = Z.to_nat MAX_QUEUES;
  vw_queues : Forall queue_wf (queues m);
  vw_config : length (config m) = 64%nat ∧ Forall is_u8 (config m);
  vw_gen : is_u32 (config_gen m);
  vw_num : 1 <= num_queues m <= MAX_QUEUES
}.

Lemma queue_default_wf : queue_wf queue_default.
Proof. by split. Qed.

Lemma mmio_new_wf device_id device_features num_queues :
  is_u32 device_id → is_u64 device_features → 1 <= num_queues <= MAX_QUEUES →
  mmio_wf (mmio_new device_id device_features num_queues).
Proof.
  intros. split; try done; cbn [mmio_new queues config].
  - apply Forall_replicate, queue_default_wf.
  - split; [by rewrite length_replicate | by apply Forall_replicate].
Qed.

(** The selected queue is one of the array. *)
Lemma selected_lookup m : mmio_wf m → ∃ q, queues m !! selected m = Some q ∧ queue_wf q.
Proof.
  intros H. assert (Hs : (selected m < length (queues m))%nat).
  { destruct H. rewrite vw_count0. unfold selected, MAX_QUEUES, wrapping_sub64, as_u64 in *.
    rewrite wrap_id by (unfold is_word; lia). unfold is_word in vw_sel0. lia. }
  destruct (lookup_lt_is_Some_2 _ _ Hs) as [q Hq]. exists q. split; [done|].
  exact (Forall_lookup_1 _ _ _ _ (vw_queues m H) Hq).
Qed.

Lemma on_queue_wf f m :
  mmio_wf m → (∀ q, queue_wf q → queue_wf (f q)) →
  ∃ m', on_queue f m = Some (None, m') ∧ mmio_wf m'.
Proof.
  intros H Hf. destruct (selected_lookup m H) as (q & Hq & Hw). unfold on_queue. rewrite Hq. cbn.
  eexists. split; [done|]. destruct H. split; try done; cbn.
  - by rewrite length_insert.
  - apply Forall_insert; auto.
Qed.

Lemma set_lo_word f v : is_u64 f → is_u32 v → is_u64 (set_lo f v).
Proof. intros. unfold set_lo. apply lor_word; [lia| |by apply (is_word_mono 32)]. eauto with vpod. Qed.

Lemma set_hi_word f v : is_u64 f → is_u32 v → is_u64 (set_hi f v).
Proof.
  intros. unfold set_hi. apply lor_word; [lia| |apply wrap_range; lia]. apply land_word; [lia|done|done].
Qed.
#[export] Hint Resolve set_lo_word set_hi_word queue_default_wf : vpod.

(** ** Total and in range *)

Lemma config_slice_in m i :
  mmio_wf m → 0 <= i → i + 3 < Z.of_nat (length (config m)) →
  ∃ bytes, slice_get (config m) i 4 = Some bytes ∧ Forall is_u8 bytes ∧ length bytes = 4%nat.
Proof.
  intros H Hi Hl. destruct (slice_get (config m) i 4) as [bytes|] eqn:E.
  - exists bytes. split; [done|]. by apply slice_get_bytes in E; [|apply H].
  - exfalso. revert E. unfold slice_get. case_if; [done|]. apply andb_false_iff in E as [?|?]; bools; lia.
Qed.

Lemma mmio_read_wf offset m : 0 <= offset → mmio_wf m → ∃ v, mmio_read offset m = Some v ∧ is_u32 v.
Proof.
  intros Ho H. unfold mmio_read. destruct (Z.leb_spec MMIO_CONFIG offset).
  - case_if; bools; [|by exists 0].
    destruct (config_slice_in m (offset - MMIO_CONFIG) H ltac:(unfold MMIO_CONFIG in *; lia) E) as (bytes & -> & Hb & Hl).
    eexists. split; [done|]. apply from_le_bytes_range in Hb. by rewrite Hl in Hb.
  - destruct (selected_lookup m H) as (q & -> & Hq). cbn. eexists. split; [done|]. destruct H, Hq.
    assert (Hw : ∀ x, is_u32 (as_u32 x)) by (intros; by apply wrap_range).
    repeat (case_if; [by auto|]); repeat case_if; unfold lo, hi; try done; auto.
    by destruct (ready q).
Qed.

Lemma mmio_reset_wf m : mmio_wf m → mmio_wf (mmio_reset m).
Proof.
  intros []. split; try done; cbn.
  - by rewrite length_map.
  - apply Forall_map, Forall_true. intros. apply queue_default_wf.
Qed.

Lemma checked_rem_wf m v : mmio_wf m → 0 <= v →
  ∃ r, checked_rem v (num_queues m) = Some r ∧ 0 <= r < num_queues m.
Proof.
  intros H Hv. pose proof (vw_num m H). unfold checked_rem. replace (_ =? 0) with false by (symmetry; lia).
  eexists. split; [done|]. apply Z.mod_pos_bound. lia.
Qed.

Lemma mmio_write_wf offset val m :
  0 <= offset → is_u32 val → mmio_wf m →
  ∃ notify m', mmio_write offset val m = Some (notify, m') ∧ mmio_wf m' ∧ num_queues m' = num_queues m ∧
               ∀ i, notify = Some i → 0 <= i < num_queues m.
Proof.
  intros Ho Hv H. unfold mmio_write.
  assert (Hq : ∀ f, (∀ q, queue_wf q → queue_wf (f q)) →
    ∃ notify m', on_queue f m = Some (notify, m') ∧ mmio_wf m' ∧ num_queues m' = num_queues m ∧
                 ∀ i, notify = Some i → 0 <= i < num_queues m).
  { intros f Hf. destruct (on_queue_wf f m H Hf) as (m' & E & Hm'). exists None, m'. split; [done|]. split; [done|].
    split; [|done]. revert E. unfold on_queue. destruct (queues m !! selected m); [|done]. by intros [= <-]. }
  destruct (Z.leb_spec MMIO_CONFIG offset).
  - case_if; bools; [|by exists None, m].
    destruct (slice_put (config m) (offset - MMIO_CONFIG) (to_le_bytes 4 val)) as [c|] eqn:P.
    + eexists None, _. split; [done|]. split; [|done]. destruct H. destruct vw_config0 as [Hl Hb]. split; try done; cbn.
      split; [|exact (slice_put_bytes _ _ _ _ Hb (to_le_bytes_bytes _ _) P)].
      by rewrite (FlatRam.length_slice_put _ _ _ _ P).
    + exfalso. revert P. unfold slice_put. rewrite length_to_le_bytes. case_if; [done|].
      apply andb_false_iff in E0 as [?|?]; bools; unfold MMIO_CONFIG in *; lia.
  - assert (Hsame : ∀ m', mmio_wf m' → num_queues m' = num_queues m →
      ∃ (notify : option Z) m'', Some (@None Z, m') = Some (notify, m'') ∧ mmio_wf m'' ∧ num_queues m'' = num_queues m ∧
                 ∀ i, notify = Some i → 0 <= i < num_queues m) by (intros m'; exists None, m'; done).
    destruct (checked_rem_wf m val H ltac:(unfold is_word in Hv; lia)) as (r & Er & Hr). rewrite Er.
    assert (is_u32 r) by (pose proof (vw_num m H); unfold is_word, MAX_QUEUES in *; lia).
    pose proof H as [].
    repeat (case_if; [first [ apply Hsame; [split; done|done]
                            | apply Hq; intros q []; split; cbn; try done; eauto with vpod
                            | idtac ] |]).
    + apply Hsame; [split; try done; cbn; eauto with vpod | done].
    + apply Hsame; [split; try done; cbn; eauto with vpod | done].
    + exists (Some r), m. split; [done|]. split; [done|]. split; [done|]. by intros i [= <-].
    + apply Hsame; [split; try done; cbn; apply land_word; [lia|done|apply not32_word]|done].
    + apply Hsame; [apply mmio_reset_wf; by split | done].
    + apply Hsame; [by split | done].
    + apply Hsame; done.
Qed.

(** What the driver does to a device's registers. *)
Inductive MmioOp : Type := MmioRead (offset : Z) | MmioWrite (offset val : Z).

Definition mmio_op_ok (op : MmioOp) : Prop :=
  match op with MmioRead o => 0 <= o | MmioWrite o v => 0 <= o ∧ is_u32 v end.

(** The values read and the queues to notify, in order. *)
Fixpoint mmio_run (ops : list MmioOp) (m : VirtioMmio) : option (list (Z + option Z) * VirtioMmio) :=
  match ops with
  | [] => Some ([], m)
  | MmioRead o :: ops =>
      v ← mmio_read o m; '(out, m) ← mmio_run ops m; Some (inl v :: out, m)
  | MmioWrite o v :: ops =>
      '(n, m) ← mmio_write o v m; '(out, m) ← mmio_run ops m; Some (inr n :: out, m)
  end.

Definition mmio_out_ok (n : Z) (out : Z + option Z) : Prop :=
  match out with inl v => is_u32 v | inr None => True | inr (Some i) => 0 <= i < n end.

(** Whatever a driver writes to a virtio device's registers, at whatever
    offsets, no access panics, every value read is a 32-bit word, and only queues
    the device has are notified; the registers stay in range. *)
Theorem registers_total ops m :
  Forall mmio_op_ok ops → mmio_wf m →
  ∃ out m', mmio_run ops m = Some (out, m') ∧ mmio_wf m' ∧ Forall (mmio_out_ok (num_queues m)) out.
Proof.
  revert m. induction ops as [|[o|o v] ops IH]; intros m Ho Hm.
  - exists [], m. auto.
  - apply list.Forall_cons in Ho as [H1 Ho]. destruct (mmio_read_wf o m H1 Hm) as (x & E & Hx).
    destruct (IH m Ho Hm) as (out & m' & E' & Hm' & Hout).
    exists (inl x :: out), m'. cbn. rewrite E. cbn. rewrite E'. auto.
  - apply list.Forall_cons in Ho as [[H1 H2] Ho]. destruct (mmio_write_wf o v m H1 H2 Hm) as (n & m1 & E & Hm1 & Hn & Hi).
    destruct (IH m1 Ho Hm1) as (out & m' & E' & Hm' & Hout). rewrite Hn in Hout.
    exists (inr n :: out), m'. cbn. rewrite E. cbn. rewrite E'. split; [done|]. split; [done|].
    constructor; [|done]. destruct n; cbn; auto.
Qed.

Lemma registers_total_witness :
  ∃ m', mmio_run [MmioWrite MMIO_QUEUE_SEL 7; MmioWrite MMIO_QUEUE_NUM 16; MmioWrite 0x13d 5; MmioRead 0x13c;
                  MmioWrite MMIO_QUEUE_NOTIFY 3; MmioRead MMIO_MAGIC] (mmio_new 3 1 2)
        = Some ([inr None; inr None; inr None; inl 0; inr (Some 1); inl MMIO_MAGIC_VALUE], m') ∧ mmio_wf m'.
Proof.
  destruct (registers_total [MmioWrite MMIO_QUEUE_SEL 7; MmioWrite MMIO_QUEUE_NUM 16; MmioWrite 0x13d 5; MmioRead 0x13c;
                  MmioWrite MMIO_QUEUE_NOTIFY 3; MmioRead MMIO_MAGIC] (mmio_new 3 1 2)) as (out & m' & E & Hm' & _).
  - repeat constructor; done.
  - apply mmio_new_wf; done.
  - exists m'. split; [|done]. rewrite E. vm_compute in E. by injection E as <- _.
Defined.

(** ** The driver's set-up of a queue *)

Lemma set_lo_hi_address f a : is_u64 f → is_u64 a → set_hi (set_lo f (lo a)) (hi a) = a.
Proof.
  intros Hf Ha. apply (word_bits_inj 64); [lia| |done|].
  - apply set_hi_word; [apply set_lo_word|]; try done; by apply wrap_range.
  - intros i Hi. unfold set_hi, set_lo, lo, hi, as_u32. change 0xffffffff with (Z.ones 32).
    rewrite Z.lor_spec, !Z.land_spec, Z.lor_spec, shl64_bits, Z.land_spec, !wrap_testbit, not64_bits by lia.
    rewrite Z.testbit_ones_nonneg by lia. destruct (Z.ltb_spec i 32), (Z.ltb_spec i 64); try lia; cbn [negb andb].
    + rewrite (Z.testbit_neg_r _ (i - 32)) by lia. by destruct (Z.testbit f i), (Z.testbit a i).
    + rewrite wrap_testbit, Z.shiftr_spec by lia. replace (i - 32 <? 32) with true by (symmetry; lia).
      replace (i - 32 + 32) with i by lia. by destruct (Z.testbit f i), (Z.testbit a i).
Qed.

(** The writes a driver makes to set up queue [k]. *)
Definition queue_setup (k n desc avail used : Z) : list MmioOp :=
  [MmioWrite MMIO_QUEUE_SEL k; MmioWrite MMIO_QUEUE_NUM n;
   MmioWrite MMIO_QUEUE_DESC_LOW (lo desc); MmioWrite MMIO_QUEUE_DESC_HIGH (hi desc);
   MmioWrite MMIO_QUEUE_AVAIL_LOW (lo avail); MmioWrite MMIO_QUEUE_AVAIL_HIGH (hi avail);
   MmioWrite MMIO_QUEUE_USED_LOW (lo used); MmioWrite MMIO_QUEUE_USED_HIGH (hi used);
   MmioWrite MMIO_QUEUE_READY 1].

Lemma mmio_run_write o v n ops out m m1 m2 :
  mmio_write o v m = Some (n, m1) → mmio_run ops m1 = Some (out, m2) →
  mmio_run (MmioWrite o v :: ops) m = Some (inr n :: out, m2).
Proof. intros E1 E2. cbn. rewrite E1. cbn. by rewrite E2. Qed.

Lemma on_queue_at f m k q :
  queues m !! k = Some q → queue_sel m = Z.of_nat k → Z.of_nat k < num_queues m <= MAX_QUEUES →
  on_queue f m = Some (None, m <| queues := <[k := f q]> (queues m) |>).
Proof.
  intros Hq Hs Hk. assert (E : selected m = k).
  { unfold selected, wrapping_sub64, as_u64, MAX_QUEUES in *. rewrite wrap_id by (unfold is_word; lia). lia. }
  unfold on_queue. by rewrite E, Hq.
Qed.

(** After the driver's set-up writes the selected queue is ready, with the
    size and the three 64-bit ring addresses the driver gave in halves; the other
    queues and the rest of the device are as they were. *)
Theorem queue_setup_spec k n desc avail used m q :
  mmio_wf m → queues m !! Z.to_nat k = Some q → 0 <= k < num_queues m →
  is_u32 n → is_u64 desc → is_u64 avail → is_u64 used →
  mmio_run (queue_setup k n desc avail used) m
  = Some (replicate 9 (inr None),
          m <| queue_sel := k |>
            <| queues := <[Z.to_nat k := mkQueue true n (last_avail_idx q) desc avail used]> (queues m) |>).
Proof.
  intros Hm Hq Hk Hn Hd Ha Hu. pose proof (vw_num m Hm) as Hnum.
  destruct (Forall_lookup_1 _ _ _ _ (vw_queues m Hm) Hq) as [_ _ Wd Wa Wu]. pose proof (lookup_lt_Some _ _ _ Hq) as Hlt.
  set (st q1 := m <| queue_sel := k |> <| queues := <[Z.to_nat k := q1]> (queues m) |>).
  assert (Hstep : ∀ q1 f o v ops out m2, (∀ m1, mmio_write o v m1 = on_queue f m1) →
    mmio_run ops (st (f q1)) = Some (out, m2) → mmio_run (MmioWrite o v :: ops) (st q1) = Some (inr None :: out, m2)).
  { intros q1 f o v ops out m2 Hw. apply mmio_run_write. rewrite Hw. unfold st.
    rewrite (on_queue_at _ _ (Z.to_nat k) q1); cbn; [|by rewrite list_lookup_insert_eq|lia|lia].
    by rewrite list_insert_insert_eq. }
  unfold queue_setup. cbn [replicate]. apply (mmio_run_write _ _ _ _ _ _ (st q)).
  { unfold mmio_write. cbn. unfold checked_rem. replace (_ =? 0) with false by (symmetry; lia).
    rewrite Z.mod_small by lia. unfold st. rewrite list_insert_id by done. by destruct m. }
  do 8 (eapply Hstep; [by intros|]). cbn [mmio_run]. unfold st. do 3 f_equal. cbn. f_equal. f_equal.
  rewrite !set_lo_hi_address by done. done.
Qed.

Lemma queue_setup_spec_witness :
  (snd <$> mmio_run (queue_setup 1 16 0x180001000 0x80002000 0x80003000) (mmio_new 3 1 2)) ≫= (fun m => queues m !! 1%nat)
  = Some (mkQueue true 16 0 0x180001000 0x80002000 0x80003000).
Proof.
  rewrite (queue_setup_spec 1 16 0x180001000 0x80002000 0x80003000 (mmio_new 3 1 2) queue_default); try done.
  by apply mmio_new_wf.
Defined.

(** ** Snapshots *)

Lemma queue_round_trip q q0 : queue_wf q → decodes queue_deserialize q0 (queue_serialize q) tt q.
Proof.
  intros []. unfold queue_deserialize, queue_serialize.
  assert (E : [b2u (ready q)] = to_le_bytes 1 (b2u (ready q))) by (by destruct (ready q)). rewrite E.
  eapply (decodes_field 1 _ (fun b q => q <| ready := negb (b =? 0) |>)); [by destruct (ready q)|].
  eapply (decodes_field 4 _ (fun v q => q <| num := v |>)); [done|].
  eapply (decodes_field 2 _ (fun v q => q <| last_avail_idx := v |>)); [done|].
  eapply (decodes_field 8 _ (fun v q => q <| desc_addr := v |>)); [done|].
  eapply (decodes_field 8 _ (fun v q => q <| avail_addr := v |>)); [done|].
  eapply decodes_to; [by apply (decodes_last_field 8 _ (fun v q => q <| used_addr := v |>)) | by destruct q as [[]]].
Qed.

Lemma queues_round_trip qs m0 pre rest :
  Forall queue_wf qs → queues m0 = pre ++ rest → (length qs <= length rest)%nat →
  decodes (queues_deserialize (length qs) (length pre)) m0 (mjoin (map queue_serialize qs)) tt
    (m0 <| queues := pre ++ qs ++ drop (length qs) rest |>).
Proof.
  revert m0 pre rest. induction qs as [|q qs IH]; intros m0 pre rest Hqs Hq Hl.
  - eapply decodes_to; [apply decodes_ret|]. cbn. rewrite drop_0, <- Hq. by destruct m0.
  - apply list.Forall_cons in Hqs as [Hw Hqs]. destruct rest as [|q1 rest]; [cbn in Hl; lia|].
    cbn [length queues_deserialize map mjoin list_join]. eapply decodes_bind.
    { apply decodes_zoom. by apply (queue_round_trip q). }
    assert (Ei : <[length pre := q]> (queues m0) = (pre ++ [q]) ++ rest).
    { rewrite Hq. rewrite <- (Nat.add_0_r (length pre)), insert_app_r. by rewrite <- app_assoc. }
    rewrite Ei. replace (S (length pre)) with (length (pre ++ [q])) by (rewrite length_app; cbn; lia).
    eapply decodes_to; [apply (IH _ (pre ++ [q]) rest); [done|done|cbn in Hl; lia]|].
    cbn. by rewrite <- app_assoc.
Qed.

(** What a snapshot of the registers does not hold comes from the device it is
    restored into. *)
Definition mmio_restored (m m0 : VirtioMmio) : VirtioMmio :=
  m0 <| driver_features := driver_features m |> <| status := status m |> <| int_status := int_status m |>
     <| queue_sel := queue_sel m |>
     <| queues := take (Z.to_nat (num_queues m)) (queues m) ++ drop (Z.to_nat (num_queues m)) (queues m0) |>
     <| config := config m |>.

Lemma mmio_round_trip m m0 :
  mmio_wf m → length (queues m0) = length (queues m) →
  decodes mmio_deserialize m0 (mmio_serialize m) tt (mmio_restored m m0).
Proof.
  intros [] Hl. unfold mmio_deserialize, mmio_serialize.
  eapply (decodes_field 8 _ (fun v m => m <| driver_features := v |>)); [done|].
  eapply (decodes_field 4 _ (fun v m => m <| status := v |>)); [done|].
  eapply (decodes_field 4 _ (fun v m => m <| int_status := v |>)); [done|].
  eapply (decodes_field 4 _ (fun v m => m <| queue_sel := v |>)); [done|].
  unfold MAX_QUEUES in *. eapply decodes_bind; [apply decodes_le; unfold is_word; lia|].
  assert (Ht : length (take (Z.to_nat (num_queues m)) (queues m)) = Z.to_nat (num_queues m))
    by (rewrite length_take; lia).
  eapply decodes_bind.
  - intros rest. cbn [fst snd]. match goal with |- (if ?c then _ else _) = _ => replace c with false by (symmetry; cbn; lia) end.
    rewrite <- Ht at 1. revert rest. apply (queues_round_trip _ _ [] (queues m0)); [by apply Forall_take | done | rewrite Ht; cbn; lia].
  - rewrite <- (app_nil_r (config m)) at 1. destruct vw_config0 as [Hc _]. eapply decodes_bind.
    + rewrite <- Hc. apply decodes_exact.
    + eapply decodes_to; [apply decodes_assign|]. unfold mmio_restored. cbn. by rewrite Ht.
Qed.
