(* ===== verification/VirtioConsole.v ===== *)
(** The virtio console ([machine/src/virtio/console.rs]).

    Device code works on the device and the RAM it is given.  Its loops, over the
    available chains of a queue and over the descriptors of a chain, are driven by
    what the guest put in memory and need not end: they take their bound from
    [LoopBound], and [None] is a panic or a loop that has not ended by then. *)
From S2P Require Import Prelude Words CowRam Virtio.

(** How many iterations of a device loop are followed. *)
Class LoopBound := loop_bound : nat.

Section Device.
Context {D : Type}.

Definition DevST (A : Type) : Type := ST (D * (RamView * Z)) A.

Definition on_view {A} (m : ST (RamView * Z) A) : DevST A := zoom snd (fun v s => (s.1, v)) m.
Definition mod_dev (f : D -> D) : DevST unit := modify (fun s => (f s.1, s.2)).
Definition get_dev {A} (f : D -> A) : DevST A := gets (fun s => f s.1).

Context (get_mmio : D -> VirtioMmio) (put_mmio : VirtioMmio -> D -> D).

(** [self.mmio.queues[k].pop_avail(ram)] *)
Definition dev_pop (k : nat) : DevST (option Z) := fun s =>
  match queues (get_mmio s.1) !! k with
  | Some q =>
      match pop_avail q s.2.1 with
      | Some (head, q') =>
          Some (head, (put_mmio ((get_mmio s.1) <| queues := <[k := q']> (queues (get_mmio s.1)) |>) s.1, s.2))
      | None => None
      end
  | None => None
  end.

(** [self.mmio.queues[k].read_desc(ram, idx)] *)
Definition dev_desc (k : nat) (idx : Z) : DevST VirtDesc := fun s =>
  match queues (get_mmio s.1) !! k with
  | Some q => match read_desc q idx s.2.1 with Some d => Some (d, s) | None => None end
  | None => None
  end.

(** [self.mmio.queues[k].push_used(ram, head, len)], then the interrupt. *)
Definition dev_push_used (k : nat) (head len : Z) : DevST unit := fun s =>
  match queues (get_mmio s.1) !! k with
  | Some q => on_view (push_used q head len) s
  | None => None
  end.

Definition raise_interrupt : DevST unit :=
  mod_dev (fun d => put_mmio ((get_mmio d) <| int_status := Z.lor (int_status (get_mmio d)) 1 |>) d).
End Device.
Arguments DevST : clear implicits.

(** ** The device *)

Definition CONSOLE_DEVICE_ID : Z := 3.
Definition VIRTIO_F_VERSION_1 : Z := Z.shiftl 1 32.
Definition CONSOLE_DEVICE_FEATURES : Z := Z.lor (Z.shiftl 1 0) VIRTIO_F_VERSION_1.
Definition QUEUE_RX : nat := 0.
Definition QUEUE_TX : nat := 1.

(** [console_stdout] is what was sent to the host's standard output. *)
Record VirtioConsole := mkConsole {
  console_mmio : VirtioMmio; console_rx_pending : list Z; tx_buf : list Z; console_stdout : list Z
}.
#[export] Instance VirtioConsole_eta : Eta VirtioConsole := fun c =>
  mkConsole (console_mmio c) (console_rx_pending c) (tx_buf c) (console_stdout c).

Definition console_new : VirtioConsole :=
  let mmio := mmio_new CONSOLE_DEVICE_ID CONSOLE_DEVICE_FEATURES 2 in
  mkConsole (mmio <| config := to_le_bytes 2 80 ++ to_le_bytes 2 24 ++ drop 4 (config mmio) |>) [] [] [].

Definition console_push_rx (byte : Z) (c : VirtioConsole) : VirtioConsole :=
  c <| console_rx_pending := console_rx_pending c ++ [byte] |>.

Definition set_console_mmio (m : VirtioMmio) (c : VirtioConsole) : VirtioConsole := c <| console_mmio := m |>.

Section Console.
Context {LB : LoopBound}.
Abbreviation M := (DevST VirtioConsole).
Abbreviation pop := (dev_pop console_mmio set_console_mmio).
Abbreviation desc_at := (dev_desc console_mmio).

(** The loop that moves waiting bytes into one writable buffer. *)
Fixpoint write_pending (addr : Z) (offset : Z) (n : nat) : M unit :=
  match n with
  | O => mret tt
  | S n =>
      rx ← get_dev console_rx_pending;
      match rx with
      | byte :: rest =>
          mod_dev (fun c => c <| console_rx_pending := rest |>);;
          on_view (view_write_u8 (wrapping_add64 addr offset) byte);;
          write_pending addr (offset + 1) n
      | [] => panic
      end
  end.

(** One chain of the receive queue: how many bytes went in. *)
Fixpoint rx_chain (fuel : nat) (desc : VirtDesc) (total : Z) : M Z :=
  match fuel with
  | O => panic
  | S fuel =>
      total ←
        (if negb (Z.land (d_flags desc) VRING_DESC_F_WRITE =? 0) then
           rx ← get_dev console_rx_pending;
           let bytes_to_write := Z.min (d_len desc) (Z.of_nat (length rx)) in
           write_pending (d_addr desc) 0 (Z.to_nat bytes_to_write);;
           mret (wrapping_add32 total (as_u32 bytes_to_write))
         else mret total);
      if Z.land (d_flags desc) VRING_DESC_F_NEXT =? 0 then mret total
      else
        desc ← desc_at QUEUE_RX (d_next desc);
        rx_chain fuel desc total
  end.

Fixpoint flush_rx_loop (fuel : nat) : M unit :=
  match fuel with
  | O => panic
  | S fuel =>
      head ← pop QUEUE_RX;
      match head with
      | None => mret tt
      | Some head =>
          desc ← desc_at QUEUE_RX head;
          total ← rx_chain loop_bound desc 0;
          dev_push_used console_mmio QUEUE_RX head total;;
          raise_interrupt console_mmio set_console_mmio;;
          rx ← get_dev console_rx_pending;
          match rx with
          | [] => mret tt
          | _ => flush_rx_loop fuel
          end
      end
  end.

Definition flush_rx : M unit :=
  rx ← get_dev console_rx_pending;
  match rx with
  | [] => mret tt
  | _ => flush_rx_loop loop_bound
  end.

(** One chain of the transmit queue. *)
Fixpoint tx_chain (fuel : nat) (desc : VirtDesc) : M unit :=
  match fuel with
  | O => panic
  | S fuel =>
      (if Z.land (d_flags desc) VRING_DESC_F_WRITE =? 0 then
         buf ← on_view (peek (view_read_bytes (d_addr desc) (d_len desc)));
         mod_dev (fun c => c <| tx_buf := tx_buf c ++ buf |>)
       else mret tt);;
      if Z.land (d_flags desc) VRING_DESC_F_NEXT =? 0 then mret tt
      else
        desc ← desc_at QUEUE_TX (d_next desc);
        tx_chain fuel desc
  end.

Fixpoint console_drain_tx (fuel : nat) : M unit :=
  match fuel with
  | O => panic
  | S fuel =>
      head ← pop QUEUE_TX;
      match head with
      | None => mret tt
      | Some head =>
          desc ← desc_at QUEUE_TX head;
          tx_chain loop_bound desc;;
          dev_push_used console_mmio QUEUE_TX head 0;;
          raise_interrupt console_mmio set_console_mmio;;
          console_drain_tx fuel
      end
  end.

Definition console_notify (queue_index : Z) : M unit :=
  if queue_index =? Z.of_nat QUEUE_TX then console_drain_tx loop_bound
  else if queue_index =? Z.of_nat QUEUE_RX then flush_rx
  else mret tt.
End Console.

Definition flush_tx_to_stdout (c : VirtioConsole) : VirtioConsole :=
  c <| console_stdout := console_stdout c ++ tx_buf c |> <| tx_buf := [] |>.

Definition take_tx_buffer (c : VirtioConsole) : list Z * VirtioConsole := (tx_buf c, c <| tx_buf := [] |>).
