(* ===== verification/VirtioBlk.v ===== *)
(** The virtio block device ([machine/src/virtio/blk.rs]).

    The image is a host file: its bytes and the position the next read or write
    starts at.  Host errors other than reading past the end and seeking past the
    largest file offset do not occur here. *)
From S2P Require Import Prelude Words SystemBus Io CowRam Virtio VirtioConsole.

Definition BLK_DEVICE_ID : Z := 2.
Definition BLK_DEVICE_FEATURES : Z := Z.lor (Z.lor (Z.shiftl 1 2) (Z.shiftl 1 6)) VIRTIO_F_VERSION_1.
Definition SECTOR_SIZE : Z := 512.
Definition BLK_T_IN : Z := 0.
Definition BLK_T_OUT : Z := 1.
Definition BLK_T_FLUSH : Z := 4.
Definition BLK_S_OK : Z := 0.
Definition BLK_S_IOERR : Z := 1.
Definition BLK_S_UNSUPP : Z := 2.

(** ** The host file *)

Record File := mkFile { file_bytes : list Z; file_pos : Z }.
#[export] Instance File_eta : Eta File := fun f => mkFile (file_bytes f) (file_pos f).

Definition file_seek (pos : Z) (f : File) : Result unit IoError * File :=
  if pos <? 2 ^ 63 then (Ok tt, f <| file_pos := pos |>) else (Err InvalidData, f).

Definition file_read_exact (n : Z) (f : File) : Result (list Z) IoError * File :=
  let available := drop (Z.to_nat (file_pos f)) (file_bytes f) in
  if n <=? Z.of_nat (length available)
  then (Ok (take (Z.to_nat n) available), f <| file_pos := file_pos f + n |>)
  else (Err UnexpectedEof, f <| file_pos := file_pos f + Z.of_nat (length available) |>).

(** Writing past the end extends the file, a gap reads as zeros. *)
Definition file_write_all (bytes : list Z) (f : File) : File :=
  let pos := Z.to_nat (file_pos f) in
  let head := take pos (file_bytes f) ++ replicate (pos - length (file_bytes f)) 0 in
  f <| file_bytes := head ++ bytes ++ drop (pos + length bytes) (file_bytes f) |>
    <| file_pos := file_pos f + Z.of_nat (length bytes) |>.

(** ** The device *)

Record VirtioBlk := mkBlk { blk_mmio : VirtioMmio; blk_file : File; sector_count : Z }.
#[export] Instance VirtioBlk_eta : Eta VirtioBlk := fun b => mkBlk (blk_mmio b) (blk_file b) (sector_count b).

Definition set_blk_mmio (m : VirtioMmio) (b : VirtioBlk) : VirtioBlk := b <| blk_mmio := m |>.

(** [config[i..i + bytes.len()].copy_from_slice(bytes)] on the fresh registers. *)
Definition with_config (i : nat) (bytes : list Z) (m : VirtioMmio) : VirtioMmio :=
  m <| config := take i (config m) ++ bytes ++ drop (i + length bytes) (config m) |>.

Definition blk_new (file : File) : VirtioBlk :=
  let size := Z.of_nat (length (file_bytes file)) in
  let sector_count := size / SECTOR_SIZE in
  let mmio := mmio_new BLK_DEVICE_ID BLK_DEVICE_FEATURES 1 in
  let mmio := with_config 0 (to_le_bytes 8 sector_count) mmio in
  let mmio := with_config 20 (to_le_bytes 4 SECTOR_SIZE) mmio in
  mkBlk mmio (file <| file_pos := size |>) sector_count.

Section Blk.
Context {LB : LoopBound}.
Abbreviation M := (DevST VirtioBlk).

Definition on_file {A} (op : File -> A * File) : M A := fun s =>
  let (a, f) := op (blk_file s.1) in Some (a, (s.1 <| blk_file := f |>, s.2)).

(** [u32 as u64 / SECTOR_SIZE], added without overflow check. *)
Definition end_sector (sector length : Z) : Z := wrapping_add64 sector (length / SECTOR_SIZE).

Definition read_sectors (destination length sector : Z) : M (Result unit IoError) :=
  count ← get_dev sector_count;
  if count <? end_sector sector length then mret (Err InvalidData)
  else
    _ ←? on_file (file_seek (wrapping_mul64 sector SECTOR_SIZE));
    buf ←? on_file (file_read_exact length);
    on_view (view_write_bytes destination buf);;
    mret (Ok tt).

Definition write_sectors (source length sector : Z) : M (Result unit IoError) :=
  count ← get_dev sector_count;
  if count <? end_sector sector length then mret (Err InvalidData)
  else
    _ ←? on_file (file_seek (wrapping_mul64 sector SECTOR_SIZE));
    buf ← on_view (peek (view_read_bytes source length));
    on_file (fun f => (tt, file_write_all buf f));;
    mret (Ok tt).

(** The loop over the data buffers; the first error ends it. *)
Fixpoint do_buffers (op : Z -> Z -> M (Result unit IoError)) (bufs : list (Z * Z)) : M Z :=
  match bufs with
  | [] => mret BLK_S_OK
  | (addr, len) :: bufs =>
      r ← op addr len;
      match r with
      | Ok _ => do_buffers op bufs
      | Err _ => mret BLK_S_IOERR
      end
  end.

Definition do_read (sector : Z) (write_bufs : list (Z * Z)) : M Z :=
  do_buffers (fun addr len => read_sectors addr len sector) (removelast write_bufs).

Definition do_write (sector : Z) (read_bufs : list (Z * Z)) : M Z :=
  do_buffers (fun addr len => write_sectors addr len sector) read_bufs.

(** The chain, split into the buffers the device reads and those it writes. *)
Fixpoint collect_chain (fuel : nat) (desc : VirtDesc) (read_bufs write_bufs : list (Z * Z))
    : M (list (Z * Z) * list (Z * Z)) :=
  match fuel with
  | O => panic
  | S fuel =>
      let is_write := negb (Z.land (d_flags desc) VRING_DESC_F_WRITE =? 0) in
      let write_bufs := if is_write then write_bufs ++ [(d_addr desc, d_len desc)] else write_bufs in
      let read_bufs := if is_write then read_bufs else read_bufs ++ [(d_addr desc, d_len desc)] in
      if Z.land (d_flags desc) VRING_DESC_F_NEXT =? 0 then mret (read_bufs, write_bufs)
      else
        desc ← dev_desc blk_mmio 0 (d_next desc);
        collect_chain fuel desc read_bufs write_bufs
  end.

Definition process_request (head : Z) : M Z :=
  desc ← dev_desc blk_mmio 0 head;
  bufs ← collect_chain loop_bound desc [] [];
  let read_bufs := bufs.1 in
  let write_bufs := bufs.2 in
  match read_bufs with
  | [] => mret 0
  | (header_address, header_length) :: data_bufs =>
      if header_length <? 16 then mret 0
      else
        request_type ← on_view (peek (view_read_u32 header_address));
        sector ← on_view (peek (view_read_u64 (wrapping_add64 header_address 8)));
        match list.last write_bufs with
        | None => mret 0
        | Some (status_address, _) =>
            status ← (if request_type =? BLK_T_IN then do_read sector write_bufs
                      else if request_type =? BLK_T_OUT then do_write sector data_bufs
                      else if request_type =? BLK_T_FLUSH then mret BLK_S_OK
                      else mret BLK_S_UNSUPP);
            on_view (view_write_u8 status_address status);;
            let data_written :=
              if request_type =? BLK_T_IN
              then foldl (fun sum buf => wrapping_add32 sum buf.2) 0 (removelast write_bufs) else 0 in
            mret (wrapping_add32 data_written 1)
        end
  end.

Fixpoint blk_notify_loop (fuel : nat) : M unit :=
  match fuel with
  | O => panic
  | S fuel =>
      head ← dev_pop blk_mmio set_blk_mmio 0;
      match head with
      | None => mret tt
      | Some head =>
          used_len ← process_request head;
          dev_push_used blk_mmio 0 head used_len;;
          raise_interrupt blk_mmio set_blk_mmio;;
          blk_notify_loop fuel
      end
  end.

Definition blk_notify : M unit := blk_notify_loop loop_bound.
End Blk.
