(* ===== verification/VirtioNet.v ===== *)
(** The virtio network device ([machine/src/virtio/net.rs]).

    The back end is the trait [NetworkBackend], a class here. *)
From S2P Require Import Prelude Words CowRam Layout Virtio VirtioConsole VirtioBlk.

Definition NET_DEVICE_ID : Z := 1.
Definition NET_DEVICE_FEATURES : Z := Z.lor (Z.shiftl 1 5) VIRTIO_F_VERSION_1.
Definition VNET_HDR_LEN : Z := 12.

Class NetworkBackend (N : Type) := {
  send : list Z -> ST N unit;
  recv : ST N (option (list Z));
  has_rx : N -> bool;
  has_active_connections : N -> bool
}.

Record VirtioNet (N : Type) := mkNet { net_mmio : VirtioMmio; net_backend : N; rx_hold : list (list Z) }.
Arguments mkNet {N}.
Arguments net_mmio {N}.
Arguments net_backend {N}.
Arguments rx_hold {N}.
#[export] Instance VirtioNet_eta {N} : Eta (VirtioNet N) := fun n =>
  mkNet (net_mmio n) (net_backend n) (rx_hold n).

Definition set_net_mmio {N} (m : VirtioMmio) (n : VirtioNet N) : VirtioNet N := n <| net_mmio := m |>.

Section Net.
Context {LB : LoopBound} {N : Type} {NB : NetworkBackend N}.
Abbreviation M := (DevST (VirtioNet N)).

Definition net_new (backend : N) (mac : list Z) : VirtioNet N :=
  let mmio := mmio_new NET_DEVICE_ID NET_DEVICE_FEATURES 2 in
  let mmio := with_config 0 mac mmio in
  let mmio := with_config 6 (to_le_bytes 2 1) mmio in
  mkNet mmio backend [].

Definition net_rx_pending (n : VirtioNet N) : bool :=
  negb (bool_decide (rx_hold n = [])) || has_rx (net_backend n).

Definition net_has_active_connections (n : VirtioNet N) : bool := has_active_connections (net_backend n).

Definition on_backend {A} (m : ST N A) : M A :=
  zoom (fun s => net_backend s.1) (fun b s => (s.1 <| net_backend := b |>, s.2)) m.

(** The zeros of the header. *)
Fixpoint write_zeros (addr j : Z) (n : nat) : M unit :=
  match n with
  | O => mret tt
  | S n => on_view (view_write_u8 (wrapping_add64 addr j) 0);; write_zeros addr (j + 1) n
  end.

(** One writable descriptor: the rest of the header, then of the frame.  Returns
    the bytes written so far. *)
Definition fill_desc (desc : VirtDesc) (frame : list Z) (written : Z) : M Z :=
  let cap := d_len desc in
  let flen := Z.of_nat (length frame) in
  let hdr_bytes := if written <? VNET_HDR_LEN then Z.min (VNET_HDR_LEN - written) cap else 0 in
  write_zeros (d_addr desc) 0 (Z.to_nat hdr_bytes);;
  let written := written + hdr_bytes in
  let buf_off := hdr_bytes in
  if (VNET_HDR_LEN <=? written) && (buf_off <? cap) then
    let frame_off := written - VNET_HDR_LEN in
    let n := Z.min (cap - buf_off) (Z.max 0 (flen - frame_off)) in
    if 0 <? n then
      on_view (view_write_bytes (wrapping_add64 (d_addr desc) buf_off)
                 (take (Z.to_nat n) (drop (Z.to_nat frame_off) frame)));;
      mret (written + n)
    else mret written
  else mret written.

Fixpoint rx_frame_loop (fuel : nat) (desc : VirtDesc) (frame : list Z) (written : Z) : M Z :=
  match fuel with
  | O => panic
  | S fuel =>
      written ← (if negb (Z.land (d_flags desc) VRING_DESC_F_WRITE =? 0)
                 then fill_desc desc frame written else mret written);
      if (Z.land (d_flags desc) VRING_DESC_F_NEXT =? 0)
         || (VNET_HDR_LEN + Z.of_nat (length frame) <=? written)
      then mret written
      else
        desc ← dev_desc net_mmio QUEUE_RX (d_next desc);
        rx_frame_loop fuel desc frame written
  end.

Definition push_rx_frame (frame : list Z) : M bool :=
  head ← dev_pop net_mmio set_net_mmio QUEUE_RX;
  match head with
  | None => mret false
  | Some head =>
      desc ← dev_desc net_mmio QUEUE_RX head;
      written ← rx_frame_loop loop_bound desc frame 0;
      dev_push_used net_mmio QUEUE_RX head (as_u32 written);;
      raise_interrupt net_mmio set_net_mmio;;
      mret true
  end.

(** The frames held back, then the ones the back end has. *)
Fixpoint poll_held (held : list (list Z)) : M bool :=
  match held with
  | [] => mod_dev (fun n => n <| rx_hold := [] |>);; mret true
  | frame :: rest =>
      mod_dev (fun n => n <| rx_hold := rest |>);;
      sent ← push_rx_frame frame;
      if (sent : bool) then poll_held rest
      else mod_dev (fun n => n <| rx_hold := frame :: rx_hold n |>);; mret false
  end.

Fixpoint poll_backend (fuel : nat) : M unit :=
  match fuel with
  | O => panic
  | S fuel =>
      frame ← on_backend recv;
      match frame with
      | None => mret tt
      | Some frame =>
          sent ← push_rx_frame frame;
          if (sent : bool) then poll_backend fuel
          else mod_dev (fun n => n <| rx_hold := rx_hold n ++ [frame] |>)
      end
  end.

Definition poll_rx : M unit :=
  held ← get_dev rx_hold;
  emptied ← poll_held held;
  if (emptied : bool) then poll_backend loop_bound else mret tt.

(** One chain of the transmit queue: the frame without its header. *)
Fixpoint tx_frame (fuel : nat) (desc : VirtDesc) (frame : list Z) (hdr_skipped : Z) : M (list Z) :=
  match fuel with
  | O => panic
  | S fuel =>
      r ← (if Z.land (d_flags desc) VRING_DESC_F_WRITE =? 0 then
             let len := d_len desc in
             if hdr_skipped <? VNET_HDR_LEN then
               let skip := Z.min (VNET_HDR_LEN - hdr_skipped) len in
               let rem := len - skip in
               if 0 <? rem then
                 buf ← on_view (peek (view_read_bytes (wrapping_add64 (d_addr desc) skip) rem));
                 mret (frame ++ buf, hdr_skipped + skip)
               else mret (frame, hdr_skipped + skip)
             else
               buf ← on_view (peek (view_read_bytes (d_addr desc) len));
               mret (frame ++ buf, hdr_skipped)
           else mret (frame, hdr_skipped));
      if Z.land (d_flags desc) VRING_DESC_F_NEXT =? 0 then mret r.1
      else
        desc ← dev_desc net_mmio QUEUE_TX (d_next desc);
        tx_frame fuel desc r.1 r.2
  end.

Fixpoint net_drain_tx (fuel : nat) : M unit :=
  match fuel with
  | O => panic
  | S fuel =>
      head ← dev_pop net_mmio set_net_mmio QUEUE_TX;
      match head with
      | None => mret tt
      | Some head =>
          desc ← dev_desc net_mmio QUEUE_TX head;
          frame ← tx_frame loop_bound desc [] 0;
          (match frame with [] => mret tt | _ => on_backend (send frame) end);;
          dev_push_used net_mmio QUEUE_TX head 0;;
          raise_interrupt net_mmio set_net_mmio;;
          net_drain_tx fuel
      end
  end.

Definition net_notify (queue_idx : Z) : M unit :=
  if queue_idx =? Z.of_nat QUEUE_TX then net_drain_tx loop_bound else mret tt.
End Net.
