(* ===== verification/VirtioInvariant.v ===== *)
(** What the virtio devices keep.

    A device works on guest-controlled rings and descriptors: whatever they hold,
    every step of a device leaves RAM well formed, its own registers in range and
    the values it reads in range ([keeps]).  Panics and loops that do not end are
    allowed ([True]): a guest can set up a descriptor chain that is a cycle. *)
From S2P Require Import Prelude Words Wp SystemBus BusLaws Invariant RamLaws Io CowRam CowRamProps Layout.
From S2P Require Import Virtio VirtioProps VirtioConsole VirtioBlk VirtioNet.

(** ** RAM *)

Definition ram_inv (s : CowRam * Z) : Prop :=
  cow_wf s.1 ∧ is_u64 s.2 ∧ Forall (fun p => 0 <= p) (device_written_pages s.1).

Lemma writes_keeps op idx bytes : writes op idx bytes → keeps True ram_inv op (fun _ => True).
Proof.
  intros H [r source] (Hr & Hs & Hd). cbn in *. specialize (H r source Hr Hs). unfold wp.
  destruct (slice_put _ _ _); [|by rewrite H]. destruct H as (r' & s' & -> & Hr' & _ & Hw).
  split; [done|]. split; [done|]. split; [exact (written_source _ _ _ _ Hs Hw)|]. cbn. by rewrite (wr_devs _ _ _ _ Hw).
Qed.

Lemma write_from_keeps idx buf : 0 <= idx → Forall is_u8 buf → keeps True ram_inv (write_from idx buf) (fun _ => True).
Proof.
  intros Hi Hb. destruct buf as [|x buf]; [by apply keeps_ret|].
  refine (writes_keeps _ idx (x :: buf) _). by apply write_from_writes.
Qed.

Lemma cow_write_u8_keeps idx v : 0 <= idx → is_u8 v → keeps True ram_inv (cow_write_u8 idx v) (fun _ => True).
Proof. intros. by eapply writes_keeps, cow_write_u8_writes. Qed.

Lemma cow_write_wide_keeps n idx v : 0 <= idx → (0 < n)%nat → keeps True ram_inv (cow_write_wide n idx v) (fun _ => True).
Proof. intros. by eapply writes_keeps, cow_write_wide_writes. Qed.

Lemma slice_word r idx n v :
  cow_wf r → from_le_bytes <$> slice_get (cow_flat r) idx n = Some v → is_word (8 * Z.of_nat n) v.
Proof.
  intros Hr E. destruct (slice_get _ _ _) as [bytes|] eqn:G; [|done]. injection E as <-.
  apply slice_get_bytes in G as [Hb <-]; [|by apply flat_bytes]. by apply from_le_bytes_range.
Qed.

Lemma cow_read_u8_word idx r v : cow_wf r → 0 <= idx → cow_read_u8 idx r = Some v → is_u8 v.
Proof. intros Hr Hi. rewrite cow_read_u8_is_slice by done. by apply slice_word. Qed.
Lemma cow_read_u16_word idx r v : cow_wf r → 0 <= idx → cow_read_u16 idx r = Some v → is_u16 v.
Proof. intros Hr Hi. rewrite cow_read_u16_is_slice by done. by apply slice_word. Qed.
Lemma cow_read_wide_word n idx r v :
  cow_wf r → 0 <= idx → (0 < n)%nat → cow_read_wide n idx r = Some v → is_word (8 * Z.of_nat n) v.
Proof. intros Hr Hi Hn. rewrite cow_read_wide_is_slice by done. by apply slice_word. Qed.

Lemma read_into_bytes idx len r bytes :
  cow_wf r → 0 <= idx → read_into idx len r = Some bytes → Forall is_u8 bytes.
Proof.
  intros Hr Hi. destruct (Z.ltb_spec 0 len) as [Hl|Hl].
  - rewrite <- (Z2Nat.id len), read_into_is_slice by (done || lia). intros E.
    apply slice_get_bytes in E as [? _]; [done | by apply flat_bytes].
  - unfold read_into. replace (Z.to_nat len) with 0%nat by lia. cbn. case_if; [done|]. by intros [= <-].
Qed.

Lemma note_device_write_pages index len r :
  Forall (fun p => 0 <= p) (device_written_pages r) →
  Forall (fun p => 0 <= p) (device_written_pages (note_device_write index len r)).
Proof.
  unfold note_device_write. case_if; [done|]. cbv zeta. generalize (seq 0 (Z.to_nat (wrapping_sub64 (index + len) 1 / PAGE_SIZE - index / PAGE_SIZE + 1))).
  intros ks. revert r. induction ks as [|k ks IH]; intros r Hr; [done|]. cbn [foldl]. apply IH.
  unfold note_page. cbv zeta. case_if; cbn; [|done]. apply Forall_app. split; [done|].
  constructor; [|constructor]. assert (is_u32 (as_u32 (index / PAGE_SIZE + Z.of_nat k))) as [? _] by (apply wrap_range; lia). done.
Qed.

(** ** The view *)

Record view_inv (s : RamView * Z) : Prop := {
  vi_ram : ram_inv (rv_ram s.1, s.2);
  vi_mask : 0 <= rv_mask s.1;
  vi_staging st : rv_staging s.1 = Some st → Forall is_u8 (staging_buffer st)
}.

Lemma view_idx_nonneg a v : 0 <= rv_mask v → 0 <= view_idx a v.
Proof. intros. apply Z.land_nonneg. auto. Qed.

Lemma view_new_inv r source mask : ram_inv (r, source) → 0 <= mask → view_inv (view_new r mask, source).
Proof. intros. by split. Qed.

Lemma view_read_bytes_inv a len v source bytes :
  view_inv (v, source) → view_read_bytes a len v = Some bytes → Forall is_u8 bytes.
Proof.
  intros [[Hr _] Hm Hs]. unfold view_read_bytes. cbn in *. destruct (staged a len v) as [off|], (rv_staging v) as [st|];
    try (apply read_into_bytes; [done | by apply view_idx_nonneg]).
  intros E. apply slice_get_bytes in E as [? _]; [done | by apply Hs].
Qed.

Lemma view_read_inv n ram_read a v source x :
  (∀ idx r y, cow_wf r → 0 <= idx → ram_read idx r = Some y → is_word (8 * Z.of_nat n) y) →
  view_inv (v, source) → view_read n ram_read a v = Some x → is_word (8 * Z.of_nat n) x.
Proof.
  intros Hread Hv. unfold view_read. destruct (rv_staging v) as [st|] eqn:Es.
  - destruct (view_read_bytes a (Z.of_nat n) v) as [bytes|] eqn:E; [|done]. cbn. intros [= <-].
    pose proof (view_read_bytes_inv _ _ _ _ _ Hv E) as Hb. apply from_le_bytes_range in Hb.
    replace n with (length bytes); [done|]. revert E. unfold view_read_bytes.
    destruct (staged a (Z.of_nat n) v) as [off|]; rewrite ?Es.
    + rewrite Nat2Z.id. intros E. apply slice_get_bytes in E as [_ ?]; [done|]. by apply (vi_staging _ Hv).
    + destruct Hv as [[Hr _] Hm _]. destruct n as [|n]; [by intros [= <-]|]. intros E.
      rewrite read_into_is_slice in E; [|done|by apply view_idx_nonneg|lia].
      by apply slice_get_bytes in E as [_ ?]; [|apply flat_bytes].
  - destruct Hv as [[Hr _] Hm _]. apply Hread; [done | by apply view_idx_nonneg].
Qed.

Lemma view_read_u8_inv a v source x : view_inv (v, source) → view_read_u8 a v = Some x → is_u8 x.
Proof. apply (view_read_inv 1). intros. by eapply cow_read_u8_word. Qed.
Lemma view_read_u16_inv a v source x : view_inv (v, source) → view_read_u16 a v = Some x → is_u16 x.
Proof. apply (view_read_inv 2). intros. by eapply cow_read_u16_word. Qed.
Lemma view_read_u32_inv a v source x : view_inv (v, source) → view_read_u32 a v = Some x → is_u32 x.
Proof. apply (view_read_inv 4). intros. eapply (cow_read_wide_word 4); eauto with lia. Qed.
Lemma view_read_u64_inv a v source x : view_inv (v, source) → view_read_u64 a v = Some x → is_u64 x.
Proof. apply (view_read_inv 8). intros. eapply (cow_read_wide_word 8); eauto with lia. Qed.

Lemma peek_keeps {A} (f : RamView -> option A) (R : A -> Prop) :
  (∀ v source x, view_inv (v, source) → f v = Some x → R x) → keeps True view_inv (peek f) R.
Proof.
  intros H [v source] Hv. unfold wp, peek. cbn. destruct (f v) as [x|] eqn:E; [|done]. eauto.
Qed.

Lemma on_ram_keeps {A} (m : ST (CowRam * Z) A) R : keeps True ram_inv m R → keeps True view_inv (on_ram m) R.
Proof.
  intros H. apply (keeps_zoom ram_inv); [done | by intros s [] | ]. intros s [r source] [_ Hm Hs] Hr. by split.
Qed.

Lemma note_write_keeps index len : keeps True view_inv (note_write index len) (fun _ => True).
Proof.
  apply keeps_modify. intros [v source] [(Hr & Hs & Hd) Hm Hst]. split; cbn in *; [|done|done].
  destruct (same_memory_flat _ _ (note_device_write_memory index len (rv_ram v))) as [Hw _].
  split; [by apply Hw|]. split; [done | by apply note_device_write_pages].
Qed.

(** The part of a write that goes to RAM. *)
Lemma ram_write_keeps (op : ST (CowRam * Z) unit) a n v source :
  (0 <= view_idx a v → keeps True ram_inv op (fun _ => True)) → view_inv (v, source) →
  wp True (on_ram op;; note_write (view_idx a v) n) (fun _ s' => True ∧ view_inv s') (v, source).
Proof.
  intros Hop Hv. refine (keeps_bind _ _ (fun _ => True) _ _ (fun _ _ => note_write_keeps _ _) _ Hv).
  apply on_ram_keeps, Hop, view_idx_nonneg, Hv.
Qed.

Lemma view_write_bytes_keeps a buf : Forall is_u8 buf → keeps True view_inv (view_write_bytes a buf) (fun _ => True).
Proof.
  intros Hb [v source] Hv. unfold view_write_bytes. apply wp_bind, wp_get. cbn [fst].
  assert (Hram := ram_write_keeps (write_from (view_idx a v) buf) a (Z.of_nat (length buf)) v source
                    (fun H => write_from_keeps _ _ H Hb) Hv).
  destruct (staged a (Z.of_nat (length buf)) v) as [off|], (rv_staging v) as [st|] eqn:Es; try exact Hram.
  destruct (slice_put (staging_buffer st) off buf) as [b|] eqn:P; [|done]. split; [done|].
  destruct Hv as [Hr Hm Hst]. split; cbn; [done|done|]. intros ? [= <-]. cbn.
  exact (slice_put_bytes _ _ _ _ (Hst _ Es) Hb P).
Qed.

Lemma view_write_keeps n op a val :
  Forall is_u8 (to_le_bytes n val) → (∀ idx, 0 <= idx → keeps True ram_inv (op idx val) (fun _ => True)) →
  keeps True view_inv (view_write n op a val) (fun _ => True).
Proof.
  intros Hb Hop [v source] Hv. unfold view_write. apply wp_bind, wp_get. cbn [fst].
  destruct (rv_staging v); [by apply view_write_bytes_keeps|].
  by apply (ram_write_keeps _ a (Z.of_nat n) v source (Hop (view_idx a v))).
Qed.

Lemma view_write_u8_keeps a v : is_u8 v → keeps True view_inv (view_write_u8 a v) (fun _ => True).
Proof. intros. apply view_write_keeps; [apply to_le_bytes_bytes|]. intros. by apply cow_write_u8_keeps. Qed.
Lemma view_write_u16_keeps a v : keeps True view_inv (view_write_u16 a v) (fun _ => True).
Proof. apply view_write_keeps; [apply to_le_bytes_bytes|]. intros. apply cow_write_wide_keeps; [done|lia]. Qed.
Lemma view_write_u32_keeps a v : keeps True view_inv (view_write_u32 a v) (fun _ => True).
Proof. apply view_write_keeps; [apply to_le_bytes_bytes|]. intros. apply cow_write_wide_keeps; [done|lia]. Qed.

Lemma push_used_keeps q idx len : keeps True view_inv (push_used q idx len) (fun _ => True).
Proof.
  unfold push_used. eapply keeps_bind; [apply (peek_keeps _ is_u16), view_read_u16_inv|]. intros used _. cbv zeta.
  eapply keeps_bind; [apply view_write_u32_keeps|]. intros _ _.
  eapply keeps_bind; [apply view_write_u32_keeps|]. intros _ _. apply view_write_u16_keeps.
Qed.

(** ** Devices with registers *)

Record desc_wf (d : VirtDesc) : Prop := {
  dsw_addr : is_u64 (d_addr d); dsw_len : is_u32 (d_len d); dsw_flags : is_u16 (d_flags d); dsw_next : is_u16 (d_next d)
}.

Lemma read_desc_inv q idx v source d : view_inv (v, source) → read_desc q idx v = Some d → desc_wf d.
Proof.
  intros Hv. unfold read_desc. cbv zeta.
  destruct (view_read_u64 _ v) as [a|] eqn:E1; [|done]. cbn. destruct (view_read_u32 _ v) as [l|] eqn:E2; [|done]. cbn.
  destruct (view_read_u16 (wrapping_add64 _ 12) v) as [f|] eqn:E3; [|done]. cbn.
  destruct (view_read_u16 (wrapping_add64 _ 14) v) as [n|] eqn:E4; [|done]. cbn. intros [= <-].
  split; cbn; [by eapply view_read_u64_inv | by eapply view_read_u32_inv | by eapply view_read_u16_inv | by eapply view_read_u16_inv].
Qed.

Lemma pop_avail_inv q v source head q' :
  view_inv (v, source) → queue_wf q → pop_avail q v = Some (head, q') → queue_wf q' ∧ ∀ i, head = Some i → is_u16 i.
Proof.
  intros Hv Hq. unfold pop_avail. destruct (ready q); [|intros [= <- <-]; by split]. cbn [negb].
  destruct (view_read_u16 (wrapping_add64 (avail_addr q) 2) v) as [av|]; [|done]. cbn -[ring_slot]. case_if; [intros [= <- <-]; by split|].
  destruct (view_read_u16 (wrapping_add64 (wrapping_add64 _ 4) _) v) as [i|] eqn:E1; [|done]. cbn. intros [= <- <-].
  split; [|intros ? [= <-]; by eapply view_read_u16_inv].
  destruct Hq. split; try done. cbn. apply wrap_range. lia.
Qed.

Section Device.
Context {D : Type} (get_mmio : D -> VirtioMmio) (put_mmio : VirtioMmio -> D -> D) (dev_ok : D -> Prop).
Context (Hget : ∀ d, dev_ok d → mmio_wf (get_mmio d)).
Context (Hput : ∀ d m, dev_ok d → mmio_wf m → dev_ok (put_mmio m d)).

Definition dev_inv (s : D * (RamView * Z)) : Prop := dev_ok s.1 ∧ view_inv s.2.

Lemma on_view_keeps {A} (m : ST (RamView * Z) A) R : keeps True view_inv m R → keeps True dev_inv (on_view m) R.
Proof. intros H. apply (keeps_zoom view_inv); [done | by intros s [] |]. by intros s v [Hd _] Hv. Qed.

Lemma mod_dev_keeps f : (∀ d, dev_ok d → dev_ok (f d)) → keeps True dev_inv (mod_dev f) (fun _ => True).
Proof. intros H. apply keeps_modify. intros s [Hd Hv]. split; cbn; auto. Qed.

Lemma get_dev_keeps {A} (f : D -> A) (R : A -> Prop) : (∀ d, dev_ok d → R (f d)) → keeps True dev_inv (get_dev f) R.
Proof. intros H. apply keeps_gets. intros s [Hd _]. auto. Qed.

Lemma queue_at d k q : dev_ok d → queues (get_mmio d) !! k = Some q → queue_wf q.
Proof. intros Hd Hq. exact (Forall_lookup_1 _ _ _ _ (vw_queues _ (Hget d Hd)) Hq). Qed.

Lemma dev_pop_keeps k :
  keeps True dev_inv (dev_pop get_mmio put_mmio k) (fun head => ∀ i, head = Some i → is_u16 i).
Proof.
  intros [d [v source]] [Hd Hv]. unfold wp, dev_pop. cbn in *.
  destruct (queues (get_mmio d) !! k) as [q|] eqn:Eq; [|done].
  destruct (pop_avail q v) as [[head q']|] eqn:Ep; [|done].
  destruct (pop_avail_inv q v source head q' Hv (queue_at d k q Hd Eq) Ep) as [Hq' Hh].
  split; [done|]. split; [|done]. cbn. apply Hput; [done|]. destruct (Hget d Hd). split; try done; cbn.
  - by rewrite length_insert.
  - by apply Forall_insert.
Qed.

Lemma dev_desc_keeps k idx : keeps True dev_inv (dev_desc get_mmio k idx) desc_wf.
Proof.
  intros [d [v source]] [Hd Hv]. unfold wp, dev_desc. cbn in *. destruct (queues (get_mmio d) !! k) as [q|]; [|done].
  destruct (read_desc q idx v) as [ds|] eqn:E; [|done]. split; [by eapply read_desc_inv | done].
Qed.

Lemma dev_push_used_keeps k head len : keeps True dev_inv (dev_push_used get_mmio k head len) (fun _ => True).
Proof.
  intros [d [v source]] Hd. unfold wp, dev_push_used. cbn [fst]. destruct (queues (get_mmio d) !! k) as [q|]; [|done].
  exact (on_view_keeps (push_used q head len) _ (push_used_keeps q head len) _ Hd).
Qed.

Lemma raise_interrupt_keeps : keeps True dev_inv (raise_interrupt get_mmio put_mmio) (fun _ => True).
Proof.
  apply mod_dev_keeps. intros d Hd. apply Hput; [done|]. destruct (Hget d Hd). split; try done. cbn.
  apply lor_word; [lia|done|done].
Qed.

Lemma panic_keeps {S A} (I : S -> Prop) (R : A -> Prop) : keeps True I panic R.
Proof. by intros s _. Qed.
End Device.
#[export] Hint Resolve panic_keeps : keeps.

(** The calls every device makes, for a device with its laws. *)
Ltac dev_calls get put ok Hget Hput :=
  repeat lazymatch goal with
  | |- keeps _ _ (mbind _ (dev_pop get put ?k)) _ =>
      eapply keeps_bind; [exact (dev_pop_keeps get put ok Hget Hput k)|]; intros ?head ?Hhead
  | |- keeps _ _ (mbind _ (dev_desc get ?k ?i)) _ =>
      eapply keeps_bind; [exact (dev_desc_keeps get ok k i)|]; intros ?desc ?Hdesc
  | |- keeps _ _ (mbind _ (dev_push_used get ?k ?h ?l)) _ =>
      eapply keeps_bind; [exact (dev_push_used_keeps get ok k h l)|]; intros _ _
  | |- keeps _ _ (mbind _ (raise_interrupt get put)) _ =>
      eapply keeps_bind; [exact (raise_interrupt_keeps get put ok Hget Hput)|]; intros _ _
  | |- keeps _ _ (match ?x with _ => _ end) _ => destruct x
  | |- keeps _ _ (mret _) _ => by apply keeps_ret
  | |- keeps _ _ panic _ => apply panic_keeps
  end.

(** *** Console *)

Definition console_ok (c : VirtioConsole) : Prop :=
  mmio_wf (console_mmio c) ∧ Forall is_u8 (console_rx_pending c) ∧ Forall is_u8 (tx_buf c).

Section Console.
Context {LB : LoopBound}.
Abbreviation I := (dev_inv console_ok).

Lemma console_get c : console_ok c → mmio_wf (console_mmio c).
Proof. by intros []. Qed.
Lemma console_put c m : console_ok c → mmio_wf m → console_ok (set_console_mmio m c).
Proof. intros [_ ?] ?. by split. Qed.
Ltac calls := dev_calls console_mmio set_console_mmio console_ok console_get console_put.

Lemma console_new_ok : console_ok console_new.
Proof.
  split; [|done]. split; try done; cbn -[to_le_bytes].
  - repeat (constructor; [apply queue_default_wf|]). constructor.
  - split; [done|]. repeat constructor; done.
Qed.

Lemma write_pending_keeps addr offset n : keeps True I (write_pending addr offset n) (fun _ => True).
Proof.
  revert offset. induction n as [|n IH]; intros offset; cbn; [by apply keeps_ret|].
  eapply keeps_bind; [apply (get_dev_keeps console_ok _ (Forall is_u8)); by intros c (_ & ? & _)|].
  intros rx Hrx. destruct rx as [|byte rest]; [apply panic_keeps|]. apply list.Forall_cons in Hrx as [Hb Hrest].
  eapply keeps_bind; [apply mod_dev_keeps; intros c (? & _ & ?); by split|]. intros _ _.
  eapply keeps_bind; [by apply on_view_keeps, view_write_u8_keeps|]. intros _ _. apply IH.
Qed.

Lemma rx_chain_keeps fuel desc total : keeps True I (rx_chain fuel desc total) (fun _ => True).
Proof.
  revert desc total. induction fuel as [|fuel IH]; intros desc total; cbn -[dev_desc]; [apply panic_keeps|].
  apply (keeps_bind _ _ (fun _ => True)).
  - calls. eapply keeps_bind; [by apply (get_dev_keeps console_ok _ (fun _ => True))|]. intros rx _. cbv zeta.
    eapply keeps_bind; [apply write_pending_keeps|]. intros _ _. calls.
  - intros t _. calls. apply IH.
Qed.

Lemma flush_rx_loop_keeps fuel : keeps True I (flush_rx_loop fuel) (fun _ => True).
Proof.
  induction fuel as [|fuel IH]; cbn -[dev_desc dev_pop dev_push_used raise_interrupt]; calls.
  eapply keeps_bind; [apply rx_chain_keeps|]. intros total _. calls.
  eapply keeps_bind; [by apply (get_dev_keeps console_ok _ (fun _ => True))|]. intros rx _. calls. apply IH.
Qed.

Lemma flush_rx_keeps : keeps True I flush_rx (fun _ => True).
Proof.
  unfold flush_rx. eapply keeps_bind; [by apply (get_dev_keeps console_ok _ (fun _ => True))|]. intros rx _. calls.
  apply flush_rx_loop_keeps.
Qed.

Lemma tx_chain_keeps fuel desc : keeps True I (tx_chain fuel desc) (fun _ => True).
Proof.
  revert desc. induction fuel as [|fuel IH]; intros desc; cbn -[dev_desc]; [apply panic_keeps|].
  apply (keeps_bind _ _ (fun _ => True)).
  - calls. eapply keeps_bind; [apply on_view_keeps, (peek_keeps _ (Forall is_u8)); intros; by eapply view_read_bytes_inv|].
    intros buf Hbuf. apply mod_dev_keeps. intros c (? & ? & ?). split; [done|]. split; [done|]. cbn. by apply Forall_app.
  - intros _ _. calls. apply IH.
Qed.

Lemma console_drain_tx_keeps fuel : keeps True I (console_drain_tx fuel) (fun _ => True).
Proof.
  induction fuel as [|fuel IH]; cbn -[dev_desc dev_pop dev_push_used raise_interrupt]; calls.
  eapply keeps_bind; [apply tx_chain_keeps|]. intros _ _. calls. apply IH.
Qed.

Lemma console_notify_keeps i : keeps True I (console_notify i) (fun _ => True).
Proof.
  unfold console_notify. case_if; [apply console_drain_tx_keeps|]. case_if; [apply flush_rx_keeps | by apply keeps_ret].
Qed.
End Console.

(** *** Block device *)

Definition blk_ok (b : VirtioBlk) : Prop := mmio_wf (blk_mmio b) ∧ Forall is_u8 (file_bytes (blk_file b)).

Section Blk.
Context {LB : LoopBound}.
Abbreviation I := (dev_inv blk_ok).

Lemma blk_get b : blk_ok b → mmio_wf (blk_mmio b).
Proof. by intros []. Qed.
Lemma blk_put b m : blk_ok b → mmio_wf m → blk_ok (set_blk_mmio m b).
Proof. intros [_ ?] ?. by split. Qed.
Ltac calls := dev_calls blk_mmio set_blk_mmio blk_ok blk_get blk_put.

Lemma with_config_wf i bytes m :
  (i + length bytes <= 64)%nat → Forall is_u8 bytes → mmio_wf m → mmio_wf (with_config i bytes m).
Proof.
  intros Hi Hb Hm. destruct (vw_config m Hm) as [Hl Hc]. destruct Hm. split; try done. cbn. split.
  - rewrite !length_app, length_take, length_drop. lia.
  - apply Forall_app; split; [by apply Forall_take|]. apply Forall_app; split; [done | by apply Forall_drop].
Qed.

Lemma blk_new_ok file : Forall is_u8 (file_bytes file) → blk_ok (blk_new file).
Proof.
  intros Hf. split; [|done]. unfold blk_new. cbv zeta. cbn [blk_mmio].
  apply with_config_wf; [rewrite length_to_le_bytes; lia | apply to_le_bytes_bytes|].
  apply with_config_wf; [rewrite length_to_le_bytes; lia | apply to_le_bytes_bytes|]. by apply mmio_new_wf.
Qed.

Lemma on_file_keeps {A} (op : File -> A * File) (R : A -> Prop) :
  (∀ f, Forall is_u8 (file_bytes f) → R (op f).1 ∧ Forall is_u8 (file_bytes (op f).2)) →
  keeps True I (on_file op) R.
Proof.
  intros H [b v] [[Hm Hf] Hv]. cbn in *. unfold wp, on_file. cbn. destruct (H _ Hf) as [H1 H2].
  destruct (op (blk_file b)) as [a f]. split; [done|]. split; [by split | done].
Qed.

Lemma try_keeps {A C} (m : ST (VirtioBlk * (RamView * Z)) (Result A IoError)) k (R : A -> Prop) (R' : Result C IoError -> Prop) :
  keeps True I m (fun r => ∀ a, r = Ok a → R a) → (∀ a, R a → keeps True I (k a) R') → (∀ e, R' (Err e)) →
  keeps True I (try_bind m k) R'.
Proof.
  intros Hm Hk He. unfold try_bind. eapply keeps_bind; [exact Hm|]. intros [a|e] Ha; [by apply Hk, Ha | by apply keeps_ret].
Qed.

Lemma seek_keeps pos : keeps True I (on_file (file_seek pos)) (fun r => ∀ a, r = Ok a → True).
Proof. apply on_file_keeps. intros f Hf. unfold file_seek. by case_if. Qed.

Lemma read_sectors_keeps destination length sector :
  keeps True I (read_sectors destination length sector) (fun _ => True).
Proof.
  unfold read_sectors. eapply keeps_bind; [by apply (get_dev_keeps blk_ok _ (fun _ => True))|]. intros count _.
  case_if; [by apply keeps_ret|]. eapply (try_keeps _ _ (fun _ => True)); [apply seek_keeps| |done]. intros _ _.
  apply (try_keeps _ _ (Forall is_u8)); [|intros buf Hbuf|done].
  - apply on_file_keeps. intros f Hf. unfold file_read_exact. cbv zeta. case_if; cbn; split; try done.
    intros ? [= <-]. by apply Forall_take, Forall_drop.
  - eapply keeps_bind; [by apply on_view_keeps, view_write_bytes_keeps|]. intros _ _. by apply keeps_ret.
Qed.

Lemma write_sectors_keeps source length sector : keeps True I (write_sectors source length sector) (fun _ => True).
Proof.
  unfold write_sectors. eapply keeps_bind; [by apply (get_dev_keeps blk_ok _ (fun _ => True))|]. intros count _.
  case_if; [by apply keeps_ret|]. eapply (try_keeps _ _ (fun _ => True)); [apply seek_keeps| |done]. intros _ _.
  eapply keeps_bind; [apply on_view_keeps, (peek_keeps _ (Forall is_u8)); intros; by eapply view_read_bytes_inv|].
  intros buf Hbuf. eapply keeps_bind; [|intros _ _; by apply keeps_ret].
  apply (on_file_keeps _ (fun _ => True)). intros f Hf. split; [done|]. cbn.
  repeat (apply Forall_app; split); [by apply Forall_take | by apply Forall_replicate | done | by apply Forall_drop].
Qed.

Lemma do_buffers_keeps op bufs :
  (∀ a l, keeps True I (op a l) (fun _ => True)) → keeps True I (do_buffers op bufs) is_u8.
Proof.
  intros Hop. induction bufs as [|[a l] bufs IH]; cbn; [by apply keeps_ret|].
  eapply keeps_bind; [apply Hop|]. intros [?|?] _; [done | by apply keeps_ret].
Qed.

Lemma collect_chain_keeps fuel desc rb wb : keeps True I (collect_chain fuel desc rb wb) (fun _ => True).
Proof.
  revert desc rb wb. induction fuel as [|fuel IH]; intros desc rb wb; cbn -[dev_desc]; [apply panic_keeps|].
  case_if; calls. apply IH.
Qed.

Lemma process_request_keeps head : keeps True I (process_request head) (fun _ => True).
Proof.
  unfold process_request. calls. eapply keeps_bind; [apply collect_chain_keeps|]. intros [rb wb] _. cbv zeta. cbn [fst snd]. calls.
  eapply keeps_bind; [apply on_view_keeps, (peek_keeps _ is_u32), view_read_u32_inv|]. intros ty _.
  eapply keeps_bind; [apply on_view_keeps, (peek_keeps _ is_u64), view_read_u64_inv|]. intros sector _. calls.
  apply (keeps_bind _ _ is_u8).
  - repeat case_if; try by apply keeps_ret.
    + apply do_buffers_keeps. intros. apply read_sectors_keeps.
    + apply do_buffers_keeps. intros. apply write_sectors_keeps.
  - intros st Hst. eapply keeps_bind; [by apply on_view_keeps, view_write_u8_keeps|]. intros _ _. cbv zeta. by apply keeps_ret.
Qed.

Lemma blk_notify_keeps : keeps True I blk_notify (fun _ => True).
Proof.
  unfold blk_notify. induction loop_bound as [|fuel IH]; cbn -[dev_desc dev_pop dev_push_used raise_interrupt process_request]; calls.
  eapply keeps_bind; [apply process_request_keeps|]. intros used _. calls. apply IH.
Qed.
End Blk.

(** *** Network device *)

(** What the device needs of a back end: it keeps its own invariant, and frames
    are bytes. *)
Class NetworkLaws (N : Type) {NB : NetworkBackend N} := {
  backend_ok : N -> Prop;
  nl_send frame : Forall is_u8 frame → keeps True backend_ok (send frame) (fun _ => True);
  nl_recv : keeps True backend_ok recv (fun f => ∀ frame, f = Some frame → Forall is_u8 frame)
}.

Section Net.
Context {LB : LoopBound} {N : Type} {NB : NetworkBackend N} {NL : NetworkLaws N}.

Definition net_ok (n : VirtioNet N) : Prop :=
  mmio_wf (net_mmio n) ∧ Forall (Forall is_u8) (rx_hold n) ∧ backend_ok (net_backend n).
Abbreviation I := (dev_inv net_ok).

Lemma net_get n : net_ok n → mmio_wf (net_mmio n).
Proof. by intros []. Qed.
Lemma net_put n m : net_ok n → mmio_wf m → net_ok (set_net_mmio m n).
Proof. intros [_ ?] ?. by split. Qed.
Ltac calls := dev_calls (@net_mmio N) (@set_net_mmio N) net_ok net_get net_put.

Lemma net_new_ok backend mac :
  backend_ok backend → Forall is_u8 mac → length mac = 6%nat → net_ok (net_new backend mac).
Proof.
  intros Hb Hm Hl. split; [|done]. unfold net_new. cbv zeta. cbn [net_mmio].
  apply with_config_wf; [rewrite length_to_le_bytes; lia | apply to_le_bytes_bytes|].
  apply with_config_wf; [rewrite Hl; lia | done|]. by apply mmio_new_wf.
Qed.

Lemma on_backend_keeps {A} (m : ST N A) R : keeps True backend_ok m R → keeps True I (on_backend m) R.
Proof.
  intros H. apply (keeps_zoom backend_ok); [done | by intros s [(_ & _ & ?) _] |].
  intros s b [(? & ? & _) ?] ?. split; [by split | done].
Qed.

Lemma hold_keeps f : (∀ l, Forall (Forall is_u8) l → Forall (Forall is_u8) (f l)) →
  keeps True I (mod_dev (fun n => n <| rx_hold := f (rx_hold n) |>)) (fun _ => True).
Proof. intros H. apply mod_dev_keeps. intros n (? & ? & ?). split; [done|]. split; [by apply H | done]. Qed.

Lemma write_zeros_keeps addr j n : keeps True I (write_zeros addr j n) (fun _ => True).
Proof.
  revert j. induction n as [|n IH]; intros j; cbn; [by apply keeps_ret|].
  eapply keeps_bind; [by apply on_view_keeps, view_write_u8_keeps|]. intros _ _. apply IH.
Qed.

Lemma fill_desc_keeps desc frame written : Forall is_u8 frame → keeps True I (fill_desc desc frame written) (fun _ => True).
Proof.
  intros Hf. unfold fill_desc. cbv zeta. eapply keeps_bind; [apply write_zeros_keeps|]. intros _ _.
  case_if; [|by apply keeps_ret]. case_if; [|by apply keeps_ret].
  eapply keeps_bind; [apply on_view_keeps, view_write_bytes_keeps; by apply Forall_take, Forall_drop|].
  intros _ _. by apply keeps_ret.
Qed.

Lemma rx_frame_loop_keeps fuel desc frame written :
  Forall is_u8 frame → keeps True I (rx_frame_loop fuel desc frame written) (fun _ => True).
Proof.
  intros Hf. revert desc written. induction fuel as [|fuel IH]; intros desc written; cbn -[dev_desc]; [apply panic_keeps|].
  apply (keeps_bind _ _ (fun _ => True)).
  - case_if; [by apply fill_desc_keeps | by apply keeps_ret].
  - intros w _. case_if; calls. apply IH.
Qed.

Lemma push_rx_frame_keeps frame : Forall is_u8 frame → keeps True I (push_rx_frame frame) (fun _ => True).
Proof.
  intros Hf. unfold push_rx_frame. calls. eapply keeps_bind; [by apply rx_frame_loop_keeps|]. intros w _. calls.
Qed.

Lemma poll_held_keeps held : Forall (Forall is_u8) held → keeps True I (poll_held held) (fun _ => True).
Proof.
  induction held as [|frame rest IH]; intros Hh; cbn.
  - eapply keeps_bind; [by apply (hold_keeps (fun _ => []))|]. intros _ _. by apply keeps_ret.
  - apply list.Forall_cons in Hh as [Hf Hr]. eapply keeps_bind; [by apply (hold_keeps (fun _ => rest))|]. intros _ _.
    eapply keeps_bind; [by apply push_rx_frame_keeps|]. intros sent _. destruct sent; [by apply IH|].
    eapply keeps_bind; [apply (hold_keeps (fun l => frame :: l)); by constructor|]. intros _ _. by apply keeps_ret.
Qed.

Lemma poll_backend_keeps fuel : keeps True I (poll_backend fuel) (fun _ => True).
Proof.
  induction fuel as [|fuel IH]; cbn; [apply panic_keeps|].
  eapply keeps_bind; [apply on_backend_keeps, nl_recv|]. intros [frame|] Hf; [|by apply keeps_ret].
  eapply keeps_bind; [by apply push_rx_frame_keeps, Hf|]. intros sent _. destruct sent; [apply IH|].
  apply (hold_keeps (fun l => l ++ [frame])). intros l Hl. apply Forall_app. split; [done|]. constructor; [by apply Hf | done].
Qed.

Lemma poll_rx_keeps : keeps True I poll_rx (fun _ => True).
Proof.
  unfold poll_rx. eapply keeps_bind; [apply (get_dev_keeps net_ok _ (Forall (Forall is_u8))); by intros n (_ & ? & _)|].
  intros held Hh. eapply keeps_bind; [by apply poll_held_keeps|]. intros e _. destruct e; [apply poll_backend_keeps | by apply keeps_ret].
Qed.

Lemma tx_frame_keeps fuel desc frame skipped :
  Forall is_u8 frame → keeps True I (tx_frame fuel desc frame skipped) (Forall is_u8).
Proof.
  revert desc frame skipped. induction fuel as [|fuel IH]; intros desc frame skipped Hf; cbn -[dev_desc]; [apply panic_keeps|].
  assert (Hread : ∀ a l, keeps True I (on_view (peek (view_read_bytes a l))) (Forall is_u8)).
  { intros. apply on_view_keeps, (peek_keeps _ (Forall is_u8)). intros. by eapply view_read_bytes_inv. }
  apply (keeps_bind _ _ (fun r : list Z * Z => Forall is_u8 r.1)).
  - repeat case_if; cbv zeta; try (by apply keeps_ret);
      (eapply keeps_bind; [apply Hread|]; intros buf Hbuf; apply keeps_ret; cbn; by apply Forall_app).
  - intros r Hr. case_if; [by apply keeps_ret|]. calls. by apply IH.
Qed.

Lemma net_drain_tx_keeps fuel : keeps True I (net_drain_tx fuel) (fun _ => True).
Proof.
  induction fuel as [|fuel IH]; cbn -[dev_desc dev_pop dev_push_used raise_interrupt tx_frame]; calls.
  eapply keeps_bind; [by apply tx_frame_keeps|]. intros frame Hf. apply (keeps_bind _ _ (fun _ => True)).
  - destruct frame; [by apply keeps_ret | by apply on_backend_keeps, nl_send].
  - intros _ _. calls. apply IH.
Qed.

Lemma net_notify_keeps i : keeps True I (net_notify i) (fun _ => True).
Proof. unfold net_notify. case_if; [apply net_drain_tx_keeps | by apply keeps_ret]. Qed.
End Net.
