(* ===== verification/MachineBus.v ===== *)
(** The machine's bus: RAM, low memory, serial ports, timer, interrupt controller
    and virtio devices behind one address map ([machine/src/machine_bus.rs]).

    [MachineBus] is an instance of the bus class the hart runs against.  Three of
    its parts are reached through interfaces: the network back end
    ([NetworkBackend]), the shared directories ([FsDevice]) and the system-call
    tracer ([TracesSyscalls]), whose clock is set before events can happen.
    [epoch_source] is the counter of [CowRam]. *)
From S2P Require Import Prelude Words Csr SyscallEntry SystemBus Io CowRam Layout Clint Plic Uart.
From S2P Require Import Virtio VirtioConsole VirtioBlk VirtioNet.

Class FsDevice (F : Type) := {
  fs_mmio : F -> VirtioMmio;
  set_fs_mmio : VirtioMmio -> F -> F;
  fs_notify : Z -> DevST F unit
}.

Class TracesSyscalls (T : Type) := {
  on_entry : ∀ {B : Type} {SB : SystemBus B} {HM : HostMemory B}, SyscallEntry -> Z -> ST (T * B) unit;
  on_return : ∀ {B : Type} {SB : SystemBus B} {HM : HostMemory B}, Z -> Z -> Z -> Z -> ST (T * B) unit;
  sync_clock : Z -> T -> T
}.

Record MachineBus (N F T : Type) := mkBus {
  ram : CowRam;
  ram_mask : Z;
  low_ram : list Z;
  uart : Uart;
  uart_stderr : Uart;
  uart_ctrl : Uart;
  uart_data : Uart;
  clint : Clint;
  plic : Plic;
  blk : option VirtioBlk;
  console : VirtioConsole;
  net : option (VirtioNet N);
  fs_devices : list F;
  syscall_tracer : option T;
  epoch_source : Z
}.
Arguments mkBus {N F T}.
Arguments ram {N F T}.
Arguments ram_mask {N F T}.
Arguments low_ram {N F T}.
Arguments uart {N F T}.
Arguments uart_stderr {N F T}.
Arguments uart_ctrl {N F T}.
Arguments uart_data {N F T}.
Arguments clint {N F T}.
Arguments plic {N F T}.
Arguments blk {N F T}.
Arguments console {N F T}.
Arguments net {N F T}.
Arguments fs_devices {N F T}.
Arguments syscall_tracer {N F T}.
Arguments epoch_source {N F T}.
#[export] Instance MachineBus_eta {N F T} : Eta (MachineBus N F T) := fun b =>
  mkBus (ram b) (ram_mask b) (low_ram b) (uart b) (uart_stderr b) (uart_ctrl b) (uart_data b)
    (clint b) (plic b) (blk b) (console b) (net b) (fs_devices b) (syscall_tracer b) (epoch_source b).

Section Bus.
Context {LB : LoopBound} {N F T : Type} {NB : NetworkBackend N} {FD : FsDevice F} {ST_ : TracesSyscalls T}.
Abbreviation Bus := (MachineBus N F T).

(** ** Construction and loading *)

Definition bus_new (ram_size : Z) (ram : CowRam) (source : Z) : option Bus :=
  if is_power_of_two ram_size then
    Some {| ram := ram; ram_mask := ram_size - 1; low_ram := replicate (Z.to_nat LOW_RAM_SIZE) 0;
            uart := uart_new; uart_stderr := uart_new; uart_ctrl := uart_new; uart_data := uart_new;
            clint := clint_new; plic := plic_new; blk := None; console := console_new;
            net := None; fs_devices := []; syscall_tracer := None; epoch_source := source |}
  else None.

Definition attach_blk (file : File) (b : Bus) : Bus := b <| blk := Some (blk_new file) |>.
Definition attach_net (backend : N) (b : Bus) : Bus := b <| net := Some (net_new backend GUEST_MAC) |>.

Definition bus_ram_size (b : Bus) : Z := cow_len (ram b).

Definition guest_ns (b : Bus) : Z := wrapping_mul64 (mtime (clint b)) (1000000000 / TIMER_FREQUENCY).

Definition sync_trace_clock (b : Bus) : Bus := b <| syscall_tracer := sync_clock (guest_ns b) <$> syscall_tracer b |>.

(** Code on the RAM. *)
Definition bus_ram {A} (m : ST (CowRam * Z) A) : ST Bus A :=
  zoom (fun b => (ram b, epoch_source b)) (fun r b => b <| ram := r.1 |> <| epoch_source := r.2 |>) m.

Definition bus_peek {A} (f : Bus -> option A) : ST Bus A := fun b =>
  match f b with Some a => Some (a, b) | None => None end.

Definition load_ram (offset : Z) (bytes : list Z) : ST Bus unit := bus_ram (write_from offset bytes).

Definition load_low_ram (offset : Z) (bytes : list Z) : ST Bus unit := fun b =>
  match slice_put (low_ram b) offset bytes with
  | Some l => Some (tt, b <| low_ram := l |>)
  | None => None
  end.

(** A device with a view of RAM, made for the call. *)
Definition with_view {D A} (get : Bus -> D) (put : D -> Bus -> Bus) (m : DevST D A) : ST Bus A := fun b =>
  match m (get b, (view_new (ram b) (ram_mask b), epoch_source b)) with
  | Some (a, (d, (v, source))) => Some (a, put d (b <| ram := rv_ram v |> <| epoch_source := source |>))
  | None => None
  end.

(** ** Interrupt lines *)

Definition line (irq : Z) (level : Bus -> bool) : ST Bus unit := fun b =>
  match set_irq irq (level b) (plic b) with
  | Some (_, p) => Some (tt, b <| plic := p |>)
  | None => None
  end.

Fixpoint fs_lines (fs : list F) (i : Z) : ST Bus unit :=
  match fs with
  | [] => mret tt
  | f :: fs =>
      line (VIRTIO_FS_BASE_IRQ + i) (fun _ => negb (int_status (fs_mmio f) =? 0));;
      fs_lines fs (i + 1)
  end.

Definition refresh_external_interrupt : ST Bus bool :=
  line UART_IRQ (fun b => uart_irq_pending (uart b));;
  line UART_STDERR_IRQ (fun b => uart_irq_pending (uart_stderr b));;
  line UART_CTRL_IRQ (fun b => uart_irq_pending (uart_ctrl b));;
  line UART_DATA_IRQ (fun b => uart_irq_pending (uart_data b));;
  d ← gets blk;
  (match d with
   | Some device => line VIRTIO_BLK_IRQ (fun _ => negb (int_status (blk_mmio device) =? 0))
   | None => mret tt
   end);;
  line VIRTIO_CONSOLE_IRQ (fun b => negb (int_status (console_mmio (console b)) =? 0));;
  d ← gets net;
  (match d with
   | Some device => line VIRTIO_NET_IRQ (fun _ => negb (int_status (net_mmio device) =? 0))
   | None => mret tt
   end);;
  fs ← gets fs_devices;
  fs_lines fs 0;;
  gets (fun b => irq_pending (plic b)).

Definition bus_net_rx_pending (b : Bus) : bool :=
  match net b with Some n => net_rx_pending n | None => false end.
Definition bus_net_has_active_connections (b : Bus) : bool :=
  match net b with Some n => net_has_active_connections n | None => false end.
Definition fs_reply_pending (b : Bus) : bool :=
  existsb (fun f => negb (int_status (fs_mmio f) =? 0)) (fs_devices b).
Definition has_pending_io (b : Bus) : bool :=
  rx_pending (uart b) || rx_pending (uart_data b) || bus_net_rx_pending b || fs_reply_pending b.

Definition drain_console_tx (b : Bus) : list Z * Bus :=
  (tx_buf (console b), b <| console := (console b) <| tx_buf := [] |> |>).
Definition flush_console_to_stdout (b : Bus) : Bus := b <| console := flush_tx_to_stdout (console b) |>.
Definition flush_console_rx : ST Bus unit :=
  with_view console (fun c b => b <| console := c |>) flush_rx.

(** Setting or clearing bits of [mip]. *)
Definition put_mip (mask : Z) (level : bool) (c : Csr) : Csr :=
  if level then c <| mip := Z.lor (mip c) mask |> else c <| mip := Z.land (mip c) (not64 mask) |>.

Definition poll : ST (Bus * Csr) unit :=
  modify (fun s => (s.1, s.2 <| time := mtime (clint s.1) |>));;
  status ← gets (fun s => get_interrupt_status (clint s.1));
  modify (fun s => (s.1, put_mip MIP_MTIP status.1 s.2));;
  modify (fun s => (s.1, put_mip MIP_MSIP status.2 s.2));;
  modify (fun s => (sync_trace_clock s.1, s.2));;
  zoom fst (fun b s => (b, s.2))
    (n ← gets net;
     match n with
     | Some n =>
         with_view (fun _ => n) (fun n b => b <| net := Some n |>) poll_rx
     | None => mret tt
     end);;
  external ← zoom fst (fun b s => (b, s.2)) refresh_external_interrupt;
  modify (fun s => (s.1, put_mip (Z.lor MIP_MEIP MIP_SEIP) external s.2)).

(** ** Address decoding *)

Definition in_window (base size address : Z) : bool := (base <=? address) && (address <? base + size).

Definition ram_index (address : Z) (b : Bus) : Z := Z.land (wrapping_sub64 address RAM_BASE) (ram_mask b).

(** [address >= RAM_BASE && address < RAM_BASE + self.ram_mask + 1] *)
Definition byte_in_ram (address : Z) (b : Bus) : bool :=
  (RAM_BASE <=? address) && (address <? as_u64 (RAM_BASE + ram_mask b + 1)).

(** [address >= RAM_BASE && address + k < RAM_BASE + self.ram.len() as u64] *)
Definition wide_in_ram (k address : Z) (b : Bus) : bool :=
  (RAM_BASE <=? address) && (wrapping_add64 address k <? as_u64 (RAM_BASE + cow_len (ram b))).

Definition virtio_device_slot (address : Z) : option Z :=
  let num_slots := 3 + VIRTIO_MAX_FS in
  if in_window VIRTIO_BASE (VIRTIO_SIZE * num_slots) address
  then Some ((address - VIRTIO_BASE) / VIRTIO_SIZE) else None.

Definition virtio_register_offset (address : Z) : Z := (address - VIRTIO_BASE) mod VIRTIO_SIZE.

(** The registers behind a slot, 0 where no device is attached. *)
Definition slot_read (slot offset : Z) (b : Bus) : option Z :=
  if slot =? 0 then match blk b with Some d => mmio_read offset (blk_mmio d) | None => Some 0 end
  else if slot =? 1 then mmio_read offset (console_mmio (console b))
  else if slot =? 2 then match net b with Some d => mmio_read offset (net_mmio d) | None => Some 0 end
  else match fs_devices b !! Z.to_nat (slot - 3) with Some d => mmio_read offset (fs_mmio d) | None => Some 0 end.

(** A serial port answers every byte of its window; the register is the low
    byte of the offset. *)
Definition port_read (get : Bus -> Uart) (put : Uart -> Bus -> Bus) (offset : Z) : ST Bus Z := fun b =>
  let (v, u) := uart_read_register (as_u8 offset) (get b) in Some (v, put u b).

Definition port_write (get : Bus -> Uart) (put : Uart -> Bus -> Bus) (offset value : Z) : ST Bus unit :=
  modify (fun b => put (uart_write_register (as_u8 offset) value (get b)) b).

Definition bus_read_byte (address : Z) : ST Bus Z :=
  b ← st_get;
  if byte_in_ram address b then bus_peek (fun b => cow_read_u8 (ram_index address b) (ram b))
  else if address <? LOW_RAM_BASE + LOW_RAM_SIZE then
    bus_peek (fun b => low_ram b !! Z.to_nat (address - LOW_RAM_BASE))
  else if in_window UART_BASE UART_SIZE address then
    port_read uart (fun u b => b <| uart := u |>) (address - UART_BASE)
  else if in_window UART_STDERR_BASE UART_STDERR_SIZE address then
    port_read uart_stderr (fun u b => b <| uart_stderr := u |>) (address - UART_STDERR_BASE)
  else if in_window UART_CTRL_BASE UART_CTRL_SIZE address then
    port_read uart_ctrl (fun u b => b <| uart_ctrl := u |>) (address - UART_CTRL_BASE)
  else if in_window UART_DATA_BASE UART_DATA_SIZE address then
    port_read uart_data (fun u b => b <| uart_data := u |>) (address - UART_DATA_BASE)
  else
    match virtio_device_slot address with
    | Some slot =>
        let offset := virtio_register_offset address in
        let word_offset := Z.land offset (not64 3) in
        let byte_index := Z.land offset 3 in
        word ← bus_peek (slot_read slot word_offset);
        mret (as_u8 (Z.shiftr word (byte_index * 8)))
    | None => mret 0
    end.

Definition bus_plic_read (offset : Z) : ST Bus Z := fun b =>
  let (v, p) := plic_read_register offset (plic b) in Some (v, b <| plic := p |>).

Definition bus_read_halfword (address : Z) : ST Bus Z :=
  b ← st_get;
  if wide_in_ram 1 address b then bus_peek (fun b => cow_read_u16 (address - RAM_BASE) (ram b))
  else
    b0 ← bus_read_byte address;
    b1 ← bus_read_byte (wrapping_add64 address 1);
    mret (from_le_bytes [b0; b1]).

Definition bus_read_word (address : Z) : ST Bus Z :=
  b ← st_get;
  if wide_in_ram 3 address b then bus_peek (fun b => cow_read_u32 (address - RAM_BASE) (ram b))
  else if in_window CLINT_BASE (CLINT_SIZE - 3) address then
    gets (fun b => clint_read_register (address - CLINT_BASE) (clint b))
  else if in_window PLIC_BASE (PLIC_SIZE - 3) address then
    refresh_external_interrupt;;
    bus_plic_read (address - PLIC_BASE)
  else
    match virtio_device_slot address with
    | Some slot => bus_peek (slot_read slot (virtio_register_offset address))
    | None =>
        b0 ← bus_read_byte address;
        b1 ← bus_read_byte (wrapping_add64 address 1);
        b2 ← bus_read_byte (wrapping_add64 address 2);
        b3 ← bus_read_byte (wrapping_add64 address 3);
        mret (from_le_bytes [b0; b1; b2; b3])
    end.

Definition bus_read_doubleword (address : Z) : ST Bus Z :=
  b ← st_get;
  if wide_in_ram 7 address b then bus_peek (fun b => cow_read_u64 (address - RAM_BASE) (ram b))
  else
    lo ← bus_read_word address;
    hi ← bus_read_word (wrapping_add64 address 4);
    mret (Z.lor lo (shl64 hi 32)).

Definition bus_write_byte (address value : Z) : ST Bus unit :=
  b ← st_get;
  if byte_in_ram address b then bus_ram (cow_write_u8 (ram_index address b) value)
  else if address <? LOW_RAM_BASE + LOW_RAM_SIZE then
    load_low_ram (address - LOW_RAM_BASE) [value]
  else if in_window UART_BASE UART_SIZE address then
    port_write uart (fun u b => b <| uart := u |>) (address - UART_BASE) value
  else if in_window UART_STDERR_BASE UART_STDERR_SIZE address then
    port_write uart_stderr (fun u b => b <| uart_stderr := u |>) (address - UART_STDERR_BASE) value
  else if in_window UART_CTRL_BASE UART_CTRL_SIZE address then
    port_write uart_ctrl (fun u b => b <| uart_ctrl := u |>) (address - UART_CTRL_BASE) value
  else if in_window UART_DATA_BASE UART_DATA_SIZE address then
    port_write uart_data (fun u b => b <| uart_data := u |>) (address - UART_DATA_BASE) value
  else mret tt.

Definition bus_write_halfword (address value : Z) : ST Bus unit :=
  bus_write_byte address (as_u8 value);;
  bus_write_byte (wrapping_add64 address 1) (as_u8 (Z.shiftr value 8)).

(** A register write: the queue to notify. *)
Definition slot_write (slot offset value : Z) : ST Bus (option Z) := fun b =>
  if slot =? 0 then
    match blk b with
    | Some d => '(q, m) ← mmio_write offset value (blk_mmio d); Some (q, b <| blk := Some (set_blk_mmio m d) |>)
    | None => Some (None, b)
    end
  else if slot =? 1 then
    '(q, m) ← mmio_write offset value (console_mmio (console b));
    Some (q, b <| console := set_console_mmio m (console b) |>)
  else if slot =? 2 then
    match net b with
    | Some d => '(q, m) ← mmio_write offset value (net_mmio d); Some (q, b <| net := Some (set_net_mmio m d) |>)
    | None => Some (None, b)
    end
  else
    match fs_devices b !! Z.to_nat (slot - 3) with
    | Some d =>
        '(q, m) ← mmio_write offset value (fs_mmio d);
        Some (q, b <| fs_devices := <[Z.to_nat (slot - 3) := set_fs_mmio m d]> (fs_devices b) |>)
    | None => Some (None, b)
    end.

(** The notified device works on the queue. *)
Definition slot_notify (slot queue_index : Z) : ST Bus unit :=
  b ← st_get;
  if slot =? 0 then
    match blk b with
    | Some d => with_view (fun _ => d) (fun d b => b <| blk := Some d |>) blk_notify
    | None => mret tt
    end
  else if slot =? 1 then
    with_view console (fun c b => b <| console := c |>) (console_notify queue_index)
  else if slot =? 2 then
    match net b with
    | Some d => with_view (fun _ => d) (fun d b => b <| net := Some d |>) (net_notify queue_index)
    | None => mret tt
    end
  else
    match fs_devices b !! Z.to_nat (slot - 3) with
    | Some d =>
        with_view (fun _ => d) (fun d b => b <| fs_devices := <[Z.to_nat (slot - 3) := d]> (fs_devices b) |>)
          (fs_notify queue_index)
    | None => mret tt
    end.

Definition bus_write_word (address value : Z) : ST Bus unit :=
  b ← st_get;
  if wide_in_ram 3 address b then bus_ram (cow_write_u32 (address - RAM_BASE) value)
  else if in_window CLINT_BASE (CLINT_SIZE - 3) address then
    modify (fun b => b <| clint := clint_write_register (address - CLINT_BASE) value (clint b) |>)
  else if in_window PLIC_BASE (PLIC_SIZE - 3) address then
    modify (fun b => b <| plic := plic_write_register (address - PLIC_BASE) value (plic b) |>)
  else
    match virtio_device_slot address with
    | Some slot =>
        notify ← slot_write slot (virtio_register_offset address) value;
        match notify with
        | Some queue_index => modify sync_trace_clock;; slot_notify slot queue_index
        | None => mret tt
        end
    | None =>
        bus_write_byte address (as_u8 value);;
        bus_write_byte (wrapping_add64 address 1) (as_u8 (Z.shiftr value 8));;
        bus_write_byte (wrapping_add64 address 2) (as_u8 (Z.shiftr value 16));;
        bus_write_byte (wrapping_add64 address 3) (as_u8 (Z.shiftr value 24))
    end.

Definition bus_write_doubleword (address value : Z) : ST Bus unit :=
  b ← st_get;
  if wide_in_ram 7 address b then bus_ram (cow_write_u64 (address - RAM_BASE) value)
  else
    bus_write_word address (as_u32 value);;
    bus_write_word (wrapping_add64 address 4) (as_u32 (Z.shiftr value 32)).

(** ** Host pages, epochs, interrupts, tracing *)

(** The page of an address in the page table, if it is RAM. *)
Definition ram_page (address : Z) (b : Bus) : option Z :=
  let page_base := Z.land address (not64 0xfff) in
  if page_base <? RAM_BASE then None
  else
    let page := Z.shiftr (page_base - RAM_BASE) 12 in
    if CowRam.num_pages (ram b) <=? page then None else Some page.

Definition bus_ram_load_page (address : Z) : ST Bus (option HostPtr) := fun b =>
  match ram_page address b with
  | None => Some (None, b)
  | Some page => match page_ptr page (ram b) with Some p => Some (Some p, b) | None => None end
  end.

Definition bus_ram_store_page (address : Z) : ST Bus (option HostPtr) :=
  b ← st_get;
  match ram_page address b with
  | None => mret None
  | Some page => p ← bus_ram (page_mut_ptr page); mret (Some p)
  end.

Definition bus_drain_device_written_pages : ST Bus (list Z * bool) := fun b =>
  match cow_drain_device_written_pages (ram b) with
  | Some (pages, r) => Some ((map (fun page => Z.shiftr RAM_BASE 12 + page) pages, true), b <| ram := r |>)
  | None => None
  end.

Definition bus_external_interrupt_pending : ST Bus (option bool) :=
  external ← refresh_external_interrupt; mret (Some external).

#[export] Instance MachineBus_host : HostMemory Bus := {|
  host_read := fun p n b => cow_host_read p n (ram b);
  host_write := fun p n val => zoom ram (fun r b => b <| ram := r |>) (cow_host_write p n val)
|}.

(** While the tracer runs it is not in the bus, so the bus it sees has none. *)
Definition bare_bus : SystemBus Bus := {|
  read_byte := bus_read_byte; read_halfword := bus_read_halfword;
  read_word := bus_read_word; read_doubleword := bus_read_doubleword;
  write_byte := bus_write_byte; write_halfword := bus_write_halfword;
  write_word := bus_write_word; write_doubleword := bus_write_doubleword;
  ram_load_page := bus_ram_load_page;
  ram_store_page := bus_ram_store_page;
  ram_epoch := fun b => cow_epoch (ram b);
  drain_device_written_pages := bus_drain_device_written_pages;
  timer_interrupt_pending := fun b => Some (get_interrupt_status (clint b)).1;
  external_interrupt_pending := bus_external_interrupt_pending;
  syscall_trace_enabled := fun _ => false;
  on_syscall_entry := fun _ _ => mret tt;
  on_syscall_return := fun _ _ _ _ => mret tt
|}.

Definition with_tracer (m : ST (T * Bus) unit) : ST Bus unit := fun b =>
  match syscall_tracer b with
  | Some t =>
      match m (t, b <| syscall_tracer := None |>) with
      | Some (_, (t, b)) => Some (tt, b <| syscall_tracer := Some t |>)
      | None => None
      end
  | None => Some (tt, b)
  end.

#[export] Instance MachineBus_bus : SystemBus Bus := {|
  read_byte := bus_read_byte; read_halfword := bus_read_halfword;
  read_word := bus_read_word; read_doubleword := bus_read_doubleword;
  write_byte := bus_write_byte; write_halfword := bus_write_halfword;
  write_word := bus_write_word; write_doubleword := bus_write_doubleword;
  ram_load_page := bus_ram_load_page;
  ram_store_page := bus_ram_store_page;
  ram_epoch := fun b => cow_epoch (ram b);
  drain_device_written_pages := bus_drain_device_written_pages;
  timer_interrupt_pending := fun b => Some (get_interrupt_status (clint b)).1;
  external_interrupt_pending := bus_external_interrupt_pending;
  syscall_trace_enabled := fun b => match syscall_tracer b with Some _ => true | None => false end;
  on_syscall_entry := fun entry satp => with_tracer (on_entry (SB := bare_bus) entry satp);
  on_syscall_return := fun task pc value satp => with_tracer (on_return (SB := bare_bus) task pc value satp)
|}.

End Bus.
