(* ===== verification/MachineRam.v ===== *)
(** The machine's RAM keeps the memory contract of the core.

    [MachineBus_ram] shows that the machine bus satisfies [RamLaws]: RAM is memory
    in the sense the fast paths rely on, copy-on-write pages, host pointers and
    epochs included.  The theorems of [MmuProps] and [FastPath] then hold of the
    real machine. *)
From S2P Require Import Prelude Words Wp SystemBus BusLaws Mmu BlockExec Invariant RamLaws Equiv.
From S2P Require Import CowRam CowRamProps Layout Virtio VirtioConsole VirtioBlk VirtioNet MachineBus.

Section MachineRam.
Context {LB : LoopBound} {N F T : Type} {NB : NetworkBackend N} {FD : FsDevice F} {ST_ : TracesSyscalls T}.
Abbreviation Bus := (MachineBus N F T).
Implicit Types b : Bus.

(** The size of RAM is a power of two of at least a page, with slack behind it;
    the epoch counter is ahead of the epoch and will not run out. *)
Record machine_ram_ok (b : Bus) : Prop := {
  mr_cow : cow_wf (ram b);
  mr_size : ∃ k, 12 <= k <= 62 ∧ ram_mask b = 2 ^ k - 1 ∧ cow_len (ram b) = 2 ^ k + 8;
  mr_room : cow_len (ram b) <= Z.of_nat (length (cow_flat (ram b)));
  mr_epoch : 0 <= cow_epoch (ram b) < epoch_source b;
  mr_source : epoch_source b + Z.of_nat (shared_count (cow_pages (ram b))) < 2 ^ 64
}.

Definition machine_in_ram (b : Bus) (a : Z) : Prop := RAM_BASE <= a < RAM_BASE + ram_mask b + 1.
Definition machine_load_page (b : Bus) (a : Z) (q : HostPtr) : Prop :=
  ∃ page, ram_page a b = Some page ∧ page_ptr page (ram b) = Some q.
Definition machine_store_page (b : Bus) (a : Z) (q : HostPtr) : Prop :=
  ∃ page p, ram_page a b = Some page ∧ cow_pages (ram b) !! Z.to_nat page = Some (Some p) ∧ q = mkHostPtr (page + 2) 0.
Definition machine_private (b : Bus) (a : Z) : Prop :=
  ∀ page, ram_page a b = Some page → ∃ p, cow_pages (ram b) !! Z.to_nat page = Some (Some p).

(** *** Addresses and indices *)

Lemma ram_base_page a : Z.shiftr (a - RAM_BASE) 12 = Z.shiftr a 12 - 0x80000.
Proof.
  unfold RAM_BASE. rewrite !Z.shiftr_div_pow2 by lia. replace (a - 0x80000000) with (a + (-0x80000) * 2 ^ 12) by lia.
  rewrite Z.div_add by lia. lia.
Qed.

Lemma ram_base_offset a : Z.land (a - RAM_BASE) 0xfff = Z.land a 0xfff.
Proof.
  unfold RAM_BASE. change 0xfff with (Z.ones 12). rewrite !Z.land_ones by lia.
  replace (a - 0x80000000) with (a + (-0x80000) * 2 ^ 12) by lia. apply Z.mod_add. lia.
Qed.

Lemma page_base_shift a : is_u64 a → Z.land a (not64 0xfff) = Z.shiftr a 12 * 2 ^ 12.
Proof.
  intros Ha. pose proof (FlatRam.split_page a Ha) as E. change 0xfff with (Z.ones 12) in E at 2.
  rewrite Z.land_ones in E by lia. rewrite Z.shiftr_div_pow2 by lia. pose proof (Z.div_mod a (2 ^ 12) ltac:(lia)). lia.
Qed.

Lemma ram_page_eq a b : is_u64 a →
  ram_page a b = if (0x80000 <=? Z.shiftr a 12) && (Z.shiftr a 12 - 0x80000 <? CowRam.num_pages (ram b))
                 then Some (Z.shiftr a 12 - 0x80000) else None.
Proof.
  intros Ha. unfold ram_page. rewrite page_base_shift by done. cbv zeta.
  assert (E : Z.shiftr (Z.shiftr a 12 * 2 ^ 12 - RAM_BASE) 12 = Z.shiftr a 12 - 0x80000).
  { rewrite ram_base_page. f_equal. rewrite Z.shiftr_div_pow2 by lia. by rewrite Z.div_mul. }
  rewrite E. replace (Z.shiftr a 12 * 2 ^ 12 <? RAM_BASE) with (negb (0x80000 <=? Z.shiftr a 12)).
  - destruct (0x80000 <=? Z.shiftr a 12); [|done]. cbn [negb andb].
    destruct (Z.leb_spec (CowRam.num_pages (ram b)) (Z.shiftr a 12 - 0x80000)), (Z.ltb_spec (Z.shiftr a 12 - 0x80000) (CowRam.num_pages (ram b))); lia || done.
  - unfold RAM_BASE. destruct (Z.leb_spec 0x80000 (Z.shiftr a 12)); cbn [negb]; symmetry; lia.
Qed.

(** The page and offset of an address in RAM, as an index. *)
Record ram_address (b : Bus) (a : Z) (n : nat) : Prop := {
  ra_idx : 0 <= a - RAM_BASE;
  ra_off : idx_off (a - RAM_BASE) = Z.land a 0xfff;
  ra_page : idx_page (a - RAM_BASE) = Z.shiftr a 12 - 0x80000;
  ra_room : a - RAM_BASE + Z.of_nat n <= ram_mask b + 1;
  ra_fits : idx_off (a - RAM_BASE) + Z.of_nat n <= PAGE_SIZE;
  ra_index : ram_index a b = a - RAM_BASE
}.

Lemma ram_address_ok b a n :
  machine_ram_ok b → is_u64 a → fits_page a n → machine_in_ram b a → ram_address b a n.
Proof.
  intros Hb Ha Hf [H1 H2]. destruct (mr_size b Hb) as (k & Hk & Hm & _). unfold fits_page in Hf.
  assert (Ho : idx_off (a - RAM_BASE) = Z.land a 0xfff) by apply ram_base_offset.
  split.
  - lia.
  - done.
  - apply ram_base_page.
  - (* the end of the page is at most the end of RAM *)
    destruct (idx_split (a - RAM_BASE) ltac:(lia)) as (Hp & Hoff & E). rewrite Ho in E. unfold PAGE_SIZE in *.
    rewrite Hm in *. assert (Hdiv : 2 ^ k = 2 ^ (k - 12) * 4096)
      by (change 4096 with (2 ^ 12); rewrite <- Z.pow_add_r by lia; f_equal; lia).
    assert (idx_page (a - RAM_BASE) < 2 ^ (k - 12)) by nia. nia.
  - rewrite Ho. unfold PAGE_SIZE. lia.
  - unfold ram_index, wrapping_sub64, as_u64. rewrite wrap_id by (unfold is_word, RAM_BASE in *; lia).
    rewrite Hm. replace (2 ^ k - 1) with (Z.ones k) by (rewrite Z.ones_equiv; lia).
    rewrite Z.land_ones by lia. apply Z.mod_small. lia.
Qed.

Lemma byte_in_ram_true b a : machine_ram_ok b → machine_in_ram b a → byte_in_ram a b = true.
Proof.
  intros Hb [H1 H2]. destruct (mr_size b Hb) as (k & Hk & Hm & _). unfold byte_in_ram, as_u64.
  rewrite wrap_id.
  - apply andb_true_intro. split; lia.
  - rewrite Hm. pose proof (Z.pow_le_mono_r 2 k 62). unfold is_word, RAM_BASE. lia.
Qed.

Lemma wide_in_ram_true b a n :
  machine_ram_ok b → is_u64 a → (0 < n)%nat → ram_address b a n → wide_in_ram (Z.of_nat n - 1) a b = true.
Proof.
  intros Hb Ha Hn Hr. destruct (mr_size b Hb) as (k & Hk & Hm & Hl). destruct Hr. rewrite Hm in *.
  pose proof (Z.pow_le_mono_r 2 k 62). unfold wide_in_ram, as_u64, wrapping_add64, as_u64, RAM_BASE in *.
  rewrite Hl. rewrite !wrap_id by (unfold is_word in *; lia). apply andb_true_intro. split; lia.
Qed.

(** *** Reading *)

Lemma machine_read n a b :
  machine_ram_ok b → access_size n → is_u64 a → ram_address b a n → machine_in_ram b a →
  read_size n a b
  = match slice_get (cow_flat (ram b)) (a - RAM_BASE) n with
    | Some bytes => Some (from_le_bytes bytes, b)
    | None => None
    end.
Proof.
  intros Hb Hn Ha Hr Hin. pose proof Hr as []. pose proof (mr_cow b Hb) as Hw.
  assert (Hfinish : ∀ (r : option (list Z)) f, f b = from_le_bytes <$> r →
    bus_peek f b = match r with Some bytes => Some (from_le_bytes bytes, b) | None => None end).
  { intros r f E. unfold bus_peek. rewrite E. by destruct r. }
  assert (Hwide : (0 < n)%nat → wide_in_ram (Z.of_nat n - 1) a b = true) by (intros; by apply wide_in_ram_true).
  destruct Hn as [->|[->|[->| ->]]]; cbn [read_size]; unfold read_byte, read_halfword, read_word, read_doubleword, MachineBus_bus.
  - unfold bus_read_byte. run_st. rewrite byte_in_ram_true by done. apply Hfinish. rewrite ra_index0.
    by apply cow_read_u8_is_slice.
  - unfold bus_read_halfword. run_st. rewrite (Hwide ltac:(lia) : wide_in_ram 1 a b = true). apply Hfinish.
    by apply cow_read_u16_is_slice.
  - unfold bus_read_word. run_st. rewrite (Hwide ltac:(lia) : wide_in_ram 3 a b = true). apply Hfinish.
    apply cow_read_wide_is_slice; [done | done | lia].
  - unfold bus_read_doubleword. run_st. rewrite (Hwide ltac:(lia) : wide_in_ram 7 a b = true). apply Hfinish.
    apply cow_read_wide_is_slice; [done | done | lia].
Qed.

Lemma ram_slice n a b :
  machine_ram_ok b → ram_address b a n →
  slice_get (cow_flat (ram b)) (a - RAM_BASE) n = Some (take n (drop (Z.to_nat (a - RAM_BASE)) (cow_flat (ram b)))).
Proof.
  intros Hb Hr. destruct Hr. destruct (mr_size b Hb) as (k & Hk & Hm & Hl). pose proof (mr_room b Hb).
  unfold slice_get. by replace (_ && _) with true by (symmetry; apply andb_true_intro; split; apply Z.leb_le; lia).
Qed.

Lemma machine_byte_at a b :
  machine_ram_ok b → is_u64 a → machine_in_ram b a →
  cow_flat (ram b) !! Z.to_nat (a - RAM_BASE) = Some (byte_at b a).
Proof.
  intros Hb Ha Hin. assert (Hf : fits_page a 1) by (unfold fits_page; pose proof (offset_in_page a); lia).
  pose proof (ram_address_ok b a 1 Hb Ha Hf Hin) as Hr. pose proof (machine_read 1 a b Hb ltac:(by left) Ha Hr Hin) as E.
  cbn [read_size] in E. unfold byte_at. rewrite E. rewrite (ram_slice 1 a b Hb Hr). pose proof Hr as [].
  pose proof (ram_slice 1 a b Hb Hr) as Hs. rewrite slice_get_lookup in Hs by done.
  destruct (cow_flat (ram b) !! Z.to_nat (a - RAM_BASE)) as [x|]; [|done]. cbn in Hs. injection Hs as <-. cbn.
  by rewrite Z.shiftl_0_l, Z.add_0_r.
Qed.

Lemma in_ram_page a a' b :
  machine_ram_ok b → is_u64 a → is_u64 a' → Z.shiftr a 12 = Z.shiftr a' 12 → machine_in_ram b a → machine_in_ram b a'.
Proof.
  intros Hb Ha Ha' Hp Hin. assert (Hf : fits_page a 1) by (unfold fits_page; pose proof (offset_in_page a); lia).
  destruct (mr_size b Hb) as (k & Hk & Hm & _). unfold machine_in_ram in *. rewrite Hm in *. unfold RAM_BASE in *.
  rewrite !Z.shiftr_div_pow2 in Hp by lia. assert (Hdiv : 2 ^ k = 2 ^ (k - 12) * 4096)
    by (change 4096 with (2 ^ 12); rewrite <- Z.pow_add_r by lia; f_equal; lia).
  pose proof (Z.div_mod a (2 ^ 12) ltac:(lia)). pose proof (Z.mod_pos_bound a (2 ^ 12) ltac:(lia)).
  pose proof (Z.div_mod a' (2 ^ 12) ltac:(lia)). pose proof (Z.mod_pos_bound a' (2 ^ 12) ltac:(lia)).
  change (2 ^ 12) with 4096 in *. nia.
Qed.

Lemma machine_bytes n a b :
  machine_ram_ok b → access_size n → is_u64 a → fits_page a n → machine_in_ram b a →
  read_size n a b = Some (from_le_bytes (map (fun i => byte_at b (a + Z.of_nat i)) (seq 0 n)), b).
Proof.
  intros Hb Hn Ha Hf Hin. pose proof (ram_address_ok b a n Hb Ha Hf Hin) as Hr.
  rewrite machine_read, ram_slice by done. do 3 f_equal. apply list_eq. intros i.
  destruct (decide (i < n)%nat) as [Hi|Hi].
  - rewrite lookup_take_lt, lookup_drop, list_lookup_fmap, lookup_seq_lt by lia. cbn.
    destruct (page_next a n (Z.of_nat i) Ha Hf ltac:(lia)) as (Hw & Hp & _).
    assert (Hin' : machine_in_ram b (a + Z.of_nat i)) by (by apply (in_ram_page a)).
    rewrite <- (machine_byte_at (a + Z.of_nat i) b) by done. f_equal. pose proof (ra_idx _ _ _ Hr). lia.
  - rewrite lookup_take_ge by lia. symmetry. apply lookup_ge_None_2. rewrite length_map, length_seq. lia.
Qed.

(** *** Writing *)

(** Two writes to neighbouring bytes of a page are one. *)
Lemma update_page_two page off x y r source :
  cow_wf r → 0 <= page → 0 <= off → off + 2 <= PAGE_SIZE →
  (update_page page off [x];; update_page page (off + 1) [y]) (r, source) = update_page page off [x; y] (r, source).
Proof.
  intros Hr Hp H0 Hoff. pose proof (page_mut_spec page r source Hr Hp) as Hm. unfold update_page. run_st.
  destruct (page_ref page r) as [p|]; [|by rewrite Hm]. destruct Hm as (r1 & s1 & -> & Hr1 & _ & Hk & _).
  assert (Hlen : length p = page_nat) by (by apply (wf_page r1 Hr1 (Z.to_nat page))).
  change [x; y] with ([x] ++ [y]). rewrite slice_put_app. change (Z.of_nat (length [x])) with 1.
  destruct (slice_put_in p off [x] H0) as (p1 & E1 & Hl1).
  { rewrite Hlen, page_nat_Z. cbn. lia. }
  rewrite E1. cbn [fst snd]. unfold page_mut at 1. cbn [cow_pages]. pose proof (lookup_lt_Some _ _ _ Hk) as Hlt.
  cbn. rewrite list_lookup_insert_eq by done. destruct (slice_put p1 (off + 1) [y]) as [p2|]; [|done].
  cbn. by rewrite list_insert_insert_eq.
Qed.

Lemma bus_ram_bind {A C} (m : ST (CowRam * Z) A) (k : A -> ST (CowRam * Z) C) b :
  (x ← bus_ram m; bus_ram (k x)) b = bus_ram (x ← m; k x) b.
Proof. unfold bus_ram. run_st. destruct (m _) as [[x [r s]]|]; [|done]. cbn. by destruct (k x (r, s)). Qed.

(** The bytes of a halfword go to its page. *)
Lemma write_byte_in_page a x b b1 i :
  machine_ram_ok b → is_u64 a → ram_address b a 2 → machine_in_ram b a → fits_page a 2 →
  ram_mask b1 = ram_mask b → 0 <= i < 2 →
  bus_write_byte (wrapping_add64 a i) x b1
  = bus_ram (update_page (idx_page (a - RAM_BASE)) (idx_off (a - RAM_BASE) + i) [x]) b1.
Proof.
  intros Hb Ha Hr Hin Hf Hmask Hi. destruct (page_next a 2 i Ha Hf Hi) as (Hw & Hp & Ho).
  assert (E : wrapping_add64 a i = a + i) by (by apply wrap_id). rewrite E.
  assert (Hin' : machine_in_ram b (a + i)) by (by apply (in_ram_page a)).
  assert (Hf1 : fits_page (a + i) 1) by (unfold fits_page; pose proof (offset_in_page (a + i)); lia).
  pose proof (ram_address_ok b (a + i) 1 Hb Hw Hf1 Hin') as Hr'. destruct Hr, Hr'.
  unfold bus_write_byte. run_st.
  assert (byte_in_ram (a + i) b1 = true) as -> by (unfold byte_in_ram; rewrite Hmask; by apply byte_in_ram_true).
  assert (ram_index (a + i) b1 = a + i - RAM_BASE) as -> by (unfold ram_index; by rewrite Hmask).
  unfold cow_write_u8. rewrite ra_page1, ra_page0, ra_off1, ra_off0, Hp, Ho. done.
Qed.

Lemma machine_write n a v b :
  machine_ram_ok b → access_size n → is_u64 a → fits_page a n → ram_address b a n → machine_in_ram b a →
  write_size n a v b
  = bus_ram (update_page (idx_page (a - RAM_BASE)) (idx_off (a - RAM_BASE)) (to_le_bytes n v)) b.
Proof.
  intros Hb Hn Ha Hf Hr Hin. pose proof Hr as []. pose proof (mr_cow b Hb) as Hw.
  assert (Hwide : (0 < n)%nat → wide_in_ram (Z.of_nat n - 1) a b = true) by (intros; by apply wide_in_ram_true).
  assert (Hwr : ∀ w, 8 * Z.of_nat n <= w → to_le_bytes n (wrap w v) = to_le_bytes n v)
    by (intros; by apply to_le_bytes_wrap).
  destruct Hn as [->|[->|[->| ->]]]; cbn [write_size]; unfold write_byte, write_halfword, write_word, write_doubleword, MachineBus_bus.
  - unfold bus_write_byte. run_st. rewrite byte_in_ram_true by done. rewrite ra_index0. done.
  - unfold bus_write_halfword. pose proof (write_byte_in_page a (as_u8 (as_u16 v)) b b 0 Hb Ha Hr Hin Hf eq_refl ltac:(lia)) as E0.
    assert (Ea : wrapping_add64 a 0 = a) by (unfold wrapping_add64; rewrite Z.add_0_r; by apply wrap_id).
    rewrite Ea, Z.add_0_r in E0.
    transitivity ((bus_ram (update_page (idx_page (a - RAM_BASE)) (idx_off (a - RAM_BASE)) [as_u8 (as_u16 v)]);;
                   bus_ram (update_page (idx_page (a - RAM_BASE)) (idx_off (a - RAM_BASE) + 1) [as_u8 (Z.shiftr (as_u16 v) 8)])) b).
    + unfold mbind, ST_bind. rewrite E0. destruct (bus_ram _ b) as [[[] b1]|] eqn:E1; [|done].
      apply (write_byte_in_page a _ b); try done. revert E1. unfold bus_ram, zoom.
      destruct (update_page _ _ _ _) as [[? ?]|]; [|done]. by intros [= _ <-].
    + rewrite bus_ram_bind. unfold bus_ram, zoom. destruct (idx_split (a - RAM_BASE) ra_idx0) as (Hp & Ho & _).
      rewrite update_page_two by (done || lia). rewrite <- (Hwr 16) by lia. done.
  - unfold bus_write_word. run_st. rewrite (Hwide ltac:(lia) : wide_in_ram 3 a b = true).
    unfold cow_write_u32, cow_write_wide. cbv zeta. rewrite (proj2 (Z.leb_le _ _) ra_fits0).
    unfold as_u32. by rewrite Hwr by lia.
  - unfold bus_write_doubleword. run_st. rewrite (Hwide ltac:(lia) : wide_in_ram 7 a b = true).
    unfold cow_write_u64, cow_write_wide. cbv zeta. by rewrite (proj2 (Z.leb_le _ _) ra_fits0).
Qed.

(** What a store does to the machine: RAM, and the epoch counter. *)
Lemma machine_write_ok n a v b :
  machine_ram_ok b → access_size n → is_u64 a → fits_page a n → machine_in_ram b a →
  ∃ b', write_size n a v b = Some (tt, b') ∧ machine_ram_ok b' ∧
        slice_put (cow_flat (ram b)) (a - RAM_BASE) (to_le_bytes n v) = Some (cow_flat (ram b')) ∧
        written (ram b) (ram b') (epoch_source b) (epoch_source b') ∧ ram_mask b' = ram_mask b ∧
        ∃ p, cow_pages (ram b') !! Z.to_nat (Z.shiftr a 12 - 0x80000) = Some (Some p).
Proof.
  intros Hb Hn Ha Hf Hin. pose proof (ram_address_ok b a n Hb Ha Hf Hin) as Hr. rewrite machine_write by done.
  destruct Hr. pose proof (mr_cow b Hb) as Hw. destruct (idx_split (a - RAM_BASE) ra_idx0) as (Hp & Ho & E).
  pose proof (mr_epoch b Hb) as He. pose proof (mr_source b Hb) as Hsrc. destruct (mr_size b Hb) as (k & Hk & Hm & Hl).
  pose proof (mr_room b Hb) as Hroom.
  pose proof (update_page_spec (idx_page (a - RAM_BASE)) (idx_off (a - RAM_BASE)) (to_le_bytes n v) (ram b) (epoch_source b)
    Hw Hp ltac:(lia) ltac:(by rewrite length_to_le_bytes) ltac:(unfold is_word; lia) (to_le_bytes_bytes _ _)) as Hu.
  assert (Hpage : is_Some (page_ref (idx_page (a - RAM_BASE)) (ram b))).
  { rewrite page_ref_view by done. apply lookup_lt_is_Some_2. unfold cow_view. rewrite length_imap.
    rewrite flat_length in Hroom by done. pose proof page_nat_Z. destruct n; [by destruct Hn as [|[|[|]]]|]. nia. }
  destruct Hpage as [p Epage]. rewrite Epage in Hu. destruct Hu as (r' & s' & Eu & Hr' & Hput & Hwr).
  unfold bus_ram, zoom. rewrite Eu. eexists. split; [done|]. cbn.
  destruct (written_epochs _ _ _ _ Hwr He Hsrc) as (He' & Hs' & _).
  split; [|split; [|split; [done|split; [done|]]]].
  - split; cbn; [done | | |done|done].
    + exists k. rewrite (wr_len _ _ _ _ Hwr). done.
    + rewrite (wr_len _ _ _ _ Hwr), !flat_length, (wr_count _ _ _ _ Hwr) in * by done. done.
  - by rewrite E.
  - rewrite <- ra_page0. revert Eu. unfold update_page. run_st.
    destruct (page_mut _ _) as [[q [r1 s1]]|] eqn:Em; [|done]. destruct (slice_put q _ _) as [q'|]; [|done].
    intros [= <- <-]. cbn. pose proof (page_mut_spec (idx_page (a - RAM_BASE)) (ram b) (epoch_source b) Hw Hp) as Hpm.
    rewrite Epage in Hpm. destruct Hpm as (r2 & s2 & E2 & _ & _ & Hk2 & _). rewrite E2 in Em. injection Em as <- <- <-.
    rewrite list_lookup_insert_eq by (by eapply lookup_lt_Some). eauto.
Qed.

Lemma ram_page_congr a b b' :
  length (cow_pages (ram b')) = length (cow_pages (ram b)) → ram_page a b' = ram_page a b.
Proof. intros E. unfold ram_page, CowRam.num_pages. by rewrite E. Qed.

Lemma machine_host_load n a q b :
  machine_ram_ok b → access_size n → is_u64 a → fits_page a n → machine_in_ram b a → machine_load_page b a q →
  host_load q (Z.land a 0xfff) n b = read_size n a b.
Proof.
  intros Hb Hn Ha Hf Hin (page & Hpg & Hq). pose proof (ram_address_ok b a n Hb Ha Hf Hin) as Hr.
  rewrite machine_read by done. destruct Hr. pose proof (mr_cow b Hb) as Hw.
  destruct (idx_split (a - RAM_BASE) ra_idx0) as (Hp & Ho & E).
  assert (Hn0 : (0 < n)%nat) by (destruct Hn as [->|[->|[->| ->]]]; lia).
  rewrite ram_page_eq in Hpg by done. destruct (_ && _) eqn:Eg; [|done]. injection Hpg as <-. rewrite <- ra_page0 in *.
  rewrite <- (page_read (a - RAM_BASE) n (ram b)) by done. rewrite ra_off0. unfold host_load.
  unfold host_read, MachineBus_host, cow_host_read, page_ref, page_ptr in *.
  destruct (cow_pages (ram b) !! Z.to_nat (idx_page (a - RAM_BASE))) as [[p|]|] eqn:Ep; [| |done].
  - injection Hq as <-. cbn [host_alloc host_offset host_add]. replace (_ =? 1) with false by (symmetry; lia).
    replace (idx_page (a - RAM_BASE) + 2 - 2) with (idx_page (a - RAM_BASE)) by lia. rewrite Ep, Z.add_0_l.
    by destruct (slice_get p _ n).
  - destruct ((idx_page (a - RAM_BASE) + 1) * PAGE_SIZE <=? Z.of_nat (length (cow_base (ram b)))) eqn:El; [|done].
    injection Hq as <-. cbn [host_alloc host_offset host_add]. rewrite Z.eqb_refl. bools.
    destruct (slice_get (cow_base (ram b)) (idx_page (a - RAM_BASE) * PAGE_SIZE) (Z.to_nat PAGE_SIZE)) as [p|] eqn:Es.
    + rewrite (slice_of_slice _ _ _ _ _ _ Es); [by destruct (slice_get p _ n) | lia |].
      rewrite Z2Nat.id by (unfold PAGE_SIZE; lia). lia.
    + exfalso. revert Es. unfold slice_get. replace (_ && _) with true; [done|]. symmetry.
      apply andb_true_intro. rewrite Z2Nat.id by (unfold PAGE_SIZE; lia). unfold PAGE_SIZE in *. split; apply Z.leb_le; lia.
Qed.

Lemma machine_host_store n a q v b :
  machine_ram_ok b → access_size n → is_u64 a → fits_page a n → machine_in_ram b a → machine_store_page b a q →
  host_store q (Z.land a 0xfff) n v b = write_size n a v b.
Proof.
  intros Hb Hn Ha Hf Hin (page & p & Hpg & Hk & ->). pose proof (ram_address_ok b a n Hb Ha Hf Hin) as Hr.
  rewrite machine_write by done. destruct Hr. rewrite ram_page_eq in Hpg by done. destruct (_ && _) eqn:Eg; [|done].
  injection Hpg as <-. rewrite <- ra_page0 in *. destruct (idx_split (a - RAM_BASE) ra_idx0) as (Hp & Ho & E).
  unfold host_store, host_write, MachineBus_host, cow_host_write, bus_ram, update_page, page_mut. run_st.
  cbn [host_alloc host_offset host_add fst snd]. replace (_ <? 2) with false by (symmetry; lia).
  replace (idx_page (a - RAM_BASE) + 2 - 2) with (idx_page (a - RAM_BASE)) by lia.
  rewrite Hk, Z.add_0_l, to_le_bytes_wrap, ra_off0 by lia.
  destruct (slice_put p _ _) as [p'|]; [|done]. cbn. by destruct b.
Qed.

#[export] Instance MachineBus_ram : RamLaws Bus.
Proof.
  refine {| ram_ok := machine_ram_ok; in_ram := machine_in_ram; load_page := machine_load_page;
            store_page := machine_store_page; private := machine_private |}.
  - intros. by apply machine_bytes.
  - intros a b Hb Ha Hin. pose proof (machine_byte_at a b Hb Ha Hin) as E.
    exact (Forall_lookup_1 _ _ _ _ (flat_bytes _ (mr_cow b Hb)) E).
  - intros n a v b Hb Hn Ha Hf Hin _. destruct (machine_write_ok n a v b Hb Hn Ha Hf Hin) as (b' & E & Hb' & _ & Hw & Hm & Hp).
    exists b'. split; [done|]. split; [done|].
    assert (Hpg : ∀ x, ram_page x b' = ram_page x b) by (intros; apply ram_page_congr, Hw).
    destruct (written_epochs _ _ _ _ Hw (mr_epoch b Hb) (mr_source b Hb)) as (_ & _ & Hep).
    change (ram_epoch b) with (cow_epoch (ram b)). change (ram_epoch b') with (cow_epoch (ram b')).
    split; [|split; [lia|split]].
    + intros page. rewrite Hpg, ram_page_eq by done. destruct (_ && _); [|done]. by intros [= <-].
    + intros pa. unfold machine_in_ram. by rewrite Hm.
    + intros Ee pa q. destruct Hep as [[_ Hsh]|Hlt]; [|lia]. split.
      * intros (page & H1 & H2). exists page. rewrite Hpg. split; [done|]. revert H2. unfold page_ptr.
        destruct (cow_pages (ram b) !! Z.to_nat page) as [[x|]|] eqn:Ek; [| |done].
        { destruct (wr_owned _ _ _ _ Hw _ _ Ek) as [x' ->]. done. }
        { rewrite (Hsh _ Ek), (wr_base _ _ _ _ Hw). done. }
      * intros (page & x & H1 & H2 & H3). destruct (wr_owned _ _ _ _ Hw _ _ H2) as [x' Hx'].
        exists page, x'. by rewrite Hpg.
  - intros a b Hb Ha. change (ram_load_page a b) with (bus_ram_load_page a b). unfold bus_ram_load_page.
    destruct (ram_page a b) as [page|] eqn:Ep; [|by exists None]. pose proof Ep as Ep'. rewrite ram_page_eq in Ep by done.
    destruct (_ && _) eqn:Eg; [|done]. injection Ep as <-. bools. unfold CowRam.num_pages in *.
    destruct (page_ptr _ (ram b)) as [q|] eqn:Eq.
    + exists (Some q). split; [done|]. intros ? [= <-]. eexists. done.
    + exfalso. revert Eq. unfold page_ptr.
      destruct (lookup_lt_is_Some_2 (cow_pages (ram b)) (Z.to_nat (Z.shiftr a 12 - 0x80000))) as [o Ho]; [lia|].
      rewrite Ho. destruct o; [done|]. replace (_ <=? _) with true; [done|]. symmetry. apply Z.leb_le.
      rewrite (wf_base _ (mr_cow b Hb)). pose proof page_nat_Z. nia.
  - intros a b Hb Ha Hpriv. change (ram_store_page a b) with (bus_ram_store_page a b). unfold bus_ram_store_page. run_st.
    destruct (ram_page a b) as [page|] eqn:Ep; [|by exists None]. destruct (Hpriv page Ep) as [p Hk].
    unfold bus_ram, page_mut_ptr, page_mut. run_st. rewrite Hk.
    exists (Some (mkHostPtr (page + 2) 0)). split; [cbn; by destruct b|]. intros ? [= <-]. by exists page, p.
  - intros a a' q b Ha Ha' Hp. assert (E : ram_page a' b = ram_page a b) by (by rewrite !ram_page_eq, Hp).
    unfold machine_load_page, machine_store_page. by rewrite E.
  - intros. by apply (in_ram_page a).
  - intros. by apply machine_host_load.
  - intros. by apply machine_host_store.
Defined.

(** RAM behind the machine's address map is memory.  A store of any access
    size inside a page of RAM succeeds, is read back at its width, leaves every
    other byte of RAM as it was, and touches nothing else of the machine: no
    device, no low memory, no tracer. *)
Theorem machine_store_load n a v b :
  machine_ram_ok b → access_size n → is_u64 a → fits_page a n → machine_in_ram b a → is_u64 v →
  ∃ b', write_size n a v b = Some (tt, b') ∧ machine_ram_ok b' ∧
        read_size n a b' = Some (wrap (8 * Z.of_nat n) v, b') ∧
        (∀ x, is_u64 x → machine_in_ram b x → x < a ∨ a + Z.of_nat n <= x → byte_at b' x = byte_at b x) ∧
        b' = b <| ram := ram b' |> <| epoch_source := epoch_source b' |>.
Proof.
  intros Hb Hn Ha Hf Hin Hv.
  destruct (machine_write_ok n a v b Hb Hn Ha Hf Hin) as (b' & E & Hb' & Hput & _ & Hm & _).
  pose proof (ram_address_ok b a n Hb Ha Hf Hin) as Hr.
  assert (Hin' : ∀ x, machine_in_ram b x → machine_in_ram b' x) by (intros x; unfold machine_in_ram; by rewrite Hm).
  pose proof (ram_address_ok b' a n Hb' Ha Hf (Hin' a Hin)) as Hr'.
  exists b'. split; [done|]. split; [done|]. split; [|split].
  - rewrite machine_read by eauto. apply slice_get_put in Hput. rewrite length_to_le_bytes in Hput.
    by rewrite Hput, from_to_le_bytes.
  - intros x Hx Hxin Hsep. pose proof (machine_byte_at x b Hb Hx Hxin) as E1.
    pose proof (machine_byte_at x b' Hb' Hx (Hin' x Hxin)) as E2.
    rewrite (slice_put_lookup _ _ _ _ _ Hput), E1 in E2; [by injection E2|].
    rewrite length_to_le_bytes. destruct Hxin. rewrite Z2Nat.id; lia.
  - revert E. rewrite machine_write by done. unfold bus_ram, zoom.
    destruct (update_page _ _ _ _) as [[? [r s]]|]; [|done]. cbn. intros [= _ <-]. done.
Qed.

(** What lies below RAM is never behind a host page: the devices' registers. *)
Lemma device_never_paged pa : is_u64 pa → pa < RAM_BASE → never_paged (B := Bus) pa.
Proof.
  intros Hw Hpa b. assert (E : ram_page pa b = None).
  { rewrite ram_page_eq by done. replace (0x80000 <=? Z.shiftr pa 12) with false; [done|]. symmetry. apply Z.leb_gt.
    rewrite Z.shiftr_div_pow2 by lia. apply Z.div_lt_upper_bound; [lia|]. unfold RAM_BASE in Hpa. lia. }
  split.
  - intros q. split; [intros (p & E' & _) | intros (p & x & E' & _)]; by rewrite E in E'.
  - change (ram_store_page pa b) with (bus_ram_store_page pa b). unfold bus_ram_store_page. run_st. by rewrite E.
Qed.

(** The page behind RAM is: the eight bytes of slack that RAM is allocated with
    make it a page of the table, which the address decoder does not know. *)
Lemma slack_page_handed_out b :
  machine_ram_ok b → let a := RAM_BASE + ram_mask b + 1 in
  byte_in_ram a b = false ∧ ∃ p, ram_load_page a b = Some (Some p, b).
Proof.
  intros Hb a. pose proof (mr_cow b Hb) as Hw. pose proof (mr_room b Hb) as Hroom. rewrite flat_length in Hroom by done.
  destruct (mr_size b Hb) as (k & Hk & Hm & Hl). assert (Ea : a = RAM_BASE + 2 ^ (k - 12) * 2 ^ 12).
  { unfold a. rewrite Hm, <- Z.pow_add_r by lia. replace (k - 12 + 12) with k by lia. lia. }
  assert (Hk2 : 2 ^ (k - 12) * 2 ^ 12 = 2 ^ k) by (rewrite <- Z.pow_add_r by lia; f_equal; lia).
  assert (Hle : 0 < 2 ^ k <= 2 ^ 62) by (split; [lia|]; apply Z.pow_le_mono_r; lia).
  assert (Hwa : is_u64 a) by (rewrite Ea, Hk2; unfold is_word, RAM_BASE; lia).
  split.
  { unfold byte_in_ram. fold a. replace (as_u64 _) with a; [lia|]. symmetry. by apply wrap_id. }
  assert (Hp : Z.shiftr a 12 - 0x80000 = 2 ^ (k - 12)).
  { rewrite <- ram_base_page, Ea, Z.shiftr_div_pow2 by lia.
    replace (RAM_BASE + _ - RAM_BASE) with (2 ^ (k - 12) * 2 ^ 12) by lia. by apply Z.div_mul. }
  destruct (rl_load_page (B := Bus) (RamLaws := MachineBus_ram) a b Hb Hwa) as (o & E & _). destruct o as [q|]; [by exists q|]. exfalso. revert E.
  change (ram_load_page a b) with (bus_ram_load_page a b). unfold bus_ram_load_page. rewrite ram_page_eq, Hp by done.
  unfold CowRam.num_pages. assert (0 < 2 ^ (k - 12)) by lia. pose proof page_nat_Z.
  replace (_ && _) with true; [by destruct (page_ptr _ _)|]. symmetry. apply andb_true_intro. split; [apply Z.leb_le; lia|].
  apply Z.ltb_lt. rewrite Nat2Z.inj_mul, page_nat_Z in Hroom. unfold PAGE_SIZE in Hroom. change (2 ^ 12) with 4096 in Hk2. lia.
Qed.

(** A new machine's RAM satisfies the contract. *)
Lemma bus_new_ram_ok k source :
  12 <= k <= 61 → 0 <= source → source + padded_len (2 ^ k + 8) / PAGE_SIZE + 1 < 2 ^ 64 →
  ∃ r b, cow_new (2 ^ k) source = Some (r, source + 1) ∧ bus_new (2 ^ k) r (source + 1) = Some b ∧
         machine_ram_ok b ∧ ram_mask b = 2 ^ k - 1.
Proof.
  intros Hk Hs Hroom. assert (Hb : 0 <= 2 ^ k < 2 ^ 62) by (split; [lia|]; apply Z.pow_lt_mono_r; lia).
  destruct (cow_new_flat (2 ^ k) source Hb) as (r & E & Hr & Hf & Hl).
  assert (Hp : 0 <= 2 ^ k + 8 <= padded_len (2 ^ k + 8)) by (destruct (padded_len_mod (2 ^ k + 8)); lia).
  assert (0 <= padded_len (2 ^ k + 8) / PAGE_SIZE) by (apply Z.div_pos; unfold PAGE_SIZE; lia).
  assert (Ew : as_u64 (source + 1) = source + 1) by (apply wrap_id; unfold is_word; lia). rewrite Ew in E.
  assert (He : cow_epoch r = source).
  { revert E. unfold cow_new, from_padded, next_epoch. run_st. by intros [= <- _]. }
  assert (Hpow : is_power_of_two (2 ^ k) = true).
  { unfold is_power_of_two. apply andb_true_intro. split; [lia|].
    apply Z.eqb_eq. replace (2 ^ k - 1) with (Z.ones k) by (rewrite Z.ones_equiv; lia).
    rewrite Z.land_ones, Z.mod_same by lia. done. }
  eexists r, _. split; [done|]. unfold bus_new. rewrite Hpow. split; [done|]. split; [|done].
  pose proof (f_equal length Hf) as Hlen. rewrite length_replicate in Hlen.
  split; cbn; [done | exists k; rewrite Hl; split; [lia|done] | rewrite Hl, Hlen; lia | rewrite He; lia |].
  assert (Hsc : (shared_count (cow_pages r) <= length (cow_pages r))%nat) by apply shared_count_le.
  rewrite flat_length in Hlen by done. pose proof page_nat_Z as Epn.
  assert (Z.of_nat (length (cow_pages r)) = padded_len (2 ^ k + 8) / PAGE_SIZE); [|lia].
  apply Z.div_unique_exact; [unfold PAGE_SIZE; lia|]. nia.
Qed.
End MachineRam.

(** The devices of a machine with none attached. *)
Module NoDevices.
#[export] Instance bound : LoopBound := 0%nat.
#[export] Instance backend : NetworkBackend unit := {|
  send := fun _ => mret tt; recv := mret None; has_rx := fun _ => false; has_active_connections := fun _ => false |}.
#[export] Instance directories : FsDevice Empty_set := {|
  fs_mmio := fun f : Empty_set => match f with end; set_fs_mmio := fun _ f => f; fs_notify := fun _ => mret tt |}.
#[export] Instance tracer : TracesSyscalls Empty_set := {|
  on_entry := fun _ _ _ _ _ => mret tt; on_return := fun _ _ _ _ _ _ _ => mret tt; sync_clock := fun _ t => t |}.
End NoDevices.

Section TinyMachine.
Import NoDevices.

Lemma machine_store_load_witness :
  ∃ b b' : MachineBus unit Empty_set Empty_set,
    write_size 4 0x80000ffc 0x123456789 b = Some (tt, b') ∧ read_size 4 0x80000ffc b' = Some (0x23456789, b').
Proof.
  destruct (bus_new_ram_ok (N := unit) (F := Empty_set) (T := Empty_set) 12 5 ltac:(lia) ltac:(lia) ltac:(vm_compute; done))
    as (r & b & _ & _ & Hb & Hm).
  destruct (machine_store_load 4 0x80000ffc 0x123456789 b Hb ltac:(unfold access_size; lia) ltac:(done) ltac:(done)
              ltac:(unfold machine_in_ram; rewrite Hm; done) ltac:(done)) as (b' & E & _ & E' & _).
  by exists b, b'.
Defined.
End TinyMachine.
