(* ===== verification/MachineLaws.v ===== *)
(** The machine keeps the bus contract of the core.

    [machine_ok] collects the invariants of the parts of the machine; every bus
    operation keeps it ([MachineBus_laws]).  The theorems of the core that are
    proved of any bus ([run_keeps_invariant] among them) are then theorems about
    the machine.  What a shared directory, the network back end and the tracer
    have to keep is stated as laws of their interfaces. *)
From S2P Require Import Prelude Words Wp Csr SyscallEntry SystemBus BusLaws Invariant RamLaws Io CowRam CowRamProps.
From S2P Require Import Layout Clint Plic Uart Virtio VirtioProps VirtioConsole VirtioBlk VirtioNet.
From S2P Require Import VirtioInvariant MachineBus MachineRam.

Class FsLaws (F : Type) {FD : FsDevice F} := {
  fs_ok : F -> Prop;
  fl_get f m : fs_mmio (set_fs_mmio m f) = m;
  fl_mmio f : fs_ok f → mmio_wf (fs_mmio f);
  fl_set f m : fs_ok f → mmio_wf m → fs_ok (set_fs_mmio m f);
  fl_notify i : keeps True (dev_inv fs_ok) (fs_notify i) (fun _ => True)
}.

(** The tracer looks at guest memory and changes nothing but itself. *)
Record reads_keep {B} {SB : SystemBus B} (J : B -> Prop) : Prop := {
  rk_page a : keeps True J (ram_load_page a) (fun _ => True);
  rk_byte a : keeps True J (read_byte a) is_u8;
  rk_halfword a : keeps True J (read_halfword a) is_u16;
  rk_word a : keeps True J (read_word a) is_u32;
  rk_doubleword a : keeps True J (read_doubleword a) is_u64
}.

Class TracerLaws (T : Type) {ST_ : TracesSyscalls T} := {
  tl_entry B (SB : SystemBus B) (HM : HostMemory B) J e satp :
    reads_keep J → keeps True (fun s : T * B => J s.2) (on_entry e satp) (fun _ => True);
  tl_return B (SB : SystemBus B) (HM : HostMemory B) J task pc v satp :
    reads_keep J → keeps True (fun s : T * B => J s.2) (on_return task pc v satp) (fun _ => True)
}.

Section Machine.
Context {LB : LoopBound} {N F T : Type} {NB : NetworkBackend N} {FD : FsDevice F} {ST_ : TracesSyscalls T}.
Context {NL : NetworkLaws N} {FL : FsLaws F} {TL : TracerLaws T}.
Abbreviation Bus := (MachineBus N F T).
Implicit Types b : Bus.

Record machine_ok (b : Bus) : Prop := {
  mo_ram : ram_inv (ram b, epoch_source b);
  mo_mask : 0 <= ram_mask b;
  mo_low : Forall is_u8 (low_ram b);
  mo_uart : uart_wf (uart b);
  mo_stderr : uart_wf (uart_stderr b);
  mo_ctrl : uart_wf (uart_ctrl b);
  mo_data : uart_wf (uart_data b);
  mo_clint : clint_wf (clint b);
  mo_plic : plic_wf (plic b);
  mo_blk d : blk b = Some d → blk_ok d;
  mo_console : console_ok (console b);
  mo_net d : net b = Some d → net_ok d;
  mo_fs : Forall fs_ok (fs_devices b)
}.

(** The machine at a fixed RAM epoch: what reads keep. *)
Definition machine_at (e : Z) (b : Bus) : Prop := machine_ok b ∧ cow_epoch (ram b) = e.

Lemma bus_peek_keeps {A} (I : Bus -> Prop) (f : Bus -> option A) (R : A -> Prop) :
  (∀ b x, I b → f b = Some x → R x) → keeps True I (bus_peek f) R.
Proof. intros H b Hb. unfold wp, bus_peek. destruct (f b) eqn:E; [|done]. eauto. Qed.

(** Code that changes one part, and RAM only through [ram_inv]. *)
Lemma modify_at (f : Bus -> Bus) e :
  (∀ b, machine_ok b → machine_ok (f b) ∧ cow_epoch (ram (f b)) = cow_epoch (ram b)) →
  keeps True (machine_at e) (modify f) (fun _ => True).
Proof. intros H. apply keeps_modify. intros b [Hb He]. destruct (H b Hb) as [? E]. split; [done | by rewrite E]. Qed.

Lemma at_ok {A} (m : ST Bus A) R : (∀ e, keeps True (machine_at e) m R) → keeps True machine_ok m R.
Proof.
  intros H b Hb. eapply wp_mono; [|apply (H (cow_epoch (ram b)) b); done]. by intros a b' [? [? _]].
Qed.

(** *** Interrupt lines *)

Lemma line_keeps irq level e : keeps True (machine_at e) (line irq level) (fun _ => True).
Proof.
  intros b [Hb He]. unfold wp, line. destruct (valid_irq irq) eqn:Hv.
  - destruct (set_irq_wf irq (level b) (plic b) (mo_plic b Hb) Hv) as (p & -> & Hp & _).
    split; [done|]. split; [|done]. destruct Hb. by split.
  - unfold set_irq. by rewrite Hv.
Qed.

Lemma fs_lines_keeps fs i e : keeps True (machine_at e) (fs_lines fs i) (fun _ => True).
Proof.
  revert i. induction fs as [|f fs IH]; intros i; cbn; [by apply keeps_ret|].
  eapply keeps_bind; [apply line_keeps|]. intros _ _. apply IH.
Qed.

Lemma refresh_keeps e : keeps True (machine_at e) refresh_external_interrupt (fun _ => True).
Proof.
  unfold refresh_external_interrupt. repeat (eapply keeps_bind; [apply line_keeps|]; intros _ _).
  eapply keeps_bind; [by apply (keeps_gets _ (fun _ => True))|]. intros d _.
  apply (keeps_bind _ _ (fun _ => True)); [destruct d; [apply line_keeps | by apply keeps_ret]|]. intros _ _.
  eapply keeps_bind; [apply line_keeps|]. intros _ _.
  eapply keeps_bind; [by apply (keeps_gets _ (fun _ => True))|]. intros n _.
  apply (keeps_bind _ _ (fun _ => True)); [destruct n; [apply line_keeps | by apply keeps_ret]|]. intros _ _.
  eapply keeps_bind; [by apply (keeps_gets _ (fun _ => True))|]. intros fs _.
  eapply keeps_bind; [apply fs_lines_keeps|]. intros _ _. by apply keeps_gets.
Qed.

(** *** Reads *)

Lemma slot_read_word slot offset b v : machine_ok b → 0 <= offset → slot_read slot offset b = Some v → is_u32 v.
Proof.
  intros Hb Ho. assert (Hm : ∀ m, mmio_wf m → mmio_read offset m = Some v → is_u32 v).
  { intros m Hm E. destruct (mmio_read_wf offset m Ho Hm) as (x & Ex & Hx). rewrite Ex in E. by injection E as <-. }
  unfold slot_read. case_if; [|case_if; [|case_if]].
  - destruct (blk b) as [d|] eqn:Ed; [|by intros [= <-]]. apply Hm, (mo_blk b Hb d Ed).
  - apply Hm, (mo_console b Hb).
  - destruct (net b) as [d|] eqn:Ed; [|by intros [= <-]]. apply Hm, (mo_net b Hb d Ed).
  - destruct (fs_devices b !! _) as [d|] eqn:Ed; [|by intros [= <-]].
    apply Hm, fl_mmio. exact (Forall_lookup_1 _ _ _ _ (mo_fs b Hb) Ed).
Qed.

Lemma port_read_keeps (get : Bus -> Uart) put offset e :
  (∀ b, machine_ok b → uart_wf (get b)) →
  (∀ b u, machine_ok b → uart_wf u → machine_ok (put u b) ∧ ram (put u b) = ram b) →
  keeps True (machine_at e) (port_read get put offset) is_u8.
Proof.
  intros Hg Hp b [Hb He]. unfold wp, port_read. destruct (uart_read_wf (as_u8 offset) (get b) (Hg b Hb)) as [H1 H2].
  destruct (uart_read_register _ _) as [v u]. split; [done|]. destruct (Hp b u Hb H2) as [? E]. split; [done | by rewrite E].
Qed.

Lemma uart_put_ok b u : machine_ok b → uart_wf u →
  machine_ok (b <| uart := u |>) ∧ machine_ok (b <| uart_stderr := u |>) ∧
  machine_ok (b <| uart_ctrl := u |>) ∧ machine_ok (b <| uart_data := u |>).
Proof. intros [] ?. split; [by split|]. split; [by split|]. split; by split. Qed.

Lemma register_offset_nonneg a : 0 <= virtio_register_offset a.
Proof. unfold virtio_register_offset. apply Z.mod_pos_bound. done. Qed.

Lemma ram_index_nonneg a b : machine_ok b → 0 <= ram_index a b.
Proof. intros Hb. apply Z.land_nonneg. right. apply Hb. Qed.

Lemma read_byte_keeps' a e : keeps True (machine_at e) (bus_read_byte a) is_u8.
Proof.
  unfold bus_read_byte. eapply keeps_bind; [by apply (keeps_get (fun _ => True))|]. intros b0 _.
  case_if.
  { apply bus_peek_keeps. intros b x [Hb _]. apply cow_read_u8_word; [apply Hb | by apply ram_index_nonneg]. }
  case_if.
  { apply bus_peek_keeps. intros b x [Hb _] E1. exact (Forall_lookup_1 _ _ _ _ (mo_low b Hb) E1). }
  do 4 (case_if; [apply port_read_keeps; [by intros b [] | intros b u Hb Hu; split; [by apply uart_put_ok | done]]|]).
  destruct (virtio_device_slot a) as [slot|]; [|by apply keeps_ret]. cbv zeta.
  eapply keeps_bind; [apply (bus_peek_keeps _ _ (fun _ => True)); done|]. intros w _. apply keeps_ret. apply wrap_range. lia.
Qed.

Lemma wide_read_keeps k n a e (read : Z -> CowRam -> option Z) :
  (∀ idx r y, cow_wf r → 0 <= idx → read idx r = Some y → is_word n y) →
  ∀ b0, wide_in_ram k a b0 = true → keeps True (machine_at e) (bus_peek (fun b => read (a - RAM_BASE) (ram b))) (is_word n).
Proof.
  intros Hr b0 Hw. apply bus_peek_keeps. intros b x [Hb _]. apply Hr; [apply Hb|].
  unfold wide_in_ram in Hw. bools. lia.
Qed.

Lemma bytes_word l : Forall is_u8 l → is_word (8 * Z.of_nat (length l)) (from_le_bytes l).
Proof. apply from_le_bytes_range. Qed.

Lemma read_halfword_keeps' a e : keeps True (machine_at e) (bus_read_halfword a) is_u16.
Proof.
  unfold bus_read_halfword. eapply keeps_bind; [by apply (keeps_get (fun _ => True))|]. intros b0 _. case_if.
  { eapply (wide_read_keeps 1 16 a e cow_read_u16); [intros; by eapply cow_read_u16_word | done]. }
  eapply keeps_bind; [apply read_byte_keeps'|]. intros x Hx. eapply keeps_bind; [apply read_byte_keeps'|]. intros y Hy.
  apply keeps_ret. apply (bytes_word [x; y]). do 2 (constructor; [done|]). constructor.
Qed.

Lemma read_word_keeps' a e : keeps True (machine_at e) (bus_read_word a) is_u32.
Proof.
  unfold bus_read_word. eapply keeps_bind; [by apply (keeps_get (fun _ => True))|]. intros b0 _. case_if.
  { eapply (wide_read_keeps 3 32 a e cow_read_u32); [intros; eapply (cow_read_wide_word 4); eauto with lia | done]. }
  case_if; [apply keeps_gets; intros b [Hb _]; apply clint_read_word, Hb|].
  case_if.
  { eapply keeps_bind; [apply refresh_keeps|]. intros _ _. intros b [Hb He]. unfold wp, bus_plic_read.
    assert (Hp : is_u32 (plic_read_register (a - PLIC_BASE) (plic b)).1 ∧ plic_wf (plic_read_register (a - PLIC_BASE) (plic b)).2).
    { apply plic_read_wf, Hb. }
    destruct (plic_read_register _ _) as [v p]. destruct Hp as [Hv Hp]. split; [done|].
    split; [|done]. destruct Hb. by split. }
  destruct (virtio_device_slot a) as [slot|].
  { apply bus_peek_keeps. intros b x [Hb _]. apply slot_read_word; [done | apply register_offset_nonneg]. }
  eapply keeps_bind; [apply read_byte_keeps'|]. intros x Hx. eapply keeps_bind; [apply read_byte_keeps'|]. intros y Hy.
  eapply keeps_bind; [apply read_byte_keeps'|]. intros z Hz. eapply keeps_bind; [apply read_byte_keeps'|]. intros t Ht.
  apply keeps_ret. apply (bytes_word [x; y; z; t]). do 4 (constructor; [done|]). constructor.
Qed.

Lemma read_doubleword_keeps' a e : keeps True (machine_at e) (bus_read_doubleword a) is_u64.
Proof.
  unfold bus_read_doubleword. eapply keeps_bind; [by apply (keeps_get (fun _ => True))|]. intros b0 _. case_if.
  { eapply (wide_read_keeps 7 64 a e cow_read_u64); [intros; eapply (cow_read_wide_word 8); eauto with lia | done]. }
  eapply keeps_bind; [apply read_word_keeps'|]. intros x Hx. eapply keeps_bind; [apply read_word_keeps'|]. intros y Hy.
  apply keeps_ret. apply lor_word; [lia | by apply (is_word_mono 32) | apply wrap_range; lia].
Qed.

(** *** Writes *)

Lemma ram_put_ok b r source : machine_ok b → ram_inv (r, source) →
  machine_ok (b <| ram := r |> <| epoch_source := source |>).
Proof. intros [] ?. by split. Qed.

Lemma bus_ram_keeps {A} (m : ST (CowRam * Z) A) R :
  keeps True ram_inv m R → keeps True machine_ok (bus_ram m) R.
Proof.
  intros H. apply (keeps_zoom ram_inv); [done | by intros b [] |]. intros b [r source] Hb Hr. by apply ram_put_ok.
Qed.

Lemma with_view_keeps {D A} (ok : D -> Prop) (get : Bus -> D) put (m : DevST D A) R :
  (∀ b, machine_ok b → ok (get b)) → (∀ d b, machine_ok b → ok d → machine_ok (put d b)) →
  keeps True (dev_inv ok) m R → keeps True machine_ok (with_view get put m) R.
Proof.
  intros Hg Hp Hm b Hb. unfold wp, with_view.
  assert (Hi : dev_inv ok (get b, (view_new (ram b) (ram_mask b), epoch_source b))).
  { split; [by apply Hg|]. apply view_new_inv; apply Hb. }
  specialize (Hm _ Hi). unfold wp in Hm. destruct (m _) as [[a [d [v source]]]|]; [|done].
  destruct Hm as [Ha [Hd [Hv _ _]]]. split; [done|]. apply Hp; [by apply ram_put_ok | done].
Qed.

Lemma load_low_keeps offset bytes : Forall is_u8 bytes → keeps True machine_ok (load_low_ram offset bytes) (fun _ => True).
Proof.
  intros Hb b Hok. unfold wp, load_low_ram. destruct (slice_put _ _ _) as [l|] eqn:P; [|done]. split; [done|].
  pose proof (slice_put_bytes _ _ _ _ (mo_low b Hok) Hb P). destruct Hok. by split.
Qed.

Lemma port_write_keeps (get : Bus -> Uart) put offset v :
  is_u8 v → (∀ b, machine_ok b → uart_wf (get b)) → (∀ b u, machine_ok b → uart_wf u → machine_ok (put u b)) →
  keeps True machine_ok (port_write get put offset v) (fun _ => True).
Proof. intros Hv Hg Hp. apply keeps_modify. intros b Hb. apply Hp; [done|]. by apply uart_write_wf, Hg. Qed.

Lemma write_byte_keeps' a v : is_u8 v → keeps True machine_ok (bus_write_byte a v) (fun _ => True).
Proof.
  intros Hv. unfold bus_write_byte. eapply keeps_bind; [by apply (keeps_get machine_ok)|]. intros b0 Hb0.
  case_if; [apply bus_ram_keeps, cow_write_u8_keeps; [by apply ram_index_nonneg | done]|].
  case_if; [apply load_low_keeps; by constructor|].
  do 4 (case_if; [apply port_write_keeps; [done | by intros b [] | intros b u Hb Hu; by apply uart_put_ok]|]).
  by apply keeps_ret.
Qed.

Lemma write_halfword_keeps' a v : keeps True machine_ok (bus_write_halfword a v) (fun _ => True).
Proof.
  unfold bus_write_halfword. eapply keeps_bind; [apply write_byte_keeps', wrap_range; lia|]. intros _ _.
  apply write_byte_keeps', wrap_range. lia.
Qed.

Lemma slot_write_keeps slot offset v :
  0 <= offset → is_u32 v → keeps True machine_ok (slot_write slot offset v) (fun _ => True).
Proof.
  intros Ho Hv b Hb. pose proof Hb as []. unfold wp, slot_write.
  assert (Hm : ∀ m, mmio_wf m → ∃ q m', mmio_write offset v m = Some (q, m') ∧ mmio_wf m').
  { intros m Hm. destruct (mmio_write_wf offset v m Ho Hv Hm) as (q & m' & ? & ? & _). eauto. }
  case_if; [|case_if; [|case_if]].
  - destruct (blk b) as [d|] eqn:Ed; [|done]. destruct (Hm _ (blk_get d (mo_blk0 d eq_refl))) as (q & m' & -> & Hm').
    split; [done|]. split; try done. cbn. intros ? [= <-]. apply blk_put; [by apply mo_blk0 | done].
  - destruct (Hm _ (console_get _ mo_console0)) as (q & m' & -> & Hm'). split; [done|]. split; try done. by apply console_put.
  - destruct (net b) as [d|] eqn:Ed; [|done]. destruct (Hm _ (net_get d (mo_net0 d eq_refl))) as (q & m' & -> & Hm').
    split; [done|]. split; try done. cbn. intros ? [= <-]. apply net_put; [by apply mo_net0 | done].
  - destruct (fs_devices b !! _) as [d|] eqn:Ed; [|done]. pose proof (Forall_lookup_1 _ _ _ _ mo_fs0 Ed) as Hd.
    destruct (Hm _ (fl_mmio d Hd)) as (q & m' & -> & Hm'). split; [done|]. split; try done. cbn.
    apply Forall_insert; [done | by apply fl_set].
Qed.

Lemma slot_notify_keeps slot i : keeps True machine_ok (slot_notify slot i) (fun _ => True).
Proof.
  unfold slot_notify. eapply keeps_bind; [by apply (keeps_get machine_ok)|]. intros b0 Hb0.
  case_if; [|case_if; [|case_if]].
  - destruct (blk b0) as [d|] eqn:Ed; [|by apply keeps_ret].
    apply (with_view_keeps blk_ok); [intros; exact (mo_blk b0 Hb0 d Ed) | | apply blk_notify_keeps].
    intros d' b [] Hd. split; try done. cbn. by intros ? [= <-].
  - apply (with_view_keeps console_ok); [by intros b [] | | apply console_notify_keeps]. intros c b [] Hc. by split.
  - destruct (net b0) as [d|] eqn:Ed; [|by apply keeps_ret].
    apply (with_view_keeps net_ok); [intros; exact (mo_net b0 Hb0 d Ed) | | apply net_notify_keeps].
    intros d' b [] Hd. split; try done. cbn. by intros ? [= <-].
  - destruct (fs_devices b0 !! _) as [d|] eqn:Ed; [|by apply keeps_ret].
    apply (with_view_keeps fs_ok); [intros; exact (Forall_lookup_1 _ _ _ _ (mo_fs b0 Hb0) Ed) | | apply fl_notify].
    intros d' b [] Hd. split; try done. cbn. by apply Forall_insert.
Qed.

Lemma wide_offset k a b : wide_in_ram k a b = true → 0 <= a - RAM_BASE.
Proof. unfold wide_in_ram. intros. bools. lia. Qed.

Lemma write_word_keeps' a v : is_u32 v → keeps True machine_ok (bus_write_word a v) (fun _ => True).
Proof.
  intros Hv. unfold bus_write_word. eapply keeps_bind; [by apply (keeps_get (fun _ => True))|]. intros b0 _.
  case_if; [apply bus_ram_keeps, cow_write_wide_keeps; [by eapply wide_offset | lia]|].
  case_if; [apply keeps_modify; intros b []; split; try done; by apply clint_write_wf|].
  case_if; [apply keeps_modify; intros b []; split; try done; by apply plic_write_wf|].
  destruct (virtio_device_slot a) as [slot|].
  - eapply keeps_bind; [apply slot_write_keeps; [apply register_offset_nonneg | done]|]. intros [i|] _; [|by apply keeps_ret].
    eapply keeps_bind; [apply keeps_modify; intros b1 []; by split|]. intros _ _. apply slot_notify_keeps.
  - do 3 (eapply keeps_bind; [apply write_byte_keeps', wrap_range; lia|]; intros _ _). apply write_byte_keeps', wrap_range. lia.
Qed.

Lemma write_doubleword_keeps' a v : keeps True machine_ok (bus_write_doubleword a v) (fun _ => True).
Proof.
  unfold bus_write_doubleword. eapply keeps_bind; [by apply (keeps_get (fun _ => True))|]. intros b0 _.
  case_if; [apply bus_ram_keeps, cow_write_wide_keeps; [by eapply wide_offset | lia]|].
  eapply keeps_bind; [apply write_word_keeps', wrap_range; lia|]. intros _ _. apply write_word_keeps', wrap_range. lia.
Qed.

(** *** Pages, host pointers, tracing *)

Lemma page_mut_keeps page : 0 <= page → keeps True ram_inv (page_mut page) (fun _ => True).
Proof.
  intros Hp [r source] (Hr & Hs & Hd). cbn in *. pose proof (page_mut_spec page r source Hr Hp) as H. unfold wp.
  destruct (page_ref page r); [|by rewrite H]. destruct H as (r' & s' & -> & Hr' & _ & _ & Hv). split; [done|].
  split; [done|]. destruct Hv. split; cbn; [|by rewrite pv_devs].
  destruct pv_epoch as [(_ & -> & _)|(_ & -> & _)]; [done | apply wrap_range; lia].
Qed.

Lemma store_page_keeps a : keeps True machine_ok (bus_ram_store_page a) (fun _ => True).
Proof.
  unfold bus_ram_store_page. eapply keeps_bind; [by apply (keeps_get (fun _ => True))|]. intros b0 _.
  destruct (ram_page a b0) as [page|] eqn:E; [|by apply keeps_ret].
  eapply keeps_bind; [|intros p _; by apply keeps_ret]. apply bus_ram_keeps. unfold page_mut_ptr.
  eapply keeps_bind; [apply page_mut_keeps|intros _ _; by apply (keeps_ret _ (fun _ => True))].
  revert E. unfold ram_page. cbv zeta. case_if; [done|]. case_if; [done|]. intros [= <-]. bools.
  apply Z.shiftr_nonneg. lia.
Qed.

Lemma host_read_word p n b : machine_ok b →
  match host_read p n b with Some v => is_word (8 * Z.of_nat n) v | None => True end.
Proof.
  intros Hb. cbn. unfold cow_host_read.
  assert (Hs : ∀ l i, Forall is_u8 l →
    match from_le_bytes <$> slice_get l i n with Some v => is_word (8 * Z.of_nat n) v | None => True end).
  { intros l i Hl. destruct (slice_get l i n) as [bytes|] eqn:G; [|done]. cbn.
    apply slice_get_bytes in G as [Hbs <-]; [|done]. by apply from_le_bytes_range. }
  destruct (mo_ram b Hb) as [Hr _]. cbn in Hr. case_if; [apply Hs, Hr|].
  destruct (cow_pages (ram b) !! _) as [[pg|]|] eqn:Ep; try done. by apply Hs, (wf_page _ Hr _ _ Ep).
Qed.

Lemma host_write_keeps p n v : keeps True machine_ok (host_write p n v) (fun _ => True).
Proof.
  intros b Hb. pose proof (mo_ram b Hb) as (Hr & Hs & Hd). unfold wp. cbn. unfold zoom, cow_host_write. cbv zeta. cbn in *.
  case_if; [done|]. destruct (cow_pages (ram b) !! Z.to_nat (host_alloc p - 2)) as [[pg|]|] eqn:Ep; try done.
  destruct (slice_put pg _ _) as [pg'|] eqn:P; [|done]. split; [done|].
  destruct (wf_page _ Hr _ _ Ep) as [Hl Hb8]. pose proof Hr as [W1 W2 W3].
  destruct Hb. split; try done. cbn. split; [|done]. cbn. split; cbn.
  - by rewrite length_insert.
  - done.
  - intros k q Hk. apply list_lookup_insert_Some in Hk as [(<- & [= <-] & _)|[_ Hk]]; [|by apply (W3 k)].
    split; [by rewrite (FlatRam.length_slice_put _ _ _ _ P) | exact (slice_put_bytes _ _ _ _ Hb8 (to_le_bytes_bytes _ _) P)].
Qed.

Lemma bus_drain_keeps :
  keeps True machine_ok bus_drain_device_written_pages (fun d => Forall (fun p => 0 <= p) d.1).
Proof.
  intros b Hb. destruct (mo_ram b Hb) as (Hr & Hs & Hd). unfold wp, bus_drain_device_written_pages, cow_drain_device_written_pages.
  cbn in *. destruct (clear_seen _ _) as [seen|]; [|done]. split.
  - apply Forall_map. eapply list.Forall_impl; [exact Hd|]. cbn. intros p Hp. assert (0 <= Z.shiftr RAM_BASE 12) by done. lia.
  - destruct Hb. split; try done. cbn. split; [|done]. destruct Hr as [W1 W2 W3]. by split.
Qed.

Lemma load_page_keeps a : keeps True machine_ok (bus_ram_load_page a) (fun _ => True).
Proof.
  intros b Hb. unfold wp, bus_ram_load_page. destruct (ram_page a b); [|by split]. by destruct (page_ptr _ _); split.
Qed.

Lemma bare_reads : reads_keep (SB := bare_bus) machine_ok.
Proof.
  split; intros; [apply load_page_keeps|..]; apply at_ok; intros;
    [apply read_byte_keeps' | apply read_halfword_keeps' | apply read_word_keeps' | apply read_doubleword_keeps'].
Qed.

Lemma with_tracer_keeps (m : ST (T * Bus) unit) :
  keeps True (fun s : T * Bus => machine_ok s.2) m (fun _ => True) → keeps True machine_ok (with_tracer m) (fun _ => True).
Proof.
  intros Hm b Hb. unfold wp, with_tracer. destruct (syscall_tracer b) as [t|]; [|done].
  assert (H0 : machine_ok (b <| syscall_tracer := None |>)) by (destruct Hb; by split).
  specialize (Hm (t, b <| syscall_tracer := None |>) H0). unfold wp in Hm.
  destruct (m _) as [[[] [t' b']]|]; [|done]. destruct Hm as [_ Hb']. cbn in Hb'. split; [done|]. destruct Hb'. by split.
Qed.

Lemma at_read {A} (m : ST Bus A) R b :
  (∀ e, keeps True (machine_at e) m R) → machine_ok b →
  wp True m (fun v b' => R v ∧ machine_ok b' ∧ cow_epoch (ram b') = cow_epoch (ram b)) b.
Proof. intros H Hb. eapply wp_mono; [|by apply (H (cow_epoch (ram b)))]. by intros v b' [? [? ?]]. Qed.

Lemma keeps_state {A} (m : ST Bus A) R b : keeps True machine_ok m R → machine_ok b → wp True m (fun _ b' => machine_ok b') b.
Proof. intros H Hb. eapply wp_mono; [|by apply H]. by intros a b' []. Qed.

(** The machine is a bus the core can run on. *)
#[export] Instance MachineBus_laws : BusLaws Bus True.
Proof.
  refine {| bus_ok := machine_ok; page_ok := fun _ _ => True |}.
  - intros. apply at_read; [apply read_byte_keeps' | done].
  - intros. apply at_read; [apply read_halfword_keeps' | done].
  - intros. apply at_read; [apply read_word_keeps' | done].
  - intros. apply at_read; [apply read_doubleword_keeps' | done].
  - intros. eapply keeps_state; [by apply write_byte_keeps' | done].
  - intros. eapply keeps_state; [by apply write_halfword_keeps' | done].
  - intros. eapply keeps_state; [by apply write_word_keeps' | done].
  - intros. eapply keeps_state; [by apply write_doubleword_keeps' | done].
  - intros a b Hb _. unfold wp. cbn. unfold bus_ram_load_page. destruct (ram_page a b); [|by split].
    by destruct (page_ptr _ _); split.
  - intros a b Hb _. eapply wp_mono; [|by apply store_page_keeps]. by intros p b' [_ ?].
  - intros. by apply host_read_word.
  - intros. eapply keeps_state; [by apply host_write_keeps | done].
  - intros b Hb. eapply wp_mono; [|by apply bus_drain_keeps]. by intros d b' [? ?].
  - intros b Hb. eapply keeps_state; [|done]. unfold external_interrupt_pending, MachineBus_bus, bus_external_interrupt_pending.
    eapply keeps_bind; [apply at_ok, refresh_keeps|]. intros x _. by apply (keeps_ret _ (fun _ => True)).
  - intros e satp b Hb. eapply keeps_state; [|done]. apply with_tracer_keeps, tl_entry, bare_reads.
  - intros task pc v satp b Hb. eapply keeps_state; [|done]. apply with_tracer_keeps, tl_return, bare_reads.
Defined.

(** ** A new machine *)

Lemma bus_new_ok ram_size r source (b : Bus) :
  ram_inv (r, source) → bus_new ram_size r source = Some b → machine_ok b.
Proof.
  intros Hr. unfold bus_new. case_if; [|done]. intros H. apply (inj Some) in H. subst b.
  unfold is_power_of_two in E. bools. constructor; cbn [ram epoch_source ram_mask low_ram uart uart_stderr uart_ctrl uart_data
    clint plic blk console net fs_devices].
  1: done. 1: lia. 1: by apply Forall_replicate.
  1-4: apply uart_new_wf.
  - apply clint_new_wf.
  - apply plic_new_wf.
  - done.
  - apply console_new_ok.
  - done.
  - constructor.
Qed.
End Machine.

(** A machine without directories, back end or tracer satisfies the laws. *)
Module NoDeviceLaws.
Import NoDevices.
#[export] Instance backend_laws : NetworkLaws unit.
Proof. refine {| backend_ok := fun _ => True |}; [by intros frame Hf [] _ | by intros [] _]. Defined.
#[export] Instance directory_laws : FsLaws Empty_set.
Proof. refine {| fs_ok := fun _ => True |}; [by intros [] | by intros [] | by intros [] | by intros i [[] v] _]. Defined.
#[export] Instance tracer_laws : TracerLaws Empty_set.
Proof. split; by intros. Defined.
End NoDeviceLaws.
