(* ===== verification/MachineRun.v ===== *)
(** The machine as a whole: what the front ends do with it, step by step.

    A front end alternates between advancing the clock, delivering input, polling
    the devices and running the hart ([native-cli/src/run_interactive.rs],
    [wasi-component/src/repl.rs]).  [machine_step] is one of these calls, in any
    order and with any argument; [machine_ok] and the invariant of the hart hold
    in every state they reach from a new machine. *)
From Stdlib Require Import Relations.
From S2P Require Import Prelude Words Wp Gpr Csr SystemBus BusLaws Mmu BlockCache BlockCacheProps Context Float CsrProps Run.
From S2P Require Import Invariant RunProps RamLaws CowRam CowRamProps Layout Clint Plic Uart.
From S2P Require Import Virtio VirtioProps VirtioConsole VirtioBlk VirtioNet VirtioInvariant MachineBus MachineRam MachineLaws.

Section MachineRun.
Context {LB : LoopBound} {FE : FloatEnv} {N F T : Type}.
Context {NB : NetworkBackend N} {FD : FsDevice F} {ST_ : TracesSyscalls T}.
Context {NL : NetworkLaws N} {FL : FsLaws F} {TL : TracerLaws T}.
Abbreviation Bus := (MachineBus N F T).

Definition on_clint (f : Clint -> Clint) (b : Bus) : Bus := b <| clint := f (clint b) |>.

Inductive machine_step : Hart * Bus -> Hart * Bus -> Prop :=
  | ms_instructions h b n : machine_step (h, b) (h, on_clint (advance_by_instructions n) b)
  | ms_nanos h b n : machine_step (h, b) (h, on_clint (advance_by_nanos n) b)
  | ms_forward h b : machine_step (h, b) (h, on_clint (fun c => (fast_forward_to_timer c).2) b)
  | ms_uart h b byte : is_u8 byte → machine_step (h, b) (h, b <| uart := push_rx byte (uart b) |>)
  | ms_uart_data h b byte : is_u8 byte → machine_step (h, b) (h, b <| uart_data := push_rx byte (uart_data b) |>)
  | ms_console h b byte :
      is_u8 byte → machine_step (h, b) (h, b <| console := console_push_rx byte (console b) |>)
  | ms_console_rx h b b' : flush_console_rx b = Some (tt, b') → machine_step (h, b) (h, b')
  | ms_console_tx h b : machine_step (h, b) (h, (drain_console_tx b).2)
  | ms_stdout h b : machine_step (h, b) (h, flush_console_to_stdout b)
  | ms_poll h b b' c : poll (b, hart_csr h) = Some (tt, (b', c)) → machine_step (h, b) (h <| hart_csr := c |>, b')
  | ms_wake h b : machine_step (h, b) (h <| hart_is_waiting := false |>, b)
  | ms_run s s' (stop_on_wfi : bool) max_steps r :
      is_u64 max_steps → with_hart (run_impl stop_on_wfi max_steps) s = Some (r, s') → machine_step s s'
  | ms_step s s' r : hart_step s = Some (r, s') → machine_step s s'.

(** ** Every step keeps the invariant *)

Lemma bus_put_wf h (b b' : Bus) : hart_wf (h, b) → machine_ok b' → hart_wf (h, b').
Proof. intros [] Hb. by split. Qed.

Lemma hart_bus h (b : Bus) : hart_wf (h, b) → machine_ok b.
Proof. by intros []. Qed.

Lemma on_clint_ok f b : (∀ c, clint_wf c → clint_wf (f c)) → machine_ok b → machine_ok (on_clint f b).
Proof. intros Hf []. split; try done. by apply Hf. Qed.

Lemma put_mip_wf mask level c : is_u64 mask → csr_wf c → csr_wf (put_mip mask level c).
Proof. intros Hm H. unfold put_mip. destruct level; destruct_csr_wf H; solve_csr_wf. Qed.

Lemma set_time_wf t c : is_u64 t → csr_wf c → csr_wf (c <| time := t |>).
Proof. intros Ht H. destruct_csr_wf H. solve_csr_wf. Qed.

Definition polled (s : Bus * Csr) : Prop := machine_ok s.1 ∧ csr_wf s.2.

Lemma poll_keeps : keeps True polled poll (fun _ => True).
Proof.
  unfold poll.
  eapply keeps_bind; [apply keeps_modify; intros [b c] [Hb Hc]; split; [done | apply set_time_wf; [apply Hb | done]]|]. intros _ _.
  eapply keeps_bind; [by apply (keeps_gets _ (fun _ => True))|]. intros status _.
  eapply keeps_bind; [apply keeps_modify; intros [b c] [Hb Hc]; split; [done | by apply put_mip_wf]|]. intros _ _.
  eapply keeps_bind; [apply keeps_modify; intros [b c] [Hb Hc]; split; [done | by apply put_mip_wf]|]. intros _ _.
  eapply keeps_bind; [apply keeps_modify; intros [b c] [[] Hc]; split; [by split | done]|]. intros _ _.
  apply (keeps_bind _ _ (fun _ => True)).
  - apply (keeps_zoom machine_ok); [|by intros s []|by intros s b [_ Hc] Hb].
    intros b Hb. apply wp_bind, wp_gets. destruct (net b) as [n|] eqn:En; [|by split].
    refine (with_view_keeps net_ok _ _ _ (fun _ => True) _ _ poll_rx_keeps b Hb).
    + intros. exact (mo_net b Hb n En).
    + intros n' b' [] Hn. split; try done. cbn. by intros ? [= <-].
  - intros _ _. eapply keeps_bind.
    + apply (keeps_zoom machine_ok); [apply at_ok, refresh_keeps | by intros s [] | by intros s b [_ Hc] Hb].
    + intros e _. apply keeps_modify. intros [b c] [Hb Hc]. split; [done | by apply put_mip_wf].
Qed.

Lemma flush_console_rx_keeps : keeps True (machine_ok : Bus -> Prop) flush_console_rx (fun _ => True).
Proof.
  apply (with_view_keeps console_ok); [by intros b [] | intros c b [] Hc; by split | apply flush_rx_keeps].
Qed.

Lemma machine_step_wf (s s' : Hart * Bus) : machine_step s s' → hart_wf s → hart_wf s'.
Proof.
  intros [h b n|h b n|h b|h b byte Hby|h b byte Hby|h b byte Hby|h b b' E|h b|h b|h b b' c E|h b|? ? stop n r Hn E|? ? r E] Hs.
  - apply (bus_put_wf h b); [done|]. apply on_clint_ok; [apply advance_instructions_wf | by eapply hart_bus].
  - apply (bus_put_wf h b); [done|]. apply on_clint_ok; [apply advance_nanos_wf | by eapply hart_bus].
  - apply (bus_put_wf h b); [done|]. apply on_clint_ok; [apply fast_forward_wf | by eapply hart_bus].
  - apply (bus_put_wf h b); [done|]. pose proof (hart_bus _ _ Hs) as Hb.
    apply (uart_put_ok b _ Hb). apply push_rx_wf; [done | apply Hb].
  - apply (bus_put_wf h b); [done|]. pose proof (hart_bus _ _ Hs) as Hb.
    apply (uart_put_ok b _ Hb). apply push_rx_wf; [done | apply Hb].
  - apply (bus_put_wf h b); [done|]. destruct (hart_bus _ _ Hs) as []. split; try done.
    destruct mo_console as (H1 & H2 & H3). split; [done|]. split; [|done]. cbn. apply Forall_app. split; [done|].
    by constructor.
  - apply (bus_put_wf h b); [done|]. exact (proj2 (wp_elim _ _ _ _ _ (flush_console_rx_keeps b (hart_bus _ _ Hs)) E)).
  - apply (bus_put_wf h b); [done|]. destruct (hart_bus _ _ Hs) as []. split; try done.
    destruct mo_console as (H1 & H2 & H3). by repeat (split; [done|]).
  - apply (bus_put_wf h b); [done|]. destruct (hart_bus _ _ Hs) as []. split; try done.
    destruct mo_console as (H1 & H2 & H3). by repeat (split; [done|]).
  - assert (Hp : polled (b, hart_csr h)) by (split; [by eapply hart_bus | apply Hs]).
    destruct (wp_elim _ _ _ _ _ (poll_keeps _ Hp) E) as [_ [Hb Hc]]. destruct Hs. by split.
  - destruct Hs. by split.
  - exact (proj2 (wp_elim _ _ _ _ _ (with_hart_wp _ (fun r => ∃ res, r = Some res) _ (run_impl_spec stop n _ Hs Hn)) E)).
  - exact (proj2 (wp_elim _ _ _ _ _ (with_hart_wp _ step_ok _ (step_keeps _ Hs)) E)).
Qed.

(** ** Reachable states *)

(** Whatever a front end does with a new machine — clock, input, polling,
    any amount of running, in any order — the machine stays well formed as long as
    it does not panic: registers and CSRs in range with [x0] zero, pc even, host
    pages and cached code consistent, RAM, timer, interrupt controller, serial
    ports and virtio devices in range. *)
Theorem machine_reachable_wf entry ram_size r source (b : Bus) s :
  is_u64 entry → even entry → ram_inv (r, source) → bus_new ram_size r source = Some b →
  rtc machine_step (hart_new entry, b) s →
  ctx_wf (hart_ctx s.1 s.2) ∧ machine_ok s.2.
Proof.
  intros He Hev Hr Hb Hreach.
  assert (H0 : hart_wf (hart_new entry, b)) by (apply hart_new_wf; [done|done|by eapply bus_new_ok]).
  assert (Hs : hart_wf s).
  { clear -Hreach H0. induction Hreach as [|s1 s2 s3 Hstep _ IH]; [done|]. by eapply IH, machine_step_wf. }
  split; [done|]. destruct s. by eapply hart_bus.
Qed.
End MachineRun.

(** ** A concrete run *)

Section NoDevicesRun.
Import NoDevices NoDeviceLaws.

Definition demo_run (b : MachineBus unit Empty_set Empty_set) :=
  with_hart (run_impl (FE := env_zero) false 4) (hart_new 0x80000000, on_clint (advance_by_instructions 100) b).

Lemma demo_runs :
  match bus_new 4096 demo_ram 5 with
  | Some b => match demo_run b with Some _ => true | None => false end
  | None => false
  end = true.
Proof. vm_compute. reflexivity. Qed.

Lemma machine_reachable_wf_witness :
  ∃ b r s, bus_new 4096 demo_ram 5 = Some b ∧ demo_run b = Some (r, s) ∧ ctx_wf (hart_ctx s.1 s.2).
Proof.
  pose proof demo_runs as Hrun.
  destruct (bus_new 4096 demo_ram 5) as [b|] eqn:Eb; [|done]. destruct (demo_run b) as [[r s]|] eqn:E; [|done].
  exists b, r, s. split; [done|]. split; [done|].
  refine (proj1 (machine_reachable_wf (FE := env_zero) 0x80000000 4096 demo_ram 5 b s _ _ _ Eb _)); [done | done | |].
  - split; [apply demo_ram_wf|]. by split.
  - eapply rtc_l; [apply ms_instructions|]. eapply rtc_l; [|apply rtc_refl]. by apply (ms_run _ _ false 4 r).
Defined.
End NoDevicesRun.
