(* ===== verification/Snapshot.v ===== *)
(** Snapshots of a machine ([machine/src/snapshot.rs]).

    [save] writes the machine to a byte stream, [restore] reads it into another
    machine of the same shape; [save_delta] and [restore_delta] do the same with
    only the pages written since the base image.  A write to a buffer does not
    fail; [None] is a panic.  [read_exact] leaves nothing behind when it fails, so
    the reads whose error is ignored ([is_ok], [let _ =]) go on with an empty
    stream. *)
From S2P Require Import Prelude Words Wp Gpr Csr SystemBus BusLaws Mmu BlockCache Context CsrProps Run.
From S2P Require Import Invariant RamLaws Io CowRam CowRamProps Layout Clint Plic Uart Virtio VirtioProps.
From S2P Require Import VirtioConsole VirtioBlk VirtioNet VirtioInvariant MachineBus MachineRam MachineLaws.

Definition MAGIC : list Z := [0x56; 0x50; 0x4f; 0x44].
Definition SNAPSHOT_VERSION : Z := 1.
Definition FLAG_SHELL_READY : Z := Z.shiftl 1 0.
Definition FLAG_PYTHON_READY : Z := Z.shiftl 1 1.
Definition DELTA_MAGIC : list Z := [0x56; 0x44; 0x4c; 0x54].
Definition DELTA_VERSION : Z := 1.

(** ** CSRs and hart *)

Definition save_csr (c : Csr) : list Z :=
  mjoin (map (to_le_bytes 8)
    ([mstatus c; misa c; medeleg c; mideleg c; mie c; mtvec c; mcounteren c; mcountinhibit c;
      mscratch c; mepc c; mcause c; mtval c; mip c; menvcfg c; stvec c; scounteren c; senvcfg c;
      sscratch c; sepc c; scause c; stval c; satp c; cycle c; instret c; time c; fcsr c]
     ++ pmpcfg c ++ pmpaddr c ++ mhpmevent c)).

(** [for value in array.iter_mut() { *value = ... }], from index [k] on. *)
Fixpoint restore_array {S} (put : nat -> Z -> S -> S) (n k : nat) : Decoder S unit :=
  match n with
  | O => mret (Ok tt)
  | S n => v ←? read_le 8; assign (put k v);;? restore_array put n (Datatypes.S k)
  end.

(** The loop over an array that is part of the object. *)
Definition restore_list {S} (get : S -> list Z) (put : list Z -> S -> S) : Decoder S unit := fun s =>
  restore_array (fun k v s => put (<[k := v]> (get s)) s) (length (get s.1)) 0 s.

Definition restore_csr : Decoder Csr unit :=
  v ←? read_le 8; assign (fun c => c <| mstatus := v |>);;?
  v ←? read_le 8; assign (fun c => c <| misa := v |>);;?
  v ←? read_le 8; assign (fun c => c <| medeleg := v |>);;?
  v ←? read_le 8; assign (fun c => c <| mideleg := v |>);;?
  v ←? read_le 8; assign (fun c => c <| mie := v |>);;?
  v ←? read_le 8; assign (fun c => c <| mtvec := v |>);;?
  v ←? read_le 8; assign (fun c => c <| mcounteren := v |>);;?
  v ←? read_le 8; assign (fun c => c <| mcountinhibit := v |>);;?
  v ←? read_le 8; assign (fun c => c <| mscratch := v |>);;?
  v ←? read_le 8; assign (fun c => c <| mepc := v |>);;?
  v ←? read_le 8; assign (fun c => c <| mcause := v |>);;?
  v ←? read_le 8; assign (fun c => c <| mtval := v |>);;?
  v ←? read_le 8; assign (fun c => c <| mip := v |>);;?
  v ←? read_le 8; assign (fun c => c <| menvcfg := v |>);;?
  v ←? read_le 8; assign (fun c => c <| stvec := v |>);;?
  v ←? read_le 8; assign (fun c => c <| scounteren := v |>);;?
  v ←? read_le 8; assign (fun c => c <| senvcfg := v |>);;?
  v ←? read_le 8; assign (fun c => c <| sscratch := v |>);;?
  v ←? read_le 8; assign (fun c => c <| sepc := v |>);;?
  v ←? read_le 8; assign (fun c => c <| scause := v |>);;?
  v ←? read_le 8; assign (fun c => c <| stval := v |>);;?
  v ←? read_le 8; assign (fun c => c <| satp := v |>);;?
  v ←? read_le 8; assign (fun c => c <| cycle := v |>);;?
  v ←? read_le 8; assign (fun c => c <| instret := v |>);;?
  v ←? read_le 8; assign (fun c => c <| time := v |>);;?
  v ←? read_le 8; assign (fun c => c <| fcsr := v |>);;?
  restore_list pmpcfg (fun l c => c <| pmpcfg := l |>);;?
  restore_list pmpaddr (fun l c => c <| pmpaddr := l |>);;?
  restore_list mhpmevent (fun l c => c <| mhpmevent := l |>).

Definition privilege_byte (m : PrivMode) : Z := match m with PrivU => 0 | PrivS => 1 | PrivM => 3 end.

Definition save_lr (lr_addr : option Z) : list Z :=
  match lr_addr with None => [0] | Some address => [1] ++ to_le_bytes 8 address end.

Definition save_hart (h : Hart) : list Z :=
  mjoin (map (fun i => to_le_bytes 8 (gpr_read (Z.of_nat i) (hart_regs h))) (seq 0 32))
  ++ to_le_bytes 8 (pc (hart_regs h))
  ++ mjoin (map (fun i => to_le_bytes 8 (read_f (Z.of_nat i) (hart_regs h))) (seq 0 32))
  ++ [privilege_byte (hart_priv_mode h)]
  ++ save_lr (hart_lr_addr h)
  ++ to_le_bytes 8 U64_MAX ++ to_le_bytes 8 0 ++ to_le_bytes 8 U64_MAX
  ++ save_csr (hart_csr h).

Definition restore_lr : Decoder Hart unit :=
  b ←? read_le 1;
  if b =? 0 then assign (fun h => h <| hart_lr_addr := None |>)
  else v ←? read_le 8; assign (fun h => h <| hart_lr_addr := Some v |>).

Definition restore_hart : Decoder Hart unit :=
  restore_array (fun k v h => h <| hart_regs := gpr_write (Z.of_nat k) v (hart_regs h) |>) 32 0;;?
  v ←? read_le 8; assign (fun h => h <| hart_regs := (hart_regs h) <| pc := v |> |>);;?
  restore_array (fun k v h => h <| hart_regs := write_f (Z.of_nat k) v (hart_regs h) |>) 32 0;;?
  m ←? read_le 1;
  assign (fun h => h <| hart_priv_mode := if m =? 0 then PrivU else if m =? 1 then PrivS else PrivM |>);;?
  restore_lr;;?
  vpage ←? read_le 8;
  ppage ←? read_le 8;
  satp ←? read_le 8;
  assign (fun h => h <| hart_fetch_tlb := fetch_tlb_flush (hart_fetch_tlb h) |>);;?
  assign (fun h => if vpage =? U64_MAX then h
                   else h <| hart_fetch_tlb := fetch_tlb_insert vpage ppage satp (hart_fetch_tlb h) |>);;?
  assign invalidate_icache;;?
  zoom_decoder hart_csr (fun c h => h <| hart_csr := c |>) restore_csr.

(** ** Devices *)

Section Snapshot.
Context {LB : LoopBound} {N F T : Type} {NB : NetworkBackend N} {FD : FsDevice F} {ST_ : TracesSyscalls T}.
Abbreviation Bus := (MachineBus N F T).

(** Everything behind RAM, the same in a snapshot and in a delta. *)
Definition save_devices (b : Bus) (h : Hart) : list Z :=
  low_ram b ++ save_hart h
  ++ clint_serialize (clint b) ++ save_state (plic b) ++ uart_serialize (uart b)
  ++ mmio_serialize (console_mmio (console b))
  ++ (match net b with Some n => [1] ++ mmio_serialize (net_mmio n) | None => [0] end)
  ++ [as_u8 (Z.of_nat (length (fs_devices b)))]
  ++ mjoin (map (fun f => mmio_serialize (fs_mmio f)) (fs_devices b))
  ++ uart_serialize (uart_stderr b) ++ uart_serialize (uart_ctrl b) ++ uart_serialize (uart_data b).

Definition save (b : Bus) (h : Hart) (flags : option Z) : option (list Z) :=
  ram_bytes ← write_all_to (ram b);
  Some (MAGIC ++ [SNAPSHOT_VERSION] ++ [default 0 flags] ++ to_le_bytes 8 (bus_ram_size b)
        ++ ram_bytes ++ save_devices b h).

Abbreviation Restore := (Decoder (Bus * Hart)).

Definition part {D A} (get : Bus -> D) (put : D -> Bus -> Bus) (m : Decoder D A) : Restore A :=
  zoom_decoder (fun s => get s.1) (fun d s => (put d s.1, s.2)) m.

(** [let mut skip = VirtioMmio::new(0, 0, 2); skip.deserialize(reader)?] *)
Definition skip_mmio : Restore unit := zoom_decoder (fun _ => mmio_new 0 0 2) (fun _ s => s) mmio_deserialize.

Definition restore_net_registers : Restore unit := fun s =>
  match net s.1.1 with
  | Some n => part (fun _ => net_mmio n) (fun m b => b <| net := Some (set_net_mmio m n) |>) mmio_deserialize s
  | None => skip_mmio s
  end.

Definition restore_net : Restore unit :=
  has_net ←? read_le 1;
  if has_net =? 0 then mret (Ok tt) else restore_net_registers.

Definition restore_fs_device (i : nat) : Restore unit := fun s =>
  match fs_devices s.1.1 !! i with
  | Some f =>
      part (fun _ => fs_mmio f) (fun m b => b <| fs_devices := <[i := set_fs_mmio m f]> (fs_devices b) |>)
        mmio_deserialize s
  | None => skip_mmio s
  end.

Fixpoint restore_fs (n i : nat) : Restore unit :=
  match n with
  | O => mret (Ok tt)
  | S n => restore_fs_device i;;? restore_fs n (Datatypes.S i)
  end.

(** [let _ = ...]: the error, not the state, is dropped. *)
Definition ignore {S A} (m : Decoder S A) : Decoder S unit := fun s =>
  match m s with Some (_, s') => Some (Ok tt, s') | None => None end.

(** [if reader.read_exact(..).is_ok() { .. }] *)
Definition if_ok {S A} (m : Decoder S A) (k : A -> Decoder S unit) : Decoder S unit := fun s =>
  match m s with
  | Some (Ok a, s') => k a s'
  | Some (Err _, s') => Some (Ok tt, s')
  | None => None
  end.

Definition restore_devices : Restore unit :=
  low ←? read_exact (Z.to_nat LOW_RAM_SIZE);
  assign (fun s => (s.1 <| low_ram := low |>, s.2));;?
  zoom_decoder snd (fun h s => (s.1, h)) restore_hart;;?
  part clint (fun c b => b <| clint := c |>) clint_deserialize;;?
  part plic (fun p b => b <| plic := p |>) restore_state;;?
  part uart (fun u b => b <| uart := u |>) uart_deserialize;;?
  part (fun b => console_mmio (console b)) (fun m b => b <| console := set_console_mmio m (console b) |>) mmio_deserialize;;?
  restore_net;;?
  if_ok (read_le 1) (fun num_fs => restore_fs (Z.to_nat num_fs) 0);;?
  ignore (part uart_stderr (fun u b => b <| uart_stderr := u |>) uart_deserialize);;?
  ignore (part uart_ctrl (fun u b => b <| uart_ctrl := u |>) uart_deserialize);;?
  ignore (part uart_data (fun u b => b <| uart_data := u |>) uart_deserialize).

(** The checks of [magic] and [version]. *)
Definition expect {S} (bytes : list Z) : Decoder S unit :=
  found ←? read_exact (length bytes);
  if bool_decide (found = bytes) then mret (Ok tt) else failure InvalidData.

(** Code on the RAM inside a restore. *)
Definition restore_ram (m : ST (CowRam * Z) unit) : Restore unit := fun s =>
  match bus_ram m s.1.1 with Some (_, b) => Some (Ok tt, ((b, s.1.2), s.2)) | None => None end.

Definition restore : Restore Z :=
  expect MAGIC;;?
  expect [SNAPSHOT_VERSION];;?
  flags ←? read_le 1;
  ram_size ←? read_le 8;
  (fun s =>
     if negb (ram_size =? bus_ram_size s.1.1) then failure InvalidData s
     else
       (bytes ←? read_exact (Z.to_nat ram_size);
        restore_ram (set_base (bytes ++ replicate (Z.to_nat (padded_len ram_size) - Z.to_nat ram_size) 0));;?
        restore_devices;;?
        mret (Ok flags)) s).

(** [load_base_and_tail]: the RAM as a new copy-on-write base, and the rest of the
    snapshot for [restore_devices].  The object is the epoch counter. *)
Definition load_base_and_tail : Decoder Z (CowRam * list Z * Z) :=
  expect MAGIC;;?
  expect [SNAPSHOT_VERSION];;?
  flags ←? read_le 1;
  logical_len ←? read_le 8;
  let real_size := wrapping_sub64 logical_len 8 in
  bytes ←? read_exact (Z.to_nat logical_len);
  (fun s =>
     match from_padded (bytes ++ replicate (Z.to_nat (padded_len logical_len) - Z.to_nat logical_len) 0)
             logical_len real_size s.1 with
     | Some (cow, source) => Some (Ok (cow, s.2, flags), (source, []))
     | None => None
     end).

(** ** Deltas *)

Definition bus_dirty_pages (b : Bus) : list Z := dirty_pages (ram b).

Fixpoint save_pages (pages : list Z) (r : CowRam) : option (list Z) :=
  match pages with
  | [] => Some []
  | page :: pages =>
      bytes ← page_bytes page r;
      rest ← save_pages pages r;
      Some (to_le_bytes 4 page ++ bytes ++ rest)
  end.

Definition save_delta (b : Bus) (h : Hart) : option (list Z) :=
  let pages := bus_dirty_pages b in
  saved ← save_pages pages (ram b);
  Some (DELTA_MAGIC ++ [DELTA_VERSION] ++ to_le_bytes 4 (Z.of_nat (length pages)) ++ saved ++ save_devices b h).

Fixpoint restore_pages (n : nat) : Restore unit :=
  match n with
  | O => mret (Ok tt)
  | S n =>
      page ←? read_le 4;
      bytes ←? read_exact (Z.to_nat PAGE_SIZE);
      restore_ram (apply_page page bytes);;?
      restore_pages n
  end.

Definition restore_delta : Restore unit :=
  expect DELTA_MAGIC;;?
  expect [DELTA_VERSION];;?
  page_count ←? read_le 4;
  restore_pages (Z.to_nat page_count);;?
  restore_devices.
End Snapshot.

(** * Properties

    Snapshots restore what was saved, and reject what is not a snapshot. *)

(** ** Arrays *)

Section Arrays.
Context {S : Type}.

(** What the loop of [restore_array] does to the object. *)
Fixpoint array_put (put : nat -> Z -> S -> S) (k : nat) (vs : list Z) (s : S) : S :=
  match vs with
  | [] => s
  | v :: vs => array_put put (Datatypes.S k) vs (put k v s)
  end.

Definition words_le (vs : list Z) : list Z := mjoin (map (to_le_bytes 8) vs).

Lemma words_le_app vs ws : words_le (vs ++ ws) = words_le vs ++ words_le ws.
Proof. unfold words_le. by rewrite map_app, join_app. Qed.

Lemma words_le_cons v vs : words_le (v :: vs) = to_le_bytes 8 v ++ words_le vs.
Proof. done. Qed.
Lemma save_words vs : mjoin (map (to_le_bytes 8) vs) = words_le vs.
Proof. done. Qed.

Lemma decodes_array put vs k s :
  Forall is_u64 vs → decodes (restore_array put (length vs) k) s (words_le vs) tt (array_put put k vs s).
Proof.
  revert k s. induction vs as [|v vs IH]; intros k s Hvs; [apply decodes_ret|].
  apply list.Forall_cons in Hvs as [Hv Hvs]. cbn -[to_le_bytes].
  eapply (decodes_field 8 _ (put k)); [done|]. by apply IH.
Qed.

End Arrays.

Lemma insert_array l k vs :
  length l = (k + length vs)%nat → array_put (fun k v l => <[k := v]> l) k vs l = take k l ++ vs.
Proof.
  revert k l. induction vs as [|v vs IH]; intros k l Hl; cbn [array_put].
  - rewrite app_nil_r, take_ge; [done | cbn in Hl; lia].
  - cbn in Hl. rewrite IH by (rewrite length_insert; lia).
    rewrite (take_S_r _ _ v) by (rewrite list_lookup_insert_eq; [done|lia]).
    rewrite take_insert_ge by lia. by rewrite <- app_assoc.
Qed.

(** An array inside an object. *)
Lemma array_in {S T} (get : S -> T) (put : T -> S -> S) (f : nat -> Z -> T -> T) k vs s :
  (∀ a s, get (put a s) = a) → (∀ a a' s, put a (put a' s) = put a s) → (∀ s, put (get s) s = s) →
  array_put (fun k v s => put (f k v (get s)) s) k vs s = put (array_put f k vs (get s)) s.
Proof.
  intros H1 H2 H3. revert k s. induction vs as [|v vs IH]; intros k s; cbn; [by rewrite H3|].
  by rewrite IH, H1, H2.
Qed.

Lemma decodes_list {S} (get : S -> list Z) put vs s :
  (∀ a s, get (put a s) = a) → (∀ a a' s, put a (put a' s) = put a s) → (∀ s, put (get s) s = s) →
  Forall is_u64 vs → length (get s) = length vs →
  decodes (restore_list get put) s (words_le vs) tt (put vs s).
Proof.
  intros H1 H2 H3 Hvs Hl rest. unfold restore_list. cbn [fst]. rewrite Hl.
  rewrite (decodes_array _ vs 0 s Hvs rest), (array_in get put (fun k v l => <[k := v]> l)) by done.
  by rewrite insert_array.
Qed.

(** ** CSRs *)

Lemma csr_round_trip c c0 : csr_wf c → csr_wf c0 → decodes restore_csr c0 (save_csr c) tt (c <| hart_id := hart_id c0 |>).
Proof.
  intros H H0. assert (Hm : is_u64 (mstatus c)) by apply H. pose proof (wf_scalars c H) as Hs.
  assert (Hf : is_u64 (fcsr c)) by (apply (is_word_mono 8); [lia | apply H]).
  destruct (wf_pmpcfg c H) as [L1 W1], (wf_pmpaddr c H) as [L2 W2], (wf_mhpmevent c H) as [L3 W3].
  destruct (wf_pmpcfg c0 H0) as [L1' _], (wf_pmpaddr c0 H0) as [L2' _], (wf_mhpmevent c0 H0) as [L3' _].
  repeat (apply list.Forall_cons in Hs as [? Hs]).
  unfold save_csr. rewrite save_words, !words_le_app, !words_le_cons, <- !app_assoc. change (words_le []) with (@nil Z).
  rewrite app_nil_l. unfold restore_csr.
  do 26 (eapply decodes_field; [assumption|]).
  eapply decodes_bind; [apply decodes_list; try done; [by intros []|by rewrite L1]|].
  eapply decodes_bind; [apply decodes_list; try done; [by intros []|by rewrite L2]|].
  eapply decodes_to; [apply decodes_list; try done; [by intros []|by rewrite L3]|]. by destruct c.
Qed.

(** ** Pages *)

Lemma paged_inj w ls ls' : paged w ls → paged w ls' → length ls = length ls' → mjoin ls = mjoin ls' → ls = ls'.
Proof.
  intros H. revert ls'. induction H as [|p ls Hp _ IH]; intros ls' H' Hl E; [by destruct ls'|].
  destruct ls' as [|p' ls']; [done|]. apply list.Forall_cons in H' as [Hp' H']. cbn in E.
  apply app_inj_1 in E as [-> E]; [|congruence]. f_equal. apply IH; [done|by injection Hl|done].
Qed.

Lemma dirty_pages_spec r :
  Z.of_nat (length (cow_pages r)) < 2 ^ 32 →
  ∃ ks : list nat, dirty_pages r = map Z.of_nat ks ∧ (length ks <= length (cow_pages r))%nat ∧
    ∀ k, k ∈ ks ↔ ∃ p, cow_pages r !! k = Some (Some p).
Proof.
  intros Hn. set (l := filter (fun ip : nat * option (list Z) => is_Some ip.2) (zip (seq 0 (length (cow_pages r))) (cow_pages r))).
  assert (Hin : ∀ k o, (k, o) ∈ l ↔ is_Some o ∧ cow_pages r !! k = Some o).
  { intros k o. unfold l. rewrite list_elem_of_filter, elem_of_lookup_zip_with. cbn. split.
    - intros (Ho & i & x & y & [= <- <-] & Hx & Hy). apply lookup_seq in Hx as [-> _]. done.
    - intros [Ho Hk]. split; [done|]. exists k, k, o. split; [done|]. split; [|done].
      apply lookup_seq. split; [done|]. by eapply lookup_lt_Some. }
  exists (map fst l). split; [|split].
  - unfold dirty_pages. fold l. rewrite map_map. apply map_ext_in. intros [k o] Hk.
    apply list_elem_of_In, Hin in Hk as [_ Hk]. apply lookup_lt_Some in Hk. cbn. apply wrap_id. unfold is_word. lia.
  - rewrite length_map. etransitivity; [apply length_filter|]. rewrite length_zip_with, length_seq. lia.
  - intros k. rewrite list_elem_of_fmap. split.
    + intros ([k' o] & -> & [[p ->] Hk]%Hin). eauto.
    + intros [p Hk]. exists (k, Some p). split; [done|]. apply Hin. eauto.
Qed.

(** The pages [ks] of [ls] copied into [ls0]. *)
Definition copy_pages (ls : list (list Z)) (ks : list nat) (ls0 : list (list Z)) : list (list Z) :=
  foldl (fun l k => <[k := ls !!! k]> l) ls0 ks.

Lemma copy_pages_lookup ls ks ls0 i :
  (i < length ls0)%nat → copy_pages ls ks ls0 !! i = if decide (i ∈ ks) then Some (ls !!! i) else ls0 !! i.
Proof.
  revert ls0. induction ks as [|k ks IH]; intros ls0 Hi; unfold copy_pages; cbn [foldl].
  { rewrite decide_False; [done|]. apply not_elem_of_nil. }
  fold (copy_pages ls ks (<[k := ls !!! k]> ls0)). rewrite IH by (by rewrite length_insert).
  destruct (decide (i ∈ ks)) as [Hin|Hout]; [rewrite decide_True; [done|by right]|].
  destruct (decide (i = k)) as [->|Hne].
  - rewrite decide_True by left. by rewrite list_lookup_insert_eq.
  - rewrite decide_False by (by intros [?|?]%elem_of_cons). by rewrite list_lookup_insert_ne.
Qed.

(** Writing a whole page. *)
Lemma apply_page_view k bytes r source :
  cow_wf r → is_u64 source → (k < length (cow_pages r))%nat → length bytes = page_nat → Forall is_u8 bytes →
  ∃ r' source', apply_page (Z.of_nat k) bytes (r, source) = Some (tt, (r', source')) ∧ cow_wf r' ∧
    cow_view r' = <[k := bytes]> (cow_view r) ∧ written r r' source source'.
Proof.
  intros Hr Hs Hk Hl Hb. pose proof page_nat_Z as Hp.
  pose proof (update_page_spec (Z.of_nat k) 0 bytes r source Hr ltac:(lia) ltac:(lia) ltac:(lia) Hs Hb) as H.
  rewrite page_ref_view, Nat2Z.id in H by (done || lia).
  destruct (cow_view r !! k) as [p|] eqn:Ep.
  2: { apply lookup_ge_None in Ep. unfold cow_view in Ep. rewrite length_imap in Ep. lia. }
  destruct H as (r' & s' & E & Hr' & Hput & Hw). exists r', s'. split; [done|]. split; [done|]. split; [|done].
  assert (Hpl : length p = page_nat) by exact (Forall_lookup_1 _ _ _ _ (view_paged r Hr) Ep).
  assert (Hsp : slice_put p 0 bytes = Some bytes).
  { unfold slice_put. rewrite Hpl, Hl. replace (_ && _) with true by (symmetry; apply andb_true_intro; split; apply Z.leb_le; lia).
    f_equal. cbn. by rewrite (drop_ge p), app_nil_r by lia. }
  pose proof (paged_put page_nat (cow_view r) k p bytes 0 bytes (view_paged r Hr) Ep ltac:(lia) ltac:(lia) Hsp) as Hv.
  rewrite Hp in Hv. unfold cow_flat in Hput. rewrite Hv in Hput. injection Hput as Ej.
  apply (paged_inj page_nat); [by apply view_paged | | |done].
  - apply Forall_insert; [by apply view_paged | done].
  - rewrite length_insert. unfold cow_view. rewrite !length_imap. apply Hw.
Qed.

(** ** The hart *)

Lemma saved_regs g : gpr_wf g →
  mjoin (map (fun i => to_le_bytes 8 (gpr_read (Z.of_nat i) g)) (seq 0 32)) = words_le (x g).
Proof.
  intros H. unfold words_le. rewrite <- (map_map (fun i => gpr_read (Z.of_nat i) g)). do 2 f_equal.
  apply list_eq. intros i. rewrite list_lookup_fmap. destruct (decide (i < 32)%nat) as [Hi|Hi].
  - rewrite lookup_seq_lt by done. cbn. destruct (lookup_lt_is_Some_2 (x g) i) as [v Hv]; [rewrite (wf_x_length g H); lia|].
    rewrite Hv. f_equal. unfold gpr_read. case_if; bools.
    + replace i with 0%nat in Hv by lia. rewrite (wf_x0 g H) in Hv. by injection Hv.
    + rewrite Nat2Z.id. by apply list_lookup_total_correct.
  - rewrite lookup_seq_ge by lia. cbn. symmetry. apply lookup_ge_None. rewrite (wf_x_length g H). lia.
Qed.

Lemma saved_fregs g : gpr_wf g →
  mjoin (map (fun i => to_le_bytes 8 (read_f (Z.of_nat i) g)) (seq 0 32)) = words_le (f g).
Proof.
  intros H. unfold words_le. rewrite <- (map_map (fun i => read_f (Z.of_nat i) g)). do 2 f_equal.
  apply list_eq. intros i. rewrite list_lookup_fmap. destruct (decide (i < 32)%nat) as [Hi|Hi].
  - rewrite lookup_seq_lt by done. cbn. destruct (lookup_lt_is_Some_2 (f g) i) as [v Hv]; [rewrite (wf_f_length g H); lia|].
    rewrite Hv. f_equal. unfold read_f. rewrite Nat2Z.id. by apply list_lookup_total_correct.
  - rewrite lookup_seq_ge by lia. cbn. symmetry. apply lookup_ge_None. rewrite (wf_f_length g H). lia.
Qed.

Lemma regs_put_from k vs g :
  (0 < k)%nat → array_put (fun k v g => gpr_write (Z.of_nat k) v g) k vs g
  = g <| x := array_put (fun k v l => <[k := v]> l) k vs (x g) |>.
Proof.
  revert k g. induction vs as [|v vs IH]; intros k g Hk; cbn [array_put]; [by destruct g|].
  rewrite IH by lia. unfold gpr_write. replace (negb _) with true by (symmetry; apply negb_true_iff; lia).
  by rewrite Nat2Z.id.
Qed.

Lemma regs_put g g0 : gpr_wf g → gpr_wf g0 →
  array_put (fun k v g => gpr_write (Z.of_nat k) v g) 0 (x g) g0 = g0 <| x := x g |>.
Proof.
  intros H H0. pose proof (wf_x_length g H) as L. pose proof (wf_x_length g0 H0) as L0.
  destruct (x g) as [|v xs] eqn:E; [done|]. cbn [array_put].
  assert (v = 0) as -> by (pose proof (wf_x0 g H) as Hx; rewrite E in Hx; by injection Hx).
  change (gpr_write (Z.of_nat 0) 0 g0) with g0. rewrite regs_put_from, insert_array by (cbn in *; lia).
  f_equal. pose proof (wf_x0 g0 H0) as Hx. destruct (x g0) as [|w ys]; [done|]. cbn in *. by injection Hx as ->.
Qed.

Lemma fregs_put vs g :
  length (f g) = length vs → array_put (fun k v g => write_f (Z.of_nat k) v g) 0 vs g = g <| f := vs |>.
Proof.
  intros Hl. assert (E : ∀ k g, array_put (fun k v g => write_f (Z.of_nat k) v g) k vs g
    = array_put (fun k v g => g <| f := <[k := v]> (f g) |>) k vs g).
  { clear Hl. induction vs as [|v vs IH]; intros k g'; [done|]. cbn. unfold write_f at 2. by rewrite IH, Nat2Z.id. }
  rewrite E. rewrite (array_in f (fun l g => g <| f := l |>) (fun k v l => <[k := v]> l)) by (done || by intros []).
  by rewrite insert_array.
Qed.

(** The hart a snapshot of [h] gives, restored into [h0]: code and fetch caches are
    empty, what is not saved (the TLB among it) is [h0]'s. *)
Definition restored_hart (h h0 : Hart) : Hart :=
  (invalidate_icache h0) <| hart_regs := hart_regs h |> <| hart_priv_mode := hart_priv_mode h |>
    <| hart_lr_addr := hart_lr_addr h |> <| hart_fetch_tlb := fetch_tlb_flush (hart_fetch_tlb h0) |>
    <| hart_csr := (hart_csr h) <| hart_id := hart_id (hart_csr h0) |> |>.

Definition hart_saved_wf (h : Hart) : Prop :=
  gpr_wf (hart_regs h) ∧ csr_wf (hart_csr h) ∧ ∀ a, hart_lr_addr h = Some a → is_u64 a.

Lemma lr_round_trip lr h :
  (∀ a, lr = Some a → is_u64 a) → decodes restore_lr h (save_lr lr) tt (h <| hart_lr_addr := lr |>).
Proof.
  intros Hlr. unfold restore_lr, save_lr. destruct lr as [a|].
  - eapply decodes_bind; [apply (decodes_le 1 1); done|].
    apply (decodes_last_field 8 a (fun v h => h <| hart_lr_addr := Some v |>)). by apply Hlr.
  - rewrite <- (app_nil_r [0]). eapply decodes_bind; [apply (decodes_le 1 0); done | apply decodes_assign].
Qed.

Lemma hart_round_trip h h0 :
  hart_saved_wf h → hart_saved_wf h0 → decodes restore_hart h0 (save_hart h) tt (restored_hart h h0).
Proof.
  intros (Hg & Hc & Hlr) (Hg0 & Hc0 & _). unfold restore_hart, save_hart. rewrite saved_regs, saved_fregs by done.
  eapply decodes_bind. { rewrite <- (wf_x_length _ Hg). apply decodes_array, Hg. }
  rewrite (array_in hart_regs (fun g h => h <| hart_regs := g |>) (fun k v g => gpr_write (Z.of_nat k) v g)) by (done || by intros []).
  rewrite regs_put by done. eapply (decodes_field 8 _ (fun v h => h <| hart_regs := (hart_regs h) <| pc := v |> |>)); [apply Hg|].
  eapply decodes_bind. { rewrite <- (wf_f_length _ Hg). apply decodes_array, Hg. }
  rewrite (array_in hart_regs (fun g h => h <| hart_regs := g |>) (fun k v g => write_f (Z.of_nat k) v g)) by (done || by intros []).
  rewrite fregs_put by (cbn; by rewrite (wf_f_length _ Hg), (wf_f_length _ Hg0)).
  assert (Ep : [privilege_byte (hart_priv_mode h)] = to_le_bytes 1 (privilege_byte (hart_priv_mode h))) by (by destruct (hart_priv_mode h)).
  rewrite Ep. eapply (decodes_field 1 _ (fun m h => h <| hart_priv_mode := if m =? 0 then PrivU else if m =? 1 then PrivS else PrivM |>));
    [by destruct (hart_priv_mode h)|].
  assert (Hcsr : ∀ h1, hart_csr h1 = hart_csr h0 →
    decodes (zoom_decoder hart_csr (fun c h => h <| hart_csr := c |>) restore_csr) h1 (save_csr (hart_csr h)) tt
      (h1 <| hart_csr := (hart_csr h) <| hart_id := hart_id (hart_csr h0) |> |>)).
  { intros h1 E1. eapply decodes_to; [apply decodes_zoom; by apply csr_round_trip; rewrite ?E1|]. by rewrite E1. }
  eapply decodes_bind; [by apply lr_round_trip|].
  do 3 (eapply decodes_bind; [by apply decodes_le|]). do 3 apply decodes_assigned. rewrite Z.eqb_refl.
  eapply decodes_to; [by apply Hcsr|]. unfold restored_hart. destruct h as [[] ? ? [] ? ? ? ? ? ? ?], h0; done.
Qed.

(** ** Devices *)

Lemma mmio_restored_saves m m0 :
  mmio_wf m → mmio_wf m0 → num_queues m0 = num_queues m → mmio_serialize (mmio_restored m m0) = mmio_serialize m.
Proof.
  intros H H0 Hn. unfold mmio_serialize, mmio_restored. cbn. rewrite Hn. do 5 f_equal.
  rewrite take_app_le, take_take, Nat.min_id; [done|]. rewrite length_take, (vw_count m H).
  pose proof (vw_num m H). unfold MAX_QUEUES in *. lia.
Qed.

Lemma decodes_ignore {S A} (m : Decoder S A) s bytes a s' : decodes m s bytes a s' → decodes (ignore m) s bytes tt s'.
Proof. intros H rest. unfold ignore. by rewrite H. Qed.

Lemma decodes_if_ok {S A} (m : Decoder S A) k s b1 b2 a s1 s2 :
  decodes m s b1 a s1 → decodes (k a) s1 b2 tt s2 → decodes (if_ok m k) s (b1 ++ b2) tt s2.
Proof. intros H1 H2 rest. unfold if_ok. by rewrite <- app_assoc, H1, H2. Qed.

Section Devices.
Context {LB : LoopBound} {N F T : Type} {NB : NetworkBackend N} {FD : FsDevice F} {ST_ : TracesSyscalls T}.
Context {NL : NetworkLaws N} {FL : FsLaws F} {TL : TracerLaws T}.
Abbreviation Bus := (MachineBus N F T).
Implicit Types b : Bus.

Definition fs_restored (f f0 : F) : F := set_fs_mmio (mmio_restored (fs_mmio f) (fs_mmio f0)) f0.

(** The devices after a restore. *)
Definition restored_bus (b b0 : Bus) : Bus :=
  b0 <| low_ram := low_ram b |> <| clint := clint b |> <| plic := plic b |>
     <| uart := uart_restored (uart b) (uart b0) |>
     <| console := set_console_mmio (mmio_restored (console_mmio (console b)) (console_mmio (console b0))) (console b0) |>
     <| net := match net b, net b0 with
               | Some n, Some n0 => Some (set_net_mmio (mmio_restored (net_mmio n) (net_mmio n0)) n0)
               | _, n0 => n0
               end |>
     <| fs_devices := zip_with fs_restored (fs_devices b) (fs_devices b0) |>
     <| uart_stderr := uart_restored (uart_stderr b) (uart_stderr b0) |>
     <| uart_ctrl := uart_restored (uart_ctrl b) (uart_ctrl b0) |>
     <| uart_data := uart_restored (uart_data b) (uart_data b0) |>.

Definition same_queues (m m0 : VirtioMmio) : Prop := num_queues m0 = num_queues m.

(** Two machines set up alike: the same RAM size and devices. *)
Record same_shape (b b0 : Bus) : Prop := {
  sh_len : cow_len (ram b0) = cow_len (ram b);
  sh_low : Z.of_nat (length (low_ram b)) = LOW_RAM_SIZE;
  sh_console : same_queues (console_mmio (console b)) (console_mmio (console b0));
  sh_net : match net b, net b0 with
           | Some n, Some n0 => same_queues (net_mmio n) (net_mmio n0)
           | None, None => True
           | _, _ => False
           end;
  sh_fs : Forall2 (fun f f0 => same_queues (fs_mmio f) (fs_mmio f0)) (fs_devices b) (fs_devices b0);
  sh_fs_count : (length (fs_devices b) < 256)%nat
}.

(** The serial ports' receive buffers are vectors, no longer than [isize::MAX]. *)
Definition ports_fit b : Prop :=
  Forall (fun u => Z.of_nat (length (receive_buffer u)) < 2 ^ 63) [uart b; uart_stderr b; uart_ctrl b; uart_data b].

Lemma part_round_trip {D A} (get : Bus -> D) put (m : Decoder D A) b (h : Hart) bytes a d :
  decodes m (get b) bytes a d → decodes (part get put m) (b, h) bytes a (put d b, h).
Proof. intros H. eapply decodes_to; [by apply decodes_zoom|]. done. Qed.

Lemma fs_round_trip fs fs0 pre b (h : Hart) :
  Forall fs_ok fs → Forall fs_ok fs0 → length fs = length fs0 → fs_devices b = pre ++ fs0 →
  decodes (restore_fs (length fs) (length pre)) (b, h) (mjoin (map (fun f => mmio_serialize (fs_mmio f)) fs)) tt
    (b <| fs_devices := pre ++ zip_with fs_restored fs fs0 |>, h).
Proof.
  revert fs0 pre b. induction fs as [|f fs IH]; intros fs0 pre b Hf Hf0 Hl Hb.
  - destruct fs0; [|done]. eapply decodes_to; [apply decodes_ret|]. cbn. rewrite <- Hb. by destruct b.
  - destruct fs0 as [|f0 fs0]; [done|]. apply list.Forall_cons in Hf as [Hf Hfs]. apply list.Forall_cons in Hf0 as [Hf0 Hfs0].
    cbn [length restore_fs map mjoin list_join]. eapply decodes_bind.
    { intros rest. unfold restore_fs_device. cbn [fst]. rewrite Hb, list_lookup_middle by done. revert rest.
      apply part_round_trip, mmio_round_trip; [by apply fl_mmio|].
      rewrite (vw_count _ (fl_mmio f Hf)), (vw_count _ (fl_mmio f0 Hf0)). done. }
    assert (Ei : <[length pre := fs_restored f f0]> (fs_devices b) = (pre ++ [fs_restored f f0]) ++ fs0).
    { rewrite Hb, <- (Nat.add_0_r (length pre)), insert_app_r. by rewrite <- app_assoc. }
    fold (fs_restored f f0). rewrite Ei.
    replace (Datatypes.S (length pre)) with (length (pre ++ [fs_restored f f0])) by (rewrite length_app; cbn; lia).
    eapply decodes_to; [apply (IH fs0); [done|done|by injection Hl|done]|]. cbn. by rewrite <- app_assoc.
Qed.

Lemma devices_round_trip b b0 h h0 :
  machine_ok b → machine_ok b0 → same_shape b b0 → ports_fit b → hart_saved_wf h → hart_saved_wf h0 →
  decodes restore_devices (b0, h0) (save_devices b h) tt (restored_bus b b0, restored_hart h h0).
Proof.
  intros Hb Hb0 Hs Hp Hh Hh0. unfold ports_fit in Hp. repeat (apply list.Forall_cons in Hp as [? Hp]).
  unfold restore_devices, save_devices.
  eapply decodes_bind. { rewrite <- (sh_low b b0 Hs), Nat2Z.id. apply decodes_exact. }
  apply decodes_assigned.
  eapply decodes_bind; [apply decodes_zoom; by apply hart_round_trip|].
  eapply decodes_bind; [apply part_round_trip, clint_round_trip, Hb|].
  eapply decodes_bind; [apply part_round_trip, plic_round_trip, Hb|].
  eapply decodes_bind; [by apply part_round_trip, uart_round_trip|].
  eapply decodes_bind.
  { apply part_round_trip, mmio_round_trip; [apply (mo_console b Hb)|].
    rewrite (vw_count _ (console_get _ (mo_console b Hb))). apply (vw_count _ (console_get _ (mo_console b0 Hb0))). }
  assert (Hfs : ∀ b1 h1, fs_devices b1 = fs_devices b0 →
    decodes (if_ok (read_le 1) (fun n => restore_fs (Z.to_nat n) 0)) (b1, h1)
      ([as_u8 (Z.of_nat (length (fs_devices b)))] ++ mjoin (map (fun f => mmio_serialize (fs_mmio f)) (fs_devices b))) tt
      (b1 <| fs_devices := zip_with fs_restored (fs_devices b) (fs_devices b0) |>, h1)).
  { intros b1 h1 E. pose proof (sh_fs_count b b0 Hs). assert (E8 : as_u8 (Z.of_nat (length (fs_devices b))) = Z.of_nat (length (fs_devices b)))
      by (apply wrap_id; unfold is_word; lia). rewrite E8.
    eapply decodes_if_ok.
    - replace [Z.of_nat (length (fs_devices b))] with (to_le_bytes 1 (Z.of_nat (length (fs_devices b)))) by (cbn; by rewrite E8).
      apply decodes_le. unfold is_word. lia.
    - rewrite Nat2Z.id. apply (fs_round_trip _ (fs_devices b0) []); [apply Hb | apply Hb0 | by eapply Forall2_length, Hs | done]. }
  assert (Hnet : ∀ b1 h1, net b1 = net b0 →
    decodes restore_net (b1, h1)
      (match net b with Some n => [1] ++ mmio_serialize (net_mmio n) | None => [0] end) tt
      (b1 <| net := match net b, net b0 with
                    | Some n, Some n0 => Some (set_net_mmio (mmio_restored (net_mmio n) (net_mmio n0)) n0)
                    | _, n0 => n0
                    end |>, h1)).
  { intros b1 h1 E. unfold restore_net. pose proof (sh_net b b0 Hs) as Hn. destruct (net b) as [n|] eqn:En, (net b0) as [n0|] eqn:En0; try done.
    - eapply decodes_bind; [apply (decodes_le 1 1); done|]. cbn [Z.eqb]. intros rest. unfold restore_net_registers. cbn [fst]. rewrite E.
      refine (part_round_trip (fun _ => net_mmio n0) _ mmio_deserialize b1 h1 _ _ _ (mmio_round_trip _ _ _ _) rest); [apply (mo_net b Hb n En)|].
      rewrite (vw_count _ (net_get _ (mo_net b Hb n En))). apply (vw_count _ (net_get _ (mo_net b0 Hb0 n0 En0))).
    - rewrite <- (app_nil_r [0]). eapply decodes_bind; [apply (decodes_le 1 0); done|]. cbn [Z.eqb].
      eapply decodes_to; [apply decodes_ret|]. rewrite <- E. by destruct b1. }
  eapply decodes_bind; [by apply Hnet|]. rewrite (app_assoc [_]). eapply decodes_bind; [by apply Hfs|].
  eapply decodes_bind; [by eapply decodes_ignore, part_round_trip, uart_round_trip|].
  eapply decodes_bind; [by eapply decodes_ignore, part_round_trip, uart_round_trip|].
  eapply decodes_to; [by eapply decodes_ignore, part_round_trip, uart_round_trip|]. reflexivity.
Qed.

(** Saving the restored machine gives the same bytes again. *)
Lemma restored_saves b b0 h h0 :
  machine_ok b → machine_ok b0 → same_shape b b0 →
  save_devices (restored_bus b b0) (restored_hart h h0) = save_devices b h.
Proof.
  intros Hb Hb0 Hs. unfold save_devices, restored_bus. cbn -[save_hart mmio_serialize mmio_restored uart_serialize uart_restored clint_serialize save_state as_u8 zip_with restored_hart].
  rewrite !uart_restored_saves. rewrite mmio_restored_saves; [|apply (mo_console b Hb)|apply (mo_console b0 Hb0)|apply Hs].
  replace (save_hart (restored_hart h h0)) with (save_hart h) by done.
  pose proof (sh_fs b b0 Hs) as Hfs. pose proof (Forall2_length Hfs) as Hl.
  rewrite length_zip_with, <- Hl, Nat.min_id. do 7 f_equal.
  { pose proof (sh_net b b0 Hs) as Hn. destruct (net b) as [n|] eqn:En, (net b0) as [n0|] eqn:En0; try done. cbn -[mmio_serialize].
    by rewrite mmio_restored_saves; [|apply (mo_net b Hb n En)|apply (mo_net b0 Hb0 n0 En0)|]. }
  do 3 f_equal. pose proof (mo_fs b Hb) as Ok. pose proof (mo_fs b0 Hb0) as Ok0. clear -Hfs Ok Ok0 FL.
  induction Hfs as [|f f0 fs fs0 Hq _ IH]; [done|]. apply list.Forall_cons in Ok as [Hf Ok]. apply list.Forall_cons in Ok0 as [Hf0 Ok0].
  cbn -[mmio_serialize]. rewrite IH by done. f_equal. unfold fs_restored. rewrite fl_get.
  apply mmio_restored_saves; [by apply fl_mmio | by apply fl_mmio | done].
Qed.

(** ** Memory *)

Lemma decodes_expect {S} bytes (s : S) : decodes (expect bytes) s bytes tt s.
Proof.
  assert (H : decodes (expect bytes) s (bytes ++ []) tt s); [|by rewrite app_nil_r in H].
  eapply decodes_bind; [apply decodes_exact|]. rewrite bool_decide_eq_true_2 by done. apply decodes_ret.
Qed.

Lemma decodes_ram (m : ST (CowRam * Z) unit) b h r' source' :
  m (ram b, epoch_source b) = Some (tt, (r', source')) →
  decodes (restore_ram m) (b, h) [] tt (b <| ram := r' |> <| epoch_source := source' |>, h).
Proof. intros E rest. unfold restore_ram, bus_ram, zoom. cbn. by rewrite E. Qed.

Lemma slice_get_all l n : (n <= length l)%nat → slice_get l 0 n = Some (take n l).
Proof.
  intros H. unfold slice_get. replace (_ && _) with true by (symmetry; apply andb_true_intro; split; apply Z.leb_le; lia).
  by rewrite drop_0.
Qed.

(** The devices do not see the RAM. *)
Lemma save_devices_ram b r source h : save_devices (b <| ram := r |> <| epoch_source := source |>) h = save_devices b h.
Proof. done. Qed.

Lemma machine_ok_ram b r source :
  machine_ok b → ram_inv (r, source) → machine_ok (b <| ram := r |> <| epoch_source := source |>).
Proof. apply ram_put_ok. Qed.

Lemma same_shape_ram b b0 r source :
  cow_len r = cow_len (ram b0) → same_shape b b0 → same_shape b (b0 <| ram := r |> <| epoch_source := source |>).
Proof. intros E []. split; try done. cbn. by rewrite E. Qed.

(** C14: a snapshot brings back the machine.  Saving a well-formed machine
    succeeds; restoring the bytes into a machine of the same shape consumes
    exactly them, returns the flags, and yields the saved registers, CSRs, mode
    and reservation (with empty code caches), the saved RAM, low memory, timer,
    interrupt controller, serial ports and virtio registers; saving that machine
    gives the same bytes again. *)
Theorem snapshot_round_trip b h b0 h0 flags :
  machine_ok b → machine_ok b0 → same_shape b b0 → ports_fit b → hart_saved_wf h → hart_saved_wf h0 → is_u8 flags →
  0 < cow_len (ram b) < 2 ^ 62 → cow_len (ram b) <= Z.of_nat (length (cow_flat (ram b))) →
  ∃ bytes b',
    save b h (Some flags) = Some bytes ∧
    decodes restore (b0, h0) bytes flags (b', restored_hart h h0) ∧
    b' = (restored_bus b b0) <| ram := ram b' |> <| epoch_source := epoch_source b' |> ∧
    take (Z.to_nat (cow_len (ram b))) (cow_flat (ram b')) = take (Z.to_nat (cow_len (ram b))) (cow_flat (ram b)) ∧
    save b' (restored_hart h h0) (Some flags) = Some bytes.
Proof.
  intros Hb Hb0 Hs Hp Hh Hh0 Hf Hlen Hroom. destruct (mo_ram b Hb) as (Hr & _ & _). cbn in Hr.
  destruct (mo_ram b0 Hb0) as (Hr0 & Hs0 & Hd0). cbn in Hr0, Hs0, Hd0.
  set (len := Z.to_nat (cow_len (ram b))). set (mem := take len (cow_flat (ram b))).
  assert (Hml : length mem = len) by (unfold mem, len; rewrite length_take; lia).
  assert (Hw : write_all_to (ram b) = Some mem) by (rewrite write_all_to_slice by (done || lia); apply slice_get_all; lia).
  destruct (padded_len_mod (cow_len (ram b)) ltac:(lia)) as [Hmod Hpad].
  set (padded := mem ++ replicate (Z.to_nat (padded_len (cow_len (ram b))) - len) 0).
  destruct (set_base_flat padded (ram b0) (epoch_source b0)) as (r' & Eb & Hr' & Hflat & Hl' & _).
  { unfold padded. rewrite length_app, length_replicate, Hml. replace (len + _)%nat with (Z.to_nat (padded_len (cow_len (ram b)))) by (unfold len; lia). done. }
  { unfold padded. apply Forall_app. split; [by apply Forall_take, flat_bytes | by apply Forall_replicate]. }
  set (source' := as_u64 (epoch_source b0 + 1)) in *.
  set (b1 := b0 <| ram := r' |> <| epoch_source := source' |>).
  assert (Hb1 : machine_ok b1).
  { apply ram_put_ok; [done|]. split; [done|]. split; [apply wrap_range; lia|]. cbn.
    revert Eb. unfold set_base. by intros [= <-]. }
  assert (Hs1 : same_shape b b1) by (by apply same_shape_ram).
  exists (MAGIC ++ [SNAPSHOT_VERSION] ++ [flags] ++ to_le_bytes 8 (bus_ram_size b) ++ mem ++ save_devices b h), (restored_bus b b1).
  split; [unfold save; by rewrite Hw|]. split; [|split; [done|split]].
  - unfold restore. eapply decodes_bind; [apply decodes_expect|]. eapply decodes_bind; [apply decodes_expect|].
    assert (Ef : [flags] = to_le_bytes 1 flags) by (cbn; by rewrite (wrap_id 8)). rewrite Ef.
    eapply decodes_bind; [by apply decodes_le|]. eapply decodes_bind; [apply decodes_le; unfold bus_ram_size, is_word; lia|].
    intros rest. cbn [fst]. unfold bus_ram_size. rewrite (sh_len b b0 Hs), Z.eqb_refl. cbn [negb]. revert rest.
    fold len. eapply decodes_bind. { replace len with (length mem) by done. apply decodes_exact. }
    rewrite <- (app_nil_l (save_devices b h)). eapply decodes_bind; [by apply decodes_ram|].
    rewrite <- (app_nil_r (save_devices b h)). eapply decodes_bind; [by apply devices_round_trip|]. apply decodes_ret.
  - cbn. rewrite Hflat. unfold padded. by rewrite take_app_le, take_ge by lia.
  - unfold save. cbn [ram restored_bus]. replace (ram (restored_bus b b1)) with r' by done.
    rewrite write_all_to_slice by (rewrite ?Hl', ?(sh_len b b0 Hs); done || lia).
    rewrite Hl', (sh_len b b0 Hs), Hflat. fold len. unfold padded. rewrite slice_get_all by (rewrite length_app; lia).
    rewrite take_app_le, take_ge by lia. cbn [mbind option_bind]. rewrite restored_saves by done.
    unfold bus_ram_size. replace (ram (restored_bus b b1)) with r' by done. by rewrite Hl', (sh_len b b0 Hs).
Qed.

(** ** Rejected streams *)

Lemma read_exact_cases {S} n (s : S) input :
  (∃ bytes rest, input = bytes ++ rest ∧ length bytes = n ∧ read_exact n (s, input) = Some (Ok bytes, (s, rest)))
  ∨ read_exact n (s, input) = Some (Err UnexpectedEof, (s, [])).
Proof.
  unfold read_exact. destruct (n <=? length input)%nat eqn:E; [|by right]. apply Nat.leb_le in E. left.
  exists (take n input), (drop n input). rewrite take_drop, length_take. split; [done|]. split; [lia|done].
Qed.

Lemma expect_cases {S} bytes (s : S) input :
  (∃ rest, input = bytes ++ rest ∧ expect bytes (s, input) = Some (Ok tt, (s, rest)))
  ∨ ∃ e rest, expect bytes (s, input) = Some (Err e, (s, rest)).
Proof.
  unfold expect, try_bind. run_st. destruct (read_exact_cases (length bytes) s input) as [(bs & rest & -> & _ & ->)| ->]; [|by right; eauto].
  case_bool_decide as Eb; [left | right; eexists _, _; reflexivity]. subst bs. eexists. split; reflexivity.
Qed.

Lemma read_le_cases {S} n (s : S) input :
  Forall is_u8 input →
  (∃ v rest, input = to_le_bytes n v ++ rest ∧ is_word (8 * Z.of_nat n) v ∧ Forall is_u8 rest ∧
             read_le n (s, input) = Some (Ok v, (s, rest)))
  ∨ ∃ e rest, read_le n (s, input) = Some (Err e, (s, rest)).
Proof.
  intros Hi. unfold read_le, try_bind. run_st.
  destruct (read_exact_cases n s input) as [(bs & rest & -> & Hn & ->)| ->]; [|by right; eauto].
  apply Forall_app in Hi as [Hb Hr]. left. exists (from_le_bytes bs), rest.
  split; [by rewrite <- Hn, to_from_le_bytes|]. split; [rewrite <- Hn; by apply from_le_bytes_range | done].
Qed.

(** A stream that starts as a snapshot of the machine [b]: magic, version,
    flags, the RAM size of [b] and as many bytes of memory. *)
Definition snapshot_of (b : Bus) (input : list Z) : Prop :=
  ∃ flags mem tail, input = MAGIC ++ [SNAPSHOT_VERSION] ++ [flags] ++ to_le_bytes 8 (bus_ram_size b) ++ mem ++ tail ∧
                    length mem = Z.to_nat (bus_ram_size b).

(** C29: a stream that is not a snapshot of a machine with this RAM size is
    rejected with an error and leaves the machine as it was: nothing is restored
    until magic, version and size have been checked and the whole memory image
    has been read. *)
Theorem rejected_snapshot_changes_nothing b h input :
  Forall is_u8 input → ~ snapshot_of b input →
  ∃ e rest, restore ((b, h), input) = Some (Err e, ((b, h), rest)).
Proof.
  intros Hi Hno. unfold restore. unfold try_bind at 1. run_st.
  destruct (expect_cases MAGIC (b, h) input) as [(i1 & -> & ->)|(e & rest & ->)]; [|by eexists _, _].
  apply Forall_app in Hi as [_ Hi]. unfold try_bind at 1. run_st.
  destruct (expect_cases [SNAPSHOT_VERSION] (b, h) i1) as [(i2 & -> & ->)|(e & rest & ->)]; [|by eexists _, _].
  apply Forall_app in Hi as [_ Hi]. unfold try_bind at 1. run_st.
  destruct (read_le_cases 1 (b, h) i2 Hi) as [(flags & i3 & -> & Hf & Hi3 & ->)|(e & rest & ->)]; [|by eexists _, _].
  unfold try_bind at 1. run_st.
  destruct (read_le_cases 8 (b, h) i3 Hi3) as [(size & i4 & -> & Hz & Hi4 & ->)|(e & rest & ->)]; [|by eexists _, _].
  cbn [fst]. destruct (Z.eqb_spec size (bus_ram_size b)) as [->|Hne]; cbn [negb]; [|by eexists _, _].
  unfold try_bind at 1. run_st.
  destruct (read_exact_cases (Z.to_nat (bus_ram_size b)) (b, h) i4) as [(mem & tail & -> & Hm & _)| ->]; [|by eexists _, _].
  exfalso. apply Hno. exists flags, mem, tail. split; [|done].
  replace (to_le_bytes 1 flags) with [flags] by (cbn; by rewrite (wrap_id 8)). done.
Qed.

(** ** Deltas *)

Lemma pages_round_trip ks r b h :
  cow_wf r → ram_inv (ram b, epoch_source b) → length (cow_pages (ram b)) = length (cow_pages r) →
  Z.of_nat (length (cow_pages r)) < 2 ^ 32 → Forall (fun k => (k < length (cow_pages r))%nat) ks →
  ∃ bytes r' source', save_pages (map Z.of_nat ks) r = Some bytes ∧
    decodes (restore_pages (length ks)) (b, h) bytes tt (b <| ram := r' |> <| epoch_source := source' |>, h) ∧
    ram_inv (r', source') ∧ cow_view r' = copy_pages (cow_view r) ks (cow_view (ram b)) ∧
    cow_len r' = cow_len (ram b) ∧ length (cow_pages r') = length (cow_pages r).
Proof.
  intros Hr. revert b. induction ks as [|k ks IH]; intros b Hb Hl Hn Hks.
  { exists [], (ram b), (epoch_source b). split; [done|]. split; [|done].
    eapply decodes_to; [apply decodes_ret|]. by destruct b. }
  apply list.Forall_cons in Hks as [Hk Hks]. destruct Hb as (Hr0 & Hs0 & Hd0). cbn in Hr0, Hs0, Hd0.
  assert (Hv : is_Some (cow_view r !! k)) by (apply lookup_lt_is_Some_2; unfold cow_view; rewrite length_imap; done).
  destruct Hv as [p Ep]. pose proof (Forall_lookup_1 _ _ _ _ (view_paged r Hr) Ep) as Hpl. cbn in Hpl.
  destruct (apply_page_view k p (ram b) (epoch_source b) Hr0 Hs0 ltac:(lia) Hpl (view_bytes r k p Hr Ep))
    as (r1 & s1 & E1 & Hr1 & Hv1 & Hw1).
  set (b1 := b <| ram := r1 |> <| epoch_source := s1 |>).
  destruct (IH b1) as (bytes & r' & s' & Es & Hd & Hr' & Hv' & Hl' & Hn').
  { split; [done|]. split; [exact (written_source _ _ _ _ Hs0 Hw1)|]. cbn. by rewrite (wr_devs _ _ _ _ Hw1). }
  { cbn. by rewrite (wr_count _ _ _ _ Hw1). }
  { done. }
  { done. }
  exists (to_le_bytes 4 (Z.of_nat k) ++ p ++ bytes), r', s'. split; [|split; [|split; [done|split; [|split; [|done]]]]].
  - cbn [map save_pages]. unfold page_bytes. rewrite page_ref_view, Nat2Z.id, Ep by (done || lia). cbn [mbind option_bind].
    by rewrite Es.
  - cbn [length restore_pages]. eapply decodes_bind; [apply decodes_le; unfold is_word; lia|].
    eapply decodes_bind. { replace (Z.to_nat PAGE_SIZE) with (length p) by done. apply decodes_exact. }
    rewrite <- (app_nil_l bytes). eapply decodes_bind; [by apply decodes_ram|]. exact Hd.
  - rewrite Hv'. unfold copy_pages at 2. cbn [foldl]. fold (copy_pages (cow_view r) ks (<[k := cow_view r !!! k]> (cow_view (ram b)))).
    rewrite (list_lookup_total_correct _ _ _ Ep). cbn. by rewrite Hv1.
  - rewrite Hl'. cbn. apply Hw1.
Qed.

(** Over the base image, the private pages are the whole memory. *)
Lemma delta_is_memory r r0 ks :
  cow_wf r → cow_wf r0 → cow_flat r0 = cow_base r → (∀ k, k ∈ ks ↔ ∃ p, cow_pages r !! k = Some (Some p)) →
  copy_pages (cow_view r) ks (cow_view r0) = cow_view r.
Proof.
  intros Hr Hr0 Hf Hks. destruct (clone_shared_flat r 0 Hr) as (rb & Eb & Hrb & Hfb & _ & _ & Hlb).
  assert (Hl0 : length (cow_pages r0) = length (cow_pages r)).
  { pose proof (f_equal length Hf) as E. rewrite flat_length, (wf_base r Hr) in E by done. pose proof page_nat_pos. nia. }
  assert (E0 : cow_view r0 = cow_view rb).
  { apply (paged_inj page_nat); [by apply view_paged | by apply view_paged | unfold cow_view; rewrite !length_imap; congruence | by rewrite <- Hfb in Hf]. }
  apply list_eq. intros i. destruct (decide (i < length (cow_pages r))%nat) as [Hi|Hi].
  - rewrite copy_pages_lookup by (unfold cow_view; rewrite length_imap; lia).
    assert (Hv : is_Some (cow_view r !! i)) by (apply lookup_lt_is_Some_2; unfold cow_view; by rewrite length_imap).
    destruct Hv as [p Ep]. case_decide as Hin; [by rewrite (list_lookup_total_correct _ _ _ Ep)|].
    rewrite E0, !view_lookup. revert Eb. unfold clone_shared. run_st. intros [= <-]. cbn. rewrite lookup_replicate_2 by done.
    destruct (lookup_lt_is_Some_2 (cow_pages r) i Hi) as [[q|] Eq]; rewrite Eq; [|done]. exfalso. apply Hin, Hks. eauto.
  - assert (E : ∀ l : list (list Z), length l = length (cow_pages r) → l !! i = None) by (intros l El; apply lookup_ge_None; lia).
    rewrite !E; [done | unfold cow_view; by rewrite length_imap|].
    clear -Hl0. unfold copy_pages. assert (length (cow_view r0) = length (cow_pages r)) as <- by (unfold cow_view; by rewrite length_imap).
    generalize (cow_view r0). induction ks as [|k ks IH]; intros l; [done|]. cbn. rewrite IH. by rewrite length_insert.
Qed.

(** C23: a delta over the base image brings back the machine.  When the target
    holds the image the saved machine started from, restoring the delta yields
    the saved memory, byte for byte, although only the pages written since are in
    it; hart and devices are restored as from a full snapshot. *)
Theorem delta_round_trip b h b0 h0 :
  machine_ok b → machine_ok b0 → same_shape b b0 → ports_fit b → hart_saved_wf h → hart_saved_wf h0 →
  Z.of_nat (length (cow_pages (ram b))) < 2 ^ 32 → cow_flat (ram b0) = cow_base (ram b) →
  ∃ bytes b',
    save_delta b h = Some bytes ∧
    decodes restore_delta (b0, h0) bytes tt (b', restored_hart h h0) ∧
    b' = (restored_bus b b0) <| ram := ram b' |> <| epoch_source := epoch_source b' |> ∧
    cow_flat (ram b') = cow_flat (ram b) ∧ save_devices b' (restored_hart h h0) = save_devices b h.
Proof.
  intros Hb Hb0 Hs Hp Hh Hh0 Hn Hbase. destruct (mo_ram b Hb) as (Hr & _ & _). cbn in Hr.
  pose proof (mo_ram b0 Hb0) as Hi0. pose proof Hi0 as (Hr0 & _ & _). cbn in Hr0.
  destruct (dirty_pages_spec (ram b) Hn) as (ks & Eks & Hkl & Hks).
  assert (Hl0 : length (cow_pages (ram b0)) = length (cow_pages (ram b))).
  { pose proof (f_equal length Hbase) as E. rewrite flat_length, (wf_base (ram b) Hr) in E by done. pose proof page_nat_pos. nia. }
  destruct (pages_round_trip ks (ram b) b0 h0 Hr Hi0 Hl0 Hn) as (bytes & r' & s' & Es & Hd & Hr' & Hv & Hlen & _).
  { apply Forall_forall. intros k Hk%list_elem_of_In. apply Hks in Hk as [p Hk]. by eapply lookup_lt_Some. }
  set (b1 := b0 <| ram := r' |> <| epoch_source := s' |>).
  assert (Hb1 : machine_ok b1) by (by apply ram_put_ok). assert (Hs1 : same_shape b b1) by (by apply same_shape_ram).
  eexists _, (restored_bus b b1). unfold save_delta, bus_dirty_pages. rewrite Eks, Es. cbn [mbind option_bind].
  split; [reflexivity|]. split; [|split; [done|split]].
  - unfold restore_delta. eapply decodes_bind; [apply decodes_expect|]. eapply decodes_bind; [apply decodes_expect|].
    rewrite length_map. eapply decodes_bind; [apply decodes_le; unfold is_word; lia|]. rewrite Nat2Z.id.
    eapply decodes_bind; [exact Hd|]. by apply devices_round_trip.
  - change (ram (restored_bus b b1)) with r'. unfold cow_flat. rewrite Hv. f_equal. by apply delta_is_memory.
  - by apply restored_saves.
Qed.

Lemma bus_new_shape ram_size r source b :
  bus_new ram_size r source = Some b → same_shape b b ∧ ports_fit b ∧ ram b = r.
Proof.
  unfold bus_new. case_if; [|done]. intros H. apply (inj Some) in H. subst b. split; [|split; [|done]].
  - split; cbn [low_ram net fs_devices]; [done | by rewrite length_replicate | done | done | constructor | cbn; lia].
  - repeat constructor.
Qed.
End Devices.

Lemma hart_new_saved entry : is_u64 entry → hart_saved_wf (hart_new entry).
Proof. intros H. split; [by apply gpr_new_wf|]. split; [apply csr_new_wf | done]. Qed.

(** ** Concrete machines *)

Section Demo.
Import NoDevices NoDeviceLaws.
Abbreviation Bus := (MachineBus unit Empty_set Empty_set).

Lemma demo_inv : ram_inv (demo_ram, 5).
Proof. split; [apply demo_ram_wf|]. by split. Qed.

Lemma demo_bus_exists : ∃ b : Bus, bus_new 4096 demo_ram 5 = Some b.
Proof. unfold bus_new. case_if; [eauto | done]. Qed.

Lemma snapshot_round_trip_witness :
  ∃ (b b' : Bus) bytes, save b (hart_new 0x80000000) (Some 1) = Some bytes ∧
    restore ((b, hart_new 0), bytes ++ [42]) = Some (Ok 1, ((b', restored_hart (hart_new 0x80000000) (hart_new 0)), [42])).
Proof.
  destruct demo_bus_exists as [b Eb]. pose proof (bus_new_ok _ _ _ b demo_inv Eb) as Hb. destruct (bus_new_shape _ _ _ b Eb) as (Hs & Hp & Hr).
  assert (Hroom : cow_len (ram b) <= Z.of_nat (length (cow_flat (ram b)))) by (rewrite Hr, flat_length by apply demo_ram_wf; done).
  assert (Hlen : 0 < cow_len (ram b) < 2 ^ 62) by (by rewrite Hr).
  destruct (snapshot_round_trip b (hart_new 0x80000000) b (hart_new 0) 1 Hb Hb Hs Hp (hart_new_saved 0x80000000 ltac:(done))
              (hart_new_saved 0 ltac:(done)) ltac:(done) Hlen Hroom) as (bytes & b' & E & Hd & _).
  exists b, b', bytes. split; [done|]. apply Hd.
Defined.

Lemma rejected_snapshot_changes_nothing_witness :
  ∃ (b : Bus) e rest, restore ((b, hart_new 0), MAGIC ++ [2; 0; 0]) = Some (Err e, ((b, hart_new 0), rest)).
Proof.
  destruct demo_bus_exists as [b Eb]. exists b. apply rejected_snapshot_changes_nothing.
  - repeat (constructor; [done|]). constructor.
  - intros (flags & mem & tail & E & _). discriminate E.
Defined.

Lemma delta_round_trip_witness :
  ∃ (b b' : Bus) bytes, save_delta b (hart_new 0x80000000) = Some bytes ∧
    restore_delta ((b, hart_new 0), bytes ++ [42]) = Some (Ok tt, ((b', restored_hart (hart_new 0x80000000) (hart_new 0)), [42])) ∧
    cow_flat (ram b') = cow_flat (ram b).
Proof.
  destruct demo_bus_exists as [b Eb]. pose proof (bus_new_ok _ _ _ b demo_inv Eb) as Hb. destruct (bus_new_shape _ _ _ b Eb) as (Hs & Hp & Hr).
  assert (Hn : Z.of_nat (length (cow_pages (ram b))) < 2 ^ 32) by (by rewrite Hr).
  assert (Hbase : cow_flat (ram b) = cow_base (ram b)) by (rewrite Hr; vm_compute; reflexivity).
  destruct (delta_round_trip b (hart_new 0x80000000) b (hart_new 0) Hb Hb Hs Hp (hart_new_saved 0x80000000 ltac:(done))
              (hart_new_saved 0 ltac:(done)) Hn Hbase) as (bytes & b' & E & Hd & _ & Hf & _).
  exists b, b', bytes. split; [done|]. split; [apply Hd | done].
Defined.
End Demo.
