(* ===== verification/Dtb.v ===== *)
(** The flattened device tree the guest boots with ([machine/src/dtb.rs]).

    Strings are their bytes.  [DtbOp] names the builder's methods, so that [build]
    is the sequence of calls the source makes, run by [dtb_op]. *)
From Stdlib Require Import String Ascii.
From S2P Require Import Prelude Words RamLaws.

(** [str::as_bytes] *)
Fixpoint as_bytes (s : string) : list Z :=
  match s with
  | EmptyString => []
  | String c s => Z.of_N (N_of_ascii c) :: as_bytes s
  end.

Lemma as_bytes_u8 s : Forall is_u8 (as_bytes s).
Proof.
  induction s as [|c s IH]; cbn; [constructor|]. constructor; [|done].
  unfold is_u8, is_word. pose proof (N_ascii_bounded c). lia.
Qed.

Definition hex_digit (d : Z) : Z := if d <? 10 then 48 + d else 87 + d.

(** [format!("{:x}", n)]: the digits of [n], which has at most [fuel] of them. *)
Fixpoint hex_digits (fuel : nat) (n : Z) (acc : list Z) : list Z :=
  match fuel with
  | O => acc
  | S fuel => let acc := hex_digit (n mod 16) :: acc in if n / 16 =? 0 then acc else hex_digits fuel (n / 16) acc
  end.
Definition format_hex (n : Z) : list Z := hex_digits 16 n [].

Definition FDT_MAGIC : Z := 0xd00dfeed.
Definition FDT_BEGIN_NODE : Z := 1.
Definition FDT_END_NODE : Z := 2.
Definition FDT_PROP : Z := 3.
Definition FDT_END : Z := 9.
Definition FDT_VERSION : Z := 17.

Record DtbBuilder := mkDtb { structure_block : list Z; strings : list Z }.
#[export] Instance DtbBuilder_eta : Eta DtbBuilder := fun b => mkDtb (structure_block b) (strings b).

Definition dtb_new : DtbBuilder := mkDtb [] [].

Definition push_big_endian_u32 (buf : list Z) (value : Z) : list Z := buf ++ to_be_bytes 4 value.

Definition extend (bytes : list Z) (b : DtbBuilder) : DtbBuilder :=
  b <| structure_block := structure_block b ++ bytes |>.
Definition push_u32 (value : Z) (b : DtbBuilder) : DtbBuilder := extend (to_be_bytes 4 value) b.

(** At most three zeros. *)
Fixpoint align_loop (fuel : nat) (l : list Z) : list Z :=
  match fuel with
  | O => l
  | S fuel => if Z.of_nat (length l) mod 4 =? 0 then l else align_loop fuel (l ++ [0])
  end.
Definition align_to_4_bytes (b : DtbBuilder) : DtbBuilder :=
  b <| structure_block := align_loop 4 (structure_block b) |>.

(** [while i < strings.len() && strings[i] != 0 { i += 1 }], on the rest of the table. *)
Fixpoint skip_name (l : list Z) : nat :=
  match l with
  | [] => 0
  | c :: l => if c =? 0 then 0 else S (skip_name l)
  end.

(** The search of [string_offset], from index [i].  Every round moves on. *)
Fixpoint find_string (fuel : nat) (needle table : list Z) (i : nat) : option nat :=
  match fuel with
  | O => None
  | S fuel =>
      if (i <? length table)%nat then
        let e := (i + length needle)%nat in
        if (e <? length table)%nat && bool_decide (take (length needle) (drop i table) = needle)
           && ((table !!! e) =? 0)
        then Some i
        else find_string fuel needle table (i + skip_name (drop i table) + 1)
      else None
  end.

Definition string_offset (name : list Z) (b : DtbBuilder) : Z * DtbBuilder :=
  match find_string (S (length (strings b))) name (strings b) 0 with
  | Some i => (as_u32 (Z.of_nat i), b)
  | None => (as_u32 (Z.of_nat (length (strings b))), b <| strings := strings b ++ name ++ [0] |>)
  end.

Definition begin_node (name : list Z) (b : DtbBuilder) : DtbBuilder :=
  align_to_4_bytes (extend (name ++ [0]) (push_u32 FDT_BEGIN_NODE b)).

Definition end_node (b : DtbBuilder) : DtbBuilder := push_u32 FDT_END_NODE b.

(** What every property starts with. *)
Definition prop_header (name : list Z) (len : Z) (b : DtbBuilder) : DtbBuilder :=
  let (offset, b) := string_offset name b in
  push_u32 offset (push_u32 len (push_u32 FDT_PROP b)).

Definition prop_u32 (name : list Z) (value : Z) (b : DtbBuilder) : DtbBuilder :=
  push_u32 value (prop_header name 4 b).

Definition prop_u64 (name : list Z) (value : Z) (b : DtbBuilder) : DtbBuilder :=
  push_u32 (as_u32 value) (push_u32 (as_u32 (Z.shiftr value 32)) (prop_header name 8 b)).

Definition prop_str (name value : list Z) (b : DtbBuilder) : DtbBuilder :=
  align_to_4_bytes (extend (value ++ [0]) (prop_header name (as_u32 (Z.of_nat (length value) + 1)) b)).

Definition prop_reg (addr size : Z) (b : DtbBuilder) : DtbBuilder :=
  push_u32 (as_u32 size) (push_u32 (as_u32 (Z.shiftr size 32))
    (push_u32 (as_u32 addr) (push_u32 (as_u32 (Z.shiftr addr 32)) (prop_header (as_bytes "reg") 16 b)))).

Definition prop_strlist (name : list Z) (values : list (list Z)) (b : DtbBuilder) : DtbBuilder :=
  let total := foldr (fun v sum => Z.of_nat (length v) + 1 + sum) 0 values in
  align_to_4_bytes (foldl (fun b v => extend (v ++ [0]) b) (prop_header name (as_u32 total) b) values).

Definition prop_empty (name : list Z) (b : DtbBuilder) : DtbBuilder := prop_header name 0 b.

Definition prop_cells (name : list Z) (cells : list Z) (b : DtbBuilder) : DtbBuilder :=
  foldl (fun b cell => push_u32 cell b) (prop_header name (as_u32 (Z.of_nat (length cells) * 4)) b) cells.

Definition prop_interrupts (irq : Z) : DtbBuilder -> DtbBuilder := prop_u32 (as_bytes "interrupts") irq.
Definition prop_interrupt_parent (phandle : Z) : DtbBuilder -> DtbBuilder := prop_u32 (as_bytes "interrupt-parent") phandle.
Definition prop_phandle (phandle : Z) : DtbBuilder -> DtbBuilder := prop_u32 (as_bytes "phandle") phandle.

Definition finish (b : DtbBuilder) : list Z :=
  let b := push_u32 FDT_END b in
  let header_size := 40 in
  let mem_rsvmap_size := 16 in
  let struct_offset := header_size + mem_rsvmap_size in
  let struct_size := as_u32 (Z.of_nat (length (structure_block b))) in
  let strings_offset := wrapping_add32 struct_offset struct_size in
  let strings_size := as_u32 (Z.of_nat (length (strings b))) in
  let total_size := wrapping_add32 strings_offset strings_size in
  let out := foldl push_big_endian_u32 []
    [FDT_MAGIC; total_size; struct_offset; strings_offset; header_size; FDT_VERSION; 16; 0;
     strings_size; struct_size] in
  out ++ replicate 16 0 ++ structure_block b ++ strings b.

(** ** The calls *)

Inductive DtbOp : Type :=
  | BeginNode (name : list Z)
  | EndNode
  | PropU32 (name : list Z) (value : Z)
  | PropU64 (name : list Z) (value : Z)
  | PropStr (name value : list Z)
  | PropReg (addr size : Z)
  | PropStrlist (name : list Z) (values : list (list Z))
  | PropEmpty (name : list Z)
  | PropCells (name cells : list Z)
  | PropInterrupts (irq : Z)
  | PropInterruptParent (phandle : Z)
  | PropPhandle (phandle : Z).

Definition dtb_op (op : DtbOp) : DtbBuilder -> DtbBuilder :=
  match op with
  | BeginNode name => begin_node name
  | EndNode => end_node
  | PropU32 name value => prop_u32 name value
  | PropU64 name value => prop_u64 name value
  | PropStr name value => prop_str name value
  | PropReg addr size => prop_reg addr size
  | PropStrlist name values => prop_strlist name values
  | PropEmpty name => prop_empty name
  | PropCells name cells => prop_cells name cells
  | PropInterrupts irq => prop_interrupts irq
  | PropInterruptParent phandle => prop_interrupt_parent phandle
  | PropPhandle phandle => prop_phandle phandle
  end.

Definition dtb_run (ops : list DtbOp) (b : DtbBuilder) : DtbBuilder := foldl (fun b op => dtb_op op b) b ops.

(** [builder.begin_node(&format!("name@{:x}", base))] *)
Definition unit_name (name : string) (base : Z) : list Z := as_bytes name ++ as_bytes "@" ++ format_hex base.

Definition uart_node (base irq : Z) : list DtbOp :=
  [BeginNode (unit_name "uart" base);
   PropStr (as_bytes "compatible") (as_bytes "ns16550a");
   PropReg base 0x100;
   PropU32 (as_bytes "clock-frequency") 3686400;
   PropInterruptParent 3;
   PropInterrupts irq;
   EndNode].

Definition virtio_node (base virtio_size irq : Z) (device : string) : list DtbOp :=
  [BeginNode (unit_name "virtio_mmio" base);
   PropStr (as_bytes "compatible") (as_bytes "virtio,mmio");
   PropReg base virtio_size;
   PropInterruptParent 3;
   PropInterrupts irq;
   PropStr (as_bytes "device") (as_bytes device);
   EndNode].

(** The loop over the first three devices. *)
Definition virtio_nodes (virtio_base virtio_size : Z) (virtio_irqs : list Z) (has_blk has_net : bool) : list DtbOp :=
  mjoin (map (fun e : nat * (Z * string) =>
    let '(i, (irq, name)) := e in
    if (i =? 0)%nat && negb has_blk then []
    else if (i =? 2)%nat && negb has_net then []
    else virtio_node (wrapping_add64 virtio_base (wrapping_mul64 (Z.of_nat i) virtio_size)) virtio_size irq name)
    (zip (seq 0 3) (zip virtio_irqs ["virtio-blk"%string; "virtio-console"%string; "virtio-net"%string]))).

Definition fs_nodes (virtio_base virtio_size : Z) (num_fs : nat) : list DtbOp :=
  mjoin (map (fun i =>
    let slot := 3 + Z.of_nat i in
    virtio_node (wrapping_add64 virtio_base (wrapping_mul64 slot virtio_size)) virtio_size
      (wrapping_add32 8 (as_u32 (Z.of_nat i))) "virtio-fs") (seq 0 num_fs)).

Definition build_ops (ram_base ram_size uart_base clint_base plic_base uart_irq timebase_freq virtio_base virtio_size : Z)
    (virtio_irqs : list Z) (has_blk has_net : bool) (num_fs : nat) (bootargs : list Z) (initrd_start initrd_end : Z)
    (uart_stderr_base uart_stderr_irq uart_ctrl_base uart_ctrl_irq uart_data_base uart_data_irq : Z) : list DtbOp :=
  [BeginNode [];
   PropU32 (as_bytes "#address-cells") 2;
   PropU32 (as_bytes "#size-cells") 2;
   PropStr (as_bytes "compatible") (as_bytes "riscv-virtio");
   PropStr (as_bytes "model") (as_bytes "capsule,vpod");
   BeginNode (as_bytes "aliases");
   PropStr (as_bytes "serial0") (as_bytes "/uart@" ++ format_hex uart_base);
   EndNode;
   BeginNode (as_bytes "chosen");
   PropStr (as_bytes "bootargs") bootargs;
   PropStr (as_bytes "stdout-path") (as_bytes "serial0:115200n8")]
  ++ (if initrd_start =? 0 then []
      else [PropU64 (as_bytes "linux,initrd-start") initrd_start; PropU64 (as_bytes "linux,initrd-end") initrd_end])
  ++ [EndNode;
      BeginNode (as_bytes "cpus");
      PropU32 (as_bytes "#address-cells") 1;
      PropU32 (as_bytes "#size-cells") 0;
      PropU32 (as_bytes "timebase-frequency") (as_u32 timebase_freq);
      BeginNode (as_bytes "cpu@0");
      PropStr (as_bytes "device_type") (as_bytes "cpu");
      PropU32 (as_bytes "reg") 0;
      PropStr (as_bytes "status") (as_bytes "okay");
      PropStr (as_bytes "compatible") (as_bytes "riscv");
      PropStr (as_bytes "riscv,isa") (as_bytes "rv64imafdcsu_zicsr_zifencei");
      PropStrlist (as_bytes "riscv,isa-extensions")
        (map as_bytes ["i"; "m"; "a"; "f"; "d"; "c"; "s"; "u"; "zicsr"; "zifencei"]%string);
      PropStr (as_bytes "mmu-type") (as_bytes "riscv,sv39");
      PropPhandle 1;
      BeginNode (as_bytes "interrupt-controller");
      PropU32 (as_bytes "#interrupt-cells") 1;
      PropStr (as_bytes "compatible") (as_bytes "riscv,cpu-intc");
      PropEmpty (as_bytes "interrupt-controller");
      PropPhandle 2;
      EndNode; EndNode; EndNode;
      BeginNode (unit_name "memory" ram_base);
      PropStr (as_bytes "device_type") (as_bytes "memory");
      PropReg ram_base ram_size;
      EndNode;
      BeginNode (unit_name "clint" clint_base);
      PropStr (as_bytes "compatible") (as_bytes "riscv,clint0");
      PropCells (as_bytes "interrupts-extended") [2; 3; 2; 7];
      PropReg clint_base 0x000c0000;
      EndNode;
      BeginNode (unit_name "plic" plic_base);
      PropStr (as_bytes "compatible") (as_bytes "sifive,plic-1.0.0");
      PropU32 (as_bytes "#interrupt-cells") 1;
      PropU32 (as_bytes "#address-cells") 0;
      PropEmpty (as_bytes "interrupt-controller");
      PropPhandle 3;
      PropU32 (as_bytes "riscv,ndev") 31;
      PropCells (as_bytes "interrupts-extended") [2; 9; 2; 11];
      PropReg plic_base 0x00400000;
      EndNode]
  ++ uart_node uart_base uart_irq ++ uart_node uart_stderr_base uart_stderr_irq
  ++ uart_node uart_ctrl_base uart_ctrl_irq ++ uart_node uart_data_base uart_data_irq
  ++ virtio_nodes virtio_base virtio_size virtio_irqs has_blk has_net
  ++ fs_nodes virtio_base virtio_size num_fs
  ++ [EndNode].

Definition build (ram_base ram_size uart_base clint_base plic_base uart_irq timebase_freq virtio_base virtio_size : Z)
    (virtio_irqs : list Z) (has_blk has_net : bool) (num_fs : nat) (bootargs : list Z) (initrd_start initrd_end : Z)
    (uart_stderr_base uart_stderr_irq uart_ctrl_base uart_ctrl_irq uart_data_base uart_data_irq : Z) : list Z :=
  finish (dtb_run (build_ops ram_base ram_size uart_base clint_base plic_base uart_irq timebase_freq virtio_base virtio_size
    virtio_irqs has_blk has_net num_fs bootargs initrd_start initrd_end
    uart_stderr_base uart_stderr_irq uart_ctrl_base uart_ctrl_irq uart_data_base uart_data_irq) dtb_new).

(** * Properties

    The device tree blob read back.

    [read_fdt] is a reader of flattened device trees written from the format's
    specification: it checks the header, and turns the structure block into
    tokens, with property names looked up in the strings block.  What the builder
    was told is what the reader finds. *)

(** ** A reader *)

Inductive Token : Type :=
  | TBegin (name : list Z)
  | TEnd
  | TProp (name value : list Z).

Definition read_be32 (l : list Z) : option (Z * list Z) :=
  if (4 <=? length l)%nat then Some (from_be_bytes (take 4 l), drop 4 l) else None.

(** The bytes up to the first zero. *)
Definition c_string (l : list Z) : list Z := take (skip_name l) l.

Definition round_up (n : nat) : nat := n + Z.to_nat ((- Z.of_nat n) mod 4).

Fixpoint read_tokens (fuel : nat) (strs l : list Z) : option (list Token) :=
  match fuel with
  | O => None
  | S fuel =>
      '(tag, l) ← read_be32 l;
      if tag =? FDT_END then if decide (l = []) then Some [] else None
      else if tag =? FDT_BEGIN_NODE then
        let name := c_string l in
        cons (TBegin name) <$> read_tokens fuel strs (drop (round_up (length name + 1)) l)
      else if tag =? FDT_END_NODE then cons TEnd <$> read_tokens fuel strs l
      else if tag =? FDT_PROP then
        '(len, l) ← read_be32 l;
        '(offset, l) ← read_be32 l;
        if (Z.to_nat len <=? length l)%nat then
          cons (TProp (c_string (drop (Z.to_nat offset) strs)) (take (Z.to_nat len) l))
            <$> read_tokens fuel strs (drop (round_up (Z.to_nat len)) l)
        else None
      else None
  end.

(** Header words: magic, total size, structure offset, strings offset, ...,
    strings size, structure size. *)
Definition header_word (i : nat) (blob : list Z) : Z := from_be_bytes (take 4 (drop (4 * i) blob)).

Definition block_at (off len : Z) (blob : list Z) : list Z := take (Z.to_nat len) (drop (Z.to_nat off) blob).

Definition read_fdt (blob : list Z) : option (list Token) :=
  if (header_word 0 blob =? FDT_MAGIC) && (header_word 1 blob =? Z.of_nat (length blob)) && (header_word 5 blob =? FDT_VERSION)
  then
    let structure := block_at (header_word 2 blob) (header_word 9 blob) blob in
    let strs := block_at (header_word 3 blob) (header_word 8 blob) blob in
    read_tokens (S (length structure)) strs structure
  else None.

(** ** What a call means *)

Definition op_token (op : DtbOp) : Token :=
  match op with
  | BeginNode name => TBegin name
  | EndNode => TEnd
  | PropU32 name value => TProp name (to_be_bytes 4 value)
  | PropU64 name value => TProp name (to_be_bytes 8 value)
  | PropStr name value => TProp name (value ++ [0])
  | PropReg addr size => TProp (as_bytes "reg") (to_be_bytes 8 addr ++ to_be_bytes 8 size)
  | PropStrlist name values => TProp name (mjoin (map (fun v => v ++ [0]) values))
  | PropEmpty name => TProp name []
  | PropCells name cells => TProp name (mjoin (map (to_be_bytes 4) cells))
  | PropInterrupts irq => TProp (as_bytes "interrupts") (to_be_bytes 4 irq)
  | PropInterruptParent phandle => TProp (as_bytes "interrupt-parent") (to_be_bytes 4 phandle)
  | PropPhandle phandle => TProp (as_bytes "phandle") (to_be_bytes 4 phandle)
  end.

(** Names are C strings: they hold no zero byte. *)
Definition name_ok (name : list Z) : bool := forallb (fun c => negb (c =? 0)) name.
Definition op_ok (op : DtbOp) : bool :=
  match op_token op with TBegin name | TProp name _ => name_ok name | TEnd => true end.

(** ** Bytes *)

Lemma be_wrap v : to_be_bytes 4 (as_u32 v) = to_be_bytes 4 v.
Proof. unfold to_be_bytes, as_u32. by rewrite to_le_bytes_wrap by lia. Qed.

Lemma be8_split v : to_be_bytes 8 v = to_be_bytes 4 (Z.shiftr v 32) ++ to_be_bytes 4 v.
Proof. unfold to_be_bytes. cbn -[Z.shiftr as_u8]. by rewrite !Z.shiftr_shiftr by lia. Qed.

Lemma read_be32_app v l : read_be32 (to_be_bytes 4 v ++ l) = Some (as_u32 v, l).
Proof.
  unfold read_be32. rewrite length_app, length_be. destruct (Nat.leb_spec 4 (4 + length l)); [|lia].
  by rewrite take_app_length', drop_app_length', from_to_be_bytes by (by rewrite length_be).
Qed.

Lemma as_u32_small n : 0 <= n < 2 ^ 32 → as_u32 n = n.
Proof. intros. by apply (wrap_id 32). Qed.

Lemma skip_name_app name l : name_ok name → skip_name (name ++ 0 :: l) = length name.
Proof.
  induction name as [|c name IH]; [done|]. unfold name_ok. cbn. intros [Hc Hn]%andb_prop_elim.
  destruct (Z.eqb_spec c 0); [done|]. by rewrite IH.
Qed.

Lemma c_string_app name l : name_ok name → c_string (name ++ 0 :: l) = name.
Proof. intros H. unfold c_string. rewrite skip_name_app by done. by apply take_app_length. Qed.

(** ** Alignment *)

#[local] Ltac Zify.zify_post_hook ::= Z.to_euclidean_division_equations.

Definition aligned (l : list Z) : Prop := Z.of_nat (length l) mod 4 = 0.
Definition padding (n : nat) : list Z := replicate (Z.to_nat ((- Z.of_nat n) mod 4)) 0.
Definition padded (l : list Z) : list Z := l ++ padding (length l).

Lemma length_padded l : length (padded l) = round_up (length l).
Proof. unfold padded, padding, round_up. by rewrite length_app, length_replicate. Qed.

Lemma padded_aligned l : aligned (padded l).
Proof. unfold aligned. rewrite length_padded. unfold round_up. lia. Qed.

Lemma aligned_app l1 l2 : aligned l1 → aligned l2 → aligned (l1 ++ l2).
Proof. unfold aligned. rewrite length_app. lia. Qed.

Lemma be4_aligned v : aligned (to_be_bytes 4 v).
Proof. unfold aligned. by rewrite length_be. Qed.

Create HintDb dtb discriminated.
#[export] Hint Resolve padded_aligned aligned_app be4_aligned : dtb.

Lemma padding_aligned l : aligned l → padding (length l) = [].
Proof. unfold aligned, padding. intros H. by replace ((- Z.of_nat (length l)) mod 4) with 0 by lia. Qed.

Lemma padded_id l : aligned l → padded l = l.
Proof. intros H. unfold padded. by rewrite padding_aligned, app_nil_r. Qed.

Lemma align_loop_spec l k fuel :
  Z.to_nat ((- Z.of_nat (length l)) mod 4) = k → (k < fuel)%nat → align_loop fuel l = l ++ replicate k 0.
Proof.
  revert l fuel. induction k as [|k IH]; intros l [|fuel] Hk Hf; try lia; cbn.
  - destruct (Z.eqb_spec (Z.of_nat (length l) mod 4) 0); [by rewrite app_nil_r | lia].
  - destruct (Z.eqb_spec (Z.of_nat (length l) mod 4) 0); [lia|].
    rewrite IH; [by rewrite <- app_assoc | rewrite length_app; cbn; lia | lia].
Qed.

Lemma align_extend b bytes :
  aligned (structure_block b) → align_to_4_bytes (extend bytes b) = extend (padded bytes) b.
Proof.
  intros Ha. unfold align_to_4_bytes, extend, padded, padding. cbn -[align_loop]. f_equal.
  rewrite (align_loop_spec _ (Z.to_nat ((- Z.of_nat (length bytes)) mod 4))); [by rewrite app_assoc | | lia].
  rewrite length_app. unfold aligned in Ha. lia.
Qed.

Lemma extend_extend b l1 l2 : extend l2 (extend l1 b) = extend (l1 ++ l2) b.
Proof. unfold extend. cbn. by rewrite app_assoc. Qed.

(** ** The strings block *)

(** The strings block holds [name] at [off]. *)
Definition name_at (strs : list Z) (off : Z) (name : list Z) : Prop :=
  ∃ pre post, strs = pre ++ name ++ 0 :: post ∧ off = Z.of_nat (length pre).

Lemma name_at_app strs ext off name : name_at strs off name → name_at (strs ++ ext) off name.
Proof. intros (pre & post & -> & ->). exists pre, (post ++ ext). by rewrite <- !app_assoc. Qed.

Lemma name_at_c_string strs off name :
  name_at strs off name → name_ok name → c_string (drop (Z.to_nat off) strs) = name.
Proof.
  intros (pre & post & -> & ->) Hn. rewrite Nat2Z.id, drop_app_length. by apply c_string_app.
Qed.

Lemma find_string_at fuel name table i j :
  find_string fuel name table i = Some j → name_at table (Z.of_nat j) name.
Proof.
  revert i. induction fuel as [|fuel IH]; intros i; cbn [find_string]; [done|].
  destruct (Nat.ltb_spec i (length table)); [|done].
  destruct (Nat.ltb_spec (i + length name) (length table)) as [He|]; cbn [andb]; [|apply IH].
  destruct (bool_decide_reflect (take (length name) (drop i table) = name)) as [Et|]; cbn [andb]; [|apply IH].
  destruct (Z.eqb_spec (table !!! (i + length name)%nat) 0) as [Ez|]; [|apply IH].
  intros [= <-]. exists (take i table), (drop (S (i + length name)) table). split; [|rewrite length_take; lia].
  destruct (lookup_lt_is_Some_2 table (i + length name) He) as [z Hz].
  rewrite (list_lookup_total_correct _ _ _ Hz) in Ez. subst z.
  rewrite <- (drop_S table 0 (i + length name)) by done.
  rewrite <- Et at 1. rewrite <- drop_drop, take_drop. by rewrite take_drop.
Qed.

(** [string_offset] finds the name or adds it. *)
Lemma string_offset_spec name b :
  ∃ off ext, string_offset name b = (as_u32 off, b <| strings := strings b ++ ext |>) ∧
             name_at (strings b ++ ext) off name ∧ 0 <= off <= Z.of_nat (length (strings b)).
Proof.
  unfold string_offset. destruct (find_string _ _ _ _) as [i|] eqn:E.
  - apply find_string_at in E as Hn. exists (Z.of_nat i), []. rewrite app_nil_r. split; [by destruct b|].
    split; [done|]. destruct Hn as (pre & post & -> & Hi). rewrite !length_app. lia.
  - exists (Z.of_nat (length (strings b))), (name ++ [0]). split; [done|]. split; [|lia].
    exists (strings b), []. done.
Qed.

(** ** The structure block *)

Definition prop_bytes (off : Z) (value : list Z) : list Z :=
  to_be_bytes 4 FDT_PROP ++ to_be_bytes 4 (Z.of_nat (length value)) ++ to_be_bytes 4 off ++ padded value.

(** The bytes of a token, given the strings block. *)
Inductive encodes (strs : list Z) : Token -> list Z -> Prop :=
  | enc_begin name : encodes strs (TBegin name) (to_be_bytes 4 FDT_BEGIN_NODE ++ padded (name ++ [0]))
  | enc_end : encodes strs TEnd (to_be_bytes 4 FDT_END_NODE)
  | enc_prop name value off :
      name_at strs off name → 0 <= off <= Z.of_nat (length strs) → encodes strs (TProp name value) (prop_bytes off value).
#[export] Hint Constructors encodes : dtb.

Lemma encodes_app strs ext tok bytes : encodes strs tok bytes → encodes (strs ++ ext) tok bytes.
Proof. intros []; constructor; [by apply name_at_app | rewrite length_app; lia]. Qed.

Lemma encodes_aligned strs tok bytes : encodes strs tok bytes → aligned bytes.
Proof. intros []; unfold prop_bytes; auto 8 with dtb. Qed.

(** A property, whatever its value is pushed as. *)
Definition emits (f : DtbBuilder -> DtbBuilder) (tok : Token) : Prop :=
  ∀ b, aligned (structure_block b) → ∃ bytes ext,
    f b = mkDtb (structure_block b ++ bytes) (strings b ++ ext) ∧ encodes (strings b ++ ext) tok bytes.

Lemma emits_prop name len value (push : DtbBuilder -> DtbBuilder) :
  as_u32 len = as_u32 (Z.of_nat (length value)) →
  (∀ b, aligned (structure_block b) → push b = extend (padded value) b) →
  emits (fun b => push (prop_header name len b)) (TProp name value).
Proof.
  intros Hlen Hp b Ha. destruct (string_offset_spec name b) as (off & ext & E & Hn & Hr).
  exists (prop_bytes off value), ext. split; [|constructor; [done | rewrite length_app; lia]].
  unfold prop_header. rewrite E. unfold push_u32. rewrite !extend_extend.
  rewrite Hp; [|cbn -[to_be_bytes]; auto 8 with dtb].
  unfold extend, prop_bytes. cbn -[to_be_bytes padded]. f_equal.
  by rewrite <- !app_assoc, be_wrap, <- (be_wrap len), Hlen, be_wrap.
Qed.

Lemma mjoin_cons {A} (x : list A) l : mjoin (x :: l) = x ++ mjoin l.
Proof. done. Qed.

Lemma foldl_extend {A} (f : A -> list Z) l b :
  foldl (fun b x => extend (f x) b) b l = extend (mjoin (map f l)) b.
Proof.
  revert b. induction l as [|x l IH]; intros b; cbn.
  - unfold extend. cbn. rewrite app_nil_r. by destruct b.
  - by rewrite IH, extend_extend.
Qed.

Lemma cells_aligned cells : length (mjoin (map (to_be_bytes 4) cells)) = (4 * length cells)%nat.
Proof. induction cells as [|c cells IH]; [done|]. rewrite map_cons, mjoin_cons, length_app, length_be, IH. cbn. lia. Qed.

Lemma strlist_length vs :
  foldr (fun v sum => Z.of_nat (length v) + 1 + sum) 0 vs = Z.of_nat (length (mjoin (map (fun v : list Z => v ++ [0]) vs))).
Proof.
  induction vs as [|v vs IH]; [done|]. rewrite map_cons, mjoin_cons, !length_app, length_cons. cbn [foldr]. rewrite IH.
  cbn [length]. lia.
Qed.

(** Every call emits its token. *)
Lemma op_emits op : emits (dtb_op op) (op_token op).
Proof.
  assert (Hword : ∀ name v, emits (prop_u32 name v) (TProp name (to_be_bytes 4 v))).
  { intros name v. apply (emits_prop name 4 _ (push_u32 v)); [by rewrite length_be|].
    intros b _. unfold push_u32. by rewrite padded_id by auto with dtb. }
  destruct op as [name| |name v|name v|name v|addr size|name vs|name|name cells|irq|ph|ph]; cbn [dtb_op op_token]; try apply Hword.
  - intros b Ha. exists (to_be_bytes 4 FDT_BEGIN_NODE ++ padded (name ++ [0])), []. rewrite app_nil_r. split; [|constructor].
    unfold begin_node, push_u32. rewrite align_extend by (cbn -[to_be_bytes]; auto with dtb). by rewrite extend_extend.
  - intros b Ha. exists (to_be_bytes 4 FDT_END_NODE), []. rewrite app_nil_r. split; [done | constructor].
  - apply (emits_prop name 8 _ (fun b => push_u32 (as_u32 v) (push_u32 (as_u32 (Z.shiftr v 32)) b))); [by rewrite length_be|].
    intros b _. unfold push_u32. rewrite extend_extend, !be_wrap, be8_split. by rewrite padded_id by auto with dtb.
  - apply (emits_prop name (as_u32 (Z.of_nat (length v) + 1)) _ (fun b => align_to_4_bytes (extend (v ++ [0]) b))).
    + unfold as_u32. rewrite wrap_wrap by lia. rewrite length_app. cbn. by replace (Z.of_nat (length v + 1)) with (Z.of_nat (length v) + 1) by lia.
    + intros b Hb. by apply align_extend.
  - apply (emits_prop (as_bytes "reg") 16 _ (fun b => push_u32 (as_u32 size) (push_u32 (as_u32 (Z.shiftr size 32))
      (push_u32 (as_u32 addr) (push_u32 (as_u32 (Z.shiftr addr 32)) b))))); [by rewrite length_app, !length_be|].
    intros b _. unfold push_u32. rewrite !extend_extend, !be_wrap, !be8_split, <- !app_assoc. by rewrite padded_id by auto 8 with dtb.
  - apply (emits_prop name _ _ (fun b => align_to_4_bytes (foldl (fun b v => extend (v ++ [0]) b) b vs))).
    + unfold as_u32. rewrite wrap_wrap by lia. by rewrite strlist_length.
    + intros b Hb. rewrite (foldl_extend (fun v => v ++ [0])). by apply align_extend.
  - apply (emits_prop name 0 [] (fun b => b)); [done|]. intros b _. unfold extend. cbn. rewrite app_nil_r. by destruct b.
  - apply (emits_prop name _ _ (fun b => foldl (fun b cell => push_u32 cell b) b cells)).
    + unfold as_u32. rewrite wrap_wrap by lia. rewrite cells_aligned. by replace (Z.of_nat (4 * length cells)) with (Z.of_nat (length cells) * 4) by lia.
    + intros b _. unfold push_u32. rewrite (foldl_extend (to_be_bytes 4)). rewrite padded_id; [done|].
      unfold aligned. rewrite cells_aligned. lia.
Qed.

(** The builder's blocks after any calls. *)
Lemma run_encodes ops b :
  aligned (structure_block b) → ∃ chunks ext,
    dtb_run ops b = mkDtb (structure_block b ++ mjoin chunks) (strings b ++ ext) ∧
    Forall2 (encodes (strings b ++ ext)) (map op_token ops) chunks.
Proof.
  revert b. induction ops as [|op ops IH]; intros b Ha; cbn.
  - exists [], []. cbn. rewrite !app_nil_r. split; [by destruct b | constructor].
  - destruct (op_emits op b Ha) as (bytes & ext1 & E1 & Henc).
    rewrite E1. destruct (IH (mkDtb (structure_block b ++ bytes) (strings b ++ ext1))) as (chunks & ext2 & E2 & Hall).
    { apply aligned_app; [done | by eapply encodes_aligned]. }
    exists (bytes :: chunks), (ext1 ++ ext2). unfold dtb_run in E2. rewrite E2. cbn in *. rewrite <- !app_assoc in *. split; [done|].
    constructor; [|done]. rewrite (app_assoc (strings b)). by apply encodes_app.
Qed.

(** ** Reading tokens *)

Definition token_ok (tok : Token) : bool :=
  match tok with TBegin name | TProp name _ => name_ok name | TEnd => true end.

Lemma drop_padded value l : drop (round_up (length value)) (padded value ++ l) = l.
Proof. apply drop_app_length'. by rewrite length_padded. Qed.

Lemma read_token strs tok bytes fuel l :
  encodes strs tok bytes → token_ok tok → Z.of_nat (length strs) < 2 ^ 32 → Z.of_nat (length bytes) < 2 ^ 32 →
  read_tokens (S fuel) strs (bytes ++ l) = cons tok <$> read_tokens fuel strs l.
Proof.
  intros He Hok Hs Hb. destruct He as [name| |name value off Hn Hr]; cbn [read_tokens].
  - rewrite <- app_assoc, read_be32_app. cbn [mbind option_bind].
    change (as_u32 FDT_BEGIN_NODE =? FDT_END) with false. change (as_u32 FDT_BEGIN_NODE =? FDT_BEGIN_NODE) with true. cbv iota zeta.
    assert (Hp : padded (name ++ [0]) ++ l = name ++ 0 :: padding (length (name ++ [0])) ++ l) by (unfold padded; by rewrite <- !app_assoc).
    assert (Hc : c_string (padded (name ++ [0]) ++ l) = name) by (rewrite Hp; by apply c_string_app).
    rewrite Hc. replace (length name + 1)%nat with (length (name ++ [0])) by (by rewrite length_app).
    by rewrite drop_padded.
  - by rewrite read_be32_app.
  - unfold prop_bytes in *. rewrite <- !app_assoc, read_be32_app. cbn [mbind option_bind].
    change (as_u32 FDT_PROP =? FDT_END) with false. change (as_u32 FDT_PROP =? FDT_BEGIN_NODE) with false.
    change (as_u32 FDT_PROP =? FDT_END_NODE) with false. change (as_u32 FDT_PROP =? FDT_PROP) with true. cbv iota.
    assert (Hl : (length value <= length (padded value))%nat) by (unfold padded; rewrite length_app; lia).
    rewrite !length_app, !length_be in Hb.
    do 2 (rewrite read_be32_app; cbn [mbind option_bind]). rewrite !as_u32_small, Nat2Z.id by lia.
    destruct (Nat.leb_spec (length value) (length (padded value ++ l))) as [_|Hlt]; [|rewrite length_app in Hlt; lia].
    rewrite drop_padded. rewrite (name_at_c_string _ _ _ Hn Hok). unfold padded. rewrite <- app_assoc, take_app_length. done.
Qed.

Lemma read_tokens_all strs toks chunks fuel :
  Forall2 (encodes strs) toks chunks → forallb token_ok toks → Z.of_nat (length strs) < 2 ^ 32 →
  Z.of_nat (length (mjoin chunks)) < 2 ^ 32 → (length toks < fuel)%nat →
  read_tokens fuel strs (mjoin chunks ++ to_be_bytes 4 FDT_END) = Some toks.
Proof.
  intros Hall. revert fuel. induction Hall as [|tok bytes toks chunks He Hall IH]; intros fuel Hok Hs Hb Hf;
    destruct fuel as [|fuel]; try (cbn in Hf; lia).
  - by vm_compute.
  - cbn in Hok. apply andb_prop_elim in Hok as [Hok1 Hok2]. rewrite mjoin_cons, length_app in Hb. cbn in Hf.
    rewrite mjoin_cons, <- app_assoc, (read_token _ tok) by (done || lia). by rewrite IH by (done || lia).
Qed.

(** Every token takes at least four bytes. *)
Lemma chunks_length strs toks chunks :
  Forall2 (encodes strs) toks chunks → (length toks <= length (mjoin chunks))%nat.
Proof.
  induction 1 as [|tok bytes toks chunks He _ IH]; [cbn; lia|]. rewrite mjoin_cons, length_app, length_cons.
  enough (4 <= length bytes)%nat by lia. destruct He; unfold prop_bytes; rewrite ?length_app, !length_be; lia.
Qed.

Lemma blocks_at (h s t : list Z) :
  block_at (Z.of_nat (length h)) (Z.of_nat (length s)) (h ++ s ++ t) = s ∧
  block_at (Z.of_nat (length h) + Z.of_nat (length s)) (Z.of_nat (length t)) (h ++ s ++ t) = t.
Proof.
  unfold block_at. rewrite !Nat2Z.id, drop_app_length, take_app_length. split; [done|].
  replace (Z.to_nat (Z.of_nat (length h) + Z.of_nat (length s))) with (length (h ++ s)) by (rewrite length_app; lia).
  by rewrite app_assoc, drop_app_length, take_ge by lia.
Qed.

Lemma header_word_at ws l i v :
  ws !! i = Some v → header_word i (mjoin (map (to_be_bytes 4) ws) ++ l) = as_u32 v.
Proof.
  revert i. induction ws as [|w ws IH]; intros i; [done|].
  rewrite map_cons, mjoin_cons, <- app_assoc. destruct i as [|i]; cbn [lookup list_lookup]; intros H.
  - injection H as ->. unfold header_word. change (4 * 0)%nat with 0%nat. rewrite drop_0. by rewrite take_app_length', from_to_be_bytes by (by rewrite length_be).
  - rewrite <- (IH i H). unfold header_word. do 2 f_equal.
    replace (4 * S i)%nat with (length (to_be_bytes 4 w) + 4 * i)%nat by (rewrite length_be; lia).
    by rewrite drop_app_add.
Qed.

Lemma foldl_push ws out : foldl push_big_endian_u32 out ws = out ++ mjoin (map (to_be_bytes 4) ws).
Proof.
  revert out. induction ws as [|w ws IH]; intros out; [by rewrite app_nil_r|].
  cbn [foldl]. rewrite IH, map_cons, mjoin_cons. unfold push_big_endian_u32. by rewrite <- app_assoc.
Qed.

Lemma length_finish b :
  length (finish b) = (60 + length (structure_block b) + length (strings b))%nat.
Proof.
  unfold finish. rewrite foldl_push. cbn [app]. rewrite !length_app, length_replicate, cells_aligned.
  cbn -[to_be_bytes]. rewrite length_app, length_be. lia.
Qed.

(** The header words, given the sizes of the two blocks. *)
Definition fdt_header (struct_size strings_size : Z) : list Z :=
  [FDT_MAGIC; 56 + struct_size + strings_size; 56; 56 + struct_size; 40; FDT_VERSION; 16; 0; strings_size; struct_size].

Lemma finish_blocks st strs :
  Z.of_nat (60 + length st + length strs) < 2 ^ 32 →
  let s := st ++ to_be_bytes 4 FDT_END in
  finish (mkDtb st strs)
  = mjoin (map (to_be_bytes 4) (fdt_header (Z.of_nat (length s)) (Z.of_nat (length strs)))) ++ replicate 16 0 ++ s ++ strs.
Proof.
  intros Hl s. assert (Hs : length s = (length st + 4)%nat) by (unfold s; by rewrite length_app, length_be).
  unfold finish, push_u32, extend. cbn [set structure_block strings]. fold s. rewrite foldl_push.
  unfold wrapping_add32, fdt_header. change (40 + 16) with 56.
  rewrite (as_u32_small (Z.of_nat (length s))), (as_u32_small (Z.of_nat (length strs))) by lia.
  by rewrite (as_u32_small (56 + Z.of_nat (length s))), (as_u32_small (56 + _ + _)) by lia.
Qed.

Definition fdt_example : list DtbOp :=
  [BeginNode []; PropU32 (as_bytes "#address-cells") 2; BeginNode (unit_name "memory" 0x80000000);
   PropReg 0x80000000 0x4000000; EndNode; PropCells (as_bytes "cells") [2; 3]; EndNode].

Lemma fdt_reads_back ops :
  forallb op_ok ops → Z.of_nat (length (finish (dtb_run ops dtb_new))) < 2 ^ 32 →
  read_fdt (finish (dtb_run ops dtb_new)) = Some (map op_token ops).
Proof.
  intros Hok Hlen. rewrite length_finish in Hlen.
  destruct (run_encodes ops dtb_new) as (chunks & strs & E & Hall); [done|]. rewrite E in *. cbn [structure_block strings dtb_new app] in *.
  assert (Htok : forallb token_ok (map op_token ops)) by (clear -Hok; induction ops; cbn in *; naive_solver).
  pose proof (chunks_length _ _ _ Hall) as Hn. set (s := mjoin chunks ++ to_be_bytes 4 FDT_END).
  assert (Hs : length s = (length (mjoin chunks) + 4)%nat) by (unfold s; rewrite length_app, length_be; done).
  rewrite finish_blocks by lia. fold s. unfold read_fdt.
  set (ws := fdt_header (Z.of_nat (length s)) (Z.of_nat (length strs))).
  assert (Hw : ∀ i v, ws !! i = Some v → 0 <= v < 2 ^ 32 →
    header_word i (mjoin (map (to_be_bytes 4) ws) ++ replicate 16 0 ++ s ++ strs) = v).
  { intros i v Hi Hv. rewrite (header_word_at _ _ _ v Hi). by apply as_u32_small. }
  rewrite (Hw 0%nat FDT_MAGIC), (Hw 1%nat (56 + Z.of_nat (length s) + Z.of_nat (length strs))), (Hw 2%nat 56),
    (Hw 3%nat (56 + Z.of_nat (length s))), (Hw 5%nat FDT_VERSION), (Hw 8%nat (Z.of_nat (length strs))),
    (Hw 9%nat (Z.of_nat (length s))) by (done || lia). clear Hw.
  set (h := mjoin (map (to_be_bytes 4) ws) ++ replicate 16 0).
  assert (Hh : Z.of_nat (length h) = 56) by (unfold h; by rewrite length_app, cells_aligned, length_replicate).
  rewrite app_assoc. fold h. destruct (blocks_at h s strs) as [B1 B2]. rewrite Hh in B1, B2. rewrite B1, B2.
  rewrite !length_app, !Z.eqb_refl. cbn [andb].
  destruct (Z.eqb_spec (56 + Z.of_nat (length s) + Z.of_nat (length strs)) (Z.of_nat (length h + (length s + length strs)))); [|lia].
  apply read_tokens_all; (done || lia).
Qed.

(** C33: a tree built by any calls with C-string names is read back.  The
    blob's header holds its true size, and the reader finds in it the token of
    every call, in order, names and values byte for byte: the sharing of names in
    the strings block and the padding of the structure block lose nothing. *)
Theorem device_tree_reads_back ops :
  forallb op_ok ops → Z.of_nat (length (finish (dtb_run ops dtb_new))) < 2 ^ 32 →
  read_fdt (finish (dtb_run ops dtb_new)) = Some (map op_token ops).
Proof. apply fdt_reads_back. Qed.

Lemma device_tree_reads_back_witness :
  read_fdt (finish (dtb_run fdt_example dtb_new)) = Some (map op_token fdt_example).
Proof. apply device_tree_reads_back; vm_compute; done. Defined.
