(* ===== verification/Boot.v ===== *)
(** Booting a machine: the images are placed in RAM, the device tree behind them,
    and the hart is pointed at the kernel ([boot] of [machine/src/machine_bus.rs]).
    The boot message and the copy of the tree written to the host are left out. *)
From Stdlib Require Import String Ascii.
From S2P Require Import Prelude Words Wp Gpr SystemBus Run RamLaws Io CowRam CowRamProps Layout Clint Plic Uart.
From S2P Require Import Virtio VirtioConsole VirtioBlk VirtioNet MachineBus MachineRam Dtb.

(** [Option::is_some] *)
Definition is_some {A} (o : option A) : bool := match o with Some _ => true | None => false end.

Definition ELF_MAGIC : list Z := [0x7f; 0x45; 0x4c; 0x46].
Definition MZ_MAGIC : list Z := [0x4d; 0x5a].

(** [u64::from_le_bytes(kernel[i..i + 8])] *)
Definition u64_at (i : nat) (bytes : list Z) : Z := from_le_bytes (take 8 (drop i bytes)).

(** The entry point and the place of the kernel in RAM. *)
Definition kernel_entry_and_offset (kernel : list Z) : Z * Z :=
  if (64 <=? length kernel)%nat && bool_decide (take 4 kernel = ELF_MAGIC) then
    let entry_point := u64_at 24 kernel in
    (entry_point, Z.max 0 (entry_point - RAM_BASE))
  else if (16 <=? length kernel)%nat && bool_decide (take 2 kernel = MZ_MAGIC) then
    let text_offset := u64_at 8 kernel in
    (wrapping_add64 RAM_BASE text_offset, text_offset)
  else (RAM_BASE + KERNEL_OFFSET, KERNEL_OFFSET).

Definition kernel_place (bios : option (list Z)) (kernel : list Z) : Z * Z :=
  if is_some bios then (RAM_BASE, KERNEL_OFFSET) else kernel_entry_and_offset kernel.

Definition len64 (bytes : list Z) : Z := Z.of_nat (length bytes).

(** The end of the kernel, up to a page. *)
Definition kernel_end_aligned (kernel_load_offset : Z) (kernel : list Z) : Z :=
  wrapping_add64 kernel_load_offset (Z.land (wrapping_add64 (len64 kernel) 0xfff) (not64 0xfff)).

(** Where the initial file system goes. *)
Definition initrd_offset (bios : option (list Z)) (kernel_end : Z) : Z :=
  let after_kernel_aligned := Z.land (wrapping_add64 kernel_end 0xffffff) (not64 0xfffff) in
  if is_some bios then Z.max after_kernel_aligned 0x4000000 else after_kernel_aligned.

Definition dtb_offset (bios : option (list Z)) (ram_size dtb_len : Z) : Z :=
  if is_some bios then 0x2200000 else Z.land (wrapping_sub64 ram_size dtb_len) (not64 0xfff).

(** What the hart starts with. *)
Definition set_entry (entry_point dtb_physical_address : Z) (h : Hart) : Hart :=
  h <| hart_regs := gpr_write 11 dtb_physical_address (gpr_write 10 0 ((hart_regs h) <| pc := entry_point |>)) |>.

Section Boot.
Context {LB : LoopBound} {N F T : Type} {NB : NetworkBackend N} {FD : FsDevice F} {ST_ : TracesSyscalls T}.
Abbreviation Bus := (MachineBus N F T).

(** [assert!] *)
Definition assert {S} (c : bool) : ST S unit := if c then mret tt else panic.

Definition on_bus {A} (m : ST Bus A) : ST (Bus * Hart) A := zoom fst (fun b s => (b, s.2)) m.

Definition load_initrd (bios initrd : option (list Z)) (kernel_end ram_size : Z) : ST (Bus * Hart) (Z * Z) :=
  match initrd with
  | Some initrd_data =>
      let start_offset := initrd_offset bios kernel_end in
      assert (wrapping_add64 start_offset (len64 initrd_data) <=? ram_size);;
      on_bus (load_ram start_offset initrd_data);;
      let end_offset := wrapping_add64 start_offset (len64 initrd_data) in
      mret (wrapping_add64 RAM_BASE start_offset, wrapping_add64 RAM_BASE end_offset)
  | None => mret (0, 0)
  end.

(** The calls that make the machine's tree. *)
Definition boot_tree (b : Bus) (bootargs : list Z) (initrd_start initrd_end : Z) : list DtbOp :=
  build_ops RAM_BASE (bus_ram_size b) UART_BASE CLINT_BASE PLIC_BASE UART_IRQ TIMER_FREQUENCY VIRTIO_BASE VIRTIO_SIZE
    [VIRTIO_BLK_IRQ; VIRTIO_CONSOLE_IRQ; VIRTIO_NET_IRQ]
    (is_some (blk b)) (is_some (net b)) (Z.to_nat VIRTIO_MAX_FS) bootargs initrd_start initrd_end
    UART_STDERR_BASE UART_STDERR_IRQ UART_CTRL_BASE UART_CTRL_IRQ UART_DATA_BASE UART_DATA_IRQ.

Definition boot_dtb (b : Bus) (bootargs : list Z) (initrd_start initrd_end : Z) : list Z :=
  finish (dtb_run (boot_tree b bootargs initrd_start initrd_end) dtb_new).

Definition boot (bios : option (list Z)) (kernel : list Z) (initrd : option (list Z)) (bootargs : list Z) :
    ST (Bus * Hart) unit :=
  ram_size ← gets (fun s => bus_ram_size s.1);
  let (entry_point, kernel_load_offset) := kernel_place bios kernel in
  (match bios with
   | Some bios_data => on_bus (load_ram 0 bios_data)
   | None => mret tt
   end);;
  on_bus (load_ram kernel_load_offset kernel);;
  place ← load_initrd bios initrd (kernel_end_aligned kernel_load_offset kernel) ram_size;
  let (initrd_start, initrd_end) := place : Z * Z in
  dtb_data ← gets (fun s => boot_dtb s.1 bootargs initrd_start initrd_end);
  let dtb_offset := dtb_offset bios ram_size (len64 dtb_data) in
  assert (wrapping_add64 dtb_offset (len64 dtb_data) <=? ram_size);;
  let dtb_physical_address := wrapping_add64 RAM_BASE dtb_offset in
  on_bus (load_ram dtb_offset dtb_data);;
  dtb_magic ← on_bus (bus_peek (fun b => cow_read_u32 dtb_offset (ram b)));
  modify (fun s => (s.1, set_entry entry_point dtb_physical_address s.2)).
End Boot.

(** * Properties

    What a booted machine holds. *)

(** ** The machine's tree is well formed *)

Lemma name_ok_app l1 l2 : name_ok l1 → name_ok l2 → name_ok (l1 ++ l2).
Proof. unfold name_ok. rewrite forallb_app. intros. apply andb_prop_intro. by split. Qed.

Lemma hex_digits_ok fuel n acc : 0 <= n → name_ok acc → name_ok (hex_digits fuel n acc).
Proof.
  revert n acc. induction fuel as [|fuel IH]; intros n acc Hn Ha; cbn; [done|].
  assert (Hc : name_ok (hex_digit (n mod 16) :: acc)).
  { apply andb_prop_intro. split; [|done]. pose proof (Z.mod_pos_bound n 16 ltac:(lia)). unfold hex_digit.
    case_if; (apply Is_true_true, negb_true_iff, Z.eqb_neq; lia). }
  case_if; [done|]. apply IH; [apply Z.div_pos; lia | done].
Qed.

Lemma unit_name_ok s base : 0 <= base → name_ok (as_bytes s) → name_ok (unit_name s base).
Proof. intros. apply name_ok_app; [done|]. apply name_ok_app; [done|]. by apply hex_digits_ok. Qed.

Lemma forallb_mjoin {A B} (p : B -> bool) (f : A -> list B) l :
  (∀ x, forallb p (f x)) → forallb p (mjoin (map f l)).
Proof.
  intros H. induction l as [|x l IH]; [done|]. rewrite map_cons, mjoin_cons, forallb_app.
  apply andb_prop_intro. by split.
Qed.

Lemma ops_cons op l : op_ok op → forallb op_ok l → forallb op_ok (op :: l).
Proof. intros. apply andb_prop_intro. by split. Qed.

Lemma ops_app l1 l2 : forallb op_ok l1 → forallb op_ok l2 → forallb op_ok (l1 ++ l2).
Proof. intros. rewrite forallb_app. apply andb_prop_intro. by split. Qed.

(** A list of calls whose names are literals or [unit_name]s of an address. *)
Ltac ops_ok :=
  repeat lazymatch goal with
  | |- Is_true (forallb op_ok (_ :: _)) => apply ops_cons
  | |- Is_true (forallb op_ok (_ ++ _)) => apply ops_app
  | |- Is_true (forallb op_ok []) => exact I
  | |- Is_true (op_ok (BeginNode (unit_name _ _))) => apply unit_name_ok; [done | exact I]
  | |- Is_true (op_ok _) => exact I
  end.

Lemma virtio_node_ok base size irq s : 0 <= base → forallb op_ok (virtio_node base size irq s).
Proof. intros. unfold virtio_node. ops_ok. Qed.

Lemma uart_node_ok base irq : 0 <= base → forallb op_ok (uart_node base irq).
Proof. intros. unfold uart_node. ops_ok. Qed.

Lemma tree_ok ram_base ram_size uart_base clint_base plic_base uart_irq freq virtio_base virtio_size irqs has_blk has_net num_fs
    bootargs s e stderr_base stderr_irq ctrl_base ctrl_irq data_base data_irq :
  0 <= ram_base → 0 <= uart_base → 0 <= clint_base → 0 <= plic_base → 0 <= stderr_base → 0 <= ctrl_base → 0 <= data_base →
  forallb op_ok (build_ops ram_base ram_size uart_base clint_base plic_base uart_irq freq virtio_base virtio_size irqs
    has_blk has_net num_fs bootargs s e stderr_base stderr_irq ctrl_base ctrl_irq data_base data_irq).
Proof.
  intros. assert (Hv : ∀ x, 0 <= as_u64 x) by (intros; apply wrap_range; lia).
  unfold build_ops. ops_ok; try (by apply uart_node_ok).
  - case_if; ops_ok.
  - apply forallb_mjoin. intros [i [irq name]]. do 2 (case_if; [done|]). apply virtio_node_ok, Hv.
  - apply forallb_mjoin. intros i. apply virtio_node_ok, Hv.
Qed.

(** ** The tree is made of bytes *)

Definition dtb_bytes (b : DtbBuilder) : Prop := Forall is_u8 (structure_block b) ∧ Forall is_u8 (strings b).

(** The strings of a call. *)
Definition op_strings (op : DtbOp) : list (list Z) :=
  match op with
  | BeginNode name | PropU32 name _ | PropU64 name _ | PropEmpty name | PropCells name _ => [name]
  | PropStr name value => [name; value]
  | PropStrlist name values => name :: values
  | _ => []
  end.

Lemma extend_bytes l b : Forall is_u8 l → dtb_bytes b → dtb_bytes (extend l b).
Proof. intros Hl [Hs Ht]. split; cbn; [|done]. by apply Forall_app. Qed.

Lemma push_bytes v b : dtb_bytes b → dtb_bytes (push_u32 v b).
Proof. apply extend_bytes, be_u8. Qed.

Lemma align_bytes b : dtb_bytes b → dtb_bytes (align_to_4_bytes b).
Proof.
  intros [Hs Ht]. split; [|done]. cbn -[align_loop]. generalize 4%nat. intros fuel. revert Hs. generalize (structure_block b).
  induction fuel as [|fuel IH]; intros l Hl; cbn [align_loop]; [done|]. case_if; [done|]. apply IH, Forall_app. by split; [|constructor].
Qed.

Lemma header_bytes name len b : Forall is_u8 name → dtb_bytes b → dtb_bytes (prop_header name len b).
Proof.
  intros Hn Hb. unfold prop_header, string_offset. destruct (find_string _ _ _ _); do 3 apply push_bytes; [done|].
  destruct Hb as [Hs Ht]. split; [done|]. cbn. apply Forall_app. split; [done|]. apply Forall_app. by split; [|constructor].
Qed.

Create HintDb dtb_bytes discriminated.
#[export] Hint Resolve as_bytes_u8 be_u8 push_bytes extend_bytes align_bytes header_bytes : dtb_bytes.

Lemma terminated_u8 l : Forall is_u8 l → Forall is_u8 (l ++ [0]).
Proof. intros. apply Forall_app. by split; [|constructor]. Qed.
#[export] Hint Resolve terminated_u8 : dtb_bytes.

Lemma op_bytes op b : Forall (Forall is_u8) (op_strings op) → dtb_bytes b → dtb_bytes (dtb_op op b).
Proof.
  intros Hop Hb.
  destruct op; cbn [op_strings dtb_op] in *; repeat match goal with H : Forall _ (_ :: _) |- _ => apply list.Forall_cons in H as [? ?] end;
    unfold begin_node, end_node, prop_u32, prop_u64, prop_str, prop_reg, prop_strlist, prop_empty, prop_cells, prop_interrupts,
      prop_interrupt_parent, prop_phandle, prop_u32; auto 12 with dtb_bytes.
  - apply align_bytes. assert (Hh : dtb_bytes (prop_header name (as_u32 (foldr (fun v sum => Z.of_nat (length v) + 1 + sum) 0 values)) b))
      by auto with dtb_bytes.
    revert Hh. generalize (prop_header name (as_u32 (foldr (fun v sum => Z.of_nat (length v) + 1 + sum) 0 values)) b).
    induction values as [|v vs IH]; intros d Hd; cbn; [done|].
    apply list.Forall_cons in H0 as [Hv Hvs]. apply IH; auto with dtb_bytes.
  - assert (Hh : dtb_bytes (prop_header name (as_u32 (Z.of_nat (length cells) * 4)) b)) by auto with dtb_bytes.
    revert Hh. generalize (prop_header name (as_u32 (Z.of_nat (length cells) * 4)) b).
    induction cells as [|v vs IH]; intros d Hd; cbn; [done|]. apply IH. auto with dtb_bytes.
Qed.

Lemma run_bytes ops b :
  Forall (fun op => Forall (Forall is_u8) (op_strings op)) ops → dtb_bytes b → dtb_bytes (dtb_run ops b).
Proof. intros H. revert b. induction H as [|op ops Hop _ IH]; intros b Hb; [done|]. by apply IH, op_bytes. Qed.

Lemma app_u8 (l1 l2 : list Z) : Forall is_u8 l1 → Forall is_u8 l2 → Forall is_u8 (l1 ++ l2).
Proof. intros. by apply Forall_app. Qed.

Lemma cells_u8 ws : Forall is_u8 (mjoin (map (to_be_bytes 4) ws)).
Proof. induction ws as [|w ws IH]; [constructor|]. rewrite map_cons, mjoin_cons. apply app_u8; [apply be_u8 | done]. Qed.

Lemma finish_bytes b : dtb_bytes b → Forall is_u8 (finish b).
Proof.
  intros Hb. apply (push_bytes FDT_END) in Hb as [Hs Ht]. unfold finish. rewrite foldl_push. cbn [app].
  apply app_u8; [apply cells_u8|]. apply app_u8; [by apply Forall_replicate | by apply app_u8].
Qed.

Lemma hex_digits_u8 fuel n acc : Forall is_u8 acc → Forall is_u8 (hex_digits fuel n acc).
Proof.
  revert n acc. induction fuel as [|fuel IH]; intros n acc Ha; cbn; [done|].
  assert (Hc : Forall is_u8 (hex_digit (n mod 16) :: acc)).
  { constructor; [|done]. pose proof (Z.mod_pos_bound n 16 ltac:(lia)). unfold hex_digit, is_u8, is_word. case_if; lia. }
  case_if; [done|]. by apply IH.
Qed.

Lemma format_hex_u8 n : Forall is_u8 (format_hex n).
Proof. apply hex_digits_u8. constructor. Qed.

#[export] Hint Resolve format_hex_u8 app_u8 : dtb_bytes.

(** Lists of calls whose strings are literals and numbers. *)
Ltac strings_ok :=
  repeat match goal with
  | |- Forall _ (_ ++ _) => apply Forall_app; split
  | |- Forall _ (_ :: _) => constructor
  | |- Forall _ [] => constructor
  | |- Forall _ (op_strings _) => cbn [op_strings]
  | |- Forall is_u8 _ => solve [auto 8 with dtb_bytes]
  | |- Forall _ (if ?c then _ else _) => destruct c
  end.

Lemma forall_mjoin {A B} (P : B -> Prop) (f : A -> list B) l : (∀ x, Forall P (f x)) → Forall P (mjoin (map f l)).
Proof. intros H. induction l as [|x l IH]; [constructor|]. rewrite map_cons, mjoin_cons. by apply Forall_app. Qed.

Lemma tree_strings ram_base ram_size uart_base clint_base plic_base uart_irq freq virtio_base virtio_size irqs has_blk has_net num_fs
    bootargs s e stderr_base stderr_irq ctrl_base ctrl_irq data_base data_irq :
  Forall is_u8 bootargs →
  Forall (fun op => Forall (Forall is_u8) (op_strings op))
    (build_ops ram_base ram_size uart_base clint_base plic_base uart_irq freq virtio_base virtio_size irqs
      has_blk has_net num_fs bootargs s e stderr_base stderr_irq ctrl_base ctrl_irq data_base data_irq).
Proof.
  intros Ha. unfold build_ops, uart_node, virtio_nodes, fs_nodes, virtio_node, unit_name.
  strings_ok.
  - cbn [map]. strings_ok.
  - apply forall_mjoin. intros [i [irq name]]. strings_ok.
  - apply forall_mjoin. intros i. strings_ok.
Qed.

(** ** Where things are put *)

Lemma u64_at_word i bytes : Forall is_u8 bytes → is_u64 (u64_at i bytes).
Proof.
  intros H. unfold u64_at. pose proof (from_le_bytes_range (take 8 (drop i bytes)) ltac:(by apply Forall_take, Forall_drop)) as Hr.
  eapply is_word_mono; [|exact Hr]. rewrite length_take. lia.
Qed.

Lemma kernel_place_range bios kernel :
  Forall is_u8 kernel → is_u64 (kernel_place bios kernel).1 ∧ 0 <= (kernel_place bios kernel).2.
Proof.
  intros H. unfold kernel_place, kernel_entry_and_offset. destruct bios; cbn [is_some]; [done|].
  pose proof (u64_at_word 24 kernel H). pose proof (u64_at_word 8 kernel H) as [? _].
  case_if; [split; cbn; [done | lia]|]. case_if; [|done]. split; cbn; [apply wrap_range; lia | done].
Qed.

(** Clearing the low bits of an address rounds it down. *)
Lemma align_down k a : is_u64 a → 0 <= k <= 64 → Z.land a (not64 (2 ^ k - 1)) = a - a mod 2 ^ k.
Proof.
  intros Ha Hk. replace (2 ^ k - 1) with (Z.ones k) by (rewrite Z.ones_equiv; lia).
  assert (E : Z.land a (not64 (Z.ones k)) = Z.ldiff a (Z.ones k)).
  { apply Z.bits_inj'. intros i Hi. rewrite Z.land_spec, Z.ldiff_spec, not64_bits by done.
    destruct (Z.ltb_spec i 64); [done|]. by rewrite (testbit_high 64 a i Ha). }
  rewrite E, Z.ldiff_ones_r, Z.shiftl_mul_pow2, Z.shiftr_div_pow2 by lia. pose proof (Z.div_mod a (2 ^ k) ltac:(lia)). lia.
Qed.

Lemma kernel_end_above koff kernel :
  0 <= koff → koff + len64 kernel < 2 ^ 62 →
  koff + len64 kernel <= kernel_end_aligned koff kernel < koff + len64 kernel + 0x1000.
Proof.
  intros Hk Hl. unfold kernel_end_aligned, wrapping_add64, as_u64, len64 in *.
  rewrite (wrap_id 64 (Z.of_nat (length kernel) + 0xfff)) by (unfold is_word; lia). change 0xfff with (2 ^ 12 - 1).
  rewrite align_down by (unfold is_u64, is_word; lia).
  pose proof (Z.mod_pos_bound (Z.of_nat (length kernel) + (2 ^ 12 - 1)) (2 ^ 12) ltac:(lia)).
  rewrite wrap_id by (unfold is_word; lia). lia.
Qed.

(** The initial file system does not overlap the kernel. *)
Lemma initrd_above bios ke : 0 <= ke < 2 ^ 63 → ke <= initrd_offset bios ke < 2 ^ 64.
Proof.
  intros Hk. unfold initrd_offset, wrapping_add64, as_u64. rewrite wrap_id by (unfold is_word; lia).
  change 0xfffff with (2 ^ 20 - 1). rewrite align_down by (unfold is_u64, is_word; lia).
  pose proof (Z.mod_pos_bound (ke + 0xffffff) (2 ^ 20) ltac:(lia)). case_if; lia.
Qed.

Lemma dtb_offset_below bios size len :
  0 <= len <= size → size < 2 ^ 62 → 0 <= dtb_offset bios size len ∧ (bios = None → dtb_offset bios size len + len <= size).
Proof.
  intros Hl Hs. unfold dtb_offset, wrapping_sub64, as_u64. rewrite wrap_id by (unfold is_word; lia).
  change 0xfff with (2 ^ 12 - 1). rewrite align_down by (unfold is_u64, is_word; lia).
  pose proof (Z.mod_pos_bound (size - len) (2 ^ 12) ltac:(lia)). pose proof (Z.mod_le (size - len) (2 ^ 12) ltac:(lia) ltac:(lia)).
  destruct bios; cbn [is_some]; split; (done || lia).
Qed.

Lemma bind_runs {S A B} (m : ST S A) (k : A -> ST S B) s a s' : m s = Some (a, s') → (m ≫= k) s = k a s'.
Proof. intros E. run_st. by rewrite E. Qed.

Lemma entry_registers entry a h : gpr_wf ((hart_regs h) <| pc := entry |>) →
  gpr_read 10 (hart_regs (set_entry entry a h)) = 0 ∧ gpr_read 11 (hart_regs (set_entry entry a h)) = a.
Proof.
  intros H. change (hart_regs (set_entry entry a h)) with (gpr_write 11 a (gpr_write 10 0 ((hart_regs h) <| pc := entry |>))).
  assert (gpr_wf (gpr_write 10 0 ((hart_regs h) <| pc := entry |>))) by (by apply gpr_write_wf).
  split; by rewrite !gpr_read_write by done.
Qed.

Section BootProps.
Context {LB : LoopBound} {N F T : Type} {NB : NetworkBackend N} {FD : FsDevice F} {ST_ : TracesSyscalls T}.
Abbreviation Bus := (MachineBus N F T).

(** RAM holds [bytes] at [off]. *)
Definition holds (b : Bus) (off : Z) (bytes : list Z) : Prop :=
  slice_get (cow_flat (ram b)) off (length bytes) = Some bytes.

(** [b'] is [b] with other RAM contents. *)
Record loaded (b b' : Bus) : Prop := {
  ld_rest : b' = b <| ram := ram b' |> <| epoch_source := epoch_source b' |>;
  ld_wf : cow_wf (ram b');
  ld_source : is_u64 (epoch_source b');
  ld_len : cow_len (ram b') = cow_len (ram b);
  ld_flat : length (cow_flat (ram b')) = length (cow_flat (ram b))
}.

Lemma loaded_refl b : cow_wf (ram b) → is_u64 (epoch_source b) → loaded b b.
Proof. intros. split; try done. by destruct b. Qed.

Lemma loaded_trans b1 b2 b3 : loaded b1 b2 → loaded b2 b3 → loaded b1 b3.
Proof.
  intros [E1 _ _ L1 F1] [E2 W2 S2 L2 F2]. split; [|done|done|congruence|congruence].
  rewrite E2, E1. by destruct b1.
Qed.

Lemma holds_apart b b' off bytes off' bytes' :
  slice_put (cow_flat (ram b)) off' bytes' = Some (cow_flat (ram b')) →
  off + len64 bytes <= off' ∨ off' + len64 bytes' <= off → holds b off bytes → holds b' off bytes.
Proof.
  intros P Ha. unfold holds, slice_get. rewrite (FlatRam.length_slice_put _ _ _ _ P). case_if; [|done]. bools.
  intros [= E]. f_equal. rewrite <- E at 2. apply list_eq. intros i. rewrite !lookup_take, !lookup_drop. case_decide; [|done].
  apply (slice_put_lookup _ _ _ _ _ P). unfold len64 in Ha. lia.
Qed.

Lemma slice_put_fits l i bytes :
  0 <= i → i + len64 bytes <= Z.of_nat (length l) →
  slice_put l i bytes = Some (take (Z.to_nat i) l ++ bytes ++ drop (Z.to_nat i + length bytes) l).
Proof.
  unfold len64, slice_put. intros H1 H2. apply Z.leb_le in H1, H2. by rewrite H1, H2.
Qed.

Lemma load_spec b h off bytes :
  cow_wf (ram b) → is_u64 (epoch_source b) → Forall is_u8 bytes → 0 <= off → off + len64 bytes <= Z.of_nat (length (cow_flat (ram b))) →
  ∃ b', on_bus (load_ram off bytes) (b, h) = Some (tt, (b', h)) ∧ loaded b b' ∧
        slice_put (cow_flat (ram b)) off bytes = Some (cow_flat (ram b')).
Proof.
  intros Hw Hs Hb Ho Hl. unfold on_bus, load_ram, bus_ram. run_st. cbn [fst].
  destruct (decide (bytes = [])) as [->|Hne].
  - exists b. split; [by destruct b|]. split; [by apply loaded_refl|].
    rewrite slice_put_fits by done. cbn. by rewrite Nat.add_0_r, take_drop.
  - pose proof (write_from_writes (length bytes) off bytes Ho ltac:(lia) Hne Hb (ram b) (epoch_source b) Hw Hs) as W.
    rewrite slice_put_fits in * by done. set (l := take _ _ ++ _) in *.
    assert (P : slice_put (cow_flat (ram b)) off bytes = Some l) by (by apply slice_put_fits).
    destruct W as (r' & s' & E & Hr & Hf & Hwr). unfold write_from. rewrite E. cbn. eexists. split; [done|]. split; [|by rewrite <- Hf].
    split; cbn; [done | done | by eapply written_source | apply Hwr|]. rewrite Hf. by apply (FlatRam.length_slice_put _ _ _ _ P).
Qed.

Lemma load_step b0 b h off bytes :
  loaded b0 b → Forall is_u8 bytes → 0 <= off → off + len64 bytes <= Z.of_nat (length (cow_flat (ram b0))) →
  ∃ b', on_bus (load_ram off bytes) (b, h) = Some (tt, (b', h)) ∧ loaded b0 b' ∧ holds b' off bytes ∧
        ∀ o bs, o + len64 bs <= off ∨ off + len64 bytes <= o → holds b o bs → holds b' o bs.
Proof.
  intros L Hb Ho Hl. rewrite <- (ld_flat _ _ L) in Hl.
  destruct (load_spec b h off bytes (ld_wf _ _ L) (ld_source _ _ L) Hb Ho Hl) as (b' & E & L' & P).
  exists b'. split; [done|]. split; [by eapply loaded_trans|]. split; [by apply (slice_get_put _ _ _ _ P)|].
  intros o bs Ha. by apply (holds_apart _ _ _ _ _ _ P).
Qed.

Lemma loaded_tree b b' bootargs s e : loaded b b' → boot_dtb b' bootargs s e = boot_dtb b bootargs s e.
Proof. intros L. unfold boot_dtb, boot_tree, bus_ram_size. rewrite (ld_len _ _ L), (ld_rest _ _ L). done. Qed.

(** ** A booted machine *)

Section Booting.
Context (b : Bus) (bios : option (list Z)) (kernel : list Z) (initrd : option (list Z)) (bootargs : list Z).

Definition kernel_at : Z := (kernel_place bios kernel).2.
Definition initrd_at : Z := initrd_offset bios (kernel_end_aligned kernel_at kernel).

(** The physical addresses of the initial file system, zeros if there is none. *)
Definition initrd_range : Z * Z :=
  match initrd with
  | Some d => (RAM_BASE + initrd_at, RAM_BASE + (initrd_at + len64 d))
  | None => (0, 0)
  end.
Definition tree : list Z := boot_dtb b bootargs initrd_range.1 initrd_range.2.
Definition tree_at : Z := dtb_offset bios (bus_ram_size b) (len64 tree).

(** RAM is large enough, and the tree does not come to lie on the kernel or the
    initial file system. *)
Record boot_fits : Prop := {
  bf_ram : cow_wf (ram b);
  bf_source : is_u64 (epoch_source b);
  bf_room : bus_ram_size b <= Z.of_nat (length (cow_flat (ram b)));
  bf_size : bus_ram_size b < 2 ^ 62;
  bf_kernel_bytes : Forall is_u8 kernel;
  bf_bios_bytes d : bios = Some d → Forall is_u8 d ∧ len64 d <= kernel_at;
  bf_initrd_bytes d : initrd = Some d → Forall is_u8 d ∧ initrd_at + len64 d <= bus_ram_size b;
  bf_args : Forall is_u8 bootargs;
  bf_kernel : kernel_at + len64 kernel <= bus_ram_size b;
  bf_tree : len64 tree < 2 ^ 32 ∧ len64 tree <= bus_ram_size b;
  bf_bios_tree : bios ≠ None → 0x2200000 + len64 tree <= bus_ram_size b;
  bf_kernel_tree : kernel_at + len64 kernel <= tree_at;
  bf_initrd_tree d : initrd = Some d → initrd_at + len64 d <= tree_at ∨ tree_at + len64 tree <= initrd_at
}.

Lemma tree_u8 : Forall is_u8 bootargs → Forall is_u8 tree.
Proof. intros H. apply finish_bytes, run_bytes; [by apply tree_strings | by split]. Qed.

Lemma tree_reads : len64 tree < 2 ^ 32 →
  read_fdt tree = Some (map op_token (boot_tree b bootargs initrd_range.1 initrd_range.2)).
Proof. intros H. apply fdt_reads_back; [by apply tree_ok | done]. Qed.

(** The first part of booting: the images are in RAM. *)
Lemma images_loaded h : boot_fits →
  ∃ b1 b2 : Bus,
    match bios with Some d => on_bus (load_ram 0 d) | None => mret tt end (b, h) = Some (tt, (b1, h)) ∧
    on_bus (load_ram kernel_at kernel) (b1, h) = Some (tt, (b2, h)) ∧ loaded b b2 ∧
    holds b2 kernel_at kernel ∧ ∀ d, bios = Some d → holds b2 0 d.
Proof.
  intros H. pose proof (kernel_place_range bios kernel (bf_kernel_bytes H)) as [_ Hk].
  assert (L0 : loaded b b) by (apply loaded_refl; apply H).
  assert (∃ b1 : Bus, match bios with Some d => on_bus (load_ram 0 d) | None => mret tt end (b, h) = Some (tt, (b1, h)) ∧
            loaded b b1 ∧ ∀ d, bios = Some d → holds b1 0 d) as (b1 & E1 & L1 & H1).
  { destruct bios as [d|] eqn:Eb; [|by exists b].
    destruct (bf_bios_bytes H d Eb) as [Hd Hl]. pose proof (bf_kernel H). pose proof (bf_room H).
    assert (0 <= len64 kernel) by (unfold len64; lia).
    destruct (load_step b b h 0 d L0 Hd ltac:(lia) ltac:(lia)) as (b1 & E & L & Hh & _). exists b1. split; [done|]. split; [done|].
    by intros ? [= <-]. }
  pose proof (bf_kernel H). pose proof (bf_room H).
  destruct (load_step b b1 h kernel_at kernel L1 (bf_kernel_bytes H) Hk ltac:(lia)) as (b2 & E2 & L2 & Hh2 & Hold).
  exists b1, b2. do 4 (split; [done|]).
  intros d Hd. apply Hold; [|by apply H1]. left. apply (bf_bios_bytes H d Hd).
Qed.

(** The second part: the initial file system. *)
Lemma initrd_loaded h (b2 : Bus) : boot_fits → loaded b b2 →
  ∃ b3 : Bus, load_initrd bios initrd (kernel_end_aligned kernel_at kernel) (bus_ram_size b) (b2, h) = Some (initrd_range, (b3, h)) ∧
    loaded b b3 ∧ (∀ d, initrd = Some d → holds b3 initrd_at d) ∧
    ∀ o bs, o + len64 bs <= kernel_at + len64 kernel → holds b2 o bs → holds b3 o bs.
Proof.
  intros H L2. pose proof (kernel_place_range bios kernel (bf_kernel_bytes H)) as [_ Hk]. fold kernel_at in Hk.
  pose proof (bf_kernel H). pose proof (bf_size H). pose proof (bf_room H).
  destruct (kernel_end_above kernel_at kernel Hk ltac:(lia)) as [Hke1 Hke2].
  assert (0 <= len64 kernel) by (unfold len64; lia).
  destruct (initrd_above bios (kernel_end_aligned kernel_at kernel) ltac:(lia)) as [Hi1 Hi2]. fold initrd_at in Hi1, Hi2.
  unfold load_initrd, initrd_range. destruct initrd as [d|] eqn:Ei; [|by exists b2].
  destruct (bf_initrd_bytes H d Ei) as [Hd Hfit]. fold initrd_at. assert (0 <= len64 d) by (unfold len64; lia).
  destruct (load_step b b2 h initrd_at d L2 Hd ltac:(lia) ltac:(lia)) as (b3 & E & L3 & Hh3 & Hold).
  exists b3. unfold wrapping_add64, as_u64, RAM_BASE. rewrite (wrap_id 64 (initrd_at + len64 d)), !(wrap_id 64) by (unfold is_word; lia).
  assert (Ea : (initrd_at + len64 d <=? bus_ram_size b) = true) by (by apply Z.leb_le). rewrite Ea.
  split; [by rewrite (bind_runs (assert _) _ (b2, h) tt (b2, h)), (bind_runs _ _ _ _ _ E)|]. split; [done|]. split; [by intros ? [= <-]|].
  intros o bs Ho. apply Hold. left. lia.
Qed.

(** The tree's first word can be read back. *)
Lemma tree_magic (b4 : Bus) :
  cow_wf (ram b4) → 0 <= tree_at → holds b4 tree_at tree → ∃ magic, cow_read_u32 tree_at (ram b4) = Some magic.
Proof.
  intros Hw H0 Hh. unfold cow_read_u32. rewrite cow_read_wide_is_slice by (done || lia). unfold holds, slice_get in *.
  revert Hh. case_if; [|done]. bools. intros _. assert (60 <= length tree)%nat by (unfold tree, boot_dtb; rewrite length_finish; lia).
  destruct (Z.leb_spec (tree_at + Z.of_nat 4) (Z.of_nat (length (cow_flat (ram b4))))); [|lia].
  apply Z.leb_le in H0. rewrite H0. cbn. eauto.
Qed.

(** [boot] is its parts in order. *)
Lemma boot_runs h (b1 b2 b3 b4 : Bus) :
  match bios with Some d => on_bus (load_ram 0 d) | None => mret tt end (b, h) = Some (tt, (b1, h)) →
  on_bus (load_ram kernel_at kernel) (b1, h) = Some (tt, (b2, h)) →
  load_initrd bios initrd (kernel_end_aligned kernel_at kernel) (bus_ram_size b) (b2, h) = Some (initrd_range, (b3, h)) →
  loaded b b3 → 0 <= tree_at → tree_at + len64 tree <= bus_ram_size b → bus_ram_size b < 2 ^ 62 →
  on_bus (load_ram tree_at tree) (b3, h) = Some (tt, (b4, h)) → loaded b b4 → holds b4 tree_at tree →
  boot bios kernel initrd bootargs (b, h)
  = Some (tt, (b4, set_entry (kernel_place bios kernel).1 (RAM_BASE + tree_at) h)).
Proof.
  intros E1 E2 E3 L3 H0 Hfit Hsz E4 L4 Hh. unfold boot. rewrite (bind_runs (gets _) _ _ _ _ eq_refl). cbn [fst].
  unfold kernel_at in E2, E3. destruct (kernel_place bios kernel) as [entry koff] eqn:Ep. cbn [fst snd] in *.
  rewrite (bind_runs _ _ _ _ _ E1), (bind_runs _ _ _ _ _ E2), (bind_runs _ _ _ _ _ E3).
  destruct initrd_range as [s e] eqn:Er. rewrite (bind_runs (gets _) _ _ _ _ eq_refl). cbn [fst].
  rewrite (loaded_tree b b3 bootargs s e L3). replace (boot_dtb b bootargs s e) with tree by (unfold tree; by rewrite Er).
  cbv zeta. fold tree_at. assert (0 <= len64 tree) by (unfold len64; lia).
  unfold wrapping_add64, as_u64, RAM_BASE. rewrite !(wrap_id 64) by (unfold is_word; lia).
  rewrite (bind_runs (assert _) _ (b3, h) tt (b3, h)) by (apply Z.leb_le in Hfit; by rewrite Hfit).
  rewrite (bind_runs _ _ _ _ _ E4). assert (Hm : ∃ magic, cow_read_u32 tree_at (ram b4) = Some magic) by (apply tree_magic; [apply L4 | done | done]).
  destruct Hm as [magic Em]. by rewrite (bind_runs _ _ (b4, h) magic (b4, h)) by (unfold on_bus, bus_peek; run_st; cbn [fst]; by rewrite Em).
Qed.

(** C32: booting puts the images in RAM and starts the hart at the kernel.  If
    the images fit, [boot] returns; RAM then holds the firmware, the kernel, the
    initial file system and the device tree, each unharmed by the others; the tree
    reads back as the machine's description, with the physical range of the
    initial file system in it; the program counter is the entry point, [a0] the
    hart's number and [a1] the physical address of the tree; and nothing else of
    the machine changed. *)
Theorem boot_places_images h : boot_fits → gpr_wf (hart_regs h) →
  ∃ (b' : Bus) h', boot bios kernel initrd bootargs (b, h) = Some (tt, (b', h')) ∧
    holds b' kernel_at kernel ∧ (∀ d, bios = Some d → holds b' 0 d) ∧ (∀ d, initrd = Some d → holds b' initrd_at d) ∧
    holds b' tree_at tree ∧
    read_fdt tree = Some (map op_token (boot_tree b bootargs initrd_range.1 initrd_range.2)) ∧
    pc (hart_regs h') = (kernel_place bios kernel).1 ∧ gpr_read 10 (hart_regs h') = 0 ∧
    gpr_read 11 (hart_regs h') = RAM_BASE + tree_at ∧
    b' = b <| ram := ram b' |> <| epoch_source := epoch_source b' |> ∧ h' = h <| hart_regs := hart_regs h' |>.
Proof.
  intros H Hg. destruct (images_loaded h H) as (b1 & b2 & E1 & E2 & L2 & Hkern & Hbios).
  destruct (initrd_loaded h b2 H L2) as (b3 & E3 & L3 & Hinit & Hold).
  destruct (kernel_place_range bios kernel (bf_kernel_bytes H)) as [Hentry Hk].
  destruct (bf_tree H) as [Htl Hts]. assert (Ht0 : 0 <= len64 tree) by (unfold len64; lia).
  pose proof (bf_size H) as Hsz. pose proof (bf_room H) as Hroom.
  destruct (dtb_offset_below bios (bus_ram_size b) (len64 tree) ltac:(lia) ltac:(lia)) as [Hd0 Hd1]. fold tree_at in Hd0, Hd1.
  assert (Hfit : tree_at + len64 tree <= bus_ram_size b).
  { pose proof (bf_bios_tree H) as Hb. unfold tree_at, dtb_offset in *. destruct bios; cbn [is_some] in *; [by apply Hb | by apply Hd1]. }
  destruct (load_step b b3 h tree_at tree L3 (tree_u8 (bf_args H)) Hd0 ltac:(lia)) as (b4 & E4 & L4 & Htree & Hkeep).
  exists b4, (set_entry (kernel_place bios kernel).1 (RAM_BASE + tree_at) h). split.
  { apply (boot_runs h b1 b2 b3 b4); done || lia. }
  assert (Hpc : gpr_wf ((hart_regs h) <| pc := (kernel_place bios kernel).1 |>)) by (by apply set_pc_wf).
  pose proof (bf_kernel_tree H) as Hkt. pose proof (bf_initrd_tree H) as Hit.
  repeat split.
  - apply Hkeep; [left; lia|]. by apply Hold.
  - intros d Hd. destruct (bf_bios_bytes H d Hd) as [_ Hdl]. assert (0 <= len64 kernel) by (unfold len64; lia).
    apply Hkeep; [left; lia|]. apply Hold; [lia | by apply Hbios].
  - intros d Hd. apply Hkeep; [|by apply Hinit]. destruct (Hit d Hd); [by left | by right].
  - done.
  - by apply tree_reads.
  - apply entry_registers, Hpc.
  - apply entry_registers, Hpc.
  - apply L4.
Qed.
End Booting.
End BootProps.

(** ** A small machine boots *)

Section Demo.
Import NoDevices.

(** A kernel with an [MZ] header that asks for offset 0. *)
Definition demo_kernel : list Z := MZ_MAGIC ++ replicate 14 0.
Definition demo_initrd : option (list Z) := Some [1; 2; 3].

Lemma demo_boot_bus : ∃ b : MachineBus unit Empty_set Empty_set,
  machine_ram_ok b ∧ bus_ram_size b = 2 ^ 25 + 8 ∧ blk b = None ∧ net b = None.
Proof.
  destruct (bus_new_ram_ok (N := unit) (F := Empty_set) (T := Empty_set) 25 5 ltac:(lia) ltac:(lia) ltac:(vm_compute; done))
    as (r & b & _ & E & Hb & Hm).
  exists b. split; [done|]. split.
  - unfold bus_ram_size. destruct (mr_size b Hb) as (k & _ & Hk & ->). lia.
  - unfold bus_new in E. destruct (is_power_of_two _); [|done]. apply (inj Some) in E. by subst b.
Qed.

Lemma demo_tree_len (b : MachineBus unit Empty_set Empty_set) :
  bus_ram_size b = 2 ^ 25 + 8 → blk b = None → net b = None →
  len64 (tree b None demo_kernel demo_initrd (as_bytes "console=hvc0")) = 3147.
Proof. intros Hs Hblk Hnet. unfold tree, boot_dtb, boot_tree. rewrite Hs, Hblk, Hnet. vm_compute. done. Qed.

Lemma demo_tree_at (b : MachineBus unit Empty_set Empty_set) :
  bus_ram_size b = 2 ^ 25 + 8 → blk b = None → net b = None →
  tree_at b None demo_kernel demo_initrd (as_bytes "console=hvc0") = 0x1fff000.
Proof. intros Hs Hblk Hnet. unfold tree_at. by rewrite (demo_tree_len b Hs Hblk Hnet), Hs. Qed.

Lemma demo_fits (b : MachineBus unit Empty_set Empty_set) :
  machine_ram_ok b → bus_ram_size b = 2 ^ 25 + 8 → blk b = None → net b = None →
  boot_fits b None demo_kernel demo_initrd (as_bytes "console=hvc0").
Proof.
  intros Hb Hs Hblk Hnet.
  pose proof (demo_tree_len b Hs Hblk Hnet) as Ht. pose proof (demo_tree_at b Hs Hblk Hnet) as Ea.
  assert (Ei : initrd_at None demo_kernel = 0x1000000) by reflexivity. assert (Ek : kernel_at None demo_kernel = 0) by reflexivity.
  pose proof (mr_epoch b Hb) as He. pose proof (mr_source b Hb) as Hsrc.
  split; rewrite ?Ht, ?Ea, ?Ei, ?Ek, ?Hs.
  - apply Hb.
  - unfold is_u64, is_word. lia.
  - rewrite <- Hs. apply Hb.
  - lia.
  - repeat (constructor; [done|]). constructor.
  - done.
  - intros d [= <-]. split; [repeat (constructor; [done|]); constructor | done].
  - apply as_bytes_u8.
  - done.
  - done.
  - done.
  - done.
  - intros d [= <-]. by left.
Qed.

Lemma boot_places_images_witness :
  ∃ (b b' : MachineBus unit Empty_set Empty_set) h',
    boot None demo_kernel demo_initrd (as_bytes "console=hvc0") (b, hart_new 0) = Some (tt, (b', h')) ∧
    holds b' 0x1000000 [1; 2; 3] ∧ gpr_read 11 (hart_regs h') = 0x81fff000.
Proof.
  destruct demo_boot_bus as (b & Hb & Hs & Hblk & Hnet).
  destruct (boot_places_images b None demo_kernel demo_initrd (as_bytes "console=hvc0") (hart_new 0)
              (demo_fits b Hb Hs Hblk Hnet) ltac:(by apply gpr_new_wf))
    as (b' & h' & E & _ & _ & Hi & _ & _ & _ & _ & Ha & _).
  exists b, b', h'. split; [done|]. split; [by apply (Hi [1; 2; 3])|].
  rewrite Ha, (demo_tree_at b Hs Hblk Hnet). done.
Defined.
End Demo.
