(* ===== verification/HostNet.v ===== *)
(** What the user-mode network asks of the host: sockets, name resolution, a
    clock, and the gateway that terminates HTTPS connections.

    Sockets are host resources; [H] is the host's state, [Udp] and [Tcp] are
    handles.  A read of at most [n] bytes returns the bytes it got; of errors only
    the kind is used. *)
From S2P Require Import Prelude Words.

Inductive ErrorKind : Type := WouldBlock | TimedOut | BrokenPipe | OtherError.

Definition would_block (e : ErrorKind) : bool :=
  match e with WouldBlock | TimedOut => true | _ => false end.

Inductive SocketAddr : Type := V4 (octets : list Z) | V6.

Class HostNet (H Udp Tcp : Type) := {
  udp_bind : ST H (option Udp);
  udp_send_to : Udp -> list Z -> list Z -> Z -> ST H bool;
  udp_recv_from : Udp -> nat -> ST H (option (list Z));
  tcp_connect : list Z -> Z -> ST H (option Tcp);
  tcp_write : Tcp -> list Z -> ST H (Result nat ErrorKind);
  tcp_read : Tcp -> nat -> ST H (Result (list Z) ErrorKind);
  tcp_shutdown_write : Tcp -> ST H unit;
  to_socket_addrs : list Z -> ST H (option (list SocketAddr));
  instant_now : H -> Z
}.

(** The interface of [HttpsGateway]. *)
Class HttpsGateway (G C S H : Type) := {
  gateway_new : C -> list Z -> list S -> ST H G;
  push_from_guest : list Z -> ST (G * H) unit;
  gateway_failed : G -> bool;
  pull_to_guest : nat -> ST (G * H) (option (list Z));
  gateway_eof : G -> bool;
  gateway_has_pending : G -> bool;
  gateway_shutdown_write : ST (G * H) unit
}.

(** How the standard library lays containers out: how much of a [VecDeque] is
    in its first slice, and the order a [HashMap] lists its keys in. *)
Class Layouts (K : Type) := {
  first_slice_len : list Z -> nat;
  hash_order : list K -> list K
}.
