(* ===== verification/Frames.v ===== *)
(** Ethernet, IP, TCP and UDP on the wire ([machine/src/virtio/slirp/frames.rs]).

    A frame is a list of bytes.  Reading past its end is a panic ([None]).  The
    counter of IP identifications is an argument of the functions that make
    frames. *)
From S2P Require Import Prelude Words.

Definition GW_IP : list Z := [10; 0; 2; 2].
Definition GUEST_IP : list Z := [10; 0; 2; 15].
Definition SUBNET : list Z := [255; 255; 255; 0].
Definition BCAST_IP : list Z := [10; 0; 2; 255].

Definition HOST_MAC : list Z := [0x52; 0x54; 0x00; 0x00; 0x00; 0x01].
Definition BCAST_MAC : list Z := [0xff; 0xff; 0xff; 0xff; 0xff; 0xff].

Definition ETHERTYPE_IP : Z := 0x0800.
Definition ETHERTYPE_ARP : Z := 0x0806.

Definition IP_PROTO_ICMP : Z := 1.
Definition IP_PROTO_TCP : Z := 6.
Definition IP_PROTO_UDP : Z := 17.

Definition SYN : Z := 0x02.
Definition ACK : Z := 0x10.
Definition FIN : Z := 0x01.
Definition RST : Z := 0x04.
Definition PSH : Z := 0x08.

(** [l[i..i + n]] and [l[i..]], panics out of range. *)
Definition sub_slice (i n : nat) (l : list Z) : option (list Z) :=
  if (i + n <=? length l)%nat then Some (take n (drop i l)) else None.
Definition tail_slice (i : nat) (l : list Z) : option (list Z) :=
  if (i <=? length l)%nat then Some (drop i l) else None.

(** [u16::from_be_bytes([buf[offset], buf[offset + 1]])] *)
Definition u16be (buf : list Z) (offset : nat) : option Z :=
  a ← buf !! offset; b ← buf !! S offset; Some (from_be_bytes [a; b]).
(** [u32::from_be_bytes(buf[offset..offset + 4])] *)
Definition u32be (buf : list Z) (offset : nat) : option Z := from_be_bytes <$> sub_slice offset 4 buf.

Definition eth_src (frame : list Z) : option (list Z) := sub_slice 6 6 frame.
Definition eth_type (frame : list Z) : option Z := u16be frame 12.
Definition ip_proto (frame : list Z) : option Z := frame !! (14 + 9)%nat.
Definition ip_src (frame : list Z) : option (list Z) := sub_slice (14 + 12) 4 frame.
Definition ip_dst (frame : list Z) : option (list Z) := sub_slice (14 + 16) 4 frame.
Definition ip_hlen (frame : list Z) : option nat :=
  b ← frame !! 14%nat; Some (Z.to_nat (Z.land b 0x0f) * 4)%nat.
Definition ip_payload (frame : list Z) : option (list Z) :=
  h ← ip_hlen frame; tail_slice (14 + h) frame.

(** [buf[i..i + bytes.len()].copy_from_slice(bytes)], in range at every use. *)
Definition copy_at (i : nat) (bytes buf : list Z) : list Z :=
  take i buf ++ bytes ++ drop (i + length bytes) buf.
Definition zeros (n : nat) : list Z := replicate n 0.

(** ** Checksums *)

Fixpoint sum_words (data : list Z) (sum : Z) : Z :=
  match data with
  | a :: b :: data => sum_words data (wrapping_add32 sum (from_be_bytes [a; b]))
  | [a] => wrapping_add32 sum (Z.shiftl a 8)
  | [] => sum
  end.

(** [while sum >> 16 != 0 { .. }]: two rounds are enough for 32 bits. *)
Fixpoint fold_carries (fuel : nat) (sum : Z) : Z :=
  match fuel with
  | O => sum
  | S fuel =>
      if Z.shiftr sum 16 =? 0 then sum
      else fold_carries fuel (wrapping_add32 (Z.land sum 0xffff) (Z.shiftr sum 16))
  end.

Definition checksum (data : list Z) : Z := as_u16 (Z.lnot (as_u16 (fold_carries 3 (sum_words data 0)))).

(** ** Making frames *)

Definition ip_header (ip_id : Z) (src_ip dst_ip : list Z) (proto : Z) (payload : list Z) : list Z :=
  let total_len := as_u16 (20 + Z.of_nat (length payload)) in
  let ip := zeros 20 in
  let ip := copy_at 0 [0x45] ip in
  let ip := copy_at 2 (to_be_bytes 2 total_len) ip in
  let ip := copy_at 4 (to_be_bytes 2 ip_id) ip in
  let ip := copy_at 6 (to_be_bytes 2 0x4000) ip in
  let ip := copy_at 8 [64] ip in
  let ip := copy_at 9 [proto] ip in
  let ip := copy_at 12 src_ip ip in
  let ip := copy_at 16 dst_ip ip in
  let csum := checksum ip in
  copy_at 10 (to_be_bytes 2 csum) ip.

Definition make_ip_frame (ip_id : Z) (dst_mac src_ip dst_ip : list Z) (proto : Z) (payload : list Z) : list Z :=
  let ip := ip_header ip_id src_ip dst_ip proto payload in
  let frame := zeros (14 + 20 + length payload) in
  let frame := copy_at 0 dst_mac frame in
  let frame := copy_at 6 HOST_MAC frame in
  let frame := copy_at 12 (to_be_bytes 2 ETHERTYPE_IP) frame in
  let frame := copy_at 14 ip frame in
  copy_at 34 payload frame.

Definition make_udp_payload (src_port dst_port : Z) (data : list Z) : list Z :=
  let len := as_u16 (8 + Z.of_nat (length data)) in
  let udp := zeros (8 + length data) in
  let udp := copy_at 0 (to_be_bytes 2 src_port) udp in
  let udp := copy_at 2 (to_be_bytes 2 dst_port) udp in
  let udp := copy_at 4 (to_be_bytes 2 len) udp in
  copy_at 8 data udp.

Record Endpoints := mkEndpoints {
  dst_mac : list Z;
  src_ip : list Z;
  src_port : Z;
  dst_ip : list Z;
  dst_port : Z
}.

(** Maximum segment size 1460, window scale 7. *)
Definition syn_options : list Z := [0x02; 0x04; 0x05; 0xb4; 0x01; 0x03; 0x03; 0x07].

Definition tcp_options (flags : Z) : list Z := if Z.land flags SYN =? 0 then [] else syn_options.

(** The segment before its checksum is filled in. *)
Definition tcp_segment (ends : Endpoints) (seq ack flags : Z) (data : list Z) : list Z :=
  let opts := tcp_options flags in
  let tcp_hlen := (20 + length opts)%nat in
  let tcp_len := (tcp_hlen + length data)%nat in
  let tcp := zeros tcp_len in
  let tcp := copy_at 0 (to_be_bytes 2 (src_port ends)) tcp in
  let tcp := copy_at 2 (to_be_bytes 2 (dst_port ends)) tcp in
  let tcp := copy_at 4 (to_be_bytes 4 seq) tcp in
  let tcp := copy_at 8 (to_be_bytes 4 ack) tcp in
  let tcp := copy_at 12 [as_u8 (Z.shiftl (as_u8 (Z.of_nat tcp_hlen / 4)) 4)] tcp in
  let tcp := copy_at 13 [flags] tcp in
  let tcp := copy_at 14 (to_be_bytes 2 65535) tcp in
  let tcp := copy_at 20 opts tcp in
  copy_at tcp_hlen data tcp.

(** What the checksum of a segment is taken over. *)
Definition pseudo_header (ends : Endpoints) (tcp : list Z) : list Z :=
  let pseudo := zeros (12 + length tcp) in
  let pseudo := copy_at 0 (src_ip ends) pseudo in
  let pseudo := copy_at 4 (dst_ip ends) pseudo in
  let pseudo := copy_at 9 [IP_PROTO_TCP] pseudo in
  let pseudo := copy_at 10 (to_be_bytes 2 (as_u16 (Z.of_nat (length tcp)))) pseudo in
  copy_at 12 tcp pseudo.

Definition make_tcp_frame (ip_id : Z) (ends : Endpoints) (seq ack flags : Z) (data : list Z) : list Z :=
  let tcp := tcp_segment ends seq ack flags data in
  let csum := checksum (pseudo_header ends tcp) in
  let tcp := copy_at 16 (to_be_bytes 2 csum) tcp in
  make_ip_frame ip_id (dst_mac ends) (src_ip ends) (dst_ip ends) IP_PROTO_TCP tcp.

(** * Properties

    Frames: what is made can be read, and its checksums hold. *)

(** ** The Internet checksum *)

#[local] Ltac Zify.zify_post_hook ::= Z.to_euclidean_division_equations.

(** The sum of the 16-bit words, as a number. *)
Fixpoint words_sum (data : list Z) : Z :=
  match data with
  | a :: b :: data => from_be_bytes [a; b] + words_sum data
  | [a] => 256 * a
  | [] => 0
  end.

Lemma from_be2 a b : from_be_bytes [a; b] = 256 * a + b.
Proof. unfold from_be_bytes. cbn [rev app from_le_bytes]. rewrite !Z.shiftl_mul_pow2 by lia. lia. Qed.

Lemma pair_induction (P : list Z -> Prop) :
  P [] → (∀ a, P [a]) → (∀ a b l, P l → P (a :: b :: l)) → ∀ l, P l.
Proof.
  intros H0 H1 H2 l. enough (P l ∧ ∀ a, P (a :: l)) by tauto.
  induction l as [|x l [IH1 IH2]]; split; auto.
Qed.

Lemma words_sum_bound data : Forall is_u8 data → 0 <= words_sum data <= 0xffff * ((Z.of_nat (length data) + 1) / 2).
Proof.
  unfold is_u8, is_word. induction data as [|a|a b data IH] using pair_induction; intros H; cbn [words_sum length].
  - lia.
  - apply list.Forall_cons in H as [Ha _]. cbn. lia.
  - apply list.Forall_cons in H as [Ha H]. apply list.Forall_cons in H as [Hb H]. rewrite from_be2. specialize (IH H). lia.
Qed.

Lemma sum_words_eq data acc :
  Forall is_u8 data → 0 <= acc → acc + words_sum data < 2 ^ 32 → sum_words data acc = acc + words_sum data.
Proof.
  revert acc. induction data as [|a|a b data IH] using pair_induction; intros acc H Ha Hs; cbn [sum_words words_sum] in *.
  - lia.
  - apply list.Forall_cons in H as [Hb _]. unfold is_u8, is_word in Hb. unfold wrapping_add32, as_u32.
    rewrite Z.shiftl_mul_pow2 by lia. rewrite wrap_id by (unfold is_word; lia). lia.
  - apply list.Forall_cons in H as [Hb H]. apply list.Forall_cons in H as [Hc H]. unfold is_u8, is_word in Hb, Hc.
    pose proof (words_sum_bound data H). rewrite from_be2 in *.
    unfold wrapping_add32, as_u32. rewrite wrap_id by (unfold is_word; lia). rewrite IH by (done || lia). lia.
Qed.

(** Folding keeps the sum modulo [0xffff], and only zero folds to zero. *)
Definition folds (s r : Z) : Prop := 0 <= r ∧ (∃ q, s = r + 0xffff * q) ∧ (r = 0 ↔ s = 0).

Lemma fold_once s : 0 <= s < 2 ^ 32 →
  let t := wrapping_add32 (Z.land s 0xffff) (Z.shiftr s 16) in folds s t ∧ (2 ^ 16 <= s → t < s) ∧ t <= 0xffff + s / 2 ^ 16.
Proof.
  intros Hs t. unfold t, wrapping_add32, as_u32. change 0xffff with (Z.ones 16). rewrite Z.land_ones, Z.shiftr_div_pow2 by lia.
  rewrite wrap_id by (unfold is_word; lia). change (Z.ones 16) with 0xffff. unfold folds.
  split; [|lia]. split; [lia|]. split; [exists (s / 2 ^ 16); lia | lia].
Qed.

Lemma folds_trans s t r : folds s t → folds t r → folds s r.
Proof.
  intros (H1 & (q & ->) & H2) (H3 & (q' & ->) & H4). split; [done|]. split; [exists (q + q'); lia | lia].
Qed.

Lemma fold_carries_spec s : 0 <= s < 2 ^ 32 → folds s (fold_carries 3 s) ∧ fold_carries 3 s <= 0xffff.
Proof.
  assert (Hrefl : ∀ t, 0 <= t → folds t t) by (intros; split; [done|]; split; [exists 0; lia | done]).
  assert (Hsmall : ∀ fuel t, 0 <= t < 2 ^ 16 → fold_carries fuel t = t).
  { intros [|fuel] t Ht; [done|]. cbn [fold_carries]. rewrite Z.shiftr_div_pow2, Z.div_small by lia. done. }
  assert (Hstep : ∀ fuel t, 2 ^ 16 <= t < 2 ^ 32 →
    fold_carries (S fuel) t = fold_carries fuel (wrapping_add32 (Z.land t 0xffff) (Z.shiftr t 16))).
  { intros fuel t Ht. cbn [fold_carries]. destruct (Z.eqb_spec (Z.shiftr t 16) 0) as [E|]; [|done].
    rewrite Z.shiftr_div_pow2 in E by lia. lia. }
  intros Hs. destruct (decide (s < 2 ^ 16)); [rewrite Hsmall by lia; split; [apply Hrefl|]; lia|].
  rewrite Hstep by lia. destruct (fold_once s Hs) as (F1 & _ & B1). cbv zeta in *. set (t := wrapping_add32 _ _) in *. clearbody t.
  pose proof F1 as (Ht0 & _ & _). assert (t <= 0x1fffe) by lia.
  destruct (decide (t < 2 ^ 16)); [rewrite Hsmall by lia; split; [done | lia]|].
  rewrite Hstep by lia. destruct (fold_once t ltac:(lia)) as (F2 & B2 & _). cbv zeta in *. set (u := wrapping_add32 _ _) in *.
  pose proof F2 as (Hu0 & _ & _). assert (Hu : u <= 0xffff).
  { specialize (B2 ltac:(lia)). destruct F2 as (_ & (q & Hq) & _). lia. }
  rewrite Hsmall by lia. split; [by eapply folds_trans | done].
Qed.

(** What a checksum is. *)
Lemma checksum_spec data :
  Forall is_u8 data → Z.of_nat (length data) <= 2 ^ 16 →
  ∃ r, folds (words_sum data) r ∧ r <= 0xffff ∧ checksum data = 0xffff - r.
Proof.
  intros Hd Hl. pose proof (words_sum_bound data Hd) as Hb.
  assert (Hs : 0 <= words_sum data < 2 ^ 32) by lia.
  unfold checksum. rewrite sum_words_eq by (done || lia). rewrite Z.add_0_l.
  destruct (fold_carries_spec _ Hs) as [F B]. set (r := fold_carries 3 _) in *. exists r. split; [done|]. split; [done|].
  pose proof F as (H0 & _). unfold as_u16. rewrite (wrap_id 16 r) by (unfold is_word; lia).
  rewrite Z.lnot_eq_pred_opp. unfold wrap. symmetry. apply (Z.mod_unique_pos _ _ (-1)); lia.
Qed.

Lemma words_sum_app l1 l2 : Nat.even (length l1) = true → words_sum (l1 ++ l2) = words_sum l1 + words_sum l2.
Proof.
  induction l1 as [|a|a b l1 IH] using pair_induction; intros H; cbn [words_sum app length] in *.
  - lia.
  - done.
  - rewrite IH by done. lia.
Qed.

Lemma checksum_word_bounds data :
  Forall is_u8 data → Z.of_nat (length data) <= 2 ^ 16 → is_u16 (checksum data).
Proof. intros Hd Hl. destruct (checksum_spec data Hd Hl) as (r & (H0 & _) & Hr & ->). unfold is_word. lia. Qed.

Lemma be2 x : to_be_bytes 2 x = [as_u8 (Z.shiftr x 8); as_u8 x].
Proof. done. Qed.

Lemma from_be_to_be2 x : is_u16 x → from_be_bytes [as_u8 (Z.shiftr x 8); as_u8 x] = x.
Proof. intros Hx. rewrite <- be2, from_to_be_bytes. by apply wrap_id. Qed.

(** A buffer with its checksum at an even place adds up. *)
Lemma checksum_verifies pre post :
  Nat.even (length pre) = true → Forall is_u8 (pre ++ [0; 0] ++ post) → Z.of_nat (length (pre ++ [0; 0] ++ post)) <= 2 ^ 16 →
  checksum (pre ++ to_be_bytes 2 (checksum (pre ++ [0; 0] ++ post)) ++ post) = 0.
Proof.
  intros He Hb Hl. set (buf := pre ++ [0; 0] ++ post) in *. pose proof (checksum_word_bounds buf Hb Hl) as Hc.
  destruct (checksum_spec buf Hb Hl) as (r & (Hr0 & (q & Hq) & Hrz) & Hr & Ec). set (c := checksum buf) in *. clearbody c.
  assert (Hb' : Forall is_u8 (pre ++ to_be_bytes 2 c ++ post)).
  { unfold buf in Hb. apply Forall_app in Hb as [H1 H2]. apply Forall_app in H2 as [_ H2].
    apply Forall_app. split; [done|]. apply Forall_app. split; [apply be_u8 | done]. }
  assert (Hl' : Z.of_nat (length (pre ++ to_be_bytes 2 c ++ post)) <= 2 ^ 16).
  { unfold buf in Hl. rewrite !length_app in *. rewrite length_be. cbn in Hl. lia. }
  destruct (checksum_spec _ Hb' Hl') as (r' & (Hr0' & (q' & Hq') & Hrz') & Hr' & ->).
  assert (Es : words_sum (pre ++ to_be_bytes 2 c ++ post) = words_sum buf + c).
  { unfold buf. rewrite !words_sum_app by done. rewrite be2. cbn [words_sum]. rewrite from_be_to_be2 by done.
    change (from_be_bytes [0; 0]) with 0. lia. }
  rewrite Es in Hq', Hrz'. pose proof (words_sum_bound buf Hb). lia.
Qed.

(** ** The shape of frames *)

Definition bytes_of (n : nat) (l : list Z) : Prop := length l = n ∧ Forall is_u8 l.

(** The 20 bytes of an IP header around its checksum. *)
Definition header_pre (ip_id proto total : Z) : list Z :=
  [0x45; 0] ++ to_be_bytes 2 total ++ to_be_bytes 2 ip_id ++ [0x40; 0; 64; proto].

Lemma copy_at_app pre old new post i :
  length pre = i → length old = length new → copy_at i new (pre ++ old ++ post) = pre ++ new ++ post.
Proof.
  intros <- Hl. unfold copy_at. rewrite take_app_length. f_equal. f_equal.
  rewrite <- Hl. by rewrite drop_app_add, drop_app_length.
Qed.

(** Writing behind what is already written. *)
Lemma copy_zeros pre new i n : length pre = i → copy_at i new (pre ++ zeros n) = (pre ++ new) ++ zeros (n - length new).
Proof.
  intros <-. unfold copy_at, zeros. rewrite take_app_length, <- app_assoc. do 2 f_equal. by rewrite drop_app_add, drop_replicate.
Qed.

Lemma zeros_split n m : zeros (n + m) = zeros n ++ zeros m.
Proof. apply replicate_add. Qed.

Lemma list4 l : length l = 4%nat → ∃ a b c d, l = [a; b; c; d] :> list Z.
Proof. destruct l as [|a [|b [|c [|d [|]]]]]; try done. intros _. by exists a, b, c, d. Qed.

Lemma list2 l : length l = 2%nat → ∃ a b, l = [a; b] :> list Z.
Proof. destruct l as [|a [|b [|]]]; try done. intros _. by exists a, b. Qed.

Lemma list6 l : length l = 6%nat → ∃ a b c d e f, l = [a; b; c; d; e; f] :> list Z.
Proof. destruct l as [|a [|b [|c [|d [|e [|f [|]]]]]]]; try done. intros _. by exists a, b, c, d, e, f. Qed.

Lemma ip_header_shape id src dst proto payload :
  length src = 4%nat → length dst = 4%nat →
  let pre := header_pre id proto (as_u16 (20 + Z.of_nat (length payload))) in
  ip_header id src dst proto payload = pre ++ to_be_bytes 2 (checksum (pre ++ [0; 0] ++ src ++ dst)) ++ src ++ dst.
Proof.
  intros Hs Hd. destruct (list4 src Hs) as (s0 & s1 & s2 & s3 & ->). destruct (list4 dst Hd) as (d0 & d1 & d2 & d3 & ->).
  unfold ip_header, header_pre. rewrite !be2. reflexivity.
Qed.

Lemma make_ip_frame_shape id mac src dst proto payload :
  length mac = 6%nat → length src = 4%nat → length dst = 4%nat →
  make_ip_frame id mac src dst proto payload
  = mac ++ HOST_MAC ++ [8; 0] ++ ip_header id src dst proto payload ++ payload.
Proof.
  intros Hm Hs Hd. unfold make_ip_frame.
  assert (Hh : length (ip_header id src dst proto payload) = 20%nat).
  { rewrite ip_header_shape by done. cbv zeta. unfold header_pre. rewrite !length_app, !length_be, Hs, Hd. done. }
  set (h := ip_header _ _ _ _ _) in *. clearbody h.
  change (zeros (14 + 20 + length payload)) with ([] ++ zeros (14 + 20 + length payload)).
  rewrite (copy_zeros [] mac), (copy_zeros (_ ++ mac) HOST_MAC), (copy_zeros (_ ++ HOST_MAC)), (copy_zeros (_ ++ to_be_bytes _ _) h),
    (copy_zeros (_ ++ h)) by (rewrite ?length_app, ?length_be, ?Hm, ?Hh; done).
  rewrite Hm, Hh, length_be. replace (_ - length payload)%nat with 0%nat by (cbn; lia).
  by rewrite app_nil_r, <- !app_assoc.
Qed.

Lemma make_udp_payload_shape sp dp data :
  make_udp_payload sp dp data
  = to_be_bytes 2 sp ++ to_be_bytes 2 dp ++ to_be_bytes 2 (as_u16 (8 + Z.of_nat (length data))) ++ [0; 0] ++ data.
Proof.
  unfold make_udp_payload. change (zeros (8 + length data)) with ([] ++ zeros (8 + length data)).
  rewrite (copy_zeros []), (copy_zeros (_ ++ _)), (copy_zeros (_ ++ _)) by (rewrite ?length_app, ?length_be; done).
  rewrite !length_be. replace (_ - 2)%nat with (2 + length data)%nat by lia.
  rewrite zeros_split, app_assoc, (copy_zeros (_ ++ zeros 2)) by (rewrite !length_app, !length_be; done).
  rewrite Nat.sub_diag. by rewrite app_nil_r, <- !app_assoc.
Qed.

(** A segment around its checksum. *)
Definition tcp_pre (ends : Endpoints) (seq ack flags : Z) : list Z :=
  to_be_bytes 2 (src_port ends) ++ to_be_bytes 2 (dst_port ends) ++ to_be_bytes 4 seq ++ to_be_bytes 4 ack
  ++ [as_u8 (Z.shiftl (as_u8 (Z.of_nat (20 + length (tcp_options flags)) / 4)) 4)] ++ [flags] ++ to_be_bytes 2 65535.
Definition tcp_post (flags : Z) (data : list Z) : list Z := zeros 2 ++ tcp_options flags ++ data.

Lemma tcp_segment_shape ends seq ack flags data :
  tcp_segment ends seq ack flags data = tcp_pre ends seq ack flags ++ [0; 0] ++ tcp_post flags data.
Proof.
  unfold tcp_segment, tcp_pre, tcp_post. set (opts := tcp_options flags). set (off := as_u8 _). clearbody off.
  set (n := (20 + length opts + length data)%nat). change (zeros n) with ([] ++ zeros n).
  do 7 rewrite copy_zeros by (rewrite ?length_app, ?length_be; done). rewrite !length_be. cbn [length].
  replace (n - 2 - 2 - 4 - 4 - 1 - 1 - 2)%nat with (4 + (length opts + length data))%nat by (unfold n; lia).
  rewrite zeros_split, app_assoc. do 2 rewrite copy_zeros by (rewrite ?length_app, ?length_be; cbn; lia).
  replace (length opts + length data - length opts - length data)%nat with 0%nat by lia.
  rewrite app_nil_r, <- !app_assoc. done.
Qed.

Lemma length_tcp_pre ends seq ack flags : length (tcp_pre ends seq ack flags) = 16%nat.
Proof. unfold tcp_pre. by rewrite !length_app, !length_be. Qed.

Lemma tcp_checksum_place ends seq ack flags data c :
  copy_at 16 (to_be_bytes 2 c) (tcp_segment ends seq ack flags data)
  = tcp_pre ends seq ack flags ++ to_be_bytes 2 c ++ tcp_post flags data.
Proof. rewrite tcp_segment_shape. apply copy_at_app; [apply length_tcp_pre | done]. Qed.

Lemma pseudo_header_shape ends tcp :
  length (src_ip ends) = 4%nat → length (dst_ip ends) = 4%nat →
  pseudo_header ends tcp
  = (src_ip ends ++ dst_ip ends ++ [0; IP_PROTO_TCP] ++ to_be_bytes 2 (as_u16 (Z.of_nat (length tcp)))) ++ tcp.
Proof.
  intros Hs Hd. unfold pseudo_header. set (n := (12 + length tcp)%nat). change (zeros n) with ([] ++ zeros n).
  do 2 rewrite copy_zeros by (rewrite ?length_app, ?Hs; done). rewrite Hs, Hd.
  replace (n - 4 - 4)%nat with (1 + (3 + length tcp))%nat by (unfold n; lia). rewrite zeros_split, app_assoc.
  do 3 rewrite copy_zeros by (rewrite ?length_app, ?length_be, ?Hs, ?Hd; done). rewrite length_be. cbn [length].
  replace (3 + length tcp - 1 - 2 - length tcp)%nat with 0%nat by lia. by rewrite app_nil_r, <- !app_assoc.
Qed.

(** ** Frames for the guest *)

Lemma u8_of_cast x : is_u8 (as_u8 x).
Proof. apply wrap_range. lia. Qed.

(** A buffer put together from bytes holds bytes. *)
Ltac solve_bytes :=
  repeat match goal with
  | H : bytes_of _ ?l |- Forall is_u8 ?l => apply H
  | |- Forall is_u8 (_ ++ _) => apply Forall_app_2
  | |- Forall is_u8 (_ :: _) => apply Forall_cons_2
  | |- Forall is_u8 [] => constructor
  | |- Forall is_u8 (to_be_bytes _ _) => apply be_u8
  | |- Forall is_u8 (zeros _) => by apply Forall_replicate
  | |- is_u8 (as_u8 _) => apply u8_of_cast
  | |- _ => done
  end.

Record ends_ok (e : Endpoints) : Prop := {
  eo_mac : bytes_of 6 (dst_mac e);
  eo_src : bytes_of 4 (src_ip e);
  eo_dst : bytes_of 4 (dst_ip e);
  eo_sport : is_u16 (src_port e);
  eo_dport : is_u16 (dst_port e)
}.

Lemma header_checks id src dst proto payload :
  bytes_of 4 src → bytes_of 4 dst → is_u8 proto → checksum (ip_header id src dst proto payload) = 0.
Proof.
  intros [Hs Bs] [Hd Bd] Hp. rewrite ip_header_shape by done. cbv zeta.
  apply (checksum_verifies _ (src ++ dst)); [unfold header_pre; rewrite !length_app, !length_be; done | |].
  - unfold header_pre. solve_bytes.
  - unfold header_pre. rewrite !length_app, !length_be, Hs, Hd. cbn. lia.
Qed.

Lemma segment_checks ends seq ack flags data :
  ends_ok ends → is_u8 flags → Forall is_u8 data → Z.of_nat (length data) <= 65000 →
  let tcp := tcp_segment ends seq ack flags data in
  checksum (pseudo_header ends (copy_at 16 (to_be_bytes 2 (checksum (pseudo_header ends tcp))) tcp)) = 0.
Proof.
  intros [_ [Hs Bs] [Hd Bd] _ _] Hf Hdata Hl tcp. set (c := checksum (pseudo_header ends tcp)).
  assert (Ho : (length (tcp_options flags) <= 8)%nat) by (unfold tcp_options; case_if; cbn; lia).
  assert (Bo : Forall is_u8 (tcp_options flags)) by (unfold tcp_options, syn_options; case_if; solve_bytes).
  assert (Et : tcp = tcp_pre ends seq ack flags ++ [0; 0] ++ tcp_post flags data) by apply tcp_segment_shape.
  assert (Ec : copy_at 16 (to_be_bytes 2 c) tcp = tcp_pre ends seq ack flags ++ to_be_bytes 2 c ++ tcp_post flags data)
    by apply tcp_checksum_place.
  assert (El : length (copy_at 16 (to_be_bytes 2 c) tcp) = length tcp) by (rewrite Ec, Et, !length_app, length_be; done).
  rewrite pseudo_header_shape, El, Ec by done. set (pre := src_ip ends ++ _).
  assert (Hc : c = checksum ((pre ++ tcp_pre ends seq ack flags) ++ [0; 0] ++ tcp_post flags data)).
  { unfold c. rewrite pseudo_header_shape by done. fold pre. by rewrite Et at 1; rewrite <- app_assoc. }
  assert (Lp : length pre = 12%nat) by (unfold pre; by rewrite !length_app, Hs, Hd, length_be).
  rewrite app_assoc, Hc. apply checksum_verifies.
  - by rewrite length_app, Lp, length_tcp_pre.
  - unfold pre, tcp_pre, tcp_post. solve_bytes.
  - rewrite !length_app, Lp, length_tcp_pre. unfold tcp_post. rewrite !length_app. cbn. lia.
Qed.

(** ** Reading *)

Lemma sub_slice_app pre mid post i n :
  length pre = i → length mid = n → sub_slice i n (pre ++ mid ++ post) = Some mid.
Proof.
  intros <- <-. unfold sub_slice. rewrite !length_app.
  destruct (Nat.leb_spec (length pre + length mid) (length pre + (length mid + length post))); [|lia].
  by rewrite drop_app_length, take_app_length.
Qed.

Lemma tail_slice_app pre post i : length pre = i → tail_slice i (pre ++ post) = Some post.
Proof.
  intros <-. unfold tail_slice. rewrite length_app. destruct (Nat.leb_spec (length pre) (length pre + length post)); [|lia].
  by rewrite drop_app_length.
Qed.

Lemma u16be_app pre x post i : length pre = i → is_u16 x → u16be (pre ++ to_be_bytes 2 x ++ post) i = Some x.
Proof.
  intros <- Hx. unfold u16be. rewrite be2. cbn [app].
  assert (E0 : (pre ++ as_u8 (Z.shiftr x 8) :: as_u8 x :: post) !! length pre = Some (as_u8 (Z.shiftr x 8)))
    by (by apply list_lookup_middle).
  assert (E1 : (pre ++ as_u8 (Z.shiftr x 8) :: as_u8 x :: post) !! S (length pre) = Some (as_u8 x))
    by (rewrite (cons_middle (as_u8 (Z.shiftr x 8))), app_assoc; apply list_lookup_middle; rewrite length_app; cbn; lia).
  rewrite E0, E1. cbn [mbind option_bind]. by rewrite from_be_to_be2.
Qed.

Lemma u32be_app pre x post i : length pre = i → is_u32 x → u32be (pre ++ to_be_bytes 4 x ++ post) i = Some x.
Proof.
  intros Hi Hx. unfold u32be. rewrite sub_slice_app by (done || apply length_be). cbn [fmap option_fmap option_map].
  rewrite from_to_be_bytes. by rewrite wrap_id.
Qed.

Lemma tcp_options_aligned flags :
  is_u8 flags → let h := (20 + length (tcp_options flags))%nat in
  (Z.to_nat (Z.shiftr (as_u8 (Z.shiftl (as_u8 (Z.of_nat h / 4)) 4)) 4) * 4)%nat = h.
Proof. intros _. unfold tcp_options. by case_if. Qed.

(** What a reader of frames finds in [f]. *)
Record reads_tcp (f : list Z) (e : Endpoints) (seq ack flags : Z) (tcp data : list Z) : Prop := {
  rt_to : take 6 f = dst_mac e;
  rt_from : eth_src f = Some HOST_MAC;
  rt_type : eth_type f = Some ETHERTYPE_IP;
  rt_proto : ip_proto f = Some IP_PROTO_TCP;
  rt_src : ip_src f = Some (src_ip e);
  rt_dst : ip_dst f = Some (dst_ip e);
  rt_payload : ip_payload f = Some tcp;
  rt_ports : u16be tcp 0 = Some (src_port e) ∧ u16be tcp 2 = Some (dst_port e);
  rt_seq : u32be tcp 4 = Some seq ∧ u32be tcp 8 = Some ack;
  rt_flags : tcp !! 13%nat = Some flags;
  rt_data : ∃ off, tcp !! 12%nat = Some off ∧ tail_slice (Z.to_nat (Z.shiftr off 4) * 4) tcp = Some data
}.

Lemma reads_ip id mac src dst proto payload :
  bytes_of 6 mac → bytes_of 4 src → bytes_of 4 dst →
  let f := make_ip_frame id mac src dst proto payload in
  take 6 f = mac ∧ eth_src f = Some HOST_MAC ∧ eth_type f = Some ETHERTYPE_IP ∧ ip_proto f = Some proto ∧
  ip_src f = Some src ∧ ip_dst f = Some dst ∧ ip_payload f = Some payload ∧
  take 20 (drop 14 f) = ip_header id src dst proto payload.
Proof.
  intros [Hm _] [Hs _] [Hd _] f. unfold f. clear f. rewrite make_ip_frame_shape by done.
  assert (Hh : length (ip_header id src dst proto payload) = 20%nat).
  { rewrite ip_header_shape by done. cbv zeta. unfold header_pre. rewrite !length_app, !length_be, Hs, Hd. done. }
  assert (Eh : take 20 (drop 14 (mac ++ HOST_MAC ++ [8; 0] ++ ip_header id src dst proto payload ++ payload))
               = ip_header id src dst proto payload).
  { rewrite !app_assoc, <- (app_assoc _ _ payload). rewrite drop_app_length' by (rewrite !length_app, Hm; done).
    by rewrite take_app_length'. }
  rewrite Eh. clear Eh. rewrite ip_header_shape by done. cbv zeta.
  destruct (list2 _ (length_be 2 (checksum (header_pre id proto (as_u16 (20 + Z.of_nat (length payload))) ++ [0; 0] ++ src ++ dst))))
    as (c0 & c1 & ->).
  destruct (list6 mac Hm) as (m0 & m1 & m2 & m3 & m4 & m5 & ->). destruct (list4 src Hs) as (s0 & s1 & s2 & s3 & ->).
  destruct (list4 dst Hd) as (d0 & d1 & d2 & d3 & ->). unfold header_pre. rewrite !be2. repeat split.
Qed.

(** C34: a frame made for the guest says what it was made of, and its
    checksums hold.  A reader finds in it the addresses, ports, sequence numbers,
    flags and data it was made from; the sum over the IP header and the sum over
    the pseudo header and segment, checksum included, are zero, as a receiver
    checks. *)
Theorem tcp_frame_reads_back id ends seq ack flags data :
  ends_ok ends → is_u32 seq → is_u32 ack → is_u8 flags → Forall is_u8 data → Z.of_nat (length data) <= 65000 →
  let f := make_tcp_frame id ends seq ack flags data in
  ∃ tcp, reads_tcp f ends seq ack flags tcp data ∧
         checksum (take 20 (drop 14 f)) = 0 ∧ checksum (pseudo_header ends tcp) = 0.
Proof.
  intros He Hseq Hack Hf Hd Hl f. unfold f, make_tcp_frame. clear f.
  pose proof (segment_checks ends seq ack flags data He Hf Hd Hl) as Hc. cbv zeta in Hc.
  rewrite tcp_checksum_place in *. set (c := to_be_bytes 2 _) in *. set (tcp := tcp_pre _ _ _ _ ++ _) in *.
  destruct (reads_ip id (dst_mac ends) (src_ip ends) (dst_ip ends) IP_PROTO_TCP tcp (eo_mac _ He) (eo_src _ He) (eo_dst _ He))
    as (R1 & R2 & R3 & R4 & R5 & R6 & R7 & R8).
  exists tcp. rewrite R8. split; [|split; [apply header_checks; [apply He | apply He | done] | done]].
  assert (Hlc : length c = 2%nat) by apply length_be. clearbody c.
  split; try done; unfold tcp, tcp_pre; rewrite <- ?app_assoc.
  - split; [apply (u16be_app []); [done | apply He]|]. apply u16be_app; [apply length_be | apply He].
  - split; [rewrite app_assoc; apply u32be_app; [by rewrite length_app, !length_be | done]|].
    rewrite 2!app_assoc. apply u32be_app; [by rewrite !length_app, !length_be | done].
  - eexists. split; [reflexivity|].
    rewrite tcp_options_aligned by done. unfold tcp_post. rewrite !app_assoc. apply tail_slice_app.
    rewrite !length_app, !length_be, Hlc. cbn. lia.
Qed.

Definition demo_ends : Endpoints := mkEndpoints BCAST_MAC GW_IP 80 GUEST_IP 45001.

Lemma tcp_frame_reads_back_witness :
  ∃ tcp, reads_tcp (make_tcp_frame 7 demo_ends 1000 2000 PSH [1; 2; 3]) demo_ends 1000 2000 PSH tcp [1; 2; 3].
Proof.
  destruct (tcp_frame_reads_back 7 demo_ends 1000 2000 PSH [1; 2; 3]) as (tcp & H & _); try done.
  - assert (Hb : ∀ l : list Z, forallb (fun x => (0 <=? x) && (x <? 256)) l = true → Forall is_u8 l).
    { intros l Hl. apply list.Forall_forall. intros x Hx. apply list_elem_of_In in Hx. rewrite forallb_forall in Hl.
      specialize (Hl x Hx). bools. unfold is_word. lia. }
    split; try done; split; try done; by apply Hb.
  - solve_bytes.
  - by exists tcp.
Defined.
