(* ===== verification/Tcp.v ===== *)
(** The guest's TCP connections ([machine/src/virtio/slirp/tcp.rs]): the methods of
    one connection.

    A method runs over the connection, the frames it has produced, and the
    environment it shares with the others: the counter of IP identifications and
    the host.  The trace of a flow is left out. *)
From S2P Require Import Prelude Words VirtioConsole HostNet Frames.

Definition HTTPS_PORT : Z := 443.
Definition MSS : nat := 1460.
Definition READ_SIZE : nat := Z.to_nat 16384.
Definition MAX_SND_BUF : Z := 128 * 1024.
Definition MAX_OOO_BYTES : Z := 256 * 1024.

Inductive Transport (Tcp G : Type) : Type := Raw (stream : Tcp) | Https (gateway : G).
Arguments Raw {Tcp G}.
Arguments Https {Tcp G}.

Inductive TcpState : Type := Established | FinWait | Closed.
#[export] Instance TcpState_eq_dec : EqDecision TcpState.
Proof. solve_decision. Defined.

(** Source port, destination address and port. *)
Definition TcpKey : Type := Z * list Z * Z.

Inductive Serviced : Type := Alive | Finished.

(** [BTreeMap<u32, Vec<u8>>]: entries in the order of their keys. *)
Definition Segments : Type := list (Z * list Z).

Fixpoint seg_lookup (seq : Z) (m : Segments) : option (list Z) :=
  match m with
  | [] => None
  | (k, v) :: m => if k =? seq then Some v else seg_lookup seq m
  end.

(** [entry(seq).or_insert_with(..)] *)
Fixpoint seg_or_insert (seq : Z) (data : list Z) (m : Segments) : Segments :=
  match m with
  | [] => [(seq, data)]
  | (k, v) :: m' =>
      if seq <? k then (seq, data) :: m
      else if seq =? k then m
      else (k, v) :: seg_or_insert seq data m'
  end.

Fixpoint seg_remove (seq : Z) (m : Segments) : Segments :=
  match m with
  | [] => []
  | (k, v) :: m => if k =? seq then m else (k, v) :: seg_remove seq m
  end.

Definition seg_bytes (m : Segments) : Z := foldr (fun e n => Z.of_nat (length e.2) + n) 0 m.

Record TcpConn (Tcp G : Type) := mkConn {
  conn_state : TcpState;
  transport : Transport Tcp G;
  to_guest : Endpoints;
  snd_buf : list Z;
  snd_una : Z;
  snd_nxt : Z;
  fin_sent : bool;
  write_buf : list Z;
  guest_finished_writing : bool;
  rcv_nxt : Z;
  rcv_wnd : Z;
  wnd_shift : Z;
  ooo_buf : Segments
}.
Arguments mkConn {Tcp G}.
Arguments conn_state {Tcp G}.
Arguments transport {Tcp G}.
Arguments to_guest {Tcp G}.
Arguments snd_buf {Tcp G}.
Arguments snd_una {Tcp G}.
Arguments snd_nxt {Tcp G}.
Arguments fin_sent {Tcp G}.
Arguments write_buf {Tcp G}.
Arguments guest_finished_writing {Tcp G}.
Arguments rcv_nxt {Tcp G}.
Arguments rcv_wnd {Tcp G}.
Arguments wnd_shift {Tcp G}.
Arguments ooo_buf {Tcp G}.
#[export] Instance TcpConn_eta {Tcp G} : Eta (TcpConn Tcp G) := fun c =>
  mkConn (conn_state c) (transport c) (to_guest c) (snd_buf c) (snd_una c) (snd_nxt c) (fin_sent c) (write_buf c)
    (guest_finished_writing c) (rcv_nxt c) (rcv_wnd c) (wnd_shift c) (ooo_buf c).

(** The counter of [make_ip_frame] and the host. *)
Record Env (H : Type) := mkEnv { ip_id_counter : Z; host : H }.
Arguments mkEnv {H}.
Arguments ip_id_counter {H}.
Arguments host {H}.
#[export] Instance Env_eta {H} : Eta (Env H) := fun e => mkEnv (ip_id_counter e) (host e).

(** [fetch_add] on the counter. *)
Definition next_ip_id {H} : ST (Env H) Z := fun e =>
  Some (ip_id_counter e, e <| ip_id_counter := as_u16 (ip_id_counter e + 1) |>).

(** The result of a computation that may panic. *)
Definition lift {S A} (o : option A) : ST S A := fun s =>
  match o with Some a => Some (a, s) | None => None end.

Section Conn.
Context {LB : LoopBound} {H Udp Tcp G C S : Type}.
Context {HN : HostNet H Udp Tcp} {HG : HttpsGateway G C S H} {LO : Layouts TcpKey}.
Abbreviation Conn := (TcpConn Tcp G).
Abbreviation M := (ST (Conn * (list (list Z) * Env H))).

Definition get_conn {A} (f : Conn -> A) : M A := gets (fun s => f s.1).
Definition mod_conn (f : Conn -> Conn) : M unit := modify (fun s => (f s.1, s.2)).
Definition push_frame (frame : list Z) : M unit := modify (fun s => (s.1, (s.2.1 ++ [frame], s.2.2))).
Definition on_env {A} (m : ST (Env H) A) : M A := zoom (fun s => s.2.2) (fun e s => (s.1, (s.2.1, e))) m.
Definition on_host {A} (m : ST H A) : M A := on_env (zoom host (fun h e => e <| host := h |>) m).
(** A gateway's methods, on the connection's gateway [g]. *)
Definition on_gateway {A} (g : G) (m : ST (G * H) A) : M A := fun s =>
  match m (g, host s.2.2) with
  | Some (a, (g, h)) => Some (a, (s.1 <| transport := Https g |>, (s.2.1, s.2.2 <| host := h |>)))
  | None => None
  end.

(** *** [Transport] *)

Definition transport_write (buf : list Z) : M (Result nat ErrorKind) :=
  t ← get_conn transport;
  match t with
  | Raw s => on_host (tcp_write s buf)
  | Https g =>
      on_gateway g (push_from_guest buf);;
      t ← get_conn transport;
      mret (match t with
            | Https g => if gateway_failed g then Err BrokenPipe else Ok (length buf)
            | Raw _ => Ok (length buf)
            end)
  end.

Definition transport_read (n : nat) : M (Result (list Z) ErrorKind) :=
  t ← get_conn transport;
  match t with
  | Raw s => on_host (tcp_read s n)
  | Https g =>
      if gateway_failed g then mret (Err BrokenPipe)
      else
        r ← on_gateway g (pull_to_guest n);
        match r with
        | Some bytes => mret (Ok bytes)
        | None =>
            t ← get_conn transport;
            mret (match t with
                  | Https g => if gateway_eof g then Ok [] else Err WouldBlock
                  | Raw _ => Err WouldBlock
                  end)
        end
  end.

Definition has_pending (t : Transport Tcp G) : bool :=
  match t with
  | Raw _ => false
  | Https g => gateway_has_pending g
  end.

Definition shutdown_write : M unit :=
  t ← get_conn transport;
  match t with
  | Raw s => on_host (tcp_shutdown_write s)
  | Https g => on_gateway g gateway_shutdown_write
  end.

(** *** [TcpConn] *)

Definition has_queued_output (c : Conn) : bool := negb (bool_decide (snd_buf c = [])).

Definition conn_frame (flags : Z) (data : list Z) : M (list Z) :=
  c ← get_conn id;
  id ← on_env next_ip_id;
  mret (make_tcp_frame id (to_guest c) (snd_nxt c) (rcv_nxt c) flags data).

Definition in_flight (c : Conn) : Z := wrapping_sub32 (snd_nxt c) (snd_una c).

(** The first slice of a deque that is not empty. *)
Definition first_slice (l : list Z) : list Z := take (Nat.max 1 (first_slice_len l)) l.

Fixpoint forward_guest_writes_loop (fuel : nat) : M bool :=
  match fuel with
  | O => panic
  | Datatypes.S fuel =>
      buf ← get_conn write_buf;
      if decide (buf = []) then mret true
      else
        r ← transport_write (first_slice buf);
        match r with
        | Ok written =>
            rest ← lift (tail_slice written buf);
            mod_conn (fun c => c <| write_buf := rest |>);;
            forward_guest_writes_loop fuel
        | Err e => mret (would_block e)
        end
  end.
Definition forward_guest_writes : M bool := forward_guest_writes_loop loop_bound.

Definition forward_half_close : M unit :=
  c ← get_conn id;
  if guest_finished_writing c && bool_decide (write_buf c = []) then
    mod_conn (fun c => c <| guest_finished_writing := false |>);;
    shutdown_write
  else mret tt.

Definition send_fin : M unit :=
  frame ← conn_frame (Z.lor FIN ACK) [];
  push_frame frame;;
  mod_conn (fun c => c <| snd_nxt := wrapping_add32 (snd_nxt c) 1 |> <| fin_sent := true |>).

(** Every round but the last adds to the buffer. *)
Fixpoint read_upstream_loop (fuel : nat) : M bool :=
  match fuel with
  | O => panic
  | Datatypes.S fuel =>
      r ← transport_read READ_SIZE;
      match r with
      | Ok [] =>
          buf ← get_conn snd_buf;
          (if decide (buf = []) then send_fin else mret tt);;
          mod_conn (fun c => c <| conn_state := FinWait |>);;
          mret true
      | Ok bytes =>
          mod_conn (fun c => c <| snd_buf := snd_buf c ++ bytes |>);;
          buf ← get_conn snd_buf;
          if MAX_SND_BUF <=? Z.of_nat (length buf) then mret true else read_upstream_loop fuel
      | Err e =>
          if would_block e then mret true
          else
            frame ← conn_frame (Z.lor RST ACK) [];
            push_frame frame;;
            mret false
      end
  end.
Definition read_upstream : M bool :=
  buf ← get_conn snd_buf;
  read_upstream_loop (Datatypes.S (Z.to_nat (MAX_SND_BUF - Z.of_nat (length buf)))).

Definition can_send (c : Conn) : Z := Z.max 0 (rcv_wnd c - in_flight c).

(** Every round sends at least a byte. *)
Fixpoint drain_snd_buf_loop (fuel : nat) : M unit :=
  match fuel with
  | O => mret tt
  | Datatypes.S fuel =>
      c ← get_conn id;
      if (can_send c =? 0) || bool_decide (snd_buf c = []) then mret tt
      else
        let send_len := Nat.min (Nat.min (Z.to_nat (can_send c)) (length (snd_buf c))) MSS in
        let chunk := take send_len (snd_buf c) in
        mod_conn (fun c => c <| snd_buf := drop send_len (snd_buf c) |>);;
        frame ← conn_frame (Z.lor PSH ACK) chunk;
        push_frame frame;;
        mod_conn (fun c => c <| snd_nxt := wrapping_add32 (snd_nxt c) (Z.of_nat send_len) |>);;
        drain_snd_buf_loop fuel
  end.
Definition drain_snd_buf : M unit :=
  buf ← get_conn snd_buf;
  drain_snd_buf_loop (Datatypes.S (length buf)).

Definition send_fin_if_due : M unit :=
  c ← get_conn id;
  if fin_sent c || negb (bool_decide (snd_buf c = [])) || negb (in_flight c =? 0) then mret tt
  else
    send_fin;;
    mod_conn (fun c => c <| conn_state := Closed |>).

Definition service : M Serviced :=
  st ← get_conn conn_state;
  match st with
  | Established =>
      ok ← forward_guest_writes;
      serviced ←
        (if ok : bool then
           forward_half_close;;
           alive ← read_upstream;
           mret (if alive : bool then Alive else Finished)
         else
           mod_conn (fun c => c <| conn_state := Closed |>);;
           mret Finished);
      drain_snd_buf;;
      mret serviced
  | FinWait =>
      drain_snd_buf;;
      send_fin_if_due;;
      mret Alive
  | Closed => mret Finished
  end.
End Conn.

(** *** Segments from the guest *)

Section Guest.
Context {Tcp G : Type}.
Abbreviation Conn := (TcpConn Tcp G).

Definition on_guest_window (window : Z) (c : Conn) : Conn :=
  c <| rcv_wnd := as_u32 (Z.shiftl window (wnd_shift c)) |>.

Definition on_guest_ack (ack : Z) (c : Conn) : Conn :=
  let c := if 0 <? as_i32 (wrapping_sub32 ack (snd_una c)) then c <| snd_una := ack |> else c in
  if bool_decide (conn_state c = FinWait) && fin_sent c && (snd_una c =? snd_nxt c)
  then c <| conn_state := Closed |> else c.

(** [data[skip..]] with a [usize] subtraction before it. *)
Definition skip_bytes (data : list Z) (new_bytes : Z) : option (list Z) :=
  let skip := Z.of_nat (length data) - new_bytes in
  if skip <? 0 then None else tail_slice (Z.to_nat skip) data.

(** One round over the keys that were there when it began. *)
Fixpoint drain_keys (keys : list Z) (progressed : bool) (c : Conn) : option (bool * Conn) :=
  match keys with
  | [] => Some (progressed, c)
  | seq :: keys =>
      data ← seg_lookup seq (ooo_buf c);
      let end_seq := wrapping_add32 seq (as_u32 (Z.of_nat (length data))) in
      let gap := as_i32 (wrapping_sub32 seq (rcv_nxt c)) in
      let new_bytes := as_i32 (wrapping_sub32 end_seq (rcv_nxt c)) in
      if 0 <? gap then drain_keys keys progressed c
      else
        let c := c <| ooo_buf := seg_remove seq (ooo_buf c) |> in
        if 0 <? new_bytes then
          rest ← skip_bytes data new_bytes;
          drain_keys keys true (c <| write_buf := write_buf c ++ rest |> <| rcv_nxt := end_seq |>)
        else drain_keys keys progressed c
  end.

(** Every round but the last takes an entry out. *)
Fixpoint drain_ooo_loop (fuel : nat) (c : Conn) : option Conn :=
  match fuel with
  | O => None
  | S fuel =>
      '(progressed, c) ← drain_keys (map fst (ooo_buf c)) false c;
      if progressed : bool then drain_ooo_loop fuel c else Some c
  end.
Definition drain_ooo_buf (c : Conn) : option Conn := drain_ooo_loop (S (length (ooo_buf c))) c.

Definition on_guest_data (seq : Z) (data : list Z) (c : Conn) : option Conn :=
  let end_seq := wrapping_add32 seq (as_u32 (Z.of_nat (length data))) in
  let new_bytes := as_i32 (wrapping_sub32 end_seq (rcv_nxt c)) in
  let gap := as_i32 (wrapping_sub32 seq (rcv_nxt c)) in
  if (0 <? new_bytes) && (gap <=? 0) then
    rest ← skip_bytes data new_bytes;
    drain_ooo_buf (c <| write_buf := write_buf c ++ rest |> <| rcv_nxt := end_seq |>)
  else if 0 <? gap then
    if seg_bytes (ooo_buf c) + Z.of_nat (length data) <=? MAX_OOO_BYTES
    then Some (c <| ooo_buf := seg_or_insert seq data (ooo_buf c) |>)
    else Some c
  else Some c.

Definition on_guest_fin (c : Conn) : Conn :=
  let c := c <| rcv_nxt := wrapping_add32 (rcv_nxt c) 1 |> in
  match conn_state c with
  | Established => c <| guest_finished_writing := true |>
  | FinWait => if fin_sent c then c <| conn_state := Closed |> else c
  | Closed => c <| conn_state := Closed |>
  end.
End Guest.

(** *** Opening *)

(** Every round moves on. *)
Fixpoint wnd_scale_loop (fuel : nat) (tcp_hdr : list Z) (tcp_hlen i : nat) : option Z :=
  match fuel with
  | O => None
  | S fuel =>
      if (i <? tcp_hlen)%nat && (i <? length tcp_hdr)%nat then
        kind ← tcp_hdr !! i;
        if (kind =? 0) || (kind =? 1) then wnd_scale_loop fuel tcp_hdr tcp_hlen (i + 1)
        else if kind =? 3 then
          if (i + 2 <? length tcp_hdr)%nat then
            len ← tcp_hdr !! (i + 1)%nat;
            if len =? 3 then scale ← tcp_hdr !! (i + 2)%nat; Some (Z.min scale 14) else Some 0
          else Some 0
        else if (length tcp_hdr <=? i + 1)%nat then Some 0
        else
          len ← tcp_hdr !! (i + 1)%nat;
          if len <? 2 then Some 0 else wnd_scale_loop fuel tcp_hdr tcp_hlen (i + Z.to_nat len)
      else Some 0
  end.
Definition parse_wnd_scale (tcp_hdr : list Z) (tcp_hlen : nat) : option Z :=
  wnd_scale_loop (S (length tcp_hdr)) tcp_hdr tcp_hlen 20.

Definition isn_step (hash byte : Z) : Z := wrapping_mul32 (Z.lxor hash byte) 0x01000193.
Definition generate_isn (ends : Endpoints) : Z :=
  let hash := foldl isn_step 0x811c9dc5 (dst_ip ends ++ src_ip ends) in
  isn_step (isn_step hash (dst_port ends)) (src_port ends).
