(* ===== verification/TcpProps.v ===== *)
(** TCP connections: the guest's stream is put together again.

    [stream] is what the guest sends on a connection and [base] the sequence
    number of its first byte; position [p] of the stream has sequence number
    [seq_of p].  Segments are pieces of the stream; they may overlap, repeat and
    come in any order. *)
From Stdlib Require Import Sorted.
From S2P Require Import Prelude Words Wp Invariant VirtioConsole HostNet Frames Tcp.

Lemma take_step (l : list Z) (r e : nat) :
  (r <= e <= length l)%nat → take r l ++ take (e - r) (drop r l) = take e l.
Proof.
  intros H. rewrite <- skipn_firstn_comm. replace (take r l) with (take r (take e l)) by (rewrite take_take; f_equal; lia).
  apply take_drop.
Qed.

Section Stream.
Context {Tcp G : Type} (stream : list Z) (base : Z).
Abbreviation Conn := (TcpConn Tcp G).
Implicit Types (c : Conn) (r p : Z) (m : Segments).

Definition seq_of (p : Z) : Z := as_u32 (base + p).
Definition len (l : list Z) : Z := Z.of_nat (length l).

(** [d] is the stream's bytes from [p] on. *)
Definition piece (p : Z) (d : list Z) : Prop :=
  0 <= p ∧ p + len d <= len stream ∧ d = take (length d) (drop (Z.to_nat p) stream).

(** The first [r] bytes of the stream. *)
Definition upto (r : Z) : list Z := take (Z.to_nat r) stream.

(** *** Sequence numbers *)

Lemma seq_diff p r : - 2 ^ 31 <= p - r < 2 ^ 31 → as_i32 (wrapping_sub32 (seq_of p) (seq_of r)) = p - r.
Proof.
  intros H. unfold wrapping_sub32, seq_of, as_u32, as_i32. rewrite wrap_sub, signed_wrap.
  replace (base + p - (base + r)) with (p - r) by lia. apply signed_id; lia.
Qed.

Lemma seq_end p d : wrapping_add32 (seq_of p) (as_u32 (len d)) = seq_of (p + len d).
Proof. unfold wrapping_add32, seq_of, as_u32. rewrite wrap_add_l, wrap_add_r. f_equal. lia. Qed.

Lemma piece_skip p r d :
  piece p d → p <= r → r < p + len d →
  skip_bytes d (p + len d - r) = Some (take (Z.to_nat (p + len d - r)) (drop (Z.to_nat r) stream)).
Proof.
  intros (H0 & Hl & Hd) Hp Hr. unfold len in *. unfold skip_bytes.
  replace (Z.of_nat (length d) - (p + Z.of_nat (length d) - r)) with (r - p) by lia.
  destruct (Z.ltb_spec (r - p) 0); [lia|]. unfold tail_slice. destruct (Nat.leb_spec (Z.to_nat (r - p)) (length d)); [|lia].
  f_equal. rewrite Hd at 1. rewrite skipn_firstn_comm, drop_drop. f_equal; [lia|]. f_equal. lia.
Qed.

Lemma upto_step r p d : 0 <= r → p + len d <= len stream → r <= p + len d →
  upto r ++ take (Z.to_nat (p + len d - r)) (drop (Z.to_nat r) stream) = upto (p + len d).
Proof.
  intros H0 Hl Hr. unfold upto, len in *. replace (Z.to_nat (p + Z.of_nat (length d) - r)) with
    (Z.to_nat (p + Z.of_nat (length d)) - Z.to_nat r)%nat by lia. apply take_step. lia.
Qed.

(** *** The reassembly buffer *)

Lemma seg_remove_sub k m e : e ∈ seg_remove k m → e ∈ m.
Proof.
  induction m as [|[k' v] m IH]; cbn; [done|]. case_if; [intros H; by apply elem_of_cons; right|]. intros [->|H]%elem_of_cons; apply elem_of_cons; [by left | right; auto].
Qed.

Lemma seg_remove_length k m v : seg_lookup k m = Some v → length m = S (length (seg_remove k m)).
Proof. induction m as [|[k' v'] m IH]; cbn; [done|]. case_if; cbn; [done|]. intros H. by rewrite <- IH. Qed.

Lemma seg_lookup_elem k m v : seg_lookup k m = Some v → (k, v) ∈ m.
Proof.
  induction m as [|[k' v'] m IH]; cbn; [done|]. case_if; bools; rewrite elem_of_cons.
  - intros [= ->]. left. congruence.
  - right. auto.
Qed.

Lemma seg_lookup_key k m : k ∈ map fst m → ∃ v, seg_lookup k m = Some v.
Proof.
  induction m as [|[k' v'] m IH]; cbn; [by intros ?%not_elem_of_nil|]. rewrite elem_of_cons. case_if; bools; [eauto|].
  intros [->|H]; [done | auto].
Qed.

(** Entries are in the order of their keys, as in the map. *)
Definition seg_sorted (m : Segments) : Prop := StronglySorted Z.lt (map fst m).

Lemma sorted_keys m : seg_sorted m → NoDup (map fst m).
Proof.
  unfold seg_sorted. induction (map fst m) as [|k l IH]; intros H; [constructor|].
  apply StronglySorted_inv in H as [H Hall]. constructor; [|by apply IH].
  intros Hin. rewrite list.Forall_forall in Hall. specialize (Hall k Hin). lia.
Qed.

Lemma forall_keys (P : Z -> Prop) m : (∀ e, e ∈ m → P e.1) → Forall P (map fst m).
Proof. intros H. apply list.Forall_forall. intros k Hk. apply list_elem_of_fmap in Hk as (e & -> & He). by apply H. Qed.

Lemma keys_forall (P : Z -> Prop) m e : Forall P (map fst m) → e ∈ m → P e.1.
Proof. intros H He. rewrite list.Forall_forall in H. apply H, list_elem_of_fmap. eauto. Qed.

Lemma seg_remove_sorted k m : seg_sorted m → seg_sorted (seg_remove k m).
Proof.
  unfold seg_sorted. induction m as [|[k1 v1] m IH]; cbn; intros H; [done|]. apply StronglySorted_inv in H as [H Hall].
  case_if; [done|]. cbn. constructor; [by apply IH|]. apply forall_keys. intros e He.
  apply (keys_forall _ _ _ Hall). by eapply seg_remove_sub.
Qed.

Lemma seg_insert_elem k d m e : e ∈ seg_or_insert k d m → e = (k, d) ∨ e ∈ m.
Proof.
  induction m as [|[k1 v1] m IH]; cbn; [rewrite elem_of_cons; tauto|].
  case_if; [rewrite elem_of_cons; tauto|]. case_if; [tauto|]. rewrite !elem_of_cons. tauto.
Qed.

Lemma seg_insert_sorted k d m : seg_sorted m → seg_sorted (seg_or_insert k d m).
Proof.
  unfold seg_sorted. induction m as [|[k1 v1] m IH]; cbn; intros H; [by repeat constructor|].
  pose proof H as H'. apply StronglySorted_inv in H as [H Hall]. case_if; bools; [|case_if; bools; [done|]].
  - cbn. constructor; [done|]. constructor; [done|]. eapply list.Forall_impl; [exact Hall|]. cbn. lia.
  - cbn. constructor; [by apply IH|]. apply forall_keys. intros e He. apply seg_insert_elem in He as [->|He]; [cbn; lia|].
    apply (keys_forall _ _ _ Hall He).
Qed.

Lemma seg_remove_key k m e : seg_sorted m → e ∈ seg_remove k m ↔ e ∈ m ∧ e.1 ≠ k.
Proof.
  unfold seg_sorted. induction m as [|[k1 v1] m IH]; cbn; intros H; [split; [by intros ?%not_elem_of_nil | by intros [?%not_elem_of_nil _]]|].
  apply StronglySorted_inv in H as [H Hall]. case_if; bools; subst; rewrite !elem_of_cons.
  - split; [|by intros [[->|?] ?]]. intros He. split; [by right|]. pose proof (keys_forall _ _ _ Hall He). lia.
  - rewrite IH by done. split; [|tauto]. intros [->|[? ?]]; [split; [by left | done] | tauto].
Qed.

(** *** Draining *)

(** While draining: [r] bytes have been received, the buffer holds pieces that
    start behind [r0] and end less than half the number space later. *)
Record draining (sent : list Z) (r0 r : Z) c : Prop := {
  dr_nxt : rcv_nxt c = seq_of r;
  dr_bytes : sent ++ write_buf c = upto r;
  dr_range : 0 <= r0 <= r ∧ r <= len stream ∧ r < r0 + 2 ^ 31;
  dr_sorted : seg_sorted (ooo_buf c);
  dr_pieces k d : (k, d) ∈ ooo_buf c → ∃ p, k = seq_of p ∧ piece p d ∧ r0 < p ∧ p + len d < r0 + 2 ^ 31
}.

(** Nothing but the reassembly state differs. *)
Definition same_conn c c' : Prop :=
  c' = c <| write_buf := write_buf c' |> <| rcv_nxt := rcv_nxt c' |> <| ooo_buf := ooo_buf c' |>.

Lemma same_trans c1 c2 c3 : same_conn c1 c2 → same_conn c2 c3 → same_conn c1 c3.
Proof. unfold same_conn. intros E1 E2. rewrite E2, E1. by destruct c1. Qed.

(** The segment with key [k] is still ahead of what has been received. *)
Definition ahead (k : Z) c : Prop := 0 < as_i32 (wrapping_sub32 k (rcv_nxt c)).

Lemma drain_keys_ok sent r0 keys progressed c r :
  draining sent r0 r c → NoDup keys → (∀ k, k ∈ keys → k ∈ map fst (ooo_buf c)) →
  ∃ b c' r', drain_keys keys progressed c = Some (b, c') ∧ draining sent r0 r' c' ∧ r <= r' ∧ same_conn c c' ∧
    (∀ e, e ∈ ooo_buf c' → e ∈ ooo_buf c) ∧ (length (ooo_buf c') <= length (ooo_buf c))%nat ∧
    (b = true → progressed = true ∨ (length (ooo_buf c') < length (ooo_buf c))%nat) ∧
    (b = false → r' = r ∧ progressed = false ∧ ∀ e, e ∈ ooo_buf c' → e.1 ∈ keys → ahead e.1 c').
Proof.
  revert progressed c r. induction keys as [|k keys IH]; intros progressed c r D Hn Hk; cbn [drain_keys].
  { exists progressed, c, r. split; [done|]. split; [done|]. split; [lia|]. split; [by destruct c|]. split; [done|].
    split; [lia|]. split; [by left|]. intros ->. split; [done|]. split; [done|]. by intros e _ ?%not_elem_of_nil. }
  apply list.NoDup_cons in Hn as [Hkn Hn].
  destruct (seg_lookup_key k (ooo_buf c)) as [d Ed]; [apply Hk; by left|]. rewrite Ed. cbn [mbind option_bind].
  pose proof (seg_lookup_elem _ _ _ Ed) as Hin.
  destruct (dr_pieces _ _ _ _ D k d Hin) as (p & -> & Hp & Hr0 & Hend). destruct (dr_range _ _ _ _ D) as (Hrr & Hrl & Hrw).
  fold (len d). rewrite seq_end, (dr_nxt _ _ _ _ D). rewrite !seq_diff by (unfold len in *; lia).
  destruct (Z.ltb_spec 0 (p - r)) as [Hgap|Hgap].
  { destruct (IH progressed c r D Hn ltac:(intros k' H'; apply Hk; by right)) as (b & c' & r' & E & D' & Hr & Hs & Hsub & Hlen & Ht & Hf).
    exists b, c', r'. do 7 (split; [done|]). intros Hb. destruct (Hf Hb) as (-> & Hp0 & Ha). split; [done|]. split; [done|].
    intros e He [->|H']%elem_of_cons; [|by apply Ha]. unfold ahead. rewrite (dr_nxt _ _ _ _ D'), seq_diff by (unfold len in *; lia). done. }
  set (c1 := c <| ooo_buf := seg_remove (seq_of p) (ooo_buf c) |>).
  pose proof (seg_remove_length _ _ _ Ed) as Hlen1.
  assert (Hk1 : ∀ k', k' ∈ keys → k' ∈ map fst (seg_remove (seq_of p) (ooo_buf c))).
  { intros k' Hk'. assert (Hin' : k' ∈ map fst (ooo_buf c)) by (apply Hk; by right).
    apply list_elem_of_fmap in Hin' as (e & -> & He). apply list_elem_of_fmap. exists e. split; [done|].
    apply seg_remove_key; [apply D|]. split; [done|]. intros Heq. rewrite Heq in Hk'. done. }
  assert (Hsub1 : ∀ e, e ∈ seg_remove (seq_of p) (ooo_buf c) → e ∈ ooo_buf c) by (intros e; apply seg_remove_sub).
  destruct (Z.ltb_spec 0 (p + len d - r)) as [Hnew|Hold].
  - rewrite (piece_skip p r d Hp) by lia. cbn [mbind option_bind].
    set (c2 := c1 <| write_buf := _ |> <| rcv_nxt := _ |>).
    assert (D2 : draining sent r0 (p + len d) c2).
    { destruct Hp as (Hp0 & Hpl & _). split; cbn; [done | | lia | by apply seg_remove_sorted, D | intros k d' He; by apply (dr_pieces _ _ _ _ D), Hsub1].
      rewrite app_assoc, (dr_bytes _ _ _ _ D). apply upto_step; lia. }
    destruct (IH true c2 _ D2 Hn Hk1) as (b & c' & r' & E & D' & Hr & Hs & Hsub & Hlen & Ht & Hf).
    exists b, c', r'. split; [done|]. split; [done|]. split; [lia|]. split; [by eapply same_trans; [|exact Hs]|].
    split; [intros e He; by apply Hsub1, Hsub|]. cbn in Hlen. split; [lia|]. split; [right; lia|].
    intros Hb. destruct (Hf Hb) as (_ & ? & _). done.
  - assert (D1 : draining sent r0 r c1).
    { split; cbn; [apply D | apply D | done | by apply seg_remove_sorted, D | intros k d' He; by apply (dr_pieces _ _ _ _ D), Hsub1]. }
    destruct (IH progressed c1 r D1 Hn Hk1) as (b & c' & r' & E & D' & Hr & Hs & Hsub & Hlen & Ht & Hf).
    exists b, c', r'. split; [done|]. split; [done|]. split; [done|]. split; [by eapply same_trans; [|exact Hs]|].
    split; [intros e He; by apply Hsub1, Hsub|]. cbn in Hlen. split; [lia|]. split; [right; lia|].
    intros Hb. destruct (Hf Hb) as (-> & Hp0 & Ha). split; [done|]. split; [done|].
    intros e He [Heq|H']%elem_of_cons; [|by apply Ha]. exfalso. apply Hsub in He.
    apply (seg_remove_key (seq_of p)) in He; [|apply D]. by destruct He.
Qed.

(** The loop ends, with everything that can be taken taken. *)
Lemma drain_ooo_ok sent r0 fuel c r :
  draining sent r0 r c → (length (ooo_buf c) < fuel)%nat →
  ∃ c' r', drain_ooo_loop fuel c = Some c' ∧ draining sent r0 r' c' ∧ r <= r' ∧ same_conn c c' ∧
           ∀ e, e ∈ ooo_buf c' → ahead e.1 c'.
Proof.
  revert c r. induction fuel as [|fuel IH]; intros c r D Hf; [lia|]. cbn [drain_ooo_loop].
  destruct (drain_keys_ok sent r0 (map fst (ooo_buf c)) false c r D) as (b & c' & r' & E & D' & Hr & Hs & Hsub & Hlen & Ht & Hfin);
    [apply sorted_keys, D | done |]. rewrite E. cbn [mbind option_bind]. destruct b.
  - destruct (Ht eq_refl) as [?|Hlt]; [done|]. destruct (IH c' r' D' ltac:(lia)) as (c2 & r2 & E2 & D2 & Hr2 & Hs2 & Ha).
    exists c2, r2. split; [done|]. split; [done|]. split; [lia|]. split; [by eapply same_trans | done].
  - exists c', r'. do 4 (split; [done|]). intros e He. apply (Hfin eq_refl); [done|].
    apply list_elem_of_fmap. exists e. split; [done | by apply Hsub].
Qed.

(** *** Segments *)

(** Between segments: [sent] has gone upstream, [r] bytes of the stream and [f]
    FINs have been received. *)
Record receiving (sent : list Z) (r f : Z) c : Prop := {
  rv_nxt : rcv_nxt c = seq_of (r + f);
  rv_bytes : sent ++ write_buf c = upto r;
  rv_range : 0 <= r <= len stream;
  rv_fin : 0 <= f ∧ (0 < f → r = len stream);
  rv_sorted : seg_sorted (ooo_buf c);
  rv_pieces k d : (k, d) ∈ ooo_buf c → ∃ p, k = seq_of p ∧ piece p d ∧ r < p ∧ p + len d < r + 2 ^ 31
}.

Lemma drained_receiving sent r0 r c :
  draining sent r0 r c → (∀ e, e ∈ ooo_buf c → ahead e.1 c) → receiving sent r 0 c.
Proof.
  intros D Ha. destruct (dr_range _ _ _ _ D) as (H1 & H2 & H3). split; rewrite ?Z.add_0_r; try apply D; [lia | lia |].
  intros k d He. destruct (dr_pieces _ _ _ _ D k d He) as (p & -> & Hp & H4 & H5). exists p. split; [done|]. split; [done|].
  specialize (Ha _ He). unfold ahead in Ha. cbn [fst] in Ha.
  assert (0 <= len d) by (unfold len; lia). rewrite (dr_nxt _ _ _ _ D), seq_diff in Ha by lia. lia.
Qed.

(** A piece of the stream, not further than half the number space from what is
    expected next, is taken in without a panic; if it starts in what has been
    received, the stream is received at least to its end. *)
Lemma on_guest_data_ok sent r f c p d :
  receiving sent r f c → piece p d → - 2 ^ 31 <= p - (r + f) → p + len d - (r + f) < 2 ^ 31 →
  ∃ c' r', on_guest_data (seq_of p) d c = Some c' ∧ receiving sent r' f c' ∧ r <= r' < r + 2 ^ 31 ∧ same_conn c c' ∧
           (p <= r → p + len d <= r').
Proof.
  intros R Hp Hw1 Hw2. destruct (rv_range _ _ _ _ R) as [Hr0 Hrl]. destruct (rv_fin _ _ _ _ R) as [Hf0 Hff].
  pose proof Hp as (Hp0 & Hpl & _). assert (Hd : 0 <= len d) by (unfold len; lia).
  unfold on_guest_data. fold (len d). rewrite seq_end, (rv_nxt _ _ _ _ R), !seq_diff by lia.
  assert (Hsame : same_conn c c) by (by destruct c).
  destruct (Z.ltb_spec 0 (p + len d - (r + f))) as [Hnew|Hold]; cbn [andb].
  - assert (f = 0) as -> by (destruct (decide (0 < f)) as [H|]; [specialize (Hff H); lia | lia]). rewrite Z.add_0_r in *.
    destruct (Z.leb_spec (p - r) 0) as [Hgap|Hgap].
    + rewrite (piece_skip p r d Hp) by lia. cbn [mbind option_bind]. set (c1 := c <| write_buf := _ |> <| rcv_nxt := _ |>).
      assert (D : draining sent r (p + len d) c1).
      { split; cbn; [done | | lia | apply R | apply R]. rewrite app_assoc, (rv_bytes _ _ _ _ R). apply upto_step; lia. }
      destruct (drain_ooo_ok sent r (S (length (ooo_buf c1))) c1 _ D ltac:(lia)) as (c' & r' & E & D' & Hr' & Hs & Ha).
      exists c', r'. split; [exact E|]. split; [by eapply drained_receiving|].
      split; [destruct (dr_range _ _ _ _ D'); lia|]. split; [by eapply same_trans; [|exact Hs] | lia].
    + destruct (Z.ltb_spec 0 (p - r)); [|lia]. destruct (_ <=? MAX_OOO_BYTES); [|exists c, r; do 2 (split; [done|]); split; [lia|]; split; [done | lia]].
      eexists _, r. split; [done|]. split; [|split; [lia|]; split; [done | lia]].
      split; rewrite ?Z.add_0_r; cbn; [by rewrite (rv_nxt _ _ _ _ R), Z.add_0_r | apply R | done | lia | by apply seg_insert_sorted, R|].
      intros k d' [[= -> ->]|He]%seg_insert_elem; [exists p; split; [done|]; split; [done | lia]|]. by apply (rv_pieces _ _ _ _ R).
  - destruct (Z.ltb_spec 0 (p - (r + f))); [lia|]. exists c, r. split; [done|]. split; [done|]. split; [lia|]. split; [done|].
    intros Hpr. destruct (decide (0 < f)) as [H'|]; [rewrite (Hff H'); lia | lia].
Qed.
End Stream.

(** ** Upstream *)

(** What a host's streams do: a write takes a prefix of the bytes, as many as it
    says; nothing else changes what a stream has been given. *)
Class StreamLaws (H Udp Tcp : Type) {HN : HostNet H Udp Tcp} := {
  received : H -> Tcp -> list Z;
  sl_write s buf h r h' :
    tcp_write s buf h = Some (r, h') →
    match r with
    | Ok n => (n <= length buf)%nat ∧ received h' s = received h s ++ take n buf
    | Err _ => received h' s = received h s
    end;
  sl_read s n h r h' : tcp_read s n h = Some (r, h') → received h' s = received h s;
  sl_shutdown s h r h' : tcp_shutdown_write s h = Some (r, h') → received h' s = received h s
}.

Section Upstream.
Context {LB : LoopBound} {H Udp Tcp G C S : Type}.
Context {HN : HostNet H Udp Tcp} {HG : HttpsGateway G C S H} {LO : Layouts TcpKey} {SL : StreamLaws H Udp Tcp}.
Context (stream : list Z) (base : Z).
Abbreviation Conn := (TcpConn Tcp G).
Abbreviation World := (list (list Z) * Env H)%type.

(** A connection to the stream [tcp], which has been given part of the guest's
    bytes; the rest of what was received is in the write buffer. *)
Definition relaying (tcp : Tcp) (r f : Z) (s : Conn * World) : Prop :=
  transport s.1 = Raw tcp ∧ receiving stream base (received (host s.2.2) tcp) r f s.1.

(** Updates of other fields. *)
Definition reassembly_kept (g : Conn -> Conn) : Prop := ∀ c : Conn,
  transport (g c) = transport c ∧ rcv_nxt (g c) = rcv_nxt c ∧ write_buf (g c) = write_buf c ∧ ooo_buf (g c) = ooo_buf c.

Lemma receiving_kept sent r f (c c' : Conn) :
  rcv_nxt c' = rcv_nxt c → write_buf c' = write_buf c → ooo_buf c' = ooo_buf c →
  receiving stream base sent r f c → receiving stream base sent r f c'.
Proof. intros E1 E2 E3 []. split; rewrite ?E1, ?E2, ?E3; done. Qed.

Section Fixed.
Context (tcp : Tcp) (r f : Z).
Abbreviation I := (relaying tcp r f).

Lemma relaying_conn g (s : Conn * World) : reassembly_kept g → I s → I (g s.1, s.2).
Proof.
  intros Hg [Ht Hr]. destruct (Hg s.1) as (E1 & E2 & E3 & E4). split; cbn; [by rewrite E1|]. by eapply receiving_kept.
Qed.

Lemma mod_keeps g : reassembly_kept g → keeps True I (mod_conn g) (fun _ => True).
Proof. intros Hg. apply keeps_modify. intros s. by apply relaying_conn. Qed.

Lemma conn_keeps {A} (g : Conn -> A) : keeps True I (get_conn g) (fun _ => True).
Proof. by apply keeps_gets. Qed.

Lemma push_keeps frame : keeps True I (push_frame frame) (fun _ => True).
Proof. apply keeps_modify. by intros s. Qed.

Lemma frame_keeps flags data : keeps True I (conn_frame flags data) (fun _ => True).
Proof.
  unfold conn_frame. eapply keeps_bind; [apply (conn_keeps id)|]. intros c _.
  apply (keeps_bind _ _ (fun _ => True)); [|intros; by apply keeps_ret]. intros s Hs. by split.
Qed.

(** Host calls that give a stream nothing. *)
Lemma quiet_keeps {A} (m : ST H A) :
  (∀ h a h', m h = Some (a, h') → received h' tcp = received h tcp) → keeps True I (on_host m) (fun _ => True).
Proof.
  intros Hm s [Ht Hr]. unfold on_host, on_env, wp. run_st. destruct (m (host s.2.2)) as [[a h']|] eqn:E; [|done].
  split; [done|]. split; [done|]. cbn. by rewrite (Hm _ _ _ E).
Qed.

Lemma read_keeps n : keeps True I (transport_read n) (fun _ => True).
Proof.
  intros s Hs. unfold transport_read. apply wp_bind. unfold get_conn. apply wp_gets.
  rewrite (proj1 Hs). apply (quiet_keeps (tcp_read tcp n)); [|done]. intros h a h'. apply sl_read.
Qed.

Lemma shutdown_keeps : keeps True I shutdown_write (fun _ => True).
Proof.
  intros s Hs. unfold shutdown_write. apply wp_bind. unfold get_conn. apply wp_gets.
  rewrite (proj1 Hs). apply (quiet_keeps (tcp_shutdown_write tcp)); [|done]. intros h a h'. apply sl_shutdown.
Qed.

Lemma forward_keeps fuel : keeps True I (forward_guest_writes_loop fuel) (fun _ => True).
Proof.
  induction fuel as [|fuel IH]; [done|]. cbn [forward_guest_writes_loop].
  intros s Hs. apply wp_bind. unfold get_conn. apply wp_gets. destruct (decide (write_buf s.1 = [])) as [E|Hne]; [by split|].
  apply wp_bind. unfold transport_write. apply wp_bind. unfold get_conn. apply wp_gets. destruct Hs as [Ht Hr]. rewrite Ht.
  unfold on_host, on_env, wp at 1. run_st. destruct (tcp_write tcp (first_slice (write_buf s.1)) (host s.2.2)) as [[res h']|] eqn:Ew; [|done].
  apply sl_write in Ew. destruct res as [n|e].
  - destruct Ew as [Hn Er]. unfold first_slice in *. rewrite length_take in Hn. unfold wp, lift, tail_slice. run_st.
    destruct (Nat.leb_spec n (length (write_buf s.1))) as [_|]; [|lia]. apply IH. split; [exact Ht|]. cbn.
    rewrite Er. rewrite take_take. replace (n `min` _)%nat with n by lia.
    destruct Hr as [R1 R2 R3 R4 R5 R6]. split; try done. cbn. by rewrite <- app_assoc, take_drop.
  - split; [done|]. split; [exact Ht|]. cbn. by rewrite Ew.
Qed.

Lemma fin_keeps : keeps True I send_fin (fun _ => True).
Proof.
  unfold send_fin. eapply keeps_bind; [apply frame_keeps|]. intros frame _.
  eapply keeps_bind; [apply push_keeps|]. intros _ _. by apply mod_keeps.
Qed.

Lemma upstream_keeps fuel : keeps True I (read_upstream_loop fuel) (fun _ => True).
Proof.
  induction fuel as [|fuel IH]; [done|]. cbn [read_upstream_loop].
  eapply keeps_bind; [apply read_keeps|]. intros [bytes|e] _.
  - destruct bytes as [|x bytes].
    + eapply keeps_bind; [apply conn_keeps|]. intros buf _. apply (keeps_bind _ _ (fun _ => True)).
      * case_decide; [apply fin_keeps | by apply keeps_ret].
      * intros _ _. eapply keeps_bind; [by apply mod_keeps|]. intros. by apply keeps_ret.
    + eapply keeps_bind; [by apply mod_keeps|]. intros _ _. eapply keeps_bind; [apply conn_keeps|]. intros buf _.
      case_if; [by apply keeps_ret | done].
  - case_if; [by apply keeps_ret|]. eapply keeps_bind; [apply frame_keeps|]. intros frame _.
    eapply keeps_bind; [apply push_keeps|]. intros. by apply keeps_ret.
Qed.

Lemma drain_keeps_stream fuel : keeps True I (drain_snd_buf_loop fuel) (fun _ => True).
Proof.
  induction fuel as [|fuel IH]; [by apply keeps_ret|]. cbn [drain_snd_buf_loop].
  eapply keeps_bind; [apply conn_keeps|]. intros c _. case_if; [by apply keeps_ret|].
  eapply keeps_bind; [by apply mod_keeps|]. intros _ _. eapply keeps_bind; [apply frame_keeps|]. intros frame _.
  eapply keeps_bind; [apply push_keeps|]. intros _ _. eapply keeps_bind; [by apply mod_keeps|]. by intros _ _.
Qed.

Lemma drained_keeps : keeps True I drain_snd_buf (fun _ => True).
Proof. eapply keeps_bind; [apply conn_keeps|]. intros buf _. apply drain_keeps_stream. Qed.

(** Serving a connection moves bytes from its buffer to the stream, in order. *)
Lemma service_keeps : keeps True I service (fun _ => True).
Proof.
  unfold service. eapply keeps_bind; [apply conn_keeps|]. intros st _. destruct st; [| |by apply keeps_ret].
  - eapply keeps_bind; [apply forward_keeps|]. intros ok _. eapply (keeps_bind _ _ (fun _ => True)).
    + destruct ok; [|eapply keeps_bind; [by apply mod_keeps|]; intros; by apply keeps_ret].
      apply (keeps_bind _ _ (fun _ => True)).
      * unfold forward_half_close. eapply keeps_bind; [apply conn_keeps|]. intros c _. case_if; [|by apply keeps_ret].
        eapply keeps_bind; [by apply mod_keeps|]. intros _ _. apply shutdown_keeps.
      * intros _ _. apply (keeps_bind _ _ (fun _ => True)); [|intros; by apply keeps_ret].
        eapply keeps_bind; [apply conn_keeps|]. intros buf _. apply upstream_keeps.
    + intros serviced _. eapply keeps_bind; [apply drained_keeps|]. intros. by apply keeps_ret.
  - eapply keeps_bind; [apply drained_keeps|]. intros _ _. apply (keeps_bind _ _ (fun _ => True)); [|intros; by apply keeps_ret].
    unfold send_fin_if_due. eapply keeps_bind; [apply conn_keeps|]. intros c _. case_if; [by apply keeps_ret|].
    eapply keeps_bind; [apply fin_keeps|]. intros _ _. by apply mod_keeps.
Qed.
End Fixed.

(** *** Reachable connections *)

(** [carries q s]: some calls on a connection the guest opened lead to [s], and
    [q] is the position of the byte it expects next, counting a FIN as a byte.
    Segments are pieces of the stream, not further than half the number space from
    [q]; FINs come when the last byte has been received, as often as they like; the
    connection is served at any time. *)
Inductive carries : Z -> Conn * World -> Prop :=
  | ca_open c w tcp :
      transport c = Raw tcp → received (host w.2) tcp = [] → write_buf c = [] → ooo_buf c = [] → rcv_nxt c = as_u32 base →
      carries 0 (c, w)
  | ca_data q q' c c' w p d :
      carries q (c, w) → piece stream p d → - 2 ^ 31 <= p - q → p + len d - q < 2 ^ 31 →
      on_guest_data (seq_of base p) d c = Some c' → rcv_nxt c' = seq_of base q' → q <= q' < q + 2 ^ 31 → carries q' (c', w)
  | ca_fin q c w : carries q (c, w) → len stream <= q → carries (q + 1) (on_guest_fin c, w)
  | ca_ack q c w ack : carries q (c, w) → carries q (on_guest_ack ack c, w)
  | ca_window q c w window : carries q (c, w) → carries q (on_guest_window window c, w)
  | ca_service q s s' x : carries q s → service s = Some (x, s') → carries q s'.

Lemma on_guest_ack_kept ack : reassembly_kept (on_guest_ack ack).
Proof. intros c. unfold on_guest_ack. by repeat case_if. Qed.

Lemma position_unique q q' q'' :
  seq_of base q' = seq_of base q'' → q <= q' < q + 2 ^ 31 → q <= q'' < q + 2 ^ 31 → q' = q''.
Proof.
  intros E H1 H2. pose proof (seq_diff base q' q'' ltac:(lia)) as D. rewrite E, seq_diff in D by lia. lia.
Qed.

Lemma relaying_fin tcp r f (c : Conn) (w : World) :
  relaying tcp r f (c, w) → len stream <= r + f → relaying tcp r (f + 1) (on_guest_fin c, w).
Proof.
  intros [Ht R] Hq. cbn [fst snd] in *. destruct R as [R1 R2 R3 [R4 R4'] R5 R6].
  assert (Hk : ∀ c', transport c' = transport c → rcv_nxt c' = wrapping_add32 (rcv_nxt c) 1 → write_buf c' = write_buf c →
                     ooo_buf c' = ooo_buf c → relaying tcp r (f + 1) (c', w)).
  { intros c' E1 E2 E3 E4. split; cbn [fst snd]; [by rewrite E1|].
    split; rewrite ?E2, ?E3, ?E4; try done; [|split; [lia|]; destruct (decide (0 < f)) as [H'|]; [by intros _; apply R4' | lia]].
    rewrite R1. unfold wrapping_add32, seq_of, as_u32. rewrite wrap_add_l. f_equal. lia. }
  unfold on_guest_fin. cbn -[wrapping_add32]. destruct (conn_state c); [by apply Hk | destruct (fin_sent c); by apply Hk | by apply Hk].
Qed.

Lemma carries_relaying q s : carries q s → ∃ tcp r f, relaying tcp r f s ∧ q = r + f.
Proof.
  induction 1 as [c w tcp Ht Hh Hw Ho Hn|q q' c c' w p d _ IH Hp Hw1 Hw2 E En Hq|q c w _ IH Hq|q c w ack _ IH|q c w win _ IH|q s s' x _ IH E].
  - exists tcp, 0, 0. split; [|done]. split; [done|]. split; cbn; [unfold seq_of; by rewrite Hn, Z.add_0_r | by rewrite Hh, Hw | unfold len; lia | lia
      | rewrite Ho; constructor | rewrite Ho; by intros ? ? ?%not_elem_of_nil].
  - destruct IH as (tcp & r & f & [Ht R] & ->).
    destruct (on_guest_data_ok _ _ _ _ _ _ p d R Hp Hw1 Hw2) as (c2 & r' & E2 & R' & Hr & Hs & _). cbn [fst] in *. rewrite E in E2. injection E2 as <-.
    exists tcp, r', f. split; [split; [by rewrite Hs | done]|].
    apply (position_unique (r + f)); [by rewrite <- (rv_nxt _ _ _ _ _ _ R') | done | lia].
  - destruct IH as (tcp & r & f & [Ht R] & Eq). exists tcp, r, (f + 1). split; [|lia].
    by apply relaying_fin; [split | lia].
  - destruct IH as (tcp & r & f & Hr & ->). exists tcp, r, f. split; [|done].
    by apply (relaying_conn tcp r f (on_guest_ack ack) (c, w)); [apply on_guest_ack_kept|].
  - destruct IH as (tcp & r & f & Hr & ->). exists tcp, r, f. split; [|done].
    by apply (relaying_conn tcp r f (on_guest_window win) (c, w)).
  - destruct IH as (tcp & r & f & Hr & ->). exists tcp, r, f. split; [|done].
    pose proof (service_keeps tcp r f s Hr) as K. unfold wp in K. rewrite E in K. apply K.
Qed.

(** C19: the guest's stream arrives upstream as it was sent.  On a connection that
    goes to a socket of the host (not through the gateway), whatever order
    the data segments come in, however they overlap and repeat, and
    whenever the connection is served, as long as a FIN comes only when the last byte
    has been received: what its upstream socket has been given,
    followed by what waits to be written, is the guest's stream up to the byte
    expected next.  Segments are taken in without a panic, and one that starts in
    what has been received extends it at least to its own end. *)
Theorem guest_stream_reassembled q c w :
  carries q (c, w) →
  (∃ tcp, transport c = Raw tcp ∧ received (host w.2) tcp ++ write_buf c = upto stream (Z.min q (len stream))) ∧
  ∀ p d, piece stream p d → - 2 ^ 31 <= p - q → p + len d - q < 2 ^ 31 →
    ∃ c' q', on_guest_data (seq_of base p) d c = Some c' ∧ rcv_nxt c' = seq_of base q' ∧ q <= q' ∧
             (p <= Z.min q (len stream) → p + len d <= q').
Proof.
  intros Hc. apply carries_relaying in Hc as (tcp & r & f & [Ht R] & ->). cbn [fst snd] in *.
  destruct (rv_range _ _ _ _ _ _ R). destruct (rv_fin _ _ _ _ _ _ R) as [Hf0 Hff].
  assert (Er : Z.min (r + f) (len stream) = r) by (destruct (decide (0 < f)) as [H'|]; [rewrite (Hff H'); lia | lia]).
  rewrite Er. split.
  - exists tcp. split; [done | apply R].
  - intros p d Hp Hw1 Hw2.
    destruct (on_guest_data_ok _ _ _ _ _ _ p d R Hp Hw1 Hw2) as (c' & r' & E & R' & Hr & _ & Hl).
    exists c', (r' + f). split; [done|]. split; [apply R'|]. split; [lia|]. intros Hpr. specialize (Hl Hpr). lia.
Qed.
End Upstream.

(** ** A host for examples *)

(** A host whose one stream takes three bytes at a time and never answers. *)
Module QuietHost.
#[export] Instance bound : LoopBound := 9%nat.
#[export] Instance quiet_host : HostNet (list Z) unit unit := {|
  udp_bind := mret None; udp_send_to := fun _ _ _ _ => mret false; udp_recv_from := fun _ _ => mret None;
  tcp_connect := fun _ _ => mret (Some tt);
  tcp_write := fun _ buf h => Some (Ok (length (take 3 buf)), h ++ take 3 buf);
  tcp_read := fun _ _ => mret (Err WouldBlock); tcp_shutdown_write := fun _ => mret tt;
  to_socket_addrs := fun _ => mret None; instant_now := fun _ => 0
|}.
#[export] Instance gateway : HttpsGateway Empty_set Empty_set Empty_set (list Z) := {|
  gateway_new := fun (c : Empty_set) _ _ => match c with end; push_from_guest := fun _ => mret tt; gateway_failed := fun _ => true;
  pull_to_guest := fun _ => mret None; gateway_eof := fun _ => true; gateway_has_pending := fun _ => false;
  gateway_shutdown_write := mret tt
|}.
#[export] Instance layouts : Layouts TcpKey := {| first_slice_len := fun l => length l; hash_order := fun l => l |}.

#[export] Instance laws : StreamLaws (list Z) unit unit.
Proof.
  refine {| received := fun h _ => h |}.
  - intros s buf h r h' [= <- <-]. rewrite length_take. split; [lia|]. f_equal. by rewrite <- take_take, (take_ge buf (length buf)) by lia.
  - by intros s n h r h' [= _ <-].
  - by intros s h r h' [= _ <-].
Defined.
End QuietHost.

Section ReassemblyExample.
Import QuietHost.
Abbreviation Conn := (TcpConn unit Empty_set).

(** A connection opened with sequence number 999. *)
Definition demo_conn : Conn :=
  mkConn Established (Raw tt) (mkEndpoints [] [] 0 [] 0) [] 500 501 false [] false 1000 65535 0 [].
Definition demo_stream : list Z := [104; 101; 108; 108; 111].
Definition demo_world : list (list Z) * Env (list Z) := ([], mkEnv 1 []).

(** The second half has arrived, then the first half. *)
Definition demo_ahead : Conn := demo_conn <| ooo_buf := [(1002, [108; 108; 111])] |>.
Definition demo_joined : Conn := demo_conn <| write_buf := demo_stream |> <| rcv_nxt := 1005 |>.

Lemma demo_carries : carries demo_stream 1000 5 (demo_joined, demo_world).
Proof.
  assert (H0 : carries demo_stream 1000 0 (demo_conn, demo_world)) by (by apply (ca_open _ _ _ _ tt)).
  assert (H1 : carries demo_stream 1000 0 (demo_ahead, demo_world)).
  { apply (ca_data demo_stream 1000 0 0 demo_conn demo_ahead demo_world 2 [108; 108; 111] H0); try lia; done. }
  apply (ca_data demo_stream 1000 0 5 demo_ahead demo_joined demo_world 0 [104; 101] H1); try lia; done.
Qed.

Lemma guest_stream_reassembled_witness :
  ∃ tcp, transport demo_joined = Raw tcp ∧ received (host demo_world.2) tcp ++ write_buf demo_joined = demo_stream.
Proof. destruct (guest_stream_reassembled demo_stream 1000 5 demo_joined demo_world demo_carries) as [H _]. exact H. Defined.
End ReassemblyExample.

(** * Properties

    The sending side of a connection: what [drain_snd_buf] sends.

    The buffer goes out in segments that carry consecutive bytes under consecutive
    sequence numbers, as much as the guest's window allows and no more. *)

(** The frames that carry [chunks], from a first identification and sequence number on. *)
Fixpoint data_frames (ends : Endpoints) (ack id seq : Z) (chunks : list (list Z)) : list (list Z) :=
  match chunks with
  | [] => []
  | d :: chunks =>
      make_tcp_frame id ends seq ack (Z.lor PSH ACK) d
      :: data_frames ends ack (as_u16 (id + 1)) (wrapping_add32 seq (Z.of_nat (length d))) chunks
  end.

Section Send.
Context {LB : LoopBound} {H Udp Tcp G C S : Type}.
Context {HN : HostNet H Udp Tcp} {HG : HttpsGateway G C S H} {LO : Layouts TcpKey}.
Abbreviation Conn := (TcpConn Tcp G).

Record snd_ok (c : Conn) : Prop := {
  so_una : is_u32 (snd_una c);
  so_nxt : is_u32 (snd_nxt c);
  so_wnd : is_u32 (rcv_wnd c)
}.

(** How many bytes go out now. *)
Definition sendable (c : Conn) : nat := Nat.min (Z.to_nat (can_send c)) (length (snd_buf c)).

(** What sending [n] bytes does to a connection. *)
Definition sent (n : nat) (c : Conn) : Conn :=
  c <| snd_buf := drop n (snd_buf c) |> <| snd_nxt := wrapping_add32 (snd_nxt c) (Z.of_nat n) |>.

Lemma sent_0 c : snd_ok c → sent 0 c = c.
Proof. intros [_ Hn _]. destruct c; unfold sent; cbn in *. rewrite drop_0. f_equal. unfold wrapping_add32. rewrite Z.add_0_r. by apply wrap_id. Qed.

Lemma sent_sent n m c : sent m (sent n c) = sent (n + m) c.
Proof.
  destruct c; unfold sent; cbn. rewrite drop_drop. f_equal. unfold wrapping_add32, as_u32, wrap. rewrite Zplus_mod_idemp_l. f_equal. lia.
Qed.

Lemma sent_ok n c : snd_ok c → snd_ok (sent n c).
Proof. intros []. split; try done. by apply wrap_range. Qed.

Lemma in_flight_sent n c : snd_ok c → Z.of_nat n <= can_send c → in_flight (sent n c) = in_flight c + Z.of_nat n.
Proof.
  intros [Ha Hb Hw] Hn. unfold can_send, in_flight, sent in *. cbn. unfold wrapping_sub32, wrapping_add32, as_u32, wrap, is_word in *.
  rewrite Zminus_mod_idemp_l. replace (snd_nxt c + Z.of_nat n - snd_una c) with (snd_nxt c - snd_una c + Z.of_nat n) by lia.
  rewrite <- Zplus_mod_idemp_l. apply Z.mod_small.
  pose proof (Z.mod_pos_bound (snd_nxt c - snd_una c) (2 ^ 32) ltac:(lia)). lia.
Qed.

Lemma can_send_sent n c : snd_ok c → Z.of_nat n <= can_send c → can_send (sent n c) = can_send c - Z.of_nat n.
Proof.
  intros Hc Hn. pose proof (in_flight_sent n c Hc Hn) as E. unfold can_send in *. rewrite E. cbn. lia.
Qed.

(** The chunks the buffer is cut into. *)
Record chunked (chunks : list (list Z)) (bytes : list Z) : Prop := {
  ck_join : mjoin chunks = bytes;
  ck_size : Forall (fun d => (1 <= length d <= MSS)%nat) chunks
}.

Definition after_sending (c : Conn) (chunks : list (list Z)) (out : list (list Z)) (e : Env H) : Conn * (list (list Z) * Env H) :=
  (sent (sendable c) c,
   (out ++ data_frames (to_guest c) (rcv_nxt c) (ip_id_counter e) (snd_nxt c) chunks,
    e <| ip_id_counter := Nat.iter (length chunks) (fun i => as_u16 (i + 1)) (ip_id_counter e) |>)).

(** One round, with something to send. *)
Lemma drain_round fuel (c : Conn) out (e : Env H) :
  can_send c <> 0 → snd_buf c <> [] →
  let n := Nat.min (sendable c) MSS in
  drain_snd_buf_loop (Datatypes.S fuel) (c, (out, e)) =
  drain_snd_buf_loop fuel
    (sent n c, (out ++ [make_tcp_frame (ip_id_counter e) (to_guest c) (snd_nxt c) (rcv_nxt c) (Z.lor PSH ACK) (take n (snd_buf c))],
                e <| ip_id_counter := as_u16 (ip_id_counter e + 1) |>)).
Proof.
  intros Hs Hb n. cbn [drain_snd_buf_loop]. unfold mbind at 1, ST_bind at 1, get_conn at 1, gets at 1. cbn [fst snd]. unfold id.
  rewrite (proj2 (Z.eqb_neq _ _) Hs), bool_decide_eq_false_2 by done. reflexivity.
Qed.

Lemma drain_loop_spec fuel (c : Conn) out (e : Env H) :
  snd_ok c → (length (snd_buf c) < fuel)%nat →
  ∃ chunks, chunked chunks (take (sendable c) (snd_buf c)) ∧
    drain_snd_buf_loop fuel (c, (out, e)) = Some (tt, after_sending c chunks out e).
Proof.
  revert c out e. induction fuel as [|fuel IH]; intros c out e Hc Hf; [lia|].
  destruct (decide (can_send c = 0 ∨ snd_buf c = [])) as [Hz|Hnz].
  - assert (E0 : sendable c = 0%nat) by (unfold sendable; destruct Hz as [-> | ->]; cbn; lia).
    exists []. split; [split; [by rewrite E0 | constructor]|].
    unfold after_sending. rewrite E0, sent_0, app_nil_r by done. destruct e. cbn [drain_snd_buf_loop].
    unfold mbind at 1, ST_bind at 1, get_conn at 1, gets at 1. cbn [fst snd]. unfold id.
    replace ((can_send c =? 0) || bool_decide (snd_buf c = [])) with true; [done|].
    symmetry. apply orb_true_iff. destruct Hz; [left; by apply Z.eqb_eq | right; by apply bool_decide_eq_true_2].
  - assert (Hs : can_send c <> 0) by tauto. assert (Hb : snd_buf c <> []) by tauto. clear Hnz.
    pose proof (drain_round fuel c out e Hs Hb) as E. cbv zeta in E. rewrite E. clear E.
    set (n := Nat.min (sendable c) MSS).
    assert (Hl : (0 < length (snd_buf c))%nat) by (destruct (snd_buf c); [done | cbn; lia]).
    assert (Hp : 0 < can_send c) by (unfold can_send in *; lia).
    assert (Hn : (1 <= n <= MSS)%nat) by (unfold n, sendable, MSS; lia).
    assert (Hn' : (n <= sendable c)%nat) by (unfold n; lia).
    assert (Hle : Z.of_nat n <= can_send c) by (unfold sendable in Hn'; lia).
    assert (Hs' : sendable (sent n c) = (sendable c - n)%nat).
    { unfold sendable. rewrite can_send_sent by done. cbn. rewrite length_drop. unfold sendable in Hn'. lia. }
    destruct (IH (sent n c) (out ++ [make_tcp_frame (ip_id_counter e) (to_guest c) (snd_nxt c) (rcv_nxt c) (Z.lor PSH ACK) (take n (snd_buf c))])
      (e <| ip_id_counter := as_u16 (ip_id_counter e + 1) |>)) as (chunks & [Hj Hsz] & E);
      [by apply sent_ok | cbn; rewrite length_drop; lia|].
    exists (take n (snd_buf c) :: chunks). assert (Hln : length (take n (snd_buf c)) = n) by (rewrite length_take; unfold sendable in Hn'; lia).
    split.
    + split; [|constructor; [by rewrite Hln | done]]. change (mjoin (take n (snd_buf c) :: chunks)) with (take n (snd_buf c) ++ mjoin chunks).
      rewrite Hj, Hs'. cbn. rewrite <- (take_drop n (take (sendable c) (snd_buf c))), take_take, Nat.min_l by done. f_equal.
      by rewrite skipn_firstn_comm.
    + rewrite E. unfold after_sending. rewrite Hs', sent_sent. replace (n + (sendable c - n))%nat with (sendable c) by lia.
      cbn [data_frames length]. rewrite Hln, <- app_assoc. destruct e. cbn. do 5 f_equal. apply (Nat.iter_swap (length chunks) Z (fun i => as_u16 (i + 1))).
Qed.

Lemma sent_within_window (c : Conn) :
  snd_ok c → in_flight (sent (sendable c) c) <= Z.max (in_flight c) (rcv_wnd c).
Proof.
  intros Hc. rewrite in_flight_sent by (unfold sendable, can_send; lia || done). unfold sendable, can_send. lia.
Qed.

(** C20: the connection sends its buffer in order and within the window.
    Draining ends; it queues segments of 1 to 1460 bytes that carry the buffer's
    first bytes in order, each numbered where the one before ended; it sends as
    much as the guest's window and the buffer allow; the rest stays, nothing else
    of the connection changes, and no more is in flight than the window, unless
    more already was. *)
Theorem buffer_sent_in_order (c : Conn) out (e : Env H) :
  snd_ok c →
  ∃ chunks, chunked chunks (take (sendable c) (snd_buf c)) ∧
    drain_snd_buf (c, (out, e)) = Some (tt, after_sending c chunks out e) ∧
    in_flight (sent (sendable c) c) = in_flight c + Z.of_nat (sendable c) ∧
    in_flight (sent (sendable c) c) <= Z.max (in_flight c) (rcv_wnd c) ∧
    (snd_buf (sent (sendable c) c) = [] ∨ rcv_wnd c <= in_flight (sent (sendable c) c)).
Proof.
  intros Hc. destruct (drain_loop_spec (Datatypes.S (length (snd_buf c))) c out e Hc ltac:(lia)) as (chunks & Hk & E).
  exists chunks. split; [done|]. split; [exact E|].
  assert (Ef : in_flight (sent (sendable c) c) = in_flight c + Z.of_nat (sendable c)).
  { apply in_flight_sent; [done|]. unfold sendable, can_send. lia. }
  split; [done|]. split; [by apply sent_within_window|]. rewrite Ef.
  destruct (Nat.le_gt_cases (length (snd_buf c)) (Z.to_nat (can_send c))) as [Hl|Hl].
  - left. cbn. apply drop_ge. unfold sendable. lia.
  - right. unfold sendable, can_send in *. lia.
Qed.
End Send.

(** A connection with three bytes to send, one in flight and a window of three. *)
Section SendExample.
Import QuietHost.
Abbreviation Conn := (TcpConn unit Empty_set).

Definition send_conn : Conn := demo_conn <| snd_buf := [1; 2; 3] |> <| rcv_wnd := 3 |>.

Lemma buffer_sent_in_order_witness :
  ∃ chunks, chunked chunks [1; 2] ∧ drain_snd_buf (send_conn, demo_world) = Some (tt, after_sending send_conn chunks [] (demo_world.2)).
Proof.
  destruct (buffer_sent_in_order send_conn [] (demo_world.2)) as (chunks & Hk & E & _); [by split|].
  exists chunks. split; [exact Hk | exact E].
Defined.
End SendExample.
