(* ===== verification/Dns.v ===== *)
(** DNS messages ([machine/src/virtio/slirp/dns.rs]): the question of a query, the
    replies made for it, and the addresses in a reply.  Host names are bytes. *)
From S2P Require Import Prelude Words SyscallTrace HostNet Frames.

Definition RELAY_TIMEOUT : Z := 5 * 1000000000.
Definition QTYPE_A : Z := 1.
Definition QTYPE_AAAA : Z := 28.
Definition RCODE_NOERROR : Z := 0.
Definition RCODE_SERVFAIL : Z := 2.
Definition RCODE_NXDOMAIN : Z := 3.
Definition MAX_ANSWERS : nat := 4.
Definition UPSTREAM_SERVERS : list (list Z) := [[1; 1; 1; 1]; [8; 8; 8; 8]; [208; 67; 222; 222]].

Record Question := mkQuestion { hostname : list Z; qtype : Z; question_end : nat }.

(** [str::from_utf8(..).is_ok()] *)
Fixpoint utf8_valid_loop (fuel : nat) (l : list Z) : bool :=
  match fuel, l with
  | S fuel, _ :: _ => let '(ok, n) := utf8_chunk l in ok && utf8_valid_loop fuel (drop n l)
  | _, _ => true
  end.
Definition utf8_valid (l : list Z) : bool := utf8_valid_loop (length l) l.

(** [query.get(a..a + n)] *)
Abbreviation get_slice := sub_slice.

(** The labels from [position] on: the host name and the position behind it. *)
Fixpoint parse_labels (fuel : nat) (query : list Z) (position : nat) (name : list Z) : option (list Z * nat) :=
  match fuel with
  | O => None
  | S fuel =>
      label_len ← query !! position;
      if label_len =? 0 then Some (name, (position + 1)%nat)
      else if negb (Z.land label_len 0xC0 =? 0) then None
      else
        label ← get_slice (position + 1) (Z.to_nat label_len) query;
        if negb (utf8_valid label) then None
        else
          let name := (if decide (name = []) then name else name ++ [46]) ++ label in
          if 253 <? Z.of_nat (length name) then None
          else parse_labels fuel query (position + 1 + Z.to_nat label_len) name
  end.

Definition parse_question (query : list Z) : option Question :=
  if (length query <? 12)%nat then None
  else
    count ← u16be query 4;
    if negb (count =? 1) then None
    else
      '(name, position) ← parse_labels (S (length query)) query 12 [];
      qtype ← u16be query position;
      let question_end := (position + 4)%nat in
      if (length query <? question_end)%nat then None
      else Some (mkQuestion name qtype question_end).

(** The name of a record: the position behind it, unless the reply ends first. *)
Fixpoint skip_record_name (fuel : nat) (reply : list Z) (position : nat) : option nat :=
  match fuel with
  | O => None
  | S fuel =>
      label_len ← reply !! position;
      if Z.land label_len 0xC0 =? 0xC0 then Some (position + 2)%nat
      else
        let position := (position + 1 + Z.to_nat label_len)%nat in
        if label_len =? 0 then Some position else skip_record_name fuel reply position
  end.

(** One record: the address in it, if any, and the position behind it. *)
Definition read_record (reply : list Z) (position : nat) : option (list (list Z) * nat) :=
  position ← skip_record_name (S (length reply)) reply position;
  fixed ← get_slice position 10 reply;
  record_type ← u16be fixed 0;
  data_len ← u16be fixed 8;
  let position := (position + 10)%nat in
  data ← get_slice position (Z.to_nat data_len) reply;
  let found := if (record_type =? QTYPE_A) && (data_len =? 4) then [data] else [] in
  Some (found, (position + Z.to_nat data_len)%nat).

Fixpoint read_records (n : nat) (reply : list Z) (position : nat) : list (list Z) :=
  match n with
  | O => []
  | S n =>
      match read_record reply position with
      | Some (found, position) => found ++ read_records n reply position
      | None => []
      end
  end.

Definition ipv4_answers (reply : list Z) (question_end : nat) : option (list (list Z)) :=
  answer_count ← u16be reply 6;
  Some (read_records (Z.to_nat answer_count) reply question_end).

(** An answer record: a pointer to the question's name, type A, class IN, a
    minute to live, four bytes. *)
Definition answer_record (address : list Z) : list Z :=
  [0xC0; 0x0C] ++ to_be_bytes 2 QTYPE_A ++ to_be_bytes 2 1 ++ to_be_bytes 4 60 ++ to_be_bytes 2 4 ++ address.

Definition build_dns_reply (query : list Z) (question : Question) (answers : list (list Z)) (rcode : Z) : option (list Z) :=
  id ← sub_slice 0 2 query;
  let flags := Z.lor 0x8180 rcode in
  asked ← (if (question_end question <? 12)%nat then None else sub_slice 12 (question_end question - 12) query);
  Some (id ++ to_be_bytes 2 flags ++ to_be_bytes 2 1 ++ to_be_bytes 2 (as_u16 (Z.of_nat (length answers)))
        ++ to_be_bytes 2 0 ++ to_be_bytes 2 0 ++ asked ++ mjoin (map answer_record answers)).

(** The IPv4 addresses among what the host resolved. *)
Definition v4_addresses (resolved : list SocketAddr) : list (list Z) :=
  take MAX_ANSWERS (omap (fun a => match a with V4 octets => Some octets | V6 => None end) resolved).

(** [Vec::swap_remove], a panic out of range. *)
Definition swap_remove {A} (i : nat) (l : list A) : option (list A) :=
  match l !! i, list.last l with
  | Some _, Some x => Some (take (length l - 1) (<[i := x]> l))
  | _, _ => None
  end.

(** * Properties

    DNS replies answer the query they are made for. *)

(** ** Slices of lists that agree *)

(** [l] and [l'] have the same bytes from [i] up to [j], all of them there. *)
Definition agree (l l' : list Z) (i j : nat) : Prop := ∀ k, (i <= k < j)%nat → l' !! k = l !! k.

Lemma sub_slice_Some i n l s : sub_slice i n l = Some s → (i + n <= length l)%nat ∧ s = take n (drop i l) ∧ length s = n.
Proof.
  unfold sub_slice. destruct (Nat.leb_spec (i + n) (length l)); [|done]. intros [= <-]. split; [done|]. split; [done|].
  rewrite length_take, length_drop. lia.
Qed.

Lemma sub_slice_agree l l' i n s :
  (0 < n)%nat → sub_slice i n l = Some s → agree l l' i (i + n) → sub_slice i n l' = Some s.
Proof.
  intros Hn E Ha. apply sub_slice_Some in E as (Hl & -> & _).
  assert (Hl' : (i + n <= length l')%nat).
  { destruct (lookup_lt_is_Some_2 l (i + n - 1) ltac:(lia)) as [x Hx].
    rewrite <- Ha in Hx by lia. apply lookup_lt_Some in Hx. lia. }
  unfold sub_slice. destruct (Nat.leb_spec (i + n) (length l')); [|lia]. f_equal.
  apply list_eq. intros k. rewrite !lookup_take, !lookup_drop. case_decide; [|done]. apply Ha. lia.
Qed.

Lemma u16be_agree l l' i : agree l l' i (i + 2) → u16be l' i = u16be l i.
Proof. intros Ha. unfold u16be. by rewrite !Ha by lia. Qed.

Lemma agree_mono l l' i j i' j' : (i <= i')%nat → (j' <= j)%nat → agree l l' i j → agree l l' i' j'.
Proof. intros Hi Hj H k Hk. apply H. lia. Qed.

(** ** The question *)

(** The labels found depend on nothing but the bytes they are in. *)
Lemma parse_labels_agree fuel query pos name name' e :
  parse_labels fuel query pos name = Some (name', e) →
  (pos < e)%nat ∧ ∀ fuel' reply, agree query reply pos e → (e - pos <= fuel')%nat →
    parse_labels fuel' reply pos name = Some (name', e).
Proof.
  revert pos name. induction fuel as [|fuel IH]; intros pos name; cbn [parse_labels]; [done|].
  destruct (query !! pos) as [len|] eqn:El; cbn [mbind option_bind]; [|done].
  destruct (Z.eqb_spec len 0) as [->|Hlen].
  { intros [= <- <-]. split; [lia|]. intros fuel' reply Ha Hf. destruct fuel' as [|fuel']; [lia|]. cbn [parse_labels].
    rewrite Ha, El by lia. done. }
  destruct (Z.land len 0xC0 =? 0) eqn:Eland; cbn [negb]; [|done].
  destruct (get_slice (pos + 1) (Z.to_nat len) query) as [label|] eqn:Es; cbn [mbind option_bind]; [|done].
  destruct (utf8_valid label) eqn:Eu; cbn [negb]; [|done]. set (n := (if decide (name = []) then name else name ++ [46]) ++ label).
  destruct (253 <? Z.of_nat (length n)) eqn:Eb; [done|]. intros E. apply IH in E as [Hp E].
  split; [lia|]. intros fuel' reply Ha Hf. destruct fuel' as [|fuel']; [lia|]. cbn [parse_labels].
  rewrite Ha, El by lia. cbn [mbind option_bind]. destruct (Z.eqb_spec len 0); [done|]. rewrite Eland. cbn [negb].
  assert (Es' : get_slice (pos + 1) (Z.to_nat len) reply = Some label).
  { destruct (decide (0 < Z.to_nat len)%nat); [|].
    - apply (sub_slice_agree query); [done | done | by eapply agree_mono; [| |exact Ha]; lia].
    - assert (Hz : Z.to_nat len = 0%nat) by lia. rewrite Hz in *. apply sub_slice_Some in Es as (_ & -> & _).
      unfold sub_slice. pose proof (lookup_lt_Some reply pos len ltac:(rewrite Ha by lia; done)) as Hlt.
      destruct (Nat.leb_spec (pos + 1 + 0) (length reply)); [by rewrite !take_0 | lia]. }
  rewrite Es'. cbn [mbind option_bind]. rewrite Eu. cbn [negb]. fold n. rewrite Eb. apply E; [|lia].
  eapply agree_mono; [| |exact Ha]; lia.
Qed.

Lemma parse_question_Some query q :
  parse_question query = Some q → ∃ pos,
    parse_labels (S (length query)) query 12 [] = Some (hostname q, pos) ∧ u16be query pos = Some (qtype q) ∧
    question_end q = (pos + 4)%nat ∧ (12 < pos)%nat ∧ (question_end q <= length query)%nat ∧ (12 <= length query)%nat.
Proof.
  unfold parse_question. destruct (Nat.ltb_spec (length query) 12); [done|].
  destruct (u16be query 4) as [c|]; cbn [mbind option_bind]; [|done]. destruct (c =? 1); cbn [negb]; [|done].
  destruct (parse_labels _ _ _ _) as [[name pos]|] eqn:El; cbn [mbind option_bind]; [|done].
  destruct (u16be query pos) as [t|] eqn:Et; cbn [mbind option_bind]; [|done].
  destruct (Nat.ltb_spec (length query) (pos + 4)); [done|]. intros [= <-]. exists pos.
  apply parse_labels_agree in El as Hp. cbn. repeat split; try done; lia.
Qed.

Lemma parse_question_agree query reply q :
  parse_question query = Some q → agree query reply 12 (question_end q) → (question_end q <= length reply)%nat →
  u16be reply 4 = Some 1 → parse_question reply = Some q.
Proof.
  intros E Ha Hl Hc. apply parse_question_Some in E as (pos & El & Et & Ee & Hp & _ & _).
  unfold parse_question. destruct (Nat.ltb_spec (length reply) 12); [lia|]. rewrite Hc. cbn [mbind option_bind Z.eqb negb].
  apply parse_labels_agree in El as [_ El]. rewrite (El (S (length reply)) reply); [|eapply agree_mono; [| |exact Ha]; lia | lia].
  cbn [mbind option_bind]. rewrite (u16be_agree query reply) by (eapply agree_mono; [| |exact Ha]; lia). rewrite Et.
  cbn [mbind option_bind]. destruct (Nat.ltb_spec (length reply) (pos + 4)); [lia|]. destruct q; cbn in *. congruence.
Qed.

(** ** The answers *)

Lemma length_answer a : length a = 4%nat → length (answer_record a) = 16%nat.
Proof. intros Ha. unfold answer_record. by rewrite !length_app, !length_be, Ha. Qed.

Lemma read_answer pre a post :
  length a = 4%nat → read_record (pre ++ answer_record a ++ post) (length pre) = Some ([a], (length pre + 16)%nat).
Proof.
  intros Ha. unfold read_record, answer_record. cbn [skip_record_name].
  assert (E0 : (pre ++ ([0xC0; 0x0C] ++ to_be_bytes 2 QTYPE_A ++ to_be_bytes 2 1 ++ to_be_bytes 4 60 ++ to_be_bytes 2 4 ++ a) ++ post)
    !! length pre = Some 0xC0) by (by apply list_lookup_middle).
  rewrite E0. cbn [mbind option_bind]. change (Z.land 0xC0 0xC0 =? 0xC0) with true. cbv iota. cbn [mbind option_bind].
  assert (E1 : get_slice (length pre + 2) 10 (pre ++ ([0xC0; 0x0C] ++ to_be_bytes 2 QTYPE_A ++ to_be_bytes 2 1 ++ to_be_bytes 4 60 ++ to_be_bytes 2 4 ++ a) ++ post)
    = Some (to_be_bytes 2 QTYPE_A ++ to_be_bytes 2 1 ++ to_be_bytes 4 60 ++ to_be_bytes 2 4)).
  { replace (pre ++ _ ++ post) with ((pre ++ [0xC0; 0x0C]) ++ (to_be_bytes 2 QTYPE_A ++ to_be_bytes 2 1 ++ to_be_bytes 4 60 ++ to_be_bytes 2 4) ++ a ++ post)
      by (rewrite <- !app_assoc; done). apply sub_slice_app; [by rewrite length_app | by rewrite !length_app, !length_be]. }
  rewrite E1. cbn [mbind option_bind].
  assert (Eq : u16be (to_be_bytes 2 QTYPE_A ++ to_be_bytes 2 1 ++ to_be_bytes 4 60 ++ to_be_bytes 2 4) 0 = Some QTYPE_A) by reflexivity.
  rewrite Eq. cbn [mbind option_bind].
  assert (E2 : u16be (to_be_bytes 2 QTYPE_A ++ to_be_bytes 2 1 ++ to_be_bytes 4 60 ++ to_be_bytes 2 4) 8 = Some 4) by reflexivity.
  rewrite E2. cbn [mbind option_bind].
  assert (E3 : get_slice (length pre + 2 + 10) (Z.to_nat 4) (pre ++ ([0xC0; 0x0C] ++ to_be_bytes 2 QTYPE_A ++ to_be_bytes 2 1 ++ to_be_bytes 4 60 ++ to_be_bytes 2 4 ++ a) ++ post)
    = Some a).
  { rewrite !app_assoc. rewrite <- (app_assoc _ a post). apply sub_slice_app; [|done]. rewrite !length_app, !length_be. cbn. lia. }
  rewrite E3. cbn [mbind option_bind]. do 2 f_equal. cbn. lia.
Qed.

Lemma read_answers ips pre post :
  Forall (fun a => length a = 4%nat) ips →
  read_records (length ips) (pre ++ mjoin (map answer_record ips) ++ post) (length pre) = ips.
Proof.
  intros H. revert pre. induction H as [|a ips Ha _ IH]; intros pre; [done|].
  cbn [length read_records]. change (mjoin (map answer_record (a :: ips))) with (answer_record a ++ mjoin (map answer_record ips)).
  rewrite <- app_assoc, read_answer by done. cbn [app]. f_equal.
  rewrite app_assoc. replace (length pre + 16)%nat with (length (pre ++ answer_record a)) by (by rewrite length_app, length_answer).
  apply IH.
Qed.

(** What a resolver checks of a reply to its query: the same identification and
    question, the response flags with the return code, and the addresses. *)
Record answers (query : list Z) (q : Question) (ips : list (list Z)) (rcode : Z) (reply : list Z) : Prop := {
  ans_id : take 2 reply = take 2 query;
  ans_flags : u16be reply 2 = Some (Z.lor 0x8180 rcode);
  ans_question : parse_question reply = Some q;
  ans_addresses : ipv4_answers reply (question_end q) = Some ips
}.

(** C35: a reply answers its query.  For a query with a question, a reply can
    be made; it carries the query's identification and question, says how many
    addresses it has, and reading its records gives exactly those addresses, in
    order. *)
Theorem dns_reply_reads_back query q ips rcode :
  parse_question query = Some q → Forall (fun a => length a = 4%nat) ips → Z.of_nat (length ips) < 2 ^ 16 → 0 <= rcode < 16 →
  ∃ reply, build_dns_reply query q ips rcode = Some reply ∧ answers query q ips rcode reply.
Proof.
  intros Hq Hips Hn Hr. pose proof (parse_question_Some query q Hq) as (pos & _ & _ & Ee & Hp & Hl & Hl12).
  unfold build_dns_reply. assert (Eid : sub_slice 0 2 query = Some (take 2 query)).
  { unfold sub_slice. destruct (Nat.leb_spec (0 + 2) (length query)); [done | lia]. }
  assert (Hid : length (take 2 query) = 2%nat) by (rewrite length_take; lia).
  rewrite Eid. cbn [mbind option_bind]. destruct (Nat.ltb_spec (question_end q) 12); [lia|].
  destruct (sub_slice 12 (question_end q - 12) query) as [asked|] eqn:Ea.
  2: { exfalso. revert Ea. unfold sub_slice. destruct (Nat.leb_spec (12 + (question_end q - 12)) (length query)); [done | lia]. }
  cbn [mbind option_bind]. apply sub_slice_Some in Ea as (_ & Ea & Hla). set (flags := Z.lor 0x8180 rcode).
  assert (Hf : is_u16 flags) by (apply lor_word; [lia | done | unfold is_word; lia]).
  set (h := take 2 query ++ to_be_bytes 2 flags ++ to_be_bytes 2 1 ++ to_be_bytes 2 (as_u16 (Z.of_nat (length ips))) ++ to_be_bytes 2 0 ++ to_be_bytes 2 0).
  set (recs := mjoin (map answer_record ips)). assert (Hh : length h = 12%nat) by (unfold h; by rewrite !length_app, Hid, !length_be).
  exists (h ++ asked ++ recs). split; [unfold h; by rewrite <- !app_assoc|].
  assert (Et : take 2 (h ++ asked ++ recs) = take 2 query) by (unfold h; rewrite <- app_assoc, take_app_length'; done).
  assert (E2 : u16be (h ++ asked ++ recs) 2 = Some flags) by (unfold h; rewrite <- !app_assoc; by apply u16be_app).
  assert (E4 : u16be (h ++ asked ++ recs) 4 = Some 1).
  { unfold h. rewrite <- !app_assoc, (app_assoc (take 2 query)). apply u16be_app; [by rewrite length_app, Hid, length_be | done]. }
  assert (E6 : u16be (h ++ asked ++ recs) 6 = Some (Z.of_nat (length ips))).
  { unfold h. rewrite <- !app_assoc, (app_assoc (to_be_bytes 2 flags)), (app_assoc (take 2 query)).
    unfold as_u16. rewrite wrap_id by (unfold is_word; lia). apply u16be_app; [by rewrite !length_app, Hid, !length_be | unfold is_word; lia]. }
  split; [done | done | |].
  - apply (parse_question_agree query); [done | | rewrite !length_app, Hh; lia | done].
    intros k Hk. rewrite lookup_app_r by lia. rewrite lookup_app_l by lia. rewrite Ea, Hh, lookup_take_lt, lookup_drop by lia. f_equal. lia.
  - unfold ipv4_answers. rewrite E6. cbn [mbind option_bind]. rewrite Nat2Z.id. f_equal.
    replace (question_end q) with (length (h ++ asked)) by (rewrite length_app; lia).
    rewrite app_assoc, <- (app_nil_r recs). by apply read_answers.
Qed.

(** The query of the source's tests: [example.com], type A. *)
Definition demo_query : list Z :=
  [0xAB; 0xCD; 1; 0; 0; 1; 0; 0; 0; 0; 0; 0; 7; 101; 120; 97; 109; 112; 108; 101; 3; 99; 111; 109; 0; 0; 1; 0; 1].

Lemma dns_reply_reads_back_witness :
  ∃ reply, build_dns_reply demo_query (mkQuestion [101; 120; 97; 109; 112; 108; 101; 46; 99; 111; 109] 1 29) [[93; 184; 215; 14]] RCODE_NOERROR = Some reply ∧
           ipv4_answers reply 29 = Some [[93; 184; 215; 14]].
Proof.
  destruct (dns_reply_reads_back demo_query (mkQuestion [101; 120; 97; 109; 112; 108; 101; 46; 99; 111; 109] 1 29) [[93; 184; 215; 14]] RCODE_NOERROR)
    as (reply & E & [_ _ _ Ea]); [vm_compute; done | by repeat constructor | done | done |].
  by exists reply.
Defined.
