(* ===== verification/Slirp.v ===== *)
(** The user-mode network ([machine/src/virtio/slirp]: [mod.rs], [dhcp.rs],
    [udp.rs], the handlers of [dns.rs] and [tcp.rs]).

    [SlirpBackend] speaks Ethernet to the guest and asks the host for sockets; it
    is an instance of [NetworkBackend], with its environment as part of the
    state.  Tracing is left out. *)
From S2P Require Import Prelude Words VirtioConsole VirtioNet HostNet Frames Tcp Dns.

(** *** DHCP, the message *)

Definition MAGIC_COOKIE : Z := 0x63825363.
Definition OPTION_END : Z := 255.
Definition OPTION_PAD : Z := 0.
Definition OPTION_MESSAGE_TYPE : Z := 53.
Definition DHCP_DISCOVER : Z := 1.
Definition DHCP_OFFER : Z := 2.
Definition DHCP_REQUEST : Z := 3.
Definition DHCP_ACK : Z := 5.

(** Every round moves on. *)
Fixpoint message_type_loop (fuel : nat) (dhcp : list Z) (i : nat) : option Z :=
  match fuel with
  | O => None
  | S fuel =>
      if (i <? length dhcp)%nat then
        option ← dhcp !! i;
        if option =? OPTION_END then Some 0
        else if option =? OPTION_PAD then message_type_loop fuel dhcp (i + 1)
        else if (length dhcp <=? i + 1)%nat then Some 0
        else
          len ← dhcp !! (i + 1)%nat;
          if (option =? OPTION_MESSAGE_TYPE) && (1 <=? len) then dhcp !! (i + 2)%nat
          else message_type_loop fuel dhcp (i + 2 + Z.to_nat len)
      else Some 0
  end.
Definition message_type (dhcp : list Z) : option Z := message_type_loop (S (length dhcp)) dhcp 240.

(** The closure [option] of [build_reply]: an option at [at], and the place behind it. *)
Definition put_option (code : Z) (value : list Z) (s : list Z * nat) : list Z * nat :=
  let (p, at_) := s in
  (copy_at (at_ + 2) value (copy_at (at_ + 1) [as_u8 (Z.of_nat (length value))] (copy_at at_ [code] p)),
   (at_ + 2 + length value)%nat).

Definition build_dhcp_reply (xid : Z) (client_mac : list Z) (msg_type : Z) : list Z :=
  let p := zeros 300 in
  let p := copy_at 0 [2] p in
  let p := copy_at 1 [1] p in
  let p := copy_at 2 [6] p in
  let p := copy_at 4 (to_be_bytes 4 xid) p in
  let p := copy_at 16 GUEST_IP p in
  let p := copy_at 20 GW_IP p in
  let p := copy_at 28 client_mac p in
  let p := copy_at 236 (to_be_bytes 4 MAGIC_COOKIE) p in
  let (p, i) :=
    put_option 6 GW_IP
      (put_option 3 GW_IP
        (put_option 1 SUBNET
          (put_option 51 (to_be_bytes 4 86400)
            (put_option 54 GW_IP
              (put_option OPTION_MESSAGE_TYPE [msg_type] (p, 240%nat)))))) in
  copy_at i [OPTION_END] p.

(** *** State *)

Definition DHCP_SERVER_PORT : Z := 67.
Definition DHCP_CLIENT_PORT : Z := 68.
Definition DNS_PORT : Z := 53.

(** Source port, destination address and port. *)
Definition UdpKey : Type := Z * list Z * Z.

Record UdpConn (Udp : Type) := mkUdpConn { udp_sock : Udp; udp_guest_mac : list Z; udp_src_ip : list Z }.
Arguments mkUdpConn {Udp}.
Arguments udp_sock {Udp}.
Arguments udp_guest_mac {Udp}.
Arguments udp_src_ip {Udp}.

Record DnsPending (Udp : Type) := mkPending {
  dns_sock : Udp;
  dns_guest_mac : list Z;
  dns_src_ip : list Z;
  dns_src_port : Z;
  dns_query : list Z;
  dns_created : Z
}.
Arguments mkPending {Udp}.
Arguments dns_sock {Udp}.
Arguments dns_guest_mac {Udp}.
Arguments dns_src_ip {Udp}.
Arguments dns_src_port {Udp}.
Arguments dns_query {Udp}.
Arguments dns_created {Udp}.

Record SlirpBackend (Udp Tcp G C S : Type) := mkSlirp {
  guest_mac : list Z;
  rx_pending : list (list Z);
  tcp_conns : gmap TcpKey (TcpConn Tcp G);
  udp_conns : gmap UdpKey (UdpConn Udp);
  dns_pending : list (DnsPending Udp);
  dhcp_xid : Z;
  tls : option C;
  secrets : list S
}.
Arguments mkSlirp {Udp Tcp G C S}.
Arguments guest_mac {Udp Tcp G C S}.
Arguments rx_pending {Udp Tcp G C S}.
Arguments tcp_conns {Udp Tcp G C S}.
Arguments udp_conns {Udp Tcp G C S}.
Arguments dns_pending {Udp Tcp G C S}.
Arguments dhcp_xid {Udp Tcp G C S}.
Arguments tls {Udp Tcp G C S}.
Arguments secrets {Udp Tcp G C S}.
#[export] Instance SlirpBackend_eta {Udp Tcp G C S} : Eta (SlirpBackend Udp Tcp G C S) := fun s =>
  mkSlirp (guest_mac s) (rx_pending s) (tcp_conns s) (udp_conns s) (dns_pending s) (dhcp_xid s) (tls s) (secrets s).

Section Slirp.
Context {LB : LoopBound} {H Udp Tcp G C S : Type}.
Context {HN : HostNet H Udp Tcp} {HG : HttpsGateway G C S H} {LO : Layouts TcpKey}.
Abbreviation Backend := (SlirpBackend Udp Tcp G C S).
Abbreviation M := (ST (Backend * Env H)).

(** [tls] is what [TlsContext::new] gave. *)
Definition with_secrets (guest_mac : list Z) (tls : option C) (secrets : list S) : Backend :=
  mkSlirp guest_mac [] ∅ ∅ [] 0 tls secrets.
Definition slirp_new (guest_mac : list Z) (tls : option C) : Backend := with_secrets guest_mac tls [].

Definition mod_slirp (f : Backend -> Backend) : M unit := modify (fun s => (f s.1, s.2)).
Definition queue_rx (frame : list Z) : M unit := mod_slirp (fun b => b <| rx_pending := rx_pending b ++ [frame] |>).
Definition slirp_env {A} (m : ST (Env H) A) : M A := zoom snd (fun e s => (s.1, e)) m.
Definition slirp_host {A} (m : ST H A) : M A := slirp_env (zoom host (fun h e => e <| host := h |>) m).

(** [make_ip_frame] and [make_tcp_frame], with the counter. *)
Definition ip_frame (dst_mac src_ip dst_ip : list Z) (proto : Z) (payload : list Z) : M (list Z) :=
  id ← slirp_env next_ip_id; mret (make_ip_frame id dst_mac src_ip dst_ip proto payload).
Definition tcp_frame (ends : Endpoints) (seq ack flags : Z) (data : list Z) : M (list Z) :=
  id ← slirp_env next_ip_id; mret (make_tcp_frame id ends seq ack flags data).

(** *** [dhcp.rs] *)

Definition send_dhcp_reply (frame : list Z) (xid msg_type : Z) : M unit :=
  src_mac ← lift (eth_src frame);
  mac ← gets (fun s => guest_mac s.1);
  let reply := build_dhcp_reply xid mac msg_type in
  let udp := make_udp_payload 68 67 reply in
  packet ← ip_frame BCAST_MAC GW_IP BCAST_IP IP_PROTO_UDP udp;
  queue_rx (copy_at 0 src_mac packet).

Definition handle_dhcp (frame dhcp : list Z) : M unit :=
  if (length dhcp <? 240)%nat || negb (bool_decide (dhcp !! 0%nat = Some 1)) then mret tt
  else
    xid ← lift (u32be dhcp 4);
    mod_slirp (fun b => b <| dhcp_xid := xid |>);;
    cookie ← lift (u32be dhcp 236);
    if negb (cookie =? MAGIC_COOKIE) then mret tt
    else
      t ← lift (message_type dhcp);
      if t =? DHCP_DISCOVER then send_dhcp_reply frame xid DHCP_OFFER
      else if t =? DHCP_REQUEST then send_dhcp_reply frame xid DHCP_ACK
      else mret tt.

(** *** [dns.rs] *)

Definition reply_to_guest (guest_mac src_ip : list Z) (src_port : Z) (reply : list Z) : M unit :=
  let udp := make_udp_payload 53 src_port reply in
  frame ← ip_frame guest_mac GW_IP src_ip IP_PROTO_UDP udp;
  queue_rx frame.

Definition answer_from_host (query : list Z) : M (option (list Z)) :=
  match parse_question query with
  | None => mret None
  | Some question =>
      if qtype question =? QTYPE_A then
        resolved ← slirp_host (to_socket_addrs (hostname question));
        match resolved with
        | None => mret None
        | Some addrs =>
            let addresses := v4_addresses addrs in
            if decide (addresses = []) then mret None
            else reply ← lift (build_dns_reply query question addresses RCODE_NOERROR); mret (Some reply)
        end
      else if qtype question =? QTYPE_AAAA then
        reply ← lift (build_dns_reply query question [] RCODE_NOERROR); mret (Some reply)
      else mret None
  end.

(** [iter().any(|server| sock.send_to(..).is_ok())] *)
Fixpoint send_to_any (sock : Udp) (query : list Z) (servers : list (list Z)) : M bool :=
  match servers with
  | [] => mret false
  | server :: servers =>
      ok ← slirp_host (udp_send_to sock query server 53);
      if ok : bool then mret true else send_to_any sock query servers
  end.

Definition relay_upstream (query guest_mac src_ip : list Z) (src_port : Z) : M bool :=
  sock ← slirp_host udp_bind;
  match sock with
  | None => mret false
  | Some sock =>
      sent ← send_to_any sock query UPSTREAM_SERVERS;
      if sent : bool then
        created ← gets (fun s => instant_now (host s.2));
        mod_slirp (fun b => b <| dns_pending :=
          dns_pending b ++ [mkPending sock guest_mac src_ip src_port query created] |>);;
        mret true
      else mret false
  end.

Definition handle_dns (query guest_mac src_ip : list Z) (src_port : Z) : M unit :=
  answer ← answer_from_host query;
  match answer with
  | Some reply => reply_to_guest guest_mac src_ip src_port reply
  | None =>
      relayed ← relay_upstream query guest_mac src_ip src_port;
      if relayed : bool then mret tt
      else
        match parse_question query with
        | Some question =>
            servfail ← lift (build_dns_reply query question [] RCODE_SERVFAIL);
            reply_to_guest guest_mac src_ip src_port servfail
        | None => mret tt
        end
  end.

(** One pending request: is it finished? *)
Definition poll_request (request : DnsPending Udp) : M bool :=
  got ← slirp_host (udp_recv_from (dns_sock request) 2048);
  match got with
  | Some bytes =>
      reply_to_guest (dns_guest_mac request) (dns_src_ip request) (dns_src_port request) bytes;;
      mret true
  | None =>
      now ← gets (fun s => instant_now (host s.2));
      if RELAY_TIMEOUT <? now - dns_created request then
        (match parse_question (dns_query request) with
         | Some question =>
             servfail ← lift (build_dns_reply (dns_query request) question [] RCODE_SERVFAIL);
             reply_to_guest (dns_guest_mac request) (dns_src_ip request) (dns_src_port request) servfail
         | None => mret tt
         end);;
        mret true
      else mret false
  end.

Fixpoint poll_requests (requests : list (DnsPending Udp)) (index : nat) (finished : list nat) : M (list nat) :=
  match requests with
  | [] => mret finished
  | request :: requests =>
      done_ ← poll_request request;
      poll_requests requests (index + 1) (if done_ : bool then finished ++ [index] else finished)
  end.

Fixpoint remove_finished (finished : list nat) : M unit :=
  match finished with
  | [] => mret tt
  | index :: finished =>
      pending ← gets (fun s => dns_pending s.1);
      rest ← lift (swap_remove index pending);
      mod_slirp (fun b => b <| dns_pending := rest |>);;
      remove_finished finished
  end.

Definition poll_dns : M unit :=
  requests ← gets (fun s => dns_pending s.1);
  finished ← poll_requests requests 0 [];
  remove_finished (rev finished).

(** *** [udp.rs] *)

(** [while let Ok((n, _)) = conn.sock.recv_from(..)] *)
Fixpoint relay_replies (fuel : nat) (conn : UdpConn Udp) (src_port dst_port : Z) : M unit :=
  match fuel with
  | O => panic
  | Datatypes.S fuel =>
      got ← slirp_host (udp_recv_from (udp_sock conn) 2048);
      match got with
      | None => mret tt
      | Some bytes =>
          let reply := make_udp_payload dst_port src_port bytes in
          frame ← ip_frame (udp_guest_mac conn) GW_IP (udp_src_ip conn) IP_PROTO_UDP reply;
          queue_rx frame;;
          relay_replies fuel conn src_port dst_port
      end
  end.

Definition udp_entry (key : UdpKey) (mac src_ip : list Z) : M (option (UdpConn Udp)) :=
  known ← gets (fun s => udp_conns s.1 !! key);
  match known with
  | Some conn => mret (Some conn)
  | None =>
      sock ← slirp_host udp_bind;
      match sock with
      | None => mret None
      | Some sock =>
          let conn := mkUdpConn sock mac src_ip in
          mod_slirp (fun b => b <| udp_conns := <[key := conn]> (udp_conns b) |>);;
          mret (Some conn)
      end
  end.

Definition relay_datagram (mac src_ip : list Z) (src_port : Z) (dst_ip : list Z) (dst_port : Z) (data : list Z) : M unit :=
  conn ← udp_entry (src_port, dst_ip, dst_port) mac src_ip;
  match conn with
  | None => mret tt
  | Some conn =>
      slirp_host (udp_send_to (udp_sock conn) data dst_ip dst_port);;
      relay_replies loop_bound conn src_port dst_port
  end.

Definition handle_udp (frame : list Z) : M unit :=
  payload ← lift (ip_payload frame);
  if (length payload <? 8)%nat then mret tt
  else
    src_port ← lift (u16be payload 0);
    dst_port ← lift (u16be payload 2);
    udp_len ← lift (u16be payload 4);
    if udp_len <? 8 then mret tt
    else
      dst_ip ← lift (ip_dst frame);
      src_ip ← lift (ip_src frame);
      mac ← lift (eth_src frame);
      data ← lift (sub_slice 8 (Nat.min (Z.to_nat udp_len) (length payload) - 8) payload);
      if (dst_port =? DHCP_SERVER_PORT) && (src_port =? DHCP_CLIENT_PORT) then handle_dhcp frame data
      else if bool_decide (dst_ip = GW_IP) && (dst_port =? DNS_PORT) then handle_dns data mac src_ip src_port
      else relay_datagram mac src_ip src_port dst_ip dst_port data.

(** *** [tcp.rs] *)

(** A method of the connection [c], whose frames are queued for the guest. *)
Definition with_conn {A} (c : TcpConn Tcp G) (m : ST (TcpConn Tcp G * (list (list Z) * Env H)) A) : M (A * TcpConn Tcp G) :=
  fun s => match m (c, ([], s.2)) with
           | Some (a, (c, (frames, e))) => Some ((a, c), (s.1 <| rx_pending := rx_pending s.1 ++ frames |>, e))
           | None => None
           end.

Definition put_conn (key : TcpKey) (c : TcpConn Tcp G) : M unit :=
  mod_slirp (fun b => b <| tcp_conns := <[key := c]> (tcp_conns b) |>).

Fixpoint poll_conns (keys : list TcpKey) : M unit :=
  match keys with
  | [] => mret tt
  | key :: keys =>
      conn ← gets (fun s => tcp_conns s.1 !! key);
      (match conn with
       | None => mret tt
       | Some c =>
           r ← with_conn c service;
           match r.1 with
           | Alive => put_conn key r.2
           | Finished => mod_slirp (fun b => b <| tcp_conns := delete key (tcp_conns b) |>)
           end
       end);;
      poll_conns keys
  end.

Definition poll_tcp : M unit :=
  keys ← gets (fun s => hash_order (map fst (map_to_list (tcp_conns s.1))));
  poll_conns keys.

Definition connect (ends : Endpoints) : M (option (Transport Tcp G)) :=
  b ← gets fst;
  match tls b with
  | Some ctx =>
      if src_port ends =? HTTPS_PORT then
        g ← slirp_host (gateway_new ctx (src_ip ends) (secrets b));
        mret (Some (Https g))
      else
        stream ← slirp_host (tcp_connect (src_ip ends) (src_port ends));
        mret (Raw <$> stream)
  | None =>
      stream ← slirp_host (tcp_connect (src_ip ends) (src_port ends));
      mret (Raw <$> stream)
  end.

(** A connection the guest has just opened. *)
Definition opened (t : Transport Tcp G) (ends : Endpoints) (isn_host seq_guest window shift : Z) : TcpConn Tcp G := {|
  conn_state := Established; transport := t; to_guest := ends; snd_buf := []; snd_una := isn_host;
  snd_nxt := wrapping_add32 isn_host 1; fin_sent := false; write_buf := []; guest_finished_writing := false;
  rcv_nxt := wrapping_add32 seq_guest 1; rcv_wnd := as_u32 (Z.shiftl window shift); wnd_shift := shift; ooo_buf := []
|}.

Definition open_connection (key : TcpKey) (ends : Endpoints) (payload : list Z) (tcp_hlen : nat) (seq_guest window : Z) : M unit :=
  known ← gets (fun s => tcp_conns s.1 !! key);
  match known with
  | Some _ => mret tt
  | None =>
      t ← connect ends;
      match t with
      | None =>
          frame ← tcp_frame ends 0 (wrapping_add32 seq_guest 1) (Z.lor RST ACK) [];
          queue_rx frame
      | Some t =>
          shift ← lift (parse_wnd_scale payload tcp_hlen);
          let isn_host := generate_isn ends in
          frame ← tcp_frame ends isn_host (wrapping_add32 seq_guest 1) (Z.lor SYN ACK) [];
          queue_rx frame;;
          put_conn key (opened t ends isn_host seq_guest window shift)
      end
  end.

(** Data and FIN of a segment on the connection [c]: each is acknowledged. *)
Definition acknowledge (c : TcpConn Tcp G) : M unit :=
  frame ← tcp_frame (to_guest c) (snd_nxt c) (rcv_nxt c) ACK [];
  queue_rx frame.

Definition on_segment (key : TcpKey) (seq ack flags window : Z) (data : list Z) (c : TcpConn Tcp G) : M unit :=
  let c := on_guest_window window c in
  let c := if Z.land flags ACK =? 0 then c else on_guest_ack ack c in
  c ← (if decide (data = []) then mret c
       else
         c ← lift (on_guest_data seq data c);
         acknowledge c;;
         mret c);
  c ← (if Z.land flags FIN =? 0 then mret c
       else
         let c := on_guest_fin c in
         acknowledge c;;
         mret c);
  put_conn key c.

Definition handle_tcp (frame : list Z) : M unit :=
  payload ← lift (ip_payload frame);
  if (length payload <? 20)%nat then mret tt
  else
    src_port ← lift (u16be payload 0);
    dst_port ← lift (u16be payload 2);
    seq_guest ← lift (u32be payload 4);
    ack_guest ← lift (u32be payload 8);
    flags ← lift (payload !! 13%nat);
    window ← lift (u16be payload 14);
    dst_ip ← lift (ip_dst frame);
    src_ip ← lift (ip_src frame);
    offset ← lift (payload !! 12%nat);
    let tcp_hlen := (Z.to_nat (Z.shiftr offset 4) * 4)%nat in
    let data := if (tcp_hlen <=? length payload)%nat then drop tcp_hlen payload else [] in
    src_mac ← lift (eth_src frame);
    let key := (src_port, dst_ip, dst_port) in
    let ends := mkEndpoints src_mac dst_ip dst_port src_ip src_port in
    if negb (Z.land flags RST =? 0) then mod_slirp (fun b => b <| tcp_conns := delete key (tcp_conns b) |>)
    else if negb (Z.land flags SYN =? 0) && (Z.land flags ACK =? 0) then
      open_connection key ends payload tcp_hlen seq_guest window
    else
      conn ← gets (fun s => tcp_conns s.1 !! key);
      match conn with
      | None =>
          frame ← tcp_frame ends ack_guest 0 RST [];
          queue_rx frame
      | Some c => on_segment key seq_guest ack_guest flags window data c
      end.

(** *** [mod.rs] *)

Definition arp_reply (sender_mac sender_ip : list Z) : list Z :=
  let reply := zeros (14 + 28) in
  let reply := copy_at 0 sender_mac reply in
  let reply := copy_at 6 HOST_MAC reply in
  let reply := copy_at 12 (to_be_bytes 2 ETHERTYPE_ARP) reply in
  let reply := copy_at (14 + 0) (to_be_bytes 2 1) reply in
  let reply := copy_at (14 + 2) (to_be_bytes 2 ETHERTYPE_IP) reply in
  let reply := copy_at (14 + 4) [6] reply in
  let reply := copy_at (14 + 5) [4] reply in
  let reply := copy_at (14 + 6) (to_be_bytes 2 2) reply in
  let reply := copy_at (14 + 8) HOST_MAC reply in
  let reply := copy_at (14 + 14) GW_IP reply in
  let reply := copy_at (14 + 18) sender_mac reply in
  copy_at (14 + 24) sender_ip reply.

Definition handle_arp (frame : list Z) : M unit :=
  if (length frame <? 14 + 28)%nat then mret tt
  else
    arp ← lift (tail_slice 14 frame);
    op ← lift (u16be arp 6);
    if negb (op =? 1) then mret tt
    else
      target_ip ← lift (sub_slice 24 4 arp);
      if negb (bool_decide (target_ip = GW_IP)) then mret tt
      else
        sender_mac ← lift (sub_slice 8 6 arp);
        sender_ip ← lift (sub_slice 14 4 arp);
        queue_rx (arp_reply sender_mac sender_ip).

Definition icmp_reply (payload : list Z) : list Z :=
  let data := drop 8 payload in
  let icmp := zeros (8 + length data) in
  let icmp := copy_at 4 (take 4 (drop 4 payload)) icmp in
  let icmp := copy_at 8 data icmp in
  let csum := checksum icmp in
  copy_at 2 (to_be_bytes 2 csum) icmp.

Definition handle_icmp (frame : list Z) : M unit :=
  to ← lift (ip_dst frame);
  if negb (bool_decide (to = GW_IP)) then mret tt
  else
    payload ← lift (ip_payload frame);
    if (length payload <? 8)%nat || negb (bool_decide (payload !! 0%nat = Some 8)) then mret tt
    else
      src_mac ← lift (eth_src frame);
      src_ip ← lift (ip_src frame);
      frame ← ip_frame src_mac GW_IP src_ip IP_PROTO_ICMP (icmp_reply payload);
      queue_rx frame.

Definition handle_ip (frame : list Z) : M unit :=
  if (length frame <? 14 + 20)%nat then mret tt
  else
    proto ← lift (ip_proto frame);
    if proto =? IP_PROTO_ICMP then handle_icmp frame
    else if proto =? IP_PROTO_TCP then handle_tcp frame
    else if proto =? IP_PROTO_UDP then handle_udp frame
    else mret tt.

Definition slirp_send (frame : list Z) : M unit :=
  if (length frame <? 14)%nat then mret tt
  else
    t ← lift (eth_type frame);
    if t =? ETHERTYPE_ARP then handle_arp frame
    else if t =? ETHERTYPE_IP then handle_ip frame
    else mret tt.

Definition slirp_recv : M (option (list Z)) :=
  poll_tcp;;
  poll_dns;;
  rx ← gets (fun s => rx_pending s.1);
  match rx with
  | [] => mret None
  | frame :: rest => mod_slirp (fun b => b <| rx_pending := rest |>);; mret (Some frame)
  end.

Definition conn_has_rx (c : TcpConn Tcp G) : bool :=
  match conn_state c with
  | Established | FinWait => has_queued_output c || has_pending (transport c)
  | Closed => true
  end.

Definition slirp_has_rx (b : Backend) : bool :=
  negb (bool_decide (rx_pending b = [])) || negb (bool_decide (dns_pending b = []))
  || existsb (fun e => conn_has_rx e.2) (map_to_list (tcp_conns b)).

Definition slirp_has_active_connections (b : Backend) : bool :=
  existsb (fun e => bool_decide (conn_state e.2 = Established) || bool_decide (conn_state e.2 = FinWait))
    (map_to_list (tcp_conns b)).

#[export] Instance Slirp_backend : NetworkBackend (Backend * Env H) := {|
  send := slirp_send;
  recv := slirp_recv;
  has_rx := fun s => slirp_has_rx s.1;
  has_active_connections := fun s => slirp_has_active_connections s.1
|}.
End Slirp.
