(* ===== verification/SlirpInvariant.v ===== *)
(** The user-mode network as a network the machine can run on.

    What the stack hands to the guest is bytes, whatever the guest and the host
    send it: the invariant [slirp_ok] is kept by every handler, so the stack
    discharges [NetworkLaws] and the machine's invariant holds with it attached.
    The gateway itself answers pings and nothing else of ICMP.
    Of the host only this is needed: what its sockets, its resolver and the
    gateway return are bytes. *)
From S2P Require Import Prelude Words Wp Invariant VirtioConsole VirtioNet VirtioInvariant HostNet Frames Tcp TcpProps Dns Slirp.

Class HostLaws (H Udp Tcp : Type) {HN : HostNet H Udp Tcp} := {
  hl_recv u n h bytes h' : udp_recv_from u n h = Some (Some bytes, h') → Forall is_u8 bytes;
  hl_read s n h bytes h' : tcp_read s n h = Some (Ok bytes, h') → Forall is_u8 bytes;
  hl_resolve name h addrs h' ip : to_socket_addrs name h = Some (Some addrs, h') → V4 ip ∈ addrs → Forall is_u8 ip
}.

(** A gateway that hands the guest bytes, as long as it is used through its methods. *)
Class GatewayLaws (G C S H : Type) {HG : HttpsGateway G C S H} := {
  gateway_bytes : G -> Prop;
  gl_new ctx ip keys h g h' : gateway_new ctx ip keys h = Some (g, h') → gateway_bytes g;
  gl_push bytes g h r s : push_from_guest bytes (g, h) = Some (r, s) → gateway_bytes g → gateway_bytes s.1;
  gl_pull n g h r s : pull_to_guest n (g, h) = Some (r, s) → gateway_bytes g → gateway_bytes s.1 ∧ ∀ bytes, r = Some bytes → Forall is_u8 bytes;
  gl_shutdown g h r s : gateway_shutdown_write (g, h) = Some (r, s) → gateway_bytes g → gateway_bytes s.1
}.

(** ** Frames are bytes *)

Lemma copy_bytes i bytes buf : Forall is_u8 bytes → Forall is_u8 buf → Forall is_u8 (copy_at i bytes buf).
Proof. intros H1 H2. unfold copy_at. repeat apply Forall_app_2; [by apply Forall_take | done | by apply Forall_drop]. Qed.

Lemma zeros_bytes n : Forall is_u8 (zeros n).
Proof. by apply Forall_replicate. Qed.

Lemma byte_list x : is_u8 x → Forall is_u8 [x].
Proof. constructor; [done | constructor]. Qed.

Create HintDb bytes discriminated.
#[export] Hint Constants Opaque : bytes.
#[export] Hint Resolve copy_bytes zeros_bytes be_u8 byte_list u8_of_cast Forall_app_2 : bytes.
#[export] Hint Extern 0 (is_u8 ?x) => (is_ground x; done) : bytes.

Lemma host_mac_bytes : Forall is_u8 HOST_MAC. Proof. by apply const_bytes. Qed.
Lemma bcast_mac_bytes : Forall is_u8 BCAST_MAC. Proof. by apply const_bytes. Qed.
Lemma gw_ip_bytes : Forall is_u8 GW_IP. Proof. by apply const_bytes. Qed.
Lemma guest_ip_bytes : Forall is_u8 GUEST_IP. Proof. by apply const_bytes. Qed.
Lemma bcast_ip_bytes : Forall is_u8 BCAST_IP. Proof. by apply const_bytes. Qed.
Lemma subnet_bytes : Forall is_u8 SUBNET. Proof. by apply const_bytes. Qed.
Lemma options_bytes flags : Forall is_u8 (tcp_options flags).
Proof. unfold tcp_options. case_if; by apply const_bytes. Qed.
#[export] Hint Resolve host_mac_bytes bcast_mac_bytes gw_ip_bytes guest_ip_bytes bcast_ip_bytes subnet_bytes options_bytes : bytes.

Lemma make_ip_frame_bytes id mac src dst proto payload :
  Forall is_u8 mac → Forall is_u8 src → Forall is_u8 dst → is_u8 proto → Forall is_u8 payload →
  Forall is_u8 (make_ip_frame id mac src dst proto payload).
Proof. intros. unfold make_ip_frame, ip_header. auto 30 with bytes. Qed.

Lemma make_udp_payload_bytes sp dp data : Forall is_u8 data → Forall is_u8 (make_udp_payload sp dp data).
Proof. intros. unfold make_udp_payload. auto 12 with bytes. Qed.

Lemma make_tcp_frame_bytes id ends seq ack flags data :
  Forall is_u8 (dst_mac ends) → Forall is_u8 (src_ip ends) → Forall is_u8 (dst_ip ends) → is_u8 flags → Forall is_u8 data →
  Forall is_u8 (make_tcp_frame id ends seq ack flags data).
Proof.
  intros. unfold make_tcp_frame. apply make_ip_frame_bytes; [done | done | done | done|].
  apply copy_bytes; [apply be_u8|]. unfold tcp_segment. auto 20 with bytes.
Qed.

Lemma dhcp_reply_bytes xid mac t : Forall is_u8 mac → is_u8 t → Forall is_u8 (build_dhcp_reply xid mac t).
Proof.
  intros. unfold build_dhcp_reply, put_option. cbn [length app]. auto 60 with bytes.
Qed.

Lemma sub_slice_bytes i n l s : Forall is_u8 l → sub_slice i n l = Some s → Forall is_u8 s.
Proof. intros Hl E. apply sub_slice_Some in E as (_ & -> & _). by apply Forall_take, Forall_drop. Qed.

Lemma tail_slice_bytes i l s : Forall is_u8 l → tail_slice i l = Some s → Forall is_u8 s.
Proof. intros Hl. unfold tail_slice. destruct (_ <=? _)%nat; [|done]. intros [= <-]. by apply Forall_drop. Qed.

Lemma dns_reply_bytes query q ips rcode reply :
  Forall is_u8 query → Forall (Forall is_u8) ips → build_dns_reply query q ips rcode = Some reply → Forall is_u8 reply.
Proof.
  intros Hq Hips. unfold build_dns_reply. destruct (sub_slice 0 2 query) as [id|] eqn:E1; cbn [mbind option_bind]; [|done].
  destruct (_ <? _)%nat; [done|]. destruct (sub_slice 12 _ query) as [asked|] eqn:E2; cbn [mbind option_bind]; [|done].
  intros E. apply (inj Some) in E as <-. apply sub_slice_bytes in E1, E2; try done.
  apply Forall_app_2; [done|]. do 5 (apply Forall_app_2; [apply be_u8|]). apply Forall_app_2; [done|].
  clear E1 E2. induction Hips as [|ip ips Hip _ IH]; [constructor|]. cbn [map]. unfold mjoin. cbn -[answer_record].
  apply Forall_app_2; [|done]. unfold answer_record. apply Forall_app_2; [by apply const_bytes|].
  repeat (apply Forall_app_2; [apply be_u8|]). done.
Qed.

Lemma arp_reply_bytes mac ip : Forall is_u8 mac → Forall is_u8 ip → Forall is_u8 (arp_reply mac ip).
Proof. intros. unfold arp_reply. auto 30 with bytes. Qed.

Lemma icmp_reply_bytes payload : Forall is_u8 payload → Forall is_u8 (icmp_reply payload).
Proof. intros. unfold icmp_reply. apply copy_bytes; [apply be_u8|]. apply copy_bytes; [by apply Forall_drop|]. apply copy_bytes; [by apply Forall_take, Forall_drop|]. apply zeros_bytes. Qed.
#[export] Hint Resolve make_ip_frame_bytes make_udp_payload_bytes make_tcp_frame_bytes dhcp_reply_bytes arp_reply_bytes icmp_reply_bytes : bytes.

(** ** The invariant *)

Record ends_bytes (e : Endpoints) : Prop := {
  eb_mac : Forall is_u8 (dst_mac e);
  eb_src : Forall is_u8 (src_ip e);
  eb_dst : Forall is_u8 (dst_ip e)
}.

Section Network.
Context {LB : LoopBound} {H Udp Tcp G C S : Type}.
Context {HN : HostNet H Udp Tcp} {HG : HttpsGateway G C S H} {LO : Layouts TcpKey}.
Context {HL : HostLaws H Udp Tcp} {GL : GatewayLaws G C S H}.
Abbreviation Backend := (SlirpBackend Udp Tcp G C S).
Abbreviation Conn := (TcpConn Tcp G).

Definition transport_bytes (t : Transport Tcp G) : Prop := match t with Raw _ => True | Https g => gateway_bytes g end.
Definition conn_bytes (c : Conn) : Prop := (ends_bytes (to_guest c) ∧ transport_bytes (transport c)) ∧ Forall is_u8 (snd_buf c).

Record slirp_bytes (b : Backend) : Prop := {
  sb_mac : Forall is_u8 (guest_mac b);
  sb_rx : Forall (Forall is_u8) (rx_pending b);
  sb_tcp : map_Forall (fun _ => conn_bytes) (tcp_conns b);
  sb_udp : map_Forall (fun _ u => Forall is_u8 (udp_guest_mac u) ∧ Forall is_u8 (udp_src_ip u)) (udp_conns b);
  sb_dns : Forall (fun d => Forall is_u8 (dns_guest_mac d) ∧ Forall is_u8 (dns_src_ip d) ∧ Forall is_u8 (dns_query d)) (dns_pending b)
}.
Definition slirp_ok (s : Backend * Env H) : Prop := slirp_bytes s.1.

(** ** One connection *)

Definition served (s : Conn * (list (list Z) * Env H)) : Prop := conn_bytes s.1 ∧ Forall (Forall is_u8) s.2.1.
Abbreviation kc := (keeps True served).

(** Whatever a step does to the environment, and what it may do to a connection. *)
Lemma on_env_served {A} (m : ST (Env H) A) (R : A -> Prop) :
  (∀ e a e', m e = Some (a, e') → R a) → kc (on_env m) R.
Proof.
  intros Hm s Hs. apply wp_intro; [done|]. intros a s' E. unfold on_env, zoom in E.
  destruct (m s.2.2) as [[a0 e]|] eqn:E1; [|done]. injection E as <- <-. split; [by eapply Hm | exact Hs].
Qed.

Lemma on_host_served {A} (m : ST H A) (R : A -> Prop) :
  (∀ h a h', m h = Some (a, h') → R a) → kc (on_host m) R.
Proof.
  intros Hm. apply on_env_served. intros e a e' E. unfold zoom in E.
  destruct (m (host e)) as [[a0 h]|] eqn:E1; [|done]. injection E as <- _. by eapply Hm.
Qed.

Lemma on_gateway_served {A} g (m : ST (G * H) A) (R : A -> Prop) :
  gateway_bytes g → (∀ h a s, m (g, h) = Some (a, s) → gateway_bytes g → gateway_bytes s.1 ∧ R a) → kc (on_gateway g m) R.
Proof.
  intros Hg Hm s [[[He _] Hb] Hs]. apply wp_intro; [done|]. intros a s' E. unfold on_gateway in E.
  destruct (m (g, host s.2.2)) as [[a0 [g' h]]|] eqn:E1; [|done]. injection E as <- <-. apply Hm in E1 as [Hg' Hr]; [|done]. split; [done|]. by split; [split; [split|]|].
Qed.

Lemma get_conn_served {A} (f : Conn -> A) (R : A -> Prop) : (∀ c, conn_bytes c → R (f c)) → kc (get_conn f) R.
Proof. intros Hf. apply keeps_gets. intros s [Hc _]. by apply Hf. Qed.

Lemma mod_conn_served f : (∀ c, conn_bytes c → conn_bytes (f c)) → kc (mod_conn f) (fun _ => True).
Proof. intros Hf. apply keeps_modify. intros s [Hc Ho]. split; [by apply Hf | done]. Qed.

Lemma push_frame_served frame : Forall is_u8 frame → kc (push_frame frame) (fun _ => True).
Proof. intros Hf. apply keeps_modify. intros s [Hc Ho]. split; [done|]. cbn. apply Forall_app_2; [done|]. constructor; [done | constructor]. Qed.

Lemma lift_keeps {St A} {I : St -> Prop} (o : option A) (R : A -> Prop) : (∀ a, o = Some a → R a) → keeps True I (lift o) R.
Proof. intros Ho s Hs. unfold wp, lift. destruct o as [a|]; [|done]. split; [by apply Ho | done]. Qed.

Lemma panics_keep {St A} {I : St -> Prop} (R : A -> Prop) : keeps True I panic R.
Proof. by intros s Hs. Qed.

Ltac conn_step :=
  lazymatch goal with
  | |- keeps _ _ (mbind _ _) _ => eapply keeps_bind; [conn_step | cbv beta; intros ? ?]
  | |- keeps _ _ (mret _) _ => apply keeps_ret
  | |- keeps _ _ (get_conn id) _ => apply (get_conn_served id conn_bytes); done
  | |- keeps _ _ (get_conn snd_buf) _ => apply (get_conn_served snd_buf (Forall is_u8)); by intros ? []
  | |- keeps _ _ (get_conn transport) _ => apply (get_conn_served transport transport_bytes); by intros ? [[] ?]
  | |- keeps _ _ (get_conn _) _ => apply (get_conn_served _ (fun _ => True)); done
  | |- keeps _ _ (on_env next_ip_id) _ => apply (on_env_served _ (fun _ => True)); done
  | |- keeps _ _ (mod_conn _) _ => apply mod_conn_served
  | |- keeps _ _ (lift _) _ => apply (lift_keeps _ (fun _ => True)); done
  | |- keeps _ _ panic _ => apply panics_keep
  | |- keeps _ _ (if ?b then _ else _) _ => destruct b
  | |- keeps _ _ (match ?x with _ => _ end) _ => destruct x
  end.

Definition result_bytes (r : Result (list Z) ErrorKind) : Prop := ∀ bytes, r = Ok bytes → Forall is_u8 bytes.

Lemma transport_write_served buf : kc (transport_write buf) (fun _ => True).
Proof.
  unfold transport_write. conn_step. destruct a.
  - by apply on_host_served.
  - eapply keeps_bind; [apply (on_gateway_served _ _ (fun _ => True)); [done|]|].
    { intros h r s E Hg. split; [by eapply gl_push | done]. }
    intros _ _. conn_step. by conn_step.
Qed.

Lemma transport_read_served n : kc (transport_read n) result_bytes.
Proof.
  unfold transport_read. conn_step. destruct a as [tcp|g].
  - apply on_host_served. intros h r h' E bytes ->. by eapply hl_read.
  - conn_step; [by conn_step|].
    eapply keeps_bind; [apply (on_gateway_served _ _ (fun r => ∀ bytes, r = Some bytes → Forall is_u8 bytes)); [done|]|].
    { intros h r s E Hg. by eapply gl_pull. }
    intros [bytes|] Hr; [apply keeps_ret; intros ? [= <-]; by apply Hr|].
    conn_step. apply keeps_ret. intros bytes. destruct a as [|g']; [done|]. destruct (gateway_eof g'); [|done]. intros [= <-]. constructor.
Qed.

Lemma shutdown_write_served : kc shutdown_write (fun _ => True).
Proof. unfold shutdown_write. conn_step. destruct a; [by apply on_host_served|].
  apply on_gateway_served; [done|]. intros h r s E Hg. split; [by eapply gl_shutdown | done].
Qed.

Lemma conn_frame_served flags data : is_u8 flags → Forall is_u8 data → kc (conn_frame flags data) (Forall is_u8).
Proof. intros Hf Hd. unfold conn_frame. conn_step. conn_step. apply keeps_ret. destruct a as []. destruct H0 as [[[] ?] ?]. by apply make_tcp_frame_bytes. Qed.

Lemma forward_guest_writes_served fuel : kc (forward_guest_writes_loop fuel) (fun _ => True).
Proof.
  induction fuel as [|fuel IH]; [apply panics_keep|]. cbn [forward_guest_writes_loop].
  conn_step. conn_step; [by conn_step|]. eapply keeps_bind; [apply transport_write_served|]. intros [written|e] _; [|by conn_step].
  repeat conn_step; done.
Qed.

Lemma forward_half_close_served : kc forward_half_close (fun _ => True).
Proof. unfold forward_half_close. conn_step. conn_step; [|by conn_step]. eapply keeps_bind; [by conn_step|]. intros _ _. apply shutdown_write_served. Qed.

Lemma send_fin_served : kc send_fin (fun _ => True).
Proof.
  unfold send_fin. eapply keeps_bind; [apply conn_frame_served; [done | constructor]|]. intros frame Hf.
  eapply keeps_bind; [by apply push_frame_served|]. intros _ _. by conn_step.
Qed.

Lemma read_upstream_served fuel : kc (read_upstream_loop fuel) (fun _ => True).
Proof.
  induction fuel as [|fuel IH]; [apply panics_keep|]. cbn [read_upstream_loop].
  eapply keeps_bind; [apply transport_read_served|]. intros [bytes|e] Hr.
  - specialize (Hr bytes eq_refl). destruct bytes as [|x bytes].
    + conn_step. eapply (keeps_bind _ _ (fun _ => True)); [destruct (decide _); [apply send_fin_served | by conn_step]|]. intros _ _.
      repeat conn_step; done.
    + eapply keeps_bind; [apply mod_conn_served; intros c [? ?]; split; [done | by apply Forall_app_2]|]. intros _ _.
      conn_step. conn_step; [by conn_step | done].
  - conn_step; [by conn_step|]. eapply keeps_bind; [apply conn_frame_served; [done | constructor]|]. intros frame Hf.
    eapply keeps_bind; [by apply push_frame_served|]. intros _ _. by conn_step.
Qed.

Lemma drain_snd_buf_served fuel : kc (drain_snd_buf_loop fuel) (fun _ => True).
Proof.
  induction fuel as [|fuel IH]; [by apply keeps_ret|]. cbn [drain_snd_buf_loop]. conn_step. rename a into c. rename H0 into Hc.
  conn_step; [by conn_step|]. cbv zeta. eapply keeps_bind; [apply mod_conn_served; intros c' [? ?]; split; [done | by apply Forall_drop]|]. intros _ _.
  eapply keeps_bind; [apply conn_frame_served; [done | apply Forall_take; apply Hc]|]. intros frame Hf.
  eapply keeps_bind; [by apply push_frame_served|]. intros _ _. conn_step; [done|]. apply IH.
Qed.

Lemma service_served : kc service (fun _ => True).
Proof.
  unfold service. conn_step. destruct a.
  - eapply keeps_bind; [apply forward_guest_writes_served|]. intros ok _.
    eapply (keeps_bind _ _ (fun _ => True)).
    + destruct ok; [|by repeat conn_step].
      eapply keeps_bind; [apply forward_half_close_served|]. intros _ _. unfold read_upstream.
      eapply (keeps_bind _ _ (fun _ => True)); [conn_step; apply read_upstream_served|]. intros alive _. by apply keeps_ret.
    + intros r _. unfold drain_snd_buf. eapply (keeps_bind _ _ (fun _ => True)); [conn_step; apply drain_snd_buf_served|]. intros _ _. by apply keeps_ret.
  - unfold drain_snd_buf, send_fin_if_due. eapply (keeps_bind _ _ (fun _ => True)); [conn_step; apply drain_snd_buf_served|]. intros _ _.
    eapply (keeps_bind _ _ (fun _ => True)); [|intros; by apply keeps_ret].
    conn_step. conn_step; [by conn_step|]. eapply keeps_bind; [apply send_fin_served|]. intros _ _. by conn_step.
  - by apply keeps_ret.
Qed.

(** *** What the guest sends does not reach what is sent to it *)

Lemma drain_keys_bytes keys p (c : Conn) r : drain_keys keys p c = Some r → conn_bytes c → conn_bytes r.2.
Proof.
  revert p c. induction keys as [|seq keys IH]; intros p c; cbn [drain_keys]; [by intros [= <-]|].
  destruct (seg_lookup _ _); cbn [mbind option_bind]; [|done]. cbv zeta. case_if; [apply IH|]. case_if.
  - destruct (skip_bytes _ _); cbn [mbind option_bind]; [|done]. intros Ed Hc. by eapply IH in Ed.
  - intros Ed Hc. by eapply IH in Ed.
Qed.

Lemma drain_ooo_bytes fuel (c c' : Conn) : drain_ooo_loop fuel c = Some c' → conn_bytes c → conn_bytes c'.
Proof.
  revert c. induction fuel as [|fuel IH]; intros c; cbn [drain_ooo_loop]; [done|].
  destruct (drain_keys _ _ _) as [[p c1]|] eqn:E; cbn [mbind option_bind]; [|done]. intros E' Hc. apply drain_keys_bytes in E; [|done].
  destruct p; [by eapply IH | by injection E' as <-].
Qed.

Lemma on_guest_data_bytes seq data (c c' : Conn) : on_guest_data seq data c = Some c' → conn_bytes c → conn_bytes c'.
Proof.
  unfold on_guest_data. cbv zeta. case_if.
  - destruct (skip_bytes _ _); cbn [mbind option_bind]; [|done]. intros Ed Hc. by apply drain_ooo_bytes in Ed.
  - case_if; [case_if|]; by intros [= <-].
Qed.

Lemma on_guest_ack_bytes ack (c : Conn) : conn_bytes c → conn_bytes (on_guest_ack ack c).
Proof. unfold on_guest_ack. cbv zeta. by repeat case_if. Qed.

Lemma on_guest_fin_bytes (c : Conn) : conn_bytes c → conn_bytes (on_guest_fin c).
Proof. unfold on_guest_fin. cbv zeta. destruct (conn_state _); [done | by case_if | done]. Qed.

(** ** The backend *)

Abbreviation kb := (keeps True slirp_ok).

Lemma slirp_env_kept {A} (m : ST (Env H) A) (R : A -> Prop) :
  (∀ e a e', m e = Some (a, e') → R a) → kb (slirp_env m) R.
Proof.
  intros Hm s Hs. apply wp_intro; [done|]. intros a s' E. unfold slirp_env, zoom in E.
  destruct (m s.2) as [[a0 e]|] eqn:E1; [|done]. injection E as <- <-. split; [by eapply Hm | exact Hs].
Qed.

Lemma slirp_host_kept {A} (m : ST H A) (R : A -> Prop) :
  (∀ h a h', m h = Some (a, h') → R a) → kb (slirp_host m) R.
Proof.
  intros Hm. apply slirp_env_kept. intros e a e' E. unfold zoom in E.
  destruct (m (host e)) as [[a0 h]|] eqn:E1; [|done]. injection E as <- _. by eapply Hm.
Qed.

Lemma mod_slirp_kept f : (∀ b, slirp_bytes b → slirp_bytes (f b)) → kb (mod_slirp f) (fun _ => True).
Proof. intros Hf. apply keeps_modify. intros s Hs. by apply Hf. Qed.

Lemma queue_rx_kept frame : Forall is_u8 frame → kb (queue_rx frame) (fun _ => True).
Proof.
  intros Hf. apply mod_slirp_kept. intros b []. split; try done. apply Forall_app_2; [done|]. constructor; [done | constructor].
Qed.

Lemma ip_frame_kept mac src dst proto payload :
  Forall is_u8 mac → Forall is_u8 src → Forall is_u8 dst → is_u8 proto → Forall is_u8 payload →
  kb (ip_frame mac src dst proto payload) (Forall is_u8).
Proof.
  intros. unfold ip_frame. eapply keeps_bind; [by apply (slirp_env_kept _ (fun _ => True))|]. intros id _.
  apply keeps_ret. by apply make_ip_frame_bytes.
Qed.

Lemma tcp_frame_kept ends seq ack flags data :
  ends_bytes ends → is_u8 flags → Forall is_u8 data → kb (tcp_frame ends seq ack flags data) (Forall is_u8).
Proof.
  intros [] ? ?. unfold tcp_frame. eapply keeps_bind; [by apply (slirp_env_kept _ (fun _ => True))|]. intros id _.
  apply keeps_ret. by apply make_tcp_frame_bytes.
Qed.

(** Slices of a frame of bytes: the hypothesis that names the slice comes first,
    so that it determines the frame. *)
Lemma eth_src_bytes f m : eth_src f = Some m → Forall is_u8 f → Forall is_u8 m.
Proof. intros E Hf. by apply sub_slice_bytes in E. Qed.
Lemma ip_src_bytes f m : ip_src f = Some m → Forall is_u8 f → Forall is_u8 m.
Proof. intros E Hf. by apply sub_slice_bytes in E. Qed.
Lemma ip_dst_bytes f m : ip_dst f = Some m → Forall is_u8 f → Forall is_u8 m.
Proof. intros E Hf. by apply sub_slice_bytes in E. Qed.
Lemma ip_payload_bytes f m : ip_payload f = Some m → Forall is_u8 f → Forall is_u8 m.
Proof. unfold ip_payload. destruct (ip_hlen f); cbn [mbind option_bind]; [|done]. intros E Hf. by apply tail_slice_bytes in E. Qed.
Lemma slice_bytes i n l m : sub_slice i n l = Some m → Forall is_u8 l → Forall is_u8 m.
Proof. intros E Hl. by apply sub_slice_bytes in E. Qed.
Lemma rest_bytes i l m : tail_slice i l = Some m → Forall is_u8 l → Forall is_u8 m.
Proof. intros E Hl. by apply tail_slice_bytes in E. Qed.
Lemma reply_bytes query q ips rcode m :
  build_dns_reply query q ips rcode = Some m → Forall is_u8 query → Forall (Forall is_u8) ips → Forall is_u8 m.
Proof. intros E Hq Hi. by apply dns_reply_bytes in E. Qed.
#[local] Hint Resolve eth_src_bytes ip_src_bytes ip_dst_bytes ip_payload_bytes slice_bytes rest_bytes reply_bytes : bytes.

(** [net_step] goes through a handler; slices of frames are bytes. *)
Ltac net_step :=
  lazymatch goal with
  | |- keeps _ _ (mbind _ (lift ?o)) _ =>
      lazymatch type of o with
      | option (list Z) => eapply (keeps_bind _ _ (Forall is_u8)); [apply lift_keeps; intros; eauto with bytes | cbv beta; intros ? ?]
      | _ => eapply (keeps_bind _ _ (fun _ => True)); [by apply lift_keeps | cbv beta; intros ? _]
      end
  | |- keeps _ _ (mbind _ (ip_frame _ _ _ _ _)) _ => eapply keeps_bind; [apply ip_frame_kept; eauto with bytes | cbv beta; intros ? ?]
  | |- keeps _ _ (mbind _ (tcp_frame _ _ _ _ _)) _ => eapply keeps_bind; [apply tcp_frame_kept; eauto with bytes | cbv beta; intros ? ?]
  | |- keeps _ _ (queue_rx _) _ => apply queue_rx_kept; eauto with bytes
  | |- keeps _ _ (mret _) _ => by apply keeps_ret
  | |- keeps _ _ panic _ => apply panics_keep
  | |- keeps _ _ (if ?b then _ else _) _ => destruct b eqn:?
  end.

Lemma send_dhcp_reply_kept frame xid t : Forall is_u8 frame → is_u8 t → kb (send_dhcp_reply frame xid t) (fun _ => True).
Proof.
  intros Hf Ht. unfold send_dhcp_reply. net_step.
  eapply (keeps_bind _ _ (Forall is_u8)); [apply keeps_gets; intros s Hs; apply Hs|]. intros mac Hm. cbv zeta.
  repeat net_step.
Qed.

Lemma handle_dhcp_kept frame dhcp : Forall is_u8 frame → kb (handle_dhcp frame dhcp) (fun _ => True).
Proof.
  intros Hf. unfold handle_dhcp. net_step; [net_step|]. net_step.
  eapply keeps_bind; [apply mod_slirp_kept; by intros b []|]. intros _ _.
  repeat net_step; by apply send_dhcp_reply_kept.
Qed.

Lemma reply_to_guest_kept mac src port reply :
  Forall is_u8 mac → Forall is_u8 src → Forall is_u8 reply → kb (reply_to_guest mac src port reply) (fun _ => True).
Proof. intros. unfold reply_to_guest. cbv zeta. repeat net_step. Qed.

Lemma v4_addresses_bytes addrs : (∀ ip, V4 ip ∈ addrs → Forall is_u8 ip) → Forall (Forall is_u8) (v4_addresses addrs).
Proof.
  intros Ha. unfold v4_addresses. apply Forall_take. apply list.Forall_forall. intros ip Hip.
  apply list_elem_of_omap in Hip as (a & Hin & Hip). destruct a as [o|]; [|done]. injection Hip as <-. by apply Ha.
Qed.

Definition maybe_bytes (r : option (list Z)) : Prop := ∀ bytes, r = Some bytes → Forall is_u8 bytes.

Lemma answer_from_host_kept query : Forall is_u8 query → kb (answer_from_host query) maybe_bytes.
Proof.
  intros Hq. unfold answer_from_host. destruct (parse_question query) as [q|]; [|by apply keeps_ret].
  case_if.
  - eapply (keeps_bind _ _ (fun r => ∀ addrs, r = Some addrs → Forall (Forall is_u8) (v4_addresses addrs))).
    { apply slirp_host_kept. intros h r h' Er addrs ->. apply v4_addresses_bytes. intros ip. by eapply hl_resolve. }
    intros [addrs|] Hr; [|by apply keeps_ret]. cbv zeta. case_match; [by apply keeps_ret|]. specialize (Hr addrs eq_refl).
    net_step. apply keeps_ret. by intros ? [= <-].
  - case_if; [|by apply keeps_ret]. net_step. apply keeps_ret. by intros ? [= <-].
Qed.

Lemma send_to_any_kept sock query servers : kb (send_to_any sock query servers) (fun _ => True).
Proof.
  induction servers as [|server servers IH]; [by apply keeps_ret|]. cbn [send_to_any].
  eapply (keeps_bind _ _ (fun _ => True)); [by apply slirp_host_kept|]. intros [] _; [by apply keeps_ret | apply IH].
Qed.

Lemma relay_upstream_kept query mac src port :
  Forall is_u8 query → Forall is_u8 mac → Forall is_u8 src → kb (relay_upstream query mac src port) (fun _ => True).
Proof.
  intros. unfold relay_upstream. eapply (keeps_bind _ _ (fun _ => True)); [by apply slirp_host_kept|]. intros [sock|] _; [|by apply keeps_ret].
  eapply keeps_bind; [apply send_to_any_kept|]. intros [] _; [|by apply keeps_ret].
  eapply (keeps_bind _ _ (fun _ => True)); [by apply keeps_gets|]. intros created _.
  eapply keeps_bind; [|intros _ _; by apply keeps_ret]. apply mod_slirp_kept. intros b []. split; try done.
  apply Forall_app_2; [done|]. constructor; [done | constructor].
Qed.

Lemma servfail_kept query mac src port :
  Forall is_u8 query → Forall is_u8 mac → Forall is_u8 src →
  kb (match parse_question query with
      | Some question =>
          servfail ← lift (build_dns_reply query question [] RCODE_SERVFAIL);
          reply_to_guest mac src port servfail
      | None => mret tt
      end) (fun _ => True).
Proof.
  intros. destruct (parse_question query); [|by apply keeps_ret]. net_step. by apply reply_to_guest_kept.
Qed.

Lemma handle_dns_kept query mac src port :
  Forall is_u8 query → Forall is_u8 mac → Forall is_u8 src → kb (handle_dns query mac src port) (fun _ => True).
Proof.
  intros. unfold handle_dns. eapply keeps_bind; [by apply answer_from_host_kept|]. intros [reply|] Hr.
  - apply reply_to_guest_kept; [done | done | by apply Hr].
  - eapply keeps_bind; [by apply relay_upstream_kept|]. intros [] _; [by apply keeps_ret | by apply servfail_kept].
Qed.

Lemma poll_request_kept (d : DnsPending Udp) :
  Forall is_u8 (dns_guest_mac d) ∧ Forall is_u8 (dns_src_ip d) ∧ Forall is_u8 (dns_query d) → kb (poll_request d) (fun _ => True).
Proof.
  intros (Hm & Hs & Hq). unfold poll_request.
  eapply (keeps_bind _ _ maybe_bytes); [apply slirp_host_kept; intros h r h' E bytes ->; by eapply hl_recv|].
  intros [bytes|] Hr.
  - eapply keeps_bind; [apply reply_to_guest_kept; [done | done | by apply Hr]|]. intros _ _. by apply keeps_ret.
  - eapply (keeps_bind _ _ (fun _ => True)); [by apply keeps_gets|]. intros now _. case_if; [|by apply keeps_ret].
    eapply keeps_bind; [by apply servfail_kept|]. intros _ _. by apply keeps_ret.
Qed.

Lemma swap_remove_Forall {A} (P : A -> Prop) i l l' : swap_remove i l = Some l' → Forall P l → Forall P l'.
Proof.
  unfold swap_remove. destruct (l !! i); [|done]. destruct (list.last l) as [x|] eqn:E; [|done]. intros [= <-] Hl.
  apply Forall_take. apply Forall_insert; [done|]. apply last_Some in E as (l1 & ->). apply Forall_app in Hl as [_ Hx].
  by inversion Hx.
Qed.

Lemma poll_dns_kept : kb poll_dns (fun _ => True).
Proof.
  unfold poll_dns. eapply keeps_bind; [apply keeps_gets; intros s Hs; apply (sb_dns _ Hs)|]. intros requests Hr.
  eapply (keeps_bind _ _ (fun _ => True)).
  - generalize 0%nat, (@nil nat). induction Hr as [|d requests Hd _ IH]; intros index finished; [by apply keeps_ret|].
    cbn [poll_requests]. eapply keeps_bind; [by apply poll_request_kept|]. intros r _. apply IH.
  - intros finished _. induction (rev finished) as [|i l IH]; [by apply keeps_ret|]. cbn [remove_finished].
    eapply keeps_bind; [apply keeps_gets; intros s Hs; apply (sb_dns _ Hs)|]. intros pending Hp.
    eapply keeps_bind; [apply lift_keeps; intros rest E; apply (swap_remove_Forall _ _ _ _ E Hp)|]. cbv beta. intros rest Hrest.
    eapply keeps_bind; [apply mod_slirp_kept; by intros b []|]. intros _ _. apply IH.
Qed.

Lemma relay_replies_kept fuel conn sp dp :
  Forall is_u8 (udp_guest_mac conn) ∧ Forall is_u8 (udp_src_ip conn) → kb (relay_replies fuel conn sp dp) (fun _ => True).
Proof.
  intros [Hm Hs]. induction fuel as [|fuel IH]; [apply panics_keep|]. cbn [relay_replies].
  eapply (keeps_bind _ _ maybe_bytes); [apply slirp_host_kept; intros h r h' E bytes ->; by eapply hl_recv|].
  intros [bytes|] Hr; [|by apply keeps_ret]. cbv zeta. specialize (Hr bytes eq_refl). net_step.
  eapply keeps_bind; [by apply queue_rx_kept|]. intros _ _. apply IH.
Qed.

Lemma relay_datagram_kept mac src sp dst dp data :
  Forall is_u8 mac → Forall is_u8 src → kb (relay_datagram mac src sp dst dp data) (fun _ => True).
Proof.
  intros Hm Hs. unfold relay_datagram.
  set (R := fun r : option (UdpConn Udp) => ∀ conn, r = Some conn → Forall is_u8 (udp_guest_mac conn) ∧ Forall is_u8 (udp_src_ip conn)).
  eapply (keeps_bind _ _ R).
  - unfold udp_entry. eapply (keeps_bind _ _ R); [apply keeps_gets; intros s Hb; exact (sb_udp _ Hb (sp, dst, dp))|].
    cbv beta. intros [conn|] Hk; [apply keeps_ret; intros ? [= <-]; by apply Hk|].
    eapply (keeps_bind _ _ (fun _ => True)); [by apply slirp_host_kept|]. intros [sock|] _; [|by apply keeps_ret]. cbv zeta.
    eapply keeps_bind; [|intros _ _; apply keeps_ret; by intros ? [= <-]].
    apply mod_slirp_kept. intros b []. split; try done. by apply map_Forall_insert_2.
  - intros [conn|] Hc; [|by apply keeps_ret]. eapply (keeps_bind _ _ (fun _ => True)); [by apply slirp_host_kept|]. intros _ _.
    apply relay_replies_kept. by apply Hc.
Qed.

Lemma handle_udp_kept frame : Forall is_u8 frame → kb (handle_udp frame) (fun _ => True).
Proof.
  intros Hf. unfold handle_udp. repeat net_step; [by apply handle_dhcp_kept | by apply handle_dns_kept | by apply relay_datagram_kept].
Qed.

(** *** TCP *)

Lemma with_conn_kept {A} c (m : ST (Conn * (list (list Z) * Env H)) A) :
  conn_bytes c → kc m (fun _ => True) → kb (with_conn c m) (fun r => conn_bytes r.2).
Proof.
  intros Hc Hm s Hs. unfold wp, with_conn. pose proof (Hm (c, ([], s.2)) ltac:(split; [done | constructor])) as K.
  unfold wp in K. destruct (m (c, ([], s.2))) as [[a [c' [frames e]]]|]; [|done]. destruct K as [_ [Hc' Hfr]].
  split; [done|]. destruct Hs. split; try done. by apply Forall_app_2.
Qed.

Lemma put_conn_kept key c : conn_bytes c → kb (put_conn key c) (fun _ => True).
Proof. intros Hc. apply mod_slirp_kept. intros b []. split; try done. by apply map_Forall_insert_2. Qed.

Lemma delete_conn_kept key : kb (mod_slirp (fun b => b <| tcp_conns := delete key (tcp_conns b) |>)) (fun _ => True).
Proof. apply mod_slirp_kept. intros b []. split; try done. by apply map_Forall_delete. Qed.

Lemma known_conn_kept key : kb (gets (fun s => tcp_conns s.1 !! key)) (fun r => ∀ c, r = Some c → conn_bytes c).
Proof. apply keeps_gets. intros s Hb. exact (sb_tcp _ Hb key). Qed.

Lemma poll_tcp_kept : kb poll_tcp (fun _ => True).
Proof.
  unfold poll_tcp. eapply (keeps_bind _ _ (fun _ => True)); [by apply keeps_gets|]. intros keys _.
  induction keys as [|key keys IH]; [by apply keeps_ret|]. cbn [poll_conns].
  eapply keeps_bind; [apply known_conn_kept|]. cbv beta. intros conn Hc.
  eapply (keeps_bind _ _ (fun _ => True)); [|intros _ _; apply IH]. destruct conn as [c|]; [|by apply keeps_ret].
  eapply keeps_bind; [apply with_conn_kept; [by apply Hc | apply service_served]|]. intros [[] c'] Hc'; cbn [fst snd] in *.
  - by apply put_conn_kept.
  - apply delete_conn_kept.
Qed.

Lemma connect_kept ends : kb (connect ends) (fun r => ∀ t, r = Some t → transport_bytes t).
Proof.
  unfold connect. eapply (keeps_bind _ _ (fun _ => True)); [by apply keeps_gets|]. intros b _.
  assert (Hraw : kb (stream ← slirp_host (tcp_connect (src_ip ends) (src_port ends)); mret (Raw <$> stream)) (fun r => ∀ t : Transport Tcp G, r = Some t → transport_bytes t)).
  { eapply (keeps_bind _ _ (fun _ => True)); [by apply slirp_host_kept|]. intros [] _; apply keeps_ret; by intros ? [= <-]. }
  destruct (tls b); [case_if; [|done] | done].
  eapply (keeps_bind _ _ gateway_bytes); [apply slirp_host_kept; intros h g h' En; by eapply gl_new|]. intros g Hg. apply keeps_ret. by intros ? [= <-].
Qed.

Lemma open_connection_kept key ends payload hlen seq window :
  ends_bytes ends → kb (open_connection key ends payload hlen seq window) (fun _ => True).
Proof.
  intros He. unfold open_connection. eapply keeps_bind; [apply known_conn_kept|]. intros [c|] _; [by apply keeps_ret|].
  eapply keeps_bind; [apply connect_kept|]. cbv beta. intros [t|] Ht; [|by repeat net_step]. specialize (Ht t eq_refl).
  net_step. cbv zeta. net_step. eapply keeps_bind; [by apply queue_rx_kept|]. intros _ _. by apply put_conn_kept.
Qed.

Lemma acknowledge_kept (c : Conn) : conn_bytes c → kb (acknowledge c) (fun _ => True).
Proof. intros [[He _] _]. unfold acknowledge. by repeat net_step. Qed.

Lemma on_segment_kept key seq ack flags window data c :
  conn_bytes c → kb (on_segment key seq ack flags window data c) (fun _ => True).
Proof.
  intros Hc. unfold on_segment. cbv zeta. set (c1 := if Z.land flags ACK =? 0 then _ else _).
  assert (H1 : conn_bytes c1) by (unfold c1; case_if; [done | by apply on_guest_ack_bytes]). clearbody c1.
  eapply (keeps_bind _ _ conn_bytes).
  { destruct (decide _); [by apply keeps_ret|]. eapply keeps_bind; [apply lift_keeps; intros c2 E; by apply on_guest_data_bytes in E|].
    cbv beta. intros c2 H2. eapply keeps_bind; [by apply acknowledge_kept|]. intros _ _. by apply keeps_ret. }
  intros c2 H2. eapply (keeps_bind _ _ conn_bytes).
  { case_if; [by apply keeps_ret|]. apply on_guest_fin_bytes in H2. eapply keeps_bind; [by apply acknowledge_kept|]. intros _ _. by apply keeps_ret. }
  intros c3 H3. by apply put_conn_kept.
Qed.

Lemma handle_tcp_kept frame : Forall is_u8 frame → kb (handle_tcp frame) (fun _ => True).
Proof.
  intros Hf. unfold handle_tcp. repeat net_step; [apply delete_conn_kept | by apply open_connection_kept|].
  eapply keeps_bind; [apply known_conn_kept|]. intros [c|] Hc; [by apply on_segment_kept, Hc|].
  repeat net_step; by split.
Qed.

(** ** The backend's operations *)

Lemma handle_arp_kept frame : Forall is_u8 frame → kb (handle_arp frame) (fun _ => True).
Proof. intros Hf. unfold handle_arp. repeat net_step. Qed.

Lemma handle_icmp_kept frame : Forall is_u8 frame → kb (handle_icmp frame) (fun _ => True).
Proof. intros Hf. unfold handle_icmp. repeat net_step. Qed.

Lemma slirp_send_kept frame : Forall is_u8 frame → kb (slirp_send frame) (fun _ => True).
Proof.
  intros Hf. unfold slirp_send, handle_ip.
  repeat net_step; [by apply handle_arp_kept | by apply handle_icmp_kept | by apply handle_tcp_kept | by apply handle_udp_kept].
Qed.

Lemma slirp_recv_kept : kb slirp_recv maybe_bytes.
Proof.
  unfold slirp_recv. eapply keeps_bind; [apply poll_tcp_kept|]. intros _ _. eapply keeps_bind; [apply poll_dns_kept|]. intros _ _.
  eapply keeps_bind; [apply keeps_gets; intros s Hs; apply (sb_rx _ Hs)|]. intros rx Hrx.
  destruct rx as [|frame rest]; [by apply keeps_ret|]. apply list.Forall_cons in Hrx as [Hfr Hrest].
  eapply keeps_bind; [apply mod_slirp_kept; by intros b []|]. intros _ _. apply keeps_ret. by intros ? [= <-].
Qed.

Lemma slirp_new_ok mac tls secrets e : Forall is_u8 mac → slirp_ok (with_secrets mac tls secrets, e).
Proof. intros Hm. split; try done; try apply map_Forall_empty; constructor. Qed.

(** The stack keeps the promise the network device relies on. *)
#[export] Instance Slirp_laws : NetworkLaws (Backend * Env H).
Proof.
  refine {| backend_ok := slirp_ok |}.
  - apply slirp_send_kept.
  - apply slirp_recv_kept.
Defined.

(** Runs of the stack: the network device sends the guest's frames and receives. *)
Inductive slirp_reachable (mac : list Z) (ctx : option C) (keys : list S) (e : Env H) : Backend * Env H -> Prop :=
| reach_new : slirp_reachable mac ctx keys e (with_secrets mac ctx keys, e)
| reach_send s frame s' :
    slirp_reachable mac ctx keys e s → Forall is_u8 frame → slirp_send frame s = Some (tt, s') → slirp_reachable mac ctx keys e s'
| reach_recv s r s' :
    slirp_reachable mac ctx keys e s → slirp_recv s = Some (r, s') → slirp_reachable mac ctx keys e s'.

Lemma slirp_reachable_ok mac ctx keys e s : Forall is_u8 mac → slirp_reachable mac ctx keys e s → slirp_ok s.
Proof.
  intros Hm. induction 1 as [|s frame s' _ IH Hf E|s r s' _ IH E].
  - by apply slirp_new_ok.
  - by destruct (wp_elim _ _ _ _ _ (slirp_send_kept frame Hf s IH) E).
  - by destruct (wp_elim _ _ _ _ _ (slirp_recv_kept s IH) E).
Qed.

(** Whatever frames the guest sends and whatever the host's sockets deliver, each
    frame handed to the network device holds bytes. *)
Lemma network_speaks_bytes mac ctx keys e s :
  Forall is_u8 mac → slirp_reachable mac ctx keys e s →
  slirp_ok s ∧ ∀ frame s', slirp_recv s = Some (Some frame, s') → Forall is_u8 frame.
Proof.
  intros Hm Hr. apply slirp_reachable_ok in Hr; [|done]. split; [done|]. intros frame s' E.
  destruct (wp_elim _ _ _ _ _ (slirp_recv_kept s Hr) E) as [Hb _]. by apply Hb.
Qed.

(** ** The gateway answers for itself *)

(** What the stack reads in an ICMP packet. *)
Record icmp_packet (frame mac src to payload : list Z) : Prop := {
  ic_type : eth_type frame = Some ETHERTYPE_IP;
  ic_proto : ip_proto frame = Some IP_PROTO_ICMP;
  ic_mac : eth_src frame = Some mac;
  ic_src : ip_src frame = Some src;
  ic_dst : ip_dst frame = Some to;
  ic_payload : ip_payload frame = Some payload
}.

Definition echo_request (to payload : list Z) : Prop := to = GW_IP ∧ (8 <= length payload)%nat ∧ payload !! 0%nat = Some 8.
#[export] Instance echo_request_dec to payload : Decision (echo_request to payload).
Proof. unfold echo_request. apply _. Defined.

Lemma icmp_reply_shape payload : (8 <= length payload)%nat →
  icmp_reply payload = [0; 0] ++ to_be_bytes 2 (checksum ([0; 0] ++ [0; 0] ++ drop 4 payload)) ++ drop 4 payload.
Proof.
  intros Hl. unfold icmp_reply. cbv zeta.
  assert (E : copy_at 8 (drop 8 payload) (copy_at 4 (take 4 (drop 4 payload)) (zeros (8 + length (drop 8 payload)))) = [0; 0] ++ [0; 0] ++ drop 4 payload).
  { assert (Hi : length (take 4 (drop 4 payload)) = 4%nat) by (rewrite length_take, length_drop; lia).
    change (8 + length (drop 8 payload))%nat with (4 + (4 + length (drop 8 payload)))%nat. rewrite !zeros_split.
    rewrite (copy_at_app (zeros 4) (zeros 4) (take 4 (drop 4 payload)) (zeros (length (drop 8 payload))) 4) by (done || by rewrite Hi).
    rewrite app_assoc. rewrite <- (app_nil_r (zeros (length (drop 8 payload)))).
    rewrite (copy_at_app (zeros 4 ++ take 4 (drop 4 payload)) (zeros (length (drop 8 payload))) (drop 8 payload) [] 8).
    - rewrite app_nil_r, <- app_assoc. change (drop 8 payload) with (drop (4 + 4) payload). by rewrite <- drop_drop, take_drop.
    - by rewrite length_app, Hi.
    - unfold zeros. by rewrite length_replicate. }
  rewrite E. apply (copy_at_app [0; 0] [0; 0]); [done | by rewrite length_be].
Qed.


(** A frame whose IP header claims to reach past the frame's end stops the stack. *)
Lemma header_past_end_panics frame proto hlen s :
  (34 <= length frame)%nat → eth_type frame = Some ETHERTYPE_IP → ip_proto frame = Some proto →
  proto = IP_PROTO_TCP ∨ proto = IP_PROTO_UDP → ip_hlen frame = Some hlen → (length frame < 14 + hlen)%nat →
  slirp_send frame s = None.
Proof.
  intros Hl Ht Hp Hproto Hh Hlt. unfold slirp_send, handle_ip. destruct (Nat.ltb_spec (length frame) 14); [lia|].
  destruct (Nat.ltb_spec (length frame) (14 + 20)); [lia|]. rewrite Ht, Hp.
  assert (Hn : ip_payload frame = None).
  { unfold ip_payload. rewrite Hh. cbn [mbind option_bind]. unfold tail_slice. destruct (Nat.leb_spec (14 + hlen) (length frame)); [lia | done]. }
  unfold handle_tcp, handle_udp. rewrite Hn. by destruct Hproto as [-> | ->].
Qed.
End Network.

(** A guest asks who has the gateway's address. *)
Section NetworkExample.
Import QuietHost.

#[export] Instance quiet_laws : HostLaws (list Z) unit unit.
Proof. split; intros; simplify_eq. Defined.
#[export] Instance quiet_gateway_laws : GatewayLaws Empty_set Empty_set Empty_set (list Z).
Proof. refine {| gateway_bytes := fun _ => True |}; [by intros [] | by intros ? [] | by intros ? [] | by intros []]. Defined.

Definition demo_mac : list Z := [0x52; 0x54; 0; 0x12; 0x34; 0x56].
Definition arp_request : list Z :=
  BCAST_MAC ++ demo_mac ++ [8; 6; 0; 1; 8; 0; 6; 4; 0; 1] ++ demo_mac ++ GUEST_IP ++ [0; 0; 0; 0; 0; 0] ++ GW_IP.
Definition demo_slirp : SlirpBackend unit unit Empty_set Empty_set Empty_set := with_secrets demo_mac None [].
Definition demo_env : Env (list Z) := mkEnv 1 [].

(** A ping, and the same packet as an echo reply. *)
Definition ping (kind : Z) : list Z := make_ip_frame 9 HOST_MAC GUEST_IP GW_IP IP_PROTO_ICMP ([kind; 0; 0; 0; 1; 2; 3; 4] ++ [100; 97; 116; 97]).

End NetworkExample.
