(* ===== verification/HostFs.v ===== *)
(** What the shared-directory device asks of the host: paths and the file system.

    A path is the bytes of its string, as on Unix; two paths are equal when their
    components are.  The file system is the host's: [H] is its state and [File] a
    handle to an open file.  Of an error only that it happened is used, except
    where a field says more. *)
From S2P Require Import Prelude Words.

(** ** [std::path] *)

Definition SLASH : Z := 47.
Definition DOT : Z := 46.

Inductive Component : Type := RootDir | CurDir | ParentDir | Normal (name : list Z).
#[export] Instance Component_eq_dec : EqDecision Component.
Proof. solve_decision. Defined.

(** [str::split(sep)]: there is always a first piece. *)
Fixpoint split_on (sep : Z) (s : list Z) : list (list Z) :=
  match s with
  | [] => [[]]
  | x :: s =>
      if x =? sep then [] :: split_on sep s
      else match split_on sep s with
           | [] => [[x]]
           | piece :: rest => (x :: piece) :: rest
           end
  end.

(** [a == b] on [Path]s compares these; a dot is kept only at the very front. *)
Definition component (name : list Z) : list Component :=
  if decide (name = []) then []
  else if decide (name = [DOT]) then []
  else if decide (name = [DOT; DOT]) then [ParentDir]
  else [Normal name].

Definition is_absolute (p : list Z) : bool := bool_decide (p !! 0%nat = Some SLASH).

Definition front (p : list Z) : list Component :=
  if is_absolute p then [RootDir]
  else if bool_decide (split_on SLASH p !! 0%nat = Some [DOT]) then [CurDir] else [].

Definition components (p : list Z) : list Component := front p ++ mjoin (map component (split_on SLASH p)).

Definition path_eq (a b : list Z) : bool := bool_decide (components a = components b).

(** [Path::join]: an absolute second path replaces the first. *)
Definition join (p name : list Z) : list Z :=
  if is_absolute name then name
  else if bool_decide (list.last p = Some SLASH) || bool_decide (p = []) then p ++ name
  else p ++ [SLASH] ++ name.

(** [a.strip_prefix(b)]: what is left of the string of [a], without separators
    and dots at its ends. *)
Fixpoint strip_pieces (pre : list Component) (pieces : list (list Z)) : option (list (list Z)) :=
  match pieces with
  | [] => if decide (pre = []) then Some [] else None
  | piece :: rest =>
      match pre, component piece with
      | [], _ => Some pieces
      | _ :: _, [] => strip_pieces pre rest
      | c :: pre, d :: _ => if decide (c = d) then strip_pieces pre rest else None
      end
  end.

Fixpoint drop_blank (pieces : list (list Z)) : list (list Z) :=
  match pieces with
  | piece :: rest => if decide (component piece = []) then drop_blank rest else pieces
  | [] => []
  end.

Definition join_pieces (pieces : list (list Z)) : list Z := drop 1 (mjoin (map (fun piece => SLASH :: piece) pieces)).

Definition strip_prefix (a b : list Z) : option (list Z) :=
  if decide (front a = front b) then
    pieces ← strip_pieces (mjoin (map component (split_on SLASH b))) (split_on SLASH a);
    Some (join_pieces (rev (drop_blank (rev (drop_blank pieces)))))
  else None.

(** ** [std::fs] *)

Record Metadata := mkMetadata { md_len : Z; md_is_dir : bool }.

Record DirEntry := mkEntry { de_name : list Z; de_path : list Z }.

Class HostFs (H File : Type) := {
  fs_metadata : list Z -> ST H (option Metadata);
  path_is_dir : list Z -> ST H bool;
  path_exists : list Z -> ST H bool;
  open_read : list Z -> ST H (option File);
  open_write : list Z -> ST H (option File);
  create_file : list Z -> ST H bool;
  seek_start : File -> Z -> ST H bool;
  (** [Err true] is an interrupted read. *)
  read_some : File -> nat -> ST H (Result (list Z) bool);
  write_all : File -> list Z -> ST H bool;
  set_len : File -> Z -> ST H bool;
  create_dir : list Z -> ST H bool;
  (** [Err] with the operating system's error number, if it has one. *)
  remove_dir : list Z -> ST H (Result unit (option Z));
  remove_file : list Z -> ST H bool;
  rename_path : list Z -> list Z -> ST H bool;
  read_dir : list Z -> ST H (option (list DirEntry));
  entry_metadata : DirEntry -> ST H (option Metadata)
}.
