(* ===== verification/Trace.v ===== *)
(** The tracer ([machine/src/trace/mod.rs]): events as lines of JSON in a bounded
    buffer.

    [serde_json] is not part of the repository: a value is a tree, and how it is
    written is the class [Json].  A tracer and its clones share one recorder
    behind a lock; an operation runs on the recorder while it holds the lock.  The
    wall clock is an argument. *)
From stdpp Require Import pretty.
From Stdlib Require Import String.
From S2P Require Import Prelude Words SyscallTrace Dtb HostFs.

Inductive Value : Type :=
| VNull
| VBool (b : bool)
| VNumber (n : Z)
| VString (s : list Z)
| VArray (l : list Value)
| VObject (l : list (list Z * Value)).

(** [Value::to_string] *)
Class Json := render : Value -> list Z.

Definition SCHEMA_VERSION : Z := 1.
Definition DEFAULT_BUFFER_BYTES : Z := 64 * 1024 * 1024.
Definition MAX_REMEMBERED_NAMES : nat := Z.to_nat 4096.

Record TraceOptions := mkOptions {
  processes : bool;
  files : bool;
  network : bool;
  trace_mounts : bool;
  buffer_bytes : Z
}.
Definition options_default : TraceOptions := mkOptions true true true true DEFAULT_BUFFER_BYTES.

Definition Fields : Type := list (list Z * Value).

Record Recorder := mkRecorder {
  next_seq : Z;
  guest_ns : Z;
  lines : list (list Z);
  buffered_bytes : Z;
  dropped : Z;
  names_by_address : gmap (list Z) (list Z)
}.
#[export] Instance Recorder_eta : Eta Recorder := fun r =>
  mkRecorder (next_seq r) (guest_ns r) (lines r) (buffered_bytes r) (dropped r) (names_by_address r).

Definition recorder_new : Recorder := mkRecorder 0 0 [] 0 0 ∅.

Definition set_guest_ns (ns : Z) (r : Recorder) : Recorder := r <| guest_ns := ns |>.

(** [{}] of an unsigned integer. *)
Definition display (n : Z) : list Z := as_bytes (pretty (Z.to_N n)).

Section Json.
Context {J : Json}.

Definition format_line (seq ns : Z) (kind : list Z) (wall_ms : Z) (fields : Fields) : list Z :=
  as_bytes "{" ++ [34] ++ as_bytes "v" ++ [34; 58] ++ display SCHEMA_VERSION
  ++ [44; 34] ++ as_bytes "seq" ++ [34; 58] ++ display seq
  ++ [44; 34] ++ as_bytes "guest_ns" ++ [34; 58] ++ display ns
  ++ [44; 34] ++ as_bytes "wall_ms" ++ [34; 58] ++ display wall_ms
  ++ [44; 34] ++ as_bytes "kind" ++ [34; 58] ++ render (VString kind)
  ++ mjoin (map (fun f : list Z * Value => [44] ++ render (VString f.1) ++ [58] ++ render f.2) fields)
  ++ as_bytes "}" ++ [10].

(** [Recorder::line]: the line, and the sequence number is used up. *)
Definition line (kind : list Z) (wall_ms : Z) (fields : Fields) (r : Recorder) : list Z * Recorder :=
  (format_line (next_seq r) (guest_ns r) kind wall_ms fields, r <| next_seq := wrapping_add64 (next_seq r) 1 |>).

Definition push (l : list Z) (r : Recorder) : Recorder :=
  r <| buffered_bytes := buffered_bytes r + Z.of_nat (length l) |> <| lines := lines r ++ [l] |>.

(** The event itself, after the marker. *)
Definition record_event (capacity : Z) (kind : list Z) (wall_ms : Z) (fields : Fields) (r : Recorder) : option Z * Recorder :=
  let seq := next_seq r in
  let (l, r) := line kind wall_ms fields r in
  if capacity <? buffered_bytes r + Z.of_nat (length l) then (None, r <| dropped := dropped r + 1 |>)
  else (Some seq, push l r).

Definition record_seq (capacity wall_ms : Z) (kind : list Z) (fields : Fields) (r : Recorder) : option Z * Recorder :=
  if 0 <? dropped r then
    let count := dropped r in
    let (marker, r) := line (as_bytes "trace.dropped") wall_ms [(as_bytes "count", VNumber count)] r in
    if capacity <? buffered_bytes r + Z.of_nat (length marker) then (None, r <| dropped := dropped r + 1 |>)
    else record_event capacity kind wall_ms fields (push marker (r <| dropped := 0 |>))
  else record_event capacity kind wall_ms fields r.

Definition record (capacity wall_ms : Z) (kind : list Z) (fields : Fields) (r : Recorder) : Recorder :=
  (record_seq capacity wall_ms kind fields r).2.
End Json.

(** [drain]: whole lines, at least one. *)
Fixpoint drain_lines (max_bytes : Z) (drained : list Z) (ls : list (list Z)) (buffered : Z) : list Z * list (list Z) * Z :=
  match ls with
  | [] => (drained, [], buffered)
  | l :: rest =>
      if negb (bool_decide (drained = [])) && (max_bytes <? Z.of_nat (length drained) + Z.of_nat (length l))
      then (drained, ls, buffered)
      else drain_lines max_bytes (drained ++ l) rest (buffered - Z.of_nat (length l))
  end.

Definition drain (max_bytes : Z) (r : Recorder) : list Z * Recorder :=
  let '(drained, ls, buffered) := drain_lines max_bytes [] (lines r) (buffered_bytes r) in
  (drained, r <| lines := ls |> <| buffered_bytes := buffered |>).

(** Invalid UTF-8 is replaced; valid text is returned as it is. *)
Definition drain_text (max_bytes : Z) (r : Recorder) : list Z * Recorder :=
  let (drained, r) := drain max_bytes r in (lossy drained, r).

Definition remember_name (address name : list Z) (r : Recorder) : Recorder :=
  let full := (MAX_REMEMBERED_NAMES <=? size (names_by_address r))%nat && bool_decide (names_by_address r !! address = None) in
  r <| names_by_address := <[address := name]> (if full : bool then ∅ else names_by_address r) |>.

Definition name_of (address : list Z) (r : Recorder) : option (list Z) := names_by_address r !! address.

(** [Ipv4Addr]'s notation. *)
Definition format_address (address : list Z) : list Z :=
  match address with
  | [a; b; c; d] => display a ++ [DOT] ++ display b ++ [DOT] ++ display c ++ [DOT] ++ display d
  | _ => []
  end.

(** * Properties

    The trace keeps its promises: lines come out whole and in order, the buffer
    stays within its capacity, and no event disappears without being counted. *)

(** What a line says. *)
Inductive Entry : Type :=
| Marker (seq ns wall count : Z)
| Event (seq ns wall : Z) (kind : list Z) (fields : Fields).

Definition entry_seq (e : Entry) : Z := match e with Marker seq _ _ _ => seq | Event seq _ _ _ _ => seq end.

(** Events in a list of lines, and events they say were dropped. *)
Fixpoint recorded (log : list Entry) : Z :=
  match log with
  | [] => 0
  | Event _ _ _ _ _ :: log => 1 + recorded log
  | Marker _ _ _ _ :: log => recorded log
  end.
Fixpoint reported (log : list Entry) : Z :=
  match log with
  | [] => 0
  | Marker _ _ _ count :: log => count + reported log
  | Event _ _ _ _ _ :: log => reported log
  end.

Fixpoint total (ls : list (list Z)) : Z :=
  match ls with [] => 0 | l :: ls => Z.of_nat (length l) + total ls end.

Lemma total_app a b : total (a ++ b) = total a + total b.
Proof. induction a as [|l a IH]; cbn; lia. Qed.
Lemma recorded_app a b : recorded (a ++ b) = recorded a + recorded b.
Proof. induction a as [|[] a IH]; cbn; lia. Qed.
Lemma reported_app a b : reported (a ++ b) = reported a + reported b.
Proof. induction a as [|[] a IH]; cbn; lia. Qed.
Lemma total_nonneg ls : 0 <= total ls.
Proof. induction ls as [|l ls IH]; cbn; lia. Qed.

Section Trace.
Context {J : Json} (capacity : Z).

Definition entry_line (e : Entry) : list Z :=
  match e with
  | Marker seq ns wall count => format_line seq ns (as_bytes "trace.dropped") wall [(as_bytes "count", VNumber count)]
  | Event seq ns wall kind fields => format_line seq ns kind wall fields
  end.

#[local] Arguments entry_line : simpl never.

(** Does a line still fit? *)
Definition fits (e : Entry) (buffered : Z) : bool := buffered + Z.of_nat (length (entry_line e)) <=? capacity.

(** The lines one call of [record_seq] adds. *)
Definition new_entries (wall : Z) (kind : list Z) (fields : Fields) (r : Recorder) : list Entry :=
  let marker := Marker (next_seq r) (guest_ns r) wall (dropped r) in
  if 0 <? dropped r then
    if fits marker (buffered_bytes r) then
      let event := Event (wrapping_add64 (next_seq r) 1) (guest_ns r) wall kind fields in
      marker :: (if fits event (buffered_bytes r + Z.of_nat (length (entry_line marker))) then [event] else [])
    else []
  else
    let event := Event (next_seq r) (guest_ns r) wall kind fields in
    if fits event (buffered_bytes r) then [event] else [].

(** A run: what has been asked, what the lines say, what has been drained. *)
Inductive run : list Entry -> nat -> list Z -> Recorder -> Prop :=
| run_new : run [] 0 [] recorder_new
| run_clock log calls drained r ns : run log calls drained r → run log calls drained (set_guest_ns ns r)
| run_name log calls drained r address name : run log calls drained r → run log calls drained (remember_name address name r)
| run_drain log calls drained r max out r' :
    run log calls drained r → drain max r = (out, r') → run log calls (drained ++ out) r'
| run_record log calls drained r wall kind fields seq r' :
    run log calls drained r → record_seq capacity wall kind fields r = (seq, r') →
    run (log ++ new_entries wall kind fields r) (S calls) drained r'.

(** Sequence numbers grow, from [lo] up to below [hi]. *)
Fixpoint ascending (lo hi : Z) (log : list Entry) : Prop :=
  match log with
  | [] => lo <= hi
  | e :: log => lo <= entry_seq e ∧ ascending (entry_seq e + 1) hi log
  end.

Lemma ascending_app lo mid hi a b : ascending lo mid a → ascending mid hi b → ascending lo hi (a ++ b).
Proof.
  revert lo. induction a as [|e a IH]; intros lo Ha Hb; cbn in *.
  - revert lo Ha. destruct b as [|e b]; cbn in *; [lia|]. intros lo Ha. destruct Hb. split; [lia | done].
  - destruct Ha. split; [done|]. by apply IH.
Qed.

Record trace_ok (log : list Entry) (calls : nat) (drained : list Z) (r : Recorder) : Prop := {
  to_order : drained ++ mjoin (lines r) = mjoin (map entry_line log);
  to_count : Z.of_nat calls = recorded log + reported log + dropped r;
  to_dropped : 0 <= dropped r;
  to_size : buffered_bytes r = total (lines r);
  to_fits : total (lines r) <= Z.max 0 capacity;
  to_seq : 0 <= next_seq r <= 2 * Z.of_nat calls;
  to_sorted : ascending 0 (next_seq r) log
}.

(** An event, and a call, in terms of entries. *)
Definition event_result (wall : Z) (kind : list Z) (fields : Fields) (r : Recorder) : option Z * Recorder :=
  let event := Event (next_seq r) (guest_ns r) wall kind fields in
  let r1 := r <| next_seq := wrapping_add64 (next_seq r) 1 |> in
  if fits event (buffered_bytes r) then (Some (next_seq r), push (entry_line event) r1) else (None, r1 <| dropped := dropped r + 1 |>).

Lemma fits_negb e b : (capacity <? b + Z.of_nat (length (entry_line e))) = negb (fits e b).
Proof. unfold fits. by rewrite Z.ltb_antisym. Qed.

Lemma record_event_is wall kind fields r : record_event capacity kind wall fields r = event_result wall kind fields r.
Proof.
  unfold record_event, line, event_result. cbv zeta.
  change (format_line (next_seq r) (guest_ns r) kind wall fields) with (entry_line (Event (next_seq r) (guest_ns r) wall kind fields)).
  change (buffered_bytes (r <| next_seq := ?x |>)) with (buffered_bytes r). rewrite fits_negb. by destruct (fits _ _).
Qed.

Lemma record_seq_is wall kind fields r :
  record_seq capacity wall kind fields r =
  if 0 <? dropped r then
    let marker := Marker (next_seq r) (guest_ns r) wall (dropped r) in
    let r1 := r <| next_seq := wrapping_add64 (next_seq r) 1 |> in
    if fits marker (buffered_bytes r) then event_result wall kind fields (push (entry_line marker) (r1 <| dropped := 0 |>))
    else (None, r1 <| dropped := dropped r + 1 |>)
  else event_result wall kind fields r.
Proof.
  unfold record_seq, line. cbv zeta. rewrite !record_event_is.
  change (format_line (next_seq r) (guest_ns r) (as_bytes "trace.dropped") wall [(as_bytes "count", VNumber (dropped r))])
    with (entry_line (Marker (next_seq r) (guest_ns r) wall (dropped r))).
  change (buffered_bytes (r <| next_seq := ?x |>)) with (buffered_bytes r). destruct (0 <? dropped r); [|done]. rewrite fits_negb. by destruct (fits _ _).
Qed.

(** What one call does. *)
Lemma record_seq_spec wall kind fields r seq r' :
  record_seq capacity wall kind fields r = (seq, r') → 0 <= dropped r → 0 <= next_seq r < 2 ^ 64 - 2 → buffered_bytes r = total (lines r) →
  total (lines r) <= Z.max 0 capacity →
  let new := new_entries wall kind fields r in
  lines r' = lines r ++ map entry_line new ∧ buffered_bytes r' = total (lines r') ∧ total (lines r') <= Z.max 0 capacity ∧
  1 + dropped r = recorded new + reported new + dropped r' ∧ 0 <= dropped r' ∧
  next_seq r <= next_seq r' <= next_seq r + 2 ∧ ascending (next_seq r) (next_seq r') new ∧
  match seq with Some s => ∃ ns, list.last new = Some (Event s ns wall kind fields) | None => recorded new = 0 end.
Proof.
  intros E Hd Hs Hb Hc. cbv zeta. rewrite record_seq_is in E. unfold new_entries. cbv zeta.
  assert (W1 : wrapping_add64 (next_seq r) 1 = next_seq r + 1) by (unfold wrapping_add64, as_u64; apply wrap_id; unfold is_word; lia).
  assert (W2 : wrapping_add64 (next_seq r + 1) 1 = next_seq r + 2)
    by (unfold wrapping_add64, as_u64; rewrite wrap_id by (unfold is_word; lia); lia).
  unfold event_result in E. destruct (Z.ltb_spec 0 (dropped r)) as [D|D].
  - set (marker := Marker _ _ _ _) in *. destruct (fits marker (buffered_bytes r)) eqn:F1.
    + cbn [next_seq guest_ns buffered_bytes push set eta Recorder_eta] in E. rewrite W1 in *. set (event := Event _ _ _ _ _) in *.
      destruct (fits event _) eqn:F2; apply pair_equal_spec in E as [<- <-]; unfold fits in *; bools; cbn; rewrite ?W1, ?W2, ?total_app, ?app_nil_r, <- ?app_assoc; cbn;
        repeat split; try done; try lia; eauto.
    + apply pair_equal_spec in E as [<- <-]. cbn. rewrite W1, app_nil_r. repeat split; try done; lia.
  - set (event := Event _ _ _ _ _) in *. destruct (fits event _) eqn:F2; apply pair_equal_spec in E as [<- <-]; unfold fits in *; bools; cbn;
      rewrite ?W1, ?total_app, ?app_nil_r; cbn; repeat split; try done; try lia; eauto.
Qed.

(** Draining takes whole lines from the front, at least one if there is one. *)
Lemma drain_lines_spec max drained ls b :
  ∃ n, let '(d, rest, b') := drain_lines max drained ls b in
       d = drained ++ mjoin (take n ls) ∧ rest = drop n ls ∧ b' = b - total (take n ls) ∧ (drained = [] → ls ≠ [] → (0 < n)%nat).
Proof.
  revert drained b. induction ls as [|l ls IH]; intros drained b; cbn [drain_lines].
  - exists 0%nat. cbn. rewrite app_nil_r. repeat split; try done; lia.
  - destruct (negb _ && _) eqn:E.
    + exists 0%nat. cbn. rewrite app_nil_r. repeat split; try done; try lia. intros ->. by rewrite bool_decide_eq_true_2 in E.
    + destruct (IH (drained ++ l) (b - Z.of_nat (length l))) as (n & Hn). exists (S n).
      destruct (drain_lines _ _ _ _) as [[d rest] b']. destruct Hn as (-> & -> & -> & _). cbn. rewrite <- app_assoc. repeat split; try done; lia.
Qed.

Lemma total_take_drop n ls : total ls = total (take n ls) + total (drop n ls).
Proof. by rewrite <- total_app, take_drop. Qed.

Lemma recorder_drain_spec max r out r' :
  drain max r = (out, r') →
  ∃ n, out = mjoin (take n (lines r)) ∧ lines r' = drop n (lines r) ∧ buffered_bytes r' = buffered_bytes r - total (take n (lines r)) ∧
       dropped r' = dropped r ∧ next_seq r' = next_seq r ∧ (lines r ≠ [] → (0 < n)%nat).
Proof.
  unfold drain. destruct (drain_lines_spec max [] (lines r) (buffered_bytes r)) as (n & Hn).
  destruct (drain_lines _ _ _ _) as [[d rest] b']. destruct Hn as (-> & -> & -> & Hp). intros [= <- <-]. exists n. cbn. repeat split; auto.
Qed.

Lemma run_ok log calls drained r : run log calls drained r → Z.of_nat calls < 2 ^ 62 → trace_ok log calls drained r.
Proof.
  induction 1 as [|log calls drained r ns _ IH|log calls drained r a nm _ IH|log calls drained r max out r' _ IH E|log calls drained r wall kind fields seq r' _ IH E];
    intros Hc.
  - split; cbn; try done; lia.
  - destruct (IH Hc). by split.
  - destruct (IH Hc). by split.
  - destruct (IH Hc) as [O C D S F Q A]. destruct (recorder_drain_spec _ _ _ _ E) as (n & -> & El & Eb & Ed & Es & _).
    pose proof (total_take_drop n (lines r)). pose proof (total_nonneg (take n (lines r))). split; rewrite ?El, ?Ed, ?Es; try done; try lia.
    by rewrite <- O, <- app_assoc, <- join_app, take_drop.
  - destruct (IH ltac:(lia)) as [O C D S F Q A].
    destruct (record_seq_spec wall kind fields r seq r' E D ltac:(lia) S F) as (El & Eb & Et & Ec & Ed & Es & Ea & _).
    split; try done; try lia.
    + by rewrite El, map_app, !join_app, app_assoc, O.
    + rewrite recorded_app, reported_app. lia.
    + by eapply ascending_app.
Qed.

(** C39: no event is lost silently.  After any calls, in any order: what has
    been drained, followed by what is buffered, is the lines in the order they
    were written, each whole; every call of [record] is a line, or counted in a
    line that says how many were dropped, or counted to be reported next; sequence
    numbers grow from line to line; and the buffer never holds more than its
    capacity. *)
Theorem events_accounted_for log calls drained r :
  run log calls drained r → Z.of_nat calls < 2 ^ 62 →
  drained ++ mjoin (lines r) = mjoin (map entry_line log) ∧
  Z.of_nat calls = recorded log + reported log + dropped r ∧
  ascending 0 (next_seq r) log ∧
  buffered_bytes r = total (lines r) ∧ buffered_bytes r <= Z.max 0 capacity.
Proof. intros Hr Hc. destruct (run_ok _ _ _ _ Hr Hc) as [O C D S F Q A]. repeat split; try done. lia. Qed.
End Trace.

(** Three events in a buffer for one line. *)
Section TraceExample.
#[local] Instance plain_json : Json := fun _ => [].

Definition demo_kind : list Z := as_bytes "mount.open".
Definition demo_r (n : nat) : Recorder := Nat.iter n (record 60 5 demo_kind []) recorder_new.
Definition demo_log : list Entry :=
  new_entries 60 5 demo_kind [] (demo_r 0) ++ new_entries 60 5 demo_kind [] (demo_r 1) ++ new_entries 60 5 demo_kind [] (demo_r 2).

Lemma events_accounted_for_witness : 3 = recorded demo_log + reported demo_log + dropped (demo_r 3) ∧ dropped (demo_r 3) = 2.
Proof.
  assert (Hr : run 60 demo_log 3 [] (demo_r 3)).
  { unfold demo_log. rewrite app_assoc.
    eapply run_record; [|apply surjective_pairing]. eapply run_record; [|apply surjective_pairing].
    apply (run_record 60 [] 0 [] recorder_new 5 demo_kind [] (record_seq 60 5 demo_kind [] recorder_new).1); [constructor | apply surjective_pairing]. }
  destruct (events_accounted_for 60 demo_log 3 [] (demo_r 3) Hr) as (_ & Hc & _); [reflexivity|].
  split; [exact Hc | vm_compute; reflexivity].
Defined.
End TraceExample.
