(* ===== verification/VirtioFs.v ===== *)
(** The shared directories: a FUSE server over the host's file system
    ([machine/src/virtio/fs.rs]).

    The device keeps the paths of the nodes and handles it has given out; the
    host's file system is reached through [HostFs].  A map's values are listed in
    the order of [hash_order].  Of the tracer the device is given, its calls of
    [record] are kept, in order. *)
From Stdlib Require Import String.
From S2P Require Import Prelude Words SyscallTrace CowRam Virtio VirtioConsole VirtioBlk HostNet Dtb HostFs Trace.

Definition FS_DEVICE_ID : Z := 26.
Definition FS_DEVICE_FEATURES : Z := VIRTIO_F_VERSION_1.
Definition STAGING_BASE : Z := 0xffff000000000000.

Definition FUSE_KERNEL_VERSION : Z := 7.
Definition FUSE_KERNEL_MINOR_VERSION : Z := 31.

Definition FUSE_LOOKUP : Z := 1.
Definition FUSE_FORGET : Z := 2.
Definition FUSE_GETATTR : Z := 3.
Definition FUSE_SETATTR : Z := 4.
Definition FUSE_MKDIR : Z := 9.
Definition FUSE_UNLINK : Z := 10.
Definition FUSE_RMDIR : Z := 11.
Definition FUSE_RENAME : Z := 12.
Definition FUSE_OPEN : Z := 14.
Definition FUSE_READ : Z := 15.
Definition FUSE_WRITE : Z := 16.
Definition FUSE_STATFS : Z := 17.
Definition FUSE_RELEASE : Z := 18.
Definition FUSE_FSYNC : Z := 20.
Definition FUSE_FLUSH : Z := 25.
Definition FUSE_INIT : Z := 26.
Definition FUSE_OPENDIR : Z := 27.
Definition FUSE_READDIR : Z := 28.
Definition FUSE_RELEASEDIR : Z := 29.
Definition FUSE_FSYNCDIR : Z := 30.
Definition FUSE_CREATE : Z := 35.
Definition FUSE_BATCH_FORGET : Z := 42.
Definition FUSE_READDIRPLUS : Z := 44.
Definition FUSE_RENAME2 : Z := 45.

Definition ENOENT : Z := -2.
Definition EBADF : Z := -9.
Definition EACCES : Z := -13.
Definition EEXIST : Z := -17.
Definition ENOTDIR : Z := -20.
Definition EINVAL : Z := -22.
Definition ENOSYS : Z := -38.
Definition ENOTEMPTY : Z := -39.

Definition FATTR_SIZE : Z := Z.shiftl 1 3.
Definition FUSE_ROOT_ID : Z := 1.
Definition O_ACCMODE : Z := 0x3.
Definition O_WRONLY : Z := 0x1.
Definition O_RDWR : Z := 0x2.
Definition O_TRUNC : Z := 0x200.

(** The fields of the request header that are used. *)
Record FuseInHeader := mkHeader { opcode : Z; unique : Z; nodeid : Z; header_pid : Z }.

Record FileHandle := mkHandle { fh_path : list Z; fh_is_dir : bool }.

Record Mount := mkMount { host_path : list Z; mount_tag : list Z; writable : bool }.

Inductive MountRequest : Type :=
| MrOpen (path : list Z) (flags : Z)
| MrRead (handle : Z)
| MrWrite (handle : Z)
| MrRelease (handle : Z)
| MrCreate (path : list Z)
| MrMkdir (path : list Z)
| MrDelete (path : list Z) (directory : bool)
| MrRename (from to : list Z)
| MrTruncate (path : list Z) (new_size : Z).

Record TracedHandle := mkTraced { traced_path : list Z; bytes_read : Z; bytes_written : Z }.

(** The kind and fields of a call of [record]. *)
Definition TraceCall : Type := list Z * Fields.

Record VirtioFs (H : Type) := mkFs {
  fs_regs : VirtioMmio;
  inodes : gmap Z (list Z);
  next_inode : Z;
  file_handles : gmap Z FileHandle;
  next_fh : Z;
  mounts : list Mount;
  fs_tracer : option (list TraceCall);
  guest_root : list Z;
  traced_handles : gmap Z TracedHandle;
  fs_host : H
}.
Arguments mkFs {H}.
Arguments fs_regs {H}.
Arguments inodes {H}.
Arguments next_inode {H}.
Arguments file_handles {H}.
Arguments next_fh {H}.
Arguments mounts {H}.
Arguments fs_tracer {H}.
Arguments guest_root {H}.
Arguments traced_handles {H}.
Arguments fs_host {H}.
#[export] Instance VirtioFs_eta {H} : Eta (VirtioFs H) := fun d =>
  mkFs (fs_regs d) (inodes d) (next_inode d) (file_handles d) (next_fh d) (mounts d) (fs_tracer d)
    (guest_root d) (traced_handles d) (fs_host d).

(** ** Replies of several buffers *)

(** [u32] sums wrap. *)
Definition total_len (bufs : list (Z * Z)) : Z := foldl (fun sum b => wrapping_add32 sum b.2) 0 bufs.

(** [len.saturating_add(buf_len)] *)
Fixpoint window_len (first_addr len : Z) (bufs : list (Z * Z)) : Z :=
  match bufs with
  | [] => len
  | (addr, buf_len) :: bufs =>
      if addr =? wrapping_add64 first_addr len then window_len first_addr (Z.min (len + buf_len) (2 ^ 32 - 1)) bufs else len
  end.

Definition contiguous_reply_window (write_bufs : list (Z * Z)) : option (Z * Z) :=
  match write_bufs with
  | [] => None
  | (first_addr, first_len) :: bufs => Some (first_addr, window_len first_addr first_len bufs)
  end.

Fixpoint scatter_loop (write_bufs : list (Z * Z)) (offset reply_offset : Z) (remaining : list Z) : ST (RamView * Z) unit :=
  match write_bufs with
  | [] => mret tt
  | (addr, len) :: write_bufs =>
      if decide (remaining = []) then mret tt
      else
        let buffer_end := reply_offset + len in
        if offset <? buffer_end then
          let skip := Z.max 0 (offset - reply_offset) in
          let n := Nat.min (Z.to_nat (len - skip)) (length remaining) in
          view_write_bytes (wrapping_add64 addr skip) (take n remaining);;
          scatter_loop write_bufs offset buffer_end (drop n remaining)
        else scatter_loop write_bufs offset buffer_end remaining
  end.
Definition scatter_write (write_bufs : list (Z * Z)) (offset : Z) (data : list Z) : ST (RamView * Z) unit :=
  scatter_loop write_bufs offset 0 data.

(** ** Directory entries *)

Definition dirent_size (name : list Z) (plus : bool) : nat :=
  let aligned := ((24 + length name + 7) / 8 * 8)%nat in
  if plus then (aligned + 128)%nat else aligned.

Definition write_dirent (ino off : Z) (name : list Z) (file_type : Z) (plus : bool) : list Z :=
  (if plus then to_le_bytes 8 ino ++ replicate 120 0 else [])
  ++ to_le_bytes 8 ino ++ to_le_bytes 8 off ++ to_le_bytes 4 (Z.of_nat (length name)) ++ to_le_bytes 4 file_type
  ++ name ++ replicate ((8 - length name mod 8) mod 8)%nat 0.

(** Byte strings in the order of [OsString]. *)
Fixpoint bytes_leb (a b : list Z) : bool :=
  match a, b with
  | [], _ => true
  | _ :: _, [] => false
  | x :: a, y :: b => (x <? y) || ((x =? y) && bytes_leb a b)
  end.
Fixpoint insert_entry (e : DirEntry) (l : list DirEntry) : list DirEntry :=
  match l with
  | [] => [e]
  | x :: l => if bytes_leb (de_name e) (de_name x) then e :: x :: l else x :: insert_entry e l
  end.
(** [sort_by_key(file_name)] *)
Definition sort_entries (l : list DirEntry) : list DirEntry := foldr insert_entry [] l.

Section Fs.
Context {LB : LoopBound} {H File : Type} {HF : HostFs H File} {LO : Layouts Z}.
Abbreviation Fs := (VirtioFs H).
Abbreviation M := (DevST Fs).

Definition set_fs_regs (m : VirtioMmio) (d : Fs) : Fs := d <| fs_regs := m |>.

Definition on_fs {A} (m : ST H A) : M A :=
  zoom (fun s => fs_host s.1) (fun h s => (s.1 <| fs_host := h |>, s.2)) m.

(** [match m { Some(x) => x, None => return reply }] *)
Definition or_return {A} (m : M (option A)) (reply : M Z) (k : A -> M Z) : M Z :=
  o ← m; match o with Some a => k a | None => reply end.

Definition w8 (addr v : Z) : M unit := on_view (view_write_u8 addr v).
Definition w16 (addr v : Z) : M unit := on_view (view_write_u16 addr v).
Definition w32 (addr v : Z) : M unit := on_view (view_write_u32 addr v).
Definition w64 (addr v : Z) : M unit := on_view (view_write_u64 addr v).
Definition r32 (addr : Z) : M Z := on_view (peek (view_read_u32 addr)).
Definition r64 (addr : Z) : M Z := on_view (peek (view_read_u64 addr)).
Definition at_ (addr off : Z) : Z := wrapping_add64 addr off.

(** *** Set-up *)

Definition fs_new (ms : list Mount) (h : H) : Fs :=
  let regs := mmio_new FS_DEVICE_ID FS_DEVICE_FEATURES 2 in
  let regs := with_config 0 (as_bytes "virtiofs"%string) regs in
  mkFs (with_config 36 (to_le_bytes 4 1) regs) ∅ (FUSE_ROOT_ID + 1) ∅ 1 ms None [] ∅ h.

Definition new_single (mount : Mount) (tag : list Z) (h : H) : Fs :=
  let regs := mmio_new FS_DEVICE_ID FS_DEVICE_FEATURES 2 in
  let regs := with_config 0 (take 36 tag) regs in
  mkFs (with_config 36 (to_le_bytes 4 1) regs) ∅ (FUSE_ROOT_ID + 1) ∅ 1 [mount] None [] ∅ h.

Definition set_mounts (ms : list Mount) (d : Fs) : Fs := d <| mounts := ms |>.

Fixpoint drop_slashes (l : list Z) : list Z :=
  match l with x :: l' => if x =? SLASH then drop_slashes l' else l | [] => [] end.
(** [trim_end_matches('/')] *)
Definition trim_end_slashes (l : list Z) : list Z := rev (drop_slashes (rev l)).

Definition set_guest_root (root : list Z) (d : Fs) : Fs := d <| guest_root := trim_end_slashes root |>.

Definition fs_set_tracer (options : option TraceOptions) (d : Fs) : Fs :=
  d <| fs_tracer := match options with Some o => if trace_mounts o then Some [] else None | None => None end |>
    <| traced_handles := ∅ |>.

(** *** Nodes *)

Definition root_path (d : Fs) : option (list Z) :=
  match mounts d with
  | [] => None
  | m :: _ => if decide (host_path m = []) then None else Some (host_path m)
  end.

Definition is_writable (d : Fs) : bool :=
  match mounts d with [] => false | m :: _ => writable m end.

(** The path of a node, in every handler. *)
Definition node_path (node : Z) (d : Fs) : option (list Z) :=
  if node =? FUSE_ROOT_ID then root_path d else inodes d !! node.

(** The node with this path that the map lists first. *)
Definition find_inode (path : list Z) (d : Fs) : option Z :=
  List.find (fun ino => match inodes d !! ino with Some p => path_eq p path | None => false end)
    (hash_order (map fst (map_to_list (inodes d)))).

Definition get_or_create_inode (path : list Z) : M Z :=
  known ← get_dev (find_inode path);
  match known with
  | Some ino => mret ino
  | None =>
      ino ← get_dev next_inode;
      mod_dev (fun d => d <| next_inode := wrapping_add64 (next_inode d) 1 |> <| inodes := <[ino := path]> (inodes d) |>);;
      mret ino
  end.

Definition get_or_create_inode_readonly (path : list Z) : M Z :=
  known ← get_dev (find_inode path);
  mret (default 0 known).

Definition new_handle (path : list Z) (is_dir : bool) : M Z :=
  fh ← get_dev next_fh;
  mod_dev (fun d => d <| next_fh := wrapping_add64 (next_fh d) 1 |>
                      <| file_handles := <[fh := mkHandle path is_dir]> (file_handles d) |>);;
  mret fh.

(** *** Replies *)

Definition reply_head (header : FuseInHeader) (total error out_addr : Z) : M unit :=
  w32 out_addr total;;
  w32 (at_ out_addr 4) (as_u32 error);;
  w64 (at_ out_addr 8) (unique header).

Definition reply_error (header : FuseInHeader) (error out_addr : Z) : M Z :=
  reply_head header 16 error out_addr;; mret 16.

Definition reply_ok (header : FuseInHeader) (out_addr : Z) : M Z :=
  reply_head header 16 0 out_addr;; mret 16.

(** [size.div_ceil(512)] *)
Definition div_ceil (a b : Z) : Z := (a + b - 1) / b.

Definition write_fuse_attr (addr ino : Z) (metadata : Metadata) : M unit :=
  let mode := if md_is_dir metadata then 0x41ed else 0x81a4 in
  let nlink := if md_is_dir metadata then 2 else 1 in
  w64 addr ino;;
  w64 (at_ addr 8) (md_len metadata);;
  w64 (at_ addr 16) (div_ceil (md_len metadata) 512);;
  w64 (at_ addr 24) 0;;
  w64 (at_ addr 32) 0;;
  w64 (at_ addr 40) 0;;
  w32 (at_ addr 48) 0;;
  w32 (at_ addr 52) 0;;
  w32 (at_ addr 56) 0;;
  w32 (at_ addr 60) mode;;
  w32 (at_ addr 64) nlink;;
  w32 (at_ addr 68) 0;;
  w32 (at_ addr 72) 0;;
  w32 (at_ addr 76) 0;;
  w32 (at_ addr 80) 4096;;
  w32 (at_ addr 84) 0.

(** The entry part of [write_entry_out] and [create]. *)
Definition write_entry (body ino : Z) (metadata : Metadata) : M unit :=
  w64 body ino;;
  w64 (at_ body 8) 0;;
  w64 (at_ body 16) 1;;
  w64 (at_ body 24) 1;;
  w32 (at_ body 32) 0;;
  w32 (at_ body 36) 0;;
  write_fuse_attr (at_ body 40) ino metadata.

Definition write_entry_out (header : FuseInHeader) (out_addr ino : Z) (metadata : Metadata) : M Z :=
  reply_head header (16 + 128) 0 out_addr;;
  write_entry (at_ out_addr 16) ino metadata;;
  mret (16 + 128).

Definition write_attr_out (header : FuseInHeader) (out_addr ino : Z) (metadata : Metadata) : M Z :=
  reply_head header (16 + 104) 0 out_addr;;
  let body := at_ out_addr 16 in
  w64 body 1;;
  w32 (at_ body 8) 0;;
  w32 (at_ body 12) 0;;
  write_fuse_attr (at_ body 16) ino metadata;;
  mret (16 + 104).

Fixpoint clear_bytes (n : nat) (addr : Z) (i : Z) : M unit :=
  match n with
  | O => mret tt
  | S n => w8 (at_ addr i) 0;; clear_bytes n addr (i + 1)
  end.

(** [read_cstring]: up to a zero byte or [max_len] bytes. *)
Fixpoint cstring_loop (n : nat) (addr i : Z) (bytes : list Z) : M (list Z) :=
  match n with
  | O => mret bytes
  | S n =>
      b ← on_view (peek (view_read_u8 (at_ addr i)));
      if b =? 0 then mret bytes else cstring_loop n addr (i + 1) (bytes ++ [b])
  end.
Definition read_cstring (addr max_len : Z) : M (list Z) :=
  bytes ← cstring_loop (Z.to_nat max_len) addr 0 [];
  mret (lossy bytes).
Definition saturating_sub (a b : Z) : Z := Z.max 0 (a - b).

(** *** Reading requests *)

Definition init (header : FuseInHeader) (out_addr : Z) : M Z :=
  reply_head header (16 + 64) 0 out_addr;;
  let body := at_ out_addr 16 in
  clear_bytes 64 body 0;;
  w32 body FUSE_KERNEL_VERSION;;
  w32 (at_ body 4) FUSE_KERNEL_MINOR_VERSION;;
  w32 (at_ body 8) (128 * 1024);;
  w32 (at_ body 12) 0;;
  w16 (at_ body 16) 16;;
  w16 (at_ body 18) 12;;
  w32 (at_ body 20) (128 * 1024);;
  mret (16 + 64).

Definition lookup_ (header : FuseInHeader) (in_body_addr in_body_len out_addr : Z) : M Z :=
  name ← read_cstring in_body_addr in_body_len;
  or_return (get_dev (node_path (nodeid header))) (reply_error header ENOENT out_addr) (fun parent_path =>
  let child_path := join parent_path name in
  or_return (on_fs (fs_metadata child_path)) (reply_error header ENOENT out_addr) (fun metadata =>
  ino ← get_or_create_inode child_path;
  write_entry_out header out_addr ino metadata)).

Definition getattr (header : FuseInHeader) (out_addr : Z) : M Z :=
  or_return (get_dev (node_path (nodeid header))) (reply_error header ENOENT out_addr) (fun path =>
  or_return (on_fs (fs_metadata path)) (reply_error header ENOENT out_addr) (fun metadata =>
  write_attr_out header out_addr (nodeid header) metadata)).

Definition fs_open (header : FuseInHeader) (out_addr : Z) : M Z :=
  or_return (get_dev (node_path (nodeid header))) (reply_error header ENOENT out_addr) (fun path =>
  is_dir ← on_fs (path_is_dir path);
  fh ← new_handle path is_dir;
  reply_head header 32 0 out_addr;;
  w64 (at_ out_addr 16) fh;;
  w32 (at_ out_addr 24) 0;;
  w32 (at_ out_addr 28) 0;;
  mret 32).

(** Every read but an interrupted one adds a byte; [fuel] counts them all. *)
Fixpoint read_filling (fuel : nat) (file : File) (want : nat) (filled : list Z) : M (option (list Z)) :=
  match fuel with
  | O => panic
  | S fuel =>
      if (length filled <? want)%nat then
        r ← on_fs (read_some file (want - length filled));
        match r with
        | Ok [] => mret (Some filled)
        | Ok bytes => read_filling fuel file want (filled ++ bytes)
        | Err interrupted => if interrupted : bool then read_filling fuel file want filled else mret None
        end
      else mret (Some filled)
  end.

Definition capacity64 (bufs : list (Z * Z)) : Z := foldl (fun sum b => sum + b.2) 0 bufs.

Definition fs_read (header : FuseInHeader) (in_body_addr : Z) (write_bufs : list (Z * Z)) : M Z :=
  fh ← r64 in_body_addr;
  offset ← r64 (at_ in_body_addr 8);
  size ← r32 (at_ in_body_addr 16);
  match write_bufs with
  | [] => panic
  | (out_addr, _) :: _ =>
      let capacity := capacity64 write_bufs in
      or_return (get_dev (fun d => file_handles d !! fh)) (reply_error header EBADF out_addr) (fun handle =>
      or_return (on_fs (open_read (fh_path handle))) (reply_error header ENOENT out_addr) (fun file =>
      on_fs (seek_start file offset);;
      let max_read := Z.to_nat (Z.min size (saturating_sub capacity 16)) in
      or_return (read_filling loop_bound file max_read []) (reply_error header ENOENT out_addr) (fun buf =>
      let total := wrapping_add32 16 (as_u32 (Z.of_nat (length buf))) in
      let out_header := to_le_bytes 4 total ++ [0; 0; 0; 0] ++ to_le_bytes 8 (unique header) in
      on_view (scatter_write write_bufs 0 out_header);;
      on_view (scatter_write write_bufs 16 buf);;
      mret total)))
  end.

(** The two loops of [readdir] over entries; the first that does not fit ends each. *)
Fixpoint dot_entries (entries : list (list Z * Z)) (offset : Z) (max_payload : nat) (plus : bool) (payload : list Z) (entry_index : Z)
    : list Z * Z :=
  match entries with
  | [] => (payload, entry_index)
  | (name, ino) :: entries =>
      if entry_index <? offset then dot_entries entries offset max_payload plus payload (entry_index + 1)
      else if (max_payload <? length payload + dirent_size name plus)%nat then (payload, entry_index)
      else dot_entries entries offset max_payload plus (payload ++ write_dirent ino (entry_index + 1) name 4 plus) (entry_index + 1)
  end.

Fixpoint dir_entries (entries : list DirEntry) (offset : Z) (max_payload : nat) (plus : bool) (payload : list Z) (entry_index : Z)
    : M (list Z) :=
  match entries with
  | [] => mret payload
  | entry :: entries =>
      if entry_index <? offset then dir_entries entries offset max_payload plus payload (entry_index + 1)
      else
        let name := lossy (de_name entry) in
        if (max_payload <? length payload + dirent_size name plus)%nat then mret payload
        else
          metadata ← on_fs (entry_metadata entry);
          match metadata with
          | None => dir_entries entries offset max_payload plus payload (entry_index + 1)
          | Some m =>
              ino ← get_or_create_inode_readonly (de_path entry);
              let file_type := if md_is_dir m then 4 else 8 in
              dir_entries entries offset max_payload plus
                (payload ++ write_dirent ino (entry_index + 1) name file_type plus) (entry_index + 1)
          end
  end.

Definition readdir (header : FuseInHeader) (in_body_addr out_addr out_len : Z) (plus : bool) : M Z :=
  fh ← r64 in_body_addr;
  offset ← r64 (at_ in_body_addr 8);
  size ← r32 (at_ in_body_addr 16);
  or_return (get_dev (fun d => file_handles d !! fh)) (reply_error header EBADF out_addr) (fun handle =>
  if negb (fh_is_dir handle) then reply_error header ENOTDIR out_addr
  else
    or_return (on_fs (read_dir (fh_path handle))) (reply_error header ENOENT out_addr) (fun entries =>
    let max_payload := Z.to_nat (Z.min size (saturating_sub out_len 16)) in
    let (payload, entry_index) := dot_entries [([DOT], nodeid header); ([DOT; DOT], 1)] offset max_payload plus [] 0 in
    payload ← dir_entries (sort_entries entries) offset max_payload plus payload entry_index;
    let total := wrapping_add32 16 (as_u32 (Z.of_nat (length payload))) in
    reply_head header total 0 out_addr;;
    on_view (view_write_bytes (at_ out_addr 16) payload);;
    mret total)).

Definition release (header : FuseInHeader) (in_body_addr out_addr : Z) : M Z :=
  fh ← r64 in_body_addr;
  mod_dev (fun d => d <| file_handles := delete fh (file_handles d) |>);;
  reply_ok header out_addr.

Definition statfs (header : FuseInHeader) (out_addr : Z) : M Z :=
  reply_head header (16 + 80) 0 out_addr;;
  let body := at_ out_addr 16 in
  clear_bytes 80 body 0;;
  w64 body (1024 * 1024);;
  w64 (at_ body 8) (512 * 1024);;
  w64 (at_ body 16) (512 * 1024);;
  w64 (at_ body 24) (1024 * 1024);;
  w64 (at_ body 32) (512 * 1024);;
  w32 (at_ body 40) 4096;;
  w32 (at_ body 44) 255;;
  w32 (at_ body 48) 4096;;
  mret (16 + 80).

(** *** Writing requests *)

(** [return] unless the mount is writable. *)
Definition if_writable (header : FuseInHeader) (out_addr : Z) (k : M Z) : M Z :=
  ok ← get_dev is_writable;
  if ok : bool then k else reply_error header EACCES out_addr.

Fixpoint position (addr : Z) (bufs : list (Z * Z)) (i : nat) : option nat :=
  match bufs with
  | [] => None
  | (a, _) :: bufs => if a =? addr then Some i else position addr bufs (i + 1)
  end.

Fixpoint write_bufs_loop (file : File) (bufs : list (Z * Z)) (remaining written : Z) : M Z :=
  match bufs with
  | [] => mret written
  | (buf_addr, buf_len) :: bufs =>
      if remaining =? 0 then mret written
      else
        let chunk := Z.min buf_len remaining in
        data ← on_view (peek (view_read_bytes buf_addr chunk));
        ok ← on_fs (write_all file data);
        if ok : bool then write_bufs_loop file bufs (remaining - chunk) (wrapping_add32 written chunk)
        else mret written
  end.

Definition write_data (header : FuseInHeader) (in_body_addr : Z) (read_bufs : list (Z * Z)) (out_addr : Z) : M Z :=
  if_writable header out_addr (
  fh ← r64 in_body_addr;
  offset ← r64 (at_ in_body_addr 8);
  size ← r32 (at_ in_body_addr 16);
  or_return (get_dev (fun d => file_handles d !! fh)) (reply_error header EBADF out_addr) (fun handle =>
  or_return (on_fs (open_write (fh_path handle))) (reply_error header EACCES out_addr) (fun file =>
  sought ← on_fs (seek_start file offset);
  if negb sought then reply_error header EINVAL out_addr
  else
    let in_body_buf_idx := default 0%nat (position in_body_addr read_bufs 0) in
    match read_bufs !! in_body_buf_idx with
    | None => panic
    | Some (buf_addr, buf_len) =>
        let data_addr := at_ in_body_addr 40 in
        let inline_avail := as_u32 (saturating_sub (at_ buf_addr buf_len) data_addr) in
        written ←
          (if 0 <? inline_avail then
             let chunk := Z.min inline_avail size in
             data ← on_view (peek (view_read_bytes data_addr chunk));
             ok ← on_fs (write_all file data);
             mret (if ok : bool then chunk else 0)
           else mret 0);
        written ← write_bufs_loop file (drop (in_body_buf_idx + 1) read_bufs) (saturating_sub size written) written;
        reply_head header 24 0 out_addr;;
        w32 (at_ out_addr 16) written;;
        w32 (at_ out_addr 20) 0;;
        mret 24
    end))).

Definition create (header : FuseInHeader) (in_body_addr in_body_len out_addr : Z) : M Z :=
  if_writable header out_addr (
  name ← read_cstring (at_ in_body_addr 16) (saturating_sub in_body_len 16);
  or_return (get_dev (node_path (nodeid header))) (reply_error header ENOENT out_addr) (fun parent_path =>
  let file_path := join parent_path name in
  created ← on_fs (create_file file_path);
  if negb created then reply_error header EACCES out_addr
  else
    or_return (on_fs (fs_metadata file_path)) (reply_error header ENOENT out_addr) (fun metadata =>
    ino ← get_or_create_inode file_path;
    fh ← new_handle file_path false;
    reply_head header (16 + 128 + 16) 0 out_addr;;
    write_entry (at_ out_addr 16) ino metadata;;
    let open_out := at_ out_addr (16 + 128) in
    w64 open_out fh;;
    w32 (at_ open_out 8) 0;;
    w32 (at_ open_out 12) 0;;
    mret (16 + 128 + 16)))).

Definition mkdir (header : FuseInHeader) (in_body_addr in_body_len out_addr : Z) : M Z :=
  if_writable header out_addr (
  name ← read_cstring (at_ in_body_addr 8) (saturating_sub in_body_len 8);
  or_return (get_dev (node_path (nodeid header))) (reply_error header ENOENT out_addr) (fun parent_path =>
  let dir_path := join parent_path name in
  known ← on_fs (path_exists dir_path);
  if known : bool then reply_error header EEXIST out_addr
  else
    made ← on_fs (create_dir dir_path);
    if negb made then reply_error header EACCES out_addr
    else
      or_return (on_fs (fs_metadata dir_path)) (reply_error header ENOENT out_addr) (fun metadata =>
      ino ← get_or_create_inode dir_path;
      write_entry_out header out_addr ino metadata))).

Definition rmdir (header : FuseInHeader) (in_body_addr in_body_len out_addr : Z) : M Z :=
  if_writable header out_addr (
  name ← read_cstring in_body_addr in_body_len;
  or_return (get_dev (node_path (nodeid header))) (reply_error header ENOENT out_addr) (fun parent_path =>
  r ← on_fs (remove_dir (join parent_path name));
  match r with
  | Ok _ => reply_ok header out_addr
  | Err e => reply_error header (if decide (e = Some 39) then ENOTEMPTY else ENOENT) out_addr
  end)).

Definition unlink (header : FuseInHeader) (in_body_addr in_body_len out_addr : Z) : M Z :=
  if_writable header out_addr (
  name ← read_cstring in_body_addr in_body_len;
  or_return (get_dev (node_path (nodeid header))) (reply_error header ENOENT out_addr) (fun parent_path =>
  ok ← on_fs (remove_file (join parent_path name));
  if ok : bool then reply_ok header out_addr else reply_error header ENOENT out_addr)).

Definition rename (header : FuseInHeader) (in_body_addr in_body_len out_addr : Z) : M Z :=
  if_writable header out_addr (
  newdir ← r64 in_body_addr;
  let name_start := if opcode header =? FUSE_RENAME2 then 12 else 8 in
  old_name ← read_cstring (at_ in_body_addr name_start) (saturating_sub in_body_len name_start);
  let new_name_offset := wrapping_add32 (wrapping_add32 name_start (as_u32 (Z.of_nat (length old_name)))) 1 in
  new_name ← read_cstring (at_ in_body_addr new_name_offset) (saturating_sub in_body_len new_name_offset);
  or_return (get_dev (node_path (nodeid header))) (reply_error header ENOENT out_addr) (fun old_parent =>
  or_return (get_dev (node_path newdir)) (reply_error header ENOENT out_addr) (fun new_parent =>
  let old_path := join old_parent old_name in
  let new_path := join new_parent new_name in
  ok ← on_fs (rename_path old_path new_path);
  if ok : bool then
    mod_dev (fun d => match find_inode old_path d with
                      | Some ino => d <| inodes := <[ino := new_path]> (inodes d) |>
                      | None => d
                      end);;
    reply_ok header out_addr
  else reply_error header EACCES out_addr))).

Definition setattr (header : FuseInHeader) (in_body_addr out_addr : Z) : M Z :=
  if_writable header out_addr (
  valid ← r32 in_body_addr;
  or_return (get_dev (node_path (nodeid header))) (reply_error header ENOENT out_addr) (fun path =>
  if Z.land valid FATTR_SIZE =? 0 then getattr header out_addr
  else
    new_size ← r64 (at_ in_body_addr 16);
    or_return (on_fs (open_write path)) (reply_error header EACCES out_addr) (fun file =>
    ok ← on_fs (set_len file new_size);
    if negb ok then reply_error header EACCES out_addr else getattr header out_addr))).

(** *** Tracing *)

Definition guest_path_of_node (node : Z) (d : Fs) : option (list Z) :=
  if node =? FUSE_ROOT_ID then Some (if decide (guest_root d = []) then [SLASH] else guest_root d)
  else
    host_path ← inodes d !! node;
    root ← root_path d;
    relative ← strip_prefix host_path root;
    Some (guest_root d ++ [SLASH] ++ lossy relative).

Definition guest_path_of_child (parent : Z) (name : list Z) (d : Fs) : option (list Z) :=
  parent ← guest_path_of_node parent d;
  Some (trim_end_slashes parent ++ [SLASH] ++ name).

Definition name_at (in_body_addr in_body_len offset : Z) : M (list Z) :=
  read_cstring (at_ in_body_addr offset) (saturating_sub in_body_len offset).

Definition describe_request (header : FuseInHeader) (in_body_addr in_body_len : Z) : M (option MountRequest) :=
  let op := opcode header in
  let name_at := name_at in_body_addr in_body_len in
  if op =? FUSE_OPEN then
    path ← get_dev (guest_path_of_node (nodeid header));
    match path with
    | None => mret None
    | Some path => flags ← r32 in_body_addr; mret (Some (MrOpen path flags))
    end
  else if op =? FUSE_READ then handle ← r64 in_body_addr; mret (Some (MrRead handle))
  else if op =? FUSE_WRITE then handle ← r64 in_body_addr; mret (Some (MrWrite handle))
  else if op =? FUSE_RELEASE then handle ← r64 in_body_addr; mret (Some (MrRelease handle))
  else if op =? FUSE_CREATE then
    name ← name_at 16;
    path ← get_dev (guest_path_of_child (nodeid header) name);
    mret (MrCreate <$> path)
  else if op =? FUSE_MKDIR then
    name ← name_at 8;
    path ← get_dev (guest_path_of_child (nodeid header) name);
    mret (MrMkdir <$> path)
  else if (op =? FUSE_UNLINK) || (op =? FUSE_RMDIR) then
    name ← name_at 0;
    path ← get_dev (guest_path_of_child (nodeid header) name);
    mret ((fun path => MrDelete path (op =? FUSE_RMDIR)) <$> path)
  else if (op =? FUSE_RENAME) || (op =? FUSE_RENAME2) then
    let names_at := if op =? FUSE_RENAME2 then 12 else 8 in
    from_name ← name_at names_at;
    to_name ← name_at (wrapping_add32 (wrapping_add32 names_at (as_u32 (Z.of_nat (length from_name)))) 1);
    from ← get_dev (guest_path_of_child (nodeid header) from_name);
    match from with
    | None => mret None
    | Some from =>
        newdir ← r64 in_body_addr;
        to ← get_dev (guest_path_of_child newdir to_name);
        mret (MrRename from <$> to)
    end
  else if op =? FUSE_SETATTR then
    valid ← r32 in_body_addr;
    if Z.land valid FATTR_SIZE =? 0 then mret None
    else
      path ← get_dev (guest_path_of_node (nodeid header));
      match path with
      | None => mret None
      | Some path => size ← r64 (at_ in_body_addr 16); mret (Some (MrTruncate path size))
      end
  else mret None.

Definition tracer_record (kind : string) (fields : list (string * Value)) : M unit :=
  mod_dev (fun d => d <| fs_tracer := (fun calls => calls ++ [(as_bytes kind, map (fun f => (as_bytes f.1, f.2)) fields)]) <$> fs_tracer d |>).

Definition track_handle (handle : Z) (path : list Z) : M unit :=
  mod_dev (fun d => d <| traced_handles := <[handle := mkTraced path 0 0]> (traced_handles d) |>).

(** [if let Some(traced) = self.traced_handles.get_mut(&handle)] *)
Definition on_traced (handle : Z) (f : TracedHandle -> TracedHandle) : M unit :=
  mod_dev (fun d => d <| traced_handles := alter f handle (traced_handles d) |>).

Definition access_name (flags : Z) : string :=
  if Z.land flags O_ACCMODE =? O_WRONLY then "write"
  else if Z.land flags O_ACCMODE =? O_RDWR then "read-write" else "read".

Definition record_request (request : MountRequest) (header : FuseInHeader) (out_addr used_len : Z) : M unit :=
  word ← r32 (at_ out_addr 4);
  let result := as_i32 word in
  let succeeded := result =? 0 in
  let pid := ("pid"%string, VNumber (header_pid header)) in
  let outcome := ("result"%string, VNumber result) in
  match request with
  | MrRead handle =>
      if succeeded then
        on_traced handle (fun t => mkTraced (traced_path t) (wrapping_add64 (bytes_read t) (used_len - 16)) (bytes_written t))
      else mret tt
  | MrWrite handle =>
      if succeeded then
        traced ← get_dev (fun d => traced_handles d !! handle);
        match traced with
        | None => mret tt
        | Some _ =>
            n ← r32 (at_ out_addr 16);
            on_traced handle (fun t => mkTraced (traced_path t) (bytes_read t) (wrapping_add64 (bytes_written t) n))
        end
      else mret tt
  | MrRelease handle =>
      traced ← get_dev (fun d => traced_handles d !! handle);
      match traced with
      | None => mret tt
      | Some t =>
          mod_dev (fun d => d <| traced_handles := delete handle (traced_handles d) |>);;
          tracer_record "mount.close"
            [pid; ("path"%string, VString (traced_path t)); ("bytes_read"%string, VNumber (bytes_read t));
             ("bytes_written"%string, VNumber (bytes_written t))]
      end
  | MrOpen path flags =>
      (if succeeded then handle ← r64 (at_ out_addr 16); track_handle handle path else mret tt);;
      tracer_record "mount.open"
        [pid; ("path"%string, VString path); ("access"%string, VString (as_bytes (access_name flags)));
         ("truncate"%string, VBool (negb (Z.land flags O_TRUNC =? 0))); outcome]
  | MrCreate path =>
      (if succeeded then handle ← r64 (at_ out_addr (16 + 128)); track_handle handle path else mret tt);;
      tracer_record "mount.create" [pid; ("path"%string, VString path); outcome]
  | MrMkdir path => tracer_record "mount.mkdir" [pid; ("path"%string, VString path); outcome]
  | MrDelete path directory =>
      tracer_record "mount.delete" [pid; ("path"%string, VString path); ("directory"%string, VBool directory); outcome]
  | MrRename from to =>
      tracer_record "mount.rename" [pid; ("from"%string, VString from); ("to"%string, VString to); outcome]
  | MrTruncate path size =>
      tracer_record "mount.truncate" [pid; ("path"%string, VString path); ("size"%string, VNumber size); outcome]
  end.

(** *** Requests *)

(** The chain, split into the buffers the device reads and those it writes. *)
Fixpoint fs_chain (fuel : nat) (k : nat) (desc : VirtDesc) (read_bufs write_bufs : list (Z * Z))
    : M (list (Z * Z) * list (Z * Z)) :=
  match fuel with
  | O => panic
  | S fuel =>
      let is_write := negb (Z.land (d_flags desc) VRING_DESC_F_WRITE =? 0) in
      let write_bufs := if is_write then write_bufs ++ [(d_addr desc, d_len desc)] else write_bufs in
      let read_bufs := if is_write then read_bufs else read_bufs ++ [(d_addr desc, d_len desc)] in
      if Z.land (d_flags desc) VRING_DESC_F_NEXT =? 0 then mret (read_bufs, write_bufs)
      else
        desc ← dev_desc fs_regs k (d_next desc);
        fs_chain fuel k desc read_bufs write_bufs
  end.

Definition read_header (addr : Z) : M FuseInHeader :=
  r32 addr;;
  opcode ← r32 (at_ addr 4);
  unique ← r64 (at_ addr 8);
  nodeid ← r64 (at_ addr 16);
  r32 (at_ addr 24);;
  r32 (at_ addr 28);;
  pid ← r32 (at_ addr 32);
  r32 (at_ addr 36);;
  mret (mkHeader opcode unique nodeid pid).

(** Is there a reply at all? *)
Definition forgets (header : FuseInHeader) : bool :=
  (opcode header =? FUSE_FORGET) || (opcode header =? FUSE_BATCH_FORGET).

Definition dispatch (header : FuseInHeader) (read_bufs write_bufs : list (Z * Z)) (in_body_addr in_body_len out_addr out_len : Z) : M Z :=
  let op := opcode header in
  if op =? FUSE_INIT then init header out_addr
  else if op =? FUSE_LOOKUP then lookup_ header in_body_addr in_body_len out_addr
  else if op =? FUSE_GETATTR then getattr header out_addr
  else if (op =? FUSE_OPEN) || (op =? FUSE_OPENDIR) then fs_open header out_addr
  else if op =? FUSE_READ then fs_read header in_body_addr write_bufs
  else if op =? FUSE_READDIR then readdir header in_body_addr out_addr out_len false
  else if op =? FUSE_READDIRPLUS then readdir header in_body_addr out_addr out_len true
  else if (op =? FUSE_RELEASE) || (op =? FUSE_RELEASEDIR) then release header in_body_addr out_addr
  else if op =? FUSE_STATFS then statfs header out_addr
  else if op =? FUSE_WRITE then write_data header in_body_addr read_bufs out_addr
  else if op =? FUSE_CREATE then create header in_body_addr in_body_len out_addr
  else if op =? FUSE_MKDIR then mkdir header in_body_addr in_body_len out_addr
  else if op =? FUSE_RMDIR then rmdir header in_body_addr in_body_len out_addr
  else if op =? FUSE_UNLINK then unlink header in_body_addr in_body_len out_addr
  else if (op =? FUSE_RENAME) || (op =? FUSE_RENAME2) then rename header in_body_addr in_body_len out_addr
  else if op =? FUSE_SETATTR then setattr header in_body_addr out_addr
  else if (op =? FUSE_FLUSH) || (op =? FUSE_FSYNC) || (op =? FUSE_FSYNCDIR) then reply_ok header out_addr
  else reply_error header ENOSYS out_addr.

(** The body of a request follows its header, or is the second buffer. *)
Definition request_body (header_addr header_len : Z) (rest : list (Z * Z)) : Z * Z :=
  if 40 <? header_len then (at_ header_addr 40, header_len - 40)
  else match rest with
       | second :: _ => second
       | [] => (at_ header_addr 40, 0)
       end.

(** The reply, once it is written: traced, and scattered if it was staged. *)
Definition finish_request (traced_request : option MountRequest) (header : FuseInHeader) (write_bufs : list (Z * Z))
    (out_addr used_len : Z) : M Z :=
  (match traced_request with
   | Some request => if 16 <=? used_len then record_request request header out_addr used_len else mret tt
   | None => mret tt
   end);;
  reply ← (fun s => let (reply, v) := take_staging s.2.1 in Some (reply, (s.1, (v, s.2.2))));
  (match reply with
   | Some reply =>
       let written := Nat.min (Z.to_nat used_len) (length reply) in
       on_view (scatter_write write_bufs 0 (take written reply))
   | None => mret tt
   end);;
  mret used_len.

Definition fs_process_request (k : nat) (head : Z) : M Z :=
  desc ← dev_desc fs_regs k head;
  bufs ← fs_chain loop_bound k desc [] [];
  let read_bufs := bufs.1 in
  let write_bufs := bufs.2 in
  match read_bufs, contiguous_reply_window write_bufs with
  | (header_addr, header_len) :: rest, Some (contiguous_addr, contiguous_len) =>
      if header_len <? 40 then mret 0
      else
        header ← read_header header_addr;
        let (in_body_addr, in_body_len) := request_body header_addr header_len rest in
        let capacity := total_len write_bufs in
        let staged := negb (opcode header =? FUSE_READ) && (contiguous_len <? capacity) in
        let out_addr := if staged then STAGING_BASE else contiguous_addr in
        let out_len := if staged then capacity else contiguous_len in
        (if staged then modify (fun s => (s.1, (begin_staging STAGING_BASE capacity s.2.1, s.2.2))) else mret tt);;
        tracing ← get_dev fs_tracer;
        traced_request ← (match tracing with
                          | Some _ => describe_request header in_body_addr in_body_len
                          | None => mret None
                          end);
        if forgets header then mret 0
        else
          used_len ← dispatch header read_bufs write_bufs in_body_addr in_body_len out_addr out_len;
          finish_request traced_request header write_bufs out_addr used_len
  | _, _ => mret 0
  end.

Fixpoint fs_notify_loop (fuel : nat) (k : nat) : M unit :=
  match fuel with
  | O => panic
  | S fuel =>
      head ← dev_pop fs_regs set_fs_regs k;
      match head with
      | None => mret tt
      | Some head =>
          used_len ← fs_process_request k head;
          dev_push_used fs_regs k head used_len;;
          raise_interrupt fs_regs set_fs_regs;;
          fs_notify_loop fuel k
      end
  end.

Definition virtio_fs_notify (queue_index : Z) : M unit :=
  if queue_index =? 0 then mret tt else fs_notify_loop loop_bound (Z.to_nat queue_index).
End Fs.
