(* ===== verification/FsInvariant.v ===== *)
(** What the shared-directory device keeps, whatever the guest asks of it.

    One pass over the handlers, for a predicate [good] on the paths the device
    holds, one on the names it is sent and one on the host's file system
    ([FsPolicy]).  The machine's invariant, the confinement of paths and the
    read-only mounts are instances of it. *)
From S2P Require Import Prelude Words Wp SyscallTrace Invariant CowRam CowRamProps Virtio VirtioProps.
From S2P Require Import VirtioConsole VirtioBlk VirtioInvariant MachineBus MachineLaws HostNet HostFs Trace.
From S2P Require Import VirtioFs.

Lemma view_write_u64_keeps a v : keeps True view_inv (view_write_u64 a v) (fun _ => True).
Proof. apply view_write_keeps; [apply to_le_bytes_bytes|]. intros. apply cow_write_wide_keeps; [done|lia]. Qed.

Lemma lossy_bytes l : Forall is_u8 l → Forall is_u8 (lossy l).
Proof.
  unfold lossy. generalize (length l) as fuel. intros fuel. revert l. induction fuel as [|fuel IH]; intros l Hl; [constructor|].
  destruct l as [|x l]; [constructor|]. cbn [lossy_loop]. destruct (utf8_chunk (x :: l)) as [ok n].
  apply Forall_app_2; [|by apply IH, Forall_drop]. destruct ok; [by apply Forall_take|]. by repeat constructor.
Qed.

(** What the host returns is bytes. *)
Class HostFsLaws (H File : Type) {HF : HostFs H File} := {
  hf_read f n h bytes h' : read_some f n h = Some (Ok bytes, h') → Forall is_u8 bytes;
  hf_names p h entries h' : read_dir p h = Some (Some entries, h') → Forall (fun e => Forall is_u8 (de_name e)) entries
}.

Section Policy.
Context {LB : LoopBound} {H File : Type} {HF : HostFs H File} {LO : Layouts Z} {HL : HostFsLaws H File}.
Abbreviation Fs := (VirtioFs H).

(** The file system keeps a property, as long as it is asked about [good] paths
    and only written to if the first of the mounts [ms] is writable. *)
Record HostKeeps (ms : list Mount) (good : list Z -> Prop) (host_ok : H -> Prop) : Prop := {
  hk_metadata p : good p → keeps True host_ok (fs_metadata p) (fun _ => True);
  hk_is_dir p : good p → keeps True host_ok (path_is_dir p) (fun _ => True);
  hk_open_read p : good p → keeps True host_ok (open_read p) (fun _ => True);
  hk_seek f n : keeps True host_ok (seek_start f n) (fun _ => True);
  hk_read f n : keeps True host_ok (read_some f n) (fun _ => True);
  hk_read_dir p : good p → keeps True host_ok (read_dir p) (fun _ => True);
  hk_entry e : keeps True host_ok (entry_metadata e) (fun _ => True);
  hk_writes : (∃ m, head ms = Some m ∧ writable m = true) →
    (∀ p, good p → keeps True host_ok (path_exists p) (fun _ => True)) ∧
    (∀ p, good p → keeps True host_ok (open_write p) (fun _ => True)) ∧
    (∀ p, good p → keeps True host_ok (create_file p) (fun _ => True)) ∧
    (∀ f b, keeps True host_ok (write_all f b) (fun _ => True)) ∧
    (∀ f n, keeps True host_ok (set_len f n) (fun _ => True)) ∧
    (∀ p, good p → keeps True host_ok (create_dir p) (fun _ => True)) ∧
    (∀ p, good p → keeps True host_ok (remove_dir p) (fun _ => True)) ∧
    (∀ p, good p → keeps True host_ok (remove_file p) (fun _ => True)) ∧
    (∀ p q, good p → good q → keeps True host_ok (rename_path p q) (fun _ => True))
}.

(** What is kept of paths, names and the host. *)
Record FsPolicy (ms : list Mount) (good name_ok : list Z -> Prop) (host_ok : H -> Prop) : Prop := {
  po_root m : head ms = Some m → host_path m ≠ [] → good (host_path m);
  po_join p n : good p → name_ok n → good (join p n);
  po_host : HostKeeps ms good host_ok
}.

Context (ms : list Mount) (good name_ok : list Z -> Prop) (host_ok : H -> Prop).
Context (PO : FsPolicy ms good name_ok host_ok).
Let HK : HostKeeps ms good host_ok := po_host _ _ _ _ PO.

Record fs_inv (d : Fs) : Prop := {
  fi_regs : mmio_wf (fs_regs d);
  fi_mounts : mounts d = ms;
  fi_inodes : map_Forall (fun _ => good) (inodes d);
  fi_handles : map_Forall (fun _ h => good (fh_path h)) (file_handles d);
  fi_host : host_ok (fs_host d)
}.

Abbreviation I := (dev_inv fs_inv).
Abbreviation kf := (keeps True I).

Lemma fs_inv_get d : fs_inv d → mmio_wf (fs_regs d).
Proof. by intros []. Qed.
Lemma fs_inv_put d m : fs_inv d → mmio_wf m → fs_inv (set_fs_regs m d).
Proof. intros [] ?. by split. Qed.

(** *** The pieces handlers are made of *)

Lemma on_fs_keeps {A} (m : ST H A) R : keeps True host_ok m R → kf (on_fs m) R.
Proof.
  intros Hm. apply (keeps_zoom host_ok); [done | by intros s [[] _] |]. intros s h [[] Hv] Hh. split; [by split | done].
Qed.

(** An operation whose result has a property whatever the host's state. *)
Lemma on_fs_keeps_result {A} (m : ST H A) (R : A -> Prop) :
  keeps True host_ok m (fun _ => True) → (∀ h a h', m h = Some (a, h') → R a) → kf (on_fs m) R.
Proof.
  intros Hm HR. apply on_fs_keeps. intros h Hh. pose proof (Hm h Hh) as K. unfold wp in *.
  destruct (m h) as [[a h']|] eqn:E; [|done]. split; [by eapply HR | apply K].
Qed.

Lemma w8_keeps a : kf (w8 a 0) (fun _ => True).
Proof. by apply on_view_keeps, view_write_u8_keeps. Qed.
Lemma w16_keeps a v : kf (w16 a v) (fun _ => True).
Proof. apply on_view_keeps, view_write_u16_keeps. Qed.
Lemma w32_keeps a v : kf (w32 a v) (fun _ => True).
Proof. apply on_view_keeps, view_write_u32_keeps. Qed.
Lemma w64_keeps a v : kf (w64 a v) (fun _ => True).
Proof. apply on_view_keeps, view_write_u64_keeps. Qed.
Lemma r32_keeps a : kf (r32 a) (fun _ => True).
Proof. by apply on_view_keeps, (peek_keeps _ (fun _ => True)). Qed.
Lemma r64_keeps a : kf (r64 a) (fun _ => True).
Proof. by apply on_view_keeps, (peek_keeps _ (fun _ => True)). Qed.

Lemma mod_fs_keeps f : (∀ d, fs_inv d → fs_inv (f d)) → kf (mod_dev f) (fun _ => True).
Proof. apply mod_dev_keeps. Qed.

Lemma or_return_keeps {A} (m : DevST Fs (option A)) reply (k : A -> DevST Fs Z) (R : A -> Prop) :
  kf m (fun o => ∀ a, o = Some a → R a) → kf reply (fun _ => True) → (∀ a, R a → kf (k a) (fun _ => True)) →
  kf (or_return m reply k) (fun _ => True).
Proof.
  intros Hm Hr Hk. unfold or_return. eapply keeps_bind; [exact Hm|]. cbv beta. intros [a|] Ha; [by apply Hk, Ha | done].
Qed.

Lemma node_path_keeps node : kf (get_dev (node_path node)) (fun o => ∀ p, o = Some p → good p).
Proof.
  apply get_dev_keeps. intros d [_ Hm Hi _ _] p. unfold node_path, root_path. rewrite Hm.
  case_if; [|apply Hi]. pose proof (po_root _ _ _ _ PO) as Hroot. revert Hroot. generalize ms as l.
  intros [|m l] Hroot; [done|]. destruct (decide (host_path m = [])); [done|]. intros [= <-]. by apply Hroot.
Qed.

Lemma handle_keeps fh : kf (get_dev (fun d => file_handles d !! fh)) (fun o => ∀ h, o = Some h → good (fh_path h)).
Proof. apply get_dev_keeps. intros d [_ _ _ Hh _]. exact (Hh fh). Qed.

Lemma get_any_keeps {A} (f : Fs -> A) : kf (get_dev f) (fun _ => True).
Proof. by apply get_dev_keeps. Qed.

Lemma ret_any_keeps {A} (a : A) : kf (mret a) (fun _ => True).
Proof. by apply keeps_ret. Qed.

(** [fs_step] goes through a handler; what the tactics leave is the paths. *)
Ltac fs_step :=
  lazymatch goal with
  | |- keeps _ _ (or_return (get_dev (node_path _)) _ _) _ => apply (or_return_keeps _ _ _ good); [apply node_path_keeps | | intros ?path ?Hpath]
  | |- keeps _ _ (or_return (get_dev (fun d => file_handles d !! _)) _ _) _ =>
      eapply or_return_keeps; [apply handle_keeps | | intros ?handle ?Hhandle]
  | |- keeps _ _ (or_return (on_fs _) _ _) _ =>
      apply (or_return_keeps _ _ _ (fun _ => True)); [eapply keeps_mono; [|apply on_fs_keeps]; [done|] | | intros ? _]
  | |- keeps _ _ (mbind _ (w8 _ _)) _ => eapply keeps_bind; [apply w8_keeps | intros _ _]
  | |- keeps _ _ (mbind _ (w16 _ _)) _ => eapply keeps_bind; [apply w16_keeps | intros _ _]
  | |- keeps _ _ (mbind _ (w32 _ _)) _ => eapply keeps_bind; [apply w32_keeps | intros _ _]
  | |- keeps _ _ (mbind _ (w64 _ _)) _ => eapply keeps_bind; [apply w64_keeps | intros _ _]
  | |- keeps _ _ (mbind _ (r32 _)) _ => eapply keeps_bind; [apply r32_keeps | intros ? _]
  | |- keeps _ _ (mbind _ (r64 _)) _ => eapply keeps_bind; [apply r64_keeps | intros ? _]
  | |- keeps _ _ (mbind _ (on_fs _)) _ => eapply (keeps_bind _ _ (fun _ => True)); [apply on_fs_keeps | intros ? _]
  | |- keeps _ _ (w32 _ _) _ => apply w32_keeps
  | |- keeps _ _ (w64 _ _) _ => apply w64_keeps
  | |- keeps _ _ (mret _) _ => apply ret_any_keeps
  | |- keeps _ _ panic _ => apply panic_keeps
  | |- keeps _ _ (if ?b then _ else _) _ => destruct b
  end.

Lemma reply_head_keeps header total error out : kf (reply_head header total error out) (fun _ => True).
Proof. unfold reply_head. repeat fs_step. Qed.

Lemma reply_error_keeps header error out : kf (reply_error header error out) (fun _ => True).
Proof. unfold reply_error. eapply keeps_bind; [apply reply_head_keeps|]. intros _ _. fs_step. Qed.

Lemma reply_ok_keeps header out : kf (reply_ok header out) (fun _ => True).
Proof. unfold reply_ok. eapply keeps_bind; [apply reply_head_keeps|]. intros _ _. fs_step. Qed.

Lemma write_fuse_attr_keeps addr ino m : kf (write_fuse_attr addr ino m) (fun _ => True).
Proof. unfold write_fuse_attr. cbv zeta. repeat fs_step. Qed.

Lemma write_entry_keeps body ino m : kf (write_entry body ino m) (fun _ => True).
Proof. unfold write_entry. repeat fs_step. apply write_fuse_attr_keeps. Qed.

Lemma clear_bytes_keeps n addr i : kf (clear_bytes n addr i) (fun _ => True).
Proof. revert i. induction n as [|n IH]; intros i; cbn [clear_bytes]; [fs_step|]. fs_step. apply IH. Qed.

Lemma write_entry_out_keeps header out ino m : kf (write_entry_out header out ino m) (fun _ => True).
Proof.
  unfold write_entry_out. eapply keeps_bind; [apply reply_head_keeps|]. intros _ _.
  eapply keeps_bind; [apply write_entry_keeps|]. intros _ _. fs_step.
Qed.

Lemma write_attr_out_keeps header out ino m : kf (write_attr_out header out ino m) (fun _ => True).
Proof.
  unfold write_attr_out. eapply keeps_bind; [apply reply_head_keeps|]. intros _ _. cbv zeta. repeat fs_step.
  eapply keeps_bind; [apply write_fuse_attr_keeps|]. intros _ _. fs_step.
Qed.

Lemma get_or_create_inode_keeps path : good path → kf (get_or_create_inode path) (fun _ => True).
Proof.
  intros Hp. unfold get_or_create_inode. eapply keeps_bind; [apply get_any_keeps|]. intros [ino|] _; [fs_step|].
  eapply keeps_bind; [apply get_any_keeps|]. intros ino _. eapply keeps_bind; [|intros _ _; fs_step].
  apply mod_fs_keeps. intros d []. split; try done. by apply map_Forall_insert_2.
Qed.

Lemma new_handle_keeps path is_dir : good path → kf (new_handle path is_dir) (fun _ => True).
Proof.
  intros Hp. unfold new_handle. eapply keeps_bind; [apply get_any_keeps|]. intros fh _. eapply keeps_bind; [|intros _ _; fs_step].
  apply mod_fs_keeps. intros d []. split; try done. by apply map_Forall_insert_2.
Qed.

(** *** Names *)

Lemma cstring_loop_same n addr i bytes s r s' :
  I s → Forall is_u8 bytes → cstring_loop n addr i bytes s = Some (r, s') → s' = s ∧ Forall is_u8 r.
Proof.
  intros Hs. revert i bytes. induction n as [|n IH]; intros i bytes Hb; cbn [cstring_loop]; [by intros [= <- <-]|].
  unfold mbind, ST_bind. unfold on_view, zoom, peek. destruct s as [d [v source]]. cbn [fst snd] in *.
  destruct (view_read_u8 (at_ addr i) v) as [b|] eqn:E; [|done]. case_if; [by intros [= <- <-]|].
  apply IH. apply Forall_app_2; [done|]. constructor; [|constructor]. eapply view_read_u8_inv; [apply Hs | exact E].
Qed.

Lemma read_cstring_same addr len s name s' : I s → read_cstring addr len s = Some (name, s') → s' = s ∧ Forall is_u8 name.
Proof.
  intros Hs. unfold read_cstring, mbind, ST_bind. destruct (cstring_loop _ _ _ _ s) as [[b s1]|] eqn:E; [|done].
  intros [= <- <-]. apply cstring_loop_same in E as [-> Hb]; [|done|constructor]. split; [done | by apply lossy_bytes].
Qed.

(** The name a request carries. *)
Definition reads_name (addr len : Z) (s : Fs * (RamView * Z)) : Prop :=
  ∀ name s', read_cstring addr len s = Some (name, s') → name_ok name.

Lemma wp_name {A} addr len (k : list Z -> DevST Fs A) (Q : A -> _ -> Prop) s :
  I s → reads_name addr len s → (∀ name, name_ok name → read_cstring addr len s = Some (name, s) → wp True (k name) Q s) →
  wp True (mbind k (read_cstring addr len)) Q s.
Proof.
  intros Hs Hn Hk. apply wp_bind. unfold wp at 1. destruct (read_cstring addr len s) as [[name s']|] eqn:E; [|done].
  pose proof (Hn name s' E). destruct (read_cstring_same _ _ _ _ _ Hs E) as [-> _]. by apply Hk.
Qed.

(** *** Requests that read *)

Lemma init_keeps header out : kf (init header out) (fun _ => True).
Proof.
  unfold init. eapply keeps_bind; [apply reply_head_keeps|]. intros _ _. cbv zeta.
  eapply keeps_bind; [apply clear_bytes_keeps|]. intros _ _. repeat fs_step.
Qed.

Lemma statfs_keeps header out : kf (statfs header out) (fun _ => True).
Proof.
  unfold statfs. eapply keeps_bind; [apply reply_head_keeps|]. intros _ _. cbv zeta.
  eapply keeps_bind; [apply clear_bytes_keeps|]. intros _ _. repeat fs_step.
Qed.

Lemma getattr_keeps header out : kf (getattr header out) (fun _ => True).
Proof.
  unfold getattr. fs_step; [apply reply_error_keeps|].
  fs_step; [by apply (hk_metadata _ _ _ HK) | apply reply_error_keeps | apply write_attr_out_keeps].
Qed.

Lemma fs_open_keeps header out : kf (fs_open header out) (fun _ => True).
Proof.
  unfold fs_open. fs_step; [apply reply_error_keeps|]. fs_step; [by apply (hk_is_dir _ _ _ HK)|].
  eapply keeps_bind; [by apply new_handle_keeps|]. intros fh _. eapply keeps_bind; [apply reply_head_keeps|]. intros _ _.
  repeat fs_step.
Qed.

Lemma release_keeps header body out : kf (release header body out) (fun _ => True).
Proof.
  unfold release. fs_step. eapply keeps_bind; [|intros _ _; apply reply_ok_keeps].
  apply mod_fs_keeps. intros d []. split; try done. by apply map_Forall_delete.
Qed.

Lemma read_filling_keeps fuel file want filled :
  Forall is_u8 filled → kf (read_filling fuel file want filled) (fun o => ∀ b, o = Some b → Forall is_u8 b).
Proof.
  revert filled. induction fuel as [|fuel IH]; intros filled Hf; cbn [read_filling]; [apply panic_keeps|].
  case_if; [|apply keeps_ret; by intros ? [= <-]].
  eapply (keeps_bind _ _ (fun r => ∀ bytes, r = Ok bytes → Forall is_u8 bytes)).
  { apply on_fs_keeps_result; [apply (hk_read _ _ _ HK)|]. intros h r h' Er bytes ->. by eapply hf_read. }
  intros [bytes|[]] Hb; [|by apply IH | by apply keeps_ret]. destruct bytes as [|x bytes]; [apply keeps_ret; by intros ? [= <-]|].
  apply IH. apply Forall_app_2; [done | by apply Hb].
Qed.

Lemma scatter_keeps bufs off ro data : Forall is_u8 data → keeps True view_inv (scatter_loop bufs off ro data) (fun _ => True).
Proof.
  revert ro data. induction bufs as [|[addr len] bufs IH]; intros ro data Hd; cbn [scatter_loop]; [by apply keeps_ret|].
  destruct (decide (data = [])); [by apply keeps_ret|]. cbv zeta. case_if; [|by apply IH].
  eapply keeps_bind; [by apply view_write_bytes_keeps, Forall_take|]. intros _ _. by apply IH, Forall_drop.
Qed.

Lemma fs_read_keeps header body bufs : kf (fs_read header body bufs) (fun _ => True).
Proof.
  unfold fs_read. do 3 fs_step. destruct bufs as [|[out len] bufs]; [fs_step|]. cbv zeta.
  fs_step; [apply reply_error_keeps|]. fs_step; [by apply (hk_open_read _ _ _ HK) | apply reply_error_keeps|].
  fs_step; [apply (hk_seek _ _ _ HK)|]. eapply or_return_keeps; [apply read_filling_keeps; constructor | apply reply_error_keeps|].
  cbv beta. intros buf Hbuf. eapply keeps_bind; [apply on_view_keeps, scatter_keeps|].
  { apply Forall_app_2; [apply to_le_bytes_bytes|]. apply Forall_app_2; [by repeat constructor | apply to_le_bytes_bytes]. }
  intros _ _. eapply keeps_bind; [by apply on_view_keeps, scatter_keeps|]. intros _ _. fs_step.
Qed.

Lemma dirent_bytes ino off name t plus : Forall is_u8 name → Forall is_u8 (write_dirent ino off name t plus).
Proof.
  intros Hn. unfold write_dirent. repeat (apply Forall_app_2; [first [apply to_le_bytes_bytes | done | idtac]|]); [|by apply Forall_replicate].
  destruct plus; [|constructor]. apply Forall_app_2; [apply to_le_bytes_bytes | by apply Forall_replicate].
Qed.

Lemma dot_entries_bytes entries off max plus payload i :
  Forall (fun e => Forall is_u8 e.1) entries → Forall is_u8 payload → Forall is_u8 (dot_entries entries off max plus payload i).1.
Proof.
  intros He. revert payload i. induction He as [|[name ino] entries Hn _ IH]; intros payload i Hp; cbn [dot_entries]; [done|].
  case_if; [by apply IH|]. case_if; [done|]. apply IH. apply Forall_app_2; [done | by apply dirent_bytes].
Qed.

Lemma dir_entries_keeps entries off max plus payload i :
  Forall (fun e => Forall is_u8 (de_name e)) entries → Forall is_u8 payload →
  kf (dir_entries entries off max plus payload i) (Forall is_u8).
Proof.
  intros He. revert payload i. induction He as [|e entries Hn _ IH]; intros payload i Hp; cbn [dir_entries]; [by apply keeps_ret|].
  case_if; [by apply IH|]. cbv zeta. case_if; [by apply keeps_ret|]. fs_step; [apply (hk_entry _ _ _ HK)|].
  destruct a as [m|]; [|by apply IH]. unfold get_or_create_inode_readonly. eapply (keeps_bind _ _ (fun _ => True)).
  { eapply keeps_bind; [apply get_any_keeps|]. intros known _. fs_step. }
  intros ino _. apply IH. apply Forall_app_2; [done|]. by apply dirent_bytes, lossy_bytes.
Qed.

Lemma insert_entry_Forall P e l : P e → Forall P l → Forall P (insert_entry e l).
Proof. intros He. induction 1 as [|x l Hx Hl IH]; cbn; [by repeat constructor|]. case_if; by repeat constructor. Qed.

Lemma sort_entries_Forall P l : Forall P l → Forall P (sort_entries l).
Proof. induction 1; cbn; [constructor|]. by apply insert_entry_Forall. Qed.

Lemma readdir_keeps header body out len plus : kf (readdir header body out len plus) (fun _ => True).
Proof.
  unfold readdir. do 3 fs_step. fs_step; [apply reply_error_keeps|]. fs_step; [apply reply_error_keeps|].
  apply (or_return_keeps _ _ _ (Forall (fun e => Forall is_u8 (de_name e)))); [|apply reply_error_keeps|].
  { apply on_fs_keeps_result; [by apply (hk_read_dir _ _ _ HK)|]. intros h r h' E entries ->. by eapply hf_names. }
  intros entries He. cbv zeta. destruct (dot_entries _ _ _ _ _ _) as [payload i] eqn:Ed.
  eapply keeps_bind; [apply dir_entries_keeps; [by apply sort_entries_Forall|]|].
  { change payload with (payload, i).1. rewrite <- Ed. apply dot_entries_bytes; [by repeat constructor | constructor]. }
  intros pl Hpl. eapply keeps_bind; [apply reply_head_keeps|]. intros _ _.
  eapply keeps_bind; [by apply on_view_keeps, view_write_bytes_keeps|]. intros _ _. fs_step.
Qed.

(** From here on, whatever the state. *)
Ltac to_keeps :=
  lazymatch goal with
  | |- wp True ?m _ ?s => let K := fresh in assert (K : kf m (fun _ => True)); [|by apply K]
  end.

Lemma lookup_keeps header body len out s :
  I s → reads_name body len s → wp True (lookup_ header body len out) (fun _ s' => True ∧ I s') s.
Proof.
  intros Hs Hn. unfold lookup_. apply wp_name; [done | done|]. intros name Hname _. to_keeps.
  fs_step; [apply reply_error_keeps|]. assert (good (join path name)) by (by apply (po_join _ _ _ _ PO)).
  fs_step; [by apply (hk_metadata _ _ _ HK) | apply reply_error_keeps|].
  eapply keeps_bind; [by apply get_or_create_inode_keeps|]. intros ino _. apply write_entry_out_keeps.
Qed.

(** *** Requests that write *)

Definition some_writable : Prop := ∃ m, head ms = Some m ∧ writable m = true.

Lemma if_writable_wp header out (k : DevST Fs Z) s :
  I s → (some_writable → wp True k (fun _ s' => True ∧ I s') s) → wp True (if_writable header out k) (fun _ s' => True ∧ I s') s.
Proof.
  intros Hs Hk. unfold if_writable. apply wp_bind, wp_gets. unfold is_writable. rewrite (fi_mounts _ (proj1 Hs)).
  revert Hk. unfold some_writable. generalize ms as l. intros [|m l] Hk; [by apply reply_error_keeps|].
  destruct (writable m) eqn:Ew; [apply Hk; by exists m | by apply reply_error_keeps].
Qed.

Lemma write_bufs_keeps file bufs remaining written :
  some_writable → kf (write_bufs_loop file bufs remaining written) (fun _ => True).
Proof.
  intros Hw. pose proof (hk_writes _ _ _ HK Hw) as (_ & _ & _ & Hwr & _).
  revert remaining written. induction bufs as [|[addr len] bufs IH]; intros remaining written; cbn [write_bufs_loop]; [fs_step|].
  fs_step; [fs_step|]. cbv zeta. eapply (keeps_bind _ _ (fun _ => True)); [by apply on_view_keeps, (peek_keeps _ (fun _ => True))|].
  intros data _. fs_step; [apply Hwr|]. fs_step; [apply IH | fs_step].
Qed.

Lemma write_data_keeps header body bufs out s : I s → wp True (write_data header body bufs out) (fun _ s' => True ∧ I s') s.
Proof.
  intros Hs. unfold write_data. apply if_writable_wp; [done|]. intros Hw. pose proof (hk_writes _ _ _ HK Hw) as (_ & Ho & _ & Hwr & _).
  to_keeps. do 3 fs_step. fs_step; [apply reply_error_keeps|]. fs_step; [by apply Ho | apply reply_error_keeps|].
  fs_step; [apply (hk_seek _ _ _ HK)|]. fs_step; [apply reply_error_keeps|]. cbv zeta.
  destruct (bufs !! _) as [[addr len]|]; [|fs_step].
  eapply (keeps_bind _ _ (fun _ => True)).
  { fs_step; [|fs_step]. eapply (keeps_bind _ _ (fun _ => True)); [by apply on_view_keeps, (peek_keeps _ (fun _ => True))|].
    intros data _. fs_step; [apply Hwr | fs_step]. }
  intros written _. eapply keeps_bind; [by apply write_bufs_keeps|]. intros w _. eapply keeps_bind; [apply reply_head_keeps|].
  intros _ _. repeat fs_step.
Qed.

Lemma create_keeps header body len out s :
  I s → reads_name (at_ body 16) (saturating_sub len 16) s → wp True (create header body len out) (fun _ s' => True ∧ I s') s.
Proof.
  intros Hs Hn. unfold create. apply if_writable_wp; [done|]. intros Hw. pose proof (hk_writes _ _ _ HK Hw) as (_ & _ & Hc & _).
  apply wp_name; [done | done|]. intros name Hname _. to_keeps. fs_step; [apply reply_error_keeps|]. cbv zeta.
  assert (good (join path name)) by (by apply (po_join _ _ _ _ PO)).
  fs_step; [by apply Hc|]. fs_step; [apply reply_error_keeps|].
  fs_step; [by apply (hk_metadata _ _ _ HK) | apply reply_error_keeps|].
  eapply keeps_bind; [by apply get_or_create_inode_keeps|]. intros ino _. eapply keeps_bind; [by apply new_handle_keeps|]. intros fh _.
  eapply keeps_bind; [apply reply_head_keeps|]. intros _ _. eapply keeps_bind; [apply write_entry_keeps|]. intros _ _. repeat fs_step.
Qed.

Lemma mkdir_keeps header body len out s :
  I s → reads_name (at_ body 8) (saturating_sub len 8) s → wp True (mkdir header body len out) (fun _ s' => True ∧ I s') s.
Proof.
  intros Hs Hn. unfold mkdir. apply if_writable_wp; [done|]. intros Hw. pose proof (hk_writes _ _ _ HK Hw) as (Hx & _ & _ & _ & _ & Hc & _).
  apply wp_name; [done | done|]. intros name Hname _. to_keeps. fs_step; [apply reply_error_keeps|]. cbv zeta.
  assert (good (join path name)) by (by apply (po_join _ _ _ _ PO)).
  fs_step; [by apply Hx|]. fs_step; [apply reply_error_keeps|]. fs_step; [by apply Hc|]. fs_step; [apply reply_error_keeps|].
  fs_step; [by apply (hk_metadata _ _ _ HK) | apply reply_error_keeps|].
  eapply keeps_bind; [by apply get_or_create_inode_keeps|]. intros ino _. apply write_entry_out_keeps.
Qed.

Lemma rmdir_keeps header body len out s :
  I s → reads_name body len s → wp True (rmdir header body len out) (fun _ s' => True ∧ I s') s.
Proof.
  intros Hs Hn. unfold rmdir. apply if_writable_wp; [done|]. intros Hw. pose proof (hk_writes _ _ _ HK Hw) as (_ & _ & _ & _ & _ & _ & Hr & _).
  apply wp_name; [done | done|]. intros name Hname _. to_keeps. fs_step; [apply reply_error_keeps|].
  fs_step; [by apply Hr, (po_join _ _ _ _ PO)|]. destruct a; [apply reply_ok_keeps | apply reply_error_keeps].
Qed.

Lemma unlink_keeps header body len out s :
  I s → reads_name body len s → wp True (unlink header body len out) (fun _ s' => True ∧ I s') s.
Proof.
  intros Hs Hn. unfold unlink. apply if_writable_wp; [done|]. intros Hw. pose proof (hk_writes _ _ _ HK Hw) as (_ & _ & _ & _ & _ & _ & _ & Hr & _).
  apply wp_name; [done | done|]. intros name Hname _. to_keeps. fs_step; [apply reply_error_keeps|].
  fs_step; [by apply Hr, (po_join _ _ _ _ PO)|]. fs_step; [apply reply_ok_keeps | apply reply_error_keeps].
Qed.

Lemma setattr_keeps header body out s : I s → wp True (setattr header body out) (fun _ s' => True ∧ I s') s.
Proof.
  intros Hs. unfold setattr. apply if_writable_wp; [done|]. intros Hw. pose proof (hk_writes _ _ _ HK Hw) as (_ & Ho & _ & _ & Hl & _).
  to_keeps. fs_step. fs_step; [apply reply_error_keeps|]. fs_step; [apply getattr_keeps|]. fs_step.
  fs_step; [by apply Ho | apply reply_error_keeps|]. fs_step; [apply Hl|]. fs_step; [apply reply_error_keeps | apply getattr_keeps].
Qed.

(** Where the names of a rename are. *)
Definition rename_start (header : FuseInHeader) : Z := if opcode header =? FUSE_RENAME2 then 12 else 8.
Definition second_name (header : FuseInHeader) (old_name : list Z) : Z :=
  wrapping_add32 (wrapping_add32 (rename_start header) (as_u32 (Z.of_nat (length old_name)))) 1.
Definition reads_two_names (header : FuseInHeader) (body len : Z) (s : Fs * (RamView * Z)) : Prop :=
  reads_name (at_ body (rename_start header)) (saturating_sub len (rename_start header)) s ∧
  ∀ old, read_cstring (at_ body (rename_start header)) (saturating_sub len (rename_start header)) s = Some (old, s) →
    reads_name (at_ body (second_name header old)) (saturating_sub len (second_name header old)) s.

Lemma rename_keeps header body len out s :
  I s → reads_two_names header body len s → wp True (rename header body len out) (fun _ s' => True ∧ I s') s.
Proof.
  intros Hs [Hn1 Hn2]. unfold rename. apply if_writable_wp; [done|]. intros Hw.
  pose proof (hk_writes _ _ _ HK Hw) as (_ & _ & _ & _ & _ & _ & _ & _ & Hr).
  apply wp_bind. unfold r64, on_view at 1. apply wp_zoom. unfold wp at 1, peek at 1. destruct (view_read_u64 body (s.2).1) as [newdir|]; [|done].
  replace ((s.1, s.2)) with s by (by destruct s). cbv zeta. fold (rename_start header).
  apply wp_name; [done | exact Hn1|]. intros old Hold E1. fold (second_name header old).
  apply wp_name; [done | by apply Hn2|]. intros new Hnew _. to_keeps.
  fs_step; [apply reply_error_keeps|]. fs_step; [apply reply_error_keeps|].
  assert (good (join path old)) by (by apply (po_join _ _ _ _ PO)). assert (good (join path0 new)) by (by apply (po_join _ _ _ _ PO)).
  fs_step; [by apply Hr|]. fs_step; [|apply reply_error_keeps]. eapply keeps_bind; [|intros _ _; apply reply_ok_keeps].
  apply mod_fs_keeps. intros d Hd. destruct (find_inode _ d); [|done]. destruct Hd. split; try done. by apply map_Forall_insert_2.
Qed.

(** *** A request *)

(** The names in the body of a request are acceptable. *)
Record request_names (header : FuseInHeader) (body len : Z) (s : Fs * (RamView * Z)) : Prop := {
  rn_lookup : opcode header = FUSE_LOOKUP ∨ opcode header = FUSE_RMDIR ∨ opcode header = FUSE_UNLINK → reads_name body len s;
  rn_create : opcode header = FUSE_CREATE → reads_name (at_ body 16) (saturating_sub len 16) s;
  rn_mkdir : opcode header = FUSE_MKDIR → reads_name (at_ body 8) (saturating_sub len 8) s;
  rn_rename : opcode header = FUSE_RENAME ∨ opcode header = FUSE_RENAME2 → reads_two_names header body len s
}.

Ltac op_case := match goal with |- wp _ (if ?b then _ else _) _ _ => let E := fresh "E" in destruct b eqn:E; [try apply Z.eqb_eq in E | clear E] end.

Lemma dispatch_keeps header rbufs wbufs body len out olen s :
  I s → request_names header body len s →
  wp True (dispatch header rbufs wbufs body len out olen) (fun _ s' => True ∧ I s') s.
Proof.
  intros Hs [Hl Hc Hm Hr]. unfold dispatch. cbv zeta.
  op_case; [by apply init_keeps|].
  op_case; [apply lookup_keeps; [done | apply Hl; by left]|].
  op_case; [by apply getattr_keeps|].
  op_case; [by apply fs_open_keeps|].
  op_case; [by apply fs_read_keeps|].
  op_case; [by apply readdir_keeps|].
  op_case; [by apply readdir_keeps|].
  op_case; [by apply release_keeps|].
  op_case; [by apply statfs_keeps|].
  op_case; [by apply write_data_keeps|].
  op_case; [apply create_keeps; [done | by apply Hc]|].
  op_case; [apply mkdir_keeps; [done | by apply Hm]|].
  op_case; [apply rmdir_keeps; [done | apply Hl; by right; left]|].
  op_case; [apply unlink_keeps; [done | apply Hl; by right; right]|].
  op_case; [apply rename_keeps; [done | apply Hr; apply orb_true_iff in E as [E|E]; apply Z.eqb_eq in E; auto]|].
  op_case; [by apply setattr_keeps|].
  op_case; [by apply reply_ok_keeps|].
  by apply reply_error_keeps.
Qed.

(** *** Tracing changes nothing that is kept *)

Lemma tracer_record_keeps kind fields : kf (tracer_record kind fields) (fun _ => True).
Proof. apply mod_fs_keeps. intros d []. by split. Qed.

Lemma read_cstring_keeps addr len : kf (read_cstring addr len) (fun _ => True).
Proof.
  intros s Hs. unfold wp. destruct (read_cstring addr len s) as [[name s']|] eqn:E; [|done].
  by destruct (read_cstring_same _ _ _ _ _ Hs E) as [-> _].
Qed.

Lemma describe_keeps header body len : kf (describe_request header body len) (fun _ => True).
Proof.
  unfold describe_request, name_at. cbv zeta.
  repeat first
    [ progress fs_step
    | eapply keeps_bind; [apply read_cstring_keeps | intros ? _]
    | eapply keeps_bind; [apply get_any_keeps | intros ? _]
    | match goal with |- keeps _ _ (match ?x with _ => _ end) _ => destruct x end ].
Qed.

Lemma record_request_keeps request header out used : kf (record_request request header out used) (fun _ => True).
Proof.
  assert (Hm : ∀ f : gmap Z TracedHandle -> gmap Z TracedHandle, kf (mod_dev (fun d => d <| traced_handles := f (traced_handles d) |>)) (fun _ => True)).
  { intros f. apply mod_fs_keeps. intros d []. by split. }
  unfold record_request. fs_step. cbv zeta. destruct request; try apply tracer_record_keeps.
  - eapply (keeps_bind _ _ (fun _ => True)); [|intros _ _; apply tracer_record_keeps]. fs_step; [|fs_step]. fs_step. apply (Hm (insert _ _)).
  - fs_step; [|fs_step]. apply (Hm (alter _ _)).
  - fs_step; [|fs_step]. eapply keeps_bind; [apply get_any_keeps|]. intros [t|] _; [|fs_step]. fs_step. apply (Hm (alter _ _)).
  - eapply keeps_bind; [apply get_any_keeps|]. intros [t|] _; [|fs_step].
    eapply keeps_bind; [apply (Hm (delete _))|]. intros _ _. apply tracer_record_keeps.
  - eapply (keeps_bind _ _ (fun _ => True)); [|intros _ _; apply tracer_record_keeps]. fs_step; [|fs_step]. fs_step. apply (Hm (insert _ _)).
Qed.

Lemma finish_request_keeps request header bufs out used : kf (finish_request request header bufs out used) (fun _ => True).
Proof.
  unfold finish_request. eapply (keeps_bind _ _ (fun _ => True)).
  { destruct request; [|fs_step]. fs_step; [apply record_request_keeps | fs_step]. }
  intros _ _. eapply (keeps_bind _ _ (fun r => ∀ b, r = Some b → Forall is_u8 b)).
  { intros [d [v source]] [Hd [Hr Hm Hst]]. unfold wp, take_staging. cbn in *. split; [|split; [done | by split]].
    intros b. destruct (rv_staging v) as [st|]; [|done]. intros [= <-]. by apply Hst. }
  intros reply Hreply. eapply (keeps_bind _ _ (fun _ => True)); [|intros _ _; fs_step].
  destruct reply as [reply|]; [|fs_step]. apply on_view_keeps, scatter_keeps, Forall_take. by apply Hreply.
Qed.

(** The header and the chain. *)
Lemma read_header_keeps addr : kf (read_header addr) (fun _ => True).
Proof. unfold read_header. repeat fs_step. Qed.

Lemma fs_chain_keeps fuel k desc rb wb : kf (fs_chain fuel k desc rb wb) (fun _ => True).
Proof.
  revert desc rb wb. induction fuel as [|fuel IH]; intros desc rb wb; cbn [fs_chain]; [apply panic_keeps|]. cbv zeta.
  fs_step; [fs_step|]. eapply keeps_bind; [apply dev_desc_keeps|]. intros d _. apply IH.
Qed.

Context (any_name : ∀ n, name_ok n).

Lemma fs_process_request_keeps k head : kf (fs_process_request k head) (fun _ => True).
Proof.
  unfold fs_process_request. eapply keeps_bind; [apply dev_desc_keeps|]. intros desc _.
  eapply keeps_bind; [apply fs_chain_keeps|]. intros [rb wb] _. cbv zeta. cbn [fst snd].
  destruct rb as [|[ha hl] rest]; [fs_step|]. destruct (contiguous_reply_window wb) as [[ca cl]|]; [|fs_step].
  fs_step; [fs_step|]. eapply keeps_bind; [apply read_header_keeps|]. intros header _.
  destruct (request_body ha hl rest) as [body len]. eapply (keeps_bind _ _ (fun _ => True)).
  { case_if; [|fs_step]. apply keeps_modify. intros [d [v source]] [Hd [Hr Hm _]]. split; [done|]. split; try done.
    intros st [= <-]. cbn. by apply Forall_replicate. }
  intros _ _. eapply keeps_bind; [apply get_any_keeps|]. intros tracing _. eapply (keeps_bind _ _ (fun _ => True)).
  { destruct tracing; [apply describe_keeps | fs_step]. }
  intros request _. fs_step; [fs_step|]. eapply keeps_bind; [|intros used _; apply finish_request_keeps].
  intros s Hs. apply dispatch_keeps; [done|].
  assert (Hn : ∀ a l, reads_name a l s) by (intros a l name s' _; apply any_name). split; intros; [apply Hn | apply Hn | apply Hn | split; auto].
Qed.

Lemma fs_notify_keeps i : kf (virtio_fs_notify i) (fun _ => True).
Proof.
  unfold virtio_fs_notify. fs_step; [fs_step|]. generalize loop_bound as fuel. intros fuel.
  induction fuel as [|fuel IH]; cbn [fs_notify_loop]; [apply panic_keeps|].
  eapply keeps_bind; [exact (dev_pop_keeps fs_regs set_fs_regs fs_inv fs_inv_get fs_inv_put _)|]. intros [head|] _; [|fs_step].
  eapply keeps_bind; [apply fs_process_request_keeps|]. intros used _.
  eapply keeps_bind; [apply dev_push_used_keeps|]. intros _ _.
  eapply keeps_bind; [exact (raise_interrupt_keeps fs_regs set_fs_regs fs_inv fs_inv_get fs_inv_put)|]. intros _ _. apply IH.
Qed.
End Policy.

(** * Properties

    What the shared directories promise: they are a device the machine can run
    with, a mount that is not writable stays as it is on the host, and the guest
    reaches no path outside the shared directory as long as it sends plain names. *)

Section Device.
Context {LB : LoopBound} {H File : Type} {HF : HostFs H File} {LO : Layouts Z} {HL : HostFsLaws H File}.

#[export] Instance Fs_device : FsDevice (VirtioFs H) := {|
  fs_mmio := fs_regs; set_fs_mmio := set_fs_regs; fs_notify := virtio_fs_notify
|}.

Lemma any_host ms good : HostKeeps ms good (fun _ : H => True).
Proof.
  assert (K : ∀ A (m : ST H A), keeps True (fun _ => True) m (fun _ => True)) by (intros A m h _; by apply wp_intro).
  split; intros; try apply K. repeat split; intros; apply K.
Qed.

Lemma any_policy ms : FsPolicy ms (fun _ => True) (fun _ => True) (fun _ : H => True).
Proof. split; [done | done | apply any_host]. Qed.

Definition fs_wf (d : VirtioFs H) : Prop := fs_inv (mounts d) (fun _ => True) (fun _ => True) d.

Lemma fs_wf_regs d : mmio_wf (fs_regs d) → fs_wf d.
Proof. intros Hm. split; try done; intros ? ? ?; done. Qed.

(** The shared directories keep the promise the machine relies on. *)
#[export] Instance Fs_laws : FsLaws (VirtioFs H).
Proof.
  refine {| fs_ok := fs_wf |}; [done | by intros f [] | intros f m _ Hm; by apply fs_wf_regs |].
  intros i s [Hd Hv]. pose proof (fs_notify_keeps _ _ _ _ (any_policy (mounts s.1)) (fun _ => I) i s (conj Hd Hv)) as K.
  eapply wp_mono; [|exact K]. intros u s' [_ [Hd' Hv']]. split; [done|]. split; [|done]. apply fs_wf_regs. apply Hd'.
Defined.
End Device.

(** ** Mounts that are not writable *)

(** What an observer of the host's files sees, and that looking does not change it. *)
Class ReadsKeep (H File X : Type) {HF : HostFs H File} (contents : H -> X) := {
  rk_metadata p h r h' : fs_metadata p h = Some (r, h') → contents h' = contents h;
  rk_is_dir p h r h' : path_is_dir p h = Some (r, h') → contents h' = contents h;
  rk_open p h r h' : open_read p h = Some (r, h') → contents h' = contents h;
  rk_seek f n h r h' : seek_start f n h = Some (r, h') → contents h' = contents h;
  rk_read f n h r h' : read_some f n h = Some (r, h') → contents h' = contents h;
  rk_read_dir p h r h' : read_dir p h = Some (r, h') → contents h' = contents h;
  rk_entry e h r h' : entry_metadata e h = Some (r, h') → contents h' = contents h
}.

Section ReadOnly.
Context {LB : LoopBound} {H File X : Type} {HF : HostFs H File} {LO : Layouts Z} {HL : HostFsLaws H File}.
Context (contents : H -> X) {RK : ReadsKeep H File X contents}.

Definition read_only (ms : list Mount) : Prop := ∀ m, head ms = Some m → writable m = false.

Lemma read_only_policy ms c : read_only ms → FsPolicy ms (fun _ => True) (fun _ => True) (fun h : H => contents h = c).
Proof.
  intros Hro. assert (K : ∀ A (m : ST H A), (∀ h a h', m h = Some (a, h') → contents h' = contents h) →
    keeps True (fun h => contents h = c) m (fun _ => True)).
  { intros A m Hm h <-. apply wp_intro; [done|]. intros a h' E. split; [done | by eapply Hm]. }
  split; [done | done|]. split; intros; try (apply K; intros; first
    [by eapply rk_metadata | by eapply rk_is_dir | by eapply rk_open | by eapply rk_seek | by eapply rk_read | by eapply rk_read_dir | by eapply rk_entry]).
  destruct H0 as (m & Hm & Hw). by rewrite (Hro m Hm) in Hw.
Qed.

(** C12: a mount that is not writable is safe from the guest.  Whatever
    requests the guest has queued, of whatever kind and with whatever contents,
    serving them leaves the files on the host as they were, and the mount
    unwritable; only looking at files must not change them. *)
Theorem read_only_mount_unchanged queue_index (s s' : VirtioFs H * (RamView * Z)) :
  read_only (mounts s.1) → mmio_wf (fs_regs s.1) → view_inv s.2 →
  virtio_fs_notify queue_index s = Some (tt, s') →
  contents (fs_host s'.1) = contents (fs_host s.1) ∧ mounts s'.1 = mounts s.1.
Proof.
  intros Hro Hm Hv E. pose proof (read_only_policy _ (contents (fs_host s.1)) Hro) as PO.
  assert (Hi : dev_inv (fs_inv (mounts s.1) (fun _ => True) (fun h => contents h = contents (fs_host s.1))) s).
  { split; [|done]. split; try done; intros ? ? ?; done. }
  destruct (wp_elim _ _ _ _ _ (fs_notify_keeps _ _ _ _ PO (fun _ => I) queue_index s Hi) E) as [_ [[_ Hms _ _ Hh] _]]. done.
Qed.
End ReadOnly.

(** ** Paths under the shared directory *)

Lemma split_on_app sep a b : split_on sep (a ++ sep :: b) = split_on sep a ++ split_on sep b.
Proof.
  induction a as [|x a IH]; cbn; [by rewrite Z.eqb_refl|]. destruct (x =? sep); [by rewrite IH|]. rewrite IH.
  by destruct (split_on sep a) as [|piece rest] eqn:E; [destruct a; cbn in E; repeat case_match|].
Qed.

Lemma split_on_one sep a : sep ∉ a → split_on sep a = [a].
Proof.
  induction a as [|x a IH]; [done|]. intros Hn. apply not_elem_of_cons in Hn as [Hx Ha]. cbn.
  rewrite (proj2 (Z.eqb_neq x sep)) by congruence. by rewrite IH.
Qed.

(** A name the guest's kernel would send: one component that does not lead upwards. *)
Definition plain (name : list Z) : Prop := (SLASH ∉ name) ∧ name ≠ [DOT; DOT].

(** [p] is [root] with names below it. *)
Definition confined (root p : list Z) : Prop := p ≠ [] ∧ ∃ names, components p = components root ++ map Normal names.

Lemma plain_component name : plain name → ∃ names, component name = map Normal names.
Proof.
  intros [_ Hd]. unfold component. case_decide; [by exists []|]. case_decide; [by exists []|]. case_decide; [done|]. by exists [name].
Qed.

Lemma split_on_nonempty sep a : split_on sep a ≠ [].
Proof. destruct a as [|x a]; [done|]. cbn. destruct (x =? sep); [done|]. by destruct (split_on sep a). Qed.

(** The front of a path does not depend on what follows it. *)
Lemma front_app p rest : p ≠ [] → front (p ++ SLASH :: rest) = front p.
Proof.
  intros Hp. unfold front, is_absolute. destruct p as [|x p]; [done|]. cbn [app lookup list_lookup].
  case_bool_decide; [done|]. change (x :: p ++ SLASH :: rest) with ((x :: p) ++ SLASH :: rest).
  rewrite split_on_app. destruct (split_on SLASH (x :: p)) as [|piece l] eqn:E; [by apply split_on_nonempty in E | done].
Qed.

Lemma components_app p name : p ≠ [] → SLASH ∉ name → components (p ++ SLASH :: name) = components p ++ component name.
Proof.
  intros Hp Hn. unfold components. rewrite front_app, split_on_app, (split_on_one _ name), map_app by done.
  rewrite join_app, app_assoc. f_equal. cbn. by rewrite app_nil_r.
Qed.

Lemma components_slash p : p ≠ [] → components (p ++ [SLASH]) = components p.
Proof. intros Hp. rewrite components_app by (done || apply not_elem_of_nil). by rewrite app_nil_r. Qed.

Lemma components_join p name : p ≠ [] → SLASH ∉ name → components (join p name) = components p ++ component name.
Proof.
  intros Hp Hn. unfold join.
  assert (Ha : is_absolute name = false).
  { unfold is_absolute. apply bool_decide_eq_false_2. intros E. apply Hn. by apply list_elem_of_lookup_2 in E. }
  rewrite Ha, (bool_decide_eq_false_2 (p = [])), orb_false_r by done. case_bool_decide as E; [|by apply components_app].
  apply last_Some in E as (q & ->). destruct q as [|x q].
  - cbn [app]. unfold components at 1, front, is_absolute. cbn [app lookup list_lookup]. rewrite bool_decide_eq_true_2 by done.
    change (SLASH :: name) with ([] ++ SLASH :: name). rewrite split_on_app, (split_on_one _ name) by done. cbn. by rewrite app_nil_r.
  - rewrite <- app_assoc. cbn [app]. change (x :: q ++ SLASH :: name) with ((x :: q) ++ SLASH :: name).
    change (x :: q ++ [SLASH]) with ((x :: q) ++ [SLASH]). by rewrite components_slash, components_app.
Qed.

Lemma confined_join root p name : confined root p → plain name → confined root (join p name).
Proof.
  intros (Hp & names & E) Hn. split.
  - unfold join. case_if; [by intros ->|]. case_if; by destruct p.
  - destruct (plain_component name Hn) as (more & Em). exists (names ++ more). rewrite components_join by (done || apply Hn).
    by rewrite E, Em, <- app_assoc, map_app.
Qed.

Lemma confined_root root : root ≠ [] → confined root root.
Proof. intros Hr. split; [done|]. exists []. by rewrite app_nil_r. Qed.

Section Confined.
Context {LB : LoopBound} {H File : Type} {HF : HostFs H File} {LO : Layouts Z} {HL : HostFsLaws H File}.
Context (host_ok : H -> Prop).

(** C13: the guest stays in the shared directory.  If the names a
    request carries are plain, then after it every path the device holds for a node
    or a handle is still below the mount's directory; and whatever operations on
    paths below it keep of the host's file system is kept, so no other path
    has been used. *)
Theorem requests_stay_confined m header rbufs wbufs body len out olen (s s' : VirtioFs H * (RamView * Z)) used :
  host_path m ≠ [] →
  HostKeeps [m] (confined (host_path m)) host_ok →
  dev_inv (fs_inv [m] (confined (host_path m)) host_ok) s →
  request_names plain header body len s →
  dispatch header rbufs wbufs body len out olen s = Some (used, s') →
  dev_inv (fs_inv [m] (confined (host_path m)) host_ok) s'.
Proof.
  intros Hr HK Hs Hn E. assert (PO : FsPolicy [m] (confined (host_path m)) plain host_ok).
  { split; [|intros p n; apply confined_join | done]. intros m' [= <-] _. by apply confined_root. }
  by destruct (wp_elim _ _ _ _ _ (dispatch_keeps _ _ _ _ PO header rbufs wbufs body len out olen s Hs Hn) E).
Qed.
End Confined.

(** A name that is not plain leads out of the directory: an absolute one
    replaces the path. *)
Lemma absolute_name_escapes : ¬ confined [SLASH; 115] (join [SLASH; 115] [SLASH; 101]).
Proof. intros (_ & names & E). vm_compute in E. by destruct names. Qed.

(** ** A host and a guest *)

(** A file system of a few files, by path. *)
Module TinyFs.
Definition Host : Type := list (list Z * list Z).

Definition at_path (p : list Z) (h : Host) : option (list Z) := snd <$> List.find (fun e => path_eq e.1 p) h.

#[export] Instance bound : LoopBound := 4%nat.
#[export] Instance layouts : Layouts Z := {| first_slice_len := fun l => length l; hash_order := fun l => l |}.
#[export] Instance tiny : HostFs Host (list Z) := {|
  fs_metadata := fun p h => Some ((fun b => mkMetadata (Z.of_nat (length b)) false) <$> at_path p h, h);
  path_is_dir := fun p h => Some (bool_decide (at_path p h = None), h);
  path_exists := fun p h => Some (bool_decide (at_path p h ≠ None), h);
  open_read := fun p h => Some ((fun _ => p) <$> at_path p h, h);
  open_write := fun p h => Some ((fun _ => p) <$> at_path p h, h);
  create_file := fun p h => Some (true, (p, []) :: h);
  seek_start := fun _ _ h => Some (true, h);
  read_some := fun _ _ h => Some (Ok [], h);
  write_all := fun _ _ h => Some (false, h);
  set_len := fun _ _ h => Some (false, h);
  create_dir := fun _ h => Some (false, h);
  remove_dir := fun _ h => Some (Err None, h);
  remove_file := fun p h => Some (true, List.filter (fun e => negb (path_eq e.1 p)) h);
  rename_path := fun _ _ h => Some (false, h);
  read_dir := fun _ h => Some (Some [], h);
  entry_metadata := fun _ h => Some (None, h)
|}.

#[export] Instance tiny_laws : HostFsLaws Host (list Z).
Proof. split; [intros f n h b h' [= <- _] | intros p h e h' [= <- _]]; constructor. Defined.

#[export] Instance tiny_reads : ReadsKeep Host (list Z) Host (fun h => h).
Proof. split; intros * E; by injection E as _ <-. Defined.
End TinyFs.

Section FsExample.
Import TinyFs.

Definition isSome {A} (o : option A) : bool := match o with Some _ => true | None => false end.

Definition srv : list Z := [SLASH; 115; 114; 118].
Definition srv_a : list Z := srv ++ [SLASH; 97].
Definition demo_host : Host := [(srv_a, [1; 2; 3])].

(** A request of operation [op] on the root, with [name] in its body. *)
Definition request (op : Z) (pad : nat) (name : list Z) : list Z :=
  to_le_bytes 4 64 ++ to_le_bytes 4 op ++ to_le_bytes 8 9 ++ to_le_bytes 8 1 ++ replicate 16 0 ++ replicate pad 0 ++ name ++ [0].

(** Guest memory: two descriptors, an available ring with one chain, a request. *)
Definition image (op : Z) (pad : nat) (name : list Z) : list Z :=
  let desc := to_le_bytes 8 (0x80000000 + 0x100) ++ to_le_bytes 4 64 ++ to_le_bytes 2 1 ++ to_le_bytes 2 1
              ++ to_le_bytes 8 (0x80000000 + 0x200) ++ to_le_bytes 4 256 ++ to_le_bytes 2 2 ++ to_le_bytes 2 0 in
  let mem := desc ++ replicate 32 0 ++ to_le_bytes 2 0 ++ to_le_bytes 2 1 ++ to_le_bytes 2 0 in
  let mem := mem ++ replicate (256 - length mem) 0 ++ request op pad name in
  mem ++ replicate (Z.to_nat 8192 - length mem) 0.

Definition fs_ram (op : Z) (pad : nat) (name : list Z) : CowRam := mkCow (image op pad name) [None; None] 4104 4095 1 [] [].
Definition fs_view (op : Z) (pad : nat) (name : list Z) : RamView * Z := (view_new (fs_ram op pad name) 4095, 1).

Definition fs_device (may_write : bool) : VirtioFs Host :=
  let d := new_single (mkMount srv [] may_write) [] demo_host in
  let q := mkQueue true 8 0 0x80000000 (0x80000000 + 0x40) (0x80000000 + 0x80) in
  set_fs_regs ((fs_regs d) <| queues := <[1%nat := q]> (queues (fs_regs d)) |>) d.

Lemma fs_ram_wf op pad name : length (image op pad name) = Z.to_nat 8192 → Forall is_u8 (image op pad name) → cow_wf (fs_ram op pad name).
Proof. intros Hl Hb. apply (shared_ram_flat _ 2); [done | | done]. cbn [cow_base fs_ram]. rewrite Hl. done. Qed.

Lemma fs_view_ok op pad name :
  length (image op pad name) = Z.to_nat 8192 → Forall is_u8 (image op pad name) → view_inv (fs_view op pad name).
Proof. intros Hl Hb. split; [|done|done]. split; [by apply fs_ram_wf|]. split; [done | constructor]. Qed.

Lemma fs_device_regs w : mmio_wf (fs_regs (fs_device w)).
Proof. split; try done; [repeat (constructor; [done|]); constructor | split; [done | by apply const_bytes]]. Qed.

(** The guest asks to create a file on a mount that is not writable. *)
Lemma read_only_mount_unchanged_witness :
  ∃ s', virtio_fs_notify 1 (fs_device false, fs_view FUSE_CREATE 16 [97]) = Some (tt, s') ∧ fs_host s'.1 = demo_host.
Proof.
  destruct (virtio_fs_notify 1 (fs_device false, fs_view FUSE_CREATE 16 [97])) as [[[] s']|] eqn:E.
  - exists s'. split; [done|].
    destruct (read_only_mount_unchanged (fun h => h) 1 (fs_device false, fs_view FUSE_CREATE 16 [97]) s') as [Hc _];
      [by intros m [= <-] | apply fs_device_regs | apply fs_view_ok; [vm_compute; reflexivity | by apply const_bytes] | exact E|].
    exact Hc.
  - exfalso. assert (K : isSome (virtio_fs_notify 1 (fs_device false, fs_view FUSE_CREATE 16 [97])) = true) by (vm_compute; reflexivity).
    by rewrite E in K.
Defined.

(** The guest looks a name up. *)
Definition lookup_header : FuseInHeader := mkHeader FUSE_LOOKUP 9 1 0.

Definition lookup_state : VirtioFs Host * (RamView * Z) := (fs_device true, fs_view FUSE_LOOKUP 0 [97]).

Lemma lookup_state_ok : dev_inv (fs_inv [mkMount srv [] true] (confined srv) (fun _ : Host => True)) lookup_state.
Proof.
  split; [|apply fs_view_ok; [vm_compute; reflexivity | by apply const_bytes]].
  split; [apply fs_device_regs | done | intros ? ? ?; done | intros ? ? ?; done | done].
Qed.

Lemma lookup_names : request_names plain lookup_header (0x80000000 + 0x128) 24 lookup_state.
Proof.
  split; [|done | done | by intros [|]]. intros _ name s1 En.
  assert (K : fst <$> read_cstring (0x80000000 + 0x128) 24 lookup_state = Some [97]) by (vm_compute; reflexivity).
  rewrite En in K. injection K as ->. split; [|done]. apply not_elem_of_cons. split; [done | apply not_elem_of_nil].
Qed.

Lemma lookup_runs : isSome (dispatch lookup_header [] [] (0x80000000 + 0x128) 24 (0x80000000 + 0x200) 256 lookup_state) = true.
Proof. vm_compute. reflexivity. Qed.

Lemma requests_stay_confined_witness :
  ∃ used s', dispatch lookup_header [] [] (0x80000000 + 0x128) 24 (0x80000000 + 0x200) 256 lookup_state = Some (used, s') ∧
    map_Forall (fun _ => confined srv) (inodes s'.1).
Proof.
  pose proof lookup_runs as K.
  destruct (dispatch lookup_header [] [] (0x80000000 + 0x128) 24 (0x80000000 + 0x200) 256 lookup_state) as [[used s']|] eqn:E; [|discriminate K].
  exists used, s'. split; [reflexivity|].
  assert (Hr : host_path (mkMount srv [] true) ≠ []) by discriminate.
  exact (fi_inodes _ _ _ _ (proj1 (requests_stay_confined (fun _ : Host => True) (mkMount srv [] true) lookup_header [] []
    (0x80000000 + 0x128) 24 (0x80000000 + 0x200) 256 lookup_state s' used Hr (any_host _ _) lookup_state_ok lookup_names E))).
Defined.
End FsExample.
