(* ===== verification/Text.v ===== *)
(** Strings: what [str] and slices of the standard library do, on bytes.

    A [str] is its UTF-8 bytes; the functions that look at characters do so through
    their encodings. *)
From S2P Require Import Prelude Words SyscallTrace HostFs Dns.

Fixpoint starts_with (pat l : list Z) : bool :=
  match pat, l with
  | [], _ => true
  | _ :: _, [] => false
  | x :: pat, y :: l => (x =? y) && starts_with pat l
  end.

(** [find] of a string, [windows(n).position(..)] of a slice that is not empty. *)
Fixpoint find_sub (pat l : list Z) : option nat :=
  if starts_with pat l then Some 0%nat
  else match l with
       | [] => None
       | _ :: l => S <$> find_sub pat l
       end.

Definition contains_sub (pat l : list Z) : bool := bool_decide (find_sub pat l ≠ None).

(** [split(pat)] for a string [pat] that is not empty: pieces between occurrences. *)
Fixpoint split_sub_loop (fuel : nat) (pat l : list Z) : list (list Z) :=
  match fuel with
  | O => [l]
  | S fuel =>
      match find_sub pat l with
      | None => [l]
      | Some i => take i l :: split_sub_loop fuel pat (drop (i + length pat) l)
      end
  end.
Definition split_sub (pat l : list Z) : list (list Z) := split_sub_loop (length l) pat l.

(** [split_once(c)] *)
Fixpoint split_once (c : Z) (l : list Z) : option (list Z * list Z) :=
  match l with
  | [] => None
  | x :: l => if x =? c then Some ([], l) else (fun p => (x :: p.1, p.2)) <$> split_once c l
  end.

Definition strip_prefix_str (pat l : list Z) : option (list Z) :=
  if starts_with pat l then Some (drop (length pat) l) else None.

Definition ascii_lower (b : Z) : Z := if (65 <=? b) && (b <=? 90) then b + 32 else b.
Definition eq_ignore_ascii_case (a b : list Z) : bool := bool_decide (map ascii_lower a = map ascii_lower b).
Definition is_ascii_uppercase (b : Z) : bool := (65 <=? b) && (b <=? 90).

(** The encodings of the characters [char::is_whitespace] holds of. *)
Definition whitespace : list (list Z) :=
  [[9]; [10]; [11]; [12]; [13]; [32]; [0xC2; 0x85]; [0xC2; 0xA0]; [0xE1; 0x9A; 0x80];
   [0xE2; 0x80; 0x80]; [0xE2; 0x80; 0x81]; [0xE2; 0x80; 0x82]; [0xE2; 0x80; 0x83]; [0xE2; 0x80; 0x84]; [0xE2; 0x80; 0x85];
   [0xE2; 0x80; 0x86]; [0xE2; 0x80; 0x87]; [0xE2; 0x80; 0x88]; [0xE2; 0x80; 0x89]; [0xE2; 0x80; 0x8A];
   [0xE2; 0x80; 0xA8]; [0xE2; 0x80; 0xA9]; [0xE2; 0x80; 0xAF]; [0xE2; 0x81; 0x9F]; [0xE3; 0x80; 0x80]].

Fixpoint trim_loop (fuel : nat) (blanks : list (list Z)) (l : list Z) : list Z :=
  match fuel with
  | O => l
  | S fuel =>
      match List.find (fun w => starts_with w l) blanks with
      | Some w => trim_loop fuel blanks (drop (length w) l)
      | None => l
      end
  end.
Definition trim_start (l : list Z) : list Z := trim_loop (length l) whitespace l.
Definition trim_end (l : list Z) : list Z := rev (trim_loop (length l) (map (@rev Z) whitespace) (rev l)).
Definition trim (l : list Z) : list Z := trim_end (trim_start l).

(** [parse::<u64>()]: digits, after a plus sign if there is one. *)
Fixpoint digits_value (l : list Z) (acc : Z) : option Z :=
  match l with
  | [] => Some acc
  | d :: l =>
      if (48 <=? d) && (d <=? 57) then
        let acc := acc * 10 + (d - 48) in
        if acc <? 2 ^ 64 then digits_value l acc else None
      else None
  end.
Definition parse_u64 (l : list Z) : option Z :=
  match l with
  | [] => None
  | 43 :: rest => if decide (rest = []) then None else digits_value rest 0
  | _ => digits_value l 0
  end.

(** [replace(from, to)]: every occurrence, from left to right; an empty [from]
    is found at every boundary of characters. *)
Fixpoint replace_loop (fuel : nat) (from to l : list Z) : list Z :=
  match fuel with
  | O => l
  | S fuel =>
      match find_sub from l with
      | None => l
      | Some i => take i l ++ to ++ replace_loop fuel from to (drop (i + length from) l)
      end
  end.
Fixpoint interleave (fuel : nat) (to l : list Z) : list Z :=
  match fuel, l with
  | S fuel, _ :: _ => let n := (utf8_chunk l).2 in to ++ take n l ++ interleave fuel to (drop n l)
  | _, _ => to
  end.
Definition replace (from to l : list Z) : list Z :=
  if decide (from = []) then interleave (length l) to l else replace_loop (length l) from to l.
