(* ===== verification/Secrets.v ===== *)
(** Secrets on their way out ([machine/src/virtio/secrets.rs]): placeholders in the
    heads of requests are replaced by the secrets they stand for, on connections
    to the hosts they are meant for, and refused on others.

    The connection is followed as HTTP: [Substitution] is a state machine fed with
    the bytes in whatever pieces they arrive. *)
From Stdlib Require Import String.
From S2P Require Import Prelude Words Dtb Dns HostFs Text.

Record SecretBinding := mkBinding { placeholder : list Z; secret_value : list Z; hosts : list (list Z) }.

Definition MAX_HEAD_BYTES : Z := 64 * 1024.

Record Refused := mkRefused { refused_placeholder : list Z; refused_host : list Z }.

Inductive Phase : Type := Head (head : list Z) | Body (remaining : Z) | Opaque.
#[export] Instance Phase_eq_dec : EqDecision Phase.
Proof. solve_decision. Defined.

Record Substitution := mkSub {
  allowed : list SecretBinding;
  forbidden : list (list Z);
  sub_host : list Z;
  phase : Phase
}.
#[export] Instance Substitution_eta : Eta Substitution := fun s => mkSub (allowed s) (forbidden s) (sub_host s) (phase s).

Definition CRLF : list Z := [13; 10].
Definition head_end : list Z := [13; 10; 13; 10].

Definition host_matches (pattern host : list Z) : bool :=
  match strip_prefix_str [42; 46] pattern with
  | Some suffix =>
      match split_once 46 host with
      | Some (_, rest) => eq_ignore_ascii_case rest suffix
      | None => false
      end
  | None => eq_ignore_ascii_case pattern host
  end.

Definition find_head_end (bytes : list Z) : option nat := (fun start => (start + 4)%nat) <$> find_sub head_end bytes.

Definition contains (haystack needle : list Z) : bool :=
  negb (bool_decide (needle = [])) && contains_sub needle haystack.

(** The loop over the header lines; an error of [parse] ends it. *)
Fixpoint header_length (lines : list (list Z)) (length : Z) : option Z :=
  match lines with
  | [] => Some length
  | line :: lines =>
      match split_once 58 line with
      | None => header_length lines length
      | Some (name, value) =>
          if eq_ignore_ascii_case name (as_bytes "transfer-encoding") then None
          else if eq_ignore_ascii_case name (as_bytes "content-length") then
            length ← parse_u64 (trim value); header_length lines length
          else header_length lines length
      end
  end.

(** The request line is a method in capitals, a target and a version. *)
Definition request_line_ok (line : list Z) : bool :=
  match split_on 32 line with
  | [method; _; version] =>
      starts_with (as_bytes "HTTP/1.") version && negb (bool_decide (method = [])) && forallb is_ascii_uppercase method
  | _ => false
  end.

Definition body_length (head : list Z) : option Z :=
  match split_sub CRLF head with
  | [] => None
  | request_line :: lines => if request_line_ok request_line then header_length lines 0 else None
  end.

Definition for_host (bindings : list SecretBinding) (host : list Z) : option Substitution :=
  if decide (bindings = []) then None
  else
    let allows b := existsb (fun name => host_matches name host) (hosts b) in
    Some (mkSub (List.filter allows bindings)
                (map placeholder (List.filter (fun b => negb (allows b)) bindings)) host (Head [])).

Definition refuse_forbidden (bytes : list Z) (s : Substitution) : option Refused :=
  (fun p => mkRefused p (sub_host s)) <$> List.find (fun p => contains bytes p) (forbidden s).

(** [rewritten.replace(..)] for every allowed binding. *)
Definition substitute (bindings : list SecretBinding) (text : list Z) : list Z :=
  foldl (fun text b => if contains_sub (placeholder b) text then replace (placeholder b) (secret_value b) text else text) text bindings.

Definition rewrite_head (head : list Z) (s : Substitution) : list Z * option Z :=
  if utf8_valid head then (substitute (allowed s) head, body_length head) else (head, None).

(** The loop of [feed]: an error leaves the state as it is then. *)
Fixpoint feed_loop (fuel : nat) (pending out : list Z) (s : Substitution) : option (Result (list Z) Refused * Substitution) :=
  match fuel with
  | O => None
  | S fuel =>
      match phase s with
      | Opaque =>
          match refuse_forbidden pending s with
          | Some r => Some (Err r, s)
          | None => Some (Ok (out ++ pending), s)
          end
      | Body remaining =>
          let n := Z.to_nat (Z.min remaining (Z.of_nat (length pending))) in
          let out := out ++ take n pending in
          let remaining := remaining - Z.of_nat n in
          let pending := drop n pending in
          if 0 <? remaining then Some (Ok out, s <| phase := Body remaining |>)
          else
            let s := s <| phase := Head [] |> in
            if decide (pending = []) then Some (Ok out, s) else feed_loop fuel pending out s
      | Head head =>
          let head := head ++ pending in
          match find_head_end head with
          | None =>
              if MAX_HEAD_BYTES <? Z.of_nat (length head) then Some (Err (mkRefused [] (sub_host s)), s <| phase := Head head |>)
              else Some (Ok out, s <| phase := Head head |>)
          | Some end_ =>
              let rest := drop end_ head in
              let head := take end_ head in
              let s := s <| phase := Head [] |> in
              match refuse_forbidden head s with
              | Some r => Some (Err r, s)
              | None =>
                  let (rewritten, body) := rewrite_head head s in
                  let out := out ++ rewritten in
                  let s := s <| phase := match body with Some length => Body length | None => Opaque end |> in
                  if bool_decide (rest = []) && negb (bool_decide (phase s = Opaque)) then Some (Ok out, s)
                  else feed_loop fuel rest out s
              end
          end
      end
  end.

(** Two rounds take at least four bytes. *)
Definition feed (bytes : list Z) (s : Substitution) : option (Result (list Z) Refused * Substitution) :=
  let held := match phase s with Head head => length head | _ => 0%nat end in
  feed_loop (held + length bytes + 3) bytes [] s.

(** * Properties

    Secrets reach the hosts they are meant for and no others, and how the bytes
    of a connection are cut into pieces does not matter. *)

(** ** Searching *)

Lemma starts_with_app pat l l2 : (length pat <= length l)%nat → starts_with pat (l ++ l2) = starts_with pat l.
Proof.
  revert l. induction pat as [|x pat IH]; intros l Hl; [done|]. destruct l as [|y l]; [cbn in Hl; lia|].
  cbn. rewrite IH; [done|]. cbn in Hl. lia.
Qed.

Lemma starts_with_length pat l : starts_with pat l = true → (length pat <= length l)%nat.
Proof.
  revert l. induction pat as [|x pat IH]; intros l; cbn; [lia|]. destruct l as [|y l]; [done|].
  intros E. apply andb_true_iff in E as [_ E]. apply IH in E. cbn. lia.
Qed.

Lemma find_sub_length pat l i : find_sub pat l = Some i → (i + length pat <= length l)%nat.
Proof.
  revert i. induction l as [|x l IH]; intros i; cbn [find_sub].
  - destruct (starts_with pat []) eqn:E; [|done]. intros [= <-]. apply starts_with_length in E. done.
  - destruct (starts_with pat (x :: l)) eqn:E.
    + intros [= <-]. apply starts_with_length in E. done.
    + destruct (find_sub pat l) as [j|]; [|done]. intros [= <-]. specialize (IH j eq_refl). cbn. lia.
Qed.

(** An occurrence stays the first one when the list grows. *)
Lemma find_sub_app pat l l2 i : find_sub pat l = Some i → find_sub pat (l ++ l2) = Some i.
Proof.
  revert i. induction l as [|x l IH]; intros i.
  - cbn [find_sub]. destruct (starts_with pat []) eqn:E; [|done]. intros [= <-]. destruct pat; [by destruct l2|done].
  - cbn [find_sub app]. destruct (starts_with pat (x :: l)) eqn:E.
    + change (x :: l ++ l2) with ((x :: l) ++ l2). rewrite starts_with_app, E; [done|]. by apply starts_with_length.
    + destruct (find_sub pat l) as [j|] eqn:Ef; [|done]. intros [= <-]. change (x :: l ++ l2) with ((x :: l) ++ l2).
      apply find_sub_length in Ef as Hl. rewrite starts_with_app, E by (cbn; lia). cbn [app]. by rewrite (IH j eq_refl).
Qed.

Lemma find_head_end_app l l2 n : find_head_end l = Some n → find_head_end (l ++ l2) = Some n.
Proof.
  unfold find_head_end. destruct (find_sub head_end l) as [i|] eqn:E; [|done]. intros [= <-]. by rewrite (find_sub_app _ _ _ _ E).
Qed.

Lemma find_head_end_bound l n : find_head_end l = Some n → (4 <= n <= length l)%nat.
Proof.
  unfold find_head_end. destruct (find_sub head_end l) as [i|] eqn:E; [|done]. intros [= <-]. apply find_sub_length in E. cbn in E. lia.
Qed.

(** ** The loop *)

Definition held (s : Substitution) : list Z := match phase s with Head head => head | _ => [] end.
Definition phase_ok (s : Substitution) : Prop := match phase s with Body n => 0 <= n | _ => True end.

(** What a round may still take, and whether it must take something. *)
Definition work (pending : list Z) (s : Substitution) : nat :=
  match phase s with
  | Head head => length head + length pending + 1
  | Body _ => length pending + 2
  | Opaque => 1
  end.

Lemma feed_loop_mono n m pending out s r : (n <= m)%nat → feed_loop n pending out s = Some r → feed_loop m pending out s = Some r.
Proof.
  revert m pending out s. induction n as [|n IH]; intros m pending out s Hm; [done|]. destruct m as [|m]; [lia|].
  cbn [feed_loop]. assert (Hle : (n <= m)%nat) by lia. destruct (phase s) as [head|remaining|]; [| |done].
  - cbv zeta. destruct (find_head_end (head ++ pending)); [|done]. destruct (refuse_forbidden _ _); [done|].
    destruct (rewrite_head _ _) as [rw body]. case_if; [done|]. by apply IH.
  - cbv zeta. case_if; [done|]. case_match; [done|]. by apply IH.
Qed.

(** Enough rounds give a result. *)
Lemma feed_loop_total n pending out s : (work pending s <= n)%nat → ∃ r s', feed_loop n pending out s = Some (r, s').
Proof.
  revert pending out s. induction n as [|n IH]; intros pending out s Hn; [unfold work in Hn; destruct (phase s); lia|].
  cbn [feed_loop]. unfold work in Hn. destruct (phase s) as [head|remaining|].
  - cbv zeta. destruct (find_head_end (head ++ pending)) as [e|] eqn:Ee; [|case_if; eauto].
    apply find_head_end_bound in Ee. rewrite length_app in Ee. destruct (refuse_forbidden _ _); [eauto|].
    destruct (rewrite_head _ _) as [rw body]. case_if; [eauto|]. apply IH. unfold work. cbn.
    destruct body; rewrite ?length_drop, ?length_app; lia.
  - cbv zeta. case_if; [eauto|]. case_match; [eauto|]. apply IH. unfold work. cbn. rewrite length_drop. lia.
  - destruct (refuse_forbidden _ _); eauto.
Qed.

Lemma feed_total bytes s : ∃ r s', feed bytes s = Some (r, s').
Proof. apply feed_loop_total. unfold work. destruct (phase s); lia. Qed.

Lemma feed_is n bytes s r : feed_loop n bytes [] s = Some r → feed bytes s = Some r.
Proof.
  intros E. destruct (feed_total bytes s) as (r' & s' & E'). rewrite E'. unfold feed in E'.
  set (m := (_ + 3)%nat) in E'. apply (feed_loop_mono _ (Nat.max n m)) in E; [|lia]. apply (feed_loop_mono _ (Nat.max n m)) in E'; [|lia].
  congruence.
Qed.

(** What was put out before does not matter. *)
Lemma feed_loop_out n pending out s r s' :
  feed_loop n pending out s = Some (r, s') →
  ∀ pre, feed_loop n pending (pre ++ out) s = Some (match r with Ok o => Ok (pre ++ o) | Err e => Err e end, s').
Proof.
  revert pending out s. induction n as [|n IH]; intros pending out s E pre; [done|]. revert E. cbn [feed_loop].
  destruct (phase s) as [head|remaining|].
  - cbv zeta. destruct (find_head_end (head ++ pending)); [|case_if; by intros [= <- <-]].
    destruct (refuse_forbidden _ _); [by intros [= <- <-]|]. destruct (rewrite_head _ _) as [rw body].
    case_if; [intros [= <- <-]; by rewrite <- app_assoc|]. intros E1. rewrite <- app_assoc. by apply IH.
  - cbv zeta. case_if; [intros [= <- <-]; by rewrite <- app_assoc|]. destruct (decide _); [intros [= <- <-]; by rewrite <- app_assoc|].
    intros E1. rewrite <- app_assoc. by apply IH.
  - destruct (refuse_forbidden _ _); intros [= <- <-]; [done | by rewrite <- app_assoc].
Qed.

(** *** Pieces *)

Lemma refuse_none bytes s : forbidden s = [] → refuse_forbidden bytes s = None.
Proof. intros Hf. unfold refuse_forbidden. by rewrite Hf. Qed.

(** Two pieces one after the other, and at once. *)
Lemma feed_loop_split n m a b out s o1 s1 r2 s2 :
  forbidden s = [] → b ≠ [] →
  feed_loop n a out s = Some (Ok o1, s1) → feed_loop m b o1 s1 = Some (r2, s2) →
  ∃ k, feed_loop k (a ++ b) out s = Some (r2, s2).
Proof.
  intros Hf Hb. revert a out s Hf. induction n as [|n IH]; intros a out s Hf E1 E2; [done|]. revert E1. cbn [feed_loop].
  destruct (phase s) as [head|remaining|] eqn:Eph.
  - cbv zeta. destruct (find_head_end (head ++ a)) as [e|] eqn:Ee.
    + rewrite refuse_none by done. destruct (rewrite_head (take e (head ++ a)) (s <| phase := Head [] |>)) as [rw body] eqn:Er.
      pose proof (find_head_end_bound _ _ Ee) as Hbd. set (s' := s <| phase := Head [] |> <| phase := _ |>).
      assert (Hstep : ∀ k, feed_loop (S k) (a ++ b) out s = feed_loop k (drop e (head ++ a) ++ b) (out ++ rw) s').
      { intros k. cbn [feed_loop]. rewrite Eph. cbv zeta. rewrite app_assoc, (find_head_end_app _ _ _ Ee), take_app_le, drop_app_le by lia.
        rewrite refuse_none by done. rewrite Er. rewrite bool_decide_eq_false_2; [done|]. by destruct (drop e (head ++ a)). }
      destruct (bool_decide _ && _) eqn:C.
      * intros [= <- <-]. apply andb_true_iff in C as [C _]. apply bool_decide_eq_true_1 in C. exists (S m). rewrite Hstep, C. exact E2.
      * intros E1. destruct (IH (drop e (head ++ a)) _ s' Hf E1 E2) as (k & Ek). exists (S k). by rewrite Hstep.
    + case_if; [done|]. intros [= <- <-]. exists m. destruct m as [|m]; [done|].
      revert E2. cbn [feed_loop]. rewrite Eph. cbn. by rewrite app_assoc.
  - cbv zeta. set (j := Z.to_nat (Z.min remaining (Z.of_nat (length a)))). case_if.
    + intros [= <- <-]. exists m. destruct m as [|m]; [done|]. revert E2. cbn [feed_loop]. rewrite Eph. cbn. bools.
      assert (Ej : j = length a) by lia. rewrite Ej, take_ge in * by lia. clear Ej.
      set (i := Z.to_nat (Z.min (remaining - Z.of_nat (length a)) (Z.of_nat (length b)))).
      replace (Z.to_nat (Z.min remaining (Z.of_nat (length (a ++ b))))) with (length a + i)%nat by (rewrite length_app; lia).
      rewrite take_app_add, drop_app_add, app_assoc.
      by replace (remaining - Z.of_nat (length a + i)) with (remaining - Z.of_nat (length a) - Z.of_nat i) by lia.
    + bools. assert (Hj : (j <= length a)%nat) by lia.
      assert (Hstep : ∀ k, feed_loop (S k) (a ++ b) out s = feed_loop k (drop j a ++ b) (out ++ take j a) (s <| phase := Head [] |>)).
      { intros k. cbn [feed_loop]. rewrite Eph. cbv zeta.
        replace (Z.to_nat (Z.min remaining (Z.of_nat (length (a ++ b))))) with j by (rewrite length_app; lia).
        rewrite take_app_le, drop_app_le by lia. rewrite (proj2 (Z.ltb_ge _ _)) by lia.
        destruct (decide (drop j a ++ b = [])) as [D|]; [by destruct (drop j a) | done]. }
      destruct (decide (drop j a = [])) as [D|D].
      * intros [= <- <-]. exists (S m). rewrite Hstep, D. exact E2.
      * intros E1. edestruct (IH (drop j a)) as (k & Ek); [| exact E1 | exact E2 | exists (S k); by rewrite Hstep]. done.
  - rewrite !refuse_none by done. intros [= <- <-]. exists m. destruct m as [|m]; [done|]. revert E2. cbn [feed_loop]. rewrite Eph.
    rewrite !refuse_none by done. by rewrite app_assoc.
Qed.

(** The outcome of a piece after [sent] went out. *)
Definition with_sent (sent : list Z) {E} (r : Result (list Z) E) : Result (list Z) E :=
  match r with Ok more => Ok (sent ++ more) | Err e => Err e end.

(** Where nothing is forbidden, only a head without end is refused. *)
Definition endless (s : Substitution) : Prop :=
  ∃ head, phase s = Head head ∧ find_head_end head = None ∧ MAX_HEAD_BYTES < Z.of_nat (length head).

Lemma feed_loop_refused n : ∀ pending out s r s',
  forbidden s = [] → feed_loop n pending out s = Some (Err r, s') → refused_placeholder r = [] ∧ endless s'.
Proof.
  induction n as [|n IH]; intros pending out s r s' Hf; cbn [feed_loop]; [done|]. destruct (phase s) as [head|remaining|] eqn:Eph.
  - cbv zeta. destruct (find_head_end (head ++ pending)) as [k|] eqn:Ek.
    + rewrite refuse_none by done. destruct (rewrite_head _ _) as [rw body]. case_if; [done|]. by apply IH.
    + case_if; [|done]. intros [= <- <-]. split; [done|]. exists (head ++ pending). split; [done|]. split; [done|]. by bools.
  - cbv zeta. case_if; [done|]. case_decide; [done|]. by apply IH.
  - by rewrite refuse_none.
Qed.

(** C37: how the bytes arrive does not matter.  On a connection
    where nothing is forbidden, when a first piece has gone through, feeding the next
    gives the same bytes and the same state as feeding the two at once, however the
    first piece cuts a head, a placeholder or a body.  A first piece that does not go
    through has left more than [MAX_HEAD_BYTES] of a head whose end is still missing. *)
Theorem pieces_do_not_matter a b s r1 s1 r2 s2 :
  forbidden s = [] → b ≠ [] → feed a s = Some (r1, s1) → feed b s1 = Some (r2, s2) →
  match r1 with
  | Ok o1 => feed (a ++ b) s = Some (with_sent o1 r2, s2)
  | Err r => refused_placeholder r = [] ∧ endless s1
  end.
Proof.
  intros Hf Hb E1 E2. destruct r1 as [o1|r]; [|by eapply feed_loop_refused].
  unfold with_sent. unfold feed at 1 in E2. apply (feed_loop_out _ _ _ _ _ _) with (pre := o1) in E2. rewrite app_nil_r in E2.
  destruct (feed_loop_split _ _ _ _ _ _ _ _ _ _ Hf Hb E1 E2) as (k & Ek). by apply feed_is in Ek.
Qed.

(** ** Secrets *)

(** The secrets of two lists of bindings differ only where the host is not named. *)
Record same_for (host : list Z) (b1 b2 : SecretBinding) : Prop := {
  sf_placeholder : placeholder b1 = placeholder b2;
  sf_hosts : hosts b1 = hosts b2;
  sf_value : existsb (fun name => host_matches name host) (hosts b1) = true → secret_value b1 = secret_value b2
}.

(** A substitution for [host] is made of what is meant for [host]. *)
Lemma for_host_same host bs1 bs2 : Forall2 (same_for host) bs1 bs2 → for_host bs1 host = for_host bs2 host.
Proof.
  intros Hs. unfold for_host. destruct (decide (bs1 = [])) as [->|Hn].
  - apply Forall2_nil_inv_l in Hs as ->. done.
  - destruct (decide (bs2 = [])) as [->|_]; [by apply Forall2_nil_inv_r in Hs|]. cbv zeta. do 2 f_equal.
    + clear Hn. induction Hs as [|b1 b2 bs1 bs2 [Hp Hh Hv] _ IH]; [done|]. cbn. rewrite <- Hh.
      destruct (existsb _ (hosts b1)) eqn:E; [|done]. f_equal; [|done]. destruct b1, b2. cbn in *. subst. f_equal. by apply Hv.
    + clear Hn. induction Hs as [|b1 b2 bs1 bs2 [Hp Hh Hv] _ IH]; [done|]. cbn. rewrite <- Hh.
      destruct (existsb _ (hosts b1)) eqn:E; cbn; [done|]. by rewrite Hp, IH.
Qed.

(** The states a connection goes through. *)
Inductive fed (s : Substitution) : Substitution -> Prop :=
| fed_start : fed s s
| fed_more s1 bytes out s2 : fed s s1 → feed bytes s1 = Some (Ok out, s2) → fed s s2.

Record same_rules (s s' : Substitution) : Prop := {
  sr_allowed : allowed s' = allowed s;
  sr_forbidden : forbidden s' = forbidden s;
  sr_host : sub_host s' = sub_host s
}.

Lemma feed_loop_rules n pending out s r s' : feed_loop n pending out s = Some (r, s') → same_rules s s'.
Proof.
  revert pending out s. induction n as [|n IH]; intros pending out s; [done|]. cbn [feed_loop].
  assert (Hph : ∀ p s0, same_rules (s <| phase := p |>) s0 → same_rules s s0) by (intros p s0 []; by split).
  destruct (phase s) as [head|remaining|].
  - cbv zeta. destruct (find_head_end _); [|case_if; intros [= <- <-]; by split]. destruct (refuse_forbidden _ _); [intros [= <- <-]; by split|].
    destruct (rewrite_head _ _) as [rw body]. case_if; [intros [= <- <-]; by split|]. intros E1. apply IH in E1. destruct E1; by split.
  - cbv zeta. case_if; [intros [= <- <-]; by split|]. destruct (decide _); [intros [= <- <-]; by split|]. intros E1. apply IH in E1.
    by apply Hph in E1.
  - destruct (refuse_forbidden _ _); intros [= <- <-]; by split.
Qed.

Lemma fed_rules s s' : fed s s' → same_rules s s'.
Proof.
  induction 1 as [|s1 bytes out s2 _ [A1 A2 A3] E]; [done|]. apply feed_loop_rules in E as []. split; congruence.
Qed.

(** Without a secret for the host, what comes out is what went in. *)
Lemma feed_loop_verbatim n pending out s o s' :
  allowed s = [] → feed_loop n pending out s = Some (Ok o, s') → out ++ held s ++ pending = o ++ held s'.
Proof.
  revert pending out s. induction n as [|n IH]; intros pending out s Ha; [done|]. cbn [feed_loop]. unfold held at 1.
  destruct (phase s) as [head|remaining|] eqn:Eph.
  - cbv zeta. destruct (find_head_end _) as [e|].
    + destruct (refuse_forbidden _ _); [done|].
      assert (Hrw : ∀ h, rewrite_head h (s <| phase := Head [] |>) = (h, if utf8_valid h then body_length h else None)).
      { intros h. unfold rewrite_head. cbn. rewrite Ha. by destruct (utf8_valid h). }
      rewrite Hrw. set (s2 := s <| phase := Head [] |> <| phase := _ |>).
      assert (Hh2 : held s2 = []) by (unfold s2, held; cbn; by repeat case_match).
      destruct (bool_decide _ && _) eqn:C.
      * intros [= <- <-]. apply andb_true_iff in C as [C _]. apply bool_decide_eq_true_1 in C.
        rewrite Hh2, app_nil_r. by rewrite <- (take_drop e (head ++ pending)), C, app_nil_r at 1.
      * intros E2. apply IH in E2; [|done]. rewrite Hh2 in E2. rewrite <- E2. cbn [app]. by rewrite <- app_assoc, take_drop.
    + case_if; [done|]. intros [= <- <-]. done.
  - cbv zeta. set (j := Z.to_nat _). case_if.
    + intros [= <- <-]. bools. unfold held. cbn. rewrite app_nil_r, take_ge by lia. done.
    + destruct (decide (drop j pending = [])) as [D|D].
      * intros [= <- <-]. unfold held. cbn. rewrite app_nil_r. by rewrite <- (take_drop j pending), D, app_nil_r at 1.
      * intros E2. apply IH in E2; [|done]. rewrite <- E2. unfold held. cbn. by rewrite <- app_assoc, take_drop.
  - destruct (refuse_forbidden _ _); [done|]. intros [= <- <-]. unfold held. rewrite Eph. by rewrite app_nil_r.
Qed.

Lemma contains_refused bytes p s : p ∈ forbidden s → contains bytes p = true → ∃ r, refuse_forbidden bytes s = Some r ∧ refused_host r = sub_host s.
Proof.
  intros Hp Hc. unfold refuse_forbidden. destruct (List.find _ (forbidden s)) as [q|] eqn:E; [by eexists|].
  apply list_elem_of_In in Hp. pose proof (List.find_none _ _ E p Hp) as Hn. cbv beta in Hn. congruence.
Qed.

(** C9: secrets go where they are meant to go.  On a connection to
    [host], whatever has been sent on it: nothing depends on the value of a secret
    that is not meant for [host]; the first head that the piece fed completes is refused
    if it carries the placeholder of such a secret; and if no secret is meant for [host], every byte
    goes out as it came in, in order. *)
Theorem secrets_only_where_meant bindings host s0 s :
  for_host bindings host = Some s0 → fed s0 s →
  (∀ others, Forall2 (same_for host) bindings others → for_host others host = Some s0) ∧
  (∀ b bytes head e, b ∈ bindings → existsb (fun name => host_matches name host) (hosts b) = false →
     phase s = Head head → find_head_end (head ++ bytes) = Some e → contains (take e (head ++ bytes)) (placeholder b) = true →
     ∃ r s', feed bytes s = Some (Err r, s') ∧ refused_host r = host) ∧
  ((∀ b, b ∈ bindings → existsb (fun name => host_matches name host) (hosts b) = false) →
     ∀ bytes out s', feed bytes s = Some (Ok out, s') → held s ++ bytes = out ++ held s').
Proof.
  intros E0 Hfed. destruct (fed_rules _ _ Hfed) as [Ra Rf Rh]. split; [|split].
  - intros others Ho. by rewrite <- (for_host_same host bindings others Ho).
  - intros b bytes head e Hb Hno Hph He Hc. revert E0. unfold for_host. destruct (decide (bindings = [])); [done|]. cbv zeta. intros [= <-].
    cbn in Ra, Rf, Rh.
    assert (Hin : placeholder b ∈ forbidden s).
    { rewrite Rf. apply list_elem_of_fmap. exists b. split; [done|]. apply list_elem_of_In, List.filter_In. split; [by apply list_elem_of_In|]. by rewrite Hno. }
    unfold feed. rewrite Hph, Nat.add_comm. cbn [feed_loop Nat.add]. rewrite Hph. cbv zeta. rewrite He.
    destruct (contains_refused (take e (head ++ bytes)) (placeholder b) (s <| phase := Head [] |>)) as (r & Er & Hr); [done | done|].
    rewrite Er. eexists _, _. split; [done|]. by rewrite Hr, <- Rh.
  - intros Hno bytes out s' E. apply feed_loop_verbatim in E; [done|]. rewrite Ra. revert E0. unfold for_host.
    destruct (decide (bindings = [])); [done|]. cbv zeta. intros [= <-]. cbn. clear -Hno. induction bindings as [|b bs IH]; [done|].
    cbn. rewrite (Hno b) by apply list_elem_of_here. apply IH. intros b' Hb'. by apply Hno, list_elem_of_further.
Qed.

(** ** A secret and two hosts *)

Definition demo_binding : SecretBinding := mkBinding (as_bytes "KEY") (as_bytes "sk-1") [as_bytes "api.a.com"].
Definition demo_start : list Z := as_bytes "GET / HTTP/1.1" ++ CRLF ++ as_bytes "x: K".
Definition demo_rest : list Z := as_bytes "EY" ++ CRLF ++ CRLF.
Definition demo_home : Substitution := mkSub [demo_binding] [] (as_bytes "api.a.com") (Head []).
Definition demo_away : Substitution := mkSub [] [as_bytes "KEY"] (as_bytes "evil.com") (Head []).
Definition demo_sent : list Z := as_bytes "GET / HTTP/1.1" ++ CRLF ++ as_bytes "x: sk-1" ++ CRLF ++ CRLF.

(** The placeholder is cut in two, and replaced. *)
Lemma pieces_do_not_matter_witness : feed (demo_start ++ demo_rest) demo_home = Some (Ok demo_sent, demo_home <| phase := Body 0 |>).
Proof.
  apply (pieces_do_not_matter demo_start demo_rest demo_home (Ok []) (demo_home <| phase := Head demo_start |>) (Ok demo_sent)
           (demo_home <| phase := Body 0 |>)); [reflexivity | discriminate | reflexivity | reflexivity].
Defined.

(** A head that is too long goes out when its end comes with it, and is refused when
    its end comes later. *)
Lemma long_head_depends_on_cut :
  let long := replicate (Z.to_nat 65537) 97 in
  let refused r := match r with Some (Err _, _) => true | _ => false end in
  refused (feed long demo_home) = true ∧ refused (feed (long ++ CRLF ++ CRLF) demo_home) = false.
Proof. by vm_compute. Qed.

(** The same request to another host. *)
Lemma secrets_only_where_meant_witness :
  ∃ r s', feed demo_rest (demo_away <| phase := Head demo_start |>) = Some (Err r, s') ∧ refused_host r = as_bytes "evil.com".
Proof.
  destruct (secrets_only_where_meant [demo_binding] (as_bytes "evil.com") demo_away (demo_away <| phase := Head demo_start |>)) as (_ & Hr & _).
  - reflexivity.
  - apply (fed_more _ demo_away demo_start []); [constructor | reflexivity].
  - apply (Hr demo_binding demo_rest demo_start (length (demo_start ++ demo_rest))); [apply list_elem_of_here | reflexivity..].
Defined.
