(* ===== verification/Http.v ===== *)
(** Requests seen on a connection ([machine/src/trace/http.rs]).

    [HttpRequests] follows the bytes a client sends, in whatever pieces, and
    reports the head and the body of each request; [HttpObserver] writes them to
    the trace.  The wall clock is a function of the sequence number the recorder
    is at when it is read; [base64] is not part of the repository. *)
From Stdlib Require Import String.
From S2P Require Import Prelude Words SyscallTrace Dtb Dns HostFs Trace Text Secrets.

Definition HTTP_MAX_HEAD_BYTES : nat := Z.to_nat (16 * 1024).
Definition MAX_BODY_BYTES : nat := Z.to_nat (64 * 1024).

Record HttpRequest := mkRequest {
  method : list Z;
  url : list Z;
  headers : list (list Z * list Z);
  body_bytes : option Z
}.

Record HttpBody := mkBody { content : list Z; truncated : bool }.

Inductive HttpEvent : Type := EvHead (request : HttpRequest) | EvBody (body : HttpBody).

Record HttpRequests := mkHttp {
  scheme : list Z;
  default_host : option (list Z);
  req_head : list Z;
  body_bytes_left : Z;
  stopped : bool;
  req_body : list Z;
  body_truncated : bool
}.
#[export] Instance HttpRequests_eta : Eta HttpRequests := fun h =>
  mkHttp (scheme h) (default_host h) (req_head h) (body_bytes_left h) (stopped h) (req_body h) (body_truncated h).

Definition requests_new (scheme : list Z) (default_host : option (list Z)) : HttpRequests :=
  mkHttp scheme default_host [] 0 false [] false.

Definition set_default_host (host : list Z) (h : HttpRequests) : HttpRequests :=
  match default_host h with Some _ => h | None => h <| default_host := Some host |> end.

Inductive BodyKind : Type := Length (length : Z) | Undelimited.

(** [find_head_end(buffer, from)] *)
Definition find_end_from (buffer : list Z) (from : nat) : option nat :=
  (fun position => (from + position + 4)%nat) <$> find_sub head_end (drop from buffer).

Definition keep_body (bytes : list Z) (h : HttpRequests) : HttpRequests :=
  if decide (bytes = []) then h
  else
    let room := (MAX_BODY_BYTES - length (req_body h))%nat in
    let h := if (room <? length bytes)%nat then h <| body_truncated := true |> else h in
    h <| req_body := req_body h ++ take (Nat.min room (length bytes)) bytes |>.

Definition finish_body (h : HttpRequests) : list HttpEvent * HttpRequests :=
  if bool_decide (req_body h = []) && negb (body_truncated h) then ([], h)
  else ([EvBody (mkBody (req_body h) (body_truncated h))], h <| req_body := [] |> <| body_truncated := false |>).

Definition stop (h : HttpRequests) : HttpRequests := h <| stopped := true |> <| req_head := [] |>.

(** A header is joined to one of the same name. *)
Fixpoint add_header (name value : list Z) (hs : list (list Z * list Z)) : list (list Z * list Z) :=
  match hs with
  | [] => [(name, value)]
  | (seen, existing) :: hs =>
      if eq_ignore_ascii_case seen name then (seen, existing ++ as_bytes ", " ++ value) :: hs
      else (seen, existing) :: add_header name value hs
  end.

(** What the header lines say: the headers, the host, the body. *)
Fixpoint parse_lines (lines : list (list Z)) (hs : list (list Z * list Z)) (host : option (list Z)) (body : BodyKind)
    : option (list (list Z * list Z) * option (list Z) * BodyKind) :=
  match lines with
  | [] => Some (hs, host, body)
  | line :: lines =>
      match split_once 58 line with
      | None => parse_lines lines hs host body
      | Some (name, value) =>
          let value := trim value in
          let hs := add_header name value hs in
          if eq_ignore_ascii_case name (as_bytes "host") then parse_lines lines hs (Some value) body
          else if eq_ignore_ascii_case name (as_bytes "content-length") then
            length ← parse_u64 value; parse_lines lines hs host (Length length)
          else if eq_ignore_ascii_case name (as_bytes "transfer-encoding")
               || (eq_ignore_ascii_case name (as_bytes "upgrade") && negb (bool_decide (value = [])))
          then parse_lines lines hs host Undelimited
          else parse_lines lines hs host body
      end
  end.

Definition request_url (h : HttpRequests) (host : option (list Z)) (target : list Z) : option (list Z) :=
  if starts_with (as_bytes "http://") target || starts_with (as_bytes "https://") target then Some target
  else
    host ← match host with Some host => Some host | None => default_host h end;
    Some (scheme h ++ as_bytes "://" ++ host ++ target).

Definition parse_head (h : HttpRequests) (head : list Z) : option (HttpRequest * BodyKind) :=
  if negb (utf8_valid head) then None
  else
    match split_sub CRLF head with
    | [] => None
    | request_line :: lines =>
        match split_on 32 request_line with
        | [method; target; version] =>
            if negb (starts_with (as_bytes "HTTP/1.") version) || bool_decide (method = [])
               || negb (forallb is_ascii_uppercase method) then None
            else
              '(hs, host, body) ← parse_lines lines [] None (Length 0);
              let body := if decide (method = as_bytes "CONNECT") then Undelimited else body in
              url ← request_url h host target;
              Some (mkRequest method url hs (match body with Length n => Some n | Undelimited => None end), body)
        | _ => None
        end
    end.

(** The loop of [observe]; every round but the last takes a head. *)
Fixpoint observe_loop (fuel : nat) (searched_to : nat) (events : list HttpEvent) (h : HttpRequests)
    : option (list HttpEvent * HttpRequests) :=
  match fuel with
  | O => None
  | S fuel =>
      if stopped h then Some (events, h)
      else
        match find_end_from (req_head h) searched_to with
        | None => Some (events, if (HTTP_MAX_HEAD_BYTES <? length (req_head h))%nat then stop h else h)
        | Some end_ =>
            let parsed := parse_head h (take end_ (req_head h)) in
            let h := h <| req_head := drop end_ (req_head h) |> in
            match parsed with
            | Some (request, Length length_) =>
                let events := events ++ [EvHead request] in
                let taken := Z.min length_ (Z.of_nat (length (req_head h))) in
                let body := take (Z.to_nat taken) (req_head h) in
                let h := h <| req_head := drop (Z.to_nat taken) (req_head h) |> in
                let h := keep_body body h in
                let h := h <| body_bytes_left := length_ - taken |> in
                if body_bytes_left h =? 0 then
                  let (more, h) := finish_body h in observe_loop fuel 0 (events ++ more) h
                else observe_loop fuel 0 events h
            | Some (request, Undelimited) => observe_loop fuel 0 (events ++ [EvHead request]) (stop h)
            | None => observe_loop fuel 0 events (stop h)
            end
        end
  end.

Definition observe (bytes : list Z) (h : HttpRequests) : option (list HttpEvent * HttpRequests) :=
  if stopped h then Some ([], h)
  else
    let taken := Z.min (body_bytes_left h) (Z.of_nat (length bytes)) in
    let h := keep_body (take (Z.to_nat taken) bytes) h in
    let h := h <| body_bytes_left := body_bytes_left h - taken |> in
    let (events, h) := if (0 <? taken) && (body_bytes_left h =? 0) then finish_body h else ([], h) in
    let bytes := drop (Z.to_nat taken) bytes in
    let searched_to := (length (req_head h) - 3)%nat in
    let h := h <| req_head := req_head h ++ bytes |> in
    observe_loop (length (req_head h) + 2) searched_to events h.

(** ** [HttpObserver] *)

Record HttpObserver := mkObserver {
  requests : HttpRequests;
  address : list Z;
  port : Z;
  head_seq : option Z;
  head_url : option (list Z)
}.
#[export] Instance HttpObserver_eta : Eta HttpObserver := fun o =>
  mkObserver (requests o) (address o) (port o) (head_seq o) (head_url o).

Definition observer_new (scheme address : list Z) (port : Z) : HttpObserver :=
  mkObserver (requests_new scheme None) address port None None.

Definition observer_set_default_host (host : list Z) (o : HttpObserver) : HttpObserver :=
  o <| requests := set_default_host host (requests o) |>.

Section Observer.
Context {J : Json} (base64 : list Z -> list Z) (capacity : Z) (wall_ms : Z -> Z).

Definition named (name : string) (v : Value) : list Z * Value := (as_bytes name, v).

Definition head_fields (o : HttpObserver) (request : HttpRequest) : Fields :=
  [named "protocol" (VString (scheme (requests o))); named "method" (VString (method request)); named "url" (VString (url request));
   named "address" (VString (format_address (address o))); named "port" (VNumber (port o));
   named "headers" (VObject (map (fun h : list Z * list Z => (h.1, VString h.2)) (headers request)));
   named "body_bytes" (match body_bytes request with Some length => VNumber length | None => VNull end)].

Definition body_fields (url : list Z) (seq : Z) (body : HttpBody) : Fields :=
  let valid := utf8_valid (content body) in
  [named "url" (VString url); named "request_seq" (VNumber seq); named "encoding" (VString (as_bytes (if valid then "utf8" else "base64")));
   named "truncated" (VBool (truncated body)); named "content" (VString (if valid then content body else base64 (content body)))].

Definition on_event (event : HttpEvent) (s : HttpObserver * Recorder) : HttpObserver * Recorder :=
  let (o, r) := s in
  match event with
  | EvHead request =>
      let (seq, r) := record_seq capacity (wall_ms (next_seq r)) (as_bytes "net.http") (head_fields o request) r in
      (o <| head_seq := seq |> <| head_url := Some (url request) |>, r)
  | EvBody body =>
      match head_seq o, head_url o with
      | Some seq, Some url => (o, record capacity (wall_ms (next_seq r)) (as_bytes "net.http.body") (body_fields url seq body) r)
      | _, _ => (o, r)
      end
  end.

Definition observer_observe (bytes : list Z) (s : HttpObserver * Recorder) : option (HttpObserver * Recorder) :=
  '(events, requests') ← observe bytes (requests s.1);
  Some (foldl (fun s event => on_event event s) (s.1 <| requests := requests' |>, s.2) events).
End Observer.

(** * Properties

    A connection is followed the same way however its bytes are cut into pieces,
    and looking for the end of a head only where it can be misses none. *)

(** ** The search *)

Lemma find_sub_none pat l : find_sub pat l = None → ∀ j, (j <= length l)%nat → starts_with pat (drop j l) = false.
Proof.
  induction l as [|x l IH]; cbn [find_sub]; intros E j Hj.
  - destruct (starts_with pat []) eqn:S; [done|]. by rewrite drop_nil.
  - destruct (starts_with pat (x :: l)) eqn:S; [done|]. destruct (find_sub pat l); [done|].
    destruct j as [|j]; [done|]. cbn [drop]. apply IH; [done|]. cbn in Hj. lia.
Qed.

Lemma find_sub_skip pat l k :
  (k <= length l)%nat → (∀ j, (j < k)%nat → starts_with pat (drop j l) = false) →
  find_sub pat l = Nat.add k <$> find_sub pat (drop k l).
Proof.
  revert l. induction k as [|k IH]; intros l Hk Hno; [rewrite drop_0; by destruct (find_sub pat l)|].
  destruct l as [|x l]; [cbn in Hk; lia|]. cbn [find_sub drop]. pose proof (Hno 0%nat ltac:(lia)) as H0. cbn [drop] in H0. rewrite H0.
  rewrite IH; [by destruct (find_sub pat (drop k l)) | cbn in Hk; lia|]. intros j Hj. by apply (Hno (S j)); lia.
Qed.

(** Three bytes before the new ones is early enough. *)
Lemma find_end_resumed l new : find_sub head_end l = None → find_end_from (l ++ new) (length l - 3) = find_head_end (l ++ new).
Proof.
  intros Hn. unfold find_end_from, find_head_end. rewrite (find_sub_skip head_end (l ++ new) (length l - 3)).
  - destruct (find_sub head_end (drop _ _)); [|done]. done.
  - rewrite length_app. lia.
  - intros j Hj. rewrite drop_app_le by lia. rewrite starts_with_app by (rewrite length_drop; cbn; lia). apply find_sub_none; [done | lia].
Qed.

Lemma find_end_start l : find_end_from l 0 = find_head_end l.
Proof. unfold find_end_from, find_head_end. rewrite drop_0. by destruct (find_sub head_end l). Qed.

(** ** Keeping bodies *)

Lemma keep_body_is bytes h :
  keep_body bytes h =
  h <| req_body := req_body h ++ take (MAX_BODY_BYTES - length (req_body h)) bytes |>
    <| body_truncated := body_truncated h || (MAX_BODY_BYTES - length (req_body h) <? length bytes)%nat |>.
Proof.
  unfold keep_body. destruct h as [sc dh rh bl st rb bt]. generalize MAX_BODY_BYTES as mx. intros mx.
  destruct (decide (bytes = [])) as [->|_].
  - unfold set. cbn. by rewrite take_nil, app_nil_r, orb_false_r.
  - cbv zeta. cbn [req_body]. assert (E : take (Nat.min (mx - length rb) (length bytes)) bytes = take (mx - length rb) bytes).
    { by rewrite <- take_take, (take_ge bytes (length bytes)). }
    rewrite E. destruct (mx - length rb <? length bytes)%nat eqn:C; unfold set; cbn [req_body body_truncated eta HttpRequests_eta]; cbn; by rewrite ?orb_true_r, ?orb_false_r.
Qed.

Lemma keep_body_app a b h : keep_body b (keep_body a h) = keep_body (a ++ b) h.
Proof.
  rewrite !keep_body_is. destruct h as [sc dh rh bl st rb bt]. generalize MAX_BODY_BYTES as mx. intros mx.
  unfold set. cbn [scheme default_host req_head body_bytes_left stopped req_body body_truncated eta HttpRequests_eta].
  rewrite !length_app, length_take. f_equal.
  - rewrite <- app_assoc. f_equal. destruct (Nat.le_gt_cases (mx - length rb) (length a)).
    + rewrite (take_app_le a), Nat.min_l by lia. replace (mx - (length rb + (mx - length rb)))%nat with 0%nat by lia. by rewrite take_0, app_nil_r.
    + rewrite (take_app_ge a), (take_ge a), Nat.min_r by lia. do 2 f_equal. lia.
  - rewrite <- orb_assoc. f_equal. apply eq_bool_prop_intro. rewrite orb_True, !Is_true_true, !Nat.ltb_lt. lia.
Qed.

(** ** Following in pieces *)

(** What is left of a connection between calls. *)
Record http_ok (h : HttpRequests) : Prop := {
  ho_left : 0 <= body_bytes_left h;
  ho_body : 0 < body_bytes_left h → req_head h = [];
  ho_head : find_sub head_end (req_head h) = None
}.

Lemma observe_loop_mono n m from ev h r : (n <= m)%nat → observe_loop n from ev h = Some r → observe_loop m from ev h = Some r.
Proof.
  revert m from ev h. induction n as [|n IH]; intros m from ev h Hm; [done|]. destruct m as [|m]; [lia|].
  assert (Hle : (n <= m)%nat) by lia. cbn [observe_loop]. destruct (stopped h); [done|]. destruct (find_end_from _ _) as [e|]; [|done]. cbv zeta.
  destruct (parse_head _ _) as [[request [length_|]]|]; [|by apply IH | by apply IH]. case_if; [|by apply IH].
  destruct (finish_body _). by apply IH.
Qed.

Lemma find_end_bound l e : find_end_from l 0 = Some e → (4 <= e <= length l)%nat.
Proof. rewrite find_end_start. apply find_head_end_bound. Qed.

Lemma stop_ends n from ev h : observe_loop (S n) from ev (stop h) = Some (ev, stop h).
Proof. done. Qed.

Lemma finish_head h : req_head (finish_body h).2 = req_head h.
Proof. unfold finish_body. by case_if. Qed.
Lemma keep_head bytes h : req_head (keep_body bytes h) = req_head h.
Proof. by rewrite keep_body_is. Qed.
Lemma keep_stopped bytes h : stopped (keep_body bytes h) = stopped h.
Proof. by rewrite keep_body_is. Qed.

(** Enough rounds give a result. *)
Lemma observe_loop_total n ev h : (length (req_head h) + 1 < n)%nat → ∃ r, observe_loop n 0 ev h = Some r.
Proof.
  revert ev h. induction n as [|n IH]; intros ev h Hn; [lia|]. cbn [observe_loop]. destruct (stopped h); [eauto|].
  destruct (find_end_from (req_head h) 0) as [e|] eqn:Ee; [|eauto]. apply find_end_bound in Ee. cbv zeta. destruct n as [|n]; [lia|].
  destruct (parse_head _ _) as [[request [length_|]]|]; [|rewrite stop_ends; eauto | rewrite stop_ends; eauto].
  case_if.
  - destruct (finish_body _) as [more h'] eqn:Ef. apply IH. change h' with (more, h').2. rewrite <- Ef, finish_head. cbn.
    rewrite keep_head. cbn. rewrite !length_drop. lia.
  - apply IH. cbn. rewrite keep_head. cbn. rewrite !length_drop. lia.
Qed.

(** The part of [observe] before the loop. *)
Definition absorb (bytes : list Z) (h : HttpRequests) : list HttpEvent * HttpRequests :=
  let taken := Z.min (body_bytes_left h) (Z.of_nat (length bytes)) in
  let h := keep_body (take (Z.to_nat taken) bytes) h in
  let h := h <| body_bytes_left := body_bytes_left h - taken |> in
  let (events, h) := if (0 <? taken) && (body_bytes_left h =? 0) then finish_body h else ([], h) in
  (events, h <| req_head := req_head h ++ drop (Z.to_nat taken) bytes |>).

Definition add_head (b : list Z) (h : HttpRequests) : HttpRequests := h <| req_head := req_head h ++ b |>.

Lemma loop_from l new n ev h :
  req_head h = l ++ new → find_sub head_end l = None → observe_loop n (length l - 3) ev h = observe_loop n 0 ev h.
Proof.
  intros Eh Hl. destruct n as [|n]; [done|]. cbn [observe_loop]. by rewrite Eh, find_end_resumed, find_end_start.
Qed.

Lemma absorb_stopped bytes h : stopped (absorb bytes h).2 = stopped h.
Proof. unfold absorb. cbv zeta. rewrite keep_body_is. case_if; [|done]. unfold finish_body. by case_if. Qed.

Lemma observe_is n bytes h r :
  http_ok h → stopped h = false → observe_loop n 0 (absorb bytes h).1 (absorb bytes h).2 = Some r → observe bytes h = Some r.
Proof.
  intros [_ _ Hh] Hs E. unfold observe. rewrite Hs. cbv zeta. unfold absorb in E. cbv zeta in E.
  set (taken := Z.min _ _) in *. set (h1 := (keep_body _ h) <| body_bytes_left := _ |>) in *.
  destruct (if _ : bool then finish_body h1 else ([], h1)) as [ev h2] eqn:E2. cbn [fst snd] in E.
  assert (Eh : req_head h2 = req_head h).
  { destruct ((0 <? taken) && _); [change h2 with (ev, h2).2; rewrite <- E2, finish_head | injection E2 as <- <-]; apply keep_head. }
  set (h3 := h2 <| req_head := _ |>) in *. rewrite (loop_from (req_head h2) (drop (Z.to_nat taken) bytes)); [| done | by rewrite Eh].
  destruct (observe_loop_total (length (req_head h3) + 2) ev h3 ltac:(lia)) as (r' & E').
  rewrite E'. apply (observe_loop_mono _ (Nat.max n (length (req_head h3) + 2))) in E, E'; [|lia..]. congruence.
Qed.

Lemma observe_as_loop bytes h r :
  http_ok h → stopped h = false → observe bytes h = Some r → ∃ n, observe_loop n 0 (absorb bytes h).1 (absorb bytes h).2 = Some r.
Proof.
  intros Hh Hs E. destruct (observe_loop_total (length (req_head (absorb bytes h).2) + 2) (absorb bytes h).1 (absorb bytes h).2 ltac:(lia)) as (r' & E').
  eexists. rewrite E'. apply observe_is in E'; [congruence | done | done].
Qed.

(** Events that came before do not matter. *)
Lemma observe_loop_events n from pre ev h :
  observe_loop n from (pre ++ ev) h = (fun r => (pre ++ r.1, r.2)) <$> observe_loop n from ev h.
Proof.
  revert from ev h. induction n as [|n IH]; intros from ev h; [done|]. cbn [observe_loop]. destruct (stopped h); [done|].
  destruct (find_end_from _ _) as [e|]; [|done]. cbv zeta.
  destruct (parse_head _ _) as [[request [length_|]]|]; rewrite <- ?app_assoc; [|apply IH | apply IH]. case_if; [|apply IH].
  destruct (finish_body _). rewrite <- app_assoc. apply IH.
Qed.

(** *** Lengths are numbers *)

Lemma digits_value_nonneg l acc n : 0 <= acc → digits_value l acc = Some n → 0 <= n.
Proof.
  revert acc. induction l as [|d l IH]; intros acc Ha; cbn [digits_value]; [by intros [= <-]|].
  destruct ((48 <=? d) && (d <=? 57)) eqn:E; [|done]. bools. cbv zeta. case_if; [|done]. apply IH. lia.
Qed.

Lemma parse_u64_nonneg l n : parse_u64 l = Some n → 0 <= n.
Proof. unfold parse_u64. repeat case_match; try done; by apply digits_value_nonneg. Qed.

Definition body_nonneg (b : BodyKind) : Prop := match b with Length n => 0 <= n | Undelimited => True end.

Lemma parse_lines_nonneg lines hs host body r : body_nonneg body → parse_lines lines hs host body = Some r → body_nonneg r.2.
Proof.
  revert hs host body. induction lines as [|line lines IH]; intros hs host body Hb; cbn [parse_lines]; [by intros [= <-]|].
  destruct (split_once 58 line) as [[name value]|]; [|by apply IH]. cbv zeta. case_if; [by apply IH|]. case_if.
  - destruct (parse_u64 _) as [n|] eqn:Eu; cbn [mbind option_bind]; [|done]. apply IH. by eapply parse_u64_nonneg.
  - case_if; by apply IH.
Qed.

Lemma parse_head_nonneg h head request n : parse_head h head = Some (request, Length n) → 0 <= n.
Proof.
  unfold parse_head. case_if; [done|]. destruct (split_sub CRLF head) as [|line lines]; [done|].
  destruct (split_on 32 line) as [|m [|t [|v [|]]]]; try done. case_if; [done|].
  destruct (parse_lines _ _ _ _) as [[[hs host] body]|] eqn:El; cbn [mbind option_bind]; [|done]. cbv zeta.
  apply parse_lines_nonneg in El; [|done]. destruct (request_url _ _ _); cbn [mbind option_bind]; [|done].
  destruct (decide _); [done|]. by intros [= _ ->].
Qed.

(** *** A head and what follows it *)

(** The start of a body, from what is behind its head. *)
Definition take_body (n : Z) (h : HttpRequests) : list HttpEvent * HttpRequests :=
  let taken := Z.min n (Z.of_nat (length (req_head h))) in
  let h1 := (keep_body (take (Z.to_nat taken) (req_head h)) (h <| req_head := drop (Z.to_nat taken) (req_head h) |>))
              <| body_bytes_left := n - taken |> in
  if n - taken =? 0 then finish_body h1 else ([], h1).

Lemma loop_takes_body n e ev h request length_ :
  stopped h = false → find_end_from (req_head h) 0 = Some e → parse_head h (take e (req_head h)) = Some (request, Length length_) →
  observe_loop (S n) 0 ev h =
    let (more, h') := take_body length_ (h <| req_head := drop e (req_head h) |>) in
    observe_loop n 0 ((ev ++ [EvHead request]) ++ more) h'.
Proof.
  intros Hs Ee Ep. cbn [observe_loop]. rewrite Hs, Ee, Ep. cbv zeta. unfold take_body. cbv zeta.
  change (body_bytes_left (?x <| body_bytes_left := ?v |>)) with v. case_if; [done | by rewrite app_nil_r].
Qed.

Lemma take_body_facts n h :
  0 <= n → let r := take_body n h in
  stopped r.2 = stopped h ∧ 0 <= body_bytes_left r.2 ∧ (0 < body_bytes_left r.2 → req_head r.2 = []) ∧
  (Z.of_nat (length (req_head h)) < n ↔ 0 < body_bytes_left r.2).
Proof.
  intros Hn. unfold take_body. cbv zeta. rewrite keep_body_is. generalize MAX_BODY_BYTES as mx. intros mx. set (taken := Z.min n _).
  assert (Hd : 0 < n - taken → drop (Z.to_nat taken) (req_head h) = []) by (intros; apply drop_ge; lia).
  case_if; bools.
  - unfold finish_body. case_if; cbn; repeat split; try done; try lia.
  - cbn. repeat split; try done; lia.
Qed.

(** A body that is all there leaves what follows alone. *)
Lemma take_body_add n h b :
  0 <= n <= Z.of_nat (length (req_head h)) → take_body n (add_head b h) = ((take_body n h).1, add_head b (take_body n h).2).
Proof.
  intros Hn. unfold take_body. cbv zeta. cbn [req_head add_head]. rewrite !keep_body_is.
  assert (E1 : Z.min n (Z.of_nat (length (req_head (add_head b h)))) = n) by (cbn; rewrite length_app; lia).
  rewrite E1, Z.min_l by lia. rewrite Z.sub_diag. cbn [Z.eqb].
  assert (E2 : take (Z.to_nat n) (req_head (add_head b h)) = take (Z.to_nat n) (req_head h)) by (cbn; rewrite take_app_le by lia; done).
  assert (E3 : drop (Z.to_nat n) (req_head (add_head b h)) = drop (Z.to_nat n) (req_head h) ++ b) by (cbn; rewrite drop_app_le by lia; done).
  rewrite E2, E3. generalize MAX_BODY_BYTES as mx. intros mx. unfold finish_body. cbn. by case_if.
Qed.

Lemma keep_body_left bytes h v : keep_body bytes (h <| body_bytes_left := v |>) = (keep_body bytes h) <| body_bytes_left := v |>.
Proof. rewrite !keep_body_is. by destruct h. Qed.
Lemma keep_body_set_head bytes h v : keep_body bytes (h <| req_head := v |>) = (keep_body bytes h) <| req_head := v |>.
Proof. rewrite !keep_body_is. by destruct h. Qed.

Lemma finish_set_head h v : finish_body (h <| req_head := v |>) = ((finish_body h).1, (finish_body h).2 <| req_head := v |>).
Proof. unfold finish_body. cbn. by case_if. Qed.

(** A body that has only begun goes on with the next piece. *)
Lemma take_body_absorb n h b :
  Z.of_nat (length (req_head h)) < n → (take_body n h).1 = [] ∧ absorb b (take_body n h).2 = take_body n (add_head b h).
Proof.
  intros Hn. unfold take_body at 1 2. cbv zeta. rewrite Z.min_r by lia. rewrite (proj2 (Z.eqb_neq _ _)) by lia. cbn [fst snd]. split; [done|].
  rewrite Nat2Z.id, (take_ge (req_head h)), (drop_ge (req_head h)) by lia.
  rewrite keep_body_set_head. set (X := keep_body (req_head h) h). unfold absorb, take_body. cbv zeta.
  change (body_bytes_left (set body_bytes_left ?f ?x)) with (f (body_bytes_left x)).
  set (left := n - Z.of_nat (length (req_head h))). set (t := Z.min left (Z.of_nat (length b))).
  assert (Et : Z.min n (Z.of_nat (length (req_head (add_head b h)))) = Z.of_nat (length (req_head h)) + t) by (cbn; rewrite length_app; lia).
  rewrite Et. assert (En : Z.to_nat (Z.of_nat (length (req_head h)) + t) = (length (req_head h) + Z.to_nat t)%nat) by lia. rewrite En.
  change (req_head (add_head b h)) with (req_head h ++ b). rewrite take_app_add, drop_app_add.
  unfold add_head. rewrite !keep_body_left, !keep_body_set_head, <- keep_body_app. fold X.
  set (Y := keep_body (take (Z.to_nat t) b) X). replace (n - (Z.of_nat (length (req_head h)) + t)) with (left - t) by lia.
  assert (C : (0 <? t) && (left - t =? 0) = (left - t =? 0)).
  { destruct (left - t =? 0) eqn:C; [|by rewrite andb_false_r]. bools. rewrite (proj2 (Z.ltb_lt 0 t)) by lia. done. }
  clearbody Y. destruct Y as [sc dh rh bl st rb bt]. unfold set.
  cbn [scheme default_host req_head body_bytes_left stopped req_body body_truncated eta HttpRequests_eta]. fold t. rewrite C.
  destruct (left - t =? 0); [|done]. unfold finish_body. cbn [req_body body_truncated]. by destruct (bool_decide _ && _).
Qed.

(** What the loop leaves behind. *)
Lemma observe_loop_ok n ev h ev1 h1 :
  observe_loop n 0 ev h = Some (ev1, h1) → stopped h1 = false → 0 <= body_bytes_left h → (0 < body_bytes_left h → req_head h = []) →
  http_ok h1.
Proof.
  revert ev h. induction n as [|n IH]; intros ev h E Hs1 Hl Hb; [done|]. destruct (stopped h) eqn:Hs.
  { revert E. cbn [observe_loop]. rewrite Hs. intros [= <- <-]. congruence. }
  destruct (find_end_from (req_head h) 0) as [e|] eqn:Ee.
  - destruct (parse_head h (take e (req_head h))) as [[request [length_|]]|] eqn:Ep.
    + rewrite (loop_takes_body _ _ _ _ _ _ Hs Ee Ep) in E.
      destruct (take_body_facts length_ (h <| req_head := drop e (req_head h) |>) (parse_head_nonneg _ _ _ _ Ep)) as (_ & F2 & F3 & _).
      destruct (take_body _ _) as [more h']. by apply (IH _ _ E).
    + revert E. cbn [observe_loop]. rewrite Hs, Ee, Ep. destruct n as [|n]; [done|]. rewrite stop_ends. by intros [= <- <-].
    + revert E. cbn [observe_loop]. rewrite Hs, Ee, Ep. destruct n as [|n]; [done|]. rewrite stop_ends. by intros [= <- <-].
  - revert E. cbn [observe_loop]. rewrite Hs, Ee. rewrite find_end_start in Ee. unfold find_head_end in Ee. intros [= <- <-].
    destruct (_ <? _)%nat; [done|]. split; [done | done|]. by destruct (find_sub head_end (req_head h)).
Qed.

(** The loop on a piece, then on the next, is the loop on both. *)
Lemma observe_loop_resumes n m b ev h ev1 h1 r :
  body_bytes_left h = 0 → observe_loop n 0 ev h = Some (ev1, h1) → stopped h1 = false →
  observe_loop m 0 (ev1 ++ (absorb b h1).1) (absorb b h1).2 = Some r → ∃ k, observe_loop k 0 ev (add_head b h) = Some r.
Proof.
  intros Hl E Hs1 E2. revert ev h Hl E. induction n as [|n IH]; intros ev h Hl E; [done|]. destruct (stopped h) eqn:Hs.
  { revert E. cbn [observe_loop]. rewrite Hs. intros [= <- <-]. congruence. }
  destruct (find_end_from (req_head h) 0) as [e|] eqn:Ee.
  - assert (Ee' : find_end_from (req_head (add_head b h)) 0 = Some e).
    { rewrite find_end_start in *. by apply find_head_end_app. }
    pose proof (find_end_bound _ _ Ee) as Hbd.
    assert (Et : take e (req_head (add_head b h)) = take e (req_head h)) by (cbn; by rewrite take_app_le by lia).
    assert (Ed : (add_head b h) <| req_head := drop e (req_head (add_head b h)) |> = add_head b (h <| req_head := drop e (req_head h) |>)).
    { unfold add_head. cbn. by rewrite drop_app_le by lia. }
    destruct (parse_head h (take e (req_head h))) as [[request [length_|]]|] eqn:Ep.
    + rewrite (loop_takes_body _ _ _ _ _ _ Hs Ee Ep) in E.
      assert (Ep' : parse_head (add_head b h) (take e (req_head (add_head b h))) = Some (request, Length length_)) by (by rewrite Et).
      pose proof (parse_head_nonneg _ _ _ _ Ep) as Hn. set (h0 := h <| req_head := drop e (req_head h) |>) in *.
      assert (Hstep : ∀ k, observe_loop (S k) 0 ev (add_head b h) =
        let (more, h') := take_body length_ (add_head b h0) in observe_loop k 0 ((ev ++ [EvHead request]) ++ more) h').
      { intros k. rewrite (loop_takes_body _ _ _ (add_head b h) _ _ Hs Ee' Ep'), Ed. done. }
      pose proof (take_body_facts length_ h0 Hn) as (F1 & F2 & F3 & F4).
      destruct (Z.lt_ge_cases (Z.of_nat (length (req_head h0))) length_) as [Hlt|Hge].
      * destruct (take_body_absorb length_ h0 b Hlt) as [B1 B2]. destruct (take_body length_ h0) as [more h'] eqn:Eb. cbn [fst snd] in *. subst more.
        apply F4 in Hlt. specialize (F3 Hlt). assert (E1 : (ev ++ [EvHead request], h') = (ev1, h1)).
        { destruct n as [|n]; [done|]. revert E. cbn [observe_loop]. rewrite F1, F3, app_nil_r. destruct (stopped h0); by intros [= <- <-]. }
        injection E1 as <- <-. exists (S m). rewrite Hstep, <- B2. by destruct (absorb b h').
      * assert (H0 : body_bytes_left (take_body length_ h0).2 = 0) by lia.
        pose proof (take_body_add length_ h0 b ltac:(lia)) as B. destruct (take_body length_ h0) as [more h'] eqn:Eb. cbn [fst snd] in *.
        destruct (IH _ h' H0 E) as (k & Ek). exists (S k). by rewrite Hstep, B.
    + revert E. cbn [observe_loop]. rewrite Hs, Ee, Ep. destruct n as [|n]; [done|]. rewrite stop_ends. by intros [= <- <-].
    + revert E. cbn [observe_loop]. rewrite Hs, Ee, Ep. destruct n as [|n]; [done|]. rewrite stop_ends. by intros [= <- <-].
  - revert E. cbn [observe_loop]. rewrite Hs, Ee. intros [= <- <-]. destruct (_ <? _)%nat; [done|].
    exists m. rewrite <- E2. unfold absorb. cbv zeta. rewrite Hl. rewrite Z.min_l by lia. cbn [Z.to_nat take drop Z.ltb Z.compare andb].
    rewrite drop_0, app_nil_r. change (take 0 b) with (@nil Z). rewrite take_0. unfold add_head. rewrite Z.sub_0_r. destruct h. cbn in *. by subst.
Qed.

(** While a body is due, a piece is its next part. *)
Lemma absorb_is_take bytes h :
  http_ok h → 0 < body_bytes_left h → absorb bytes h = take_body (body_bytes_left h) (h <| req_head := bytes |>).
Proof.
  intros [_ Hb _] Hl. specialize (Hb Hl). unfold absorb, take_body. cbv zeta. set (left := body_bytes_left h) in *.
  change (req_head (h <| req_head := bytes |>)) with bytes. set (t := Z.min left (Z.of_nat (length bytes))).
  rewrite !keep_body_set_head.
  assert (EY : body_bytes_left (keep_body (take (Z.to_nat t) bytes) h) = left) by (by rewrite keep_body_is).
  assert (Eh : req_head (keep_body (take (Z.to_nat t) bytes) h) = []) by (by rewrite keep_head).
  assert (C : (0 <? t) && (left - t =? 0) = (left - t =? 0)).
  { destruct (left - t =? 0) eqn:C; [|by rewrite andb_false_r]. bools. rewrite (proj2 (Z.ltb_lt 0 t)) by lia. done. }
  set (Y := keep_body (take (Z.to_nat t) bytes) h) in *. clearbody Y. destruct Y as [sc dh rh bl st rb bt].
  cbn [body_bytes_left] in EY. cbn [req_head] in Eh. subst bl rh. unfold set.
  cbn [scheme default_host req_head body_bytes_left stopped req_body body_truncated eta HttpRequests_eta]. fold t. rewrite C.
  destruct (left - t =? 0); [|done]. unfold finish_body. cbn [req_body body_truncated]. by destruct (bool_decide _ && _).
Qed.

(** When the body is complete, what follows is added to the head. *)
Lemma absorb_add a b h :
  0 <= body_bytes_left h <= Z.of_nat (length a) →
  absorb (a ++ b) h = ((absorb a h).1, add_head b (absorb a h).2) ∧ body_bytes_left (absorb a h).2 = 0.
Proof.
  intros Hl. unfold absorb. cbv zeta. rewrite !Z.min_l by (rewrite ?length_app; lia). set (left := body_bytes_left h) in *.
  rewrite take_app_le, drop_app_le by lia.
  assert (EY : body_bytes_left (keep_body (take (Z.to_nat left) a) h) = left) by (by rewrite keep_body_is).
  set (Y := keep_body (take (Z.to_nat left) a) h) in *. clearbody Y. destruct Y as [sc dh rh bl st rb bt]. cbn [body_bytes_left] in EY. subst bl.
  unfold set, add_head, set. cbn [scheme default_host req_head body_bytes_left stopped req_body body_truncated eta HttpRequests_eta].
  unfold finish_body. destruct (_ && (left - left =? 0)); cbn [req_body body_truncated]; [destruct (bool_decide _ && _)|];
    cbn; rewrite Z.sub_diag, app_assoc; done.
Qed.

(** C38: a request split across writes is seen once, as a whole.  Following a
    connection in two pieces reports the same heads and bodies, in the same order,
    and ends in the same state as following them at once, wherever the cut is:
    in a head, between the bytes that end one, or in a body - unless the first piece
    has made the observer stop (what it is given is no HTTP it can follow, or more
    than the limit of a head whose end is missing); then nothing more is reported. *)
Theorem requests_seen_whole a b h e1 h1 e2 h2 :
  http_ok h → observe a h = Some (e1, h1) → observe b h1 = Some (e2, h2) →
  if stopped h1 then e2 = [] ∧ h2 = h1 else observe (a ++ b) h = Some (e1 ++ e2, h2).
Proof.
  intros Hok E1 E2. destruct (stopped h1) eqn:Hs1.
  { unfold observe in E2. rewrite Hs1 in E2. by injection E2 as <- <-. }
  destruct (stopped h) eqn:Hs.
  { unfold observe in E1. rewrite Hs in E1. injection E1 as <- <-. congruence. }
  apply observe_as_loop in E1 as (n & E1); [|done|done].
  destruct (Z.lt_ge_cases (Z.of_nat (length a)) (body_bytes_left h)) as [Hlt|Hge].
  - assert (Hl : 0 < body_bytes_left h) by lia. rewrite (absorb_is_take a h Hok Hl) in E1.
    set (h0 := h <| req_head := a |>) in E1. assert (Ha : Z.of_nat (length (req_head h0)) < body_bytes_left h) by done.
    destruct (take_body_absorb _ _ b Ha) as [B1 B2]. pose proof (take_body_facts (body_bytes_left h) h0 ltac:(lia)) as (F1 & F2 & F3 & F4).
    cbv zeta in F1, F2, F3, F4. apply F4 in Ha. specialize (F3 Ha). rewrite B1 in E1.
    assert (Eh : ([], (take_body (body_bytes_left h) h0).2) = (e1, h1)).
    { destruct n as [|n]; [done|]. revert E1. cbn [observe_loop]. rewrite F1, F3. destruct (stopped h0); by intros [= <- <-]. }
    injection Eh as <- <-. apply observe_as_loop in E2 as (m & E2); [|split; [done | done | by rewrite F3]|done].
    apply (observe_is m); [done | done|]. rewrite (absorb_is_take (a ++ b) h Hok Hl). change (h <| req_head := a ++ b |>) with (add_head b h0).
    rewrite <- B2. exact E2.
  - destruct (absorb_add a b h ltac:(split; [apply Hok | lia])) as [B1 B2].
    assert (Hok1 : http_ok h1) by (eapply observe_loop_ok; [exact E1 | done | lia | lia]).
    apply observe_as_loop in E2 as (m & E2); [|done|done].
    destruct (observe_loop_resumes n m b _ _ e1 h1 (e1 ++ e2, h2) B2 E1 Hs1) as (k & Ek); [by rewrite observe_loop_events, E2|].
    apply (observe_is k); [done | done|]. by rewrite B1.
Qed.

(** *** A request in two pieces *)

Definition demo_http : HttpRequests := requests_new (as_bytes "http") None.
Definition demo_request : list Z := as_bytes "POST /u HTTP/1.1" ++ CRLF ++ as_bytes "Host: h" ++ CRLF ++ as_bytes "Content-Length: 2" ++ CRLF ++ CRLF ++ as_bytes "ok".
Definition demo_events : list HttpEvent :=
  [EvHead (mkRequest (as_bytes "POST") (as_bytes "http://h/u") [(as_bytes "Host", as_bytes "h"); (as_bytes "Content-Length", as_bytes "2")] (Some 2));
   EvBody (mkBody (as_bytes "ok") false)].

Lemma requests_seen_whole_witness : fst <$> observe demo_request demo_http = Some demo_events.
Proof.
  assert (E1 : observe (take 46 demo_request) demo_http = Some ([], demo_http <| req_head := take 46 demo_request |>)) by (vm_compute; reflexivity).
  assert (E2 : observe (drop 46 demo_request) (demo_http <| req_head := take 46 demo_request |>) = Some (demo_events, demo_http)) by (vm_compute; reflexivity).
  assert (E : observe (take 46 demo_request ++ drop 46 demo_request) demo_http = Some ([] ++ demo_events, demo_http))
    by exact (requests_seen_whole _ _ demo_http [] _ demo_events demo_http ltac:(by split) E1 E2).
  rewrite take_drop in E. by rewrite E.
Defined.
