(* ===== verification/Processes.v ===== *)
(** What the tracer knows of each process ([machine/src/trace/processes.rs]).

    A table of the live processes, with their working directories and the paths of
    their descriptors, and one of the forks whose child was not seen yet.  Both
    are bounded: the oldest arrival gives way.  Paths are the bytes of their
    strings. *)
From S2P Require Import Prelude Words SyscallTrace HostFs Text.

Definition MAX_PROCESSES : nat := Z.to_nat 4096.
Definition MAX_DESCRIPTORS : nat := Z.to_nat 1024.
Definition MAX_PENDING_FORKS : nat := Z.to_nat 1024.
Definition I32_MAX : Z := 2 ^ 31 - 1.

Record Descriptor := mkDescriptor { fd_path : list Z; fd_close_on_exec : bool }.

Record Process := mkProcess {
  parent : option Z;
  working_directory : option (list Z);
  descriptors : gmap Z Descriptor
}.
#[export] Instance Process_eta : Eta Process := fun p => mkProcess (parent p) (working_directory p) (descriptors p).
Definition process_default : Process := mkProcess None None ∅.

Record Fork := mkFork { fork_state : Process; fork_parent_task : Z }.

Record Processes := mkProcesses {
  live : gmap Z Process;
  arrival : list Z;
  forks : gmap Z Fork;
  fork_arrival : list Z
}.
#[export] Instance Processes_eta : Eta Processes := fun p => mkProcesses (live p) (arrival p) (forks p) (fork_arrival p).
Definition processes_default : Processes := mkProcesses ∅ [] ∅ [].

(** ** [normalize] *)

(** [parts] is the vector, reversed. *)
Definition fold_part (parts : list (list Z)) (part : list Z) : list (list Z) :=
  if decide (part = []) then parts
  else if decide (part = [DOT]) then parts
  else if decide (part = [DOT; DOT]) then tail parts
  else part :: parts.

Definition path_parts (path : list Z) : list (list Z) := rev (fold_left fold_part (split_on SLASH path) []).

Definition normalize (path : list Z) : list Z :=
  let normalized := mjoin (map (fun part => SLASH :: part) (path_parts path)) in
  if decide (normalized = []) then [SLASH] else normalized.

(** ** [Process] *)

Definition process_open (fd : Z) (path : list Z) (close_on_exec : bool) (p : Process) : Process :=
  if (MAX_DESCRIPTORS <=? size (descriptors p))%nat && bool_decide (descriptors p !! fd = None) then p
  else p <| descriptors := <[fd := mkDescriptor path close_on_exec]> (descriptors p) |>.

Definition process_close (fd : Z) (p : Process) : Process := p <| descriptors := delete fd (descriptors p) |>.

Definition process_duplicate (from_fd to_fd : Z) (close_on_exec : bool) (p : Process) : Process :=
  match descriptors p !! from_fd with
  | Some source => process_open to_fd (fd_path source) close_on_exec p
  | None => process_close to_fd p
  end.

(** The ends of a range of descriptors as the code compares them. *)
Definition range_first (first : Z) : Z := as_i32 first.
Definition range_last (last : Z) : Z := Z.min last I32_MAX.

Definition process_close_range (first last : Z) (p : Process) : Process :=
  p <| descriptors := filter (fun e => e.1 < range_first first ∨ range_last last < e.1) (descriptors p) |>.

Definition keep_across_exec (p : Process) : Process :=
  p <| descriptors := filter (fun e => fd_close_on_exec e.2 = false) (descriptors p) |>.

(** ** [Processes] *)

Definition processes_contains (process_id : Z) (t : Processes) : bool := bool_decide (live t !! process_id ≠ None).
Definition processes_get (process_id : Z) (t : Processes) : option Process := live t !! process_id.

(** What is written through [get_mut]. *)
Definition processes_update (process_id : Z) (f : Process -> Process) (t : Processes) : Processes :=
  t <| live := alter f process_id (live t) |>.

(** The loop that makes room: the oldest ids, and what is stored under them. *)
Fixpoint evict_oldest {V} (limit : nat) (ids : list Z) (table : gmap Z V) : list Z * gmap Z V :=
  match ids with
  | [] => ([], table)
  | oldest :: rest =>
      if (limit <? length ids)%nat then evict_oldest limit rest (delete oldest table) else (ids, table)
  end.

Definition processes_insert (process_id : Z) (state : Process) (t : Processes) : Processes :=
  let ids := match live t !! process_id with
             | None => arrival t ++ [process_id]
             | Some _ => arrival t
             end in
  let '(ids, table) := evict_oldest MAX_PROCESSES ids (<[process_id := state]> (live t)) in
  t <| live := table |> <| arrival := ids |>.

Definition processes_remove (process_id : Z) (t : Processes) : Processes :=
  t <| live := delete process_id (live t) |> <| forks := delete process_id (forks t) |>.

Definition processes_record_fork (child_id : Z) (state : Process) (parent_task : Z) (t : Processes) : Processes :=
  let '(ids, table) := evict_oldest MAX_PENDING_FORKS (fork_arrival t ++ [child_id])
                         (<[child_id := mkFork state parent_task]> (forks t)) in
  t <| forks := table |> <| fork_arrival := ids |>.

Definition take_fork (child_id : Z) (t : Processes) : option Fork * Processes :=
  (forks t !! child_id, t <| forks := delete child_id (forks t) |>).

Definition parent_task_of_fork (child_id : Z) (t : Processes) : option Z := fork_parent_task <$> forks t !! child_id.

Definition set_working_directory (process_id : Z) (path : list Z) (t : Processes) : Processes :=
  let state := default process_default (live t !! process_id) in
  let t := t <| live := <[process_id := state <| working_directory := Some path |>]> (live t) |> in
  if bool_decide (process_id ∈ arrival t) then t else t <| arrival := arrival t ++ [process_id] |>.

Definition resolve (process_id : option Z) (directory_fd : Z) (path : list Z) (t : Processes) : option (list Z) :=
  if starts_with [SLASH] path then Some (normalize path)
  else
    pid ← process_id;
    process ← live t !! pid;
    base ← (if directory_fd =? AT_FDCWD then working_directory process
            else fd_path <$> descriptors process !! directory_fd);
    if decide (path = []) then Some (normalize base)
    else Some (normalize (base ++ [SLASH] ++ path)).

Definition path_of_descriptor (process_id : option Z) (fd : Z) (t : Processes) : option (list Z) :=
  pid ← process_id;
  process ← live t !! pid;
  fd_path <$> descriptors process !! fd.

(** * Properties

    The process tables of the tracer, and [normalize].

    [normalize] gives every path one spelling: the names that are left after [.]
    and [..] are followed ([path_parts]), each after a slash.  The tables stay
    bounded, and a process is known only while it is among the recent arrivals. *)

(** ** Paths *)

(** A name that is left in a normalized path. *)
Definition plain_name (part : list Z) : Prop := part ≠ [] ∧ part ≠ [DOT] ∧ part ≠ [DOT; DOT] ∧ SLASH ∉ part.

Definition fold_path (parts : list (list Z)) (path : list Z) : list (list Z) :=
  fold_left fold_part (split_on SLASH path) parts.

Lemma split_on_noslash s : Forall (fun p => SLASH ∉ p) (split_on SLASH s).
Proof.
  induction s as [|x s IH]; cbn [split_on]; [apply Forall_singleton; set_solver|].
  destruct (x =? SLASH) eqn:E; bools; [constructor; [set_solver | done]|].
  destruct (split_on SLASH s) as [|p ps]; [apply Forall_singleton; set_solver|].
  apply Forall_cons_iff in IH as [Hp Hps]. constructor; [set_solver | done].
Qed.

Lemma split_on_ne s : split_on SLASH s ≠ [].
Proof. destruct s as [|x s]; cbn [split_on]; [done|]. case_if; [done|]. by destruct (split_on SLASH s). Qed.

Lemma split_on_join s t : split_on SLASH (s ++ SLASH :: t) = split_on SLASH s ++ split_on SLASH t.
Proof.
  induction s as [|x s IH]; cbn [split_on app]; [by rewrite Z.eqb_refl|].
  rewrite IH. case_if; [done|]. pose proof (split_on_ne s). by destruct (split_on SLASH s).
Qed.

Lemma split_on_plain p : SLASH ∉ p → split_on SLASH p = [p].
Proof.
  induction p as [|x p IH]; intros H; cbn [split_on]; [done|].
  destruct (x =? SLASH) eqn:E; bools; [set_solver|]. rewrite IH by set_solver. done.
Qed.

Lemma fold_part_plain parts part : SLASH ∉ part → Forall plain_name parts → Forall plain_name (fold_part parts part).
Proof.
  intros Hs Hp. unfold fold_part. repeat case_decide; auto; [by destruct Hp|]. by constructor.
Qed.

Lemma fold_parts_plain l parts : Forall (fun p => SLASH ∉ p) l → Forall plain_name parts → Forall plain_name (fold_left fold_part l parts).
Proof.
  revert parts. induction l as [|p l IH]; intros parts Hl Hp; cbn; [done|].
  apply Forall_cons_iff in Hl as [? ?]. apply IH; [done|]. by apply fold_part_plain.
Qed.

Lemma path_parts_plain path : Forall plain_name (path_parts path).
Proof. apply Forall_rev, fold_parts_plain; [apply split_on_noslash | constructor]. Qed.

(** What is printed splits into the parts that were printed. *)
Definition print (parts : list (list Z)) : list Z := mjoin (map (fun part => SLASH :: part) parts).

Lemma print_app l m : print (l ++ m) = print l ++ print m.
Proof. unfold print. by rewrite map_app, join_app. Qed.

Lemma split_print parts : Forall plain_name parts → split_on SLASH (print parts) = [] :: parts.
Proof.
  induction parts as [|p parts IH] using rev_ind; intros H; [done|].
  apply Forall_app in H as [H Hp]. apply Forall_cons_iff in Hp as [(_ & _ & _ & Hp) _].
  rewrite print_app. cbn [print map mjoin list_join]. rewrite app_nil_r, split_on_join, IH, split_on_plain by done. done.
Qed.

Lemma fold_part_push parts part : plain_name part → fold_part parts part = part :: parts.
Proof. intros (? & ? & ? & _). unfold fold_part. by rewrite !decide_False by done. Qed.

Lemma fold_plain l parts : Forall plain_name l → fold_left fold_part l parts = rev l ++ parts.
Proof.
  revert parts. induction l as [|p l IH]; intros parts H; cbn; [done|].
  apply Forall_cons_iff in H as [Hp Hl]. rewrite fold_part_push, IH by done. by rewrite <- app_assoc.
Qed.

Lemma fold_nil parts : fold_part parts [] = parts.
Proof. done. Qed.

Lemma normalize_print path : normalize path = if decide (path_parts path = []) then [SLASH] else print (path_parts path).
Proof.
  unfold normalize, print. destruct (path_parts path) as [|p l]; [done|]. by rewrite !decide_False by done.
Qed.

(** Folding a normalized path onto nothing gives back its parts. *)
Lemma fold_normalize path : fold_path [] (normalize path) = rev (path_parts path).
Proof.
  rewrite normalize_print. unfold fold_path. case_decide as E; [by rewrite E|].
  rewrite split_print by apply path_parts_plain. cbn [fold_left]. rewrite fold_nil, fold_plain by apply path_parts_plain.
  apply app_nil_r.
Qed.

Lemma path_parts_normalize path : path_parts (normalize path) = path_parts path.
Proof. unfold path_parts at 1. fold (fold_path [] (normalize path)). by rewrite fold_normalize, rev_involutive. Qed.

(** Two paths with the same parts are spelled the same. *)
Lemma normalize_parts p q : path_parts p = path_parts q → normalize p = normalize q.
Proof. intros E. by rewrite !normalize_print, E. Qed.

Lemma normalize_idempotent path : normalize (normalize path) = normalize path.
Proof. apply normalize_parts, path_parts_normalize. Qed.

Lemma path_parts_join base path : path_parts (base ++ [SLASH] ++ path) = rev (fold_path (rev (path_parts base)) path).
Proof.
  unfold path_parts, fold_path. cbn [app]. by rewrite split_on_join, fold_left_app, rev_involutive.
Qed.

(** A path below a base may be resolved from the base's normal form. *)
Lemma normalize_join base base' path :
  normalize base = normalize base' → normalize (base ++ [SLASH] ++ path) = normalize (base' ++ [SLASH] ++ path).
Proof.
  intros E. apply normalize_parts. rewrite !path_parts_join, <- (path_parts_normalize base), E. by rewrite path_parts_normalize.
Qed.

(** A normalized path starts with a slash, and between its slashes
    there are only names: none is empty, [.] or [..]; normalizing it again
    changes nothing, and a path below it resolves as it does below the original. *)
Theorem normalized_paths base path :
  (∃ parts, Forall plain_name parts ∧ normalize base = if decide (parts = []) then [SLASH] else print parts)
  ∧ normalize (normalize base) = normalize base
  ∧ normalize (normalize base ++ [SLASH] ++ path) = normalize (base ++ [SLASH] ++ path).
Proof.
  split_and!.
  - exists (path_parts base). split; [apply path_parts_plain | apply normalize_print].
  - apply normalize_idempotent.
  - apply normalize_join, normalize_idempotent.
Qed.

(** ** The tables *)

#[local] Opaque MAX_PROCESSES MAX_PENDING_FORKS MAX_DESCRIPTORS.

Definition process_bounded (p : Process) : Prop := (size (descriptors p) <= MAX_DESCRIPTORS)%nat.

(** [n] is the number of working directories that were seeded from outside:
    [set_working_directory] adds an arrival without making room. *)
Record table_bounded (n : nat) (t : Processes) : Prop := {
  tb_live : dom (live t) ⊆ list_to_set (arrival t);
  tb_arrival : (length (arrival t) <= MAX_PROCESSES + n)%nat;
  tb_forks : dom (forks t) ⊆ list_to_set (fork_arrival t);
  tb_fork_arrival : (length (fork_arrival t) <= MAX_PENDING_FORKS)%nat;
  tb_process pid p : live t !! pid = Some p → process_bounded p;
  tb_fork pid f : forks t !! pid = Some f → process_bounded (fork_state f)
}.

Lemma default_bounded : process_bounded process_default.
Proof. unfold process_bounded, process_default, descriptors. rewrite map_size_empty. lia. Qed.

Lemma size_of_arrivals {V} (ids : list Z) (m : gmap Z V) : dom m ⊆ list_to_set ids → (size m <= length ids)%nat.
Proof.
  intros H. rewrite <- size_dom. transitivity (size (list_to_set ids : gset Z)); [by apply subseteq_size|].
  clear H. induction ids as [|x ids IH]; cbn; [by rewrite size_empty|].
  rewrite size_union_alt, size_singleton.
  assert (size (list_to_set (C := gset Z) ids ∖ {[x]}) <= size (list_to_set (C := gset Z) ids))%nat by (apply subseteq_size; set_solver).
  lia.
Qed.

Lemma evict_oldest_spec {V} limit ids (m : gmap Z V) ids' m' :
  evict_oldest limit ids m = (ids', m') → dom m ⊆ list_to_set ids →
  (length ids' <= limit)%nat ∧ dom m' ⊆ list_to_set ids' ∧ m' ⊆ m.
Proof.
  revert m. induction ids as [|x ids IH]; intros m; cbn [evict_oldest].
  { intros [= <- <-] H. split_and!; [cbn; lia | done..]. }
  destruct (Nat.ltb_spec limit (length (x :: ids))); [|by intros [= <- <-]].
  intros E H1. destruct (IH _ E) as (? & ? & Hs); [rewrite dom_delete_L; set_solver|].
  split_and!; [done..|]. etrans; [exact Hs | apply delete_subseteq].
Qed.

Lemma insert_bounded n pid p t : process_bounded p → table_bounded n t → table_bounded n (processes_insert pid p t).
Proof.
  intros Hp [L1 L2 F1 F2 P1 P2]. unfold processes_insert. cbv zeta.
  destruct (evict_oldest _ _ _) as [ids m] eqn:E. apply evict_oldest_spec in E as (E1 & E2 & E3).
  - split; cbn; [done | lia | done | done | | done]. intros q r Hq.
    pose proof (lookup_weaken _ _ _ _ Hq E3) as H. apply lookup_insert_Some in H as [[<- <-]|[_ ?]]; eauto.
  - rewrite dom_insert_L. destruct (live t !! pid) as [r|] eqn:El; [|set_solver].
    apply elem_of_dom_2 in El. set_solver.
Qed.

Lemma record_fork_bounded n pid p task t : process_bounded p → table_bounded n t → table_bounded n (processes_record_fork pid p task t).
Proof.
  intros Hp [L1 L2 F1 F2 P1 P2]. unfold processes_record_fork.
  destruct (evict_oldest _ _ _) as [ids m] eqn:E. apply evict_oldest_spec in E as (E1 & E2 & E3).
  - split; cbn; [done.. | ]. intros q r Hq.
    pose proof (lookup_weaken _ _ _ _ Hq E3) as H. apply lookup_insert_Some in H as [[<- <-]|[_ ?]]; eauto.
  - rewrite dom_insert_L. set_solver.
Qed.

Lemma remove_bounded n pid t : table_bounded n t → table_bounded n (processes_remove pid t).
Proof.
  intros [L1 L2 F1 F2 P1 P2]. split; cbn; try done; try (rewrite dom_delete_L; set_solver);
    intros q r Hq; apply lookup_delete_Some in Hq as [_ Hq]; eauto.
Qed.

Lemma take_fork_bounded n pid t :
  table_bounded n t → table_bounded n (take_fork pid t).2 ∧ ∀ f, (take_fork pid t).1 = Some f → process_bounded (fork_state f).
Proof.
  intros [L1 L2 F1 F2 P1 P2]. split; [|cbn; eauto]. split; cbn; try done; [rewrite dom_delete_L; set_solver|].
  intros q r Hq. apply lookup_delete_Some in Hq as [_ Hq]. eauto.
Qed.

Lemma update_bounded n pid f t :
  (∀ p, process_bounded p → process_bounded (f p)) → table_bounded n t → table_bounded n (processes_update pid f t).
Proof.
  intros Hf [L1 L2 F1 F2 P1 P2]. split; cbn; try done; [by rewrite dom_alter_L|].
  intros q r Hq. destruct (decide (pid = q)) as [->|Hne].
  - rewrite lookup_alter_eq in Hq. apply fmap_Some in Hq as (p & Hp & ->). eauto.
  - rewrite lookup_alter_ne in Hq by done. eauto.
Qed.

Lemma seed_bounded n pid path t : table_bounded n t → table_bounded (S n) (set_working_directory pid path t).
Proof.
  intros [L1 L2 F1 F2 P1 P2]. unfold set_working_directory. cbv zeta.
  assert (Hs : process_bounded ((default process_default (live t !! pid)) <| working_directory := Some path |>)).
  { destruct (live t !! pid) as [p|] eqn:E; [exact (P1 pid p E) | exact default_bounded]. }
  assert (Hl : ∀ q r, <[pid := (default process_default (live t !! pid)) <| working_directory := Some path |>]> (live t) !! q = Some r →
            process_bounded r).
  { intros q r Hq. apply lookup_insert_Some in Hq as [[<- <-]|[_ ?]]; eauto. }
  cbn [arrival set]. case_bool_decide as E; split; cbn; try done; try (rewrite dom_insert_L; set_solver); rewrite ?length_app; cbn; lia.
Qed.

(** *** Single processes *)

Lemma open_bounded fd path c p : process_bounded p → process_bounded (process_open fd path c p).
Proof.
  unfold process_bounded, process_open. intros H. case_if; [done|]. cbn. rewrite map_size_insert.
  destruct (descriptors p !! fd) eqn:El; [done|]. apply andb_false_iff in E as [E|E]; [apply Nat.leb_gt in E; lia|].
  by apply bool_decide_eq_false in E.
Qed.

Lemma close_bounded fd p : process_bounded p → process_bounded (process_close fd p).
Proof.
  unfold process_bounded. intros H. etrans; [|exact H]. apply map_subseteq_size, delete_subseteq.
Qed.

Lemma duplicate_bounded from to c p : process_bounded p → process_bounded (process_duplicate from to c p).
Proof. unfold process_duplicate. destruct (_ !! from); [apply open_bounded | apply close_bounded]. Qed.

Lemma close_range_bounded first last p : process_bounded p → process_bounded (process_close_range first last p).
Proof. unfold process_bounded. intros H. etrans; [|exact H]. apply map_subseteq_size, map_filter_subseteq. Qed.

Lemma exec_bounded p : process_bounded p → process_bounded (keep_across_exec p).
Proof. unfold process_bounded. intros H. etrans; [|exact H]. apply map_subseteq_size, map_filter_subseteq. Qed.

Create HintDb bounded.
#[export] Hint Resolve insert_bounded record_fork_bounded remove_bounded update_bounded open_bounded close_bounded duplicate_bounded
  close_range_bounded exec_bounded default_bounded : bounded.

(** *** Where the bound is reached too early *)

(** A process that comes and goes. *)
Definition short_lived (t : Processes) : Processes := processes_remove 2 (processes_insert 2 process_default t).

Lemma max_processes_pos : (0 < MAX_PROCESSES)%nat.
Proof. by apply Nat2Z.inj_lt; vm_compute. Qed.

Lemma evict_within {V} limit ids (m : gmap Z V) : (length ids <= limit)%nat → evict_oldest limit ids m = (ids, m).
Proof. destruct ids; [done|]. intros H. cbn [evict_oldest]. by rewrite (proj2 (Nat.ltb_ge _ _) H). Qed.

Lemma evict_one {V} limit x ids (m : gmap Z V) : length ids = limit → evict_oldest limit (x :: ids) m = (ids, delete x m).
Proof.
  intros H. cbn [evict_oldest]. rewrite (proj2 (Nat.ltb_lt _ _)) by (cbn; lia). apply evict_within. lia.
Qed.

(** Exited processes stay among the arrivals. *)
Lemma short_lived_stay n t :
  live t !! 2 = None → forks t !! 2 = None → (length (arrival t) + n <= MAX_PROCESSES)%nat →
  Nat.iter n short_lived t = t <| arrival := arrival t ++ replicate n 2 |>.
Proof.
  intros Hl Hf. induction n as [|n IH]; intros Hn; [cbn; rewrite app_nil_r; by destruct t|].
  change (Nat.iter (S n) short_lived t) with (short_lived (Nat.iter n short_lived t)). rewrite IH by lia. unfold short_lived, processes_insert. cbn [live arrival set]. rewrite Hl, evict_within
    by (rewrite !length_app, length_replicate; cbn; lia).
  destruct t as [l a f fa]. cbn in *. unfold processes_remove. cbn. rewrite delete_insert_id, (delete_id f) by done.
  by rewrite <- app_assoc, <- replicate_S_end.
Qed.

(** The next arrival takes the place of the oldest, which may be itself. *)
Lemma insert_full x t pid :
  live t !! pid = None → arrival t = x :: replicate (MAX_PROCESSES - 1) 2 → live (processes_insert pid process_default t) = delete x (<[pid := process_default]> (live t)).
Proof.
  intros Hl Ha. pose proof max_processes_pos. unfold processes_insert. rewrite Hl, Ha. cbn [app].
  rewrite evict_one by (rewrite length_app, length_replicate; cbn; lia). done.
Qed.

(** A shell that runs 4096 other processes, one after the other, is no longer
    known. *)
Lemma exited_processes_crowd_out :
  processes_contains 1 (Nat.iter MAX_PROCESSES short_lived (processes_insert 1 process_default processes_default)) = false.
Proof.
  pose proof max_processes_pos as Hp. assert (Hm : MAX_PROCESSES = S (MAX_PROCESSES - 1)) by lia.
  set (t0 := processes_insert 1 process_default processes_default).
  assert (Ht : t0 = mkProcesses {[1 := process_default]} [1] ∅ []).
  { subst t0. unfold processes_insert. cbn [live arrival processes_default]. rewrite lookup_empty, evict_within by (cbn; lia). done. }
  rewrite Hm. change (Nat.iter (S ?n) short_lived t0) with (short_lived (Nat.iter n short_lived t0)). rewrite short_lived_stay by (rewrite Ht; cbn; first [reflexivity | lia]). unfold short_lived at 1, processes_contains.
  apply bool_decide_eq_false. intros H. apply H. clear H. cbn [processes_remove live set]. rewrite insert_full with (x := 1) by (by rewrite Ht).
  by rewrite lookup_delete_ne, lookup_delete_eq.
Qed.

(** A process that takes an id again can be the oldest arrival itself: it is
    forgotten as it is inserted. *)
Lemma inserted_process_lost :
  let t := Nat.iter (MAX_PROCESSES - 1) short_lived (processes_remove 5 (processes_insert 5 process_default processes_default)) in
  processes_contains 5 (processes_insert 5 process_default t) = false.
Proof.
  pose proof max_processes_pos as Hm.
  set (t0 := processes_remove 5 _).
  assert (Ht : t0 = mkProcesses ∅ [5] ∅ []).
  { subst t0. unfold processes_insert. cbn [live arrival processes_default]. rewrite lookup_empty, evict_within by (cbn; lia). done. }
  cbv zeta. rewrite short_lived_stay by (rewrite Ht; cbn; first [reflexivity | lia]). unfold processes_contains.
  apply bool_decide_eq_false. intros H. apply H. rewrite insert_full with (x := 5) by (by rewrite Ht). apply lookup_delete_eq.
Qed.

(** A range that starts beyond every descriptor closes all of them: the start is
    compared as a negative number. *)
Lemma high_range_closes_all :
  let p := process_open 3 [SLASH] false process_default in
  descriptors (process_close_range (2 ^ 31) (2 ^ 32 - 1) p) = ∅.
Proof. vm_compute. reflexivity. Qed.
