(* ===== verification/Identity.v ===== *)
(** Finding process ids in the guest kernel's task structures
    ([machine/src/trace/identity.rs]).

    Where a task keeps its ids is learnt by looking for the answers of calls such
    as [getpid] in its memory; an offset that two different answers support is
    taken.  A [HashMap] is a finite map; where the code takes the one entry with
    the most support, or the lowest of them, the order of the map does not matter. *)
From S2P Require Import Prelude Words SystemBus SyscallTrace.

Definition IDENTITY_SCAN_BYTES : Z := 8192.
Definition PARENT_SCAN_BYTES : Z := 256.
Definition REQUIRED_SUPPORT : nat := 2.
Definition MAX_CANDIDATES : nat := Z.to_nat 512.
Definition PID_MAX_LIMIT : Z := 4 * 1024 * 1024.

Record TaskLayout := mkLayout { thread_id : Z; process_id : Z; real_parent : option Z }.
#[export] Instance TaskLayout_eta : Eta TaskLayout := fun l => mkLayout (thread_id l) (process_id l) (real_parent l).

Record Identities := mkIdentities {
  layout : option TaskLayout;
  identity_support : gmap Z (list Z);
  parent_support : gmap Z (list Z)
}.
#[export] Instance Identities_eta : Eta Identities := fun i => mkIdentities (layout i) (identity_support i) (parent_support i).
Definition identities_default : Identities := mkIdentities None ∅ ∅.

Definition calibrated (i : Identities) : bool := bool_decide (layout i ≠ None).
Definition knows_parents (i : Identities) : bool :=
  match layout i with Some l => bool_decide (real_parent l ≠ None) | None => false end.

Definition is_kernel_pointer (pointer : Z) : bool := (Z.shiftr pointer 56 =? 0xff) && (pointer mod 8 =? 0).

(** ** The tables of candidates *)

Definition support (offset value : Z) (table : gmap Z (list Z)) : gmap Z (list Z) :=
  if (MAX_CANDIDATES <=? size table)%nat && bool_decide (table !! offset = None) then table
  else
    let seen := default [] (table !! offset) in
    <[offset := if bool_decide (value ∈ seen) then seen else seen ++ [value]]> table.

(** [table.values().map(Vec::len).max()], 0 for an empty table: the callers ask
    for at least [REQUIRED_SUPPORT]. *)
Definition best_support (table : gmap Z (list Z)) : nat := map_fold (fun _ values => Nat.max (length values)) 0%nat table.

Definition winners (table : gmap Z (list Z)) : list Z :=
  (map_to_list (filter (fun e => length e.2 = best_support table) table)).*1.

Definition settled (table : gmap Z (list Z)) : option Z :=
  if (best_support table <? REQUIRED_SUPPORT)%nat then None
  else match winners table with
       | [first] => Some first
       | _ => None
       end.

Definition lowest_settled (table : gmap Z (list Z)) : option Z :=
  if (REQUIRED_SUPPORT <=? best_support table)%nat then
    match winners table with
    | [] => None
    | first :: rest => Some (fold_left Z.min rest first)
    end
  else None.

Section Guest.
Context {B : Type} {SB : SystemBus B} {HM : HostMemory B}.

(** A read through a [GuestMemory] of its own. *)
Definition with_memory {A} (satp : Z) (m : ST (GuestMemory * B) A) : ST B A :=
  zoom (fun b => (guest_memory_new satp, b)) (fun s _ => s.2) m.

(** The words of a task from [offset] on that, with the word before, say [value]. *)
Fixpoint scan_identity (n : nat) (offset task value : Z) (previous : option Z) : ST (GuestMemory * B) (list Z) :=
  match n with
  | O => mret []
  | S n =>
      w ← gm_u32 (wrapping_add64 task offset);
      match w with
      | None => mret []
      | Some word =>
          rest ← scan_identity n (offset + 4) task value (Some word);
          mret (if (word =? value) && bool_decide (previous = Some value) then (offset - 4) :: rest else rest)
      end
  end.

(** The doublewords of a child from [offset] on that say [parent_task]. *)
Fixpoint scan_parent (n : nat) (offset child_task parent_task : Z) : ST (GuestMemory * B) (list Z) :=
  match n with
  | O => mret []
  | S n =>
      w ← gm_u64 (wrapping_add64 child_task offset);
      match w with
      | None => mret []
      | Some word =>
          rest ← scan_parent n (offset + 8) child_task parent_task;
          mret (if word =? parent_task then offset :: rest else rest)
      end
  end.

(** What is concluded from the offsets found. *)
Definition conclude_identity (found : list Z) (value : Z) (i : Identities) : Identities :=
  let table := fold_left (fun t offset => support offset value t) found (identity_support i) in
  match settled table with
  | Some offset => i <| layout := Some (mkLayout offset (offset + 4) None) |> <| identity_support := ∅ |>
  | None => i <| identity_support := table |>
  end.

Definition observe_identity (task value satp : Z) (i : Identities) : ST B Identities :=
  if calibrated i || (value =? 0) || (PID_MAX_LIMIT <? value) then mret i
  else
    found ← with_memory satp (scan_identity (Z.to_nat (IDENTITY_SCAN_BYTES / 4)) 0 task value None);
    mret (conclude_identity found value i).

Definition conclude_parent (found : list Z) (parent_task : Z) (i : Identities) : Identities :=
  let table := fold_left (fun t offset => support offset parent_task t) found (parent_support i) in
  match lowest_settled table, layout i with
  | Some offset, Some l => i <| layout := Some (l <| real_parent := Some offset |>) |> <| parent_support := ∅ |>
  | _, _ => i <| parent_support := table |>
  end.

(** [next_multiple_of(8)] *)
Definition next_multiple_of_8 (n : Z) : Z := (n + 7) / 8 * 8.

Definition observe_parent (child_task parent_task satp : Z) (i : Identities) : ST B Identities :=
  match layout i with
  | None => mret i
  | Some l =>
      if bool_decide (real_parent l ≠ None) || negb (is_kernel_pointer parent_task) then mret i
      else
        let start := next_multiple_of_8 (process_id l + 4) in
        found ← with_memory satp (scan_parent (Z.to_nat (PARENT_SCAN_BYTES / 8)) start child_task parent_task);
        mret (conclude_parent found parent_task i)
  end.

(** An id read from a task, if it can be one. *)
Definition id_at (address satp : Z) : ST B (option Z) :=
  v ← with_memory satp (gm_u32 address);
  mret (match v with
        | Some value => if (0 <? value) && (value <=? PID_MAX_LIMIT) then Some value else None
        | None => None
        end).

Definition process_of (task satp : Z) (i : Identities) : ST B (option Z) :=
  match layout i with
  | None => mret None
  | Some l => id_at (wrapping_add64 task (process_id l)) satp
  end.

Definition thread_of (task satp : Z) (i : Identities) : ST B (option Z) :=
  match layout i with
  | None => mret None
  | Some l => id_at (wrapping_add64 task (thread_id l)) satp
  end.

Definition parent_task_of (task satp : Z) (i : Identities) : ST B (option Z) :=
  match layout i ≫= real_parent with
  | None => mret None
  | Some offset =>
      p ← with_memory satp (gm_u64 (wrapping_add64 task offset));
      mret (match p with
            | Some pointer => if is_kernel_pointer pointer then Some pointer else None
            | None => None
            end)
  end.
End Guest.
