(* ===== verification/Syscalls.v ===== *)
(** Following system calls ([machine/src/trace/syscalls.rs]).

    A call is remembered when it is entered and finished when its task returns to
    the instruction after it; the tracer keeps what it knows of processes up to
    date and writes an event.  The recorder is shared with other tracers behind a
    lock; it is a field here, and what others write to it falls between the
    operations.  The wall clock is a function of the sequence number the recorder
    is at when it is read. *)
From Stdlib Require Import String.
From S2P Require Import Prelude Words SystemBus SyscallEntry SyscallTrace Dtb HostFs Text Trace Processes Identity.

Class WallClock := wall_ms : Z -> Z.

Definition VPOD_HELPER_PREFIX : list Z := as_bytes "/usr/lib/vpod/".
Definition VPOD_STAGING_PREFIX : list Z := as_bytes "/tmp/.vpod_".
Definition VPOD_DEVICES : list (list Z) := [as_bytes "/dev/ttyS1"; as_bytes "/dev/ttyS2"; as_bytes "/dev/ttyS3"].

Definition SOCK_TYPE_MASK : Z := 0xf.
Definition SOCK_STREAM : Z := 1.
Definition SOCK_DGRAM : Z := 2.

Definition MAX_ADOPTION_DEPTH : nat := 8.
Definition MAX_TASKS_BY_ID : nat := Z.to_nat 1024.

(** ** Owners, pending calls, paths *)

Inductive Owner : Type := OProcess (process_id : Z) | OTask (task : Z).
#[export] Instance Owner_eq_dec : EqDecision Owner.
Proof. solve_decision. Defined.
#[export] Instance Owner_countable : Countable Owner.
Proof.
  refine (inj_countable' (fun o => match o with OProcess p => inl p | OTask t => inr t end)
            (fun s : Z + Z => match s with inl p => OProcess p | inr t => OTask t end) _).
  by intros [].
Defined.

Definition owner_process (o : Owner) : option Z :=
  match o with OProcess process_id => Some process_id | OTask _ => None end.

Record PathKeys := mkKeys { key_value : list Z; key_truncated : list Z; key_unreadable : list Z; key_unresolved : list Z }.
Definition path_keys (name : string) : PathKeys :=
  mkKeys (as_bytes name) (as_bytes name ++ as_bytes "_truncated") (as_bytes name ++ as_bytes "_unreadable")
    (as_bytes name ++ as_bytes "_unresolved").
Definition PATH_KEYS : PathKeys := path_keys "path".
Definition FROM_KEYS : PathKeys := path_keys "from".
Definition TO_KEYS : PathKeys := path_keys "to".

Record PathField := mkField { pf_text : option (list Z); pf_truncated : bool; pf_unreadable : bool; pf_unresolved : bool }.
Definition field_unknown : PathField := mkField None false false true.
Definition field_known (path : list Z) : PathField := mkField (Some path) false false false.
Definition resolved (f : PathField) : option (list Z) :=
  if pf_unresolved f || pf_truncated f then None else pf_text f.

Record Pending := mkPending { return_pc : Z; pending_kind : SyscallKind }.

Inductive ExecOutcome : Type := Succeeded | Failed (value : Z) | Unknown.

(** ** The tracer *)

Record SyscallTracer := mkTracer {
  options : TraceOptions;
  recorder : Recorder;
  trace_processes : bool;
  trace_files : bool;
  trace_network : bool;
  quiet : bool;
  reported_blind : bool;
  identities : Identities;
  table : Processes;
  pending : gmap Z Pending;
  tasks_by_id : gmap Z Z;
  internal_owners : gset Owner;
  socket_protocols : gmap (Owner * Z) (list Z);
  bound_sockets : gmap (Owner * Z) SocketAddr
}.
#[export] Instance SyscallTracer_eta : Eta SyscallTracer := fun t =>
  mkTracer (options t) (recorder t) (trace_processes t) (trace_files t) (trace_network t) (quiet t) (reported_blind t)
    (identities t) (table t) (pending t) (tasks_by_id t) (internal_owners t) (socket_protocols t) (bound_sockets t).

Definition tracer_new (o : TraceOptions) (r : Recorder) : SyscallTracer :=
  mkTracer o r (Trace.processes o) (files o) (network o) false false identities_default processes_default ∅ ∅ ∅ ∅ ∅.

Definition set_quiet (q : bool) (t : SyscallTracer) : SyscallTracer := t <| quiet := q |>.
Definition knows_process_ids (t : SyscallTracer) : bool := calibrated (identities t).
Definition seed_working_directory (process_id : Z) (path : list Z) (t : SyscallTracer) : SyscallTracer :=
  t <| table := set_working_directory process_id path (table t) |>.

(** What is written through [process_mut]. *)
Definition process_mut (owner : Owner) (f : Process -> Process) (t : SyscallTracer) : SyscallTracer :=
  match owner_process owner with
  | Some process_id => t <| table := processes_update process_id f (table t) |>
  | None => t
  end.

Definition parent_of (owner : Owner) (t : SyscallTracer) : option Z :=
  pid ← owner_process owner; process ← processes_get pid (table t); parent process.

Definition is_cloning (task : Z) (t : SyscallTracer) : bool :=
  match pending t !! task with
  | Some p => match pending_kind p with SkClone _ => true | _ => false end
  | None => false
  end.

Definition path_field (owner : Owner) (directory_fd : Z) (path : GuestString) (t : SyscallTracer) : PathField :=
  let of_text text truncated :=
    match resolve (owner_process owner) directory_fd text (table t) with
    | Some r => mkField (Some r) truncated false false
    | None => mkField (Some text) truncated false true
    end in
  match path with
  | GuestUnreadable => mkField None false true false
  | GuestValue text => of_text text false
  | GuestTruncated text => of_text text true
  end.

Definition descriptor_field (owner : Owner) (fd : Z) (t : SyscallTracer) : PathField :=
  match path_of_descriptor (owner_process owner) fd (table t) with
  | Some path => field_known path
  | None => field_unknown
  end.

(** ** The fields of an event *)

(** [Ipv6Addr]'s notation: the longest run of zeroes is left out. *)
Fixpoint zero_run (i : nat) (segments : list Z) (current longest : nat * nat) : nat * nat :=
  match segments with
  | [] => longest
  | s :: segments =>
      if s =? 0 then
        let current := (if Nat.eqb current.2 0 then i else current.1, S current.2) in
        zero_run (S i) segments current (if (longest.2 <? current.2)%nat then current else longest)
      else zero_run (S i) segments (0, 0)%nat longest
  end.
Fixpoint segments_of (octets : list Z) : list Z :=
  match octets with
  | a :: b :: rest => (a * 256 + b) :: segments_of rest
  | _ => []
  end.
Fixpoint join_segments (segments : list Z) : list Z :=
  match segments with
  | [] => []
  | [s] => format_hex s
  | s :: rest => format_hex s ++ [58] ++ join_segments rest
  end.
Definition format_address6 (octets : list Z) : list Z :=
  if decide (take 12 octets = replicate 10 0 ++ [255; 255]) then as_bytes "::ffff:" ++ format_address (drop 12 octets)
  else
    let segments := segments_of octets in
    let run := zero_run 0 segments (0, 0)%nat (0, 0)%nat in
    if (1 <? run.2)%nat then join_segments (take run.1 segments) ++ [58; 58] ++ join_segments (drop (run.1 + run.2) segments)
    else join_segments segments.

(** [address.ip().to_string()], [address.port()] and [name_of(address.ip())] *)
Definition address_text (a : SocketAddr) : list Z :=
  match a with SocketV4 o _ => format_address o | SocketV6 o _ => format_address6 o end.
Definition address_port (a : SocketAddr) : Z := match a with SocketV4 _ p | SocketV6 _ p => p end.
Definition address_name (a : SocketAddr) (t : SyscallTracer) : option (list Z) :=
  match a with SocketV4 o _ => name_of o (recorder t) | SocketV6 _ _ => None end.

Definition optional (s : option (list Z)) : Value := match s with Some s => VString s | None => VNull end.
Definition fld (name : string) (v : Value) : list Z * Value := (as_bytes name, v).

Definition identity_fields (owner : Owner) (task : Z) : Fields :=
  [fld "task" (VString (format_hex task)); fld "pid" (match owner_process owner with Some p => VNumber p | None => VNull end)].

Definition push_path (keys : PathKeys) (f : PathField) : Fields :=
  [(key_value keys, optional (pf_text f))]
  ++ (if pf_truncated f then [(key_truncated keys, VBool true)] else [])
  ++ (if pf_unreadable f then [(key_unreadable keys, VBool true)] else [])
  ++ (if pf_unresolved f then [(key_unresolved keys, VBool true)] else []).

Definition handles_only_staging_files (argv : list (list Z)) : bool :=
  match argv with
  | [] => false
  | program :: arguments =>
      let program := List.last (split_on SLASH program) program in
      let operands := List.filter (fun a => negb (starts_with [45] a)) arguments in
      (bool_decide (program = as_bytes "base64") || bool_decide (program = as_bytes "rm"))
      && negb (bool_decide (operands = [])) && forallb (starts_with VPOD_STAGING_PREFIX) operands
  end.

Definition is_vpod_plumbing (f : PathField) : bool :=
  match resolved f with
  | Some text => bool_decide (text ∈ VPOD_DEVICES) || starts_with VPOD_STAGING_PREFIX text
  | None => false
  end.

(** ** Recording *)

Section Tracer.
Context {J : Json} {W : WallClock}.

Definition syscall_record (kind : string) (fields : Fields) (internal : bool) (t : SyscallTracer) : SyscallTracer :=
  if quiet t then t
  else
    let fields := if internal then fields ++ [fld "internal" (VBool true)] else fields in
    let r := recorder t in
    t <| recorder := Trace.record (buffer_bytes (options t)) (wall_ms (next_seq r)) (as_bytes kind) fields r |>.

Definition emit_truncate (owner : Owner) (task : Z) (field : PathField) (size : Z) (result : Value) (internal_owner : bool)
    (t : SyscallTracer) : SyscallTracer :=
  if negb (trace_files t) then t
  else
    let internal := internal_owner || is_vpod_plumbing field in
    let fields := identity_fields owner task ++ push_path PATH_KEYS field
                  ++ [fld "size" (VNumber size); fld "result" result] in
    syscall_record "file.truncate" fields internal t.

(** ** The arms of [finish] that do not look at guest memory *)

Definition finish_ring (owner : Owner) (task : Z) (succeeded : bool) (t : SyscallTracer) : SyscallTracer :=
  if negb succeeded || reported_blind t then t
  else
    let t := t <| reported_blind := true |> in
    syscall_record "trace.blind" (identity_fields owner task ++ [fld "reason" (VString (as_bytes "io-uring"))]) false t.

Definition finish_open (owner : Owner) (task directory_fd : Z) (path : GuestString)
    (write read_write create truncate close_on_exec : bool) (value : Z) (internal_owner : bool) (t : SyscallTracer) : SyscallTracer :=
  let field := path_field owner directory_fd path t in
  let t := match resolved field with
           | Some text => if 0 <=? value then process_mut owner (process_open (as_i32 value) text close_on_exec) t else t
           | None => t
           end in
  if negb (trace_files t) then t
  else
    let access := if read_write then "read-write"%string else if write then "write"%string else "read"%string in
    let internal := internal_owner || is_vpod_plumbing field in
    let fields := identity_fields owner task ++ push_path PATH_KEYS field
                  ++ [fld "access" (VString (as_bytes access)); fld "create" (VBool create);
                      fld "truncate" (VBool truncate); fld "result" (VNumber (as_i32 value))] in
    syscall_record "file.open" fields internal t.

Definition finish_rename (owner : Owner) (task from_fd : Z) (from : GuestString) (to_fd : Z) (to : GuestString) (value : Z)
    (internal_owner : bool) (t : SyscallTracer) : SyscallTracer :=
  let from := path_field owner from_fd from t in
  let to := path_field owner to_fd to t in
  if negb (trace_files t) then t
  else
    let internal := internal_owner || is_vpod_plumbing from || is_vpod_plumbing to in
    let fields := identity_fields owner task ++ push_path FROM_KEYS from ++ push_path TO_KEYS to
                  ++ [fld "result" (VNumber (as_i32 value))] in
    syscall_record "file.rename" fields internal t.

Definition finish_unlink (owner : Owner) (task directory_fd : Z) (path : GuestString) (directory : bool) (value : Z)
    (internal_owner : bool) (t : SyscallTracer) : SyscallTracer :=
  let field := path_field owner directory_fd path t in
  if negb (trace_files t) then t
  else
    let internal := internal_owner || is_vpod_plumbing field in
    let fields := identity_fields owner task ++ push_path PATH_KEYS field
                  ++ [fld "directory" (VBool directory); fld "result" (VNumber (as_i32 value))] in
    syscall_record "file.delete" fields internal t.

Definition finish_mkdir (owner : Owner) (task directory_fd : Z) (path : GuestString) (value : Z) (internal_owner : bool)
    (t : SyscallTracer) : SyscallTracer :=
  let field := path_field owner directory_fd path t in
  if negb (trace_files t) then t
  else
    let internal := internal_owner || is_vpod_plumbing field in
    let fields := identity_fields owner task ++ push_path PATH_KEYS field ++ [fld "result" (VNumber (as_i32 value))] in
    syscall_record "dir.create" fields internal t.

Definition finish_chdir (owner : Owner) (path : GuestString) (value : Z) (t : SyscallTracer) : SyscallTracer :=
  if negb (value =? 0) then t
  else
    match resolved (path_field owner AT_FDCWD path t) with
    | Some text => process_mut owner (fun p => p <| working_directory := Some text |>) t
    | None => t
    end.

Definition finish_fchdir (owner : Owner) (fd value : Z) (t : SyscallTracer) : SyscallTracer :=
  if negb (value =? 0) then t
  else
    match path_of_descriptor (owner_process owner) fd (table t) with
    | Some path => process_mut owner (fun p => p <| working_directory := Some path |>) t
    | None => t
    end.

Definition finish_duplicate (owner : Owner) (from_fd to_fd : Z) (close_on_exec : bool) (value : Z) (t : SyscallTracer) : SyscallTracer :=
  if 0 <=? value then process_mut owner (process_duplicate from_fd to_fd close_on_exec) t else t.

Definition finish_close (owner : Owner) (fd value : Z) (t : SyscallTracer) : SyscallTracer :=
  if negb (0 <=? value) then t
  else
    let t := process_mut owner (process_close fd) t in
    t <| socket_protocols := delete (owner, fd) (socket_protocols t) |> <| bound_sockets := delete (owner, fd) (bound_sockets t) |>.

(** [retain] of the sockets outside a range of an owner's descriptors. *)
Definition outside {V} (owner : Owner) (first last : Z) (sockets : gmap (Owner * Z) V) : gmap (Owner * Z) V :=
  filter (fun e => e.1.1 ≠ owner ∨ e.1.2 < first ∨ last < e.1.2) sockets.

Definition finish_close_range (owner : Owner) (first last value : Z) (t : SyscallTracer) : SyscallTracer :=
  if negb (0 <=? value) then t
  else
    let t := process_mut owner (process_close_range first last) t in
    t <| socket_protocols := outside owner (range_first first) (range_last last) (socket_protocols t) |>
      <| bound_sockets := outside owner (range_first first) (range_last last) (bound_sockets t) |>.

Definition finish_socket (owner : Owner) (domain socket_type value : Z) (t : SyscallTracer) : SyscallTracer :=
  let kind := Z.land socket_type SOCK_TYPE_MASK in
  let protocol := if kind =? SOCK_STREAM then Some (as_bytes "tcp")
                  else if kind =? SOCK_DGRAM then Some (as_bytes "udp") else None in
  match protocol with
  | None => t
  | Some protocol =>
      let t := if (0 <=? value) && ((domain =? AF_INET) || (domain =? AF_INET6))
               then t <| socket_protocols := <[(owner, as_i32 value) := protocol]> (socket_protocols t) |> else t in
      if 0 <=? value then process_mut owner (process_close (as_i32 value)) t else t
  end.

Definition finish_connect (owner : Owner) (task fd : Z) (address : option SocketAddr) (value : Z) (internal_owner : bool)
    (t : SyscallTracer) : SyscallTracer :=
  match address with
  | None => t
  | Some address =>
      if negb (trace_network t) then t
      else
        let fields := identity_fields owner task
                      ++ [fld "protocol" (optional (socket_protocols t !! (owner, fd)));
                          fld "address" (VString (address_text address)); fld "port" (VNumber (address_port address));
                          fld "host" (optional (address_name address t)); fld "result" (VNumber (as_i32 value))] in
        syscall_record "net.connect" fields internal_owner t
  end.

Definition finish_bind (owner : Owner) (fd : Z) (address : option SocketAddr) (value : Z) (t : SyscallTracer) : SyscallTracer :=
  match address with
  | Some address => if value =? 0 then t <| bound_sockets := <[(owner, fd) := address]> (bound_sockets t) |> else t
  | None => t
  end.

Definition finish_listen (owner : Owner) (task fd value : Z) (internal_owner : bool) (t : SyscallTracer) : SyscallTracer :=
  if negb (value =? 0) then t
  else
    match bound_sockets t !! (owner, fd) with
    | None => t
    | Some address =>
        let t := t <| bound_sockets := delete (owner, fd) (bound_sockets t) |> in
        if negb (trace_network t) then t
        else
          let fields := identity_fields owner task
                        ++ [fld "protocol" (optional (socket_protocols t !! (owner, fd)));
                            fld "address" (VString (address_text address)); fld "port" (VNumber (address_port address))] in
          syscall_record "net.listen" fields internal_owner t
    end.

(** [record_fork] of the tracer *)
Definition tracer_record_fork (owner : Owner) (task child_id : Z) (t : SyscallTracer) : SyscallTracer :=
  let state := default process_default (pid ← owner_process owner; processes_get pid (table t)) in
  let state := state <| parent := owner_process owner |> in
  t <| table := processes_record_fork child_id state task (table t) |>.

(** ** With guest memory *)

Section Bus.
Context {B : Type} {SB : SystemBus B} {HM : HostMemory B}.

Definition tr (f : SyscallTracer -> SyscallTracer) : ST (SyscallTracer * B) unit := modify (fun s => (f s.1, s.2)).
Definition guest {A} (m : ST B A) : ST (SyscallTracer * B) A := zoom snd (fun b s => (s.1, b)) m.

(** A read of an id through the layout known so far. *)
Definition ask {A} (f : Identities -> ST B A) : ST (SyscallTracer * B) A :=
  t ← gets fst; guest (f (identities t)).

(** An observation that may change the layout. *)
Definition learn (f : Identities -> ST B Identities) : ST (SyscallTracer * B) unit :=
  i ← ask f; tr (fun t => t <| identities := i |>).

(** [adopt(.., depth)] with [MAX_ADOPTION_DEPTH - depth] levels left. *)
Fixpoint adopt (left_ : nat) (process_id task satp : Z) : ST (SyscallTracer * B) unit :=
  t ← gets fst;
  let '(fork, taken) := take_fork process_id (table t) in
  match fork with
  | Some fork => tr (fun t => t <| table := processes_insert process_id (fork_state fork) taken |>)
  | None =>
      if processes_contains process_id (table t) then mret tt
      else
        match left_ with
        | O => tr (fun t => t <| table := processes_insert process_id process_default (table t) |>)
        | S left_ =>
            parent_task ← ask (parent_task_of task satp);
            parent_id ← (match parent_task with
                         | Some parent => ask (process_of parent satp)
                         | None => mret None
                         end);
            let forking := match parent_task with Some parent => is_cloning parent t | None => false end in
            let state := mkProcess parent_id None ∅ in
            state ← (match forking, parent_task, parent_id with
                     | true, Some parent_task, Some parent_id =>
                         adopt left_ parent_id parent_task satp;;
                         tr (fun t => if bool_decide (OProcess parent_id ∈ internal_owners t)
                                      then t <| internal_owners := {[OProcess process_id]} ∪ internal_owners t |> else t);;
                         t ← gets fst;
                         mret (match processes_get parent_id (table t) with
                               | Some parent => state <| working_directory := working_directory parent |>
                                                      <| descriptors := descriptors parent |>
                               | None => state
                               end)
                     | _, _, _ => mret state
                     end);
            tr (fun t => t <| table := processes_insert process_id state (table t) |>)
        end
  end.

Definition owner_of (task satp : Z) : ST (SyscallTracer * B) Owner :=
  p ← ask (process_of task satp);
  match p with
  | Some process_id => adopt MAX_ADOPTION_DEPTH process_id task satp;; mret (OProcess process_id)
  | None => mret (OTask task)
  end.

Definition pair_parent (child_id parent_task satp : Z) : ST (SyscallTracer * B) unit :=
  t ← gets fst;
  if knows_parents (identities t) then mret tt
  else
    match tasks_by_id t !! child_id with
    | None => mret tt
    | Some child_task =>
        tr (fun t => t <| tasks_by_id := delete child_id (tasks_by_id t) |>);;
        thread ← ask (thread_of child_task satp);
        if decide (thread = Some child_id) then learn (observe_parent child_task parent_task satp) else mret tt
    end.

Definition remember_task (value task : Z) (t : SyscallTracer) : SyscallTracer :=
  let known := if (MAX_TASKS_BY_ID <=? size (tasks_by_id t))%nat then ∅ else tasks_by_id t in
  t <| tasks_by_id := <[value := task]> known |>.

Definition tracer_observe_identity (task value satp : Z) : ST (SyscallTracer * B) unit :=
  learn (observe_identity task value satp);;
  t ← gets fst;
  if knows_parents (identities t) then tr (fun t => t <| tasks_by_id := ∅ |>)
  else
    match parent_task_of_fork value (table t) with
    | Some parent_task => learn (observe_parent task parent_task satp)
    | None => tr (remember_task value task)
    end.

Definition finish_clone (owner : Owner) (task : Z) (thread : bool) (value satp : Z) (internal_owner : bool)
    : ST (SyscallTracer * B) unit :=
  if value <=? 0 then mret tt
  else
    let child_id := as_u32 value in
    (if thread then mret tt
     else
       tr (tracer_record_fork owner task child_id);;
       if internal_owner : bool then tr (fun t => t <| internal_owners := {[OProcess child_id]} ∪ internal_owners t |>) else mret tt);;
    pair_parent child_id task satp;;
    t ← gets fst;
    if negb (trace_processes t) then mret tt
    else
      tr (syscall_record "process.fork"
            (identity_fields owner task ++ [fld "child_pid" (VNumber child_id); fld "thread" (VBool thread)]) internal_owner).

Definition finish_call (task : Z) (kind : SyscallKind) (value satp : Z) : ST (SyscallTracer * B) unit :=
  owner ← owner_of task satp;
  t ← gets fst;
  let internal_owner := bool_decide (owner ∈ internal_owners t) in
  let succeeded := 0 <=? value in
  let result := VNumber (as_i32 value) in
  match kind with
  | SkIdentity _ => if 0 <? value then tracer_observe_identity task (as_u32 value) satp else mret tt
  | SkRingUse => tr (finish_ring owner task succeeded)
  | SkClone thread => finish_clone owner task thread value satp internal_owner
  | SkOpen directory_fd path write read_write create truncate close_on_exec =>
      tr (finish_open owner task directory_fd path write read_write create truncate close_on_exec value internal_owner)
  | SkRename from_fd from to_fd to => tr (finish_rename owner task from_fd from to_fd to value internal_owner)
  | SkUnlink directory_fd path directory => tr (finish_unlink owner task directory_fd path directory value internal_owner)
  | SkMkdir directory_fd path => tr (finish_mkdir owner task directory_fd path value internal_owner)
  | SkTruncate path size =>
      tr (fun t => emit_truncate owner task (path_field owner AT_FDCWD path t) size result internal_owner t)
  | SkTruncateDescriptor fd size =>
      tr (fun t => emit_truncate owner task (descriptor_field owner fd t) size result internal_owner t)
  | SkChangeDirectory path => tr (finish_chdir owner path value)
  | SkChangeDirectoryDescriptor fd => tr (finish_fchdir owner fd value)
  | SkDuplicate fd close_on_exec => tr (finish_duplicate owner fd (as_i32 value) close_on_exec value)
  | SkDuplicateTo from_fd to_fd close_on_exec => tr (finish_duplicate owner from_fd to_fd close_on_exec value)
  | SkClose fd => tr (finish_close owner fd value)
  | SkCloseRange first last => tr (finish_close_range owner first last value)
  | SkSocket domain socket_type => tr (finish_socket owner domain socket_type value)
  | SkConnect fd address => tr (finish_connect owner task fd address value internal_owner)
  | SkBind fd address => tr (finish_bind owner fd address value)
  | SkListen fd => tr (finish_listen owner task fd value internal_owner)
  | SkExec _ _ _ _ | SkExit _ => mret tt
  end.

Definition runs_plumbing (field : PathField) (argv : list (list Z)) : bool :=
  match resolved field with Some text => starts_with VPOD_HELPER_PREFIX text | None => false end
  || handles_only_staging_files argv.

(** What a successful [exec] changes. *)
Definition exec_succeeded (owner : Owner) (plumbing : bool) (t : SyscallTracer) : SyscallTracer :=
  let t := t <| internal_owners := if plumbing then {[owner]} ∪ internal_owners t else internal_owners t ∖ {[owner]} |> in
  process_mut owner keep_across_exec t.

Definition exec_event (owner : Owner) (task : Z) (field : PathField) (plumbing : bool) (argv : list (list Z)) (argv_truncated : bool)
    (outcome : ExecOutcome) (t : SyscallTracer) : SyscallTracer :=
  let internal := plumbing || bool_decide (owner ∈ internal_owners t) in
  let fields := identity_fields owner task
                ++ (match parent_of owner t with Some parent => [fld "ppid" (VNumber parent)] | None => [] end)
                ++ push_path PATH_KEYS field ++ [fld "argv" (VArray (map VString argv))]
                ++ (if argv_truncated then [fld "argv_truncated" (VBool true)] else [])
                ++ (match outcome with
                    | Succeeded => []
                    | Failed value => [fld "result" (VNumber (as_i32 value))]
                    | Unknown => [fld "result" VNull]
                    end) in
  syscall_record "process.exec" fields internal t.

Definition finish_exec (task directory_fd : Z) (path : GuestString) (argv : list (list Z)) (argv_truncated : bool)
    (outcome : ExecOutcome) (satp : Z) : ST (SyscallTracer * B) unit :=
  owner ← owner_of task satp;
  t ← gets fst;
  let field := path_field owner directory_fd path t in
  let plumbing := runs_plumbing field argv in
  (match outcome with Succeeded => tr (exec_succeeded owner plumbing) | _ => mret tt end);;
  t ← gets fst;
  if negb (trace_processes t) then mret tt
  else tr (exec_event owner task field plumbing argv argv_truncated outcome).

Definition forget_owner (owner : Owner) (task : Z) (t : SyscallTracer) : SyscallTracer :=
  let t := t <| pending := delete task (pending t) |>
             <| socket_protocols := filter (fun e => e.1.1 ≠ owner) (socket_protocols t) |>
             <| bound_sockets := filter (fun e => e.1.1 ≠ owner) (bound_sockets t) |>
             <| internal_owners := internal_owners t ∖ {[owner]} |> in
  match owner_process owner with
  | Some process_id => t <| table := processes_remove process_id (table t) |>
  | None => t
  end.

Definition emit_exit (task code satp : Z) : ST (SyscallTracer * B) unit :=
  owner ← owner_of task satp;
  t ← gets fst;
  let internal := bool_decide (owner ∈ internal_owners t) in
  tr (forget_owner owner task);;
  if negb (trace_processes t) then mret tt
  else tr (syscall_record "process.exit" (identity_fields owner task ++ [fld "code" (VNumber (Z.land code 0xff))]) internal).

(** ** The two hooks *)

Definition tracer_on_entry (entry : SyscallEntry) (satp : Z) : ST (SyscallTracer * B) unit :=
  t ← gets fst;
  match entry_kind entry with
  | SkExit code => emit_exit (entry_task entry) code satp
  | kind =>
      if (match kind with SkIdentity _ => knows_parents (identities t) | _ => false end) then mret tt
      else
        tr (fun t => t <| pending := <[entry_task entry := mkPending (wrapping_add64 (entry_pc entry) 4) kind]> (pending t) |>)
  end.

Definition tracer_on_return (task pc value satp : Z) : ST (SyscallTracer * B) unit :=
  t ← gets fst;
  match pending t !! task with
  | None => mret tt
  | Some p =>
      tr (fun t => t <| pending := delete task (pending t) |>);;
      let returned_to_caller := pc =? return_pc p in
      match pending_kind p with
      | SkExec directory_fd path argv argv_truncated =>
          let outcome := if returned_to_caller then Failed value else if value =? 0 then Succeeded else Unknown in
          finish_exec task directory_fd path argv argv_truncated outcome satp
      | kind => if returned_to_caller then finish_call task kind value satp else mret tt
      end
  end.
End Bus.
End Tracer.
