(* ===== verification/SyscallsLaws.v ===== *)
(** The system-call tracer as the machine sees it.

    The tracer of [Syscalls] is an instance of the interface of [MachineBus]; it
    only reads the bus it is shown, so it keeps whatever reads keep
    ([Tracer_laws]), and it does not panic on a bus that does not
    ([hooks_keep]). *)
From S2P Require Import Prelude Words Wp SystemBus BusLaws Invariant SyscallEntry SyscallTrace Trace Processes Identity Syscalls.
From S2P Require Import Mmu MachineBus MachineLaws.

#[export] Instance Tracer_hooks {J : Json} {W : WallClock} : TracesSyscalls SyscallTracer := {|
  on_entry := fun B SB HM => tracer_on_entry;
  on_return := fun B SB HM => tracer_on_return;
  sync_clock := fun ns t => t <| recorder := set_guest_ns ns (recorder t) |>
|}.

(** ** The hooks keep what reads of guest memory keep *)

Section Keeps.
Context {J : Json} {W : WallClock} {B : Type} {SB : SystemBus B} {HM : HostMemory B} {D : Prop}.
Variable I : B -> Prop.
Variable G : GuestMemory * B -> Prop.
Hypothesis G_new : ∀ satp b, I b → G (guest_memory_new satp, b).
Hypothesis G_bus : ∀ s, G s → I s.2.
Hypothesis G_u32 : ∀ a, keeps D G (gm_u32 a) (fun _ => True).
Hypothesis G_u64 : ∀ a, keeps D G (gm_u64 a) (fun _ => True).

Abbreviation IT := (fun s : SyscallTracer * B => I s.2).
Abbreviation any := (fun _ => True).

Lemma with_memory_keeps {A} satp (m : ST (GuestMemory * B) A) : keeps D G m any → keeps D I (with_memory satp m) any.
Proof. intros Hm. apply (keeps_zoom G); auto. Qed.

Lemma scan_identity_keeps n o task v p : keeps D G (scan_identity n o task v p) any.
Proof.
  revert o p. induction n as [|n IH]; intros; cbn [scan_identity]; [by apply keeps_ret|].
  eapply keeps_bind; [apply G_u32|]. intros [w|] _; [|by apply keeps_ret].
  eapply keeps_bind; [apply IH|]. intros. by apply keeps_ret.
Qed.

Lemma scan_parent_keeps n o c p : keeps D G (scan_parent n o c p) any.
Proof.
  revert o. induction n as [|n IH]; intros; cbn [scan_parent]; [by apply keeps_ret|].
  eapply keeps_bind; [apply G_u64|]. intros [w|] _; [|by apply keeps_ret].
  eapply keeps_bind; [apply IH|]. intros. by apply keeps_ret.
Qed.

(** [ret_any] closes a read that ends by returning a value. *)
Ltac ret_any := intros; by apply keeps_ret.

Lemma observe_identity_keeps task v satp i : keeps D I (observe_identity task v satp i) any.
Proof.
  unfold observe_identity. case_if; [ret_any|].
  eapply keeps_bind; [apply with_memory_keeps, scan_identity_keeps | ret_any].
Qed.

Lemma observe_parent_keeps c p satp i : keeps D I (observe_parent c p satp i) any.
Proof.
  unfold observe_parent. destruct (layout i); [|ret_any]. case_if; [ret_any|].
  eapply keeps_bind; [apply with_memory_keeps, scan_parent_keeps | ret_any].
Qed.

Lemma id_at_keeps a satp : keeps D I (id_at a satp) any.
Proof. eapply keeps_bind; [apply with_memory_keeps, G_u32 | ret_any]. Qed.

Lemma process_of_keeps task satp i : keeps D I (process_of task satp i) any.
Proof. unfold process_of. destruct (layout i); [apply id_at_keeps | ret_any]. Qed.

Lemma thread_of_keeps task satp i : keeps D I (thread_of task satp i) any.
Proof. unfold thread_of. destruct (layout i); [apply id_at_keeps | ret_any]. Qed.

Lemma parent_task_of_keeps task satp i : keeps D I (parent_task_of task satp i) any.
Proof.
  unfold parent_task_of. destruct (layout i ≫= real_parent); [|ret_any].
  eapply keeps_bind; [apply with_memory_keeps, G_u64 | ret_any].
Qed.

(** ** The tracer *)

Lemma tr_keeps f : keeps D IT (tr f) any.
Proof. by apply keeps_modify. Qed.

Lemma ask_keeps {A} (f : Identities -> ST B A) : (∀ i, keeps D I (f i) any) → keeps D IT (ask f) any.
Proof.
  intros Hf. eapply keeps_bind; [by apply (keeps_gets _ any)|]. intros t _. by apply (keeps_zoom I).
Qed.

Lemma learn_keeps (f : Identities -> ST B Identities) : (∀ i, keeps D I (f i) any) → keeps D IT (learn f) any.
Proof. intros Hf. eapply keeps_bind; [by apply ask_keeps|]. intros i _. apply tr_keeps. Qed.

Lemma get_tracer_keeps {A} (k : SyscallTracer -> ST (SyscallTracer * B) A) :
  (∀ t, keeps D IT (k t) any) → keeps D IT (gets fst ≫= k) any.
Proof. intros Hk. eapply keeps_bind; [by apply (keeps_gets _ any)|]. auto. Qed.

Lemma then_keeps {A} (m : ST (SyscallTracer * B) unit) (k : ST (SyscallTracer * B) A) :
  keeps D IT m any → keeps D IT k any → keeps D IT (m ;; k) any.
Proof. intros Hm Hk. eapply keeps_bind; [exact Hm|]. auto. Qed.

Create HintDb tracing.
#[local] Hint Resolve tr_keeps process_of_keeps thread_of_keeps parent_task_of_keeps observe_identity_keeps observe_parent_keeps
  ask_keeps learn_keeps : tracing.

(** Follow the code. *)
Ltac tracing :=
  repeat first
    [ progress cbv zeta
    | match goal with
      | |- keeps _ _ (gets fst ≫= _) _ => apply get_tracer_keeps; intros ?
      | |- keeps _ _ (_ ;; _) _ => apply then_keeps
      | |- keeps _ _ (mret _) _ => by apply keeps_ret
      | |- keeps _ _ (if ?b then _ else _) _ => destruct b
      | |- keeps _ _ (match ?x with _ => _ end) _ => destruct x
      end
    | solve [eauto with tracing]
    | match goal with |- keeps _ _ (_ ≫= _) _ => eapply (keeps_bind _ _ any); [|intros ? _] end ].

Lemma adopt_keeps n pid task satp : keeps D IT (adopt n pid task satp) any.
Proof.
  revert pid task. induction n as [|n IH]; intros pid task; cbn [adopt]; tracing; apply IH.
Qed.
#[local] Hint Resolve adopt_keeps : tracing.

Lemma owner_of_keeps task satp : keeps D IT (owner_of task satp) any.
Proof. unfold owner_of. tracing. Qed.
#[local] Hint Resolve owner_of_keeps : tracing.

Lemma pair_parent_keeps c p satp : keeps D IT (pair_parent c p satp) any.
Proof. unfold pair_parent. tracing. Qed.
#[local] Hint Resolve pair_parent_keeps : tracing.

Lemma tracer_observe_identity_keeps task v satp : keeps D IT (tracer_observe_identity task v satp) any.
Proof. unfold tracer_observe_identity. tracing. Qed.
#[local] Hint Resolve tracer_observe_identity_keeps : tracing.

Lemma finish_call_keeps task kind v satp : keeps D IT (finish_call task kind v satp) any.
Proof. unfold finish_call, finish_clone. tracing. Qed.

Lemma finish_exec_keeps task fd path argv tr_ o satp : keeps D IT (finish_exec task fd path argv tr_ o satp) any.
Proof. unfold finish_exec. tracing. Qed.

Lemma emit_exit_keeps task code satp : keeps D IT (emit_exit task code satp) any.
Proof. unfold emit_exit. tracing. Qed.
#[local] Hint Resolve finish_call_keeps finish_exec_keeps emit_exit_keeps : tracing.

Lemma on_entry_keeps e satp : keeps D IT (tracer_on_entry e satp) any.
Proof. unfold tracer_on_entry. tracing. Qed.

Lemma on_return_keeps task pc v satp : keeps D IT (tracer_on_return task pc v satp) any.
Proof. unfold tracer_on_return. tracing. Qed.
End Keeps.

(** ** On a bus whose reads keep an invariant *)

Section Reads.
Context {B : Type} {SB : SystemBus B} {HM : HostMemory B} (J : B -> Prop) (HR : reads_keep J).
Abbreviation JG := (fun s : GuestMemory * B => J s.2).

Lemma walk_levels_reads vpns n ppn : keeps True J (walk_levels vpns n ppn) (fun _ => True).
Proof.
  revert ppn. induction n as [|n IH]; intros ppn; cbn [walk_levels]; [by apply keeps_ret|].
  eapply keeps_bind; [apply HR|]. intros pte _. repeat case_if; try (by apply keeps_ret); apply IH.
Qed.

Lemma translate_readable_reads va satp : keeps True J (translate_readable va satp) (fun _ => True).
Proof.
  unfold translate_readable, walk_inner. case_if; [by apply keeps_ret|]. cbv zeta.
  apply (keeps_bind _ _ (fun _ => True)); [|intros; by apply keeps_ret].
  eapply keeps_bind; [apply walk_levels_reads|]. intros [[]|] _; by apply keeps_ret.
Qed.

Lemma gm_bus_reads {A} (m : ST B A) : keeps True J m (fun _ => True) → keeps True JG (gm_bus m) (fun _ => True).
Proof. intros Hm. by apply (keeps_zoom J). Qed.

Lemma gm_deref_reads p : keeps True JG (gm_deref p) (fun _ => True).
Proof. intros s Hs. unfold wp, gm_deref. by destruct (host_read _ _ _). Qed.

Lemma gm_byte_reads a : keeps True JG (gm_byte a) (fun _ => True).
Proof.
  unfold gm_byte. cbv zeta. eapply keeps_bind; [by apply (keeps_gets _ (fun _ => True))|]. intros g _. case_if.
  - eapply keeps_bind; [apply gm_bus_reads, translate_readable_reads|]. intros [pa|] _; [|by apply keeps_ret].
    eapply keeps_bind; [apply gm_bus_reads, HR|]. intros [q|] _; [|by apply keeps_ret].
    eapply keeps_bind; [by apply keeps_modify|]. intros _ _. eapply keeps_bind; [apply gm_deref_reads|]. intros; by apply keeps_ret.
  - eapply keeps_bind; [apply gm_deref_reads|]. intros; by apply keeps_ret.
Qed.

Lemma gm_array_reads n a o : keeps True JG (gm_array n a o) (fun _ => True).
Proof.
  revert o. induction n as [|n IH]; intros o; cbn [gm_array]; [by apply keeps_ret|].
  eapply keeps_bind; [apply gm_byte_reads|]. intros [v|] _; [|by apply keeps_ret].
  eapply keeps_bind; [apply IH|]. intros; by apply keeps_ret.
Qed.

Lemma gm_u32_reads a : keeps True JG (gm_u32 a) (fun _ => True).
Proof. eapply keeps_bind; [apply gm_array_reads|]. intros; by apply keeps_ret. Qed.
Lemma gm_u64_reads a : keeps True JG (gm_u64 a) (fun _ => True).
Proof. eapply keeps_bind; [apply gm_array_reads|]. intros; by apply keeps_ret. Qed.
End Reads.

#[export] Instance Tracer_laws {J : Json} {W : WallClock} : TracerLaws SyscallTracer.
Proof.
  split; intros; [apply (on_entry_keeps _ (fun s => J0 s.2)) | apply (on_return_keeps _ (fun s => J0 s.2))];
    auto using gm_u32_reads, gm_u64_reads.
Qed.

(** ** On a bus that keeps the contract of the core *)

Section Core.
Context {J : Json} {W : WallClock} {B : Type} {SB : SystemBus B} {HM : HostMemory B} {D : Prop} {BL : BusLaws B D}.

(** Both hooks return unless the bus panics, and leave the bus well formed,
    whatever the guest's memory holds where task structures are looked for. *)
Lemma hooks_keep :
  (∀ e satp, keeps D (fun s : SyscallTracer * B => bus_ok s.2) (on_entry e satp) (fun _ => True))
  ∧ (∀ task pc v satp, keeps D (fun s : SyscallTracer * B => bus_ok s.2) (on_return task pc v satp) (fun _ => True)).
Proof.
  split; intros; [apply (on_entry_keeps _ gm_wf) | apply (on_return_keeps _ gm_wf)];
    try (by intros ? [? ?]); try (intros; split; [done | by left]);
    intros; (eapply keeps_bind; [apply gm_array_keeps|]); intros; by apply keeps_ret.
Qed.
End Core.
