(* ===== verification/SyscallsProps.v ===== *)
(** The tracer's memory is bounded whatever the guest does.

    [tracer_bounded n] holds in every state the two hooks reach from a new tracer
    on which [n] working directories were seeded. *)
From S2P Require Import Prelude Words Wp SystemBus Invariant SyscallEntry SyscallTrace Trace Processes Identity Syscalls.
From S2P Require Import Processes.

#[local] Opaque MAX_PROCESSES MAX_PENDING_FORKS MAX_DESCRIPTORS MAX_CANDIDATES MAX_TASKS_BY_ID.

Record identities_bounded (i : Identities) : Prop := {
  ib_identity : (size (identity_support i) <= MAX_CANDIDATES)%nat;
  ib_parent : (size (parent_support i) <= MAX_CANDIDATES)%nat
}.

Record tracer_bounded (n : nat) (t : SyscallTracer) : Prop := {
  tr_table : table_bounded n (table t);
  tr_tasks : (size (tasks_by_id t) <= MAX_TASKS_BY_ID)%nat;
  tr_identities : identities_bounded (identities t)
}.

(** ** Learning the layout *)

Lemma support_bounded o v m : (size m <= MAX_CANDIDATES)%nat → (size (support o v m) <= MAX_CANDIDATES)%nat.
Proof.
  intros H. unfold support. case_if; [done|]. cbv zeta. rewrite map_size_insert.
  destruct (m !! o) eqn:El; [done|]. apply andb_false_iff in E as [E|E]; [apply Nat.leb_gt in E; lia|].
  by apply bool_decide_eq_false in E.
Qed.

Lemma support_all_bounded found v m :
  (size m <= MAX_CANDIDATES)%nat → (size (fold_left (fun t o => support o v t) found m) <= MAX_CANDIDATES)%nat.
Proof. revert m. induction found as [|o l IH]; intros m H; cbn; [done|]. by apply IH, support_bounded. Qed.

Lemma conclude_identity_bounded found v i : identities_bounded i → identities_bounded (conclude_identity found v i).
Proof.
  intros [H1 H2]. unfold conclude_identity. cbv zeta.
  destruct (settled _); split; cbn [set identity_support parent_support]; rewrite ?map_size_empty; auto using support_all_bounded; lia.
Qed.

Lemma conclude_parent_bounded found p i : identities_bounded i → identities_bounded (conclude_parent found p i).
Proof.
  intros [H1 H2]. unfold conclude_parent. cbv zeta.
  destruct (lowest_settled _), (layout i); split; cbn [set identity_support parent_support];
    rewrite ?map_size_empty; auto using support_all_bounded; lia.
Qed.

Section Hooks.
Context {J : Json} {W : WallClock} {B : Type} {SB : SystemBus B} {HM : HostMemory B} (n : nat).
Abbreviation TB := (fun s : SyscallTracer * B => tracer_bounded n s.1).
Abbreviation any := (fun _ => True).

(** ** What only changes the tracer *)

Lemma table_update t pt : tracer_bounded n t → table_bounded n pt → tracer_bounded n (t <| table := pt |>).
Proof. intros [H1 H2 H3] H. by split. Qed.

Lemma same_tables_bounded t t' :
  table t' = table t → tasks_by_id t' = tasks_by_id t → identities t' = identities t → tracer_bounded n t → tracer_bounded n t'.
Proof. intros E1 E2 E3 [H1 H2 H3]. split; [by rewrite E1 | by rewrite E2 | by rewrite E3]. Qed.

Lemma tracer_record_bounded kind fields i t : tracer_bounded n t → tracer_bounded n (syscall_record kind fields i t).
Proof. unfold syscall_record. case_if; [done|]. by apply same_tables_bounded. Qed.

Lemma process_mut_bounded o f t :
  (∀ p, process_bounded p → process_bounded (f p)) → tracer_bounded n t → tracer_bounded n (process_mut o f t).
Proof.
  intros Hf Ht. unfold process_mut. destruct (owner_process o); [|done]. apply table_update; [done|].
  apply update_bounded; [done | apply Ht].
Qed.

#[local] Hint Resolve tracer_record_bounded process_mut_bounded table_update : bounded.
#[local] Hint Extern 3 (tracer_bounded _ (set _ _ ?t)) => apply (same_tables_bounded t); [reflexivity..|] : bounded.
#[local] Hint Extern 2 (table_bounded _ (table _)) => apply tr_table : bounded.

(** A change of the working directory leaves the descriptors. *)
Lemma directory_bounded path p : process_bounded p → process_bounded (p <| working_directory := path |>).
Proof. done. Qed.
#[local] Hint Resolve directory_bounded : bounded.

(** Split the branches of an operation and close each. *)
Ltac branches :=
  cbv zeta;
  repeat match goal with
  | |- tracer_bounded _ (if ?b then _ else _) => destruct b
  | |- tracer_bounded _ (match ?x with _ => _ end) => destruct x
  end; eauto 8 with bounded.

Lemma finish_open_bounded o task fd path w rw c tr_ ce v i t :
  tracer_bounded n t → tracer_bounded n (finish_open o task fd path w rw c tr_ ce v i t).
Proof.
  intros Ht. unfold finish_open. cbv zeta.
  set (t' := match resolved _ with Some _ => _ | None => _ end).
  assert (tracer_bounded n t') by (subst t'; branches). clearbody t'. branches.
Qed.

Lemma finish_socket_bounded o d s v t : tracer_bounded n t → tracer_bounded n (finish_socket o d s v t).
Proof.
  intros Ht. unfold finish_socket. cbv zeta. match goal with |- context [match ?x with Some _ => _ | None => t end] => destruct x as [pr|] end; [|done].
  set (t' := if (_ && _)%bool then _ else t). assert (tracer_bounded n t') by (subst t'; branches). clearbody t'. branches.
Qed.

Lemma record_fork_state_bounded o task child t : tracer_bounded n t → tracer_bounded n (tracer_record_fork o task child t).
Proof.
  intros Ht. unfold tracer_record_fork. cbv zeta. apply table_update; [done|]. apply record_fork_bounded; [|apply Ht].
  destruct (owner_process o) as [pid|]; cbn; [|exact default_bounded].
  destruct (processes_get pid (table t)) as [p|] eqn:E; cbn; [|exact default_bounded]. exact (tb_process _ _ (tr_table _ _ Ht) _ _ E).
Qed.

Lemma forget_owner_bounded o task t : tracer_bounded n t → tracer_bounded n (forget_owner o task t).
Proof.
  intros Ht. unfold forget_owner. cbv zeta. destruct (owner_process o); [|by apply (same_tables_bounded t)].
  apply table_update; [by apply (same_tables_bounded t)|]. apply remove_bounded, Ht.
Qed.

Lemma remember_task_bounded v task t : tracer_bounded n t → tracer_bounded n (remember_task v task t).
Proof.
  intros [H1 H2 H3]. unfold remember_task. cbv zeta. split; [done| |done]. cbn [set tasks_by_id].
  destruct (Nat.leb_spec MAX_TASKS_BY_ID (size (tasks_by_id t))); rewrite map_size_insert.
  - rewrite lookup_empty, map_size_empty. with_strategy transparent [MAX_TASKS_BY_ID] unfold MAX_TASKS_BY_ID. lia.
  - destruct (_ !! v); unfold id; lia.
Qed.

(** ** What also looks at guest memory *)

Lemma tr_bounded f : (∀ t, tracer_bounded n t → tracer_bounded n (f t)) → keeps True TB (tr f) any.
Proof. intros Hf. apply keeps_modify. intros s Hs. by apply Hf. Qed.

(** A reading of the guest leaves the tracer as it was. *)
Lemma ask_bounded {A} (f : Identities -> ST B A) : keeps True TB (ask f) any.
Proof.
  intros [t b] Ht. unfold wp, ask, guest. run_st. cbn. by destruct (f _ b) as [[]|].
Qed.

Definition observes (f : Identities -> ST B Identities) : Prop :=
  ∀ i b r b', f i b = Some (r, b') → identities_bounded i → identities_bounded r.

Lemma learn_bounded f : observes f → keeps True TB (learn f) any.
Proof.
  intros Hf [t b] [H1 H2 H3]. unfold wp, learn, ask, guest, tr. run_st. cbn.
  destruct (f _ b) as [[i b']|] eqn:E; [|done]. split; [done|]. split; cbn; [done..|]. by eapply Hf.
Qed.

Lemma observe_identity_observes task v satp : observes (observe_identity task v satp).
Proof.
  intros i b r b'. unfold observe_identity. case_if; [by intros [= <- <-]|]. intros (found & b1 & _ & [= <- <-])%st_bind_Some.
  apply conclude_identity_bounded.
Qed.

Lemma observe_parent_observes c p satp : observes (observe_parent c p satp).
Proof.
  intros i b r b'. unfold observe_parent. destruct (layout i); [|by intros [= <- <-]]. case_if; [by intros [= <- <-]|].
  intros (found & b1 & _ & [= <- <-])%st_bind_Some. apply conclude_parent_bounded.
Qed.

Lemma get_tracer_bounded {A} (k : SyscallTracer -> ST (SyscallTracer * B) A) :
  (∀ t, tracer_bounded n t → keeps True TB (k t) any) → keeps True TB (gets fst ≫= k) any.
Proof. intros Hk. eapply keeps_bind; [by apply (keeps_gets _ (tracer_bounded n))|]. auto. Qed.

Lemma then_bounded {A} (m : ST (SyscallTracer * B) unit) (k : ST (SyscallTracer * B) A) :
  keeps True TB m any → keeps True TB k any → keeps True TB (m ;; k) any.
Proof. intros Hm Hk. eapply keeps_bind; [exact Hm|]. auto. Qed.

#[local] Hint Resolve tr_bounded ask_bounded learn_bounded observe_identity_observes observe_parent_observes finish_open_bounded
  finish_socket_bounded record_fork_state_bounded forget_owner_bounded remember_task_bounded : bounded.

(** Follow the code. *)
Ltac hook :=
  repeat first
    [ progress cbv zeta
    | match goal with
      | |- keeps _ _ (gets fst ≫= _) _ => apply get_tracer_bounded; intros ? ?
      | |- keeps _ _ (_ ;; _) _ => apply then_bounded
      | |- keeps _ _ (mret _) _ => by apply keeps_ret
      | |- keeps _ _ (if ?b then _ else _) _ => destruct b
      | |- keeps _ _ (match ?x with _ => _ end) _ => destruct x eqn:?
      end
    | solve [eauto with bounded]
    | match goal with |- keeps _ _ (tr _) _ => apply tr_bounded; intros ? ?; solve [branches] end
    | match goal with |- keeps _ _ (_ ≫= _) _ => eapply (keeps_bind _ _ any); [|intros ? _] end ].

Lemma inherit_bounded pid p (t : SyscallTracer) q :
  tracer_bounded n t → process_bounded q →
  process_bounded (match processes_get pid (table t) with
                   | Some parent => q <| working_directory := p parent |> <| descriptors := descriptors parent |>
                   | None => q
                   end).
Proof. intros Ht Hq. destruct (processes_get _ _) as [r|] eqn:E; [|done]. exact (tb_process _ _ (tr_table _ _ Ht) _ _ E). Qed.

Lemma adopt_bounded left_ pid task satp : keeps True TB (adopt left_ pid task satp) any.
Proof.
  revert pid task. induction left_ as [|left_ IH]; intros pid task; cbn [adopt]; apply get_tracer_bounded; intros t Ht;
    pose proof (take_fork_bounded n pid (table t) (tr_table _ _ Ht)) as [Hk Hf]; destruct (take_fork pid (table t)) as [fork taken];
    (destruct fork as [fork|]; [apply tr_bounded; intros; apply table_update; [done|]; apply insert_bounded; [by apply Hf | done]|]);
    (case_if; [by apply keeps_ret|]).
  - apply tr_bounded. intros. apply table_update; [done|]. apply insert_bounded; [apply default_bounded | by apply tr_table].
  - eapply keeps_bind; [apply ask_bounded|]. intros parent_task _.
    apply (keeps_bind _ _ any); [destruct parent_task; [apply ask_bounded | by apply keeps_ret]|]. intros parent_id _. cbv zeta.
    apply (keeps_bind _ _ process_bounded).
    + destruct (match parent_task with Some _ => _ | None => _ end), parent_task, parent_id; try (apply keeps_ret; exact default_bounded).
      eapply keeps_bind; [apply IH|]. intros _ _. eapply keeps_bind; [apply tr_bounded; intros; branches|]. intros _ _.
      eapply keeps_bind; [by apply (keeps_gets _ (tracer_bounded n))|]. intros t1 Ht1. apply keeps_ret, inherit_bounded; [done | exact default_bounded].
    + intros st Hst. apply tr_bounded. intros. apply table_update; [done|]. apply insert_bounded; [done | by apply tr_table].
Qed.
#[local] Hint Resolve adopt_bounded : bounded.

Lemma owner_of_bounded task satp : keeps True TB (owner_of task satp) any.
Proof. unfold owner_of. hook. Qed.
#[local] Hint Resolve owner_of_bounded : bounded.

Lemma tracer_observe_identity_bounded task v satp : keeps True TB (tracer_observe_identity task v satp) any.
Proof.
  unfold tracer_observe_identity. hook. apply tr_bounded. intros t' [H1 H2 H3]. split; cbn; [done | rewrite map_size_empty; lia | done].
Qed.

Lemma pair_parent_bounded c p satp : keeps True TB (pair_parent c p satp) any.
Proof.
  unfold pair_parent. hook. apply tr_bounded. intros t' [H1 H2 H3]. split; cbn; [done | | done].
  etrans; [|exact H2]. apply map_subseteq_size, delete_subseteq.
Qed.
#[local] Hint Resolve tracer_observe_identity_bounded pair_parent_bounded : bounded.

Lemma finish_bounded task kind v satp : keeps True TB (finish_call task kind v satp) any.
Proof.
  unfold finish_call, finish_clone. hook;
    (apply tr_bounded; intros;
     unfold finish_ring, finish_rename, finish_unlink, finish_mkdir, emit_truncate, finish_chdir, finish_fchdir, finish_duplicate,
       finish_close, finish_close_range, finish_connect, finish_bind, finish_listen; branches).
Qed.

Lemma finish_exec_bounded task fd path argv cut o satp : keeps True TB (finish_exec task fd path argv cut o satp) any.
Proof. unfold finish_exec. hook; apply tr_bounded; intros; unfold exec_succeeded, exec_event; branches. Qed.

Lemma emit_exit_bounded task code satp : keeps True TB (emit_exit task code satp) any.
Proof. unfold emit_exit. hook. Qed.
#[local] Hint Resolve finish_bounded finish_exec_bounded emit_exit_bounded : bounded.

Lemma on_entry_bounded e satp : keeps True TB (tracer_on_entry e satp) any.
Proof. unfold tracer_on_entry. hook. Qed.

Lemma on_return_bounded task pc v satp : keeps True TB (tracer_on_return task pc v satp) any.
Proof. unfold tracer_on_return. hook. Qed.
End Hooks.

(** ** Every state *)

(** The states of a tracer, and how many directories were seeded; the guest, and
    with it the bus, is any at each hook. *)
Inductive tracer_reach {J : Json} {W : WallClock} : nat -> SyscallTracer -> Prop :=
| reach_new o r : tracer_reach 0 (tracer_new o r)
| reach_quiet n t q : tracer_reach n t → tracer_reach n (set_quiet q t)
| reach_seed n t pid path : tracer_reach n t → tracer_reach (S n) (seed_working_directory pid path t)
| reach_entry n t t' B (SB : SystemBus B) (HM : HostMemory B) b b' e satp :
    tracer_reach n t → tracer_on_entry e satp (t, b) = Some (tt, (t', b')) → tracer_reach n t'
| reach_return n t t' B (SB : SystemBus B) (HM : HostMemory B) b b' task pc v satp :
    tracer_reach n t → tracer_on_return task pc v satp (t, b) = Some (tt, (t', b')) → tracer_reach n t'.

Lemma keeps_elim {S A} (I : S -> Prop) (m : ST S A) R s a s' : keeps True I m R → I s → m s = Some (a, s') → I s'.
Proof. intros Hm Hs E. specialize (Hm s Hs). unfold wp in Hm. rewrite E in Hm. apply Hm. Qed.

Lemma tracer_reach_bounded {J : Json} {W : WallClock} n t : tracer_reach n t → tracer_bounded n t.
Proof.
  induction 1 as [o r | n t q _ IH | n t pid path _ IH | n t t' B SB HM b b' e satp _ IH E | n t t' B SB HM b b' task pc v satp _ IH E].
  - repeat split; cbn; try done; rewrite ?map_size_empty; try lia; intros ? ?; by rewrite lookup_empty.
  - by apply (same_tables_bounded n t).
  - destruct IH as [H1 H2 H3]. split; cbn; [by apply seed_bounded | done..].
  - exact (keeps_elim _ _ _ (t, b) _ _ (on_entry_bounded n e satp) IH E).
  - exact (keeps_elim _ _ _ (t, b) _ _ (on_return_bounded n task pc v satp) IH E).
Qed.

(** C40: whatever system calls a guest makes, and whatever its memory holds,
    the tracer knows at most 4096 processes (and one more for each directory
    seeded from outside), 1024 descriptors of each, 1024 forks whose child was
    not seen, 1024 tasks by id and 512 candidates for each offset it looks for. *)
Theorem guest_cannot_fill_tables {J : Json} {W : WallClock} n t :
  tracer_reach n t →
  (size (live (table t)) <= MAX_PROCESSES + n)%nat
  ∧ (∀ pid p, live (table t) !! pid = Some p → (size (descriptors p) <= MAX_DESCRIPTORS)%nat)
  ∧ (size (forks (table t)) <= MAX_PENDING_FORKS)%nat
  ∧ (size (tasks_by_id t) <= MAX_TASKS_BY_ID)%nat
  ∧ (size (identity_support (identities t)) <= MAX_CANDIDATES)%nat
  ∧ (size (parent_support (identities t)) <= MAX_CANDIDATES)%nat.
Proof.
  intros H. destruct (tracer_reach_bounded n t H) as [[L1 L2 F1 F2 P1 P2] H2 [H3 H4]]. split_and!; try done.
  - etrans; [by apply size_of_arrivals | done].
  - etrans; [by apply size_of_arrivals | done].
Qed.

(** ** A small guest: its memory is a map of bytes, every page of it readable *)

Module PagedRam.
Definition ram : Type := gmap Z Z.
#[global] Instance bus : SystemBus ram := {|
  read_byte := fun _ => panic; read_halfword := fun _ => panic; read_word := fun _ => panic; read_doubleword := fun _ => panic;
  write_byte := fun _ _ => panic; write_halfword := fun _ _ => panic; write_word := fun _ _ => panic; write_doubleword := fun _ _ => panic;
  ram_load_page := fun a => mret (Some (mkHostPtr 1 (Z.shiftl (Z.shiftr a 12) 12)));
  ram_store_page := fun _ => mret None;
  ram_epoch := fun _ => 0;
  drain_device_written_pages := mret ([], true);
  timer_interrupt_pending := fun _ => Some false;
  external_interrupt_pending := mret (Some false);
  syscall_trace_enabled := fun _ => true;
  on_syscall_entry := fun _ _ => mret tt;
  on_syscall_return := fun _ _ _ _ => mret tt
|}.
#[global] Instance host : HostMemory ram := {|
  host_read := fun p _ m => Some (default 0 (m !! host_offset p)); host_write := fun _ _ _ => panic
|}.

(** A task structure: thread and process id at 1296, the parent's task at 1312. *)
Definition task_of (pid : Z) : Z := 0xffffffd600010000 + pid * 0x4000.
Definition put (a : Z) (bytes : list Z) (m : ram) : ram := foldr (fun p m => <[a + Z.of_nat p.1 := p.2]> m) m (imap pair bytes).
Definition spawn (pid : Z) (parent : option Z) (m : ram) : ram :=
  put (task_of pid + 1296) (to_le_bytes 4 pid)
    (put (task_of pid + 1300) (to_le_bytes 4 pid)
       (put (task_of pid + 1312) (to_le_bytes 8 (match parent with Some p => task_of p | None => 0 end)) m)).
End PagedRam.

Module TracerDemo.
Export PagedRam.
#[export] Instance no_json : Json := fun _ => [].
#[export] Instance no_clock : WallClock := fun _ => 0.

Definition run_after (m : ST (SyscallTracer * ram) unit) (b : ram) (t : SyscallTracer) : SyscallTracer :=
  match m (t, b) with Some (_, (t', _)) => t' | None => t end.
Definition runs {A} (o : option A) : bool := match o with Some _ => true | None => false end.

(** Three processes. *)
Definition guest_memory : ram := spawn 201 None (spawn 202 None (spawn 1 None ∅)).

Definition demo_entry (pid : Z) (kind : SyscallKind) : SyscallEntry := mkSyscallEntry (task_of pid) 0 0x4000 kind.
Definition demo_tracer : SyscallTracer := tracer_new options_default recorder_new.
End TracerDemo.

Import TracerDemo.

Definition demo_seeded : SyscallTracer := seed_working_directory 1 [] demo_tracer.
Definition demo_enter : ST (SyscallTracer * ram) unit := tracer_on_entry (demo_entry 201 (SkIdentity false)) 0.

(** A directory seeded and a call of a task. *)
Lemma guest_cannot_fill_tables_witness :
  let t := run_after demo_enter guest_memory demo_seeded in
  size (live (table t)) = 1%nat ∧ (size (live (table t)) <= MAX_PROCESSES + 1)%nat.
Proof.
  split; [vm_compute; reflexivity|]. eapply (guest_cannot_fill_tables 1).
  apply (reach_entry 1 demo_seeded _ ram bus host guest_memory guest_memory (demo_entry 201 (SkIdentity false)) 0);
    [apply reach_seed, reach_new | vm_compute; reflexivity].
Defined.
