(* ===== verification/KernelView.v ===== *)
(** The paths the tracer reports are the kernel's.

    A specification of what a kernel keeps of its processes (where each is, what
    its descriptors name) and how system calls change it; paths are walked name by
    name, as if there were no symbolic links.  The tracer, shown the same calls one
    after the other, knows a part of that, and whatever it knows is right. *)
From Stdlib Require Import String.
From S2P Require Import Prelude Words Wp SystemBus Invariant SyscallEntry SyscallTrace Dtb HostFs Text Trace Processes Identity Syscalls.
From S2P Require Import Processes SyscallsProps.

(** ** The kernel *)

(** A place in the file system: the names from it up to the root. *)
Definition Place : Type := list (list Z).

Record KFile := mkKFile { kf_place : option Place; kf_close_on_exec : bool }.
Record KProcess := mkKProcess { k_cwd : Place; k_fds : gmap Z KFile }.
#[export] Instance KProcess_eta : Eta KProcess := fun k => mkKProcess (k_cwd k) (k_fds k).
Abbreviation World := (gmap Z KProcess).

Definition set_fd (fd : Z) (f : KFile) (k : KProcess) : KProcess := k <| k_fds := <[fd := f]> (k_fds k) |>.

Definition kernel_base (k : KProcess) (directory_fd : Z) : option Place :=
  if directory_fd =? AT_FDCWD then Some (k_cwd k) else f ← k_fds k !! directory_fd; kf_place f.

(** Where a path leads, from a directory descriptor. *)
Definition place_at (k : KProcess) (directory_fd : Z) (path : list Z) : option Place :=
  if starts_with [SLASH] path then Some (fold_path [] path)
  else base ← kernel_base k directory_fd; Some (fold_path base path).

(** A place written out. *)
Definition spelling (l : Place) : list Z := if decide (l = []) then [SLASH] else print (rev l).

(** A descriptor that is free. *)
Definition free (fd : Z) (k : KProcess) : Prop := 0 <= fd < 2 ^ 31 ∧ k_fds k !! fd = None.

(** What a call of process [pid] that returns [value] does.  A call that fails
    changes nothing. *)
Inductive kernel_call (w : World) (pid : Z) (k : KProcess) : SyscallKind -> Z -> World -> Prop :=
| kc_failed kind v : v < 0 → (∀ code, kind ≠ SkExit code) → kernel_call w pid k kind v w
| kc_open dfd path wr rw c tc ce fd f :
    free fd k → kf_close_on_exec f = ce → (∀ s, path = GuestValue s → kf_place f = place_at k dfd s) →
    kernel_call w pid k (SkOpen dfd path wr rw c tc ce) fd (<[pid := set_fd fd f k]> w)
| kc_socket domain ty fd f :
    free fd k → kf_place f = None → kernel_call w pid k (SkSocket domain ty) fd (<[pid := set_fd fd f k]> w)
| kc_close fd : kernel_call w pid k (SkClose fd) 0 (<[pid := k <| k_fds := delete fd (k_fds k) |>]> w)
| kc_close_range first last :
    0 <= first →
    kernel_call w pid k (SkCloseRange first last) 0
      (<[pid := k <| k_fds := filter (fun e => e.1 < first ∨ last < e.1) (k_fds k) |>]> w)
| kc_duplicate from ce fd f :
    free fd k → k_fds k !! from = Some f →
    kernel_call w pid k (SkDuplicate from ce) fd (<[pid := set_fd fd (mkKFile (kf_place f) ce) k]> w)
| kc_duplicate_to from to ce f :
    0 <= to < 2 ^ 31 → k_fds k !! from = Some f →
    kernel_call w pid k (SkDuplicateTo from to ce) to (<[pid := set_fd to (mkKFile (kf_place f) ce) k]> w)
| kc_chdir path l :
    Forall plain_name l → (∀ s, path = GuestValue s → place_at k AT_FDCWD s = Some l) →
    kernel_call w pid k (SkChangeDirectory path) 0 (<[pid := k <| k_cwd := l |>]> w)
| kc_fchdir fd f l :
    k_fds k !! fd = Some f → kf_place f = Some l →
    kernel_call w pid k (SkChangeDirectoryDescriptor fd) 0 (<[pid := k <| k_cwd := l |>]> w)
| kc_fork child :
    0 < child < 2 ^ 32 → w !! child = None → kernel_call w pid k (SkClone false) child (<[child := k]> w)
| kc_thread child : kernel_call w pid k (SkClone true) child w
| kc_exec dfd path argv cut :
    kernel_call w pid k (SkExec dfd path argv cut) 0
      (<[pid := k <| k_fds := filter (fun e => kf_close_on_exec e.2 = false) (k_fds k) |>]> w)
| kc_exit code : kernel_call w pid k (SkExit code) 0 (delete pid w)
| kc_other kind v :
    match kind with
    | SkIdentity _ | SkRingUse | SkRename _ _ _ _ | SkUnlink _ _ _ | SkMkdir _ _ | SkTruncate _ _ | SkTruncateDescriptor _ _
    | SkConnect _ _ | SkBind _ _ | SkListen _ => True
    | _ => False
    end → kernel_call w pid k kind v w.

(** ** What the tracer knows *)

(** A path names a place. *)
Definition names (path : list Z) (l : Place) : Prop := Forall plain_name l ∧ normalize path = spelling l.

Record knows (p : Process) (k : KProcess) : Prop := {
  kn_cwd c : working_directory p = Some c → names c (k_cwd k);
  kn_fds fd d : descriptors p !! fd = Some d →
    fd < 2 ^ 31 ∧ ∃ f l, k_fds k !! fd = Some f ∧ kf_close_on_exec f = fd_close_on_exec d ∧ kf_place f = Some l ∧ names (fd_path d) l
}.

Definition knows_world (t : Processes) (w : World) : Prop :=
  ∀ pid p, (live t !! pid = Some p ∨ fork_state <$> forks t !! pid = Some p) → ∃ k, w !! pid = Some k ∧ knows p k.

(** Between calls nothing is pending. *)
Definition good (w : World) (t : SyscallTracer) : Prop := pending t = ∅ ∧ knows_world (table t) w.

(** *** Paths *)

Lemma spelling_parts path : normalize path = spelling (fold_path [] path).
Proof.
  rewrite normalize_print. unfold spelling. change (path_parts path) with (rev (fold_path [] path)).
  repeat case_decide as E; try done; destruct (fold_path [] path) as [|x l]; cbn in *; try done.
  by apply app_eq_nil in E as [_ ?].
Qed.

Lemma fold_path_plain l path : Forall plain_name l → Forall plain_name (fold_path l path).
Proof. intros H. apply fold_parts_plain; [apply split_on_noslash | done]. Qed.

Lemma fold_spelling l : Forall plain_name l → fold_path [] (spelling l) = l.
Proof.
  intros H. unfold spelling, fold_path. case_decide as E; [by rewrite E|].
  assert (Hr : Forall plain_name (rev l)) by by apply Forall_rev.
  rewrite split_print by done. cbn [fold_left]. rewrite fold_nil, fold_plain by done. by rewrite rev_involutive, app_nil_r.
Qed.

Lemma names_fold path l : names path l → fold_path [] path = l.
Proof.
  intros [Hp E]. rewrite <- (fold_spelling l Hp), <- E, fold_normalize. unfold path_parts, fold_path. by rewrite rev_involutive.
Qed.

Lemma names_below base l path : names base l → names (base ++ [SLASH] ++ path) (fold_path l path).
Proof.
  intros H. pose proof (names_fold _ _ H) as E. destruct H as [Hp _]. split; [by apply fold_path_plain|].
  rewrite spelling_parts. f_equal. change (fold_path [] (base ++ [SLASH] ++ path)) with (fold_left fold_part (split_on SLASH (base ++ SLASH :: path)) []).
  rewrite split_on_join, fold_left_app. fold (fold_path [] base). by rewrite E.
Qed.

Lemma names_normalize path l : names path l → names (normalize path) l.
Proof. intros [Hp E]. split; [done|]. by rewrite normalize_idempotent. Qed.

Lemma names_absolute path : names (normalize path) (fold_path [] path).
Proof. split; [by apply fold_path_plain; constructor|]. by rewrite normalize_idempotent, spelling_parts. Qed.

(** Resolving a path finds the place the kernel finds. *)
Lemma resolve_knows t pid k dfd path r :
  (∀ p, live t !! pid = Some p → knows p k) → resolve (Some pid) dfd path t = Some r →
  ∃ l, place_at k dfd path = Some l ∧ names r l.
Proof.
  intros Hk. unfold resolve, place_at. case_if.
  { intros [= <-]. eexists. split; [done|]. apply names_absolute. }
  cbn [mbind option_bind]. destruct (live t !! pid) as [p|]; [|done]. cbn [mbind option_bind]. destruct (Hk p eq_refl) as [Hc Hf].
  intros H. assert (∃ base l, kernel_base k dfd = Some l ∧ names base l
    ∧ r = if decide (path = []) then normalize base else normalize (base ++ [SLASH] ++ path)) as (base & l & E1 & E2 & ->).
  { unfold kernel_base. destruct (dfd =? AT_FDCWD).
    - destruct (working_directory p) as [c|]; [|done]. exists c, (k_cwd k). split_and!; auto. cbn [mbind option_bind fmap option_fmap option_map] in H. case_decide; congruence.
    - destruct (descriptors p !! dfd) as [d|] eqn:Ed; [|done]. destruct (Hf _ _ Ed) as (_ & f & l & Ef & _ & El & En).
      exists (fd_path d), l. rewrite Ef. split_and!; auto. cbn [mbind option_bind fmap option_fmap option_map] in H. case_decide; congruence. }
  rewrite E1. cbn [mbind option_bind]. eexists. split; [done|]. case_decide as Ep.
  - subst path. by apply names_normalize.
  - by apply names_normalize, names_below.
Qed.

(** ** A call keeps what is known of its process *)

Lemma knows_default k : knows process_default k.
Proof. split; [done|]. cbn. intros fd d. by rewrite lookup_empty. Qed.

Lemma knows_fresh fd f p k : free fd k → knows p k → knows p (set_fd fd f k).
Proof.
  intros [_ Hn] [Hc Hf]. split; [done|]. intros fd' d Hd. destruct (Hf _ _ Hd) as (Hl & f' & l & E & H).
  split; [done|]. exists f', l. split; [|done]. cbn. rewrite lookup_insert_ne; [done|]. congruence.
Qed.

Lemma knows_open fd path ce f l p k :
  fd < 2 ^ 31 → kf_place f = Some l → names path l → kf_close_on_exec f = ce → knows p k →
  knows (process_open fd path ce p) (set_fd fd f k).
Proof.
  intros Hl Hp Hn He [Hc Hf]. unfold process_open. destruct (_ && _)%bool eqn:Eb.
  - apply andb_true_iff in Eb as [_ Eb]. apply bool_decide_eq_true in Eb. split; [done|]. intros fd' d Hd.
    destruct (Hf _ _ Hd) as (? & f' & l' & E & H). split; [done|]. exists f', l'. split; [|done]. cbn.
    rewrite lookup_insert_ne; [done|]. congruence.
  - split; [done|]. cbn. intros fd' d [[<- <-]|[Hne Hd]]%lookup_insert_Some.
    + split; [done|]. exists f, l. by rewrite lookup_insert_eq.
    + destruct (Hf _ _ Hd) as (? & f' & l' & E & H). split; [done|]. exists f', l'. by rewrite lookup_insert_ne.
Qed.

(** The tracer may keep fewer descriptors than it has to. *)
Lemma knows_restrict (q : gmap Z Descriptor) (kq : gmap Z KFile) p k :
  q ⊆ descriptors p →
  (∀ fd d f, q !! fd = Some d → fd < 2 ^ 31 → k_fds k !! fd = Some f → kf_close_on_exec f = fd_close_on_exec d → kq !! fd = Some f) →
  knows p k → knows (p <| descriptors := q |>) (k <| k_fds := kq |>).
Proof.
  intros Hq Hk [Hc Hf]. split; [done|]. cbn. intros fd d Hd.
  destruct (Hf fd d) as (Hl & f & l & E & Hce & H); [by eapply lookup_weaken|]. split; [done|]. exists f, l. eauto.
Qed.

Lemma knows_close fd p k : knows p k → knows (process_close fd p) (k <| k_fds := delete fd (k_fds k) |>).
Proof.
  apply knows_restrict; [apply delete_subseteq|]. intros fd' d f [Hne _]%lookup_delete_Some _ Hf _. by rewrite lookup_delete_ne.
Qed.

(** A new descriptor without a name, closed before it is known. *)
Lemma knows_close_fresh fd f p k : knows p k → knows (process_close fd p) (set_fd fd f k).
Proof.
  intros [Hc Hf]. split; [done|]. cbn. intros fd' d [Hne Hd]%lookup_delete_Some.
  destruct (Hf _ _ Hd) as (? & f' & l' & E & H). split; [done|]. exists f', l'. by rewrite lookup_insert_ne.
Qed.

Lemma as_i32_below n : 0 <= n → as_i32 n <= n.
Proof. intros H. unfold as_i32, signed. case_if; pose proof (Z.mod_le n (2 ^ 32)); unfold wrap; lia. Qed.

Lemma knows_close_range first last p k :
  0 <= first → knows p k →
  knows (process_close_range first last p) (k <| k_fds := filter (fun e => e.1 < first ∨ last < e.1) (k_fds k) |>).
Proof.
  intros H0. apply knows_restrict; [apply map_filter_subseteq|].
  intros fd d f [_ H]%map_lookup_filter_Some Hl Hf _. apply map_lookup_filter_Some. split; [done|]. cbn in *.
  unfold range_first, range_last, I32_MAX in H. pose proof (as_i32_below first H0). lia.
Qed.

Lemma knows_duplicate from to ce f p k :
  to < 2 ^ 31 → k_fds k !! from = Some f → knows p k → knows (process_duplicate from to ce p) (set_fd to (mkKFile (kf_place f) ce) k).
Proof.
  intros Hl Hf Hk. unfold process_duplicate. destruct (descriptors p !! from) as [d|] eqn:Ed; [|by apply knows_close_fresh].
  destruct (kn_fds _ _ Hk _ _ Ed) as (_ & f' & l & Ef & _ & Ep & En). simplify_eq. by eapply knows_open.
Qed.

Lemma knows_exec p k :
  knows p k → knows (keep_across_exec p) (k <| k_fds := filter (fun e => kf_close_on_exec e.2 = false) (k_fds k) |>).
Proof.
  apply knows_restrict; [apply map_filter_subseteq|]. intros fd d f [_ H]%map_lookup_filter_Some _ Hf E.
  apply map_lookup_filter_Some. split; [done|]. cbn in *. congruence.
Qed.

Lemma knows_chdir c l p k : names c l → knows p k → knows (p <| working_directory := Some c |>) (k <| k_cwd := l |>).
Proof. intros Hn [Hc Hf]. split; [by intros c' [= <-] | done]. Qed.

(** With no directory known, the process may go anywhere. *)
Lemma knows_lost l p k : working_directory p = None → knows p k → knows p (k <| k_cwd := l |>).
Proof. intros E [Hc Hf]. split; [congruence | done]. Qed.

(** ** The tables *)

Lemma evict_oldest_subseteq {V} limit ids (m : gmap Z V) : (evict_oldest limit ids m).2 ⊆ m.
Proof.
  revert m. induction ids as [|x ids IH]; intros m; cbn [evict_oldest]; [done|]. case_if; [|done].
  etrans; [apply IH | apply delete_subseteq].
Qed.

Lemma insert_live pid p t : live (processes_insert pid p t) ⊆ <[pid := p]> (live t) ∧ forks (processes_insert pid p t) = forks t.
Proof.
  unfold processes_insert. cbv zeta. destruct (evict_oldest _ _ _) as [ids m] eqn:E. split; [|done].
  change m with (ids, m).2. rewrite <- E. apply evict_oldest_subseteq.
Qed.

Lemma fork_tables pid p task t :
  forks (processes_record_fork pid p task t) ⊆ <[pid := mkFork p task]> (forks t) ∧ live (processes_record_fork pid p task t) = live t.
Proof.
  unfold processes_record_fork. destruct (evict_oldest _ _ _) as [ids m] eqn:E. split; [|done].
  change m with (ids, m).2. rewrite <- E. apply evict_oldest_subseteq.
Qed.

Lemma insert_world w pid p k t : w !! pid = Some k → knows p k → knows_world t w → knows_world (processes_insert pid p t) w.
Proof.
  intros Hw Hk Ht q r. destruct (insert_live pid p t) as [Hl ->]. intros [H|H]; [|by apply Ht; right].
  pose proof (lookup_weaken _ _ _ _ H Hl) as [[<- <-]|[_ ?]]%lookup_insert_Some; [by exists k|]. apply Ht. by left.
Qed.

(** What is changed for one process. *)
Lemma update_world w pid f k k' t :
  w !! pid = Some k → forks t !! pid = None → (∀ p, live t !! pid = Some p → knows p k → knows (f p) k') →
  knows_world t w → knows_world (processes_update pid f t) (<[pid := k']> w).
Proof.
  intros Hw Hn Hf Ht q r H. destruct (decide (pid = q)) as [<-|Hne].
  - exists k'. rewrite lookup_insert_eq. split; [done|]. cbn in H. rewrite Hn, lookup_alter_eq in H. destruct H as [H|H]; [|done].
    apply fmap_Some in H as (p & Hp & ->). apply Hf; [done|]. destruct (Ht pid p) as (k2 & E & ?); [by left|]. by simplify_eq.
  - rewrite lookup_insert_ne by done. apply Ht. cbn in H. by rewrite lookup_alter_ne in H by done.
Qed.

(** A process nothing is known of. *)
Lemma unknown_world w pid k' t :
  live t !! pid = None → forks t !! pid = None → knows_world t w → knows_world t (<[pid := k']> w).
Proof.
  intros Hl Hn Ht q r H. destruct (decide (pid = q)) as [<-|Hne]; [rewrite Hl, Hn in H; by destruct H|].
  rewrite lookup_insert_ne by done. by apply Ht.
Qed.

Lemma remove_world w pid t : knows_world t w → knows_world (processes_remove pid t) (delete pid w).
Proof.
  intros Ht q r H. cbn in H. destruct (decide (pid = q)) as [<-|Hne]; [rewrite !lookup_delete_eq in H; by destruct H|].
  rewrite !lookup_delete_ne in H by done. rewrite lookup_delete_ne by done. by apply Ht.
Qed.

Lemma record_fork_world w child k p task t :
  w !! child = None → knows p k → knows_world t w → knows_world (processes_record_fork child p task t) (<[child := k]> w).
Proof.
  intros Hw Hk Ht q r. destruct (fork_tables child p task t) as [Hf ->]. intros H.
  assert (Hq : (live t !! q = Some r ∨ fork_state <$> <[child := mkFork p task]> (forks t) !! q = Some r)).
  { destruct H as [H|H]; [by left|]. right. apply fmap_Some in H as (f & E & ->).
    by rewrite (lookup_weaken _ _ _ _ E Hf). }
  clear H. destruct (decide (child = q)) as [<-|Hne].
  - exists k. rewrite lookup_insert_eq. split; [done|]. destruct Hq as [H|H].
    + destruct (Ht child r) as (? & ? & _); [by left | congruence].
    + rewrite lookup_insert_eq in H. by injection H as <-.
  - rewrite lookup_insert_ne by done. rewrite lookup_insert_ne in Hq by done. by apply Ht.
Qed.

Lemma taken_world w pid t : knows_world t w → knows_world (take_fork pid t).2 w.
Proof.
  intros Ht q r H. apply Ht. cbn in H. destruct H as [H|H]; [by left|]. right. apply fmap_Some in H as (f & E & ->).
  apply lookup_delete_Some in E as [_ E]. by rewrite E.
Qed.

(** ** Who makes a call *)

(** The task is one of process [pid], or nothing is known of that process. *)
Definition owned (w : World) (pid : Z) (owner : Owner) (t : SyscallTracer) : Prop :=
  good w t ∧ forks (table t) !! pid = None ∧ (owner = OProcess pid ∨ owner_process owner = None ∧ live (table t) !! pid = None).

Lemma good_same w t t' : table t' = table t → pending t' = pending t → good w t → good w t'.
Proof. intros E1 E2 [H1 H2]. split; [by rewrite E2 | by rewrite E1]. Qed.

Section Bus.
Context {J : Json} {W : WallClock} {B : Type} {SB : SystemBus B} {HM : HostMemory B}.
Implicit Types t : SyscallTracer.

Lemma ask_tracer {A} (f : Identities -> ST B A) t b a s : ask f (t, b) = Some (a, s) → s.1 = t.
Proof. unfold ask, guest. run_st. cbn. destruct (f _ b) as [[]|]; [|done]. by intros [= <- <-]. Qed.

Lemma get_then {A} (f : SyscallTracer -> ST (SyscallTracer * B) A) t b : (gets fst ≫= f) (t, b) = f t (t, b).
Proof. reflexivity. Qed.

Lemma tr_run f t (b : B) : tr f (t, b) = Some (tt, (f t, b)).
Proof. reflexivity. Qed.

(** When nothing is pending no process inherits from its parent here. *)
Lemma adopt_owned w k left_ pid task satp t b t' b' :
  adopt left_ pid task satp (t, b) = Some (tt, (t', b')) → w !! pid = Some k → good w t →
  good w t' ∧ forks (table t') !! pid = None.
Proof.
  intros E Hw [Hp Hk].
  assert (Hend : ∀ p pt, knows p k → knows_world pt w → forks pt !! pid = None →
            good w (t <| table := processes_insert pid p pt |>) ∧ forks (table (t <| table := processes_insert pid p pt |>)) !! pid = None).
  { intros p pt Hpk Hpt Hpn. split; [split; [done|]; by eapply insert_world|]. cbn. by destruct (insert_live pid p pt) as [_ ->]. }
  assert (Hsome : ∀ f, forks (table t) !! pid = Some f → knows (fork_state f) k).
  { intros f Ef. destruct (Hk pid (fork_state f)) as (k2 & E2 & ?); [right; by rewrite Ef|]. by simplify_eq. }
  destruct left_ as [|left_]; cbn [adopt] in E; rewrite get_then in E; cbv beta iota delta [take_fork] in E;
    (destruct (forks (table t) !! pid) as [f|] eqn:Ef;
     [injection E as <- _; apply Hend; [by apply Hsome | by apply (taken_world w pid) | cbn; apply lookup_delete_eq]|]);
    (destruct (processes_contains pid (table t)); [by injection E as <- _|]).
  - injection E as <- _. by apply Hend; [apply knows_default|..].
  - apply st_bind_Some in E as (pt & [t1 b1] & E1 & E). apply ask_tracer in E1. cbn in E1. subst t1.
    apply st_bind_Some in E as (pi & [t2 b2] & E1 & E).
    assert (t2 = t) as -> by (destruct pt; [by apply ask_tracer in E1 | by injection E1]). clear E1. cbv zeta in E.
    replace (match pt with Some parent => is_cloning parent t | None => false end) with false in E
      by (destruct pt; [unfold is_cloning; by rewrite Hp, lookup_empty | done]).
    injection E as <- _. apply Hend; [|done..]. split; [done|]. cbn. intros ? ?. by rewrite lookup_empty.
Qed.

(** The reading of the id is right where anything is known of the process. *)
Definition identified (task satp pid : Z) (t : SyscallTracer) (b : B) : Prop :=
  ∃ r b1, process_of task satp (identities t) b = Some (r, b1)
  ∧ (r = Some pid ∨ r = None ∧ live (table t) !! pid = None ∧ forks (table t) !! pid = None).

Lemma owner_of_owned w k task satp pid t b owner t' b' :
  owner_of task satp (t, b) = Some (owner, (t', b')) → identified task satp pid t b → w !! pid = Some k → good w t →
  owned w pid owner t'.
Proof.
  intros E (r & b1 & Er & Hr) Hw Hg. unfold owner_of in E. apply st_bind_Some in E as (r' & [t1 b2] & E1 & E).
  pose proof (ask_tracer _ _ _ _ _ E1) as E2. cbn in E2. subst t1.
  assert (r' = r) as ->. { unfold ask, guest in E1. revert E1. run_st. cbn. rewrite Er. congruence. }
  destruct Hr as [->|(-> & Hl & Hf)].
  - apply st_bind_Some in E as ([] & [t2 b3] & E2 & [= <- <- _]).
    destruct (adopt_owned _ _ _ _ _ _ _ _ _ _ E2 Hw Hg). split_and!; auto.
  - injection E as <- <- _. split_and!; auto.
Qed.

(** ** What a finished call leaves *)

Lemma good_record w kind fields i t : good w t → good w (syscall_record kind fields i t).
Proof. unfold syscall_record. case_if; [done|]. by apply good_same. Qed.

Lemma mut_good w pid owner k k' f t :
  owned w pid owner t → w !! pid = Some k → (∀ p, live (table t) !! pid = Some p → knows p k → knows (f p) k') →
  good (<[pid := k']> w) (process_mut owner f t).
Proof.
  intros ([Hp Hk] & Hn & Ho) Hw Hf. unfold process_mut. destruct Ho as [->|[-> Hl]]; cbn.
  - split; [done|]. by eapply update_world.
  - split; [done|]. by apply unknown_world.
Qed.

Lemma stay_good w pid owner k k' t :
  owned w pid owner t → w !! pid = Some k → (∀ p, live (table t) !! pid = Some p → knows p k → knows p k') →
  good (<[pid := k']> w) t.
Proof.
  intros ([Hp Hk] & Hn & Ho) Hw Hf. split; [done|]. intros q r H. destruct (decide (pid = q)) as [<-|Hne].
  - exists k'. rewrite lookup_insert_eq. split; [done|]. rewrite Hn in H. destruct H as [H|H]; [|done].
    destruct (Hk pid r) as (k2 & E & ?); [by left|]. simplify_eq. auto.
  - rewrite lookup_insert_ne by done. auto.
Qed.

(** What is known when a field is resolved. *)
Lemma owned_live w pid owner t k p : owned w pid owner t → w !! pid = Some k → live (table t) !! pid = Some p → knows p k.
Proof. intros ([_ Hk] & _) Hw Hl. destruct (Hk pid p) as (k2 & E & ?); [by left|]. by simplify_eq. Qed.

Lemma field_resolved w pid owner t k dfd path text :
  owned w pid owner t → w !! pid = Some k → resolved (path_field owner dfd path t) = Some text →
  ∃ s, path = GuestValue s ∧ (owner_process owner = Some pid → ∃ l, place_at k dfd s = Some l ∧ names text l).
Proof.
  intros Ho Hw. unfold path_field, resolved. destruct path as [s|s|]; cbn; [| |done].
  - destruct (resolve _ _ _ _) as [r|] eqn:E; cbn; [|done]. intros [= <-]. exists s. split; [done|]. intros Hp. rewrite Hp in E.
    eapply resolve_knows; [|exact E]. intros p Hl. by eapply owned_live.
  - destruct (resolve _ _ _ _); cbn; done.
Qed.

Lemma owned_process w pid owner t : owned w pid owner t → owner_process owner = Some pid ∨ owner_process owner = None.
Proof. intros (_ & _ & [->|[? _]]); auto. Qed.

(** A process that is not identified is not changed. *)
Lemma mut_none owner f t : owner_process owner = None → process_mut owner f t = t.
Proof. unfold process_mut. by intros ->. Qed.

Lemma fd_i32 fd k : free fd k → as_i32 fd = fd ∧ (0 <=? fd) = true.
Proof. intros [H _]. split; [unfold as_i32, signed, wrap; rewrite Z.mod_small by lia; case_if; bools; lia | lia]. Qed.

Lemma finish_open_good w pid owner k t task dfd path wr rw c tc ce fd f i :
  owned w pid owner t → w !! pid = Some k → free fd k → kf_close_on_exec f = ce →
  (∀ s, path = GuestValue s → kf_place f = place_at k dfd s) →
  good (<[pid := set_fd fd f k]> w) (finish_open owner task dfd path wr rw c tc ce fd i t).
Proof.
  intros Ho Hw Hfr He Hpl. unfold finish_open. cbv zeta. destruct (fd_i32 _ _ Hfr) as [-> ->].
  set (t2 := match resolved _ with Some _ => _ | None => _ end).
  assert (Hg : good (<[pid := set_fd fd f k]> w) t2); [|clearbody t2; case_if; [done | by apply good_record]].
  subst t2. assert (Hstay : good (<[pid := set_fd fd f k]> w) t) by (eapply stay_good; [done..|]; eauto using knows_fresh).
  destruct (resolved _) as [text|] eqn:Er; [|done].
  destruct (field_resolved _ _ _ _ _ _ _ _ Ho Hw Er) as (s & -> & Hs).
  destruct (owned_process _ _ _ _ Ho) as [Hp|Hp]; [|by rewrite mut_none].
  destruct (Hs Hp) as (l & El & Hn). eapply mut_good; [done..|]. intros p _ Hk.
  apply (knows_open _ _ _ f l); [apply Hfr | by rewrite (Hpl s eq_refl) | done..].
Qed.

(** Where the tracer does not follow a change of directory it must not have known
    one. *)
Definition placed (kind : SyscallKind) (pid : Z) (t : SyscallTracer) : Prop :=
  ∀ p, live (table t) !! pid = Some p →
  match kind with
  | SkChangeDirectory (GuestValue _) => True
  | SkChangeDirectory _ => working_directory p = None
  | SkChangeDirectoryDescriptor fd => working_directory p = None ∨ descriptors p !! fd ≠ None
  | _ => True
  end.

Lemma finish_chdir_good w pid owner k t path l :
  owned w pid owner t → w !! pid = Some k → placed (SkChangeDirectory path) pid t →
  (∀ s, path = GuestValue s → place_at k AT_FDCWD s = Some l) →
  good (<[pid := k <| k_cwd := l |>]> w) (finish_chdir owner path 0 t).
Proof.
  intros Ho Hw Hpl Hl. unfold finish_chdir. cbn [Z.eqb negb].
  destruct (owned_process _ _ _ _ Ho) as [Hp|Hp].
  - destruct (resolved _) as [text|] eqn:Er.
    + destruct (field_resolved _ _ _ _ _ _ _ _ Ho Hw Er) as (s & -> & Hs). destruct (Hs Hp) as (l' & El & Hn).
      rewrite (Hl s eq_refl) in El. simplify_eq. eapply mut_good; [done..|]. intros p _. by apply knows_chdir.
    + eapply stay_good; [done..|]. intros p Hlive. apply knows_lost. specialize (Hpl p Hlive). destruct path as [s|s|]; try done.
      revert Er. unfold resolved, path_field. rewrite Hp. unfold resolve. destruct (starts_with [SLASH] s); [done|]. cbn. rewrite Hlive. cbn.
      destruct (working_directory p) as [c|]; [|done]. by destruct (decide (s = [])).
  - assert (Hstay : good (<[pid := k <| k_cwd := l |>]> w) t).
    { eapply stay_good; [done..|]. intros p Hlive. exfalso. destruct Ho as (_ & _ & [->|[_ ?]]); [discriminate Hp | congruence]. }
    destruct (resolved _); [by rewrite mut_none | done].
Qed.

Lemma finish_fchdir_good w pid owner k t fd f l :
  owned w pid owner t → w !! pid = Some k → placed (SkChangeDirectoryDescriptor fd) pid t →
  k_fds k !! fd = Some f → kf_place f = Some l →
  good (<[pid := k <| k_cwd := l |>]> w) (finish_fchdir owner fd 0 t).
Proof.
  intros Ho Hw Hpl Hf Hl. unfold finish_fchdir. cbn [Z.eqb negb]. destruct (path_of_descriptor _ _ _) as [path|] eqn:E.
  - eapply mut_good; [done..|]. intros p Hlive Hk. apply knows_chdir; [|done].
    destruct (owned_process _ _ _ _ Ho) as [Hp|Hp]; rewrite Hp in E; [|done]. unfold path_of_descriptor in E. cbn in E. rewrite Hlive in E.
    cbn in E. destruct (descriptors p !! fd) as [d|] eqn:Ed; [|done]. injection E as <-.
    destruct (kn_fds _ _ Hk _ _ Ed) as (_ & f' & l' & ? & _ & ? & ?). by simplify_eq.
  - eapply stay_good; [done..|]. intros p Hlive. apply knows_lost. destruct (Hpl p Hlive) as [?|Hd]; [done|]. exfalso.
    destruct Ho as (_ & _ & [->|[_ ?]]); [|congruence]. unfold path_of_descriptor in E. cbn in E. rewrite Hlive in E. cbn in E.
    by destruct (descriptors p !! fd).
Qed.

Lemma finish_socket_good w pid owner k t domain ty fd f :
  owned w pid owner t → w !! pid = Some k → free fd k → kf_place f = None →
  good (<[pid := set_fd fd f k]> w) (finish_socket owner domain ty fd t).
Proof.
  intros Ho Hw Hfr _. unfold finish_socket. cbv zeta. destruct (fd_i32 _ _ Hfr) as [-> ->].
  assert (Hstay : good (<[pid := set_fd fd f k]> w) t) by (eapply stay_good; [done..|]; eauto using knows_fresh).
  match goal with |- context [match ?x with Some _ => _ | None => t end] => destruct x as [pr|] end; [|done].
  eapply mut_good; [|done|]; [|intros p _; apply knows_close_fresh].
  destruct Ho as (Hg & Hn & Ho). by case_if; split_and!.
Qed.

Lemma sockets_good w t p b : good w t → good w (t <| socket_protocols := p |> <| bound_sockets := b |>).
Proof. by apply good_same. Qed.

(** Calls that change nothing the kernel keeps only write events. *)
Ltac quiet_call :=
  cbv zeta; repeat match goal with
  | |- good _ (if ?b then _ else _) => destruct b
  | |- good _ (match ?x with _ => _ end) => destruct x
  | |- good _ (syscall_record _ _ _ _) => apply good_record
  | |- good _ (set _ _ ?t) => apply (good_same _ t); [reflexivity..|]
  end; try done.

(** Learning where ids are kept leaves the tables. *)
Lemma learn_good w (f : Identities -> ST B Identities) t b t' b' : learn f (t, b) = Some (tt, (t', b')) → good w t → good w t'.
Proof.
  intros E Hg. apply st_bind_Some in E as (i & [t1 b1] & E1 & E). apply ask_tracer in E1. cbn in E1. subst t1.
  rewrite tr_run in E. injection E as <- _. by apply (good_same _ t).
Qed.

Lemma tracer_observe_identity_good w task v satp t (b : B) t' b' :
  tracer_observe_identity task v satp (t, b) = Some (tt, (t', b')) → good w t → good w t'.
Proof.
  intros E Hg. apply st_bind_Some in E as ([] & [t1 b1] & E1 & E). apply (learn_good w) in E1; [|done].
  rewrite get_then in E. case_match; [rewrite tr_run in E; injection E as <- _; by apply (good_same _ t1)|].
  case_match; [by apply (learn_good w) in E|]. rewrite tr_run in E. injection E as <- _. by apply (good_same _ t1).
Qed.

Lemma pair_parent_good w c p satp t (b : B) t' b' : pair_parent c p satp (t, b) = Some (tt, (t', b')) → good w t → good w t'.
Proof.
  intros E Hg. unfold pair_parent in E. rewrite get_then in E. case_match; [by injection E as <- _|].
  destruct (tasks_by_id t !! c) as [ct|]; [|by injection E as <- _].
  apply st_bind_Some in E as ([] & [t1 b1] & E1 & E). rewrite tr_run in E1. injection E1 as <- <-.
  apply st_bind_Some in E as (th & [t2 b2] & E1 & E). apply ask_tracer in E1. cbn in E1. subst t2.
  assert (Hg1 : good w (t <| tasks_by_id := delete c (tasks_by_id t) |>)) by by apply (good_same _ t).
  case_decide; [by apply (learn_good w) in E | by injection E as <- _].
Qed.

Lemma fork_state_good w pid owner k t child task :
  owned w pid owner t → w !! pid = Some k → w !! child = None → good (<[child := k]> w) (tracer_record_fork owner task child t).
Proof.
  intros Ho Hw Hc. unfold tracer_record_fork. cbv zeta. pose proof Ho as ([Hp Hk] & _). split; [done|]. apply record_fork_world; [done| |done].
  assert (Hs : ∀ p q, knows p k → knows (p <| parent := q |>) k) by by intros p q [? ?]. apply Hs.
  destruct (owned_process _ _ _ _ Ho) as [-> | ->]; cbn; [|apply knows_default].
  destruct (processes_get pid (table t)) as [p|] eqn:E; cbn; [by eapply owned_live | apply knows_default].
Qed.

Lemma finish_clone_good w pid owner k t task thread child satp i (b : B) t' b' w' :
  finish_clone owner task thread child satp i (t, b) = Some (tt, (t', b')) → owned w pid owner t → w !! pid = Some k →
  kernel_call w pid k (SkClone thread) child w' → good w' t'.
Proof.
  intros E Ho Hw Hc. unfold finish_clone in E. cbv zeta in E. destruct (Z.leb_spec child 0).
  { injection E as <- _. inversion Hc; subst; try done; try lia; apply Ho. }
  apply st_bind_Some in E as ([] & [t1 b1] & E1 & E).
  assert (Hg : good w' t1).
  { inversion Hc as [ | | | | | | | | | ch Hr Hn | ch | | | kind v Hm]; subst; try lia; try done.
    - apply st_bind_Some in E1 as ([] & [t2 b2] & E2 & E1). rewrite tr_run in E2. injection E2 as <- <-.
      replace (as_u32 child) with child in E1 by (unfold as_u32, wrap; rewrite Z.mod_small; lia).
      pose proof (fork_state_good _ _ _ _ _ child task Ho Hw Hn) as Hg.
      destruct i; injection E1 as <- _; [by eapply good_same; [..|exact Hg] | done].
    - injection E1 as <- _. apply Ho. }
  apply st_bind_Some in E as ([] & [t2 b2] & E2 & E). apply (pair_parent_good w') in E2; [|done].
  rewrite get_then in E. case_match; [by injection E as <- _|]. rewrite tr_run in E. injection E as <- _. by apply good_record.
Qed.

Lemma finish_good w w' k task kind v satp pid t b t' b' :
  finish_call task kind v satp (t, b) = Some (tt, (t', b')) → identified task satp pid t b → w !! pid = Some k → good w t →
  (∀ owner s, owner_of task satp (t, b) = Some (owner, s) → placed kind pid s.1) →
  kernel_call w pid k kind v w' →
  match kind with SkExec _ _ _ _ | SkExit _ => False | _ => True end → good w' t'.
Proof.
  intros E Hid Hw Hg Hpl Hc Hkind. unfold finish_call in E. apply st_bind_Some in E as (owner & [t1 b1] & E1 & E).
  pose proof (owner_of_owned _ _ _ _ _ _ _ _ _ _ E1 Hid Hw Hg) as Ho. specialize (Hpl _ _ E1). cbn in Hpl. clear E1 Hid Hg.
  rewrite get_then in E. cbv zeta in E. assert (Hg : good w t1) by apply Ho.
  destruct kind; try done; try (rewrite tr_run in E; injection E as <- _);
    try (solve [assert (w' = w) as -> by (by inversion Hc); unfold finish_ring, finish_rename, finish_unlink, finish_mkdir, emit_truncate,
                finish_connect, finish_bind, finish_listen; quiet_call]).
  - by eapply finish_clone_good.
  - assert (w' = w) as -> by (by inversion Hc). case_match; [by apply (tracer_observe_identity_good w) in E | by injection E as <- _].
  - inversion Hc as [? ? Hv | | | | | | | | | | | | |]; subst; try done; [|by apply finish_open_good].
    unfold finish_open. replace (0 <=? v) with false by lia. cbv zeta. destruct (resolved _); quiet_call.
  - inversion Hc as [? ? Hv | | | | | | | | | | | | |]; subst; try done; [|by eapply finish_chdir_good].
    unfold finish_chdir. by replace (v =? 0) with false by lia.
  - inversion Hc as [? ? Hv | | | | | | | | | | | | |]; subst; try done; [|by eapply finish_fchdir_good].
    unfold finish_fchdir. by replace (v =? 0) with false by lia.
  - inversion Hc as [? ? Hv | | | | | ? ? ? f Hf Hs | | | | | | | |]; subst; try done; unfold finish_duplicate.
    + by replace (0 <=? v) with false by lia.
    + destruct (fd_i32 _ _ Hf) as [-> ->]. eapply mut_good; [done..|]. intros p _. apply knows_duplicate; [apply Hf | done].
  - inversion Hc as [? ? Hv | | | | | | ? ? ? f Ht Hs | | | | | | |]; subst; try done; unfold finish_duplicate.
    + by replace (0 <=? v) with false by lia.
    + replace (0 <=? v) with true by lia. eapply mut_good; [done..|]. intros p _. apply knows_duplicate; [lia | done].
  - inversion Hc as [? ? Hv | | | | | | | | | | | | |]; subst; try done; unfold finish_close.
    + by replace (0 <=? v) with false by lia.
    + apply sockets_good. eapply mut_good; [done..|]. intros p _. apply knows_close.
  - inversion Hc as [? ? Hv | | | | ? ? H0 | | | | | | | | |]; subst; try done; unfold finish_close_range.
    + by replace (0 <=? v) with false by lia.
    + apply sockets_good. eapply mut_good; [done..|]. intros p _. by apply knows_close_range.
  - inversion Hc as [? ? Hv | | | | | | | | | | | | |]; subst; try done; [|by apply finish_socket_good].
    unfold finish_socket. replace (0 <=? v) with false by lia. cbn [andb]. cbv zeta. by case_match.
Qed.

(** ** Whole calls *)

(** A call of a task from its entry to its return. *)
Definition call (task pc back : Z) (kind : SyscallKind) (value satp : Z) : ST (SyscallTracer * B) unit :=
  tracer_on_entry (mkSyscallEntry task 0 pc kind) satp;; tracer_on_return task back value satp.

(** A program that was replaced does not return to the call. *)
Definition returns_to (pc back : Z) (kind : SyscallKind) (value : Z) : Prop :=
  match kind with
  | SkExec _ _ _ _ => value < 0 ∧ back = wrapping_add64 pc 4 ∨ value = 0 ∧ back ≠ wrapping_add64 pc 4
  | _ => back = wrapping_add64 pc 4
  end.

Lemma finish_exec_good w w' k task dfd path argv cut value satp pid t b t' b' :
  finish_exec task dfd path argv cut (if value <? 0 then Failed value else Succeeded) satp (t, b) = Some (tt, (t', b')) →
  identified task satp pid t b → w !! pid = Some k → good w t →
  kernel_call w pid k (SkExec dfd path argv cut) value w' → good w' t'.
Proof.
  intros E Hid Hw Hg Hc. unfold finish_exec in E. apply st_bind_Some in E as (owner & [t1 b1] & E1 & E).
  pose proof (owner_of_owned _ _ _ _ _ _ _ _ _ _ E1 Hid Hw Hg) as Ho. clear E1 Hid Hg. rewrite get_then in E. cbv zeta in E.
  apply st_bind_Some in E as ([] & [t2 b2] & E2 & E).
  assert (Hg : good w' t2).
  { inversion Hc as [? ? Hv | | | | | | | | | | | | |]; subst; try done.
    - replace (value <? 0) with true in E2 by lia. injection E2 as <- _. apply Ho.
    - cbn [Z.ltb Z.compare] in E2. rewrite tr_run in E2. injection E2 as <- _. unfold exec_succeeded. cbv zeta.
      eapply mut_good; [|done|]; [|intros p _; apply knows_exec]. destruct Ho as (Hg & Hn & Ho). split_and!; [|done..].
      by apply (good_same _ t1). }
  rewrite get_then in E. case_match; [by injection E as <- _|]. rewrite tr_run in E. injection E as <- _.
  unfold exec_event. by apply good_record.
Qed.

Lemma emit_exit_good w k task code satp pid t b t' b' :
  emit_exit task code satp (t, b) = Some (tt, (t', b')) → identified task satp pid t b → w !! pid = Some k → good w t →
  good (delete pid w) t'.
Proof.
  intros E Hid Hw Hg. unfold emit_exit in E. apply st_bind_Some in E as (owner & [t1 b1] & E1 & E).
  pose proof (owner_of_owned _ _ _ _ _ _ _ _ _ _ E1 Hid Hw Hg) as ([Hp Hk] & Hn & Ho). clear E1 Hid Hg. rewrite get_then in E. cbv zeta in E.
  apply st_bind_Some in E as ([] & [t2 b2] & E2 & E). rewrite tr_run in E2. injection E2 as <- <-.
  assert (Hg : good (delete pid w) (forget_owner owner task t1)).
  { unfold forget_owner. cbv zeta. destruct Ho as [-> | [-> Hl]]; (split; [cbn; by rewrite Hp, delete_empty|]); cbn; [by apply remove_world|].
    intros q r H. destruct (decide (pid = q)) as [<-|Hne]; [rewrite Hl, Hn in H; by destruct H|].
    rewrite lookup_delete_ne by done. by apply Hk. }
  case_match; [by injection E as <- _|]. rewrite tr_run in E. injection E as <- _. by apply good_record.
Qed.

(** A call that was entered and returns leaves nothing pending. *)
Lemma pending_return task x t : pending t = ∅ →
  t <| pending := <[task := x]> (pending t) |> <| pending := delete task (<[task := x]> (pending t)) |> = t.
Proof. intros Hp. destruct t. cbn in *. subst. by rewrite delete_insert_id by apply lookup_empty. Qed.

Lemma return_good w w' k task pc back kind value satp pid t b t' b' :
  tracer_on_return task back value satp (t <| pending := <[task := mkPending (wrapping_add64 pc 4) kind]> (pending t) |>, b)
    = Some (tt, (t', b')) →
  returns_to pc back kind value → identified task satp pid t b → w !! pid = Some k → good w t →
  (∀ owner s, owner_of task satp (t, b) = Some (owner, s) → placed kind pid s.1) →
  kernel_call w pid k kind value w' → match kind with SkExit _ => False | _ => True end → good w' t'.
Proof.
  intros E Hb Hid Hw Hg Hpl Hc Hx. unfold tracer_on_return in E. rewrite get_then in E. cbn [pending set] in E. rewrite lookup_insert_eq in E.
  apply st_bind_Some in E as ([] & [t1 b1] & E1 & E). rewrite tr_run in E1.
  assert (t1 = t ∧ b1 = b) as [-> ->].
  { apply Some_inj, pair_equal_spec in E1 as [_ E1]. apply pair_equal_spec in E1 as [<- <-]. split; [|done].
    exact (pending_return task (mkPending (wrapping_add64 pc 4) kind) t (proj1 Hg)). }
  cbn [return_pc pending_kind] in E.
  destruct kind; try done; try (rewrite (proj2 (Z.eqb_eq _ _) Hb) in E; by eapply finish_good).
  destruct Hb as [[Hv ->]|[-> Hne]].
  - rewrite Z.eqb_refl in E. apply (finish_exec_good w w' k task directory_fd path argv argv_truncated value satp pid t b t' b'); auto.
    by replace (value <? 0) with true by lia.
  - rewrite (proj2 (Z.eqb_neq _ _) Hne) in E. by apply (finish_exec_good w w' k task directory_fd path argv argv_truncated 0 satp pid t b t' b').
Qed.

Lemma call_good w w' k task pc back kind value satp pid t b t' b' :
  call task pc back kind value satp (t, b) = Some (tt, (t', b')) → returns_to pc back kind value →
  identified task satp pid t b → w !! pid = Some k → good w t →
  (∀ owner s, owner_of task satp (t, b) = Some (owner, s) → placed kind pid s.1) →
  kernel_call w pid k kind value w' → good w' t'.
Proof.
  intros E Hb Hid Hw Hg Hpl Hc. unfold call in E. apply st_bind_Some in E as ([] & [t1 b1] & E1 & E).
  unfold tracer_on_entry in E1. rewrite get_then in E1. cbn [entry_kind entry_task entry_pc] in E1.
  assert (Hnone : ∀ t2 b2 w2, good w2 t2 → tracer_on_return task back value satp (t2, b2) = Some (tt, (t', b')) → good w2 t').
  { intros t2 b2 w2 [Hp Hk]. unfold tracer_on_return. rewrite get_then, Hp, lookup_empty. by intros [= <- _]. }
  assert (Hin : ∀ x s2, tr (fun t => t <| pending := <[task := x]> (pending t) |>) (t, b) = Some (tt, s2) →
            s2 = (t <| pending := <[task := x]> (pending t) |>, b)).
  { intros x s2 H. rewrite tr_run in H. apply Some_inj, pair_equal_spec in H as [_ H]. done. }
  destruct kind; try (apply Hin in E1; apply pair_equal_spec in E1 as [-> ->]; by eapply return_good).
  - eapply Hnone; [|exact E]. inversion Hc as [? ? Hv Hn | | | | | | | | | | | | | ]; subst; try done;
      first [by eapply emit_exit_good | exfalso; by eapply Hn].
  - case_match; [injection E1 as <- <-; eapply Hnone; [|exact E]; by inversion Hc; subst|].
    apply Hin, pair_equal_spec in E1 as [-> ->]. by eapply return_good.
Qed.
End Bus.

(** ** Every sequence of calls *)

(** A tracer and a kernel that were shown the same calls, one after the other.
    Descriptors also appear without the tracer noticing (pipes, accepted
    connections); the directories of processes may be seeded; how the layout of
    tasks was learnt does not matter. *)
Inductive traced {J : Json} {W : WallClock} : World -> SyscallTracer -> Prop :=
| traced_new w o r : traced w (tracer_new o r)
| traced_quiet w t q : traced w t → traced w (set_quiet q t)
| traced_layout w t i : traced w t → traced w (t <| identities := i |>)
| traced_seed w t pid k path :
    traced w t → w !! pid = Some k → names path (k_cwd k) → traced w (seed_working_directory pid path t)
| traced_silent w t pid k fd f :
    traced w t → w !! pid = Some k → free fd k → traced (<[pid := set_fd fd f k]> w) t
| traced_call w w' t t' B (SB : SystemBus B) (HM : HostMemory B) b b' pid k task pc back kind value satp :
    traced w t → w !! pid = Some k → kernel_call w pid k kind value w' → returns_to pc back kind value →
    identified task satp pid t b → (∀ owner s, owner_of task satp (t, b) = Some (owner, s) → placed kind pid s.1) →
    call task pc back kind value satp (t, b) = Some (tt, (t', b')) → traced w' t'.

Lemma seed_world w pid k path t :
  w !! pid = Some k → names path (k_cwd k) → knows_world t w → knows_world (set_working_directory pid path t) w.
Proof.
  intros Hw Hn Ht.
  assert (H : ∀ t', live t' = <[pid := (default process_default (live t !! pid)) <| working_directory := Some path |>]> (live t) →
            forks t' = forks t → knows_world t' w).
  { intros t' El Ef q r. rewrite El, Ef. intros [[[<- <-]|[_ H]]%lookup_insert_Some|H]; [|apply Ht; auto..].
    exists k. split; [done|]. assert (Hk : knows (default process_default (live t !! pid)) k).
    { destruct (live t !! pid) as [p|] eqn:E; [|apply knows_default]. destruct (Ht pid p) as (k2 & ? & ?); [by left|]. by simplify_eq. }
    destruct Hk as [Hc Hf]. split; [by intros c [= <-] | done]. }
  unfold set_working_directory. cbv zeta. by case_if; apply H.
Qed.

Lemma silent_world w pid k fd f t : w !! pid = Some k → free fd k → knows_world t w → knows_world t (<[pid := set_fd fd f k]> w).
Proof.
  intros Hw Hf Ht q r H. destruct (Ht q r H) as (k2 & E & Hk). destruct (decide (pid = q)) as [<-|Hne].
  - assert (k2 = k) as -> by congruence. exists (set_fd fd f k). rewrite lookup_insert_eq. split; [done | by apply knows_fresh].
  - exists k2. by rewrite lookup_insert_ne.
Qed.

Lemma traced_good {J : Json} {W : WallClock} w t : traced w t → good w t.
Proof.
  induction 1 as [w o r | w t q _ IH | w t i _ IH | w t pid k path _ [Hp Hk] Hw Hn | w t pid k fd f _ [Hp Hk] Hw Hf
                 | w w' t t' B SB HM b b' pid k task pc back kind value satp _ IH Hw Hc Hb Hi Hpl E].
  - split; [done|]. intros pid p [H|H]; cbn in H; by rewrite lookup_empty in H.
  - by apply (good_same _ t).
  - by apply (good_same _ t).
  - split; [done|]. by eapply seed_world.
  - split; [done|]. by apply silent_world.
  - by eapply call_good.
Qed.

Lemma resolve_normal pid dfd path t r : resolve pid dfd path t = Some r → normalize r = r.
Proof.
  unfold resolve. case_if; [intros [= <-]; apply normalize_idempotent|]. destruct pid as [pid|]; [|done]. cbn.
  destruct (live t !! pid) as [p|]; [|done]. cbn. destruct (if _ =? _ then _ else _) as [base|]; [|done]. cbn.
  case_decide; intros [= <-]; apply normalize_idempotent.
Qed.


(** ** A run *)

Import TracerDemo.

Definition at_app : KProcess := mkKProcess [as_bytes "app"] ∅.
Definition kernel_demo : gmap Z KProcess := {[1 := at_app]}.
Definition demo_call (pid : Z) (kind : SyscallKind) (value : Z) : ST (SyscallTracer * ram) unit :=
  call (task_of pid) 0x4000 0x4004 kind value 0.
Definition open_dir : SyscallKind := SkOpen AT_FDCWD (GuestValue (as_bytes "src")) false false false false false.
Definition demo_layout : Identities := mkIdentities (Some (mkLayout 1296 1300 (Some 1312))) ∅ ∅.
Definition demo1 : SyscallTracer := seed_working_directory 1 (as_bytes "/app") (demo_tracer <| identities := demo_layout |>).
Definition demo2 : SyscallTracer := run_after (demo_call 1 open_dir 3) guest_memory demo1.
Definition demo_file : KFile := mkKFile (Some [as_bytes "src"; as_bytes "app"]) false.

(** One call of the run, if the tracer returns from it. *)
Lemma demo_step w w' t pid k kind v :
  traced w t → w !! pid = Some k → kernel_call w pid k kind v w' → returns_to 0x4000 0x4004 kind v →
  identified (task_of pid) 0 pid t guest_memory →
  (∀ p t1, live (table t1) !! pid = Some p → placed kind pid t1) →
  runs (demo_call pid kind v (t, guest_memory)) = true →
  traced w' (run_after (demo_call pid kind v) guest_memory t).
Proof.
  intros Ht Hw Hc Hb Hi Hp Hr. unfold run_after. destruct (demo_call pid kind v (t, guest_memory)) as [[[] [t' b']]|] eqn:E; [|done].
  eapply (traced_call w w' t t' ram bus host guest_memory b' pid k); [exact Ht | exact Hw | exact Hc | exact Hb | exact Hi | | exact E].
  intros owner s _ p Hl. by eapply Hp.
Qed.

Lemma demo_traced : traced (<[1 := set_fd 3 demo_file at_app]> kernel_demo) demo2.
Proof.
  apply (demo_step kernel_demo _ demo1 1 at_app); [| reflexivity | | done | | done | vm_compute; reflexivity].
  - apply (traced_seed _ _ 1 at_app); [apply traced_layout, traced_new | reflexivity |]. split; [|vm_compute; reflexivity].
    apply Forall_singleton. split_and!; [done..|]. by apply (bool_decide_unpack _).
  - apply kc_open; [split; [lia | reflexivity] | done |]. intros s [= <-]. vm_compute. reflexivity.
  - exists (Some 1), guest_memory. split; [vm_compute; reflexivity | by left].
Qed.


(** ** Calls that are not followed *)

(** The child of process 1. *)
Definition fork_memory : ram := spawn 2 (Some 1) (spawn 1 None ∅).
Definition entered (pid : Z) (kind : SyscallKind) (t : SyscallTracer) : SyscallTracer :=
  run_after (tracer_on_entry (demo_entry pid kind) 0) fork_memory t.
Definition returned (pid value : Z) (t : SyscallTracer) : SyscallTracer :=
  run_after (tracer_on_return (task_of pid) 0x4004 value 0) fork_memory t.
Definition called (pid : Z) (kind : SyscallKind) (value : Z) (t : SyscallTracer) : SyscallTracer :=
  returned pid value (entered pid kind t).
Definition go_to (path : string) : SyscallKind := SkChangeDirectory (GuestValue (as_bytes path)).

(** A child that changes its directory before the parent's [clone] returns (as
    after [vfork]) loses the change: what it inherits is recorded when the parent
    returns, and replaces what it had become. *)
Lemma late_fork_overwrites :
  let t1 := called 2 (go_to "/work") 0 (entered 1 (SkClone false) demo1) in
  let t2 := called 2 (SkMkdir AT_FDCWD (GuestValue (as_bytes "out"))) 0 (returned 1 2 t1) in
  let out t := resolved (path_field (OProcess 2) AT_FDCWD (GuestValue (as_bytes "out")) t) in
  out t1 = Some (as_bytes "/work/out") ∧ out t2 = Some (as_bytes "/app/out").
Proof. vm_compute. by split. Qed.

(** Likewise a program the child of a helper runs is taken for the helper's own. *)
Lemma late_fork_stays_internal :
  let run := SkExec AT_FDCWD (GuestValue (as_bytes "/bin/user")) [as_bytes "user"] false in
  let helper := demo1 <| internal_owners := {[OProcess 1]} |> in
  let t1 := run_after (tracer_on_return (task_of 2) 0x8000 0 0) fork_memory (entered 2 run (entered 1 (SkClone false) helper)) in
  bool_decide (OProcess 2 ∈ internal_owners t1) = false ∧ bool_decide (OProcess 2 ∈ internal_owners (returned 1 2 t1)) = true.
Proof. vm_compute. by split. Qed.

(** A change to a directory whose descriptor is not known keeps the old one. *)
Lemma unknown_directory_keeps_old :
  let t := called 1 (SkChangeDirectoryDescriptor 9) 0 demo1 in
  resolved (path_field (OProcess 1) AT_FDCWD (GuestValue (as_bytes "x")) t) = Some (as_bytes "/app/x").
Proof. vm_compute. reflexivity. Qed.

(** A socket replaced by a duplicate of another keeps its old protocol. *)
Lemma duplicate_keeps_protocol :
  let t := called 1 (SkDuplicateTo 4 3 false) 3 (called 1 (SkSocket AF_INET 2) 4 (called 1 (SkSocket AF_INET 1) 3 demo1)) in
  socket_protocols t !! (OProcess 1, 3) = Some (as_bytes "tcp").
Proof. vm_compute. reflexivity. Qed.
