(* ===== verification/Gateway.v ===== *)
(** The gateway for HTTPS connections ([machine/src/virtio/https_gateway.rs],
    [tls_proxy/mod.rs], [upstream.rs]).

    A guest's connection to port 443 speaks TLS, which a proxy terminates, or
    announces a host in a line and goes on in the clear; either way the bytes go on
    to the host over TLS, or in the clear to a host that terminates TLS itself.
    [rustls] is not part of the repository: the two ends of a TLS connection are
    the classes [TlsServer] and [TlsClient].  A tracer is its capacity and the
    recorder it shares.  Loops the peer drives run on a bound ([LoopBound]). *)
From Stdlib Require Import String.
From S2P Require Import Prelude Words Wp Invariant VirtioConsole Dtb HostNet Frames Tcp TcpProps Dns.
From S2P Require Import SlirpInvariant HostFs Trace Text Secrets Http Syscalls.

Definition PREAMBLE_PREFIX : list Z := as_bytes "VPOD-CONNECT ".
Definition PREAMBLE_MAX : nat := 280.
Definition BUF_SIZE : nat := Z.to_nat 16384.

Inductive UpstreamMode : Type := TerminateHere | HostTerminates.
(** [from_env], the value of [VPOD_HOST_TLS] given ([None] when it is not set). *)
Definition mode_from_env (value : option (list Z)) : UpstreamMode :=
  match value with
  | Some value => if negb (bool_decide (value = [48])) && negb (bool_decide (value = [])) then HostTerminates else TerminateHere
  | None => TerminateHere
  end.

Inductive UpstreamStatus : Type := UpOpen | UpClosed | UpFailed.

(** [ServerConnection], its buffers unlimited.  [read_tls] and [write_tls] move
    records, [reader] and [writer] plaintext. *)
Class TlsServer (T SC : Type) := {
  server_new : SC -> option T;
  server_read_tls : list Z -> T -> option nat * T;
  server_process : T -> bool * T;
  server_handshaking : T -> bool;
  server_name : T -> option (list Z);
  server_read : nat -> T -> option (list Z) * T;
  server_write_all : list Z -> T -> bool * T;
  server_close_notify : T -> T;
  server_wants_write : T -> bool;
  server_write_tls : T -> option (list Z) * T
}.

(** [ClientConnection], its buffers unlimited, and [ServerName::try_from]. *)
Class TlsClient (K CC H Tcp : Type) := {
  valid_server_name : list Z -> bool;
  client_new : CC -> list Z -> option K;
  client_handshaking : K -> bool;
  client_wants_write : K -> bool;
  client_write_tls : Tcp -> ST (K * H) (Result nat ErrorKind);
  client_read_tls : Tcp -> ST (K * H) (Result nat ErrorKind);
  client_process : K -> bool * K;
  client_read : nat -> K -> option (list Z) * K;
  client_write_all : list Z -> K -> bool * K
}.

(** ** [Upstream] *)

Inductive Wire (K : Type) : Type := WTls (client : K) | WPlain (outbound : list Z).
Arguments WTls {K}.
Arguments WPlain {K}.

Record Upstream (K Tcp : Type) := mkUp {
  socket : Tcp;
  wire : Wire K;
  inbound : list Z;
  delivered_plaintext : bool
}.
Arguments mkUp {K Tcp}.
Arguments socket {K Tcp}.
Arguments wire {K Tcp}.
Arguments inbound {K Tcp}.
Arguments delivered_plaintext {K Tcp}.
#[export] Instance Upstream_eta {K Tcp} : Eta (Upstream K Tcp) := fun u => mkUp (socket u) (wire u) (inbound u) (delivered_plaintext u).

(** The line that announces a host in the clear. *)
Definition preamble (host : list Z) (port : Z) : list Z := PREAMBLE_PREFIX ++ host ++ [32] ++ display port ++ [10].

(** The host's answer to an error. *)
Definition fault (usable : bool) : UpstreamStatus := if usable then UpClosed else UpFailed.

Section Upstream.
Context {LB : LoopBound} {H Udp Tcp K CC : Type} {HN : HostNet H Udp Tcp} {TC : TlsClient K CC H Tcp} {LO : Layouts TcpKey}.
Abbreviation Up := (Upstream K Tcp).
Abbreviation M := (ST (Up * H)).

Definition up_connect (mode : UpstreamMode) (config : CC) (ip : list Z) (port : Z) (host : list Z) : ST H (option Up) :=
  if negb (valid_server_name host) then mret None
  else
    s ← tcp_connect ip port;
    match s with
    | None => mret None
    | Some s =>
        mret (match mode with
              | TerminateHere => (fun k => mkUp s (WTls k) [] false) <$> client_new config host
              | HostTerminates => Some (mkUp s (WPlain (preamble host port)) [] false)
              end)
    end.

Definition up_handshaking (u : Up) : bool := match wire u with WTls k => client_handshaking k | WPlain _ => false end.

Definition send_plaintext (bytes : list Z) (u : Up) : bool * Up :=
  match wire u with
  | WTls k => let (ok, k) := client_write_all bytes k in (ok, u <| wire := WTls k |>)
  | WPlain outbound => (true, u <| wire := WPlain (outbound ++ bytes) |>)
  end.

Definition read_plaintext (n : nat) (u : Up) : list Z * Up := (take n (inbound u), u <| inbound := drop n (inbound u) |>).

Definition mod_up (f : Up -> Up) : M unit := modify (fun s => (f s.1, s.2)).
Definition on_net {A} (m : ST H A) : M A := zoom snd (fun h s => (s.1, h)) m.
(** A call on the client [k] that uses the socket. *)
Definition on_client {A} (k : K) (m : ST (K * H) A) : M A := fun s =>
  match m (k, s.2) with Some (a, (k, h)) => Some (a, (s.1 <| wire := WTls k |>, h)) | None => None end.

(** The client of a TLS upstream; any other wire is [unreachable!]. *)
Definition with_client {A} (f : K -> M A) : M A :=
  w ← gets (fun s => wire s.1);
  match w with WTls k => f k | WPlain _ => panic end.

(** [Some status] where the code returns. *)
Fixpoint tls_write_loop (fuel : nat) (handshook : bool) : M (option UpstreamStatus) :=
  match fuel with
  | O => panic
  | S fuel =>
      with_client (fun k =>
        if client_wants_write k then
          s ← gets (fun s => socket s.1);
          r ← on_client k (client_write_tls s);
          match r with
          | Ok O => mret None
          | Ok _ => tls_write_loop fuel handshook
          | Err WouldBlock => mret None
          | Err _ => mret (Some (fault handshook))
          end
        else mret None)
  end.

Fixpoint decrypt_into (fuel : nat) : M unit :=
  match fuel with
  | O => panic
  | S fuel =>
      with_client (fun k =>
        let (r, k) := client_read BUF_SIZE k in
        mod_up (fun u => u <| wire := WTls k |>);;
        match r with
        | None | Some [] => mret tt
        | Some bytes => mod_up (fun u => u <| inbound := inbound u ++ bytes |>);; decrypt_into fuel
        end)
  end.

(** The status the loop ends with, or [UpFailed] where the code returns. *)
Fixpoint tls_read_loop (fuel : nat) (handshook : bool) : M UpstreamStatus :=
  match fuel with
  | O => panic
  | S fuel =>
      decrypt_into loop_bound;;
      with_client (fun k =>
        s ← gets (fun s => socket s.1);
        r ← on_client k (client_read_tls s);
        match r with
        | Ok O => mret UpClosed
        | Ok _ =>
            with_client (fun k =>
              let (ok, k) := client_process k in
              mod_up (fun u => u <| wire := WTls k |>);;
              if ok : bool then tls_read_loop fuel handshook else mret (fault handshook))
        | Err WouldBlock => mret UpOpen
        | Err _ => mret (fault handshook)
        end)
  end.

Definition note_delivered (u : Up) : Up := u <| delivered_plaintext := delivered_plaintext u || negb (bool_decide (inbound u = [])) |>.

Definition service_tls : M UpstreamStatus :=
  with_client (fun k =>
    let handshook := negb (client_handshaking k) in
    stop ← tls_write_loop loop_bound handshook;
    match stop with
    | Some status => mret status
    | None =>
        status ← tls_read_loop loop_bound handshook;
        match status with
        | UpFailed => mret UpFailed
        | _ => decrypt_into loop_bound;; mod_up note_delivered;; mret status
        end
    end).

Fixpoint plain_write_loop (fuel : nat) : M (option UpstreamStatus) :=
  match fuel with
  | O => panic
  | S fuel =>
      u ← gets fst;
      match wire u with
      | WTls _ => panic
      | WPlain outbound =>
          let front := take (first_slice_len outbound) outbound in
          if decide (outbound = []) then mret None
          else if decide (front = []) then mret None
          else
            r ← on_net (tcp_write (socket u) front);
            match r with
            | Ok O => mret None
            | Ok n => mod_up (fun u => u <| wire := WPlain (drop n outbound) |>);; plain_write_loop fuel
            | Err WouldBlock => mret None
            | Err _ => mret (Some (fault (delivered_plaintext u)))
            end
      end
  end.

Fixpoint plain_read_loop (fuel : nat) : M UpstreamStatus :=
  match fuel with
  | O => panic
  | S fuel =>
      u ← gets fst;
      r ← on_net (tcp_read (socket u) BUF_SIZE);
      match r with
      | Ok [] => mret UpClosed
      | Ok bytes => mod_up (fun u => u <| inbound := inbound u ++ bytes |> <| delivered_plaintext := true |>);; plain_read_loop fuel
      | Err WouldBlock => mret UpOpen
      | Err _ => mret (fault (delivered_plaintext u))
      end
  end.

Definition service_plain : M UpstreamStatus :=
  stop ← plain_write_loop loop_bound;
  match stop with Some status => mret status | None => plain_read_loop loop_bound end.

Definition up_service : M UpstreamStatus :=
  w ← gets (fun s => wire s.1);
  match w with WTls _ => service_tls | WPlain _ => service_plain end.
End Upstream.

(** What both ways of relaying share: an observer with the capacity of its
    tracer, and the substitution for the host.  The recorder all tracers share is
    part of the host's state. *)
Class SharedRecorder (H : Type) := { shared_recorder : H -> Recorder; set_shared_recorder : Recorder -> H -> H }.

(** The encoder of the [base64] crate. *)
Class Base64 := base64_encode : list Z -> list Z.

Abbreviation Observer := (option (HttpObserver * Z)).

Definition observer_for (tracer : option Z) (ip : list Z) (port : Z) : Observer :=
  (fun capacity => (observer_new (as_bytes "https") ip port, capacity)) <$> tracer.

Definition name_host (host : list Z) (http : Observer) : Observer :=
  (fun o : HttpObserver * Z => (observer_set_default_host host o.1, o.2)) <$> http.

(** The bytes to send on, or a refusal. *)
Definition outbound_for (bytes : list Z) (sub : option Substitution) : option (Result (list Z) Refused * option Substitution) :=
  match sub with
  | None => Some (Ok bytes, None)
  | Some s => '(r, s) ← feed bytes s; Some (r, Some s)
  end.

Record TlsContext (SC CC : Type) := mkCtx { server_config : SC; client_config : CC; upstream_mode : UpstreamMode }.
Arguments mkCtx {SC CC}.
Arguments server_config {SC CC}.
Arguments client_config {SC CC}.
Arguments upstream_mode {SC CC}.

(** ** [TlsProxy] *)

Record TlsProxy (T K CC Tcp : Type) := mkProxy {
  px_server : T;
  px_upstream : option (Upstream K Tcp);
  px_dst_ip : list Z;
  px_upstream_port : Z;
  px_client_config : CC;
  px_upstream_mode : UpstreamMode;
  px_to_guest : list Z;
  px_failed : bool;
  px_upstream_closed : bool;
  px_close_notified : bool;
  px_http : Observer;
  px_secrets : list SecretBinding;
  px_substitution : option Substitution
}.
Arguments mkProxy {T K CC Tcp}.
Arguments px_server {T K CC Tcp}.
Arguments px_upstream {T K CC Tcp}.
Arguments px_dst_ip {T K CC Tcp}.
Arguments px_upstream_port {T K CC Tcp}.
Arguments px_client_config {T K CC Tcp}.
Arguments px_upstream_mode {T K CC Tcp}.
Arguments px_to_guest {T K CC Tcp}.
Arguments px_failed {T K CC Tcp}.
Arguments px_upstream_closed {T K CC Tcp}.
Arguments px_close_notified {T K CC Tcp}.
Arguments px_http {T K CC Tcp}.
Arguments px_secrets {T K CC Tcp}.
Arguments px_substitution {T K CC Tcp}.
#[export] Instance TlsProxy_eta {T K CC Tcp} : Eta (TlsProxy T K CC Tcp) := fun p =>
  mkProxy (px_server p) (px_upstream p) (px_dst_ip p) (px_upstream_port p) (px_client_config p) (px_upstream_mode p)
    (px_to_guest p) (px_failed p) (px_upstream_closed p) (px_close_notified p) (px_http p) (px_secrets p) (px_substitution p).

Section Proxy.
Context {LB : LoopBound} {H Udp Tcp K CC T SC : Type} {HN : HostNet H Udp Tcp} {TC : TlsClient K CC H Tcp} {TS : TlsServer T SC}.
Context {LO : Layouts TcpKey} {SR : SharedRecorder H} {J : Json} {W : WallClock} {B64 : Base64}.
Abbreviation Up := (Upstream K Tcp).
Abbreviation Proxy := (TlsProxy T K CC Tcp).
Abbreviation M := (ST (Proxy * H)).

(** [http.observe(bytes)], where there is an observer. *)
Definition observe_bytes (bytes : list Z) (http : Observer) : ST H Observer := fun h =>
  match http with
  | None => Some (None, h)
  | Some (o, capacity) =>
      '(o, r) ← observer_observe base64_encode capacity wall_ms bytes (o, shared_recorder h);
      Some (Some (o, capacity), set_shared_recorder r h)
  end.

Definition proxy_new (ctx : TlsContext SC CC) (ip : list Z) : option Proxy :=
  (fun server => mkProxy server None ip 443 (client_config ctx) (upstream_mode ctx) [] false false false None [] None)
    <$> server_new (server_config ctx).

Definition proxy_carry_secrets (secrets : list SecretBinding) (p : Proxy) : Proxy := p <| px_secrets := secrets |>.
Definition proxy_observe_http (http : Observer) (p : Proxy) : Proxy := p <| px_http := http |>.
Definition proxy_server_name (p : Proxy) : option (list Z) := server_name (px_server p).
Definition proxy_has_pending (p : Proxy) : bool := negb (bool_decide (px_to_guest p = [])) || server_wants_write (px_server p).

Definition mod_px (f : Proxy -> Proxy) : M unit := modify (fun s => (f s.1, s.2)).
Definition px_net {A} (m : ST H A) : M A := zoom snd (fun h s => (s.1, h)) m.
Definition px_fail : M unit := mod_px (fun p => p <| px_failed := true |>).
(** A call on the upstream [u]. *)
Definition on_upstream {A} (u : Up) (m : ST (Up * H) A) : M A := fun s =>
  match m (u, s.2) with Some (a, (u, h)) => Some (a, (s.1 <| px_upstream := Some u |>, h)) | None => None end.

Definition connect_upstream (sni : list Z) : M unit :=
  p ← gets fst;
  u ← px_net (up_connect (px_upstream_mode p) (px_client_config p) (px_dst_ip p) (px_upstream_port p) sni);
  match u with
  | Some u => mod_px (fun p => p <| px_upstream := Some u |>)
  | None => px_fail
  end.

(** The reader's chunks go to the observer, through the substitution and to the
    upstream; [false] where the code returns. *)
Fixpoint proxy_relay (fuel : nat) (u : Up) : M bool :=
  match fuel with
  | O => panic
  | S fuel =>
      p ← gets fst;
      let (r, server) := server_read BUF_SIZE (px_server p) in
      mod_px (fun p => p <| px_server := server |>);;
      match r with
      | None | Some [] => mret true
      | Some bytes =>
          http ← px_net (observe_bytes bytes (px_http p));
          mod_px (fun p => p <| px_http := http |>);;
          '(r, sub) ← lift (outbound_for bytes (px_substitution p));
          mod_px (fun p => p <| px_substitution := sub |>);;
          match r with
          | Err _ => px_fail;; mret false
          | Ok [] => proxy_relay fuel u
          | Ok out =>
              let (ok, u) := send_plaintext out u in
              mod_px (fun p => p <| px_upstream := Some u |>);;
              if ok : bool then proxy_relay fuel u else px_fail;; mret false
          end
      end
  end.

(** What the host sent goes to the guest's side. *)
Fixpoint proxy_deliver (fuel : nat) (u : Up) : M unit :=
  match fuel with
  | O => panic
  | S fuel =>
      let (bytes, u) := read_plaintext BUF_SIZE u in
      mod_px (fun p => p <| px_upstream := Some u |>);;
      if decide (bytes = []) then mret tt
      else
        p ← gets fst;
        let (ok, server) := server_write_all bytes (px_server p) in
        mod_px (fun p => p <| px_server := server |>);;
        if ok : bool then proxy_deliver fuel u else px_fail
  end.

Definition service_upstream : M unit :=
  p ← gets fst;
  match px_upstream p with
  | None => mret tt
  | Some u =>
      status ← (if px_upstream_closed p then mret UpOpen else on_upstream u up_service);
      match status with
      | UpFailed => px_fail
      | _ =>
          match status with UpClosed => mod_px (fun p => p <| px_upstream_closed := true |>) | _ => mret tt end;;
          p ← gets fst;
          match px_upstream p with
          | Some u => proxy_deliver (S (length (inbound u))) u
          | None => mret tt
          end
      end
  end.

Fixpoint proxy_write_tls (fuel : nat) : M unit :=
  match fuel with
  | O => panic
  | S fuel =>
      p ← gets fst;
      if server_wants_write (px_server p) then
        let (r, server) := server_write_tls (px_server p) in
        mod_px (fun p => p <| px_server := server |>);;
        match r with
        | None => px_fail
        | Some [] => mret tt
        | Some out => mod_px (fun p => p <| px_to_guest := px_to_guest p ++ out |>);; proxy_write_tls fuel
        end
      else mret tt
  end.

(** Once the guest has named its host, the connection to it is opened. *)
Definition proxy_open : M unit :=
  p ← gets fst;
  match px_upstream p, server_handshaking (px_server p), server_name (px_server p) with
  | None, false, Some sni =>
      mod_px (fun p => p <| px_http := name_host sni (px_http p) |> <| px_substitution := for_host (px_secrets p) sni |>);;
      connect_upstream sni
  | _, _, _ => mret tt
  end.

Definition proxy_pump : M unit :=
  p ← gets fst;
  if px_failed p then mret tt
  else
    let (ok, server) := server_process (px_server p) in
    mod_px (fun p => p <| px_server := server |>);;
    if negb ok then px_fail
    else
      proxy_open;;
      p ← gets fst;
      go ← (match px_upstream p with None => mret true | Some u => proxy_relay loop_bound u end);
      if negb go then mret tt
      else
        service_upstream;;
        mod_px (fun p =>
          if px_upstream_closed p && negb (px_close_notified p)
          then p <| px_server := server_close_notify (px_server p) |> <| px_close_notified := true |> else p);;
        proxy_write_tls loop_bound.

(** [true] where all was read, [false] where the code returns. *)
Fixpoint proxy_read_tls (fuel : nat) (bytes : list Z) : M bool :=
  match bytes, fuel with
  | [], _ => mret true
  | _, O => panic
  | _, S fuel =>
      p ← gets fst;
      let (r, server) := server_read_tls bytes (px_server p) in
      mod_px (fun p => p <| px_server := server |>);;
      match r with
      | None => px_fail;; mret false
      | Some O => mret true
      | Some n => proxy_read_tls fuel (drop n bytes)
      end
  end.

Definition proxy_push (bytes : list Z) : M unit :=
  go ← proxy_read_tls (length bytes) bytes;
  if go : bool then proxy_pump else mret tt.

Definition proxy_pull (n : nat) : M (option (list Z)) :=
  proxy_pump;;
  p ← gets fst;
  if decide (px_to_guest p = []) then mret None
  else mod_px (fun p => p <| px_to_guest := drop n (px_to_guest p) |>);; mret (Some (take n (px_to_guest p))).
End Proxy.

(** ** [PlainBridge] *)

Record PlainBridge (K Tcp : Type) := mkBridge {
  br_upstream : Upstream K Tcp;
  br_host : list Z;
  br_http : Observer;
  br_to_guest : list Z;
  br_failed : bool;
  br_upstream_closed : bool;
  br_substitution : option Substitution
}.
Arguments mkBridge {K Tcp}.
Arguments br_upstream {K Tcp}.
Arguments br_host {K Tcp}.
Arguments br_http {K Tcp}.
Arguments br_to_guest {K Tcp}.
Arguments br_failed {K Tcp}.
Arguments br_upstream_closed {K Tcp}.
Arguments br_substitution {K Tcp}.
#[export] Instance PlainBridge_eta {K Tcp} : Eta (PlainBridge K Tcp) := fun b =>
  mkBridge (br_upstream b) (br_host b) (br_http b) (br_to_guest b) (br_failed b) (br_upstream_closed b) (br_substitution b).

Section Bridge.
Context {LB : LoopBound} {H Udp Tcp K CC : Type} {HN : HostNet H Udp Tcp} {TC : TlsClient K CC H Tcp}.
Context {LO : Layouts TcpKey} {SR : SharedRecorder H} {J : Json} {W : WallClock} {B64 : Base64}.
Abbreviation Up := (Upstream K Tcp).
Abbreviation Bridge := (PlainBridge K Tcp).
Abbreviation M := (ST (Bridge * H)).

Definition bridge_connect (mode : UpstreamMode) (config : CC) (ip : list Z) (port : Z) (host : list Z) (secrets : list SecretBinding) : ST H (option Bridge) :=
  u ← up_connect mode config ip port host;
  mret ((fun u => mkBridge u host None [] false false (for_host secrets host)) <$> u).

Definition mod_br (f : Bridge -> Bridge) : M unit := modify (fun s => (f s.1, s.2)).
Definition br_net {A} (m : ST H A) : M A := zoom snd (fun h s => (s.1, h)) m.
Definition br_fail : M unit := mod_br (fun b => b <| br_failed := true |>).
Definition on_bridge_upstream {A} (m : ST (Up * H) A) : M A :=
  zoom (fun s => (br_upstream s.1, s.2)) (fun t s => (s.1 <| br_upstream := t.1 |>, t.2)) m.

(** What the host sent waits for the guest. *)
Fixpoint bridge_deliver (fuel : nat) : M unit :=
  match fuel with
  | O => panic
  | S fuel =>
      b ← gets fst;
      let (bytes, u) := read_plaintext BUF_SIZE (br_upstream b) in
      mod_br (fun b => b <| br_upstream := u |>);;
      if decide (bytes = []) then mret tt
      else mod_br (fun b => b <| br_to_guest := br_to_guest b ++ bytes |>);; bridge_deliver fuel
  end.

Definition bridge_pump : M unit :=
  b ← gets fst;
  if br_failed b then mret tt
  else
    status ← (if br_upstream_closed b then mret UpOpen else on_bridge_upstream up_service);
    match status with
    | UpFailed => br_fail
    | _ =>
        match status with UpClosed => mod_br (fun b => b <| br_upstream_closed := true |>) | _ => mret tt end;;
        b ← gets fst;
        bridge_deliver (S (length (inbound (br_upstream b))))
    end.

Definition bridge_push (bytes : list Z) : M unit :=
  b ← gets fst;
  http ← br_net (observe_bytes bytes (br_http b));
  mod_br (fun b => b <| br_http := http |>);;
  '(r, sub) ← lift (outbound_for bytes (br_substitution b));
  mod_br (fun b => b <| br_substitution := sub |>);;
  match r with
  | Err _ => br_fail
  | Ok [] => bridge_pump
  | Ok out =>
      let (ok, u) := send_plaintext out (br_upstream b) in
      mod_br (fun b => b <| br_upstream := u |>);;
      if ok : bool then bridge_pump else br_fail
  end.

Definition bridge_pull (n : nat) : M (option (list Z)) :=
  bridge_pump;;
  b ← gets fst;
  if decide (br_to_guest b = []) then mret None
  else mod_br (fun b => b <| br_to_guest := drop n (br_to_guest b) |>);; mret (Some (take n (br_to_guest b))).
End Bridge.

(** ** [HttpsGateway] *)

Definition parse_u16 (l : list Z) : option Z := n ← parse_u64 l; if n <? 65536 then Some n else None.

Definition parse_preamble (line : list Z) : option (list Z * Z) :=
  if utf8_valid line then
    rest ← strip_prefix_str PREAMBLE_PREFIX line;
    match split_on 32 (trim_end rest) with
    | host :: port :: more =>
        port ← parse_u16 port;
        if bool_decide (host = []) || negb (bool_decide (more = [])) then None else Some (host, port)
    | _ => None
    end
  else None.

Definition could_be_preamble (buffered : list Z) : bool :=
  starts_with (take (length PREAMBLE_PREFIX) buffered) PREAMBLE_PREFIX || starts_with PREAMBLE_PREFIX buffered.

Fixpoint newline_at (b : Z) (l : list Z) : option nat :=
  match l with
  | [] => None
  | x :: l => if x =? b then Some O else S <$> newline_at b l
  end.

Inductive GatewayState (T K CC Tcp : Type) : Type :=
  Sniffing (buffered : list Z) | GwTls (proxy : TlsProxy T K CC Tcp) | GwPlain (bridge : PlainBridge K Tcp) | GwFailed.
Arguments Sniffing {T K CC Tcp}.
Arguments GwTls {T K CC Tcp}.
Arguments GwPlain {T K CC Tcp}.
Arguments GwFailed {T K CC Tcp}.

(** [gw_tracer] is the capacity of the tracer's recorder. *)
Record Gateway (T SC K CC Tcp : Type) := mkGw {
  gw_state : GatewayState T K CC Tcp;
  gw_ctx : TlsContext SC CC;
  gw_upstream_config : CC;
  gw_dst_ip : list Z;
  gw_tracer : option Z;
  gw_secrets : list SecretBinding
}.
Arguments mkGw {T SC K CC Tcp}.
Arguments gw_state {T SC K CC Tcp}.
Arguments gw_ctx {T SC K CC Tcp}.
Arguments gw_upstream_config {T SC K CC Tcp}.
Arguments gw_dst_ip {T SC K CC Tcp}.
Arguments gw_tracer {T SC K CC Tcp}.
Arguments gw_secrets {T SC K CC Tcp}.
#[export] Instance Gateway_eta {T SC K CC Tcp} : Eta (Gateway T SC K CC Tcp) := fun g =>
  mkGw (gw_state g) (gw_ctx g) (gw_upstream_config g) (gw_dst_ip g) (gw_tracer g) (gw_secrets g).

Section Gateway.
Context {LB : LoopBound} {H Udp Tcp K CC T SC : Type} {HN : HostNet H Udp Tcp} {TC : TlsClient K CC H Tcp} {TS : TlsServer T SC}.
Context {LO : Layouts TcpKey} {SR : SharedRecorder H} {J : Json} {W : WallClock} {B64 : Base64}.
Abbreviation Gw := (Gateway T SC K CC Tcp).
Abbreviation M := (ST (Gw * H)).

Definition gw_new (ctx : TlsContext SC CC) (ip : list Z) : Gw := mkGw (Sniffing []) ctx (client_config ctx) ip None [].
Definition gw_carry_secrets (secrets : list SecretBinding) (g : Gw) : Gw := g <| gw_secrets := secrets |>.
Definition gw_observe_http (tracer : Z) (g : Gw) : Gw := g <| gw_tracer := Some tracer |>.

Definition gw_server_name (g : Gw) : option (list Z) :=
  match gw_state g with
  | GwTls p => proxy_server_name p
  | GwPlain b => Some (br_host b)
  | _ => None
  end.

Definition gw_has_failed (g : Gw) : bool :=
  match gw_state g with
  | GwFailed => true
  | GwTls p => px_failed p
  | GwPlain b => br_failed b
  | Sniffing _ => false
  end.

Definition gw_eof (g : Gw) : bool :=
  match gw_state g with GwPlain b => br_upstream_closed b && bool_decide (br_to_guest b = []) | _ => false end.

Definition gw_has_pending (g : Gw) : bool :=
  match gw_state g with
  | GwTls p => proxy_has_pending p
  | GwPlain b => negb (bool_decide (br_to_guest b = []))
  | _ => false
  end.

Definition mod_gw (f : Gw -> Gw) : M unit := modify (fun s => (f s.1, s.2)).
Definition gw_net {A} (m : ST H A) : M A := zoom snd (fun h s => (s.1, h)) m.
(** A method of the proxy or bridge [x]: its result, and [x] after it. *)
Definition on_part {P A} (x : P) (m : ST (P * H) A) : M (A * P) := fun s =>
  match m (x, s.2) with Some (a, (x, h)) => Some ((a, x), (s.1, h)) | None => None end.

Definition become_tls (buffered : list Z) : M unit :=
  g ← gets fst;
  match proxy_new (gw_ctx g) (gw_dst_ip g) with
  | None => mret tt
  | Some p =>
      let p := proxy_observe_http (observer_for (gw_tracer g) (gw_dst_ip g) 443) p in
      let p := proxy_carry_secrets (gw_secrets g) p in
      mod_gw (fun g => g <| gw_tracer := None |> <| gw_secrets := [] |>);;
      '(_, p) ← on_part p (proxy_push buffered);
      mod_gw (fun g => g <| gw_state := GwTls p |>)
  end.

Definition become_plain (host : list Z) (port : Z) (remainder : list Z) : M unit :=
  g ← gets fst;
  b ← gw_net (bridge_connect (upstream_mode (gw_ctx g)) (gw_upstream_config g) (gw_dst_ip g) port host (gw_secrets g));
  match b with
  | None => mret tt
  | Some b =>
      let b := b <| br_http := name_host host (observer_for (gw_tracer g) (gw_dst_ip g) port) |> in
      mod_gw (fun g => g <| gw_tracer := None |>);;
      '(_, b) ← (if decide (remainder = []) then mret (tt, b) else on_part b (bridge_push remainder));
      mod_gw (fun g => g <| gw_state := GwPlain b |>)
  end.

Definition decide_dialect : M unit :=
  g ← gets fst;
  match gw_state g with
  | Sniffing buffered =>
      if decide (buffered = []) then mret tt
      else if negb (could_be_preamble buffered) then
        mod_gw (fun g => g <| gw_state := GwFailed |>);;
        become_tls buffered
      else
        match newline_at 10 buffered with
        | None => if (PREAMBLE_MAX <? length buffered)%nat then mod_gw (fun g => g <| gw_state := GwFailed |>) else mret tt
        | Some newline =>
            mod_gw (fun g => g <| gw_state := GwFailed |>);;
            match parse_preamble (take (S newline) buffered) with
            | None => mret tt
            | Some (host, port) => become_plain host port (drop (S newline) buffered)
            end
        end
  | _ => mret tt
  end.

Definition gw_push (bytes : list Z) : M unit :=
  g ← gets fst;
  match gw_state g with
  | Sniffing buffered => mod_gw (fun g => g <| gw_state := Sniffing (buffered ++ bytes) |>);; decide_dialect
  | GwTls p => '(_, p) ← on_part p (proxy_push bytes); mod_gw (fun g => g <| gw_state := GwTls p |>)
  | GwPlain b => '(_, b) ← on_part b (bridge_push bytes); mod_gw (fun g => g <| gw_state := GwPlain b |>)
  | GwFailed => mret tt
  end.

Definition gw_pull (n : nat) : M (option (list Z)) :=
  g ← gets fst;
  match gw_state g with
  | GwTls p => '(r, p) ← on_part p (proxy_pull n); mod_gw (fun g => g <| gw_state := GwTls p |>);; mret r
  | GwPlain b => '(r, b) ← on_part b (bridge_pull n); mod_gw (fun g => g <| gw_state := GwPlain b |>);; mret r
  | _ => mret None
  end.

Definition gw_shutdown_write : M unit := mret tt.
End Gateway.

(** * Properties

    What reaches a host through the gateway.

    Of [rustls] and of the host's sockets only this is used: what is written to a
    connection is what was given to it, and nothing else changes that.  The
    gateway then sends a host what the guest said, after the substitution for
    exactly that host, and the observer sees it before the substitution. *)

(** One step, ready for the next one. *)
Ltac next_wp := try unfold mod_up, on_net, mod_px, px_fail, px_net, mod_br, br_fail, br_net, on_bridge_upstream, mod_gw, gw_net; wp_step; cbv beta; cbn [fst snd].

(** ** What the service of an upstream keeps *)

Section UpstreamKeeps.
Context {LB : LoopBound} {H Udp Tcp K CC : Type} {HN : HostNet H Udp Tcp} {TC : TlsClient K CC H Tcp} {LO : Layouts TcpKey}.
Abbreviation Up := (Upstream K Tcp).

(** Calls on the client that hand out no plaintext. *)
Inductive client_step (k : K) (h : H) : K -> H -> Prop :=
| cs_write_tls s r k' h' : client_write_tls s (k, h) = Some (r, (k', h')) → client_step k h k' h'
| cs_read_tls s r k' h' : client_read_tls s (k, h) = Some (r, (k', h')) → client_step k h k' h'
| cs_process ok k' : client_process k = (ok, k') → client_step k h k' h.

Context (I : Up * H -> Prop).

(** What a property of an upstream must survive to survive a service. *)
Record survives : Prop := {
  sv_client u k k' h h' : wire u = WTls k → client_step k h k' h' → I (u, h) → I (u <| wire := WTls k' |>, h');
  sv_decrypt u k k' h n r : wire u = WTls k → client_read n k = (r, k') → I (u, h) →
    I (u <| wire := WTls k' |> <| inbound := inbound u ++ default [] r |>, h);
  sv_delivered u b h : I (u, h) → I (u <| delivered_plaintext := b |>, h);
  sv_write u o n r h h' : wire u = WPlain o → tcp_write (socket u) (take n o) h = Some (r, h') → I (u, h) →
    I (u <| wire := WPlain (drop (match r with Ok n => n | Err _ => 0%nat end) o) |>, h');
  sv_read u r h h' : tcp_read (socket u) BUF_SIZE h = Some (r, h') → I (u, h) →
    I (u <| inbound := inbound u ++ match r with Ok bytes => bytes | Err _ => [] end |>, h')
}.
Context (SV : survives).

Abbreviation kept m := (keeps True I m (fun _ => True)).

Lemma no_bytes (u : Up) : u <| inbound := inbound u ++ [] |> = u.
Proof. destruct u. cbn. by rewrite app_nil_r. Qed.

Lemma same_wire (u : Up) o : wire u = WPlain o → u <| wire := WPlain (drop 0 o) |> = u.
Proof. destruct u. cbn. by intros ->. Qed.

(** The client in use, and a step of it. *)
Lemma with_client_wp {A} (f : K -> ST (Up * H) A) Q (s : Up * H) :
  (∀ k, wire s.1 = WTls k → wp True (f k) Q s) → wp True (with_client f) Q s.
Proof. intros Hf. unfold with_client. next_wp. next_wp. destruct (wire s.1) as [k|] eqn:E; [by apply Hf | done]. Qed.

Lemma on_client_wp {A} k (m : ST (K * H) A) (Q : A -> Up * H -> Prop) (s : Up * H) :
  (∀ a k' h', m (k, s.2) = Some (a, (k', h')) → Q a (s.1 <| wire := WTls k' |>, h')) → wp True (on_client k m) Q s.
Proof. intros Hm. unfold wp, on_client. destruct (m (k, s.2)) as [[a [k' h']]|]; [by apply Hm | done]. Qed.

Lemma tls_write_kept fuel handshook : kept (tls_write_loop fuel handshook).
Proof.
  induction fuel as [|fuel IH]; intros [u h] Hs; [done|]. cbn [tls_write_loop]. apply with_client_wp. intros k Ek.
  destruct (client_wants_write k); [|done]. next_wp. next_wp. next_wp. apply on_client_wp. cbn [fst snd] in *. intros r k' h' E.
  assert (Hs' : I (u <| wire := WTls k' |>, h')) by (eapply sv_client; [done | done | by eapply cs_write_tls | done]).
  destruct r as [[|n]|[]]; try done. by apply IH.
Qed.

Lemma decrypt_kept fuel : kept (decrypt_into fuel).
Proof.
  induction fuel as [|fuel IH]; intros [u h] Hs; [done|]. cbn [decrypt_into]. apply with_client_wp. cbn [fst]. intros k Ek.
  destruct (client_read BUF_SIZE k) as [r k'] eqn:E. apply (sv_decrypt SV _ _ _ _ _ _ Ek E) in Hs. next_wp. next_wp. cbn [fst snd].
  destruct r as [[|b bytes]|]; cbn [default] in Hs.
  - change (I ((u <| wire := WTls k' |>) <| inbound := inbound (u <| wire := WTls k' |>) ++ [] |>, h)) in Hs. by rewrite no_bytes in Hs.
  - next_wp. next_wp. by apply IH.
  - change (I ((u <| wire := WTls k' |>) <| inbound := inbound (u <| wire := WTls k' |>) ++ [] |>, h)) in Hs. by rewrite no_bytes in Hs.
Qed.

Lemma tls_read_kept fuel handshook : kept (tls_read_loop fuel handshook).
Proof.
  induction fuel as [|fuel IH]; [done|]. cbn [tls_read_loop]. eapply keeps_bind; [apply decrypt_kept|]. intros _ _ [u h] Hs.
  apply with_client_wp. cbn [fst]. intros k Ek. next_wp. next_wp. next_wp. apply on_client_wp. cbn [fst snd]. intros r k' h' E.
  assert (Hs' : I (u <| wire := WTls k' |>, h')) by (eapply sv_client; [done | done | by eapply cs_read_tls | done]). clear Hs Ek E.
  destruct r as [[|n]|[]]; try done. apply with_client_wp. cbn. intros k1 [= <-].
  destruct (client_process k') as [ok k2] eqn:E. next_wp. next_wp.
  assert (I (u <| wire := WTls k2 |>, h')) as Hs2.
  { apply (sv_client SV _ k' k2 h' h') in Hs'; [done | done | by eapply cs_process]. }
  destruct ok; [by apply IH | done].
Qed.

Lemma note_delivered_kept : kept (mod_up note_delivered).
Proof. apply keeps_modify. intros [u h] Hs. by apply sv_delivered. Qed.

Lemma service_tls_kept : kept service_tls.
Proof.
  intros s Hs. unfold service_tls. apply with_client_wp. intros k _. revert s Hs. change (kept (stop ← tls_write_loop loop_bound (negb (client_handshaking k));
    match stop with Some status => mret status | None => status ← tls_read_loop loop_bound (negb (client_handshaking k));
      match status with UpFailed => mret UpFailed | _ => decrypt_into loop_bound;; mod_up note_delivered;; mret status end end)).
  eapply keeps_bind; [apply tls_write_kept|]. intros [status|] _; [by apply keeps_ret|]. eapply keeps_bind; [apply tls_read_kept|].
  intros status _. assert (Hd : kept (decrypt_into loop_bound;; mod_up note_delivered;; mret status)).
  { eapply keeps_bind; [apply decrypt_kept|]. intros _ _. eapply keeps_bind; [apply note_delivered_kept|]. intros _ _. by apply keeps_ret. }
  destruct status; [done | done | by apply keeps_ret].
Qed.

Lemma plain_write_kept fuel : kept (plain_write_loop fuel).
Proof.
  induction fuel as [|fuel IH]; intros [u h] Hs; [done|]. cbn [plain_write_loop]. next_wp. next_wp. cbn [fst].
  destruct (wire u) as [|o] eqn:Ew; [done|]. destruct (decide _); [done|]. cbv zeta. destruct (decide _); [done|].
  next_wp. apply wp_intro; [done|]. unfold on_net, zoom. cbn [fst snd]. intros r [u' h'].
  destruct (tcp_write _ _ _) as [[r' h1]|] eqn:E; [|done]. intros [= <- <- <-].
  apply (sv_write SV _ _ _ _ _ _ Ew E) in Hs. destruct r' as [[|m]|e].
  - by rewrite (same_wire _ _ Ew) in Hs.
  - next_wp. next_wp. by apply IH.
  - rewrite (same_wire _ _ Ew) in Hs. by destruct e.
Qed.

Lemma plain_read_kept fuel : kept (plain_read_loop fuel).
Proof.
  induction fuel as [|fuel IH]; intros [u h] Hs; [done|]. cbn [plain_read_loop]. next_wp. next_wp. cbn [fst].
  next_wp. apply wp_intro; [done|]. unfold on_net, zoom. cbn [fst snd]. intros r [u' h'].
  destruct (tcp_read _ _ _) as [[r' h1]|] eqn:E; [|done]. intros [= <- <- <-]. apply (sv_read SV _ _ _ _ E) in Hs.
  destruct r' as [[|b bytes]|e].
  - by rewrite no_bytes in Hs.
  - next_wp. next_wp. apply IH. by apply (sv_delivered SV _ true).
  - rewrite no_bytes in Hs. by destruct e.
Qed.

Lemma up_service_kept : kept up_service.
Proof.
  unfold up_service. apply (keeps_bind _ _ (fun _ => True)); [by apply keeps_gets|]. intros [] _; [apply service_tls_kept|].
  unfold service_plain. eapply keeps_bind; [apply plain_write_kept|]. intros [] _; [by apply keeps_ret | apply plain_read_kept].
Qed.
End UpstreamKeeps.

(** ** What is relayed *)

(** Pieces through a substitution, one after the other. *)
Inductive feeds (s : option Substitution) : list (list Z) -> option Substitution -> list Z -> Prop :=
| feeds_none : feeds s [] s []
| feeds_more chunks s1 out bytes more s2 :
    feeds s chunks s1 out → outbound_for bytes s1 = Some (Ok more, s2) → feeds s (chunks ++ [bytes]) s2 (out ++ more).

(** Pieces an observer has seen. *)
Inductive observed (r : HttpRequests) : list (list Z) -> HttpRequests -> Prop :=
| observed_none : observed r [] r
| observed_more chunks r1 bytes events r2 : observed r chunks r1 → observe bytes r1 = Some (events, r2) → observed r (chunks ++ [bytes]) r2.

Definition https_requests : HttpRequests := requests_new (as_bytes "https") None.
Definition fresh (http : Observer) : Prop := match http with None => True | Some (o, _) => requests o = https_requests end.
Definition seen (host : list Z) (chunks : list (list Z)) (http : Observer) : Prop :=
  match http with None => True | Some (o, _) => observed (set_default_host host https_requests) chunks (requests o) end.

(** What goes ahead of the guest's bytes. *)
Definition introduction (mode : UpstreamMode) (host : list Z) (port : Z) : list Z :=
  match mode with TerminateHere => [] | HostTerminates => preamble host port end.

(** A client's connection sends what was written to it ([written]). *)
Class UpstreamLaws (K CC H Udp Tcp : Type) {HN : HostNet H Udp Tcp} {TC : TlsClient K CC H Tcp} {SL : StreamLaws H Udp Tcp} {SR : SharedRecorder H} := {
  written : K -> list Z;
  ul_connect ip port h s h' : tcp_connect ip port h = Some (Some s, h') → received h' s = [];
  ul_recorder r h s : received (set_shared_recorder r h) s = received h s;
  ul_new config host k : client_new config host = Some k → written k = [];
  ul_write_all bytes k k' : client_write_all bytes k = (true, k') → written k' = written k ++ bytes;
  ul_step k h k' h' : client_step k h k' h' → written k' = written k;
  ul_client_read n k r k' : client_read n k = (r, k') → written k' = written k
}.

(** Calls on the server that hand out no plaintext. *)
Inductive server_step {T SC} {TS : TlsServer T SC} (t : T) : T -> Prop :=
| ss_read_tls bytes r t' : server_read_tls bytes t = (r, t') → server_step t t'
| ss_process ok t' : server_process t = (ok, t') → server_step t t'
| ss_write_all bytes ok t' : server_write_all bytes t = (ok, t') → server_step t t'
| ss_close : server_step t (server_close_notify t)
| ss_write_tls r t' : server_write_tls t = (r, t') → server_step t t'.

(** A server's connection hands out plaintext ([delivered]) and keeps the name
    the guest gave. *)
Class ServerLaws (T SC : Type) {TS : TlsServer T SC} := {
  delivered : T -> list Z;
  vl_new c t : server_new c = Some t → delivered t = [];
  vl_step t t' : server_step t t' → delivered t' = delivered t;
  vl_read n t r t' : server_read n t = (r, t') → delivered t' = delivered t ++ default [] r;
  vl_name t t' name : server_step t t' → server_name t = Some name → server_name t' = Some name;
  vl_read_name n t r t' name : server_read n t = (r, t') → server_name t = Some name → server_name t' = Some name
}.

Section Carrying.
Context {LB : LoopBound} {H Udp Tcp K CC : Type} {HN : HostNet H Udp Tcp} {TC : TlsClient K CC H Tcp} {LO : Layouts TcpKey}.
Context {SR : SharedRecorder H} {SL : StreamLaws H Udp Tcp} {UL : UpstreamLaws K CC H Udp Tcp}.
Context {J : Json} {W : WallClock} {B64 : Base64} (secrets : list SecretBinding) (mode : UpstreamMode).
Abbreviation Up := (Upstream K Tcp).

(** All that was handed to the host, on the wire or on its way to it. *)
Definition up_sent (h : H) (u : Up) : list Z :=
  match wire u with WTls k => written k | WPlain outbound => received h (socket u) ++ outbound end.

(** The host [host] is sent the pieces [chunks], with the secrets meant for it;
    the observer has seen the pieces. *)
Record carrying (host : list Z) (port : Z) (chunks : list (list Z)) (sub : option Substitution) (http : Observer) (s : Up * H) : Prop := {
  ca_sent : ∃ out, feeds (for_host secrets host) chunks sub out ∧ up_sent s.2 s.1 = introduction mode host port ++ out;
  ca_seen : seen host chunks http
}.

Lemma up_sent_survives x : survives (fun s : Up * H => up_sent s.2 s.1 = x).
Proof.
  split.
  - intros u k k' h h' Ew Hc. unfold up_sent. cbn. rewrite Ew. by rewrite (ul_step _ _ _ _ Hc).
  - intros u k k' h n r Ew Hc. unfold up_sent. cbn. rewrite Ew. by rewrite (ul_client_read _ _ _ _ Hc).
  - by intros u b h.
  - intros u o n r h h' Ew Ht. unfold up_sent. cbn. rewrite Ew. apply sl_write in Ht. intros <-. destruct r as [m|e].
    + destruct Ht as [Hm ->]. rewrite <- app_assoc. f_equal. rewrite length_take in Hm. rewrite take_take, Nat.min_l by lia. apply take_drop.
    + by rewrite Ht.
  - intros u r h h' Ht. unfold up_sent. cbn. destruct (wire u); [done|]. by rewrite (sl_read _ _ _ _ _ Ht).
Qed.

Lemma carrying_service host port chunks sub http : keeps True (carrying host port chunks sub http) up_service (fun _ => True).
Proof.
  intros s [(out & Hf & Hs) Hseen]. eapply wp_mono; [|exact (up_service_kept _ (up_sent_survives _) s Hs)].
  intros a s' [_ Hs']. split; [done|]. split; [|done]. by exists out.
Qed.

Lemma carrying_read host port chunks sub http n u h bytes u' :
  read_plaintext n u = (bytes, u') → carrying host port chunks sub http (u, h) → carrying host port chunks sub http (u', h).
Proof. intros [= _ <-] []. by split. Qed.

Lemma carrying_start tls_config ip port host h u h' http :
  up_connect mode tls_config ip port host h = Some (Some u, h') → fresh http →
  carrying host port [] (for_host secrets host) (name_host host http) (u, h').
Proof.
  intros E Hh. split.
  - exists []. split; [constructor|]. rewrite app_nil_r. revert E. unfold up_connect. destruct (negb _); [done|]. run_st.
    destruct (tcp_connect ip port h) as [[[s|] h1]|] eqn:Et; [|done|done]. destruct mode; cbn.
    + destruct (client_new _ _) as [k|] eqn:Ek; cbn; [|done]. intros [= <- <-]. cbn. unfold up_sent. cbn. by eapply ul_new.
    + intros [= <- <-]. unfold up_sent. cbn. by rewrite (ul_connect _ _ _ _ _ Et).
  - destruct http as [[o c]|]; [|done]. cbn in *. rewrite Hh. constructor.
Qed.

Lemma observe_bytes_seen host bytes http h http' h' chunks :
  observe_bytes bytes http h = Some (http', h') → seen host chunks http →
  seen host (chunks ++ [bytes]) http' ∧ ∀ u : Up, up_sent h' u = up_sent h u.
Proof.
  unfold observe_bytes. destruct http as [[o c]|]; [|by intros [= <- <-]].
  unfold observer_observe. cbn [fst snd]. destruct (observe bytes (requests o)) as [[events r2]|] eqn:E; cbn [mbind option_bind]; [|done].
  set (s := foldl _ _ _). assert (Hr : requests s.1 = r2).
  { unfold s. assert (Hs : ∀ events s0, requests (foldl (fun s event => on_event base64_encode c wall_ms event s) s0 events).1 = requests s0.1).
    { clear. induction events as [|[] events IH]; intros [o r]; [done| |]; cbn [foldl]; rewrite IH; unfold on_event; [by destruct (record_seq _ _ _ _ _) | by repeat case_match]. }
    by rewrite Hs. }
  destruct s as [o' r']. cbn in Hr. intros [= <- <-] Hs. split.
  - cbn in *. rewrite Hr. by econstructor.
  - intros u. unfold up_sent. destruct (wire u); [done|]. by rewrite ul_recorder.
Qed.

Lemma send_plaintext_sent out (u u' : Up) h : send_plaintext out u = (true, u') → up_sent h u' = up_sent h u ++ out.
Proof.
  unfold send_plaintext. destruct (wire u) as [k|o] eqn:Ew.
  - destruct (client_write_all out k) as [ok k'] eqn:E. intros [= -> <-]. unfold up_sent. cbn. rewrite Ew. by apply ul_write_all.
  - intros [= <-]. unfold up_sent. cbn. by rewrite Ew, app_assoc.
Qed.

(** A piece on its way: seen, substituted, sent. *)
Lemma carrying_chunk host port chunks sub http u h bytes http' h' more sub' u' :
  carrying host port chunks sub http (u, h) → observe_bytes bytes http h = Some (http', h') →
  outbound_for bytes sub = Some (Ok more, sub') → (more = [] ∧ u' = u ∨ send_plaintext more u = (true, u')) →
  carrying host port (chunks ++ [bytes]) sub' http' (u', h').
Proof.
  intros [(out & Hf & Hs) Hseen] Eo Ef Hu. apply (observe_bytes_seen host _ _ _ _ _ chunks) in Eo as [Hseen' Hup]; [|done]. split; [|done].
  exists (out ++ more). split; [by econstructor|]. cbn in *. rewrite app_assoc, <- Hs, <- Hup. destruct Hu as [[-> ->] | Hu]; [by rewrite app_nil_r|].
  by apply send_plaintext_sent.
Qed.
End Carrying.

(** ** The bridge *)

Section BridgeRelays.
Context {LB : LoopBound} {H Udp Tcp K CC : Type} {HN : HostNet H Udp Tcp} {TC : TlsClient K CC H Tcp} {LO : Layouts TcpKey}.
Context {SR : SharedRecorder H} {SL : StreamLaws H Udp Tcp} {UL : UpstreamLaws K CC H Udp Tcp}.
Context {J : Json} {W : WallClock} {B64 : Base64} (secrets : list SecretBinding) (mode : UpstreamMode).
Context (name : list Z) (port : Z).
Abbreviation Bridge := (PlainBridge K Tcp).

Definition bridge_ok (chunks : list (list Z)) (s : Bridge * H) : Prop :=
  br_host s.1 = name ∧
  (br_failed s.1 = false → carrying secrets mode name port chunks (br_substitution s.1) (br_http s.1) (br_upstream s.1, s.2)).

Lemma bridge_deliver_ok chunks fuel : keeps True (bridge_ok chunks) (bridge_deliver fuel) (fun _ => True).
Proof.
  induction fuel as [|fuel IH]; intros [b h] [Hn Hs]; [done|]. cbn [bridge_deliver]. next_wp. next_wp.
  destruct (read_plaintext BUF_SIZE (br_upstream b)) as [bytes u] eqn:E. next_wp. next_wp.
  assert (Hs' : bridge_ok chunks (b <| br_upstream := u |>, h)).
  { split; [done|]. intros Hf. eapply carrying_read; [exact E | by apply Hs]. }
  cbn [fst snd]. destruct (decide _); [done|]. next_wp. next_wp. apply IH. exact Hs'.
Qed.

Lemma bridge_pump_ok chunks : keeps True (bridge_ok chunks) bridge_pump (fun _ => True).
Proof.
  intros [b h] Hb. pose proof Hb as [Hn Hs]. unfold bridge_pump. next_wp. next_wp. cbn [fst snd] in *. destruct (br_failed b) eqn:Ef; [by split|].
  specialize (Hs eq_refl). next_wp. eapply (wp_mono _ (fun _ => bridge_ok chunks)).
  2: { destruct (br_upstream_closed b); [done|]. unfold on_bridge_upstream. apply wp_zoom. cbn [fst snd].
       eapply wp_mono; [|exact (carrying_service _ _ _ _ _ _ _ _ Hs)]. intros status [u' h'] [_ Hs']. by split. }
  intros status [b' h'] Hs'. destruct status; cbv beta.
  - next_wp. next_wp. next_wp. next_wp. by apply bridge_deliver_ok.
  - next_wp. next_wp. next_wp. next_wp. by apply bridge_deliver_ok.
  - next_wp. by destruct Hs' as [? _].
Qed.

Lemma bridge_push_ok chunks bytes (s : Bridge * H) :
  bridge_ok chunks s → wp True (bridge_push bytes) (fun _ => bridge_ok (chunks ++ [bytes])) s.
Proof.
  destruct s as [b h]. intros [Hn Hs]. unfold bridge_push. next_wp. next_wp. next_wp. apply wp_intro; [done|]. unfold br_net, zoom. cbn [fst snd] in *.
  intros http [b1 h1]. destruct (observe_bytes bytes (br_http b) h) as [[http' h']|] eqn:Eo; [|done]. intros [= <- <- <-].
  next_wp. next_wp. next_wp. unfold wp at 1, lift. destruct (outbound_for bytes (br_substitution b)) as [[r sub]|] eqn:Ef; [|done]. next_wp. next_wp.
  assert (Hpump : ∀ u, (br_failed b = false → carrying secrets mode name port (chunks ++ [bytes]) sub http' (u, h')) →
    wp True bridge_pump (fun _ => bridge_ok (chunks ++ [bytes])) (b <| br_http := http' |> <| br_substitution := sub |> <| br_upstream := u |>, h')).
  { intros u Hu. eapply wp_mono; [|apply (bridge_pump_ok (chunks ++ [bytes]))]; [by intros a s' [_ ?]|]. by split. }
  destruct r as [[|x more]|refused].
  - assert (Eb : b <| br_http := http' |> <| br_substitution := sub |> = b <| br_http := http' |> <| br_substitution := sub |> <| br_upstream := br_upstream b |>)
      by done. cbn [fst snd]. rewrite Eb. apply Hpump. intros Hf. eapply carrying_chunk; [by apply Hs | done | done | by left].
  - destruct (send_plaintext (x :: more) (br_upstream b)) as [ok u] eqn:Es. next_wp. next_wp. destruct ok.
    + apply Hpump. intros Hf. eapply carrying_chunk; [by apply Hs | done | done | by right].
    + next_wp. by split.
  - next_wp. by split.
Qed.

Lemma bridge_pull_ok chunks n : keeps True (bridge_ok chunks) (bridge_pull n) (fun _ => True).
Proof.
  unfold bridge_pull. eapply keeps_bind; [apply bridge_pump_ok|]. intros _ _ [b h] [Hn Hs]. next_wp. next_wp.
  destruct (decide _); [by split|]. next_wp. next_wp. next_wp. by split.
Qed.

Lemma bridge_connect_ok config ip h b h' :
  bridge_connect mode config ip port name secrets h = Some (Some b, h') →
  br_host b = name ∧ ∀ http, fresh http → bridge_ok [] (b <| br_http := name_host name http |>, h').
Proof.
  unfold bridge_connect. run_st. destruct (up_connect _ _ _ _ _ _) as [[[u|] h1]|] eqn:E; [|done|done]. intros [= <- <-]. split; [done|].
  intros http Hh. split; [done|]. intros _. cbn. by eapply carrying_start.
Qed.
End BridgeRelays.

(** ** The proxy *)

Section ProxyRelays.
Context {LB : LoopBound} {H Udp Tcp K CC T SC : Type} {HN : HostNet H Udp Tcp} {TC : TlsClient K CC H Tcp} {TS : TlsServer T SC} {LO : Layouts TcpKey}.
Context {SR : SharedRecorder H} {SL : StreamLaws H Udp Tcp} {UL : UpstreamLaws K CC H Udp Tcp} {VL : ServerLaws T SC}.
Context {J : Json} {W : WallClock} {B64 : Base64} (secrets : list SecretBinding) (mode : UpstreamMode).
Abbreviation Proxy := (TlsProxy T K CC Tcp).

(** Once there is an upstream, it is to the host the guest named. *)
Definition proxied (s : Proxy * H) : Prop :=
  match px_upstream s.1 with
  | None => delivered (px_server s.1) = [] ∧ fresh (px_http s.1)
  | Some u => ∃ name chunks, server_name (px_server s.1) = Some name ∧ delivered (px_server s.1) = concat chunks ∧
      carrying secrets mode name 443 chunks (px_substitution s.1) (px_http s.1) (u, s.2)
  end.

Definition proxy_ok (s : Proxy * H) : Prop :=
  px_failed s.1 = false → px_secrets s.1 = secrets ∧ px_upstream_mode s.1 = mode ∧ px_upstream_port s.1 = 443 ∧ proxied s.

Lemma proxy_failed (p : Proxy) h : proxy_ok (p <| px_failed := true |>, h).
Proof. done. Qed.

Lemma proxy_server_step p h t : server_step (px_server p) t → proxy_ok (p, h) → proxy_ok (p <| px_server := t |>, h).
Proof.
  intros Ht Hp Hf. destruct (Hp Hf) as (H1 & H2 & H3 & H4). split_and!; [done..|]. unfold proxied in *. cbn in *.
  rewrite (vl_step _ _ Ht). destruct (px_upstream p); [|done]. destruct H4 as (name & chunks & Hn & Hd & Hc). exists name, chunks.
  split_and!; [by eapply vl_name | done | done].
Qed.

Lemma connect_upstream_ok name p h :
  (px_failed p = false → px_secrets p = secrets ∧ px_upstream_mode p = mode ∧ px_upstream_port p = 443 ∧
    server_name (px_server p) = Some name ∧ delivered (px_server p) = [] ∧ px_substitution p = for_host secrets name ∧
    ∃ http, px_http p = name_host name http ∧ fresh http) →
  wp True (connect_upstream name) (fun _ => proxy_ok) (p, h).
Proof.
  intros Hp. unfold connect_upstream. next_wp. next_wp. next_wp. apply wp_intro; [done|]. unfold px_net, zoom. cbn [fst snd].
  intros u [p' h']. destruct (up_connect _ _ _ _ _ _) as [[u' h1]|] eqn:E; [|done]. intros [= <- <- <-]. destruct u' as [u|]; next_wp; [|done].
  intros Hf. destruct (Hp Hf) as (H1 & H2 & H3 & H4 & H5 & H6 & http & H7 & H8). split_and!; [done..|]. exists name, []. cbn.
  split_and!; [done | done|]. rewrite H6, H7. rewrite H2, H3 in E. by eapply carrying_start.
Qed.

Lemma proxy_open_ok : keeps True proxy_ok proxy_open (fun _ => True).
Proof.
  intros [p h] Hp. unfold proxy_open. next_wp. next_wp. cbn [fst]. destruct (px_upstream p) eqn:Eu; [done|].
  destruct (server_handshaking _); [done|]. destruct (server_name (px_server p)) as [sni|] eqn:En; [|done]. next_wp. next_wp.
  eapply wp_mono; [|apply connect_upstream_ok]; [by intros ? ? ?|]. cbn. intros Hf. destruct (Hp Hf) as (H1 & H2 & H3 & H4).
  unfold proxied in H4. cbn in *. rewrite Eu in H4. destruct H4. split_and!; [done..| by rewrite H1 |]. by eexists.
Qed.

Lemma proxy_relay_ok fuel u p h : px_upstream p = Some u → proxy_ok (p, h) → wp True (proxy_relay fuel u) (fun _ => proxy_ok) (p, h).
Proof.
  revert u p h. induction fuel as [|fuel IH]; intros u p h Eu Hp; [done|]. cbn [proxy_relay]. next_wp. next_wp. cbn [fst].
  destruct (server_read BUF_SIZE (px_server p)) as [r t] eqn:Er. next_wp. next_wp. cbn [fst snd].
  assert (Hquiet : default [] r = [] → proxy_ok (p <| px_server := t |>, h)).
  { intros Hr Hf. destruct (Hp Hf) as (H1 & H2 & H3 & H4). split_and!; [done..|]. unfold proxied in *. cbn in *. rewrite Eu in *.
    destruct H4 as (name & chunks & Hn & Hd & Hc). exists name, chunks. rewrite (vl_read _ _ _ _ Er), Hr, app_nil_r.
    split_and!; [by eapply vl_read_name | done | done]. }
  destruct r as [[|x bytes]|]; [by apply Hquiet | | by apply Hquiet]. clear Hquiet. set (chunk := x :: bytes) in *. clearbody chunk.
  next_wp. apply wp_intro; [done|]. unfold px_net, zoom. cbn [fst snd]. intros http [p1 h1].
  destruct (observe_bytes chunk (px_http p) h) as [[http' h']|] eqn:Eo; [|done]. intros [= <- <- <-]. next_wp. next_wp. next_wp.
  unfold wp at 1, lift. destruct (outbound_for chunk (px_substitution p)) as [[r sub]|] eqn:Ef; [|done]. next_wp. next_wp. cbn [fst snd].
  set (p2 := p <| px_server := t |> <| px_http := http' |> <| px_substitution := sub |>).
  assert (Hsent : ∀ more u', r = Ok more → (more = [] ∧ u' = u ∨ send_plaintext more u = (true, u')) → proxy_ok (p2 <| px_upstream := Some u' |>, h')).
  { intros more u' -> Hu Hf. destruct (Hp Hf) as (H1 & H2 & H3 & H4). split_and!; [done..|]. unfold proxied in *. cbn in *. rewrite Eu in *.
    destruct H4 as (name & chunks & Hn & Hd & Hc). exists name, (chunks ++ [chunk]). rewrite (vl_read _ _ _ _ Er), Hd, concat_app. cbn.
    rewrite app_nil_r. split_and!; [by eapply vl_read_name | done | by eapply carrying_chunk]. }
  destruct r as [[|y more]|refused].
  - assert (Ep : p2 = p2 <| px_upstream := Some u |>) by (unfold p2; by destruct p; cbn in *; subst).
    change (wp True (proxy_relay fuel u) (fun _ => proxy_ok) (p2, h')). rewrite Ep.
    apply IH; [done|]. eapply Hsent; [done | by left].
  - destruct (send_plaintext (y :: more) u) as [ok u'] eqn:Es. next_wp. next_wp. cbn [fst snd]. destruct ok; [|by next_wp; next_wp; next_wp].
    apply IH; [done|]. eapply Hsent; [done | by right].
  - by next_wp; next_wp; next_wp.
Qed.

Lemma proxy_deliver_ok fuel u p h : px_upstream p = Some u → proxy_ok (p, h) → wp True (proxy_deliver fuel u) (fun _ => proxy_ok) (p, h).
Proof.
  revert u p h. induction fuel as [|fuel IH]; intros u p h Eu Hp; [done|]. cbn [proxy_deliver].
  destruct (read_plaintext BUF_SIZE u) as [bytes u'] eqn:Er. next_wp. next_wp. cbn [fst snd].
  assert (Hp' : proxy_ok (p <| px_upstream := Some u' |>, h)).
  { intros Hf. destruct (Hp Hf) as (H1 & H2 & H3 & H4). split_and!; [done..|]. unfold proxied in *. cbn in *. rewrite Eu in *.
    destruct H4 as (name & chunks & Hn & Hd & Hc). exists name, chunks. split_and!; [done | done|]. by eapply carrying_read. }
  destruct (decide _); [done|]. next_wp. next_wp. cbn [fst snd]. destruct (server_write_all bytes _) as [ok t] eqn:Ew. next_wp. next_wp. cbn [fst snd].
  destruct ok; [|by next_wp]. apply IH; [done|]. apply proxy_server_step; [by eapply ss_write_all | done].
Qed.

Lemma service_upstream_ok : keeps True proxy_ok service_upstream (fun _ => True).
Proof.
  intros [p h] Hp. unfold service_upstream. next_wp. next_wp. cbn [fst]. destruct (px_upstream p) as [u|] eqn:Eu; [|done]. next_wp.
  eapply (wp_mono _ (fun _ s => proxy_ok s)).
  2: { destruct (px_upstream_closed p); [done|]. apply wp_intro; [done|]. unfold on_upstream. cbn [fst snd]. intros a s'.
       destruct (up_service (u, h)) as [[status [u' h']]|] eqn:Es; [|done]. intros [= _ <-] Hf. destruct (Hp Hf) as (H1 & H2 & H3 & H4).
       split_and!; [done..|]. unfold proxied in *. cbn in *. rewrite Eu in *. destruct H4 as (name & chunks & Hn & Hd & Hc). exists name, chunks.
       split_and!; [done | done|]. exact (proj2 (wp_elim _ _ _ _ _ (carrying_service _ _ _ _ _ _ _ _ Hc) Es)). }
  intros status [p' h'] Hp'. assert (Hgo : ∀ q, proxy_ok (q, h') → wp True (p ← gets fst; match px_upstream p with
    | Some u => proxy_deliver (S (length (inbound u))) u | None => mret tt end) (fun a s => True ∧ proxy_ok s) (q, h')).
  { intros q Hq. next_wp. next_wp. cbn [fst]. destruct (px_upstream q) as [v|] eqn:Ev; [|done].
    eapply wp_mono; [|by apply (proxy_deliver_ok _ _ _ _ Ev)]. by intros ? ? ?. }
  destruct status; [| |by next_wp]; next_wp; next_wp; by apply Hgo.
Qed.

Lemma proxy_write_tls_ok fuel : keeps True proxy_ok (proxy_write_tls fuel) (fun _ => True).
Proof.
  induction fuel as [|fuel IH]; intros [p h] Hp; [done|]. cbn [proxy_write_tls]. next_wp. next_wp. cbn [fst]. destruct (server_wants_write _); [|done].
  destruct (server_write_tls (px_server p)) as [r t] eqn:E. next_wp. next_wp. cbn [fst snd].
  assert (Hp' : proxy_ok (p <| px_server := t |>, h)) by (apply proxy_server_step; [by eapply ss_write_tls | done]).
  destruct r as [[|x out]|]; [done | | by next_wp]. next_wp. next_wp. apply IH. exact Hp'.
Qed.

Lemma proxy_pump_ok : keeps True proxy_ok (proxy_pump) (fun _ => True).
Proof.
  intros [p h] Hp. unfold proxy_pump. next_wp. next_wp. cbn [fst]. destruct (px_failed p) eqn:Ef; [by split|].
  destruct (server_process (px_server p)) as [ok t] eqn:E. next_wp. next_wp. cbn [fst snd].
  assert (Hp' : proxy_ok (p <| px_server := t |>, h)) by (apply proxy_server_step; [by eapply ss_process | done]).
  destruct ok; cbn [negb]; [|by next_wp]. clear Hp. revert Hp'. generalize (p <| px_server := t |>, h). clear. intros s Hs. next_wp.
  eapply wp_mono; [|exact (proxy_open_ok s Hs)]. intros _ [p h] [_ Hp]. next_wp. next_wp. next_wp. cbn [fst].
  eapply (wp_mono _ (fun _ => proxy_ok)).
  2: { destruct (px_upstream p) as [u|] eqn:Eu; [by apply proxy_relay_ok | done]. }
  intros go s2 Hs2. destruct go; cbn [negb]; [|done]. next_wp. eapply wp_mono; [|exact (service_upstream_ok s2 Hs2)]. intros _ [p3 h3] [_ Hp3].
  next_wp. next_wp. apply proxy_write_tls_ok. cbn [fst snd]. case_if; [|done]. intros Hf. apply (proxy_server_step _ _ _ (ss_close _)) in Hp3. exact (Hp3 Hf).
Qed.

Lemma proxy_read_tls_ok fuel bytes : keeps True proxy_ok (proxy_read_tls fuel bytes) (fun _ => True).
Proof.
  revert bytes. induction fuel as [|fuel IH]; intros [|x bytes] [p h] Hp; try done. cbn [proxy_read_tls]. next_wp. next_wp. cbn [fst].
  destruct (server_read_tls _ (px_server p)) as [r t] eqn:E. next_wp. next_wp. cbn [fst snd].
  assert (Hp' : proxy_ok (p <| px_server := t |>, h)) by (apply proxy_server_step; [by eapply ss_read_tls | done]).
  destruct r as [[|n]|]; [done | by apply IH | by next_wp; next_wp; next_wp].
Qed.

Lemma proxy_push_ok bytes : keeps True proxy_ok (proxy_push bytes) (fun _ => True).
Proof. unfold proxy_push. eapply keeps_bind; [apply proxy_read_tls_ok|]. intros [] _; [apply proxy_pump_ok | by apply keeps_ret]. Qed.

Lemma proxy_pull_ok n : keeps True proxy_ok (proxy_pull n) (fun _ => True).
Proof.
  unfold proxy_pull. eapply keeps_bind; [apply proxy_pump_ok|]. intros _ _ [p h] Hp. next_wp. next_wp. destruct (decide _); [by split|].
  next_wp. next_wp. next_wp. by split.
Qed.

Lemma proxy_new_ok (ctx : TlsContext SC CC) ip p http h :
  upstream_mode ctx = mode → proxy_new ctx ip = Some p → fresh http →
  proxy_ok (proxy_carry_secrets secrets (proxy_observe_http http p), h).
Proof.
  intros Hm. unfold proxy_new. destruct (server_new _) as [t|] eqn:E; [|done]. intros [= <-] Hh _. split_and!; [done..|]. split; [|done].
  cbn. by eapply vl_new.
Qed.
End ProxyRelays.

(** ** The gateway *)

Section GatewayRelays.
Context {LB : LoopBound} {H Udp Tcp K CC T SC : Type} {HN : HostNet H Udp Tcp} {TC : TlsClient K CC H Tcp} {TS : TlsServer T SC} {LO : Layouts TcpKey}.
Context {SR : SharedRecorder H} {SL : StreamLaws H Udp Tcp} {UL : UpstreamLaws K CC H Udp Tcp} {VL : ServerLaws T SC}.
Context {J : Json} {W : WallClock} {B64 : Base64} (secrets : list SecretBinding).
Abbreviation Gw := (Gateway T SC K CC Tcp).

Definition gw_upstream (g : Gw) : option (Upstream K Tcp) :=
  match gw_state g with GwTls p => px_upstream p | GwPlain b => Some (br_upstream b) | _ => None end.
Definition gw_http (g : Gw) : Observer :=
  match gw_state g with GwTls p => px_http p | GwPlain b => br_http b | _ => None end.

(** A connection of the guest: it sends pieces, it is given bytes, and the host's
    other connections go on. *)
Inductive session (ctx : TlsContext SC CC) (ip : list Z) (tracer : option Z) : list (list Z) -> Gw * H -> Prop :=
| se_new h : session ctx ip tracer [] (gw_carry_secrets secrets (from_option gw_observe_http id tracer (gw_new ctx ip)), h)
| se_push said s bytes s' : session ctx ip tracer said s → gw_push bytes s = Some (tt, s') → session ctx ip tracer (said ++ [bytes]) s'
| se_pull said s n r s' : session ctx ip tracer said s → gw_pull n s = Some (r, s') → session ctx ip tracer said s'
| se_host said g h h' :
    session ctx ip tracer said (g, h) → (∀ u, gw_upstream g = Some u → received h' (socket u) = received h (socket u)) →
    session ctx ip tracer said (g, h').

(** The guest's own bytes: after the line that announces the host, or inside TLS. *)
Definition spoken (said : list (list Z)) (g : Gw) (name : list Z) (port : Z) (chunks : list (list Z)) : Prop :=
  match gw_state g with
  | GwPlain _ => ∃ line, concat said = line ++ concat chunks ∧ parse_preamble line = Some (name, port)
  | GwTls p => port = 443 ∧ concat chunks = delivered (px_server p)
  | _ => False
  end.

Definition gateway_ok (mode : UpstreamMode) (said : list (list Z)) (s : Gw * H) : Prop :=
  match gw_state s.1 with
  | Sniffing buffered => buffered = concat said ∧ gw_secrets s.1 = secrets ∧ upstream_mode (gw_ctx s.1) = mode
  | GwTls p => proxy_ok secrets mode (p, s.2)
  | GwPlain b => ∃ name port chunks, spoken said s.1 name port chunks ∧ bridge_ok secrets mode name port chunks (b, s.2)
  | GwFailed => True
  end.

Lemma fresh_observer tracer ip port : fresh (observer_for tracer ip port).
Proof. by destruct tracer. Qed.

(** A method of the proxy or the bridge. *)
Lemma on_part_wp {P A} (x : P) (m : ST (P * H) A) (Q : A * P -> Gw * H -> Prop) g h :
  wp True m (fun a s => Q (a, s.1) (g, s.2)) (x, h) → wp True (on_part x m) Q (g, h).
Proof. unfold wp, on_part. cbn. by destruct (m (x, h)) as [[a [x' h']]|]. Qed.

Lemma become_tls_ok mode said buffered g h :
  gw_secrets g = secrets → upstream_mode (gw_ctx g) = mode →
  wp True (become_tls buffered) (fun _ => gateway_ok mode said) (g <| gw_state := GwFailed |>, h).
Proof.
  intros Hs Hm. unfold become_tls. next_wp. next_wp. cbn. destruct (proxy_new _ _) as [p|] eqn:E; [|done]. next_wp. next_wp. next_wp.
  apply on_part_wp. rewrite Hs. eapply wp_mono; [|eapply proxy_push_ok, proxy_new_ok; [exact Hm | exact E | apply fresh_observer]].
  intros a [p' h'] [_ Hp]. by next_wp.
Qed.

Lemma become_plain_ok mode said line name port remainder g h :
  gw_secrets g = secrets → upstream_mode (gw_ctx g) = mode → concat said = line ++ remainder → parse_preamble line = Some (name, port) →
  wp True (become_plain name port remainder) (fun _ => gateway_ok mode said) (g <| gw_state := GwFailed |>, h).
Proof.
  intros Hs Hm Hsaid Hline. unfold become_plain. next_wp. next_wp. next_wp. apply wp_intro; [done|]. unfold gw_net, zoom. cbn. rewrite Hs, Hm.
  intros r s. destruct (bridge_connect _ _ _ _ _ _ _) as [[[b|] h']|] eqn:E; [|by intros [= <- <-]|done]. intros [= <- <-].
  apply bridge_connect_ok in E as [Hn Hb]. specialize (Hb (observer_for (gw_tracer g) (gw_dst_ip g) port) (fresh_observer _ _ _)).
  next_wp. next_wp. next_wp. destruct (decide (remainder = [])) as [->|Hr].
  - next_wp. next_wp. exists name, port, []. split; [|done]. by exists line.
  - apply on_part_wp. eapply wp_mono; [|apply (bridge_push_ok secrets mode name port []), Hb]. intros a [b' h1] Hb'. next_wp.
    exists name, port, [remainder]. split; [|done]. exists line. cbn. by rewrite app_nil_r.
Qed.

Lemma decide_dialect_ok mode said : keeps True (gateway_ok mode said) (decide_dialect) (fun _ => True).
Proof.
  intros [g h] Hg. unfold decide_dialect. next_wp. next_wp. destruct (gw_state g) as [buffered| | |] eqn:Est; [|done..].
  destruct (decide _); [done|]. pose proof Hg as Hg'. unfold gateway_ok in Hg'. cbn in Hg'. rewrite Est in Hg'. destruct Hg' as (-> & Hs & Hm).
  destruct (could_be_preamble _); cbn [negb].
  - destruct (newline_at 10 _) as [newline|] eqn:Ep; [|case_if; by next_wp]. next_wp. next_wp.
    destruct (parse_preamble _) as [[name port]|] eqn:Eline; [|done].
    eapply wp_mono; [|eapply become_plain_ok; [done | done | symmetry; apply (take_drop (S newline)) | exact Eline]]. by intros ? ? ?.
  - next_wp. next_wp. eapply wp_mono; [|by apply (become_tls_ok mode said)]. by intros ? ? ?.
Qed.

Lemma spoken_more said name port chunks bytes g b b' :
  gw_state g = GwPlain b → spoken said g name port chunks → spoken (said ++ [bytes]) (g <| gw_state := GwPlain b' |>) name port (chunks ++ [bytes]).
Proof.
  unfold spoken. cbn. intros ->. intros (line & Hl & Hp). exists line. rewrite !concat_app, Hl. cbn. by rewrite app_nil_r, app_assoc.
Qed.

Lemma gw_push_ok mode said bytes s : gateway_ok mode said s → wp True (gw_push bytes) (fun _ => gateway_ok mode (said ++ [bytes])) s.
Proof.
  destruct s as [g h]. intros Hg. unfold gw_push. next_wp. next_wp. unfold gateway_ok in Hg. cbn in Hg.
  destruct (gw_state g) as [buffered|p|b|] eqn:Est.
  - destruct Hg as (-> & Hs & Hm). next_wp. next_wp. eapply wp_mono; [|apply (decide_dialect_ok mode (said ++ [bytes]))]; [by intros ? ? [_ ?]|].
    split_and!; [|done..]. rewrite concat_app. cbn. by rewrite app_nil_r.
  - next_wp. apply on_part_wp. eapply wp_mono; [|exact (proxy_push_ok _ _ _ _ Hg)]. intros a [p' h'] [_ Hp]. by next_wp.
  - destruct Hg as (name & port & chunks & Hsp & Hb). next_wp. apply on_part_wp. eapply wp_mono; [|exact (bridge_push_ok _ _ _ _ _ bytes _ Hb)].
    intros a [b' h'] Hb'. next_wp. exists name, port, (chunks ++ [bytes]). split; [by eapply spoken_more | done].
  - next_wp. unfold gateway_ok. cbn. by rewrite Est.
Qed.

Lemma gw_pull_ok mode said n : keeps True (gateway_ok mode said) (gw_pull n) (fun _ => True).
Proof.
  intros [g h] Hg. pose proof Hg as Hg'. unfold gw_pull. next_wp. next_wp. unfold gateway_ok in Hg'. cbn in Hg'.
  destruct (gw_state g) as [buffered|p|b|] eqn:Est; [done | | |done].
  - next_wp. apply on_part_wp. eapply wp_mono; [|exact (proxy_pull_ok _ _ _ _ Hg')]. intros a [p' h'] [_ Hp]. by next_wp; next_wp; next_wp.
  - destruct Hg' as (name & port & chunks & Hsp & Hb). next_wp. apply on_part_wp. eapply wp_mono; [|exact (bridge_pull_ok _ _ _ _ _ n _ Hb)].
    intros a [b' h'] [_ Hb']. next_wp. next_wp. next_wp. split; [done|]. exists name, port, chunks. split; [|done].
    revert Hsp. unfold spoken. by rewrite Est.
Qed.

Lemma carrying_host mode name port chunks sub http u h h' :
  received h' (socket u) = received h (socket u) → carrying secrets mode name port chunks sub http (u, h) →
  carrying secrets mode name port chunks sub http (u, h').
Proof. intros Hr [(out & Hf & Hs) Hseen]. split; [|done]. exists out. split; [done|]. rewrite <- Hs. unfold up_sent. cbn. by rewrite Hr. Qed.

Lemma session_ok ctx ip tracer said s : session ctx ip tracer said s → gateway_ok (upstream_mode ctx) said s.
Proof.
  induction 1 as [h|said s bytes s' _ IH E|said s n r s' _ IH E|said g h h' _ IH Hh].
  - by destruct tracer.
  - exact (wp_elim _ _ _ _ _ (gw_push_ok _ _ bytes _ IH) E).
  - exact (proj2 (wp_elim _ _ _ _ _ (gw_pull_ok _ _ n _ IH) E)).
  - unfold gateway_ok in *. cbn in *. unfold gw_upstream in Hh. destruct (gw_state g) as [|p|b|]; [done| | |done].
    + intros Hf. destruct (IH Hf) as (H1 & H2 & H3 & H4). split_and!; [done..|]. unfold proxied in *. cbn in *. destruct (px_upstream p) as [u|]; [|done].
      destruct H4 as (name & chunks & Hn & Hd & Hc). exists name, chunks. split_and!; [done | done|]. eapply carrying_host; [by apply Hh | done].
    + destruct IH as (name & port & chunks & Hsp & Hn & Hb). exists name, port, chunks. split; [done|]. split; [done|]. intros Hf. cbn in *.
      eapply carrying_host; [by apply Hh | by apply Hb].
Qed.

(** Bytes a substitution holds back. *)
Definition held_back (sub : option Substitution) : list Z := match sub with Some s => held s | None => [] end.

Definition meant_for_none (name : list Z) : Prop := ∀ b, b ∈ secrets → existsb (fun pattern => host_matches pattern name) (hosts b) = false.

Lemma none_allowed name s : meant_for_none name → for_host secrets name = Some s → allowed s = [] ∧ held s = [].
Proof.
  intros Hno. unfold for_host. destruct (decide _); [done|]. cbv zeta. intros [= <-]. split; [|done]. cbn. revert Hno. unfold meant_for_none. clear.
  induction secrets as [|b bs IH]; intros Hno; [done|]. cbn. rewrite (Hno b) by apply list_elem_of_here. apply IH. intros b' Hb'. by apply Hno, list_elem_of_further.
Qed.

(** Without a secret for the host nothing changes on the way. *)
Lemma feeds_verbatim name chunks sub out :
  meant_for_none name → feeds (for_host secrets name) chunks sub out → concat chunks = out ++ held_back sub ∧ (∀ s, sub = Some s → allowed s = []).
Proof.
  intros Hno. induction 1 as [|chunks s1 out bytes more s2 _ [IH1 IH2] E].
  - destruct (for_host secrets name) as [s|] eqn:E; cbn; [|done]. apply none_allowed in E as [Ha Hh]; [|done]. rewrite Hh. split; [done|]. by intros ? [= <-].
  - rewrite concat_app, IH1. cbn. rewrite app_nil_r. revert E. unfold outbound_for. destruct s1 as [s1|].
    + destruct (feed bytes s1) as [[r s2']|] eqn:Ef; cbn [mbind option_bind]; [|done]. intros [= -> <-]. cbn in *.
      pose proof (feed_loop_rules _ _ _ _ _ _ Ef) as [Ra _ _]. apply feed_loop_verbatim in Ef; [|by apply IH2]. cbn in Ef. split.
      * by rewrite <- !app_assoc, Ef.
      * intros ? [= <-]. rewrite Ra. by apply IH2.
    + intros [= <- <-]. cbn. by rewrite !app_nil_r.
Qed.

(** C10: what a host is sent.  At any point of a connection through the
    gateway that has not failed, all that was handed to the upstream is the
    introduction the mode calls for and then what the guest said to that
    host (after the line that announced it, or inside the TLS
    connection that named it), through the substitution for that host; an observer
    has seen the guest's own bytes, before the substitution.  What was sent
    depends on no secret meant for other hosts, and if no secret is meant for this
    one it is the guest's bytes, but for those held back. *)
Theorem gateway_relays ctx ip tracer said g h u :
  session ctx ip tracer said (g, h) → gw_has_failed g = false → gw_upstream g = Some u →
  ∃ name port chunks sub out,
    gw_server_name g = Some name ∧ spoken said g name port chunks ∧
    feeds (for_host secrets name) chunks sub out ∧ up_sent h u = introduction (upstream_mode ctx) name port ++ out ∧
    seen name chunks (gw_http g) ∧
    (∀ others, Forall2 (same_for name) secrets others → feeds (for_host others name) chunks sub out) ∧
    (meant_for_none name → concat chunks = out ++ held_back sub).
Proof.
  intros Hs Hf Hu. apply session_ok in Hs.
  assert (∃ name port chunks sub, gw_server_name g = Some name ∧ spoken said g name port chunks ∧
    carrying secrets (upstream_mode ctx) name port chunks sub (gw_http g) (u, h)) as (name & port & chunks & sub & Hn & Hsp & (out & Hfe & Hup) & Hseen).
  { unfold gateway_ok, gw_has_failed, gw_upstream, gw_server_name, gw_http, spoken, proxy_server_name in *. cbn in Hs.
    destruct (gw_state g) as [|p|b|]; [done| | |done].
    - destruct (Hs Hf) as (_ & _ & _ & H4). unfold proxied in H4. cbn in H4. rewrite Hu in H4. destruct H4 as (name & chunks & Hn & Hd & Hc).
      by exists name, 443, chunks, (px_substitution p).
    - destruct Hs as (name & port & chunks & Hsp & Hn & Hc). injection Hu as <-. exists name, port, chunks, (br_substitution b). cbn in Hn.
      rewrite <- Hn in *. split_and!; [done | done | by apply Hc]. }
  exists name, port, chunks, sub, out. split_and!; [done..| |].
  - intros others Ho. by rewrite <- (for_host_same name secrets others Ho).
  - intros Hno. by apply (feeds_verbatim name).
Qed.
End GatewayRelays.

(** ** The network's gateway

    The gateway is what the network stack calls [HttpsGateway], and it hands the
    guest bytes, if [rustls] and the host's sockets do. *)

Class TlsBytes (T SC K CC H Udp Tcp : Type) {HN : HostNet H Udp Tcp} {TC : TlsClient K CC H Tcp} {TS : TlsServer T SC} := {
  tb_client_read n k bytes k' : client_read n k = (Some bytes, k') → Forall is_u8 bytes;
  tb_write_tls t out t' : server_write_tls t = (Some out, t') → Forall is_u8 out
}.

Section GatewayBytes.
Context {LB : LoopBound} {H Udp Tcp K CC T SC : Type} {HN : HostNet H Udp Tcp} {TC : TlsClient K CC H Tcp} {TS : TlsServer T SC} {LO : Layouts TcpKey}.
Context {SR : SharedRecorder H} {J : Json} {W : WallClock} {B64 : Base64} {HL : HostLaws H Udp Tcp} {TB : TlsBytes T SC K CC H Udp Tcp}.
Abbreviation Gw := (Gateway T SC K CC Tcp).
Abbreviation Proxy := (TlsProxy T K CC Tcp).
Abbreviation Bridge := (PlainBridge K Tcp).

#[export] Instance Gateway_https : HttpsGateway Gw (TlsContext SC CC) SecretBinding H := {|
  gateway_new := fun ctx ip keys => mret (gw_carry_secrets keys (gw_new ctx ip));
  push_from_guest := gw_push; gateway_failed := gw_has_failed; pull_to_guest := gw_pull;
  gateway_eof := gw_eof; gateway_has_pending := gw_has_pending; gateway_shutdown_write := gw_shutdown_write
|}.

Definition inbound_bytes (s : Upstream K Tcp * H) : Prop := Forall is_u8 (inbound s.1).

Lemma inbound_survives : survives inbound_bytes.
Proof.
  split; try done.
  - intros u k k' h n r Ew E Hi. unfold inbound_bytes. cbn. apply Forall_app_2; [done|]. destruct r; [by eapply tb_client_read | constructor].
  - intros u r h h' E Hi. unfold inbound_bytes. cbn. apply Forall_app_2; [done|]. destruct r; [by eapply hl_read | constructor].
Qed.

Definition bridge_bytes (s : Bridge * H) : Prop := Forall is_u8 (br_to_guest s.1) ∧ Forall is_u8 (inbound (br_upstream s.1)).

Lemma send_inbound out (u : Upstream K Tcp) : inbound (send_plaintext out u).2 = inbound u.
Proof. unfold send_plaintext. destruct (wire u); [|done]. by destruct (client_write_all _ _). Qed.

Lemma bridge_deliver_bytes fuel : keeps True bridge_bytes (bridge_deliver fuel) (fun _ => True).
Proof.
  induction fuel as [|fuel IH]; intros [b h] [Ht Hi]; [done|]. cbn [bridge_deliver]. next_wp. next_wp. cbn in Ht, Hi.
  destruct (read_plaintext BUF_SIZE (br_upstream b)) as [bytes u] eqn:E. injection E as <- <-. next_wp. next_wp. destruct (decide _).
  - split; [done|]. split; [done|]. by apply Forall_drop.
  - next_wp. next_wp. apply IH. split; [apply Forall_app_2; [done | by apply Forall_take] | by apply Forall_drop].
Qed.

Lemma bridge_pump_bytes : keeps True bridge_bytes bridge_pump (fun _ => True).
Proof.
  intros [b h] Hb. unfold bridge_pump. next_wp. next_wp. destruct (br_failed b); [done|]. next_wp.
  eapply (wp_mono _ (fun _ => bridge_bytes)).
  2: { destruct (br_upstream_closed b); [done|]. apply wp_zoom. destruct Hb as [Ht Hi].
       eapply wp_mono; [|exact (up_service_kept _ inbound_survives (br_upstream b, h) Hi)]. intros status [u' h'] [_ Hi']. by split. }
  intros status [b' h'] Hb'. destruct status; [| |by next_wp]; next_wp; next_wp; next_wp; next_wp; by apply bridge_deliver_bytes.
Qed.

Lemma bridge_push_bytes bytes : keeps True bridge_bytes (bridge_push bytes) (fun _ => True).
Proof.
  intros [b h] [Ht Hi]. cbn in Ht, Hi. unfold bridge_push. next_wp. next_wp. next_wp. apply wp_intro; [done|]. unfold br_net, zoom. cbn [fst snd].
  intros http s. destruct (observe_bytes _ _ _) as [[http' h']|]; [|done]. intros [= <- <-]. next_wp. next_wp. next_wp. unfold wp at 1, lift.
  destruct (outbound_for _ _) as [[r sub]|]; [|done]. next_wp. next_wp. destruct r as [[|x more]|]; [by apply bridge_pump_bytes| |by next_wp].
  destruct (send_plaintext (x :: more) (br_upstream b)) as [ok u] eqn:E. pose proof (send_inbound (x :: more) (br_upstream b)) as Hu. rewrite E in Hu.
  next_wp. next_wp. destruct ok; [apply bridge_pump_bytes | next_wp; split; [done|]]; (split; [done|]; cbn in *; by rewrite Hu).
Qed.

Lemma pull_bytes (n : nat) buf : Forall is_u8 buf → Forall is_u8 (take n buf) ∧ Forall is_u8 (drop n buf).
Proof. split; [by apply Forall_take | by apply Forall_drop]. Qed.

Lemma bridge_pull_bytes n : keeps True bridge_bytes (bridge_pull n) (fun r => ∀ bytes, r = Some bytes → Forall is_u8 bytes).
Proof.
  unfold bridge_pull. eapply keeps_bind; [apply bridge_pump_bytes|]. intros _ _ [b h] [Ht Hi]. next_wp. next_wp. destruct (decide _); [by split|].
  next_wp. next_wp. next_wp. destruct (pull_bytes n _ Ht). split; [by intros ? [= <-] | by split].
Qed.

Definition proxy_bytes (s : Proxy * H) : Prop := Forall is_u8 (px_to_guest s.1).

(** Steps that do not give the guest anything. *)
Lemma mod_proxy_bytes f : (∀ p, px_to_guest (f p) = px_to_guest p) → keeps True proxy_bytes (mod_px f) (fun _ => True).
Proof. intros Hf. apply keeps_modify. intros [p h] Hp. unfold proxy_bytes. cbn. by rewrite Hf. Qed.

Lemma px_net_bytes {A} (m : ST H A) : keeps True proxy_bytes (px_net m) (fun _ => True).
Proof. intros [p h] Hp. unfold px_net. apply wp_zoom. apply wp_intro; [done|]. by intros a h'. Qed.

Lemma on_upstream_bytes {A} u (m : ST (Upstream K Tcp * H) A) : keeps True proxy_bytes (on_upstream u m) (fun _ => True).
Proof. intros [p h] Hp. unfold wp, on_upstream. cbn. by destruct (m (u, h)) as [[a [u' h']]|]. Qed.

(** One such step, and the rest. *)
Ltac bytes_step :=
  match goal with
  | IH : ∀ u, keeps _ _ (?f ?n u) _ |- keeps _ _ (?f ?n _) _ => apply IH
  | IH : keeps _ _ (?f ?n) _ |- keeps _ _ (?f ?n) _ => apply IH
  | |- keeps _ _ (mbind _ _) _ => eapply (keeps_bind _ _ (fun _ => True)); [|intros ? _]
  | |- keeps _ _ (mret _) _ => by apply keeps_ret
  | |- keeps _ _ (gets _) _ => by apply keeps_gets
  | |- keeps _ _ px_fail _ => by apply mod_proxy_bytes
  | |- keeps _ _ (mod_px _) _ => by apply mod_proxy_bytes
  | |- keeps _ _ (px_net _) _ => apply px_net_bytes
  | |- keeps _ _ (on_upstream _ _) _ => apply on_upstream_bytes
  | |- keeps _ _ (lift _) _ => by apply lift_keeps
  | |- keeps _ _ panic _ => apply panics_keep
  | |- keeps _ _ (match ?x with _ => _ end) _ => destruct x
  end.

Lemma proxy_open_bytes : keeps True proxy_bytes proxy_open (fun _ => True).
Proof. unfold proxy_open, connect_upstream. repeat bytes_step. Qed.

Lemma proxy_relay_bytes fuel u : keeps True proxy_bytes (proxy_relay fuel u) (fun _ => True).
Proof. revert u. induction fuel as [|fuel IH]; intros u; cbn [proxy_relay]; repeat bytes_step. Qed.

Lemma proxy_deliver_bytes fuel u : keeps True proxy_bytes (proxy_deliver fuel u) (fun _ => True).
Proof. revert u. induction fuel as [|fuel IH]; intros u; cbn [proxy_deliver]; repeat bytes_step. Qed.

Lemma service_upstream_bytes : keeps True proxy_bytes service_upstream (fun _ => True).
Proof. unfold service_upstream. repeat (bytes_step || apply proxy_deliver_bytes). Qed.

Lemma proxy_write_tls_bytes fuel : keeps True proxy_bytes (proxy_write_tls fuel) (fun _ => True).
Proof.
  induction fuel as [|fuel IH]; intros [p h] Hp; [done|]. cbn [proxy_write_tls]. next_wp. next_wp. destruct (server_wants_write _); [|done].
  destruct (server_write_tls (px_server p)) as [r t] eqn:E. next_wp. next_wp. destruct r as [[|x out]|]; [done| |by next_wp]. next_wp. next_wp. apply IH.
  unfold proxy_bytes. cbn. apply Forall_app_2; [done | by eapply tb_write_tls].
Qed.

Lemma proxy_pump_bytes : keeps True proxy_bytes proxy_pump (fun _ => True).
Proof.
  unfold proxy_pump.
  repeat (bytes_step || apply proxy_open_bytes || apply proxy_relay_bytes || apply service_upstream_bytes || apply proxy_write_tls_bytes
    || (apply mod_proxy_bytes; intros p; by case_if)).
Qed.

Lemma proxy_push_bytes bytes : keeps True proxy_bytes (proxy_push bytes) (fun _ => True).
Proof.
  unfold proxy_push. eapply (keeps_bind _ _ (fun _ => True)); [|intros [] _; [apply proxy_pump_bytes | by apply keeps_ret]].
  generalize (length bytes) as fuel. intros fuel. revert bytes. induction fuel as [|fuel IH]; intros [|x bytes]; cbn [proxy_read_tls]; repeat bytes_step.
Qed.

Lemma proxy_pull_bytes n : keeps True proxy_bytes (proxy_pull n) (fun r => ∀ bytes, r = Some bytes → Forall is_u8 bytes).
Proof.
  unfold proxy_pull. eapply keeps_bind; [apply proxy_pump_bytes|]. intros _ _ [p h] Hp. next_wp. next_wp. destruct (decide _); [by split|].
  next_wp. next_wp. next_wp. destruct (pull_bytes n _ Hp). split; [by intros ? [= <-] | done].
Qed.

Definition gw_bytes (g : Gw) : Prop :=
  match gw_state g with
  | GwTls p => Forall is_u8 (px_to_guest p)
  | GwPlain b => Forall is_u8 (br_to_guest b) ∧ Forall is_u8 (inbound (br_upstream b))
  | _ => True
  end.

Lemma up_connect_inbound mode config ip port name h u h' : up_connect mode config ip port name h = Some (Some u, h') → inbound (u : Upstream K Tcp) = [].
Proof.
  unfold up_connect. destruct (negb _); [done|]. run_st. destruct (tcp_connect ip port h) as [[[s|] h1]|]; [|done|done].
  destruct mode; cbn; [destruct (client_new _ _); cbn; [|done]|]; by intros [= <- <-].
Qed.

Lemma bridge_connect_bytes mode config ip port name keys h b h' :
  bridge_connect mode config ip port name keys h = Some (Some b, h') → ∀ http, bridge_bytes (b <| br_http := http |>, h').
Proof.
  unfold bridge_connect. run_st. destruct (up_connect _ _ _ _ _ _) as [[[u|] h1]|] eqn:E; [|done|done]. apply up_connect_inbound in E.
  intros [= <- <-] http. split; cbn; [constructor | by rewrite E].
Qed.

Lemma decide_dialect_bytes : keeps True (fun s : Gw * H => gw_bytes s.1) decide_dialect (fun _ => True).
Proof.
  intros [g h] Hg. unfold decide_dialect. next_wp. next_wp. destruct (gw_state g) as [buffered| | |]; [|done..].
  destruct (decide _); [done|]. destruct (could_be_preamble _); cbn [negb].
  - destruct (newline_at 10 _) as [newline|]; [|case_if; by next_wp]. next_wp. next_wp. destruct (parse_preamble _) as [[name port]|]; [|done].
    unfold become_plain. next_wp. next_wp. next_wp. apply wp_intro; [done|]. unfold gw_net, zoom. cbn [fst snd]. intros r s.
    destruct (bridge_connect _ _ _ _ _ _ _) as [[[b|] h']|] eqn:E; [|by intros [= <- <-]|done]. intros [= <- <-].
    pose proof (bridge_connect_bytes _ _ _ _ _ _ _ _ _ E) as Hb.
    next_wp. next_wp. next_wp. destruct (decide _); [next_wp; next_wp; split; [done | apply Hb]|].
    apply on_part_wp. eapply wp_mono; [|apply bridge_push_bytes, Hb]. intros a [b' h1] [_ Hb']. by next_wp.
  - next_wp. next_wp. unfold become_tls, proxy_new. next_wp. next_wp. cbn. destruct (server_new _); cbn; [|done]. next_wp. next_wp. next_wp.
    apply on_part_wp. eapply wp_mono; [|apply proxy_push_bytes; constructor]. intros a [p' h'] [_ Hp]. by next_wp.
Qed.

Lemma gw_push_bytes bytes : keeps True (fun s : Gw * H => gw_bytes s.1) (gw_push bytes) (fun _ => True).
Proof.
  intros [g h] Hg. unfold gw_push. next_wp. next_wp. unfold gw_bytes in Hg. cbn in Hg. destruct (gw_state g) as [buffered|p|b|] eqn:E.
  - next_wp. next_wp. by apply decide_dialect_bytes.
  - next_wp. apply on_part_wp. eapply wp_mono; [|exact (proxy_push_bytes bytes (p, h) Hg)]. intros a [p' h'] [_ Hp]. by next_wp.
  - next_wp. apply on_part_wp. eapply wp_mono; [|exact (bridge_push_bytes bytes (b, h) Hg)]. intros a [b' h'] [_ Hb]. by next_wp.
  - next_wp. split; [done|]. unfold gw_bytes. cbn. by rewrite E.
Qed.

Lemma gw_pull_bytes n : keeps True (fun s : Gw * H => gw_bytes s.1) (gw_pull n) (fun r => ∀ bytes, r = Some bytes → Forall is_u8 bytes).
Proof.
  intros [g h] Hg. pose proof Hg as Hg'. unfold gw_pull. next_wp. next_wp. unfold gw_bytes in Hg'. cbn in Hg'.
  destruct (gw_state g) as [buffered|p|b|] eqn:E; [by next_wp | | |by next_wp].
  - next_wp. apply on_part_wp. eapply wp_mono; [|exact (proxy_pull_bytes n (p, h) Hg')]. intros a [p' h'] [Ha Hp]. by next_wp; next_wp; next_wp.
  - next_wp. apply on_part_wp. eapply wp_mono; [|exact (bridge_pull_bytes n (b, h) Hg')]. intros a [b' h'] [Ha Hb]. by next_wp; next_wp; next_wp.
Qed.

#[export] Instance Gateway_laws : GatewayLaws Gw (TlsContext SC CC) SecretBinding H.
Proof.
  refine {| gateway_bytes := gw_bytes |}.
  - by intros ctx ip keys h g h' [= <- <-].
  - intros bytes g h r s E Hg. by destruct (wp_elim _ _ _ _ _ (gw_push_bytes bytes (g, h) Hg) E).
  - intros n g h r s E Hg. by destruct (wp_elim _ _ _ _ _ (gw_pull_bytes n (g, h) Hg) E).
  - by intros g h r s [= _ <-].
Defined.
End GatewayBytes.

(** ** A connection announced in the clear *)

(** A host that takes all bytes and answers nothing, without TLS of its own. *)
Module DemoGateway.
#[export] Instance bound : LoopBound := 4%nat.
#[export] Instance json : Json := fun _ => [].
#[export] Instance clock : WallClock := fun _ => 0.
#[export] Instance encoder : Base64 := fun l => l.
#[export] Instance layouts : Layouts TcpKey := {| first_slice_len := fun l => length l; hash_order := fun l => l |}.
#[export] Instance recorder_of : SharedRecorder (list Z * Recorder) := {| shared_recorder := snd; set_shared_recorder := fun r h => (h.1, r) |}.
#[export] Instance net : HostNet (list Z * Recorder) unit unit := {|
  udp_bind := mret None; udp_send_to := fun _ _ _ _ => mret false; udp_recv_from := fun _ _ => mret None;
  tcp_connect := fun _ _ h => Some (Some tt, ([], h.2));
  tcp_write := fun _ buf h => Some (Ok (length buf), (h.1 ++ buf, h.2));
  tcp_read := fun _ _ => mret (Err WouldBlock); tcp_shutdown_write := fun _ => mret tt;
  to_socket_addrs := fun _ => mret None; instant_now := fun _ => 0
|}.
#[export] Instance client : TlsClient (list Z) unit (list Z * Recorder) unit := {|
  valid_server_name := fun _ => true; client_new := fun _ _ => Some []; client_handshaking := fun _ => false;
  client_wants_write := fun _ => false; client_write_tls := fun _ => mret (Ok 0%nat); client_read_tls := fun _ => mret (Err WouldBlock);
  client_process := fun k => (true, k); client_read := fun _ k => (None, k); client_write_all := fun bytes k => (true, k ++ bytes)
|}.
#[export] Instance server : TlsServer (list Z) unit := {|
  server_new := fun _ => Some []; server_read_tls := fun bytes t => (Some (length bytes), t); server_process := fun t => (true, t);
  server_handshaking := fun _ => true; server_name := fun _ => None; server_read := fun _ t => (None, t);
  server_write_all := fun _ t => (true, t); server_close_notify := fun t => t; server_wants_write := fun _ => false;
  server_write_tls := fun t => (Some [], t)
|}.

#[export] Instance stream_laws : StreamLaws (list Z * Recorder) unit unit.
Proof.
  refine {| received := fun h _ => h.1 |}.
  - intros s buf h r h' [= <- <-]. cbn. by rewrite take_ge.
  - by intros s n h r h' [= _ <-].
  - by intros s h r h' [= _ <-].
Defined.

#[export] Instance upstream_laws : UpstreamLaws (list Z) unit (list Z * Recorder) unit unit.
Proof.
  refine {| written := fun k => k |}; try done.
  - by intros ip port h s h' [= _ <-].
  - by intros config name k [= <-].
  - by intros bytes k k' [= <-].
  - intros k h k' h' [s r k1 h1 [= _ <- _]|s r k1 h1 [= _ <- _]|ok k1 [= _ <-]]; done.
  - by intros n k r k' [= _ <-].
Defined.

#[export] Instance server_laws : ServerLaws (list Z) unit.
Proof.
  refine {| delivered := fun t => t |}; try done.
  - by intros c t [= <-].
  - intros t t' [bytes r t1 [= _ <-]|ok t1 [= _ <-]|bytes ok t1 [= _ <-]| |r t1 [= _ <-]]; done.
  - intros n t r t' [= <- <-]. by rewrite app_nil_r.
Defined.

Definition ctx : TlsContext unit unit := mkCtx tt tt HostTerminates.
Definition request : list Z := as_bytes "GET / HTTP/1.1" ++ CRLF ++ as_bytes "x: KEY" ++ CRLF ++ CRLF.
Definition said : list Z := preamble (as_bytes "api.a.com") 443 ++ request.
Definition start : Gateway (list Z) unit (list Z) unit unit * (list Z * Recorder) :=
  (gw_carry_secrets [demo_binding] (gw_observe_http 1000 (gw_new ctx [10; 0; 0; 1])), ([], recorder_new)).
Definition after : Gateway (list Z) unit (list Z) unit unit * (list Z * Recorder) :=
  match gw_push said start with Some (_, s) => s | None => start end.
Definition upstream : Upstream (list Z) unit := mkUp tt (WPlain []) [] false.
End DemoGateway.

Section GatewayExample.
Import DemoGateway.

(** The host is sent the secret, the observer saw the placeholder. *)
Lemma gateway_relays_witness :
  gw_push said start = Some (tt, after) ∧ up_sent after.2 upstream = preamble (as_bytes "api.a.com") 443 ++ replace (as_bytes "KEY") (as_bytes "sk-1") request ∧
  ∃ name port chunks sub out,
    gw_server_name after.1 = Some name ∧ spoken [said] after.1 name port chunks ∧
    feeds (for_host [demo_binding] name) chunks sub out ∧ up_sent after.2 upstream = introduction HostTerminates name port ++ out ∧
    seen name chunks (gw_http after.1).
Proof.
  split; [vm_compute; reflexivity|]. split; [vm_compute; reflexivity|].
  destruct (gateway_relays [demo_binding] ctx [10; 0; 0; 1] (Some 1000) [said] after.1 after.2 upstream)
    as (name & port & chunks & sub & out & H1 & H2 & H3 & H4 & H5 & _).
  - apply (se_push _ _ _ _ [] start said); [constructor | vm_compute; reflexivity].
  - vm_compute; reflexivity.
  - vm_compute; reflexivity.
  - exists name, port, chunks, sub, out. exact (conj H1 (conj H2 (conj H3 (conj H4 H5)))).
Defined.
End GatewayExample.
