(* ===== verification/Machine.v ===== *)
(** The assembled machine ([machine/src/machine_bus.rs]): the network stack, the
    shared directories and the system-call tracer behind the bus.

    The bus is proved against interfaces; here the implementations stand behind
    them.  What a front end does before and while it runs a machine, attaching
    devices and tracers included, reaches only well-formed states. *)
From Stdlib Require Import String Relations.
From S2P Require Import Prelude Words Wp Gpr Csr SystemBus BusLaws Context Float Run Invariant RunProps RamLaws CowRam CowRamProps Layout.
From S2P Require Import Virtio VirtioProps VirtioConsole VirtioBlk VirtioNet VirtioInvariant MachineBus MachineRam MachineLaws MachineRun.
From S2P Require Import Dtb HostNet Frames Tcp TcpProps Slirp SlirpInvariant HostFs Trace VirtioFs FsInvariant.
From S2P Require Import Processes Identity Syscalls SyscallsLaws.

Section Assembled.
Context {LB : LoopBound} {FE : FloatEnv}.
Context {H Udp Tcp_ G C S : Type} {HN : HostNet H Udp Tcp_} {HG : HttpsGateway G C S H} {LK : Layouts TcpKey}.
Context {HL : HostLaws H Udp Tcp_} {GL : GatewayLaws G C S H}.
Context {HF FsFile : Type} {HFS : HostFs HF FsFile} {LZ : Layouts Z} {HFL : HostFsLaws HF FsFile}.
Context {J : Json} {W : WallClock}.
Abbreviation Net := (SlirpBackend Udp Tcp_ G C S * Env H)%type.
Abbreviation Machine := (MachineBus Net (VirtioFs HF) SyscallTracer).

(** ** Attaching devices *)

(** [tls] is what [TlsContext::new] gave, [env] the host. *)
Definition attach_net_with_secrets (tls : option C) (secrets : list S) (env : Env H) (b : Machine) : Machine :=
  attach_net (with_secrets GUEST_MAC tls secrets, env) b.

Definition fs_tag (i : nat) : list Z := as_bytes "vfs" ++ display (Z.of_nat i).

Definition fs_device_at (mounts : list Mount) (host : HF) (i : nat) : VirtioFs HF :=
  match mounts !! i with
  | Some mount => new_single mount (fs_tag i) host
  | None => new_single (mkMount [] (fs_tag i) false) (fs_tag i) host
  end.

Definition attach_fs (mounts : list Mount) (host : HF) (b : Machine) : Machine :=
  b <| fs_devices := map (fs_device_at mounts host) (seq 0 (Z.to_nat VIRTIO_MAX_FS)) |>.

(** ** Tracing *)

(** The tracer the devices and the bus share: its options and its recorder. *)
Definition attach_tracer (tracer : option (TraceOptions * Recorder)) (b : Machine) : Machine :=
  b <| fs_devices := map (fs_set_tracer (fst <$> tracer)) (fs_devices b) |>
    <| syscall_tracer := match tracer with
                         | Some (o, r) => if Trace.processes o || files o || network o then Some (tracer_new o r) else None
                         | None => None
                         end |>.

Definition start_trace (o : TraceOptions) (b : Machine) : Machine :=
  attach_tracer (Some (o, set_guest_ns (MachineBus.guest_ns b) recorder_new)) b.
Definition stop_trace (b : Machine) : Machine := attach_tracer None b.

Definition traces_syscalls (b : Machine) : bool := match syscall_tracer b with Some _ => true | None => false end.
Definition set_trace_quiet (q : bool) (b : Machine) : Machine := b <| syscall_tracer := set_quiet q <$> syscall_tracer b |>.
Definition seed_trace_working_directory (pid : Z) (path : list Z) (b : Machine) : Machine :=
  b <| syscall_tracer := seed_working_directory pid path <$> syscall_tracer b |>.

(** ** Everything a front end does *)

Inductive front_end : Hart * Machine -> Hart * Machine -> Prop :=
| fe_disk h b file : Forall is_u8 (file_bytes file) → front_end (h, b) (h, attach_blk file b)
| fe_net h b tls secrets env : front_end (h, b) (h, attach_net_with_secrets tls secrets env b)
| fe_fs h b mounts host : front_end (h, b) (h, attach_fs mounts host b)
| fe_start h b o : front_end (h, b) (h, start_trace o b)
| fe_stop h b : front_end (h, b) (h, stop_trace b)
| fe_quiet h b q : front_end (h, b) (h, set_trace_quiet q b)
| fe_seed h b pid path : front_end (h, b) (h, seed_trace_working_directory pid path b)
| fe_step s s' : machine_step s s' → front_end s s'.

(** ** The devices attached are well formed *)

Lemma fs_tag_bytes i : Forall is_u8 (fs_tag i).
Proof. apply Forall_app. split; apply as_bytes_u8. Qed.

Lemma new_single_ok mount tag (host : HF) : Forall is_u8 tag → fs_ok (new_single mount tag host).
Proof.
  intros Ht. apply fs_wf_regs. unfold new_single. cbv zeta. cbn [fs_regs].
  apply with_config_wf; [rewrite length_to_le_bytes; lia | apply to_le_bytes_bytes|].
  apply with_config_wf; [rewrite length_take; lia | by apply Forall_take|]. by apply mmio_new_wf.
Qed.

Lemma attach_fs_ok mounts host b : machine_ok b → machine_ok (attach_fs mounts host b).
Proof.
  intros []. split; try done. unfold attach_fs. cbn [fs_devices set]. apply Forall_map, Forall_true. intros i. unfold fs_device_at.
  destruct (mounts !! i); apply new_single_ok, fs_tag_bytes.
Qed.

Lemma attach_net_ok tls secrets env b : machine_ok b → machine_ok (attach_net_with_secrets tls secrets env b).
Proof.
  intros []. split; try done. cbn. intros d [= <-]. apply net_new_ok; [|by apply const_bytes | done].
  apply slirp_new_ok. by apply const_bytes.
Qed.

Lemma attach_blk_ok file b : Forall is_u8 (file_bytes file) → machine_ok b → machine_ok (attach_blk file b : Machine).
Proof. intros Hf []. split; try done. cbn. intros d [= <-]. by apply blk_new_ok. Qed.

Lemma set_tracer_ok o d : fs_ok d → fs_ok (fs_set_tracer o d : VirtioFs HF).
Proof. intros Hd. apply fs_wf_regs. exact (fl_mmio d Hd). Qed.

Lemma attach_tracer_ok tracer b : machine_ok b → machine_ok (attach_tracer tracer b).
Proof.
  intros []. split; try done. cbn. apply Forall_map. eapply list.Forall_impl; [eassumption|]. intros d. apply set_tracer_ok.
Qed.

Lemma front_end_wf s s' : front_end s s' → hart_wf s → hart_wf s'.
Proof.
  intros [h b file Hf|h b tls secrets env|h b mounts host|h b o|h b|h b q|h b pid path|? ? Hs] Hw; [..|by eapply machine_step_wf];
    (apply (bus_put_wf h b); [done|]); pose proof (hart_bus _ _ Hw) as Hb.
  - by apply attach_blk_ok.
  - by apply attach_net_ok.
  - by apply attach_fs_ok.
  - by apply attach_tracer_ok.
  - by apply attach_tracer_ok.
  - destruct Hb. by split.
  - destruct Hb. by split.
Qed.

(** C3: whatever a front end does with a new machine, attaching a disk, the
    network stack, shared directories and tracers, advancing the clock, delivering
    input, polling and running it, in any order: the machine stays well formed as
    long as it does not panic.  Registers and CSRs are in range with [x0] zero, the
    pc is even, host pages and cached code are consistent, and RAM, timer,
    interrupt controller, serial ports and every attached device keep their
    invariants.  The host's sockets, files and clock are only assumed to deliver
    bytes. *)
Theorem assembled_machine_wf entry ram_size r source (b : Machine) s :
  is_u64 entry → even entry → ram_inv (r, source) → bus_new ram_size r source = Some b →
  rtc front_end (hart_new entry, b) s →
  ctx_wf (hart_ctx s.1 s.2) ∧ machine_ok s.2.
Proof.
  intros He Hev Hr Hb Hreach.
  assert (H0 : hart_wf (hart_new entry, b)) by (apply hart_new_wf; [done|done|by eapply bus_new_ok]).
  assert (Hs : hart_wf s).
  { clear -Hreach H0. induction Hreach as [|s1 s2 s3 Hstep _ IH]; [done|]. by eapply IH, front_end_wf. }
  split; [done|]. destruct s. by eapply hart_bus.
Qed.
End Assembled.

(** ** A run of a machine with everything attached *)

Section Demo.
Import QuietHost TinyFs.
#[local] Instance demo_json : Json := fun _ => [].
#[local] Instance demo_clock : WallClock := fun _ => 0.

Abbreviation DemoMachine := (MachineBus (SlirpBackend unit unit Empty_set Empty_set Empty_set * Env (list Z)) (VirtioFs Host) SyscallTracer).

Definition attached (b : DemoMachine) : DemoMachine :=
  start_trace options_default
    (attach_fs [mkMount srv [] false] demo_host (attach_net_with_secrets None [] (mkEnv 1 []) b)).

Definition demo_attached_run (b : DemoMachine) := with_hart (run_impl (FE := env_zero) false 4) (hart_new 0x80000000, attached b).

Lemma demo_attached_runs :
  match bus_new 4096 demo_ram 5 with
  | Some b => match demo_attached_run b with Some _ => true | None => false end
  | None => false
  end = true.
Proof. vm_compute. reflexivity. Qed.

Lemma assembled_machine_wf_witness :
  ∃ b r s, bus_new 4096 demo_ram 5 = Some b ∧ demo_attached_run b = Some (r, s) ∧ ctx_wf (hart_ctx s.1 s.2).
Proof.
  pose proof demo_attached_runs as Hrun.
  destruct (bus_new 4096 demo_ram 5) as [b|] eqn:Eb; [|done]. destruct (demo_attached_run b) as [[r s]|] eqn:E; [|done].
  exists b, r, s. split; [done|]. split; [done|].
  refine (proj1 (assembled_machine_wf (FE := env_zero) 0x80000000 4096 demo_ram 5 b s _ _ _ Eb _)); [done | done | |].
  - split; [apply demo_ram_wf|]. by split.
  - eapply rtc_l; [apply (fe_net _ _ None [] (mkEnv 1 []))|]. eapply rtc_l; [apply (fe_fs _ _ [mkMount srv [] false] demo_host)|].
    eapply rtc_l; [apply (fe_start _ _ options_default)|]. eapply rtc_l; [|apply rtc_refl]. apply fe_step. by apply (ms_run _ _ false 4 r).
Defined.
End Demo.
