(* ===== verification/Translate.v ===== *)
(** The ahead-of-time translator ([vpod-translate/src/main.rs]).

    From the memory of a snapshot and a list of physical addresses the translator
    writes a Rust function for each block decoded there.  The model keeps what it
    writes as statements ([Stmt], one constructor for each text the source
    writes); [render_stmt] is the text, [exec_stmt] what the text does.  Registers live
    in variables: a variable is declared at its first use and written back where
    control leaves the function. *)
From Stdlib Require Import String.
From stdpp Require Import pretty.
From S2P Require Import Prelude Words Wp Trap Gpr Decode Csr SystemBus BusLaws Mmu BlockCache BlockCacheProps.
From S2P Require Import Context Float Execute Interp BlockDecode BlockExec Run Invariant BlockInvariant Equiv.
From S2P Require Import RamLaws MmuProps FastPath Io Dtb.

Definition TRANSLATE_RAM_BASE : Z := 0x80000000.

(** ** [SnapshotRam] *)

Record SnapshotRam := mkSnap { snap_ram : list Z; snap_base : Z }.

Definition snap_idx (s : SnapshotRam) (address : Z) : option Z :=
  if address <? snap_base s then None
  else let off := address - snap_base s in if off <? Z.of_nat (length (snap_ram s)) then Some off else None.

Definition snap_contains (s : SnapshotRam) (address len : Z) : bool :=
  (snap_base s <=? address) && (as_u64 (address + len) <=? as_u64 (snap_base s + Z.of_nat (length (snap_ram s)))).

(** A read that starts inside and ends outside panics. *)
Definition snap_read (n : nat) (address : Z) : ST SnapshotRam Z := fun s =>
  match snap_idx s address with
  | None => Some (0, s)
  | Some i => match slice_get (snap_ram s) i n with Some bytes => Some (from_le_bytes bytes, s) | None => None end
  end.

#[export] Instance SnapshotRam_bus : SystemBus SnapshotRam := {|
  read_byte := snap_read 1; read_halfword := snap_read 2; read_word := snap_read 4; read_doubleword := snap_read 8;
  write_byte := fun _ _ => mret tt; write_halfword := fun _ _ => mret tt;
  write_word := fun _ _ => mret tt; write_doubleword := fun _ _ => mret tt;
  ram_load_page := fun _ => mret None; ram_store_page := fun _ => mret None; ram_epoch := fun _ => 0;
  drain_device_written_pages := mret ([], false);
  timer_interrupt_pending := fun _ => None; external_interrupt_pending := mret None;
  syscall_trace_enabled := fun _ => false; on_syscall_entry := fun _ _ => mret tt; on_syscall_return := fun _ _ _ _ => mret tt
|}.

(** [load_snapshot_ram] after the file was read; [decode_lz4] is the frame
    decoder of [lz4_flex].  [None] where the tool stops. *)
Definition load_snapshot_ram (decode_lz4 : list Z -> option (list Z)) (raw : list Z) : option (list Z) :=
  bytes ← (if bool_decide (take 4 raw = as_bytes "VPOD") then Some raw else decode_lz4 raw);
  magic ← slice_get bytes 0 4;
  version ← slice_get bytes 4 1;
  if negb (bool_decide (magic = as_bytes "VPOD")) || negb (bool_decide (version = [1])) then None
  else
    size ← slice_get bytes 6 8;
    slice_get bytes 14 (Z.to_nat (from_le_bytes size)).

(** ** What is written *)

Inductive Operand : Type := OZero | OVar (r : Z).
(** The address execution goes on at, or [u64::MAX]. *)
Inductive Next : Type := NextMax | NextEntry (delta : Z).

(** An access with its exit on a fault: the registers to write back, what to add
    to [instret] and what to return as retired. *)
Inductive Access : Type :=
| ALoad (kind : LoadKind) (dst : option Z) (base : Operand) (imm off : Z) (wb : list Z) (instret ret : Z)
| AStore (kind : StoreKind) (value base : Operand) (imm off : Z) (wb : list Z) (instret ret : Z).

Inductive SpanAccess : Type :=
| SpLoad (kind : LoadKind) (dst : option Z) (base : Operand) (imm : Z)
| SpStore (kind : StoreKind) (value base : Operand) (imm : Z).

Inductive Stmt : Type :=
| SRead (r : Z)
| SDeclare (r : Z)
| SConst (r imm : Z)
| SPcRel (r off imm : Z)
| SAluImm (r : Z) (kind : AluKind) (a : Operand) (imm : Z)
| SAluReg (r : Z) (kind : AluKind) (a b : Operand)
| SAccess (a : Access)
| SGroup (base : Operand) (lo hi : Z) (store : bool) (fast : list SpanAccess) (slow : list Access)
| SPage (id : nat) (store : bool) (base : Operand) (lo hi : Z)
| SCached (id : nat) (a : Access)
| SBranch (kind : BranchKind) (a b : Operand) (off offset : Z) (wb : list Z) (instret ret : Z) (next : Next)
| SLink (r off len : Z)
| SJal (wb : list Z) (off offset instret ret : Z) (next : Next)
| STarget (base : Operand) (imm : Z)
| SJalr (wb : list Z) (instret ret : Z)
| SFallback (wb : list Z) (off instret raw len ret : Z) (reload : list Z)
| SEnd (wb : list Z) (len instret ret : Z) (next : Next).

(** ** [RegAlloc] *)

(** A [BTreeSet] is the ascending list of its elements. *)
Fixpoint bt_insert (r : Z) (l : list Z) : list Z :=
  match l with
  | [] => [r]
  | s :: l' => if r <? s then r :: l else if r =? s then l else s :: bt_insert r l'
  end.

Record RegAlloc := mkRA { declared : list Z; written_regs : list Z }.
#[export] Instance RegAlloc_eta : Eta RegAlloc := fun a => mkRA (declared a) (written_regs a).

Definition ra_new : RegAlloc := mkRA [] [].

Definition ra_read (r : Z) (ra : RegAlloc) : list Stmt * Operand * RegAlloc :=
  if r =? 0 then ([], OZero, ra)
  else
    ((if bool_decide (r ∈ declared ra) then [] else [SRead r]), OVar r, ra <| declared := bt_insert r (declared ra) |>).

Definition ra_write_target (r : Z) (ra : RegAlloc) : list Stmt * option Z * RegAlloc :=
  if r =? 0 then ([], None, ra)
  else
    ((if bool_decide (r ∈ declared ra) then [] else [SDeclare r]), Some r,
     ra <| declared := bt_insert r (declared ra) |> <| written_regs := bt_insert r (written_regs ra) |>).

Definition ra_writeback (ra : RegAlloc) : list Z := written_regs ra.
Definition ra_reload (ra : RegAlloc) : list Z * RegAlloc := (declared ra, ra <| written_regs := [] |>).

(** ** Groups of accesses *)

Definition tr_load_size (kind : LoadKind) : Z := match kind with Lb | Lbu => 1 | Lh | Lhu => 2 | Lw | Lwu => 4 | Ld => 8 end.
Definition tr_store_size (kind : StoreKind) : Z := match kind with Sb => 1 | Sh => 2 | Sw => 4 | Sd => 8 end.

Definition access_info (o : Op) : option (Z * Z * Z * bool) :=
  match o with
  | OpLoad kind _ rs1 imm => Some (rs1, imm, imm + tr_load_size kind - 1, false)
  | OpStore kind rs1 _ imm => Some (rs1, imm, imm + tr_store_size kind - 1, true)
  | _ => None
  end.

(** The access [o] overwrites the group's base. *)
Definition loads_base (base : Z) (o : Op) : bool :=
  match o with OpLoad _ rd _ _ => (rd =? base) && negb (rd =? 0) | _ => false end.

(** The loop of [detect_group]: [last] is the last member, [l] what follows it. *)
Fixpoint extend_group (base : Z) (last : Op) (l : list DecodedInsn) (len : nat) (lo hi : Z) : nat * Z * Z :=
  if loads_base base last then (len, lo, hi)
  else
    match l with
    | [] => (len, lo, hi)
    | next :: l =>
        match access_info (op next) with
        | None => (len, lo, hi)
        | Some (next_base, next_lo, next_hi, _) =>
            if negb (next_base =? base) then (len, lo, hi)
            else
              let new_lo := Z.min lo next_lo in
              let new_hi := Z.max hi next_hi in
              if 4096 <? new_hi - new_lo + 1 then (len, lo, hi)
              else extend_group base (op next) l (S len) new_lo new_hi
        end
    end.

(** [l] are the operations from [start] on; [no_batch] says that
    [VPOD_TRANSLATE_NO_BATCH] is set. *)
Definition detect_group (no_batch : bool) (l : list DecodedInsn) : option (nat * Z * Z) :=
  if no_batch then None
  else
    match l with
    | [] => None
    | first :: rest =>
        '(base, lo, hi, _) ← access_info (op first);
        let '(len, lo, hi) := extend_group base (op first) rest 1 lo hi in
        if (2 <=? len)%nat then Some (len, lo, hi) else None
    end.

Record CachedGroup := mkGroup { cg_base : Z; cg_lo : Z; cg_hi : Z; cg_store_check : bool; cg_members : list nat }.
#[export] Instance CachedGroup_eta : Eta CachedGroup := fun g => mkGroup (cg_base g) (cg_lo g) (cg_hi g) (cg_store_check g) (cg_members g).
Record OpenGroup := mkOpen { og_group : CachedGroup; og_interior_store : bool }.

Definition op_clobbers (o : Op) : option Z :=
  match o with
  | OpLui rd _ | OpAuipc rd _ | OpAluImm _ rd _ _ | OpAluReg _ rd _ _ | OpLoad _ rd _ _ => if rd =? 0 then None else Some rd
  | _ => None
  end.

(** Which operations are in a consecutive group. *)
Fixpoint in_groups (no_batch : bool) (fuel : nat) (l : list DecodedInsn) : list bool :=
  match fuel, l with
  | S fuel, _ :: rest =>
      match detect_group no_batch l with
      | Some (len, _, _) => replicate len true ++ in_groups no_batch fuel (drop len l)
      | None => false :: in_groups no_batch fuel rest
      end
  | _, _ => []
  end.

(** A [BTreeMap] is the list of its entries, ascending in the key. *)
Abbreviation OpenGroups := (list (Z * OpenGroup)).

Fixpoint open_get (base : Z) (l : OpenGroups) : option OpenGroup :=
  match l with [] => None | (b, o) :: l => if b =? base then Some o else open_get base l end.

Fixpoint open_put (base : Z) (g : OpenGroup) (l : OpenGroups) : OpenGroups :=
  match l with
  | [] => [(base, g)]
  | (b, o) :: l' => if base <? b then (base, g) :: l else if base =? b then (base, g) :: l' else (b, o) :: open_put base g l'
  end.

Definition open_remove (base : Z) (l : OpenGroups) : OpenGroups := List.filter (fun e => negb (e.1 =? base)) l.

Definition finished (o : OpenGroup) : list CachedGroup := if (2 <=? length (cg_members (og_group o)))%nat then [og_group o] else [].

Definition close_group (base : Z) (s : OpenGroups * list CachedGroup) : OpenGroups * list CachedGroup :=
  match open_get base s.1 with
  | Some o => (open_remove base s.1, s.2 ++ finished o)
  | None => s
  end.

(** A member joins the open group of its base, or opens one. *)
Definition join_group (i : nat) (base lo hi : Z) (is_store : bool) (s : OpenGroups * list CachedGroup) : OpenGroups * list CachedGroup :=
  let fits := (fun o => Z.max (cg_hi (og_group o)) hi - Z.min (cg_lo (og_group o)) lo <? 4096) <$> open_get base s.1 in
  let s := match fits with Some false => close_group base s | _ => s end in
  match open_get base s.1 with
  | Some (mkOpen g seen) =>
      let g := g <| cg_lo := Z.min (cg_lo g) lo |> <| cg_hi := Z.max (cg_hi g) hi |> <| cg_members := cg_members g ++ [i] |>
                 <| cg_store_check := cg_store_check g || is_store || seen |> in
      (open_put base (mkOpen g seen) s.1, s.2)
  | None => (open_put base (mkOpen (mkGroup base lo hi is_store [i]) false) s.1, s.2)
  end.

Definition plan_step (i : nat) (consecutive : bool) (o : Op) (s : OpenGroups * list CachedGroup) : OpenGroups * list CachedGroup :=
  match o with
  | OpFallback _ | OpJal _ _ | OpJalr _ _ _ => foldl (fun s base => close_group base s) s (map fst s.1)
  | OpBranch _ _ _ _ => s
  | _ =>
      let s :=
        match access_info o with
        | Some (base, lo, hi, is_store) =>
            let s := if is_store then (map (fun e : Z * OpenGroup => (e.1, mkOpen (og_group e.2) true)) s.1, s.2) else s in
            if consecutive then s else join_group i base lo hi is_store s
        | None => s
        end in
      match op_clobbers o with Some rd => close_group rd s | None => s end
  end.

Fixpoint plan_loop (i : nat) (flags : list bool) (l : list DecodedInsn) (s : OpenGroups * list CachedGroup) : OpenGroups * list CachedGroup :=
  match flags, l with
  | flag :: flags, insn :: l => plan_loop (S i) flags l (plan_step i flag (op insn) s)
  | _, _ => s
  end.

(** [no_region] says that [VPOD_TRANSLATE_NO_REGION] is set. *)
Definition plan_cached_groups (no_batch no_region : bool) (l : list DecodedInsn) : list CachedGroup :=
  if no_region then []
  else
    let '(open, done) := plan_loop 0 (in_groups no_batch (length l) l) l ([], []) in
    done ++ concat (map (fun e : Z * OpenGroup => finished e.2) open).

(** [cgroup_of.get(i)]: the last group that lists [i]. *)
Definition cgroup_of (groups : list CachedGroup) (i : nat) : option nat :=
  foldl (fun found e => if bool_decide (i ∈ cg_members e.2) then Some e.1 else found) None (zip (seq 0 (length groups)) groups).

(** ** [emit_block] *)

(** One access, outside of a group or on the slow path of one. *)
Definition emit_load (kind : LoadKind) (rd rs1 imm off retired flushed : Z) (ra : RegAlloc) : list Stmt * Access * RegAlloc :=
  let '(s1, base, ra) := ra_read rs1 ra in
  let wb := ra_writeback ra in
  let '(s2, dst, ra) := ra_write_target rd ra in
  (s1 ++ s2, ALoad kind dst base imm off wb (retired - flushed) (retired + 1), ra).

Definition emit_store (kind : StoreKind) (rs1 rs2 imm off retired flushed : Z) (ra : RegAlloc) : list Stmt * Access * RegAlloc :=
  let '(s1, base, ra) := ra_read rs1 ra in
  let '(s2, value, ra) := ra_read rs2 ra in
  (s1 ++ s2, AStore kind value base imm off (ra_writeback ra) (retired - flushed) (retired + 1), ra).

(** [emit_cached_member]; anything but a load or a store is [unreachable!]. *)
Definition emit_cached_member (group : CachedGroup) (id : nat) (is_first : bool) (insn : DecodedInsn) (retired flushed : Z) (ra : RegAlloc)
    : option (list Stmt * RegAlloc) :=
  let '(s0, base, ra) := ra_read (cg_base group) ra in
  let page := if is_first then [SPage id (cg_store_check group) base (cg_lo group) (cg_hi group)] else [] in
  match op insn with
  | OpLoad kind rd rs1 imm =>
      let wb := ra_writeback ra in
      let '(s2, dst, ra) := ra_write_target rd ra in
      Some (s0 ++ page ++ s2 ++ [SCached id (ALoad kind dst base imm (pc_off insn) wb (retired - flushed) (retired + 1))], ra)
  | OpStore kind rs1 rs2 imm =>
      let '(s2, value, ra) := ra_read rs2 ra in
      Some (s0 ++ page ++ s2 ++ [SCached id (AStore kind value base imm (pc_off insn) (ra_writeback ra) (retired - flushed) (retired + 1))], ra)
  | _ => None
  end.

(** *** [emit_group] *)

Definition is_store (o : Op) : bool := match o with OpStore _ _ _ _ => true | _ => false end.

(** The variables of the members, declared ahead of the group. *)
Fixpoint group_regs (members : list DecodedInsn) (ra : RegAlloc) : option (list Stmt * RegAlloc) :=
  match members with
  | [] => Some ([], ra)
  | m :: members =>
      '(s1, ra) ← match op m with
                  | OpLoad _ rd _ _ =>
                      if rd =? 0 then Some ([], ra)
                      else
                        let '(s1, _, ra) := ra_read rd ra in
                        let '(s2, _, ra) := ra_write_target rd ra in
                        Some (s1 ++ s2, ra)
                  | OpStore _ _ rs2 _ => let '(s1, _, ra) := ra_read rs2 ra in Some (s1, ra)
                  | _ => None
                  end;
      '(s2, ra) ← group_regs members ra;
      Some (s1 ++ s2, ra)
  end.

Definition operand (r : Z) : Operand := if r =? 0 then OZero else OVar r.
Definition target_of (r : Z) : option Z := if r =? 0 then None else Some r.

Definition group_fast (base : Operand) (m : DecodedInsn) : list SpanAccess :=
  match op m with
  | OpLoad kind rd _ imm => [SpLoad kind (target_of rd) base imm]
  | OpStore kind _ rs2 imm => [SpStore kind (operand rs2) base imm]
  | _ => []
  end.

Fixpoint group_slow (base : Operand) (members : list DecodedInsn) (wb : list Z) (retired flushed : Z) : list Access :=
  match members with
  | [] => []
  | m :: members =>
      match op m with
      | OpLoad kind rd _ imm => [ALoad kind (target_of rd) base imm (pc_off m) wb (retired - flushed) (retired + 1)]
      | OpStore kind _ rs2 imm => [AStore kind (operand rs2) base imm (pc_off m) wb (retired - flushed) (retired + 1)]
      | _ => []
      end ++ group_slow base members wb (retired + 1) flushed
  end.

Definition emit_group (members : list DecodedInsn) (span_lo span_hi retired flushed : Z) (ra : RegAlloc) : option (list Stmt * RegAlloc) :=
  match members with
  | [] => None
  | first :: _ =>
      '(base, _, _, _) ← access_info (op first);
      let '(s0, base, ra) := ra_read base ra in
      let has_store := existsb (fun m => is_store (op m)) members in
      '(s1, ra) ← group_regs members ra;
      Some (s0 ++ s1 ++ [SGroup base span_lo span_hi has_store (concat (map (group_fast base) members))
                           (group_slow base members (ra_writeback ra) retired flushed)], ra)
  end.

(** *** Single operations *)

(** [next_expr]; [page_off] is the block's offset in its page. *)
Definition next_expr (page_off insn_off delta : Z) : Next :=
  let target := page_off + insn_off + delta in
  if (0 <=? target) && (target <? 4096) then NextEntry (insn_off + delta) else NextMax.

(** The statements for an operation and the counters after it. *)
Definition emit_op (page_off : Z) (insn : DecodedInsn) (retired flushed : Z) (ra : RegAlloc) : list Stmt * RegAlloc * Z :=
  let off := pc_off insn in
  match op insn with
  | OpLui rd imm =>
      let '(s, dst, ra) := ra_write_target rd ra in
      (s ++ match dst with Some r => [SConst r imm] | None => [] end, ra, flushed)
  | OpAuipc rd imm =>
      let '(s, dst, ra) := ra_write_target rd ra in
      (s ++ match dst with Some r => [SPcRel r off imm] | None => [] end, ra, flushed)
  | OpAluImm kind rd rs1 imm =>
      if rd =? 0 then ([], ra, flushed)
      else
        let '(s1, a, ra) := ra_read rs1 ra in
        let '(s2, _, ra) := ra_write_target rd ra in
        (s1 ++ s2 ++ [SAluImm rd kind a imm], ra, flushed)
  | OpAluReg kind rd rs1 rs2 =>
      if rd =? 0 then ([], ra, flushed)
      else
        let '(s1, a, ra) := ra_read rs1 ra in
        let '(s2, b, ra) := ra_read rs2 ra in
        let '(s3, _, ra) := ra_write_target rd ra in
        (s1 ++ s2 ++ s3 ++ [SAluReg rd kind a b], ra, flushed)
  | OpLoad kind rd rs1 imm => let '(s, a, ra) := emit_load kind rd rs1 imm off retired flushed ra in (s ++ [SAccess a], ra, flushed)
  | OpStore kind rs1 rs2 imm => let '(s, a, ra) := emit_store kind rs1 rs2 imm off retired flushed ra in (s ++ [SAccess a], ra, flushed)
  | OpBranch kind rs1 rs2 offset =>
      let '(s1, a, ra) := ra_read rs1 ra in
      let '(s2, b, ra) := ra_read rs2 ra in
      (s1 ++ s2 ++ [SBranch kind a b off offset (ra_writeback ra) (retired + 1 - flushed) (retired + 1) (next_expr page_off off offset)], ra, flushed)
  | OpJal rd offset =>
      let '(s, dst, ra) := ra_write_target rd ra in
      (s ++ match dst with Some r => [SLink r off (ilen insn)] | None => [] end
         ++ [SJal (ra_writeback ra) off offset (retired + 1 - flushed) (retired + 1) (next_expr page_off off offset)], ra, flushed)
  | OpJalr rd rs1 imm =>
      let '(s1, base, ra) := ra_read rs1 ra in
      let '(s2, dst, ra) := ra_write_target rd ra in
      (s1 ++ [STarget base imm] ++ s2 ++ match dst with Some r => [SLink r off (ilen insn)] | None => [] end
         ++ [SJalr (ra_writeback ra) (retired + 1 - flushed) (retired + 1)], ra, flushed)
  | OpFallback raw =>
      let wb := ra_writeback ra in
      let '(reload, ra) := ra_reload ra in
      ([SFallback wb off (retired - flushed) raw (ilen insn) (retired + 1) reload], ra, retired + 1)
  end.

(** The loop over the operations: [i] is the index of the first of [l]. *)
Fixpoint emit_loop (fuel : nat) (no_batch : bool) (groups : list CachedGroup) (page_off byte_len : Z) (i : nat) (l : list DecodedInsn)
    (retired flushed : Z) (ra : RegAlloc) : option (list Stmt) :=
  match fuel with
  | O => None
  | S fuel =>
      match l with
      | [] => Some [SEnd (ra_writeback ra) byte_len (retired - flushed) retired (next_expr page_off byte_len 0)]
      | insn :: rest =>
          match detect_group no_batch l with
          | Some (len, lo, hi) =>
              '(s, ra) ← emit_group (take len l) lo hi retired flushed ra;
              more ← emit_loop fuel no_batch groups page_off byte_len (i + len) (drop len l) (retired + Z.of_nat len) flushed ra;
              Some (s ++ more)
          | None =>
              match cgroup_of groups i with
              | Some id =>
                  group ← groups !! id;
                  first ← cg_members group !! 0%nat;
                  '(s, ra) ← emit_cached_member group id (first =? i)%nat insn retired flushed ra;
                  more ← emit_loop fuel no_batch groups page_off byte_len (S i) rest (retired + 1) flushed ra;
                  Some (s ++ more)
              | None =>
                  let '(s, ra, flushed) := emit_op page_off insn retired flushed ra in
                  more ← emit_loop fuel no_batch groups page_off byte_len (S i) rest (retired + 1) flushed ra;
                  Some (s ++ more)
              end
          end
      end
  end.

(** The body of [block_{pa}]. *)
Definition emit_block (no_batch no_region : bool) (pa : Z) (blk : Block) : option (list Stmt) :=
  emit_loop (S (length (ops blk))) no_batch (plan_cached_groups no_batch no_region (ops blk)) (Z.land pa 0xfff) (byte_len blk) 0 (ops blk) 0 0 ra_new.

(** ** The text *)

Abbreviation txt := (fun s : string => as_bytes s).
(** [{}] of a signed or unsigned integer. *)
Definition num (n : Z) : list Z := as_bytes (pretty n).
Definition newline : list Z := [10].

Definition operand_text (o : Operand) : list Z := match o with OZero => txt "0u64" | OVar r => txt "x" ++ num r end.
Definition pc_text (off : Z) : list Z := txt "entry_pc.wrapping_add(" ++ num off ++ txt ")".
Definition next_text (n : Next) : list Z :=
  match n with NextMax => txt "u64::MAX" | NextEntry delta => txt "entry_pc.wrapping_add(" ++ num (as_u64 delta) ++ txt "u64)" end.
Definition writeback_text (wb : list Z) : list Z :=
  concat (map (fun r => txt "ctx.regs.write(" ++ num r ++ txt ", x" ++ num r ++ txt "); ") wb).
Definition reload_text (rs : list Z) : list Z := concat (map (fun r => txt "x" ++ num r ++ txt " = ctx.regs.read(" ++ num r ++ txt "); ") rs).
Definition instret_text (n : Z) : list Z := txt "ctx.csr.instret = ctx.csr.instret.wrapping_add(" ++ num n ++ txt ");".
Definition add_text (o : Operand) (imm : Z) : list Z := operand_text o ++ txt ".wrapping_add(" ++ num imm ++ txt "i64 as u64)".

Definition load_name (k : LoadKind) : list Z :=
  txt (match k with Lb => "Lb" | Lbu => "Lbu" | Lh => "Lh" | Lhu => "Lhu" | Lw => "Lw" | Lwu => "Lwu" | Ld => "Ld" end).
Definition store_name (k : StoreKind) : list Z := txt (match k with Sb => "Sb" | Sh => "Sh" | Sw => "Sw" | Sd => "Sd" end).

Definition alu_name (k : AluKind) : list Z :=
  txt (match k with
  | AkAdd => "Add" | AkSub => "Sub" | AkSll => "Sll" | AkSlt => "Slt" | AkSltu => "Sltu" | AkXor => "Xor" | AkSrl => "Srl" | AkSra => "Sra"
  | AkOr => "Or" | AkAnd => "And" | AkAddw => "Addw" | AkSubw => "Subw" | AkSllw => "Sllw" | AkSrlw => "Srlw" | AkSraw => "Sraw"
  | AkMul => "Mul" | AkMulh => "Mulh" | AkMulhsu => "Mulhsu" | AkMulhu => "Mulhu" | AkDiv => "Div" | AkDivu => "Divu" | AkRem => "Rem"
  | AkRemu => "Remu" | AkMulw => "Mulw" | AkDivw => "Divw" | AkDivuw => "Divuw" | AkRemw => "Remw" | AkRemuw => "Remuw"
  | AkAndn => "Andn" | AkOrn => "Orn" | AkXnor => "Xnor" | AkRol => "Rol" | AkRor => "Ror" | AkRolw => "Rolw" | AkRorw => "Rorw"
  | AkMin => "Min" | AkMax => "Max" | AkMinu => "Minu" | AkMaxu => "Maxu" | AkClz => "Clz" | AkCtz => "Ctz" | AkCpop => "Cpop"
  | AkClzw => "Clzw" | AkCtzw => "Ctzw" | AkCpopw => "Cpopw" | AkSextB => "SextB" | AkSextH => "SextH" | AkZextH => "ZextH"
  | AkRev8 => "Rev8" | AkOrcB => "OrcB" | AkSh1add => "Sh1add" | AkSh2add => "Sh2add" | AkSh3add => "Sh3add" | AkAddUw => "AddUw"
  | AkSh1addUw => "Sh1addUw" | AkSh2addUw => "Sh2addUw" | AkSh3addUw => "Sh3addUw" | AkSlliUw => "SlliUw"
  end).

Definition alu_call (kind : AluKind) (lhs rhs : list Z) : list Z :=
  txt "crate::block::alu(crate::block::AluKind::" ++ alu_name kind ++ txt ", " ++ lhs ++ txt ", " ++ rhs ++ txt ")".

Definition cond_text (kind : BranchKind) (a b : list Z) : list Z :=
  match kind with
  | Beq => a ++ txt " == " ++ b
  | Bne => a ++ txt " != " ++ b
  | Blt => txt "(" ++ a ++ txt " as i64) < (" ++ b ++ txt " as i64)"
  | Bge => txt "(" ++ a ++ txt " as i64) >= (" ++ b ++ txt " as i64)"
  | Bltu => a ++ txt " < " ++ b
  | Bgeu => a ++ txt " >= " ++ b
  end.

Definition bind_text (dst : option Z) : list Z :=
  match dst with None => txt "Ok(_) => {}" | Some r => txt "Ok(v) => x" ++ num r ++ txt " = v," end.

Definition do_load_text (kind : LoadKind) (off : Z) : list Z :=
  txt "crate::block::do_load(ctx, satp, crate::block::LoadKind::" ++ load_name kind ++ txt ", va, " ++ pc_text off ++ txt ")".
Definition do_store_text (kind : StoreKind) (value : Operand) (off : Z) : list Z :=
  txt "crate::block::do_store(ctx, satp, crate::block::StoreKind::" ++ store_name kind ++ txt ", va, " ++ operand_text value ++ txt ", " ++ pc_text off ++ txt ")".
Definition va_text (base : Operand) (imm : Z) : list Z := txt "    let va = " ++ add_text base imm ++ txt ";" ++ newline.
Definition fault_text (wb : list Z) (instret ret : Z) : list Z :=
  writeback_text wb ++ instret_text instret ++ txt " return (" ++ num ret ++ txt ", u64::MAX);".
Definition load_arms (dst : option Z) (wb : list Z) (instret ret : Z) : list Z :=
  txt " {" ++ newline ++ txt "        " ++ bind_text dst ++ newline ++ txt "        Err(()) => { " ++ fault_text wb instret ret ++ txt " }" ++ newline ++ txt "    }" ++ newline.

Definition render_access (a : Access) : list Z :=
  match a with
  | ALoad kind dst base imm off wb instret ret => va_text base imm ++ txt "    match " ++ do_load_text kind off ++ load_arms dst wb instret ret
  | AStore kind value base imm off wb instret ret =>
      va_text base imm ++ txt "    if " ++ do_store_text kind value off ++ txt ".is_err() {" ++ newline
        ++ txt "        " ++ fault_text wb instret ret ++ newline ++ txt "    }" ++ newline
  end.

Definition render_cached (id : nat) (a : Access) : list Z :=
  let page := txt "page_g" ++ num (Z.of_nat id) in
  match a with
  | ALoad kind dst base imm off wb instret ret =>
      va_text base imm ++ txt "    match if let Some(p) = " ++ page ++ txt " { Ok(crate::block::_span_load(ctx, p as *const u8, satp, crate::block::LoadKind::"
        ++ load_name kind ++ txt ", va)) } else { " ++ do_load_text kind off ++ txt " }" ++ load_arms dst wb instret ret
  | AStore kind value base imm off wb instret ret =>
      va_text base imm ++ txt "    let store_ok = if let Some(p) = " ++ page ++ txt " { crate::block::_span_store(ctx, p, satp, crate::block::StoreKind::"
        ++ store_name kind ++ txt ", va, " ++ operand_text value ++ txt "); true } else { " ++ do_store_text kind value off ++ txt ".is_ok() };" ++ newline
        ++ txt "    if !store_ok {" ++ newline ++ txt "        " ++ fault_text wb instret ret ++ newline ++ txt "    }" ++ newline
  end.

Definition render_span (store : bool) (a : SpanAccess) : list Z :=
  match a with
  | SpLoad kind dst base imm =>
      txt "        " ++ (match dst with None => txt "let _" | Some r => txt "x" ++ num r end) ++ txt " = crate::block::_span_load(ctx, "
        ++ txt (if store then "span_page as *const u8" else "span_page") ++ txt ", satp, crate::block::LoadKind::" ++ load_name kind ++ txt ", " ++ add_text base imm ++ txt ");" ++ newline
  | SpStore kind value base imm =>
      txt "        crate::block::_span_store(ctx, span_page, satp, crate::block::StoreKind::" ++ store_name kind ++ txt ", " ++ add_text base imm ++ txt ", "
        ++ operand_text value ++ txt ");" ++ newline
  end.

Definition span_helper (store : bool) : list Z := txt (if store then "_store_span_page" else "_load_span_page").

Definition exit_text (pc : list Z) (instret ret : Z) (next : list Z) : list Z :=
  txt "ctx.regs.pc = " ++ pc ++ txt ";" ++ newline ++ txt "    " ++ instret_text instret ++ newline ++ txt "    return (" ++ num ret ++ txt ", " ++ next ++ txt ");" ++ newline.

Definition render_stmt (s : Stmt) : list Z :=
  match s with
  | SRead r => txt "    let mut x" ++ num r ++ txt ": u64 = ctx.regs.read(" ++ num r ++ txt ");" ++ newline
  | SDeclare r => txt "    let mut x" ++ num r ++ txt ": u64;" ++ newline
  | SConst r imm => txt "    x" ++ num r ++ txt " = " ++ num imm ++ txt "i64 as u64;" ++ newline
  | SPcRel r off imm => txt "    x" ++ num r ++ txt " = " ++ pc_text off ++ txt ".wrapping_add(" ++ num imm ++ txt "i64 as u64);" ++ newline
  | SAluImm r kind a imm => txt "    x" ++ num r ++ txt " = " ++ alu_call kind (operand_text a) (num imm ++ txt "i64 as u64") ++ txt ";" ++ newline
  | SAluReg r kind a b => txt "    x" ++ num r ++ txt " = " ++ alu_call kind (operand_text a) (operand_text b) ++ txt ";" ++ newline
  | SAccess a => render_access a
  | SGroup base lo hi store fast slow =>
      txt "    let span_lo = " ++ add_text base lo ++ txt ";" ++ newline ++ txt "    let span_hi = " ++ add_text base hi ++ txt ";" ++ newline
        ++ txt "    if let Some(span_page) = crate::block::" ++ span_helper store ++ txt "(ctx, satp, span_lo, span_hi) {" ++ newline
        ++ concat (map (render_span store) fast) ++ txt "    } else {" ++ newline ++ concat (map render_access slow) ++ txt "    }" ++ newline
  | SPage id store base lo hi =>
      txt "    let page_g" ++ num (Z.of_nat id) ++ txt " = crate::block::" ++ span_helper store ++ txt "(ctx, satp, " ++ add_text base lo ++ txt ", " ++ add_text base hi
        ++ txt ");" ++ newline
  | SCached id a => render_cached id a
  | SBranch kind a b off offset wb instret ret next =>
      txt "    let taken = " ++ cond_text kind (operand_text a) (operand_text b) ++ txt ";" ++ newline ++ txt "    if taken {" ++ newline
        ++ txt "        " ++ writeback_text wb ++ txt "ctx.regs.pc = " ++ pc_text off ++ txt ".wrapping_add(" ++ num offset ++ txt "i64 as u64);" ++ newline
        ++ txt "        " ++ instret_text instret ++ newline ++ txt "        return (" ++ num ret ++ txt ", " ++ next_text next ++ txt ");" ++ newline ++ txt "    }" ++ newline
  | SLink r off len => txt "    x" ++ num r ++ txt " = " ++ pc_text off ++ txt ".wrapping_add(" ++ num len ++ txt ");" ++ newline
  | SJal wb off offset instret ret next =>
      txt "    " ++ writeback_text wb ++ exit_text (pc_text off ++ txt ".wrapping_add(" ++ num offset ++ txt "i64 as u64)") instret ret (next_text next)
  | STarget base imm => txt "    let target = " ++ add_text base imm ++ txt " & !1;" ++ newline
  | SJalr wb instret ret =>
      txt "    " ++ writeback_text wb ++ exit_text (txt "target") instret ret (txt "if target >> 12 == entry_pc >> 12 { target } else { u64::MAX }")
  | SFallback wb off instret raw len ret reload =>
      txt "    " ++ writeback_text wb ++ txt "ctx.regs.pc = " ++ pc_text off ++ txt ";" ++ newline ++ txt "    " ++ instret_text instret ++ newline
        ++ txt "    let r = crate::execute::exec_raw(ctx, " ++ num raw ++ txt "u32, " ++ pc_text off ++ txt ");" ++ newline
        ++ txt "    debug_assert!(matches!(r, crate::trap::StepResult::Ok));" ++ newline
        ++ txt "    if ctx.regs.pc != " ++ pc_text off ++ txt ".wrapping_add(" ++ num len ++ txt ") {" ++ newline
        ++ txt "        return (" ++ num ret ++ txt ", u64::MAX);" ++ newline ++ txt "    }" ++ newline
        ++ txt "    " ++ reload_text reload ++ txt "let satp = crate::block::effective_satp(*ctx.priv_mode, ctx.csr.satp);" ++ newline
  | SEnd wb len instret ret next =>
      txt "    " ++ writeback_text wb ++ txt "ctx.regs.pc = " ++ pc_text len ++ txt ";" ++ newline ++ txt "    " ++ instret_text instret ++ newline
        ++ txt "    (" ++ num ret ++ txt ", " ++ next_text next ++ txt ")" ++ newline ++ txt "}" ++ newline ++ newline
  end.

(** The function for the block at [pa]. *)
Definition render_block (pa : Z) (body : list Stmt) : list Z :=
  txt "#[allow(unused_variables, unused_mut, unused_assignments)]" ++ newline
    ++ txt "fn block_" ++ format_hex pa ++ txt "<B: SystemBus>(ctx: &mut ExecContext<B>, entry_pc: u64, satp: u64) -> (u64, u64) {" ++ newline
    ++ concat (map render_stmt body).

(** ** What the text does *)

(** The variables of a function: registers that have been assigned, [satp], the
    pages of the groups and [target]. *)
Record Frame := mkFrame { vars : gmap Z Z; fr_satp : Z; group_pages : gmap nat (option HostPtr); fr_target : Z }.
#[export] Instance Frame_eta : Eta Frame := fun f => mkFrame (vars f) (fr_satp f) (group_pages f) (fr_target f).

Section Meaning.
Context {B : Type} {SB : SystemBus B} {HM : HostMemory B} {FE : FloatEnv}.
Abbreviation Ctx := (ExecContext B).
Abbreviation M := (ST (Frame * Ctx)).

Definition mod_frame (f : Frame -> Frame) : M unit := modify (fun s => (f s.1, s.2)).
Definition on_ctx {A} (m : ST Ctx A) : M A := zoom snd (fun c s => (s.1, c)) m.

(** Reading a variable that has not been assigned does not compile. *)
Definition var (o : Operand) : M Z :=
  match o with
  | OZero => mret 0
  | OVar r => v ← gets (fun s => vars s.1 !! r); match v with Some v => mret v | None => panic end
  end.
Definition assign_var (r v : Z) : M unit := mod_frame (fun f => f <| vars := <[r := v]> (vars f) |>).
Definition assign_opt (dst : option Z) (v : Z) : M unit := match dst with Some r => assign_var r v | None => mret tt end.

Fixpoint write_back (wb : list Z) : M unit :=
  match wb with
  | [] => mret tt
  | r :: wb => v ← var (OVar r); on_ctx (write_reg r v);; write_back wb
  end.

Fixpoint reload_vars (rs : list Z) : M unit :=
  match rs with
  | [] => mret tt
  | r :: rs => v ← on_ctx (read_reg r); assign_var r v;; reload_vars rs
  end.

Definition leave_on_fault (wb : list Z) (instret ret : Z) : M (option (Z * Z)) :=
  write_back wb;; on_ctx (add_instret instret);; mret (Some (ret, U64_MAX)).

Section Entry.
Context (entry_pc : Z).

Definition pc_of (off : Z) : Z := wrapping_add64 entry_pc off.
Definition next_of (n : Next) : Z := match n with NextMax => U64_MAX | NextEntry delta => wrapping_add64 entry_pc (as_u64 delta) end.

Definition exec_access (a : Access) : M (option (Z * Z)) :=
  satp ← gets (fun s => fr_satp s.1);
  match a with
  | ALoad kind dst base imm off wb instret ret =>
      base ← var base;
      r ← on_ctx (do_load satp kind (wrapping_add64 base (as_u64 imm)) (pc_of off));
      match r with
      | Ok v => assign_opt dst v;; mret None
      | Err _ => leave_on_fault wb instret ret
      end
  | AStore kind value base imm off wb instret ret =>
      base ← var base;
      value ← var value;
      r ← on_ctx (do_store satp kind (wrapping_add64 base (as_u64 imm)) value (pc_of off));
      match r with
      | Ok _ => mret None
      | Err _ => leave_on_fault wb instret ret
      end
  end.

Definition exec_span (page : HostPtr) (a : SpanAccess) : M unit :=
  match a with
  | SpLoad kind dst base imm =>
      base ← var base;
      v ← on_ctx (span_load page kind (wrapping_add64 base (as_u64 imm)));
      assign_opt dst v
  | SpStore kind value base imm =>
      base ← var base;
      value ← var value;
      on_ctx (span_store page kind (wrapping_add64 base (as_u64 imm)) value)
  end.

Definition span_page (store : bool) (satp lo hi : Z) : ST Ctx (option HostPtr) :=
  if store then store_span_page satp lo hi else load_span_page satp lo hi.

(** A cached member goes through its group's page if there is one. *)
Definition exec_cached (id : nat) (a : Access) : M (option (Z * Z)) :=
  page ← gets (fun s => group_pages s.1 !! id);
  match page with
  | None => panic
  | Some None => exec_access a
  | Some (Some page) =>
      exec_span page (match a with
                      | ALoad kind dst base imm _ _ _ _ => SpLoad kind dst base imm
                      | AStore kind value base imm _ _ _ _ => SpStore kind value base imm
                      end);;
      mret None
  end.

Fixpoint exec_spans (page : HostPtr) (l : list SpanAccess) : M unit :=
  match l with [] => mret tt | a :: l => exec_span page a;; exec_spans page l end.

(** The accesses of a group's slow path, up to a fault. *)
Fixpoint exec_accesses (l : list Access) : M (option (Z * Z)) :=
  match l with
  | [] => mret None
  | a :: l => r ← exec_access a; match r with Some ret => mret (Some ret) | None => exec_accesses l end
  end.

Definition leave (wb : list Z) (target instret ret next : Z) : M (option (Z * Z)) :=
  write_back wb;; on_ctx (set_pc target);; on_ctx (add_instret instret);; mret (Some (ret, next)).

Definition exec_stmt (s : Stmt) : M (option (Z * Z)) :=
  match s with
  | SRead r => v ← on_ctx (read_reg r); assign_var r v;; mret None
  | SDeclare r => mret None
  | SConst r imm => assign_var r (as_u64 imm);; mret None
  | SPcRel r off imm => assign_var r (wrapping_add64 (pc_of off) (as_u64 imm));; mret None
  | SAluImm r kind a imm => a ← var a; assign_var r (alu kind a (as_u64 imm));; mret None
  | SAluReg r kind a b => a ← var a; b ← var b; assign_var r (alu kind a b);; mret None
  | SAccess a => exec_access a
  | SGroup base lo hi store fast slow =>
      base ← var base;
      satp ← gets (fun s => fr_satp s.1);
      page ← on_ctx (span_page store satp (wrapping_add64 base (as_u64 lo)) (wrapping_add64 base (as_u64 hi)));
      match page with
      | Some page => exec_spans page fast;; mret None
      | None => exec_accesses slow
      end
  | SPage id store base lo hi =>
      base ← var base;
      satp ← gets (fun s => fr_satp s.1);
      page ← on_ctx (span_page store satp (wrapping_add64 base (as_u64 lo)) (wrapping_add64 base (as_u64 hi)));
      mod_frame (fun f => f <| group_pages := <[id := page]> (group_pages f) |>);;
      mret None
  | SCached id a => exec_cached id a
  | SBranch kind a b off offset wb instret ret next =>
      a ← var a;
      b ← var b;
      if branch_taken kind a b then leave wb (wrapping_add64 (pc_of off) (as_u64 offset)) instret ret (next_of next) else mret None
  | SLink r off len => assign_var r (wrapping_add64 (pc_of off) len);; mret None
  | SJal wb off offset instret ret next => leave wb (wrapping_add64 (pc_of off) (as_u64 offset)) instret ret (next_of next)
  | STarget base imm =>
      base ← var base;
      mod_frame (fun f => f <| fr_target := Z.land (wrapping_add64 base (as_u64 imm)) (not64 1) |>);;
      mret None
  | SJalr wb instret ret =>
      target ← gets (fun s => fr_target s.1);
      leave wb target instret ret (if Z.shiftr target 12 =? Z.shiftr entry_pc 12 then target else U64_MAX)
  | SFallback wb off instret raw len ret reload =>
      write_back wb;;
      on_ctx (set_pc (pc_of off));;
      on_ctx (add_instret instret);;
      on_ctx (exec_raw raw (pc_of off));;
      c ← gets snd;
      if negb (Gpr.pc (regs c) =? wrapping_add64 (pc_of off) len) then mret (Some (ret, U64_MAX))
      else
        reload_vars reload;;
        mod_frame (fun f => f <| fr_satp := ctx_satp c |>);;
        mret None
  | SEnd wb len instret ret next => leave wb (pc_of len) instret ret (next_of next)
  end.

(** A function returns. *)
Fixpoint exec_stmts (l : list Stmt) : M (Z * Z) :=
  match l with
  | [] => panic
  | s :: l => r ← exec_stmt s; match r with Some ret => mret ret | None => exec_stmts l end
  end.
End Entry.

(** A call of the function with the body [body]. *)
Definition run_translated (body : list Stmt) (entry_pc satp : Z) : ST Ctx (Z * Z) := fun c =>
  match exec_stmts entry_pc body (mkFrame ∅ satp ∅ 0, c) with Some (r, (_, c)) => Some (r, c) | None => None end.
End Meaning.

(** * Properties

    Translated blocks do what the block executor does.

    The function written for a block leaves the same context as [exec_block] and
    counts the same instructions, though it keeps registers in variables and
    goes through host pages for groups of accesses; and the address it hands
    back is where execution goes on, on the same page. *)

(** ** Sets of registers *)

Lemma bt_insert_elem r s l : r ∈ bt_insert s l ↔ r = s ∨ r ∈ l.
Proof.
  induction l as [|t l IH]; cbn; [by rewrite list_elem_of_singleton, elem_of_nil; tauto|]. case_if; [by rewrite !elem_of_cons|].
  case_if; bools; subst; rewrite !elem_of_cons; [tauto|]. rewrite IH. tauto.
Qed.

(** ** Code that does not look at the registers *)

Section Frames.
Context {B : Type} {SB : SystemBus B} {HM : HostMemory B} {FE : FloatEnv}.
Abbreviation Ctx := (ExecContext B).

Definition with_x (xs : list Z) (c : Ctx) : Ctx := c <| regs := (regs c) <| x := xs |> |>.

Definition framed {A} (m : ST Ctx A) : Prop := ∀ xs c,
  m (with_x xs c) = match m c with Some (a, c') => Some (a, with_x xs c') | None => None end.

Lemma framed_ret {A} (a : A) : framed (mret a).
Proof. done. Qed.

Lemma framed_bind {A C} (m : ST Ctx A) (k : A -> ST Ctx C) : framed m → (∀ a, framed (k a)) → framed (m ≫= k).
Proof. intros Hm Hk xs c. unfold mbind, ST_bind. rewrite Hm. destruct (m c) as [[a c']|]; [apply Hk | done]. Qed.

Lemma framed_modify f : (∀ xs c, f (with_x xs c) = with_x xs (f c)) → framed (modify f).
Proof. intros Hf xs c. unfold modify. by rewrite Hf. Qed.

Lemma framed_gets {A} (g : Ctx -> A) : (∀ xs c, g (with_x xs c) = g c) → framed (gets g).
Proof. intros Hg xs c. unfold gets. by rewrite Hg. Qed.

Lemma framed_set_pc v : framed (set_pc v).
Proof. by apply framed_modify. Qed.

Lemma framed_add_instret n : framed (add_instret n).
Proof. by apply framed_modify. Qed.

Lemma framed_on_bus {A} (m : ST B A) : framed (on_bus m).
Proof. intros xs c. unfold on_bus, zoom. cbn. by destruct (m (bus c)) as [[a b]|]. Qed.

Lemma framed_on_mmu {A} (m : ST (Mmu * B) A) : framed (on_mmu m).
Proof. intros xs c. unfold on_mmu, zoom. cbn. by destruct (m (mmu c, bus c)) as [[a b]|]. Qed.

Lemma framed_on_store {A} (m : ST (Mmu * B * BlockCache) A) : framed (on_store m).
Proof. intros xs c. unfold on_store, zoom. cbn. by destruct (m (mmu c, bus c, blocks c)) as [[a b]|]. Qed.

Lemma framed_exception cause tval : framed (take_exception cause tval).
Proof. intros xs c. unfold take_exception, get_csr, set_pc. run_st. cbn. by case_if. Qed.

Lemma framed_fault fault p : framed (block_fault fault p).
Proof. apply framed_bind; [apply framed_set_pc|]. intros. apply framed_exception. Qed.

Lemma framed_load satp k va p : framed (do_load satp k va p).
Proof.
  assert (Hslow : framed (do_load_slow satp k va (load_kind_size k) p)).
  { apply framed_bind; [apply framed_on_mmu|]. intros []; [apply framed_ret|]. apply framed_bind; [apply framed_fault|]. intros. apply framed_ret. }
  intros xs c. unfold do_load. unfold mbind at 1 3, ST_bind at 1 3, st_get. cbv zeta.
  change (bus (with_x xs c)) with (bus c). change (mmu (with_x xs c)) with (mmu c).
  destruct (_ <=? _); [|apply Hslow]. destruct (load_fast_lookup _ _ _ _); [|apply Hslow]. apply framed_bind; [apply framed_on_bus|]. intros. apply framed_ret.
Qed.

Lemma framed_store satp k va v p : framed (do_store satp k va v p).
Proof.
  assert (Hslow : framed (do_store_slow satp va v (store_kind_size k) p)).
  { apply framed_bind; [apply framed_on_store|]. intros []; [apply framed_ret|]. apply framed_bind; [apply framed_fault|]. intros. apply framed_ret. }
  intros xs c. unfold do_store. unfold mbind at 1 3, ST_bind at 1 3, st_get. cbv zeta.
  change (bus (with_x xs c)) with (bus c). change (mmu (with_x xs c)) with (mmu c). change (blocks (with_x xs c)) with (blocks c).
  destruct (_ <=? _); [|apply Hslow]. destruct (store_fast_lookup _ _ _ _ _); [|apply Hslow]. apply framed_bind; [apply framed_on_bus|]. intros. apply framed_ret.
Qed.

(** Loads and stores leave the registers alone, the pc apart. *)
Lemma framed_regs {A} (m : ST Ctx A) c a c' : framed m → m c = Some (a, c') → x (regs c') = x (regs c).
Proof.
  intros Hm E. specialize (Hm (x (regs c)) c). assert (Ec : with_x (x (regs c)) c = c) by (by destruct c as [[] ? ? ? ? ? ? ? ? ? ? ?]).
  rewrite Ec, E in Hm. injection Hm as Hm. by rewrite Hm.
Qed.
End Frames.

(** Stores through host pages keep the epoch. *)
Class HostEpoch (B : Type) {SB : SystemBus B} {HM : HostMemory B} : Prop :=
  host_write_epoch p n v (b b' : B) : host_write p n v b = Some (tt, b') → ram_epoch b' = ram_epoch b.

#[export] Instance FlatMemory_epoch : HostEpoch FlatMemory.
Proof. intros p n v b b'. cbn. case_if; [|done]. destruct (slice_put _ _ _); [|done]. by intros [= <-]. Qed.

#[export] Instance SparseRam_epoch : HostEpoch SparseRam.ram.
Proof. by intros. Qed.

(** ** Variables *)

Section Tracks.
Context {B : Type} {SB : SystemBus B} {HM : HostMemory B} {FE : FloatEnv}.
Abbreviation Ctx := (ExecContext B).
Abbreviation St := (Frame * Ctx)%type.

(** What the executor has in its registers, the function has in its variables, and in
    the registers if it did not write them. *)
Record tracks (ra : RegAlloc) (satp : Z) (c : Ctx) (s : St) : Prop := {
  tk_ctx : ∃ xs, s.2 = with_x xs c ∧ length xs = 32%nat ∧
    ∀ r, reg_ok r → r ∉ written_regs ra → xs !!! Z.to_nat r = x (regs c) !!! Z.to_nat r;
  tk_vars r : r ∈ declared ra → vars s.1 !! r = Some (gpr_read r (regs c));
  tk_range r : r ∈ declared ra → 0 < r < 32;
  tk_written r : r ∈ written_regs ra → r ∈ declared ra;
  tk_satp : fr_satp s.1 = satp
}.

Definition available (r : Z) (ra : RegAlloc) : Prop := r = 0 ∨ r ∈ declared ra.

Lemma var_run ra satp c s r : tracks ra satp c s → available r ra → var (operand r) s = Some (gpr_read r (regs c), s).
Proof.
  intros T Hr. unfold operand. destruct (Z.eqb_spec r 0) as [->|Hn]; [done|]. destruct Hr as [|Hr]; [done|].
  unfold var. run_st. by rewrite (tk_vars _ _ _ _ T r Hr).
Qed.

(** Only membership matters. *)
Lemma tracks_same ra ra' satp c s :
  (∀ r, r ∈ declared ra' ↔ r ∈ declared ra) → (∀ r, r ∈ written_regs ra' ↔ r ∈ written_regs ra) → tracks ra satp c s → tracks ra' satp c s.
Proof.
  intros Hd Hw [(xs & E1 & E2 & E3) T2 T3 T4 T5]. split; [|intros r; rewrite ?Hd, ?Hw; auto..|done].
  exists xs. split_and!; [done | done|]. intros r Hr. rewrite Hw. by apply E3.
Qed.

Lemma write_with_x r v xs (c : Ctx) : 0 < r → write_reg r v (with_x xs c) = Some (tt, with_x (<[Z.to_nat r := v]> xs) c).
Proof. intros Hr. unfold write_reg, modify, gpr_write. destruct (Z.eqb_spec r 0); [lia|]. by destruct c as [[] ? ? ? ? ? ? ? ? ? ? ?]. Qed.

(** The registers are written back. *)
Lemma write_back_regs wb fr xs (c : Ctx) :
  length xs = 32%nat → length (x (regs c)) = 32%nat →
  (∀ r, r ∈ wb → 0 < r < 32 ∧ vars fr !! r = Some (gpr_read r (regs c))) →
  (∀ r, reg_ok r → r ∉ wb → xs !!! Z.to_nat r = x (regs c) !!! Z.to_nat r) →
  write_back wb (fr, with_x xs c) = Some (tt, (fr, c)).
Proof.
  intros Hl Hc. revert xs Hl. induction wb as [|r wb IH]; intros xs Hl Hv Hx.
  - cbn. unfold mret, ST_ret. do 3 f_equal. assert (xs = x (regs c)) as ->; [|by destruct c as [[] ? ? ? ? ? ? ? ? ? ? ?]].
    apply (list_eq_same_length _ _ 32); [done | done|]. intros i v1 v2 Hi E1 E2.
    specialize (Hx (Z.of_nat i)). rewrite Nat2Z.id in Hx. rewrite (list_lookup_total_correct _ _ _ E1), (list_lookup_total_correct _ _ _ E2) in Hx.
    apply Hx; [unfold reg_ok; lia | apply not_elem_of_nil].
  - destruct (Hv r) as [Hr Er]; [apply list_elem_of_here|]. cbn [write_back]. unfold var. run_st. cbn [fst]. rewrite Er.
    unfold on_ctx, zoom. cbn [fst snd]. rewrite write_with_x by lia.
    apply IH; [by rewrite length_insert | intros q Hq; apply Hv; by apply list_elem_of_further|]. intros q Hq Hn.
    destruct (decide (q = r)) as [->|Hne].
    + rewrite list_lookup_total_insert_eq by lia. unfold gpr_read. by destruct (Z.eqb_spec r 0); [lia|].
    + unfold reg_ok in Hq. rewrite list_lookup_total_insert_ne by lia. apply Hx; [done|]. rewrite elem_of_cons. tauto.
Qed.

(** *** Runs of statements *)

Section Entry.
Context (entry : Z).

(** The statements run through, or return. *)
Definition goes (l : list Stmt) (s s' : St) : Prop := ∀ more, exec_stmts entry (l ++ more) s = exec_stmts entry more s'.
Definition ends (l : list Stmt) (s : St) (r : Z * Z) (s' : St) : Prop := ∀ more, exec_stmts entry (l ++ more) s = Some (r, s').

Lemma goes_nil s : goes [] s s.
Proof. by intros more. Qed.

Lemma goes_app l1 l2 s1 s2 s3 : goes l1 s1 s2 → goes l2 s2 s3 → goes (l1 ++ l2) s1 s3.
Proof. intros H1 H2 more. by rewrite <- app_assoc, H1, H2. Qed.

Lemma goes_ends l1 l2 s1 s2 r s3 : goes l1 s1 s2 → ends l2 s2 r s3 → ends (l1 ++ l2) s1 r s3.
Proof. intros H1 H2 more. by rewrite <- app_assoc, H1, H2. Qed.

Lemma goes_stmt t s s' : exec_stmt entry t s = Some (None, s') → goes [t] s s'.
Proof. intros E more. cbn [app exec_stmts]. unfold mbind, ST_bind. by rewrite E. Qed.

Lemma ends_stmt t s r s' : exec_stmt entry t s = Some (Some r, s') → ends [t] s r s'.
Proof. intros E more. cbn [app exec_stmts]. unfold mbind, ST_bind. by rewrite E. Qed.

(** Reading a register: it is available afterwards. *)
Lemma read_goes r ra satp c s : tracks ra satp c s → gpr_wf (regs c) → reg_ok r →
  let '(l, o, ra') := ra_read r ra in
  ∃ s', goes l s s' ∧ tracks ra' satp c s' ∧ o = operand r ∧ available r ra' ∧ written_regs ra' = written_regs ra ∧
        (∀ q, available q ra → available q ra').
Proof.
  intros T Hg Hr. unfold ra_read, operand, available. destruct (Z.eqb_spec r 0) as [->|Hn]; [exists s; split; [apply goes_nil | naive_solver]|].
  assert (Hmore : ∀ q, q ∈ declared ra → q ∈ bt_insert r (declared ra)) by (intros; apply bt_insert_elem; auto).
  assert (Hin : r ∈ bt_insert r (declared ra)) by (apply bt_insert_elem; auto).
  destruct (bool_decide_reflect (r ∈ declared ra)) as [Hd|Hd].
  - exists s. split; [apply goes_nil|]. split; [|cbn; naive_solver].
    apply (tracks_same ra); [|done|done]. cbn. intros q. rewrite bt_insert_elem. naive_solver.
  - destruct s as [fr h]. destruct T as [(xs & E & Hl & Hx) T2 T3 T4 T5]. cbn in *. subst h.
    assert (Hv : gpr_read r (regs (with_x xs c)) = gpr_read r (regs c)).
    { unfold gpr_read. destruct (Z.eqb_spec r 0); [done|]. cbn. apply Hx; [done|]. intros Hw. by apply T4 in Hw. }
    eexists. split; [apply goes_stmt; unfold exec_stmt, on_ctx, read_reg, assign_var, mod_frame; run_st; cbn; reflexivity|].
    split; [|cbn; naive_solver]. split; cbn.
    + by exists xs.
    + intros q. rewrite bt_insert_elem. intros [->|Hq].
      * rewrite lookup_insert_eq. exact (f_equal Some Hv).
      * rewrite lookup_insert_ne by (intros ->; done). by apply T2.
    + intros q. rewrite bt_insert_elem. intros [->|Hq]; [unfold reg_ok in Hr; lia | by apply T3].
    + intros q Hq. apply bt_insert_elem. auto.
    + done.
Qed.

(** Declaring the target of a write. *)
Lemma target_goes r ra s : goes (ra_write_target r ra).1.1 s s.
Proof. unfold ra_write_target. case_if; [apply goes_nil|]. cbn. case_bool_decide; [apply goes_nil|]. by apply goes_stmt. Qed.

Lemma target_is r ra : (ra_write_target r ra).1.2 = target_of r.
Proof. unfold ra_write_target, target_of. by case_if. Qed.

Definition set_reg (r v : Z) (c : Ctx) : Ctx := c <| regs := gpr_write r v (regs c) |>.

Lemma read_set_reg q r v (g : Gpr) : length (x g) = 32%nat → reg_ok q → 0 < r < 32 → gpr_read q (gpr_write r v g) = if q =? r then v else gpr_read q g.
Proof.
  intros Hl Hq Hr. unfold reg_ok in Hq. unfold gpr_read, gpr_write. destruct (Z.eqb_spec r 0); [lia|]. cbn. destruct (Z.eqb_spec q 0) as [->|].
  - by destruct (Z.eqb_spec 0 r); [lia|].
  - destruct (Z.eqb_spec q r) as [->|]; [rewrite list_lookup_total_insert_eq by lia; done|]. rewrite list_lookup_total_insert_ne by lia. done.
Qed.

(** The variable of a written register has its value. *)
Lemma assign_tracks r v ra satp c s :
  tracks ra satp c s → length (x (regs c)) = 32%nat → reg_ok r →
  ∃ s', assign_opt (target_of r) v s = Some (tt, s') ∧ s'.2 = s.2 ∧ tracks (ra_write_target r ra).2 satp (set_reg r v c) s'.
Proof.
  intros T Hg Hr. unfold assign_opt, target_of, ra_write_target. destruct (Z.eqb_spec r 0) as [->|Hn].
  - exists s. split_and!; [done | done|]. cbn. unfold set_reg. by rewrite write_x0, regs_eta.
  - destruct s as [fr h]. destruct T as [(xs & E & Hl & Hx) T2 T3 T4 T5]. cbn in *. subst h. eexists. split; [reflexivity|]. split; [done|].
    assert (Hread : ∀ q, reg_ok q → gpr_read q (gpr_write r v (regs c)) = if q =? r then v else gpr_read q (regs c)).
    { intros q Hq. unfold reg_ok in Hr. apply read_set_reg; [done | done | lia]. }
    split; cbn.
    + exists xs. split; [by destruct c as [[] ? ? ? ? ? ? ? ? ? ? ?]; unfold set_reg, with_x, gpr_write; cbn; case_if|]. split; [done|]. intros q Hq. rewrite bt_insert_elem. intros Hnq.
      rewrite Hx by tauto. unfold set_reg, gpr_write. cbn. destruct (Z.eqb_spec r 0); [done|]. cbn.
      unfold reg_ok in *. rewrite list_lookup_total_insert_ne; [done|]. intros Eq. apply Hnq. left. lia.
    + intros q. rewrite bt_insert_elem. intros Hq. assert (Hq' : reg_ok q).
      { destruct Hq as [->|Hq]; [done|]. apply T3 in Hq. unfold reg_ok. lia. }
      rewrite Hread by done. destruct (Z.eqb_spec q r) as [->|Hqr]; [by rewrite lookup_insert_eq|].
      rewrite lookup_insert_ne by done. apply T2. tauto.
    + intros q. rewrite bt_insert_elem. intros [->|Hq]; [unfold reg_ok in Hr; lia | by apply T3].
    + intros q. rewrite !bt_insert_elem. intros [->|Hq]; auto.
    + done.
Qed.

(** Writing back everything that was written gives the executor's context. *)
Lemma write_back_run ra satp (c : Ctx) s wb (c1 : Ctx) :
  tracks ra satp c s → (∀ r, r ∈ wb ↔ r ∈ written_regs ra) → length (x (regs c)) = 32%nat → x (regs c1) = x (regs c) →
  ∀ xs, s.2 = with_x xs c → write_back wb (s.1, with_x xs c1) = Some (tt, (s.1, c1)).
Proof.
  intros [(xs0 & E & Hl & Hx) T2 T3 T4 _] Hwb Hc Hc1 xs Es. rewrite E in Es.
  assert (xs0 = xs) as -> by (apply (f_equal (fun c => x (regs c))) in Es; exact Es).
  assert (Hread : ∀ r, gpr_read r (regs c1) = gpr_read r (regs c)) by (intros; unfold gpr_read; by rewrite Hc1).
  apply write_back_regs; [done | by rewrite Hc1| |].
  - intros r Hr. apply Hwb, T4 in Hr. split; [by apply T3|]. rewrite Hread. by apply T2.
  - intros r Hr Hn. rewrite Hc1. apply Hx; [done|]. by rewrite <- Hwb.
Qed.

(** *** Leaving the function *)

Lemma tracks_ctx ra satp c s : tracks ra satp c s → ∃ xs, s.2 = with_x xs c.
Proof. intros [(xs & E & _) _ _ _ _]. by exists xs. Qed.

Lemma leave_run ra satp (c : Ctx) s wb target n ret next :
  tracks ra satp c s → (∀ r, r ∈ wb ↔ r ∈ written_regs ra) → length (x (regs c)) = 32%nat →
  leave wb target n ret next s = Some (Some (ret, next), (s.1, sync target n c)).
Proof.
  intros T Hwb Hc. destruct (tracks_ctx _ _ _ _ T) as (xs & E). pose proof (write_back_run _ _ _ _ wb c T Hwb Hc eq_refl xs E) as Ew.
  destruct s as [fr h]. cbn in E, Ew. subst h. unfold leave. run_st. rewrite Ew. unfold on_ctx, zoom, set_pc, add_instret, mod_csr. run_st.
  by destruct c as [[] ? ? ? ? ? ? ? ? ? ? ?].
Qed.

(** The context after a fault. *)
Definition retire_fault (n : Z) (c : Ctx) : Ctx := c <| csr := (csr c) <| instret := wrapping_add64 (instret (csr c)) n |> |>.

(** An access that faults: the trap is taken, then the registers are written. *)
Lemma fault_run ra satp (c c1 : Ctx) s wb n ret :
  tracks ra satp c s → (∀ r, r ∈ wb ↔ r ∈ written_regs ra) → length (x (regs c)) = 32%nat → x (regs c1) = x (regs c) →
  ∀ xs, s.2 = with_x xs c →
  leave_on_fault wb n ret (s.1, with_x xs c1) = Some (Some (ret, U64_MAX), (s.1, retire_fault n c1)).
Proof.
  intros T Hwb Hc Hc1 xs E. unfold leave_on_fault. run_st. by rewrite (write_back_run _ _ _ _ wb c1 T Hwb Hc Hc1 xs E).
Qed.

Lemma tracks_load ra satp (c c1 : Ctx) s xs fr :
  tracks ra satp c s → s.2 = with_x xs c → fr = s.1 → x (regs c1) = x (regs c) → tracks ra satp c1 (fr, with_x xs c1).
Proof.
  intros [(xs0 & E & Hl & Hx) T2 T3 T4 T5] Es -> Hc1. rewrite E in Es.
  assert (xs0 = xs) as -> by (apply (f_equal (fun c => x (regs c))) in Es; exact Es).
  split; cbn; [exists xs; rewrite Hc1; auto| |done..]. intros r Hr. unfold gpr_read. rewrite Hc1. by apply T2.
Qed.

(** *** Accesses *)

Lemma exec_load_eq kind dst base imm off wb n ret s b :
  var base s = Some (b, s) →
  exec_access entry (ALoad kind dst base imm off wb n ret) s
  = match do_load (fr_satp s.1) kind (wrapping_add64 b (as_u64 imm)) (wrapping_add64 entry off) s.2 with
    | Some (Ok v, c1) => (assign_opt dst v;; mret None) (s.1, c1)
    | Some (Err _, c1) => leave_on_fault wb n ret (s.1, c1)
    | None => None
    end.
Proof.
  intros E. unfold exec_access, gets, on_ctx, zoom, pc_of. unfold mbind at 1, ST_bind at 1. unfold mbind at 1, ST_bind at 1. rewrite E.
  unfold mbind at 1, ST_bind at 1. by destruct (do_load _ _ _ _ _) as [[[] c1]|].
Qed.

Lemma exec_store_eq kind value base imm off wb n ret s b v :
  var base s = Some (b, s) → var value s = Some (v, s) →
  exec_access entry (AStore kind value base imm off wb n ret) s
  = match do_store (fr_satp s.1) kind (wrapping_add64 b (as_u64 imm)) v (wrapping_add64 entry off) s.2 with
    | Some (Ok _, c1) => Some (None, (s.1, c1))
    | Some (Err _, c1) => leave_on_fault wb n ret (s.1, c1)
    | None => None
    end.
Proof.
  intros E Ev. unfold exec_access, gets, on_ctx, zoom, pc_of. unfold mbind at 1, ST_bind at 1. unfold mbind at 1, ST_bind at 1. rewrite E.
  unfold mbind at 1, ST_bind at 1. rewrite Ev. unfold mbind at 1, ST_bind at 1. by destruct (do_store _ _ _ _ _ _) as [[[] c1]|].
Qed.

(** An access with its operands at hand, against the executor's. *)
Lemma load_access kind rd rs1 imm off wb n ret ra satp c s r c1 :
  tracks ra satp c s → (∀ r, r ∈ wb ↔ r ∈ written_regs ra) → length (x (regs c)) = 32%nat → reg_ok rd → available rs1 ra →
  do_load satp kind (wrapping_add64 (gpr_read rs1 (regs c)) (as_u64 imm)) (wrapping_add64 entry off) c = Some (r, c1) →
  match r with
  | Ok v => ∃ s', exec_access entry (ALoad kind (target_of rd) (operand rs1) imm off wb n ret) s = Some (None, s') ∧
      tracks (ra_write_target rd ra).2 satp (set_reg rd v c1) s'
  | Err _ => ∃ fr, exec_access entry (ALoad kind (target_of rd) (operand rs1) imm off wb n ret) s = Some (Some (ret, U64_MAX), (fr, retire_fault n c1))
  end.
Proof.
  intros T Hwb Hg Hrd Hrs E. pose proof (framed_regs _ _ _ _ (framed_load _ _ _ _) E) as Hx1.
  rewrite (exec_load_eq _ _ _ _ _ _ _ _ _ _ (var_run _ _ _ _ _ T Hrs)), (tk_satp _ _ _ _ T).
  destruct (tracks_ctx _ _ _ _ T) as (xs & Es). destruct s as [fr h]. cbn in Es. subst h. cbn [fst snd]. rewrite framed_load, E. destruct r as [v|].
  - pose proof (tracks_load _ _ _ c1 _ xs fr T eq_refl eq_refl Hx1) as T1.
    destruct (assign_tracks rd v ra satp c1 (fr, with_x xs c1) T1) as (s' & Ea & _ & T'); [by rewrite Hx1 | done|].
    exists s'. split; [|done]. unfold mbind at 1, ST_bind at 1. by rewrite Ea.
  - exists fr. by apply (fault_run ra satp c c1 (fr, with_x xs c)).
Qed.

Lemma store_access kind rs1 rs2 imm off wb n ret ra satp c s r c1 :
  tracks ra satp c s → (∀ r, r ∈ wb ↔ r ∈ written_regs ra) → length (x (regs c)) = 32%nat → available rs1 ra → available rs2 ra →
  do_store satp kind (wrapping_add64 (gpr_read rs1 (regs c)) (as_u64 imm)) (gpr_read rs2 (regs c)) (wrapping_add64 entry off) c = Some (r, c1) →
  match r with
  | Ok _ => ∃ s', exec_access entry (AStore kind (operand rs2) (operand rs1) imm off wb n ret) s = Some (None, s') ∧ tracks ra satp c1 s'
  | Err _ => ∃ fr, exec_access entry (AStore kind (operand rs2) (operand rs1) imm off wb n ret) s = Some (Some (ret, U64_MAX), (fr, retire_fault n c1))
  end.
Proof.
  intros T Hwb Hg Hrs1 Hrs2 E. pose proof (framed_regs _ _ _ _ (framed_store _ _ _ _ _) E) as Hx1.
  rewrite (exec_store_eq _ _ _ _ _ _ _ _ _ _ _ (var_run _ _ _ _ _ T Hrs1) (var_run _ _ _ _ _ T Hrs2)), (tk_satp _ _ _ _ T).
  destruct (tracks_ctx _ _ _ _ T) as (xs & Es). destruct s as [fr h]. cbn in Es. subst h. cbn [fst snd]. rewrite framed_store, E. destruct r as [v|].
  - eexists. split; [done|]. by apply (tracks_load _ _ c c1 (fr, with_x xs c)).
  - exists fr. by apply (fault_run ra satp c c1 (fr, with_x xs c)).
Qed.

(** ** Where execution goes on *)

(** The address that is handed back: on the same page, with the page tables as they
    were. *)
Definition next_ok (next satp : Z) (c : Ctx) : Prop :=
  next = U64_MAX ∨ next = pc (regs c) ∧ Z.shiftr next 12 = Z.shiftr entry 12 ∧ ctx_satp c = satp.

Lemma next_expr_ok off delta :
  is_u64 entry →
  let target := wrapping_add64 (wrapping_add64 entry off) (as_u64 delta) in
  let next := next_of entry (next_expr (Z.land entry 0xfff) off delta) in
  next = U64_MAX ∨ next = target ∧ Z.shiftr next 12 = Z.shiftr entry 12.
Proof.
  intros He. cbv zeta. unfold next_expr. destruct (_ && _) eqn:C; [|by left]. right. cbn [next_of]. bools.
  assert (Eo : Z.land entry 0xfff = entry mod 4096) by (change 0xfff with (Z.ones 12); by rewrite Z.land_ones).
  rewrite Eo in *. rewrite !add_imm. unfold is_word in He.
  assert (E : wrapping_add64 entry (off + delta) = entry + (off + delta)).
  { apply wrap_id. unfold is_word. pose proof (Z.div_mod entry 4096). pose proof (Z.mod_pos_bound entry 4096).
    assert (entry / 4096 < 2 ^ 52) by (apply Z.div_lt_upper_bound; lia). assert (0 <= entry / 4096) by (apply Z.div_pos; lia). lia. }
  split.
  - unfold wrapping_add64, as_u64. rewrite wrap_add_l. f_equal. lia.
  - rewrite E, !Z.shiftr_div_pow2 by lia. change (2 ^ 12) with 4096. pose proof (Z.div_mod entry 4096).
    symmetry. apply (Z.div_unique _ _ _ (entry mod 4096 + off + delta)); lia.
Qed.

(** ** Single operations *)

(** How the statements for an operation answer what the executor does with it. *)
Definition answers_op (l : list Stmt) (ra : RegAlloc) (satp retired flushed flushed' : Z) (s : St) (flow : OpFlow) (c : Ctx) : Prop :=
  match flow with
  | FlowNext => flushed' = flushed ∧ ∃ s', goes l s s' ∧ tracks ra satp c s'
  | FlowContinue satp => flushed' = retired + 1 ∧ ∃ s', goes l s s' ∧ tracks ra satp c s'
  | FlowReturn n _ => ∃ fr next, ends l s (n, next) (fr, c) ∧ next_ok next satp c
  end.

(** A value goes to a register. *)
Lemma value_answers l t rd v ra satp retired flushed c s s1 :
  goes l s s1 → tracks ra satp c s1 → length (x (regs c)) = 32%nat → 0 < rd < 32 →
  exec_stmt entry t s1 = (assign_var rd v;; mret None) s1 →
  answers_op (l ++ (ra_write_target rd ra).1.1 ++ [t]) (ra_write_target rd ra).2 satp retired flushed flushed s FlowNext (set_reg rd v c).
Proof.
  intros Hl T Hx Hr Et. split; [done|]. destruct (assign_tracks rd v ra satp c s1 T Hx) as (s' & Ea & _ & T'); [unfold reg_ok; lia|].
  exists s'. split; [|done]. eapply goes_app; [exact Hl|]. eapply goes_app; [apply target_goes|]. apply goes_stmt. rewrite Et.
  unfold target_of in Ea. destruct (Z.eqb_spec rd 0); [lia|]. cbn in Ea. unfold mbind, ST_bind. by rewrite Ea.
Qed.

Lemma set_zero v (c : Ctx) : set_reg 0 v c = c.
Proof. unfold set_reg. by rewrite write_x0, regs_eta. Qed.

Lemma skip_answers ra satp retired flushed c s : tracks ra satp c s → answers_op [] ra satp retired flushed flushed s FlowNext c.
Proof. intros T. split; [done|]. exists s. split; [apply goes_nil | done]. Qed.

(** The runs of the executor's steps. *)
Lemma write_m_set r v (c c0 : Ctx) : reg_ok r → gpr_wf (regs c0) → x (regs c) = x (regs c0) → write_m r v c = Some (tt, set_reg r v c).
Proof. intros Hr Hg E. unfold write_m, modify. rewrite write_masked_x0; [done | done|]. rewrite E. apply (wf_x0 _ Hg). Qed.

(** What follows an operation left to the interpreter, where the executor does
    not stop: all went well, the hart does not wait, the page tables are the same. *)
Definition smooth_fallback (i : DecodedInsn) (p pending satp : Z) (c : Ctx) : Prop :=
  match op i with
  | OpFallback raw => ∀ r c', exec_raw raw p (sync p pending c) = Some (r, c') → pc (regs c') = wrapping_add64 p (ilen i) →
      r = StepOk ∧ is_waiting c' = false ∧ ctx_satp c' = satp
  | _ => True
  end.

Lemma exec_load_inv i k rd rs1 imm p retired pending satp (c : Ctx) flow c' :
  op i = OpLoad k rd rs1 imm → op_wf (op i) → gpr_wf (regs c) → exec_op i p retired pending satp c = Some (flow, c') →
  ∃ r c1, do_load satp k (wrapping_add64 (gpr_read rs1 (regs c)) (as_u64 imm)) p c = Some (r, c1) ∧
    match r with
    | Ok v => flow = FlowNext ∧ c' = set_reg rd v c1
    | Err _ => flow = FlowReturn (retired + 1) StepOk ∧ c' = retire_fault pending c1
    end.
Proof.
  intros Eo Ho Hg. unfold exec_op. rewrite Eo in *. destruct Ho as [Hr1 Hr2]. unfold mbind at 1, ST_bind at 1. rewrite read_m_run by done.
  unfold mbind at 1, ST_bind at 1. destruct (do_load _ _ _ _ c) as [[r c1]|] eqn:E; [|done]. intros H. exists r, c1. split; [done|]. destruct r as [v|].
  - revert H. unfold mbind at 1, ST_bind at 1. rewrite (write_m_set _ _ _ c); [by intros [= <- <-] | done | done|]. apply (framed_regs _ _ _ _ (framed_load _ _ _ _) E).
  - by injection H as <- <-.
Qed.

Lemma exec_store_inv i k rs1 rs2 imm p retired pending satp (c : Ctx) flow c' :
  op i = OpStore k rs1 rs2 imm → op_wf (op i) → gpr_wf (regs c) → exec_op i p retired pending satp c = Some (flow, c') →
  ∃ r c1, do_store satp k (wrapping_add64 (gpr_read rs1 (regs c)) (as_u64 imm)) (gpr_read rs2 (regs c)) p c = Some (r, c1) ∧
    match r with
    | Ok _ => flow = FlowNext ∧ c' = c1
    | Err _ => flow = FlowReturn (retired + 1) StepOk ∧ c' = retire_fault pending c1
    end.
Proof.
  intros Eo Ho Hg. unfold exec_op. rewrite Eo in *. destruct Ho as [Hr1 Hr2]. unfold mbind at 1, ST_bind at 1. rewrite read_m_run by done.
  unfold mbind at 1, ST_bind at 1. rewrite read_m_run by done. unfold mbind at 1, ST_bind at 1.
  destruct (do_store _ _ _ _ _ c) as [[r c1]|] eqn:E; [|done]. intros H. exists r, c1. split; [done|]. destruct r as [v|]; by injection H as <- <-.
Qed.

Section Operation.
Context (He : is_u64 entry).
Context (i : DecodedInsn) (retired flushed satp : Z) (ra : RegAlloc) (c : Ctx) (s : St).
Context (T : tracks ra satp c s) (Hg : gpr_wf (regs c)) (Hsatp : ctx_satp c = satp).
Abbreviation p := (wrapping_add64 entry (pc_off i)).
Abbreviation answered flow c' :=
  (let '(l, ra', flushed') := emit_op (Z.land entry 0xfff) i retired flushed ra in answers_op l ra' satp retired flushed flushed' s flow c').

Lemma reads1 r : reg_ok r →
  let '(l, o, ra') := ra_read r ra in
  ∃ s', goes l s s' ∧ tracks ra' satp c s' ∧ o = operand r ∧ var (operand r) s' = Some (gpr_read r (regs c), s') ∧ available r ra' ∧ written_regs ra' = written_regs ra.
Proof.
  intros Hr. pose proof (read_goes r ra satp c s T Hg Hr) as R. destruct (ra_read r ra) as [[l o] ra']. destruct R as (s' & H1 & H2 & H3 & H4 & H5 & _).
  exists s'. split_and!; [done..| by eapply var_run | done | done].
Qed.

Lemma reads2 r1 r2 : reg_ok r1 → reg_ok r2 →
  let '(l1, o1, ra1) := ra_read r1 ra in
  let '(l2, o2, ra2) := ra_read r2 ra1 in
  ∃ s', goes (l1 ++ l2) s s' ∧ tracks ra2 satp c s' ∧ o1 = operand r1 ∧ o2 = operand r2 ∧
    var (operand r1) s' = Some (gpr_read r1 (regs c), s') ∧ var (operand r2) s' = Some (gpr_read r2 (regs c), s') ∧
    available r1 ra2 ∧ available r2 ra2 ∧ written_regs ra2 = written_regs ra.
Proof.
  intros H1 H2. pose proof (read_goes r1 ra satp c s T Hg H1) as R1. destruct (ra_read r1 ra) as [[l1 o1] ra1]. destruct R1 as (s1 & A1 & A2 & A3 & A4 & A5 & _).
  pose proof (read_goes r2 ra1 satp c s1 A2 Hg H2) as R2. destruct (ra_read r2 ra1) as [[l2 o2] ra2]. destruct R2 as (s2 & B1 & B2 & B3 & B4 & B5 & B6).
  exists s2. split_and!; [by eapply goes_app | done..| | |by apply B6 | done | congruence]; eapply var_run; eauto.
Qed.

Lemma len32 : length (x (regs c)) = 32%nat.
Proof. apply Hg. Qed.

Lemma lui_answers rd imm : op i = OpLui rd imm → reg_ok rd → answered FlowNext (set_reg rd (as_u64 imm) c).
Proof.
  intros Eo Hr. unfold emit_op. rewrite Eo. destruct (Z.eq_dec rd 0) as [->|Hn]; [rewrite set_zero; by apply skip_answers|]. unfold reg_ok in Hr.
  pose proof (value_answers [] (SConst rd imm) rd (as_u64 imm) ra satp retired flushed c s s (goes_nil s) T len32) as V.
  pose proof (target_is rd ra) as Ht. destruct (ra_write_target rd ra) as [[l d] ra']. cbn in Ht. subst d.
  unfold target_of. destruct (Z.eqb_spec rd 0); [done|]. apply V; [lia | done].
Qed.

Lemma auipc_answers rd imm : op i = OpAuipc rd imm → reg_ok rd → answered FlowNext (set_reg rd (wrapping_add64 p (as_u64 imm)) c).
Proof.
  intros Eo Hr. unfold emit_op. rewrite Eo. destruct (Z.eq_dec rd 0) as [->|Hn]; [rewrite set_zero; by apply skip_answers|]. unfold reg_ok in Hr.
  pose proof (value_answers [] (SPcRel rd (pc_off i) imm) rd (wrapping_add64 p (as_u64 imm)) ra satp retired flushed c s s (goes_nil s) T len32) as V.
  pose proof (target_is rd ra) as Ht. destruct (ra_write_target rd ra) as [[l d] ra']. cbn in Ht. subst d.
  unfold target_of. destruct (Z.eqb_spec rd 0); [done|]. apply V; [lia | done].
Qed.

Lemma alu_imm_answers kind rd rs1 imm :
  op i = OpAluImm kind rd rs1 imm → reg_ok rd → reg_ok rs1 → answered FlowNext (set_reg rd (alu kind (gpr_read rs1 (regs c)) (as_u64 imm)) c).
Proof.
  intros Eo Hr Hr1. unfold emit_op. rewrite Eo. destruct (Z.eqb_spec rd 0) as [->|Hn]; [rewrite set_zero; by apply skip_answers|]. unfold reg_ok in Hr.
  pose proof (reads1 rs1 Hr1) as R. destruct (ra_read rs1 ra) as [[l1 o] ra1]. destruct R as (s1 & G & T1 & -> & Ev & _ & _).
  pose proof (value_answers l1 (SAluImm rd kind (operand rs1) imm) rd (alu kind (gpr_read rs1 (regs c)) (as_u64 imm)) ra1 satp retired flushed c s s1 G T1 len32) as V.
  destruct (ra_write_target rd ra1) as [[l d] ra']. apply V; [lia|]. cbn [exec_stmt]. unfold mbind at 1, ST_bind at 1. by rewrite Ev.
Qed.

Lemma alu_reg_answers kind rd rs1 rs2 :
  op i = OpAluReg kind rd rs1 rs2 → reg_ok rd → reg_ok rs1 → reg_ok rs2 →
  answered FlowNext (set_reg rd (alu kind (gpr_read rs1 (regs c)) (gpr_read rs2 (regs c))) c).
Proof.
  intros Eo Hr Hr1 Hr2. unfold emit_op. rewrite Eo. destruct (Z.eqb_spec rd 0) as [->|Hn]; [rewrite set_zero; by apply skip_answers|]. unfold reg_ok in Hr.
  pose proof (reads2 rs1 rs2 Hr1 Hr2) as R. destruct (ra_read rs1 ra) as [[l1 o1] ra1]. destruct (ra_read rs2 ra1) as [[l2 o2] ra2].
  destruct R as (s1 & G & T1 & -> & -> & Ev1 & Ev2 & _ & _ & _).
  pose proof (value_answers (l1 ++ l2) (SAluReg rd kind (operand rs1) (operand rs2)) rd (alu kind (gpr_read rs1 (regs c)) (gpr_read rs2 (regs c))) ra2 satp retired flushed c s s1 G T1 len32) as V.
  destruct (ra_write_target rd ra2) as [[l d] ra']. rewrite app_assoc. apply V; [lia|]. cbn [exec_stmt]. unfold mbind at 1, ST_bind at 1. rewrite Ev1.
  unfold mbind at 1, ST_bind at 1. by rewrite Ev2.
Qed.

Lemma load_answers kind rd rs1 imm r c1 :
  op i = OpLoad kind rd rs1 imm → reg_ok rd → reg_ok rs1 →
  do_load satp kind (wrapping_add64 (gpr_read rs1 (regs c)) (as_u64 imm)) p c = Some (r, c1) →
  match r with
  | Ok v => answered FlowNext (set_reg rd v c1)
  | Err _ => answered (FlowReturn (retired + 1) StepOk) (retire_fault (retired - flushed) c1)
  end.
Proof.
  intros Eo Hr Hr1 E. unfold emit_op, emit_load. rewrite Eo.
  pose proof (reads1 rs1 Hr1) as R. destruct (ra_read rs1 ra) as [[l1 o] ra1]. destruct R as (s1 & G & T1 & -> & _ & Ha & _).
  pose proof (target_is rd ra1) as Ht. pose proof (target_goes rd ra1 s1) as Hd.
  pose proof (load_access kind rd rs1 imm (pc_off i) (ra_writeback ra1) (retired - flushed) (retired + 1) ra1 satp c s1 r c1 T1) as A.
  destruct (ra_write_target rd ra1) as [[l d] ra2]. cbn in Ht, Hd, A. subst d.
  specialize (A ltac:(done) len32 Hr Ha E). pose proof (goes_app _ _ _ _ _ G Hd) as G2. destruct r as [v|].
  - destruct A as (s2 & Ea & T2). split; [done|]. exists s2. split; [|done]. eapply goes_app; [exact G2|]. by apply goes_stmt.
  - destruct A as (fr & Ea). exists fr, U64_MAX. split; [|by left]. eapply goes_ends; [exact G2|]. by apply ends_stmt.
Qed.

Lemma store_answers kind rs1 rs2 imm r c1 :
  op i = OpStore kind rs1 rs2 imm → reg_ok rs1 → reg_ok rs2 →
  do_store satp kind (wrapping_add64 (gpr_read rs1 (regs c)) (as_u64 imm)) (gpr_read rs2 (regs c)) p c = Some (r, c1) →
  match r with
  | Ok _ => answered FlowNext c1
  | Err _ => answered (FlowReturn (retired + 1) StepOk) (retire_fault (retired - flushed) c1)
  end.
Proof.
  intros Eo Hr1 Hr2 E. unfold emit_op, emit_store. rewrite Eo.
  pose proof (reads2 rs1 rs2 Hr1 Hr2) as R. destruct (ra_read rs1 ra) as [[l1 o1] ra1]. destruct (ra_read rs2 ra1) as [[l2 o2] ra2].
  destruct R as (s1 & G & T1 & -> & -> & _ & _ & Ha1 & Ha2 & _).
  pose proof (store_access kind rs1 rs2 imm (pc_off i) (ra_writeback ra2) (retired - flushed) (retired + 1) ra2 satp c s1 r c1 T1 ltac:(done) len32 Ha1 Ha2 E) as A.
  destruct r as [v|].
  - destruct A as (s2 & Ea & T2). split; [done|]. exists s2. split; [|done]. eapply goes_app; [exact G|]. by apply goes_stmt.
  - destruct A as (fr & Ea). exists fr, U64_MAX. split; [|by left]. eapply goes_ends; [exact G|]. by apply ends_stmt.
Qed.

Lemma sync_next_ok next target n (c' : Ctx) :
  next = U64_MAX ∨ next = target ∧ Z.shiftr next 12 = Z.shiftr entry 12 → ctx_satp c' = satp → next_ok next satp (sync target n c').
Proof. intros [->|[-> E]]; [by left | right]. by destruct c' as [[] [] ? ? ? ? ? ? ? ? ? ?]. Qed.

Lemma branch_answers kind rs1 rs2 offset :
  op i = OpBranch kind rs1 rs2 offset → reg_ok rs1 → reg_ok rs2 →
  if branch_taken kind (gpr_read rs1 (regs c)) (gpr_read rs2 (regs c))
  then answered (FlowReturn (retired + 1) StepOk) (sync (wrapping_add64 p (as_u64 offset)) (retired + 1 - flushed) c)
  else answered FlowNext c.
Proof.
  intros Eo Hr1 Hr2. unfold emit_op. rewrite Eo.
  pose proof (reads2 rs1 rs2 Hr1 Hr2) as R. destruct (ra_read rs1 ra) as [[l1 o1] ra1]. destruct (ra_read rs2 ra1) as [[l2 o2] ra2].
  destruct R as (s1 & G & T1 & -> & -> & Ev1 & Ev2 & _ & _ & _). rewrite app_assoc.
  destruct (branch_taken _ _ _) eqn:Eb.
  - eexists _, _. split; [|apply sync_next_ok; [apply (next_expr_ok (pc_off i) offset He) | done]].
    eapply goes_ends; [exact G|]. apply ends_stmt. cbn [exec_stmt]. unfold mbind at 1, ST_bind at 1. rewrite Ev1.
    unfold mbind at 1, ST_bind at 1. rewrite Ev2, Eb. by apply (leave_run ra2 satp c); [| |apply len32].
  - split; [done|]. exists s1. split; [|done]. eapply goes_app; [exact G|]. apply goes_stmt. cbn [exec_stmt]. unfold mbind at 1, ST_bind at 1. rewrite Ev1.
    unfold mbind at 1, ST_bind at 1. by rewrite Ev2, Eb.
Qed.

(** The statements that put the return address into [rd]. *)
Lemma link_goes rd ra1 s1 : tracks ra1 satp c s1 → reg_ok rd →
  let '(l, dst, ra2) := ra_write_target rd ra1 in
  ∃ s2, goes (l ++ match dst with Some r => [SLink r (pc_off i) (ilen i)] | None => [] end) s1 s2 ∧
    fr_target s2.1 = fr_target s1.1 ∧ tracks ra2 satp (set_reg rd (wrapping_add64 p (ilen i)) c) s2.
Proof.
  intros T1 Hr. pose proof (target_is rd ra1) as Ht. pose proof (target_goes rd ra1 s1) as Hd.
  destruct (assign_tracks rd (wrapping_add64 p (ilen i)) ra1 satp c s1 T1 len32 Hr) as (s2 & Ea & _ & T2).
  destruct (ra_write_target rd ra1) as [[l d] ra2]. cbn in Ht, Hd, T2. subst d.
  exists s2. unfold target_of in *. destruct (Z.eqb_spec rd 0); cbn in Ea.
  - injection Ea as <-. by rewrite app_nil_r.
  - split; [|split; [injection Ea as <-; by destruct s1 as [[] ?] | done]]. eapply goes_app; [exact Hd|]. apply goes_stmt. cbn [exec_stmt]. unfold pc_of.
    unfold mbind, ST_bind. by rewrite Ea.
Qed.

Lemma set_reg_len rd v : length (x (regs (set_reg rd v c))) = 32%nat.
Proof. unfold set_reg, gpr_write. cbn. case_if; [cbn; rewrite length_insert|]; apply len32. Qed.

Lemma jal_answers rd offset :
  op i = OpJal rd offset → reg_ok rd →
  answered (FlowReturn (retired + 1) StepOk) (sync (wrapping_add64 p (as_u64 offset)) (retired + 1 - flushed) (set_reg rd (wrapping_add64 p (ilen i)) c)).
Proof.
  intros Eo Hr. unfold emit_op. rewrite Eo. pose proof (link_goes rd ra s T Hr) as L.
  destruct (ra_write_target rd ra) as [[l d] ra2]. destruct L as (s2 & G & _ & T2). rewrite app_assoc.
  eexists _, _. split; [|apply sync_next_ok; [apply (next_expr_ok (pc_off i) offset He) | done]].
  eapply goes_ends; [exact G|]. apply ends_stmt. by apply (leave_run ra2 satp); [| |apply set_reg_len].
Qed.

Lemma jalr_answers rd rs1 imm :
  op i = OpJalr rd rs1 imm → reg_ok rd → reg_ok rs1 →
  answered (FlowReturn (retired + 1) StepOk)
    (sync (Z.land (wrapping_add64 (gpr_read rs1 (regs c)) (as_u64 imm)) (not64 1)) (retired + 1 - flushed) (set_reg rd (wrapping_add64 p (ilen i)) c)).
Proof.
  intros Eo Hr Hr1. unfold emit_op. rewrite Eo. set (target := Z.land _ _).
  pose proof (reads1 rs1 Hr1) as R. destruct (ra_read rs1 ra) as [[l1 o] ra1]. destruct R as (s1 & G & T1 & -> & Ev & _ & _).
  assert (Gt : goes [STarget (operand rs1) imm] s1 (s1.1 <| fr_target := target |>, s1.2)).
  { apply goes_stmt. cbn [exec_stmt]. unfold mbind at 1, ST_bind at 1. by rewrite Ev. }
  assert (T1' : tracks ra1 satp c (s1.1 <| fr_target := target |>, s1.2)) by (by destruct T1; split).
  pose proof (link_goes rd ra1 _ T1' Hr) as L. destruct (ra_write_target rd ra1) as [[l d] ra2]. destruct L as (s2 & G2 & Et & T2). cbn in Et.
  rewrite 2!app_assoc, <- (app_assoc (l1 ++ _)). rewrite (app_assoc l). rewrite app_assoc.
  exists s2.1, (if Z.shiftr target 12 =? Z.shiftr entry 12 then target else U64_MAX). split.
  - eapply goes_ends; [eapply goes_app; [eapply goes_app; [exact G | exact Gt] | exact G2]|]. apply ends_stmt. cbn [exec_stmt].
    unfold mbind at 1, ST_bind at 1, gets. rewrite Et. by apply (leave_run ra2 satp); [| |apply set_reg_len].
  - apply sync_next_ok; [|done]. destruct (Z.eqb_spec (Z.shiftr target 12) (Z.shiftr entry 12)); auto.
Qed.

Lemma reload_run rs fr (c1 : Ctx) : ∃ fr', reload_vars rs (fr, c1) = Some (tt, (fr', c1)) ∧
  ∀ r, r ∈ rs ∨ vars fr !! r = Some (gpr_read r (regs c1)) → vars fr' !! r = Some (gpr_read r (regs c1)).
Proof.
  revert fr. induction rs as [|q rs IH]; intros fr.
  - exists fr. split; [done|]. intros r [Hr|]; [by apply elem_of_nil in Hr | done].
  - cbn [reload_vars]. unfold on_ctx, read_reg, assign_var, mod_frame. run_st. cbn [fst snd].
    destruct (IH (fr <| vars := <[q := gpr_read q (regs c1)]> (vars fr) |>)) as (fr' & E & H). exists fr'. split; [exact E|]. intros r Hr. apply H. cbn.
    destruct (decide (q = r)) as [->|Hne]; [right; apply lookup_insert_eq|]. rewrite lookup_insert_ne by done. rewrite elem_of_cons in Hr. naive_solver.
Qed.

Lemma fallback_answers raw r c1 :
  op i = OpFallback raw → exec_raw raw p (sync p (retired - flushed) c) = Some (r, c1) → length (x (regs c1)) = 32%nat →
  smooth_fallback i p (retired - flushed) satp c →
  if negb (pc (regs c1) =? wrapping_add64 p (ilen i)) then answered (FlowReturn (retired + 1) r) c1 else answered (FlowContinue satp) c1.
Proof.
  intros Eo E Hl Hs. unfold emit_op. rewrite Eo. unfold smooth_fallback in Hs. rewrite Eo in Hs. specialize (Hs r c1 E). cbn [ra_reload].
  set (t := SFallback _ _ _ _ _ _ _).
  assert (Et : exec_stmt entry t s = (c ← gets snd;
      if negb (Gpr.pc (regs c) =? wrapping_add64 p (ilen i)) then mret (Some (retired + 1, U64_MAX))
      else reload_vars (declared ra);; mod_frame (fun f => f <| fr_satp := ctx_satp c |>);; mret None) (s.1, c1)).
  { destruct (tracks_ctx _ _ _ _ T) as (xs & Es). pose proof (write_back_run _ _ _ _ (ra_writeback ra) c T ltac:(done) len32 eq_refl xs Es) as Ew.
    destruct s as [fr h]. cbn in Es, Ew. subst h. unfold t. cbn [exec_stmt]. unfold mbind at 1, ST_bind at 1. rewrite Ew.
    unfold mbind at 1, ST_bind at 1. unfold mbind at 1, ST_bind at 1. unfold mbind at 1, ST_bind at 1. unfold on_ctx, zoom, set_pc, add_instret, mod_csr, modify. cbn [fst snd]. unfold pc_of.
    match goal with |- context [exec_raw raw p ?c2] => change c2 with (sync p (retired - flushed) c) end. by rewrite E. }
  destruct (Z.eqb_spec (pc (regs c1)) (wrapping_add64 p (ilen i))) as [Ep|Ep]; cbn [negb].
  - destruct (Hs Ep) as (_ & _ & Hsatp1). split; [done|]. destruct (reload_run (declared ra) s.1 c1) as (fr & Er & Hr).
    exists (fr <| fr_satp := ctx_satp c1 |>, c1). split.
    + apply goes_stmt. rewrite Et. unfold mbind at 1, ST_bind at 1, gets. cbn [snd]. rewrite Ep, Z.eqb_refl. cbn [negb].
      unfold mbind at 1, ST_bind at 1. by rewrite Er.
    + destruct T as [_ _ T3 T4 _]. split; cbn; [|auto | done | |done].
      * exists (x (regs c1)). split_and!; [by destruct c1 as [[] ? ? ? ? ? ? ? ? ? ? ?] | done | done].
      * intros q Hq. by apply elem_of_nil in Hq.
  - exists s.1, U64_MAX. split; [|by left]. apply ends_stmt. rewrite Et. unfold mbind at 1, ST_bind at 1, gets. cbn [snd].
    destruct (Z.eqb_spec (pc (regs c1)) (wrapping_add64 p (ilen i))); [done|]. done.
Qed.

Ltac block_read := unfold mbind at 1, ST_bind at 1; rewrite read_m_run by (done || tauto).
Ltac block_write := unfold mbind at 1, ST_bind at 1; rewrite (write_m_set _ _ _ c) by (done || tauto).

(** The statements for an operation answer the executor's step. *)
Lemma emit_op_sim flow c' :
  op_wf (op i) → smooth_fallback i p (retired - flushed) satp c → length (x (regs c')) = 32%nat →
  exec_op i p retired (retired - flushed) satp c = Some (flow, c') → answered flow c'.
Proof.
  assert (En : retired - flushed + 1 = retired + 1 - flushed) by lia.
  intros Ho Hs Hl E0. pose proof E0 as E. revert E. unfold exec_op. destruct (op i) as [rd imm|rd imm|k rd rs1 imm|k rd rs1 rs2|k rd rs1 imm|k rs1 rs2 imm|k rs1 rs2 off|rd off|rd rs1 imm|raw] eqn:Eo;
    cbn in Ho; destruct_and?.
  - block_write. intros [= <- <-]. by apply (lui_answers rd).
  - block_write. intros [= <- <-]. by apply auipc_answers.
  - block_read. block_write. intros [= <- <-]. by apply alu_imm_answers.
  - block_read. block_read. block_write. intros [= <- <-]. by apply alu_reg_answers.
  - intros _. apply (exec_load_inv _ _ _ _ _ _ _ _ _ _ _ _ Eo) in E0 as (r & c1 & E & Hf); [|by rewrite Eo | done].
    pose proof (load_answers _ _ _ _ _ _ Eo ltac:(done) ltac:(done) E) as A. destruct r; by destruct Hf as [-> ->].
  - intros _. apply (exec_store_inv _ _ _ _ _ _ _ _ _ _ _ _ Eo) in E0 as (r & c1 & E & Hf); [|by rewrite Eo | done].
    pose proof (store_answers _ _ _ _ _ _ Eo ltac:(done) ltac:(done) E) as A. destruct r; by destruct Hf as [-> ->].
  - block_read. block_read. pose proof (branch_answers _ _ _ _ Eo ltac:(done) ltac:(done)) as A. destruct (branch_taken _ _ _); [|by intros [= <- <-]].
    rewrite En. by intros [= <- <-].
  - block_write. rewrite En. intros [= <- <-]. by apply jal_answers.
  - block_read. cbv zeta. block_write. rewrite En. intros [= <- <-]. by apply jalr_answers.
  - unfold mbind at 1, ST_bind at 1. unfold mbind at 1, ST_bind at 1. unfold mbind at 1, ST_bind at 1. unfold set_pc, add_instret, mod_csr, modify. cbn [fst snd].
    match goal with |- context [exec_raw raw p ?c2] => change c2 with (sync p (retired - flushed) c) end.
    destruct (exec_raw raw p _) as [[r c1]|] eqn:E; [|done]. unfold mbind at 1, ST_bind at 1, st_get. cbv zeta. intros Ef.
    assert (c1 = c') as -> by (destruct (_ || is_waiting c1); [|destruct (negb _)]; by injection Ef). pose proof (fallback_answers raw r c' Eo E Hl Hs) as A.
    unfold smooth_fallback in Hs. rewrite Eo in Hs. specialize (Hs r c' E).
    destruct (Z.eqb_spec (pc (regs c')) (wrapping_add64 p (ilen i))) as [Ep|]; cbn [negb] in *.
    + destruct (Hs Ep) as (-> & Hw & Hp). rewrite bool_decide_eq_true_2, Hw, Hp, Z.eqb_refl in Ef by done. by injection Ef as <-.
    + rewrite orb_true_r in Ef. by injection Ef as <-.
Qed.
End Operation.

(** ** Groups of accesses *)

(** Within a span on one page, accesses are on the span's page. *)
Lemma span_same_page b lo hi imm n :
  is_u64 b → lo <= imm → imm + n - 1 <= hi → 1 <= n → hi - lo < 4096 →
  Z.shiftr (wrapping_add64 b (as_u64 lo)) 12 = Z.shiftr (wrapping_add64 b (as_u64 hi)) 12 →
  Z.shiftr (wrapping_add64 b (as_u64 imm)) 12 = Z.shiftr (wrapping_add64 b (as_u64 lo)) 12 ∧
  Z.land (wrapping_add64 b (as_u64 imm)) 0xfff + n <= 0x1000.
Proof.
  intros Hb Hlo Hhi Hn Hs. rewrite !add_imm. set (L := wrapping_add64 b lo). assert (HL : is_u64 L) by apply wrapping_add64_word.
  assert (Hrel : ∀ d, wrapping_add64 b d = wrapping_add64 L (d - lo)).
  { intros d. unfold L, wrapping_add64, as_u64. rewrite wrap_add_l. f_equal. lia. }
  rewrite (Hrel hi), (Hrel imm). unfold is_word in HL. change 0xfff with (Z.ones 12). rewrite Z.land_ones, !Z.shiftr_div_pow2 by lia. change (2 ^ 12) with 4096.
  pose proof (Z.div_mod L 4096 ltac:(lia)) as HD. pose proof (Z.mod_pos_bound L 4096 ltac:(lia)).
  assert (Hnw : L + (hi - lo) < 2 ^ 64 → wrapping_add64 L (hi - lo) = L + (hi - lo)) by (intros; apply wrap_id; unfold is_word; lia).
  intros Hp. assert (Hin : L mod 4096 + (hi - lo) < 4096 ∧ L + (hi - lo) < 2 ^ 64).
  { destruct (Z.lt_ge_cases (L + (hi - lo)) (2 ^ 64)) as [Hlt|Hge].
    - rewrite Hnw in Hp by done. split; [|done]. pose proof (Z.div_mod (L + (hi - lo)) 4096 ltac:(lia)). pose proof (Z.mod_pos_bound (L + (hi - lo)) 4096 ltac:(lia)). lia.
    - exfalso. assert (wrapping_add64 L (hi - lo) = L + (hi - lo) - 2 ^ 64) as E.
      { unfold wrapping_add64, as_u64, wrap. symmetry. apply (Z.mod_unique _ _ 1); lia. }
      rewrite E in Hp. rewrite (Z.div_small (_ - _)) in Hp by lia. lia. }
  destruct Hin as [Hin Hin2]. assert (wrapping_add64 L (imm - lo) = L + (imm - lo)) as -> by (apply wrap_id; unfold is_word; lia). split.
  - symmetry. apply (Z.div_unique _ _ _ (L mod 4096 + (imm - lo))); lia.
  - assert ((L + (imm - lo)) mod 4096 = L mod 4096 + (imm - lo)) as ->; [|lia]. symmetry. apply (Z.mod_unique _ _ (L / 4096)); lia.
Qed.

(** The page an access finds in the tables of host pages. *)
Definition page_for (store : bool) (satp va : Z) (c : Ctx) : option HostPtr :=
  if store then store_fast_lookup va satp (ram_epoch (bus c)) (code_generation (blocks c)) (mmu c)
  else load_fast_lookup va satp (ram_epoch (bus c)) (mmu c).

Lemma page_for_same store satp va va' c : Z.shiftr va 12 = Z.shiftr va' 12 → page_for store satp va c = page_for store satp va' c.
Proof. intros E. unfold page_for, load_fast_lookup, store_fast_lookup. by rewrite E. Qed.

Lemma span_page_for store satp lo hi (c : Ctx) :
  span_page store satp lo hi c = Some (if negb (Z.shiftr lo 12 =? Z.shiftr hi 12) then None else page_for store satp lo c, c).
Proof. unfold span_page, store_span_page, load_span_page, page_for. by destruct store, (negb _). Qed.

(** An access that finds the page does what the access through the page does. *)
Lemma load_through page satp k va p (c : Ctx) r c1 :
  page_for false satp va c = Some page → Z.land va 0xfff + Z.of_nat (load_kind_size k) <= 0x1000 →
  do_load satp k va p c = Some (r, c1) → ∃ v, r = Ok v ∧ c1 = c ∧ span_load page k va c = Some (v, c).
Proof.
  intros Hp Hf. unfold do_load. unfold mbind at 1, ST_bind at 1, st_get. cbv zeta. replace (_ <=? _) with true by (symmetry; lia).
  change (load_fast_lookup va satp (ram_epoch (bus c)) (mmu c)) with (page_for false satp va c). rewrite Hp.
  unfold span_load, on_bus, zoom, host_load. run_st. destruct (host_read _ _ _) as [v|]; [|done]. intros [= <- <-]. exists (extend_load k v).
  assert (c <| bus := bus c |> = c) as Ec by by destruct c. by rewrite Ec.
Qed.

Lemma store_through page satp k va v p (c : Ctx) r c1 :
  HostEpoch B → page_for true satp va c = Some page → Z.land va 0xfff + Z.of_nat (store_kind_size k) <= 0x1000 →
  do_store satp k va v p c = Some (r, c1) →
  r = Ok tt ∧ span_store page k va v c = Some (tt, c1) ∧ (∀ va', page_for true satp va' c1 = page_for true satp va' c).
Proof.
  intros Hk Hp Hf. unfold do_store. unfold mbind at 1, ST_bind at 1, st_get. cbv zeta. replace (_ <=? _) with true by (symmetry; lia).
  change (store_fast_lookup va satp (ram_epoch (bus c)) (code_generation (blocks c)) (mmu c)) with (page_for true satp va c). rewrite Hp.
  unfold span_store, on_bus, zoom, host_store. run_st. destruct (host_write _ _ _ _) as [[[] b]|] eqn:E; [|done]. intros [= <- <-].
  split_and!; [done | done|]. intros va'. unfold page_for. cbn. by rewrite (host_write_epoch _ _ _ _ _ E).
Qed.

Lemma framed_span_load page k va : framed (span_load page k va).
Proof. apply framed_bind; [apply framed_on_bus|]. intros. apply framed_ret. Qed.

Lemma framed_span_store page k va v : framed (span_store page k va v).
Proof. apply framed_on_bus. Qed.

(** What the members of a group have in common: the base register, a span that
    holds their addresses, and none but the last overwrites the base. *)
Definition member (base lo hi : Z) (m : DecodedInsn) : Prop :=
  ∃ l h store, access_info (op m) = Some (base, l, h, store) ∧ lo <= l ∧ h <= hi.

Fixpoint stable (base : Z) (last : Op) (l : list DecodedInsn) : Prop :=
  match l with [] => True | m :: l => loads_base base last = false ∧ stable base (op m) l end.

Lemma member_mono base lo hi lo' hi' m : lo' <= lo → hi <= hi' → member base lo hi m → member base lo' hi' m.
Proof. intros ? ? (l & h & st & E & ? & ?). exists l, h, st. split_and!; [done | lia | lia]. Qed.

Lemma access_info_range o base l h store : access_info o = Some (base, l, h, store) → 0 <= h - l < 8.
Proof. destruct o as [| | | |[]|[]| | | |]; cbn; intros [= <- <- <- <-]; lia. Qed.

Lemma extend_group_spec base l : ∀ last len lo hi n lo' hi',
  extend_group base last l len lo hi = (n, lo', hi') → hi - lo < 4096 →
  ∃ k, n = (len + k)%nat ∧ (k <= length l)%nat ∧ lo' <= lo ∧ hi <= hi' ∧ hi' - lo' < 4096 ∧
    Forall (member base lo' hi') (take k l) ∧ stable base last (take k l).
Proof.
  assert (Hstop : ∀ last len lo hi n lo' hi' l, (len, lo, hi) = (n, lo', hi') → hi - lo < 4096 → ∃ k, n = (len + k)%nat ∧ (k <= length l)%nat ∧ lo' <= lo ∧ hi <= hi' ∧ hi' - lo' < 4096 ∧
    Forall (member base lo' hi') (take k l) ∧ stable base last (take k l)).
  { intros last len lo hi n lo' hi' l0 [= <- <- <-] ?. exists 0%nat. rewrite take_0. split_and!; [lia | lia | lia | lia | lia | constructor | done]. }
  induction l as [|m l IH]; intros last len lo hi n lo' hi'; cbn [extend_group]; [case_if; apply Hstop|].
  destruct (loads_base base last) eqn:Eb; [apply Hstop|]. destruct (access_info (op m)) as [[[[b nlo] nhi] st]|] eqn:Ea; [|apply Hstop].
  destruct (Z.eqb_spec b base) as [->|]; cbn [negb]; [|apply Hstop]. destruct (Z.ltb_spec 4096 (Z.max hi nhi - Z.min lo nlo + 1)); [apply Hstop|].
  intros E Hs. apply IH in E as (k & -> & Hk & H1 & H2 & H3 & H4 & H5); [|lia]. exists (S k). cbn [take length]. split_and!; [lia..| |done].
  constructor; [|done]. exists nlo, nhi, st. split_and!; [done | lia | lia].
Qed.

Lemma detect_group_spec no_batch first rest len lo hi :
  detect_group no_batch (first :: rest) = Some (len, lo, hi) →
  ∃ base k, len = S k ∧ (1 <= k <= length rest)%nat ∧ hi - lo < 4096 ∧
    Forall (member base lo hi) (first :: take k rest) ∧ stable base (op first) (take k rest).
Proof.
  unfold detect_group. destruct no_batch; [done|]. destruct (access_info (op first)) as [[[[base l] h] st]|] eqn:Ea; [|done]. cbn [mbind option_bind].
  pose proof (access_info_range _ _ _ _ _ Ea). destruct (extend_group _ _ _ _ _ _) as [[n lo'] hi'] eqn:E. apply extend_group_spec in E as (k & -> & Hk & H1 & H2 & H3 & H4 & H5); [|lia].
  destruct (Nat.leb_spec 2 (1 + k)); [|done]. intros [= <- <- <-]. exists base, k. split_and!; [lia | lia | lia | lia| |done]. constructor; [|done]. exists l, h, st. split_and!; [done | lia | lia].
Qed.

(** The groups are all loads or all stores. *)
Definition alike (members : list DecodedInsn) : bool :=
  forallb (fun m => is_store (op m)) members || forallb (fun m => negb (is_store (op m))) members.

Fixpoint separate (no_batch : bool) (fuel : nat) (l : list DecodedInsn) : bool :=
  match fuel, l with
  | S fuel, _ :: rest =>
      match detect_group no_batch l with
      | Some (k, _, _) => alike (take k l) && separate no_batch fuel (drop k l)
      | None => separate no_batch fuel rest
      end
  | _, _ => true
  end.

(** Without grouping they are. *)
Lemma separate_ungrouped fuel l : separate true fuel l = true.
Proof. revert l. induction fuel as [|fuel IH]; intros [|i l]; cbn; done || apply IH. Qed.

Lemma alike_kind m members : alike (m :: members) = true →
  Forall (fun q => is_store (op q) = existsb (fun q => is_store (op q)) (m :: members)) (m :: members).
Proof.
  unfold alike. rewrite orb_true_iff, !List.forallb_forall. intros H. apply List.Forall_forall. intros q Hq.
  destruct (existsb _ _) eqn:E.
  - apply existsb_exists in E as (q' & Hq' & E). destruct H as [H|H]; [by apply H|]. specialize (H _ Hq'). by rewrite E in H.
  - destruct (is_store (op q)) eqn:Eq; [|done]. rewrite <- E. symmetry. apply existsb_exists. by exists q.
Qed.

(** *** The variables of a group *)

Definition member_regs (ra : RegAlloc) (m : DecodedInsn) : Prop :=
  match op m with
  | OpLoad _ rd _ _ => rd = 0 ∨ rd ∈ declared ra ∧ rd ∈ written_regs ra
  | OpStore _ _ rs2 _ => available rs2 ra
  | _ => False
  end.

(** More is declared and written. *)
Definition extends (ra ra' : RegAlloc) : Prop := (∀ r, r ∈ declared ra → r ∈ declared ra') ∧ (∀ r, r ∈ written_regs ra → r ∈ written_regs ra').

Lemma member_regs_mono ra ra' m : extends ra ra' → member_regs ra m → member_regs ra' m.
Proof. intros [Hd Hw]. unfold member_regs, available. destruct (op m); naive_solver. Qed.

Lemma read_extends r ra : extends ra (ra_read r ra).2.
Proof. unfold ra_read. case_if; [done|]. split; cbn; intros q Hq; [|done]. apply bt_insert_elem. auto. Qed.

Lemma target_extends r ra : extends ra (ra_write_target r ra).2.
Proof. unfold ra_write_target. case_if; [done|]. split; cbn; intros q Hq; apply bt_insert_elem; auto. Qed.

Lemma target_tracks r ra satp c s : r ∈ declared ra → tracks ra satp c s → tracks (ra_write_target r ra).2 satp c s.
Proof.
  intros Hr [(xs & E & Hl & Hx) T2 T3 T4 T5]. unfold ra_write_target. case_if; [by split; [exists xs|..]|]. split; cbn.
  - exists xs. split_and!; [done | done|]. intros q Hq. rewrite bt_insert_elem. intros Hn. apply Hx; tauto.
  - intros q. rewrite bt_insert_elem. intros [->|]; auto.
  - intros q. rewrite bt_insert_elem. intros [->|]; auto.
  - intros q. rewrite !bt_insert_elem. intros [->|]; auto.
  - done.
Qed.

Lemma group_regs_run base lo hi members satp c : ∀ ra s,
  Forall (member base lo hi) members → Forall insn_wf members → tracks ra satp c s → gpr_wf (regs c) →
  ∃ l ra' s', group_regs members ra = Some (l, ra') ∧ goes l s s' ∧ tracks ra' satp c s' ∧ extends ra ra' ∧ Forall (member_regs ra') members.
Proof.
  induction members as [|m members IH]; intros ra s Hm Hw T Hg.
  { exists [], ra, s. split_and!; [done | apply goes_nil | done | done | constructor]. }
  apply Forall_cons_1 in Hm as [(l0 & h0 & st & Ea & _) Hm]. apply Forall_cons_1 in Hw as [[Ho _] Hw]. cbn [group_regs].
  assert (Hone : ∃ l1 ra1 s1, match op m with
      | OpLoad _ rd _ _ => if rd =? 0 then Some ([], ra) else let '(s1, _, ra) := ra_read rd ra in let '(s2, _, ra) := ra_write_target rd ra in Some (s1 ++ s2, ra)
      | OpStore _ _ rs2 _ => let '(s1, _, ra) := ra_read rs2 ra in Some (s1, ra)
      | _ => None end = Some (l1, ra1) ∧ goes l1 s s1 ∧ tracks ra1 satp c s1 ∧ extends ra ra1 ∧ member_regs ra1 m).
  { unfold member_regs. destruct (op m) as [| | | |k rd rs1 imm|k rs1 rs2 imm| | | |]; try done; cbn in Ho; destruct_and?.
    - destruct (Z.eqb_spec rd 0) as [->|Hn]; [exists [], ra, s; split_and!; [done | apply goes_nil | done | done | auto]|].
      pose proof (read_goes rd ra satp c s T Hg ltac:(done)) as R. pose proof (read_extends rd ra) as E1. destruct (ra_read rd ra) as [[l1 o] ra1].
      destruct R as (s1 & G & T1 & _ & [|Hd] & _ & _); [done|]. pose proof (target_tracks rd ra1 satp c s1 Hd T1) as T2. pose proof (target_extends rd ra1) as E2. pose proof (target_goes rd ra1 s1) as G2.
      assert (rd ∈ written_regs (ra_write_target rd ra1).2) as Hwr by (unfold ra_write_target; case_if; [bools; done|]; cbn; apply bt_insert_elem; auto).
      destruct (ra_write_target rd ra1) as [[l2 d] ra2]. exists (l1 ++ l2), ra2, s1. cbn in *. split_and!; [done | by eapply goes_app | done | split; intros; apply E2, E1; done | right; split; [by apply E2 | done]].
    - pose proof (read_goes rs2 ra satp c s T Hg ltac:(done)) as R. pose proof (read_extends rs2 ra) as E1. destruct (ra_read rs2 ra) as [[l1 o] ra1].
      destruct R as (s1 & G & T1 & _ & Hav & _ & _). exists l1, ra1, s1. by split_and!. }
  destruct Hone as (l1 & ra1 & s1 & -> & G1 & T1 & E1 & M1). destruct (IH ra1 s1 Hm Hw T1 Hg) as (l2 & ra2 & s2 & E & G2 & T2 & E2 & M2).
  exists (l1 ++ l2), ra2, s2. cbn [mbind option_bind]. rewrite E. split_and!; [done | by eapply goes_app | done | split; intros; apply E2, E1; done|].
  constructor; [by eapply member_regs_mono | done].
Qed.

(** *** A member of a group *)

Section Member.
Context (base lo hi : Z) (m : DecodedInsn) (ra : RegAlloc) (retired flushed satp : Z) (c : Ctx) (s : St) (flow : OpFlow) (c' : Ctx).
Context (Hm : member base lo hi m) (Hi : insn_wf m) (Hr : member_regs ra m) (Hb : available base ra).
Context (T : tracks ra satp c s) (Hg : gpr_wf (regs c)).
Context (E : exec_op m (wrapping_add64 entry (pc_off m)) retired (retired - flushed) satp c = Some (flow, c')).

Lemma target_same rd q : rd = 0 ∨ rd ∈ declared ra ∧ rd ∈ written_regs ra →
  (q ∈ declared ra ↔ q ∈ declared (ra_write_target rd ra).2) ∧ (q ∈ written_regs ra ↔ q ∈ written_regs (ra_write_target rd ra).2).
Proof.
  intros H. unfold ra_write_target. destruct (Z.eqb_spec rd 0); [done|]. cbn. rewrite !bt_insert_elem. naive_solver.
Qed.

(** Access by access. *)
Lemma member_slow more :
  match flow with
  | FlowNext => ∃ s', tracks ra satp c' s' ∧
      exec_accesses entry (group_slow (operand base) (m :: more) (ra_writeback ra) retired flushed) s
      = exec_accesses entry (group_slow (operand base) more (ra_writeback ra) (retired + 1) flushed) s'
  | FlowReturn n _ => ∃ fr, exec_accesses entry (group_slow (operand base) (m :: more) (ra_writeback ra) retired flushed) s = Some (Some (n, U64_MAX), (fr, c'))
  | FlowContinue _ => False
  end.
Proof.
  destruct Hm as (l & h & st & Ea & _). destruct Hi as [Ho _]. unfold member_regs in Hr. cbn [group_slow].
  destruct (op m) as [| | | |k rd rs1 imm|k rs1 rs2 imm| | | |] eqn:Eo; try done; cbn in Ea; injection Ea as <- <- <- <-.
  - apply (exec_load_inv _ _ _ _ _ _ _ _ _ _ _ _ Eo) in E as (r & c1 & Ed & H); [|by rewrite Eo | done].
    pose proof (load_access k rd rs1 imm (pc_off m) (ra_writeback ra) (retired - flushed) (retired + 1) ra satp c s r c1 T ltac:(done) ltac:(apply Hg) ltac:(apply Ho) Hb Ed) as A.
    cbn [app exec_accesses]. unfold mbind, ST_bind. destruct r as [v|]; destruct H as [-> ->].
    + destruct A as (s' & -> & T'). exists s'. split; [|done]. eapply tracks_same; [intros q; apply (target_same rd q Hr)..|]. done.
    + destruct A as (fr & ->). by exists fr.
  - apply (exec_store_inv _ _ _ _ _ _ _ _ _ _ _ _ Eo) in E as (r & c1 & Ed & H); [|by rewrite Eo | done].
    pose proof (store_access k rs1 rs2 imm (pc_off m) (ra_writeback ra) (retired - flushed) (retired + 1) ra satp c s r c1 T ltac:(done) ltac:(apply Hg) Hb Hr Ed) as A.
    cbn [app exec_accesses]. unfold mbind, ST_bind. destruct r as [v|]; destruct H as [-> ->].
    + destruct A as (s' & -> & T'). by exists s'.
    + destruct A as (fr & ->). by exists fr.
Qed.

(** Through the page of the group. *)
Lemma member_fast {HE : HostEpoch B} page store :
  is_store (op m) = store → hi - lo < 4096 →
  Z.shiftr (wrapping_add64 (gpr_read base (regs c)) (as_u64 lo)) 12 = Z.shiftr (wrapping_add64 (gpr_read base (regs c)) (as_u64 hi)) 12 →
  page_for store satp (wrapping_add64 (gpr_read base (regs c)) (as_u64 lo)) c = Some page →
  flow = FlowNext ∧ (∃ s', exec_spans page (group_fast (operand base) m) s = Some (tt, s') ∧ tracks ra satp c' s') ∧
  (∀ va, page_for store satp va c' = page_for store satp va c) ∧
  (loads_base base (op m) = false → gpr_read base (regs c') = gpr_read base (regs c)).
Proof.
  intros Est Hspan Hpage Hp. destruct Hm as (l & h & st & Ea & Hl & Hh). destruct Hi as [Ho _]. unfold member_regs in Hr. unfold group_fast.
  destruct (tracks_ctx _ _ _ _ T) as (xs & Es).
  assert (Hbase : is_u64 (gpr_read base (regs c))) by (apply gpr_read_word; done).
  destruct (op m) as [| | | |k rd rs1 imm|k rs1 rs2 imm| | | |] eqn:Eo; try done; cbn in Ea; injection Ea as <- <- <- <-; cbn in Est; subst store.
  - apply (exec_load_inv _ _ _ _ _ _ _ _ _ _ _ _ Eo) in E as (r & c1 & Ed & H); [|by rewrite Eo | done].
    destruct (span_same_page _ lo hi imm (Z.of_nat (load_kind_size k)) Hbase) as [H1 H2]; [lia | destruct k; cbn in *; lia | destruct k; cbn; lia | done | done|].
    rewrite (page_for_same _ _ _ _ _ (eq_sym H1)) in Hp.
    destruct (load_through page satp k _ _ c r c1 Hp H2 Ed) as (v & -> & -> & Esp). destruct H as [-> ->]. split; [done|].
    destruct (assign_tracks rd v ra satp c s T ltac:(apply Hg) ltac:(apply Ho)) as (s' & Eas & _ & T'). split; [|split].
    + exists s'. split; [|eapply tracks_same; [intros q; apply (target_same rd q Hr)..|]; done].
      cbn [exec_spans]. unfold exec_span. unfold mbind at 1, ST_bind at 1. unfold mbind at 1, ST_bind at 1. rewrite (var_run _ _ _ _ _ T Hb).
      unfold mbind at 1, ST_bind at 1. unfold on_ctx, zoom. rewrite Es, framed_span_load, Esp. rewrite <- Es, <- surjective_pairing. by rewrite Eas.
    + intros va. unfold page_for, set_reg. done.
    + cbn. intros Hn. unfold gpr_read, set_reg, gpr_write. cbn. destruct (Z.eqb_spec rd 0); [done|]. cbn. destruct (Z.eqb_spec rs1 0); [done|].
      destruct Ho as [Hrd Hrs]. unfold reg_ok in *. rewrite list_lookup_total_insert_ne; [done|]. intros Eq. cbn in Hn. destruct (Z.eqb_spec rd rs1); [done|]. lia.
  - apply (exec_store_inv _ _ _ _ _ _ _ _ _ _ _ _ Eo) in E as (r & c1 & Ed & H); [|by rewrite Eo | done].
    destruct (span_same_page _ lo hi imm (Z.of_nat (store_kind_size k)) Hbase) as [H1 H2]; [lia | destruct k; cbn in *; lia | destruct k; cbn; lia | done | done|].
    rewrite (page_for_same _ _ _ _ _ (eq_sym H1)) in Hp.
    destruct (store_through page satp k _ _ _ c r c1 HE Hp H2 Ed) as (-> & Esp & Hpg). destruct H as [-> ->]. split; [done|].
    pose proof (framed_regs _ _ _ _ (framed_store _ _ _ _ _) Ed) as Hx1. split; [|split].
    + exists (s.1, with_x xs c1). split; [|by apply (tracks_load _ _ c c1 s)].
      cbn [exec_spans]. unfold exec_span. unfold mbind at 1, ST_bind at 1. unfold mbind at 1, ST_bind at 1. rewrite (var_run _ _ _ _ _ T Hb).
      unfold mbind at 1, ST_bind at 1. rewrite (var_run _ _ _ _ _ T Hr). unfold on_ctx, zoom. by rewrite Es, framed_span_store, Esp.
    + done.
    + intros _. unfold gpr_read. by rewrite Hx1.
Qed.
End Member.

(** ** Whole blocks *)

(** No operation left to the interpreter makes the executor stop though the pc is
    the next instruction's. *)
Fixpoint smooth (l : list DecodedInsn) (retired pending satp : Z) (c : Ctx) : Prop :=
  match l with
  | [] => True
  | i :: l =>
      let p := wrapping_add64 entry (pc_off i) in
      smooth_fallback i p pending satp c ∧
      ∀ flow c1, exec_op i p retired pending satp c = Some (flow, c1) →
        match flow with
        | FlowNext => smooth l (retired + 1) (pending + 1) satp c1
        | FlowContinue satp => smooth l (retired + 1) 0 satp c1
        | FlowReturn _ _ => True
        end
  end.

(** Operations that do not leave the block keep the page tables. *)
Lemma load_keeps_csr satp k va p (c : Ctx) v c1 : do_load satp k va p c = Some (Ok v, c1) → csr c1 = csr c ∧ priv_mode c1 = priv_mode c.
Proof.
  assert (Hslow : do_load_slow satp k va (load_kind_size k) p c = Some (Ok v, c1) → csr c1 = csr c ∧ priv_mode c1 = priv_mode c).
  { unfold do_load_slow, on_mmu, zoom. run_st. destruct (raw_load _ _ _ _) as [[[raw|fault] [m b]]|]; [by intros [= _ <-] | |done].
    unfold mbind, ST_bind. by destruct (block_fault _ _ _) as [[? ?]|]. }
  unfold do_load. unfold mbind at 1, ST_bind at 1, st_get. cbv zeta. destruct (_ <=? _); [destruct (load_fast_lookup _ _ _ _)|]; [|exact Hslow..].
  unfold on_bus, zoom. run_st. destruct (host_load _ _ _ _) as [[? ?]|]; [|done]. by intros [= _ <-].
Qed.

Lemma store_keeps_csr satp k va v p (c : Ctx) u c1 : do_store satp k va v p c = Some (Ok u, c1) → csr c1 = csr c ∧ priv_mode c1 = priv_mode c.
Proof.
  assert (Hslow : do_store_slow satp va v (store_kind_size k) p c = Some (Ok u, c1) → csr c1 = csr c ∧ priv_mode c1 = priv_mode c).
  { unfold do_store_slow, on_store, zoom. run_st. destruct (raw_store _ _ _ _ _) as [[[raw|fault] [[m b] k']]|]; [by intros [= _ <-] | |done].
    unfold mbind, ST_bind. by destruct (block_fault _ _ _) as [[? ?]|]. }
  unfold do_store. unfold mbind at 1, ST_bind at 1, st_get. cbv zeta. destruct (_ <=? _); [destruct (store_fast_lookup _ _ _ _ _)|]; [|exact Hslow..].
  unfold on_bus, zoom. run_st. destruct (host_store _ _ _ _ _) as [[? ?]|]; [|done]. by intros [= _ <-].
Qed.

Lemma exec_op_satp i p retired pending satp (c : Ctx) flow c1 :
  op_wf (op i) → gpr_wf (regs c) → ctx_satp c = satp → exec_op i p retired pending satp c = Some (flow, c1) →
  match flow with
  | FlowNext => ctx_satp c1 = satp
  | FlowContinue satp' => satp' = satp ∧ ctx_satp c1 = satp
  | FlowReturn _ _ => True
  end.
Proof.
  intros Ho Hg Hs E0. pose proof E0 as E. revert E. unfold exec_op. destruct (op i) as [rd imm|rd imm|k rd rs1 imm|k rd rs1 rs2|k rd rs1 imm|k rs1 rs2 imm|k rs1 rs2 off|rd off|rd rs1 imm|raw] eqn:Eo.
  1-4: unfold write_m, read_m; run_st; by intros [= <- <-].
  - intros _. apply (exec_load_inv _ _ _ _ _ _ _ _ _ _ _ _ Eo) in E0 as (r & c2 & E & Hf); [|by rewrite Eo | done]. destruct r as [v|]; destruct Hf as [-> ->]; [|done].
    apply load_keeps_csr in E as [E1 E2]. unfold ctx_satp in *. cbn. by rewrite E1, E2.
  - intros _. apply (exec_store_inv _ _ _ _ _ _ _ _ _ _ _ _ Eo) in E0 as (r & c2 & E & Hf); [|by rewrite Eo | done]. destruct r as [v|]; destruct Hf as [-> ->]; [|done].
    apply store_keeps_csr in E as [E1 E2]. unfold ctx_satp in *. by rewrite E1, E2.
  - unfold read_m. run_st. case_if; by intros [= <- <-].
  - unfold write_m. run_st. by intros [= <- <-].
  - unfold write_m, read_m. run_st. by intros [= <- <-].
  - unfold mbind at 1, ST_bind at 1. unfold mbind at 1, ST_bind at 1. unfold mbind at 1, ST_bind at 1. unfold set_pc, add_instret, mod_csr, modify. cbn [fst snd].
    destruct (exec_raw _ _ _) as [[r c2]|]; [|done]. unfold mbind at 1, ST_bind at 1, st_get. cbv zeta. destruct (_ || is_waiting c2); [by intros [= <- <-]|].
    destruct (Z.eqb_spec (ctx_satp c2) satp) as [E|]; by intros [= <- <-].
Qed.

Section Blocks.
Context {D : Prop} {BL : BusLaws B D} {HE : HostEpoch B}.
Context (He : is_u64 entry) (Hev : even entry) (len n : Z) (res : StepResult) (c' : Ctx).

(** The executor is at [l] and is going to finish. *)
Record running (l : list DecodedInsn) (retired flushed satp : Z) (c : Ctx) : Prop := {
  rn_wf : ctx_wf c;
  rn_satp : ctx_satp c = satp;
  rn_smooth : smooth l retired (retired - flushed) satp c;
  rn_run : exec_ops l entry len retired (retired - flushed) satp c = Some ((n, res), c')
}.

Lemma running_cons i l retired flushed satp c : running (i :: l) retired flushed satp c → insn_wf i →
  let p := wrapping_add64 entry (pc_off i) in
  ∃ flow c1, exec_op i p retired (retired - flushed) satp c = Some (flow, c1) ∧ smooth_fallback i p (retired - flushed) satp c ∧ ctx_wf c1 ∧
    match flow with
    | FlowNext => running l (retired + 1) flushed satp c1
    | FlowContinue satp' => satp' = satp ∧ running l (retired + 1) (retired + 1) satp c1
    | FlowReturn m _ => m = n ∧ c1 = c'
    end.
Proof.
  intros [Hc Hsatp [Hs1 Hs2] E] Hi. cbv zeta. cbn [exec_ops] in E. cbv zeta in E. unfold mbind at 1, ST_bind at 1 in E.
  destruct (exec_op i _ retired (retired - flushed) satp c) as [[flow c1]|] eqn:Eo; [|done].
  assert (Hp : even (wrapping_add64 entry (pc_off i))) by (apply even_wrap; [lia|]; by apply even_add; [|apply Hi]).
  pose proof (wp_elim _ _ _ _ _ (exec_op_keeps i _ retired (retired - flushed) satp Hi (wrapping_add64_word _ _) Hp c Hc) Eo) as [_ Hc1].
  specialize (Hs2 _ _ eq_refl). exists flow, c1. split_and!; [done | done | done|].
  pose proof (exec_op_satp _ _ _ _ _ _ _ _ (proj1 Hi) (cx_regs _ Hc) Hsatp Eo) as Hsatp1. destruct flow as [|satp'|m r].
  - split; [done | done|..]; by replace (retired + 1 - flushed) with (retired - flushed + 1) by lia.
  - destruct Hsatp1 as [-> Hsatp1]. split; [done|]. split; [done | done|..]; by replace (retired + 1 - (retired + 1)) with 0 by lia.
  - by injection E as -> _ ->.
Qed.

(** What the executor and the statements have after [k] operations of a group. *)
Definition arrives (ra : RegAlloc) (rest : list DecodedInsn) (k retired flushed satp : Z) (s' : St) : Prop :=
  ∃ c1, tracks ra satp c1 s' ∧ running rest (retired + k) flushed satp c1.

Lemma group_slow_sim base lo hi ra satp rest members : ∀ retired flushed c s,
  Forall (member base lo hi) members → Forall insn_wf members → Forall (member_regs ra) members → available base ra →
  tracks ra satp c s → running (members ++ rest) retired flushed satp c →
  let slow := group_slow (operand base) members (ra_writeback ra) retired flushed in
  (∃ s', exec_accesses entry slow s = Some (None, s') ∧ arrives ra rest (Z.of_nat (length members)) retired flushed satp s') ∨
  (∃ fr, exec_accesses entry slow s = Some (Some (n, U64_MAX), (fr, c'))).
Proof.
  induction members as [|m members IH]; intros retired flushed c s Hm Hi Hr Hb T R.
  { left. exists s. split; [done|]. exists c. split; [done|]. by rewrite Z.add_0_r. }
  apply Forall_cons_1 in Hm as [Hm Hms], Hi as [Hi His], Hr as [Hr Hrs].
  pose proof (cx_regs _ (rn_wf _ _ _ _ _ R)) as Hg. destruct (running_cons m (members ++ rest) _ _ _ _ R Hi) as (flow & c1 & E & _ & _ & Hf).
  pose proof (member_slow base lo hi m ra retired flushed satp c s flow c1 Hm Hi Hr Hb T Hg E members) as A. cbv zeta. destruct flow as [|satp'|m' r'].
  - destruct A as (s1 & T1 & ->). destruct (IH _ _ _ _ Hms His Hrs Hb T1 Hf) as [(s' & E1 & c2 & T2 & R2)|?]; [left | by right].
    exists s'. split; [done|]. exists c2. split; [done|]. cbn [length]. by replace (retired + Z.of_nat (S (length members))) with (retired + 1 + Z.of_nat (length members)) by lia.
  - done.
  - destruct Hf as [-> ->]. by right.
Qed.

Lemma exec_spans_app page l1 l2 s s1 : exec_spans page l1 s = Some (tt, s1) → exec_spans page (l1 ++ l2) s = exec_spans page l2 s1.
Proof.
  revert s. induction l1 as [|a l1 IH]; intros s; cbn; [by intros [= <-]|]. unfold mbind, ST_bind. destruct (exec_span page a s) as [[[] s2]|]; [apply IH | done].
Qed.

Lemma group_fast_sim base lo hi ra satp page store rest members : ∀ last retired flushed c s,
  Forall (member base lo hi) members → Forall insn_wf members → Forall (member_regs ra) members → available base ra →
  Forall (fun m => is_store (op m) = store) members → hi - lo < 4096 →
  match members with [] => True | m :: l => last = op m ∧ stable base last l end →
  tracks ra satp c s → running (members ++ rest) retired flushed satp c →
  (members ≠ [] → Z.shiftr (wrapping_add64 (gpr_read base (regs c)) (as_u64 lo)) 12 = Z.shiftr (wrapping_add64 (gpr_read base (regs c)) (as_u64 hi)) 12 ∧
   page_for store satp (wrapping_add64 (gpr_read base (regs c)) (as_u64 lo)) c = Some page) →
  ∃ s', exec_spans page (concat (map (group_fast (operand base)) members)) s = Some (tt, s') ∧
    arrives ra rest (Z.of_nat (length members)) retired flushed satp s'.
Proof.
  induction members as [|m members IH]; intros last retired flushed c s Hm Hi Hr Hb Hst Hspan Hstable T R Hp.
  { exists s. split; [done|]. exists c. split; [done|]. by rewrite Z.add_0_r. }
  apply Forall_cons_1 in Hm as [Hm Hms], Hi as [Hi His], Hr as [Hr Hrs], Hst as [Hst Hsts]. destruct Hstable as [-> Hstable]. destruct (Hp ltac:(done)) as [Hp1 Hp2].
  pose proof (cx_regs _ (rn_wf _ _ _ _ _ R)) as Hg. destruct (running_cons m (members ++ rest) _ _ _ _ R Hi) as (flow & c1 & E & _ & _ & Hf).
  destruct (member_fast base lo hi m ra retired flushed satp c s flow c1 Hm Hi Hr Hb T Hg E page store Hst Hspan Hp1 Hp2) as (-> & (s1 & E1 & T1) & Hpg & Hbase).
  cbn [map concat]. rewrite (exec_spans_app _ _ _ _ _ E1).
  destruct (IH (match members with [] => op m | m' :: _ => op m' end) (retired + 1) flushed c1 s1) as (s' & E2 & c2 & T2 & R2); [done..| | done | done | |].
  - destruct members as [|m' members]; [done|]. by destruct Hstable.
  - intros Hne. destruct members as [|m' members]; [done|]. destruct Hstable as [Hn _]. by rewrite Hbase, Hpg by done.
  - exists s'. split; [done|]. exists c2. split; [done|]. cbn [length]. by replace (retired + Z.of_nat (S (length members))) with (retired + 1 + Z.of_nat (length members)) by lia.
Qed.

(** A group, through the page or access by access. *)
Lemma emit_group_sim base lo hi ra satp rest first more retired flushed c s :
  let members := first :: more in
  Forall (member base lo hi) members → Forall insn_wf members → alike members = true → hi - lo < 4096 → stable base (op first) more →
  tracks ra satp c s → running (members ++ rest) retired flushed satp c →
  ∃ l ra', emit_group members lo hi retired flushed ra = Some (l, ra') ∧
    ((∃ s', goes l s s' ∧ arrives ra' rest (Z.of_nat (length members)) retired flushed satp s') ∨ (∃ fr, ends l s (n, U64_MAX) (fr, c'))).
Proof.
  cbv zeta. intros Hm Hi Ha Hspan Hstable T R. pose proof (cx_regs _ (rn_wf _ _ _ _ _ R)) as Hg.
  pose proof (alike_kind _ _ Ha) as Hk. set (store := existsb _ _) in Hk.
  assert (Hbase : reg_ok base ∧ ∃ l h st, access_info (op first) = Some (base, l, h, st)).
  { pose proof (Forall_inv Hm) as (l & h & st & E & _). split; [|by exists l, h, st]. pose proof (Forall_inv Hi) as [Ho _].
    destruct (op first); try done; cbn in E; injection E as <- _ _ _; apply Ho. }
  destruct Hbase as [Hbase (l0 & h0 & st0 & Ea)]. unfold emit_group. rewrite Ea. cbn [mbind option_bind].
  pose proof (read_goes base ra satp c s T Hg Hbase) as Rd. destruct (ra_read base ra) as [[l1 o] ra1]. destruct Rd as (s1 & G1 & T1 & -> & Hb & _ & _).
  destruct (group_regs_run base lo hi (first :: more) satp c ra1 s1 Hm Hi T1 Hg) as (l2 & ra2 & s2 & -> & G2 & T2 & Hext & Hr). cbn [mbind option_bind]. fold store.
  assert (Hb2 : available base ra2) by (destruct Hb as [|Hb]; [by left | right; by apply Hext]).
  eexists _, ra2. split; [done|]. rewrite app_assoc. pose proof (goes_app _ _ _ _ _ G1 G2) as G. set (t := SGroup _ _ _ _ _ _).
  set (b := gpr_read base (regs c)).
  assert (Et : exec_stmt entry t s2 = match (if negb (Z.shiftr (wrapping_add64 b (as_u64 lo)) 12 =? Z.shiftr (wrapping_add64 b (as_u64 hi)) 12) then None
        else page_for store satp (wrapping_add64 b (as_u64 lo)) c) with
      | Some page => (exec_spans page (concat (map (group_fast (operand base)) (first :: more)));; mret None) s2
      | None => exec_accesses entry (group_slow (operand base) (first :: more) (ra_writeback ra2) retired flushed) s2
      end).
  { destruct (tracks_ctx _ _ _ _ T2) as (xs & Es). unfold t. cbn [exec_stmt]. unfold mbind at 1, ST_bind at 1. rewrite (var_run _ _ _ _ _ T2 Hb2).
    unfold mbind at 1, ST_bind at 1, gets. unfold mbind at 1, ST_bind at 1. rewrite (tk_satp _ _ _ _ T2). fold b. clear - Es. destruct s2 as [fr h]. cbn in Es. subst h.
    unfold on_ctx at 1, zoom at 1. cbn [fst snd]. rewrite span_page_for.
    assert (Ep : ∀ va, page_for store satp va (with_x xs c) = page_for store satp va c) by by destruct store. rewrite Ep. by destruct (if negb _ then _ else _). }
  destruct (if negb (Z.shiftr _ 12 =? _) then _ else _) as [page|] eqn:Epage.
  - destruct (Z.eqb_spec (Z.shiftr (wrapping_add64 b (as_u64 lo)) 12) (Z.shiftr (wrapping_add64 b (as_u64 hi)) 12)) as [Esame|]; [|done]. cbn [negb] in Epage.
    destruct (group_fast_sim base lo hi ra2 satp page store rest (first :: more) (op first) retired flushed c s2) as (s' & E & A); [done..|].
    left. exists s'. split; [|done]. eapply goes_app; [exact G|]. apply goes_stmt. rewrite Et. unfold mbind, ST_bind. by rewrite E.
  - destruct (group_slow_sim base lo hi ra2 satp rest (first :: more) retired flushed c s2) as [(s' & E & A)|(fr & E)]; [done..| |].
    + left. exists s'. split; [|done]. eapply goes_app; [exact G|]. apply goes_stmt. by rewrite Et.
    + right. exists fr. eapply goes_ends; [exact G|]. apply ends_stmt. by rewrite Et.
Qed.

Lemma emit_loop_sim no_batch : ∀ fuel fuel' l i retired flushed satp ra c s body,
  (length l < fuel)%nat → (length l <= fuel')%nat → Forall insn_wf l → separate no_batch fuel' l = true → tracks ra satp c s → running l retired flushed satp c →
  emit_loop fuel no_batch [] (Z.land entry 0xfff) len i l retired flushed ra = Some body →
  ∃ next fr, exec_stmts entry body s = Some ((n, next), (fr, c')) ∧ next_ok next satp c'.
Proof.
  induction fuel as [|fuel IH]; intros fuel' l i retired flushed satp ra c s body Hfuel Hfuel' Hi Hs T R; [lia|]. cbn [emit_loop]. destruct l as [|m l].
  { intros [= <-]. eexists _, s.1. destruct R as [Hc Hsatp _ E]. cbn [exec_ops] in E. rewrite sync_first in E. injection E as <- <- <-. split.
    - cbn [exec_stmts exec_stmt]. unfold mbind, ST_bind. by rewrite (leave_run ra satp c) by (done || apply (cx_regs _ Hc)).
    - pose proof (next_expr_ok len 0 He) as Hn. cbv zeta in Hn. change (as_u64 0) with 0 in Hn. rewrite add_zero in Hn by apply wrapping_add64_word. by apply sync_next_ok. }
  destruct fuel' as [|fuel']; cbn [length] in *; [lia|]. cbn [separate] in Hs. destruct (detect_group no_batch (m :: l)) as [[[k lo] hi]|] eqn:Eg.
  - apply detect_group_spec in Eg as (base & k' & -> & Hk & Hspan & Hm & Hstable). cbn [take drop] in *. apply andb_true_iff in Hs as [Ha Hs].
    assert (El : m :: l = (m :: take k' l) ++ drop k' l) by (cbn; by rewrite take_drop). rewrite El in R, Hi. apply Forall_app in Hi as [Hi1 Hi2].
    destruct (emit_group_sim base lo hi ra satp _ _ _ _ _ _ _ Hm Hi1 Ha Hspan Hstable T R) as (l1 & ra1 & -> & A). cbn [mbind option_bind].
    assert (Hlen : length (m :: take k' l) = S k') by (cbn; rewrite length_take; lia). rewrite Hlen in A.
    destruct (emit_loop fuel _ _ _ _ _ _ _ _ ra1) as [more|] eqn:Emore; [|done]. intros [= <-]. destruct A as [(s' & G & c1 & T1 & R1)|(fr & G)].
    + rewrite G. eapply (IH fuel'); [..|exact Emore]; [rewrite length_drop; lia..|done | done | done | done].
    + exists U64_MAX, fr. split; [apply G | by left].
  - assert (cgroup_of [] i = None) as -> by done. apply Forall_cons_1 in Hi as [Hi His]. destruct (running_cons _ _ _ _ _ _ R Hi) as (flow & c1 & E & Hsm & Hc1 & Hf).
    pose proof (cx_regs _ (rn_wf _ _ _ _ _ R)) as Hg.
    pose proof (emit_op_sim He m retired flushed satp ra c s T Hg (rn_satp _ _ _ _ _ R) flow c1 ltac:(apply Hi) Hsm ltac:(apply (cx_regs _ Hc1)) E) as A.
    destruct (emit_op _ m retired flushed ra) as [[l1 ra1] flushed1]. destruct (emit_loop fuel _ _ _ _ _ _ _ _ ra1) as [more|] eqn:Emore; [|done].
    intros [= <-]. destruct flow as [|satp'|m' r']; cbn [answers_op] in A.
    + destruct A as (-> & s' & G & T1). rewrite G. eapply (IH fuel'); [..|exact Emore]; [lia | lia | done..].
    + destruct Hf as [-> Hf], A as (-> & s' & G & T1). rewrite G. eapply (IH fuel'); [..|exact Emore]; [lia | lia | done..].
    + destruct A as (fr & next & G & Hn), Hf as [-> ->]. exists next, fr. split; [apply G | done].
Qed.

(** Writing the function never fails where no groups are kept across operations. *)
Lemma group_regs_total base lo hi members : ∀ ra, Forall (member base lo hi) members → ∃ r, group_regs members ra = Some r.
Proof.
  induction members as [|m members IH]; intros ra Hm; [by eexists|]. apply Forall_cons_1 in Hm as [(l0 & h0 & st & Ea & _) Hm]. cbn [group_regs].
  destruct (op m) as [| | | |k rd rs1 imm|k rs1 rs2 imm| | | |]; try done.
  - case_if; cbn [mbind option_bind]; [destruct (IH ra Hm) as ([? ?] & ->); by eexists|].
    destruct (ra_read rd ra) as [[? ?] ra1], (ra_write_target rd ra1) as [[? ?] ra2]. cbn [mbind option_bind]. destruct (IH ra2 Hm) as ([? ?] & ->). by eexists.
  - destruct (ra_read rs2 ra) as [[? ?] ra1]. cbn [mbind option_bind]. destruct (IH ra1 Hm) as ([? ?] & ->). by eexists.
Qed.

Lemma emit_loop_total no_batch page_off : ∀ fuel l i retired flushed ra,
  (length l < fuel)%nat → ∃ body, emit_loop fuel no_batch [] page_off len i l retired flushed ra = Some body.
Proof.
  induction fuel as [|fuel IH]; intros l i retired flushed ra Hl; [lia|]. cbn [emit_loop]. destruct l as [|m l]; [by eexists|]. cbn [length] in Hl.
  destruct (detect_group no_batch (m :: l)) as [[[k lo] hi]|] eqn:Eg.
  - apply detect_group_spec in Eg as (base & k' & -> & Hk & _ & Hm & _). cbn [take drop emit_group]. pose proof (Forall_inv Hm) as (l0 & h0 & st & -> & _). cbn [mbind option_bind].
    destruct (ra_read base ra) as [[? ?] ra1]. destruct (group_regs_total base lo hi (m :: take k' l) ra1 Hm) as ([? ra2] & ->). cbn [mbind option_bind].
    destruct (IH (drop k' l) (i + S k')%nat (retired + Z.of_nat (S k')) flushed ra2) as (body & ->); [rewrite length_drop; lia|]. by eexists.
  - assert (cgroup_of [] i = None) as -> by done. destruct (emit_op page_off m retired flushed ra) as [[? ra1] fl].
    destruct (IH l (S i) (retired + 1) fl ra1) as (body & ->); [lia|]. by eexists.
Qed.
End Blocks.

(** Without operations left to the interpreter, all is smooth. *)
Lemma smooth_plain l : ∀ retired pending satp c, Forall (fun i => match op i with OpFallback _ => False | _ => True end) l → smooth l retired pending satp c.
Proof.
  induction l as [|i l IH]; intros retired pending satp c Hl; [done|]. apply Forall_cons_1 in Hl as [Hi Hl]. cbn [smooth]. cbv zeta. split.
  - unfold smooth_fallback. by destruct (op i).
  - intros flow c1 _. destruct flow; auto.
Qed.
End Entry.

Lemma tracks_start {D : Prop} {BL : BusLaws B D} satp (c : Ctx) : ctx_wf c → tracks ra_new satp c (mkFrame ∅ satp ∅ 0, c).
Proof.
  intros Hc. split; cbn; [|by intros ? ?%elem_of_nil..|done]. exists (x (regs c)).
  split_and!; [by destruct c as [[] ? ? ? ? ? ? ? ? ? ? ?] | apply (cx_regs _ Hc) | done].
Qed.
End Tracks.

(** The function for a block, against the executor. *)
Lemma emit_block_sim {B : Type} {SB : SystemBus B} {HM : HostMemory B} {FE : FloatEnv} {D : Prop} {BL : BusLaws B D} {HE : HostEpoch B}
    no_batch no_region pa (blk : Block) (c c' : ExecContext B) entry satp n res :
  block_ok blk → ctx_wf c → is_u64 entry → even entry → Z.land pa 0xfff = Z.land entry 0xfff →
  plan_cached_groups no_batch no_region (ops blk) = [] →
  separate no_batch (length (ops blk)) (ops blk) = true →
  smooth entry (ops blk) 0 0 satp c → ctx_satp c = satp →
  exec_block blk entry satp c = Some ((n, res), c') →
  ∃ body next, emit_block no_batch no_region pa blk = Some body ∧ run_translated body entry satp c = Some ((n, next), c') ∧
    (next = U64_MAX ∨ next = pc (regs c') ∧ Z.shiftr next 12 = Z.shiftr entry 12 ∧ ctx_satp c' = satp).
Proof.
  intros Hb Hc He Hev Hpa Hplan Hsep Hs Hsatp E. unfold emit_block. rewrite Hplan, Hpa.
  destruct (emit_loop_total (byte_len blk) no_batch (Z.land entry 0xfff) (S (length (ops blk))) (ops blk) 0 0 0 ra_new) as (body & Eb); [lia|].
  assert (R : running entry (byte_len blk) n res c' (ops blk) 0 0 satp c) by (by split).
  destruct (emit_loop_sim entry He Hev (byte_len blk) n res c' no_batch _ _ _ _ _ _ _ _ _ _ _ (Nat.lt_succ_diag_r _) (le_n _) (bo_insns _ Hb) Hsep (tracks_start satp c Hc) R Eb)
    as (next & fr & Ex & Hn).
  exists body, next. split; [done|]. split; [|done]. unfold run_translated. by rewrite Ex.
Qed.

(** C4: the function the translator writes for a block does what the block
    executor does with the block.  For every block whose groups of consecutive
    accesses are all loads or all stores, and without groups kept across other
    operations (no block has either when VPOD_TRANSLATE_NO_BATCH and _NO_REGION are set),
    the function is written, leaves the same context, counts the
    same instructions, and hands back the address execution goes on at if that is
    on the same page (the page tables are then still the same), and [u64::MAX] otherwise - as long as no operation left to the
    interpreter makes the executor stop at the next instruction ([smooth]; after a
    write to [satp] it does, and the function goes on). *)
Theorem translated_block_matches {B : Type} {SB : SystemBus B} {HM : HostMemory B} {FE : FloatEnv} {D : Prop} {BL : BusLaws B D} {HE : HostEpoch B}
    no_batch no_region pa (blk : Block) (c c' : ExecContext B) entry satp n res :
  block_ok blk → ctx_wf c → is_u64 entry → even entry → Z.land pa 0xfff = Z.land entry 0xfff →
  plan_cached_groups no_batch no_region (ops blk) = [] →
  separate no_batch (length (ops blk)) (ops blk) = true →
  smooth entry (ops blk) 0 0 satp c → ctx_satp c = satp →
  exec_block blk entry satp c = Some ((n, res), c') →
  ∃ body next, emit_block no_batch no_region pa blk = Some body ∧ run_translated body entry satp c = Some ((n, next), c') ∧
    (next = U64_MAX ∨ next = pc (regs c') ∧ Z.shiftr next 12 = Z.shiftr entry 12 ∧ ctx_satp c' = satp).
Proof. apply emit_block_sim. Qed.

(** Two stores, two loads, and a jump back into the page. *)
Definition pair_block : Block :=
  mkBlock [mkInsn (OpAluImm AkAdd 5 0 7) 0 4; mkInsn (OpStore Sd 2 5 8) 4 4; mkInsn (OpStore Sw 2 5 16) 8 4; mkInsn (OpAluReg AkAdd 7 5 5) 12 4;
           mkInsn (OpLoad Ld 6 2 8) 16 4; mkInsn (OpLoad Lw 2 2 16) 20 4; mkInsn (OpJal 0 (-8)) 24 4] 28.

Lemma pair_block_ok : block_ok pair_block.
Proof.
  split; [done | | | done]; cbn [ops pair_block length]; [unfold MAX_BLOCK_OPS; lia|].
  assert (∀ i l, insn_wf i → Forall insn_wf l → Forall insn_wf (i :: l)) as H by by constructor.
  repeat (apply H; [repeat split; cbn; unfold reg_ok; done|]). constructor.
Qed.

Lemma translated_block_matches_witness :
  let FE := env_zero in
  let c := reset_ctx SparseRam.empty in
  ∃ body next n res c', exec_block pair_block 0x80000000 0 c = Some ((n, res), c') ∧ n = 7 ∧ next = 0x80000010 ∧
    emit_block false false 0x80000000 pair_block = Some body ∧ run_translated body 0x80000000 0 c = Some ((n, next), c').
Proof.
  intros FE c. assert (En : fst <$> exec_block pair_block 0x80000000 0 c = Some (7, StepOk)) by (vm_compute; reflexivity).
  destruct (exec_block pair_block 0x80000000 0 c) as [[[n res] c']|] eqn:E; [|done]. injection En as -> ->.
  destruct (translated_block_matches (BL := SparseRam.laws) false false 0x80000000 pair_block c c' 0x80000000 0 7 StepOk) as (body & next & Eb & Er & _).
  - apply pair_block_ok.
  - clear E. by apply (ctx_wf_init (BL := SparseRam.laws) _ 0x80000000).
  - done.
  - done.
  - done.
  - vm_compute. done.
  - vm_compute. done.
  - apply smooth_plain. by repeat constructor.
  - reflexivity.
  - exact E.
  - exists body, next, 7, StepOk, c'. split; [reflexivity|]. split; [reflexivity|]. split; [|split; [exact Eb | exact Er]].
    assert (Ex : snd <$> (fst <$> (b ← emit_block false false 0x80000000 pair_block; run_translated b 0x80000000 0 c)) = Some 0x80000010) by (vm_compute; reflexivity).
    rewrite Eb in Ex. cbn [mbind option_bind] in Ex. rewrite Er in Ex. by injection Ex.
Defined.

(** ** The machine's memory *)

From S2P Require Import CowRam VirtioConsole VirtioBlk VirtioNet MachineBus.

Section Machine.
Context {LB : LoopBound} {N F T : Type} {NB : NetworkBackend N} {FD : FsDevice F} {ST_ : TracesSyscalls T}.

#[export] Instance MachineBus_epoch : HostEpoch (MachineBus N F T).
Proof.
  intros p n v b b'. cbn. unfold zoom, cow_host_write. cbv zeta. case_if; [done|]. destruct (cow_pages _ !! _) as [[page|]|]; [|done..].
  destruct (slice_put _ _ _); [|done]. by intros [= <-].
Qed.
End Machine.
