(* ===== verification/Dispatch.v ===== *)
(** The translated blocks of a snapshot and their dispatcher
    ([vpod-translate/src/main.rs]: [translate_set], the function [dispatch] it
    writes, the selection of blocks in [main], the generator of test programs).

    [dispatch] runs translated blocks one after the other: on the same page it goes
    from block to block, elsewhere it looks the next address up again, and it stops
    for a pending interrupt, an unknown page or block, and when the budget is used. *)
From Stdlib Require Import Sorted.
From S2P Require Import Prelude Words Wp Trap Gpr Decode Csr SystemBus BusLaws Mmu BlockCache BlockCacheProps.
From S2P Require Import Context Float Execute Interp BlockDecode BlockExec Run Invariant BlockInvariant Equiv RunProps.
From S2P Require Import ValueProps Io Dtb Translate.

(** ** [translate_set] *)

(** The blocks at the addresses [pas], as functions, and how many were skipped. *)
Fixpoint translate_entries (no_batch no_region : bool) (pas : list Z) : ST SnapshotRam (list (Z * list Stmt) * Z) :=
  match pas with
  | [] => mret ([], 0)
  | pa :: pas =>
      inside ← gets (fun b => snap_contains b pa 4);
      if negb inside then r ← translate_entries no_batch no_region pas; mret (r.1, r.2 + 1)
      else
        d ← decode_block pa;
        match d with
        | Some blk =>
            match emit_block no_batch no_region pa blk with
            | Some body => r ← translate_entries no_batch no_region pas; mret ((pa, body) :: r.1, r.2)
            | None => panic
            end
        | None => r ← translate_entries no_batch no_region pas; mret (r.1, r.2 + 1)
        end
  end.

(** [pages]: the pages with blocks. *)
Definition translated_pages (entries : list (Z * list Stmt)) : list Z := foldl (fun pages e => bt_insert (Z.shiftr e.1 12) pages) [] entries.

(** An arm of the dispatcher for each page: its hot and its cold blocks. *)
Record PageArm := mkArm { arm_hot : list (Z * list Stmt); arm_cold : list (Z * list Stmt) }.

Definition arm_push (hot : bool) (e : Z * list Stmt) (a : PageArm) : PageArm :=
  if hot then mkArm (arm_hot a ++ [e]) (arm_cold a) else mkArm (arm_hot a) (arm_cold a ++ [e]).

(** [by_page.entry(page).or_default()], a [BTreeMap]. *)
Fixpoint by_page_push (page : Z) (hot : bool) (e : Z * list Stmt) (arms : list (Z * PageArm)) : list (Z * PageArm) :=
  match arms with
  | [] => [(page, arm_push hot e (mkArm [] []))]
  | (p, a) :: rest =>
      if page <? p then (page, arm_push hot e (mkArm [] [])) :: arms
      else if page =? p then (p, arm_push hot e a) :: rest
      else (p, a) :: by_page_push page hot e rest
  end.

Definition by_page (hot : list Z) (entries : list (Z * list Stmt)) : list (Z * PageArm) :=
  foldl (fun arms e => by_page_push (Z.shiftr e.1 12) (bool_decide (e.1 ∈ hot)) e arms) [] entries.

(** [AOT_PAGE_HASHES]: the content hash of each page with blocks, and the page. *)
Fixpoint hash_pages (pages : list Z) : ST SnapshotRam (list (Z * Z)) :=
  match pages with
  | [] => mret []
  | page :: pages =>
      hash ← page_hash 512 (shl64 page 12) 0 0xcbf29ce484222325;
      rest ← hash_pages pages;
      mret ((hash, page) :: rest)
  end.

Record Translation := mkTranslation { tr_arms : list (Z * PageArm); tr_hashes : list (Z * Z); tr_skipped : Z }.

Definition translate_set (no_batch no_region : bool) (pas hot : list Z) : ST SnapshotRam Translation :=
  r ← translate_entries no_batch no_region pas;
  hashes ← hash_pages (translated_pages r.1);
  mret (mkTranslation (by_page hot r.1) hashes r.2).

(** ** [dispatch] *)

Definition find_block (pa : Z) (l : list (Z * list Stmt)) : option (list Stmt) := snd <$> List.find (fun e => e.1 =? pa) l.

(** The [match] on the page, then the hot blocks, then [page_..] for the cold. *)
Definition find_arm (arms : list (Z * PageArm)) (pa : Z) : option (list Stmt) :=
  e ← List.find (fun e => e.1 =? Z.shiftr pa 12) arms;
  match find_block pa (arm_hot e.2) with
  | Some body => Some body
  | None => find_block pa (arm_cold e.2)
  end.

Section Dispatch.
Context {B : Type} {SB : SystemBus B} {HM : HostMemory B} {FE : FloatEnv}.
Abbreviation Ctx := (ExecContext B).

(** What the loop carries from block to block. *)
Record Cursor := mkCursor { cu_pa : Z; cu_pc : Z; cu_satp : Z; cu_rt_page : Z; cu_generation : Z }.

(** Where to go on after a block: elsewhere ([next] is [u64::MAX]) ... *)
Definition look_up_again : ST Ctx (option Cursor) :=
  pending ← gets (fun c => pending_interrupt (priv_mode c) (csr c));
  match pending with
  | Some _ => mret None
  | None =>
      satp ← gets ctx_satp;
      pc ← get_pc;
      f ← fetch_address pc satp;
      match f with
      | Err _ => mret None
      | Ok fetch_pa =>
          key ← aot_page_key fetch_pa;
          match key with
          | Some key_pa =>
              generation ← gets (fun c => aot_evict_generation (blocks c));
              mret (Some (mkCursor key_pa pc satp (Z.shiftr fetch_pa 12) generation))
          | None => mret None
          end
      end
  end.

(** ... or on the same page, if its translation was not evicted. *)
Definition same_page (next : Z) (cu : Cursor) : ST Ctx (option Cursor) :=
  let pa := Z.lor (Z.land (cu_pa cu) (not64 0xfff)) (Z.land next 0xfff) in
  let on := mkCursor pa next (cu_satp cu) (cu_rt_page cu) (cu_generation cu) in
  generation ← gets (fun c => aot_evict_generation (blocks c));
  if negb (generation =? cu_generation cu) then
    key ← aot_page_key (shl64 (cu_rt_page cu) 12);
    mret (match key with
          | Some k => if Z.shiftr k 12 =? Z.shiftr pa 12 then Some on else None
          | None => None
          end)
  else mret (Some on).

(** [steps] bounds the iterations; [None] when they were not enough. *)
Fixpoint dispatch_loop (steps : nat) (arms : list (Z * PageArm)) (fuel total : Z) (cu : Cursor) : ST Ctx (option (option Z)) :=
  match steps with
  | O => mret None
  | S steps =>
      match find_arm arms (cu_pa cu) with
      | None => mret (Some (if total =? 0 then None else Some total))
      | Some body =>
          r ← run_translated body (cu_pc cu) (cu_satp cu);
          let total := as_u64 (total + r.1) in
          if fuel <=? total then mret (Some (Some total))
          else
            on ← (if r.2 =? U64_MAX then look_up_again else same_page r.2 cu);
            match on with
            | None => mret (Some (Some total))
            | Some cu => dispatch_loop steps arms fuel total cu
            end
      end
  end.

(** A block retires an instruction at least. *)
Definition dispatch_steps (fuel : Z) : nat := S (Z.to_nat fuel).

Definition aot_dispatch (arms : list (Z * PageArm)) (pa_in entry_pc satp fuel rt_page : Z) : ST Ctx (option (option Z)) :=
  generation ← gets (fun c => aot_evict_generation (blocks c));
  dispatch_loop (dispatch_steps fuel) arms fuel 0 (mkCursor pa_in entry_pc satp rt_page generation).

(** The call in [run_impl]: the instructions that were retired, or [None] where
    the block executor takes over. *)
Definition dispatch_fetched (arms : list (Z * PageArm)) (pc satp fetch_pa remaining : Z) : ST Ctx (option (option Z)) :=
  key ← aot_page_key fetch_pa;
  match key with
  | Some key_pa => aot_dispatch arms key_pa pc satp (as_u64 remaining) (Z.shiftr fetch_pa 12)
  | None => mret (Some None)
  end.
End Dispatch.

(** ** The selection of blocks in [main] *)

(** A stable sort by descending count. *)
Fixpoint insert_counted (e : Z * Z) (l : list (Z * Z)) : list (Z * Z) :=
  match l with
  | [] => [e]
  | d :: l' => if d.2 <? e.2 then e :: l else d :: insert_counted e l'
  end.
Definition sort_counted (l : list (Z * Z)) : list (Z * Z) := foldl (fun sorted e => insert_counted e sorted) [] l.

Fixpoint select_loop (hot_blocks : nat) (target cumulative : Z) (counted : list (Z * Z)) (pas hot : list Z) : list Z * list Z :=
  match counted with
  | [] => (pas, hot)
  | (pa, n) :: counted =>
      if target <=? cumulative then (pas, hot)
      else
        select_loop hot_blocks target (cumulative + n) counted (bt_insert pa pas)
          (if (length hot <? hot_blocks)%nat then bt_insert pa hot else hot)
  end.

(** [target] is the share of all executions that is to be covered. *)
Definition select_blocks (max_blocks hot_blocks : nat) (target : Z) (counted : list (Z * Z)) : list Z * list Z :=
  select_loop hot_blocks target 0 (take max_blocks (sort_counted counted)) [] [].

(** ** Test programs *)

(** [Rng]: xorshift. *)
Definition rng_next : ST Z Z := fun x =>
  let x := Z.lxor x (shl64 x 13) in
  let x := Z.lxor x (Z.shiftr x 7) in
  let x := Z.lxor x (shl64 x 17) in
  Some (x, x).
Definition rng_below (n : Z) : ST Z Z := x ← rng_next; mret (x mod n).

Definition r_type (op f3 f7 rd rs1 rs2 : Z) : Z :=
  Z.lor (Z.lor (Z.lor (Z.lor (Z.lor op (shl32 rd 7)) (shl32 f3 12)) (shl32 rs1 15)) (shl32 rs2 20)) (shl32 f7 25).
Definition i_type (op f3 rd rs1 imm : Z) : Z :=
  Z.lor (Z.lor (Z.lor (Z.lor op (shl32 rd 7)) (shl32 f3 12)) (shl32 rs1 15)) (shl32 (Z.land imm 0xfff) 20).
Definition s_type (op f3 rs1 rs2 imm : Z) : Z :=
  Z.lor (Z.lor (Z.lor (Z.lor (Z.lor op (shl32 (Z.land imm 0x1f) 7)) (shl32 f3 12)) (shl32 rs1 15)) (shl32 rs2 20))
    (shl32 (Z.land (Z.shiftr imm 5) 0x7f) 25).
Definition b_type (f3 rs1 rs2 imm : Z) : Z :=
  Z.lor (Z.lor (Z.lor (Z.lor (Z.lor (Z.lor (Z.lor 0x63 (shl32 (Z.land (Z.shiftr imm 11) 1) 7)) (shl32 (Z.land (Z.shiftr imm 1) 0xf) 8)) (shl32 f3 12))
    (shl32 rs1 15)) (shl32 rs2 20)) (shl32 (Z.land (Z.shiftr imm 5) 0x3f) 25)) (shl32 (Z.land (Z.shiftr imm 12) 1) 31).

Definition rand_rd : ST Z Z := k ← rng_below 15; let r := 1 + k in mret (if r =? 10 then 11 else r).

Definition PROGRAM_INSNS : nat := 48.

(** An element of an array of constants. *)
Definition pick {A} `{Inhabited A} (l : list A) : ST Z A := k ← rng_below (Z.of_nat (length l)); mret (l !!! Z.to_nat k).

(** A random instruction; [len] have been written. *)
Definition gen_insn (len : nat) : ST Z Z :=
  kind ← rng_below 12;
  if kind <=? 2 then
    f3 ← pick [0; 2; 3; 4; 6; 7]; rd ← rand_rd; rs1 ← rand_rd; imm ← rng_next; mret (i_type 0x13 f3 rd rs1 (as_u32 imm))
  else if kind =? 3 then
    e ← pick [(1, 0); (5, 0); (5, 0x400)]; k ← rng_below 64; rd ← rand_rd; rs1 ← rand_rd; mret (i_type 0x13 e.1 rd rs1 (Z.lor k e.2))
  else if kind <=? 5 then
    e ← pick [(0, 0); (0, 0x20); (1, 0); (2, 0); (3, 0); (4, 0); (5, 0); (5, 0x20); (6, 0); (7, 0); (0, 1); (4, 1); (5, 1); (6, 1); (7, 1);
              (2, 0x10); (4, 0x10); (6, 0x10)];
    rd ← rand_rd; rs1 ← rand_rd; rs2 ← rand_rd; mret (r_type 0x33 e.1 e.2 rd rs1 rs2)
  else if kind =? 6 then
    k ← rng_below 2; rd ← rand_rd; imm ← rng_next;
    mret (Z.lor (Z.lor (if k =? 0 then 0x37 else 0x17) (shl32 rd 7)) (Z.land (as_u32 imm) 0xfffff000))
  else if kind =? 7 then
    f3 ← pick [0; 1; 2; 3; 4; 5; 6]; rd ← rand_rd; imm ← rng_next; mret (i_type 0x03 f3 rd 10 (Z.land (as_u32 imm) 0x7f8))
  else if kind =? 8 then
    f3 ← pick [0; 1; 2; 3]; rs2 ← rand_rd; imm ← rng_next; mret (s_type 0x23 f3 10 rs2 (Z.land (as_u32 imm) 0x7f8))
  else if kind =? 9 then
    f3 ← pick [0; 1; 4; 5; 6; 7];
    let max_skip := Z.max 1 (Z.min 4 (Z.of_nat (PROGRAM_INSNS - len) - 1)) in
    k ← rng_below max_skip;
    rs1 ← rand_rd; rs2 ← rand_rd; mret (b_type f3 rs1 rs2 (Z.land (4 + 4 * k) 0x1ffe))
  else if kind =? 10 then
    zba ← rng_below 3;
    if zba =? 0 then
      f3 ← pick [0; 2; 4; 6]; rd ← rand_rd; rs1 ← rand_rd; rs2 ← rand_rd; mret (r_type 0x3b f3 (if f3 =? 0 then 0x04 else 0x10) rd rs1 rs2)
    else if zba =? 1 then
      shamt ← rng_below 64; rd ← rand_rd; rs1 ← rand_rd; mret (i_type 0x1b 1 rd rs1 (Z.lor (shl32 0x02 6) shamt))
    else
      k ← rng_below 4; rs2 ← (if k =? 0 then rand_rd else mret 0); rd ← rand_rd; rs1 ← rand_rd; mret (r_type 0x3b 4 0x04 rd rs1 rs2)
  else
    k ← rng_below (Z.of_nat (PROGRAM_INSNS - len));
    let target_insn := Z.min (Z.of_nat len + 1 + k) (Z.of_nat PROGRAM_INSNS - 1) in
    rs2 ← rand_rd; mret (s_type 0x23 2 11 rs2 (target_insn * 4)).

Fixpoint gen_insns (n len : nat) : ST Z (list Z) :=
  match n with
  | O => mret []
  | S n => i ← gen_insn len; rest ← gen_insns n (S len); mret (i :: rest)
  end.

Definition gen_program (data_page code_page : Z) : ST Z (list Z) :=
  l ← gen_insns (PROGRAM_INSNS - 2) 2;
  mret (Z.lor (Z.lor 0x37 (shl32 10 7)) (shl32 data_page 12) :: Z.lor (Z.lor 0x37 (shl32 11 7)) (shl32 code_page 12) :: l ++ [0x00000073]).

(** [run_gen]: the memory, where the programs start, and what is translated. *)
Record TestImage := mkImage { im_ram : list Z; im_entries : list Z; im_pas : list Z; im_hot : list Z }.

Fixpoint put_insns (at_ : Z) (insns : list Z) (s : list Z * list Z) : option (list Z * list Z) :=
  match insns with
  | [] => Some s
  | i :: insns => ram ← slice_put s.1 at_ (to_le_bytes 4 i); put_insns (at_ + 4) insns (ram, bt_insert at_ s.2)
  end.

Fixpoint gen_programs (n : nat) (i : Z) (s : list Z * list Z) : ST Z (list Z * list Z) :=
  match n with
  | O => mret s
  | S n =>
      insns ← gen_program (2 * i + 1) (2 * i);
      match put_insns (2 * i * 4096) insns s with
      | Some s => gen_programs n (i + 1) s
      | None => panic
      end
  end.

Fixpoint step_by_2 (l : list Z) : list Z := match l with a :: _ :: l => a :: step_by_2 l | l => l end.

Definition run_gen (num_programs : nat) (seed : Z) : option TestImage :=
  let ram_len := 2 ^ Z.log2_up ((2 * Z.of_nat num_programs + 1) * 4096) in
  ram ← slice_put (replicate (Z.to_nat ram_len) 0) (ram_len - 4096) (to_le_bytes 4 0x10500073);
  '((ram, pas), _) ← gen_programs num_programs 0 (ram, []) (Z.max seed 1);
  Some (mkImage ram (map (fun i => 2 * Z.of_nat i * 4096) (seq 0 num_programs)) pas (step_by_2 pas)).

(** * Properties

    The dispatcher runs blocks of the snapshot the way the block executor does, at the
    address execution is at, and returns. *)

(** ** The snapshot as a bus *)

#[export] Instance SnapshotRam_host : HostMemory SnapshotRam := {| host_read := fun _ _ _ => None; host_write := fun _ _ _ => panic |}.

Lemma snap_read_ok n a (s : SnapshotRam) : Forall is_u8 (snap_ram s) →
  wp True (snap_read n a) (fun v s' => is_word (8 * Z.of_nat n) v ∧ Forall is_u8 (snap_ram s') ∧ 0 = 0) s.
Proof.
  intros Hs. unfold wp, snap_read. destruct (snap_idx s a); [|split_and!; [|done|done]].
  - destruct (slice_get _ _ _) as [bytes|] eqn:E; [|done]. apply slice_get_bytes in E as [Hb <-]; [|done]. split_and!; [by apply from_le_bytes_range | done | done].
  - unfold is_word. split; [done|]. apply Z.pow_pos_nonneg; lia.
Qed.

#[export] Instance SnapshotRam_laws : BusLaws SnapshotRam True.
Proof.
  refine {| bus_ok := fun s => Forall is_u8 (snap_ram s); page_ok := fun _ _ => True |}; intros.
  1-4: by apply snap_read_ok.
  all: try done.
Defined.

(** ** The arms find the blocks *)

Lemma find_block_app pa l1 l2 : find_block pa (l1 ++ l2) = match find_block pa l1 with Some b => Some b | None => find_block pa l2 end.
Proof. induction l1 as [|[q b] l1 IH]; [done|]. unfold find_block in *. cbn. destruct (q =? pa); [done | apply IH]. Qed.

(** The arm of a page, empty if there is none. *)
Definition arm_of (arms : list (Z * PageArm)) (page : Z) : PageArm := default (mkArm [] []) (snd <$> List.find (fun e => e.1 =? page) arms).
Definition arm_find (a : PageArm) (pa : Z) : option (list Stmt) :=
  match find_block pa (arm_hot a) with Some body => Some body | None => find_block pa (arm_cold a) end.

Lemma find_arm_of arms pa : find_arm arms pa = arm_find (arm_of arms (Z.shiftr pa 12)) pa.
Proof. unfold find_arm, arm_of. by destruct (List.find _ arms). Qed.

Definition arms_ascending (arms : list (Z * PageArm)) : Prop := StronglySorted (fun a b => a.1 < b.1) arms.

Lemma push_above page hot e arms k : k < page → Forall (fun a => k < a.1) arms → Forall (fun a => k < a.1) (by_page_push page hot e arms).
Proof.
  intros Hk. induction arms as [|[p a] arms IH]; intros H; cbn; [by repeat constructor|]. apply Forall_cons_1 in H as [H1 H2].
  destruct (page <? p); [by repeat constructor|]. destruct (page =? p); constructor; auto.
Qed.

Lemma push_ascending page hot e arms : arms_ascending arms → arms_ascending (by_page_push page hot e arms).
Proof.
  induction 1 as [|[p a] arms Hs IH Hp]; cbn; [by repeat constructor|]. destruct (Z.ltb_spec page p).
  - constructor; [by constructor|]. constructor; [done|]. eapply List.Forall_impl; [|exact Hp]. cbn. lia.
  - destruct (Z.eqb_spec page p); [by constructor|]. constructor; [done|]. apply push_above; [cbn; lia | done].
Qed.

Lemma find_above page (arms : list (Z * PageArm)) : Forall (fun a => page < a.1) arms → List.find (fun e => e.1 =? page) arms = None.
Proof. induction 1 as [|[p a] arms Hp _ IH]; [done|]. cbn in *. by destruct (Z.eqb_spec p page); [lia|]. Qed.

Lemma arm_of_push page hot e arms page' : arms_ascending arms →
  arm_of (by_page_push page hot e arms) page' = if page' =? page then arm_push hot e (arm_of arms page) else arm_of arms page'.
Proof.
  unfold arm_of. induction 1 as [|[p a] arms Hs IH Hp]; cbn.
  - rewrite (Z.eqb_sym page page'). by destruct (page' =? page).
  - destruct (Z.ltb_spec page p).
    + cbn. rewrite (Z.eqb_sym page page'). destruct (Z.eqb_spec page' page) as [->|]; [|done]. destruct (Z.eqb_spec p page); [lia|].
      rewrite find_above; [done|]. eapply List.Forall_impl; [|exact Hp]. cbn. lia.
    + destruct (Z.eqb_spec page p) as [->|]; cbn.
      * rewrite (Z.eqb_sym p page'), Z.eqb_refl. by destruct (page' =? p).
      * destruct (Z.eqb_spec p page') as [->|]; [by destruct (Z.eqb_spec page' page); [lia|]|].
        rewrite IH. destruct (Z.eqb_spec p page); [lia | done].
Qed.

Lemma arm_find_push hot e a pa : arm_find (arm_push hot e a) pa = None ↔ arm_find a pa = None ∧ e.1 ≠ pa.
Proof.
  destruct e as [q b]. unfold arm_find, arm_push. destruct hot; cbn [arm_hot arm_cold]; rewrite !find_block_app;
    destruct (find_block pa (arm_hot a)) eqn:E1, (find_block pa (arm_cold a)) eqn:E2; unfold find_block; cbn; destruct (Z.eqb_spec q pa); naive_solver.
Qed.

Lemma find_block_elem pa l body : find_block pa l = Some body → (pa, body) ∈ l.
Proof.
  unfold find_block. destruct (List.find _ l) as [[q b]|] eqn:E; [|done]. apply List.find_some in E as [E1 E2]. cbn in *. apply Z.eqb_eq in E2 as ->.
  intros [= <-]. by apply list_elem_of_In.
Qed.

Definition arm_blocks (a : PageArm) : list (Z * list Stmt) := arm_hot a ++ arm_cold a.

Lemma arm_find_elem a pa body : arm_find a pa = Some body → (pa, body) ∈ arm_blocks a.
Proof.
  unfold arm_find, arm_blocks. rewrite elem_of_app. destruct (find_block pa (arm_hot a)) eqn:E; intros H; [left | right]; apply find_block_elem; congruence.
Qed.

Lemma arm_blocks_push hot e a d : d ∈ arm_blocks (arm_push hot e a) ↔ d = e ∨ d ∈ arm_blocks a.
Proof. unfold arm_blocks, arm_push. destruct hot; cbn; rewrite !elem_of_app, list_elem_of_singleton; tauto. Qed.

(** Every translated block is found at its address, and nothing else is. *)
Lemma by_page_invariant (hot : list Z) entries : ∀ arms seen,
  arms_ascending arms →
  (∀ page d, d ∈ arm_blocks (arm_of arms page) → d ∈ seen) → (∀ d, d ∈ seen → find_arm arms d.1 ≠ None) →
  let arms' := foldl (fun arms e => by_page_push (Z.shiftr e.1 12) (bool_decide (e.1 ∈ hot)) e arms) arms entries in
  (∀ page d, d ∈ arm_blocks (arm_of arms' page) → d ∈ seen ++ entries) ∧ (∀ d, d ∈ seen ++ entries → find_arm arms' d.1 ≠ None).
Proof.
  induction entries as [|e entries IH]; intros arms seen Ha Hs Hc; cbn [foldl]; [by rewrite app_nil_r|].
  rewrite (cons_middle e seen entries), app_assoc. apply IH; [by apply push_ascending|..].
  - intros page d. rewrite arm_of_push by done. rewrite elem_of_app, list_elem_of_singleton. destruct (page =? _); [|eauto].
    rewrite arm_blocks_push. naive_solver.
  - intros d Hd. rewrite find_arm_of, arm_of_push by done. rewrite elem_of_app, list_elem_of_singleton in Hd.
    destruct (Z.eqb_spec (Z.shiftr d.1 12) (Z.shiftr e.1 12)) as [Ep|]; [|destruct Hd as [Hd | ->]; [|done]; rewrite <- find_arm_of; auto].
    rewrite arm_find_push, <- Ep. intros [Hn He]. destruct Hd as [Hd | ->]; [|done]. apply (Hc d Hd). by rewrite find_arm_of.
Qed.

Lemma by_page_finds hot entries pa :
  (∀ body, find_arm (by_page hot entries) pa = Some body → (pa, body) ∈ entries) ∧
  (find_arm (by_page hot entries) pa = None → pa ∉ map fst entries).
Proof.
  destruct (by_page_invariant hot entries [] []) as [H1 H2]; [constructor | by intros ? ? ?%elem_of_nil | by intros ? ?%elem_of_nil|]. split.
  - intros body. rewrite find_arm_of. intros E%arm_find_elem. by apply H1 in E.
  - intros E Hin. apply list_elem_of_fmap in Hin as (d & -> & Hd). by apply (H2 d).
Qed.

(** ** What the translator reads *)

Lemma snap_read_same n a (s : SnapshotRam) v s' : snap_read n a s = Some (v, s') → s' = s.
Proof. unfold snap_read. destruct (snap_idx s a); [|by intros [= _ <-]]. destruct (slice_get _ _ _); [by intros [= _ <-] | done]. Qed.

Lemma decode_at_same pa off page_end (s : SnapshotRam) r s' : decode_at pa off page_end s = Some (r, s') → s' = s.
Proof.
  unfold decode_at. unfold mbind at 1, ST_bind at 1. destruct (read_halfword _ s) as [[lo s1]|] eqn:E1; [|done]. apply snap_read_same in E1 as ->.
  case_if; [by intros [= _ <-]|]. case_if; [by intros [= _ <-]|]. unfold mbind at 1, ST_bind at 1. destruct (read_halfword _ s) as [[hi s1]|] eqn:E1; [|done].
  apply snap_read_same in E1 as ->. by intros [= _ <-].
Qed.

Lemma decode_loop_same n pa off page_end (s : SnapshotRam) r s' : decode_loop n pa off page_end s = Some (r, s') → s' = s.
Proof.
  revert off r s'. induction n as [|n IH]; intros off r s'; cbn [decode_loop]; [by intros [= _ <-]|]. case_if; [|by intros [= _ <-]].
  unfold mbind at 1, ST_bind at 1. destruct (decode_at _ _ _ s) as [[d s1]|] eqn:E1; [|done]. apply decode_at_same in E1 as ->.
  destruct d as [[o len]|]; [|by intros [= _ <-]]. cbv zeta. case_if; [by intros [= _ <-]|]. unfold mbind at 1, ST_bind at 1.
  destruct (decode_loop n _ _ _ s) as [[rest s1]|] eqn:E1; [|done]. apply IH in E1 as ->. by intros [= _ <-].
Qed.

Lemma decode_block_same pa (s : SnapshotRam) r s' : decode_block pa s = Some (r, s') → s' = s.
Proof.
  unfold decode_block. cbv zeta. unfold mbind at 1, ST_bind at 1. destruct (decode_loop _ _ _ _ s) as [[rest s1]|] eqn:E1; [|done].
  apply decode_loop_same in E1 as ->. by intros [= _ <-].
Qed.

(** The block decoded at an address of the snapshot. *)
Definition block_in (s : SnapshotRam) (pa : Z) (blk : Block) : Prop := decode_block pa s = Some (Some blk, s).

Lemma translate_entries_spec no_batch no_region pas : ∀ s r s',
  translate_entries no_batch no_region pas s = Some (r, s') →
  s' = s ∧ Forall (fun e => e.1 ∈ pas ∧ ∃ blk, block_in s e.1 blk ∧ emit_block no_batch no_region e.1 blk = Some e.2) r.1.
Proof.
  induction pas as [|pa pas IH]; intros s r s'; cbn [translate_entries]; [by intros [= <- <-]|].
  assert (Hmore : ∀ l, Forall (fun e : Z * list Stmt => e.1 ∈ pas ∧ ∃ blk, block_in s e.1 blk ∧ emit_block no_batch no_region e.1 blk = Some e.2) l →
    Forall (fun e => e.1 ∈ pa :: pas ∧ ∃ blk, block_in s e.1 blk ∧ emit_block no_batch no_region e.1 blk = Some e.2) l).
  { intros l. apply List.Forall_impl. intros e [H1 H2]. split; [by apply list_elem_of_further | done]. }
  unfold mbind at 1, ST_bind at 1, gets. case_if.
  - unfold mbind, ST_bind. destruct (translate_entries _ _ pas s) as [[r1 s1]|] eqn:E1; [|done]. apply IH in E1 as [-> H]. intros [= <- <-]. auto.
  - unfold mbind at 1, ST_bind at 1. destruct (decode_block pa s) as [[d s1]|] eqn:Ed; [|done]. pose proof (decode_block_same _ _ _ _ Ed) as ->. destruct d as [blk|].
    + destruct (emit_block no_batch no_region pa blk) as [body|] eqn:Eb; [|done].
      unfold mbind, ST_bind. destruct (translate_entries _ _ pas s) as [[r1 s1]|] eqn:E1; [|done]. apply IH in E1 as [-> H]. intros [= <- <-].
      split; [done|]. constructor; [|by apply Hmore]. split; [apply list_elem_of_here|]. by exists blk.
    + unfold mbind, ST_bind. destruct (translate_entries _ _ pas s) as [[r1 s1]|] eqn:E1; [|done]. apply IH in E1 as [-> H]. intros [= <- <-]. auto.
Qed.

Lemma block_in_ok s pa blk : Forall is_u8 (snap_ram s) → block_in s pa blk → block_ok blk.
Proof. intros Hs E. pose proof (wp_elim _ _ _ _ _ (decode_block_keeps (BL := SnapshotRam_laws) pa s Hs) E) as [H _]. by apply H. Qed.

(** ** Looking up the next block *)

Section Chain.
Context {B : Type} {SB : SystemBus B} {HM : HostMemory B} {FE : FloatEnv} {D : Prop} {BL : BusLaws B D} {HE : HostEpoch B}.
Abbreviation Ctx := (ExecContext B).

(** Looking up changes neither the registers nor the privileged state. *)
Definition unmoved (c c1 : Ctx) : Prop := regs c1 = regs c ∧ csr c1 = csr c ∧ priv_mode c1 = priv_mode c.
Definition still {A} (m : ST Ctx A) : Prop := ∀ c a c1, m c = Some (a, c1) → unmoved c c1.

Lemma unmoved_satp c c1 : unmoved c c1 → ctx_satp c1 = ctx_satp c.
Proof. intros (_ & E1 & E2). unfold ctx_satp. by rewrite E1, E2. Qed.

Lemma still_ret {A} (a : A) : still (mret a).
Proof. by intros c b c1 [= _ <-]. Qed.
Lemma still_bind {A C} (m : ST Ctx A) (k : A -> ST Ctx C) : still m → (∀ a, still (k a)) → still (m ≫= k).
Proof.
  intros Hm Hk c b c2. unfold mbind, ST_bind. destruct (m c) as [[a c1]|] eqn:E; [|done]. intros E2.
  destruct (Hm _ _ _ E) as (H1 & H2 & H3), (Hk _ _ _ _ E2) as (H4 & H5 & H6). split_and!; congruence.
Qed.
Lemma still_gets {A} (g : Ctx -> A) : still (gets g).
Proof. by intros c b c1 [= _ <-]. Qed.
Lemma still_bus {A} (m : ST B A) : still (on_bus m).
Proof. intros c a c1. unfold on_bus, zoom. destruct (m (bus c)) as [[? ?]|]; [|done]. by intros [= _ <-]. Qed.
Lemma still_mmu {A} (m : ST (Mmu * B) A) : still (on_mmu m).
Proof. intros c a c1. unfold on_mmu, zoom. destruct (m _) as [[? ?]|]; [|done]. by intros [= _ <-]. Qed.
Lemma still_modify f : (∀ c, unmoved c (f c)) → still (modify f).
Proof. intros Hf c a c1 [= _ <-]. apply Hf. Qed.
#[local] Hint Resolve still_ret still_gets still_bus still_mmu : core.

Lemma still_fetch pc satp : still (fetch_address pc satp).
Proof.
  unfold fetch_address. cbv zeta. apply still_bind; [apply (still_gets id)|]. intros c. destruct (fetch_tlb_lookup _ _ _); [auto|].
  apply still_bind; [auto|]. intros [pa|f]; [|auto]. apply still_bind; [by apply still_modify|]. auto.
Qed.

Lemma still_key fetch_pa : still (aot_page_key fetch_pa).
Proof.
  unfold aot_page_key. cbv zeta. apply still_bind; [apply (still_gets id)|]. intros c. destruct (aot_resolve _ _); [auto..|].
  unfold aot_page_key_hash. apply still_bind; [auto|]. intros h. apply still_bind; [apply (still_gets id)|]. intros c1. cbv zeta.
  apply still_bind; [by apply still_modify|]. auto.
Qed.

Lemma page_hash_keeps n base i hash : keeps D bus_ok (page_hash n base i hash) (fun _ => True).
Proof.
  revert i hash. induction n as [|n IH]; intros i hash; cbn [page_hash]; [by apply keeps_ret|].
  eapply keeps_bind; [apply read_doubleword_keeps, wrapping_add64_word|]. intros w _. apply IH.
Qed.

(** The key has the offset of the address. *)
Lemma key_keeps fetch_pa : is_u64 fetch_pa →
  keeps D ctx_wf (aot_page_key fetch_pa) (fun r => ∀ k, r = Some k → Z.land k 0xfff = Z.land fetch_pa 0xfff).
Proof.
  intros Hpa. unfold aot_page_key. cbv zeta. apply (keeps_bind _ _ (fun _ => True)); [by apply keeps_get|]. intros c _.
  assert (Hj : ∀ orig, Z.land (join_page orig fetch_pa) 0xfff = Z.land fetch_pa 0xfff) by (intros; by apply join_page_offset).
  destruct (aot_resolve _ _) as [orig| |]; [apply keeps_ret; by intros k [= <-] | by apply keeps_ret|].
  unfold aot_page_key_hash. eapply keeps_bind; [apply on_bus_keeps, page_hash_keeps|]. intros h _ c1 Hc1. unfold wp, mod_blocks, modify. run_st. split.
  - intros k. destruct (aot_record_hash _ h (blocks c1)).1; cbn; [by intros [= <-] | done].
  - destruct Hc1 as [H1 H2 H3 H4 H5 H6 H7]. split; cbn; [done..| |done]. apply aot_record_hash_wf; [|done]. apply Z.shiftr_nonneg. apply Hpa.
Qed.

(** What looking up does to the context: the pc is translated, pages are compared. *)
Inductive looks : Ctx -> Ctx -> Prop :=
| looks_none c : looks c c
| looks_fetch c r c1 c2 : fetch_address (pc (regs c)) (ctx_satp c) c = Some (r, c1) → looks c1 c2 → looks c c2
| looks_key c pa r c1 c2 : aot_page_key pa c = Some (r, c1) → looks c1 c2 → looks c c2.

Lemma unmoved_trans c c1 c2 : unmoved c c1 → unmoved c1 c2 → unmoved c c2.
Proof. intros (?&?&?) (?&?&?). unfold unmoved. split_and!; congruence. Qed.

Lemma looks_unmoved c c1 : looks c c1 → unmoved c c1.
Proof.
  induction 1 as [c|c r c1 c2 E _ IH|c pa r c1 c2 E _ IH]; [done|..]; eapply unmoved_trans; [|exact IH| |exact IH]; [by eapply still_fetch | by eapply still_key].
Qed.

(** The dispatcher is at the hart's pc, with a block of the same offset. *)
Record at_pc (cu : Cursor) (c : Ctx) : Prop := {
  ap_pc : cu_pc cu = pc (regs c);
  ap_off : Z.land (cu_pa cu) 0xfff = Z.land (cu_pc cu) 0xfff;
  ap_satp : cu_satp cu = ctx_satp c
}.

Definition goes_on (c : Ctx) (r : option Cursor) (c1 : Ctx) : Prop := ctx_wf c1 ∧ looks c c1 ∧ ∀ cu, r = Some cu → at_pc cu c1.

Lemma goes_on_stop c c1 : ctx_wf c1 → looks c c1 → goes_on c None c1.
Proof. intros. unfold goes_on. by split_and!. Qed.

Lemma look_up_again_ok c : ctx_wf c → wp D look_up_again (goes_on c) c.
Proof.
  intros Hc. unfold look_up_again. unfold wp, gets, get_pc. run_st. destruct (pending_interrupt _ _); [apply goes_on_stop; [done | apply looks_none]|].
  pose proof (wf_pc _ (cx_regs _ Hc)) as Hpc.
  pose proof (fetch_address_keeps (pc (regs c)) (ctx_satp c) Hpc c Hc) as W. unfold wp in W. pose proof (looks_fetch c) as S1.
  destruct (fetch_address _ _ c) as [[f c1]|]; [|done]. destruct W as [Hf Hc1]. specialize (λ c2, S1 f c1 c2 eq_refl) as S1.
  destruct f as [fetch_pa|]; [|apply goes_on_stop; [done | apply S1, looks_none]].
  destruct Hf as [Hpa Hoff]. pose proof (key_keeps fetch_pa Hpa c1 Hc1) as W. unfold wp in W. pose proof (looks_key c1 fetch_pa) as S2. unfold mbind, ST_bind.
  destruct (aot_page_key fetch_pa c1) as [[k c2]|]; [|done]. destruct W as [Hk Hc2]. specialize (S2 _ _ c2 eq_refl (looks_none c2)). apply S1 in S2.
  pose proof (looks_unmoved _ _ S2) as Hu. destruct k as [key|]; [|by apply goes_on_stop]. unfold goes_on. split_and!; [done..|].
  intros cu [= <-]. split; cbn; [by destruct Hu as (-> & _)| |by rewrite (unmoved_satp c c2)]. by rewrite (Hk key eq_refl).
Qed.

Lemma page_offset_join a b : Z.land (Z.lor (Z.land a (not64 0xfff)) (Z.land b 0xfff)) 0xfff = Z.land b 0xfff.
Proof.
  apply Z.bits_inj'. intros i Hi. rewrite !Z.land_spec, Z.lor_spec, !Z.land_spec, not64_bits, !testbit_fff by done.
  destruct (Z.ltb_spec i 12), (Z.testbit a i), (Z.testbit b i), (i <? 64); done.
Qed.

Lemma same_page_ok next cu c : ctx_wf c → next = pc (regs c) → cu_satp cu = ctx_satp c → wp D (same_page next cu) (goes_on c) c.
Proof.
  intros Hc Hn Hs. unfold same_page. cbv zeta. unfold wp, gets. run_st. set (on := mkCursor _ _ _ _ _).
  assert (Hon : ∀ c1, looks c c1 → at_pc on c1).
  { intros c1 Hu%looks_unmoved. split; cbn; [by destruct Hu as (-> & _) | apply page_offset_join | by rewrite (unmoved_satp c c1)]. }
  unfold goes_on. case_if; [|split_and!; [done | apply looks_none|]; intros cu' [= <-]; apply Hon, looks_none].
  assert (Hw : is_u64 (shl64 (cu_rt_page cu) 12)) by apply shl64_word.
  pose proof (key_keeps _ Hw c Hc) as W. unfold wp in W. pose proof (looks_key c (shl64 (cu_rt_page cu) 12)) as S2. unfold mbind, ST_bind.
  destruct (aot_page_key _ c) as [[k c2]|]; [|done]. destruct W as [_ Hc2]. specialize (S2 _ _ c2 eq_refl (looks_none c2)). split_and!; [done | done|].
  intros cu'. destruct k as [k|]; [|done]. case_if; [|done]. intros [= <-]. by apply Hon.
Qed.

(** ** Runs of the dispatcher *)

Section Table.
Context (block_at : Z -> Block -> Prop).

(** Blocks one after the other, each the one at the pc's offset, run by the executor
    under the page tables of the moment; in between the next one is looked up.  [n] is
    what was retired. *)
Inductive chain : Ctx -> Z -> Ctx -> Prop :=
| chain_done c : chain c 0 c
| chain_look c c1 n c2 : looks c c1 → chain c1 n c2 → chain c n c2
| chain_block c pa blk n res c1 m c2 :
    block_at pa blk → Z.land pa 0xfff = Z.land (pc (regs c)) 0xfff → exec_block blk (pc (regs c)) (ctx_satp c) c = Some ((n, res), c1) →
    chain c1 m c2 → chain c (n + m) c2.

Lemma chain_app c n c1 k c2 : chain c n c1 → chain c1 k c2 → chain c (n + k) c2.
Proof.
  induction 1 as [c|c c1 n c3 Hl _ IH|c pa blk n res c1 m c3 Hat Ho E _ IH]; intros H; [done | eapply chain_look; [exact Hl | by apply IH]|].
  replace (n + m + k) with (n + (m + k)) by lia. eapply chain_block; [exact Hat | exact Ho | exact E | by apply IH].
Qed.

(** The executor does not panic on the block the pc is at, and stops nowhere in it
    though the pc is the next instruction's. *)
Definition goes_well (blk : Block) (c : Ctx) : Prop :=
  is_Some (exec_block blk (pc (regs c)) (ctx_satp c) c) ∧ smooth (pc (regs c)) (ops blk) 0 0 (ctx_satp c) c.

(** The functions do what the executor does with their blocks, where that goes well. *)
Definition runs_as (pa : Z) (blk : Block) (body : list Stmt) : Prop := ∀ (c c1 : Ctx) n res,
  ctx_wf c → goes_well blk c → Z.land pa 0xfff = Z.land (pc (regs c)) 0xfff →
  exec_block blk (pc (regs c)) (ctx_satp c) c = Some ((n, res), c1) →
  ∃ next, run_translated body (pc (regs c)) (ctx_satp c) c = Some ((n, next), c1) ∧
    (next = U64_MAX ∨ next = pc (regs c1) ∧ Z.shiftr next 12 = Z.shiftr (pc (regs c)) 12 ∧ ctx_satp c1 = ctx_satp c).

(** All goes well on every run from here. *)
Definition well (c : Ctx) : Prop := ∀ n c1 pa blk,
  ctx_wf c1 → chain c n c1 → block_at pa blk → Z.land pa 0xfff = Z.land (pc (regs c1)) 0xfff → goes_well blk c1.

Lemma well_chain c n c1 : chain c n c1 → well c → well c1.
Proof. intros Hch Hw m c2 pa blk H2 Hc2. apply (Hw (n + m)); [done | by eapply chain_app]. Qed.

Context (arms : list (Z * PageArm)).
Context (Harms : ∀ pa body, find_arm arms pa = Some body → ∃ blk, block_at pa blk ∧ block_ok blk ∧ runs_as pa blk body).

(** What the dispatcher did when it returns: it counted a chain. *)
Definition chained (c : Ctx) (total limit : Z) (r : option (option Z)) (c' : Ctx) : Prop :=
  ∃ t, r = Some (if t =? 0 then None else Some t) ∧ ctx_wf c' ∧ total <= t < limit + 64 ∧ chain c (t - total) c'.

Lemma dispatch_loop_ok fuel : 0 < fuel < 2 ^ 63 → ∀ steps total cu c,
  0 <= total < fuel → (Z.to_nat (fuel - total) < steps)%nat → ctx_wf c → well c → at_pc cu c →
  wp D (dispatch_loop steps arms fuel total cu) (chained c total fuel) c.
Proof.
  intros Hfuel. induction steps as [|steps IH]; intros total cu c Ht Hsteps Hc Hw [Hpc Hoff Hsatp]; [lia|]. unfold wp. cbn [dispatch_loop].
  destruct (find_arm arms (cu_pa cu)) as [body|] eqn:Ef.
  2:{ exists total. split_and!; [done | done | lia | lia|]. rewrite Z.sub_diag. apply chain_done. }
  destruct (Harms _ _ Ef) as (blk & Hat & Hb & Hruns). rewrite Hpc in Hoff.
  pose proof (Hw 0 c _ _ Hc (chain_done c) Hat Hoff) as Hgo. destruct (proj1 Hgo) as [[[n res] c1] E].
  pose proof (wp_elim _ _ _ _ _ (exec_block_keeps blk (pc (regs c)) (ctx_satp c) Hb (cx_pc _ Hc) c Hc) E) as [[Hn _] Hc1]. cbn in Hn.
  destruct (Hruns c c1 n res Hc Hgo Hoff E) as (next & Er & Hnext). unfold mbind at 1, ST_bind at 1. rewrite Hpc, Hsatp, Er. cbn [fst snd]. cbv zeta.
  assert (as_u64 (total + n) = total + n) as -> by (apply wrap_id; unfold is_word; lia).
  assert (Hone : ∀ c2, looks c1 c2 → chain c (total + n - total) c2).
  { intros c2 Hl. replace (total + n - total) with (n + 0) by lia. eapply chain_block; [done..|]. eapply chain_look; [exact Hl | apply chain_done]. }
  assert (Hstop : ∀ c2, ctx_wf c2 → looks c1 c2 → chained c total fuel (Some (Some (total + n))) c2).
  { intros c2 Hc2 Hl. exists (total + n). destruct (Z.eqb_spec (total + n) 0); [lia|]. split_and!; [done | done | lia | lia | by apply Hone]. }
  destruct (Z.leb_spec fuel (total + n)); [apply Hstop; [done | apply looks_none]|].
  assert (Hon : wp D (if next =? U64_MAX then look_up_again else same_page next cu) (goes_on c1) c1).
  { destruct (Z.eqb_spec next U64_MAX); [by apply look_up_again_ok|]. destruct Hnext as [|(-> & _ & Hs1)]; [done|]. apply same_page_ok; [done | done | congruence]. }
  unfold mbind at 1, ST_bind at 1. unfold wp in Hon. destruct ((if next =? U64_MAX then look_up_again else same_page next cu) c1) as [[on c2]|]; [|done].
  destruct Hon as (Hc2 & Hl & Hcu). destruct on as [cu'|]; [|by apply Hstop].
  assert (Hlook : ∀ k c3, chain c2 k c3 → chain c (n + k) c3).
  { intros k c3 H3. eapply chain_block; [done..|]. eapply chain_look; [exact Hl | exact H3]. }
  pose proof (IH (total + n) cu' c2 ltac:(lia) ltac:(lia) Hc2 (well_chain _ _ _ (Hlook _ _ (chain_done c2)) Hw) (Hcu _ eq_refl)) as W.
  unfold wp in W. destruct (dispatch_loop steps arms fuel (total + n) cu' c2) as [[r c']|]; [|done].
  destruct W as (t & -> & Hc' & Ht' & Hch). exists t. split_and!; [done | done | lia | lia|].
  replace (t - total) with (n + (t - (total + n))) by lia. by apply Hlook.
Qed.

Lemma dispatch_fetched_ok fetch_pa remaining c :
  ctx_wf c → well c → is_u64 fetch_pa → Z.land fetch_pa 0xfff = Z.land (pc (regs c)) 0xfff → 0 < remaining < 2 ^ 63 →
  wp D (dispatch_fetched arms (pc (regs c)) (ctx_satp c) fetch_pa remaining) (chained c 0 remaining) c.
Proof.
  intros Hc Hw Hpa Hoff Hr. unfold wp, dispatch_fetched. unfold mbind at 1, ST_bind at 1. pose proof (key_keeps fetch_pa Hpa c Hc) as W. unfold wp in W.
  destruct (aot_page_key fetch_pa c) as [[key c1]|] eqn:Ek; [|done]. destruct W as [Hk Hc1]. pose proof (looks_key _ _ _ _ _ Ek (looks_none c1)) as Hl.
  destruct (looks_unmoved _ _ Hl) as (Hu1 & _). pose proof (unmoved_satp _ _ (looks_unmoved _ _ Hl)) as Hu2.
  destruct key as [key|].
  2:{ exists 0. split_and!; [done | done | lia | lia|]. eapply chain_look; [exact Hl | apply chain_done]. }
  assert (as_u64 remaining = remaining) as -> by (apply wrap_id; unfold is_word; lia).
  unfold aot_dispatch, dispatch_steps. unfold mbind at 1, ST_bind at 1, gets. set (cu := mkCursor _ _ _ _ _).
  assert (Hat : at_pc cu c1) by (split; cbn; [by rewrite Hu1 | rewrite (Hk key eq_refl); congruence | done]).
  pose proof (well_chain _ _ _ (chain_look _ _ _ _ Hl (chain_done c1)) Hw) as Hw1.
  pose proof (dispatch_loop_ok remaining Hr (S (Z.to_nat remaining)) 0 cu c1 ltac:(lia) ltac:(lia) Hc1 Hw1 Hat) as W.
  unfold wp in W. destruct (dispatch_loop _ arms remaining 0 cu c1) as [[r c']|]; [|done].
  destruct W as (t & -> & Hc' & Ht & Hch). exists t. split_and!; [done | done | lia | lia|]. eapply chain_look; [exact Hl | exact Hch].
Qed.
End Table.
End Chain.

(** ** The blocks of a snapshot *)

(** No group is kept across operations, and groups are all loads or all stores. *)
Definition plain_block (no_batch no_region : bool) (blk : Block) : bool :=
  bool_decide (length (plan_cached_groups no_batch no_region (ops blk)) = 0%nat) && separate no_batch (length (ops blk)) (ops blk).

(** Without grouping every block is. *)
Lemma plain_ungrouped blk : plain_block true true blk = true.
Proof. unfold plain_block. by rewrite separate_ungrouped. Qed.

Lemma plain_runs_as {B : Type} {SB : SystemBus B} {HM : HostMemory B} {FE : FloatEnv} {D : Prop} {BL : BusLaws B D} {HE : HostEpoch B} no_batch no_region pa blk body :
  block_ok blk → plain_block no_batch no_region blk = true → emit_block no_batch no_region pa blk = Some body → runs_as (B := B) pa blk body.
Proof.
  intros Hb Hp Eb c c1 n res Hc [_ Hsm] Hoff E. unfold plain_block in Hp. rewrite andb_true_iff in Hp. destruct Hp as [Hp%bool_decide_eq_true Hs].
  apply nil_length_inv in Hp. destruct (emit_block_sim no_batch no_region pa blk c c1 (pc (regs c)) (ctx_satp c) n res) as (body' & next & Eb' & Er & Hn).
  all: try done.
  - apply (wf_pc _ (cx_regs _ Hc)).
  - apply (cx_pc _ Hc).
  - rewrite Eb in Eb'. injection Eb' as <-. by exists next.
Qed.


(** The program of [Equiv], in a snapshot and in memory. *)
Definition demo_snap : SnapshotRam :=
  mkSnap (to_le_bytes 4 0x00700293 ++ to_le_bytes 2 0x0285 ++ to_le_bytes 2 0xe016 ++ to_le_bytes 4 0x6f ++ [0; 0; 0; 0]) 0x80000000.
Definition demo_tr : Translation :=
  match translate_set false false [0x80000000; 0x80000008] [0x80000000] demo_snap with Some (tr, _) => tr | None => mkTranslation [] [] 0 end.

(** On a bus that does not panic all goes well on blocks of decoded operations. *)
Lemma decoded_well {B : Type} {SB : SystemBus B} {HM : HostMemory B} {FE : FloatEnv} {BL : BusLaws B False} (block_at : Z -> Block -> Prop) (c : ExecContext B) :
  (∀ pa blk, block_at pa blk → block_ok blk ∧ Forall (fun i => match op i with OpFallback _ => False | _ => True end) (ops blk)) → well block_at c.
Proof.
  intros H n c1 pa blk Hc1 _ [Hb Hf]%H _. split; [|by apply smooth_plain].
  destruct (wp_total _ _ _ (exec_block_keeps blk (pc (regs c1)) (ctx_satp c1) Hb (cx_pc _ Hc1) c1 Hc1)) as (r & c2 & -> & _). by eexists.
Qed.

Definition demo_selected (pa : Z) (blk : Block) : Prop := pa ∈ [0x80000000; 0x80000008] ∧ block_in demo_snap pa blk.

Lemma demo_selected_ok pa blk : demo_selected pa blk →
  plain_block false false blk = true ∧ block_ok blk ∧ Forall (fun i => match op i with OpFallback _ => False | _ => True end) (ops blk).
Proof.
  intros [Hpa Hblk]. assert (Hok : block_ok blk) by (apply (block_in_ok demo_snap pa); [vm_compute; repeat constructor; done | done]).
  rewrite !elem_of_cons in Hpa. destruct Hpa as [->|[->|H]]; [| |by apply elem_of_nil in H];
    unfold block_in in Hblk; vm_compute in Hblk; injection Hblk as <-; (split; [reflexivity | split; [done | by repeat constructor]]).
Qed.

Definition demo_start : ExecContext SparseRam.ram := (reset_ctx demo_ram) <| blocks := aot_init (tr_hashes demo_tr) cache_new |>.

Lemma demo_start_wf : ctx_wf demo_start.
Proof.
  assert (Hr : ctx_wf (reset_ctx demo_ram)) by by apply (ctx_wf_init (BL := SparseRam.laws) _ 0x80000000).
  destruct Hr as [H1 H2 H3 H4 H5 H6 H7]. split; [done..| |done]. apply aot_init_wf, cache_new_wf.
Qed.


(** ** A write to [satp] *)

(** [csrw satp, x5; addi x6, x0, 1; jal x0, -4]: the executor stops after the write, so
    that the next fetch is translated with the new tables; the translated block goes on
    to its end, and the dispatcher, whose [satp] is the one before the block, from there. *)
Definition satp_block : Block :=
  mkBlock [mkInsn (OpFallback 0x18029073) 0 4; mkInsn (OpAluImm AkAdd 6 0 1) 4 4; mkInsn (OpJal 0 (-4)) 8 4] 12.

Lemma translated_goes_on_after_satp_write :
  let FE := env_zero in
  let c0 := reset_ctx SparseRam.empty in
  let c := c0 <| priv_mode := PrivS |> <| regs := gpr_write 5 0x8000000000000001 (regs c0) |> in
  (fun r => (r.1, ctx_satp r.2)) <$> exec_block satp_block 0x80000000 0 c = Some ((1, StepOk), 0x8000000000000001) ∧
  (fun r => (r.1, ctx_satp r.2)) <$> (body ← emit_block false false 0x80000000 satp_block; run_translated body 0x80000000 0 c)
  = Some ((3, 0x80000004), 0x8000000000000001).
Proof. split; vm_compute; reflexivity. Qed.

(** ** Selection and test programs *)

(** What is hot is translated; what is translated was traced. *)
Lemma select_loop_spec hot_blocks target l : ∀ cumulative pas hot,
  (∀ a, a ∈ hot → a ∈ pas) → let r := select_loop hot_blocks target cumulative l pas hot in
  (∀ a, a ∈ r.2 → a ∈ r.1) ∧ (∀ a, a ∈ r.1 → a ∈ pas ∨ a ∈ map fst l).
Proof.
  induction l as [|[pa n] l IH]; intros cumulative pas hot Hh; cbn [select_loop]; [by split; auto|]. case_if; [by split; auto|].
  destruct (IH (cumulative + n) (bt_insert pa pas) (if (length hot <? hot_blocks)%nat then bt_insert pa hot else hot)) as [H1 H2].
  - intros a. case_if; rewrite !bt_insert_elem; naive_solver.
  - split; [done|]. intros a Ha%H2. cbn. rewrite bt_insert_elem in Ha. rewrite elem_of_cons. naive_solver.
Qed.

Lemma insert_counted_elem e d l : d ∈ insert_counted e l ↔ d = e ∨ d ∈ l.
Proof. induction l as [|b l IH]; cbn; [by rewrite list_elem_of_singleton, elem_of_nil; tauto|]. case_if; rewrite !elem_of_cons; [done|]. rewrite IH. tauto. Qed.

Lemma sort_counted_elem l d : d ∈ sort_counted l ↔ d ∈ l.
Proof.
  assert (H : ∀ acc, d ∈ foldl (fun sorted e => insert_counted e sorted) acc l ↔ d ∈ acc ∨ d ∈ l).
  { induction l as [|e l IH]; intros acc; cbn; [rewrite elem_of_nil; tauto|]. rewrite IH, insert_counted_elem, elem_of_cons. tauto. }
  unfold sort_counted. rewrite H, elem_of_nil. tauto.
Qed.

Lemma selected_were_traced max_blocks hot_blocks target counted :
  let r := select_blocks max_blocks hot_blocks target counted in
  (∀ a, a ∈ r.2 → a ∈ r.1) ∧ (∀ a, a ∈ r.1 → ∃ n, (a, n) ∈ counted).
Proof.
  destruct (select_loop_spec hot_blocks target (take max_blocks (sort_counted counted)) 0 [] []) as [H1 H2]; [by intros a ?%elem_of_nil|].
  split; [exact H1|]. intros a [?%elem_of_nil|Ha]%H2; [done|]. apply list_elem_of_fmap in Ha as ([b n] & -> & Ha). exists n.
  apply elem_of_take in Ha as (i & Ei & _). apply sort_counted_elem. by eapply list_elem_of_lookup_2.
Qed.

(** A test program is written for every seed: two instructions that set up the bases, 46 at random, and [ecall]. *)
Lemma gen_program_total data_page code_page x : ∃ l x', gen_program data_page code_page x = Some (l, x') ∧ length l = S PROGRAM_INSNS ∧ list.last l = Some 0x73.
Proof.
  assert (Hbind : ∀ A C (m : ST Z A) (k : A -> ST Z C), (∀ x, is_Some (m x)) → (∀ a x, is_Some (k a x)) → ∀ x, is_Some ((m ≫= k) x)).
  { intros A C m k Hm Hk y. unfold mbind, ST_bind. destruct (Hm y) as [[a y'] ->]. apply Hk. }
  assert (Hret : ∀ A (a : A) y, is_Some ((mret a : ST Z A) y)) by (intros; by eexists).
  assert (Hnext : ∀ y, is_Some (rng_next y)) by (intros; by eexists).
  assert (Hbelow : ∀ n y, is_Some (rng_below n y)) by (intros n; apply Hbind; auto).
  assert (Hpick : ∀ A (I : Inhabited A) (l : list A) y, is_Some (pick l y)) by (intros; apply Hbind; auto).
  assert (Hrd : ∀ y, is_Some (rand_rd y)) by (apply Hbind; auto).
  assert (Hinsn : ∀ len y, is_Some (gen_insn len y)).
  { intros len. unfold gen_insn. cbv zeta. repeat first [apply Hbind; [solve [auto]|]; intros ? | case_if; try solve [auto]]; auto. }
  assert (Hinsns : ∀ n len x, ∃ l x', gen_insns n len x = Some (l, x') ∧ length l = n).
  { induction n as [|n IH]; intros len y; cbn [gen_insns]; [by eexists _, _|]. destruct (Hinsn len y) as [[i y1] E1], (IH (S len) y1) as (l & y2 & E2 & Hl).
    exists (i :: l), y2. unfold mbind, ST_bind. rewrite E1, E2. by cbn; rewrite Hl. }
  destruct (Hinsns (PROGRAM_INSNS - 2)%nat 2%nat x) as (l & x' & E & Hl). unfold gen_program. unfold mbind, ST_bind. rewrite E.
  eexists _, x'. split; [reflexivity|]. split; [cbn [length]; rewrite length_app, Hl; done|]. rewrite !app_comm_cons. by rewrite last_snoc.
Qed.
