(* ===== verification/Repl.v ===== *)
(** Talking to the shell of a guest through its serial ports
    ([wasi-component/src/repl.rs]).

    The front end sees a machine as a [Guest]: four serial ports, a clock it moves
    and steps it runs.  Output is collected until the prompt, a sentinel, an exit
    status on the control port or a deadline; [ExecState] is what a command has
    said so far.  The host's clocks and random bytes are a [SystemHost]; strings are
    their UTF-8 bytes. *)
From Stdlib Require Import String.
From S2P Require Import Prelude Words Trap SyscallTrace HostFs Dtb Trace Text VirtioConsole Secrets Http.

Definition STEP : Z := 8192.
Definition RUN_STEP : Z := 524288.
Definition MAX_TIMER_WARP_NS : Z := 100000000.
Definition NET_YIELD_NS : Z := 5000000.
Definition GRACE_STEPS : nat := Z.to_nat 2000.
Definition PROMPT_STEPS : nat := Z.to_nat 500000.
Definition SEED_BYTES : Z := 32.
Definition SEED_BINARY : list Z := as_bytes "/usr/lib/vpod/vpod-seed-entropy".

Inductive Port : Type := PortMain | PortStderr | PortCtrl | PortData.

(** The hart and the bus, as far as the front end uses them. *)
Class Guest (G : Type) := {
  g_push_rx : Port -> Z -> G -> G;
  g_transmitted : Port -> G -> list Z;
  g_clear_tx : Port -> G -> G;
  g_is_waiting : G -> bool;
  g_wake : G -> G;
  g_shutdown : G -> bool;
  g_advance_by_instructions : Z -> G -> option G;
  g_advance_by_nanos : Z -> G -> option G;
  g_nanos_until_timer : G -> option Z;
  g_fast_forward_to_timer : G -> G;
  g_has_pending_io : G -> bool;
  g_net_rx_pending : G -> bool;
  g_poll : ST G unit;
  g_run : Z -> ST G StepResult;
  g_run_until_wait : Z -> ST G StepResult
}.

(** The component's host: [h_wait] is [poll] on a timer. *)
Class SystemHost (E : Type) := {
  h_monotonic : ST E Z;
  h_wall_seconds : ST E Z;
  h_wait : Z -> ST E unit;
  h_random_bytes : Z -> ST E (list Z);
  h_random_u64 : ST E Z
}.

Definition saturating_add64 (a b : Z) : Z := Z.min (a + b) U64_MAX.
Definition saturating_mul64 (a b : Z) : Z := Z.min (a * b) U64_MAX.

(** ** Text *)

(** [ends_with] *)
Definition ends_with (l pat : list Z) : bool := starts_with (rev pat) (rev l).

(** [lines()]: pieces that end in a newline, without it and a carriage return before it. *)
Definition strip_cr (l : list Z) : list Z := if ends_with l [13] then take (length l - 1) l else l.
Fixpoint ended_lines (l : list (list Z)) : list (list Z) :=
  match l with
  | [] => []
  | [rest] => if bool_decide (rest = []) then [] else [rest]
  | line :: l => strip_cr line :: ended_lines l
  end.
Definition str_lines (l : list Z) : list (list Z) := ended_lines (split_on 10 l).

Fixpoint join_lines (l : list (list Z)) : list Z :=
  match l with
  | [] => []
  | [x] => x
  | x :: l => x ++ [10] ++ join_lines l
  end.

Definition is_digit (b : Z) : bool := (48 <=? b) && (b <=? 57).
Definition is_alphabetic (b : Z) : bool := ((65 <=? b) && (b <=? 90)) || ((97 <=? b) && (b <=? 122)).

(** A line of the kernel's log. *)
Definition is_kernel_line (line : list Z) : bool :=
  let t := trim_start line in
  starts_with (as_bytes "---[") t
  || (starts_with [91] t && contains_sub (as_bytes "] ") t
      && match find_sub [93] (drop 1 t) with
         | Some i => forallb (fun b => is_digit b || (b =? 46)) (trim (take i (drop 1 t)))
         | None => false
         end).

Definition strip_kernel_log (s : list Z) : list Z :=
  let stripped := join_lines (List.filter (fun line => negb (is_kernel_line line)) (str_lines s)) in
  if ends_with s [10] && negb (bool_decide (stripped = [])) then stripped ++ [10] else stripped.

(** Where the text after an escape and a bracket goes on. *)
Fixpoint skip_csi (l : list Z) : list Z :=
  match l with
  | [] => []
  | c :: l => if is_alphabetic c then l else skip_csi l
  end.
(** The loop over the characters; other characters than ASCII are bytes of 0x80 and above. *)
Fixpoint strip_ansi_loop (fuel : nat) (l : list Z) : list Z :=
  match fuel with
  | O => []
  | S fuel =>
      match l with
      | [] => []
      | 27 :: 91 :: l => strip_ansi_loop fuel (skip_csi l)
      | 27 :: l => strip_ansi_loop fuel l
      | c :: l => c :: strip_ansi_loop fuel l
      end
  end.
Definition strip_ansi (l : list Z) : list Z := strip_ansi_loop (length l) l.

(** [windows(n).any(..)] *)
Definition contains_subslice (haystack needle : list Z) : bool :=
  if decide (needle = []) then true else contains_sub needle haystack.

(** ** [ExecState] *)

Inductive SliceOutcome : Type := Finished | TimedOut | Yielded.

Record ExecState := mkExec {
  ex_output : list Z;
  scanned_upto : nat;
  ex_stderr : list Z;
  ended_at_prompt : bool;
  ex_deadline : Z;
  ex_tty : bool
}.
#[export] Instance ExecState_eta : Eta ExecState := fun s =>
  mkExec (ex_output s) (scanned_upto s) (ex_stderr s) (ended_at_prompt s) (ex_deadline s) (ex_tty s).

Definition deadline_from (timeout_secs now : Z) : Z :=
  if timeout_secs =? 0 then U64_MAX else saturating_add64 now (saturating_mul64 timeout_secs 1000000000).

Definition exec_state (timeout_secs now : Z) (tty : bool) : ExecState := mkExec [] 0 [] false (deadline_from timeout_secs now) tty.

Definition absorb_stderr (bytes : list Z) (s : ExecState) : ExecState := s <| ex_stderr := ex_stderr s ++ bytes |>.
Definition absorb_output (bytes : list Z) (s : ExecState) : ExecState := s <| ex_output := ex_output s ++ bytes |>.

(** Only what came since the last look is searched, and as much before it as an
    occurrence can begin in. *)
Definition saw_sentinel (needle : list Z) (s : ExecState) : bool * ExecState :=
  let overlap := (length needle - 1)%nat in
  let from := Nat.min (scanned_upto s - overlap) (length (ex_output s)) in
  (contains_subslice (drop from (ex_output s)) needle, s <| scanned_upto := length (ex_output s) |>).

Definition truncate_output (len : nat) (s : ExecState) : ExecState :=
  s <| ex_output := take len (ex_output s) |> <| scanned_upto := Nat.min (scanned_upto s) len |>.

(** [rposition] *)
Fixpoint rposition (p : Z -> bool) (l : list Z) : option nat :=
  match l with
  | [] => None
  | b :: l => match rposition p l with Some i => Some (S i) | None => if p b then Some 0%nat else None end
  end.

Definition safe_boundary (buf : list Z) : nat :=
  match rposition (fun b => b =? 10) buf with Some position => S position | None => 0 end.

(** [str::from_utf8]: [None] if all is valid, else how much is, and whether what follows
    is only cut off ([error_len] is [None]). *)
Fixpoint utf8_error (fuel : nat) (l : list Z) (valid : nat) : option (nat * bool) :=
  match fuel, l with
  | S fuel, b :: _ =>
      let '(ok, k) := utf8_chunk l in
      if ok then utf8_error fuel (drop k l) (valid + k) else Some (valid, bool_decide (length l = k) && byte_in 0xC2 0xF4 b)
  | _, _ => None
  end.

(** The longest beginning of the prompt, at most [n] bytes, that [buf] ends with. *)
Fixpoint prompt_overlap (n : nat) (buf prompt : list Z) : nat :=
  match n with
  | O => 0
  | S m => if ends_with buf (take n prompt) then n else prompt_overlap m buf prompt
  end.

Definition escape_complete (tail : list Z) : bool :=
  match tail with
  | [] | [_] => false
  | _ :: 91 :: rest => existsb is_alphabetic rest
  | _ => true
  end.

Definition tty_boundary (buf prompt : list Z) : nat :=
  let stop := length buf in
  let stop := if ends_with buf [13] then (stop - 1)%nat else stop in
  let stop := match utf8_error stop (take stop buf) 0 with Some (valid, true) => valid | _ => stop end in
  let stop :=
    match rposition (fun b => b =? 27) (take stop buf) with
    | Some escape => if escape_complete (drop escape (take stop buf)) then stop else escape
    | None => stop
    end in
  (stop - prompt_overlap (Nat.min (length prompt) stop) (take stop buf) prompt)%nat.

Definition drain_output (prompt : list Z) (s : ExecState) : list Z * ExecState :=
  let boundary := if ex_tty s then tty_boundary (ex_output s) prompt else safe_boundary (ex_output s) in
  if (boundary =? 0)%nat then ([], s)
  else
    let text := lossy (take boundary (ex_output s)) in
    (if ex_tty s then strip_kernel_log text else strip_kernel_log (strip_ansi text),
     s <| ex_output := drop boundary (ex_output s) |> <| scanned_upto := (scanned_upto s - boundary)%nat |>).

Definition drain_stderr (s : ExecState) : list Z * ExecState :=
  let boundary := safe_boundary (ex_stderr s) in
  if (boundary =? 0)%nat then ([], s) else (lossy (take boundary (ex_stderr s)), s <| ex_stderr := drop boundary (ex_stderr s) |>).

Definition finish_stderr (s : ExecState) : list Z := lossy (ex_stderr s).

(** ** Running the guest *)

Section Repl.
Context {LB : LoopBound} {G E : Type} {GU : Guest G} {HO : SystemHost E}.
Abbreviation M := (ST (G * E)).

Definition on_guest {A} (m : ST G A) : M A := zoom fst (fun g s => (g, s.2)) m.
Definition on_system {A} (m : ST E A) : M A := zoom snd (fun e s => (s.1, e)) m.
Definition mod_guest (f : G -> G) : M unit := modify (fun s => (f s.1, s.2)).
Definition get_guest {A} (f : G -> A) : M A := gets (fun s => f s.1).
Definition try_guest (f : G -> option G) : M unit := on_guest (fun g => match f g with Some g => Some (tt, g) | None => None end).

Definition drain_port (p : Port) : M (list Z) := bytes ← get_guest (g_transmitted p); mod_guest (g_clear_tx p);; mret bytes.
Definition port_is_empty (p : Port) : M bool := get_guest (fun g => bool_decide (g_transmitted p g = [])).
Fixpoint type_bytes (p : Port) (bytes : list Z) : M unit :=
  match bytes with [] => mret tt | b :: bytes => mod_guest (g_push_rx p b);; type_bytes p bytes end.

(** The guest goes on for [n] instructions; [true] as long as it can. *)
Definition wake_up : M unit := waiting ← get_guest g_is_waiting; if waiting : bool then mod_guest g_wake else mret tt.
Definition keeps_going (r : StepResult) : bool := match r with StepOk => true | _ => false end.
Definition run_step (n : Z) : M bool :=
  try_guest (g_advance_by_instructions n);; on_guest g_poll;; r ← on_guest (g_run n); mret (keeps_going r).

Fixpoint wait_for_prompt_loop (n : nat) (prompt buffer : list Z) : M bool :=
  match n with
  | O => mret false
  | S n =>
      wake_up;;
      ok ← run_step STEP;
      if negb ok then mret false
      else
        output ← drain_port PortMain;
        let buffer := buffer ++ output in
        if negb (bool_decide (output = [])) && ends_with buffer prompt then mret true
        else wait_for_prompt_loop n prompt buffer
  end.
Definition wait_for_prompt (prompt : list Z) : M bool := wait_for_prompt_loop PROMPT_STEPS prompt [].
(** The same loop, for fewer steps and without an answer. *)
Definition absorb_stray_prompt (prompt : list Z) : M unit := wait_for_prompt_loop GRACE_STEPS prompt [];; mret tt.

Fixpoint ctrl_loop (n : nat) : M (list Z) :=
  match n with
  | O => drain_port PortCtrl
  | S n =>
      bytes ← drain_port PortCtrl;
      if negb (bool_decide (bytes = [])) then mret bytes
      else
        wake_up;;
        ok ← run_step STEP;
        if negb ok then drain_port PortCtrl else ctrl_loop n
  end.
Definition drain_ctrl_with_grace : M (list Z) := ctrl_loop GRACE_STEPS.

Fixpoint settle_loop (fuel : nat) (deadline : Z) : M unit :=
  match fuel with
  | O => panic
  | S fuel =>
      now ← on_system h_monotonic;
      if deadline <=? now then mret tt
      else
        wake_up;;
        ok ← run_step STEP;
        if negb ok then mret tt else drain_port PortMain;; settle_loop fuel deadline
  end.
Definition settle (wall_ns : Z) : M unit := now ← on_system h_monotonic; settle_loop loop_bound (as_u64 (now + wall_ns)).

(** *** Commands of the front end *)

Definition run_quietly (prompt cmd : list Z) : M (list Z) :=
  drain_port PortStderr;;
  type_bytes PortMain cmd;;
  type_bytes PortMain [10];;
  wait_for_prompt prompt;;
  drain_port PortMain;;
  complaint ← drain_port PortStderr;
  drain_port PortCtrl;;
  mret complaint.

Definition hex2 (b : Z) : list Z := [hex_digit (b / 16); hex_digit (b mod 16)].

Definition reseed_fragment : M (list Z) :=
  seed ← on_system (h_random_bytes SEED_BYTES);
  shell_seed ← on_system h_random_u64;
  mret (as_bytes "RANDOM=" ++ display (as_u32 shell_seed) ++ as_bytes "; " ++ SEED_BINARY ++ [32] ++ concat (map hex2 seed) ++ as_bytes " 2>/dev/ttyS1").

(** The warning on standard error is not modelled. *)
Definition reseed (prompt : list Z) : M unit := fragment ← reseed_fragment; run_quietly prompt fragment;; mret tt.

Definition date_command (seconds : Z) : list Z := as_bytes "date -s @" ++ display seconds ++ as_bytes " >/dev/null".
Definition repl_sync_clock (prompt : list Z) : M unit := now ← on_system h_wall_seconds; run_quietly prompt (date_command now);; mret tt.
Definition sync_clock_and_reseed (prompt : list Z) : M unit :=
  now ← on_system h_wall_seconds;
  fragment ← reseed_fragment;
  run_quietly prompt (date_command now ++ as_bytes "; " ++ fragment);;
  mret tt.

Definition init_command (prompt : list Z) : list Z :=
  as_bytes "__ec() { printf " ++ [34] ++ as_bytes "\x$(printf %02x $1)" ++ [34] ++ as_bytes " >/dev/ttyS2; }; export PS2=''; export PS1='$(__ec $?)"
    ++ lossy prompt ++ as_bytes "'; export -n PS1; trap '__ec $?' EXIT" ++ [10].

Definition shell_init (prompt : list Z) : M unit :=
  sync_clock_and_reseed prompt;;
  type_bytes PortMain (as_bytes "stty -echo" ++ [10]);;
  wait_for_prompt prompt;;
  drain_port PortMain;;
  type_bytes PortMain (init_command prompt);;
  wait_for_prompt prompt;;
  drain_port PortMain;;
  drain_port PortStderr;;
  drain_port PortCtrl;;
  mret tt.

(** *** [run_slice] *)

Definition exec_new (timeout_secs : Z) (tty : bool) : M ExecState := now ← on_system h_monotonic; mret (exec_state timeout_secs now tty).

(** The guest waits for an interrupt: its clock is moved to the timer if that is
    near, and otherwise by what the host slept. *)
Definition idle : M unit :=
  pending ← get_guest g_has_pending_io;
  if pending : bool then mret tt
  else
    timer ← get_guest g_nanos_until_timer;
    if match timer with Some ns => ns <=? MAX_TIMER_WARP_NS | None => false end then mod_guest g_fast_forward_to_timer;; on_guest g_poll
    else
      before ← on_system h_monotonic;
      on_system (h_wait NET_YIELD_NS);;
      now ← on_system h_monotonic;
      try_guest (g_advance_by_nanos (Z.max 0 (now - before))).

(** The prompt at the end of the output is taken off. *)
Definition at_prompt (prompt : list Z) (s : ExecState) : ExecState :=
  truncate_output (length (ex_output s) - length prompt) s <| ended_at_prompt := true |>.

(** After an exit status was seen, up to 1024 steps for the prompt. *)
Fixpoint prompt_after_status (n : nat) (prompt : list Z) (s : ExecState) : M ExecState :=
  match n with
  | O => mret s
  | S n =>
      ok ← run_step STEP;
      if negb ok then mret s
      else
        extra ← drain_port PortMain;
        let s := absorb_output extra s in
        if negb (bool_decide (extra = [])) && ends_with (ex_output s) prompt then mret (at_prompt prompt s)
        else prompt_after_status n prompt s
  end.

(** What arrived is looked at: [Some] when the command is over. *)
Definition look_at (prompt : list Z) (sentinel : option (list Z)) (data_channel : bool) (tx : list Z) (s : ExecState) : bool * ExecState :=
  let s := absorb_output tx s in
  if bool_decide (tx = []) then (false, s)
  else if negb data_channel && ends_with (ex_output s) prompt then (true, at_prompt prompt s)
  else match sentinel with Some needle => saw_sentinel needle s | None => (false, s) end.

Fixpoint slice_loop (fuel : nat) (prompt : list Z) (stop_on_ctrl : bool) (sentinel : option (list Z)) (data_channel : bool) (slice_deadline : Z)
    (s : ExecState) : M (SliceOutcome * ExecState) :=
  match fuel with
  | O => panic
  | S fuel =>
      now ← on_system h_monotonic;
      if ex_deadline s <=? now then mret (TimedOut, s)
      else if slice_deadline <=? now then mret (Yielded, s)
      else
        waiting ← get_guest g_is_waiting;
        (if waiting : bool then mod_guest g_wake;; idle else mret tt);;
        rx ← get_guest g_net_rx_pending;
        let step := if rx : bool then STEP else RUN_STEP in
        try_guest (g_advance_by_instructions step);;
        on_guest g_poll;;
        r ← on_guest (g_run_until_wait step);
        if negb (keeps_going r) then
          quiet ← port_is_empty PortCtrl;
          (if stop_on_ctrl && negb quiet then drain_port PortMain;; mret tt else mret tt);;
          mret (Finished, s)
        else
          tx ← drain_port (if data_channel then PortData else PortMain);
          let '(over, s) := look_at prompt sentinel data_channel tx s in
          if over : bool then mret (Finished, s)
          else
            quiet ← port_is_empty PortCtrl;
            if negb data_channel && stop_on_ctrl && negb quiet then s ← prompt_after_status (Z.to_nat 1024) prompt s; mret (Finished, s)
            else slice_loop fuel prompt stop_on_ctrl sentinel data_channel slice_deadline s
  end.

Definition run_slice (prompt : list Z) (stop_on_ctrl : bool) (sentinel : option (list Z)) (data_channel : bool) (slice_nanos : Z) (s : ExecState)
    : M (SliceOutcome * ExecState) :=
  now ← on_system h_monotonic;
  slice_loop loop_bound prompt stop_on_ctrl sentinel data_channel (saturating_add64 now slice_nanos) s.

(** *** What a command said *)

(** [status]: something was written to the control port and not read. *)
Definition final_text (status : bool) (sentinel : option (list Z)) (data_channel trim_it : bool) (s : ExecState) : list Z :=
  let output :=
    if negb (ex_tty s) && negb data_channel && negb (ended_at_prompt s) && negb (ends_with (ex_output s) [10])
    then take (safe_boundary (ex_output s)) (ex_output s) else ex_output s in
  let raw := lossy output in
  let cleaned := if ex_tty s then raw else strip_ansi raw in
  if data_channel then
    match sentinel ≫= fun needle => find_sub needle cleaned with
    | Some pos => trim_end (take pos cleaned)
    | None => trim_end cleaned
    end
  else
    let filtered := if status then strip_kernel_log cleaned else cleaned in
    if ex_tty s || negb trim_it then filtered else trim_end filtered.

Definition finish_output (sentinel : option (list Z)) (data_channel trim_it : bool) (s : ExecState) : M (list Z) :=
  quiet ← port_is_empty PortCtrl;
  mret (final_text (negb quiet) sentinel data_channel trim_it s).

Fixpoint capture_loop (fuel : nat) (prompt : list Z) (stop_on_ctrl : bool) (sentinel : option (list Z)) (data_channel : bool) (s : ExecState) : M ExecState :=
  match fuel with
  | O => panic
  | S fuel =>
      r ← run_slice prompt stop_on_ctrl sentinel data_channel U64_MAX s;
      match r.1 with Yielded => capture_loop fuel prompt stop_on_ctrl sentinel data_channel r.2 | _ => mret r.2 end
  end.

Definition capture_output (prompt : list Z) (timeout_secs : Z) (stop_on_ctrl : bool) (sentinel : option (list Z)) (data_channel : bool) : M (list Z) :=
  s ← exec_new timeout_secs false;
  s ← capture_loop loop_bound prompt stop_on_ctrl sentinel data_channel s;
  finish_output sentinel data_channel true s.
End Repl.

(** * Properties

    A sentinel is found as soon as it is there, however the output arrives, and a
    terminal is never shown a part of the prompt. *)

(** ** The sentinel *)

Lemma starts_with_inside pat l j n : starts_with pat (drop j l) = true → (j + length pat <= n)%nat → starts_with pat (drop j (take n l)) = true.
Proof.
  intros E Hj. rewrite skipn_firstn_comm. revert E. generalize (drop j l) as m. intros m E.
  rewrite <- (take_drop (n - j) m) in E. pose proof (starts_with_length _ _ E) as Hl. rewrite take_drop in Hl.
  rewrite starts_with_app in E; [done|]. rewrite length_take. lia.
Qed.

(** Nothing is missed by searching only from [overlap] before the new bytes on. *)
Lemma search_resumed pat l n : find_sub pat (take n l) = None → (n <= length l)%nat → pat ≠ [] →
  contains_sub pat (drop (Nat.min (n - (length pat - 1)) (length l)) l) = contains_sub pat l.
Proof.
  intros Hn Hl Hp. rewrite Nat.min_l by lia. unfold contains_sub. rewrite (find_sub_skip pat l (n - (length pat - 1))).
  - apply bool_decide_ext. by destruct (find_sub pat (drop _ l)).
  - lia.
  - intros j Hj. destruct (starts_with pat (drop j l)) eqn:E; [|done]. destruct pat as [|x pat]; [done|]. cbn [length] in Hj.
    rewrite <- (find_sub_none _ _ Hn j); [symmetry|rewrite length_take; lia]. apply starts_with_inside; [done | cbn; lia].
Qed.

Definition scanned_ok (needle : list Z) (s : ExecState) : Prop :=
  (scanned_upto s <= length (ex_output s))%nat ∧ (needle ≠ [] → find_sub needle (take (scanned_upto s) (ex_output s)) = None).

Lemma saw_sentinel_spec needle s : scanned_ok needle s →
  (saw_sentinel needle s).1 = contains_subslice (ex_output s) needle ∧
  ((saw_sentinel needle s).1 = false → scanned_ok needle (saw_sentinel needle s).2).
Proof.
  intros [Hl Hn]. unfold saw_sentinel, contains_subslice, scanned_ok. cbn. destruct (decide (needle = [])) as [->|Hne]; [done|].
  rewrite search_resumed by auto. split; [done|]. rewrite firstn_all. unfold contains_sub. rewrite bool_decide_eq_false. intros H. split; [lia|]. intros _. by apply dec_stable.
Qed.

(** Output that arrives in pieces, up to the sentinel, and the same by searching all
    of it again each time. *)
Fixpoint scan (needle : list Z) (pieces : list (list Z)) (s : ExecState) : bool * ExecState :=
  match pieces with
  | [] => (false, s)
  | tx :: pieces => let '(over, s) := look_at [] (Some needle) true tx s in if over : bool then (true, s) else scan needle pieces s
  end.

Fixpoint search_again (needle : list Z) (pieces : list (list Z)) (output : list Z) : bool * list Z :=
  match pieces with
  | [] => (false, output)
  | tx :: pieces => if negb (bool_decide (tx = [])) && contains_subslice (output ++ tx) needle then (true, output ++ tx) else search_again needle pieces (output ++ tx)
  end.

(** The output of a program that ends with a sentinel is complete as soon as the
    sentinel is in it, however it is cut into pieces: looking only at the new bytes,
    and as many before them as a sentinel can begin in, finds it in the same piece
    as searching everything again would, and leaves the same output. *)
Theorem sentinel_found_at_once needle pieces timeout now tty :
  let r := scan needle pieces (exec_state timeout now tty) in
  (r.1, ex_output r.2) = search_again needle pieces [].
Proof.
  cbv zeta. set (s := exec_state timeout now tty). change [] with (ex_output s) at 1. assert (Hs : scanned_ok needle s) by by split; [|intros H; destruct needle].
  clearbody s. revert s Hs. induction pieces as [|tx pieces IH]; intros s Hs; [done|]. cbn [scan search_again]. unfold look_at.
  destruct Hs as [Hl Hn]. assert (Ha : scanned_ok needle (absorb_output tx s)).
  { unfold scanned_ok. change (ex_output (absorb_output tx s)) with (ex_output s ++ tx). change (scanned_upto (absorb_output tx s)) with (scanned_upto s).
    rewrite length_app. split; [lia|]. intros Hne. rewrite take_app_le by done. by apply Hn. }
  case_bool_decide as Htx; cbn [negb andb]; [exact (IH _ Ha)|]. destruct (saw_sentinel_spec needle _ Ha) as [E Hnext].
  destruct (saw_sentinel needle (absorb_output tx s)) as [over s1] eqn:Es. cbn [fst snd] in *.
  assert (Eo : ex_output s1 = ex_output s ++ tx) by (unfold saw_sentinel in Es; by injection Es as _ <-). change (ex_output (absorb_output tx s)) with (ex_output s ++ tx) in E.
  rewrite <- E. destruct over; [by rewrite <- Eo|]. rewrite <- Eo. by apply IH, Hnext.
Qed.

(** ** What a terminal is shown *)

Lemma ends_with_suffix a pat : ends_with (a ++ pat) pat = true.
Proof.
  unfold ends_with. rewrite rev_app_distr. induction (rev pat) as [|x l IH]; [by destruct (rev a)|]. cbn. by rewrite Z.eqb_refl.
Qed.

Lemma ends_with_byte l b : ends_with l [b] = true → list.last l = Some b.
Proof.
  destruct l as [|x l' _] using rev_ind; [done|]. unfold ends_with. rewrite rev_app_distr, last_snoc. cbn. destruct (b =? x) eqn:E; [|done]. by rewrite Z.eqb_eq in E; subst.
Qed.

Lemma last_drop_some {A} n (l : list A) c : list.last (drop n l) = Some c → list.last l = Some c.
Proof. rewrite !last_Some. intros [l' E]. exists (take n l ++ l'). by rewrite <- app_assoc, <- E, take_drop. Qed.

(** A character that is cut off ends in a byte that is not ASCII. *)
Lemma cut_off_byte b l : utf8_chunk (b :: l) = (false, length (b :: l)) → byte_in 0xC2 0xF4 b = true → ∃ c, list.last (b :: l) = Some c ∧ 0x80 <= c.
Proof.
  unfold utf8_chunk, utf8_second3, utf8_second4, utf8_cont, byte_in. cbn [nth length]. intros E Hb. rewrite andb_true_iff, !Z.leb_le in Hb.
  destruct l as [|c [|d [|e l]]]; cbn [nth length] in E; [exists b | exists c | exists d | exfalso]; [(split; [done|])..|];
    repeat case_match; try discriminate E; try lia.
Qed.

Lemma utf8_error_cut fuel : ∀ l v n, utf8_error fuel l v = Some (n, true) → ∃ c, list.last l = Some c ∧ 0x80 <= c.
Proof.
  induction fuel as [|fuel IH]; intros [|b l] v n E; try done. cbn [utf8_error] in E. destruct (utf8_chunk (b :: l)) as [ok k] eqn:Ek. destruct ok.
  - destruct (IH _ _ _ E) as (c & Hc & Hge). exists c. split; [|done]. by eapply last_drop_some.
  - injection E as _ E. rewrite andb_true_iff, bool_decide_eq_true in E. destruct E as [<- Hb]. by apply cut_off_byte.
Qed.

Lemma rposition_some p l i : rposition p l = Some i → ∃ b, l !! i = Some b ∧ p b = true.
Proof.
  revert i. induction l as [|b l IH]; intros i E; [done|]. cbn in E. destruct (rposition p l) as [j|]; [injection E as <-; by apply IH|].
  destruct (p b) eqn:Ep; [|done]. injection E as <-. by exists b.
Qed.

Lemma prompt_overlap_ge n k buf prompt : (k <= n)%nat → ends_with buf (take k prompt) = true → (k <= prompt_overlap n buf prompt)%nat.
Proof.
  induction n as [|n IH]; intros Hk E; [cbn; lia|]. cbn. destruct (ends_with buf (take (S n) prompt)) eqn:E2; [done|].
  apply IH; [|done]. destruct (decide (k = S n)) as [->|]; [congruence | lia].
Qed.

(** Nothing in a prompt can be held back for another reason. *)
Definition plain_prompt (prompt : list Z) : Prop := Forall (fun b => b < 0x80 ∧ b ≠ 27 ∧ b ≠ 13) prompt.

Lemma tty_boundary_plain text prompt k : plain_prompt prompt → (0 < k <= length prompt)%nat →
  (tty_boundary (text ++ take k prompt) prompt <= length text)%nat.
Proof.
  intros Hp Hk. set (buf := text ++ take k prompt). assert (Hlen : length buf = (length text + k)%nat) by (subst buf; rewrite length_app, length_take; lia).
  assert (Hlast : ∀ c, list.last buf = Some c → c < 0x80 ∧ c ≠ 27 ∧ c ≠ 13).
  { intros c Hc. rewrite last_lookup, Hlen in Hc. subst buf. rewrite lookup_app_r in Hc by lia.
    eapply (Forall_lookup_1 _ _ _ _ Hp). replace (pred (length text + k) - length text)%nat with (pred k) in Hc by lia.
    rewrite lookup_take_lt in Hc by lia. exact Hc. }
  unfold tty_boundary. destruct (ends_with buf [13]) eqn:E13; [exfalso; apply ends_with_byte, Hlast in E13; lia|]. rewrite firstn_all.
  assert (Hutf : match utf8_error (length buf) buf 0 with Some (valid, true) => valid | _ => length buf end = length buf).
  { destruct (utf8_error _ _ _) as [[v []]|] eqn:E; [|done..]. destruct (utf8_error_cut _ _ _ _ E) as (c & Hc & Hge). apply Hlast in Hc. lia. }
  rewrite Hutf, firstn_all. assert (Hov : ends_with buf (take k prompt) = true) by apply ends_with_suffix.
  destruct (rposition _ buf) as [e|] eqn:Ee.
  - apply rposition_some in Ee as (c & Hc & E27). apply Z.eqb_eq in E27. subst c. destruct (escape_complete _).
    + rewrite firstn_all. pose proof (prompt_overlap_ge (Nat.min (length prompt) (length buf)) k buf prompt ltac:(lia) Hov). lia.
    + destruct (decide (e < length text)%nat); [lia|]. exfalso. subst buf. rewrite lookup_app_r in Hc by lia.
      apply lookup_lt_Some in Hc as Hlt. rewrite length_take in Hlt. rewrite lookup_take_lt in Hc by lia. apply (Forall_lookup_1 _ _ _ _ Hp) in Hc. lia.
  - rewrite firstn_all. pose proof (prompt_overlap_ge (Nat.min (length prompt) (length buf)) k buf prompt ltac:(lia) Hov). lia.
Qed.

Lemma tty_boundary_le buf prompt : (tty_boundary buf prompt <= length buf)%nat.
Proof.
  assert (Hv : ∀ fuel l v n b, utf8_error fuel l v = Some (n, b) → (n <= v + length l)%nat).
  { induction fuel as [|fuel IH]; intros [|x l] v n b E; try done. cbn [utf8_error] in E. destruct (utf8_chunk (x :: l)) as [ok k] eqn:Ek.
    assert (Hk : ok = true → (k <= length (x :: l))%nat).
    { intros ->. revert Ek. unfold utf8_chunk, utf8_second3, utf8_second4, utf8_cont, byte_in.
      destruct l as [|c [|d [|e l]]]; cbn [nth length]; repeat case_match; intros [= <-]; lia. }
    destruct ok; [|injection E as <- _; lia]. apply IH in E. rewrite length_drop in E. specialize (Hk eq_refl). lia. }
  unfold tty_boundary. set (a := if ends_with buf [13] then _ else _). assert (Ha : (a <= length buf)%nat) by (subst a; case_match; lia).
  set (b := match utf8_error _ _ _ with Some (valid, true) => valid | _ => a end). assert (Hb : (b <= a)%nat).
  { subst b. destruct (utf8_error a _ 0) as [[v []]|] eqn:E; [|lia..]. apply Hv in E. rewrite length_take in E. lia. }
  destruct (rposition _ (take b buf)) as [e|] eqn:Ee; [|lia]. apply rposition_some in Ee as (c & Hc & _). apply lookup_lt_Some in Hc. rewrite length_take in Hc.
  destruct (escape_complete _); lia.
Qed.

(** C11: a terminal is shown what a program writes and never a part of the prompt that
    follows it.  If what has arrived so far is a beginning of the text and the prompt,
    draining shows a piece of the text that is waiting and keeps exactly the rest,
    wherever the reading stopped: in the text, or within the prompt. *)
Theorem prompt_never_shown text prompt rest s :
  plain_prompt prompt →
  ex_tty s = true →
  ex_output s ++ rest = text ++ prompt →
  ∃ n, (n <= length text)%nat ∧
    (drain_output prompt s).1 = strip_kernel_log (lossy (take n text)) ∧
    ex_output (drain_output prompt s).2 ++ rest = drop n text ++ prompt.
Proof.
  intros Hp Ht E. set (buf := ex_output s) in *. assert (Hn : (tty_boundary buf prompt <= length text)%nat).
  { destruct (decide (length buf <= length text)%nat); [pose proof (tty_boundary_le buf prompt); lia|].
    assert (Eb : buf = text ++ take (length buf - length text) prompt).
    { rewrite <- (take_app_length buf rest), E at 1. rewrite take_app, (take_ge text) by lia. done. }
    assert (length buf <= length text + length prompt)%nat by (apply (f_equal length) in E; rewrite !length_app in E; lia).
    rewrite Eb at 1. apply tty_boundary_plain; [done|lia]. }
  pose proof (tty_boundary_le buf prompt) as Hl. unfold drain_output. rewrite Ht. fold buf. exists (tty_boundary buf prompt). split; [done|].
  assert (Etake : take (tty_boundary buf prompt) buf = take (tty_boundary buf prompt) text).
  { rewrite <- (take_app_le buf rest), E by lia. by rewrite take_app_le by lia. }
  assert (Edrop : drop (tty_boundary buf prompt) buf ++ rest = drop (tty_boundary buf prompt) text ++ prompt).
  { rewrite <- (drop_app_le buf rest), E by lia. by rewrite drop_app_le by lia. }
  destruct (tty_boundary buf prompt =? 0)%nat eqn:E0; [apply Nat.eqb_eq in E0; rewrite E0 in *; by split|]. rewrite Etake. by split.
Qed.

(** Stopped in the middle of a prompt: the whole text is shown, with its escape sequence,
    and what there is of the prompt waits. *)
Lemma prompt_never_shown_witness :
  let prompt := as_bytes "~ # " in
  let text := [27; 91] ++ as_bytes "1mname: " in
  let s := (exec_state 30 0 true) <| ex_output := text ++ as_bytes "~ " |> in
  (drain_output prompt s).1 = text ∧
  ∃ n, (n <= length text)%nat ∧ (drain_output prompt s).1 = strip_kernel_log (lossy (take n text)) ∧
    ex_output (drain_output prompt s).2 ++ as_bytes "# " = drop n text ++ prompt.
Proof.
  split; [by vm_compute|]. apply prompt_never_shown; [|reflexivity..].
  change (plain_prompt [126; 32; 35; 32]). repeat constructor; discriminate.
Defined.

(** ** What the filter for the kernel's log takes with it *)

(** A line of a program that begins with a number in brackets is taken for the kernel's. *)
Lemma numbered_line_dropped : strip_kernel_log (as_bytes "[1] one" ++ [10] ++ as_bytes "two" ++ [10]) = as_bytes "two" ++ [10].
Proof. by vm_compute. Qed.

(** An empty line that arrives alone is not shown, while within other text it is. *)
Lemma lone_newline_dropped :
  let shown (text : list Z) := (drain_output (as_bytes "# ") ((exec_state 30 0 false) <| ex_output := text |>)).1 in
  shown (as_bytes "a" ++ [10]) ++ shown [10] ++ shown (as_bytes "b" ++ [10]) ≠ shown (as_bytes "a" ++ [10; 10] ++ as_bytes "b" ++ [10]).
Proof. by vm_compute. Qed.

(** ** What running a guest keeps *)

Create HintDb guest.

(** A property of the guest that each operation on it keeps. *)
Class GuestKeeps {G : Type} {GU : Guest G} (I : G -> Prop) := {
  gk_push : ∀ p b g, I g → I (g_push_rx p b g);
  gk_clear : ∀ p g, I g → I (g_clear_tx p g);
  gk_wake : ∀ g, I g → I (g_wake g);
  gk_instructions : ∀ n g g', I g → g_advance_by_instructions n g = Some g' → I g';
  gk_nanos : ∀ n g g', I g → g_advance_by_nanos n g = Some g' → I g';
  gk_forward : ∀ g, I g → I (g_fast_forward_to_timer g);
  gk_poll : ∀ g g', I g → g_poll g = Some (tt, g') → I g';
  gk_run : ∀ n g r g', is_u64 n → I g → g_run n g = Some (r, g') → I g';
  gk_run_until_wait : ∀ n g r g', is_u64 n → I g → g_run_until_wait n g = Some (r, g') → I g'
}.

Section Keeps.
Context {LB : LoopBound} {G E : Type} {GU : Guest G} {HO : SystemHost E} (I : G -> Prop) {GK : GuestKeeps I}.

(** Code on the guest and the host that keeps the property. *)
Definition kept {A} (m : ST (G * E) A) : Prop := ∀ s a s', I s.1 → m s = Some (a, s') → I s'.1.

Lemma kept_bind {A B} (m : ST (G * E) A) (f : A -> ST (G * E) B) : kept m → (∀ a, kept (f a)) → kept (m ≫= f).
Proof. intros Hm Hf s b s' Hs E1. apply st_bind_Some in E1 as (a & s1 & E1 & E2). eapply Hf; [|exact E2]. by eapply Hm. Qed.
Lemma kept_ret {A} (a : A) : kept (mret a).
Proof. by intros s b s' Hs [= <- <-]. Qed.
Lemma kept_panic {A} : kept (panic : ST (G * E) A).
Proof. done. Qed.
Lemma kept_get {A} (f : G -> A) : kept (get_guest f).
Proof. by intros s b s' Hs [= <- <-]. Qed.
Lemma kept_mod f : (∀ g, I g → I (f g)) → kept (mod_guest f).
Proof. intros Hf s b s' Hs [= <- <-]. by apply Hf. Qed.
Lemma kept_try f : (∀ g g', I g → f g = Some g' → I g') → kept (try_guest f).
Proof.
  intros Hf s b s' Hs. unfold try_guest, on_guest, zoom. destruct (f s.1) as [g|] eqn:Ef; [|done]. intros [= <- <-]. by eapply Hf.
Qed.
Lemma kept_on_guest {A} (m : ST G A) : (∀ g a g', I g → m g = Some (a, g') → I g') → kept (on_guest m).
Proof. intros Hm s b s' Hs. unfold on_guest, zoom. destruct (m s.1) as [[a g]|] eqn:Em; [|done]. intros [= <- <-]. by eapply Hm. Qed.
Lemma kept_on_system {A} (m : ST E A) : kept (on_system m).
Proof. intros s b s' Hs. unfold on_system, zoom. destruct (m s.2) as [[a g]|]; [|done]. by intros [= <- <-]. Qed.

Lemma kept_instructions n : kept (try_guest (g_advance_by_instructions n)).
Proof. apply kept_try. intros g g'. apply gk_instructions. Qed.
Lemma kept_nanos n : kept (try_guest (g_advance_by_nanos n)).
Proof. apply kept_try. intros g g'. apply gk_nanos. Qed.
Lemma kept_poll : kept (on_guest g_poll).
Proof. apply kept_on_guest. intros g [] g'. apply gk_poll. Qed.
Lemma kept_run n : is_u64 n → kept (on_guest (g_run n)).
Proof. intros Hn. apply kept_on_guest. intros g a g'. by apply gk_run. Qed.
Lemma kept_run_until_wait n : is_u64 n → kept (on_guest (g_run_until_wait n)).
Proof. intros Hn. apply kept_on_guest. intros g a g'. by apply gk_run_until_wait. Qed.
Lemma kept_push p b : kept (mod_guest (g_push_rx p b)).
Proof. apply kept_mod. intros g. apply gk_push. Qed.
Lemma kept_clear p : kept (mod_guest (g_clear_tx p)).
Proof. apply kept_mod. intros g. apply gk_clear. Qed.
Lemma kept_wake : kept (mod_guest g_wake).
Proof. apply kept_mod. intros g. apply gk_wake. Qed.
Lemma kept_forward : kept (mod_guest g_fast_forward_to_timer).
Proof. apply kept_mod. intros g. apply gk_forward. Qed.
End Keeps.

#[export] Hint Resolve kept_ret kept_panic kept_get kept_on_system kept_instructions kept_nanos kept_poll kept_push kept_clear kept_wake kept_forward : guest.
#[export] Hint Extern 1 (kept _ (on_guest (g_run _))) => apply kept_run; done : guest.
#[export] Hint Extern 1 (kept _ (on_guest (g_run_until_wait _))) => apply kept_run_until_wait; done : guest.

(** Splits code into its calls, which hints or hypotheses know about. *)
Ltac kept_go :=
  repeat first [ assumption | solve [eauto with guest nocore] | apply kept_bind; [|intros ?] | case_match; try discriminate ].

Section KeptPrograms.
Context {LB : LoopBound} {G E : Type} {GU : Guest G} {HO : SystemHost E} (I : G -> Prop) {GK : GuestKeeps I}.
Abbreviation kept := (kept (E := E) I).

Lemma kept_drain p : kept (drain_port p).
Proof. unfold drain_port. kept_go. Qed.
Lemma kept_is_empty p : kept (port_is_empty p).
Proof. unfold port_is_empty. kept_go. Qed.
Lemma kept_type p bytes : kept (type_bytes p bytes).
Proof. induction bytes as [|b bytes IH]; cbn [type_bytes]; kept_go. Qed.
Lemma kept_wake_up : kept wake_up.
Proof. unfold wake_up. kept_go. Qed.
Lemma kept_step : kept (run_step STEP).
Proof. unfold run_step. kept_go. Qed.
End KeptPrograms.
#[export] Hint Resolve kept_drain kept_is_empty kept_type kept_wake_up kept_step : guest.

Section KeptRepl.
Context {LB : LoopBound} {G E : Type} {GU : Guest G} {HO : SystemHost E} (I : G -> Prop) {GK : GuestKeeps I}.
Abbreviation kept := (kept (E := E) I).

Lemma kept_wait_loop n prompt : ∀ buffer, kept (wait_for_prompt_loop n prompt buffer).
Proof. induction n as [|n IH]; intros buffer; cbn [wait_for_prompt_loop]; kept_go. Qed.
Lemma kept_wait prompt : kept (wait_for_prompt prompt).
Proof. apply kept_wait_loop. Qed.
Lemma kept_stray prompt : kept (absorb_stray_prompt prompt).
Proof. apply kept_bind; [apply kept_wait_loop|]. intros ?. kept_go. Qed.
Lemma kept_ctrl_loop n : kept (ctrl_loop n).
Proof. induction n as [|n IH]; cbn [ctrl_loop]; kept_go. Qed.
Lemma kept_ctrl : kept drain_ctrl_with_grace.
Proof. apply kept_ctrl_loop. Qed.
Lemma kept_settle_loop fuel deadline : kept (settle_loop fuel deadline).
Proof. induction fuel as [|fuel IH]; cbn [settle_loop]; kept_go. Qed.
Lemma kept_settle ns : kept (settle ns).
Proof. apply kept_bind; [kept_go|]. intros now. apply kept_settle_loop. Qed.
#[local] Hint Resolve kept_wait kept_ctrl kept_settle : guest.

Lemma kept_quietly prompt cmd : kept (run_quietly prompt cmd).
Proof. unfold run_quietly. kept_go. Qed.
Lemma kept_fragment : kept reseed_fragment.
Proof. unfold reseed_fragment. kept_go. Qed.
#[local] Hint Resolve kept_quietly kept_fragment : guest.

Lemma kept_reseed prompt : kept (reseed prompt).
Proof. unfold reseed. kept_go. Qed.
Lemma kept_sync_clock prompt : kept (repl_sync_clock prompt).
Proof. unfold repl_sync_clock. kept_go. Qed.
Lemma kept_sync_and_reseed prompt : kept (sync_clock_and_reseed prompt).
Proof. unfold sync_clock_and_reseed. kept_go. Qed.
Lemma kept_shell_init prompt : kept (shell_init prompt).
Proof. unfold shell_init. apply kept_bind; [apply kept_sync_and_reseed|]. intros ?. kept_go. Qed.

Lemma kept_idle : kept idle.
Proof. unfold idle. kept_go. Qed.
Lemma kept_after_status n prompt : ∀ s, kept (prompt_after_status n prompt s).
Proof. induction n as [|n IH]; intros s; cbn [prompt_after_status]; kept_go. Qed.
#[local] Hint Resolve kept_idle kept_after_status : guest.

Lemma kept_slice_loop fuel prompt stop sentinel data deadline : ∀ s, kept (slice_loop fuel prompt stop sentinel data deadline s).
Proof.
  induction fuel as [|fuel IH]; intros s; cbn [slice_loop]; [kept_go|]. apply kept_bind; [kept_go|]. intros now. case_match; [kept_go|]. case_match; [kept_go|].
  apply kept_bind; [kept_go|]. intros waiting. apply kept_bind; [kept_go|]. intros []. apply kept_bind; [kept_go|]. intros rx.
  destruct rx; kept_go.
Qed.
Lemma kept_slice prompt stop sentinel data nanos s : kept (run_slice prompt stop sentinel data nanos s).
Proof. apply kept_bind; [kept_go|]. intros now. apply kept_slice_loop. Qed.
Lemma kept_finish sentinel data trim_it s : kept (finish_output sentinel data trim_it s).
Proof. unfold finish_output. kept_go. Qed.
Lemma kept_exec_new timeout tty : kept (exec_new timeout tty).
Proof. unfold exec_new. kept_go. Qed.
#[local] Hint Resolve kept_slice kept_finish kept_exec_new : guest.
Lemma kept_capture_loop fuel prompt stop sentinel data : ∀ s, kept (capture_loop fuel prompt stop sentinel data s).
Proof. induction fuel as [|fuel IH]; intros s; cbn [capture_loop]; kept_go. Qed.
Lemma kept_capture prompt timeout stop sentinel data : kept (capture_output prompt timeout stop sentinel data).
Proof. unfold capture_output. apply kept_bind; [kept_go|]. intros s. apply kept_bind; [apply kept_capture_loop|]. intros s2. kept_go. Qed.
End KeptRepl.
#[export] Hint Resolve kept_wait kept_stray kept_ctrl kept_settle kept_reseed kept_sync_clock kept_sync_and_reseed kept_shell_init kept_slice kept_finish
  kept_exec_new kept_capture : guest.
