(* ===== verification/Session.v ===== *)
(** Sandboxes ([wasi-component/src/api/session.rs], [api/executor.rs], and the
    snapshot loading of [wasi-component/src/vm.rs]).

    A session is a machine whose shell, or whose Python runner, takes commands; the
    manager keeps sessions by handle and the base image they share.  What a session
    needs of its machine beyond a [Guest] is a [Sandbox], of its host a [Files] and a
    decoder of LZ4 frames.  Warnings on standard error are left out; the text of an
    error is the constructor of [SessionError]. *)
From Stdlib Require Import String.
From S2P Require Import Prelude Words SystemBus Trap Io Csr Context Float Run Invariant RunProps RamLaws CowRamProps Layout Virtio VirtioProps VirtioBlk VirtioNet VirtioInvariant MachineBus MachineRam MachineLaws Uart Clint MachineRun SyscallTrace HostFs Dtb CowRam Snapshot Trace.
From S2P Require Import HostNet Tcp TcpProps Slirp SlirpInvariant VirtioFs FsInvariant Syscalls SyscallsLaws Machine Text VirtioConsole Secrets Gateway Repl.

Definition PYRUNNER_SENTINEL : list Z := as_bytes "---VPOD_DONE---".
Definition MAX_INLINE_EXEC : nat := Z.to_nat 1900.
Definition STAGE_CHUNK : nat := Z.to_nat 1500.
Definition STAGE_PATH : list Z := as_bytes "/tmp/.vpod_cmd".
Definition STDIN_PATH : list Z := as_bytes "/tmp/.vpod_stdin".
Definition STDIN_STAGE_CHUNK : nat := STAGE_CHUNK.
Definition PYRUNNER_MAX_LINE : nat := Z.to_nat 3800.
Definition PYRUNNER_STAGE_CHUNK : nat := Z.to_nat 2500.
Definition SHELL_PROMPT_SENTINEL : list Z := [31] ++ as_bytes "vpod" ++ [31].
Definition WORKING_DIRECTORY_MARKER : list Z := as_bytes "vpod-cwd ".
Definition TRACE_START_TIMEOUT_SECONDS : Z := 15.
(** Texts with double quotes, which stand as backquotes here. *)
Definition text (s : string) : list Z := map (fun b => if b =? 96 then 34 else b) (as_bytes s).
Definition TRACE_START_COMMAND : list Z :=
  text "echo 2 > /proc/sys/kernel/io_uring_disabled 2>/dev/null; ( for p in /proc/[0-9]*; do cd -P `$p/cwd` 2>/dev/null && echo `vpod-cwd ${p#/proc/} $PWD`; done ) 2>/dev/null" ++ [10].
Definition ENV_VALUE_CHUNK : nat := Z.to_nat 400.
Definition EXIT_POWERED_OFF : Z := 256.
Definition POWERED_OFF_NOTE : list Z := as_bytes "vpod: the guest powered off before this command reported an exit status.".
Definition PYRUNNER_RESEED_CODE : list Z :=
  as_bytes "import sys, random" ++ [10] ++ as_bytes "random.seed()" ++ [10] ++ as_bytes "numpy = sys.modules.get('numpy')" ++ [10]
    ++ as_bytes "if numpy is not None:" ++ [10] ++ as_bytes "    numpy.random.seed()" ++ [10] ++ as_bytes "del sys, random, numpy".

(** [chunks(n)], [n] not 0. *)
Fixpoint chunks_loop (fuel n : nat) (l : list Z) : list (list Z) :=
  match fuel, l with
  | S fuel, _ :: _ => take n l :: chunks_loop fuel n (drop n l)
  | _, _ => []
  end.
Definition chunks (n : nat) (l : list Z) : list (list Z) := chunks_loop (length l) n l.

(** [join(", ")] *)
Fixpoint join_with (sep : list Z) (l : list (list Z)) : list Z :=
  match l with
  | [] => []
  | [x] => x
  | x :: l => x ++ sep ++ join_with sep l
  end.

(** ** The environment as shell statements *)

Definition shell_quote (value : list Z) : list Z := [39] ++ replace [39] [39; 92; 39; 39] value ++ [39].

Definition assign_statement (name first : list Z) : list Z := as_bytes "export " ++ name ++ [61] ++ shell_quote first.
Definition append_statement (name chunk : list Z) : list Z := name ++ as_bytes "=" ++ text "`$" ++ name ++ [34] ++ shell_quote chunk.

Definition env_statements_of (name value : list Z) : list (list Z) :=
  match map lossy (chunks ENV_VALUE_CHUNK value) with
  | [] => [assign_statement name []]
  | first :: rest => assign_statement name first :: map (append_statement name) rest
  end.
Definition env_statements (env : list (list Z * list Z)) : list (list Z) :=
  concat (map (fun e => env_statements_of e.1 e.2) env).

(** ** Snapshots *)

Record MountArg := mkMountArg { alias : list Z; guest_path : list Z; arg_writable : bool }.

(** [MountArg::parse] *)
Definition mount_arg_parse (s : list Z) : MountArg :=
  match split_on 58 s with
  | [a; b] => mkMountArg a b false
  | [a; b; c] => mkMountArg a b (bool_decide (c = as_bytes "rw"))
  | _ => mkMountArg s (as_bytes "/mnt") false
  end.

Inductive Compression : Type := Lz4 | Raw.
Definition detect_compression_bytes (data : list Z) : Compression :=
  if bool_decide (take 4 data = [0x04; 0x22; 0x4D; 0x18]) then Lz4 else Raw.

Inductive SessionError : Type :=
| SeInvalidHandle (handle : Z)
| SePoweredOff
| SeShellLost
| SeNoSlicing
| SeNoCommand
| SeReadFailed (path : list Z)
| SeWriteFailed (path : list Z)
| SeRamTooLarge (ram_size : Z)
| SeLoadFailed
| SeRestoreFailed (e : IoError)
| SeResumeFailed (e : IoError)
| SeBadEnvName (name : list Z)
| SeEmptyPlaceholder (name : list Z)
| SeNoHosts (name : list Z).

(** What a frame decoder delivers: the bytes before its end, or before its error. *)
Class Lz4Decoder := lz4_decode : list Z -> list Z * bool.
(** [isize::MAX] of the target. *)
Class Target := isize_max : Z.

Section Load.
Context {LD : Lz4Decoder} {TA : Target}.

(** The bytes of a snapshot file, and whether reading them ends without an error. *)
Definition snapshot_bytes (data : list Z) : list Z * bool :=
  match detect_compression_bytes data with Lz4 => lz4_decode data | Raw => (data, true) end.

Definition ram_size_from_header (data : list Z) : option Z :=
  let header := (snapshot_bytes data).1 in
  if (length header <? 14)%nat then None
  else if negb (bool_decide (take 4 header = as_bytes "VPOD")) then None
  else
    let logical := from_le_bytes (take 8 (drop 6 header)) in
    if (8 <=? logical) && is_power_of_two (logical - 8) then Some (logical - 8) else None.

(** [ram_size + 8] does not overflow: [ram_size] is a power of two. *)
Definition check_ram_fits (ram_size : Z) : Result unit SessionError :=
  let logical := ram_size + 8 in
  let needed := div_ceil logical PAGE_SIZE * PAGE_SIZE in
  if needed <=? isize_max then Ok tt else Err (SeRamTooLarge ram_size).

(** [load_base_and_tail] reads to the end of the stream, so an error there is its error. *)
Definition base_and_tail (data : list Z) : ST Z (Result (CowRam * list Z * Z) SessionError) := fun epoch =>
  match load_base_and_tail (epoch, (snapshot_bytes data).1) with
  | Some (Ok b, (epoch, _)) => Some (if (snapshot_bytes data).2 then Ok b else Err SeLoadFailed, epoch)
  | Some (Err _, (epoch, _)) => Some (Err SeLoadFailed, epoch)
  | None => None
  end.

(** [_read_base_and_tail] after the file was read. *)
Definition read_base_and_tail (data : list Z) : ST Z (Result (CowRam * list Z * Z) SessionError) :=
  match check_ram_fits <$> ram_size_from_header data with
  | Some (Err e) => mret (Err e)
  | _ => base_and_tail data
  end.
End Load.

(** ** Sessions *)

(** The host's files, and the data decoders' tables it has none of. *)
Class Files (E : Type) := {
  f_read : list Z -> ST E (option (list Z));
  f_write : list Z -> list Z -> ST E bool
}.

(** What a session needs of a machine beyond running it. *)
Class Sandbox (G E : Type) := {
  sb_bus_from_base : CowRam -> list MountArg -> list SecretBinding -> ST E G;
  sb_restore_devices : list Z -> ST G (Result unit IoError);
  sb_restore_delta : list Z -> ST G (Result unit IoError);
  sb_save_delta : G -> option (list Z);
  sb_start_trace : TraceOptions -> G -> G;
  sb_stop_trace : G -> G;
  sb_traces_syscalls : G -> bool;
  sb_set_trace_quiet : bool -> G -> G;
  sb_seed_working_directory : Z -> list Z -> G -> G
}.

Inductive ExecMode : Type := Closed | Piped | Terminal.

Record ExecutionResult := mkResult { res_stdout : list Z; res_stderr : list Z; exit_code : Z }.
Record SliceOutput := mkSlice { slice_stdout : list Z; slice_stderr : list Z; slice_exit_code : option Z }.

Record Session (G : Type) := mkSession {
  machine : G;
  sess_prompt : list Z;
  is_shell : bool;
  is_pyrunner : bool;
  has_pyrunner : bool;
  pyrunner_dirty : bool;
  pyrunner_reseeded : bool;
  shell_lost : bool;
  exec : option ExecState;
  staged_stdin : list Z;
  sess_env : list (list Z * list Z)
}.
Arguments mkSession {G}.
Arguments machine {G}.
Arguments sess_prompt {G}.
Arguments is_shell {G}.
Arguments is_pyrunner {G}.
Arguments has_pyrunner {G}.
Arguments pyrunner_dirty {G}.
Arguments pyrunner_reseeded {G}.
Arguments shell_lost {G}.
Arguments exec {G}.
Arguments staged_stdin {G}.
Arguments sess_env {G}.
#[export] Instance Session_eta {G} : Eta (Session G) := fun s =>
  mkSession (machine s) (sess_prompt s) (is_shell s) (is_pyrunner s) (has_pyrunner s) (pyrunner_dirty s)
    (pyrunner_reseeded s) (shell_lost s) (exec s) (staged_stdin s) (sess_env s).

Section Sessions.
Context {LB : LoopBound} {G E : Type} {GU : Guest G} {HO : SystemHost E} {SB : Sandbox G E} {FI : Files E}.
Context {LD : Lz4Decoder} {TA : Target} {B64 : Base64}.
Abbreviation M := (ST (G * E)).

(** *** The environment *)

(** A line is typed and its prompt awaited. *)
Definition run_shell_line (prompt line : list Z) : M unit :=
  type_bytes PortMain line;;
  type_bytes PortMain [10];;
  wait_for_prompt prompt;;
  drain_port PortMain;;
  mret tt.

Fixpoint apply_statements (prompt : list Z) (statements : list (list Z)) (line : list Z) : M unit :=
  match statements with
  | [] => if bool_decide (line = []) then mret tt else run_shell_line prompt line
  | statement :: statements =>
      let full := negb (bool_decide (line = [])) && (MAX_INLINE_EXEC <? length line + length statement + 2)%nat in
      (if full then run_shell_line prompt line else mret tt);;
      let line := if full then [] else line in
      let line := if bool_decide (line = []) then line else line ++ as_bytes "; " in
      apply_statements prompt statements (line ++ statement)
  end.
Definition apply_env_to_shell (prompt : list Z) (env : list (list Z * list Z)) : M unit := apply_statements prompt (env_statements env) [].

(** A line for the Python runner, and its answer. *)
Definition ask_pyrunner (timeout : Z) (line : list Z) : M (list Z) :=
  type_bytes PortData line;;
  type_bytes PortData [10];;
  capture_output [] timeout false (Some PYRUNNER_SENTINEL) true.

Definition pyrunner_env (env : list (list Z * list Z)) : list Z :=
  let pair (e : list Z * list Z) := text "_d(`" ++ base64_encode e.1 ++ text "`).decode(): _d(`" ++ base64_encode e.2 ++ text "`).decode()" in
  as_bytes "import os" ++ [10] ++ as_bytes "from base64 import b64decode as _d" ++ [10]
    ++ as_bytes "os.environ.update({" ++ join_with (as_bytes ", ") (map pair env) ++ as_bytes "})" ++ [10] ++ as_bytes "del _d" ++ [10].

Definition apply_env_to_pyrunner (env : list (list Z * list Z)) : M unit :=
  ask_pyrunner 30 (base64_encode (pyrunner_env env));;
  drain_port PortStderr;;
  drain_port PortCtrl;;
  mret tt.

Definition prompt_export : list Z :=
  text "set -o ignoreeof; export PS2=''; export PS1='$(__ec $?)'`$(printf '\037vpod\037')`; export -n PS1" ++ [10].

Definition install_prompt_sentinel (prompt : list Z) : M (list Z) :=
  if bool_decide (prompt = SHELL_PROMPT_SENTINEL) then mret prompt
  else
    type_bytes PortMain prompt_export;;
    wait_for_prompt SHELL_PROMPT_SENTINEL;;
    drain_port PortMain;;
    drain_port PortStderr;;
    drain_port PortCtrl;;
    mret SHELL_PROMPT_SENTINEL.

(** *** The machine of a session *)

Abbreviation Sess := (Session G).
Abbreviation SM := (ST (Sess * E)).

Definition on_machine {A} (m : M A) : SM A := zoom (fun s => (machine s.1, s.2)) (fun g s => (s.1 <| machine := g.1 |>, g.2)) m.
Definition get_session {A} (f : Sess -> A) : SM A := gets (fun s => f s.1).
Definition mod_session (f : Sess -> Sess) : SM unit := modify (fun s => (f s.1, s.2)).
Definition powered_off (s : Sess) : bool := g_shutdown (machine s).

(** The three drains that end most exchanges with the shell. *)
Definition drain_ports : M unit := drain_port PortMain;; drain_port PortStderr;; drain_port PortCtrl;; mret tt.
Definition type_and_drain (bytes : list Z) : SM unit :=
  prompt ← get_session sess_prompt;
  on_machine (type_bytes PortMain bytes;; wait_for_prompt prompt;; drain_ports).

Definition recover_shell : SM unit :=
  prompt ← get_session sess_prompt;
  on_machine (type_bytes PortMain [0x03]);;
  recovered ← on_machine (wait_for_prompt prompt);
  recovered ← (if recovered : bool then mret true else on_machine (type_bytes PortMain [0x04]);; on_machine (wait_for_prompt prompt));
  (if recovered : bool then on_machine (absorb_stray_prompt prompt) else mret tt);;
  on_machine drain_ports;;
  mod_session (fun s => s <| shell_lost := negb recovered |>).

Definition restore_terminal : SM unit := type_and_drain (as_bytes "stty icanon -echo" ++ [10]).

(** *** Staging what is too long for a line *)

Fixpoint upload_chunks (path : list Z) (pieces : list (list Z)) (first : bool) : SM unit :=
  match pieces with
  | [] => mret tt
  | chunk :: pieces =>
      type_and_drain (as_bytes "printf %s " ++ chunk ++ (if first then as_bytes " > " else as_bytes " >> ") ++ path ++ as_bytes ".b64" ++ [10]);;
      upload_chunks path pieces false
  end.

Definition stage_long_command (code : list Z) : SM (list Z) :=
  upload_chunks STAGE_PATH (chunks STAGE_CHUNK (base64_encode code)) true;;
  mret (as_bytes "base64 -d " ++ STAGE_PATH ++ as_bytes ".b64 > " ++ STAGE_PATH ++ as_bytes ".sh && rm -f " ++ STAGE_PATH ++ as_bytes ".b64; sh "
          ++ STAGE_PATH ++ as_bytes ".sh").

Definition stage_stdin (data : list Z) : SM unit :=
  upload_chunks STDIN_PATH (chunks STDIN_STAGE_CHUNK (base64_encode data)) true;;
  type_and_drain (as_bytes "base64 -d " ++ STDIN_PATH ++ as_bytes ".b64 > " ++ STDIN_PATH ++ as_bytes " && rm -f " ++ STDIN_PATH ++ as_bytes ".b64" ++ [10]).

Fixpoint upload_python (pieces : list (list Z)) (first : bool) : SM unit :=
  match pieces with
  | [] => mret tt
  | chunk :: pieces =>
      on_machine (
        ask_pyrunner 30 (base64_encode (as_bytes "open('" ++ STAGE_PATH ++ as_bytes ".py.b64','" ++ (if first then as_bytes "w" else as_bytes "a")
                                          ++ as_bytes "').write('" ++ chunk ++ as_bytes "')"));;
        drain_port PortCtrl;;
        drain_port PortData);;
      upload_python pieces false
  end.
Definition stage_pyrunner_code (encoded : list Z) : SM (list Z) :=
  upload_python (chunks PYRUNNER_STAGE_CHUNK encoded) true;;
  mret (base64_encode (as_bytes "import base64 as _vb, os as _vo" ++ [10]
          ++ as_bytes "_vs = _vb.b64decode(open('" ++ STAGE_PATH ++ as_bytes ".py.b64').read())" ++ [10]
          ++ as_bytes "_vo.remove('" ++ STAGE_PATH ++ as_bytes ".py.b64')" ++ [10]
          ++ as_bytes "exec(compile(_vs, '<vpod>', 'exec'))")).

(** *** Commands *)

Definition mode_is (a b : ExecMode) : bool :=
  match a, b with Closed, Closed | Piped, Piped | Terminal, Terminal => true | _, _ => false end.

(** What is typed for a command. *)
Definition shell_command (mode : ExecMode) (staged : bool) (code : list Z) : list Z :=
  match mode with
  | Closed => as_bytes "{" ++ [10] ++ code ++ [10] ++ as_bytes "} </dev/null 2>/dev/ttyS1" ++ [10]
  | Piped =>
      if staged
      then as_bytes "{" ++ [10] ++ as_bytes "rm -f " ++ STDIN_PATH ++ [10] ++ code ++ [10] ++ as_bytes "} < " ++ STDIN_PATH ++ as_bytes " 2>/dev/ttyS1" ++ [10]
      else as_bytes "{" ++ [10] ++ code ++ [10] ++ as_bytes "} 2>/dev/ttyS1" ++ [10]
  | Terminal =>
      as_bytes "{" ++ [10] ++ as_bytes "stty icanon -echo" ++ [10] ++ code ++ [10]
        ++ as_bytes "} 2>&1; __vpod_rc=$?; stty -icanon min 0 time 0; cat >/dev/null; stty icanon -echo; (exit $__vpod_rc)" ++ [10]
  end.

Definition begin_shell_exec (code : list Z) (timeout_secs : Z) (mode : ExecMode) : SM unit :=
  running ← get_session exec;
  mod_session (fun s => s <| exec := None |>);;
  (if bool_decide (running = None) then mret tt else recover_shell);;
  shell ← get_session is_shell;
  code ← (if shell && (MAX_INLINE_EXEC <? length code)%nat then stage_long_command code else mret code);
  pending_stdin ← get_session staged_stdin;
  mod_session (fun s => s <| staged_stdin := [] |>);;
  let staged := negb (bool_decide (pending_stdin = [])) && shell && mode_is mode Piped in
  (if staged then stage_stdin pending_stdin else mret tt);;
  on_machine (type_bytes PortMain (if shell : bool then shell_command mode staged code else code ++ [10]));;
  (if mode_is mode Terminal then on_machine (type_bytes PortMain pending_stdin) else mret tt);;
  state ← on_machine (exec_new timeout_secs (mode_is mode Terminal));
  mod_session (fun s => s <| exec := Some state |>).

Definition run_shell_slice (state : ExecState) (slice_nanos : Z) : SM (SliceOutcome * ExecState) :=
  prompt ← get_session sess_prompt;
  shell ← get_session is_shell;
  on_machine (run_slice prompt shell None false slice_nanos state).

(** The exit status, and whether it is a time-out. *)
Definition exit_status (shell off : bool) (ctrl : list Z) : Z * bool :=
  if shell then
    match ctrl with
    | byte :: _ => (byte, false)
    | [] => if off then (EXIT_POWERED_OFF, false) else (124, true)
    end
  else (if off then EXIT_POWERED_OFF else 0, false).

Definition note_power_off (off : bool) (stderr : list Z) : list Z :=
  if off then (if negb (bool_decide (stderr = [])) && negb (ends_with stderr [10]) then stderr ++ [10] else stderr) ++ POWERED_OFF_NOTE
  else stderr.

Definition finish_shell_exec (state : ExecState) (trim_it : bool) : SM ExecutionResult :=
  stdout ← on_machine (finish_output None false trim_it state);
  shell ← get_session is_shell;
  ctrl ← (if shell : bool then on_machine drain_ctrl_with_grace else mret ([] : list Z));
  off ← get_session powered_off;
  let '(code, timed_out) := exit_status shell off ctrl in
  tail ← on_machine (drain_port PortStderr);
  let stderr := finish_stderr state ++ lossy tail in
  let stderr := if trim_it then trim_end stderr else stderr in
  (if negb off && shell && timed_out then recover_shell else mret tt);;
  lost ← get_session shell_lost;
  (if shell && ex_tty state && timed_out && negb lost then restore_terminal else mret tt);;
  mret (mkResult stdout (note_power_off off stderr) code).

(** *** The Python runner *)

Definition reseed_pyrunner : SM unit :=
  on_machine (
    ask_pyrunner 30 (base64_encode PYRUNNER_RESEED_CODE);;
    drain_ctrl_with_grace;;
    drain_port PortStderr;;
    drain_port PortData;;
    mret tt).

Definition restart_command : list Z :=
  as_bytes "pkill -9 -f pyrunner.py; PYR=/usr/bin/python3.real; [ -x $PYR ] || PYR=python3; $PYR /usr/lib/vpod/pyrunner.py &" ++ [10].

Definition restart_pyrunner : SM unit :=
  prompt ← get_session sess_prompt;
  on_machine (
    type_bytes PortMain restart_command;;
    wait_for_prompt prompt;;
    drain_ports;;
    drain_port PortData;;
    settle 2000000000;;
    drain_port PortData;;
    ask_pyrunner 10 (base64_encode (as_bytes "pass"));;
    drain_port PortData;;
    drain_port PortStderr;;
    drain_port PortCtrl);;
  mod_session (fun s => s <| pyrunner_reseeded := true |>).

Definition revive_pyrunner : SM unit :=
  dirty ← get_session pyrunner_dirty;
  (if dirty : bool then
     restart_pyrunner;;
     mod_session (fun s => s <| pyrunner_dirty := false |>);;
     env ← get_session sess_env;
     (if bool_decide (env = []) then mret tt else on_machine (apply_env_to_pyrunner env))
   else mret tt);;
  seeded ← get_session pyrunner_reseeded;
  if seeded : bool then mret tt else reseed_pyrunner;; mod_session (fun s => s <| pyrunner_reseeded := true |>).

Definition exec_python (code : list Z) (timeout : option Z) : SM ExecutionResult :=
  revive_pyrunner;;
  let b64 := base64_encode code in
  b64 ← (if (PYRUNNER_MAX_LINE <? length b64)%nat then stage_pyrunner_code b64 else mret b64);
  stdout ← on_machine (ask_pyrunner (default 120 timeout) b64);
  ctrl ← on_machine drain_ctrl_with_grace;
  off ← get_session powered_off;
  code ← match ctrl with
         | byte :: _ => mret byte
         | [] => if off : bool then mret EXIT_POWERED_OFF else mod_session (fun s => s <| pyrunner_dirty := true |>);; mret 124
         end;
  stderr ← on_machine (drain_port PortStderr);
  let stderr := trim_end (lossy stderr) in
  let stderr := if (off : bool) then (if bool_decide (stderr = []) then stderr else stderr ++ [10]) ++ POWERED_OFF_NOTE else stderr in
  mret (mkResult stdout stderr code).

(** *** What a session is asked to do *)

Definition refusal : SM (option SessionError) :=
  off ← get_session powered_off;
  lost ← get_session shell_lost;
  mret (if off : bool then Some SePoweredOff else if lost : bool then Some SeShellLost else None).

Definition drain_all_ports : M unit := drain_ports;; drain_port PortData;; mret tt.

(** [while run_shell_slice(..) == Yielded {}] *)
Fixpoint run_to_end (fuel : nat) (state : ExecState) : SM ExecState :=
  match fuel with
  | O => panic
  | S fuel =>
      r ← run_shell_slice state U64_MAX;
      match r.1 with Yielded => run_to_end fuel r.2 | _ => mret r.2 end
  end.

Definition exec_code (code : list Z) (timeout : option Z) : SM (Result ExecutionResult SessionError) :=
  refused ← refusal;
  match refused with
  | Some e => mret (Err e)
  | None =>
      on_machine drain_all_ports;;
      python ← get_session (if starts_with [0] code then has_pyrunner else is_pyrunner);
      let code := default code (strip_prefix_str [0] code) in
      if python : bool then r ← exec_python code timeout; mret (Ok r)
      else
        begin_shell_exec code (default 30 timeout) Closed;;
        state ← get_session exec;
        mod_session (fun s => s <| exec := None |>);;
        state ← match state with Some state => mret state | None => on_machine (exec_new 30 false) end;
        state ← run_to_end loop_bound state;
        r ← finish_shell_exec state true;
        mret (Ok r)
  end.

(** The part of [exec_slice] after a command was given, if one was. *)
Definition slice_running (slice_nanos : Z) : SM (Result SliceOutput SessionError) :=
  running ← get_session exec;
  mod_session (fun s => s <| exec := None |>);;
  match running with
  | None => mret (Err SeNoCommand)
  | Some state =>
      r ← run_shell_slice state slice_nanos;
      err ← on_machine (drain_port PortStderr);
      let state := absorb_stderr err r.2 in
      match r.1 with
      | Yielded =>
          prompt ← get_session sess_prompt;
          let '(stdout, state) := drain_output prompt state in
          let '(stderr, state) := drain_stderr state in
          mod_session (fun s => s <| exec := Some state |>);;
          mret (Ok (mkSlice stdout stderr None))
      | _ =>
          ended ← finish_shell_exec state false;
          mret (Ok (mkSlice (res_stdout ended) (res_stderr ended) (Some (exit_code ended))))
      end
  end.

Definition exec_slice (code : option (list Z)) (timeout : option Z) (slice_nanos : Z) (mode : ExecMode) : SM (Result SliceOutput SessionError) :=
  refused ← refusal;
  match refused with
  | Some e => mret (Err e)
  | None =>
      match code with
      | None => slice_running slice_nanos
      | Some code =>
          python ← get_session is_pyrunner;
          if python || starts_with [0] code then mret (Err SeNoSlicing)
          else
            on_machine drain_all_ports;;
            begin_shell_exec code (default 30 timeout) mode;;
            slice_running slice_nanos
      end
  end.

Definition write_stdin (data : list Z) : SM (Result unit SessionError) :=
  running ← get_session exec;
  (if bool_decide (running = None) then mod_session (fun s => s <| staged_stdin := staged_stdin s ++ data |>)
   else on_machine (type_bytes PortMain data));;
  mret (Ok tt).

Definition interrupt : SM (Result unit SessionError) :=
  running ← get_session exec;
  (if bool_decide (running = None) then mret tt else on_machine (type_bytes PortMain [0x03]));;
  mret (Ok tt).

(** *** Tracing *)

(** A reported working directory: a process and its path. *)
Definition reported_directory (line : list Z) : option (Z * list Z) :=
  reported ← strip_prefix_str WORKING_DIRECTORY_MARKER (trim line);
  '(process_id, path) ← split_once 32 reported;
  pid ← parse_u64 process_id;
  if (pid <? 2 ^ 32) && starts_with [47] path then Some (pid, path) else None.

Definition prepare_tracing : SM unit :=
  ready ← get_session (fun s => is_shell s && negb (shell_lost s) && bool_decide (exec s = None));
  if negb ready then mret tt
  else
    prompt ← get_session sess_prompt;
    output ← on_machine (
      drain_port PortMain;;
      type_bytes PortMain TRACE_START_COMMAND;;
      output ← capture_output prompt TRACE_START_TIMEOUT_SECONDS true None false;
      drain_ctrl_with_grace;;
      drain_port PortMain;;
      drain_port PortStderr;;
      mret output);
    on_machine (mod_guest (fun g => fold_left (fun g d => sb_seed_working_directory d.1 d.2 g) (omap reported_directory (str_lines output)) g)).

Definition trace_options (o : TraceOptions) : TraceOptions :=
  mkOptions (processes o) (files o) (network o) (trace_mounts o) (if buffer_bytes o =? 0 then DEFAULT_BUFFER_BYTES else buffer_bytes o).

Definition trace_start (o : TraceOptions) : SM (Result unit SessionError) :=
  on_machine (mod_guest (sb_start_trace (trace_options o)));;
  traced ← get_session (fun s => sb_traces_syscalls (machine s));
  (if traced : bool then
     on_machine (mod_guest (sb_set_trace_quiet true));;
     prepare_tracing;;
     on_machine (mod_guest (sb_set_trace_quiet false))
   else mret tt);;
  mret (Ok tt).

Definition trace_stop : SM (Result unit SessionError) := on_machine (mod_guest sb_stop_trace);; mret (Ok tt).

(** *** Suspending *)

Definition bool_text (b : bool) : list Z := if b then as_bytes "true" else as_bytes "false".

Definition kind_text (s : Sess) : list Z :=
  if is_shell s then as_bytes "shell" else if is_pyrunner s then as_bytes "pyrunner" else as_bytes "custom".

Definition session_meta (s : Sess) : list Z :=
  kind_text s ++ [124] ++ bool_text (has_pyrunner s) ++ [124] ++ bool_text (pyrunner_reseeded s) ++ [124] ++ lossy (sess_prompt s).

Definition with_meta (delta meta : list Z) : list Z := delta ++ meta ++ to_le_bytes 4 (as_u32 (Z.of_nat (length meta))).

Definition suspend : SM (Result (list Z) SessionError) :=
  dirty ← get_session pyrunner_dirty;
  (if dirty : bool then restart_pyrunner;; mod_session (fun s => s <| pyrunner_dirty := false |>) else mret tt);;
  saved ← get_session (fun s => sb_save_delta (machine s));
  meta ← get_session session_meta;
  match saved with Some delta => mret (Ok (with_meta delta meta)) | None => panic end.

(** [splitn(n, c)] *)
Fixpoint splitn (n : nat) (c : Z) (l : list Z) : list (list Z) :=
  match n with
  | O => []
  | S O => [l]
  | S m => match split_once c l with Some (a, rest) => a :: splitn m c rest | None => [l] end
  end.

(** The delta and what follows it; [None] where the slices panic. *)
Definition split_meta (delta : list Z) : option (list Z * list Z) :=
  if (length delta <? 4)%nat then None
  else
    let meta_len_offset := (length delta - 4)%nat in
    let meta_len := Z.to_nat (from_le_bytes (drop meta_len_offset delta)) in
    if (meta_len_offset <? meta_len)%nat then None
    else
      let meta_offset := (meta_len_offset - meta_len)%nat in
      Some (take meta_offset delta, lossy (take meta_len (drop meta_offset delta))).

(** Kind, Python runner, reseeded, prompt. *)
Record Meta := mkMeta { m_shell : bool; m_pyrunner : bool; m_has_pyrunner : bool; m_reseeded : bool; m_prompt : list Z }.
Definition parse_meta (meta : list Z) : Meta :=
  match splitn 4 124 meta with
  | [kind; has; reseeded; prompt] =>
      mkMeta (bool_decide (kind = as_bytes "shell")) (bool_decide (kind = as_bytes "pyrunner")) (bool_decide (has = as_bytes "true"))
        (bool_decide (reseeded = as_bytes "true")) prompt
  | _ => mkMeta true false false false (as_bytes "# ")
  end.

(** *** A new machine *)

Definition is_shell_command (command : list Z) : bool :=
  bool_decide (command = as_bytes "/bin/sh") || bool_decide (command = as_bytes "sh") || bool_decide (command = as_bytes "/bin/ash").
Definition is_python_command (command : list Z) : bool :=
  bool_decide (command = as_bytes "python3") || bool_decide (command = as_bytes "/usr/bin/python3").

Definition mount_line (i : nat) (m : MountArg) : list Z :=
  as_bytes "mkdir -p " ++ guest_path m ++ as_bytes " && mount -t virtiofs vfs" ++ display (Z.of_nat i) ++ [32] ++ guest_path m ++ as_bytes " 2>/dev/null; ".
Definition mount_script (mounts : list MountArg) : list Z := concat (imap mount_line mounts) ++ [10].

Definition mount_all (prompt : list Z) (mounts : list MountArg) : M unit :=
  type_bytes PortMain (mount_script mounts);;
  wait_for_prompt prompt;;
  drain_port PortMain;;
  mret tt.

(** From the restored machine to its first command; the prompt to wait for. *)
Definition start_machine (flags : Z) (command prompt : list Z) (mounts : list MountArg) (env : list (list Z * list Z)) : M (list Z) :=
  let shell := is_shell_command command in
  let shell_ready := negb (Z.land flags FLAG_SHELL_READY =? 0) in
  let python_ready := negb (Z.land flags FLAG_PYTHON_READY =? 0) in
  let use_pyrunner := is_python_command command && python_ready in
  let prompt := if use_pyrunner then as_bytes "# " else prompt in
  (if shell then
     if negb shell_ready then
       type_bytes PortMain command;;
       type_bytes PortMain [10];;
       wait_for_prompt prompt;;
       drain_port PortMain;;
       shell_init prompt
     else sync_clock_and_reseed prompt
   else if use_pyrunner then
     (if negb shell_ready then wait_for_prompt prompt;; drain_port PortMain;; mret tt else mret tt);;
     shell_init prompt
   else
     reseed prompt;;
     type_bytes PortMain (as_bytes "stty -echo; " ++ command ++ [10]);;
     wait_for_prompt prompt;;
     drain_ports);;
  (if negb (bool_decide (mounts = [])) && (shell || use_pyrunner) then mount_all prompt mounts else mret tt);;
  (if bool_decide (env = []) then mret tt
   else
     (if shell || use_pyrunner then apply_env_to_shell prompt env else mret tt);;
     if python_ready then apply_env_to_pyrunner env else mret tt);;
  if shell then install_prompt_sentinel prompt else mret prompt.

(** From the restored delta on. *)
Definition resume_machine (meta : Meta) (env : list (list Z * list Z)) : M (list Z) :=
  drain_ports;;
  mod_guest g_wake;;
  repl_sync_clock (m_prompt meta);;
  (if bool_decide (env = []) then mret tt
   else
     apply_env_to_shell (m_prompt meta) env;;
     if m_has_pyrunner meta then apply_env_to_pyrunner env else mret tt);;
  if m_shell meta then install_prompt_sentinel (m_prompt meta) else mret (m_prompt meta).

(** ** The manager *)

Record CachedBase := mkCached { cb_path : list Z; cb_base : CowRam; cb_tail : list Z; cb_flags : Z }.
(** [epochs] is the counter of [CowRam], as far as loading moves it. *)
Record SessionManager := mkManager { sessions : gmap Z Sess; next_id : Z; base_cache : option CachedBase; epochs : Z }.
#[export] Instance SessionManager_eta : Eta SessionManager := fun m => mkManager (sessions m) (next_id m) (base_cache m) (epochs m).

Definition manager_new : SessionManager := mkManager ∅ 1 None 1.

Abbreviation MM := (ST (SessionManager * E)).

Definition on_outside {A} (m : ST E A) : MM A := zoom snd (fun e s => (s.1, e)) m.
Definition on_epochs {A} (m : ST Z A) : MM A := zoom (fun s => epochs s.1) (fun n s => (s.1 <| epochs := n |>, s.2)) m.
(** Code on a machine no session has yet. *)
Definition on_new {A} (g : G) (m : M A) : MM (A * G) := fun s =>
  match m (g, s.2) with Some (a, (g, e)) => Some ((a, g), (s.1, e)) | None => None end.

(** [get_mut], and what is done with the session. *)
Definition with_session {A} (handle : Z) (m : SM (Result A SessionError)) : MM (Result A SessionError) := fun s =>
  match sessions s.1 !! handle with
  | None => Some (Err (SeInvalidHandle handle), s)
  | Some sess =>
      match m (sess, s.2) with
      | Some (r, (sess, e)) => Some (r, (s.1 <| sessions := <[handle := sess]> (sessions s.1) |>, e))
      | None => None
      end
  end.

Definition load_base (path : list Z) : MM (Result CachedBase SessionError) :=
  data ← on_outside (f_read path);
  match data with
  | None => mret (Err (SeReadFailed path))
  | Some data =>
      r ← on_epochs (read_base_and_tail data);
      match r with
      | Err e => mret (Err e)
      | Ok (base, tail, flags) =>
          let c := mkCached path base tail flags in
          modify (fun s => (s.1 <| base_cache := Some c |>, s.2));;
          mret (Ok c)
      end
  end.

(** With what the cache then holds. *)
Definition ensure_base (path : list Z) : MM (Result CachedBase SessionError) :=
  cache ← gets (fun s : SessionManager * E => base_cache s.1);
  match cache with
  | Some c => if bool_decide (cb_path c = path) then mret (Ok c) else load_base path
  | None => load_base path
  end.

Definition add_session (sess : Sess) : MM Z :=
  id ← gets (fun s : SessionManager * E => next_id s.1);
  modify (fun s => (s.1 <| next_id := as_u64 (id + 1) |> <| sessions := <[id := sess]> (sessions s.1) |>, s.2));;
  mret id.

Definition start_session (path command prompt : list Z) (mounts : list MountArg) (env : list (list Z * list Z)) (secrets : list SecretBinding)
    : MM (Result Z SessionError) :=
  r ← ensure_base path;
  match r with
  | Err e => mret (Err e)
  | Ok c =>
      g ← on_outside (sb_bus_from_base (cb_base c) mounts secrets);
      '(restored, g) ← on_new g (on_guest (sb_restore_devices (cb_tail c)));
      match restored with
      | Err e => mret (Err (SeRestoreFailed e))
      | Ok _ =>
          '(prompt, g) ← on_new g (start_machine (cb_flags c) command prompt mounts env);
          let python_ready := negb (Z.land (cb_flags c) FLAG_PYTHON_READY =? 0) in
          id ← add_session (mkSession g prompt (is_shell_command command) (is_python_command command && python_ready) python_ready
                              false false false None [] env);
          mret (Ok id)
      end
  end.

Definition resume_session (path delta : list Z) (mounts : list MountArg) (env : list (list Z * list Z)) (secrets : list SecretBinding)
    : MM (Result Z SessionError) :=
  r ← ensure_base path;
  match r with
  | Err e => mret (Err e)
  | Ok c =>
      g ← on_outside (sb_bus_from_base (cb_base c) mounts secrets);
      match split_meta delta with
      | None => panic
      | Some (delta, meta) =>
          '(restored, g) ← on_new g (on_guest (sb_restore_delta delta));
          match restored with
          | Err e => mret (Err (SeResumeFailed e))
          | Ok _ =>
              let meta := parse_meta meta in
              '(prompt, g) ← on_new g (resume_machine meta env);
              id ← add_session (mkSession g prompt (m_shell meta) (m_pyrunner meta) (m_has_pyrunner meta) false (m_reseeded meta) false None [] env);
              mret (Ok id)
          end
      end
  end.

Definition close_session (handle : Z) : MM unit := modify (fun s => (s.1 <| sessions := delete handle (sessions s.1) |>, s.2)).

(** ** The component's interface ([api/executor.rs]) *)

Definition is_identifier_byte (b : Z) : bool := is_digit b || is_alphabetic b || (b =? 95).
Definition valid_env_name (name : list Z) : bool :=
  match name with [] => false | b :: _ => negb (is_digit b) && forallb is_identifier_byte name end.

Fixpoint env_pairs (env : list (list Z * list Z)) : Result (list (list Z * list Z)) SessionError :=
  match env with
  | [] => Ok []
  | e :: env =>
      if valid_env_name e.1 then match env_pairs env with Ok l => Ok (e :: l) | Err err => Err err end
      else Err (SeBadEnvName e.1)
  end.

(** A secret of the interface: its name in the environment and its binding. *)
Record WitSecret := mkWitSecret { ws_name : list Z; ws_binding : SecretBinding }.

Fixpoint split_secrets (secrets : list WitSecret) : Result (list (list Z * list Z) * list SecretBinding) SessionError :=
  match secrets with
  | [] => Ok ([], [])
  | s :: secrets =>
      if bool_decide (placeholder (ws_binding s) = []) then Err (SeEmptyPlaceholder (ws_name s))
      else if bool_decide (hosts (ws_binding s) = []) then Err (SeNoHosts (ws_name s))
      else match split_secrets secrets with
           | Ok (env, bindings) => Ok ((ws_name s, placeholder (ws_binding s)) :: env, ws_binding s :: bindings)
           | Err e => Err e
           end
  end.

(** The environment of a session and its secrets. *)
Definition session_inputs (env : list (list Z * list Z)) (secrets : list WitSecret)
    : Result (list (list Z * list Z) * list SecretBinding) SessionError :=
  match split_secrets secrets with
  | Err e => Err e
  | Ok (placeholders, bindings) => match env_pairs env with Ok env => Ok (env ++ placeholders, bindings) | Err e => Err e end
  end.

Definition session_start (path command prompt : list Z) (mounts : list MountArg) (env : list (list Z * list Z)) (secrets : list WitSecret)
    : MM (Result Z SessionError) :=
  match session_inputs env secrets with
  | Ok (env, bindings) => start_session path command prompt mounts env bindings
  | Err e => mret (Err e)
  end.

Definition session_exec (handle : Z) (code : list Z) (timeout : option Z) := with_session handle (exec_code code timeout).
Definition session_exec_slice (handle : Z) (code : option (list Z)) (timeout : option Z) (slice_nanos : Z) (mode : ExecMode) :=
  with_session handle (exec_slice code timeout slice_nanos mode).
Definition session_interrupt (handle : Z) := with_session handle interrupt.
Definition session_stdin (handle : Z) (data : list Z) := with_session handle (write_stdin data).
Definition session_trace_start (handle : Z) (o : TraceOptions) := with_session handle (trace_start o).
Definition session_trace_stop (handle : Z) := with_session handle trace_stop.

Definition session_suspend (handle : Z) (path : list Z) : MM (Result Z SessionError) :=
  r ← with_session handle suspend;
  match r with
  | Err e => mret (Err e)
  | Ok delta =>
      written ← on_outside (f_write path delta);
      mret (if written : bool then Ok (Z.of_nat (length delta)) else Err (SeWriteFailed path))
  end.

Definition session_resume (path delta_path : list Z) (mounts : list MountArg) (env : list (list Z * list Z)) (secrets : list WitSecret)
    : MM (Result Z SessionError) :=
  delta ← on_outside (f_read delta_path);
  match delta with
  | None => mret (Err (SeReadFailed delta_path))
  | Some delta =>
      match session_inputs env secrets with
      | Ok (env, bindings) => resume_session path delta mounts env bindings
      | Err e => mret (Err e)
      end
  end.
End Sessions.

(** ** The assembled machine as a guest *)

Section Assembled.
Context {LB : LoopBound} {FE : FloatEnv}.
Context {H Udp Tcp_ G C : Type} {HN : HostNet H Udp Tcp_} {HG : HttpsGateway G C SecretBinding H} {LK : Layouts TcpKey}.
Context {HF FsFile : Type} {HFS : HostFs HF FsFile} {LZ : Layouts Z} {HFL : HostFsLaws HF FsFile} {J : Json} {W : WallClock}.
Abbreviation Net := (SlirpBackend Udp Tcp_ G C SecretBinding * Env H)%type.
Abbreviation Bus := (MachineBus Net (VirtioFs HF) SyscallTracer).

Definition port_uart (p : Port) (b : Bus) : Uart :=
  match p with PortMain => uart b | PortStderr => uart_stderr b | PortCtrl => uart_ctrl b | PortData => uart_data b end.
Definition on_port (p : Port) (f : Uart -> Uart) (b : Bus) : Bus :=
  match p with
  | PortMain => b <| uart := f (uart b) |>
  | PortStderr => b <| uart_stderr := f (uart_stderr b) |>
  | PortCtrl => b <| uart_ctrl := f (uart_ctrl b) |>
  | PortData => b <| uart_data := f (uart_data b) |>
  end.

Definition on_bus_of (f : Bus -> Bus) (s : Hart * Bus) : Hart * Bus := (s.1, f s.2).
(** [run] always has the fuel it needs. *)
Definition run_result (m : ST (Hart * Bus) (option StepResult)) : ST (Hart * Bus) StepResult :=
  r ← m; match r with Some r => mret r | None => panic end.

(** A byte that is typed is a [u8]. *)
#[export] Instance machine_guest : Guest (Hart * Bus) := {
  g_push_rx p byte := on_bus_of (on_port p (push_rx (as_u8 byte)));
  g_transmitted p s := transmit_buffer (port_uart p s.2);
  g_clear_tx p := on_bus_of (on_port p (fun u => (drain_tx u).2));
  g_is_waiting s := hart_is_waiting s.1;
  g_wake s := (s.1 <| hart_is_waiting := false |>, s.2);
  g_shutdown s := hart_shutdown_requested s.1;
  g_advance_by_instructions n s := Some (on_bus_of (on_clint (advance_by_instructions n)) s);
  g_advance_by_nanos n s := Some (on_bus_of (on_clint (advance_by_nanos n)) s);
  g_nanos_until_timer s := nanos_until_timer (clint s.2);
  g_fast_forward_to_timer := on_bus_of (on_clint (fun c => (fast_forward_to_timer c).2));
  g_has_pending_io s := has_pending_io s.2;
  g_net_rx_pending s := bus_net_rx_pending s.2;
  g_poll := zoom (fun s => (s.2, hart_csr s.1)) (fun p s => (s.1 <| hart_csr := p.2 |>, p.1)) poll;
  g_run n := run_result (hart_run n);
  g_run_until_wait n := run_result (hart_run_until_wait n)
}.

(** [_bus_from_base].  Epochs only tell the images of one machine apart, so the
    machine counts on from its base. *)
Context {E : Type} (new_tls : ST E (option C)) (new_env : ST E (Env H)) (new_fs : ST E HF).

Definition mount_at (i : nat) (m : MountArg) (b : Bus) : Bus :=
  match fs_devices b !! i with
  | Some d => b <| fs_devices := <[i := set_guest_root (guest_path m) (set_mounts [mkMount (alias m) (fs_tag i) (arg_writable m)] d)]> (fs_devices b) |>
  | None => b
  end.
Fixpoint mount_from (i : nat) (mounts : list MountArg) (b : Bus) : Bus :=
  match mounts with [] => b | m :: mounts => mount_from (S i) mounts (mount_at i m b) end.

Definition capture_all (b : Bus) : Bus :=
  foldr (fun p => on_port p (fun u => u <| capture_tx := true |>)) b [PortMain; PortStderr; PortCtrl; PortData].

Definition bus_from_base (base : CowRam) (mounts : list MountArg) (secrets : list SecretBinding) : ST E (Hart * Bus) :=
  tls ← new_tls;
  env ← new_env;
  host ← new_fs;
  match clone_shared base (as_u64 (cow_epoch base + 1)) with
  | Some (r, source) =>
      match bus_new (cow_ram_size base) r source with
      | Some b =>
          let b := attach_fs [] host (attach_net_with_secrets tls secrets env b) in
          mret (hart_new 0x1000, capture_all (mount_from 0 mounts b))
      | None => panic
      end
  | None => panic
  end.

Definition from_bytes {A} (m : Decoder (Bus * Hart) A) (bytes : list Z) : ST (Hart * Bus) (Result A IoError) := fun s =>
  match m ((s.2, s.1), bytes) with Some (r, ((b, h), _)) => Some (r, (h, b)) | None => None end.

#[export] Instance machine_sandbox : Sandbox (Hart * Bus) E := {
  sb_bus_from_base := bus_from_base;
  sb_restore_devices := from_bytes restore_devices;
  sb_restore_delta := from_bytes restore_delta;
  sb_save_delta s := save_delta s.2 s.1;
  sb_start_trace o := on_bus_of (start_trace o);
  sb_stop_trace := on_bus_of stop_trace;
  sb_traces_syscalls s := traces_syscalls s.2;
  sb_set_trace_quiet q := on_bus_of (set_trace_quiet q);
  sb_seed_working_directory pid path := on_bus_of (seed_trace_working_directory pid path)
}.
End Assembled.

(** * Properties

    The environment reaches the guest's shell whatever its values are; a suspended
    session is read back as it was; handles are not used twice and what is done with
    one session leaves the others alone; and whatever is asked of a session, its
    machine stays a machine the core's theorems speak about. *)

(** ** A shell reading assignments *)

(** The quoting rules of POSIX (Shell Command Language, 2.2) for lines of assignments
    and [export]s, one byte at a time; anything else is refused ([None]).  A variable
    has a value and may be exported. *)
Abbreviation Vars := (gmap (list Z) (list Z * bool)).

Inductive Reading : Type :=
| RdWord (w : list Z)
| RdExport (name : list Z)
| RdValue (name : list Z) (exported : bool) (v : list Z)
| RdQuoted (name : list Z) (exported : bool) (v : list Z)
| RdEscape (name : list Z) (exported : bool) (v : list Z)
| RdDouble (name : list Z) (exported : bool) (v : list Z)
| RdExpand (name : list Z) (exported : bool) (v p : list Z).

Definition sh_assign (name : list Z) (exported : bool) (v : list Z) (vars : Vars) : Vars :=
  let was := match vars !! name with Some (_, x) => x | None => false end in
  <[name := (v, exported || was)]> vars.

Definition sh_byte (s : Vars * Reading) (b : Z) : option (Vars * Reading) :=
  let '(vars, rd) := s in
  match rd with
  | RdWord w =>
      if b =? 32 then (if bool_decide (w = []) then Some s else if bool_decide (w = as_bytes "export") then Some (vars, RdExport []) else None)
      else if b =? 61 then (if valid_env_name w then Some (vars, RdValue w false []) else None)
      else if b =? 10 then (if bool_decide (w = []) then Some s else None)
      else if is_identifier_byte b then Some (vars, RdWord (w ++ [b])) else None
  | RdExport name =>
      if b =? 61 then (if valid_env_name name then Some (vars, RdValue name true []) else None)
      else if is_identifier_byte b then Some (vars, RdExport (name ++ [b])) else None
  | RdValue name x v =>
      if b =? 39 then Some (vars, RdQuoted name x v)
      else if b =? 34 then Some (vars, RdDouble name x v)
      else if b =? 92 then Some (vars, RdEscape name x v)
      else if (b =? 59) || (b =? 10) then Some (sh_assign name x v vars, RdWord [])
      else if is_identifier_byte b then Some (vars, RdValue name x (v ++ [b])) else None
  | RdQuoted name x v =>
      if b =? 39 then Some (vars, RdValue name x v) else if b =? 0 then None else Some (vars, RdQuoted name x (v ++ [b]))
  | RdEscape name x v => if b =? 10 then Some (vars, RdValue name x v) else if b =? 0 then None else Some (vars, RdValue name x (v ++ [b]))
  | RdDouble name x v =>
      if b =? 34 then Some (vars, RdValue name x v)
      else if b =? 36 then Some (vars, RdExpand name x v [])
      else if is_identifier_byte b then Some (vars, RdDouble name x (v ++ [b])) else None
  | RdExpand name x v p =>
      if is_identifier_byte b then Some (vars, RdExpand name x v (p ++ [b]))
      else if b =? 34 then Some (vars, RdValue name x (v ++ match vars !! p with Some (w, _) => w | None => [] end)) else None
  end.

Fixpoint sh_run (s : Vars * Reading) (l : list Z) : option (Vars * Reading) :=
  match l with
  | [] => Some s
  | b :: l => s ← sh_byte s b; sh_run s l
  end.

(** Lines, each with its newline; they must end where a command can begin. *)
Fixpoint sh_lines (vars : Vars) (lines : list (list Z)) : option Vars :=
  match lines with
  | [] => Some vars
  | line :: lines => match sh_run (vars, RdWord []) (line ++ [10]) with Some (vars, RdWord []) => sh_lines vars lines | _ => None end
  end.

Lemma sh_run_app s l1 l2 : sh_run s (l1 ++ l2) = (s ← sh_run s l1; sh_run s l2).
Proof. revert s. induction l1 as [|b l1 IH]; intros s; [done|]. cbn. destruct (sh_byte s b); [apply IH|done]. Qed.

(** *** Quoting *)

Lemma replace_loop_byte c to l : ∀ fuel, (length l <= fuel)%nat → replace_loop fuel [c] to l = concat (map (fun b => if b =? c then to else [b]) l).
Proof.
  assert (Hfind : ∀ x l, find_sub [c] (x :: l) = if x =? c then Some 0%nat else S <$> find_sub [c] l).
  { intros x m. cbn [find_sub starts_with]. rewrite Z.eqb_sym. destruct m; by destruct (x =? c). }
  induction l as [|x l IH]; intros fuel Hf; [by destruct fuel|]. destruct fuel as [|fuel]; [cbn in Hf; lia|]. cbn [length] in Hf.
  cbn [replace_loop map concat]. rewrite Hfind. destruct (x =? c) eqn:E; [cbn; rewrite drop_0; f_equal; apply IH; lia|].
  rewrite <- (IH (S fuel)) by lia. cbn [replace_loop]. destruct (find_sub [c] l) as [i|]; [|done]. done.
Qed.

Lemma shell_quote_bytes v : shell_quote v = [39] ++ concat (map (fun b => if b =? 39 then [39; 92; 39; 39] else [b]) v) ++ [39].
Proof. unfold shell_quote, replace. rewrite decide_False by done. by rewrite replace_loop_byte. Qed.

Lemma sh_quote vars name x v w : Forall (fun b => b ≠ 0) w → sh_run (vars, RdValue name x v) (shell_quote w) = Some (vars, RdValue name x (v ++ w)).
Proof.
  intros Hw. rewrite shell_quote_bytes. cbn [app sh_run sh_byte]. cbn. rewrite sh_run_app.
  assert (E : ∀ v, sh_run (vars, RdQuoted name x v) (concat (map (fun b => if b =? 39 then [39; 92; 39; 39] else [b]) w)) = Some (vars, RdQuoted name x (v ++ w))).
  { clear v. induction Hw as [|b w Hb Hw IH]; intros v; [by rewrite app_nil_r|]. cbn [map concat]. rewrite sh_run_app. destruct (b =? 39) eqn:E.
    - apply Z.eqb_eq in E. subst b. cbn. by rewrite IH, <- app_assoc.
    - cbn. rewrite E. destruct (b =? 0) eqn:E0; [by apply Z.eqb_eq in E0|]. cbn. by rewrite IH, <- app_assoc. }
  by rewrite E.
Qed.

(** *** Statements and lines *)

Lemma identifier_byte_plain b : is_identifier_byte b = true → b ≠ 32 ∧ b ≠ 61 ∧ b ≠ 10 ∧ b ≠ 34 ∧ b ≠ 36 ∧ b ≠ 39 ∧ b ≠ 59 ∧ b ≠ 92.
Proof. unfold is_identifier_byte, is_digit, is_alphabetic. lia. Qed.

Ltac plain_byte H := apply identifier_byte_plain in H as Hplain; destruct Hplain as (? & ? & ? & ? & ? & ? & ? & ?).
Ltac other_byte := rewrite ?(proj2 (Z.eqb_neq _ _)) by assumption.

Lemma sh_word vars w name : forallb is_identifier_byte name = true → sh_run (vars, RdWord w) name = Some (vars, RdWord (w ++ name)).
Proof.
  revert w. induction name as [|b name IH]; intros w Hn; [by rewrite app_nil_r|]. cbn in Hn. apply andb_true_iff in Hn as [Hb Hn]. plain_byte Hb.
  cbn [sh_run sh_byte]. other_byte. rewrite Hb. cbn. by rewrite (IH _ Hn), <- app_assoc.
Qed.
Lemma sh_export_word vars w name : forallb is_identifier_byte name = true → sh_run (vars, RdExport w) name = Some (vars, RdExport (w ++ name)).
Proof.
  revert w. induction name as [|b name IH]; intros w Hn; [by rewrite app_nil_r|]. cbn in Hn. apply andb_true_iff in Hn as [Hb Hn]. plain_byte Hb.
  cbn [sh_run sh_byte]. other_byte. rewrite Hb. cbn. by rewrite (IH _ Hn), <- app_assoc.
Qed.
Lemma sh_expand_word vars name x v p q : forallb is_identifier_byte q = true → sh_run (vars, RdExpand name x v p) q = Some (vars, RdExpand name x v (p ++ q)).
Proof.
  revert p. induction q as [|b q IH]; intros p Hn; [by rewrite app_nil_r|]. cbn in Hn. apply andb_true_iff in Hn as [Hb Hn].
  cbn [sh_run sh_byte]. rewrite Hb. cbn. by rewrite (IH _ Hn), <- app_assoc.
Qed.

Lemma valid_name_bytes name : valid_env_name name = true → forallb is_identifier_byte name = true.
Proof. destruct name; [done|]. cbn. intros H. by apply andb_true_iff in H as [_ H]. Qed.

(** [st] can be followed by a semicolon or a newline, and does [f]. *)
Definition reads (st : list Z) (f : Vars -> Vars) : Prop :=
  ∀ vars sep, sep = 59 ∨ sep = 10 → sh_run (vars, RdWord []) (st ++ [sep]) = Some (f vars, RdWord []).

Lemma assign_reads name v : valid_env_name name = true → Forall (fun b => b ≠ 0) v → reads (assign_statement name v) (sh_assign name true v).
Proof.
  intros Hn Hv vars sep Hsep. unfold assign_statement. rewrite <- !app_assoc, sh_run_app. change (sh_run (vars, RdWord []) (as_bytes "export ")) with (Some (vars, RdExport [])).
  cbn [mbind option_bind]. rewrite sh_run_app, sh_export_word by by apply valid_name_bytes. cbn [app mbind option_bind sh_run sh_byte]. rewrite Z.eqb_refl, Hn. cbn [mbind option_bind].
  rewrite sh_run_app, sh_quote by done. cbn. by destruct Hsep as [-> | ->].
Qed.

Definition value_of (vars : Vars) (name : list Z) : list Z := match vars !! name with Some (w, _) => w | None => [] end.

Lemma append_reads name v : valid_env_name name = true → Forall (fun b => b ≠ 0) v →
  reads (append_statement name v) (fun vars => sh_assign name false (value_of vars name ++ v) vars).
Proof.
  intros Hn Hv vars sep Hsep. unfold append_statement. change (text "`$") with [34; 36]. change (as_bytes "=") with [61]. rewrite <- !app_assoc, sh_run_app.
  rewrite sh_word by by apply valid_name_bytes. cbn [app mbind option_bind sh_run sh_byte]. cbn [Z.eqb Pos.eqb]. rewrite Hn. cbn [app mbind option_bind sh_run sh_byte Z.eqb Pos.eqb].
  rewrite sh_run_app, sh_expand_word by by apply valid_name_bytes. cbn [app mbind option_bind sh_run sh_byte]. change (is_identifier_byte 34) with false. cbn [mbind option_bind Z.eqb Pos.eqb].
  rewrite sh_run_app, sh_quote by done. cbn. by destruct Hsep as [-> | ->].
Qed.

Lemma reads_join a b f g : reads a f → reads b g → reads (a ++ as_bytes "; " ++ b) (fun vars => g (f vars)).
Proof.
  intros Ha Hb vars sep Hsep. change (as_bytes "; ") with ([59] ++ [32]). rewrite <- !app_assoc. rewrite (app_assoc a [59]), sh_run_app.
  rewrite (Ha vars 59) by by left. cbn [app mbind option_bind sh_run sh_byte]. cbn [Z.eqb Pos.eqb]. rewrite bool_decide_eq_true_2 by done. by apply Hb.
Qed.

Lemma reads_not_empty f : ¬ reads [] f.
Proof. intros H. by specialize (H ∅ 59 (or_introl eq_refl)). Qed.

(** The lines [apply_statements] types. *)
Fixpoint env_lines (statements : list (list Z)) (line : list Z) : list (list Z) :=
  match statements with
  | [] => if bool_decide (line = []) then [] else [line]
  | statement :: statements =>
      let full := negb (bool_decide (line = [])) && (MAX_INLINE_EXEC <? length line + length statement + 2)%nat in
      let kept := if full then [] else line in
      (if full then [line] else []) ++ env_lines statements ((if bool_decide (kept = []) then kept else kept ++ as_bytes "; ") ++ statement)
  end.

Lemma env_lines_read statements fs : Forall2 reads statements fs → ∀ line g vars, (line = [] ∧ g = id) ∨ reads line g →
  sh_lines vars (env_lines statements line) = Some (fold_left (fun vars f => f vars) fs (g vars)).
Proof.
  induction 1 as [|st f sts fs Hst _ IH]; intros line g vars Hline.
  - cbn [env_lines fold_left]. destruct Hline as [[-> ->]|Hr]; [done|]. rewrite bool_decide_eq_false_2 by (intros ->; by eapply reads_not_empty).
    cbn [sh_lines]. rewrite Hr by by right. done.
  - cbn [env_lines fold_left]. destruct Hline as [[-> ->]|Hr]; [by apply IH; right|].
    assert (Hne : line ≠ []) by (intros ->; by eapply reads_not_empty). rewrite (bool_decide_eq_false_2 (line = [])) by done. cbn [negb andb].
    destruct (_ <? _)%nat.
    + cbn [app sh_lines]. rewrite Hr by by right. by apply (IH _ f); right.
    + rewrite bool_decide_eq_false_2 by done. cbn [app]. rewrite (IH _ (fun vars => f (g vars))); [done|]. right. rewrite <- app_assoc. by apply reads_join.
Qed.

(** *** The environment *)

Lemma chunks_loop_concat n l : (0 < n)%nat → ∀ fuel, (length l <= fuel)%nat → concat (chunks_loop fuel n l) = l.
Proof.
  intros Hn fuel. revert l. induction fuel as [|fuel IH]; intros [|x l] Hf; try done; [cbn in Hf; lia|].
  cbn [chunks_loop concat]. rewrite IH; [apply take_drop|]. rewrite length_drop. cbn in *. lia.
Qed.
Lemma chunks_concat n l : (0 < n)%nat → concat (chunks n l) = l.
Proof. intros Hn. by apply chunks_loop_concat. Qed.

Lemma chunks_loop_Forall (P : Z -> Prop) n fuel : ∀ l, Forall P l → Forall (fun c => Forall P c ∧ (length c <= n)%nat) (chunks_loop fuel n l).
Proof.
  induction fuel as [|fuel IH]; intros [|x l] Hl; try constructor.
  - split; [by apply Forall_take | rewrite length_take; lia].
  - by apply IH, Forall_drop.
Qed.

(** No piece of the value ends inside a character. *)
Definition cut_at_characters (value : list Z) : Prop := Forall (fun c => lossy c = c) (chunks ENV_VALUE_CHUNK value).

Definition no_zero (value : list Z) : Prop := Forall (fun b => b ≠ 0) value.

(** The value the shell gets: its pieces, each decoded on its own. *)
Definition sent_value (value : list Z) : list Z := concat (map lossy (chunks ENV_VALUE_CHUNK value)).

Lemma sent_value_whole value : cut_at_characters value → sent_value value = value.
Proof.
  intros H. unfold sent_value. rewrite (map_ext_in lossy id), map_id; [by apply chunks_concat; vm_compute; lia|].
  intros c Hc. exact (proj1 (List.Forall_forall _ _) H c Hc).
Qed.

(** Decoding makes up no zero bytes. *)
Lemma lossy_no_zero l : no_zero l → no_zero (lossy l).
Proof.
  unfold no_zero, lossy. generalize (length l). intros fuel. revert l. induction fuel as [|fuel IH]; intros [|x l] H; cbn [lossy_loop]; [constructor..|].
  destruct (utf8_chunk (x :: l)) as [ok n]. apply Forall_app. split; [|by apply IH, Forall_drop]. destruct ok; [by apply Forall_take | by repeat constructor].
Qed.

Lemma utf8_chunk_pos l : (0 < (utf8_chunk l).2)%nat.
Proof. unfold utf8_chunk. cbv zeta. repeat case_if; cbn; lia. Qed.

(** What quoting adds: a quote becomes four bytes, and a character made up is three that are none. *)
Definition quoted (l : list Z) : list Z := concat (map (fun b => if b =? 39 then [39; 92; 39; 39] else [b]) l).

Lemma quoted_app l1 l2 : quoted (l1 ++ l2) = quoted l1 ++ quoted l2.
Proof. unfold quoted. by rewrite map_app, concat_app. Qed.
Lemma quoted_length l : (length (quoted l) <= 4 * length l)%nat.
Proof. unfold quoted. induction l as [|b l IH]; [done|]. cbn [map concat length]. rewrite length_app. destruct (b =? 39); cbn [length]; lia. Qed.

Lemma quoted_lossy_length l : (length (quoted (lossy l)) <= 4 * length l)%nat.
Proof.
  unfold lossy. generalize (length l) at 1. intros fuel. revert l. induction fuel as [|fuel IH]; intros [|x l]; cbn [lossy_loop]; try (cbn; lia).
  pose proof (utf8_chunk_pos (x :: l)) as Hn. destruct (utf8_chunk (x :: l)) as [ok n]. cbn [snd] in Hn. rewrite quoted_app, length_app.
  specialize (IH (drop n (x :: l))). rewrite length_drop in IH. destruct ok; [|cbn in *; lia].
  pose proof (quoted_length (take n (x :: l))) as Hq. rewrite length_take in Hq. lia.
Qed.

Lemma append_effect name : ∀ pieces v vars,
  fold_left (fun vars f => f vars) (map (fun c vars => sh_assign name false (value_of vars name ++ c) vars) pieces) (<[name := (v, true)]> vars)
  = <[name := (v ++ concat pieces, true)]> (vars : Vars).
Proof.
  induction pieces as [|c pieces IH]; intros v vars; [cbn; by rewrite app_nil_r|]. cbn [map fold_left concat]. unfold sh_assign at 2, value_of at 2.
  rewrite lookup_insert_eq, insert_insert_eq. by rewrite IH, <- app_assoc.
Qed.

Lemma entry_reads name value : valid_env_name name = true → no_zero value →
  ∃ fs, Forall2 reads (env_statements_of name value) fs ∧ ∀ vars, fold_left (fun vars f => f vars) fs vars = <[name := (sent_value value, true)]> vars.
Proof.
  intros Hn H0. unfold env_statements_of, sent_value.
  assert (Hb : Forall no_zero (map lossy (chunks ENV_VALUE_CHUNK value))).
  { apply Forall_map. eapply List.Forall_impl; [|exact (chunks_loop_Forall _ ENV_VALUE_CHUNK (length value) value H0)]. intros c [Hc _]. by apply lossy_no_zero. }
  destruct (map lossy (chunks ENV_VALUE_CHUNK value)) as [|first rest].
  - exists [sh_assign name true []]. split; [|done]. constructor; [|constructor]. by apply assign_reads.
  - exists (sh_assign name true first :: map (fun c vars => sh_assign name false (value_of vars name ++ c) vars) rest). inversion Hb as [|? ? Hfirst Hrest]; subst. split.
    + constructor; [by apply assign_reads|]. clear -Hrest Hn. induction Hrest as [|c rest Hc _ IH]; constructor; [by apply append_reads | apply IH].
    + intros vars. cbn [fold_left]. unfold sh_assign at 2. cbn [orb]. by rewrite append_effect.
Qed.

(** The environment the shell has in the end. *)
Definition exported (value : list Z -> list Z) (env : list (list Z * list Z)) (vars : Vars) : Vars :=
  fold_left (fun vars e => <[e.1 := (value e.2, true)]> vars) env vars.

Lemma exported_same env vars : Forall (fun e => cut_at_characters e.2) env → exported sent_value env vars = exported id env vars.
Proof. intros H. revert vars. induction H as [|e env He _ IH]; intros vars; [done|]. unfold exported in *. cbn [fold_left]. rewrite sent_value_whole by done. apply IH. Qed.

Lemma env_reads env : env_pairs env = Ok env → Forall (fun e => no_zero e.2) env →
  ∃ fs, Forall2 reads (env_statements env) fs ∧ ∀ vars, fold_left (fun vars f => f vars) fs vars = exported sent_value env vars.
Proof.
  intros Hp Hv. induction Hv as [|e env He _ IH]; [by exists []; split; [constructor|]|]. cbn in Hp. destruct (valid_env_name e.1) eqn:Hn; [|done].
  destruct (env_pairs env) as [l|] eqn:El; [|done]. injection Hp as ->. destruct (IH eq_refl) as (fs2 & H2 & E2). destruct (entry_reads _ _ Hn He) as (fs1 & H1 & E1).
  exists (fs1 ++ fs2). split; [by apply Forall2_app|]. intros vars. rewrite fold_left_app, E1. apply E2.
Qed.

Lemma lines_fit statements : Forall (fun st => length st <= MAX_INLINE_EXEC)%nat statements → ∀ line, (length line <= MAX_INLINE_EXEC)%nat →
  Forall (fun l => length l <= MAX_INLINE_EXEC)%nat (env_lines statements line).
Proof.
  induction 1 as [|st sts Hst _ IH]; intros line Hl; cbn [env_lines]; [case_bool_decide; [constructor|]; by constructor|].
  case_bool_decide as He; cbn [negb andb]; [subst line; by apply IH|]. destruct (_ <? _)%nat eqn:Ef.
  - constructor; [done|]. by apply IH.
  - rewrite bool_decide_eq_false_2 by done. apply IH. apply Nat.ltb_ge in Ef. rewrite !length_app. change (length (as_bytes "; ")) with 2%nat. lia.
Qed.

Lemma statements_short name value : (length name <= 128)%nat → Forall (fun st => length st <= MAX_INLINE_EXEC)%nat (env_statements_of name value).
Proof.
  intros Hn. assert (Hb : Forall (fun c => length (shell_quote c) <= 1602)%nat (map lossy (chunks ENV_VALUE_CHUNK value))).
  { apply Forall_map. eapply List.Forall_impl; [|exact (chunks_loop_Forall (fun _ => True) ENV_VALUE_CHUNK (length value) value ltac:(by apply Forall_true))].
    intros c [_ Hc]. rewrite shell_quote_bytes, !length_app. pose proof (quoted_lossy_length c). change ENV_VALUE_CHUNK with 400%nat in Hc. unfold quoted in *. cbn [length]. lia. }
  assert (Ha : ∀ v, (length (shell_quote v) <= 1602)%nat → (length (assign_statement name v) <= MAX_INLINE_EXEC)%nat).
  { intros v Hv. unfold assign_statement. rewrite !length_app. change (length (as_bytes "export ")) with 7%nat.
    change MAX_INLINE_EXEC with 1900%nat. cbn [length]. lia. }
  unfold env_statements_of. destruct Hb as [|v rest Hv Hrest]; (constructor; [apply Ha; first [exact Hv | by apply Nat.leb_le]|]); [constructor|].
  apply Forall_map. apply (list.Forall_impl _ _ _ Hrest). intros c Hc. cbn beta in *. unfold append_statement. rewrite !length_app.
  change (length (text "`$")) with 2%nat. change (length (as_bytes "=")) with 1%nat. change MAX_INLINE_EXEC with 1900%nat. cbn [length]. lia.
Qed.

Section Environment.
Context {LB : LoopBound} {G E : Type} {GU : Guest G} {HO : SystemHost E}.

Fixpoint run_lines (prompt : list Z) (lines : list (list Z)) : ST (G * E) unit :=
  match lines with [] => mret tt | line :: lines => run_shell_line prompt line;; run_lines prompt lines end.

Lemma apply_statements_lines prompt statements : ∀ line s, apply_statements prompt statements line s = run_lines prompt (env_lines statements line) s.
Proof.
  induction statements as [|st sts IH]; intros line s; cbn [apply_statements env_lines].
  - case_bool_decide; [done|]. cbn [run_lines]. unfold mbind, ST_bind. by destruct (run_shell_line prompt line s) as [[[] s']|].
  - destruct (_ && _); [|apply IH]. cbn [app run_lines]. unfold mbind, ST_bind. destruct (run_shell_line prompt line s) as [[[] s']|]; [apply IH|done].
Qed.

(** C6: what [apply_env_to_shell] types sets the environment and does nothing else.
    The names have passed [env_pairs] and the values hold no zero byte; apart from
    that these may hold quotes, dollars, semicolons, newlines, anything.  Then the lines
    typed, read by the quoting rules of the shell, export every variable, in order,
    with its value cut into pieces of 400 bytes that are each decoded lossily - which
    is exactly its value where no piece ends inside a character; and with names of at
    most 128 bytes no line is longer than the limit for a line. *)
Theorem environment_reaches_shell env prompt s :
  env_pairs env = Ok env →
  Forall (fun e => no_zero e.2) env →
  ∃ lines,
    apply_env_to_shell prompt env s = run_lines prompt lines s ∧
    (∀ vars, sh_lines vars lines = Some (exported sent_value env vars)) ∧
    (Forall (fun e => cut_at_characters e.2) env → ∀ vars, sh_lines vars lines = Some (exported id env vars)) ∧
    (Forall (fun e => length e.1 <= 128)%nat env → Forall (fun l => length l <= MAX_INLINE_EXEC)%nat lines).
Proof.
  intros Hp Hv. exists (env_lines (env_statements env) []). split; [apply apply_statements_lines|].
  assert (Er : ∀ vars, sh_lines vars (env_lines (env_statements env) []) = Some (exported sent_value env vars)).
  { intros vars. destruct (env_reads _ Hp Hv) as (fs & Hfs & Efs). rewrite (env_lines_read _ _ Hfs [] id) by by left. by rewrite <- Efs. }
  split; [done|]. split; [intros Hc vars; by rewrite <- exported_same|].
  intros Hn. apply lines_fit; [|cbn; lia]. unfold env_statements. apply Forall_concat, Forall_map. apply List.Forall_forall. intros e He.
  exact (statements_short _ _ (proj1 (List.Forall_forall _ _) Hn e He)).
Qed.
End Environment.

(** A guest that prompts for every line, on a host without a clock. *)
Module Toy.
Record Guest_ := mkGuest { typed : list Z; said : list Z }.
#[export] Instance toy_guest : Guest Guest_ := {
  g_push_rx p b g := match p with PortMain => mkGuest (typed g ++ [b]) (if b =? 10 then said g ++ as_bytes "# " else said g) | _ => g end;
  g_transmitted p g := match p with PortMain => said g | _ => [] end;
  g_clear_tx p g := match p with PortMain => mkGuest (typed g) [] | _ => g end;
  g_is_waiting _ := false;
  g_wake g := g;
  g_shutdown _ := false;
  g_advance_by_instructions _ g := Some g;
  g_advance_by_nanos _ g := Some g;
  g_nanos_until_timer _ := None;
  g_fast_forward_to_timer g := g;
  g_has_pending_io _ := false;
  g_net_rx_pending _ := false;
  g_poll := mret tt;
  g_run _ := mret StepOk;
  g_run_until_wait _ := mret StepOk
}.
#[export] Instance toy_host : SystemHost unit := {
  h_monotonic := mret 0; h_wall_seconds := mret 0; h_wait _ := mret tt; h_random_bytes _ := mret []; h_random_u64 := mret 0
}.
#[export] Instance toy_encoder : Base64 := fun l => l.
#[export] Instance toy_bound : LoopBound := 4%nat.
#[export] Instance sandbox : Sandbox Guest_ unit := {
  sb_bus_from_base _ _ _ := mret (mkGuest [] []);
  sb_restore_devices _ := mret (Ok tt);
  sb_restore_delta bytes := fun g => Some (Ok tt, mkGuest bytes []);
  sb_save_delta g := Some (typed g);
  sb_start_trace _ g := g;
  sb_stop_trace g := g;
  sb_traces_syscalls _ := false;
  sb_set_trace_quiet _ g := g;
  sb_seed_working_directory _ _ g := g
}.
(** The only file is the snapshot of a guest of eight bytes. *)
Definition snapshot_file : list Z := as_bytes "VPOD" ++ [1; 1] ++ to_le_bytes 8 16 ++ replicate 16 0.
#[export] Instance files : Files unit := { f_read _ := mret (Some snapshot_file); f_write _ _ := mret true }.
#[export] Instance decoder : Lz4Decoder := fun l => (l, true).
#[export] Instance target : Target := 2 ^ 63 - 1.
End Toy.

Section ToyEnvironment.
Import Toy.

Lemma environment_reaches_shell_witness :
  let env := [(as_bytes "GREETING", as_bytes "it's $HOME; rm -rf /"); (as_bytes "N", [])] in
  let run := apply_env_to_shell (as_bytes "# ") env (Toy.mkGuest [] [], tt) in
  (Toy.typed ∘ fst ∘ snd <$> run) = Some (as_bytes "export GREETING='it'\''s $HOME; rm -rf /'; export N=''" ++ [10]) ∧
  ∃ lines, run = run_lines (as_bytes "# ") lines (Toy.mkGuest [] [], tt) ∧
    (∀ vars, sh_lines vars lines = Some (exported sent_value env vars)) ∧
    (Forall (fun e => cut_at_characters e.2) env → ∀ vars, sh_lines vars lines = Some (exported id env vars)) ∧
    (Forall (fun e => length e.1 <= 128)%nat env → Forall (fun l => length l <= MAX_INLINE_EXEC)%nat lines).
Proof.
  split; [by vm_compute|]. apply environment_reaches_shell; [by vm_compute|].
  constructor; [|constructor; [|constructor]]; by apply (bool_decide_unpack _); vm_compute.
Defined.

End ToyEnvironment.

(** A character that two pieces share is replaced by two others. *)
Lemma cut_character_corrupted :
  let env := [(as_bytes "K", replicate 399 120 ++ [0xC3; 0xA9])] in
  value_of (default ∅ (sh_lines ∅ (env_lines (env_statements env) []))) (as_bytes "K") = replicate 399 120 ++ [0xEF; 0xBF; 0xBD; 0xEF; 0xBF; 0xBD].
Proof. by vm_compute. Qed.

(** The name of a secret is not looked at before it is typed. *)
Lemma secret_name_is_typed :
  session_inputs [] [mkWitSecret (as_bytes "A=1; reboot; B") (mkBinding (as_bytes "p") (as_bytes "v") [as_bytes "h"])]
    = Ok ([(as_bytes "A=1; reboot; B", as_bytes "p")], [mkBinding (as_bytes "p") (as_bytes "v") [as_bytes "h"]]) ∧
  env_statements [(as_bytes "A=1; reboot; B", as_bytes "p")] = [as_bytes "export A=1; reboot; B='p'"].
Proof. by vm_compute. Qed.

(** ** Suspending and resuming *)

Lemma lossy_ascii a b : Forall (fun x => x < 0x80) a → lossy (a ++ b) = a ++ lossy b.
Proof.
  intros Ha. induction Ha as [|x a Hx _ IH]; [done|]. unfold lossy in *. cbn [app length lossy_loop].
  replace (utf8_chunk (x :: a ++ b)) with (true, 1%nat); [cbn; by rewrite drop_0, IH|].
  unfold utf8_chunk. cbn [nth]. destruct (x <? 128) eqn:E; [done|lia].
Qed.

Lemma split_once_app c a b : Forall (fun x => x ≠ c) a → split_once c (a ++ [c] ++ b) = Some (a, b).
Proof.
  induction 1 as [|x a Hx _ IH]; cbn; [by rewrite Z.eqb_refl|]. destruct (x =? c) eqn:E; [by apply Z.eqb_eq in E|]. cbn in IH. by rewrite IH.
Qed.

Lemma split_with_meta delta meta : Z.of_nat (length meta) < 2 ^ 32 → split_meta (with_meta delta meta) = Some (delta, lossy meta).
Proof.
  intros Hm. assert (Hw : as_u32 (Z.of_nat (length meta)) = Z.of_nat (length meta)) by (apply wrap_id; split; [lia|done]).
  unfold split_meta, with_meta. rewrite Hw, !length_app, length_to_le_bytes.
  assert (Hl : (length delta + (length meta + 4) - 4 = length (delta ++ meta))%nat) by (rewrite length_app; lia). rewrite Hl.
  destruct (_ <? 4)%nat eqn:E; [apply Nat.ltb_lt in E; lia|]. rewrite app_assoc, drop_app_length, from_to_le_bytes. change (wrap (8 * Z.of_nat 4) (Z.of_nat (length meta))) with (as_u32 (Z.of_nat (length meta))). rewrite Hw, Nat2Z.id.
  destruct (length (delta ++ meta) <? length meta)%nat eqn:E2; [apply Nat.ltb_lt in E2; rewrite length_app in E2; lia|].
  replace (length (delta ++ meta) - length meta)%nat with (length delta) by (rewrite length_app; lia). rewrite <- !app_assoc.
  by rewrite take_app_length, drop_app_length, take_app_length.
Qed.

Lemma bool_text_plain b : Forall (fun x => x ≠ 124) (bool_text b) ∧ Forall (fun x => x < 0x80) (bool_text b).
Proof. by destruct b; split; repeat constructor. Qed.
Lemma kind_text_plain {G} (s : Session G) : Forall (fun x => x ≠ 124) (kind_text s) ∧ Forall (fun x => x < 0x80) (kind_text s).
Proof. unfold kind_text. by destruct (is_shell s), (is_pyrunner s); split; repeat constructor. Qed.

(** *** Decoding what has been decoded *)

Lemma utf8_second3_zero b : utf8_second3 b 0 = false.
Proof. unfold utf8_second3, utf8_cont, byte_in. cbn. by rewrite !andb_false_r. Qed.
Lemma utf8_second4_zero b : utf8_second4 b 0 = false.
Proof. unfold utf8_second4, utf8_cont, byte_in. cbn. by rewrite !andb_false_r. Qed.

(** Whether a character is one depends on its own bytes. *)
Lemma utf8_chunk_char l n rest : l ≠ [] → utf8_chunk l = (true, n) → (n <= length l)%nat ∧ utf8_chunk (take n l ++ rest) = (true, n).
Proof.
  intros Hl. destruct l as [|b0 [|b1 [|b2 [|b3 l]]]]; [done|..]; intros E; unfold utf8_chunk in E; cbn [nth] in E;
    rewrite ?utf8_second3_zero, ?utf8_second4_zero in E; change (utf8_cont 0) with false in E; cbn [negb] in E;
    repeat match type of E with context [if ?b then _ else _] => destruct b eqn:? end; try discriminate E; injection E as <-;
    (split; [cbn [length]; lia|]); unfold utf8_chunk; cbn [take app nth];
    repeat match goal with H : ?e = _ |- context [?e] => rewrite H end; done.
Qed.

(** A list of characters. *)
Inductive characters : list Z -> Prop :=
| chars_nil : characters []
| chars_cons c l : c ≠ [] → (∀ rest, utf8_chunk (c ++ rest) = (true, length c)) → characters l → characters (c ++ l).

Lemma lossy_characters l : characters (lossy l).
Proof.
  unfold lossy. generalize (length l). intros fuel. revert l. induction fuel as [|fuel IH]; intros [|x l]; cbn [lossy_loop]; [constructor..|].
  pose proof (utf8_chunk_pos (x :: l)) as Hpos. destruct (utf8_chunk (x :: l)) as [ok n] eqn:E. cbn [snd] in Hpos. constructor; [| |apply IH].
  - destruct ok; [|done]. destruct n; [lia|done].
  - intros rest. destruct ok; [|by cbn]. destruct (utf8_chunk_char (x :: l) n rest ltac:(done) E) as [Hn ->]. by rewrite length_take_le.
Qed.

Lemma characters_lossy l : characters l → ∀ fuel, (length l <= fuel)%nat → lossy_loop fuel l = l.
Proof.
  induction 1 as [|c l Hc Hu _ IH]; intros fuel Hf; [by destruct fuel|]. rewrite length_app in Hf.
  destruct fuel as [|fuel]; [destruct c; [done | cbn in Hf; lia]|]. cbn [lossy_loop]. destruct (c ++ l) as [|x m] eqn:Ecl; [by destruct c|].
  rewrite <- Ecl, Hu, take_app_length, drop_app_length, IH; [done|]. destruct c; [done | cbn in Hf; lia].
Qed.

Lemma lossy_lossy l : lossy (lossy l) = lossy l.
Proof. by apply characters_lossy; [apply lossy_characters|]. Qed.

Lemma session_meta_parsed {G} (s : Session G) : Z.of_nat (length (lossy (sess_prompt s))) < 2 ^ 31 →
  lossy (session_meta s) = session_meta s ∧ Z.of_nat (length (session_meta s)) < 2 ^ 32 ∧
  parse_meta (session_meta s) = mkMeta (is_shell s) (negb (is_shell s) && is_pyrunner s) (has_pyrunner s) (pyrunner_reseeded s) (lossy (sess_prompt s)).
Proof.
  intros Hlen. unfold session_meta. destruct (kind_text_plain s) as [K1 K2], (bool_text_plain (has_pyrunner s)) as [H1 H2], (bool_text_plain (pyrunner_reseeded s)) as [R1 R2].
  assert (Hbar : Forall (fun x => x < 0x80) [124]) by by repeat constructor. split; [|split].
  - rewrite !lossy_ascii by done. by rewrite lossy_lossy.
  - rewrite !length_app. assert (Hk : (length (kind_text s) <= 8)%nat) by (unfold kind_text; by destruct (is_shell s), (is_pyrunner s); cbn; lia).
    assert (Hb : ∀ b, (length (bool_text b) <= 5)%nat) by (intros []; cbn; lia). pose proof (Hb (has_pyrunner s)). pose proof (Hb (pyrunner_reseeded s)). cbn [length]. lia.
  - unfold parse_meta. cbn [splitn]. rewrite !split_once_app by done. unfold kind_text.
    destruct (is_shell s), (is_pyrunner s), (has_pyrunner s), (pyrunner_reseeded s); try done.
Qed.

(** The loops that run a guest are not looked into from here on. *)
#[local] Opaque type_bytes wait_for_prompt absorb_stray_prompt drain_ctrl_with_grace settle capture_output run_slice.

(** From a run of a bind to the runs of its parts. *)
Ltac unbind H x Hm := apply st_bind_Some in H as (x & ? & Hm & H).

Section Suspended.
Context {LB : LoopBound} {G E : Type} {GU : Guest G} {HO : SystemHost E} {SB : Sandbox G E} {B64 : Base64}.

Lemma on_machine_inv {A} (m : ST (G * E) A) (s : Session G * E) a s' :
  on_machine m s = Some (a, s') → ∃ g e, m (machine s.1, s.2) = Some (a, (g, e)) ∧ s' = (s.1 <| machine := g |>, e).
Proof. unfold on_machine, zoom. destruct (m _) as [[b [g e]]|]; [|done]. intros [= <- <-]. by exists g, e. Qed.

Lemma restart_pyrunner_inv s s' :
  restart_pyrunner s = Some (tt, s') → ∃ g e, s' = (s.1 <| machine := g |> <| pyrunner_reseeded := true |>, e).
Proof.
  intros Hrun. apply st_bind_Some in Hrun as (prompt & s1 & Hget & Hrun). injection Hget as <- <-.
  apply st_bind_Some in Hrun as (r & s2 & Hrun & Hmod). apply on_machine_inv in Hrun as (g & e & _ & ->). injection Hmod as <-. by exists g, e.
Qed.

(** C15: a suspended session is read back as what it was.  The bytes [suspend] returns
    are cut again into the delta of the machine and the description of the session,
    whatever bytes the delta holds; the description gives the kind of the session (the
    shell's, if it is said to be both the shell's and the Python runner's), whether it
    has a Python runner and one that was reseeded, and the prompt as far as it is
    UTF-8: decoded lossily, which is the prompt itself if it is well-formed, bars
    included.  A runner that was stuck has been restarted first.  The prompt must be
    shorter than 2^31 bytes. *)
Theorem suspended_reads_back s bytes s' :
  Z.of_nat (length (lossy (sess_prompt s.1))) < 2 ^ 31 →
  suspend s = Some (Ok bytes, s') →
  ∃ delta, sb_save_delta (machine s'.1) = Some delta ∧ pyrunner_dirty s'.1 = false ∧
    split_meta bytes = Some (delta, session_meta s'.1) ∧
    parse_meta (session_meta s'.1)
    = mkMeta (is_shell s.1) (negb (is_shell s.1) && is_pyrunner s.1) (has_pyrunner s.1) (pyrunner_reseeded s.1 || pyrunner_dirty s.1) (lossy (sess_prompt s.1)).
Proof.
  intros Hp Hrun. unfold suspend in Hrun. apply st_bind_Some in Hrun as (dirty & s1 & [= <- <-] & Hrun). apply st_bind_Some in Hrun as ([] & s1 & Er & Hrun).
  assert (Hs1 : is_shell s1.1 = is_shell s.1 ∧ is_pyrunner s1.1 = is_pyrunner s.1 ∧ has_pyrunner s1.1 = has_pyrunner s.1 ∧ sess_prompt s1.1 = sess_prompt s.1 ∧
    pyrunner_reseeded s1.1 = pyrunner_reseeded s.1 || pyrunner_dirty s.1 ∧ pyrunner_dirty s1.1 = false).
  { destruct (pyrunner_dirty s.1) eqn:Ed; [|injection Er as <-; by rewrite orb_false_r].
    apply st_bind_Some in Er as ([] & s2 & Er & Hmod). injection Hmod as <-. apply restart_pyrunner_inv in Er as (g & e & ->). cbn. by rewrite orb_true_r. }
  destruct Hs1 as (H1 & H2 & H3 & H4 & H5 & H6). apply st_bind_Some in Hrun as (saved & s2 & [= <- <-] & Hrun). apply st_bind_Some in Hrun as (meta & s2 & [= <- <-] & Hrun).
  destruct (sb_save_delta (machine s1.1)) as [delta|] eqn:Es; [|done]. injection Hrun as <- <-. exists delta.
  destruct (session_meta_parsed s1.1) as (M1 & M2 & M3); [by rewrite H4|].
  split; [done|]. split; [done|]. split; [by rewrite split_with_meta, M1|]. by rewrite M3, H1, H2, H3, H4, H5.
Qed.
End Suspended.

Section ToySuspended.
Import Toy.
Definition toy_session : Session Guest_ := mkSession (mkGuest [1; 2; 255] []) (as_bytes "a|b# ") true false true false false false None [] [].

Lemma suspended_reads_back_witness :
  ∃ bytes, suspend (toy_session, tt) = Some (Ok bytes, (toy_session, tt)) ∧
  ∃ delta, sb_save_delta (machine toy_session) = Some delta ∧ pyrunner_dirty toy_session = false ∧
    split_meta bytes = Some (delta, session_meta toy_session) ∧
    parse_meta (session_meta toy_session) = mkMeta true false true false (as_bytes "a|b# ").
Proof.
  eexists. split; [vm_compute; reflexivity|]. by apply (suspended_reads_back (toy_session, tt) _ (toy_session, tt)); vm_compute.
Defined.
End ToySuspended.

(** ** Handles *)

Section Handles.
Context {LB : LoopBound} {G E : Type} {GU : Guest G} {HO : SystemHost E} {SB : Sandbox G E} {FI : Files E}.
Context {LD : Lz4Decoder} {TA : Target} {B64 : Base64}.
Abbreviation Manager := (@SessionManager G).

(** Everything the component is asked for. *)
Inductive Request : Type :=
| RqStart (path command prompt : list Z) (mounts : list MountArg) (env : list (list Z * list Z)) (secrets : list WitSecret)
| RqResume (path delta_path : list Z) (mounts : list MountArg) (env : list (list Z * list Z)) (secrets : list WitSecret)
| RqExec (handle : Z) (code : list Z) (timeout : option Z)
| RqSlice (handle : Z) (code : option (list Z)) (timeout : option Z) (slice_nanos : Z) (mode : ExecMode)
| RqInterrupt (handle : Z)
| RqStdin (handle : Z) (data : list Z)
| RqClose (handle : Z)
| RqSuspend (handle : Z) (path : list Z)
| RqTraceStart (handle : Z) (o : TraceOptions)
| RqTraceStop (handle : Z).

Definition touched (rq : Request) : option Z :=
  match rq with
  | RqStart _ _ _ _ _ _ | RqResume _ _ _ _ _ => None
  | RqExec h _ _ | RqSlice h _ _ _ _ | RqInterrupt h | RqStdin h _ | RqClose h | RqSuspend h _ | RqTraceStart h _ | RqTraceStop h => Some h
  end.

(** Serving a request; the handle it gives out, if any. *)
Definition serve (rq : Request) : ST (Manager * E) (option Z) :=
  match rq with
  | RqStart path command prompt mounts env secrets => r ← session_start path command prompt mounts env secrets; mret (result_ok r)
  | RqResume path delta_path mounts env secrets => r ← session_resume path delta_path mounts env secrets; mret (result_ok r)
  | RqExec h code timeout => session_exec h code timeout;; mret None
  | RqSlice h code timeout slice_nanos mode => session_exec_slice h code timeout slice_nanos mode;; mret None
  | RqInterrupt h => session_interrupt h;; mret None
  | RqStdin h data => session_stdin h data;; mret None
  | RqClose h => close_session h;; mret None
  | RqSuspend h path => session_suspend h path;; mret None
  | RqTraceStart h o => session_trace_start h o;; mret None
  | RqTraceStop h => session_trace_stop h;; mret None
  end.

Definition serves (s s' : Manager * E) : Prop := ∃ rq id, serve rq s = Some (id, s').

(** What a request may change of the sessions. *)
Definition same_sessions (s s' : Manager * E) : Prop := sessions s'.1 = sessions s.1 ∧ next_id s'.1 = next_id s.1.

Definition one_session (h : Z) (s s' : Manager * E) : Prop :=
  next_id s'.1 = next_id s.1 ∧
  ((sessions s.1 !! h = None ∧ sessions s'.1 = sessions s.1) ∨ (is_Some (sessions s.1 !! h) ∧ ∃ sess, sessions s'.1 = <[h := sess]> (sessions s.1))).

Definition new_session (r : option Z) (s s' : Manager * E) : Prop :=
  match r with
  | None => same_sessions s s'
  | Some id => id = next_id s.1 ∧ next_id s'.1 = as_u64 (id + 1) ∧ ∃ sess, sessions s'.1 = <[id := sess]> (sessions s.1)
  end.

Lemma with_session_one {A} h (m : ST (Session G * E) (Result A SessionError)) s r s' : with_session h m s = Some (r, s') → one_session h s s'.
Proof.
  unfold with_session, one_session. destruct (sessions s.1 !! h) as [sess|] eqn:Eh.
  - destruct (m (sess, s.2)) as [[b [sess' e]]|]; [|done]. intros [= <- <-]. split; [done|]. right. split; [done|]. by exists sess'.
  - intros [= <- <-]. split; [done|]. by left.
Qed.

(** Code that leaves the sessions alone. *)
Definition quiet {A} (m : ST (Manager * E) A) : Prop := ∀ s a s', m s = Some (a, s') → same_sessions s s'.

Lemma same_sessions_trans s1 s2 s3 : same_sessions s1 s2 → same_sessions s2 s3 → same_sessions s1 s3.
Proof. unfold same_sessions. intros [-> ->] [-> ->]. done. Qed.

Lemma quiet_on_outside {A} (m : ST E A) : quiet (on_outside m).
Proof. intros s a s'. unfold on_outside, zoom. destruct (m s.2) as [[b e]|]; [|done]. by intros [= <- <-]. Qed.

Lemma quiet_on_new {A} g (m : ST (G * E) A) : quiet (on_new g m).
Proof. intros s a s'. unfold on_new. destruct (m (g, s.2)) as [[b [g' e]]|]; [|done]. by intros [= <- <-]. Qed.

Lemma quiet_ensure_base path : quiet (ensure_base path).
Proof.
  assert (Hload : quiet (load_base path)).
  { intros s a s' Hrun. apply st_bind_Some in Hrun as (data & s1 & Hread & Hrun). apply quiet_on_outside in Hread. eapply same_sessions_trans; [exact Hread|]. clear Hread.
    destruct data as [data|]; [|by injection Hrun as <- <-]. apply st_bind_Some in Hrun as (r & s2 & Hep & Hrun).
    assert (H2 : same_sessions s1 s2). { unfold on_epochs, zoom in Hep. destruct (read_base_and_tail data _) as [[b n]|]; [|done]. by injection Hep as <- <-. }
    eapply same_sessions_trans; [exact H2|]. destruct r as [[[base tail] flags]|err]; [|by injection Hrun as <- <-]. by injection Hrun as <- <-. }
  intros s a s' Hrun. apply st_bind_Some in Hrun as (cache & s1 & Hget & Hrun). injection Hget as <- <-.
  destruct (base_cache s.1) as [c|]; [|by eapply Hload]. destruct (bool_decide _); [by injection Hrun as <- <- | by eapply Hload].
Qed.

Lemma add_session_new s0 sess s id s' : same_sessions s0 s → add_session sess s = Some (id, s') → new_session (Some id) s0 s'.
Proof. intros [E1 E2] Hrun. unfold add_session in Hrun. injection Hrun as <- <-. cbn. rewrite E1, E2. split; [done|]. split; [done|]. by exists sess. Qed.

Lemma start_session_new path command prompt mounts env secrets s r s' :
  start_session path command prompt mounts env secrets s = Some (r, s') → new_session (result_ok r) s s'.
Proof.
  unfold start_session. intros H. unbind H b Hb. apply quiet_ensure_base in Hb. destruct b as [c|err]; [|by injection H as <- <-].
  unbind H g Hg. apply quiet_on_outside in Hg. unbind H rg Hr. apply quiet_on_new in Hr. destruct rg as [restored g'].
  pose proof (same_sessions_trans _ _ _ Hb (same_sessions_trans _ _ _ Hg Hr)) as Hs. destruct restored as [[]|err]; [|by injection H as <- <-].
  unbind H pg Hp. apply quiet_on_new in Hp. destruct pg as [prompt' g2]. unbind H i Ha. injection H as <- <-.
  eapply add_session_new; [|exact Ha]. by eapply same_sessions_trans.
Qed.

Lemma resume_session_new path delta mounts env secrets s r s' :
  resume_session path delta mounts env secrets s = Some (r, s') → new_session (result_ok r) s s'.
Proof.
  unfold resume_session. intros H. unbind H b Hb. apply quiet_ensure_base in Hb. destruct b as [c|err]; [|by injection H as <- <-].
  unbind H g Hg. apply quiet_on_outside in Hg. destruct (split_meta delta) as [[d meta]|]; [|done]. unbind H rg Hr. apply quiet_on_new in Hr. destruct rg as [restored g'].
  pose proof (same_sessions_trans _ _ _ Hb (same_sessions_trans _ _ _ Hg Hr)) as Hs. destruct restored as [[]|err]; [|by injection H as <- <-].
  unbind H pg Hp. apply quiet_on_new in Hp. destruct pg as [prompt' g2]. unbind H i Ha. injection H as <- <-.
  eapply add_session_new; [|exact Ha]. by eapply same_sessions_trans.
Qed.

(** Requests that name no session make one or none; the others change theirs at most. *)
Lemma serve_new rq s id s' : touched rq = None → serve rq s = Some (id, s') → new_session id s s'.
Proof.
  destruct rq; try done; intros _ H; cbn [serve] in H; unbind H r Hr; injection H as <- <-.
  - unfold session_start in Hr. destruct (session_inputs env secrets) as [[env' bindings]|err]; [by eapply start_session_new | by injection Hr as <- <-].
  - unfold session_resume in Hr. unbind Hr delta Hd. apply quiet_on_outside in Hd. destruct delta as [delta|]; [|by injection Hr as <- <-].
    destruct (session_inputs env secrets) as [[env' bindings]|err]; [|by injection Hr as <- <-]. apply resume_session_new in Hr. destruct Hd as [D1 D2].
    unfold new_session, same_sessions in *. rewrite <- D1, <- D2. exact Hr.
Qed.

Lemma serve_one rq h s id s' : touched rq = Some h → serve rq s = Some (id, s') →
  id = None ∧ (one_session h s s' ∨ next_id s'.1 = next_id s.1 ∧ sessions s'.1 = delete h (sessions s.1)).
Proof.
  destruct rq; try done; intros [= ->] H; cbn [serve] in H.
  5: { unbind H r Hr. injection Hr as <- <-. injection H as <- <-. split; [done|]. right; by split. }
  5: { unbind H r Hr. injection H as <- <-. split; [done|]. left. unfold session_suspend in Hr. unbind Hr b Hb. apply with_session_one in Hb.
       destruct b as [delta|err]; [|by injection Hr as <- <-]. unbind Hr w Hw. apply quiet_on_outside in Hw as [W1 W2]. injection Hr as <- <-.
       unfold one_session in *. by rewrite W1, W2. }
  all: unbind H r Hr; injection H as <- <-; split; [done|]; left; by eapply with_session_one.
Qed.

(** The counter is ahead of every handle given out. *)
Definition handles_below (n : Z) (m : Manager) : Prop := 1 <= next_id m <= n ∧ ∀ h, is_Some (sessions m !! h) → 1 <= h < next_id m.

Lemma serve_below rq n s id s' : n < 2 ^ 64 - 1 → handles_below n s.1 → serve rq s = Some (id, s') → handles_below (n + 1) s'.1.
Proof.
  intros Hn [Hb Hh] H. destruct (touched rq) as [h|] eqn:Et.
  - destruct (serve_one _ _ _ _ _ Et H) as [_ [[En [[_ Es]|[Hsome [sess Es]]]]|[En Es]]]; unfold handles_below; rewrite En; (split; [lia|]).
    + by rewrite Es.
    + intros k Hk. rewrite Es in Hk. destruct (decide (k = h)) as [->|Hne]; [by apply Hh|]. rewrite lookup_insert_ne in Hk by done. by apply Hh.
    + intros k Hk. rewrite Es in Hk. apply Hh. destruct (decide (k = h)) as [->|Hne]; [by rewrite lookup_delete_eq in Hk; destruct Hk|]. by rewrite lookup_delete_ne in Hk.
  - apply (serve_new _ _ _ _ Et) in H. destruct id as [id|].
    + destruct H as (-> & En & sess & Es). assert (Hs : as_u64 (next_id s.1 + 1) = next_id s.1 + 1) by (apply wrap_id; split; lia).
      unfold handles_below. rewrite En, Hs. split; [lia|]. intros k Hk. rewrite Es in Hk. destruct (decide (k = next_id s.1)) as [->|Hne]; [lia|].
      rewrite lookup_insert_ne in Hk by done. specialize (Hh _ Hk). lia.
    + destruct H as [Es En]. unfold handles_below. rewrite En, Es. split; [lia|]. done.
Qed.

Lemma served_below k e s : nsteps serves k (manager_new, e) s → Z.of_nat k < 2 ^ 64 - 2 → handles_below (1 + Z.of_nat k) s.1.
Proof.
  revert s. induction k as [|k IH]; intros s Hrun Hk.
  - inversion Hrun; subst. split; [done|]. intros h [sess Hs]. done.
  - apply nsteps_inv_r in Hrun as (s1 & Hrun & rq & i & Hs). replace (1 + Z.of_nat (S k)) with (1 + Z.of_nat k + 1) by lia.
    eapply serve_below; [|apply IH; [exact Hrun|lia] | exact Hs]. lia.
Qed.

(** C7: a handle names one session for ever, and a request reaches no session but its
    own.  After fewer than 2^64 - 2 requests of any kind, served one after the other:
    whatever the next one is, every session it does not name is untouched, its machine
    included; an unknown or closed handle changes no session at all; and a new session
    gets a handle above all that were ever given out. *)
Theorem handles_name_one_session k e s rq i s' :
  nsteps serves k (manager_new, e) s → Z.of_nat k < 2 ^ 64 - 2 →
  serve rq s = Some (i, s') →
  (∀ h, touched rq ≠ Some h → i ≠ Some h → sessions s'.1 !! h = sessions s.1 !! h) ∧
  (∀ h, touched rq = Some h → sessions s.1 !! h = None → sessions s'.1 = sessions s.1) ∧
  next_id s.1 <= next_id s'.1 ∧
  (∀ h, i = Some h → next_id s.1 = h ∧ h < next_id s'.1 ∧ sessions s.1 !! h = None ∧ is_Some (sessions s'.1 !! h)).
Proof.
  intros Hrun Hk Hs. destruct (served_below _ _ _ Hrun Hk) as [Hb Hh].
  assert (Hfree : sessions s.1 !! next_id s.1 = None). { destruct (sessions s.1 !! next_id s.1) eqn:Ef; [|done]. specialize (Hh (next_id s.1) (ex_intro _ _ Ef)). lia. }
  destruct (touched rq) as [h|] eqn:Et.
  - apply (serve_one _ _ _ _ _ Et) in Hs as [-> Hs]. split; [|split; [|split; [|done]]].
    + intros g Hg _. assert (g ≠ h) by congruence. destruct Hs as [[_ [[_ ->]|[_ [sess ->]]]]|[_ ->]]; [done|by apply lookup_insert_ne|by apply lookup_delete_ne].
    + intros g [= <-] Hnone. destruct Hs as [[_ [[_ ->]|[[x Hx] _]]]|[_ ->]]; [done|congruence|by apply delete_id].
    + destruct Hs as [[-> _]|[-> _]]; lia.
  - apply (serve_new _ _ _ _ Et) in Hs. split; [|split; [done|]].
    + intros h _ Hi. destruct i as [i|]; [|by destruct Hs as [-> _]]. destruct Hs as (-> & _ & sess & ->). apply lookup_insert_ne. congruence.
    + destruct i as [i|]; [|destruct Hs as [_ ->]; split; [lia|done]]. destruct Hs as (-> & En & sess & Es).
      assert (Ew : as_u64 (next_id s.1 + 1) = next_id s.1 + 1) by (apply wrap_id; split; lia). rewrite En, Ew. split; [lia|]. intros h [= <-].
      split; [done|]. split; [lia|]. split; [done|]. rewrite Es, lookup_insert_eq. by eexists.
Qed.
End Handles.

Section ToyHandles.
Import Toy.

Lemma handles_name_one_session_witness :
  ∃ s s', nsteps serves 1 (manager_new, tt) s ∧ serve (RqStdin 1 (as_bytes "y")) s = Some (None, s') ∧
    (staged_stdin <$> sessions s'.1 !! 1) = Some (as_bytes "y") ∧ ∀ h, Some 1 ≠ Some h → None ≠ Some h → sessions s'.1 !! h = sessions s.1 !! h.
Proof.
  assert (Hs : ∃ s s', serve (RqStart (as_bytes "snap") (as_bytes "top") (as_bytes "# ") [] [] []) (manager_new, tt) = Some (Some 1, s) ∧
    serve (RqStdin 1 (as_bytes "y")) s = Some (None, s') ∧ (staged_stdin <$> sessions s'.1 !! 1) = Some (as_bytes "y")).
  { eexists _, _. split; [vm_compute; reflexivity|]. split; [vm_compute; reflexivity|]. by vm_compute. }
  destruct Hs as (s & s' & H1 & H2 & H3). exists s, s'.
  assert (Hn : nsteps serves 1 (manager_new, tt) s) by (apply nsteps_once; by exists (RqStart (as_bytes "snap") (as_bytes "top") (as_bytes "# ") [] [] []), (Some 1)).
  split; [exact Hn|]. split; [exact H2|]. split; [exact H3|].
  exact (proj1 (handles_name_one_session 1 tt s (RqStdin 1 (as_bytes "y")) None s' Hn ltac:(done) H2)).
Defined.
End ToyHandles.

(** ** What a session keeps of its machine *)

Class SandboxKeeps {G E : Type} {SB : Sandbox G E} (I : G -> Prop) := {
  sk_start_trace : ∀ o g, I g → I (sb_start_trace o g);
  sk_stop_trace : ∀ g, I g → I (sb_stop_trace g);
  sk_quiet : ∀ q g, I g → I (sb_set_trace_quiet q g);
  sk_seed : ∀ pid path g, I g → I (sb_seed_working_directory pid path g)
}.

Section KeptOnMachine.
Context {LB : LoopBound} {G E : Type} {GU : Guest G} {HO : SystemHost E} {B64 : Base64} (I : G -> Prop) {GK : GuestKeeps I}.
Abbreviation kept := (kept (E := E) I).

Lemma kept_shell_line prompt line : kept (run_shell_line prompt line).
Proof. unfold run_shell_line. kept_go. Qed.
#[local] Hint Resolve kept_shell_line : guest.
Lemma kept_statements prompt statements : ∀ line, kept (apply_statements prompt statements line).
Proof. induction statements as [|st sts IH]; intros line; cbn [apply_statements]; kept_go. Qed.
Lemma kept_ask timeout line : kept (ask_pyrunner timeout line).
Proof. unfold ask_pyrunner. kept_go. Qed.
#[local] Hint Resolve kept_ask : guest.
Lemma kept_env_to_pyrunner env : kept (apply_env_to_pyrunner env).
Proof. unfold apply_env_to_pyrunner. kept_go. Qed.
Lemma kept_drain_ports : kept drain_ports.
Proof. unfold drain_ports. kept_go. Qed.
Lemma kept_drain_all : kept drain_all_ports.
Proof. unfold drain_all_ports. apply kept_bind; [apply kept_drain_ports|]. intros ?. kept_go. Qed.
End KeptOnMachine.
#[export] Hint Resolve kept_ask kept_env_to_pyrunner kept_drain_ports kept_drain_all : guest.

Section KeptSession.
Context {LB : LoopBound} {G E : Type} {GU : Guest G} {HO : SystemHost E} {SB : Sandbox G E} {B64 : Base64} (I : G -> Prop) {GK : GuestKeeps I} {SK : SandboxKeeps I}.

Definition keeps_machine {A} (m : ST (Session G * E) A) : Prop := ∀ s a s', I (machine s.1) → m s = Some (a, s') → I (machine s'.1).

Lemma km_bind {A B} (m : ST (Session G * E) A) (f : A -> ST (Session G * E) B) : keeps_machine m → (∀ a, keeps_machine (f a)) → keeps_machine (m ≫= f).
Proof. intros Hm Hf s b s' Hs E1. apply st_bind_Some in E1 as (a & s1 & E1 & E2). eapply Hf; [|exact E2]. by eapply Hm. Qed.
Lemma km_ret {A} (a : A) : keeps_machine (mret a).
Proof. by intros s b s' Hs [= <- <-]. Qed.
Lemma km_panic {A} : keeps_machine (panic : ST (Session G * E) A).
Proof. done. Qed.
Lemma km_get {A} (f : Session G -> A) : keeps_machine (get_session f).
Proof. by intros s b s' Hs [= <- <-]. Qed.
Lemma km_mod f : (∀ s, machine (f s) = machine s) → keeps_machine (mod_session f).
Proof. intros Hf s b s' Hs [= <- <-]. cbn. by rewrite Hf. Qed.
Lemma km_on {A} (m : ST (G * E) A) : kept I m → keeps_machine (on_machine m).
Proof. intros Hm s a s' Hs Hrun. apply on_machine_inv in Hrun as (g & e & Hrun & ->). by apply Hm in Hrun. Qed.

#[local] Hint Resolve km_ret km_panic km_get : guest.
#[local] Hint Extern 1 (keeps_machine (mod_session _)) => apply km_mod; reflexivity : guest.
#[local] Hint Extern 2 (keeps_machine (on_machine _)) => apply km_on; solve [kept_go] : guest.

Ltac km_go :=
  repeat first [ assumption | solve [eauto with guest nocore] | apply km_bind; [|intros ?] | case_match; try discriminate ].

Lemma km_type bytes : keeps_machine (type_and_drain bytes).
Proof. unfold type_and_drain. km_go. Qed.
#[local] Hint Resolve km_type : guest.
Lemma km_recover : keeps_machine recover_shell.
Proof. unfold recover_shell. km_go. Qed.
Lemma km_restore : keeps_machine restore_terminal.
Proof. apply km_type. Qed.
Lemma km_upload path pieces : ∀ first, keeps_machine (upload_chunks path pieces first).
Proof. induction pieces as [|c pieces IH]; intros first; cbn [upload_chunks]; km_go. Qed.
Lemma km_upload_python pieces : ∀ first, keeps_machine (upload_python pieces first).
Proof. induction pieces as [|c pieces IH]; intros first; cbn [upload_python]; km_go. Qed.
#[local] Hint Resolve km_recover km_restore km_upload km_upload_python : guest.
Lemma km_long code : keeps_machine (stage_long_command code).
Proof. unfold stage_long_command. km_go. Qed.
Lemma km_stdin data : keeps_machine (stage_stdin data).
Proof. unfold stage_stdin. km_go. Qed.
Lemma km_python_code b64 : keeps_machine (stage_pyrunner_code b64).
Proof. unfold stage_pyrunner_code. km_go. Qed.
#[local] Hint Resolve km_long km_stdin km_python_code : guest.
Lemma km_begin code timeout mode : keeps_machine (begin_shell_exec code timeout mode).
Proof. unfold begin_shell_exec. km_go. Qed.
Lemma km_slice state ns : keeps_machine (run_shell_slice state ns).
Proof. unfold run_shell_slice. km_go. Qed.
Lemma km_finish state trim_it : keeps_machine (finish_shell_exec state trim_it).
Proof. unfold finish_shell_exec. km_go. Qed.
Lemma km_reseed : keeps_machine reseed_pyrunner.
Proof. unfold reseed_pyrunner. km_go. Qed.
Lemma km_restart : keeps_machine restart_pyrunner.
Proof. unfold restart_pyrunner. km_go. Qed.
#[local] Hint Resolve km_begin km_slice km_finish km_reseed km_restart : guest.
Lemma km_revive : keeps_machine revive_pyrunner.
Proof. unfold revive_pyrunner. km_go. Qed.
#[local] Hint Resolve km_revive : guest.
Lemma km_python code timeout : keeps_machine (exec_python code timeout).
Proof. unfold exec_python. km_go. Qed.
Lemma km_refusal : keeps_machine refusal.
Proof. unfold refusal. km_go. Qed.
Lemma km_to_end fuel : ∀ state, keeps_machine (run_to_end fuel state).
Proof. induction fuel as [|fuel IH]; intros state; cbn [run_to_end]; km_go. Qed.
#[local] Hint Resolve km_python km_refusal km_to_end : guest.
Lemma km_exec code timeout : keeps_machine (exec_code code timeout).
Proof. unfold exec_code. km_go. Qed.
Lemma km_running ns : keeps_machine (slice_running ns).
Proof. unfold slice_running. km_go. Qed.
#[local] Hint Resolve km_running : guest.
Lemma km_exec_slice code timeout ns mode : keeps_machine (exec_slice code timeout ns mode).
Proof. unfold exec_slice. km_go. Qed.
Lemma km_write data : keeps_machine (write_stdin data).
Proof. unfold write_stdin. km_go. Qed.
Lemma km_interrupt : keeps_machine interrupt.
Proof. unfold interrupt. km_go. Qed.
Lemma km_seed output : kept (E := E) I (mod_guest (fun g => fold_left (fun g d => sb_seed_working_directory d.1 d.2 g) (omap reported_directory (str_lines output)) g)).
Proof.
  apply kept_mod. intros g Hg. revert g Hg. generalize (omap reported_directory (str_lines output)) as l. intros l. induction l as [|d l IH]; intros g Hg; [done|].
  cbn. by apply IH, sk_seed.
Qed.
Lemma km_prepare : keeps_machine prepare_tracing.
Proof. unfold prepare_tracing. apply km_bind; [km_go|]. intros ready. case_match; [km_go|]. apply km_bind; [km_go|]. intros prompt. apply km_bind; [km_go|]. intros output. apply km_on, km_seed. Qed.
Lemma km_trace_start o : keeps_machine (trace_start o).
Proof.
  assert (Hq : ∀ q, keeps_machine (on_machine (mod_guest (sb_set_trace_quiet q)))) by (intros q; apply km_on, kept_mod; intros g; apply sk_quiet).
  unfold trace_start. apply km_bind; [apply km_on, kept_mod; intros g; apply sk_start_trace|]. intros []. apply km_bind; [km_go|]. intros traced.
  apply km_bind; [|intros ?; km_go]. case_match; [|km_go]. apply km_bind; [apply Hq|]. intros []. apply km_bind; [apply km_prepare|]. intros []. apply Hq.
Qed.
Lemma km_trace_stop : keeps_machine trace_stop.
Proof. unfold trace_stop. apply km_bind; [apply km_on, kept_mod; intros g; apply sk_stop_trace|]. intros []. km_go. Qed.
Lemma km_suspend : keeps_machine suspend.
Proof. unfold suspend. km_go. Qed.
End KeptSession.

(** *** Requests *)

Section Sound.
Context {LB : LoopBound} {G E : Type} {GU : Guest G} {HO : SystemHost E} {SB : Sandbox G E} {FI : Files E}.
Context {LD : Lz4Decoder} {TA : Target} {B64 : Base64} (I : G -> Prop) {GK : GuestKeeps I} {SK : SandboxKeeps I}.

Definition all_sound (m : @SessionManager G) : Prop := ∀ k sess, sessions m !! k = Some sess → I (machine sess).

Lemma with_session_sound {A} h (m : ST (Session G * E) (Result A SessionError)) s r s' :
  keeps_machine I m → all_sound s.1 → with_session h m s = Some (r, s') → all_sound s'.1.
Proof.
  intros Hm Hs. unfold with_session. destruct (sessions s.1 !! h) as [sess|] eqn:Eh; [|by intros [= <- <-]].
  destruct (m (sess, s.2)) as [[b [sess' e]]|] eqn:Em; [|done]. intros [= <- <-] k x. cbn. intros Hk. destruct (decide (k = h)) as [->|Hne].
  - rewrite lookup_insert_eq in Hk. injection Hk as <-. exact (Hm (sess, s.2) b (sess', e) (Hs _ _ Eh) Em).
  - rewrite lookup_insert_ne in Hk by done. by eapply Hs.
Qed.

Lemma serve_sound rq h s i s' : touched rq = Some h → all_sound s.1 → serve rq s = Some (i, s') → all_sound s'.1.
Proof.
  destruct rq; try done; intros _ Hs Hrun; cbn [serve] in Hrun; unbind Hrun r Hr; injection Hrun as <- <-.
  5: { injection Hr as <- <-. intros k sess. cbn. intros Hk. apply lookup_delete_Some in Hk as [_ Hk]. by eapply Hs. }
  5: { unfold session_suspend in Hr. unbind Hr b Hb. apply (with_session_sound _ _ _ _ _ (km_suspend I) Hs) in Hb.
       destruct b as [delta|err]; [|by injection Hr as <- <-]. unbind Hr w Hw. apply quiet_on_outside in Hw as [W1 _]. injection Hr as <- <-. unfold all_sound. rewrite W1. exact Hb. }
  all: eapply with_session_sound; [|exact Hs|exact Hr].
  - by apply (km_exec I).
  - by apply (km_exec_slice I).
  - by apply (km_interrupt I).
  - by apply (km_write I).
  - by apply km_trace_start.
  - by apply km_trace_stop.
Qed.
End Sound.

(** ** The machines of sessions *)

Section AssembledSessions.
Context {LB : LoopBound} {FE : FloatEnv}.
Context {H Udp Tcp_ G C : Type} {HN : HostNet H Udp Tcp_} {HG : HttpsGateway G C SecretBinding H} {LK : Layouts TcpKey}.
Context {HL : HostLaws H Udp Tcp_} {GL : GatewayLaws G C SecretBinding H}.
Context {HF FsFile : Type} {HFS : HostFs HF FsFile} {LZ : Layouts Z} {HFL : HostFsLaws HF FsFile} {J : Json} {W : WallClock}.
Context {E : Type} {HO : SystemHost E} {FI : Files E} {LD : Lz4Decoder} {TA : Target} {B64 : Base64}.
Context (new_tls : ST E (option C)) (new_env : ST E (Env H)) (new_fs : ST E HF).
Abbreviation Net := (SlirpBackend Udp Tcp_ G C SecretBinding * Env H)%type.
Abbreviation Bus := (MachineBus Net (VirtioFs HF) SyscallTracer).
Abbreviation sound := (hart_wf (B := Bus)).

Lemma port_put_wf p f (s : Hart * Bus) : (∀ u, uart_wf u → uart_wf (f u)) → sound s → sound (on_bus_of (on_port p f) s).
Proof.
  destruct s as [h b]. intros Hf Hs. apply (bus_put_wf h b); [done|]. pose proof (hart_bus _ _ Hs) as Hb.
  destruct p; cbn [on_port]; apply (uart_put_ok b _ Hb), Hf, Hb.
Qed.

#[local] Instance machine_keeps : GuestKeeps sound.
Proof.
  split.
  - intros p byte s. apply port_put_wf. intros u Hu. apply push_rx_wf; [|done]. by apply wrap_range.
  - intros p s. apply port_put_wf. intros u []. by split.
  - intros [h b]. apply machine_step_wf. constructor.
  - intros n [h b] g' Hs [= <-]. revert Hs. apply machine_step_wf. constructor.
  - intros n [h b] g' Hs [= <-]. revert Hs. apply machine_step_wf. constructor.
  - intros [h b]. apply machine_step_wf. constructor.
  - intros [h b] g' Hs Hp. revert Hs. apply machine_step_wf. cbn in Hp. unfold zoom in Hp. cbn [fst snd] in Hp.
    destruct (poll (b, hart_csr h)) as [[[] [b' c]]|] eqn:Ep; [|done]. injection Hp as <-. by apply ms_poll.
  - intros n s r g' Hn Hs Hr. cbn in Hr. unfold run_result in Hr. apply st_bind_Some in Hr as ([r'|] & s1 & Hr & Hret); [|done]. injection Hret as <- <-.
    revert Hs. apply machine_step_wf. exact (ms_run s s1 false n _ Hn Hr).
  - intros n s r g' Hn Hs Hr. cbn in Hr. unfold run_result in Hr. apply st_bind_Some in Hr as ([r'|] & s1 & Hr & Hret); [|done]. injection Hret as <- <-.
    revert Hs. apply machine_step_wf. exact (ms_run s s1 true n _ Hn Hr).
Qed.

#[local] Instance sandbox_keeps : SandboxKeeps (E := E) (SB := machine_sandbox new_tls new_env new_fs) sound.
Proof.
  split.
  - intros o [h b]. apply front_end_wf. constructor.
  - intros [h b]. apply front_end_wf. constructor.
  - intros q [h b]. apply front_end_wf. constructor.
  - intros pid path [h b]. apply front_end_wf. constructor.
Qed.

(** C8: whatever is asked of a session, its machine stays well formed.  On the
    assembled machine, with the network stack, the shared directories and the tracer
    behind the bus: commands and their slices, input, interrupts, tracing, suspending
    and closing, with any bytes and any timeouts, leave every machine the manager keeps
    in a state in which registers and CSRs are in range, caches agree with RAM and every
    device keeps its invariant, if it was in one before. *)
Theorem sessions_stay_well_formed rq h (s s' : @SessionManager (Hart * Bus) * E) i :
  touched rq = Some h →
  (∀ k sess, sessions s.1 !! k = Some sess → ctx_wf (hart_ctx (machine sess).1 (machine sess).2) ∧ machine_ok (machine sess).2) →
  serve (SB := machine_sandbox new_tls new_env new_fs) rq s = Some (i, s') →
  ∀ k sess, sessions s'.1 !! k = Some sess → ctx_wf (hart_ctx (machine sess).1 (machine sess).2) ∧ machine_ok (machine sess).2.
Proof.
  intros Ht Hs Hrun k sess Hk.
  assert (Hall : all_sound sound s'.1).
  { refine (serve_sound sound rq h s i s' Ht _ Hrun). intros k' sess' Hk'. exact (proj1 (Hs _ _ Hk')). }
  split; [by eapply Hall|]. pose proof (Hall _ _ Hk) as Hw. destruct (machine sess). by eapply hart_bus.
Qed.
End AssembledSessions.

Section MachineDemo.
Import QuietHost TinyFs.
#[local] Instance secret_gateway : HttpsGateway Empty_set Empty_set SecretBinding (list Z) := {|
  gateway_new := fun (c : Empty_set) _ _ => match c with end; push_from_guest := fun _ => mret tt; gateway_failed := fun _ => true;
  pull_to_guest := fun _ => mret None; gateway_eof := fun _ => true; gateway_has_pending := fun _ => false;
  gateway_shutdown_write := mret tt
|}.
#[local] Instance secret_gateway_laws : GatewayLaws Empty_set Empty_set SecretBinding (list Z).
Proof. refine {| gateway_bytes := fun _ => True |}; [by intros [] | by intros ? [] | by intros ? [] | by intros []]. Defined.
#[local] Instance demo_no_json : Json := fun _ => [].
#[local] Instance demo_no_clock : WallClock := fun _ => 0.
#[local] Existing Instances Toy.toy_host Toy.files Toy.decoder Toy.target Toy.toy_encoder env_zero.

Abbreviation DemoBus := (MachineBus (SlirpBackend unit unit Empty_set Empty_set SecretBinding * Env (list Z)) (VirtioFs TinyFs.Host) SyscallTracer).
Abbreviation DemoManager := (@SessionManager (Hart * DemoBus)).

Definition demo_machine (b : DemoBus) : Hart * DemoBus :=
  (hart_new 0x1000, attach_fs [mkMount srv [] false] demo_host (attach_net_with_secrets None [] (mkEnv 1 []) b)).
Definition demo_manager (b : DemoBus) : DemoManager :=
  mkManager {[1 := mkSession (demo_machine b) (as_bytes "# ") true false false false false false (Some (exec_state 30 0 false)) [] []]} 2 None 2.

Lemma demo_machine_sound b : bus_new 4096 demo_ram 5 = Some b → hart_wf (demo_machine b).
Proof.
  intros Hb. assert (Hr : ram_inv (demo_ram, 5)) by (split; [apply demo_ram_wf | by split]).
  assert (H0 : hart_wf (hart_new 0x1000, b)) by (apply hart_new_wf; [done | done | by eapply bus_new_ok]).
  eapply front_end_wf; [apply fe_fs|]. eapply front_end_wf; [apply fe_net|]. exact H0.
Qed.

(** A line for a running command is typed into the serial port of its machine. *)
Lemma sessions_stay_well_formed_witness :
  ∃ (b : DemoBus) (s' : DemoManager * unit), bus_new 4096 demo_ram 5 = Some b ∧
    serve (SB := machine_sandbox (mret None) (mret (mkEnv 1 [])) (mret demo_host)) (RqStdin 1 [121; 10]) (demo_manager b, tt) = Some (None, s') ∧
    ∀ k sess, sessions s'.1 !! k = Some sess → ctx_wf (hart_ctx (machine sess).1 (machine sess).2) ∧ machine_ok (machine sess).2.
Proof.
  destruct (bus_new 4096 demo_ram 5) as [b|] eqn:Hb; [|done]. exists b. eexists. split; [done|]. split; [reflexivity|].
  eapply (sessions_stay_well_formed (mret None) (mret (mkEnv 1 [])) (mret demo_host) (RqStdin 1 [121; 10]) 1 (demo_manager b, tt)); [done| |reflexivity].
  intros k sess Hk. unfold demo_manager in Hk. cbn [sessions fst] in Hk. apply lookup_singleton_Some in Hk as [<- <-]. pose proof (demo_machine_sound b Hb) as Hw. split; [exact Hw|]. by eapply (hart_bus _ _ Hw).
Defined.
End MachineDemo.

(** ** Slices of a command *)

Section Slices.
Context {LB : LoopBound} {G E : Type} {GU : Guest G} {HO : SystemHost E} {B64 : Base64}.

(** Code that does not touch the running command of the session. *)
Definition keeps_exec {A} (m : ST (Session G * E) A) : Prop := ∀ s a s', m s = Some (a, s') → exec s'.1 = exec s.1.

Lemma ke_bind {A B} (m : ST (Session G * E) A) (f : A -> ST (Session G * E) B) : keeps_exec m → (∀ a, keeps_exec (f a)) → keeps_exec (m ≫= f).
Proof. intros Hm Hf s b s' E1. apply st_bind_Some in E1 as (a & s1 & E1 & E2). apply Hf in E2. apply Hm in E1. congruence. Qed.
Lemma ke_ret {A} (a : A) : keeps_exec (mret a).
Proof. by intros s b s' [= <- <-]. Qed.
Lemma ke_get {A} (f : Session G -> A) : keeps_exec (get_session f).
Proof. by intros s b s' [= <- <-]. Qed.
Lemma ke_mod f : (∀ s, exec (f s) = exec s) → keeps_exec (mod_session f).
Proof. intros Hf s b s' [= <- <-]. cbn. by rewrite Hf. Qed.
Lemma ke_on {A} (m : ST (G * E) A) : keeps_exec (on_machine m).
Proof. intros s a s' Hrun. by apply on_machine_inv in Hrun as (g & e & _ & ->). Qed.
#[local] Hint Resolve ke_ret ke_get ke_on : guest.
#[local] Hint Extern 1 (keeps_exec (mod_session _)) => apply ke_mod; reflexivity : guest.

Ltac ke_go := repeat first [ solve [eauto with guest nocore] | apply ke_bind; [|intros ?] | case_match; try discriminate ].

Lemma ke_type bytes : keeps_exec (type_and_drain bytes).
Proof. unfold type_and_drain. ke_go. Qed.
#[local] Hint Resolve ke_type : guest.
Lemma ke_recover : keeps_exec recover_shell.
Proof. unfold recover_shell. ke_go. Qed.
Lemma ke_restore : keeps_exec restore_terminal.
Proof. apply ke_type. Qed.
#[local] Hint Resolve ke_recover ke_restore : guest.
Lemma ke_finish state trim_it : keeps_exec (finish_shell_exec state trim_it).
Proof. unfold finish_shell_exec. ke_go. Qed.
Lemma ke_slice state ns : keeps_exec (run_shell_slice state ns).
Proof. unfold run_shell_slice. ke_go. Qed.

Lemma begin_starts code timeout mode s s' : begin_shell_exec code timeout mode s = Some (tt, s') → is_Some (exec s'.1).
Proof.
  assert (Hlast : ∀ state (s1 s2 : Session G * E), mod_session (fun z : Session G => z <| exec := Some state |>) s1 = Some (tt, s2) → is_Some (exec s2.1)).
  { intros state s1 s2 [= <-]. by eexists. }
  intros H. unfold begin_shell_exec in H. cbv zeta in H. do 11 (apply st_bind_Some in H as (? & ? & _ & H)). by eapply Hlast.
Qed.

(** What a slice of a running command comes to. *)
Lemma slice_running_spec ns s r s' : slice_running ns s = Some (r, s') →
  match r with
  | Ok o => is_Some (exec s.1) ∧ match slice_exit_code o with None => is_Some (exec s'.1) | Some _ => exec s'.1 = None end
  | Err e => e = SeNoCommand ∧ exec s.1 = None ∧ s' = s
  end.
Proof.
  unfold slice_running. intros H. unbind H running Hget. injection Hget as <- <-. unbind H u Hmod. injection Hmod as <- <-.
  destruct (exec s.1) as [state|] eqn:Ee.
  - unbind H res Hrun. apply ke_slice in Hrun. unbind H complaint Hd. apply ke_on in Hd. destruct (res.1) eqn:Eo.
    + unbind H ended Hf. apply ke_finish in Hf. injection H as <- <-. split; [done|]. cbn. rewrite Hf, Hd, Hrun. done.
    + unbind H ended Hf. apply ke_finish in Hf. injection H as <- <-. split; [done|]. cbn. rewrite Hf, Hd, Hrun. done.
    + unbind H prompt Hp. injection Hp as <- <-. destruct (drain_output _ _) as [out st1]. destruct (drain_stderr st1) as [er st2].
      unbind H v Hm. injection Hm as <- <-. injection H as <- <-. split; [done|]. cbn. done.
  - injection H as <- <-. split; [done|]. split; [done|]. destruct s as [sess e]. cbn in *. rewrite <- Ee. by destruct sess.
Qed.

(** C16: a command reports how it ended exactly once.  A slice that returns no exit status
    leaves the command running; one that returns a status leaves none, so that the next
    call without a command is an error; and every error leaves the session as it was: of
    a machine that is off, of a shell that was lost, of code for the Python runner, and
    of a call without a command when none runs. *)
Theorem slice_reports_end_once code timeout ns mode s r s' :
  exec_slice code timeout ns mode s = Some (r, s') →
  match r with
  | Ok o =>
      powered_off s.1 = false ∧ shell_lost s.1 = false ∧ (code = None → is_Some (exec s.1)) ∧
      match slice_exit_code o with None => is_Some (exec s'.1) | Some _ => exec s'.1 = None end
  | Err e =>
      s' = s ∧ e = (if powered_off s.1 then SePoweredOff else if shell_lost s.1 then SeShellLost else match code with Some _ => SeNoSlicing | None => SeNoCommand end)
  end.
Proof.
  unfold exec_slice. intros H. unbind H refused Href. assert (Hr : refused = (if powered_off s.1 then Some SePoweredOff else if shell_lost s.1 then Some SeShellLost else None) ∧ x = s).
  { unfold refusal in Href. unbind Href off Ho. injection Ho as <- <-. unbind Href lost Hl. injection Hl as <- <-. by injection Href as <- <-. }
  destruct Hr as [-> ->]. destruct (powered_off s.1); [by injection H as <- <-|]. destruct (shell_lost s.1); [by injection H as <- <-|].
  destruct code as [code|].
  - unbind H python Hp. injection Hp as <- <-. destruct (_ || _); [by injection H as <- <-|].
    unbind H u1 Hd. unbind H u2 Hb. destruct u2. apply begin_starts in Hb. apply slice_running_spec in H. destruct r as [o|err]; [by destruct H as [_ H]|].
    destruct H as (_ & Hn & _). rewrite Hn in Hb. by destruct Hb.
  - apply slice_running_spec in H. destruct r as [o|err]; [by destruct H|]. by destruct H as (-> & _ & ->).
Qed.
End Slices.

(** A slice of no time: the command goes on. *)
Lemma slice_reports_end_once_witness :
  let s := (toy_session <| exec := Some (exec_state 30 0 false) |>, tt) in
  ∃ s', exec_slice (GU := Toy.toy_guest) (HO := Toy.toy_host) (LB := Toy.toy_bound) (B64 := Toy.toy_encoder) None None 0 Closed s = Some (Ok (mkSlice [] [] None), s') ∧
    powered_off (GU := Toy.toy_guest) s.1 = false ∧ shell_lost s.1 = false ∧ (None = @None (list Z) → is_Some (exec s.1)) ∧ is_Some (exec s'.1).
Proof.
  eexists. split; [vm_compute; reflexivity|].
  eapply (slice_reports_end_once (GU := Toy.toy_guest) (HO := Toy.toy_host) (LB := Toy.toy_bound) (B64 := Toy.toy_encoder) None None 0 Closed (toy_session <| exec := Some (exec_state 30 0 false) |>, tt) (Ok (mkSlice [] [] None))).
  vm_compute. reflexivity.
Defined.

(** A delta too short for its length field stops the component. *)
Lemma short_delta_panics bytes : (length bytes < 4)%nat → split_meta bytes = None.
Proof. intros H. unfold split_meta. by rewrite (proj2 (Nat.ltb_lt _ _) H). Qed.
